(* ===== verification/_CoqProject ===== *)
-Q . S2P
Prelude.v
Stdio.v
Bytes.v
Clock.v
OverlayLists.v
LinkState.v
DistVec.v
Packets.v
OverlayNode.v
OverlayClients.v
OverlayConf.v
Malloc.v
CacheSim.v
Museum.v
Semaphore.v
Queue.v
GapList.v
Upkt.v
RcvBuffer.v
SendtoDbg.v
Rcv.v
RcvSpec.v
RcvClose.v
Ncp.v
NcpSpec.v
Transfer.v
RtPkt.v
RtSrv.v
RtSrvSpec.v
RtRcv.v
RtRcvSpec.v
RtStream.v
StrTable.v
SymTab.v
Tree.v
Mips.v
Codegen.v
CodegenSpec.v
CodegenSem.v
CodegenThm.v
Seman.v
SemanSpec.v
SemanScope.v
SemanDecl.v
SemanThm.v
Cxx.v
DiGraph.v
Command.v
LockManager.v
LockSpec.v
Scheduler.v
SchedSpec.v
