(* ===== verification/Prelude.v ===== *)
(** * Verified models of the systems course projects

    The repository holds the projects of several university courses.  This
    development models the programs whose own logic is substantial, and proves
    what makes them correct.  The programs do not call each other; inside each,
    the files below follow its source files.

    ** The programs, their files and their theorems

    Shared: [Prelude.v] (outcomes of C code, the monad [prog], machine integers,
    arrays, triples [hoare]/[keeps], tactics), [Stdio.v] ([fgets], [strtol],
    [atoi] and the like), [Bytes.v] (little-endian fields of buffers), [Clock.v]
    ([struct timeval] and its arithmetic).

    *** Overlay network, CS1652/project3/proj3-code

    A node keeps tables of nodes, links and clients and routes packets.
    - [OverlayLists.v]: node_list.c, edge_list.c, client_list.c.
    - [LinkState.v], [DistVec.v]: the two routing algorithms of overlay_node.c.
      Dijkstra's algorithm on [uint32_t] arrays computes shortest paths and the
      forwarding table their first hops; the distance vector is computed in a
      block a quarter as large as needed, and where the allocator rounds up
      enough it satisfies the Bellman equation; it poisons reverse routes.
    - [Packets.v]: packets.h, with round trips.
    - [OverlayNode.v], [OverlayClients.v]: the handlers, timers and connections
      of overlay_node.c over one state with a trace of what leaves the node;
      an invariant of all callbacks, floods that stop, packets that go where the
      routes say, client connections under split messages.
    - [OverlayConf.v]: the configuration file and [main]; printing and parsing a
      configuration is a round trip, and the start-up ends in a correct state.
    The event loop and the alarms of libspread-util are parameters: the order
    of callbacks is an arbitrary sequence.

    *** File transfer, CS2520/project1

    - [GapList.v] (gap_list.c), [RcvBuffer.v] (rcv_buffer.c): linked structures
      on explicit heaps, refined to sets and finite maps.
    - [Upkt.v] (net_include.h, gap_list.h), [SendtoDbg.v] (sendto_dbg.c, with
      the loss threshold in IEEE doubles).
    - [Rcv.v] (rcv.c), [RcvSpec.v], [RcvClose.v]: the receiver; one transfer
      under loss, repetition and reordering, then several clients in turn.
    - [Ncp.v] (ncp.c), [NcpSpec.v]: the sender, its window and its reports, and
      that it always comes to an end once everything is sent.
    - [Transfer.v]: sender, network and receiver together, where the sender is
      given reports, in any order: safety of every turn, the file arrives
      unchanged, and no state from which it could not arrive.  A reply to INIT,
      SLEEP or FIN that the sender is given instead is taken for a report, and
      the next turn is undefined.
    [select] is the environment: it delivers a datagram or times out, one event
    per call.

    *** Real-time streaming, CS2520/project2

    - [RtPkt.v] (net_include.h): the packets and the records of times.
    - [RtSrv.v] (rt_srv.c), [RtSrvSpec.v]: the server, its window of the last
      packets, requests and repetitions, one loop turn per event; all it puts on
      the wire is control packets and the stream under its numbers, and only
      requests before there is a client can make it fail: a LIVE, and an INIT
      whose address does not fit the blocks of [malloc].
    - [RtRcv.v] (rt_rcv.c), [RtRcvSpec.v]: the client, its buffer of packets and
      gaps, the delivery after the latency window; no network makes it fail, all
      it hands on is of the stream, and in order when packets come fresh.
    - [RtStream.v]: both with a network that loses, repeats and reorders.
    Bounds: fewer than 187000 packets (their numbers times the record size stay
    in an [int]), fewer than 2^31 - 1 turns, a clock that does not go back, round
    trips under 28 minutes.

    *** Compiler, CS2210

    - [StrTable.v] (table.c), [SymTab.v] (proj3.c), [Tree.v] (proj2.c): strings
      are interned, the symbol table behaves like a list of scopes and a map,
      trees are built as asked.
    - [Mips.v], [Codegen.v] (codegen.c), [CodegenSpec.v], [CodegenSem.v],
      [CodegenThm.v]: the code that is written for expressions, assignments,
      conditionals and loops does on the machine what they mean.
    - [Seman.v] (seman.c), [SemanSpec.v], [SemanScope.v], [SemanDecl.v],
      [SemanThm.v]: names are resolved as a reference resolver says, declarations
      are entered, blocks are closed whatever the tree, undeclared names are
      reported; together with the code generator, the statements of the parser's
      tree are compiled correctly.
    The tree comes from the parser: the theorems state what they need of it.

    *** Database, CS2550/pittRCDB

    C++ beside the C projects: a scheduler of transactions with locks.
    - [Cxx.v]: maps in the order of their keys, exceptions that nobody catches.
    - [DiGraph.v]: DiGraph.cpp and DeadlockDetector.cpp; the wait-for graph stays
      acyclic, a wait is refused exactly when it closes a cycle; what the end of a
      transaction breaks.
    - [Command.v]: [parse] of SchedulerInternal.cpp and [printOperation] of
      Debug.cpp; what is logged reads back, with two exceptions.
    - [LockManager.v], [LockSpec.v]: LockManager.cpp; record locks exclude
      writers, table requests are answered as the modes say, a release is
      complete; the one escalation that lets a conflicting pair in.
    - [Scheduler.v], [SchedSpec.v]: Scheduler.cpp and SchedulerInternal.cpp;
      strict two-phase locking in every state that commands lead to, but for
      scans beside the writer that the escalation lets in; waiting writers that
      make the scheduler loop, ends that keep their locks.
    The scheduler runs its operations through the class [Store], which stands for
    Transaction.cpp; its laws [StoreLaws] only say which operations of a
    transaction can still be undone.  The detector's theorems ask that the
    numbers of the transactions are below their count, which the program does not
    ensure.

    *** The others

    - [Malloc.v]: CS449/malloclab-handout/mm.c on memlib.c, refined to a set of
      disjoint payloads; the limits of its arithmetic.
    - [CacheSim.v]: CS449/cachelab-handout/csim.c, refined to lists in order of
      use; inclusion.
    - [Queue.v]: CS449/queuelab-handout/queue.c, refined to a list; no leaks.
    - [Museum.v]: museumsim.c and the checks of main.c of CS1550 project 2:
      threads, one mutex and four condition variables under any schedule, with
      wakeups that nobody signalled; the rules of the museum (with the one that a
      visitor who wakes up so breaks), absence of deadlock, termination.
    - [Semaphore.v]: the system calls of cs1550.c of CS1550 project 1 as
      interleaved atomic steps of any number of tasks; a search of the list of
      semaphores and a [list_add] are one step each, although the program holds
      only a read lock around them.

    ** Conventions

    C code is a [prog]: it returns ([Ret]), leaves the process ([Exited]), is
    undefined ([Undef]) or exhausts the fuel of a loop ([Fuel]).  Undefined are:
    accesses outside of arrays and of the live blocks of a heap, indeterminate
    values, overflow of signed integers, a [bool] that is not 0 or 1.  Unsigned
    arithmetic wraps.  Fuel bounds loops over linked structures by the number of
    blocks of the heap and loops over arrays by their length, so it is always
    enough: the theorems conclude [Ret].  The compiler's functions take their
    fuel as a parameter and the theorems ask for the height of the tree.
    Library and system calls, [malloc] among them, answer from oracles indexed
    by the number of calls made before.

    In the compiler memory for trees is assumed to be there, and trees are stored
    in attributes as integers.  [LookUpHere] and [CloseBlock] are undefined when
    they go below the stack, as the declaration of a name outside of all blocks
    does.

    ** Not modelled

    - What the programs print, unless it is their result.
    - libspread-util: the vendored events, alarms and memory of the Spread
      toolkit.
    - mdriver.c, clock.c, queueTester.c, Tests: drivers and tests; t_ncp.c and
      t_rcv.c: the same transfer over TCP, a copy loop around [send] and [recv].
    - http_client.c, http_server1.c, http_server2.c, overlay_client.c,
      udp_stream.c, udp_stream_rcv.c: socket input and output with little else.
    - lex.l and grammar.y: input of generators.
    - log.c and the options of the museum's main.c: output and parsing.
    - rt_srv_ec.c and rt_rcv_ec.c: the streaming programs again, with artificial
      drift and delays in averages of doubles.
    - The storage of CS2550/pittRCDB (Transaction.cpp, TableManager.cpp,
      BlockAllocator.cpp, DiskManager.cpp, BloomFilter.cpp): C++ that is reached
      only through the class [Store]; main.cpp and Tests.cpp: drivers. *)
From Stdlib Require Import ZArith Lia.
From stdpp Require Export base tactics numbers list option gmap.
Open Scope Z_scope.

(** ** Machine integers: values are [Z], wrap-around is written out. *)

Definition wrap (w z : Z) : Z := z mod 2 ^ w.
Definition u8 (z : Z) : Z := z mod 256.
Definition u16 (z : Z) : Z := z mod 65536.
Definition u32 (z : Z) : Z := z mod 4294967296.
Definition u64 (z : Z) : Z := z mod 18446744073709551616.
(** Conversion to a 32-bit two's complement [int]. *)
Definition i32 (z : Z) : Z := (z + 2147483648) mod 4294967296 - 2147483648.

(** [x++] on an [int]: overflow is undefined. *)
Definition int_incr (x : Z) : option Z := if x <? 2147483647 then Some (x + 1) else None.
(** An [int] sum. *)
Definition int_add (x y : Z) : option Z :=
  if (-2147483648 <=? x + y) && (x + y <? 2147483648) then Some (x + y) else None.

(** ** Arrays indexed by a C integer: [None] is an access out of bounds. *)

Definition aget {A} (l : list A) (i : Z) : option A :=
  if Z.ltb i 0 then None else l !! Z.to_nat i.
Definition aset {A} (l : list A) (i : Z) (x : A) : option (list A) :=
  if Z.leb 0 i && Z.ltb i (Z.of_nat (length l)) then Some (<[Z.to_nat i := x]> l) else None.

(** [for (i = lo; i < lo + n; i++) body] over a state that the body may
    fail to update. *)
Fixpoint for_up {S} (body : Z → S → option S) (lo : Z) (n : nat) (s : S) : option S :=
  match n with
  | O => Some s
  | Datatypes.S n' => s' ← body lo s; for_up body (lo + 1) n' s'
  end.

(** Folding a partial step over the elements of an array, in order. *)
Fixpoint fold_opt {A S} (f : A → S → option S) (l : list A) (s : S) : option S :=
  match l with
  | [] => Some s
  | x :: l' => s' ← f x s; fold_opt f l' s'
  end.

Fixpoint count_true (l : list bool) : nat :=
  match l with
  | [] => O
  | b :: l' => (if b then 1 else 0) + count_true l'
  end.

(** ** The outcome of a C function that runs on a state [S].
    [Ret] is a normal return, [Exited] is [exit] (or [Alarm(EXIT, ...)]),
    [Undef] is undefined behaviour (a null dereference, an access out of
    bounds), [Fuel] is a loop cut by its fuel: theorems show it unreachable. *)

Inductive outcome (S A : Type) : Type :=
| Ret (a : A) (s : S)
| Exited (code : Z) (s : S)
| Undef
| Fuel.
Arguments Ret {S A}. Arguments Exited {S A}.
Arguments Undef {S A}. Arguments Fuel {S A}.

Definition prog (S A : Type) : Type := S → outcome S A.

#[export] Instance prog_ret {S} : MRet (prog S) := λ A a s, Ret a s.
#[export] Instance prog_bind {S} : MBind (prog S) := λ A B f m s,
  match m s with
  | Ret a s' => f a s'
  | Exited c s' => Exited c s'
  | Undef => Undef
  | Fuel => Fuel
  end.

Definition get {S} : prog S S := λ s, Ret s s.
Definition modify {S} (f : S → S) : prog S unit := λ s, Ret tt (f s).
Definition undef {S A} : prog S A := λ _, Undef.
Definition exit_with {S A} (code : Z) : prog S A := λ s, Exited code s.
(** A partial read or update of the state: [None] is undefined behaviour. *)
Definition lift {S A} (o : option A) : prog S A := λ s,
  match o with Some a => Ret a s | None => Undef end.
Definition reads {S A} (f : S → option A) : prog S A := λ s,
  match f s with Some a => Ret a s | None => Undef end.
Definition updates {S} (f : S → option S) : prog S unit := λ s,
  match f s with Some s' => Ret tt s' | None => Undef end.

(** A command on a part of the state. *)
Definition zoom {S T A} (part : S → T) (put : T → S → S) (m : prog T A) : prog S A := λ s,
  match m (part s) with
  | Ret a t => Ret a (put t s)
  | Exited code t => Exited code (put t s)
  | Undef => Undef
  | Fuel => Fuel
  end.

(** [for] over the elements of a snapshot of an array. *)
Fixpoint for_each {S A} (l : list A) (body : A → prog S unit) : prog S unit :=
  match l with
  | [] => mret tt
  | x :: l' => body x ;; for_each l' body
  end.

(** ** Hoare triples.  [safe = true] also rules out undefined behaviour and
    exhausted fuel; process exit is always allowed. *)
Definition post {S A} (safe : bool) (Q : A → S → Prop) (o : outcome S A) : Prop :=
  match o with
  | Ret a s => Q a s
  | Exited _ _ => True
  | Undef | Fuel => safe = false
  end.

Definition hoare {S A} (safe : bool) (P : S → Prop) (m : prog S A) (Q : A → S → Prop) : Prop :=
  ∀ s, P s → post safe Q (m s).

(** A command that keeps [I], whatever else it does. *)
Definition keeps {S A} (I : S → Prop) (m : prog S A) : Prop := hoare false I m (λ _, I).

(** ** Reachability: the reflexive transitive closure with an invariant rule. *)

Definition preserves {S} (R : S → S → Prop) (I : S → Prop) : Prop :=
  ∀ s s', R s s' → I s → I s'.

(** ** Lemmas *)

Create HintDb cint.
Create Rewrite HintDb cint.

Lemma int_add_ok x y : -2147483648 ≤ x + y < 2147483648 → int_add x y = Some (x + y).
Proof. intros H. unfold int_add. by rewrite (proj2 (Z.leb_le _ _)), (proj2 (Z.ltb_lt _ _)) by lia. Qed.
Lemma u32_small z : 0 ≤ z < 4294967296 → u32 z = z.
Proof. apply Z.mod_small. Qed.
Lemma u32_range z : 0 ≤ u32 z < 4294967296.
Proof. by apply Z.mod_pos_bound. Qed.
Lemma u64_small z : 0 ≤ z < 18446744073709551616 → u64 z = z.
Proof. apply Z.mod_small. Qed.
Lemma u64_range z : 0 ≤ u64 z < 18446744073709551616.
Proof. by apply Z.mod_pos_bound. Qed.
Lemma u8_range z : 0 ≤ u8 z < 256.
Proof. by apply Z.mod_pos_bound. Qed.
Lemma i32_small z : -2147483648 ≤ z < 2147483648 → i32 z = z.
Proof. unfold i32. intros. rewrite Z.mod_small; lia. Qed.
Lemma i32_range z : -2147483648 ≤ i32 z < 2147483648.
Proof.
  unfold i32. pose proof (Z.mod_pos_bound (z + 2147483648) 4294967296). lia.
Qed.

#[export] Hint Rewrite u32_small u64_small i32_small using lia : cint.
#[export] Hint Resolve u32_range u64_range u8_range i32_range : cint.

Lemma int_incr_ok x : x < 2147483647 → int_incr x = Some (x + 1).
Proof. intros H. unfold int_incr. by rewrite (proj2 (Z.ltb_lt _ _)) by lia. Qed.

Section arrays.
Context {A : Type}.
Implicit Types (l : list A) (i : Z) (x : A).

Lemma aget_Some l i x : aget l i = Some x ↔ 0 ≤ i ∧ l !! Z.to_nat i = Some x.
Proof. unfold aget. destruct (Z.ltb_spec i 0); split; try naive_solver lia. Qed.

Lemma aget_bounds l i x : aget l i = Some x → 0 ≤ i < Z.of_nat (length l).
Proof. intros [? H]%aget_Some. apply lookup_lt_Some in H. lia. Qed.

Lemma aget_is_Some l i : 0 ≤ i < Z.of_nat (length l) → is_Some (aget l i).
Proof.
  intros. unfold aget. destruct (Z.ltb_spec i 0); [lia|].
  apply lookup_lt_is_Some_2. lia.
Qed.

Lemma aset_Some l i x l' :
  aset l i x = Some l' ↔ (0 ≤ i < Z.of_nat (length l)) ∧ l' = <[Z.to_nat i := x]> l.
Proof.
  unfold aset.
  destruct (Z.leb_spec 0 i), (Z.ltb_spec i (Z.of_nat (length l))); simpl;
    split; try naive_solver lia.
Qed.

Lemma aset_ok l i x :
  0 ≤ i < Z.of_nat (length l) → aset l i x = Some (<[Z.to_nat i := x]> l).
Proof. intros. by apply aset_Some. Qed.

Lemma aset_length l i x l' : aset l i x = Some l' → length l' = length l.
Proof. intros [_ ->]%aset_Some. apply length_insert. Qed.

Lemma aget_aset l i j x l' :
  aset l i x = Some l' → aget l' j = if decide (i = j) then Some x else aget l j.
Proof.
  intros [? ->]%aset_Some. unfold aget.
  destruct (Z.ltb_spec j 0); case_decide; subst; try done; try lia.
  - rewrite list_lookup_insert_eq; [done|lia].
  - rewrite list_lookup_insert_ne; [done|lia].
Qed.

Lemma aget_aset_eq l i x l' : aset l i x = Some l' → aget l' i = Some x.
Proof. intros H. rewrite (aget_aset _ _ _ _ _ H). by rewrite decide_True. Qed.

Lemma aget_aset_ne l i j x l' : aset l i x = Some l' → i ≠ j → aget l' j = aget l j.
Proof. intros H ?. rewrite (aget_aset _ _ _ _ _ H). by rewrite decide_False. Qed.
End arrays.

#[export] Hint Rewrite @length_insert : cint.

(** The loop rule of [for_up]: an invariant that every iteration keeps. *)
Lemma for_up_inv {S} (I : Z → S → Prop) body lo n s :
  I lo s →
  (∀ i t, lo ≤ i < lo + Z.of_nat n → I i t → ∃ t', body i t = Some t' ∧ I (i + 1) t') →
  ∃ t, for_up body lo n s = Some t ∧ I (lo + Z.of_nat n) t.
Proof.
  revert lo s. induction n as [|n IH]; intros lo s H0 Hstep; simpl.
  { exists s. split; [done|]. by rewrite Z.add_0_r. }
  destruct (Hstep lo s) as (t' & Hb & Ht'); [lia|done|]. rewrite Hb. simpl.
  destruct (IH (lo + 1) t' Ht') as (t & Hf & Ht).
  { intros. apply Hstep; [lia|done]. }
  exists t. split; [done|]. by replace (lo + Z.of_nat (Datatypes.S n)) with (lo + 1 + Z.of_nat n) by lia.
Qed.

(** The loop rule of [fold_opt]: the invariant speaks of the elements done. *)
Lemma fold_opt_inv {A S} (I : list A → S → Prop) (f : A → S → option S) l s :
  I [] s →
  (∀ pre x post t, l = pre ++ x :: post → I pre t →
     ∃ t', f x t = Some t' ∧ I (pre ++ [x]) t') →
  ∃ t, fold_opt f l s = Some t ∧ I l t.
Proof.
  intros H0 Hstep.
  assert (∀ pre post t, l = pre ++ post → I pre t →
    ∃ t', fold_opt f post t = Some t' ∧ I l t') as Hgen.
  { intros pre post. revert pre. induction post as [|x post IH]; intros pre t Hl Ht.
    - exists t. rewrite app_nil_r in Hl. by subst.
    - destruct (Hstep pre x post t Hl Ht) as (t' & Hf & Ht'). simpl. rewrite Hf. simpl.
      apply (IH (pre ++ [x])); [|done]. by rewrite <-app_assoc. }
  by apply (Hgen []).
Qed.

Lemma count_true_le l : (count_true l ≤ length l)%nat.
Proof. induction l as [|[] l IH]; simpl; lia. Qed.

Lemma count_true_full l : count_true l = length l → ∀ i b, l !! i = Some b → b = true.
Proof.
  induction l as [|c l IH]; intros H [|i] b Hi; simplify_eq/=.
  - pose proof (count_true_le l). destruct b; [done|lia].
  - apply (IH) with i; [|done]. pose proof (count_true_le l). destruct c; lia.
Qed.

Lemma count_true_insert l i :
  l !! i = Some false → count_true (<[i := true]> l) = S (count_true l).
Proof.
  revert i. induction l as [|c l IH]; intros [|i] Hi; simplify_eq/=; [done|].
  rewrite IH by done. lia.
Qed.

(** Distinct integers of [0, N) are at most [N]. *)
Lemma NoDup_range_length (l : list Z) N :
  NoDup l → (∀ i, i ∈ l → 0 ≤ i < N) → Z.of_nat (length l) ≤ Z.max 0 N.
Proof.
  intros Hnd Hr.
  assert (l ⊆+ seqZ 0 N) as Hsub%submseteq_length.
  { apply NoDup_submseteq; [done|]. intros i Hi. apply elem_of_seqZ. specialize (Hr i Hi). lia. }
  rewrite length_seqZ in Hsub. lia.
Qed.

(** A prefix of a list extended by one element. *)
Lemma app_cons_snoc {A} (ord : list A) x pre i post :
  ord ++ [x] = pre ++ i :: post →
  (pre = ord ∧ i = x ∧ post = []) ∨ (∃ post', post = post' ++ [x] ∧ ord = pre ++ i :: post').
Proof.
  destruct post as [|y post _] using rev_ind; intros H.
  - apply app_inj_tail in H as [-> ->]. auto.
  - right. exists post. rewrite app_comm_cons, app_assoc in H.
    apply app_inj_tail in H as [-> ->]. auto.
Qed.

Lemma rtc_invariant {S} (R : S → S → Prop) (I : S → Prop) s s' :
  preserves R I → rtc R s s' → I s → I s'.
Proof. intros HP. induction 1; eauto. Qed.

(** A command that is known to return. *)
Lemma bind_Ret {S A B} (m : prog S A) (k : A → prog S B) s a s' :
  m s = Ret a s' → (m ≫= k) s = k a s'.
Proof. intros E. unfold mbind, prog_bind. by rewrite E. Qed.
Lemma bind_Ret_inv {S A B} (m : prog S A) (k : A → prog S B) s b s' :
  (m ≫= k) s = Ret b s' → ∃ a s1, m s = Ret a s1 ∧ k a s1 = Ret b s'.
Proof. unfold mbind, prog_bind. destruct (m s) as [a s1| | |]; [|done..]. by exists a, s1. Qed.
Lemma lift_Some {S A} (o : option A) a (s : S) : o = Some a → lift o s = Ret a s.
Proof. by intros ->. Qed.
Lemma reads_Some {S A} (f : S → option A) a (s : S) : f s = Some a → reads f s = Ret a s.
Proof. intros E. unfold reads. by rewrite E. Qed.

Lemma zoom_Ret {S T A} (part : S → T) (put : T → S → S) (m : prog T A) s a t :
  m (part s) = Ret a t → zoom part put m s = Ret a (put t s).
Proof. intros E. unfold zoom. by rewrite E. Qed.

Lemma updates_Some {S} (f : S → option S) x y : f x = Some y → updates f x = Ret tt y.
Proof. intros H. unfold updates. by rewrite H. Qed.

Lemma for_each_app {S A} (l1 l2 : list A) (body : A → prog S unit) s :
  for_each (l1 ++ l2) body s = (for_each l1 body;; for_each l2 body) s.
Proof.
  revert s. induction l1 as [|x l1 IH]; intros s; [done|]. simpl.
  unfold mbind, prog_bind in *. destruct (body x s); [apply IH|done..].
Qed.

(** ** Sums over a list, for counting arguments *)
Section sums.
Context {A : Type}.
Implicit Types (f g : A → Z) (l : list A).

Fixpoint sumz f l : Z := match l with [] => 0 | x :: l' => f x + sumz f l' end.

Lemma sumz_insert f l i x y : l !! i = Some x → sumz f (<[i := y]> l) = sumz f l - f x + f y.
Proof.
  revert i. induction l as [|z l IH]; intros [|i] H; simplify_eq/=; [lia|]. rewrite (IH i H). lia.
Qed.
Lemma sumz_same (h : A → A) f l : (∀ x, f (h x) = f x) → sumz f (h <$> l) = sumz f l.
Proof. intros H. induction l as [|x l IH]; [done|]. rewrite fmap_cons. cbn [sumz]. by rewrite H, IH. Qed.
Lemma sumz_le f g l : (∀ x, x ∈ l → f x ≤ g x) → sumz f l ≤ sumz g l.
Proof.
  induction l as [|x l IH]; intros H; simpl; [done|].
  specialize (IH ltac:(intros y Hy; apply H; by right)). specialize (H x ltac:(by left)). lia.
Qed.
Lemma sumz_ext f g l : (∀ x, x ∈ l → f x = g x) → sumz f l = sumz g l.
Proof. intros H. apply Z.le_antisymm; apply sumz_le; intros x Hx; by rewrite H. Qed.
Lemma sumz_scale c f l : sumz (λ x, c * f x) l = c * sumz f l.
Proof. induction l as [|x l IH]; simpl; [|rewrite IH]; lia. Qed.
Lemma sumz_const c l : sumz (λ _, c) l = c * Z.of_nat (length l).
Proof. induction l as [|x l IH]; simpl; [|rewrite IH]; lia. Qed.
Lemma sumz_replicate f n x : sumz f (replicate n x) = f x * Z.of_nat n.
Proof. induction n as [|n IH]; simpl; [|rewrite IH]; lia. Qed.
Lemma sumz_nonneg f l : (∀ x, 0 ≤ f x) → 0 ≤ sumz f l.
Proof. intros H. induction l as [|x l IH]; simpl; [done|]. specialize (H x). lia. Qed.
Lemma sumz_lookup f l i x : (∀ x, 0 ≤ f x) → l !! i = Some x → f x ≤ sumz f l.
Proof.
  intros H. revert i. induction l as [|y l IH]; intros [|i] Hi; simplify_eq/=.
  - pose proof (sumz_nonneg f l H). lia.
  - specialize (IH i Hi). specialize (H y). lia.
Qed.
Lemma sumz_zero f l x : (∀ x, 0 ≤ f x) → sumz f l = 0 → x ∈ l → f x = 0.
Proof.
  intros H Hs [i Hi]%list_elem_of_lookup. pose proof (sumz_lookup f l i x H Hi). specialize (H x). lia.
Qed.
Lemma sumz_pos f l : 0 < sumz f l → ∃ x, x ∈ l ∧ 0 < f x.
Proof.
  induction l as [|x l IH]; simpl; [lia|]. intros Hs. destruct (decide (0 < f x)) as [|].
  - exists x. split; [by left|done].
  - destruct IH as (y & Hy & ?); [lia|]. exists y. split; [by right|done].
Qed.
End sums.

(** ** Rules of the triples *)
Section hoare.
Context {S : Type} (safe : bool).
Implicit Types (P : S → Prop).

Lemma post_weaken {A} (Q Q' : A → S → Prop) o :
  post safe Q o → (∀ a s, Q a s → Q' a s) → post safe Q' o.
Proof. destruct o; simpl; auto. Qed.

(** Safety from one triple, a frame from another. *)
Lemma post_and {A} (Q Q' : A → S → Prop) o :
  post safe Q o → post false Q' o → post safe (λ a s, Q a s ∧ Q' a s) o.
Proof. by destruct o. Qed.

(** Symbolic execution: a bind runs its first part, then the rest. *)
Lemma post_bind {A B} (Q : B → S → Prop) (m : prog S A) (k : A → prog S B) s :
  post safe (λ a s', post safe Q (k a s')) (m s) → post safe Q ((m ≫= k) s).
Proof. unfold mbind, prog_bind. by destruct (m s). Qed.

Lemma post_reads {A} (Q : A → S → Prop) (f : S → option A) s a :
  f s = Some a → Q a s → post safe Q (reads f s).
Proof. intros H HQ. unfold reads. by rewrite H. Qed.

Lemma post_lift {A} (Q : A → S → Prop) (o : option A) s a :
  o = Some a → Q a s → post safe Q (lift o s).
Proof. intros -> HQ. done. Qed.

Lemma post_updates (Q : unit → S → Prop) f s s' :
  f s = Some s' → Q tt s' → post safe Q (updates f s).
Proof. intros H HQ. unfold updates. by rewrite H. Qed.

Lemma hoare_ret {A} (a : A) P (Q : A → S → Prop) : (∀ s, P s → Q a s) → hoare safe P (mret a) Q.
Proof. intros H s Hs. simpl. auto. Qed.

Lemma hoare_bind {A B} (m : prog S A) (k : A → prog S B) P Q R :
  hoare safe P m Q → (∀ a, hoare safe (Q a) (k a) R) → hoare safe P (m ≫= k) R.
Proof.
  intros Hm Hk s Hs. specialize (Hm s Hs). unfold mbind, prog_bind.
  destruct (m s); simpl in *; auto. by apply Hk.
Qed.

Lemma hoare_weaken {A} (m : prog S A) P P' Q Q' :
  hoare safe P' m Q' → (∀ s, P s → P' s) → (∀ a s, Q' a s → Q a s) → hoare safe P m Q.
Proof. intros Hm HP HQ s Hs. eapply post_weaken; [by apply Hm, HP|auto]. Qed.

Lemma hoare_get P (Q : S → S → Prop) : (∀ s, P s → Q s s) → hoare safe P get Q.
Proof. intros H s Hs. simpl. auto. Qed.

Lemma hoare_modify f P (Q : unit → S → Prop) :
  (∀ s, P s → Q tt (f s)) → hoare safe P (modify f) Q.
Proof. intros H s Hs. simpl. auto. Qed.

Lemma hoare_lift {A} (o : option A) P Q :
  (∀ a, o = Some a → ∀ s, P s → Q a s) → (o = None → safe = false) →
  hoare safe P (lift o) Q.
Proof. intros H1 H2 s Hs. unfold lift. destruct o as [a|]; simpl; [by apply H1|by apply H2]. Qed.

Lemma hoare_reads {A} (f : S → option A) P Q :
  (∀ s a, P s → f s = Some a → Q a s) → (∀ s, P s → f s = None → safe = false) →
  hoare safe P (reads f) Q.
Proof. intros H1 H2 s Hs. unfold reads. destruct (f s) eqn:E; simpl; eauto. Qed.

Lemma hoare_updates (f : S → option S) P Q :
  (∀ s s', P s → f s = Some s' → Q tt s') → (∀ s, P s → f s = None → safe = false) →
  hoare safe P (updates f) Q.
Proof. intros H1 H2 s Hs. unfold updates. destruct (f s) eqn:E; simpl; eauto. Qed.

Lemma hoare_exit {A} code P (Q : A → S → Prop) : hoare safe P (exit_with code) Q.
Proof. by intros s Hs. Qed.

Lemma hoare_if {A} (b : bool) (m1 m2 : prog S A) P Q :
  (b = true → hoare safe P m1 Q) → (b = false → hoare safe P m2 Q) →
  hoare safe P (if b then m1 else m2) Q.
Proof. destruct b; auto. Qed.

(** A loop whose body keeps [I]. *)
Lemma hoare_for_each {A} (l : list A) body (I : S → Prop) :
  (∀ x, x ∈ l → hoare safe I (body x) (λ _, I)) →
  hoare safe I (for_each l body) (λ _, I).
Proof.
  induction l as [|x l IH]; intros H; simpl; [by apply hoare_ret|].
  eapply hoare_bind; [apply H; set_solver|]. intros []. apply IH. set_solver.
Qed.

(** A counted loop with an invariant that speaks of the iterations done. *)
Lemma hoare_for_seq (n : nat) body (I : nat → S → Prop) :
  (∀ k, (k < n)%nat → hoare safe (I k) (body k) (λ _, I (Datatypes.S k))) →
  hoare safe (I O) (for_each (seq 0 n) body) (λ _, I n).
Proof.
  intros H.
  assert (∀ m k, (k + m = n)%nat → hoare safe (I k) (for_each (seq k m) body) (λ _, I n)) as Hgen.
  { induction m as [|m IH]; intros k Hk; simpl.
    - apply hoare_ret. intros s Hs. by replace n with k by lia.
    - eapply hoare_bind; [apply H; lia|]. intros []. apply IH. lia. }
  by apply Hgen.
Qed.
End hoare.

(** ** Frame rules: what a command keeps, by its structure alone *)
Section keeps.
Context {S : Type} (I : S → Prop).

Lemma keeps_ret {A} (a : A) : keeps I (mret a).
Proof. by intros s Hs. Qed.
Lemma keeps_bind {A B} (m : prog S A) (k : A → prog S B) :
  keeps I m → (∀ a, keeps I (k a)) → keeps I (m ≫= k).
Proof. intros Hm Hk. by apply (hoare_bind _ _ _ _ (λ _, I)). Qed.
Lemma keeps_get : keeps I get.
Proof. by intros s Hs. Qed.
Lemma keeps_modify f : (∀ s, I s → I (f s)) → keeps I (modify f).
Proof. intros Hf s Hs. by apply Hf. Qed.
Lemma keeps_reads {A} (f : S → option A) : keeps I (reads f).
Proof. intros s Hs. unfold reads. by destruct (f s). Qed.
Lemma keeps_lift {A} (o : option A) : keeps I (lift o).
Proof. intros s Hs. unfold lift. by destruct o. Qed.
Lemma keeps_updates f : (∀ s s', I s → f s = Some s' → I s') → keeps I (updates f).
Proof. intros Hf s Hs. unfold updates. destruct (f s) eqn:E; [by eapply Hf|done]. Qed.
Lemma keeps_exit {A} code : keeps I (exit_with (A:=A) code).
Proof. by intros s Hs. Qed.
Lemma keeps_undef {A} : keeps I (undef (A:=A)).
Proof. by intros s Hs. Qed.
Lemma keeps_fuel {A} : keeps (A:=A) I (λ _, Fuel).
Proof. by intros s Hs. Qed.
Lemma keeps_for_each {A} (l : list A) body : (∀ x, keeps I (body x)) → keeps I (for_each l body).
Proof. intros Hb. apply hoare_for_each. intros x _. apply Hb. Qed.
Lemma keeps_Ret {A} (m : prog S A) s a s' : keeps I m → I s → m s = Ret a s' → I s'.
Proof. intros Hm Hs E. specialize (Hm s Hs). by rewrite E in Hm. Qed.
End keeps.

Create HintDb frame.
#[export] Hint Resolve keeps_ret keeps_get keeps_reads keeps_lift keeps_exit keeps_undef
  keeps_fuel : frame.

(** ** Tactics of the development *)

(** Prove [keeps I m] by walking through [m]; the leaves come from [frame]. *)
Ltac keep :=
  repeat first
    [ solve [eauto 2 with frame]
    | apply keeps_bind; [|intros]
    | apply keeps_for_each; intros
    | match goal with
      | |- keeps _ (match ?x with _ => _ end) => destruct x
      end ].

(** Split a successful partial computation into its steps. *)
Ltac inv_opt :=
  repeat match goal with
  | H : mbind _ ?m = Some _ |- _ =>
      let E := fresh "E" in destruct m eqn:E; simpl in H; [|discriminate H]
  | H : Some _ = Some _ |- _ => injection H as H
  | H : None = Some _ |- _ => discriminate H
  end.

(** Run the next command of a [prog]: [wp] for total ones, [wp with E] for a
    partial one whose result the equation [E] gives. *)
Tactic Notation "wp" := apply post_bind; cbn [post get modify mret prog_ret].
Tactic Notation "wp" "with" constr(E) :=
  apply post_bind;
  first [apply (post_reads _ _ _ _ _ E)|apply (post_lift _ _ _ _ _ E)
        |apply (post_updates _ _ _ _ _ E)]; cbn beta.

(** The same for a goal about [m s] itself, with [E : m s = Ret a s']. *)
Tactic Notation "run" uconstr(E) :=
  first [let e := constr:(E) in rewrite (bind_Ret _ _ _ _ _ e)|rewrite (bind_Ret _ _ _ _ _ E)].

(** Decide the boolean comparisons of the goal. *)
Ltac zcase :=
  match goal with
  | |- context [Z.eqb ?a ?b] => destruct (Z.eqb_spec a b)
  | |- context [Z.ltb ?a ?b] => destruct (Z.ltb_spec a b)
  | |- context [Z.leb ?a ?b] => destruct (Z.leb_spec a b)
  end.

(** Case analysis on the membership in a literal list. *)
Ltac elem_cases H :=
  repeat (apply elem_of_cons in H as [H|H]; [subst|]); [..|by apply not_elem_of_nil in H].
