(* ===== verification/Stdio.v ===== *)
(** * The C library functions the programs parse their input with

    [fgets], the numeric conversions of [sscanf] ([strtoul], [strtol]) and
    [atoi], on byte strings, with the printed form of numbers they read back. *)
From S2P Require Import Prelude.
Open Scope Z_scope.

(** ** Reading *)

(** [fgets(buf, n + 1, f)]: at most [n] bytes, up to and with a newline. *)
Fixpoint fgets (n : nat) (s : list Z) : list Z * list Z :=
  match n, s with
  | S n', c :: s' =>
      if c =? 10 then ([c], s')
      else let '(l, r) := fgets n' s' in (c :: l, r)
  | _, _ => ([], s)
  end.

(** A string argument of [sscanf] ends at its first null byte. *)
Fixpoint c_str (s : list Z) : list Z :=
  match s with
  | c :: s' => if c =? 0 then [] else c :: c_str s'
  | [] => []
  end.

Definition isspace (c : Z) : bool := (c =? 32) || ((9 <=? c) && (c <=? 13)).
Definition isdigit (c : Z) : bool := (48 <=? c) && (c <=? 57).

Fixpoint skip_spaces (s : list Z) : list Z :=
  match s with
  | c :: s' => if isspace c then skip_spaces s' else s
  | [] => []
  end.

(** ** Numbers *)

Definition digit_val (base c : Z) : option Z :=
  let d := if isdigit c then c - 48
           else if (97 <=? c) && (c <=? 122) then c - 87
           else if (65 <=? c) && (c <=? 90) then c - 55 else base in
  if d <? base then Some d else None.

(** The digits, with the value so far. *)
Fixpoint scan_digits (base v : Z) (s : list Z) : Z * list Z :=
  match s with
  | c :: s' => match digit_val base c with
               | Some d => scan_digits base (base * v + d) s'
               | None => (v, s)
               end
  | [] => (v, [])
  end.

Definition scan_sign (s : list Z) : bool * list Z :=
  match s with
  | 45 :: s' => (true, s')
  | 43 :: s' => (false, s')
  | _ => (false, s)
  end.
Definition scan_prefix (base : Z) (s : list Z) : list Z :=
  match s with
  | 48 :: c :: s' => if (base =? 16) && ((c =? 120) || (c =? 88)) then s' else s
  | _ => s
  end.

(** Optional spaces, sign and prefix, then at least one digit: sign, magnitude
    and what is left. *)
Definition scan_number (base : Z) (s : list Z) : option (bool * Z * list Z) :=
  let '(neg, s) := scan_sign (skip_spaces s) in
  let s := scan_prefix base s in
  match s with
  | c :: _ => match digit_val base c with
              | Some _ => let '(v, r) := scan_digits base 0 s in Some (neg, v, r)
              | None => None
              end
  | [] => None
  end.

Definition ULONG_MAX : Z := 18446744073709551615.
Definition LONG_MAX : Z := 9223372036854775807.

(** [strtoul] and [strtol] as [sscanf] calls them: out of range saturates. *)
Definition scan_ulong (base : Z) (s : list Z) : option (Z * list Z) :=
  '(neg, v, r) ← scan_number base s;
  Some (if v >? ULONG_MAX then ULONG_MAX else if neg : bool then u64 (- v) else v, r).
Definition scan_long (base : Z) (s : list Z) : option (Z * list Z) :=
  '(neg, v, r) ← scan_number base s;
  Some (if neg : bool then Z.max (- LONG_MAX - 1) (- v) else Z.min LONG_MAX v, r).

(** [%u], [%hu], [%x] and [%d]. *)
Definition scan_u (s : list Z) : option (Z * list Z) :=
  '(v, r) ← scan_ulong 10 s; Some (u32 v, r).
Definition scan_hu (s : list Z) : option (Z * list Z) :=
  '(v, r) ← scan_ulong 10 s; Some (u16 v, r).
Definition scan_x (s : list Z) : option (Z * list Z) :=
  '(v, r) ← scan_ulong 16 s; Some (u32 v, r).
Definition scan_d (s : list Z) : option (Z * list Z) :=
  '(v, r) ← scan_long 10 s; Some (i32 v, r).

(** [atoi]: [(int) strtol(s, NULL, 10)], 0 when there is no number. *)
Definition atoi (s : list Z) : Z :=
  match scan_long 10 (c_str s) with Some (v, _) => i32 v | None => 0 end.

(** ** Printed numbers *)

Definition show_digit (d : Z) : Z := if d <? 10 then 48 + d else 87 + d.
Fixpoint digits (base : Z) (fuel : nat) (z : Z) : list Z :=
  match fuel with
  | O => []
  | S fuel' =>
      if z <? base then [show_digit z] else digits base fuel' (z / base) ++ [show_digit (z mod base)]
  end.
(** Twenty digits are enough for 64 bits. *)
Definition show_num (z : Z) : list Z := digits 10 20 z.
Definition show_hex (z : Z) : list Z := digits 16 20 z.

(** ** Lemmas *)

Definition is_base (base : Z) : Prop := base = 10 ∨ base = 16.

Lemma base_digit (P : Z → Prop) base d :
  is_base base → 0 ≤ d < base → Forall P (seqZ 0 16) → P d.
Proof. intros Hb Hd HP. rewrite Forall_forall in HP. apply HP, elem_of_seqZ. destruct Hb; lia. Qed.

Lemma digit_val_show base d :
  is_base base → 0 ≤ d < base → digit_val base (show_digit d) = Some d.
Proof.
  intros [->| ->] Hd; unfold digit_val, show_digit, isdigit.
  - rewrite (proj2 (Z.ltb_lt d 10)) by lia. rewrite !(proj2 (Z.leb_le _ _)) by lia. simpl.
    replace (48 + d - 48) with d by lia. by rewrite (proj2 (Z.ltb_lt d 10)) by lia.
  - assert (d ∈ seqZ 0 16) as Hin by (apply elem_of_seqZ; lia). cbn in Hin. elem_cases Hin; done.
Qed.

(** A printed digit is none of the characters the scanners treat specially. *)
Lemma show_digit_plain base d :
  is_base base → 0 ≤ d < base →
  let c := show_digit d in isspace c = false ∧ c ≠ 0 ∧ c ≠ 10 ∧ c ≠ 43 ∧ c ≠ 45 ∧ c ≠ 120 ∧ c ≠ 88.
Proof.
  intros Hb Hd. assert (d ∈ seqZ 0 16) as Hin by (apply elem_of_seqZ; destruct Hb; lia).
  cbn in Hin. elem_cases Hin; done.
Qed.

Lemma digits_all base fuel z c :
  is_base base → 0 ≤ z → c ∈ digits base fuel z → ∃ d, 0 ≤ d < base ∧ c = show_digit d.
Proof.
  intros Hb. assert (0 < base) by (destruct Hb; lia).
  revert z. induction fuel as [|fuel IH]; intros z Hz Hc; simpl in Hc; [set_solver|].
  destruct (Z.ltb_spec z base).
  - apply list_elem_of_singleton in Hc as ->. by exists z.
  - apply elem_of_app in Hc as [Hc|Hc]; [apply (IH (z / base)); [apply Z.div_pos; lia|done]|].
    apply list_elem_of_singleton in Hc as ->. exists (z mod base). split; [|done]. by apply Z.mod_pos_bound.
Qed.

Lemma digits_length base fuel z : (length (digits base fuel z) ≤ fuel)%nat.
Proof.
  revert z. induction fuel as [|fuel IH]; intros z; simpl; [lia|].
  destruct (z <? base); simpl; [lia|]. rewrite length_app. simpl. specialize (IH (z / base)). lia.
Qed.

Lemma digits_nonempty base fuel z : (0 < fuel)%nat → digits base fuel z ≠ [].
Proof. destruct fuel; [lia|]. simpl. destruct (z <? base); [done|]. by intros _ []%app_eq_nil. Qed.

Lemma scan_digits_show base fuel z v rest :
  is_base base → 0 ≤ z < base ^ Z.of_nat fuel →
  ∃ k, 0 ≤ k ∧ scan_digits base v (digits base fuel z ++ rest) = scan_digits base (v * base ^ k + z) rest.
Proof.
  intros Hb. assert (1 < base) as Hb1 by (destruct Hb; lia).
  revert z v rest. induction fuel as [|fuel IH]; intros z v rest Hz.
  { change (base ^ Z.of_nat 0) with 1 in Hz. exists 0. split; [lia|]. simpl. f_equal. lia. }
  rewrite Nat2Z.inj_succ, Z.pow_succ_r in Hz by lia. simpl.
  destruct (Z.ltb_spec z base) as [Hlt|Hge].
  - exists 1. split; [lia|]. cbn [app scan_digits]. rewrite digit_val_show by (done || lia). f_equal. lia.
  - destruct (IH (z / base) v ([show_digit (z mod base)] ++ rest)) as (k & Hk & E).
    { split; [apply Z.div_pos; lia|apply Z.div_lt_upper_bound; lia]. }
    exists (k + 1). split; [lia|]. rewrite <-app_assoc, E. cbn [app scan_digits].
    rewrite digit_val_show by (done || apply Z.mod_pos_bound; lia). f_equal.
    rewrite Z.pow_add_r, Z.pow_1_r by lia. pose proof (Z.div_mod z base). lia.
Qed.

Lemma skip_spaces_stop c s : isspace c = false → skip_spaces (c :: s) = c :: s.
Proof. intros H. simpl. by rewrite H. Qed.

Lemma scan_sign_stop c s : c ≠ 45 → c ≠ 43 → scan_sign (c :: s) = (false, c :: s).
Proof.
  intros H1 H2. unfold scan_sign. destruct c as [|p|p]; try done.
  do 6 (destruct p as [p|p|]; try done).
Qed.

Lemma scan_prefix_stop base c1 s : (∀ c2 s', s = c2 :: s' → c2 ≠ 120 ∧ c2 ≠ 88) →
  scan_prefix base (c1 :: s) = c1 :: s.
Proof.
  intros H. assert (∀ c2 s', s = c2 :: s' → (c2 =? 120) || (c2 =? 88) = false) as H'.
  { intros c2 s' E. destruct (H c2 s' E). apply orb_false_iff. by rewrite !Z.eqb_neq. }
  unfold scan_prefix. destruct c1 as [|p|p]; try done.
  do 6 (destruct p as [p|p|]; try done).
  destruct s as [|c2 s']; [done|]. by rewrite (H' c2 s'), andb_false_r.
Qed.

(** The number in front of [rest] is read back when [rest] does not continue it. *)
Definition number_ends (base : Z) (rest : list Z) : Prop :=
  match rest with [] => True | sep :: _ => digit_val base sep = None ∧ sep ≠ 120 ∧ sep ≠ 88 end.

Lemma scan_number_show base fuel z rest :
  is_base base → 0 ≤ z < base ^ Z.of_nat fuel → (0 < fuel)%nat → number_ends base rest →
  scan_number base (digits base fuel z ++ rest) = Some (false, z, rest).
Proof.
  intros Hb Hz Hf Hrest.
  destruct (scan_digits_show base fuel z 0 rest Hb Hz) as (k & Hk & E).
  assert (∀ c, c ∈ digits base fuel z → ∃ d, 0 ≤ d < base ∧ c = show_digit d) as Hall.
  { intros c. apply digits_all; [done|lia]. }
  destruct (digits base fuel z) as [|c l] eqn:El; [exfalso; revert El; by apply digits_nonempty|].
  destruct (Hall c) as (d & Hd & ->); [set_solver|].
  destruct (show_digit_plain base d Hb Hd) as (P1 & P2 & P3 & P4 & P5 & P6 & P7).
  cbn [app] in *. unfold scan_number. rewrite skip_spaces_stop by done. rewrite scan_sign_stop by done.
  rewrite scan_prefix_stop.
  2:{ intros c2 s' Es. destruct l as [|c2' l]; simpl in Es; [subst rest; apply Hrest|]. simplify_eq.
      destruct (Hall c2) as (d2 & Hd2 & ->); [set_solver|].
      destruct (show_digit_plain base d2 Hb Hd2) as (_ & _ & _ & _ & _ & ? & ?). done. }
  rewrite digit_val_show by done. rewrite E. replace (0 * base ^ k + z) with z by lia.
  destruct rest as [|sep rest]; cbn [scan_digits]; [done|by rewrite (proj1 Hrest)].
Qed.

Lemma scan_ulong_show base z rest :
  is_base base → 0 ≤ z ≤ ULONG_MAX → number_ends base rest →
  scan_ulong base (digits base 20 z ++ rest) = Some (z, rest).
Proof.
  intros Hb Hz Hr. unfold scan_ulong. unfold ULONG_MAX in *.
  rewrite scan_number_show; [|done| |lia|done].
  - cbn [mbind option_bind]. destruct (Z.gtb_spec z 18446744073709551615); [lia|done].
  - destruct Hb as [->| ->]; [change (10 ^ Z.of_nat 20) with 100000000000000000000
      |change (16 ^ Z.of_nat 20) with 1208925819614629174706176]; lia.
Qed.

Lemma scan_long_show z rest :
  0 ≤ z ≤ LONG_MAX → number_ends 10 rest → scan_long 10 (show_num z ++ rest) = Some (z, rest).
Proof.
  intros Hz Hr. unfold scan_long, show_num. unfold LONG_MAX in *.
  rewrite scan_number_show; [|by left| |lia|done].
  - cbn [mbind option_bind]. by rewrite Z.min_r by lia.
  - change (10 ^ Z.of_nat 20) with 100000000000000000000. lia.
Qed.

Lemma scan_ulong_space base s : scan_ulong base (32 :: s) = scan_ulong base s.
Proof. done. Qed.

Lemma c_str_id s : (∀ c, c ∈ s → c ≠ 0) → c_str s = s.
Proof.
  induction s as [|c s IH]; intros H; [done|]. simpl.
  rewrite (proj2 (Z.eqb_neq _ _)) by (apply H; set_solver). f_equal. apply IH. set_solver.
Qed.

Lemma c_str_app s rest : (∀ c, c ∈ s → c ≠ 0) → c_str (s ++ 0 :: rest) = s.
Proof.
  induction s as [|c s IH]; intros H; [done|]. simpl.
  rewrite (proj2 (Z.eqb_neq _ _)) by (apply H; set_solver). f_equal. apply IH. set_solver.
Qed.

(** The characters of a printed number are plain. *)
Lemma digits_plain base fuel z c :
  is_base base → 0 ≤ z → c ∈ digits base fuel z → c ≠ 0 ∧ c ≠ 10.
Proof.
  intros Hb Hz Hc. destruct (digits_all base fuel z c Hb Hz Hc) as (d & Hd & ->).
  by destruct (show_digit_plain base d Hb Hd) as (_ & ? & ? & _).
Qed.
Lemma show_num_plain z c : 0 ≤ z → c ∈ show_num z → c ≠ 0 ∧ c ≠ 10.
Proof. apply digits_plain. by left. Qed.

Lemma fgets_line n l rest :
  (length l < n)%nat → (∀ c, c ∈ l → c ≠ 10) → fgets n (l ++ 10 :: rest) = (l ++ [10], rest).
Proof.
  revert n. induction l as [|c l IH]; intros [|n] Hn Hl; simpl in *; try lia; [done|].
  rewrite (proj2 (Z.eqb_neq _ _)) by (apply Hl; set_solver).
  rewrite IH; [done|lia|set_solver].
Qed.

Lemma fgets_app n s : (fgets n s).1 ++ (fgets n s).2 = s.
Proof.
  revert s. induction n as [|n IH]; intros [|c s]; simpl; try done.
  destruct (c =? 10); [done|]. specialize (IH s). destruct (fgets n s). simpl in *. by rewrite IH.
Qed.

(** [atoi] of a printed number that an [int] can hold. *)
Lemma atoi_show z : 0 ≤ z < 2147483648 → atoi (show_num z) = z.
Proof.
  intros Hz. unfold atoi. rewrite c_str_id by (intros c Hc; eapply show_num_plain; [|done]; lia).
  rewrite <-(app_nil_r (show_num z)), scan_long_show; [|unfold LONG_MAX; lia|done].
  rewrite i32_small; lia.
Qed.

(** ** Addresses on the command line *)

(** [strchr] and [strrchr]: what is before and after the character. *)
Fixpoint split_first (c : Z) (s : list Z) : option (list Z * list Z) :=
  match s with
  | [] => None
  | x :: s' => if x =? c then Some ([], s') else '(a, b) ← split_first c s'; Some (x :: a, b)
  end.
Definition split_last (c : Z) (s : list Z) : option (list Z * list Z) :=
  '(a, b) ← split_first c (reverse s); Some (reverse b, reverse a).
(** [[::1]] loses its brackets. *)
Definition strip_brackets (s : list Z) : list Z := match s with 91 :: s' => removelast s' | _ => s end.
