(* ===== verification/Bytes.v ===== *)
(** * Byte buffers

    Little-endian integers of 16, 32 and 64 bits in a buffer, as the packet
    layouts of the overlay node and of the file transfer use them. *)
From S2P Require Import Prelude.
Open Scope Z_scope.

Definition is_u32 (z : Z) : Prop := 0 ≤ z < 4294967296.
Definition is_u16 (z : Z) : Prop := 0 ≤ z < 65536.
Definition le32 (z : Z) : list Z :=
  [z mod 256; (z / 256) mod 256; (z / 65536) mod 256; (z / 16777216) mod 256].

(** A [uint32_t] read at byte offset [off]. *)
Definition get_u32 (buf : list Z) (off : Z) : option Z :=
  b0 ← aget buf off; b1 ← aget buf (off + 1);
  b2 ← aget buf (off + 2); b3 ← aget buf (off + 3);
  Some (b0 + 256 * b1 + 65536 * b2 + 16777216 * b3).

Definition le16 (z : Z) : list Z := [z mod 256; (z / 256) mod 256].
Definition get_u16 (buf : list Z) (off : Z) : option Z :=
  b0 ← aget buf off; b1 ← aget buf (off + 1); Some (b0 + 256 * b1).
(** [n] bytes from offset [off]. *)
Definition slice (buf : list Z) (off n : nat) : option (list Z) :=
  if decide (off + n ≤ length buf)%nat then Some (take n (drop off buf)) else None.

(** 64 bits, as two halves. *)
Definition le64 (z : Z) : list Z := le32 z ++ le32 (z / 4294967296).
Definition get_u64 (buf : list Z) (off : Z) : option Z :=
  lo ← get_u32 buf off; hi ← get_u32 buf (off + 4); Some (lo + 4294967296 * hi).

Definition i64 (z : Z) : Z :=
  (z + 9223372036854775808) mod 18446744073709551616 - 9223372036854775808.

(** [holds buf off bs]: the bytes [bs] start at offset [off]. *)
Definition holds (buf : list Z) (off : Z) (bs : list Z) : Prop :=
  ∀ i, (i < length bs)%nat → aget buf (off + Z.of_nat i) = bs !! i.

(** ** Lemmas *)

Lemma le32_sum z : is_u32 z →
  z mod 256 + 256 * ((z / 256) mod 256) + 65536 * ((z / 65536) mod 256) +
  16777216 * ((z / 16777216) mod 256) = z.
Proof. unfold is_u32. intros. Z.to_euclidean_division_equations. lia. Qed.

Lemma get_u32_holds buf off z : is_u32 z → holds buf off (le32 z) → get_u32 buf off = Some z.
Proof.
  intros Hz H. unfold get_u32.
  pose proof (H 0%nat ltac:(simpl; lia)) as H0. pose proof (H 1%nat ltac:(simpl; lia)) as H1.
  pose proof (H 2%nat ltac:(simpl; lia)) as H2. pose proof (H 3%nat ltac:(simpl; lia)) as H3.
  change (Z.of_nat 0) with 0 in H0. change (Z.of_nat 1) with 1 in H1.
  change (Z.of_nat 2) with 2 in H2. change (Z.of_nat 3) with 3 in H3.
  rewrite Z.add_0_r in H0. rewrite H0, H1, H2, H3. cbn [le32 lookup list_lookup mbind option_bind].
  by rewrite le32_sum.
Qed.

(** Any integer, reduced to 32 bits. *)
Lemma le32_u32 z : le32 z = le32 (u32 z).
Proof.
  unfold le32, u32. do 3 (f_equal; [Z.to_euclidean_division_equations; lia|]).
  f_equal. Z.to_euclidean_division_equations. lia.
Qed.
Lemma get_u32_le32 buf off z : holds buf off (le32 z) → get_u32 buf off = Some (u32 z).
Proof. rewrite le32_u32. apply get_u32_holds, u32_range. Qed.
Lemma get_i32_le32 buf off z : holds buf off (le32 z) → -2147483648 ≤ z < 2147483648 →
  i32 <$> get_u32 buf off = Some z.
Proof.
  intros H Hz. rewrite (get_u32_le32 _ _ _ H). simpl. f_equal. unfold i32, u32.
  Z.to_euclidean_division_equations. lia.
Qed.

Lemma holds_app buf off b1 b2 :
  holds buf off (b1 ++ b2) ↔ holds buf off b1 ∧ holds buf (off + Z.of_nat (length b1)) b2.
Proof.
  split.
  - intros H. split; intros i Hi.
    + rewrite H by (rewrite length_app; lia). by rewrite lookup_app_l.
    + replace (off + Z.of_nat (length b1) + Z.of_nat i)
        with (off + Z.of_nat (length b1 + i)) by lia.
      rewrite H by (rewrite length_app; lia). rewrite lookup_app_r by lia. f_equal. lia.
  - intros [H1 H2] i Hi. rewrite length_app in Hi.
    destruct (decide (i < length b1)%nat) as [Hlt|Hge].
    + rewrite lookup_app_l by lia. by apply H1.
    + rewrite lookup_app_r by lia. rewrite <-H2 by lia. f_equal. lia.
Qed.

Lemma holds_prefix b1 b2 : holds (b1 ++ b2) 0 b1.
Proof.
  intros i Hi. unfold aget. destruct (Z.ltb_spec (0 + Z.of_nat i) 0); [lia|].
  rewrite Z.add_0_l, Nat2Z.id. by apply lookup_app_l.
Qed.

Lemma length_vec_bytes vec : length (concat (le32 <$> vec)) = (4 * length vec)%nat.
Proof. induction vec as [|x vec IH]; [done|].
  rewrite fmap_cons. cbn [concat]. rewrite length_app, IH. simpl. lia.
Qed.

Lemma holds_vec buf off vec i x :
  holds buf off (concat (le32 <$> vec)) → vec !! i = Some x →
  holds buf (off + 4 * Z.of_nat i) (le32 x).
Proof.
  revert off i. induction vec as [|y vec IH]; intros off [|i] H Hx; simplify_eq/=.
  - apply (holds_app _ _ (le32 x)) in H as [H _]. by replace (off + 4 * Z.of_nat 0) with off by lia.
  - apply (holds_app _ _ (le32 y)) in H as [_ H]. simpl in H.
    replace (off + 4 * Z.of_nat (S i)) with (off + 4 + 4 * Z.of_nat i) by lia. by apply (IH _ i).
Qed.

Lemma get_u16_holds buf off z : is_u16 z → holds buf off (le16 z) → get_u16 buf off = Some z.
Proof.
  unfold is_u16. intros Hz H. unfold get_u16.
  pose proof (H 0%nat ltac:(simpl; lia)) as H0. pose proof (H 1%nat ltac:(simpl; lia)) as H1.
  change (Z.of_nat 0) with 0 in H0. change (Z.of_nat 1) with 1 in H1.
  rewrite Z.add_0_r in H0. rewrite H0, H1. cbn [le16 lookup list_lookup mbind option_bind]. f_equal.
  Z.to_euclidean_division_equations. lia.
Qed.

(** Reading a slice that the buffer holds. *)
Lemma slice_holds buf off n bs :
  length bs = n → (off + n ≤ length buf)%nat → holds buf (Z.of_nat off) bs →
  slice buf off n = Some bs.
Proof.
  intros Hn Hlen H. unfold slice. rewrite decide_True by done. f_equal.
  apply list_eq_same_length with n; [done|rewrite length_take, length_drop; lia|].
  intros i x y Hi Hx Hy. rewrite lookup_take_lt, lookup_drop in Hx by done.
  specialize (H i ltac:(lia)). rewrite Hy in H. apply aget_Some in H as [_ H].
  replace (Z.to_nat (Z.of_nat off + Z.of_nat i)) with (off + i)%nat in H by lia. congruence.
Qed.

Lemma get_i64_le64 buf off z : holds buf off (le64 z) →
  -9223372036854775808 ≤ z < 9223372036854775808 → i64 <$> get_u64 buf off = Some z.
Proof.
  intros [H1 H2]%holds_app Hz. change (Z.of_nat (length (le32 z))) with 4 in H2. unfold get_u64. rewrite (get_u32_le32 _ _ _ H1).
  cbn [mbind option_bind]. rewrite (get_u32_le32 _ _ _ H2). simpl. f_equal. unfold i64, u32.
  Z.to_euclidean_division_equations. lia.
Qed.

Lemma holds_all buf : holds buf 0 buf.
Proof. rewrite <-(app_nil_r buf) at 1. apply holds_prefix. Qed.
