(* ===== verification/Clock.v ===== *)
(** * Times

    [struct timeval] and the macros [timeradd] and [timersub] of sys/time.h: a
    pair of seconds and microseconds.  Seconds are taken to stay far away from
    the limits of 64 bits. *)
From S2P Require Import Prelude.
Open Scope Z_scope.

Abbreviation timeval := (Z * Z)%type.
Definition timersub (a b : timeval) : timeval :=
  let s := a.1 - b.1 in let u := a.2 - b.2 in
  if u <? 0 then (s - 1, u + 1000000) else (s, u).
Definition timeradd (a b : timeval) : timeval :=
  let s := a.1 + b.1 in let u := a.2 + b.2 in
  if u >=? 1000000 then (s + 1, u - 1000000) else (s, u).

(** A time in microseconds; the microseconds of a [normal] one are less than a
    second. *)
Definition usecs (t : timeval) : Z := t.1 * 1000000 + t.2.
Definition normal (t : timeval) : Prop := 0 ≤ t.2 < 1000000.

Lemma usecs_add a b : usecs (timeradd a b) = usecs a + usecs b.
Proof. unfold usecs, timeradd. destruct (a.2 + b.2 >=? 1000000); cbn [fst snd]; lia. Qed.
Lemma usecs_sub a b : usecs (timersub a b) = usecs a - usecs b.
Proof. unfold usecs, timersub. destruct (a.2 - b.2 <? 0); cbn [fst snd]; lia. Qed.
Lemma normal_add a b : normal a → normal b → normal (timeradd a b).
Proof. unfold normal, timeradd. intros. rewrite Z.geb_leb. zcase; cbn [fst snd]; lia. Qed.
Lemma normal_sub a b : normal a → normal b → normal (timersub a b).
Proof. unfold normal, timersub. intros. zcase; cbn [fst snd]; lia. Qed.
Lemma usecs_inj a b : normal a → normal b → usecs a = usecs b → a = b.
Proof. destruct a, b. unfold normal, usecs. cbn [fst snd]. intros. f_equal; lia. Qed.
