(* ===== verification/OverlayLists.v ===== *)
(** * Node, edge and client tables of the overlay node

    [node_list.c], [edge_list.c] and [client_list.c] of CS1652/project3.  A
    table is an array of pointers with a count; the model keeps the prefix of
    the array below the count.  Nodes and edges are never freed or moved, so a
    [struct node *] is the index of its slot.  Clients are freed and their
    slots reused: a [struct client_conn *] is a location of an explicit heap. *)
From S2P Require Import Prelude.
Open Scope Z_scope.

Definition MAX_CLIENTS : nat := 100.
Definition MAX_NODES : nat := 100.
Definition MAX_EDGES : nat := 500.

Record sockaddr_in := mk_sockaddr { sin_addr : Z; sin_port : Z }.

(** A [struct node *]: [None] is [NULL], [Some i] is [nodes[i]]. *)
Abbreviation node_ptr := (option nat).

Record node := mk_node {
  node_id : Z;
  node_addr : sockaddr_in;
  ctrl_addr : sockaddr_in;
  next_hop : node_ptr
}.

Record edge := mk_edge {
  src_id : Z;
  dst_id : Z;
  cost : Z;
  outstanding_heartbeats : Z;
  src_node : node_ptr;
  dst_node : node_ptr
}.

Abbreviation node_list := (list node).
Abbreviation edge_list := (list edge).

#[export] Instance sockaddr_eq_dec : EqDecision sockaddr_in.
Proof. solve_decision. Defined.
#[export] Instance node_eq_dec : EqDecision node.
Proof. solve_decision. Defined.
#[export] Instance edge_eq_dec : EqDecision edge.
Proof. solve_decision. Defined.

(** The scan loops of the three files: the first slot that passes a test. *)
Fixpoint find_index {A} (p : A → bool) (l : list A) : option nat :=
  match l with
  | [] => None
  | x :: l' => if p x then Some O else S <$> find_index p l'
  end.

(** [get_node_from_id] *)
Definition get_node_from_id (l : node_list) (id : Z) : node_ptr :=
  find_index (λ n, node_id n =? id) l.

(** [add_node_to_list]: the table is unchanged, and the result [NULL], when full. *)
Definition add_node_to_list (l : node_list) (n : node) : node_ptr * node_list :=
  if decide (length l = MAX_NODES) then (None, l)
  else (Some (length l), l ++ [n]).

(** [get_edge_from_list] *)
Definition get_edge_from_list (l : edge_list) (s d : Z) : option nat :=
  find_index (λ e, (src_id e =? s) && (dst_id e =? d)) l.

(** [add_edge_to_list] *)
Definition add_edge_to_list (l : edge_list) (e : edge) : option nat * edge_list :=
  if decide (length l = MAX_EDGES) then (None, l)
  else (Some (length l), l ++ [e]).

(** ** Clients *)

Abbreviation loc := positive.

Record client_conn := mk_client {
  control_sock : Z;
  data_sock : Z;
  data_local_port : Z;
  data_remote_port : Z;
  data_remote_addr : sockaddr_in
}.

Record client_list := mk_client_list {
  cl_heap : gmap loc client_conn;
  clients : list loc
}.

(** System calls the table code makes, in order. *)
Inductive fd_event := Close (fd : Z) | Detach (fd : Z).

(** [for (i = 0; i < num_clients; i++) if (clients[i]->field == x)]: a slot
    that points outside the heap is undefined behaviour. *)
Fixpoint find_client (h : gmap loc client_conn) (p : client_conn → bool)
    (l : list loc) : option (option (nat * loc)) :=
  match l with
  | [] => Some None
  | c :: l' =>
      cc ← h !! c;
      if p cc then Some (Some (O, c))
      else r ← find_client h p l'; Some (option_map (prod_map S id) r)
  end.

(** [get_client_from_port] *)
Definition get_client_from_port (cl : client_list) (port : Z) : option (option loc) :=
  r ← find_client (cl_heap cl) (λ c, data_local_port c =? port) (clients cl);
  Some (option_map snd r).

(** [get_client_from_sock] *)
Definition get_client_from_sock (cl : client_list) (sock : Z) : option (option loc) :=
  r ← find_client (cl_heap cl) (λ c, control_sock c =? sock) (clients cl);
  Some (option_map snd r).

(** [clients[i] = clients[num_clients]] after [num_clients--]: the last slot
    takes the place of slot [i]. *)
Definition swap_remove {A} (l : list A) (i : nat) : list A :=
  match last l with
  | Some x => take (length l - 1) (<[i := x]> l)
  | None => l
  end.

(** [remove_client_with_sock] *)
Definition remove_client_with_sock (cl : client_list) (sock : Z)
    : option (Z * client_list * list fd_event) :=
  r ← find_client (cl_heap cl) (λ c, control_sock c =? sock) (clients cl);
  match r with
  | None => Some (-1, cl, [])
  | Some (i, c) =>
      cc ← cl_heap cl !! c;
      Some (0,
            mk_client_list (delete c (cl_heap cl)) (swap_remove (clients cl) i),
            [Close (control_sock cc); Close (data_sock cc);
             Detach (control_sock cc); Detach (data_sock cc)])
  end.

Section clients.
(** [calloc]: a location, or [NULL] when memory is exhausted. *)
Context (calloc : gmap loc client_conn → option loc).

(** [add_client_to_list]: the result of [calloc] is dereferenced unchecked. *)
Definition add_client_to_list (cl : client_list) (c : client_conn)
    : option (option loc * client_list) :=
  if decide (length (clients cl) = MAX_CLIENTS) then Some (None, cl)
  else
    l ← calloc (cl_heap cl);
    Some (Some l, mk_client_list (<[l := c]> (cl_heap cl)) (clients cl ++ [l])).
End clients.

(** The table's invariant: slots are distinct and point to live clients. *)
Record client_wf (cl : client_list) : Prop := {
  cw_nodup : NoDup (clients cl);
  cw_live : ∀ l, l ∈ clients cl ↔ is_Some (cl_heap cl !! l);
  cw_max : (length (clients cl) ≤ MAX_CLIENTS)%nat
}.

(** The clients of a table, as values, in slot order. *)
Definition client_values (cl : client_list) : list client_conn :=
  omap (λ l, cl_heap cl !! l) (clients cl).

(** ** Lemmas *)

Lemma find_index_Some {A} (p : A → bool) l i :
  find_index p l = Some i ↔
  ∃ x, l !! i = Some x ∧ p x = true ∧ ∀ j y, (j < i)%nat → l !! j = Some y → p y = false.
Proof.
  revert i. induction l as [|x l IH]; intros i; simpl.
  { split; [done|]. by intros (? & ? & _). }
  destruct (p x) eqn:Hp.
  - split.
    + intros [= <-]. exists x. split_and!; [done..|lia].
    + intros (y & Hy & Hpy & Hlt). destruct i as [|i]; [done|].
      specialize (Hlt O x). rewrite Hlt in Hp; [done|lia|done].
  - rewrite fmap_Some. split.
    + intros (i' & (y & Hy & Hpy & Hlt)%IH & ->). exists y. split_and!; [done..|].
      intros [|j] z Hj Hz; simplify_eq/=; [done|]. apply (Hlt j); [lia|done].
    + intros (y & Hy & Hpy & Hlt). destruct i as [|k]; simpl in Hy; [congruence|].
      exists k. split; [|done]. apply IH. exists y. split_and!; [done..|].
      intros j z Hj Hz. apply (Hlt (S j)); [lia|done].
Qed.

Lemma find_index_None {A} (p : A → bool) l :
  find_index p l = None ↔ ∀ x, x ∈ l → p x = false.
Proof.
  induction l as [|x l IH]; simpl; [set_solver|].
  destruct (p x) eqn:Hp.
  - split; [done|]. intros H. rewrite H in Hp; [done|set_solver].
  - rewrite fmap_None, IH. set_solver.
Qed.

Lemma get_node_from_id_Some l id i :
  get_node_from_id l id = Some i → ∃ n, l !! i = Some n ∧ node_id n = id.
Proof. intros (x & ? & ?%Z.eqb_eq & _)%find_index_Some. eauto. Qed.

Lemma get_node_from_id_None l id :
  get_node_from_id l id = None ↔ ∀ n, n ∈ l → node_id n ≠ id.
Proof.
  unfold get_node_from_id. rewrite find_index_None.
  by setoid_rewrite Z.eqb_neq.
Qed.

Lemma get_node_from_id_unique l i n :
  NoDup (node_id <$> l) → l !! i = Some n → get_node_from_id l (node_id n) = Some i.
Proof.
  intros Hnd Hi. apply find_index_Some. exists n. split_and!; [done|apply Z.eqb_refl|].
  intros j y Hj Hy. apply Z.eqb_neq. intros Heq.
  assert (j = i); [|lia].
  apply (NoDup_lookup _ _ _ (node_id n) Hnd); rewrite list_lookup_fmap;
    [by rewrite Hy, <-Heq|by rewrite Hi].
Qed.

Lemma find_client_Some h p l i c :
  find_client h p l = Some (Some (i, c)) →
  l !! i = Some c ∧ (∃ cc, h !! c = Some cc ∧ p cc = true) ∧
  ∀ j c' cc', (j < i)%nat → l !! j = Some c' → h !! c' = Some cc' → p cc' = false.
Proof.
  revert i. induction l as [|x l IH]; intros i H; simpl in H; [done|].
  destruct (h !! x) as [cc|] eqn:Hx; simpl in H; [|done].
  destruct (p cc) eqn:Hp.
  - simplify_eq. split_and!; [done|eauto|lia].
  - destruct (find_client h p l) as [[[i' c']|]|]; simplify_eq/=.
    destruct (IH i' eq_refl) as (? & ? & Hlt). split_and!; [done..|].
    intros [|j] c2 cc2 Hj Hc2 Hcc2; simplify_eq/=; [done|].
    eapply (Hlt j); [lia|done..].
Qed.

Lemma find_client_None h p l :
  find_client h p l = Some None →
  ∀ c cc, c ∈ l → h !! c = Some cc → p cc = false.
Proof.
  induction l as [|x l IH]; intros H c cc Hin Hc; simpl in H; [set_solver|].
  destruct (h !! x) as [cx|] eqn:Hx; simpl in H; [|done].
  destruct (p cx) eqn:Hp; [done|].
  destruct (find_client h p l) as [[[i' c']|]|]; simplify_eq/=.
  apply elem_of_cons in Hin as [->|Hin]; [congruence|eauto].
Qed.

(** The scan never leaves the heap on a well-formed table. *)
Lemma find_client_total h p l :
  (∀ c, c ∈ l → is_Some (h !! c)) → is_Some (find_client h p l).
Proof.
  induction l as [|x l IH]; intros Hl; simpl; [eauto|].
  destruct (Hl x) as [cc Hcc]; [set_solver|]. rewrite Hcc. simpl.
  destruct (p cc); [eauto|].
  destruct IH as [r Hr]; [intros; apply Hl; set_solver|]. rewrite Hr. simpl. eauto.
Qed.

Lemma swap_remove_perm {A} (l : list A) i x :
  l !! i = Some x → l ≡ₚ x :: swap_remove l i.
Proof.
  intros Hi. unfold swap_remove.
  destruct (last l) as [y|] eqn:Hl; [|by apply last_None in Hl as ->].
  apply last_Some in Hl as [l' ->].
  assert (i < length (l' ++ [y]))%nat as Hlt by by eapply lookup_lt_Some.
  rewrite length_app in *. simpl in *.
  replace (length l' + 1 - 1)%nat with (length l') by lia.
  destruct (decide (i = length l')) as [->|Hne].
  - rewrite lookup_app_r in Hi by lia. rewrite Nat.sub_diag in Hi. simplify_eq/=.
    rewrite insert_app_r_alt by lia.
    rewrite take_app_length. by rewrite Permutation_app_comm.
  - rewrite lookup_app_l in Hi by lia.
    rewrite insert_app_l by lia.
    rewrite take_app_length' by (by rewrite length_insert).
    rewrite (Permutation_app_comm l' [y]). simpl.
    rewrite <-(take_drop_middle l' i x Hi) at 1.
    rewrite insert_take_drop by lia.
    rewrite <-!Permutation_middle. apply perm_swap.
Qed.

(** A scan of a well-formed client table succeeds. *)
Lemma find_client_wf cl p :
  client_wf cl → is_Some (find_client (cl_heap cl) p (clients cl)).
Proof. intros Hwf. apply find_client_total. intros c Hc. by apply (cw_live _ Hwf). Qed.

Lemma get_client_from_port_ok cl port :
  client_wf cl → ∃ r, get_client_from_port cl port = Some r ∧
    match r with
    | None => ∀ c, c ∈ client_values cl → data_local_port c ≠ port
    | Some l => ∃ c, cl_heap cl !! l = Some c ∧ data_local_port c = port
    end.
Proof.
  intros Hwf. unfold get_client_from_port.
  destruct (find_client_wf cl (λ c, data_local_port c =? port) Hwf) as [[[i l]|] Hr];
    rewrite Hr; simpl; eexists; (split; [done|]); simpl.
  - apply find_client_Some in Hr as (_ & (c & Hc & Hp%Z.eqb_eq) & _). eauto.
  - intros c (l & Hl & Hc)%list_elem_of_omap.
    by apply Z.eqb_neq, (find_client_None _ _ _ Hr l c).
Qed.

Lemma values_ext (h h' : gmap loc client_conn) (ls : list loc) :
  (∀ x, x ∈ ls → h' !! x = h !! x) → omap (λ x, h' !! x) ls = omap (λ x, h !! x) ls.
Proof.
  induction ls as [|y ls IH]; intros H; [done|]. simpl.
  rewrite H by set_solver. destruct (h !! y); [f_equal|]; apply IH; set_solver.
Qed.

Lemma values_perm (h : gmap loc client_conn) (l1 l2 : list loc) :
  l1 ≡ₚ l2 → omap (λ x, h !! x) l1 ≡ₚ omap (λ x, h !! x) l2.
Proof. by intros ->. Qed.

Lemma remove_client_ok cl sock :
  client_wf cl →
  (remove_client_with_sock cl sock = Some (-1, cl, []) ∧
     ∀ c, c ∈ client_values cl → control_sock c ≠ sock) ∨
  ∃ l c cl', remove_client_with_sock cl sock =
      Some (0, cl', [Close sock; Close (data_sock c); Detach sock; Detach (data_sock c)]) ∧
    cl_heap cl !! l = Some c ∧ control_sock c = sock ∧
    cl_heap cl' = delete l (cl_heap cl) ∧ client_wf cl' ∧
    client_values cl ≡ₚ c :: client_values cl'.
Proof.
  intros Hwf. unfold remove_client_with_sock.
  destruct (find_client_wf cl (λ c, control_sock c =? sock) Hwf) as [[[i l]|] Hr]; rewrite Hr; simpl.
  2:{ left. split; [done|]. intros c (l & Hl & Hc)%list_elem_of_omap.
      by apply Z.eqb_neq, (find_client_None _ _ _ Hr l c). }
  right. apply find_client_Some in Hr as (Hi & (c & Hc & Hp%Z.eqb_eq) & _). rewrite Hc. simpl.
  pose proof (swap_remove_perm (clients cl) i l Hi) as Hperm.
  pose proof (cw_nodup _ Hwf) as Hnd. rewrite Hperm in Hnd. apply NoDup_cons in Hnd as [Hl Hnd].
  eexists l, c, _. rewrite Hp. split_and!; [done..| |].
  - constructor; simpl; [done| |].
    + intros x. split.
      * intros Hx. assert (x ≠ l) by set_solver. rewrite lookup_delete_ne by done.
        apply (cw_live _ Hwf). rewrite Hperm. set_solver.
      * intros [cx Hx]. apply lookup_delete_Some in Hx as [Hne Hx].
        assert (x ∈ clients cl) as Hin by (apply (cw_live _ Hwf); eauto).
        rewrite Hperm in Hin. set_solver.
    + pose proof (cw_max _ Hwf) as Hmax. rewrite Hperm in Hmax. simpl in Hmax. lia.
  - unfold client_values. simpl.
    rewrite (values_ext (cl_heap cl) (delete l (cl_heap cl)) (swap_remove (clients cl) i)).
    2:{ intros x Hx. apply lookup_delete_ne. set_solver. }
    etrans; [by apply values_perm|]. simpl. by rewrite Hc.
Qed.

Lemma add_client_ok calloc cl c :
  client_wf cl → (∀ h l, calloc h = Some l → h !! l = None) → is_Some (calloc (cl_heap cl)) →
  ∃ r cl', add_client_to_list calloc cl c = Some (r, cl') ∧ client_wf cl' ∧
    match r with
    | None => length (clients cl) = MAX_CLIENTS ∧ cl' = cl
    | Some l => cl_heap cl !! l = None ∧ cl_heap cl' = <[l := c]> (cl_heap cl) ∧
        client_values cl' = client_values cl ++ [c]
    end.
Proof.
  intros Hwf Hfresh [l Hl]. unfold add_client_to_list. case_decide as Hfull; [by eexists None, cl|].
  rewrite Hl. simpl. eexists (Some l), _. split; [done|]. pose proof (Hfresh _ _ Hl) as Hnew.
  assert (l ∉ clients cl) as Hnin.
  { intros Hin%(cw_live _ Hwf). rewrite Hnew in Hin. by destruct Hin. }
  split; [|split_and!; [done..|]].
  - constructor; simpl.
    + apply NoDup_app. split_and!; [apply Hwf|set_solver|apply NoDup_singleton].
    + intros x. rewrite elem_of_app, list_elem_of_singleton, lookup_insert_is_Some, (cw_live _ Hwf).
      destruct (decide (l = x)); naive_solver.
    + rewrite length_app. simpl. pose proof (cw_max _ Hwf). lia.
  - unfold client_values. simpl. rewrite omap_app. simpl. rewrite lookup_insert_eq. f_equal.
    apply values_ext. intros x Hx. apply lookup_insert_ne. set_solver.
Qed.
