(* ===== verification/LinkState.v ===== *)
(** * Link-state routing of the overlay node

    [reset_link_state], [calc_link_state], [get_edge_cost],
    [set_forwarding_table_ls] and [find_parent] of
    CS1652/project3/proj3-code/overlay_node.c: Dijkstra's algorithm on
    [uint32_t] arrays, and the forwarding table read off its tree.  The main
    results: on a topology whose path costs fit in 32 bits the computed
    distances are the shortest ones, and the next hop of every destination is
    the first node of a shortest path. *)
From S2P Require Import Prelude OverlayLists.
Open Scope Z_scope.

Definition INFINITY : Z := 4294967295.
Definition MAX_OUTSTANDING_HEARTBEATS : Z := 10.

(** [struct link_state]: three arrays of [num_nodes] entries. *)
Record link_state := mk_ls {
  distances : list Z;
  in_set : list bool;
  parent_of : list Z;
  num_nodes : Z
}.

(** [get_edge_cost] *)
Definition get_edge_cost (e : edge) : Z :=
  if outstanding_heartbeats e >? MAX_OUTSTANDING_HEARTBEATS then INFINITY else cost e.

(** [ls->distances[i] = d], [ls->parent_of[i] = p], [ls->in_set[i] = b]. *)
Definition set_distance (i d : Z) (ls : link_state) : option link_state :=
  a ← aset (distances ls) i d; Some (mk_ls a (in_set ls) (parent_of ls) (num_nodes ls)).
Definition set_parent (i p : Z) (ls : link_state) : option link_state :=
  a ← aset (parent_of ls) i p; Some (mk_ls (distances ls) (in_set ls) a (num_nodes ls)).
Definition set_in_set (i : Z) (b : bool) (ls : link_state) : option link_state :=
  a ← aset (in_set ls) i b; Some (mk_ls (distances ls) a (parent_of ls) (num_nodes ls)).

Section algorithm.
Context (My_ID : Z) (edges : edge_list).

(** [reset_link_state] *)
Definition reset_body (i : Z) (ls : link_state) : option link_state :=
  let node_id := u32 (i + 1) in
  ls1 ← (if node_id =? My_ID
         then ls' ← set_distance i 0 ls; set_parent i i ls'
         else ls' ← set_distance i INFINITY ls; set_parent i (u32 (-1)) ls');
  set_in_set i false ls1.

Definition reset_link_state (ls : link_state) : option link_state :=
  for_up reset_body 0 (Z.to_nat (num_nodes ls)) ls.

(** The body of the loop over [Edge_List] in [calc_link_state]. *)
Definition relax (curr_index : Z) (e : edge) (ls : link_state) : option link_state :=
  let curr_node := u32 (curr_index + 1) in
  if negb (src_id e =? curr_node) then Some ls
  else
    let adj_index := u32 (dst_id e - 1) in
    let edge_cost := get_edge_cost e in
    if edge_cost =? INFINITY then Some ls
    else
      dc ← aget (distances ls) curr_index;
      da ← aget (distances ls) adj_index;
      if u32 (dc + edge_cost) <? da
      then ls' ← set_distance adj_index (u32 (dc + edge_cost)) ls;
           set_parent adj_index (u32 (curr_index + 1)) ls'
      else Some ls.

(** The loop that picks the closest node not in the set. *)
Definition small_body (ls : link_state) (k : Z) (sm : Z * Z) : option (Z * Z) :=
  let '(small_node, small_dist) := sm in
  d ← aget (distances ls) k;
  if d <? small_dist
  then b ← aget (in_set ls) k;
       if negb b then Some (u32 (k + 1), d) else Some sm
  else Some sm.

Definition find_small (ls : link_state) : option (Z * Z) :=
  for_up (small_body ls) 0 (Z.to_nat (num_nodes ls)) (u32 (-1), INFINITY).

(** The outer loop of [calc_link_state]: [n] iterations remain. *)
Fixpoint calc_loop (n : nat) (curr_index : Z) (ls : link_state) : option link_state :=
  match n with
  | O => Some ls
  | S n' =>
      ls1 ← fold_opt (relax curr_index) edges ls;
      ls2 ← set_in_set curr_index true ls1;
      '(small_node, _) ← find_small ls2;
      if small_node =? u32 (-1) then Some ls2
      else calc_loop n' (u32 (small_node - 1)) ls2
  end.

(** [calc_link_state] *)
Definition calc_link_state (ls : link_state) : option link_state :=
  let curr_index := u32 (My_ID - 1) in
  ls1 ← set_parent curr_index My_ID ls;
  calc_loop (Z.to_nat (num_nodes ls1)) curr_index ls1.

(** [find_parent]: the fuel is the number of calls the [count] guard allows. *)
Fixpoint find_parent_rec (fuel : nat) (ls : link_state)
    (target_id curr_id count : Z) : option Z :=
  match fuel with
  | O => None
  | S fuel' =>
      if count >? num_nodes ls then Some (u32 (-1))
      else
        let count := u32 (count + 1) in
        let index := u32 (curr_id - 1) in
        if (index <? 0) || (index >=? num_nodes ls) then Some (u32 (-1))
        else
          next_id ← aget (parent_of ls) index;
          if next_id =? target_id then Some curr_id
          else find_parent_rec fuel' ls target_id next_id count
  end.

Definition find_parent (ls : link_state) (target_id curr_id count : Z) : option Z :=
  find_parent_rec (S (Z.to_nat (num_nodes ls + 1 - count))) ls target_id curr_id count.

(** [curr_node->next_hop = p]; a [NULL] [curr_node] is dereferenced. *)
Definition set_next_hop (i : node_ptr) (p : node_ptr) (nodes : node_list)
    : option node_list :=
  i ← i; n ← nodes !! i;
  Some (<[i := mk_node (node_id n) (node_addr n) (ctrl_addr n) p]> nodes).

(** [set_forwarding_table_ls]: the test [forward_id < 0] is on [uint32_t]. *)
Definition forwarding_body (ls : link_state) (i : Z) (nodes : node_list)
    : option node_list :=
  let node_id := u32 (i + 1) in
  forward_id ← find_parent ls My_ID node_id 0;
  let curr_node := get_node_from_id nodes node_id in
  if forward_id <? 0 then set_next_hop curr_node None nodes
  else set_next_hop curr_node (get_node_from_id nodes forward_id) nodes.

Definition set_forwarding_table_ls (ls : link_state) (nodes : node_list)
    : option node_list :=
  for_up (forwarding_body ls) 0 (Z.to_nat (num_nodes ls)) nodes.

(** The sequence the handlers run when a link changes. *)
Definition recalculate (ls : link_state) (nodes : node_list)
    : option (link_state * node_list) :=
  ls1 ← reset_link_state ls;
  ls2 ← calc_link_state ls1;
  nodes' ← set_forwarding_table_ls ls2 nodes;
  Some (ls2, nodes').
End algorithm.

(** ** Specification: shortest paths over the live links *)

Definition live (e : edge) : Prop := get_edge_cost e ≠ INFINITY.

(** [adj es u v c]: a live link from node [u] to node [v] of cost [c]. *)
Definition adj (es : edge_list) (u v c : Z) : Prop :=
  ∃ e, e ∈ es ∧ src_id e = u ∧ dst_id e = v ∧ live e ∧ get_edge_cost e = c.

Inductive path (es : edge_list) (u : Z) : Z → Z → Prop :=
| path_nil : path es u u 0
| path_snoc v w c d : path es u v c → adj es v w d → path es u w (c + d).

Definition shortest (es : edge_list) (u v d : Z) : Prop :=
  path es u v d ∧ ∀ c, path es u v c → d ≤ c.

(** Node ids are [1..N], links join known nodes, and [N] times the largest
    live cost stays below [INFINITY], so that no sum wraps. *)
Record topology_wf (N My_ID : Z) (es : edge_list) : Prop := {
  tw_size : N < 4294967295;
  tw_me : 1 ≤ My_ID ≤ N;
  tw_ends : ∀ e, e ∈ es → 1 ≤ src_id e ≤ N ∧ 1 ≤ dst_id e ≤ N;
  tw_cost : ∃ C, 0 ≤ C ∧ N * C < INFINITY ∧
              ∀ e, e ∈ es → live e → 0 ≤ get_edge_cost e ≤ C
}.

Record arrays_wf (N : Z) (ls : link_state) : Prop := {
  aw_num : num_nodes ls = N;
  aw_dist : Z.of_nat (length (distances ls)) = N;
  aw_set : Z.of_nat (length (in_set ls)) = N;
  aw_par : Z.of_nat (length (parent_of ls)) = N
}.

(** The node table holds exactly the ids [1..N], each once. *)
Record nodes_wf (N : Z) (nodes : node_list) : Prop := {
  nw_len : Z.of_nat (length nodes) = N;
  nw_nodup : NoDup (node_id <$> nodes);
  nw_ids : ∀ n, n ∈ nodes → 1 ≤ node_id n ≤ N
}.

(** The forwarding table follows shortest paths: the next hop of a reachable
    node is the first node of a shortest live path to it (this node for its own
    entry), the next hop of an unreachable node is [NULL]. *)
Definition routes_shortest (My_ID : Z) (es : edge_list) (nodes : node_list) : Prop :=
  ∀ n, n ∈ nodes →
    match next_hop n with
    | Some i => ∃ m, nodes !! i = Some m ∧
        if decide (node_id n = My_ID) then node_id m = My_ID
        else ∃ c d, adj es My_ID (node_id m) c ∧ path es (node_id m) (node_id n) d ∧
               shortest es My_ID (node_id n) (c + d)
    | None => ∀ c, ¬ path es My_ID (node_id n) c
    end.

(** Two edge tables with the same live links. *)
Definition same_links (es es' : edge_list) : Prop := ∀ u v c, adj es u v c ↔ adj es' u v c.

(** A four-node network used by the examples: the link 1-4 is dead, and the
    two-hop path 1-2-3 is cheaper than the direct link 1-3. *)
Definition demo_edges : edge_list :=
  [mk_edge 1 2 1 0 (Some 0%nat) (Some 1%nat); mk_edge 2 1 1 0 (Some 1%nat) (Some 0%nat);
   mk_edge 2 3 2 10 (Some 1%nat) (Some 2%nat); mk_edge 3 2 2 0 (Some 2%nat) (Some 1%nat);
   mk_edge 1 3 10 0 (Some 0%nat) (Some 2%nat); mk_edge 1 4 1 11 (Some 0%nat) (Some 3%nat)].
Definition demo_addr (i : Z) : sockaddr_in := mk_sockaddr i 8000.
Definition demo_node (i : Z) : node := mk_node i (demo_addr i) (demo_addr (i + 1)) None.
Definition demo_nodes : node_list := [demo_node 3; demo_node 1; demo_node 2; demo_node 4].
Definition demo_ls : link_state :=
  mk_ls [7; 7; 7; 7] [true; true; true; true] [9; 9; 9; 9] 4.

(** Three nodes whose two-hop path costs more than [uint32_t] holds. *)
Definition wrap_edges : edge_list :=
  [mk_edge 1 2 4294967290 0 (Some 0%nat) (Some 1%nat);
   mk_edge 2 3 10 0 (Some 1%nat) (Some 2%nat);
   mk_edge 1 3 4294967291 0 (Some 0%nat) (Some 2%nat)].

(** ** Views of the arrays *)

Definition dist (ls : link_state) (i : Z) : Z := default 0 (aget (distances ls) i).
Definition par (ls : link_state) (i : Z) : Z := default 0 (aget (parent_of ls) i).
Definition settled (ls : link_state) (i : Z) : bool := default false (aget (in_set ls) i).

Section views.
Context (N : Z) (ls : link_state) (Hwf : arrays_wf N ls).

Lemma aget_dist i : 0 ≤ i < N → aget (distances ls) i = Some (dist ls i).
Proof.
  intros Hi. rewrite <-(aw_dist _ _ Hwf) in Hi. unfold dist.
  by destruct (aget_is_Some _ _ Hi) as [x ->].
Qed.
Lemma aget_par i : 0 ≤ i < N → aget (parent_of ls) i = Some (par ls i).
Proof.
  intros Hi. rewrite <-(aw_par _ _ Hwf) in Hi. unfold par.
  by destruct (aget_is_Some _ _ Hi) as [x ->].
Qed.
Lemma aget_settled i : 0 ≤ i < N → aget (in_set ls) i = Some (settled ls i).
Proof.
  intros Hi. rewrite <-(aw_set _ _ Hwf) in Hi. unfold settled.
  by destruct (aget_is_Some _ _ Hi) as [x ->].
Qed.

Lemma set_distance_ok i d :
  0 ≤ i < N → ∃ ls', set_distance i d ls = Some ls' ∧ arrays_wf N ls' ∧
    (∀ j, dist ls' j = if decide (i = j) then d else dist ls j) ∧
    (∀ j, par ls' j = par ls j) ∧ (∀ j, settled ls' j = settled ls j).
Proof.
  intros Hi. unfold set_distance. destruct Hwf as [? Hd ? ?].
  destruct (aset (distances ls) i d) as [a|] eqn:E.
  2:{ rewrite aset_ok in E by lia. done. }
  eexists. split; [done|]. split_and!; [|intros j|done..].
  - constructor; simpl; [done| |done..]. by rewrite (aset_length _ _ _ _ E).
  - unfold dist. simpl. rewrite (aget_aset _ _ _ _ _ E). by case_decide.
Qed.

Lemma set_parent_ok i p :
  0 ≤ i < N → ∃ ls', set_parent i p ls = Some ls' ∧ arrays_wf N ls' ∧
    (∀ j, par ls' j = if decide (i = j) then p else par ls j) ∧
    (∀ j, dist ls' j = dist ls j) ∧ (∀ j, settled ls' j = settled ls j).
Proof.
  intros Hi. unfold set_parent. destruct Hwf as [? ? ? Hp].
  destruct (aset (parent_of ls) i p) as [a|] eqn:E.
  2:{ rewrite aset_ok in E by lia. done. }
  eexists. split; [done|]. split_and!; [|intros j|done..].
  - constructor; simpl; [done..|]. by rewrite (aset_length _ _ _ _ E).
  - unfold par. simpl. rewrite (aget_aset _ _ _ _ _ E). by case_decide.
Qed.

Lemma set_in_set_ok i b :
  0 ≤ i < N → ∃ ls', set_in_set i b ls = Some ls' ∧ arrays_wf N ls' ∧
    (∀ j, settled ls' j = if decide (i = j) then b else settled ls j) ∧
    (∀ j, dist ls' j = dist ls j) ∧ (∀ j, par ls' j = par ls j).
Proof.
  intros Hi. unfold set_in_set. destruct Hwf as [? ? Hs ?].
  destruct (aset (in_set ls) i b) as [a|] eqn:E.
  2:{ rewrite aset_ok in E by lia. done. }
  eexists. split; [done|]. split_and!; [|intros j|done..].
  - constructor; simpl; [done..| |done]. by rewrite (aset_length _ _ _ _ E).
  - unfold settled. simpl. rewrite (aget_aset _ _ _ _ _ E). by case_decide.
Qed.
End views.

(** [reset_link_state] never fails, whatever the arrays held. *)
Lemma reset_link_state_ok N My_ID ls :
  N < 4294967295 → arrays_wf N ls →
  ∃ ls', reset_link_state My_ID ls = Some ls' ∧ arrays_wf N ls' ∧
    ∀ i, 0 ≤ i < N → settled ls' i = false ∧
      dist ls' i = (if i + 1 =? My_ID then 0 else INFINITY) ∧
      par ls' i = (if i + 1 =? My_ID then i else u32 (-1)).
Proof.
  intros HN Hwf. unfold reset_link_state.
  destruct (for_up_inv (λ k t, arrays_wf N t ∧ ∀ i, 0 ≤ i < k → settled t i = false ∧
      dist t i = (if i + 1 =? My_ID then 0 else INFINITY) ∧
      par t i = (if i + 1 =? My_ID then i else u32 (-1)))
    (reset_body My_ID) 0 (Z.to_nat (num_nodes ls)) ls) as (t & -> & Ht & Hr).
  - split; [done|lia].
  - rewrite (aw_num _ _ Hwf). intros i t Hi [Ht Hpre].
    unfold reset_body. rewrite u32_small by lia.
    destruct (Z.eqb_spec (i + 1) My_ID) as [Hme|Hme].
    + destruct (set_distance_ok N t Ht i 0) as (t1 & -> & Ht1 & Hd1 & Hp1 & Hs1); [lia|]. simpl.
      destruct (set_parent_ok N t1 Ht1 i i) as (t2 & -> & Ht2 & Hp2 & Hd2 & Hs2); [lia|]. simpl.
      destruct (set_in_set_ok N t2 Ht2 i false) as (t3 & -> & Ht3 & Hs3 & Hd3 & Hp3); [lia|].
      exists t3. split_and!; [done..|]. intros j Hj.
      rewrite Hs3, Hd3, Hp3, Hd2, Hp2, Hd1, Hp1, Hs2, Hs1.
      destruct (decide (i = j)) as [<-|]; [|apply Hpre; lia].
      destruct (Z.eqb_spec (i + 1) My_ID); done.
    + destruct (set_distance_ok N t Ht i INFINITY) as (t1 & -> & Ht1 & Hd1 & Hp1 & Hs1); [lia|]. simpl.
      destruct (set_parent_ok N t1 Ht1 i (u32 (-1))) as (t2 & -> & Ht2 & Hp2 & Hd2 & Hs2); [lia|]. simpl.
      destruct (set_in_set_ok N t2 Ht2 i false) as (t3 & -> & Ht3 & Hs3 & Hd3 & Hp3); [lia|].
      exists t3. split_and!; [done..|]. intros j Hj.
      rewrite Hs3, Hd3, Hp3, Hd2, Hp2, Hd1, Hp1, Hs2, Hs1.
      destruct (decide (i = j)) as [<-|]; [|apply Hpre; lia].
      destruct (Z.eqb_spec (i + 1) My_ID); done.
  - exists t. rewrite (aw_num _ _ Hwf) in Hr. split_and!; [done..|].
    intros i Hi. apply Hr. lia.
Qed.

(** ** The inner loop: relaxing the links of the current node *)

Section relax.
Context (N My_ID : Z) (es : edge_list) (Htw : topology_wf N My_ID es).

(** What the loop over the first links [pre] did to [ls0]. *)
Record relaxed_by (curr : Z) (pre : edge_list) (ls0 ls : link_state) : Prop := {
  rb_wf : arrays_wf N ls;
  rb_set : ∀ i, settled ls i = settled ls0 i;
  rb_le : ∀ e, e ∈ pre → src_id e = curr + 1 → live e →
            dist ls (dst_id e - 1) ≤ dist ls0 curr + get_edge_cost e;
  rb_how : ∀ i,
    (dist ls i = dist ls0 i ∧ par ls i = par ls0 i) ∨
    (∃ c, adj es (curr + 1) (i + 1) c ∧ dist ls i = dist ls0 curr + c ∧
       dist ls i < dist ls0 i ∧ par ls i = curr + 1)
}.

Lemma relax_step curr pre e ls0 ls :
  0 ≤ curr < N →
  (∀ e', e' ∈ es → live e' → dist ls0 curr + get_edge_cost e' < INFINITY) →
  0 ≤ dist ls0 curr →
  e ∈ es → relaxed_by curr pre ls0 ls →
  ∃ ls', relax curr e ls = Some ls' ∧ relaxed_by curr (pre ++ [e]) ls0 ls'.
Proof.
  intros Hcurr Hbound Hpos He [Hwf Hset Hle Hhow].
  destruct (tw_cost _ _ _ Htw) as (C & HC & _ & Hcost).
  assert (HN := tw_size _ _ _ Htw). assert (Hends := tw_ends _ _ _ Htw e He).
  assert (dist ls curr = dist ls0 curr) as Hdc.
  { destruct (Hhow curr) as [[? ?]|(c & (e' & He' & _ & _ & Hl & Hc) & Hd & Hlt & _)]; [done|].
    specialize (Hcost e' He' Hl). lia. }
  unfold relax. rewrite u32_small by lia.
  assert (∀ ls', relaxed_by curr pre ls0 ls' →
    (src_id e = curr + 1 → live e → dist ls' (dst_id e - 1) ≤ dist ls0 curr + get_edge_cost e) →
    relaxed_by curr (pre ++ [e]) ls0 ls') as Hsnoc.
  { intros ls' [H1 H2 H3 H4] H5. constructor; [done..| |done].
    intros e' [?| ->%list_elem_of_singleton]%elem_of_app; auto. }
  destruct (Z.eqb_spec (src_id e) (curr + 1)) as [Hs|Hs]; simpl.
  2:{ eexists; split; [done|]. apply Hsnoc; [done|]. lia. }
  destruct (Z.eqb_spec (get_edge_cost e) INFINITY) as [Hi|Hi].
  { eexists; split; [done|]. apply Hsnoc; [done|]. intros _ Hl. by destruct Hl. }
  rewrite (u32_small (dst_id e - 1)) by lia.
  rewrite (aget_dist N) by (done || lia). simpl.
  rewrite (aget_dist N) by (done || lia). simpl.
  pose proof (Hbound e He Hi) as Hb. pose proof (Hcost e He Hi) as Hc.
  unfold INFINITY in Hb. rewrite Hdc, u32_small by lia.
  destruct (Z.ltb_spec (dist ls0 curr + get_edge_cost e) (dist ls (dst_id e - 1))) as [Hlt|Hge].
  2:{ eexists; split; [done|]. apply Hsnoc; [done|]. lia. }
  destruct (set_distance_ok N ls Hwf (dst_id e - 1) (dist ls0 curr + get_edge_cost e))
    as (t1 & -> & Ht1 & Hd1 & Hp1 & Hs1); [lia|]. simpl.
  destruct (set_parent_ok N t1 Ht1 (dst_id e - 1) (curr + 1))
    as (t2 & -> & Ht2 & Hp2 & Hd2 & Hs2); [lia|].
  exists t2. split; [done|]. apply Hsnoc.
  - constructor; [done|intros i; by rewrite Hs2, Hs1|..].
    + intros e' He' Hse' Hl'. rewrite Hd2, Hd1. specialize (Hle e' He' Hse' Hl').
      case_decide as Heq; [|done]. rewrite Heq in Hlt. lia.
    + intros i. rewrite Hd2, Hd1, Hp2, Hp1. case_decide as Heq; [|apply Hhow].
      right. subst i. exists (get_edge_cost e). split_and!; [|done| |done].
      * exists e. split_and!; [done|done|lia|done|done].
      * destruct (Hhow (dst_id e - 1)) as [[? ?]|(?&?&?&?&?)]; lia.
  - intros _ _. rewrite Hd2, Hd1, decide_True by done. lia.
Qed.

Lemma relax_all curr ls0 :
  0 ≤ curr < N → arrays_wf N ls0 →
  (∀ e', e' ∈ es → live e' → dist ls0 curr + get_edge_cost e' < INFINITY) →
  0 ≤ dist ls0 curr →
  ∃ ls', fold_opt (relax curr) es ls0 = Some ls' ∧ relaxed_by curr es ls0 ls'.
Proof.
  intros Hc Hwf Hb Hp.
  apply (fold_opt_inv (λ pre t, relaxed_by curr pre ls0 t)).
  - constructor; [done|done|set_solver|auto].
  - intros pre e post t Heq Ht. apply relax_step; [done..| |done].
    rewrite Heq. set_solver.
Qed.
End relax.

(** [find_small] returns a closest node outside the set, if one is reachable. *)
Lemma find_small_ok N ls :
  N < 4294967295 → arrays_wf N ls →
  ∃ node d, find_small ls = Some (node, d) ∧
    ((node = u32 (-1) ∧ ∀ j, 0 ≤ j < N → settled ls j = false → INFINITY ≤ dist ls j) ∨
     (1 ≤ node ≤ N ∧ settled ls (node - 1) = false ∧ dist ls (node - 1) < INFINITY ∧
      ∀ j, 0 ≤ j < N → settled ls j = false → dist ls (node - 1) ≤ dist ls j)).
Proof.
  intros HN Hwf. unfold find_small. rewrite (aw_num _ _ Hwf).
  destruct (for_up_inv (λ k '(node, d),
    (node = u32 (-1) ∧ d = INFINITY ∧
       ∀ j, 0 ≤ j < k → settled ls j = false → INFINITY ≤ dist ls j) ∨
    (1 ≤ node ≤ k ∧ settled ls (node - 1) = false ∧ d = dist ls (node - 1) ∧ d < INFINITY ∧
       ∀ j, 0 ≤ j < k → settled ls j = false → d ≤ dist ls j))
    (small_body ls) 0 (Z.to_nat N) (u32 (-1), INFINITY)) as ([node d] & -> & Hinv).
  - left. split_and!; [done..|lia].
  - intros k [node d] Hk Hinv. unfold small_body.
    assert (0 ≤ k < N) as HkN by lia.
    rewrite (aget_dist N) by done. simpl.
    destruct (Z.ltb_spec (dist ls k) d) as [Hlt|Hge].
    + rewrite (aget_settled N) by done. simpl.
      destruct (settled ls k) eqn:Hset; simpl; (eexists; split; [done|]).
      * destruct Hinv as [(-> & -> & H)|(? & ? & ? & ? & H)]; [left|right];
          split_and!; try done; try lia;
          intros j Hj Hsj; (destruct (decide (j = k)) as [->|]; [congruence|apply H; [lia|done]]).
      * right. rewrite u32_small by lia. replace (k + 1 - 1) with k by lia.
        assert (d ≤ INFINITY) as HdI by (destruct Hinv as [(_&->&_)|(_&_&_&?&_)]; lia).
        split_and!; [lia..|done|done|lia|].
        intros j Hj Hsj. destruct (decide (j = k)) as [->|]; [lia|].
        destruct Hinv as [(-> & -> & H)|(? & ? & ? & ? & H)].
        -- specialize (H j ltac:(lia) Hsj). lia.
        -- specialize (H j ltac:(lia) Hsj). lia.
    + eexists; split; [done|].
      destruct Hinv as [(-> & -> & H)|(? & ? & ? & ? & H)]; [left|right];
        split_and!; try done; try lia;
        intros j Hj Hsj; (destruct (decide (j = k)) as [->|]; [lia|apply H; [lia|done]]).
  - exists node, d. split; [done|].
    destruct Hinv as [(-> & -> & H)|(? & ? & -> & ? & H)]; [left|right].
    + split; [done|]. intros j Hj. apply H. lia.
    + split_and!; [lia..|done|done|]. intros j Hj. apply H. lia.
Qed.

(** ** The outer loop: Dijkstra's invariant *)

Section dijkstra.
Context (N My_ID : Z) (es : edge_list) (Htw : topology_wf N My_ID es).
Context (C : Z) (HC0 : 0 ≤ C) (HCN : N * C < INFINITY)
  (HC : ∀ e, e ∈ es → live e → 0 ≤ get_edge_cost e ≤ C).

(** [i] hangs below one of the nodes [P] in the tree. *)
Definition child_of (ls : link_state) (P : list Z) (i : Z) : Prop :=
  ∃ p c, p ∈ P ∧ adj es (p + 1) (i + 1) c ∧ dist ls i = dist ls p + c ∧ par ls i = p + 1.

(** [ord]: the indices put in the set so far, in order. *)
Record dij_inv (ord : list Z) (ls : link_state) : Prop := {
  di_wf : arrays_wf N ls;
  di_nodup : NoDup ord;
  di_range : ∀ i, i ∈ ord → 0 ≤ i < N;
  di_set : ∀ i, 0 ≤ i < N → settled ls i = true ↔ i ∈ ord;
  di_zero : dist ls (My_ID - 1) = 0;
  di_dist : ∀ i, 0 ≤ i < N → 0 ≤ dist ls i ≤ INFINITY;
  di_sound : ∀ i, 0 ≤ i < N → dist ls i < INFINITY → path es My_ID (i + 1) (dist ls i);
  di_bound : ∀ i, 0 ≤ i < N → dist ls i < INFINITY → dist ls i ≤ Z.of_nat (length ord) * C;
  di_sbound : ∀ i, i ∈ ord → dist ls i ≤ (Z.of_nat (length ord) - 1) * C;
  di_relaxed : ∀ i j c, i ∈ ord → adj es (i + 1) (j + 1) c → dist ls j ≤ dist ls i + c;
  di_order : ∀ i j, i ∈ ord → 0 ≤ j < N → j ∉ ord → dist ls i ≤ dist ls j;
  di_parme : par ls (My_ID - 1) = My_ID;
  di_parinf : ∀ i, 0 ≤ i < N → dist ls i = INFINITY → par ls i = u32 (-1);
  di_par : ∀ i, 0 ≤ i < N → i ∉ ord → i ≠ My_ID - 1 → dist ls i < INFINITY →
             child_of ls ord i;
  di_tree : ∀ pre i post, ord = pre ++ i :: post → i ≠ My_ID - 1 → child_of ls pre i
}.

Record next_ok (ord : list Z) (ls : link_state) (curr : Z) : Prop := {
  nx_range : 0 ≤ curr < N;
  nx_new : curr ∉ ord;
  nx_fin : dist ls curr < INFINITY;
  nx_min : ∀ j, 0 ≤ j < N → j ∉ ord → dist ls curr ≤ dist ls j
}.

Lemma adj_ends u v c : adj es u v c → 1 ≤ u ≤ N ∧ 1 ≤ v ≤ N ∧ 0 ≤ c ≤ C.
Proof.
  intros (e & He & <- & <- & Hl & <-).
  destruct (tw_ends _ _ _ Htw e He). specialize (HC e He Hl). done.
Qed.

Lemma ord_length ord ls curr :
  dij_inv ord ls → next_ok ord ls curr → Z.of_nat (length ord) < N.
Proof.
  intros Hinv Hnx.
  assert (Z.of_nat (length (ord ++ [curr])) ≤ Z.max 0 N) as Hl.
  { apply NoDup_range_length.
    - apply NoDup_app. split_and!; [by apply (di_nodup _ _ Hinv)| |apply NoDup_singleton].
      intros x Hx ->%list_elem_of_singleton. by apply (nx_new _ _ _ Hnx).
    - intros i [Hi| ->%list_elem_of_singleton]%elem_of_app.
      + by apply (di_range _ _ Hinv).
      + apply (nx_range _ _ _ Hnx). }
  rewrite length_app in Hl. simpl in Hl. pose proof (nx_range _ _ _ Hnx). lia.
Qed.

(** One iteration of the outer loop, up to the choice of the next node. *)
Lemma dij_step ord ls curr :
  dij_inv ord ls → next_ok ord ls curr →
  ∃ ls1 ls2, fold_opt (relax curr) es ls = Some ls1 ∧ set_in_set curr true ls1 = Some ls2 ∧
    dij_inv (ord ++ [curr]) ls2.
Proof.
  intros Hinv Hnx. pose proof (ord_length _ _ _ Hinv Hnx) as Hlen.
  destruct Hinv as [Hwf Hnd Hrg Hset Hz Hd Hsound Hbd Hsbd Hrel Hord Hpm Hpi Hpar Htree].
  destruct Hnx as [Hcr Hcn Hcf Hcm].
  assert (HkC : Z.of_nat (length ord) * C + C ≤ N * C) by nia.
  pose proof (Hbd curr Hcr Hcf) as Hcb. pose proof (proj1 (Hd curr Hcr)) as Hc0.
  destruct (relax_all N My_ID es Htw curr ls) as (ls1 & Hf & Hrb); [done|done| |done|].
  { intros e' He' Hl'. specialize (HC e' He' Hl'). lia. }
  destruct Hrb as [Hwf1 Hs1 Hle Hhow].
  destruct (set_in_set_ok N ls1 Hwf1 curr true) as (ls2 & Hset2 & Hwf2 & Hs2 & Hd2 & Hp2); [done|].
  exists ls1, ls2. split; [done|]. split; [done|].
  (* a node already settled, and the current one, keep their entries *)
  assert (∀ i, i ∈ ord ++ [curr] → dist ls2 i = dist ls i ∧ par ls2 i = par ls i) as Hkeep.
  { intros i Hi. rewrite Hd2, Hp2.
    destruct (Hhow i) as [?|(c & Ha & Hdi & Hlt & _)]; [done|exfalso].
    apply adj_ends in Ha as (_ & _ & Hc).
    apply elem_of_app in Hi as [Hi| ->%list_elem_of_singleton]; [|lia].
    specialize (Hord i curr Hi Hcr Hcn). lia. }
  assert (∀ i, i ∉ ord ++ [curr] → i ∉ ord ∧ i ≠ curr) as Hout by set_solver.
  assert (∀ P i, (∀ p, p ∈ P → p ∈ ord ++ [curr]) → dist ls2 i = dist ls i → par ls2 i = par ls i →
    child_of ls P i → child_of ls2 P i) as Hchild.
  { intros P i HP Hdi Hpi' (p & c & Hp & Ha & Hdp & Hpp). exists p, c.
    destruct (Hkeep p) as [Hk _]; [by apply HP|]. rewrite Hdi, Hpi', Hk. done. }
  assert (∀ i, (dist ls2 i = dist ls i ∧ par ls2 i = par ls i) ∨
    (i ∉ ord ++ [curr] ∧ ∃ c, adj es (curr + 1) (i + 1) c ∧ dist ls2 i = dist ls curr + c ∧
       dist ls2 i < dist ls i ∧ par ls2 i = curr + 1)) as Hcase.
  { intros i. destruct (decide (i ∈ ord ++ [curr])) as [Hi|Hi]; [left; auto|].
    rewrite Hd2, Hp2. destruct (Hhow i) as [?|?]; [by left|by right]. }
  constructor.
  - done.
  - apply NoDup_app. split_and!; [done| |apply NoDup_singleton].
    by intros x Hx ->%list_elem_of_singleton.
  - intros i [?| ->%list_elem_of_singleton]%elem_of_app; auto.
  - intros i Hi. rewrite Hs2, Hs1, elem_of_app, list_elem_of_singleton.
    case_decide; [naive_solver|]. rewrite Hset by done. naive_solver.
  - destruct (Hcase (My_ID - 1)) as [[-> _]|(_ & c & Ha & He & Hlt & _)]; [done|].
    apply adj_ends in Ha. lia.
  - intros i Hi. destruct (Hcase i) as [[-> _]|(_ & c & Ha & He & Hlt & _)]; [auto|].
    apply adj_ends in Ha. specialize (Hd i Hi). lia.
  - intros i Hi. destruct (Hcase i) as [[-> _]|(_ & c & Ha & -> & Hlt & _)]; [auto|].
    intros _. eapply path_snoc; [|done]. by apply Hsound.
  - intros i Hi. rewrite length_app. simpl.
    destruct (Hcase i) as [[-> _]|(_ & c & Ha & -> & Hlt & _)]; intros Hfin.
    + specialize (Hbd i Hi Hfin). lia.
    + apply adj_ends in Ha. lia.
  - intros i Hi. destruct (Hkeep i Hi) as [-> _]. rewrite length_app. simpl.
    replace (Z.of_nat (length ord + 1) - 1) with (Z.of_nat (length ord)) by lia.
    apply elem_of_app in Hi as [Hi| ->%list_elem_of_singleton]; [|done].
    specialize (Hsbd i Hi). lia.
  - intros i j c Hi Ha. destruct (Hkeep i Hi) as [-> _]. rewrite Hd2.
    apply elem_of_app in Hi as [Hi| ->%list_elem_of_singleton].
    + specialize (Hrel i j c Hi Ha).
      destruct (Hhow j) as [[-> _]|(?&?&?&?&?)]; lia.
    + destruct Ha as (e & He & Hse & Hde & Hl & <-).
      specialize (Hle e He Hse Hl). by rewrite Hde, Z.add_simpl_r in Hle.
  - intros i j Hi Hj Hjn. destruct (Hout j Hjn) as [Hjo Hjc].
    destruct (Hkeep i Hi) as [-> _].
    assert (dist ls i ≤ dist ls curr ∧ dist ls i ≤ dist ls j) as [Hic Hij].
    { apply elem_of_app in Hi as [Hi| ->%list_elem_of_singleton]; auto with lia. }
    destruct (Hcase j) as [[-> _]|(_ & c & Ha & -> & _)]; [done|].
    apply adj_ends in Ha. lia.
  - destruct (Hcase (My_ID - 1)) as [[_ ->]|(_ & c & Ha & He & Hlt & _)]; [done|].
    apply adj_ends in Ha. lia.
  - intros i Hi. destruct (Hcase i) as [[-> ->]|(_ & c & Ha & -> & Hlt & _)]; [auto|].
    specialize (Hd i Hi). lia.
  - intros i Hi Hn Hme Hfin. destruct (Hout i Hn) as [Hno _].
    destruct (Hcase i) as [[Hde Hpe]|(_ & c & Ha & Hdi & Hlt & Hp)].
    + rewrite Hde in Hfin. destruct (Hpar i Hi Hno Hme Hfin) as (p & c & Hp & Hrest).
      apply Hchild; [done..|]. exists p, c. split; [set_solver|done].
    + exists curr, c. split_and!; [set_solver|done| |done].
      destruct (Hkeep curr) as [-> _]; [set_solver|done].
  - intros pre i post Heq Hme.
    destruct (app_cons_snoc _ _ _ _ _ Heq) as [(-> & -> & ->)|(post' & -> & Heq')].
    + destruct (Hkeep curr) as [Hde Hpe]; [set_solver|].
      apply Hchild; [set_solver|done..|]. by apply Hpar.
    + destruct (Hkeep i) as [Hde Hpe]; [set_solver|].
      apply Hchild; [set_solver|done..|]. by apply (Htree _ _ post').
Qed.

(** When the loop ends every node left out of the set is unreachable. *)
Lemma calc_loop_ok n ord curr ls :
  dij_inv ord ls → next_ok ord ls curr → (Z.of_nat n + Z.of_nat (length ord) = N) →
  ∃ ls' ord', calc_loop es n curr ls = Some ls' ∧ dij_inv ord' ls' ∧
    ∀ j, 0 ≤ j < N → j ∉ ord' → dist ls' j = INFINITY.
Proof.
  revert ord curr ls. induction n as [|n IH]; intros ord curr ls Hinv Hnx Hn.
  { pose proof (ord_length _ _ _ Hinv Hnx). lia. }
  simpl. destruct (dij_step _ _ _ Hinv Hnx) as (ls1 & ls2 & -> & Hs & Hinv2). simpl.
  rewrite Hs. simpl. assert (HN := tw_size _ _ _ Htw).
  destruct (find_small_ok N ls2 HN (di_wf _ _ Hinv2)) as (node & d & -> & Hsm). simpl.
  assert (∀ j, 0 ≤ j < N → j ∉ ord ++ [curr] → settled ls2 j = false) as Huns.
  { intros j Hj Hjn. destruct (settled ls2 j) eqn:E; [|done].
    by apply (di_set _ _ Hinv2) in E. }
  destruct Hsm as [[-> Hinf]|(Hnode & Hns & Hfin & Hmin)].
  - exists ls2, (ord ++ [curr]). split; [done|]. split; [done|].
    intros j Hj Hjn. pose proof (Hinf j Hj (Huns j Hj Hjn)).
    pose proof (di_dist _ _ Hinv2 j Hj). lia.
  - destruct (Z.eqb_spec node (u32 (-1))) as [->|_].
    { change (u32 (-1)) with 4294967295 in Hnode. lia. }
    rewrite u32_small by lia. apply (IH (ord ++ [curr])); [done| |].
    + constructor; [lia| |done|].
      * intros Hin. apply (di_set _ _ Hinv2) in Hin; [congruence|lia].
      * intros j Hj Hjn. apply Hmin; [done|]. by apply Huns.
    + rewrite length_app. simpl. lia.
Qed.
End dijkstra.

(** The state after [reset_link_state] and the first line of [calc_link_state]. *)
Lemma dij_start N My_ID es C ls :
  topology_wf N My_ID es → 0 ≤ C → arrays_wf N ls →
  ∃ ls1 ls2, reset_link_state My_ID ls = Some ls1 ∧ set_parent (My_ID - 1) My_ID ls1 = Some ls2 ∧
    dij_inv N My_ID es C [] ls2 ∧ next_ok N [] ls2 (My_ID - 1).
Proof.
  intros Htw HC0 Hwf. assert (HN := tw_size _ _ _ Htw). assert (Hme := tw_me _ _ _ Htw).
  destruct (reset_link_state_ok N My_ID ls HN Hwf) as (ls1 & Hr & Hwf1 & Hrest).
  destruct (set_parent_ok N ls1 Hwf1 (My_ID - 1) My_ID) as (ls2 & Hs & Hwf2 & Hp2 & Hd2 & Hs2);
    [lia|].
  exists ls1, ls2. split; [done|]. split; [done|].
  assert (Hd : ∀ i, 0 ≤ i < N → dist ls2 i = if decide (i = My_ID - 1) then 0 else INFINITY).
  { intros i Hi. rewrite Hd2. destruct (Hrest i Hi) as (_ & -> & _).
    destruct (Z.eqb_spec (i + 1) My_ID), (decide (i = My_ID - 1)); (done || lia). }
  split.
  - constructor.
    + done.
    + apply NoDup_nil_2.
    + by intros i ?%not_elem_of_nil.
    + intros i Hi. rewrite Hs2. destruct (Hrest i Hi) as (-> & _).
      split; [done|]. by intros ?%not_elem_of_nil.
    + rewrite Hd by lia. by rewrite decide_True.
    + intros i Hi. rewrite Hd by done. case_decide; unfold INFINITY; lia.
    + intros i Hi. rewrite Hd by done. case_decide; [|lia]. subst.
      intros _. replace (My_ID - 1 + 1) with My_ID by lia. constructor.
    + intros i Hi. rewrite Hd by done. case_decide; lia.
    + by intros i ?%not_elem_of_nil.
    + by intros i j c ?%not_elem_of_nil.
    + by intros i j ?%not_elem_of_nil.
    + rewrite Hp2. by rewrite decide_True.
    + intros i Hi. rewrite Hd, Hp2 by done.
      destruct (decide (i = My_ID - 1)); [done|]. intros _. rewrite decide_False by done.
      destruct (Hrest i Hi) as (_ & _ & ->). destruct (Z.eqb_spec (i + 1) My_ID); [lia|done].
    + intros i Hi _ Hne. rewrite Hd by done. rewrite decide_False by done. lia.
    + intros pre i post Heq. by destruct pre.
  - constructor; [lia|apply not_elem_of_nil| |].
    + rewrite Hd by lia. by rewrite decide_True.
    + intros j Hj _. rewrite !Hd by lia. rewrite decide_True by done.
      case_decide; unfold INFINITY; lia.
Qed.

(** The tree that [calc_link_state] leaves behind. *)
Lemma calc_link_state_tree N My_ID es ls :
  topology_wf N My_ID es → arrays_wf N ls →
  ∃ C ls1 ls2 ord, 0 ≤ C ∧ N * C < INFINITY ∧
    (∀ e, e ∈ es → live e → 0 ≤ get_edge_cost e ≤ C) ∧
    reset_link_state My_ID ls = Some ls1 ∧ calc_link_state My_ID es ls1 = Some ls2 ∧
    dij_inv N My_ID es C ord ls2 ∧ (∀ j, 0 ≤ j < N → j ∉ ord → dist ls2 j = INFINITY).
Proof.
  intros Htw Hwf. destruct (tw_cost _ _ _ Htw) as (C & HC0 & HCN & HC).
  assert (HN := tw_size _ _ _ Htw). assert (Hme := tw_me _ _ _ Htw).
  destruct (dij_start N My_ID es C ls Htw HC0 Hwf) as (ls1 & ls2 & Hr & Hs & Hinv & Hnx).
  destruct (calc_loop_ok N My_ID es Htw C HC0 HCN HC (Z.to_nat N) [] (My_ID - 1) ls2 Hinv Hnx)
    as (ls3 & ord & Hc & Hinv3 & Hfin); [simpl; lia|].
  exists C, ls1, ls3, ord. split_and!; try done.
  unfold calc_link_state. rewrite u32_small by lia. rewrite Hs. simpl.
  by rewrite (aw_num _ _ (di_wf _ _ _ _ _ _ Hinv)).
Qed.

(** A finite distance in the final state bounds every path. *)
Lemma final_le_path N My_ID es C ord ls v c :
  topology_wf N My_ID es → 0 ≤ C → N * C < INFINITY →
  (∀ e, e ∈ es → live e → 0 ≤ get_edge_cost e ≤ C) →
  dij_inv N My_ID es C ord ls → (∀ j, 0 ≤ j < N → j ∉ ord → dist ls j = INFINITY) →
  path es My_ID v c → dist ls (v - 1) < INFINITY ∧ dist ls (v - 1) ≤ c.
Proof.
  intros Htw HC0 HCN HC Hinv Hfin. assert (Hme := tw_me _ _ _ Htw).
  induction 1 as [|v w c d Hp [IHf IHc] Ha].
  - rewrite (di_zero _ _ _ _ _ _ Hinv). done.
  - assert (Hends := adj_ends N My_ID es Htw C HC _ _ _ Ha).
    assert (Hin : v - 1 ∈ ord).
    { destruct (decide (v - 1 ∈ ord)); [done|]. rewrite Hfin in IHf; [lia|lia|done]. }
    assert (Ha' := Ha). replace v with (v - 1 + 1) in Ha' by lia.
    replace w with (w - 1 + 1) in Ha' by lia.
    pose proof (di_relaxed _ _ _ _ _ _ Hinv _ _ _ Hin Ha') as Hr.
    pose proof (di_sbound _ _ _ _ _ _ Hinv _ Hin) as Hb.
    assert (Z.of_nat (length ord) ≤ Z.max 0 N) as Hl.
    { apply NoDup_range_length; [apply (di_nodup _ _ _ _ _ _ Hinv)|].
      apply (di_range _ _ _ _ _ _ Hinv). }
    assert ((Z.of_nat (length ord) - 1) * C + C ≤ N * C) by nia. lia.
Qed.

(** Walking up the tree from a settled node finds the first hop. *)
Lemma find_parent_rec_settled N My_ID es C ord ls :
  topology_wf N My_ID es →
  (∀ e, e ∈ es → live e → 0 ≤ get_edge_cost e ≤ C) →
  dij_inv N My_ID es C ord ls →
  ∀ k pre i post count fuel, (length pre ≤ k)%nat → ord = pre ++ i :: post → i ≠ My_ID - 1 →
    (length pre < fuel)%nat → 0 ≤ count → count + Z.of_nat (length pre) ≤ N →
  ∃ h c d, find_parent_rec fuel ls My_ID (i + 1) count = Some h ∧ 1 ≤ h ≤ N ∧
    adj es My_ID h c ∧ path es h (i + 1) d ∧ dist ls i = c + d.
Proof.
  intros Htw HC Hinv. assert (HN := tw_size _ _ _ Htw). assert (Hwf := di_wf _ _ _ _ _ _ Hinv).
  induction k as [|k IH]; intros pre i post count fuel Hk Heq Hne Hfuel Hc0 Hc.
  all: assert (Hch := di_tree _ _ _ _ _ _ Hinv _ _ _ Heq Hne).
  all: destruct Hch as (p & c & Hp & Ha & Hdi & Hpar).
  { destruct pre; [set_solver|simpl in Hk; lia]. }
  assert (Hends := adj_ends N My_ID es Htw C HC _ _ _ Ha).
  destruct fuel as [|fuel]; [lia|]. simpl.
  rewrite (aw_num _ _ Hwf), Z.gtb_ltb, !Z.geb_leb.
  destruct (Z.ltb_spec N count) as [|HcN]; [lia|].
  rewrite (u32_small (count + 1)), (u32_small (i + 1 - 1)) by lia.
  replace (i + 1 - 1) with i by lia.
  destruct (Z.ltb_spec i 0); [lia|]. destruct (Z.leb_spec N i); [lia|]. simpl.
  rewrite (aget_par N) by (done || lia). simpl. rewrite Hpar.
  destruct (Z.eqb_spec (p + 1) My_ID) as [Hpm|Hpm].
  - exists (i + 1), c, 0. rewrite <-Hpm. split_and!; [done|lia|lia|done|constructor|].
    rewrite Hdi. replace p with (My_ID - 1) by lia. rewrite (di_zero _ _ _ _ _ _ Hinv). lia.
  - apply list_elem_of_split in Hp as (pre1 & pre2 & ->).
    destruct (IH pre1 p (pre2 ++ i :: post) (count + 1) fuel) as (h & c' & d & -> & Hh & Hah & Hp' & Hd).
    + rewrite length_app in Hk. simpl in Hk. lia.
    + by rewrite Heq, <-app_assoc.
    + lia.
    + rewrite length_app in Hfuel. simpl in Hfuel. lia.
    + lia.
    + rewrite length_app in Hc. simpl in Hc. lia.
    + exists h, c', (d + c). split_and!; [done|lia|lia|done| |lia].
      by eapply path_snoc.
Qed.

(** [find_parent] on an unreachable node, and on this node itself. *)
Lemma find_parent_unreachable N My_ID es C ord ls i :
  topology_wf N My_ID es → dij_inv N My_ID es C ord ls → 0 ≤ i < N →
  dist ls i = INFINITY → find_parent ls My_ID (i + 1) 0 = Some (u32 (-1)).
Proof.
  intros Htw Hinv Hi Hinf. assert (HN := tw_size _ _ _ Htw). assert (Hme := tw_me _ _ _ Htw).
  assert (Hwf := di_wf _ _ _ _ _ _ Hinv).
  unfold find_parent. rewrite (aw_num _ _ Hwf).
  destruct (Z.to_nat (N + 1 - 0)) as [|fuel] eqn:E; [lia|]. simpl.
  rewrite (aw_num _ _ Hwf), !Z.gtb_ltb, !Z.geb_leb.
  destruct (Z.ltb_spec N 0); [lia|]. rewrite !u32_small by lia.
  replace (i + 1 - 1) with i by lia.
  destruct (Z.ltb_spec i 0); [lia|]. destruct (Z.leb_spec N i); [lia|]. simpl.
  rewrite (aget_par N) by (done || lia). simpl.
  rewrite (di_parinf _ _ _ _ _ _ Hinv i Hi Hinf).
  change (u32 (-1)) with 4294967295. change (u32 (4294967295 - 1)) with 4294967294.
  destruct (Z.eqb_spec 4294967295 My_ID); [lia|]. change (u32 (0 + 1)) with 1.
  destruct (Z.ltb_spec N 1); [done|].
  rewrite Z.geb_leb. destruct (Z.leb_spec N 4294967294); [done|lia].
Qed.

Lemma find_parent_self N My_ID es C ord ls :
  topology_wf N My_ID es → dij_inv N My_ID es C ord ls →
  find_parent ls My_ID My_ID 0 = Some My_ID.
Proof.
  intros Htw Hinv. assert (HN := tw_size _ _ _ Htw). assert (Hme := tw_me _ _ _ Htw).
  assert (Hwf := di_wf _ _ _ _ _ _ Hinv).
  unfold find_parent. rewrite (aw_num _ _ Hwf).
  simpl.
  rewrite (aw_num _ _ Hwf), !Z.gtb_ltb, !Z.geb_leb.
  destruct (Z.ltb_spec N 0); [lia|]. rewrite !u32_small by lia.
  destruct (Z.ltb_spec (My_ID - 1) 0); [lia|]. destruct (Z.leb_spec N (My_ID - 1)); [lia|]. simpl.
  rewrite (aget_par N) by (done || lia). simpl.
  rewrite (di_parme _ _ _ _ _ _ Hinv). by rewrite Z.eqb_refl.
Qed.

(** ** The forwarding table *)

Definition same_node (n n' : node) : Prop :=
  node_id n' = node_id n ∧ node_addr n' = node_addr n ∧ ctrl_addr n' = ctrl_addr n.

Lemma get_node_from_id_ids l l' id :
  node_id <$> l = node_id <$> l' → get_node_from_id l id = get_node_from_id l' id.
Proof.
  unfold get_node_from_id. revert l'.
  induction l as [|n l IH]; intros [|n' l'] H; simplify_eq/=; [done|].
  destruct (node_id n =? id) eqn:E; replace (node_id n') with (node_id n); rewrite E; [done|].
  by rewrite (IH l').
Qed.

Lemma nodes_wf_lookup N nodes id :
  nodes_wf N nodes → 1 ≤ id ≤ N → ∃ i n, nodes !! i = Some n ∧ node_id n = id ∧
    get_node_from_id nodes id = Some i.
Proof.
  intros [Hlen Hnd Hids] Hid.
  assert (id ∈ node_id <$> nodes) as Hin.
  { assert (seqZ 1 N ⊆+ node_id <$> nodes) as Hsub.
    { assert (node_id <$> nodes ≡ₚ seqZ 1 N) as ->; [|done].
      apply submseteq_length_Permutation.
      - apply NoDup_submseteq; [done|]. intros x Hx. apply elem_of_seqZ.
        apply list_elem_of_fmap in Hx as (n & -> & Hn). specialize (Hids n Hn). lia.
      - rewrite length_fmap, length_seqZ. lia. }
    eapply elem_of_submseteq; [|exact Hsub]. apply elem_of_seqZ. lia. }
  apply list_elem_of_fmap in Hin as (n & -> & Hn).
  apply list_elem_of_lookup in Hn as [i Hi]. exists i, n. split_and!; [done|done|].
  by apply get_node_from_id_unique.
Qed.

Lemma get_node_from_id_absent N nodes id :
  nodes_wf N nodes → N < id → get_node_from_id nodes id = None.
Proof.
  intros Hwf Hid. apply get_node_from_id_None. intros n Hn.
  pose proof (nw_ids _ _ Hwf n Hn). lia.
Qed.

(** [curr_node->next_hop = p] keeps every other field of the table. *)
Lemma set_next_hop_ok N nodes id p :
  nodes_wf N nodes → 1 ≤ id ≤ N →
  ∃ nodes', set_next_hop (get_node_from_id nodes id) p nodes = Some nodes' ∧
    nodes_wf N nodes' ∧ Forall2 same_node nodes nodes' ∧
    ∀ j n', nodes' !! j = Some n' →
      (node_id n' = id → next_hop n' = p) ∧
      (node_id n' ≠ id → nodes !! j = Some n').
Proof.
  intros Hwf Hid. destruct (nodes_wf_lookup _ _ _ Hwf Hid) as (i & n & Hi & Hn & Hg).
  unfold set_next_hop. rewrite Hg. simpl. rewrite Hi. simpl. eexists. split; [done|].
  set (n1 := mk_node _ _ _ p). destruct Hwf as [Hlen Hnd Hids].
  assert (node_id <$> <[i:=n1]> nodes = node_id <$> nodes) as Hids'.
  { rewrite list_fmap_insert. apply list_insert_id. by rewrite list_lookup_fmap, Hi. }
  split_and!.
  - constructor; [by rewrite length_insert|by rewrite Hids'|].
    intros m [j Hj]%list_elem_of_lookup.
    apply list_lookup_insert_Some in Hj as [(<- & <- & _)|[_ Hj]]; simpl.
    + apply Hids. by eapply list_elem_of_lookup_2.
    + apply Hids. by eapply list_elem_of_lookup_2.
  - apply Forall2_same_length_lookup_2; [by rewrite length_insert|].
    intros j x y Hx Hy. apply list_lookup_insert_Some in Hy as [(<- & <- & _)|[_ Hy]].
    + by simplify_eq.
    + by simplify_eq.
  - intros j n' Hj. apply list_lookup_insert_Some in Hj as [(<- & <- & _)|[Hne Hj]]; simpl.
    + split; [done|]. by rewrite Hn.
    + split; [|done]. intros Hid'. exfalso. apply Hne.
      apply (NoDup_lookup _ _ _ id Hnd); rewrite list_lookup_fmap; [by rewrite Hi, <-Hn|].
      by rewrite Hj, <-Hid'.
Qed.

Lemma same_node_refl l : Forall2 same_node l l.
Proof. apply Forall_Forall2_diag, Forall_true. by intros. Qed.

Lemma same_node_trans l1 l2 l3 :
  Forall2 same_node l1 l2 → Forall2 same_node l2 l3 → Forall2 same_node l1 l3.
Proof.
  intros H12. revert l3. induction H12 as [|x y l1 l2 (E1 & E2 & E3) _ IH]; intros l3 H23.
  - by inversion H23.
  - inversion H23 as [|? z ? l3' (F1 & F2 & F3) Hl]; subst. constructor; [|by apply IH].
    unfold same_node. by rewrite F1, F2, F3, E1, E2, E3.
Qed.

Lemma same_node_ids l1 l2 : Forall2 same_node l1 l2 → node_id <$> l1 = node_id <$> l2.
Proof. induction 1 as [|x y l1 l2 (E & _ & _) _ IH]; [done|]. rewrite !fmap_cons. by rewrite E, IH. Qed.

(** What the forwarding loop writes, given that [find_parent] answers [F]. *)
Lemma set_forwarding_table_ok N My_ID ls nodes (F : Z → Z) :
  N < 4294967295 → num_nodes ls = N → nodes_wf N nodes →
  (∀ v, 1 ≤ v ≤ N → find_parent ls My_ID v 0 = Some (F v) ∧ 0 ≤ F v) →
  ∃ nodes', set_forwarding_table_ls My_ID ls nodes = Some nodes' ∧ nodes_wf N nodes' ∧
    Forall2 same_node nodes nodes' ∧
    ∀ n, n ∈ nodes' → next_hop n = get_node_from_id nodes' (F (node_id n)).
Proof.
  intros HN Hnum Hwf HF. unfold set_forwarding_table_ls. rewrite Hnum.
  destruct (for_up_inv (λ k t, nodes_wf N t ∧ Forall2 same_node nodes t ∧
      ∀ n, n ∈ t → node_id n ≤ k → next_hop n = get_node_from_id nodes (F (node_id n)))
    (forwarding_body My_ID ls) 0 (Z.to_nat N) nodes) as (t & -> & Ht & Hs & Hh).
  - split_and!; [done|apply same_node_refl|].
    intros n Hn. pose proof (nw_ids _ _ Hwf n Hn). lia.
  - intros i t Hi (Ht & Hs & Hh). unfold forwarding_body. rewrite u32_small by lia.
    destruct (HF (i + 1)) as [-> HFpos]; [lia|]. simpl.
    destruct (Z.ltb_spec (F (i + 1)) 0); [lia|].
    destruct (set_next_hop_ok N t (i + 1) (get_node_from_id t (F (i + 1))) Ht)
      as (t' & -> & Ht' & Hs' & Hh'); [lia|].
    exists t'. split_and!; [done..|by eapply same_node_trans|].
    intros n Hn Hle. apply list_elem_of_lookup in Hn as [j Hj].
    destruct (Hh' j n Hj) as [He Hne]. destruct (decide (node_id n = i + 1)) as [Heq|Heq].
    + rewrite (He Heq), Heq. symmetry. by apply get_node_from_id_ids, same_node_ids.
    + apply Hh; [eapply list_elem_of_lookup_2; by apply Hne|lia].
  - exists t. split_and!; [done..|]. intros n Hn.
    pose proof (nw_ids _ _ Ht n Hn). rewrite Hh; [|done|lia].
    by apply get_node_from_id_ids, same_node_ids.
Qed.

(** ** Properties *)

(** C7: [reset_link_state] followed by [calc_link_state] computes shortest
    paths: on every topology whose path costs fit in [uint32_t], the entry of
    node [v] is the cost of a shortest live path from this node, or
    [INFINITY] exactly when there is no live path. *)
Theorem calc_link_state_shortest N My_ID es ls :
  topology_wf N My_ID es → arrays_wf N ls →
  ∃ ls1 ls2, reset_link_state My_ID ls = Some ls1 ∧ calc_link_state My_ID es ls1 = Some ls2 ∧
    arrays_wf N ls2 ∧
    ∀ v, 1 ≤ v ≤ N → ∃ d, aget (distances ls2) (v - 1) = Some d ∧
      ((d < INFINITY ∧ shortest es My_ID v d) ∨
       (d = INFINITY ∧ ∀ c, ¬ path es My_ID v c)).
Proof.
  intros Htw Hwf.
  destruct (calc_link_state_tree N My_ID es ls Htw Hwf)
    as (C & ls1 & ls2 & ord & HC0 & HCN & HC & Hr & Hc & Hinv & Hfin).
  exists ls1, ls2. split_and!; [done..|apply (di_wf _ _ _ _ _ _ Hinv)|].
  intros v Hv. exists (dist ls2 (v - 1)).
  split; [apply (aget_dist N); [apply (di_wf _ _ _ _ _ _ Hinv)|lia]|].
  pose proof (λ c, final_le_path N My_ID es C ord ls2 v c Htw HC0 HCN HC Hinv Hfin) as Hle.
  destruct (Z.lt_ge_cases (dist ls2 (v - 1)) INFINITY) as [Hlt|Hge]; [left|right].
  - split; [done|]. split.
    + pose proof (di_sound _ _ _ _ _ _ Hinv (v - 1) ltac:(lia) Hlt) as Hp.
      by replace (v - 1 + 1) with v in Hp by lia.
    + intros c Hp. by apply Hle.
  - pose proof (di_dist _ _ _ _ _ _ Hinv (v - 1) ltac:(lia)). split; [lia|].
    intros c Hp. apply Hle in Hp. lia.
Qed.

(** The recalculation as the handlers use it. *)
Lemma recalculate_ok N My_ID es ls nodes :
  topology_wf N My_ID es → arrays_wf N ls → nodes_wf N nodes →
  ∃ ls' nodes', recalculate My_ID es ls nodes = Some (ls', nodes') ∧
    arrays_wf N ls' ∧ nodes_wf N nodes' ∧ Forall2 same_node nodes nodes' ∧
    routes_shortest My_ID es nodes'.
Proof.
  intros Htw Hwf Hnw.
  destruct (calc_link_state_tree N My_ID es ls Htw Hwf)
    as (C & ls1 & ls2 & ord & HC0 & HCN & HC & Hr & Hc & Hinv & Hfin).
  assert (HN := tw_size _ _ _ Htw). assert (Hme := tw_me _ _ _ Htw).
  assert (Hwf2 := di_wf _ _ _ _ _ _ Hinv).
  pose proof (λ v c, final_le_path N My_ID es C ord ls2 v c Htw HC0 HCN HC Hinv Hfin) as Hle.
  assert (∀ v, 1 ≤ v ≤ N → ∃ f, find_parent ls2 My_ID v 0 = Some f ∧ 0 ≤ f ∧
    ((v = My_ID ∧ f = My_ID) ∨
     (v ≠ My_ID ∧ 1 ≤ f ≤ N ∧ ∃ c d, adj es My_ID f c ∧ path es f v d ∧
        shortest es My_ID v (c + d)) ∨
     (v ≠ My_ID ∧ f = u32 (-1) ∧ ∀ c, ¬ path es My_ID v c))) as Hfp.
  { intros v Hv. destruct (decide (v = My_ID)) as [->|Hvm].
    { exists My_ID. split_and!; [by eapply find_parent_self|lia|auto]. }
    destruct (decide (v - 1 ∈ ord)) as [Hin|Hout].
    - apply list_elem_of_split in Hin as (pre & post & Heq).
      assert (Z.of_nat (length ord) ≤ Z.max 0 N) as Hlen.
      { apply NoDup_range_length; [apply (di_nodup _ _ _ _ _ _ Hinv)|].
        apply (di_range _ _ _ _ _ _ Hinv). }
      rewrite Heq, length_app in Hlen. simpl in Hlen.
      destruct (find_parent_rec_settled N My_ID es C ord ls2 Htw HC Hinv (length pre) pre
        (v - 1) post 0 (S (Z.to_nat (num_nodes ls2 + 1 - 0)))) as (h & c & d & Hf & Hh & Ha & Hp & Hd);
        [done|done|lia|rewrite (aw_num _ _ Hwf2); lia|done|lia|].
      replace (v - 1 + 1) with v in * by lia.
      exists h. split_and!; [done|lia|]. right. left. split; [done|]. split; [done|].
      exists c, d. split_and!; [done..|]. rewrite <-Hd.
      assert (v - 1 ∈ ord) as Hin by (rewrite Heq; set_solver).
      pose proof (di_sbound _ _ _ _ _ _ Hinv _ Hin) as Hb.
      assert (dist ls2 (v - 1) < INFINITY) as Hlt.
      { rewrite Heq, length_app in Hb. simpl in Hb. nia. }
      split; [|intros c' Hp'; by apply Hle].
      pose proof (di_sound _ _ _ _ _ _ Hinv (v - 1) ltac:(lia) Hlt) as Hs.
      by replace (v - 1 + 1) with v in Hs by lia.
    - assert (dist ls2 (v - 1) = INFINITY) as Hinf by (apply Hfin; [lia|done]).
      exists (u32 (-1)). split_and!.
      + pose proof (find_parent_unreachable N My_ID es C ord ls2 (v - 1) Htw Hinv) as Hu.
        replace (v - 1 + 1) with v in Hu by lia. apply Hu; [lia|done].
      + done.
      + right. right. split_and!; [done..|]. intros c Hp. apply Hle in Hp. lia. }
  destruct (set_forwarding_table_ok N My_ID ls2 nodes
    (λ v, default 0 (find_parent ls2 My_ID v 0))) as (nodes' & Hset & Hnw' & Hsame & Hnh).
  { done. } { by apply aw_num. } { done. }
  { intros v Hv. destruct (Hfp v Hv) as (f & -> & Hf & _). done. }
  exists ls2, nodes'. unfold recalculate. rewrite Hr. simpl. rewrite Hc. simpl. rewrite Hset.
  split_and!; [done..|]. intros n Hn. rewrite (Hnh n Hn).
  destruct (Hfp (node_id n)) as (f & -> & Hf0 & Hf); [by apply (nw_ids _ _ Hnw')|]. simpl.
  destruct Hf as [[Hv ->]|[(Hv & Hfr & Hrest)|(Hv & -> & Hno)]].
  - destruct (nodes_wf_lookup N nodes' My_ID Hnw' Hme) as (i & m & Hi & Hm & ->).
    exists m. rewrite Hv, decide_True by done. done.
  - destruct (nodes_wf_lookup N nodes' f Hnw' Hfr) as (i & m & Hi & Hm & ->).
    exists m. rewrite decide_False by done. rewrite Hm. done.
  - rewrite (get_node_from_id_absent N) by (done || (change (u32 (-1)) with 4294967295; lia)).
    done.
Qed.

(** C24: after the recalculation the handlers run, the forwarding table routes
    along shortest paths: the next hop of a reachable node is the first node of
    a shortest live path to it (this node itself for its own entry), and the
    next hop of an unreachable node is [NULL]; no other field of the node table
    changes. *)
Theorem forwarding_table_correct N My_ID es ls nodes :
  topology_wf N My_ID es → arrays_wf N ls → nodes_wf N nodes →
  ∃ ls' nodes', recalculate My_ID es ls nodes = Some (ls', nodes') ∧
    arrays_wf N ls' ∧ nodes_wf N nodes' ∧ Forall2 same_node nodes nodes' ∧
    routes_shortest My_ID es nodes'.
Proof. apply recalculate_ok. Qed.

#[export] Instance same_links_equiv : Equivalence same_links.
Proof.
  split.
  - by intros es u v c.
  - by intros es es' H u v c.
  - intros es1 es2 es3 H12 H23 u v c. by rewrite (H12 u v c).
Qed.

#[export] Instance adj_proper : Proper (same_links ==> eq ==> eq ==> eq ==> iff) adj.
Proof. intros es es' H u _ <- v _ <- c _ <-. apply H. Qed.

#[export] Instance path_proper : Proper (same_links ==> eq ==> eq ==> eq ==> iff) path.
Proof.
  assert (∀ es es' u v c, same_links es es' → path es u v c → path es' u v c) as Hone.
  { intros es es' u v c H. induction 1; [constructor|].
    eapply path_snoc; [done|]. by rewrite <-H. }
  intros es es' H u _ <- v _ <- c _ <-. split; apply Hone; [done|by symmetry].
Qed.

#[export] Instance shortest_proper : Proper (same_links ==> eq ==> eq ==> eq ==> iff) shortest.
Proof.
  intros es es' H u _ <- v _ <- c _ <-. unfold shortest. rewrite H.
  by setoid_rewrite H.
Qed.

#[export] Instance routes_shortest_proper :
  Proper (eq ==> same_links ==> eq ==> iff) routes_shortest.
Proof.
  assert (∀ me es es' nodes, same_links es es' → routes_shortest me es nodes →
    routes_shortest me es' nodes) as Hone.
  { intros me es es' nodes H Hr n Hn. specialize (Hr n Hn).
    destruct (next_hop n) as [i|].
    - destruct Hr as (m & Hm & Hr). exists m. split; [done|]. case_decide; [done|].
      destruct Hr as (c & d & Ha & Hp & Hs). exists c, d. by rewrite <-!H.
    - intros c. by rewrite <-H. }
  intros me _ <- es es' H nodes _ <-. split; apply Hone; [done|by symmetry].
Qed.

Lemma find_parent_rec_S fuel ls target_id curr_id count :
  find_parent_rec (S fuel) ls target_id curr_id count =
  if count >? num_nodes ls then Some (u32 (-1))
  else if (u32 (curr_id - 1) <? 0) || (u32 (curr_id - 1) >=? num_nodes ls)
  then Some (u32 (-1))
  else next_id ← aget (parent_of ls) (u32 (curr_id - 1));
       if next_id =? target_id then Some curr_id
       else find_parent_rec fuel ls target_id next_id (u32 (count + 1)).
Proof. done. Qed.

(** [find_parent] terminates on every content of [parent_of], cycles and
    stray ids included: the [count] guard cuts the recursion after
    [num_nodes + 1] calls and no read leaves the array. *)
Theorem find_parent_terminates N ls target_id curr_id count :
  N < 4294967295 → arrays_wf N ls → 0 ≤ count →
  is_Some (find_parent ls target_id curr_id count).
Proof.
  intros HN Hwf Hc. unfold find_parent.
  assert (∀ fuel cid k, 0 ≤ k → N + 1 - k ≤ Z.of_nat fuel →
    is_Some (find_parent_rec (S fuel) ls target_id cid k)) as Hgen.
  { induction fuel as [|fuel IH]; intros cid k Hk Hf;
      rewrite find_parent_rec_S, (aw_num _ _ Hwf), Z.gtb_ltb; (destruct (Z.ltb_spec N k); [by eauto|]); [lia|].
    rewrite Z.geb_leb. pose proof (u32_range (cid - 1)).
    destruct (Z.ltb_spec (u32 (cid - 1)) 0); [by eauto|]. simpl.
    destruct (Z.leb_spec N (u32 (cid - 1))); [by eauto|].
    rewrite (aget_par N) by (done || lia). simpl.
    destruct (_ =? target_id); [by eauto|]. rewrite u32_small by lia. apply IH; lia. }
  apply Hgen; [done|]. rewrite (aw_num _ _ Hwf). lia.
Qed.

(** The sums of [calc_link_state] wrap around.  On a three-node topology
    whose two-hop path costs 4294967300 the computed distance of node 3 is 4,
    although its shortest path is the direct link of cost 4294967291, and node
    3 is routed through node 2. *)
Theorem calc_link_state_wraps :
  (∃ ls' nodes',
    recalculate 1 wrap_edges (mk_ls [0; 0; 0] [true; true; true] [0; 0; 0] 3)
      [demo_node 1; demo_node 2; demo_node 3] = Some (ls', nodes') ∧
    aget (distances ls') 2 = Some 4 ∧ (next_hop <$> nodes' !! 2%nat) = Some (Some 1%nat)) ∧
  shortest wrap_edges 1 3 4294967291.
Proof.
  split.
  { eexists _, _. split; [vm_compute; reflexivity|]. done. }
  assert (∀ v c, path wrap_edges 1 v c → (v = 1 ∧ c = 0) ∨ (v = 2 ∧ 4294967290 ≤ c) ∨
    (v = 3 ∧ 4294967291 ≤ c)) as Hall.
  { induction 1 as [|v w c d _ IH (e & He & Hs & Hd & _ & Hc)]; [auto|].
    unfold wrap_edges in He. elem_cases He; cbn in *; lia. }
  split.
  - apply (path_snoc _ _ 1 3 0 4294967291); [constructor|].
    exists (mk_edge 1 3 4294967291 0 (Some 0%nat) (Some 2%nat)).
    split_and!; [|done..]. unfold wrap_edges. set_solver.
  - intros c Hp. apply Hall in Hp. lia.
Qed.

(** ** Witnesses *)

Lemma demo_topology : topology_wf 4 1 demo_edges.
Proof.
  constructor; [lia|lia| |].
  - intros e He. unfold demo_edges in He. elem_cases He; simpl; lia.
  - exists 10. split_and!; [lia|unfold INFINITY; lia|].
    intros e He Hl. unfold demo_edges in He. elem_cases He; cbn; try lia.
    by destruct Hl.
Qed.

Lemma demo_arrays : arrays_wf 4 demo_ls.
Proof. by constructor. Qed.

Lemma demo_nodes_wf : nodes_wf 4 demo_nodes.
Proof.
  constructor; [done| |].
  - apply (bool_decide_unpack (NoDup (node_id <$> demo_nodes))). vm_compute. exact I.
  - intros n Hn. unfold demo_nodes in Hn. elem_cases Hn; simpl; lia.
Qed.

Lemma calc_link_state_shortest_witness :
  ∃ ls1 ls2, reset_link_state 1 demo_ls = Some ls1 ∧
    calc_link_state 1 demo_edges ls1 = Some ls2 ∧ arrays_wf 4 ls2 ∧
    ∀ v, 1 ≤ v ≤ 4 → ∃ d, aget (distances ls2) (v - 1) = Some d ∧
      ((d < INFINITY ∧ shortest demo_edges 1 v d) ∨
       (d = INFINITY ∧ ∀ c, ¬ path demo_edges 1 v c)).
Proof.
  apply (calc_link_state_shortest 4 1 demo_edges demo_ls); [apply demo_topology|apply demo_arrays].
Defined.

Lemma forwarding_table_correct_witness :
  ∃ ls' nodes', recalculate 1 demo_edges demo_ls demo_nodes = Some (ls', nodes') ∧
    arrays_wf 4 ls' ∧ nodes_wf 4 nodes' ∧ Forall2 same_node demo_nodes nodes' ∧
    routes_shortest 1 demo_edges nodes'.
Proof.
  apply (forwarding_table_correct 4 1 demo_edges demo_ls demo_nodes);
    [apply demo_topology|apply demo_arrays|apply demo_nodes_wf].
Defined.

(** A [parent_of] with a cycle between nodes 1 and 2. *)
Lemma find_parent_terminates_witness :
  is_Some (find_parent (mk_ls [0; 0; 0; 0] [true; true; true; true] [2; 1; 1; 1] 4) 3 1 0).
Proof.
  apply (find_parent_terminates 4); [lia| |lia]. constructor; done.
Defined.
