(* ===== verification/DistVec.v ===== *)
(** * Distance-vector routing of the overlay node

    [init_distance_vector], [calc_distance_vector], [send_dv_over_link] (the
    packet it builds) and the table update of [handle_dv] of
    CS1652/project3/proj3-code/overlay_node.c.  The main results: the block for
    the old vector is too small, so that the update is undefined but where the
    allocator rounds the request far up; there row 0 of the table satisfies the
    Bellman equation over the rows of the live neighbours and the forwarding table
    names a neighbour that attains the minimum; the advertised vector is poisoned
    towards the next hop. *)
From S2P Require Import Prelude OverlayLists LinkState.
Open Scope Z_scope.

(** [struct dv]: [vectors] has [num_adj_nodes + 1] rows of [dv_num_nodes + 1]
    entries; column 0 is the id of the row's node. *)
Record dv := mk_dv {
  vectors : list (list Z);
  num_adj_nodes : Z;
  dv_num_nodes : Z
}.

Definition vget (v : list (list Z)) (i j : Z) : option Z := r ← aget v i; aget r j.
Definition vset (v : list (list Z)) (i j x : Z) : option (list (list Z)) :=
  r ← aget v i; r' ← aset r j x; aset v i r'.

Section dv.
Context (My_ID : Z) (edges : edge_list).
(** Bytes of the block that [malloc(n)] gives: [n] are promised, more are up to
    the allocator. *)
Context (malloc_usable : Z → Z).

(** "empty forwarding table": only this node's own entry is kept. *)
Definition clear_next_hops (nodes : node_list) : node_list :=
  imap (λ i n, mk_node (node_id n) (node_addr n) (ctrl_addr n)
                 (if node_id n =? My_ID then Some i else None)) nodes.

(** The first loop of [calc_distance_vector]: [prev_vec] has
    [malloc(num_nodes)] bytes and is written as [uint32_t]s. *)
Definition reset_row (i : Z) (st : list (list Z) * list Z)
    : option (list (list Z) * list Z) :=
  let '(v, prev_vec) := st in
  d ← vget v 0 i;
  v' ← vset v 0 i (if i =? My_ID then 0 else INFINITY);
  Some (v', prev_vec ++ [d]).

Definition save_and_reset (t : dv) : option (list (list Z) * list Z) :=
  if decide (4 * dv_num_nodes t ≤ malloc_usable (dv_num_nodes t))
  then for_up reset_row 1 (Z.to_nat (dv_num_nodes t)) (vectors t, [])
  else None.

(** The innermost body: neighbour [i], at cost [edge_cost], offers a path to [j]. *)
Definition improve (i edge_cost : Z) (adj_node : node_ptr) (j : Z)
    (st : list (list Z) * node_list) : option (list (list Z) * node_list) :=
  let '(v, nodes) := st in
  vij ← vget v i j;
  if vij =? INFINITY then Some st
  else
    v0j ← vget v 0 j;
    if u32 (vij + edge_cost) <? v0j
    then v' ← vset v 0 j (u32 (vij + edge_cost));
         nodes' ← set_next_hop (get_node_from_id nodes j) adj_node nodes;
         Some (v', nodes')
    else Some st.

(** The loop body over the neighbours. *)
Definition scan_neighbour (n : Z) (i : Z) (st : list (list Z) * node_list)
    : option (list (list Z) * node_list) :=
  let '(v, nodes) := st in
  adj_id ← vget v i 0;
  let adj_node := get_node_from_id nodes adj_id in
  k ← get_edge_from_list edges My_ID adj_id;
  e ← edges !! k;
  let edge_cost := get_edge_cost e in
  if edge_cost =? INFINITY then Some st
  else for_up (improve i edge_cost adj_node) 1 (Z.to_nat n) st.

(** [calc_distance_vector] up to the broadcast; the flag is [change_vec]. *)
Definition update_distance_vector (t : dv) (nodes : node_list)
    : option (dv * node_list * bool) :=
  '(v, prev_vec) ← save_and_reset t;
  '(v', nodes') ← for_up (scan_neighbour (dv_num_nodes t)) 1 (Z.to_nat (num_adj_nodes t))
                    (v, clear_next_hops nodes);
  row ← aget v' 0;
  let change_vec := negb (bool_decide (take (Z.to_nat (dv_num_nodes t)) (tail row) = prev_vec)) in
  Some (mk_dv v' (num_adj_nodes t) (dv_num_nodes t), nodes', change_vec).

(** [init_distance_vector] up to its call of [calc_distance_vector].  The rows
    come from [malloc]: [junk] is what they hold before they are filled. *)
Definition adjacent_edges : edge_list := filter (λ e, src_id e = My_ID) edges.

Definition init_row (n : Z) (row : list Z) : option (list Z) :=
  node_id ← aget row 0;
  for_up (λ j r, aset r j (if j =? node_id then 0 else INFINITY)) 1 (Z.to_nat n) row.

Definition init_table (junk : list (list Z)) (nodes : node_list) : option dv :=
  let num_adj := Z.of_nat (length adjacent_edges) in
  let n := Z.of_nat (length nodes) in
  v1 ← vset junk 0 0 My_ID;
  '(_, v2) ← fold_opt (λ e '(index, v),
                v' ← vset v index 0 (dst_id e); Some (index + 1, v')) adjacent_edges (1, v1);
  v3 ← for_up (λ i v, r ← aget v i; r' ← init_row n r; aset v i r') 0 (Z.to_nat (num_adj + 1)) v2;
  Some (mk_dv v3 num_adj n).

(** The vector of [send_dv_over_link]: poisoned reverse. *)
Definition advertised (t : dv) (nodes : node_list) (target_id : Z) (i : Z)
    (vec : list Z) : option (list Z) :=
  k ← get_node_from_id nodes i;
  n ← nodes !! k;
  v0i ← vget (vectors t) 0 i;
  match next_hop n with
  | None => Some (vec ++ [v0i])
  | Some h =>
      m ← nodes !! h;
      Some (vec ++ [if node_id m =? target_id then INFINITY else v0i])
  end.

Definition dv_vector (t : dv) (nodes : node_list) (target_id : Z) : option (list Z) :=
  for_up (advertised t nodes target_id) 1 (Z.to_nat (dv_num_nodes t)) [].

(** The table update of [handle_dv]: find the sender's row and copy the
    received vector into it; the inner [None] is "sent to wrong node". *)
Fixpoint find_row (v : list (list Z)) (n : nat) (i : Z) (src : Z) : option (option Z) :=
  match n with
  | O => Some None
  | S n' =>
      id ← vget v i 0;
      if id =? src then Some (Some i) else find_row v n' (i + 1) src
  end.

Definition copy_vector (t : dv) (src : Z) (vec : Z → option Z) : option (option dv) :=
  k ← find_row (vectors t) (Z.to_nat (num_adj_nodes t + 1)) 0 src;
  match k with
  | None => Some None
  | Some k =>
      v ← for_up (λ i v, x ← vec (i - 1); vset v k i x)
            1 (Z.to_nat (dv_num_nodes t)) (vectors t);
      Some (Some (mk_dv v (num_adj_nodes t) (dv_num_nodes t)))
  end.
End dv.

(** ** Specification *)

(** A table for [N] nodes with the rows of this node and of its neighbours. *)
Record dv_wf (N My_ID : Z) (t : dv) : Prop := {
  dw_n : dv_num_nodes t = N;
  dw_adj : Z.of_nat (length (vectors t)) = num_adj_nodes t + 1;
  dw_row : ∀ i r, vectors t !! i = Some r → Z.of_nat (length r) = N + 1;
  dw_me : vget (vectors t) 0 0 = Some My_ID
}.

(** The rows below row 0 belong to neighbours known to the node and edge tables. *)
Definition neighbours_known (N My_ID : Z) (edges : edge_list) (t : dv) : Prop :=
  ∀ i, 1 ≤ i ≤ num_adj_nodes t → ∃ a k e, vget (vectors t) i 0 = Some a ∧ 1 ≤ a ≤ N ∧
    get_edge_from_list edges My_ID a = Some k ∧ edges !! k = Some e.

(** [offer t edges i j c h]: the live neighbour [h] of row [i] offers a path to
    [j] of total cost [c]. *)
Definition offer (My_ID : Z) (edges : edge_list) (v : list (list Z)) (i j c h : Z) : Prop :=
  ∃ k e d, vget v i 0 = Some h ∧ get_edge_from_list edges My_ID h = Some k ∧
    edges !! k = Some e ∧ get_edge_cost e ≠ INFINITY ∧
    vget v i j = Some d ∧ d ≠ INFINITY ∧ c = d + get_edge_cost e.

(** No sum of a finite entry and a live link wraps. *)
Definition dv_no_wrap (edges : edge_list) (t : dv) : Prop :=
  ∀ i j d e, 1 ≤ i → vget (vectors t) i j = Some d → d ≠ INFINITY → e ∈ edges →
    get_edge_cost e ≠ INFINITY → 0 ≤ d ∧ 0 ≤ get_edge_cost e ∧ d + get_edge_cost e < 4294967296.

(** What [calc_distance_vector] must leave for destination [j]: entry [d] and
    next hop [h] over the neighbour rows [v]. *)
Definition bellman (My_ID : Z) (edges : edge_list) (nodes : node_list)
    (v : list (list Z)) (k : Z) (j d : Z) (h : node_ptr) : Prop :=
  if decide (j = My_ID) then d = 0 ∧ h = get_node_from_id nodes My_ID
  else
    (∀ i c a, 1 ≤ i < k → offer My_ID edges v i j c a → d ≤ c) ∧
    ((d = INFINITY ∧ h = None) ∨
     (d < INFINITY ∧ ∃ i a, 1 ≤ i < k ∧ offer My_ID edges v i j d a ∧
        h = get_node_from_id nodes a)).

(** ** Lemmas *)

Lemma vget_Some v i j x : vget v i j = Some x ↔ ∃ r, aget v i = Some r ∧ aget r j = Some x.
Proof. unfold vget. destruct (aget v i); naive_solver. Qed.

Lemma vset_ok v i j x r :
  aget v i = Some r → 0 ≤ j < Z.of_nat (length r) →
  ∃ v', vset v i j x = Some v' ∧ length v' = length v ∧
    (∀ i' r', aget v' i' = Some r' → ∃ r0, aget v i' = Some r0 ∧ length r' = length r0) ∧
    ∀ i' j', vget v' i' j' = if decide (i = i' ∧ j = j') then Some x else vget v i' j'.
Proof.
  intros Hr Hj. unfold vset. rewrite Hr. simpl.
  destruct (aset r j x) as [r'|] eqn:Er; [|by rewrite aset_ok in Er]. simpl.
  pose proof (aget_bounds _ _ _ Hr) as Hi.
  destruct (aset v i r') as [v'|] eqn:Ev; [|by rewrite aset_ok in Ev].
  exists v'. split_and!; [done|by eapply aset_length| |].
  - intros i' r2 Hr2. rewrite (aget_aset _ _ _ _ _ Ev) in Hr2. case_decide; [|by eauto].
    simplify_eq. exists r. split; [done|]. by eapply aset_length.
  - intros i' j'. unfold vget. rewrite (aget_aset _ _ _ _ _ Ev).
    destruct (decide (i = i')) as [<-|Hne]; simpl.
    + rewrite (aget_aset _ _ _ _ _ Er), Hr. simpl.
      destruct (decide (j = j')), (decide (i = i ∧ j = j')); naive_solver.
    + rewrite decide_False by naive_solver. done.
Qed.

Lemma dv_row N My_ID t i :
  dv_wf N My_ID t → 0 ≤ i ≤ num_adj_nodes t →
  ∃ r, aget (vectors t) i = Some r ∧ Z.of_nat (length r) = N + 1.
Proof.
  intros Hwf Hi. destruct (aget_is_Some (vectors t) i) as [r Hr].
  { rewrite (dw_adj _ _ _ Hwf). lia. }
  exists r. split; [done|]. apply aget_Some in Hr as [_ Hr]. by eapply dw_row.
Qed.

Lemma clear_next_hops_ids My_ID nodes : node_id <$> clear_next_hops My_ID nodes = node_id <$> nodes.
Proof.
  unfold clear_next_hops. rewrite fmap_imap. apply list_eq. intros i.
  rewrite list_lookup_imap, list_lookup_fmap. by destruct (nodes !! i).
Qed.

Lemma nodes_wf_ids N l l' : node_id <$> l = node_id <$> l' → nodes_wf N l → nodes_wf N l'.
Proof.
  intros Heq [Hlen Hnd Hids]. constructor.
  - rewrite <-(length_fmap node_id l'), <-Heq, length_fmap. done.
  - by rewrite <-Heq.
  - intros n Hn. assert (node_id n ∈ node_id <$> l') as Hin by by apply list_elem_of_fmap_2.
    rewrite <-Heq in Hin. apply list_elem_of_fmap in Hin as (m & -> & Hm). by apply Hids.
Qed.

Lemma clear_next_hops_same My_ID nodes : Forall2 same_node nodes (clear_next_hops My_ID nodes).
Proof.
  apply Forall2_same_length_lookup_2; [by unfold clear_next_hops; rewrite length_imap|].
  intros i x y Hx Hy. unfold clear_next_hops in Hy. rewrite list_lookup_imap, Hx in Hy.
  by simplify_eq/=.
Qed.

Lemma clear_next_hops_own N My_ID nodes n :
  nodes_wf N nodes → n ∈ clear_next_hops My_ID nodes →
  next_hop n = if decide (node_id n = My_ID) then get_node_from_id nodes My_ID else None.
Proof.
  intros Hwf [i Hi]%list_elem_of_lookup. unfold clear_next_hops in Hi.
  rewrite list_lookup_imap in Hi. destruct (nodes !! i) as [m|] eqn:Hm; simplify_eq/=.
  destruct (Z.eqb_spec (node_id m) My_ID) as [<-|]; [|by rewrite decide_False].
  rewrite decide_True by done. symmetry. apply get_node_from_id_unique; [|done].
  apply (nw_nodup _ _ Hwf).
Qed.

(** Saving and resetting row 0. *)
Lemma save_and_reset_ok N My_ID t (usable : Z → Z) :
  0 ≤ N → dv_wf N My_ID t → 0 ≤ num_adj_nodes t → 4 * N ≤ usable N →
  ∃ v prev, save_and_reset My_ID usable t = Some (v, prev) ∧
    length v = length (vectors t) ∧
    (∀ i r, aget v i = Some r → Z.of_nat (length r) = N + 1) ∧
    (∀ i j, i ≠ 0 ∨ j < 1 ∨ N < j → vget v i j = vget (vectors t) i j) ∧
    (∀ j, 1 ≤ j ≤ N → vget v 0 j = Some (if j =? My_ID then 0 else INFINITY)) ∧
    Z.of_nat (length prev) = N ∧
    (∀ j, 1 ≤ j ≤ N → aget prev (j - 1) = vget (vectors t) 0 j).
Proof.
  intros HN Hwf Hadj Hus. unfold save_and_reset. rewrite (dw_n _ _ _ Hwf).
  rewrite decide_True by done.
  destruct (for_up_inv (λ k '(v, prev), length v = length (vectors t) ∧
    (∀ i r, aget v i = Some r → Z.of_nat (length r) = N + 1) ∧
    (∀ i j, i ≠ 0 ∨ j < 1 ∨ k ≤ j → vget v i j = vget (vectors t) i j) ∧
    (∀ j, 1 ≤ j < k → vget v 0 j = Some (if j =? My_ID then 0 else INFINITY)) ∧
    Z.of_nat (length prev) = k - 1 ∧
    (∀ j, 1 ≤ j < k → aget prev (j - 1) = vget (vectors t) 0 j))
    (reset_row My_ID) 1 (Z.to_nat N) (vectors t, [])) as ([v prev] & -> & Hinv).
  - split_and!; try done; try lia.
    intros i r Hr. apply aget_Some in Hr as [_ Hr]. by eapply dw_row.
  - intros k [v prev] Hk (Hl & Hr & Hsame & Hdone & Hlp & Hprev). unfold reset_row.
    destruct (aget_is_Some v 0) as [r Hr0]; [rewrite Hl, (dw_adj _ _ _ Hwf); lia|].
    pose proof (Hr 0 r Hr0) as Hlr.
    destruct (aget_is_Some r k) as [d Hd]; [lia|].
    assert (vget v 0 k = Some d) as Hv by (apply vget_Some; eauto). rewrite Hv. simpl.
    destruct (vset_ok v 0 k (if k =? My_ID then 0 else INFINITY) r Hr0) as (v' & -> & Hl' & Hr' & Hg);
      [lia|]. simpl. eexists. split; [done|].
    split_and!.
    + by rewrite Hl'.
    + intros i r2 Hr2. destruct (Hr' i r2 Hr2) as (r0 & Hr0' & ->). by apply (Hr i).
    + intros i j Hij. rewrite Hg. rewrite decide_False by lia. apply Hsame. lia.
    + intros j Hj. rewrite Hg. destruct (decide (0 = 0 ∧ k = j)) as [[_ <-]|]; [done|].
      apply Hdone. lia.
    + rewrite length_app. simpl. lia.
    + intros j Hj. destruct (decide (j = k)) as [->|].
      * unfold aget. destruct (Z.ltb_spec (k - 1) 0); [lia|].
        rewrite lookup_app_r by lia. replace (Z.to_nat (k - 1) - length prev)%nat with 0%nat by lia.
        simpl. rewrite <-Hv. apply Hsame. lia.
      * rewrite <-Hprev by lia. unfold aget. destruct (Z.ltb_spec (j - 1) 0); [done|].
        rewrite lookup_app_l by lia. done.
  - destruct Hinv as (Hl & Hr & Hsame & Hdone & Hlp & Hprev).
    exists v, prev. split_and!; [done..| | |lia|].
    + intros i j Hij. apply Hsame. lia.
    + intros j Hj. apply Hdone. lia.
    + intros j Hj. apply Hprev. lia.
Qed.

Lemma offer_det My_ID edges v i j c c' a a' :
  offer My_ID edges v i j c a → offer My_ID edges v i j c' a' → c = c' ∧ a = a'.
Proof. intros (?&?&?&?&?&?&?&?&?&->) (?&?&?&?&?&?&?&?&?&->). by simplify_eq. Qed.

Lemma bellman_skip My_ID edges nodes v k j d h :
  (∀ c a, j ≠ My_ID → offer My_ID edges v k j c a → d ≤ c) →
  bellman My_ID edges nodes v k j d h → bellman My_ID edges nodes v (k + 1) j d h.
Proof.
  unfold bellman. intros Hno. case_decide; [done|]. intros [Hmin Hor]. split.
  - intros i c a Hi Ho. destruct (decide (i = k)) as [->|]; [by eapply Hno|].
    apply (Hmin i c a); [lia|done].
  - destruct Hor as [?|(? & i & a & ? & ?)]; [by left|right].
    split; [done|]. exists i, a. split; [lia|done].
Qed.

Lemma bellman_take My_ID edges nodes v k j d h c a :
  j ≠ My_ID → 1 ≤ k → offer My_ID edges v k j c a → c < d → c < INFINITY →
  bellman My_ID edges nodes v k j d h →
  bellman My_ID edges nodes v (k + 1) j c (get_node_from_id nodes a).
Proof.
  unfold bellman. intros Hj Hk Ho Hlt Hc. rewrite !decide_False by done. intros [Hmin _]. split.
  - intros i c' a' Hi Ho'. destruct (decide (i = k)) as [->|].
    + destruct (offer_det _ _ _ _ _ _ _ _ _ Ho Ho'). lia.
    + specialize (Hmin i c' a' ltac:(lia) Ho'). lia.
  - right. split; [done|]. exists k, a. split_and!; [lia..|done|done].
Qed.

Section calc.
Context (N My_ID : Z) (edges : edge_list) (t : dv) (nodes : node_list).
Context (HN : 0 ≤ N) (Hwf : dv_wf N My_ID t) (Hnodes : nodes_wf N nodes)
  (Hme : 1 ≤ My_ID ≤ N) (Hnbr : neighbours_known N My_ID edges t)
  (Hnowrap : dv_no_wrap edges t).

(** The state of the loops: destinations below [jl] have seen the rows up to
    [k], the others the rows below [k]. *)
Record scan_inv (k jl : Z) (v : list (list Z)) (ns : node_list) : Prop := {
  si_len : length v = length (vectors t);
  si_rows : ∀ i r, aget v i = Some r → Z.of_nat (length r) = N + 1;
  si_same : ∀ i j, i ≠ 0 ∨ j < 1 ∨ N < j → vget v i j = vget (vectors t) i j;
  si_nodes : nodes_wf N ns;
  si_fields : Forall2 same_node nodes ns;
  si_range : ∀ j d, 1 ≤ j ≤ N → vget v 0 j = Some d → 0 ≤ d ≤ INFINITY;
  si_best : ∀ n, n ∈ ns → ∃ d, vget v 0 (node_id n) = Some d ∧
    bellman My_ID edges nodes (vectors t)
      (if decide (node_id n < jl) then k + 1 else k) (node_id n) d (next_hop n)
}.

Lemma scan_start v0 ns0 :
  length v0 = length (vectors t) →
  (∀ i r, aget v0 i = Some r → Z.of_nat (length r) = N + 1) →
  (∀ i j, i ≠ 0 ∨ j < 1 ∨ N < j → vget v0 i j = vget (vectors t) i j) →
  (∀ j, 1 ≤ j ≤ N → vget v0 0 j = Some (if j =? My_ID then 0 else INFINITY)) →
  ns0 = clear_next_hops My_ID nodes → scan_inv 1 1 v0 ns0.
Proof.
  intros Hl Hr Hs H0 ->.
  assert (nodes_wf N (clear_next_hops My_ID nodes)) as Hcl.
  { apply (nodes_wf_ids N nodes); [|done]. symmetry. apply clear_next_hops_ids. }
  constructor; try done.
  - apply clear_next_hops_same.
  - intros j d Hj. rewrite H0 by done. intros [= <-]. unfold INFINITY. case_match; lia.
  - intros n Hn. pose proof (nw_ids _ _ Hcl n Hn) as Hid. rewrite H0 by done.
    eexists. split; [done|]. rewrite (clear_next_hops_own N My_ID nodes n Hnodes Hn).
    rewrite decide_False by lia. unfold bellman.
    destruct (Z.eqb_spec (node_id n) My_ID) as [Heq|Hne].
    + by rewrite !decide_True by done.
    + rewrite !decide_False by done. split; [lia|]. by left.
Qed.

(** Moving the boundary past destination [j] once its step is done. *)
Lemma scan_advance k j v ns :
  (∀ n, n ∈ ns → node_id n = j → ∀ d, vget v 0 j = Some d →
     bellman My_ID edges nodes (vectors t) k j d (next_hop n) →
     bellman My_ID edges nodes (vectors t) (k + 1) j d (next_hop n)) →
  scan_inv k j v ns → scan_inv k (j + 1) v ns.
Proof.
  intros Hstep [H1 H2 H3 H4 H5 H6 H7]. constructor; [done..|].
  intros n Hn. destruct (H7 n Hn) as (d & Hd & Hb). exists d. split; [done|].
  destruct (decide (node_id n = j)) as [Heq|Hne].
  - rewrite Heq in *. rewrite decide_False in Hb by lia. rewrite decide_True by lia. auto.
  - destruct (decide (node_id n < j)), (decide (node_id n < j + 1)); done || lia.
Qed.

Lemma improve_ok k j v ns a ke e :
  1 ≤ k ≤ num_adj_nodes t → 1 ≤ j ≤ N →
  vget (vectors t) k 0 = Some a → get_edge_from_list edges My_ID a = Some ke →
  edges !! ke = Some e → get_edge_cost e ≠ INFINITY →
  scan_inv k j v ns →
  ∃ v' ns', improve k (get_edge_cost e) (get_node_from_id nodes a) j (v, ns) = Some (v', ns') ∧
    scan_inv k (j + 1) v' ns'.
Proof.
  intros Hk Hj Ha Hke He Hlive Hinv. pose proof Hinv as [Hl Hr Hsame Hns Hf Hrng Hbest].
  destruct (dv_row N My_ID t k Hwf) as (rk & Hrk & Hlk); [lia|].
  destruct (aget_is_Some rk j) as [vij Hvij]; [lia|].
  assert (vget (vectors t) k j = Some vij) as Hv by (apply vget_Some; eauto).
  unfold improve. rewrite (Hsame k j), Hv by lia. simpl.
  assert (∀ c a', offer My_ID edges (vectors t) k j c a' →
    vij ≠ INFINITY ∧ c = vij + get_edge_cost e ∧ a' = a) as Hoff.
  { intros c a' (ke' & e' & d & Ha' & Hke' & He' & _ & Hd & Hdi & ->). by simplify_eq. }
  destruct (Z.eqb_spec vij INFINITY) as [Hinf|Hfin].
  { eexists _, _. split; [done|]. apply scan_advance; [|done].
    intros n _ _ d _. apply bellman_skip. intros c a' _ (?&_)%Hoff. done. }
  assert (In e edges) as Hin by by eapply list_elem_of_In, list_elem_of_lookup_2.
  apply list_elem_of_In in Hin.
  destruct (Hnowrap k j vij e) as (Hp1 & Hp2 & Hw); [lia|done..|].
  destruct (aget_is_Some v 0) as [r0 Hr0]; [rewrite Hl, (dw_adj _ _ _ Hwf); lia|].
  destruct (aget_is_Some r0 j) as [d0 Hd0]; [rewrite (Hr 0 r0 Hr0); lia|].
  assert (vget v 0 j = Some d0) as Hv0 by (apply vget_Some; eauto). rewrite Hv0. simpl.
  rewrite u32_small by lia.
  assert (offer My_ID edges (vectors t) k j (vij + get_edge_cost e) a) as Hoffer.
  { exists ke, e, vij. by split_and!. }
  destruct (Z.ltb_spec (vij + get_edge_cost e) d0) as [Hlt|Hge].
  2:{ eexists _, _. split; [done|]. apply scan_advance; [|done].
      intros n _ _ d Hd. simplify_eq. apply bellman_skip. intros c a' _ (_&->&_)%Hoff. lia. }
  destruct (vset_ok v 0 j (vij + get_edge_cost e) r0 Hr0) as (v' & -> & Hl' & Hr' & Hg).
  { rewrite (Hr 0 r0 Hr0). lia. }
  simpl. destruct (set_next_hop_ok N ns j (get_node_from_id nodes a) Hns Hj)
    as (ns' & -> & Hns' & Hf' & Hnh). simpl.
  eexists _, _. split; [done|].
  pose proof (Hrng j d0 Hj Hv0) as Hd0r.
  constructor.
  - by rewrite Hl'.
  - intros i r2 Hr2. destruct (Hr' i r2 Hr2) as (r1 & Hr1 & ->). by apply (Hr i).
  - intros i j' Hij. rewrite Hg. rewrite decide_False by lia. by apply Hsame.
  - done.
  - by eapply same_node_trans.
  - intros j' d Hj'. rewrite Hg. case_decide as Heq; [|by apply Hrng].
    intros [= <-]. lia.
  - intros n Hn. apply list_elem_of_lookup in Hn as [x Hx].
    destruct (Hnh x n Hx) as [He1 He2]. rewrite Hg.
    destruct (decide (node_id n = j)) as [Heq|Hne].
    + rewrite Heq, (He1 Heq). rewrite decide_True by done. rewrite decide_True by lia.
      eexists. split; [done|].
      destruct (nodes_wf_lookup N ns j Hns Hj) as (x0 & n0 & Hx0 & Hn0 & _).
      destruct (Hbest n0) as (d1 & Hd1 & Hb); [by eapply list_elem_of_lookup_2|].
      rewrite Hn0 in Hd1, Hb. rewrite Hv0 in Hd1. injection Hd1 as <-.
      rewrite decide_False in Hb by lia.
      assert (j ≠ My_ID) as Hnm.
      { intros ->. unfold bellman in Hb. case_decide; [lia|done]. }
      eapply bellman_take; [done|lia|done|exact Hlt|lia|done].
    + rewrite decide_False by (intros [_ ?]; congruence).
      destruct (Hbest n) as (d & Hd & Hb); [eapply list_elem_of_lookup_2; by apply He2|].
      exists d. split; [done|].
      destruct (decide (node_id n < j)), (decide (node_id n < j + 1)); done || lia.
Qed.

Lemma scan_neighbour_ok k v ns :
  1 ≤ k ≤ num_adj_nodes t → scan_inv k 1 v ns →
  ∃ v' ns', scan_neighbour My_ID edges N k (v, ns) = Some (v', ns') ∧ scan_inv (k + 1) 1 v' ns'.
Proof.
  intros Hk Hinv. destruct (Hnbr k Hk) as (a & ke & e & Ha & Har & Hke & He).
  pose proof Hinv as [Hl Hr Hsame Hns Hf Hrng Hbest].
  unfold scan_neighbour. rewrite (Hsame k 0), Ha by lia. simpl.
  rewrite Hke. simpl. rewrite He. simpl.
  rewrite <-(get_node_from_id_ids nodes ns) by by apply same_node_ids.
  assert (∀ v' ns', scan_inv k (1 + Z.of_nat (Z.to_nat N)) v' ns' → scan_inv (k + 1) 1 v' ns') as Hend.
  { intros v' ns' [? ? ? Hns' ? ? Hb]. constructor; [done..|]. intros n Hn.
    destruct (Hb n Hn) as (d & Hd & Hbb). exists d. split; [done|].
    pose proof (nw_ids _ _ Hns' n Hn).
    rewrite decide_True in Hbb by lia. by rewrite decide_False by lia. }
  destruct (Z.eqb_spec (get_edge_cost e) INFINITY) as [Hdead|Hlive].
  - eexists _, _. split; [done|]. constructor; [done..|].
    intros n Hn. destruct (Hbest n Hn) as (d & Hd & Hb). exists d. split; [done|].
    pose proof (nw_ids _ _ Hns n Hn). rewrite decide_False in Hb |- * by lia.
    revert Hb. apply bellman_skip. intros c a' _ (ke' & e' & ? & ? & ? & ? & ? & _). by simplify_eq.
  - destruct (for_up_inv (λ j '(v', ns'), scan_inv k j v' ns')
      (improve k (get_edge_cost e) (get_node_from_id nodes a)) 1 (Z.to_nat N) (v, ns))
      as ([v' ns'] & -> & Hfin).
    + done.
    + intros j [v1 ns1] Hj Hinv1.
      destruct (improve_ok k j v1 ns1 a ke e) as (v2 & ns2 & Hi & Hinv2); [done|lia|done..|].
      exists (v2, ns2). done.
    + eexists _, _. split; [done|]. by apply Hend.
Qed.

Lemma scan_all_ok v0 ns0 :
  0 ≤ num_adj_nodes t → scan_inv 1 1 v0 ns0 →
  ∃ v' ns', for_up (scan_neighbour My_ID edges N) 1 (Z.to_nat (num_adj_nodes t)) (v0, ns0) =
      Some (v', ns') ∧ scan_inv (num_adj_nodes t + 1) 1 v' ns'.
Proof.
  intros Hadj Hinv.
  destruct (for_up_inv (λ k '(v', ns'), scan_inv k 1 v' ns')
    (scan_neighbour My_ID edges N) 1 (Z.to_nat (num_adj_nodes t)) (v0, ns0))
    as ([v' ns'] & -> & Hfin).
  - done.
  - intros k [v1 ns1] Hk Hinv1.
    destruct (scan_neighbour_ok k v1 ns1) as (v2 & ns2 & Hs & Hinv2); [lia|done|].
    exists (v2, ns2). done.
  - eexists _, _. split; [done|].
    by replace (num_adj_nodes t + 1) with (1 + Z.of_nat (Z.to_nat (num_adj_nodes t))) by lia.
Qed.
End calc.

Lemma vget_bounds v i j x : vget v i j = Some x → 0 ≤ j.
Proof. intros (r & _ & Hx)%vget_Some. apply aget_bounds in Hx. lia. Qed.

(** Reading a row through [vget] and through the [for] of the change test. *)
Lemma row_eq_prev N v r prev :
  aget v 0 = Some r → Z.of_nat (length r) = N + 1 → Z.of_nat (length prev) = N →
  (take (Z.to_nat N) (tail r) = prev ↔
   ∀ j, 1 ≤ j ≤ N → vget v 0 j = aget prev (j - 1)).
Proof.
  intros Hr Hlr Hlp.
  assert (∀ j, 1 ≤ j ≤ N → vget v 0 j = take (Z.to_nat N) (tail r) !! Z.to_nat (j - 1)) as Hv.
  { intros j Hj. unfold vget. rewrite Hr. simpl. unfold aget.
    destruct (Z.ltb_spec j 0); [lia|]. rewrite lookup_take_lt by lia.
    destruct r as [|x r]; simpl in *; [lia|].
    by replace (Z.to_nat j) with (S (Z.to_nat (j - 1))) by lia. }
  split.
  - intros <- j Hj. rewrite Hv by done. unfold aget.
    destruct (Z.ltb_spec (j - 1) 0); [lia|done].
  - intros Heq. apply list_eq_same_length with (Z.to_nat N); [lia| |].
    + rewrite length_take. destruct r; simpl in *; lia.
    + intros i x y Hi Hx Hy. specialize (Heq (Z.of_nat i + 1) ltac:(lia)).
      rewrite Hv in Heq by lia. unfold aget in Heq.
      destruct (Z.ltb_spec (Z.of_nat i + 1 - 1) 0); [lia|].
      replace (Z.to_nat (Z.of_nat i + 1 - 1)) with i in Heq by lia. congruence.
Qed.

(** Everything [calc_distance_vector] relies on. *)
Record dv_ready (N My_ID : Z) (edges : edge_list) (nodes : node_list) (t : dv) : Prop := {
  dr_wf : dv_wf N My_ID t;
  dr_nodes : nodes_wf N nodes;
  dr_me : 1 ≤ My_ID ≤ N;
  dr_adj : 0 ≤ num_adj_nodes t;
  dr_nbr : neighbours_known N My_ID edges t;
  dr_nowrap : dv_no_wrap edges t
}.

(** ** Properties *)

(** The update as the handlers use it. *)
Lemma update_distance_vector_ok N My_ID edges usable nodes t :
  dv_ready N My_ID edges nodes t → 4 * N ≤ usable N →
  ∃ t' nodes' changed,
    update_distance_vector My_ID edges usable t nodes = Some (t', nodes', changed) ∧
    dv_wf N My_ID t' ∧ nodes_wf N nodes' ∧ Forall2 same_node nodes nodes' ∧
    (∀ i j, i ≠ 0 → vget (vectors t') i j = vget (vectors t) i j) ∧
    (∀ n, n ∈ nodes' → ∃ d, vget (vectors t') 0 (node_id n) = Some d ∧
       bellman My_ID edges nodes (vectors t) (num_adj_nodes t + 1) (node_id n) d (next_hop n)) ∧
    (changed = false ↔ ∀ j, 1 ≤ j ≤ N → vget (vectors t') 0 j = vget (vectors t) 0 j).
Proof.
  intros [Hwf Hnodes Hme Hadj Hnbr Hnw] Hus. assert (0 ≤ N) as HN by lia.
  destruct (save_and_reset_ok N My_ID t usable HN Hwf Hadj Hus)
    as (v0 & prev & Hsr & Hl0 & Hr0 & Hs0 & H00 & Hlp & Hprev).
  pose proof (scan_start N My_ID edges t nodes Hnodes v0 _ Hl0 Hr0 Hs0 H00 eq_refl) as Hinv0.
  destruct (scan_all_ok N My_ID edges t nodes Hwf Hnbr Hnw v0 _ Hadj Hinv0)
    as (v' & ns' & Hscan & [Hl Hr Hsame Hns Hf _ Hbest]).
  unfold update_distance_vector. rewrite Hsr. simpl. rewrite (dw_n _ _ _ Hwf), Hscan. simpl.
  destruct (aget_is_Some v' 0) as [row Hrow]; [rewrite Hl, (dw_adj _ _ _ Hwf); lia|].
  rewrite Hrow. simpl. eexists _, _, _. split; [done|]. simpl. split_and!.
  - constructor; simpl; [done|by rewrite Hl, (dw_adj _ _ _ Hwf)| |].
    + intros i r Hi. apply (Hr (Z.of_nat i)). apply aget_Some. split; [lia|].
      by rewrite Nat2Z.id.
    + rewrite Hsame by lia. apply Hwf.
  - done.
  - done.
  - intros i j Hi. apply Hsame. lia.
  - intros n Hn. destruct (Hbest n Hn) as (d & Hd & Hb). exists d. split; [done|].
    rewrite decide_False in Hb; [done|]. pose proof (nw_ids _ _ Hns n Hn). lia.
  - rewrite negb_false_iff, bool_decide_eq_true, (row_eq_prev N v' row prev Hrow (Hr 0 row Hrow) Hlp).
    split; intros H j Hj.
    + rewrite H, Hprev by done. done.
    + rewrite H, Hprev by done. done.
Qed.

(** [prev_vec] gets [num_nodes] bytes for [num_nodes] 32-bit entries. *)
Lemma update_distance_vector_small My_ID edges usable t nodes :
  usable (dv_num_nodes t) < 4 * dv_num_nodes t → update_distance_vector My_ID edges usable t nodes = None.
Proof. intros Hn. unfold update_distance_vector, save_and_reset. by rewrite decide_False by lia. Qed.


(** [dv_vector] entry by entry. *)
Lemma dv_vector_ok N My_ID nodes t target :
  dv_wf N My_ID t → 0 ≤ num_adj_nodes t → nodes_wf N nodes →
  (∀ n h, n ∈ nodes → next_hop n = Some h → is_Some (nodes !! h)) →
  ∃ vec, dv_vector t nodes target = Some vec ∧ Z.of_nat (length vec) = N ∧
    ∀ n, n ∈ nodes → aget vec (node_id n - 1) =
      match next_hop n ≫= (λ h, nodes !! h) with
      | Some m => if node_id m =? target then Some INFINITY
                  else vget (vectors t) 0 (node_id n)
      | None => vget (vectors t) 0 (node_id n)
      end.
Proof.
  intros Hwf Hadj Hns Hhops. unfold dv_vector. rewrite (dw_n _ _ _ Hwf).
  assert (0 ≤ N) as HN by (rewrite <-(nw_len _ _ Hns); lia).
  set (entry := λ n, match next_hop n ≫= (λ h, nodes !! h) with
      | Some m => if node_id m =? target then Some INFINITY
                  else vget (vectors t) 0 (node_id n)
      | None => vget (vectors t) 0 (node_id n) end).
  destruct (for_up_inv (λ k vec, Z.of_nat (length vec) = k - 1 ∧
      ∀ n, n ∈ nodes → node_id n < k → aget vec (node_id n - 1) = entry n)
    (advertised t nodes target) 1 (Z.to_nat N) []) as (vec & -> & Hl & He).
  - split; [done|]. intros n Hn. pose proof (nw_ids _ _ Hns n Hn). lia.
  - intros k vec Hk [Hl He].
    destruct (nodes_wf_lookup N nodes k Hns) as (i & n & Hi & Hid & Hg); [lia|].
    assert (n ∈ nodes) as Hin by by eapply list_elem_of_lookup_2.
    assert (∃ x, entry n = Some x ∧ advertised t nodes target k vec = Some (vec ++ [x])) as (x & Hx & Ha).
    { unfold advertised. rewrite Hg. simpl. rewrite Hi. simpl.
      destruct (dv_row N My_ID t 0 Hwf) as (r & Hr & Hlr); [lia|].
      destruct (aget_is_Some r k) as [d Hd]; [lia|].
      assert (vget (vectors t) 0 k = Some d) as Hv by (apply vget_Some; eauto).
      rewrite Hv. simpl. unfold entry. rewrite Hid.
      destruct (next_hop n) as [h|] eqn:Hh; simpl; [|eauto].
      destruct (Hhops n h Hin Hh) as [m Hm]. rewrite Hm. simpl.
      destruct (node_id m =? target); eauto. }
    exists (vec ++ [x]). split; [done|]. rewrite length_app. simpl. split; [lia|].
    intros n' Hn' Hlt. pose proof (nw_ids _ _ Hns n' Hn') as Hid'. unfold aget.
    destruct (Z.ltb_spec (node_id n' - 1) 0); [lia|].
    destruct (decide (node_id n' = k)) as [Heq|Hne].
    + rewrite lookup_app_r by lia.
      replace (Z.to_nat (node_id n' - 1) - length vec)%nat with 0%nat by lia. simpl.
      rewrite <-Hx. f_equal. apply list_elem_of_lookup in Hn' as [i' Hi'].
      pose proof (get_node_from_id_unique nodes i' n' (nw_nodup _ _ Hns) Hi'). congruence.
    + rewrite lookup_app_l by lia. rewrite <-He by (done || lia). unfold aget.
      by destruct (Z.ltb_spec (node_id n' - 1) 0); [lia|].
  - exists vec. split; [done|]. split; [lia|]. intros n Hn. apply He; [done|].
    pose proof (nw_ids _ _ Hns n Hn). lia.
Qed.

Lemma find_row_spec v n i src :
  (∀ j, i ≤ j < i + Z.of_nat n → is_Some (vget v j 0)) →
  ∃ k, find_row v n i src = Some k ∧
    match k with
    | Some k => i ≤ k < i + Z.of_nat n ∧ vget v k 0 = Some src
    | None => ∀ j, i ≤ j < i + Z.of_nat n → vget v j 0 ≠ Some src
    end.
Proof.
  revert i. induction n as [|n IH]; intros i Hv; simpl.
  { exists None. split; [done|lia]. }
  destruct (Hv i) as [id Hid]; [lia|]. rewrite Hid. simpl.
  destruct (Z.eqb_spec id src) as [<-|Hne].
  { exists (Some i). split; [done|]. split; [lia|done]. }
  destruct (IH (i + 1)) as (k & -> & Hk); [intros; apply Hv; lia|].
  exists k. split; [done|]. destruct k as [k|].
  - split; [lia|apply Hk].
  - intros j Hj. destruct (decide (j = i)) as [->|]; [congruence|]. apply Hk. lia.
Qed.

(** The loop that copies a received vector into row [k]. *)
Lemma copy_row_ok N My_ID t k (vec : Z → option Z) :
  dv_wf N My_ID t → 0 ≤ N → 0 ≤ k ≤ num_adj_nodes t →
  (∀ j, 1 ≤ j ≤ N → is_Some (vec (j - 1))) →
  ∃ v, for_up (λ i v, x ← vec (i - 1); vset v k i x) 1 (Z.to_nat N) (vectors t) = Some v ∧
    length v = length (vectors t) ∧
    (∀ i r, aget v i = Some r → Z.of_nat (length r) = N + 1) ∧
    (∀ i j, vget v i j = if decide (i = k ∧ 1 ≤ j ≤ N) then vec (j - 1)
                         else vget (vectors t) i j).
Proof.
  intros Hwf HN Hk Hvec.
  destruct (for_up_inv (λ j0 v, length v = length (vectors t) ∧
    (∀ i r, aget v i = Some r → Z.of_nat (length r) = N + 1) ∧
    (∀ i j, vget v i j = if decide (i = k ∧ 1 ≤ j < j0) then vec (j - 1)
                         else vget (vectors t) i j))
    (λ i v, x ← vec (i - 1); vset v k i x) 1 (Z.to_nat N) (vectors t))
    as (v & -> & Hl & Hr & Hg).
  - split_and!; [done| |].
    + intros i r Hr. apply aget_Some in Hr as [_ Hr]. by eapply dw_row.
    + intros i j. by rewrite decide_False by lia.
  - intros j0 v Hj0 (Hl & Hr & Hg). destruct (Hvec j0) as [x Hx]; [lia|]. rewrite Hx. simpl.
    destruct (aget_is_Some v k) as [r Hrk]; [rewrite Hl, (dw_adj _ _ _ Hwf); lia|].
    destruct (vset_ok v k j0 x r Hrk) as (v' & -> & Hl' & Hr' & Hg'); [rewrite (Hr k r Hrk); lia|].
    exists v'. split; [done|]. split_and!.
    + by rewrite Hl'.
    + intros i r2 Hr2. destruct (Hr' i r2 Hr2) as (r1 & Hr1 & ->). by apply (Hr i).
    + intros i j. rewrite Hg'. destruct (decide (k = i ∧ j0 = j)) as [[<- <-]|Hne].
      * by rewrite decide_True by lia.
      * rewrite Hg. destruct (decide (i = k ∧ 1 ≤ j < j0)), (decide (i = k ∧ 1 ≤ j < j0 + 1));
          (done || lia).
  - exists v. split_and!; [done..|]. intros i j. rewrite Hg.
    destruct (decide (i = k ∧ 1 ≤ j < 1 + Z.of_nat (Z.to_nat N))), (decide (i = k ∧ 1 ≤ j ≤ N));
      (done || lia).
Qed.

Lemma copy_vector_ok N My_ID t src (vec : Z → option Z) :
  dv_wf N My_ID t → 0 ≤ N → 0 ≤ num_adj_nodes t →
  (∀ j, 1 ≤ j ≤ N → is_Some (vec (j - 1))) →
  (copy_vector t src vec = Some None ∧ ∀ i, vget (vectors t) i 0 ≠ Some src) ∨
  (∃ k t', copy_vector t src vec = Some (Some t') ∧ vget (vectors t) k 0 = Some src ∧
     0 ≤ k ≤ num_adj_nodes t ∧ num_adj_nodes t' = num_adj_nodes t ∧ dv_wf N My_ID t' ∧
     ∀ i j, vget (vectors t') i j = if decide (i = k ∧ 1 ≤ j ≤ N) then vec (j - 1)
                                    else vget (vectors t) i j).
Proof.
  intros Hwf HN Hadj Hvec. unfold copy_vector.
  destruct (find_row_spec (vectors t) (Z.to_nat (num_adj_nodes t + 1)) 0 src) as (k & -> & Hk).
  { intros j Hj. destruct (dv_row N My_ID t j Hwf) as (r & Hr & Hlr); [lia|].
    destruct (aget_is_Some r 0) as [x Hx]; [lia|]. exists x. apply vget_Some. eauto. }
  simpl. destruct k as [k|]; [right|left].
  - destruct Hk as (Hkr & Hid). assert (Hkr' : 0 ≤ k ≤ num_adj_nodes t) by lia.
    rewrite (dw_n _ _ _ Hwf).
    destruct (copy_row_ok N My_ID t k vec Hwf HN Hkr' Hvec) as (v & -> & Hl & Hrows & Hg).
    simpl. eexists k, _. split_and!; [done|done|lia|lia|done| |done].
    constructor; simpl; [done|by rewrite Hl, (dw_adj _ _ _ Hwf)| |].
    + intros i r' Hi. apply (Hrows (Z.of_nat i)). apply aget_Some. split; [lia|].
      by rewrite Nat2Z.id.
    + rewrite Hg. rewrite decide_False by lia. apply Hwf.
  - split; [done|]. intros i Hi. apply (Hk i); [|done].
    apply vget_Some in Hi as (r & Hr & _). apply aget_bounds in Hr.
    pose proof (dw_adj _ _ _ Hwf). lia.
Qed.

(** The advertised vector is poisoned towards the next hop, and poison
    works: once neighbour [target] has copied the vector this node advertises,
    every destination this node reaches through [target] gets no offer from
    this node's row at [target], so no two-node loop can form over it. *)
Theorem poisoned_reverse N My_ID target edges' nodes t t' vec n m :
  dv_wf N My_ID t → 0 ≤ num_adj_nodes t → nodes_wf N nodes →
  (∀ n h, n ∈ nodes → next_hop n = Some h → is_Some (nodes !! h)) →
  dv_wf N target t' → 0 ≤ num_adj_nodes t' →
  dv_vector t nodes target = Some vec →
  n ∈ nodes → next_hop n ≫= (λ h, nodes !! h) = Some m → node_id m = target →
  ∀ t'', copy_vector t' My_ID (aget vec) = Some (Some t'') →
    ∃ k, vget (vectors t'') k 0 = Some My_ID ∧
      vget (vectors t'') k (node_id n) = Some INFINITY ∧
      ∀ c h, ¬ offer target edges' (vectors t'') k (node_id n) c h.
Proof.
  intros Hwf Hadj Hns Hhops Hwf' Hadj' Hvec Hn Hm Hmt t'' Hcopy.
  assert (0 ≤ N) as HN by (rewrite <-(nw_len _ _ Hns); lia).
  destruct (dv_vector_ok N My_ID nodes t target Hwf Hadj Hns Hhops) as (vec' & Hvec' & Hl & He).
  rewrite Hvec in Hvec'. injection Hvec' as <-.
  pose proof (nw_ids _ _ Hns n Hn) as Hid.
  assert (aget vec (node_id n - 1) = Some INFINITY) as Hinf.
  { rewrite He by done. rewrite Hm. by rewrite Hmt, Z.eqb_refl. }
  destruct (copy_vector_ok N target t' My_ID (aget vec) Hwf' HN Hadj')
    as [[Hno _]|(k & t2 & Hc & Hk & Hkr & Hadj2 & Hwf2 & Hg)].
  { intros j Hj. apply aget_is_Some. lia. }
  { congruence. }
  rewrite Hcopy in Hc. injection Hc as <-.
  assert (vget (vectors t'') k (node_id n) = Some INFINITY) as Hp.
  { rewrite Hg. by rewrite decide_True by lia. }
  exists k. split_and!; [|done|].
  - rewrite Hg. by rewrite decide_False by lia.
  - intros c h (ke & e & d & _ & _ & _ & _ & Hd & Hne & _). congruence.
Qed.

(** ** The initial table *)

Definition row_id (My_ID : Z) (adjs : edge_list) (i : Z) : option Z :=
  if i =? 0 then Some My_ID else dst_id <$> aget adjs (i - 1).

Definition rect (rows cols : Z) (v : list (list Z)) : Prop :=
  Z.of_nat (length v) = rows ∧ ∀ i r, aget v i = Some r → Z.of_nat (length r) = cols.

Lemma vset_rect rows cols v i j x :
  rect rows cols v → 0 ≤ i < rows → 0 ≤ j < cols →
  ∃ v', vset v i j x = Some v' ∧ rect rows cols v' ∧
    ∀ i' j', vget v' i' j' = if decide (i = i' ∧ j = j') then Some x else vget v i' j'.
Proof.
  intros [Hl Hr] Hi Hj. destruct (aget_is_Some v i) as [r Hri]; [lia|].
  destruct (vset_ok v i j x r Hri) as (v' & Hv' & Hl' & Hr' & Hg); [rewrite (Hr i r Hri); lia|].
  exists v'. split_and!; [done| |done]. split; [lia|].
  intros i' r' Hi'. destruct (Hr' i' r' Hi') as (r0 & Hr0 & ->). by apply (Hr i').
Qed.

(** Filling one row: its own id gets 0, the others [INFINITY]. *)
Lemma init_row_ok n row id :
  0 ≤ n → Z.of_nat (length row) = n + 1 → aget row 0 = Some id →
  ∃ row', init_row n row = Some row' ∧ length row' = length row ∧ aget row' 0 = Some id ∧
    ∀ j, 1 ≤ j ≤ n → aget row' j = Some (if j =? id then 0 else INFINITY).
Proof.
  intros Hn Hl Hid. unfold init_row. rewrite Hid. simpl.
  destruct (for_up_inv (λ k r, length r = length row ∧ aget r 0 = Some id ∧
    ∀ j, 1 ≤ j < k → aget r j = Some (if j =? id then 0 else INFINITY))
    (λ j r, aset r j (if j =? id then 0 else INFINITY)) 1 (Z.to_nat n) row)
    as (row' & -> & Hl' & Hid' & Hg).
  - split_and!; [done..|lia].
  - intros k r Hk (Hlr & Hidr & Hgr).
    destruct (aset r k (if k =? id then 0 else INFINITY)) as [r'|] eqn:E;
      [|rewrite aset_ok in E by lia; done].
    exists r'. split; [done|]. split_and!.
    + by rewrite (aset_length _ _ _ _ E).
    + rewrite (aget_aset_ne _ _ _ _ _ E) by lia. done.
    + intros j Hj. rewrite (aget_aset _ _ _ _ _ E). case_decide; [by subst|]. apply Hgr. lia.
  - exists row'. split_and!; [done..|]. intros j Hj. apply Hg. lia.
Qed.

(** [init_distance_vector] builds the table of its comment: one row for
    this node and one per adjacent edge, in edge order, each with 0 at its own
    node and [INFINITY] elsewhere, whatever [malloc] returned. *)
Theorem init_table_ok N My_ID edges nodes junk :
  Z.of_nat (length nodes) = N →
  rect (Z.of_nat (length (adjacent_edges My_ID edges)) + 1) (N + 1) junk →
  ∃ t, init_table My_ID edges junk nodes = Some t ∧ dv_wf N My_ID t ∧
    num_adj_nodes t = Z.of_nat (length (adjacent_edges My_ID edges)) ∧
    (∀ i, 0 ≤ i ≤ num_adj_nodes t →
       vget (vectors t) i 0 = row_id My_ID (adjacent_edges My_ID edges) i) ∧
    (∀ i j id, 0 ≤ i ≤ num_adj_nodes t → 1 ≤ j ≤ N → vget (vectors t) i 0 = Some id →
       vget (vectors t) i j = Some (if j =? id then 0 else INFINITY)).
Proof.
  intros HN Hrect. unfold init_table. set (adjs := adjacent_edges My_ID edges) in *.
  set (k := Z.of_nat (length adjs)) in *.
  destruct (vset_rect _ _ junk 0 0 My_ID Hrect) as (v1 & -> & Hr1 & Hg1); [lia..|]. simpl.
  destruct (fold_opt_inv (λ pre '(index, v), index = Z.of_nat (length pre) + 1 ∧
      rect (k + 1) (N + 1) v ∧
      ∀ i, 0 ≤ i < index → vget v i 0 = row_id My_ID adjs i)
    (λ e '(index, v), v' ← vset v index 0 (dst_id e); Some (index + 1, v')) adjs (1, v1))
    as ([idx v2] & -> & Hidx & Hr2 & Hg2).
  { split_and!; [done..|]. intros i Hi. replace i with 0 by lia. by rewrite Hg1. }
  { intros pre e post [idx v] Hadjs (-> & Hr & Hg).
    assert (Z.of_nat (length pre) < k) as Hlt by (unfold k; rewrite Hadjs, length_app; simpl; lia).
    destruct (vset_rect _ _ v (Z.of_nat (length pre) + 1) 0 (dst_id e) Hr) as (v' & -> & Hr' & Hg');
      [lia..|]. simpl. eexists. split; [done|]. split_and!; [rewrite length_app; simpl; lia|done|].
    intros i Hi. rewrite Hg'. case_decide as Heq; [|apply Hg; lia].
    destruct Heq as [<- _]. unfold row_id. destruct (Z.eqb_spec (Z.of_nat (length pre) + 1) 0); [lia|].
    rewrite Z.add_simpl_r. unfold aget. destruct (Z.ltb_spec (Z.of_nat (length pre)) 0); [lia|].
    rewrite Nat2Z.id, Hadjs. by rewrite list_lookup_middle. }
  simpl.
  destruct (for_up_inv (λ i0 v, rect (k + 1) (N + 1) v ∧
      (∀ i, 0 ≤ i ≤ k → vget v i 0 = row_id My_ID adjs i) ∧
      (∀ i j id, 0 ≤ i < i0 → 1 ≤ j ≤ N → vget v i 0 = Some id →
         vget v i j = Some (if j =? id then 0 else INFINITY)))
    (λ i v, r ← aget v i; r' ← init_row (Z.of_nat (length nodes)) r; aset v i r') 0
    (Z.to_nat (k + 1)) v2) as (v3 & -> & Hr3 & Hg3 & He3).
  { split_and!; [done| |lia]. intros i Hi. apply Hg2. fold k in Hidx. lia. }
  { intros i v Hi (Hr & Hg & He). destruct (aget_is_Some v i) as [r Hri]; [destruct Hr; lia|].
    rewrite Hri. simpl. pose proof (proj2 Hr i r Hri) as Hlr.
    destruct (aget_is_Some r 0) as [id Hid]; [lia|].
    rewrite HN. destruct (init_row_ok N r id) as (r' & -> & Hl' & Hid' & Hrow); [lia|lia|done|].
    simpl. destruct (aset v i r') as [v'|] eqn:E; [|rewrite aset_ok in E by (destruct Hr; lia); done].
    exists v'. split; [done|].
    assert (∀ i' j', vget v' i' j' = if decide (i = i') then aget r' j' else vget v i' j') as Hg'.
    { intros i' j'. unfold vget. rewrite (aget_aset _ _ _ _ _ E). by case_decide. }
    split_and!.
    - destruct Hr as [Hlv Hrows]. split; [by rewrite (aset_length _ _ _ _ E)|].
      intros i' r2 Hri2. rewrite (aget_aset _ _ _ _ _ E) in Hri2. case_decide; simplify_eq; [lia|].
      by apply (Hrows i').
    - intros i' Hi'. rewrite Hg'. case_decide as Heq; [|by apply Hg]. subst i'.
      rewrite Hid', <-Hg by done. apply eq_sym, vget_Some. eauto.
    - intros i' j id' Hi' Hj Hid2. rewrite Hg' in Hid2 |- *. case_decide as Heq.
      + simplify_eq. by apply Hrow.
      + apply He; [lia|done|done]. }
  simpl. eexists. split; [done|]. simpl. rewrite HN. split_and!.
  - destruct Hr3 as [Hl3 Hrows]. constructor; simpl; [done|done| |].
    + intros i r Hi. apply (Hrows (Z.of_nat i)). apply aget_Some. split; [lia|].
      by rewrite Nat2Z.id.
    + rewrite Hg3 by lia. done.
  - done.
  - done.
  - intros i j id Hi. apply He3. lia.
Qed.

(** ** Witnesses: node 1 of the demo network, with rows from 2, 3 and 4 *)

Definition demo_dv : dv :=
  mk_dv [[1; 0; INFINITY; INFINITY; INFINITY]; [2; 1; 0; 2; INFINITY];
         [3; INFINITY; 2; 0; INFINITY]; [4; INFINITY; INFINITY; INFINITY; 0]] 3 4.

(** The table of node 2, with rows for 1 and 3. *)
Definition demo_dv2 : dv :=
  mk_dv [[2; INFINITY; 0; INFINITY; INFINITY]; [1; 0; INFINITY; INFINITY; INFINITY];
         [3; INFINITY; INFINITY; 0; INFINITY]] 2 4.

(** The node table of node 1 when 2 and 3 are reached through 2. *)
Definition demo_routed : node_list :=
  [mk_node 3 (demo_addr 3) (demo_addr 4) (Some 2%nat);
   mk_node 1 (demo_addr 1) (demo_addr 2) (Some 1%nat);
   mk_node 2 (demo_addr 2) (demo_addr 3) (Some 2%nat);
   mk_node 4 (demo_addr 4) (demo_addr 5) None].

Lemma vget_elem v i j d : vget v i j = Some d → d ∈ concat v.
Proof.
  intros (r & Hr & Hd)%vget_Some. apply aget_Some in Hr as [_ Hr], Hd as [_ Hd].
  apply list_elem_of_In, in_concat. exists r.
  split; apply list_elem_of_In; by eapply list_elem_of_lookup_2.
Qed.

Lemma rows_all {A} (P : A → Prop) (l : list A) : Forall P l → ∀ i x, l !! i = Some x → P x.
Proof. intros H i x Hi. rewrite Forall_lookup in H. eauto. Qed.

Lemma demo_dv_wf : dv_wf 4 1 demo_dv.
Proof. constructor; [done|done| |done]. apply rows_all. by repeat constructor. Qed.

Lemma demo_dv2_wf : dv_wf 4 2 demo_dv2.
Proof. constructor; [done|done| |done]. apply rows_all. by repeat constructor. Qed.

Lemma demo_ready : dv_ready 4 1 demo_edges demo_nodes demo_dv.
Proof.
  constructor; [apply demo_dv_wf|apply demo_nodes_wf|lia|simpl; lia| |].
  - intros i Hi. simpl in Hi. assert (i = 1 ∨ i = 2 ∨ i = 3) as [->|[->| ->]] by lia;
      eexists _, _, _; (split_and!; [vm_compute; reflexivity|lia|lia|vm_compute; reflexivity|done]).
  - intros i j d e _ Hd Hne He Hl. apply vget_elem in Hd. unfold demo_edges in He.
    assert (0 ≤ d ≤ 4) as Hd4.
    { unfold demo_dv, INFINITY in *. simpl in Hd. elem_cases Hd; lia. }
    elem_cases He; unfold get_edge_cost, INFINITY in *; simpl in *; lia.
Qed.

Lemma demo_routed_wf : nodes_wf 4 demo_routed.
Proof. apply (nodes_wf_ids 4 demo_nodes); [done|apply demo_nodes_wf]. Qed.


Lemma poisoned_reverse_witness :
  ∃ vec t'', dv_vector demo_dv demo_routed 2 = Some vec ∧
    copy_vector demo_dv2 1 (aget vec) = Some (Some t'') ∧
    ∃ k, vget (vectors t'') k 0 = Some 1 ∧ vget (vectors t'') k 3 = Some INFINITY ∧
      ∀ c h, ¬ offer 2 demo_edges (vectors t'') k 3 c h.
Proof.
  eexists _, _. split; [vm_compute; reflexivity|]. split; [vm_compute; reflexivity|].
  eapply (poisoned_reverse 4 1 2 demo_edges demo_routed demo_dv demo_dv2 _
            (mk_node 3 (demo_addr 3) (demo_addr 4) (Some 2%nat)));
    [apply demo_dv_wf|simpl; lia|apply demo_routed_wf| |apply demo_dv2_wf|simpl; lia
    |vm_compute; reflexivity|unfold demo_routed; set_solver|reflexivity|reflexivity
    |vm_compute; reflexivity].
  intros n h Hn Hh. unfold demo_routed in Hn. elem_cases Hn; simpl in Hh; simplify_eq; by eexists.
Defined.

Lemma init_table_ok_witness :
  ∃ t, init_table 1 demo_edges (replicate 4 (replicate 5 7)) demo_nodes = Some t ∧ dv_wf 4 1 t ∧
    num_adj_nodes t = Z.of_nat (length (adjacent_edges 1 demo_edges)) ∧
    (∀ i, 0 ≤ i ≤ num_adj_nodes t →
       vget (vectors t) i 0 = row_id 1 (adjacent_edges 1 demo_edges) i) ∧
    (∀ i j id, 0 ≤ i ≤ num_adj_nodes t → 1 ≤ j ≤ 4 → vget (vectors t) i 0 = Some id →
       vget (vectors t) i j = Some (if j =? id then 0 else INFINITY)).
Proof.
  apply (init_table_ok 4 1 demo_edges demo_nodes (replicate 4 (replicate 5 7))); [done|].
  split; [done|]. intros i r Hr. apply aget_Some in Hr as [_ Hr].
  by apply lookup_replicate in Hr as [-> _].
Defined.
