(* ===== verification/Packets.v ===== *)
(** * Packed packet layouts of the overlay node

    The structs of CS1652/project3/proj3-code/packets.h as byte offsets: a
    received control message is a byte buffer that the handlers read through
    [struct ctrl_hdr], [struct lsa_pkt] or [struct dv_pkt].  Bytes are [Z] in
    [0, 256); integers are little-endian [uint32_t]s. *)
From S2P Require Import Prelude Bytes OverlayLists LinkState.
Open Scope Z_scope.

Definition MAX_PAYLOAD_SIZE : Z := 1300.
Definition MAX_VEC_SIZE : Z := 800.
Definition MAX_CTRL_SIZE : Z := 1300.
Definition MAX_PATH : Z := 8.

Definition CTRL_HEARTBEAT : Z := 1.
Definition CTRL_HEARTBEAT_ECHO : Z := 2.
Definition CTRL_LSA : Z := 3.
Definition CTRL_DV : Z := 4.

(** [struct ctrl_hdr] *)
Record ctrl_hdr := mk_hdr { hdr_type : Z; hdr_src_id : Z; hdr_dst_id : Z }.

(** [struct heartbeat_pkt], [struct heartbeat_echo_pkt], [struct lsa_pkt] and
    [struct dv_pkt] ([vec] up to [num_nodes] entries). *)
Inductive ctrl_pkt :=
| HeartbeatPkt (hdr : ctrl_hdr)
| HeartbeatEchoPkt (hdr : ctrl_hdr)
| LsaPkt (hdr : ctrl_hdr) (target_src_id target_dst_id : Z) (alive : bool)
| DvPkt (hdr : ctrl_hdr) (pkt_num_nodes : Z) (vec : list Z).

(** [struct data_pkt_hdr] and its payload. *)
Record data_pkt := mk_data_pkt {
  d_dst_id : Z;
  d_src_id : Z;
  d_dst_port : Z;
  d_src_port : Z;
  d_data_len : Z;
  d_path_len : Z;
  d_path : list Z;
  d_payload : list Z
}.

(** [sizeof] of the packed structs. *)
Definition sizeof_ctrl_hdr : Z := 12.
Definition sizeof_lsa_pkt : Z := 21.
Definition sizeof_dv_pkt : Z := 12 + 4 + 4 * MAX_VEC_SIZE.
Definition sizeof_data_pkt : Z := 28 + MAX_PAYLOAD_SIZE.

(** [buf] read as [struct ctrl_hdr *] and as the larger structs. *)
Definition read_type (buf : list Z) : option Z := get_u32 buf 0.
Definition read_src_id (buf : list Z) : option Z := get_u32 buf 4.
Definition read_dst_id (buf : list Z) : option Z := get_u32 buf 8.
Definition read_target_src_id (buf : list Z) : option Z := get_u32 buf 12.
Definition read_target_dst_id (buf : list Z) : option Z := get_u32 buf 16.
Definition read_alive (buf : list Z) : option bool := b ← aget buf 20; Some (negb (b =? 0)).
Definition read_num_nodes (buf : list Z) : option Z := get_u32 buf 12.
Definition read_vec (buf : list Z) (i : Z) : option Z := get_u32 buf (16 + 4 * i).

Definition hdr_bytes (h : ctrl_hdr) : list Z :=
  le32 (hdr_type h) ++ le32 (hdr_src_id h) ++ le32 (hdr_dst_id h).

(** The whole struct in memory; [junk] is what [malloc] left in the part of
    [vec] that is not written. *)
Definition pkt_bytes (junk : list Z) (p : ctrl_pkt) : list Z :=
  match p with
  | HeartbeatPkt h | HeartbeatEchoPkt h => hdr_bytes h
  | LsaPkt h s d alive =>
      hdr_bytes h ++ le32 s ++ le32 d ++ [if alive then 1 else 0]
  | DvPkt h n vec =>
      hdr_bytes h ++ le32 n ++ concat (le32 <$> vec) ++
      take (Z.to_nat (4 * MAX_VEC_SIZE) - 4 * length vec) junk
  end.

(** The length given to [sendto] for each packet. *)
Definition send_len (p : ctrl_pkt) : Z :=
  match p with
  | HeartbeatPkt _ | HeartbeatEchoPkt _ => sizeof_ctrl_hdr
  | LsaPkt _ _ _ _ => sizeof_lsa_pkt
  | DvPkt _ n _ => sizeof_dv_pkt - MAX_VEC_SIZE + n * 4
  end.

(** The datagram on the wire. *)
Definition datagram (junk : list Z) (p : ctrl_pkt) : list Z :=
  take (Z.to_nat (send_len p)) (pkt_bytes junk p).

(** [recvfrom(sock, buf, sizeof(buf), ...)]: the datagram, cut at
    [MAX_CTRL_SIZE], over the bytes the stack buffer held. *)
Definition recv_ctrl (stack dgram : list Z) : list Z :=
  let d := take (Z.to_nat MAX_CTRL_SIZE) dgram in
  d ++ drop (length d) stack.

(** ** Data packets *)

Definition sizeof_data_hdr : Z := 28.
(** [struct data_pkt] in memory. *)
Definition data_bytes (p : data_pkt) : list Z :=
  le32 (d_dst_id p) ++ le32 (d_src_id p) ++ le16 (d_dst_port p) ++ le16 (d_src_port p) ++
  le32 (d_data_len p) ++ le32 (d_path_len p) ++ d_path p ++ d_payload p.

Definition read_data_pkt (buf : list Z) : option data_pkt :=
  dst ← get_u32 buf 0; src ← get_u32 buf 4;
  dport ← get_u16 buf 8; sport ← get_u16 buf 10;
  len ← get_u32 buf 12; plen ← get_u32 buf 16;
  path ← slice buf 20 (Z.to_nat MAX_PATH);
  payload ← slice buf 28 (Z.to_nat MAX_PAYLOAD_SIZE);
  Some (mk_data_pkt dst src dport sport len plen path payload).

(** [bytes = sizeof(struct data_pkt) - MAX_PAYLOAD_SIZE + data_len] and the
    datagram that [sendto] makes of it. *)
Definition data_send_len (p : data_pkt) : Z := sizeof_data_pkt - MAX_PAYLOAD_SIZE + d_data_len p.
Definition data_datagram (p : data_pkt) : list Z := take (Z.to_nat (data_send_len p)) (data_bytes p).

(** [recvfrom(sock, &pkt, sizeof(pkt), ...)] over the stack's old bytes. *)
Definition recv_data (stack dgram : list Z) : list Z :=
  let d := take (Z.to_nat sizeof_data_pkt) dgram in
  d ++ drop (length d) stack.

(** Field ranges of a packet that fits the structs. *)
Definition hdr_ok (h : ctrl_hdr) : Prop :=
  is_u32 (hdr_type h) ∧ is_u32 (hdr_src_id h) ∧ is_u32 (hdr_dst_id h).
Definition pkt_hdr (p : ctrl_pkt) : ctrl_hdr :=
  match p with HeartbeatPkt h | HeartbeatEchoPkt h | LsaPkt h _ _ _ | DvPkt h _ _ => h end.
Definition pkt_ok (p : ctrl_pkt) : Prop :=
  hdr_ok (pkt_hdr p) ∧
  match p with
  | LsaPkt _ s d _ => is_u32 s ∧ is_u32 d
  | DvPkt _ n vec => n = Z.of_nat (length vec) ∧ n ≤ Z.of_nat MAX_NODES ∧ Forall is_u32 vec
  | _ => True
  end.

Definition data_ok (p : data_pkt) : Prop :=
  is_u32 (d_dst_id p) ∧ is_u32 (d_src_id p) ∧ is_u16 (d_dst_port p) ∧ is_u16 (d_src_port p) ∧
  is_u32 (d_data_len p) ∧ is_u32 (d_path_len p) ∧ length (d_path p) = 8%nat ∧
  length (d_payload p) = 1300%nat.

Definition with_payload (p : data_pkt) (payload : list Z) : data_pkt :=
  mk_data_pkt (d_dst_id p) (d_src_id p) (d_dst_port p) (d_src_port p)
    (d_data_len p) (d_path_len p) (d_path p) payload.

(** ** Lemmas *)

Lemma length_hdr_bytes h : length (hdr_bytes h) = 12%nat.
Proof. done. Qed.

(** What a receiver's buffer holds after a datagram that fits arrived. *)
Lemma recv_datagram_holds junk stack p bs rest :
  pkt_bytes junk p = bs ++ rest → Z.of_nat (length bs) ≤ send_len p →
  Z.of_nat (length bs) ≤ MAX_CTRL_SIZE →
  holds (recv_ctrl stack (datagram junk p)) 0 bs.
Proof.
  intros Heq Hs Hm. unfold recv_ctrl, datagram. rewrite Heq.
  rewrite (take_app_ge _ _ (Z.to_nat (send_len p))) by lia.
  rewrite (take_app_ge _ _ (Z.to_nat MAX_CTRL_SIZE)) by lia.
  rewrite <-app_assoc. apply holds_prefix.
Qed.

Lemma hdr_reads buf h : hdr_ok h → holds buf 0 (hdr_bytes h) →
  read_type buf = Some (hdr_type h) ∧ read_src_id buf = Some (hdr_src_id h) ∧
  read_dst_id buf = Some (hdr_dst_id h).
Proof.
  intros (H1 & H2 & H3) H. unfold hdr_bytes in H.
  apply holds_app in H as [Ha H]. apply holds_app in H as [Hb Hc].
  split_and!; by apply get_u32_holds.
Qed.

(** The struct in memory is read back as it is. *)
Lemma read_data_bytes p : data_ok p → read_data_pkt (data_bytes p) = Some p.
Proof.
  intros (H1 & H2 & H3 & H4 & H5 & H6 & H7 & H8).
  assert (length (data_bytes p) = 1328%nat) as Hlen.
  { unfold data_bytes. rewrite !length_app, H7, H8. done. }
  assert (holds (data_bytes p) 0 (data_bytes p)) as H.
  { rewrite <-(app_nil_r (data_bytes p)) at 1. apply holds_prefix. }
  unfold data_bytes in H at 2.
  apply holds_app in H as [Ha H]. apply holds_app in H as [Hb H]. apply holds_app in H as [Hc H].
  apply holds_app in H as [Hd H]. apply holds_app in H as [He H]. apply holds_app in H as [Hf H].
  apply holds_app in H as [Hg Hh]. rewrite H7 in Hh. unfold read_data_pkt.
  rewrite (get_u32_holds _ 0 (d_dst_id p) H1 Ha). cbn [mbind option_bind].
  rewrite (get_u32_holds _ 4 (d_src_id p) H2 Hb). cbn [mbind option_bind].
  rewrite (get_u16_holds _ 8 (d_dst_port p) H3 Hc). cbn [mbind option_bind].
  rewrite (get_u16_holds _ 10 (d_src_port p) H4 Hd). cbn [mbind option_bind].
  rewrite (get_u32_holds _ 12 (d_data_len p) H5 He). cbn [mbind option_bind].
  rewrite (get_u32_holds _ 16 (d_path_len p) H6 Hf). cbn [mbind option_bind].
  rewrite (slice_holds _ 20 (Z.to_nat MAX_PATH) (d_path p) H7 ltac:(rewrite Hlen; unfold MAX_PATH; lia) Hg).
  cbn [mbind option_bind].
  rewrite (slice_holds _ 28 (Z.to_nat MAX_PAYLOAD_SIZE) (d_payload p) H8
             ltac:(rewrite Hlen; unfold MAX_PAYLOAD_SIZE; lia) Hh).
  by destruct p.
Qed.

Lemma recv_data_bytes stack p :
  data_ok p → d_data_len p ≤ MAX_PAYLOAD_SIZE →
  recv_data stack (data_datagram p) =
  data_bytes (with_payload p (take (Z.to_nat (d_data_len p)) (d_payload p) ++
                              drop (28 + Z.to_nat (d_data_len p)) stack)).
Proof.
  intros (H1 & H2 & H3 & H4 & H5 & H6 & H7 & H8) Hlen.
  unfold is_u32, MAX_PAYLOAD_SIZE in *. unfold recv_data, data_datagram, data_send_len.
  set (k := Z.to_nat (d_data_len p)).
  replace (Z.to_nat (sizeof_data_pkt - MAX_PAYLOAD_SIZE + d_data_len p)) with (28 + k)%nat
    by (unfold sizeof_data_pkt, MAX_PAYLOAD_SIZE, k; lia).
  assert (take (28 + k) (data_bytes p) =
    (le32 (d_dst_id p) ++ le32 (d_src_id p) ++ le16 (d_dst_port p) ++ le16 (d_src_port p) ++
     le32 (d_data_len p) ++ le32 (d_path_len p) ++ d_path p) ++ take k (d_payload p)) as E.
  { unfold data_bytes. rewrite !app_assoc. rewrite take_app_add'; [done|].
    rewrite !length_app, H7. done. }
  rewrite E. rewrite (take_ge _ (Z.to_nat sizeof_data_pkt)).
  2:{ rewrite !length_app, length_take, H7, H8. unfold sizeof_data_pkt, MAX_PAYLOAD_SIZE, k.
      change (length (le32 _)) with 4%nat. change (length (le16 _)) with 2%nat. lia. }
  replace (length _) with (28 + k)%nat at 1.
  - unfold data_bytes, with_payload. simpl. by rewrite <-!app_assoc.
  - rewrite !length_app, length_take, H7, H8. change (length (le32 _)) with 4%nat.
    change (length (le16 _)) with 2%nat. unfold k. lia.
Qed.

(** ** Properties *)

(** Control packets survive the trip.  Whatever the sender's heap and the
    receiver's stack held, the fields a handler reads from the buffer are the
    fields of the packet that was sent; for distance vectors this needs the
    [MAX_NODES] bound, although both the length given to [sendto] and the
    receive buffer are smaller than [struct dv_pkt]. *)
Theorem ctrl_roundtrip junk stack p :
  pkt_ok p →
  let buf := recv_ctrl stack (datagram junk p) in
  read_type buf = Some (hdr_type (pkt_hdr p)) ∧
  read_src_id buf = Some (hdr_src_id (pkt_hdr p)) ∧
  read_dst_id buf = Some (hdr_dst_id (pkt_hdr p)) ∧
  match p with
  | HeartbeatPkt _ | HeartbeatEchoPkt _ => True
  | LsaPkt _ s d alive => read_target_src_id buf = Some s ∧ read_target_dst_id buf = Some d ∧
                          read_alive buf = Some alive
  | DvPkt _ n vec => read_num_nodes buf = Some n ∧
                     ∀ i x, vec !! i = Some x → read_vec buf (Z.of_nat i) = Some x
  end.
Proof.
  intros [Hh Hp] buf. subst buf.
  assert (∃ bs rest, pkt_bytes junk p = (hdr_bytes (pkt_hdr p) ++ bs) ++ rest ∧
    Z.of_nat (length (hdr_bytes (pkt_hdr p) ++ bs)) ≤ send_len p ∧
    Z.of_nat (length (hdr_bytes (pkt_hdr p) ++ bs)) ≤ MAX_CTRL_SIZE ∧
    match p with
    | HeartbeatPkt _ | HeartbeatEchoPkt _ => True
    | LsaPkt _ s d alive => bs = le32 s ++ le32 d ++ [if alive then 1 else 0]
    | DvPkt _ n vec => bs = le32 n ++ concat (le32 <$> vec)
    end) as (bs & rest & Heq & Hs & Hm & Hbs).
  { destruct p as [h|h|h s d alive|h n vec]; cbn [pkt_bytes send_len pkt_hdr] in *.
    - exists [], []. rewrite !app_nil_r. by split_and!.
    - exists [], []. rewrite !app_nil_r. by split_and!.
    - exists (le32 s ++ le32 d ++ [if alive then 1 else 0]), []. rewrite !app_nil_r. by split_and!.
    - destruct Hp as (-> & Hn & _).
      exists (le32 (Z.of_nat (length vec)) ++ concat (le32 <$> vec)),
        (take (Z.to_nat (4 * MAX_VEC_SIZE) - 4 * length vec) junk).
      split; [by rewrite <-!app_assoc|].
      rewrite !length_app, length_vec_bytes. change (length (hdr_bytes h)) with 12%nat.
      change (length (le32 _)) with 4%nat.
      unfold sizeof_dv_pkt, MAX_VEC_SIZE, MAX_CTRL_SIZE, MAX_NODES in *. split_and!; [lia|lia|done]. }
  pose proof (recv_datagram_holds junk stack p _ rest Heq Hs Hm) as Hholds.
  apply holds_app in Hholds as [Hhdr Hbody].
  destruct (hdr_reads _ _ Hh Hhdr) as (-> & -> & ->). split_and!; [done..|].
  rewrite length_hdr_bytes in Hbody.
  destruct p as [h|h|h s d alive|h n vec]; [done|done| |]; subst bs; cbn in Hp.
  - destruct Hp as [H1 H2]. apply holds_app in Hbody as [Hb1 Hbody].
    apply holds_app in Hbody as [Hb2 Hb3].
    split_and!; [by apply get_u32_holds..|].
    unfold read_alive. specialize (Hb3 0%nat ltac:(simpl; lia)).
    change (0 + _ + _ + _ + Z.of_nat 0) with 20 in Hb3. rewrite Hb3. by destruct alive.
  - destruct Hp as (Hn & Hn2 & Hv). apply holds_app in Hbody as [Hb1 Hb2].
    split; [apply get_u32_holds; [unfold is_u32, MAX_NODES in *; lia|done]|].
    intros i x Hx. apply get_u32_holds; [by eapply (Forall_lookup_1 is_u32)|].
    by apply (holds_vec _ _ vec i).
Qed.

Lemma ctrl_roundtrip_witness :
  let p := DvPkt (mk_hdr CTRL_DV 1 2) 3 [0; 4294967295; 7] in
  let buf := recv_ctrl (replicate 1300 170) (datagram (replicate 3200 85) p) in
  read_type buf = Some 4 ∧ read_src_id buf = Some 1 ∧ read_dst_id buf = Some 2 ∧
  (read_num_nodes buf = Some 3 ∧
   ∀ i x, [0; 4294967295; 7] !! i = Some x → read_vec buf (Z.of_nat i) = Some x).
Proof.
  apply (ctrl_roundtrip (replicate 3200 85) (replicate 1300 170)
           (DvPkt (mk_hdr CTRL_DV 1 2) 3 [0; 4294967295; 7])).
  split; [by repeat split|]. split_and!; [done|done|]. by repeat constructor.
Defined.

(** A data packet survives a hop.  A node that receives the datagram made
    of a packet whose [data_len] is at most [MAX_PAYLOAD_SIZE] reads the same
    header and the same [data_len] payload bytes, whatever its stack held. *)
Theorem data_roundtrip stack p :
  data_ok p → d_data_len p ≤ MAX_PAYLOAD_SIZE → length stack = Z.to_nat sizeof_data_pkt →
  ∃ payload, read_data_pkt (recv_data stack (data_datagram p)) = Some (with_payload p payload) ∧
    take (Z.to_nat (d_data_len p)) payload = take (Z.to_nat (d_data_len p)) (d_payload p).
Proof.
  intros Hok Hlen Hst. pose proof Hok as (H1 & H2 & H3 & H4 & H5 & H6 & H7 & H8).
  unfold is_u32, MAX_PAYLOAD_SIZE in *. set (k := Z.to_nat (d_data_len p)).
  exists (take k (d_payload p) ++ drop (28 + k) stack). split.
  - rewrite recv_data_bytes by done. apply read_data_bytes.
    repeat split; try (apply Hok). simpl. rewrite length_app, length_take, length_drop, Hst, H8.
    unfold k, sizeof_data_pkt, MAX_PAYLOAD_SIZE. lia.
  - rewrite take_app_le, take_take by (rewrite length_take; lia). f_equal. lia.
Qed.

Lemma data_roundtrip_witness :
  let p := mk_data_pkt 3 1 9000 9001 5 2 [1; 2; 0; 0; 0; 0; 0; 0] (replicate 1300 7) in
  ∃ payload, read_data_pkt (recv_data (replicate 1328 170) (data_datagram p)) =
      Some (with_payload p payload) ∧
    take 5 payload = take 5 (replicate 1300 7).
Proof.
  apply (data_roundtrip (replicate 1328 170)
           (mk_data_pkt 3 1 9000 9001 5 2 [1; 2; 0; 0; 0; 0; 0; 0] (replicate 1300 7)));
    [|done|done].
  by repeat split.
Defined.
