(* ===== verification/OverlayNode.v ===== *)
(** * The overlay node: message handlers, timers and client connections

    The rest of CS1652/project3/proj3-code/overlay_node.c: the handlers that
    [E_handle_events] runs, over one state record that holds the file-scope
    variables.  Every handler is a [prog]: it returns, exits the process
    ([Alarm(EXIT, ...)]) or is undefined.  System calls are answered by the
    oracles of the section, indexed by the number of calls made so far, and
    what leaves the node is appended to [trace]. *)
From S2P Require Import Prelude OverlayLists LinkState DistVec Bytes Packets.
Open Scope Z_scope.

Inductive mode := MODE_NONE | MODE_LINK_STATE | MODE_DISTANCE_VECTOR.

(** What the outside sees, in order. *)
Inductive event :=
| SendCtrl (to : sockaddr_in) (p : ctrl_pkt)
| SendData (to : sockaddr_in) (p : data_pkt) (bytes : Z)
| SendClient (fd : Z) (to : sockaddr_in) (p : data_pkt) (bytes : Z)
| SendStream (fd : Z) (bytes : list Z)
| FdEvent (e : fd_event)
| AttachClient (fd : Z) (c : loc)
| QueueHeartbeats.

Record ostate := mk_ostate {
  My_ID : Z;
  Route_Mode : mode;
  Client_List : client_list;
  Node_List : node_list;
  Edge_List : edge_list;
  Link_State : link_state;
  Dist_Vec : dv;
  calls : nat;
  open_fds : Z;
  trace : list event
}.

Definition set_clients (c : client_list) (st : ostate) : ostate :=
  mk_ostate (My_ID st) (Route_Mode st) c (Node_List st) (Edge_List st) (Link_State st)
    (Dist_Vec st) (calls st) (open_fds st) (trace st).
Definition set_nodes (n : node_list) (st : ostate) : ostate :=
  mk_ostate (My_ID st) (Route_Mode st) (Client_List st) n (Edge_List st) (Link_State st)
    (Dist_Vec st) (calls st) (open_fds st) (trace st).
Definition set_edges (e : edge_list) (st : ostate) : ostate :=
  mk_ostate (My_ID st) (Route_Mode st) (Client_List st) (Node_List st) e (Link_State st)
    (Dist_Vec st) (calls st) (open_fds st) (trace st).
Definition set_ls (l : link_state) (st : ostate) : ostate :=
  mk_ostate (My_ID st) (Route_Mode st) (Client_List st) (Node_List st) (Edge_List st) l
    (Dist_Vec st) (calls st) (open_fds st) (trace st).
Definition set_dv (d : dv) (st : ostate) : ostate :=
  mk_ostate (My_ID st) (Route_Mode st) (Client_List st) (Node_List st) (Edge_List st)
    (Link_State st) d (calls st) (open_fds st) (trace st).
Definition set_io (k : nat) (fds : Z) (tr : list event) (st : ostate) : ostate :=
  mk_ostate (My_ID st) (Route_Mode st) (Client_List st) (Node_List st) (Edge_List st)
    (Link_State st) (Dist_Vec st) k fds tr.

Definition emit (ev : event) : prog ostate unit :=
  modify (λ st, set_io (calls st) (open_fds st) (trace st ++ [ev]) st).
Definition add_fds (d : Z) : prog ostate unit :=
  modify (λ st, set_io (calls st) (open_fds st + d) (trace st) st).
(** The index of the next system call. *)
Definition next_call : prog ostate nat := λ st,
  Ret (calls st) (set_io (S (calls st)) (open_fds st) (trace st) st).

(** [edges[i]->outstanding_heartbeats = h] *)
Definition set_heartbeats (i : nat) (h : Z) (es : edge_list) : option edge_list :=
  e ← es !! i;
  Some (<[i := mk_edge (src_id e) (dst_id e) (cost e) h (src_node e) (dst_node e)]> es).

Section handlers.
(** [socket()] for the call of this index with this many descriptors open,
    and [sendto] by call index; [malloc_usable n] is the number of bytes a
    block asked for with [malloc(n)] really has. *)
Context (sys_socket : nat → Z → Z) (sys_ret : nat → Z) (malloc_usable : Z → Z).

(** [if ((sock = socket(...)) < 0) Alarm(EXIT, ...)] *)
Definition open_udp : prog ostate Z :=
  k ← next_call;
  st ← get;
  let sock := sys_socket k (open_fds st) in
  if sock <? 0 then exit_with 0 else add_fds 1;; mret sock.

Definition close_udp : prog ostate unit := add_fds (-1).

(** [sendto] on a fresh socket: a failure is only logged. *)
Definition send_ctrl_to (to : sockaddr_in) (p : ctrl_pkt) : prog ostate unit :=
  k ← next_call;
  if sys_ret k <? 0 then mret tt else emit (SendCtrl to p).

(** The node a [struct node *] points to. *)
Definition deref_node (p : node_ptr) : prog ostate node :=
  reads (λ st, i ← p; Node_List st !! i).

(** ** Link-state advertisements *)

(** [send_lsa_over_link] *)
Definition send_lsa_over_link (target : nat) (alive : bool) (e : nat) : prog ostate unit :=
  ed ← reads (λ st, Edge_List st !! e);
  adj_node ← deref_node (dst_node ed);
  tgt ← reads (λ st, Edge_List st !! target);
  st ← get;
  let lsa := LsaPkt (mk_hdr CTRL_LSA (My_ID st) (node_id adj_node))
               (src_id tgt) (dst_id tgt) alive in
  _ ← open_udp;
  send_ctrl_to (ctrl_addr adj_node) lsa;;
  close_udp.

(** The loop over [Edge_List] shared by the functions that send on the
    adjacent links [keep] selects. *)
Definition for_edges (body : nat → prog ostate unit) : prog ostate unit :=
  st ← get; for_each (seq 0 (length (Edge_List st))) body.

(** [broadcast_lsa] *)
Definition broadcast_lsa (target : nat) (alive : bool) : prog ostate unit :=
  for_edges (λ i,
    e ← reads (λ st, Edge_List st !! i);
    st ← get;
    if src_id e =? My_ID st then send_lsa_over_link target alive i else mret tt).

(** [forward_lsa] *)
Definition forward_lsa (pkt_src_id : Z) (target : nat) (alive : bool) : prog ostate unit :=
  for_edges (λ i,
    e ← reads (λ st, Edge_List st !! i);
    st ← get;
    if (src_id e =? My_ID st) && negb (dst_id e =? pkt_src_id)
    then send_lsa_over_link target alive i else mret tt).

(** [reset_link_state]; [calc_link_state]; [set_forwarding_table_ls] *)
Definition recalculate_routes : prog ostate unit :=
  updates (λ st,
    '(ls, nodes) ← recalculate (My_ID st) (Edge_List st) (Link_State st) (Node_List st);
    Some (set_nodes nodes (set_ls ls st))).

(** ** Distance vectors *)

(** [send_dv_over_link] *)
Definition send_dv_over_link (target_id : Z) : prog ostate unit :=
  st ← get;
  match get_node_from_id (Node_List st) target_id with
  | None => mret tt
  | Some i =>
      target_node ← deref_node (Some i);
      vec ← reads (λ st, dv_vector (Dist_Vec st) (Node_List st) target_id);
      let d_vec := DvPkt (mk_hdr CTRL_DV (My_ID st) target_id) (dv_num_nodes (Dist_Vec st)) vec in
      _ ← open_udp;
      send_ctrl_to (ctrl_addr target_node) d_vec;;
      close_udp
  end.

(** [broadcast_dv] *)
Definition broadcast_dv : prog ostate unit :=
  for_edges (λ i,
    e ← reads (λ st, Edge_List st !! i);
    st ← get;
    if src_id e =? My_ID st then send_dv_over_link (dst_id e) else mret tt).

(** [calc_distance_vector] *)
Definition calc_distance_vector : prog ostate unit :=
  change_vec ← (λ st,
    match update_distance_vector (My_ID st) (Edge_List st) malloc_usable
            (Dist_Vec st) (Node_List st) with
    | Some (t, nodes, c) => Ret c (set_nodes nodes (set_dv t st))
    | None => Undef
    end);
  if change_vec : bool then broadcast_dv else mret tt.

(** ** Control messages *)

(** [handle_heartbeat] *)
Definition handle_heartbeat (pkt : list Z) : prog ostate unit :=
  ty ← lift (read_type pkt);
  if negb (ty =? CTRL_HEARTBEAT) then mret tt
  else
    src ← lift (read_src_id pkt);
    st ← get;
    let echo := HeartbeatEchoPkt (mk_hdr CTRL_HEARTBEAT_ECHO (My_ID st) src) in
    let dst_node := get_node_from_id (Node_List st) src in
    _ ← open_udp;
    n ← deref_node dst_node;
    send_ctrl_to (ctrl_addr n) echo;;
    close_udp.

(** [handle_heartbeat_echo] *)
Definition handle_heartbeat_echo (pkt : list Z) : prog ostate unit :=
  ty ← lift (read_type pkt);
  if negb (ty =? CTRL_HEARTBEAT_ECHO) then mret tt
  else
    src ← lift (read_src_id pkt);
    st ← get;
    i ← lift (get_edge_from_list (Edge_List st) (My_ID st) src);
    e ← reads (λ st, Edge_List st !! i);
    (if outstanding_heartbeats e >? MAX_OUTSTANDING_HEARTBEATS
     then
       updates (λ st, es ← set_heartbeats i 0 (Edge_List st); Some (set_edges es st));;
       match Route_Mode st with
       | MODE_LINK_STATE => recalculate_routes;; broadcast_lsa i true
       | MODE_DISTANCE_VECTOR => calc_distance_vector
       | MODE_NONE => mret tt
       end
     else mret tt);;
    updates (λ st, es ← set_heartbeats i 0 (Edge_List st); Some (set_edges es st)).

(** [handle_lsa]: both early errors are logged and execution goes on. *)
Definition handle_lsa (pkt : list Z) : prog ostate unit :=
  ty ← lift (read_type pkt);
  if negb (ty =? CTRL_LSA) then mret tt
  else
    tsrc ← lift (read_target_src_id pkt);
    tdst ← lift (read_target_dst_id pkt);
    alive ← lift (read_alive pkt);
    src ← lift (read_src_id pkt);
    st ← get;
    t ← lift (get_edge_from_list (Edge_List st) tsrc tdst);
    inv ← lift (get_edge_from_list (Edge_List st) tdst tsrc);
    te ← reads (λ st, Edge_List st !! t);
    ie ← reads (λ st, Edge_List st !! inv);
    let target_alive :=
      (outstanding_heartbeats te <=? MAX_OUTSTANDING_HEARTBEATS) ||
      (outstanding_heartbeats ie <=? MAX_OUTSTANDING_HEARTBEATS) in
    (if alive && negb target_alive
     then updates (λ st, es ← set_heartbeats t 0 (Edge_List st);
                         es' ← set_heartbeats inv 0 es; Some (set_edges es' st))
     else if negb alive && target_alive
     then updates (λ st, es ← set_heartbeats t (MAX_OUTSTANDING_HEARTBEATS + 1) (Edge_List st);
                         es' ← set_heartbeats inv (MAX_OUTSTANDING_HEARTBEATS + 1) es;
                         Some (set_edges es' st))
     else mret tt);;
    if (alive && negb target_alive) || (negb alive && target_alive)
    then recalculate_routes;; forward_lsa src t alive
    else mret tt.

(** [handle_dv]: the debug loop reads [pkt->num_nodes] entries of the buffer. *)
Definition handle_dv (pkt : list Z) : prog ostate unit :=
  ty ← lift (read_type pkt);
  if negb (ty =? CTRL_DV) then mret tt
  else
    n ← lift (read_num_nodes pkt);
    _ ← lift (for_up (λ i (_ : unit), _ ← read_vec pkt i; Some tt) 0 (Z.to_nat n) tt);
    src ← lift (read_src_id pkt);
    r ← reads (λ st, copy_vector (Dist_Vec st) src (read_vec pkt));
    match r with
    | None => mret tt
    | Some t => modify (set_dv t);; calc_distance_vector
    end.

(** [handle_overlay_ctrl]: [stack] is what [buf] held; [None] is a failed
    [recvfrom].  A wrong [dst_id] is logged and the message handled. *)
Definition handle_overlay_ctrl (stack : list Z) (dgram : option (list Z)) : prog ostate unit :=
  match dgram with
  | None => exit_with 0
  | Some d =>
      let buf := recv_ctrl stack d in
      _ ← lift (read_dst_id buf);
      ty ← lift (read_type buf);
      if ty =? CTRL_HEARTBEAT then handle_heartbeat buf
      else if ty =? CTRL_HEARTBEAT_ECHO then handle_heartbeat_echo buf
      else if ty =? CTRL_LSA then handle_lsa buf
      else if ty =? CTRL_DV then handle_dv buf
      else mret tt
  end.

(** ** Heartbeats *)

(** [send_heartbeat_over_link]: the socket is not closed. *)
Definition send_heartbeat_over_link (i : nat) : prog ostate unit :=
  e ← reads (λ st, Edge_List st !! i);
  adj_node ← deref_node (dst_node e);
  st ← get;
  let heart_pkt := HeartbeatPkt (mk_hdr CTRL_HEARTBEAT (My_ID st) (node_id adj_node)) in
  _ ← open_udp;
  send_ctrl_to (ctrl_addr adj_node) heart_pkt.

(** The loop body of [send_heartbeats]. *)
Definition heartbeat_body (i : nat) : prog ostate unit :=
  e ← reads (λ st, Edge_List st !! i);
  st ← get;
  if negb (src_id e =? My_ID st) then mret tt
  else
    send_heartbeat_over_link i;;
    let h := outstanding_heartbeats e in
    let h1 := if h <=? MAX_OUTSTANDING_HEARTBEATS then u32 (h + 1) else h in
    updates (λ st, es ← set_heartbeats i h1 (Edge_List st); Some (set_edges es st));;
    if h1 =? MAX_OUTSTANDING_HEARTBEATS + 1
    then
      match Route_Mode st with
      | MODE_LINK_STATE => recalculate_routes;; broadcast_lsa i false
      | MODE_DISTANCE_VECTOR => calc_distance_vector
      | MODE_NONE => mret tt
      end;;
      updates (λ st, es ← set_heartbeats i (u32 (h1 + 1)) (Edge_List st); Some (set_edges es st))
    else mret tt.

(** [send_heartbeats] *)
Definition send_heartbeats : prog ostate unit :=
  for_edges heartbeat_body;; emit QueueHeartbeats.

End handlers.

(** ** Specification *)

(** The configuration: ids [1..N], links between known nodes with their
    [dst_node] pointers set, path costs that fit in 32 bits. *)
Record network_wf (N me : Z) (nodes : node_list) (es : edge_list) : Prop := {
  nt_size : N < 4294967295;
  nt_me : 1 ≤ me ≤ N;
  nt_nodes : nodes_wf N nodes;
  nt_ends : ∀ e, e ∈ es → 1 ≤ src_id e ≤ N ∧ 1 ≤ dst_id e ≤ N;
  nt_cost : ∃ C, 0 ≤ C ∧ N * C < INFINITY ∧ ∀ e, e ∈ es → 0 ≤ cost e ≤ C;
  nt_ptrs : ∀ e, e ∈ es → dst_node e = get_node_from_id nodes (dst_id e)
}.

(** Edges that differ in their heartbeat counter only. *)
Definition same_edge (e e' : edge) : Prop :=
  src_id e' = src_id e ∧ dst_id e' = dst_id e ∧ cost e' = cost e ∧
  src_node e' = src_node e ∧ dst_node e' = dst_node e.

(** A node of that network in link-state mode, before and after its routes are
    brought up to date with its view of the links. *)
Record ls_pre (N me : Z) (nodes0 : node_list) (es0 : edge_list) (st : ostate) : Prop := {
  lp_me : My_ID st = me;
  lp_mode : Route_Mode st = MODE_LINK_STATE;
  lp_nodes : Forall2 same_node nodes0 (Node_List st);
  lp_edges : Forall2 same_edge es0 (Edge_List st);
  lp_arrays : arrays_wf N (Link_State st);
  lp_beats : ∀ e, e ∈ Edge_List st → 0 ≤ outstanding_heartbeats e;
  lp_dv : Dist_Vec st = mk_dv [] 0 0
}.
Record ls_inv (N me : Z) (nodes0 : node_list) (es0 : edge_list) (st : ostate) : Prop := {
  li_pre : ls_pre N me nodes0 es0 st;
  li_routes : routes_shortest me (Edge_List st) (Node_List st)
}.

(** Whether [handle_lsa] takes the link between slots [t] and [inv] for alive. *)
Definition link_alive (es : edge_list) (t inv : nat) : option bool :=
  te ← es !! t; ie ← es !! inv;
  Some ((outstanding_heartbeats te <=? MAX_OUTSTANDING_HEARTBEATS) ||
        (outstanding_heartbeats ie <=? MAX_OUTSTANDING_HEARTBEATS)).

(** A control message that a correct peer of this network can send to a node
    in link-state mode. *)
Definition ls_message (me : Z) (nodes : node_list) (es : edge_list) (buf : list Z) : Prop :=
  ∃ ty src dst, read_type buf = Some ty ∧ read_src_id buf = Some src ∧ read_dst_id buf = Some dst ∧
    ty ≠ CTRL_DV ∧
    (ty = CTRL_HEARTBEAT → is_Some (get_node_from_id nodes src)) ∧
    (ty = CTRL_HEARTBEAT_ECHO → is_Some (get_edge_from_list es me src)) ∧
    (ty = CTRL_LSA → ∃ s d a, read_target_src_id buf = Some s ∧ read_target_dst_id buf = Some d ∧
       read_alive buf = Some a ∧ is_Some (get_edge_from_list es s d) ∧
       is_Some (get_edge_from_list es d s)).

(** The fields that sending does not touch. *)
Definition core (st : ostate) :=
  (My_ID st, Route_Mode st, Client_List st, Node_List st, Edge_List st, Link_State st, Dist_Vec st).

(** The heartbeat counter of an adjacent link after one [send_heartbeats]. *)
Definition tick (h : Z) : Z :=
  if h <=? 9 then h + 1 else if h <=? 11 then 12 else h.

Definition tick_edge (me : Z) (e : edge) : edge :=
  if src_id e =? me
  then mk_edge (src_id e) (dst_id e) (cost e) (tick (outstanding_heartbeats e))
         (src_node e) (dst_node e)
  else e.

(** ** Lemmas *)

Lemma same_edge_refl es : Forall2 same_edge es es.
Proof. apply Forall_Forall2_diag, Forall_true. by intros. Qed.

Lemma same_edge_elem es es' e' :
  Forall2 same_edge es es' → e' ∈ es' → ∃ e, e ∈ es ∧ same_edge e e'.
Proof.
  intros H [i Hi]%list_elem_of_lookup.
  destruct (Forall2_lookup_r _ _ _ _ _ H Hi) as (e & He & Hs).
  exists e. split; [by eapply list_elem_of_lookup_2|done].
Qed.

Lemma nodes_wf_same N l l' : Forall2 same_node l l' → nodes_wf N l → nodes_wf N l'.
Proof. intros H. apply nodes_wf_ids. by apply same_node_ids. Qed.

(** The configuration holds of every later state of the tables. *)
Lemma network_wf_same N me nodes es nodes' es' :
  Forall2 same_node nodes nodes' → Forall2 same_edge es es' →
  network_wf N me nodes es → network_wf N me nodes' es'.
Proof.
  intros Hn He [H1 H2 H3 H4 (C & HC0 & HCN & HC) H6]. constructor; [done|done| | | |].
  - by eapply nodes_wf_same.
  - intros e' (e & Hin & Hs & Hd & _)%(same_edge_elem _ _ _ He). rewrite Hs, Hd. by apply H4.
  - exists C. split_and!; [done..|].
    intros e' (e & Hin & _ & _ & Hc & _)%(same_edge_elem _ _ _ He). rewrite Hc. by apply HC.
  - intros e' (e & Hin & _ & Hd & _ & _ & Hp)%(same_edge_elem _ _ _ He). rewrite Hp, Hd, H6 by done.
    apply get_node_from_id_ids. by apply same_node_ids.
Qed.

Lemma network_topology N me nodes es : network_wf N me nodes es → topology_wf N me es.
Proof.
  intros [H1 H2 H3 H4 (C & HC0 & HCN & HC) H6]. constructor; [done..|].
  exists C. split_and!; [done..|]. intros e He Hl. specialize (HC e He).
  unfold live, get_edge_cost in *. by destruct (outstanding_heartbeats e >? _).
Qed.

(** The node behind a [dst_node] pointer. *)
Lemma network_dst N me nodes es e :
  network_wf N me nodes es → e ∈ es →
  ∃ i n, dst_node e = Some i ∧ nodes !! i = Some n ∧ node_id n = dst_id e.
Proof.
  intros Hnet He. destruct (nt_ends _ _ _ _ Hnet e He) as [_ Hd].
  destruct (nodes_wf_lookup N nodes (dst_id e)) as (i & n & Hi & Hn & Hg); [apply Hnet|done|].
  exists i, n. by rewrite (nt_ptrs _ _ _ _ Hnet e He).
Qed.

Lemma set_heartbeats_ok es i h e :
  es !! i = Some e → ∃ es', set_heartbeats i h es = Some es' ∧ Forall2 same_edge es es' ∧
    es' = <[i := mk_edge (src_id e) (dst_id e) (cost e) h (src_node e) (dst_node e)]> es.
Proof.
  intros Hi. unfold set_heartbeats. rewrite Hi. simpl. eexists. split_and!; [done| |done].
  apply Forall2_same_length_lookup_2; [by rewrite length_insert|].
  intros j x y Hx Hy. apply list_lookup_insert_Some in Hy as [(<- & <- & _)|[_ Hy]];
    simplify_eq; by split_and!.
Qed.

Lemma same_edge_trans l1 l2 l3 :
  Forall2 same_edge l1 l2 → Forall2 same_edge l2 l3 → Forall2 same_edge l1 l3.
Proof.
  intros H12. revert l3. induction H12 as [|x y l1 l2 (E1 & E2 & E3 & E4 & E5) _ IH]; intros l3 H23.
  - by inversion H23.
  - inversion H23 as [|? z ? l3' (F1 & F2 & F3 & F4 & F5) Hl]; subst. constructor; [|by apply IH].
    unfold same_edge. by rewrite F1, F2, F3, F4, F5, E1, E2, E3, E4, E5.
Qed.

(** A counter that stays on its side of the threshold keeps the links. *)
Lemma set_heartbeats_links es i h e es' :
  es !! i = Some e → set_heartbeats i h es = Some es' →
  (outstanding_heartbeats e >? MAX_OUTSTANDING_HEARTBEATS) = (h >? MAX_OUTSTANDING_HEARTBEATS) →
  same_links es es'.
Proof.
  intros Hi Hset Hh. destruct (set_heartbeats_ok es i h e Hi) as (es2 & Hset2 & Hsame & Hes).
  rewrite Hset in Hset2. injection Hset2 as <-.
  assert (∀ x y, es !! x = Some y → ∃ y', es' !! x = Some y' ∧ src_id y' = src_id y ∧
    dst_id y' = dst_id y ∧ get_edge_cost y' = get_edge_cost y) as Hfw.
  { intros x y Hx. rewrite Hes. destruct (decide (i = x)) as [<-|Hne].
    - simplify_eq. eexists. rewrite list_lookup_insert_eq by by eapply lookup_lt_Some.
      split_and!; [done..|]. unfold get_edge_cost. simpl. by rewrite Hh.
    - exists y. by rewrite list_lookup_insert_ne. }
  intros u v c. unfold adj, live. split.
  - intros (y & [x Hx]%list_elem_of_lookup & <- & <- & Hl & <-).
    destruct (Hfw x y Hx) as (y' & Hy' & H1 & H2 & H3).
    exists y'. rewrite H1, H2, H3. split_and!; [by eapply list_elem_of_lookup_2|done..].
  - intros (y' & [x Hx]%list_elem_of_lookup & <- & <- & Hl & <-).
    destruct (lookup_lt_is_Some_2 es x) as [y Hy].
    { apply lookup_lt_Some in Hx. by rewrite (Forall2_length _ _ _ Hsame). }
    destruct (Hfw x y Hy) as (y2 & Hy2 & H1 & H2 & H3). simplify_eq.
    exists y. rewrite H1, H2 in *. rewrite H3 in *. split_and!; [by eapply list_elem_of_lookup_2|done..].
Qed.

(** [for_edges] with an invariant under which the edge table keeps its length. *)
Lemma hoare_for_edges b n (I : ostate → Prop) body :
  (∀ st, I st → length (Edge_List st) = n) →
  (∀ i, (i < n)%nat → hoare b I (body i) (λ _, I)) →
  hoare b I (for_edges body) (λ _, I).
Proof.
  intros Hn Hb st Hst.
  change (post b (λ _, I) (for_each (seq 0 (length (Edge_List st))) body st)).
  rewrite (Hn st Hst).
  apply (hoare_for_each b (seq 0 n) body I); [|done].
  intros i Hi. apply Hb. apply elem_of_seq in Hi. lia.
Qed.

(** ** Sending changes nothing but the trace *)

Section sending.
Context (sys_socket : nat → Z → Z) (sys_ret : nat → Z).
Context (b : bool).

(** Same tables, and [d] more open descriptors. *)
Definition quiet (d : Z) (st st' : ostate) : Prop :=
  core st' = core st ∧ open_fds st' = open_fds st + d.

Lemma quiet_refl st : quiet 0 st st.
Proof. split; [done|lia]. Qed.
Lemma quiet_trans d1 d2 st1 st2 st3 :
  quiet d1 st1 st2 → quiet d2 st2 st3 → quiet (d1 + d2) st1 st3.
Proof. intros [H1 H2] [H3 H4]. split; [congruence|lia]. Qed.

(** One datagram on a fresh socket, closed ([0]) or leaked ([1]). *)
Lemma send_once_quiet st to p :
  post b (λ _ st', quiet 0 st st')
    ((_ ← open_udp sys_socket; send_ctrl_to sys_ret to p;; close_udp) st).
Proof.
  unfold open_udp, send_ctrl_to, close_udp, next_call, add_fds.
  unfold mbind, prog_bind. simpl. destruct (_ <? 0); simpl; [done|].
  destruct (_ <? 0); simpl; (split; [done|simpl; lia]).
Qed.

Lemma send_leak_quiet st to p :
  post b (λ _ st', quiet 1 st st')
    ((_ ← open_udp sys_socket; send_ctrl_to sys_ret to p) st).
Proof.
  unfold open_udp, send_ctrl_to, next_call, add_fds.
  unfold mbind, prog_bind. simpl. destruct (_ <? 0); simpl; [done|].
  destruct (_ <? 0); simpl; (split; [done|simpl; lia]).
Qed.

Lemma core_fields st st' : core st' = core st →
  My_ID st' = My_ID st ∧ Route_Mode st' = Route_Mode st ∧ Client_List st' = Client_List st ∧
  Node_List st' = Node_List st ∧ Edge_List st' = Edge_List st ∧
  Link_State st' = Link_State st ∧ Dist_Vec st' = Dist_Vec st.
Proof. unfold core. intros H. by simplify_eq. Qed.

(** Loops over the edges whose body is quiet. *)
Lemma for_edges_quiet st0 body :
  (∀ i st, (i < length (Edge_List st0))%nat → quiet 0 st0 st →
     post b (λ _ st', quiet 0 st st') (body i st)) →
  post b (λ _ st', quiet 0 st0 st') (for_edges body st0).
Proof.
  intros Hb.
  apply (hoare_for_edges b (length (Edge_List st0)) (quiet 0 st0) body).
  - intros st [H _]. by apply core_fields in H as (_ & _ & _ & _ & -> & _).
  - intros i Hi st Hst. eapply post_weaken; [by apply Hb|].
    intros [] st' Hst'. by apply (quiet_trans 0 0 st0 st).
  - apply quiet_refl.
Qed.

Section network.
Context (N me : Z) (st0 : ostate).
Context (Hnet : network_wf N me (Node_List st0) (Edge_List st0)).

Lemma edge_lookup i : (i < length (Edge_List st0))%nat →
  ∃ e k n, Edge_List st0 !! i = Some e ∧ dst_node e = Some k ∧
    Node_List st0 !! k = Some n ∧ node_id n = dst_id e.
Proof.
  intros Hi. destruct (lookup_lt_is_Some_2 _ _ Hi) as [e He].
  destruct (network_dst _ _ _ _ e Hnet) as (k & n & Hk & Hn & Hid).
  { by eapply list_elem_of_lookup_2. }
  by exists e, k, n.
Qed.

Lemma send_lsa_quiet st target alive i :
  quiet 0 st0 st → (target < length (Edge_List st0))%nat → (i < length (Edge_List st0))%nat →
  post b (λ _ st', quiet 0 st st') (send_lsa_over_link sys_socket sys_ret target alive i st).
Proof.
  intros Hq Ht Hi. pose proof Hq as [Hc _].
  apply core_fields in Hc as (_ & _ & _ & HN & HE & _).
  destruct (edge_lookup i Hi) as (e & k & n & He & Hk & Hn & _).
  destruct (lookup_lt_is_Some_2 _ _ Ht) as [tg Htg].
  rewrite <-HE in He, Htg. rewrite <-HN in Hn.
  unfold send_lsa_over_link. wp with He. unfold deref_node.
  assert ((λ st, i ← dst_node e; Node_List st !! i) st = Some n) as Hd by (simpl; by rewrite Hk).
  wp with Hd. wp with Htg. wp. apply send_once_quiet.
Qed.

Lemma broadcast_lsa_quiet target alive :
  (target < length (Edge_List st0))%nat →
  post b (λ _ st', quiet 0 st0 st') (broadcast_lsa sys_socket sys_ret target alive st0).
Proof.
  intros Ht. apply for_edges_quiet. intros i st Hi Hq.
  pose proof Hq as [Hc _]. apply core_fields in Hc as (_ & _ & _ & _ & HE & _).
  destruct (lookup_lt_is_Some_2 _ _ Hi) as [e He]. rewrite <-HE in He.
  wp with He. wp. destruct (_ =? _); [by apply send_lsa_quiet|apply quiet_refl].
Qed.

Lemma forward_lsa_quiet src target alive :
  (target < length (Edge_List st0))%nat →
  post b (λ _ st', quiet 0 st0 st') (forward_lsa sys_socket sys_ret src target alive st0).
Proof.
  intros Ht. apply for_edges_quiet. intros i st Hi Hq.
  pose proof Hq as [Hc _]. apply core_fields in Hc as (_ & _ & _ & _ & HE & _).
  destruct (lookup_lt_is_Some_2 _ _ Hi) as [e He]. rewrite <-HE in He.
  wp with He. wp. destruct (_ && _); [by apply send_lsa_quiet|apply quiet_refl].
Qed.

Lemma send_heartbeat_quiet st i :
  quiet 0 st0 st → (i < length (Edge_List st0))%nat →
  post b (λ _ st', quiet 1 st st') (send_heartbeat_over_link sys_socket sys_ret i st).
Proof.
  intros Hq Hi. pose proof Hq as [Hc _].
  apply core_fields in Hc as (_ & _ & _ & HN & HE & _).
  destruct (edge_lookup i Hi) as (e & k & n & He & Hk & Hn & _).
  rewrite <-HE in He. rewrite <-HN in Hn.
  unfold send_heartbeat_over_link. wp with He. unfold deref_node.
  assert ((λ st, i ← dst_node e; Node_List st !! i) st = Some n) as Hd by (simpl; by rewrite Hk).
  wp with Hd. wp. apply send_leak_quiet.
Qed.
End network.
End sending.

(** ** Link-state mode *)

Section ls_mode.
Context (sys_socket : nat → Z → Z) (sys_ret : nat → Z).
Context (malloc_usable : Z → Z) (b : bool).
Context (N me : Z) (nodes0 : node_list) (es0 : edge_list).
Context (Hnet : network_wf N me nodes0 es0).
Notation pre := (ls_pre N me nodes0 es0).
Notation inv := (ls_inv N me nodes0 es0).

Lemma ls_net st : pre st → network_wf N me (Node_List st) (Edge_List st).
Proof. intros [? ? Hn He ?]. by eapply network_wf_same. Qed.

Lemma ls_pre_quiet d st st' : pre st → quiet d st st' → pre st'.
Proof.
  intros [H1 H2 H3 H4 H5 H6 H7] [Hc _].
  apply core_fields in Hc as (E1 & E2 & _ & E4 & E5 & E6 & E7).
  constructor; rewrite ?E1, ?E2, ?E4, ?E5, ?E6, ?E7; done.
Qed.

Lemma ls_inv_quiet d st st' : inv st → quiet d st st' → inv st'.
Proof.
  intros [H1 H2] Hq. constructor; [by eapply ls_pre_quiet|].
  destruct Hq as [Hc _]. by apply core_fields in Hc as (_ & _ & _ & -> & -> & _).
Qed.

(** The recalculation re-establishes the routes and leaves the rest. *)
Lemma recalculate_routes_ok st :
  pre st →
  post b (λ _ st', inv st' ∧ Edge_List st' = Edge_List st ∧ open_fds st' = open_fds st ∧
            calls st' = calls st ∧ trace st' = trace st)
    (recalculate_routes st).
Proof.
  intros Hp. pose proof (ls_net st Hp) as Hn. pose proof Hp as [H1 H2 H3 H4 H5 H6 H7].
  destruct (recalculate_ok N me (Edge_List st) (Link_State st) (Node_List st))
    as (ls' & nodes' & Hr & Hw' & Hnw' & Hs & Hroutes);
    [by eapply network_topology|done|apply Hn|].
  unfold recalculate_routes, updates. rewrite H1, Hr. simpl. split; [|done].
  constructor; [|done]. constructor; simpl; try done. by eapply same_node_trans.
Qed.

Lemma ls_pre_edges st es :
  pre st → Forall2 same_edge (Edge_List st) es →
  (∀ e, e ∈ es → 0 ≤ outstanding_heartbeats e) → pre (set_edges es st).
Proof.
  intros [H1 H2 H3 H4 H5 H6 H7] Hs Hb. constructor; simpl; try done. by eapply same_edge_trans.
Qed.

Lemma beats_insert st i e h :
  pre st → Edge_List st !! i = Some e → 0 ≤ h →
  ∀ e', e' ∈ <[i := mk_edge (src_id e) (dst_id e) (cost e) h (src_node e) (dst_node e)]>
               (Edge_List st) → 0 ≤ outstanding_heartbeats e'.
Proof.
  intros Hp Hi Hh e' [j Hj]%list_elem_of_lookup.
  apply list_lookup_insert_Some in Hj as [(<- & <- & _)|[_ Hj]]; [done|].
  apply (lp_beats _ _ _ _ _ Hp). by eapply list_elem_of_lookup_2.
Qed.

(** Writing a counter without crossing the threshold keeps the invariant. *)
Lemma set_beats_inv st i e h :
  inv st → Edge_List st !! i = Some e → 0 ≤ h →
  (outstanding_heartbeats e >? MAX_OUTSTANDING_HEARTBEATS) = (h >? MAX_OUTSTANDING_HEARTBEATS) →
  ∃ es, set_heartbeats i h (Edge_List st) = Some es ∧ inv (set_edges es st) ∧
    es = <[i := mk_edge (src_id e) (dst_id e) (cost e) h (src_node e) (dst_node e)]> (Edge_List st).
Proof.
  intros [Hp Hr] Hi Hh Hside.
  destruct (set_heartbeats_ok _ i h e Hi) as (es & Hs & Hsame & Hes).
  exists es. split_and!; [done| |done]. constructor.
  - apply ls_pre_edges; [done..|]. rewrite Hes. by eapply beats_insert.
  - simpl. rewrite <-(set_heartbeats_links _ _ _ _ _ Hi Hs Hside). done.
Qed.

(** One link of [send_heartbeats]. *)
Lemma heartbeat_body_ok st i e :
  inv st → Edge_List st !! i = Some e →
  post b (λ _ st', inv st' ∧ Edge_List st' = <[i := tick_edge me e]> (Edge_List st) ∧
            open_fds st' = open_fds st + (if src_id e =? me then 1 else 0))
    (heartbeat_body sys_socket sys_ret malloc_usable i st).
Proof.
  intros Hinv Hi. pose proof Hinv as [Hp _]. pose proof Hp as [H1 H2 _ _ _ H6 _].
  assert (i < length (Edge_List st))%nat as Hlt by by eapply lookup_lt_Some.
  unfold heartbeat_body. wp with Hi. wp. rewrite H1. unfold tick_edge.
  destruct (Z.eqb_spec (src_id e) me) as [Hs|Hs]; simpl.
  2:{ split_and!; [done| |lia]. by rewrite list_insert_id. }
  apply post_bind.
  eapply post_weaken; [eapply (send_heartbeat_quiet _ _ _ N me st); [by apply ls_net|apply quiet_refl|done]|].
  intros [] st1 Hq1. pose proof (ls_inv_quiet _ _ _ Hinv Hq1) as Hinv1.
  destruct Hq1 as [Hc Hf1]. apply core_fields in Hc as (_ & _ & _ & _ & HE & _).
  assert (Edge_List st1 !! i = Some e) as Hi1 by by rewrite HE.
  assert (0 ≤ outstanding_heartbeats e) as Hpos by (apply H6; by eapply list_elem_of_lookup_2).
  unfold MAX_OUTSTANDING_HEARTBEATS.
  assert (∀ h1, 0 ≤ h1 → ∃ es1, set_heartbeats i h1 (Edge_List st1) = Some es1 ∧
    es1 = <[i := mk_edge (src_id e) (dst_id e) (cost e) h1 (src_node e) (dst_node e)]> (Edge_List st1) ∧
    ls_pre N me nodes0 es0 (set_edges es1 st1)) as Hset.
  { intros h1 Hh1. destruct (set_heartbeats_ok _ i h1 e Hi1) as (es1 & Hs1 & Hsame & Hes1).
    exists es1. split_and!; [done..|]. apply ls_pre_edges; [apply Hinv1|done|].
    rewrite Hes1. eapply beats_insert; [apply Hinv1|done|done]. }
  set (h1 := if outstanding_heartbeats e <=? 10 then u32 (outstanding_heartbeats e + 1)
             else outstanding_heartbeats e).
  assert (h1 = if outstanding_heartbeats e <=? 10 then outstanding_heartbeats e + 1
             else outstanding_heartbeats e) as Hh1.
  { unfold h1. destruct (Z.leb_spec (outstanding_heartbeats e) 10); [|done].
    apply u32_small. lia. }
  clearbody h1.
  destruct (Z.eqb_spec h1 (10 + 1)) as [Hdead|Hnot].
  - (* the link dies now, or an advertisement put it to sleep *)
    destruct (Hset h1) as (es1 & Hs1 & Hes1 & Hp1); [lia|].
    assert ((λ st, es ← set_heartbeats i h1 (Edge_List st); Some (set_edges es st)) st1 =
      Some (set_edges es1 st1)) as E1 by (simpl; by rewrite Hs1).
    wp with E1. apply post_bind. rewrite (lp_mode _ _ _ _ _ Hp).
    apply post_bind. eapply post_weaken; [by apply recalculate_routes_ok|].
    intros [] st2 (Hinv2 & HE2 & Hf2 & _ & _). simpl in HE2, Hf2.
    eapply post_weaken.
    { eapply (broadcast_lsa_quiet _ _ _ N me st2); [apply ls_net, Hinv2|].
      rewrite HE2, Hes1, length_insert, HE. done. }
    intros [] st3 Hq3. pose proof (ls_inv_quiet _ _ _ Hinv2 Hq3) as Hinv3.
    destruct Hq3 as [Hc3 Hf3]. apply core_fields in Hc3 as (_ & _ & _ & _ & HE3 & _).
    assert (Edge_List st3 !! i = Some (mk_edge (src_id e) (dst_id e) (cost e) h1
      (src_node e) (dst_node e))) as Hi3.
    { rewrite HE3, HE2, Hes1, HE. by rewrite list_lookup_insert_eq. }
    destruct (set_beats_inv st3 i _ 12 Hinv3 Hi3) as (es4 & Hs4 & Hinv4 & Hes4); [lia| |].
    { simpl. by rewrite Hdead. }
    replace (u32 (h1 + 1)) with 12 by (rewrite Hdead; done).
    unfold updates. rewrite Hs4. simpl. split_and!; [done| |simpl; lia].
    rewrite Hes4. simpl. rewrite HE3, HE2, Hes1, HE, list_insert_insert_eq.
    assert (tick (outstanding_heartbeats e) = 12) as ->; [|done].
    revert Hh1. unfold tick.
    destruct (Z.leb_spec (outstanding_heartbeats e) 10), (Z.leb_spec (outstanding_heartbeats e) 9),
      (Z.leb_spec (outstanding_heartbeats e) 11); intros; lia.
  - assert (0 ≤ h1) as Hh1pos.
    { rewrite Hh1. destruct (Z.leb_spec (outstanding_heartbeats e) 10); lia. }
    destruct (set_beats_inv st1 i e h1 Hinv1 Hi1) as (es1 & Hs1 & Hinv2 & Hes1); [done| |].
    { revert Hnot Hh1. unfold MAX_OUTSTANDING_HEARTBEATS. rewrite !Z.gtb_ltb.
      destruct (Z.leb_spec (outstanding_heartbeats e) 10), (Z.ltb_spec 10 (outstanding_heartbeats e)),
        (Z.ltb_spec 10 h1); intros; (done || lia). }
    assert ((λ st, es ← set_heartbeats i h1 (Edge_List st); Some (set_edges es st)) st1 =
      Some (set_edges es1 st1)) as E1 by (simpl; by rewrite Hs1).
    wp with E1. simpl. split_and!; [done| |simpl; lia]. rewrite Hes1, HE. f_equal. f_equal.
    revert Hnot. rewrite Hh1. unfold tick.
    destruct (Z.leb_spec (outstanding_heartbeats e) 10), (Z.leb_spec (outstanding_heartbeats e) 9),
      (Z.leb_spec (outstanding_heartbeats e) 11); intros; lia.
Qed.

Lemma send_heartbeats_ok st :
  inv st →
  post b (λ _ st', inv st' ∧ Edge_List st' = tick_edge me <$> Edge_List st ∧
            open_fds st' = open_fds st + Z.of_nat (length (adjacent_edges me (Edge_List st))))
    (send_heartbeats sys_socket sys_ret malloc_usable st).
Proof.
  intros Hinv. set (es := Edge_List st). unfold send_heartbeats. apply post_bind.
  set (I := λ k st', inv st' ∧
    Edge_List st' = (tick_edge me <$> take k es) ++ drop k es ∧
    open_fds st' = open_fds st + Z.of_nat (length (adjacent_edges me (take k es)))).
  assert (post b (λ _, I (length es))
    (for_each (seq 0 (length es)) (heartbeat_body sys_socket sys_ret malloc_usable) st)) as Hloop.
  { apply (hoare_for_seq b (length es) _ I).
    - intros k Hk st1 (Hinv1 & HE & Hf).
      destruct (lookup_lt_is_Some_2 _ _ Hk) as [e He].
      assert (length (tick_edge me <$> take k es) = k) as Hlen.
      { rewrite length_fmap, length_take. lia. }
      assert (Edge_List st1 !! k = Some e) as Hi.
      { rewrite HE, lookup_app_r by lia. rewrite Hlen, Nat.sub_diag, lookup_drop.
        by rewrite Nat.add_0_r. }
      eapply post_weaken; [by apply heartbeat_body_ok|].
      intros [] st2 (Hinv2 & HE2 & Hf2). split_and!; [done| |].
      + rewrite HE2, HE, (take_S_r _ _ _ He), fmap_app, <-app_assoc.
        rewrite insert_app_r_alt by lia. rewrite Hlen, Nat.sub_diag.
        rewrite (drop_S _ _ _ He). done.
      + rewrite Hf2, Hf, (take_S_r _ _ _ He). unfold adjacent_edges.
        rewrite filter_app, length_app. simpl. rewrite filter_cons, filter_nil.
        destruct (Z.eqb_spec (src_id e) me); [rewrite decide_True by done|rewrite decide_False by done];
          simpl; lia.
    - split_and!; [done..|simpl; lia]. }
  eapply post_weaken; [exact Hloop|].
  intros [] st1 (Hinv1 & HE & Hf). simpl.
  rewrite take_ge in HE, Hf by done. rewrite drop_ge, app_nil_r in HE by done.
  split_and!; [|done|done]. by apply (ls_inv_quiet 0 st1); [|split; [done|simpl; lia]].
Qed.
Lemma get_edge_same es es' s d :
  Forall2 same_edge es es' → get_edge_from_list es' s d = get_edge_from_list es s d.
Proof.
  unfold get_edge_from_list. induction 1 as [|e e' es es' (E1 & E2 & _) _ IH]; [done|]. simpl.
  rewrite E1, E2, IH. done.
Qed.

Lemma get_edge_lookup es s d i :
  get_edge_from_list es s d = Some i →
  ∃ e, es !! i = Some e ∧ src_id e = s ∧ dst_id e = d.
Proof.
  intros (e & He & Hp & _)%find_index_Some. exists e.
  apply andb_true_iff in Hp as [?%Z.eqb_eq ?%Z.eqb_eq]. done.
Qed.

Lemma handle_heartbeat_ok st buf :
  inv st → (b = true → ls_message me nodes0 es0 buf) → read_type buf = Some CTRL_HEARTBEAT →
  post b (λ _ st', quiet 0 st st') (handle_heartbeat sys_socket sys_ret buf st).
Proof.
  intros Hinv Hk Hty. unfold handle_heartbeat. wp with Hty. simpl.
  destruct (read_src_id buf) as [src|] eqn:Hsrc.
  2:{ destruct b; [|done]. destruct Hk as (? & ? & ? & ? & ? & _); [done|congruence]. }
  wp with (eq_refl (Some src)). wp.
  unfold open_udp, next_call, add_fds, send_ctrl_to, close_udp, deref_node, reads.
  unfold mbind, prog_bind. simpl. destruct (_ <? 0); simpl; [done|].
  destruct (get_node_from_id (Node_List st) src) as [k|] eqn:Hg; simpl.
  - destruct (get_node_from_id_Some _ _ _ Hg) as (n & Hn & _). rewrite Hn. simpl.
    destruct (_ <? 0); simpl; (split; [done|simpl; lia]).
  - destruct b; [|done]. destruct Hk as (ty & s & d & Hty' & Hs' & _ & _ & Hh & _); [done|].
    rewrite Hsrc in Hs'. rewrite Hty in Hty'. simplify_eq.
    destruct Hh as [i Hi]; [done|].
    rewrite (get_node_from_id_ids _ (Node_List st)) in Hi; [congruence|].
    apply same_node_ids, Hinv.
Qed.

Lemma handle_heartbeat_echo_ok st buf :
  inv st → (b = true → ls_message me nodes0 es0 buf) → read_type buf = Some CTRL_HEARTBEAT_ECHO →
  post b (λ _ st', inv st' ∧ open_fds st' = open_fds st ∧ ∃ src i e,
      read_src_id buf = Some src ∧ get_edge_from_list es0 me src = Some i ∧
      Edge_List st' !! i = Some e ∧ outstanding_heartbeats e = 0)
    (handle_heartbeat_echo sys_socket sys_ret malloc_usable buf st).
Proof.
  intros Hinv Hk Hty. pose proof Hinv as [Hp _]. unfold handle_heartbeat_echo.
  wp with Hty. simpl.
  destruct (read_src_id buf) as [src|] eqn:Hsrc.
  2:{ destruct b; [|done]. destruct Hk as (? & ? & ? & ? & ? & _); [done|congruence]. }
  wp with (eq_refl (Some src)). wp. rewrite (lp_me _ _ _ _ _ Hp).
  rewrite (get_edge_same es0) by apply Hp.
  destruct (get_edge_from_list es0 me src) as [i|] eqn:Hi.
  2:{ destruct b; [|done].
      destruct Hk as (ty & s & d & Hty' & Hs' & _ & _ & _ & Hh & _); [done|].
      rewrite Hsrc in Hs'. rewrite Hty in Hty'. simplify_eq. destruct Hh; [done|congruence]. }
  wp with (eq_refl (Some i)).
  assert (∃ e, Edge_List st !! i = Some e) as [e He].
  { pose proof Hi as Hi'. rewrite <-(get_edge_same es0 (Edge_List st)) in Hi' by apply Hp.
    apply get_edge_lookup in Hi' as (e & He & _). eauto. }
  wp with He.
  (* the final write of 0 *)
  assert (∀ st1 e1, inv st1 → Edge_List st1 !! i = Some e1 →
    (outstanding_heartbeats e1 >? MAX_OUTSTANDING_HEARTBEATS) = false →
    open_fds st1 = open_fds st →
    post b (λ _ st', inv st' ∧ open_fds st' = open_fds st ∧ ∃ src0 i0 e0,
      Some src = Some src0 ∧ get_edge_from_list es0 me src0 = Some i0 ∧
      Edge_List st' !! i0 = Some e0 ∧ outstanding_heartbeats e0 = 0)
      (updates (λ st, es ← set_heartbeats i 0 (Edge_List st); Some (set_edges es st)) st1)) as Hend.
  { intros st1 e1 Hinv1 He1 Hb1 Hf1.
    destruct (set_beats_inv st1 i e1 0 Hinv1 He1) as (es1 & Hs1 & Hinv2 & Hes1); [lia|by rewrite Hb1|].
    unfold updates. rewrite Hs1. simpl. split_and!; [done|done|].
    eexists src, i, _. split_and!; [done|done| |].
    - rewrite Hes1. by rewrite list_lookup_insert_eq by by eapply lookup_lt_Some.
    - done. }
  apply post_bind.
  destruct (outstanding_heartbeats e >? MAX_OUTSTANDING_HEARTBEATS) eqn:Hdead.
  2:{ simpl. by eapply Hend. }
  destruct (set_heartbeats_ok (Edge_List st) i 0 e He) as (es1 & Hs1 & Hsame & Hes1).
  assert ((λ st, es ← set_heartbeats i 0 (Edge_List st); Some (set_edges es st)) st =
    Some (set_edges es1 st)) as E1 by (simpl; by rewrite Hs1).
  wp with E1. rewrite (lp_mode _ _ _ _ _ Hp). apply post_bind.
  assert (pre (set_edges es1 st)) as Hp1.
  { apply ls_pre_edges; [done..|]. rewrite Hes1. by eapply beats_insert. }
  eapply post_weaken; [by apply recalculate_routes_ok|].
  intros [] st2 (Hinv2 & HE2 & Hf2 & _ & _). simpl in HE2, Hf2.
  assert (i < length (Edge_List st2))%nat as Hlt.
  { rewrite HE2, Hes1, length_insert. by eapply lookup_lt_Some. }
  eapply post_weaken.
  { eapply (broadcast_lsa_quiet _ _ _ N me st2); [apply ls_net, Hinv2|done]. }
  intros [] st3 Hq3. pose proof (ls_inv_quiet _ _ _ Hinv2 Hq3) as Hinv3.
  destruct Hq3 as [Hc3 Hf3]. apply core_fields in Hc3 as (_ & _ & _ & _ & HE3 & _).
  apply (Hend st3 (mk_edge (src_id e) (dst_id e) (cost e) 0 (src_node e) (dst_node e)));
    [done| |done|lia].
  rewrite HE3, HE2, Hes1. by rewrite list_lookup_insert_eq by by eapply lookup_lt_Some.
Qed.

(** [handle_lsa] on a link it knows: afterwards its view of the link is the
    advertised one, and nothing at all happens if it already was. *)
Lemma handle_lsa_known st buf s d alive src t iv :
  inv st → read_type buf = Some CTRL_LSA → read_target_src_id buf = Some s →
  read_target_dst_id buf = Some d → read_alive buf = Some alive → read_src_id buf = Some src →
  get_edge_from_list (Edge_List st) s d = Some t →
  get_edge_from_list (Edge_List st) d s = Some iv →
  (link_alive (Edge_List st) t iv = Some alive ∧
     handle_lsa sys_socket sys_ret buf st = Ret tt st) ∨
  (link_alive (Edge_List st) t iv = Some (negb alive) ∧
     post b (λ _ st', inv st' ∧ open_fds st' = open_fds st ∧
              link_alive (Edge_List st') t iv = Some alive)
       (handle_lsa sys_socket sys_ret buf st)).
Proof using Hnet sys_ret sys_socket b.
  intros Hinv Hty Hs Hd Ha Hsrc Ht Hiv. pose proof Hinv as [Hp _].
  destruct (get_edge_lookup _ _ _ _ Ht) as (te & Hte & _).
  destruct (get_edge_lookup _ _ _ _ Hiv) as (ie & Hie & _).
  assert (∀ al, link_alive (Edge_List st) t iv = Some al →
    al = (outstanding_heartbeats te <=? MAX_OUTSTANDING_HEARTBEATS) ||
         (outstanding_heartbeats ie <=? MAX_OUTSTANDING_HEARTBEATS)) as Hla.
  { intros al. unfold link_alive. rewrite Hte. simpl. rewrite Hie. simpl. by intros [= <-]. }
  destruct (link_alive (Edge_List st) t iv) as [al|] eqn:Hal.
  2:{ unfold link_alive in Hal. rewrite Hte in Hal. simpl in Hal. by rewrite Hie in Hal. }
  specialize (Hla al eq_refl).
  destruct (decide (al = alive)) as [->|Hne]; [left|right].
  - split; [done|]. unfold handle_lsa, mbind, prog_bind, lift, reads, get.
    rewrite Hty. simpl. rewrite Hs, Hd, Ha, Hsrc. simpl. rewrite Ht, Hiv, Hte, Hie. simpl.
    rewrite <-Hla. by destruct alive.
  - split; [f_equal; by destruct al, alive|]. unfold handle_lsa.
    wp with Hty. simpl. wp with Hs. wp with Hd. wp with Ha. wp with Hsrc. wp. wp with Ht. wp with Hiv.
    wp with Hte. wp with Hie. rewrite <-Hla.
    set (h := if alive then 0 else MAX_OUTSTANDING_HEARTBEATS + 1).
    destruct (set_heartbeats_ok (Edge_List st) t h te Hte) as (es1 & Hs1 & Hsame1 & Hes1).
    assert (∃ ie1, es1 !! iv = Some ie1) as [ie1 Hie1].
    { apply lookup_lt_is_Some_2. rewrite Hes1, length_insert. by eapply lookup_lt_Some. }
    destruct (set_heartbeats_ok es1 iv h ie1 Hie1) as (es2 & Hs2 & Hsame2 & Hes2).
    assert (0 ≤ h) as Hh by (unfold h, MAX_OUTSTANDING_HEARTBEATS; destruct alive; lia).
    assert (pre (set_edges es1 st)) as Hp1.
    { apply ls_pre_edges; [done..|]. rewrite Hes1. by eapply beats_insert. }
    assert (pre (set_edges es2 st)) as Hp2.
    { apply ls_pre_edges; [done|by eapply same_edge_trans|].
      rewrite Hes2. by apply (beats_insert (set_edges es1 st)). }
    assert (link_alive es2 t iv = Some alive) as Hal2.
    { unfold link_alive. assert (∀ x, x = t ∨ x = iv → ∃ y, es2 !! x = Some y ∧
        outstanding_heartbeats y = h) as Hboth.
      { intros x Hx. destruct (decide (x = iv)) as [->|Hx'].
        - eexists. rewrite Hes2, list_lookup_insert_eq by by eapply lookup_lt_Some. done.
        - assert (x = t) as -> by (destruct Hx; congruence). eexists.
          rewrite Hes2, list_lookup_insert_ne, Hes1, list_lookup_insert_eq
            by (done || by eapply lookup_lt_Some). done. }
      destruct (Hboth t) as (y1 & -> & Hy1); [auto|].
      destruct (Hboth iv) as (y2 & -> & Hy2); [auto|]. simpl. rewrite Hy1, Hy2. unfold h.
      by destruct alive. }
    assert (post b (λ _ st', st' = set_edges es2 st)
      ((if alive && negb al
        then updates (λ st, es ← set_heartbeats t 0 (Edge_List st);
                            es' ← set_heartbeats iv 0 es; Some (set_edges es' st))
        else if negb alive && al
        then updates (λ st, es ← set_heartbeats t (MAX_OUTSTANDING_HEARTBEATS + 1) (Edge_List st);
                            es' ← set_heartbeats iv (MAX_OUTSTANDING_HEARTBEATS + 1) es;
                            Some (set_edges es' st))
        else mret tt) st)) as Hupd.
    { unfold updates. destruct alive, al; try done; simpl; unfold h in Hs1, Hs2;
        by rewrite Hs1; simpl; rewrite Hs2. }
    apply post_bind. eapply post_weaken; [exact Hupd|]. intros [] st1 ->.
    replace ((alive && negb al) || (negb alive && al)) with true by by destruct alive, al.
    apply post_bind. eapply post_weaken; [by apply recalculate_routes_ok|].
    intros [] st2 (Hinv2 & HE2 & Hf2 & _ & _). simpl in HE2, Hf2.
    eapply post_weaken.
    { eapply (forward_lsa_quiet _ _ _ N me st2); [apply ls_net, Hinv2|].
      rewrite HE2, <-(Forall2_length _ _ _ Hsame2), <-(Forall2_length _ _ _ Hsame1).
      by eapply lookup_lt_Some. }
    intros [] st3 Hq3. pose proof (ls_inv_quiet _ _ _ Hinv2 Hq3) as Hinv3.
    destruct Hq3 as [Hc3 Hf3]. apply core_fields in Hc3 as (_ & _ & _ & _ & HE3 & _).
    split_and!; [done|lia|]. by rewrite HE3, HE2.
Qed.

Lemma handle_lsa_ok st buf :
  inv st → (b = true → ls_message me nodes0 es0 buf) → read_type buf = Some CTRL_LSA →
  post b (λ _ st', inv st' ∧ open_fds st' = open_fds st) (handle_lsa sys_socket sys_ret buf st).
Proof.
  intros Hinv Hk Hty.
  destruct b eqn:Hb.
  - destruct Hk as (ty & src & d & Hty' & Hs' & _ & _ & _ & _ & Hl); [done|].
    destruct Hl as (s & d' & a & Hs & Hd & Ha & [t Ht] & [iv Hiv]); [congruence|].
    rewrite <-(get_edge_same es0 (Edge_List st)) in Ht, Hiv by apply Hinv.
    destruct (handle_lsa_known st buf s d' a src t iv) as [[_ ->]|[_ H]]; try done.
    rewrite Hb in H. eapply post_weaken; [exact H|]. by intros _ st' (? & ? & _).
  - destruct (read_target_src_id buf) as [s|] eqn:Hs, (read_target_dst_id buf) as [d|] eqn:Hd,
      (read_alive buf) as [a|] eqn:Ha, (read_src_id buf) as [src|] eqn:Hsrc;
      try (unfold handle_lsa, mbind, prog_bind, lift, get; rewrite Hty; simpl;
           rewrite ?Hs, ?Hd, ?Ha, ?Hsrc; done).
    destruct (get_edge_from_list (Edge_List st) s d) as [t|] eqn:Ht,
      (get_edge_from_list (Edge_List st) d s) as [iv|] eqn:Hiv;
      try (unfold handle_lsa, mbind, prog_bind, lift, get; rewrite Hty; simpl;
           rewrite ?Hs, ?Hd, ?Ha, ?Hsrc; simpl; rewrite ?Ht, ?Hiv; done).
    destruct (handle_lsa_known st buf s d a src t iv) as [[_ ->]|[_ H]]; try done.
    rewrite Hb in H. eapply post_weaken; [exact H|]. by intros _ st' (? & ? & _).
Qed.

(** Every control datagram, whatever its bytes. *)
Lemma handle_overlay_ctrl_ok st stack d :
  inv st → (b = true → ls_message me nodes0 es0 (recv_ctrl stack d)) →
  post b (λ _ st', inv st' ∧ open_fds st' = open_fds st)
    (handle_overlay_ctrl sys_socket sys_ret malloc_usable stack (Some d) st).
Proof.
  intros Hinv Hk. unfold handle_overlay_ctrl. set (buf := recv_ctrl stack d) in *.
  destruct (read_dst_id buf) as [dst|] eqn:Hdst.
  2:{ destruct b; [|done]. destruct Hk as (? & ? & ? & _ & _ & ? & _); [done|congruence]. }
  wp with (eq_refl (Some dst)).
  destruct (read_type buf) as [ty|] eqn:Hty.
  2:{ destruct b; [|done]. destruct Hk as (? & ? & ? & ? & _); [done|congruence]. }
  wp with (eq_refl (Some ty)).
  destruct (Z.eqb_spec ty CTRL_HEARTBEAT) as [->|]; [|destruct (Z.eqb_spec ty CTRL_HEARTBEAT_ECHO) as [->|];
    [|destruct (Z.eqb_spec ty CTRL_LSA) as [->|]; [|destruct (Z.eqb_spec ty CTRL_DV) as [->|]]]].
  - eapply post_weaken; [by apply handle_heartbeat_ok|].
    intros [] st1 Hq. split; [by eapply ls_inv_quiet|]. destruct Hq as [_ Hf]. lia.
  - eapply post_weaken; [by apply handle_heartbeat_echo_ok|]. by intros _ st' (? & ? & _).
  - by apply handle_lsa_ok.
  - destruct b eqn:Hb.
    { destruct Hk as (ty & ? & ? & Hty' & _ & _ & Hne & _); [done|]. congruence. }
    unfold handle_dv. wp with Hty. simpl.
    destruct (read_num_nodes buf); [|done]. wp with (eq_refl (Some z)).
    destruct (for_up _ _ _ _); [|done]. wp with (eq_refl (Some u)).
    destruct (read_src_id buf) as [src|]; [|done]. wp with (eq_refl (Some src)).
    (* without a vector table the lookup of the sender's row is out of bounds *)
    apply post_bind. unfold reads. rewrite (lp_dv _ _ _ _ _ (li_pre _ _ _ _ _ Hinv)). done.
  - split; done.
Qed.
End ls_mode.

(** ** The node as a transition system *)

Section steps.
Context (sys_socket : nat → Z → Z) (sys_ret : nat → Z) (malloc_usable : Z → Z).

(** One turn of [E_handle_events] on the overlay side: a control datagram
    arrives, or the heartbeat timer fires. *)
Inductive overlay_step : ostate → ostate → Prop :=
| step_ctrl stack d st st' :
    handle_overlay_ctrl sys_socket sys_ret malloc_usable stack d st = Ret tt st' →
    overlay_step st st'
| step_timer st st' :
    send_heartbeats sys_socket sys_ret malloc_usable st = Ret tt st' →
    overlay_step st st'.

Lemma ls_inv_preserved N me nodes0 es0 :
  network_wf N me nodes0 es0 → preserves overlay_step (ls_inv N me nodes0 es0).
Proof.
  intros Hnet st st' Hstep Hinv. destruct Hstep as [stack [d|] st st' E|st st' E]; [|done|].
  - pose proof (handle_overlay_ctrl_ok sys_socket sys_ret malloc_usable false N me nodes0 es0 Hnet
      st stack d Hinv ltac:(done)) as H. rewrite E in H. apply H.
  - pose proof (send_heartbeats_ok sys_socket sys_ret malloc_usable false N me nodes0 es0 Hnet
      st Hinv) as H. rewrite E in H. apply H.
Qed.
End steps.

(** ** Properties *)

(** A message that a peer of this network can send is handled without
    undefined behaviour: the handler returns or the process exits because no
    socket could be opened, no descriptor is leaked, and the routes are those
    of the new view of the links. *)
Theorem ls_mode_safe sys_socket sys_ret malloc_usable N me nodes0 es0 st stack d :
  network_wf N me nodes0 es0 → ls_inv N me nodes0 es0 st →
  ls_message me nodes0 es0 (recv_ctrl stack d) →
  match handle_overlay_ctrl sys_socket sys_ret malloc_usable stack (Some d) st with
  | Ret _ st' => ls_inv N me nodes0 es0 st' ∧ open_fds st' = open_fds st
  | Exited _ _ => True
  | Undef | Fuel => False
  end.
Proof.
  intros Hnet Hinv Hk.
  pose proof (handle_overlay_ctrl_ok sys_socket sys_ret malloc_usable true N me nodes0 es0 Hnet
    st stack d Hinv (λ _, Hk)) as H.
  by destruct (handle_overlay_ctrl _ _ _ _ _ _).
Qed.

(** The heartbeat timer.  [send_heartbeats] moves the counter of every
    adjacent link one step (0..9 count up, 10 and 11 go to 12, where a dead
    link stays, and is dead once) and leaves every other link, keeps the routes
    right, and leaks one socket per adjacent link. *)
Theorem heartbeat_timer sys_socket sys_ret malloc_usable N me nodes0 es0 st :
  network_wf N me nodes0 es0 → ls_inv N me nodes0 es0 st →
  match send_heartbeats sys_socket sys_ret malloc_usable st with
  | Ret _ st' => ls_inv N me nodes0 es0 st' ∧ Edge_List st' = tick_edge me <$> Edge_List st ∧
      open_fds st' = open_fds st + Z.of_nat (length (adjacent_edges me (Edge_List st)))
  | Exited _ _ => True
  | Undef | Fuel => False
  end.
Proof.
  intros Hnet Hinv.
  pose proof (send_heartbeats_ok sys_socket sys_ret malloc_usable true N me nodes0 es0 Hnet st Hinv) as H.
  by destruct (send_heartbeats _ _ _ _).
Qed.

(** C37: flooding stops.  Once a node has handled an advertisement for a link
    both of whose directions it knows, its view of the link is the advertised
    one, and handling the same advertisement again changes nothing and sends
    nothing at all. *)
Theorem lsa_flood_stops sys_socket sys_ret N me nodes0 es0 st st' buf s d alive src t iv :
  network_wf N me nodes0 es0 → ls_inv N me nodes0 es0 st →
  read_type buf = Some CTRL_LSA → read_target_src_id buf = Some s →
  read_target_dst_id buf = Some d → read_alive buf = Some alive → read_src_id buf = Some src →
  get_edge_from_list es0 s d = Some t → get_edge_from_list es0 d s = Some iv →
  handle_lsa sys_socket sys_ret buf st = Ret tt st' →
  link_alive (Edge_List st') t iv = Some alive ∧
  handle_lsa sys_socket sys_ret buf st' = Ret tt st'.
Proof.
  intros Hnet Hinv Hty Hs Hd Ha Hsrc Ht Hiv E.
  assert (∀ st1, ls_inv N me nodes0 es0 st1 →
    get_edge_from_list (Edge_List st1) s d = Some t ∧
    get_edge_from_list (Edge_List st1) d s = Some iv) as Hget.
  { intros st1 [H1 _]. rewrite !(get_edge_same es0 (Edge_List st1)) by apply H1. done. }
  destruct (Hget st Hinv) as [Ht0 Hiv0].
  assert (ls_inv N me nodes0 es0 st' ∧ link_alive (Edge_List st') t iv = Some alive)
    as [Hinv' Hal].
  { destruct (handle_lsa_known sys_socket sys_ret true N me nodes0 es0 Hnet
      st buf s d alive src t iv) as [[Hal E']|[_ H]]; try done.
    - rewrite E in E'. by injection E' as ->.
    - rewrite E in H. simpl in H. split; apply H. }
  split; [done|]. destruct (Hget st' Hinv') as [Ht1 Hiv1].
  destruct (handle_lsa_known sys_socket sys_ret true N me nodes0 es0 Hnet
    st' buf s d alive src t iv) as [[_ E']|[Hc _]]; try done.
  rewrite Hal in Hc. by destruct alive.
Qed.

(** ** Witnesses: node 1 of a triangle, as [main] leaves it *)

Definition demo_link (s d c : Z) : edge :=
  mk_edge s d c 0 (get_node_from_id demo_nodes s) (get_node_from_id demo_nodes d).
Definition demo_links : edge_list :=
  [demo_link 1 2 1; demo_link 2 1 1; demo_link 1 3 10; demo_link 3 1 10;
   demo_link 2 3 2; demo_link 3 2 2].
Definition demo_start : ostate :=
  mk_ostate 1 MODE_LINK_STATE (mk_client_list ∅ []) demo_nodes demo_links demo_ls
    (mk_dv [] 0 0) 0 3 [].
Definition demo_state : ostate :=
  match recalculate_routes demo_start with Ret _ st => st | _ => demo_start end.
Definition demo_sock (k : nat) (fds : Z) : Z := if fds <? 16 then fds else -1.
(** Node 3 announces that the link 2-3 is dead. *)
Definition demo_lsa : list Z := pkt_bytes [] (LsaPkt (mk_hdr CTRL_LSA 3 1) 2 3 false).

Lemma demo_network : network_wf 4 1 demo_nodes demo_links.
Proof.
  constructor; [lia|lia|apply demo_nodes_wf| | |].
  - intros e He. unfold demo_links in He. elem_cases He; simpl; lia.
  - exists 10. split_and!; [lia|unfold INFINITY; lia|].
    intros e He. unfold demo_links in He. elem_cases He; simpl; lia.
  - intros e He. unfold demo_links in He. elem_cases He; done.
Qed.

Lemma demo_pre : ls_pre 4 1 demo_nodes demo_links demo_start.
Proof.
  constructor; [reflexivity|reflexivity| |apply same_edge_refl|apply demo_arrays| |reflexivity].
  - apply Forall_Forall2_diag, Forall_true. by intros.
  - intros e He. unfold demo_start, demo_links in He. elem_cases He; done.
Qed.

Lemma demo_inv : ls_inv 4 1 demo_nodes demo_links demo_state.
Proof.
  pose proof (recalculate_routes_ok true 4 1 demo_nodes demo_links demo_network demo_start demo_pre) as H.
  assert (∃ st', recalculate_routes demo_start = Ret tt st') as [st' E].
  { eexists. vm_compute. reflexivity. }
  unfold demo_state. rewrite E in H |- *. exact (proj1 H).
Qed.

Lemma demo_lsa_message : ls_message 1 demo_nodes demo_links (recv_ctrl (replicate 21 0) demo_lsa).
Proof.
  exists CTRL_LSA, 3, 1. split_and!; try done. intros _. exists 2, 3, false.
  split_and!; try done; vm_compute; eauto.
Qed.

Lemma ls_mode_safe_witness :
  match handle_overlay_ctrl demo_sock (λ _, 0) id (replicate 21 0) (Some demo_lsa) demo_state with
  | Ret _ st' => ls_inv 4 1 demo_nodes demo_links st' ∧ open_fds st' = open_fds demo_state
  | Exited _ _ => True
  | Undef | Fuel => False
  end.
Proof.
  apply (ls_mode_safe demo_sock (λ _, 0) id 4 1 demo_nodes demo_links demo_state);
    [apply demo_network|apply demo_inv|apply demo_lsa_message].
Defined.

Lemma heartbeat_timer_witness :
  match send_heartbeats demo_sock (λ _, 0) id demo_state with
  | Ret _ st' => ls_inv 4 1 demo_nodes demo_links st' ∧
      Edge_List st' = tick_edge 1 <$> Edge_List demo_state ∧
      open_fds st' = open_fds demo_state + Z.of_nat (length (adjacent_edges 1 (Edge_List demo_state)))
  | Exited _ _ => True
  | Undef | Fuel => False
  end.
Proof.
  apply (heartbeat_timer demo_sock (λ _, 0) id 4 1 demo_nodes demo_links demo_state);
    [apply demo_network|apply demo_inv].
Defined.

Lemma lsa_flood_stops_witness :
  let st' := match handle_lsa demo_sock (λ _, 0) demo_lsa demo_state with
             | Ret _ st => st | _ => demo_state end in
  link_alive (Edge_List st') 4 5 = Some false ∧
  handle_lsa demo_sock (λ _, 0) demo_lsa st' = Ret tt st'.
Proof.
  cbv zeta.
  apply (lsa_flood_stops demo_sock (λ _, 0) 4 1 demo_nodes demo_links demo_state _ demo_lsa 2 3 false 3);
    [apply demo_network|apply demo_inv|vm_compute; reflexivity..].
Defined.
