(* ===== verification/OverlayClients.v ===== *)
(** * Data packets and client connections of the overlay node

    The data plane and the client side of
    CS1652/project3/proj3-code/overlay_node.c: [forward_data],
    [deliver_locally] and the handlers of overlay data, client data, client
    control messages and client connections.  A client record is shared by
    pointer between the client table and the event system, so the handlers
    take a location of the client heap. *)
From S2P Require Import Prelude OverlayLists LinkState DistVec Bytes Packets OverlayNode.
Open Scope Z_scope.

Definition set_path (p : data_pkt) (path_len : Z) (path : list Z) : data_pkt :=
  mk_data_pkt (d_dst_id p) (d_src_id p) (d_dst_port p) (d_src_port p) (d_data_len p)
    path_len path (d_payload p).
(** [pkt.hdr.src_id = id; pkt.hdr.src_port = port] *)
Definition set_source (p : data_pkt) (id port : Z) : data_pkt :=
  mk_data_pkt (d_dst_id p) id (d_dst_port p) port (d_data_len p)
    (d_path_len p) (d_path p) (d_payload p).

(** [path[path_len] = My_ID; path_len++], for an index that is an [int] in
    [deliver_locally] and a [uint32_t] in [forward_data]; the ids on the path
    are [uint8_t]. *)
Definition stamp (index my_id : Z) (p : data_pkt) : option data_pkt :=
  if index <? MAX_PATH
  then path ← aset (d_path p) index (u8 my_id);
       Some (set_path p (u32 (d_path_len p + 1)) path)
  else Some p.

(** [int bytes = sizeof(struct data_pkt) - MAX_PAYLOAD_SIZE + data_len] *)
Definition data_len_bytes (p : data_pkt) : Z := i32 (data_send_len p).

Section handlers.
Context (sys_socket : nat → Z → Z) (sys_ret : nat → Z).
(** [recv(sock, p, len)] on a stream: its result and the bytes it stored;
    [send(sock, p, len)]: its result. *)
Context (sys_recv : nat → Z → Z * list Z) (sys_send : nat → Z → Z).
Context (calloc : gmap loc client_conn → option loc).

(** [forward_data] *)
Definition forward_data (pkt : data_pkt) : prog ostate unit :=
  st ← get;
  match get_node_from_id (Node_List st) (d_dst_id pkt) with
  | None => mret tt
  | Some i =>
      dst_node ← deref_node (Some i);
      match next_hop dst_node with
      | None => mret tt
      | Some h =>
          forward_node ← deref_node (Some h);
          pkt' ← lift (stamp (d_path_len pkt) (My_ID st) pkt);
          _ ← open_udp sys_socket;
          k ← next_call;
          (if sys_ret k <? 0 then mret tt
           else emit (SendData (node_addr forward_node) pkt' (data_len_bytes pkt')));;
          close_udp
      end
  end.

(** Writing the fields of a client record through its pointer. *)
Definition set_client (l : loc) (c : client_conn) : prog ostate unit :=
  modify (λ st, set_clients (mk_client_list (<[l := c]> (cl_heap (Client_List st)))
                               (clients (Client_List st))) st).

Definition deref_client (l : loc) : prog ostate client_conn :=
  reads (λ st, cl_heap (Client_List st) !! l).

(** [close]: closing [-1] fails and changes nothing. *)
Definition fd_effect (e : fd_event) : prog ostate unit :=
  emit (FdEvent e);;
  match e with
  | Close fd => if fd <? 0 then mret tt else add_fds (-1)
  | Detach _ => mret tt
  end.

(** [remove_client_with_sock(&Client_List, sock)] *)
Definition remove_client (sock : Z) : prog ostate unit :=
  '(_, cl, evs) ← reads (λ st, remove_client_with_sock (Client_List st) sock);
  modify (set_clients cl);;
  for_each evs fd_effect.

(** [deliver_locally] *)
Definition deliver_locally (pkt : data_pkt) : prog ostate unit :=
  r ← reads (λ st, get_client_from_port (Client_List st) (d_dst_port pkt));
  match r with
  | None => mret tt
  | Some l =>
      c ← deref_client l;
      st ← get;
      pkt' ← lift (stamp (i32 (d_path_len pkt)) (My_ID st) pkt);
      k ← next_call;
      if sys_ret k <? 0 then remove_client (control_sock c)
      else emit (SendClient (data_sock c) (data_remote_addr c) pkt' (data_len_bytes pkt'))
  end.

(** The common end of the two data handlers: the debug copy of the payload
    into [char tmp_payload[MAX_PAYLOAD_SIZE+1]], then delivery or forwarding. *)
Definition copy_payload (pkt : data_pkt) : prog ostate unit :=
  if d_data_len pkt <=? MAX_PAYLOAD_SIZE then mret tt else undef.

Definition route_data (pkt : data_pkt) : prog ostate unit :=
  st ← get;
  if d_dst_id pkt =? My_ID st then deliver_locally pkt else forward_data pkt.

(** [handle_overlay_data]: [stack] is what [pkt] held before [recvfrom], and
    [None] a failed [recvfrom]. *)
Definition handle_overlay_data (stack : list Z) (dgram : option (list Z)) : prog ostate unit :=
  match dgram with
  | None => exit_with 0
  | Some d =>
      pkt ← lift (read_data_pkt (recv_data stack d));
      if d_data_len pkt >? 0
      then copy_payload pkt;; route_data pkt
      else mret tt
  end.

(** [handle_client_data]: the datagram comes with its source address. *)
Definition handle_client_data (sock : Z) (data : loc) (stack : list Z)
    (dgram : option (list Z * sockaddr_in)) : prog ostate unit :=
  c ← deref_client data;
  if negb (sock =? data_sock c) then exit_with 0
  else
    match dgram with
    | None => remove_client (control_sock c)
    | Some (d, recv_addr) =>
        pkt ← lift (read_data_pkt (recv_data stack d));
        let bytes := Z.min (Z.of_nat (length d)) sizeof_data_pkt in
        echoed ← (if data_remote_port c =? 0
          then
            set_client data (mk_client (control_sock c) (data_sock c) (data_local_port c)
                               (sin_port recv_addr) recv_addr);;
            k ← next_call;
            if sys_ret k <? 0 then remove_client (control_sock c);; mret false
            else emit (SendClient (data_sock c) recv_addr pkt bytes);; mret true
          else mret true);
        if (echoed : bool) && (d_data_len pkt >? 0)
        then
          copy_payload pkt;;
          st ← get;
          c' ← deref_client data;
          route_data (set_source pkt (My_ID st) (data_local_port c'))
        else mret tt
    end.

(** [while (bytes_read < 2 && (ret = recv(...)) > 0) bytes_read += ret]: the
    last [ret] and the bytes of [rcv_req] read so far. *)
Fixpoint recv_loop (fuel : nat) (ret : Z) (buf : list Z) : prog ostate (Z * list Z) :=
  match fuel with
  | O => λ _, Fuel
  | S fuel' =>
      if Z.of_nat (length buf) <? 2
      then
        k ← next_call;
        let '(r, bs) := sys_recv k (2 - Z.of_nat (length buf)) in
        if r >? 0 then recv_loop fuel' r (buf ++ take (Z.to_nat r) bs) else mret (r, buf)
      else mret (ret, buf)
  end.

(** [while (bytes_sent < sizeof(ack)) bytes_sent += send(...)]: whether every
    byte of [ack] was sent. *)
Fixpoint send_loop (fuel : nat) (sock : Z) (ack : list Z) (sent : Z) : prog ostate bool :=
  match fuel with
  | O => λ _, Fuel
  | S fuel' =>
      if sent <? Z.of_nat (length ack)
      then
        k ← next_call;
        let ret := sys_send k (Z.of_nat (length ack) - sent) in
        if ret <? 0 then mret false
        else
          emit (SendStream sock (take (Z.to_nat ret) (drop (Z.to_nat sent) ack)));;
          send_loop fuel' sock ack (sent + ret)
      else mret true
  end.

(** The UDP socket of a client: [socket], [bind], [E_attach_fd]. *)
Definition open_client_sock (data : loc) (c : client_conn) : prog ostate bool :=
  k ← next_call;
  st ← get;
  let s := sys_socket k (open_fds st) in
  set_client data (mk_client (control_sock c) s (data_local_port c) (data_remote_port c)
                     (data_remote_addr c));;
  if s <? 0 then mret false
  else
    add_fds 1;;
    kb ← next_call;
    if sys_ret kb <? 0 then mret false
    else
      ka ← next_call;
      if sys_ret ka <? 0 then mret false
      else emit (AttachClient s data);; mret true.

(** [handle_client_ctrl_msg]: [fuel] bounds the [send] loop, [recv] needs two
    rounds and the exit test. *)
Definition handle_client_ctrl_msg (fuel : nat) (sock : Z) (data : loc) : prog ostate unit :=
  c ← deref_client data;
  if negb (sock =? control_sock c) then exit_with 0
  else
    '(ret, req) ← recv_loop 3 (-1) [];
    if ret <=? 0 then remove_client sock
    else if negb (data_local_port c =? 0) then remove_client sock
    else
      ok ← open_client_sock data c;
      port ← lift (get_u16 req 0);
      st ← get;
      c' ← deref_client data;
      (if (ok : bool)
       then set_client data (mk_client (control_sock c') (data_sock c') port
                               (data_remote_port c') (data_remote_addr c'))
       else mret tt);;
      all ← send_loop fuel sock (le32 (if ok then My_ID st else 0)) 0;
      if ok && (all : bool) then mret tt else remove_client sock.

(** [handle_client_conn]: [junk_addr] is the address field of the new record,
    which is not initialised. *)
Definition handle_client_conn (junk_addr : sockaddr_in) : prog ostate unit :=
  k ← next_call;
  let conn_sock := sys_ret k in
  if conn_sock <? 0 then mret tt
  else
    add_fds 1;;
    '(r, cl) ← reads (λ st, add_client_to_list calloc (Client_List st)
                              (mk_client conn_sock (-1) 0 0 junk_addr));
    modify (set_clients cl);;
    match r with
    | None => fd_effect (Close conn_sock)
    | Some l =>
        ka ← next_call;
        if sys_ret ka <? 0 then fd_effect (Close conn_sock)
        else emit (AttachClient conn_sock l)
    end.
End handlers.

(** ** Specification *)

(** What the client side and the data plane may not touch. *)
Definition routing (st : ostate) :=
  (My_ID st, Route_Mode st, Node_List st, Edge_List st, Link_State st, Dist_Vec st).
Definition client_inv r (st : ostate) : Prop :=
  routing st = r ∧ client_wf (Client_List st).
(** The record behind [l] is in the table as well. *)
Definition client_live r (l : loc) (st : ostate) : Prop :=
  client_inv r st ∧ is_Some (cl_heap (Client_List st) !! l).

(** An assertion about the tables only: system calls keep it. *)
Class IoStable (I : ostate → Prop) : Prop :=
  io_stable st k fds tr : I st → I (set_io k fds tr st).

#[export] Instance client_inv_io r : IoStable (client_inv r).
Proof. by intros st k fds tr. Qed.
#[export] Instance client_live_io r l : IoStable (client_live r l).
Proof. by intros st k fds tr. Qed.

#[export] Hint Extern 1 (IoStable _) => apply _ : frame.

(** ** System calls keep every such assertion *)

Section io.
Context (sys_socket : nat → Z → Z) (sys_ret : nat → Z).
Context (sys_recv : nat → Z → Z * list Z) (sys_send : nat → Z → Z).
Context (I : ostate → Prop) `{!IoStable I}.

Lemma keeps_emit ev : keeps I (emit ev).
Proof. apply keeps_modify. intros. by apply io_stable. Qed.
Lemma keeps_add_fds d : keeps I (add_fds d).
Proof. apply keeps_modify. intros. by apply io_stable. Qed.
Lemma keeps_next_call : keeps I next_call.
Proof. intros st Hst. by apply io_stable. Qed.
Lemma keeps_deref_node p : keeps I (deref_node p).
Proof. apply keeps_reads. Qed.
Lemma keeps_deref_client l : keeps I (deref_client l).
Proof. apply keeps_reads. Qed.
#[local] Hint Resolve keeps_emit keeps_add_fds keeps_next_call keeps_deref_node
  keeps_deref_client : frame.

Lemma keeps_open_udp : keeps I (open_udp sys_socket).
Proof. unfold open_udp. keep. Qed.
Lemma keeps_fd_effect e : keeps I (fd_effect e).
Proof. unfold fd_effect. keep. Qed.
Lemma keeps_recv_loop fuel ret buf : keeps I (recv_loop sys_recv fuel ret buf).
Proof.
  revert ret buf. induction fuel as [|fuel IH]; intros ret buf; simpl; keep.
Qed.
Lemma keeps_send_loop fuel sock ack sent : keeps I (send_loop sys_send fuel sock ack sent).
Proof. revert sent. induction fuel as [|fuel IH]; intros sent; simpl; keep. Qed.
#[local] Hint Resolve keeps_open_udp : frame.
Lemma keeps_forward_data pkt : keeps I (forward_data sys_socket sys_ret pkt).
Proof. unfold forward_data, close_udp. keep. Qed.
End io.

#[export] Hint Resolve keeps_emit keeps_add_fds keeps_next_call keeps_deref_node
  keeps_deref_client keeps_open_udp keeps_fd_effect keeps_recv_loop keeps_send_loop
  keeps_forward_data : frame.

(** ** The client table in every handler *)

Section invariant.
Context (sys_socket : nat → Z → Z) (sys_ret : nat → Z).
Context (sys_recv : nat → Z → Z * list Z) (sys_send : nat → Z → Z).
Context (calloc : gmap loc client_conn → option loc).
Context (Hcalloc : ∀ h l, calloc h = Some l → h !! l = None).
Context (r : Z * mode * node_list * edge_list * link_state * dv).
Notation inv := (client_inv r).
Notation live := (client_live r).

Lemma keeps_remove_client sock : keeps inv (remove_client sock).
Proof.
  intros st [Hr Hwf]. unfold remove_client.
  destruct (remove_client_ok (Client_List st) sock Hwf) as [[E _]|(l & c & cl & E & _ & _ & _ & Hwf' & _)];
    wp with E; wp;
    (apply (keeps_for_each inv); [intros; by apply keeps_fd_effect, _|by split]).
Qed.
#[local] Hint Resolve keeps_remove_client : frame.

(** Writing a live record keeps the table well formed and the record live. *)
Lemma client_wf_update cl l c :
  client_wf cl → is_Some (cl_heap cl !! l) →
  client_wf (mk_client_list (<[l := c]> (cl_heap cl)) (clients cl)).
Proof.
  intros [H1 H2 H3] Hl. constructor; simpl; [done| |done].
  intros x. rewrite H2, lookup_insert_is_Some. destruct (decide (l = x)); naive_solver.
Qed.

Lemma keeps_set_client l c : keeps (live l) (set_client l c).
Proof.
  apply keeps_modify. intros st [[Hr Hwf] Hl]. split; [split; [done|]|].
  - by apply client_wf_update.
  - simpl. by rewrite lookup_insert_eq.
Qed.
#[local] Hint Resolve keeps_set_client : frame.

Lemma keeps_open_client_sock l c : keeps (live l) (open_client_sock sys_socket sys_ret l c).
Proof. unfold open_client_sock. keep. Qed.
#[local] Hint Resolve keeps_open_client_sock : frame.

(** From a handler that starts by dereferencing its client. *)
Lemma keeps_with_client {A} l (k : client_conn → prog ostate A) :
  (∀ c, hoare false (live l) (k c) (λ _, inv)) → keeps inv (c ← deref_client l; k c).
Proof.
  intros H st Hst. unfold deref_client. apply post_bind. unfold reads.
  destruct (cl_heap (Client_List st) !! l) as [c|] eqn:Hl; [|done]. apply H. split; [done|eauto].
Qed.

Lemma live_bind {A B} l (m : prog ostate A) (k : A → prog ostate B) :
  keeps (live l) m → (∀ a, hoare false (live l) (k a) (λ _, inv)) →
  hoare false (live l) (m ≫= k) (λ _, inv).
Proof. intros Hm Hk. by apply (hoare_bind _ _ _ _ (λ _, live l)). Qed.

Lemma live_weaken {A} l (m : prog ostate A) : keeps inv m → hoare false (live l) m (λ _, inv).
Proof. intros H. eapply hoare_weaken; [exact H| |done]. by intros s [? _]. Qed.

Lemma keeps_hoare {A} J (m : prog ostate A) : keeps J m → hoare false J m (λ _, J).
Proof. done. Qed.

Lemma keeps_deliver pkt : keeps inv (deliver_locally sys_ret pkt).
Proof. unfold deliver_locally. keep. Qed.
Lemma keeps_copy_payload pkt : keeps inv (copy_payload pkt).
Proof. unfold copy_payload. keep. Qed.
#[local] Hint Resolve keeps_deliver keeps_copy_payload : frame.
Lemma keeps_route_data pkt : keeps inv (route_data sys_socket sys_ret pkt).
Proof. unfold route_data. keep. Qed.
#[local] Hint Resolve keeps_route_data : frame.

Lemma keeps_overlay_data stack d : keeps inv (handle_overlay_data sys_socket sys_ret stack d).
Proof. unfold handle_overlay_data. keep. Qed.

Lemma keeps_client_data sock data stack d :
  keeps inv (handle_client_data sys_socket sys_ret sock data stack d).
Proof.
  unfold handle_client_data. apply keeps_with_client. intros c.
  destruct (negb _); [apply live_weaken; keep|].
  destruct d as [[d addr]|]; [|apply live_weaken; keep].
  apply live_bind; [keep|intros pkt].
  destruct (data_remote_port c =? 0).
  - eapply (hoare_bind _ _ _ _ (λ _, inv)).
    + apply live_bind; [keep|intros _]. apply live_weaken. keep.
    + intros echoed. apply (keeps_hoare inv). keep.
  - eapply (hoare_bind _ _ _ _ (λ _, inv)); [by apply hoare_ret; intros st [? _]|].
    intros echoed. apply (keeps_hoare inv). keep.
Qed.

Lemma keeps_client_ctrl_msg fuel sock data :
  keeps inv (handle_client_ctrl_msg sys_socket sys_ret sys_recv sys_send fuel sock data).
Proof.
  unfold handle_client_ctrl_msg. apply keeps_with_client. intros c.
  destruct (negb _); [apply live_weaken; keep|].
  apply live_bind; [keep|intros [ret req]].
  destruct (ret <=? 0); [apply live_weaken; keep|].
  destruct (negb _); [apply live_weaken; keep|].
  apply live_bind; [keep|intros ok]. apply live_bind; [keep|intros port].
  apply live_bind; [keep|intros st]. apply live_bind; [keep|intros c'].
  apply live_bind; [keep|intros []]. apply live_weaken. keep.
Qed.

Lemma keeps_client_conn junk : keeps inv (handle_client_conn sys_ret calloc junk).
Proof.
  unfold handle_client_conn. apply keeps_bind; [keep|intros k].
  destruct (_ <? 0); [keep|]. apply keeps_bind; [keep|intros []].
  intros st [Hr Hwf]. apply post_bind. unfold reads.
  destruct (add_client_to_list _ _ _) as [[o cl]|] eqn:E; [|done].
  assert (client_wf cl) as Hwf'.
  { destruct (calloc (cl_heap (Client_List st))) as [l|] eqn:Hl.
    - destruct (add_client_ok calloc (Client_List st) (mk_client (sys_ret k) (-1) 0 0 junk))
        as (o' & cl' & E' & Hwf' & _); [done..| |congruence].
      by exists l.
    - unfold add_client_to_list in E. case_decide; [by simplify_eq|]. by rewrite Hl in E. }
  wp. assert (∀ m : prog ostate (), keeps inv m → post false (λ _, inv) (m (set_clients cl st))) as Hgo.
  { intros m Hm. by apply Hm. }
  apply Hgo. keep.
Qed.
End invariant.

(** ** The whole node *)

(** The overlay side never touches the client table. *)
Section overlay_clients.
Context (sys_socket : nat → Z → Z) (sys_ret : nat → Z) (malloc_usable : Z → Z).
Context (cl : client_list).
Notation I := (λ st, Client_List st = cl).

#[local] Instance clients_io : IoStable I.
Proof. by intros st k fds tr. Qed.

Lemma keeps_table f : (∀ st st', f st = Some st' → Client_List st' = Client_List st) → keeps I (updates f).
Proof. intros H. apply keeps_updates. intros st st' <- E. by apply H. Qed.

Lemma keeps_counters (g : edge_list → option edge_list) :
  keeps I (updates (λ st, es ← g (Edge_List st); Some (set_edges es st))).
Proof. apply keeps_table. intros st st' E. by inv_opt; subst. Qed.

Lemma keeps_counters2 (g g' : edge_list → option edge_list) :
  keeps I (updates (λ st, es ← g (Edge_List st); es' ← g' es; Some (set_edges es' st))).
Proof. apply keeps_table. intros st st' E. by inv_opt; subst. Qed.

Lemma keeps_recalculate : keeps I recalculate_routes.
Proof.
  apply keeps_table. intros st st' E. inv_opt. destruct p as [ls nodes]. by simplify_eq.
Qed.
Lemma keeps_calc_dv : keeps I (calc_distance_vector sys_socket sys_ret malloc_usable).
Proof.
  unfold calc_distance_vector. apply keeps_bind.
  { intros st Hst. destruct (update_distance_vector _ _ _ _ _) as [[[t n] c]|]; done. }
  intros c. unfold broadcast_dv, for_edges, send_dv_over_link, send_ctrl_to, close_udp. keep.
Qed.
Lemma keeps_send_lsa t a i : keeps I (send_lsa_over_link sys_socket sys_ret t a i).
Proof. unfold send_lsa_over_link, send_ctrl_to, close_udp. keep. Qed.
#[local] Hint Resolve keeps_counters keeps_counters2 keeps_recalculate keeps_calc_dv keeps_send_lsa : frame.

Lemma keeps_send_heartbeats : keeps I (send_heartbeats sys_socket sys_ret malloc_usable).
Proof.
  unfold send_heartbeats, for_edges, heartbeat_body, send_heartbeat_over_link, send_ctrl_to,
    broadcast_lsa, for_edges. keep.
Qed.
Lemma keeps_overlay_ctrl stack d :
  keeps I (handle_overlay_ctrl sys_socket sys_ret malloc_usable stack d).
Proof.
  unfold handle_overlay_ctrl, handle_heartbeat, handle_heartbeat_echo, handle_lsa, handle_dv,
    broadcast_lsa, forward_lsa, for_edges, send_ctrl_to, close_udp. keep.
Qed.
End overlay_clients.

Section node.
Context (sys_socket : nat → Z → Z) (sys_ret : nat → Z).
Context (sys_recv : nat → Z → Z * list Z) (sys_send : nat → Z → Z).
Context (calloc : gmap loc client_conn → option loc) (malloc_usable : Z → Z).

(** One callback of [E_handle_events]: any message on any socket, with any
    client pointer the event system holds, or the timer. *)
Inductive node_step : ostate → ostate → Prop :=
| node_overlay st st' :
    overlay_step sys_socket sys_ret malloc_usable st st' → node_step st st'
| node_data stack d st st' :
    handle_overlay_data sys_socket sys_ret stack d st = Ret tt st' → node_step st st'
| node_client_data sock l stack d st st' :
    handle_client_data sys_socket sys_ret sock l stack d st = Ret tt st' → node_step st st'
| node_client_ctrl fuel sock l st st' :
    handle_client_ctrl_msg sys_socket sys_ret sys_recv sys_send fuel sock l st = Ret tt st' →
    node_step st st'
| node_client_conn junk st st' :
    handle_client_conn sys_ret calloc junk st = Ret tt st' → node_step st st'.

Context (Hcalloc : ∀ h l, calloc h = Some l → h !! l = None).

Lemma ls_inv_routing N me nodes0 es0 st st' :
  routing st' = routing st → ls_inv N me nodes0 es0 st → ls_inv N me nodes0 es0 st'.
Proof.
  unfold routing. intros H [[H1 H2 H3 H4 H5 H6 H7] Hr]. injection H as E1 E2 E3 E4 E5 E6.
  by constructor; [constructor|]; rewrite ?E1, ?E2, ?E3, ?E4, ?E5, ?E6.
Qed.

Lemma node_step_inv N me nodes0 es0 :
  network_wf N me nodes0 es0 →
  preserves node_step (λ st, ls_inv N me nodes0 es0 st ∧ client_wf (Client_List st)).
Proof.
  intros Hnet st st' Hstep [Hls Hcl].
  assert (∀ m : prog ostate (), keeps (client_inv (routing st)) m → m st = Ret tt st' →
    ls_inv N me nodes0 es0 st' ∧ client_wf (Client_List st')) as Hclient.
  { intros m Hm E. destruct (keeps_Ret _ m st tt st' Hm) as [Hr Hwf]; [by split|done|].
    split; [by eapply ls_inv_routing|done]. }
  destruct Hstep as [st st' Hs|stack d st st' E|sock l stack d st st' E|fuel sock l st st' E|
    junk st st' E].
  - split; [by eapply ls_inv_preserved|]. destruct Hs as [stack d st st' E|st st' E].
    + assert (Client_List st' = Client_List st) as ->; [|done].
      by eapply (keeps_Ret _ _ _ _ _ (keeps_overlay_ctrl _ _ _ (Client_List st) stack d)).
    + assert (Client_List st' = Client_List st) as ->; [|done].
      by eapply (keeps_Ret _ _ _ _ _ (keeps_send_heartbeats _ _ _ (Client_List st))).
  - eapply Hclient; [apply keeps_overlay_data|done].
  - eapply Hclient; [apply keeps_client_data|done].
  - eapply Hclient; [apply keeps_client_ctrl_msg|done].
  - eapply Hclient; [by apply keeps_client_conn|done].
Qed.
End node.

(** ** Where a data packet goes *)

(** The packet that leaves: its path has one more entry while it has room. *)
Definition stamped (me : Z) (p p' : data_pkt) : Prop :=
  (d_path_len p < MAX_PATH ∧ p' = set_path p (d_path_len p + 1)
      (<[Z.to_nat (d_path_len p) := u8 me]> (d_path p))) ∨
  (MAX_PATH ≤ d_path_len p ∧ p' = p).

(** What [handle_overlay_data] may do with packet [p] in state [st]; [failed]
    says that [sendto] failed. *)
Inductive routed (st : ostate) (p : data_pkt) (failed : Prop) : list event → Prop :=
| routed_no_client :
    d_dst_id p = My_ID st →
    (∀ c, c ∈ client_values (Client_List st) → data_local_port c ≠ d_dst_port p) →
    routed st p failed []
| routed_delivered c p' :
    d_dst_id p = My_ID st → c ∈ client_values (Client_List st) →
    data_local_port c = d_dst_port p → stamped (My_ID st) p p' → ¬ failed →
    routed st p failed [SendClient (data_sock c) (data_remote_addr c) p' (28 + d_data_len p)]
| routed_client_removed c c' :
    d_dst_id p = My_ID st → c ∈ client_values (Client_List st) →
    data_local_port c = d_dst_port p → failed →
    c' ∈ client_values (Client_List st) → control_sock c' = control_sock c →
    routed st p failed (FdEvent <$> [Close (control_sock c); Close (data_sock c');
                                     Detach (control_sock c); Detach (data_sock c')])
| routed_unreachable :
    d_dst_id p ≠ My_ID st → (∀ c, ¬ path (Edge_List st) (My_ID st) (d_dst_id p) c) →
    routed st p failed []
| routed_lost : d_dst_id p ≠ My_ID st → failed → routed st p failed []
| routed_forwarded m c d p' :
    d_dst_id p ≠ My_ID st → m ∈ Node_List st → adj (Edge_List st) (My_ID st) (node_id m) c →
    path (Edge_List st) (node_id m) (d_dst_id p) d →
    shortest (Edge_List st) (My_ID st) (d_dst_id p) (c + d) →
    stamped (My_ID st) p p' → ¬ failed →
    routed st p failed [SendData (node_addr m) p' (28 + d_data_len p)].

Section routing.
Context (sys_socket : nat → Z → Z) (sys_ret : nat → Z).

Lemma stamp_ok me p i :
  length (d_path p) = 8%nat → 0 ≤ d_path_len p < 2147483648 →
  i = d_path_len p → ∃ p', stamp i me p = Some p' ∧ stamped me p p' ∧
    d_data_len p' = d_data_len p.
Proof.
  intros Hl Hp ->. unfold stamp, stamped, MAX_PATH. destruct (Z.ltb_spec (d_path_len p) 8).
  - rewrite aset_ok by lia. simpl. rewrite u32_small by lia. eexists. split; [done|]. by split; [left|].
  - exists p. split; [done|]. by split; [right|].
Qed.

Lemma data_len_ok p : 0 ≤ d_data_len p ≤ MAX_PAYLOAD_SIZE → data_len_bytes p = 28 + d_data_len p.
Proof.
  unfold MAX_PAYLOAD_SIZE, data_len_bytes, data_send_len. intros H.
  rewrite i32_small; unfold sizeof_data_pkt, MAX_PAYLOAD_SIZE; lia.
Qed.

(** Paths of the network end at a configured node. *)
Lemma path_range N me nodes es u v c :
  network_wf N me nodes es → path es u v c → v = u ∨ 1 ≤ v ≤ N.
Proof.
  intros Hnet. induction 1 as [|v w c d _ _ (e & He & _ & <- & _)]; [by left|].
  right. by apply (nt_ends _ _ _ _ Hnet).
Qed.

Lemma fd_effects_trace evs st :
  ∃ st', for_each evs fd_effect st = Ret tt st' ∧ trace st' = trace st ++ (FdEvent <$> evs) ∧
    routing st' = routing st ∧ Client_List st' = Client_List st.
Proof.
  revert st. induction evs as [|e evs IH]; intros st.
  - exists st. simpl. by rewrite app_nil_r.
  - assert (∃ st1, fd_effect e st = Ret tt st1 ∧ trace st1 = trace st ++ [FdEvent e] ∧
      routing st1 = routing st ∧ Client_List st1 = Client_List st) as (st1 & E1 & Ht & Hr & Hc).
    { destruct e as [fd|fd]; unfold fd_effect, mbind, prog_bind; simpl; [destruct (fd <? 0)|];
        by eexists. }
    destruct (IH st1) as (st' & E & Ht' & Hr' & Hc'). exists st'. simpl.
    unfold mbind, prog_bind in *. rewrite E1. split; [done|].
    rewrite Ht', Ht, Hr', Hc', <-app_assoc. by split_and!.
Qed.

Lemma deliver_ok st p :
  client_wf (Client_List st) → d_dst_id p = My_ID st → length (d_path p) = 8%nat →
  0 ≤ d_path_len p < 2147483648 → 0 ≤ d_data_len p ≤ MAX_PAYLOAD_SIZE →
  post true (λ _ st', routing st' = routing st ∧ client_wf (Client_List st') ∧
      ∃ evs, trace st' = trace st ++ evs ∧ routed st p (sys_ret (calls st) < 0) evs)
    (deliver_locally sys_ret p st).
Proof.
  intros Hwf Hd Hpath Hpl Hlen. unfold deliver_locally.
  destruct (get_client_from_port_ok (Client_List st) (d_dst_port p) Hwf) as (r & E & Hr).
  wp with E. destruct r as [l|].
  2:{ split_and!; [done..|]. exists []. rewrite app_nil_r. split; [done|]. by constructor. }
  destruct Hr as (c & Hc & Hport). unfold deref_client. wp with Hc. wp.
  destruct (stamp_ok (My_ID st) p (i32 (d_path_len p)) Hpath Hpl) as (p' & Es & Hst & Hl').
  { apply i32_small. lia. }
  wp with Es. apply post_bind. unfold next_call. simpl.
  assert (c ∈ client_values (Client_List st)) as Hin.
  { apply list_elem_of_omap. exists l. split; [|done]. apply (cw_live _ Hwf). eauto. }
  destruct (Z.ltb_spec (sys_ret (calls st)) 0) as [Hf|Hok].
  - unfold remove_client.
    destruct (remove_client_ok (Client_List st) (control_sock c) Hwf)
      as [[_ Hno]|(l2 & c2 & cl & E2 & Hc2 & Hs2 & _ & Hwf' & Hperm)]; [by destruct (Hno c)|].
    wp with E2. wp.
    match goal with |- post _ _ (for_each ?evs _ ?s) => destruct (fd_effects_trace evs s)
      as (st' & Ef & Ht & Hr & Hcl) end.
    rewrite Ef. simpl. rewrite Hr, Hcl, Ht. split_and!; [done|done|]. eexists. split; [done|].
    eapply routed_client_removed; [done|done|done|done| |done].
    rewrite Hperm. set_solver.
  - simpl. rewrite data_len_ok by by rewrite Hl'. rewrite Hl'. split_and!; [done..|].
    eexists. split; [done|]. apply routed_delivered; [done..|lia].
Qed.

Lemma forward_ok N nodes0 es0 st p :
  network_wf N (My_ID st) nodes0 es0 → ls_inv N (My_ID st) nodes0 es0 st →
  d_dst_id p ≠ My_ID st → length (d_path p) = 8%nat →
  0 ≤ d_path_len p < 2147483648 → 0 ≤ d_data_len p ≤ MAX_PAYLOAD_SIZE →
  post true (λ _ st', routing st' = routing st ∧ Client_List st' = Client_List st ∧
      ∃ evs k, trace st' = trace st ++ evs ∧ routed st p (sys_ret k < 0) evs)
    (forward_data sys_socket sys_ret p st).
Proof.
  intros Hnet0 Hinv Hd Hpath Hpl Hlen. pose proof (li_routes _ _ _ _ _ Hinv) as Hroutes.
  pose proof (ls_net _ _ _ _ Hnet0 st (li_pre _ _ _ _ _ Hinv)) as Hnet.
  unfold forward_data. wp.
  destruct (get_node_from_id (Node_List st) (d_dst_id p)) as [i|] eqn:Hg.
  2:{ split_and!; [done..|]. exists [], O. rewrite app_nil_r. split; [done|].
      apply routed_unreachable; [done|]. intros c Hp.
      destruct (path_range _ _ _ _ _ _ _ Hnet Hp) as [?|Hr]; [done|].
      destruct (nodes_wf_lookup N (Node_List st) (d_dst_id p)) as (i & n & Hi & Hn & Hg');
        [apply Hnet|done|congruence]. }
  destruct (get_node_from_id_Some _ _ _ Hg) as (n & Hn & Hid). unfold deref_node.
  assert ((λ st, i ← Some i; Node_List st !! i) st = Some n) as E by done.
  wp with E. specialize (Hroutes n ltac:(by eapply list_elem_of_lookup_2)). rewrite Hid in Hroutes.
  destruct (next_hop n) as [h|].
  2:{ split_and!; [done..|]. exists [], O. rewrite app_nil_r. split; [done|].
      by apply routed_unreachable. }
  destruct Hroutes as (m & Hm & Hroute). rewrite decide_False in Hroute by done.
  destruct Hroute as (c & d & Hadj & Hp & Hsh).
  assert ((λ st, i ← Some h; Node_List st !! i) st = Some m) as E2 by done.
  wp with E2.
  destruct (stamp_ok (My_ID st) p (d_path_len p) Hpath Hpl eq_refl) as (p' & Es & Hst & Hl').
  wp with Es. unfold open_udp, next_call, add_fds, close_udp, add_fds, mbind, prog_bind. simpl.
  destruct (_ <? 0); simpl; [done|].
  destruct (Z.ltb_spec (sys_ret (S (calls st))) 0) as [Hf|Hok]; simpl.
  - split_and!; [done..|]. exists [], (S (calls st)). rewrite app_nil_r. split; [done|].
    by apply routed_lost.
  - split_and!; [done..|]. rewrite data_len_ok by by rewrite Hl'. rewrite Hl'.
    eexists _, (S (calls st)). split; [done|].
    eapply routed_forwarded; try done; [by eapply list_elem_of_lookup_2|lia].
Qed.
End routing.

(** ** The connection request of a client *)

(** What [recv] and [send] on a stream promise: at most the bytes asked for,
    and no empty success. *)
Definition recv_spec (sys_recv : nat → Z → Z * list Z) : Prop :=
  ∀ k n, 0 < n → (sys_recv k n).1 ≤ n ∧
    (0 < (sys_recv k n).1 → Z.of_nat (length (sys_recv k n).2) = (sys_recv k n).1).
Definition send_spec (sys_send : nat → Z → Z) : Prop :=
  ∀ k n, 0 < n → sys_send k n < 0 ∨ 1 ≤ sys_send k n ≤ n.

Section ctrl_msg.
Context (sys_socket : nat → Z → Z) (sys_ret : nat → Z).
Context (sys_recv : nat → Z → Z * list Z) (sys_send : nat → Z → Z).
Context (Hrecv : recv_spec sys_recv) (Hsend : send_spec sys_send).

(** States that differ in the number of system calls made. *)
Definition same_but_calls (st st' : ostate) : Prop :=
  st' = set_io (calls st') (open_fds st) (trace st) st.

Lemma recv_loop_ok fuel ret buf st :
  (length buf ≤ 2)%nat → (length buf < 2)%nat ∨ 0 < ret → (2 - length buf < fuel)%nat →
  ∃ ret' buf' st', recv_loop sys_recv fuel ret buf st = Ret (ret', buf') st' ∧
    same_but_calls st st' ∧ (ret' ≤ 0 ∨ length buf' = 2%nat).
Proof.
  revert ret buf st. induction fuel as [|fuel IH]; intros ret buf st Hle Hret Hfuel; [lia|].
  simpl. destruct (Z.ltb_spec (Z.of_nat (length buf)) 2) as [Hlt|Hge].
  2:{ eexists _, _, st. split; [done|]. split; [by destruct st|right; lia]. }
  unfold next_call, mbind, prog_bind. simpl.
  destruct (Hrecv (calls st) (2 - Z.of_nat (length buf))) as [Hr1 Hr2]; [lia|].
  destruct (sys_recv (calls st) _) as [r bs]. simpl in *.
  destruct (Z.gtb_spec r 0) as [Hpos|Hneg].
  - edestruct (IH r (buf ++ take (Z.to_nat r) bs)) as (ret' & buf' & st' & E & Hs & Hres);
      [..|exists ret', buf', st'; split; [exact E|split; [exact Hs|exact Hres]]];
      rewrite ?length_app, ?length_take; lia.
  - eexists _, _, _. split; [done|]. split; [done|left; lia].
Qed.

Lemma send_loop_ok fuel sock ack sent st :
  0 ≤ sent ≤ Z.of_nat (length ack) → Z.of_nat (length ack) - sent < Z.of_nat fuel →
  ∃ ok st' chunks, send_loop sys_send fuel sock ack sent st = Ret ok st' ∧
    st' = set_io (calls st') (open_fds st) (trace st ++ (SendStream sock <$> chunks)) st ∧
    (ok = true → concat chunks = drop (Z.to_nat sent) ack).
Proof.
  revert sent st. induction fuel as [|fuel IH]; intros sent st Hs Hfuel; [lia|].
  simpl. destruct (Z.ltb_spec sent (Z.of_nat (length ack))) as [Hlt|Hge].
  2:{ exists true, st, []. split; [done|]. split; [destruct st; simpl; by rewrite app_nil_r|].
      intros _. rewrite drop_ge; [done|lia]. }
  unfold next_call, mbind, prog_bind. simpl.
  destruct (Hsend (calls st) (Z.of_nat (length ack) - sent)) as [Hneg|Hpos]; [lia| |].
  - rewrite (proj2 (Z.ltb_lt _ _)) by done. eexists _, _, []. split; [done|]. simpl.
    rewrite app_nil_r. by split.
  - destruct (Z.ltb_spec (sys_send (calls st) (Z.of_nat (length ack) - sent)) 0); [lia|].
    set (r := sys_send _ _) in *.
    edestruct (IH (sent + r)) as (ok & st' & chunks & E & Hst & Hc); [lia|lia|].
    exists ok, st', (take (Z.to_nat r) (drop (Z.to_nat sent) ack) :: chunks).
    split; [exact E|]. split.
    + rewrite Hst. simpl. by rewrite <-app_assoc.
    + intros Hok. cbn [concat]. rewrite (Hc Hok). replace (Z.to_nat (sent + r)) with
        (Z.to_nat sent + Z.to_nat r)%nat by lia. rewrite <-drop_drop. apply take_drop.
Qed.

(** Removing the client that owns the socket. *)
Lemma remove_client_gone st l c sock :
  client_wf (Client_List st) → cl_heap (Client_List st) !! l = Some c → control_sock c = sock →
  (∀ l' c', cl_heap (Client_List st) !! l' = Some c' → control_sock c' = sock → l' = l) →
  ∃ st', remove_client sock st = Ret tt st' ∧ routing st' = routing st ∧
    client_wf (Client_List st') ∧ cl_heap (Client_List st') = delete l (cl_heap (Client_List st)).
Proof.
  intros Hwf Hl Hs Huniq.
  destruct (remove_client_ok (Client_List st) sock Hwf)
    as [[_ Hno]|(l2 & c2 & cl & E2 & Hc2 & Hs2 & Hd & Hwf' & _)].
  { destruct (Hno c); [|done]. apply list_elem_of_omap. exists l. split; [|done].
    apply (cw_live _ Hwf). eauto. }
  rewrite (Huniq l2 c2 Hc2 Hs2) in Hd.
  destruct (fd_effects_trace [Close sock; Close (data_sock c2); Detach sock; Detach (data_sock c2)]
              (set_clients cl st)) as (st' & Ef & _ & Hr & Hcl).
  exists st'. split.
  { unfold remove_client, mbind, prog_bind, reads. rewrite E2. exact Ef. }
  rewrite Hr, Hcl. simpl. by rewrite Hd.
Qed.

(** What the handler leaves behind: a registered client that was sent this
    node's id, or no client. *)
Definition ctrl_result (sock : Z) (l : loc) (c : client_conn) (st st' : ostate) : Prop :=
  routing st' = routing st ∧ client_wf (Client_List st') ∧
  ((data_local_port c = 0 ∧ ∃ s port chunks,
      0 ≤ s ∧ concat chunks = le32 (My_ID st) ∧
      cl_heap (Client_List st') = <[l := mk_client sock s port (data_remote_port c) (data_remote_addr c)]>
                                    (cl_heap (Client_List st)) ∧
      clients (Client_List st') = clients (Client_List st) ∧
      trace st' = trace st ++ AttachClient s l :: (SendStream sock <$> chunks) ∧
      open_fds st' = open_fds st + 1) ∨
   cl_heap (Client_List st') = delete l (cl_heap (Client_List st))).

(** The client's socket set-up writes [data_sock] and may attach it. *)
Lemma open_client_sock_ok l c st :
  ∃ ok st' s, open_client_sock sys_socket sys_ret l c st = Ret ok st' ∧
    let c' := mk_client (control_sock c) s (data_local_port c) (data_remote_port c) (data_remote_addr c) in
    Client_List st' = mk_client_list (<[l := c']> (cl_heap (Client_List st))) (clients (Client_List st)) ∧
    routing st' = routing st ∧
    (ok = true → 0 ≤ s ∧ trace st' = trace st ++ [AttachClient s l] ∧ open_fds st' = open_fds st + 1).
Proof.
  unfold open_client_sock, next_call, set_client, add_fds, emit, mbind, prog_bind. simpl.
  destruct (Z.ltb_spec (sys_socket (calls st) (open_fds st)) 0) as [H1|H1]; simpl.
  { by eexists _, _, _. }
  destruct (Z.ltb_spec (sys_ret (S (calls st))) 0) as [H2|H2]; simpl; [by eexists _, _, _|].
  destruct (Z.ltb_spec (sys_ret (S (S (calls st)))) 0) as [H3|H3]; simpl; [by eexists _, _, _|].
  eexists _, _, _. split_and!; [done..|]. intros _. by split_and!.
Qed.

Lemma remove_result st st1 l c c1 sock :
  client_wf (Client_List st) → cl_heap (Client_List st) !! l = Some c → control_sock c = sock →
  (∀ l' c', cl_heap (Client_List st) !! l' = Some c' → control_sock c' = sock → l' = l) →
  routing st1 = routing st → control_sock c1 = sock →
  Client_List st1 = mk_client_list (<[l := c1]> (cl_heap (Client_List st))) (clients (Client_List st)) →
  ∃ st', remove_client sock st1 = Ret tt st' ∧ ctrl_result sock l c st st'.
Proof.
  intros Hwf Hl Hs Huniq Hr Hc1 Hcl.
  destruct (remove_client_gone st1 l c1 sock) as (st' & E & Hr' & Hwf' & Hd).
  - rewrite Hcl. apply client_wf_update; [done|eauto].
  - rewrite Hcl. simpl. by rewrite lookup_insert_eq.
  - done.
  - rewrite Hcl. simpl. intros l' c' Hl' Hs'. destruct (decide (l' = l)) as [|Hne]; [done|].
    rewrite lookup_insert_ne in Hl' by done. by apply (Huniq l' c').
  - exists st'. split; [done|]. split; [congruence|]. split; [done|]. right.
    rewrite Hd, Hcl. simpl. by rewrite delete_insert_eq.
Qed.

Lemma ctrl_msg_ok sock l c st :
  client_wf (Client_List st) → cl_heap (Client_List st) !! l = Some c → control_sock c = sock →
  (∀ l' c', cl_heap (Client_List st) !! l' = Some c' → control_sock c' = sock → l' = l) →
  ∃ st', handle_client_ctrl_msg sys_socket sys_ret sys_recv sys_send 5 sock l st = Ret tt st' ∧
    ctrl_result sock l c st st'.
Proof.
  intros Hwf Hl Hs Huniq. unfold handle_client_ctrl_msg, deref_client.
  run (reads_Some (λ st, cl_heap (Client_List st) !! l) c st Hl).
  rewrite <-Hs, Z.eqb_refl. cbn [negb].
  destruct (recv_loop_ok 3 (-1) [] st) as (ret & req & st1 & E1 & Hst1 & Hret);
    [simpl; lia|left; simpl; lia|simpl; lia|].
  run E1. rewrite Hst1. set (st2 := set_io _ _ _ st).
  assert (∃ st', remove_client (control_sock c) st2 = Ret tt st' ∧
    ctrl_result (control_sock c) l c st st') as Hgone.
  { apply (remove_result st st2 l c c); try done; [by rewrite Hs|].
    simpl. rewrite insert_id by done. by destruct (Client_List st). }
  destruct (Z.leb_spec ret 0) as [|Hpos]; [done|]. destruct Hret as [?|Hreq]; [lia|].
  destruct (Z.eqb_spec (data_local_port c) 0) as [Hport|]; cbn [negb]; [|done].
  destruct (open_client_sock_ok l c st2) as (ok & st3 & s & E3 & Hcl3 & Hr3 & Hok3).
  cbv zeta in Hcl3. run E3. destruct req as [|b0 [|b1 [|]]]; try done. clear Hreq E1.
  run (lift_Some (get_u16 [b0; b1] 0) (b0 + 256 * b1) st3 eq_refl). run (eq_refl (get st3)).
  assert (∃ c3, cl_heap (Client_List st3) !! l = Some c3 ∧ c3 = mk_client (control_sock c) s
    (data_local_port c) (data_remote_port c) (data_remote_addr c)) as (c3 & Hl3 & Hc3).
  { rewrite Hcl3. simpl. rewrite lookup_insert_eq. eauto. }
  run (reads_Some (λ st, cl_heap (Client_List st) !! l) c3 st3 Hl3).
  assert (My_ID st3 = My_ID st) as HID by (by injection Hr3).
  set (id := if ok then My_ID st3 else 0).
  (* the registration, when every call worked *)
  set (port := if ok then b0 + 256 * b1 else data_local_port c).
  set (c4 := mk_client (control_sock c) s port (data_remote_port c) (data_remote_addr c)).
  set (st4 := set_clients (mk_client_list (<[l := c4]> (cl_heap (Client_List st)))
                             (clients (Client_List st))) st3).
  assert ((if ok then set_client l (mk_client (control_sock c3) (data_sock c3) (b0 + 256 * b1)
      (data_remote_port c3) (data_remote_addr c3)) else mret tt) st3 = Ret tt st4) as E4.
  { unfold st4, c4, port. rewrite Hc3. destruct ok; simpl.
    - unfold set_client, modify. rewrite Hcl3. simpl. by rewrite insert_insert_eq.
    - change (cl_heap (Client_List st)) with (cl_heap (Client_List st2)).
      change (clients (Client_List st)) with (clients (Client_List st2)).
      rewrite <-Hcl3. by destruct st3. }
  run E4.
  destruct (send_loop_ok 5 (control_sock c) (le32 id) 0 st4) as (all & st5 & chunks & E5 & Hst5 & Hall);
    [split; [done|simpl; lia]|simpl; lia|].
  run E5.
  destruct (ok && all) eqn:Hdone.
  - apply andb_true_iff in Hdone as [-> ->]. destruct (Hok3 eq_refl) as (Hs0 & Ht & Hf).
    exists st5. split; [done|]. rewrite Hst5. split; [done|]. split.
    { simpl. by apply client_wf_update; [|eauto]. }
    left. split; [done|]. exists s, port, chunks. split_and!; try done.
    + rewrite (Hall eq_refl). unfold id. by rewrite HID.
    + simpl. by rewrite Ht, <-app_assoc.
  - apply (remove_result st st5 l c c4); try done; [by rewrite Hs|by rewrite Hst5|by rewrite Hst5].
Qed.
End ctrl_msg.

(** ** Properties *)

(** C23: the whole node keeps its invariants.  Whatever sequence of callbacks
    runs (control and data datagrams with any bytes, client data, client
    control messages, new connections, timers), the routes are shortest for
    the current view of the links and the client table is well formed: its
    slots are distinct and point to exactly the live client records. *)
Theorem node_invariant sys_socket sys_ret sys_recv sys_send calloc malloc_usable
    N me nodes0 es0 st st' :
  (∀ h l, calloc h = Some l → h !! l = None) → network_wf N me nodes0 es0 →
  ls_inv N me nodes0 es0 st → client_wf (Client_List st) →
  rtc (node_step sys_socket sys_ret sys_recv sys_send calloc malloc_usable) st st' →
  ls_inv N me nodes0 es0 st' ∧ client_wf (Client_List st').
Proof.
  intros Hc Hnet Hls Hcl Hsteps.
  exact (rtc_invariant _ _ st st' (node_step_inv _ _ _ _ _ _ Hc N me nodes0 es0 Hnet) Hsteps
           (conj Hls Hcl)).
Qed.

(** C26: a data packet takes the right way.  A datagram that carries a data
    packet with a payload that fits is never undefined behaviour: for this
    node it goes to the client registered on its port, for another node to the
    first hop of a cheapest path, with this node appended to its path; it is
    dropped only when there is no such client or no path, or [sendto] failed
    (which removes a client).  At most one packet leaves. *)
Theorem data_packet_routed sys_socket sys_ret N nodes0 es0 st stack d p :
  network_wf N (My_ID st) nodes0 es0 → ls_inv N (My_ID st) nodes0 es0 st →
  client_wf (Client_List st) →
  read_data_pkt (recv_data stack d) = Some p →
  length (d_path p) = 8%nat → 0 ≤ d_path_len p < 2147483648 →
  0 < d_data_len p ≤ MAX_PAYLOAD_SIZE →
  match handle_overlay_data sys_socket sys_ret stack (Some d) st with
  | Ret _ st' => routing st' = routing st ∧ client_wf (Client_List st') ∧
      ∃ evs k, trace st' = trace st ++ evs ∧ routed st p (sys_ret k < 0) evs
  | Exited _ _ => True
  | Undef | Fuel => False
  end.
Proof.
  intros Hnet Hinv Hwf Hp Hpath Hpl Hlen.
  enough (post true (λ _ st', routing st' = routing st ∧ client_wf (Client_List st') ∧
      ∃ evs k, trace st' = trace st ++ evs ∧ routed st p (sys_ret k < 0) evs)
    (handle_overlay_data sys_socket sys_ret stack (Some d) st)) as H
    by by destruct (handle_overlay_data _ _ _ _ _).
  unfold handle_overlay_data. wp with Hp.
  rewrite (proj2 (Z.gtb_lt _ _)) by lia. apply post_bind. unfold copy_payload.
  rewrite (proj2 (Z.leb_le _ _)) by lia. simpl. wp.
  destruct (Z.eqb_spec (d_dst_id p) (My_ID st)) as [He|Hne].
  - eapply post_weaken; [apply deliver_ok; [done..|lia]|].
    intros [] st' (? & ? & evs & ? & ?). split_and!; [done..|]. by exists evs, (calls st).
  - eapply post_weaken; [eapply forward_ok; [done..|lia]|].
    intros [] st' (? & -> & evs & k & ? & ?). split_and!; [done..|]. by exists evs, k.
Qed.

(** A connection request either registers the client or removes it.  For
    any [recv] and [send] that may split the messages as they like, the handler
    of a request on a socket that one client owns returns within four rounds of
    [send]: the client then has the requested port and an attached UDP socket
    and was sent exactly the bytes of this node's id, or its record is gone;
    nothing else changes in either case. *)
Theorem client_registration sys_socket sys_ret sys_recv sys_send sock l c st :
  recv_spec sys_recv → send_spec sys_send →
  client_wf (Client_List st) → cl_heap (Client_List st) !! l = Some c → control_sock c = sock →
  (∀ l' c', cl_heap (Client_List st) !! l' = Some c' → control_sock c' = sock → l' = l) →
  ∃ st', handle_client_ctrl_msg sys_socket sys_ret sys_recv sys_send 5 sock l st = Ret tt st' ∧
    ctrl_result sock l c st st'.
Proof. intros Hr Hs. by apply ctrl_msg_ok. Qed.

(** ** Witnesses: a node with one registered client *)

Definition demo_client : client_conn := mk_client 5 6 9000 40000 (mk_sockaddr 77 40000).
Definition demo_clients : client_list := mk_client_list {[1%positive := demo_client]} [1%positive].
Definition demo_full : ostate := set_clients demo_clients demo_state.
Definition demo_alloc (h : gmap loc client_conn) : option loc := Some (fresh (dom h)).

Lemma demo_clients_wf : client_wf demo_clients.
Proof.
  constructor; [apply NoDup_singleton| |by vm_compute; lia].
  intros l. unfold demo_clients. simpl. rewrite list_elem_of_singleton, lookup_singleton_is_Some. done.
Qed.

Lemma demo_alloc_fresh h l : demo_alloc h = Some l → h !! l = None.
Proof. intros [= <-]. apply not_elem_of_dom, is_fresh. Qed.

Lemma demo_full_inv : ls_inv 4 1 demo_nodes demo_links demo_full.
Proof. by apply (ls_inv_routing 4 1 demo_nodes demo_links demo_state); [|apply demo_inv]. Qed.

Definition demo_data : data_pkt :=
  mk_data_pkt 3 2 9000 9001 5 1 [2; 0; 0; 0; 0; 0; 0; 0] (replicate 1300 65).
Definition demo_ret (k : nat) : Z := 7.
(** [recv] and [send] one byte at a time. *)
Definition demo_recv (k : nat) (len : Z) : Z * list Z := (1, [40]).
Definition demo_send (k : nat) (len : Z) : Z := 1.

Lemma node_invariant_witness :
  let st' := match handle_client_conn demo_ret demo_alloc (mk_sockaddr 0 0) demo_full with
             | Ret _ st => st | _ => demo_full end in
  ls_inv 4 1 demo_nodes demo_links st' ∧ client_wf (Client_List st').
Proof.
  cbv zeta.
  apply (node_invariant demo_sock demo_ret demo_recv demo_send demo_alloc id 4 1 demo_nodes demo_links
           demo_full); [apply demo_alloc_fresh|apply demo_network|apply demo_full_inv
                       |apply demo_clients_wf|].
  apply rtc_once. apply (node_client_conn _ _ _ _ _ _ (mk_sockaddr 0 0)). vm_compute. reflexivity.
Defined.

Lemma data_packet_routed_witness :
  match handle_overlay_data demo_sock demo_ret (replicate 1328 0) (Some (data_datagram demo_data))
          demo_full with
  | Ret _ st' => routing st' = routing demo_full ∧ client_wf (Client_List st') ∧
      ∃ evs k, trace st' = trace demo_full ++ evs ∧
        routed demo_full
          (with_payload demo_data (replicate 5 65 ++ replicate 1295 0)) (demo_ret k < 0) evs
  | Exited _ _ => True
  | Undef | Fuel => False
  end.
Proof.
  apply (data_packet_routed demo_sock demo_ret 4 demo_nodes demo_links demo_full);
    [apply demo_network|apply demo_full_inv|apply demo_clients_wf|vm_compute; reflexivity|reflexivity
    |split; [discriminate|reflexivity]|split; [reflexivity|discriminate]].
Defined.

(** The same node before the client asked for its port. *)
Definition demo_fresh_client : client_conn := mk_client 5 (-1) 0 0 (mk_sockaddr 0 0).
Definition demo_connecting : ostate :=
  set_clients (mk_client_list {[1%positive := demo_fresh_client]} [1%positive]) demo_state.

Lemma client_registration_witness :
  ∃ st', handle_client_ctrl_msg demo_sock demo_ret demo_recv demo_send 5 5 1%positive demo_connecting
           = Ret tt st' ∧
    ctrl_result 5 1%positive demo_fresh_client demo_connecting st'.
Proof.
  apply (client_registration demo_sock demo_ret demo_recv demo_send 5 1%positive demo_fresh_client
           demo_connecting).
  - intros k n Hn. split; [simpl; lia|done].
  - intros k n Hn. right. unfold demo_send. lia.
  - constructor; [apply NoDup_singleton| |by vm_compute; lia].
    intros l. simpl. rewrite list_elem_of_singleton, lookup_singleton_is_Some. done.
  - reflexivity.
  - reflexivity.
  - intros l' c' Hl _. simpl in Hl. by apply lookup_singleton_Some in Hl as [<- _].
Defined.
