(* ===== verification/OverlayConf.v ===== *)
(** * Configuration and start-up of the overlay node

    [process_conf], [ip_from_str], the [init_*] functions and [main] of
    CS1652/project3/proj3-code/overlay_node.c, up to the event loop.  The
    configuration file is a byte string; [fgets] and the two [sscanf] formats
    the code uses are built from [Stdio]. *)
From S2P Require Import Prelude Stdio OverlayLists LinkState DistVec Bytes Packets OverlayNode OverlayClients.
Open Scope Z_scope.

Definition MAX_CONF_LINE : Z := 1024.

(** ** [fgets] and [sscanf] *)

(** [while (fgets(buf, MAX_CONF_LINE, f))]: the lines, one per call. *)
Fixpoint read_lines (fuel : nat) (s : list Z) : list (list Z) :=
  match fuel, s with
  | S fuel', _ :: _ =>
      let '(l, r) := fgets (Z.to_nat (MAX_CONF_LINE - 1)) s in l :: read_lines fuel' r
  | _, _ => []
  end.

(** [%s] *)
Fixpoint take_word (s : list Z) : list Z * list Z :=
  match s with
  | c :: s' => if isspace c then ([], s) else let '(w, r) := take_word s' in (c :: w, r)
  | [] => ([], [])
  end.
Definition scan_s (s : list Z) : option (list Z * list Z) :=
  match take_word (skip_spaces s) with
  | ([], _) => None
  | (w, r) => Some (w, r)
  end.

(** [sscanf(buf, "%u %s %hu", ...) == 3] and [sscanf(buf, "%u %u %u", ...) == 3]. *)
Definition scan_node (s : list Z) : option (Z * list Z * Z) :=
  '(id, s1) ← scan_u (c_str s); '(ip, s2) ← scan_s s1; '(port, _) ← scan_hu s2;
  Some (id, ip, port).
Definition scan_edge (s : list Z) : option (Z * Z * Z) :=
  '(src, s1) ← scan_u (c_str s); '(dst, s2) ← scan_u s1; '(cost, _) ← scan_u s2;
  Some (src, dst, cost).

(** ** [process_conf] *)

Record conf := mk_conf {
  My_IP : Z;
  My_Port : Z;
  conf_nodes : node_list;
  conf_edges : edge_list;
  node_sec_done : bool
}.

Section conf.
(** [inet_pton(AF_INET, ...)] for the dotted string, in host order, and what
    the uninitialised [struct in_addr] holds when it fails. *)
Context (inet_pton : list Z → option Z) (junk_addr : Z).

Definition ip_from_str (ip : list Z) : Z := default junk_addr (inet_pton ip).

Definition node_line (my_id : Z) (line : list Z) : prog conf unit :=
  match scan_node line with
  | None =>
      modify (λ c, mk_conf (My_IP c) (My_Port c) (conf_nodes c) (conf_edges c) true)
  | Some (id, ip_str, port) =>
      modify (λ c, if id =? u32 my_id
                   then mk_conf (ip_from_str ip_str) port (conf_nodes c) (conf_edges c)
                          (node_sec_done c)
                   else c);;
      let n := mk_node id (mk_sockaddr (ip_from_str ip_str) port)
                 (mk_sockaddr (ip_from_str ip_str) (u16 (port + 1))) None in
      c ← get;
      match add_node_to_list (conf_nodes c) n with
      | (None, _) => exit_with 0
      | (Some _, nodes) =>
          modify (λ c, mk_conf (My_IP c) (My_Port c) nodes (conf_edges c) (node_sec_done c))
      end
  end.

Definition edge_line (line : list Z) : prog conf unit :=
  match scan_edge line with
  | None =>
      modify (λ c, mk_conf (My_IP c) (My_Port c) (conf_nodes c) (conf_edges c) true)
  | Some (src, dst, cost) =>
      c ← get;
      let e := mk_edge src dst cost 0 (get_node_from_id (conf_nodes c) src)
                 (get_node_from_id (conf_nodes c) dst) in
      match src_node e, dst_node e with
      | Some _, Some _ =>
          match add_edge_to_list (conf_edges c) e with
          | (None, _) => exit_with 0
          | (Some _, edges) =>
              modify (λ c, mk_conf (My_IP c) (My_Port c) (conf_nodes c) edges (node_sec_done c))
          end
      | _, _ => exit_with 0
      end
  end.

Definition process_line (my_id : Z) (line : list Z) : prog conf unit :=
  c ← get;
  if negb (node_sec_done c) then node_line my_id line else edge_line line.

(** [process_conf]: [None] is a file that cannot be opened. *)
Definition process_conf (file : option (list Z)) (my_id : Z) : prog conf unit :=
  match file with
  | None => exit_with 0
  | Some s => for_each (read_lines (length s) s) (process_line my_id)
  end.

(** ** Start-up *)
Context (sys_socket : nat → Z → Z) (sys_ret : nat → Z) (malloc_usable : Z → Z).

(** [init_overlay_data_sock], [init_overlay_ctrl_sock]: [socket], [bind],
    [E_attach_fd], each fatal. *)
Definition init_udp_sock : prog ostate unit :=
  _ ← open_udp sys_socket;
  kb ← next_call;
  if sys_ret kb <? 0 then exit_with 0
  else ka ← next_call; if sys_ret ka <? 0 then exit_with 0 else mret tt.

(** [init_client_sock] also listens. *)
Definition init_client_sock : prog ostate unit :=
  _ ← open_udp sys_socket;
  kb ← next_call;
  if sys_ret kb <? 0 then exit_with 0
  else
    kl ← next_call;
    if sys_ret kl <? 0 then exit_with 0
    else ka ← next_call; if sys_ret ka <? 0 then exit_with 0 else mret tt.

(** [init_link_state]: [junk] is what the arrays from [malloc] hold. *)
Definition init_link_state (junk : nat → link_state) : prog ostate unit :=
  st ← get;
  modify (set_ls (junk (length (Node_List st))));;
  recalculate_routes.

(** [init_distance_vector] *)
Definition init_distance_vector (junk : nat → nat → list (list Z)) : prog ostate unit :=
  st ← get;
  let nodes := clear_next_hops (My_ID st) (Node_List st) in
  t ← lift (init_table (My_ID st) (Edge_List st)
              (junk (S (length (adjacent_edges (My_ID st) (Edge_List st)))) (S (length nodes)))
              nodes);
  modify (λ st, set_nodes nodes (set_dv t st));;
  calc_distance_vector sys_socket sys_ret malloc_usable.

(** The mode argument: [strncmp("LS", argv[3], 3)] also compares the null
    byte.  For any other string [main] prints [argv[5]], which is past the end
    of the four arguments. *)
Definition parse_mode (arg : list Z) : option mode :=
  if decide (take 3 (arg ++ [0]) = [76; 83; 0]) then Some MODE_LINK_STATE
  else if decide (take 3 (arg ++ [0]) = [68; 86; 0]) then Some MODE_DISTANCE_VECTOR
  else None.

(** [main] from [process_conf] to the event loop; the configuration file is
    never closed, hence a fourth descriptor. *)
Definition start (my_id : Z) (file : option (list Z)) (arg : list Z)
    (junk_ls : nat → link_state) (junk_dv : nat → nat → list (list Z)) : outcome ostate unit :=
  match parse_mode arg with
  | None => Undef
  | Some m =>
      let st0 := mk_ostate (u32 my_id) m (mk_client_list ∅ []) [] [] (mk_ls [] [] [] 0)
                   (mk_dv [] 0 0) 0 4 [] in
      match process_conf file my_id (mk_conf 0 0 [] [] false) with
      | Ret _ c =>
          (init_client_sock;; init_udp_sock;; init_udp_sock;;
           match m with
           | MODE_LINK_STATE => init_link_state junk_ls
           | _ => init_distance_vector junk_dv
           end;;
           send_heartbeats sys_socket sys_ret malloc_usable)
          (set_edges (conf_edges c) (set_nodes (conf_nodes c) st0))
      | Exited code _ => Exited code st0
      | Undef => Undef
      | Fuel => Fuel
      end
  end.
End conf.

(** ** Specification *)

(** The tables [process_conf] builds: edges join configured nodes, with their
    pointers set, and come after every node. *)
Record conf_wf (c : conf) : Prop := {
  cf_order : node_sec_done c = false → conf_edges c = [];
  cf_nodes : (length (conf_nodes c) ≤ MAX_NODES)%nat;
  cf_edges : (length (conf_edges c) ≤ MAX_EDGES)%nat;
  cf_hops : ∀ n, n ∈ conf_nodes c → next_hop n = None;
  cf_ptrs : ∀ e, e ∈ conf_edges c → outstanding_heartbeats e = 0 ∧
    src_node e = get_node_from_id (conf_nodes c) (src_id e) ∧ is_Some (src_node e) ∧
    dst_node e = get_node_from_id (conf_nodes c) (dst_id e) ∧ is_Some (dst_node e)
}.

(** A configuration file as text. *)
Definition show_node (n : Z * list Z * Z) : list Z :=
  let '(id, ip, port) := n in show_num id ++ [32] ++ ip ++ [32] ++ show_num port ++ [10].
Definition show_edge (e : Z * Z * Z) : list Z :=
  let '(src, dst, cost) := e in
  show_num src ++ [32] ++ show_num dst ++ [32] ++ show_num cost ++ [10].
Definition show_conf (ns : list (Z * list Z * Z)) (es : list (Z * Z * Z)) : list Z :=
  concat ((show_node <$> ns) ++ [[10]] ++ (show_edge <$> es)).

(** What such a file may hold. *)
Definition node_entry_ok (n : Z * list Z * Z) : Prop :=
  let '(id, ip, port) := n in
  is_u32 id ∧ is_u16 port ∧ ip ≠ [] ∧ (length ip ≤ 900)%nat ∧
  ∀ c, c ∈ ip → c ≠ 0 ∧ isspace c = false.
Definition edge_entry_ok (ns : list (Z * list Z * Z)) (e : Z * Z * Z) : Prop :=
  let '(src, dst, cost) := e in
  is_u32 src ∧ is_u32 dst ∧ is_u32 cost ∧ src ∈ ns.*1.*1 ∧ dst ∈ ns.*1.*1.

Section tables.
Context (inet_pton : list Z → option Z) (junk_addr : Z).
Definition table_node (n : Z * list Z * Z) : node :=
  let '(id, ip, port) := n in
  mk_node id (mk_sockaddr (ip_from_str inet_pton junk_addr ip) port)
    (mk_sockaddr (ip_from_str inet_pton junk_addr ip) (u16 (port + 1))) None.
Definition table_edge (nodes : node_list) (e : Z * Z * Z) : edge :=
  let '(src, dst, cost) := e in
  mk_edge src dst cost 0 (get_node_from_id nodes src) (get_node_from_id nodes dst).
End tables.

(** ** Lemmas *)

Lemma take_word_ip ip c rest :
  (∀ x, x ∈ ip → isspace x = false) → isspace c = true →
  take_word (ip ++ c :: rest) = (ip, c :: rest).
Proof.
  intros Hip Hc. induction ip as [|x ip IH]; simpl; [by rewrite Hc|].
  rewrite Hip by set_solver. by rewrite IH by set_solver.
Qed.

Lemma scan_s_ip ip rest :
  ip ≠ [] → (∀ x, x ∈ ip → isspace x = false) →
  scan_s (32 :: ip ++ 32 :: rest) = Some (ip, 32 :: rest).
Proof.
  intros Hne Hip. unfold scan_s. change (skip_spaces (32 :: ?s)) with (skip_spaces s).
  destruct ip as [|x ip]; [done|].
  assert (skip_spaces ((x :: ip) ++ 32 :: rest) = (x :: ip) ++ 32 :: rest) as ->.
  { simpl. by rewrite Hip by set_solver. }
  by rewrite take_word_ip.
Qed.

Lemma show_num_scan z rest : 0 ≤ z < 4294967296 → number_ends 10 rest →
  scan_ulong 10 (show_num z ++ rest) = Some (z, rest).
Proof. intros Hz Hr. apply scan_ulong_show; [by left|unfold ULONG_MAX; lia|done]. Qed.

Lemma scan_node_show n : node_entry_ok n → scan_node (show_node n) = Some n.
Proof.
  destruct n as [[id ip] port]. intros (Hid & Hport & Hne & _ & Hip).
  unfold is_u32, is_u16 in *. unfold scan_node.
  rewrite c_str_id.
  2:{ intros c Hc. unfold show_node in Hc. rewrite !elem_of_app, !list_elem_of_singleton in Hc.
      destruct Hc as [Hc|[->|[Hc|[->|[Hc| ->]]]]]; try lia.
      - by apply (show_num_plain id); [lia|].
      - by apply Hip.
      - by apply (show_num_plain port); [lia|]. }
  unfold show_node, scan_u, scan_hu. cbn [app].
  rewrite show_num_scan by (done || lia). cbn [mbind option_bind].
  rewrite u32_small by lia.
  rewrite scan_s_ip by (done || intros x Hx; by apply Hip). cbn [mbind option_bind].
  rewrite scan_ulong_space, show_num_scan by (done || lia).
  cbn [mbind option_bind]. unfold u16. by rewrite Z.mod_small by lia.
Qed.

Lemma scan_edge_show src dst cost :
  is_u32 src → is_u32 dst → is_u32 cost →
  scan_edge (show_edge (src, dst, cost)) = Some (src, dst, cost).
Proof.
  unfold is_u32. intros Hs Hd Hc. unfold scan_edge. rewrite c_str_id.
  2:{ intros c Hin. unfold show_edge in Hin. rewrite !elem_of_app, !list_elem_of_singleton in Hin.
      destruct Hin as [H|[->|[H|[->|[H| ->]]]]]; try lia;
        eapply show_num_plain; [|exact H| |exact H| |exact H]; lia. }
  unfold show_edge, scan_u. cbn [app].
  rewrite show_num_scan by (done || lia). cbn [mbind option_bind].
  rewrite scan_ulong_space, show_num_scan by (done || lia). cbn [mbind option_bind].
  rewrite scan_ulong_space, show_num_scan by (done || lia). cbn [mbind option_bind].
  by rewrite !u32_small by lia.
Qed.

(** Lines that end in their only newline and fit the buffer. *)
Definition conf_line (l : list Z) : Prop :=
  ∃ l', l = l' ++ [10] ∧ (length l' < 1023)%nat ∧ ∀ c, c ∈ l' → c ≠ 10.

Lemma read_lines_S fuel s :
  s ≠ [] → read_lines (S fuel) s =
    let '(l, r) := fgets (Z.to_nat (MAX_CONF_LINE - 1)) s in l :: read_lines fuel r.
Proof. by destruct s. Qed.

(** [read_lines] gives back the lines that were concatenated. *)
Lemma read_lines_concat ls fuel :
  Forall conf_line ls → (length (concat ls) ≤ fuel)%nat → read_lines fuel (concat ls) = ls.
Proof.
  intros Hls. revert fuel. induction Hls as [|l ls (l' & -> & Hl & Hc) _ IH]; intros fuel Hf.
  { by destruct fuel. }
  cbn [concat] in *. rewrite !length_app in Hf. simpl in Hf.
  destruct fuel as [|fuel]; [lia|].
  rewrite <-app_assoc. cbn [app].
  assert (read_lines (S fuel) (l' ++ 10 :: concat ls) =
    (l' ++ [10]) :: read_lines fuel (concat ls)) as ->.
  { rewrite read_lines_S by by destruct l'. rewrite fgets_line; [done|unfold MAX_CONF_LINE; lia|done]. }
  rewrite IH by lia. done.
Qed.

Lemma show_node_line n : node_entry_ok n → conf_line (show_node n).
Proof.
  destruct n as [[id ip] port]. intros (Hid & Hport & Hne & Hlen & Hip). unfold is_u32, is_u16 in *.
  exists (show_num id ++ [32] ++ ip ++ [32] ++ show_num port). split_and!.
  - unfold show_node. by rewrite <-!app_assoc.
  - rewrite !length_app. simpl. pose proof (digits_length 10 20 id). pose proof (digits_length 10 20 port).
    unfold show_num. lia.
  - intros c Hc. rewrite !elem_of_app, !list_elem_of_singleton in Hc.
    destruct Hc as [Hc|[->|[Hc|[->|Hc]]]]; try lia.
    + by apply (show_num_plain id); [lia|].
    + destruct (Hip c Hc) as [_ Hs]. by intros ->.
    + by apply (show_num_plain port); [lia|].
Qed.

Lemma show_edge_line ns e : edge_entry_ok ns e → conf_line (show_edge e).
Proof.
  destruct e as [[src dst] cost]. intros (Hs & Hd & Hc & _). unfold is_u32 in *.
  exists (show_num src ++ [32] ++ show_num dst ++ [32] ++ show_num cost). split_and!.
  - unfold show_edge. by rewrite <-!app_assoc.
  - rewrite !length_app. simpl. pose proof (digits_length 10 20 src). pose proof (digits_length 10 20 dst).
    pose proof (digits_length 10 20 cost). unfold show_num. lia.
  - intros c Hin. rewrite !elem_of_app, !list_elem_of_singleton in Hin.
    destruct Hin as [H|[->|[H|[->|H]]]]; try lia;
      eapply show_num_plain; [|exact H| |exact H| |exact H]; lia.
Qed.

Section process.
Context (inet_pton : list Z → option Z) (junk_addr : Z).
Notation process := (process_line inet_pton junk_addr).

(** What one line does to the tables keeps them well formed. *)
Lemma process_line_wf my_id line : keeps conf_wf (process my_id line).
Proof.
  intros c Hc. unfold process_line. wp. destruct (node_sec_done c) eqn:Hdone; cbn [negb].
  - unfold edge_line. destruct (scan_edge line) as [[[src dst] cst]|].
    2:{ destruct Hc. by constructor. }
    wp. destruct (get_node_from_id (conf_nodes c) src) eqn:Hs,
      (get_node_from_id (conf_nodes c) dst) eqn:Hd; cbn [src_node dst_node]; try done.
    unfold add_edge_to_list. case_decide as Hfull; [done|].
    destruct Hc as [H1 H2 H3 H4 H5]. constructor; simpl; [congruence|done| |done|].
    + rewrite length_app. simpl. lia.
    + intros e [He|He%list_elem_of_singleton]%elem_of_app; [by apply H5|]. subst e. simpl.
      rewrite Hs, Hd. eauto.
  - unfold node_line. destruct (scan_node line) as [[[id ip] port]|].
    2:{ destruct Hc. by constructor. }
    wp. set (c1 := if id =? u32 my_id then _ else c).
    assert (conf_nodes c1 = conf_nodes c ∧ conf_edges c1 = conf_edges c ∧
      node_sec_done c1 = node_sec_done c) as (E1 & E2 & E3) by (unfold c1; by destruct (_ =? _)).
    wp. rewrite E1. unfold add_node_to_list.
    case_decide as Hfull; [done|]. destruct Hc as [H1 H2 H3 H4 H5].
    constructor; simpl; rewrite ?E1, ?E2, ?E3.
    + done.
    + rewrite length_app. simpl. lia.
    + done.
    + intros n [Hn|Hn%list_elem_of_singleton]%elem_of_app; [by apply H4|]. by subst n.
    + intros e He. rewrite H1 in He by done. set_solver.
Qed.

Lemma process_conf_wf file my_id c c' :
  process_conf inet_pton junk_addr file my_id c = Ret tt c' → conf_wf c → conf_wf c'.
Proof.
  intros E Hc.
  refine (keeps_Ret conf_wf (process_conf inet_pton junk_addr file my_id) c tt c' _ Hc E).
  unfold process_conf. destruct file as [s|]; [|apply keeps_exit].
  apply keeps_for_each. intros line. apply process_line_wf.
Qed.

(** The node section of a printed file. *)
Lemma process_nodes my_id ns c :
  Forall node_entry_ok ns → node_sec_done c = false →
  (length (conf_nodes c) + length ns ≤ MAX_NODES)%nat →
  ∃ ip port, for_each (show_node <$> ns) (process my_id) c =
    Ret tt (mk_conf ip port (conf_nodes c ++ (table_node inet_pton junk_addr <$> ns))
              (conf_edges c) false).
Proof.
  intros Hok. revert c. induction Hok as [|n ns Hn Hok IH]; intros c Hsec Hlen.
  { exists (My_IP c), (My_Port c). simpl. rewrite app_nil_r, <-Hsec. by destruct c. }
  rewrite fmap_cons. cbn [for_each]. simpl in Hlen.
  assert (∃ ip port, process my_id (show_node n) c = Ret tt (mk_conf ip port
    (conf_nodes c ++ [table_node inet_pton junk_addr n]) (conf_edges c) false)) as (ip & port & E).
  { unfold process_line. run (eq_refl (get c)). rewrite Hsec. cbn [negb].
    unfold node_line. rewrite scan_node_show by done. destruct n as [[id ip] port].
    run (eq_refl (modify (S:=conf) (λ c, if id =? u32 my_id then mk_conf
      (ip_from_str inet_pton junk_addr ip) port (conf_nodes c) (conf_edges c) (node_sec_done c)
      else c) c)).
    set (c1 := if id =? u32 my_id then _ else c). run (eq_refl (get c1)).
    assert (conf_nodes c1 = conf_nodes c ∧ conf_edges c1 = conf_edges c ∧
      node_sec_done c1 = node_sec_done c) as (E1 & E2 & E3) by (unfold c1; by destruct (_ =? _)).
    unfold add_node_to_list. rewrite decide_False by (rewrite E1; lia).
    exists (My_IP c1), (My_Port c1). unfold modify. by rewrite E1, E2, E3, Hsec. }
  destruct (IH (mk_conf ip port (conf_nodes c ++ [table_node inet_pton junk_addr n])
    (conf_edges c) false)) as (ip' & port' & E'); [done|simpl; rewrite length_app; simpl; lia|].
  run E. exists ip', port'. rewrite E'. simpl. by rewrite <-app_assoc.
Qed.

(** The edge section. *)
Lemma process_edges my_id ns es c :
  Forall (edge_entry_ok ns) es → node_sec_done c = true →
  conf_nodes c = table_node inet_pton junk_addr <$> ns →
  (length (conf_edges c) + length es ≤ MAX_EDGES)%nat →
  for_each (show_edge <$> es) (process my_id) c =
    Ret tt (mk_conf (My_IP c) (My_Port c) (conf_nodes c)
              (conf_edges c ++ (table_edge (conf_nodes c) <$> es)) true).
Proof.
  intros Hok. revert c. induction Hok as [|e es He Hok IH]; intros c Hsec Hnodes Hlen.
  { simpl. rewrite app_nil_r, <-Hsec. by destruct c. }
  rewrite fmap_cons. cbn [for_each]. simpl in Hlen.
  assert (process my_id (show_edge e) c = Ret tt (mk_conf (My_IP c) (My_Port c) (conf_nodes c)
    (conf_edges c ++ [table_edge (conf_nodes c) e]) true)) as E.
  { unfold process_line. run (eq_refl (get c)). rewrite Hsec. cbn [negb].
    destruct e as [[src dst] cst]. destruct He as (Hs & Hd & Hc & Hsin & Hdin).
    unfold edge_line. rewrite scan_edge_show by done. run (eq_refl (get c)).
    assert (∀ x, x ∈ ns.*1.*1 → ∃ i, get_node_from_id (conf_nodes c) x = Some i) as Hfind.
    { intros x Hx. destruct (get_node_from_id (conf_nodes c) x) as [i|] eqn:Hg; [eauto|].
      apply list_elem_of_fmap in Hx as (p & -> & ([[id ip] port] & -> & Hn)%list_elem_of_fmap).
      rewrite get_node_from_id_None in Hg.
      destruct (Hg (table_node inet_pton junk_addr (id, ip, port))); [|done].
      rewrite Hnodes. by apply list_elem_of_fmap_2. }
    destruct (Hfind src Hsin) as [i Hi], (Hfind dst Hdin) as [j Hj].
    unfold table_edge. rewrite Hi, Hj. cbn [src_node dst_node].
    unfold add_edge_to_list. rewrite decide_False by lia. unfold modify. by rewrite Hsec. }
  run E. rewrite IH; simpl; [by rewrite <-app_assoc|done|done|rewrite length_app; simpl; lia].
Qed.
End process.

(** ** Start-up in link-state mode *)

Section startup.
Context (inet_pton : list Z → option Z) (junk_addr : Z).
Context (sys_socket : nat → Z → Z) (sys_ret : nat → Z) (malloc_usable : Z → Z).

Lemma conf_network N me c :
  conf_wf c → nodes_wf N (conf_nodes c) → 1 ≤ me ≤ N →
  (∃ C, 0 ≤ C ∧ N * C < INFINITY ∧ ∀ e, e ∈ conf_edges c → 0 ≤ cost e ≤ C) →
  network_wf N me (conf_nodes c) (conf_edges c).
Proof.
  intros [H1 H2 H3 H4 H5] Hn Hme Hcost.
  assert (∀ id, is_Some (get_node_from_id (conf_nodes c) id) → 1 ≤ id ≤ N) as Hid.
  { intros id [i Hi]. destruct (get_node_from_id_Some _ _ _ Hi) as (n & Hni & <-).
    apply (nw_ids _ _ Hn). by eapply list_elem_of_lookup_2. }
  constructor; [|done|done| |done|].
  - pose proof (nw_len _ _ Hn). unfold MAX_NODES in H2. lia.
  - intros e He. destruct (H5 e He) as (_ & Es & Hs & Ed & Hd).
    rewrite Es in Hs. rewrite Ed in Hd. by split; apply Hid.
  - intros e He. by destruct (H5 e He) as (_ & _ & _ & Ed & _).
Qed.

Lemma init_udp_core st :
  post true (λ _ st', core st' = core st) (init_udp_sock sys_socket sys_ret st).
Proof.
  unfold init_udp_sock, open_udp, next_call, add_fds, mbind, prog_bind. simpl.
  do 3 (destruct (_ <? 0); simpl; [done|]). done.
Qed.
Lemma init_client_core st :
  post true (λ _ st', core st' = core st) (init_client_sock sys_socket sys_ret st).
Proof.
  unfold init_client_sock, open_udp, next_call, add_fds, mbind, prog_bind. simpl.
  do 4 (destruct (_ <? 0); simpl; [done|]). done.
Qed.

Lemma start_ok N my_id file arg junk_ls junk_dv c :
  parse_mode arg = Some MODE_LINK_STATE →
  process_conf inet_pton junk_addr file my_id (mk_conf 0 0 [] [] false) = Ret tt c →
  nodes_wf N (conf_nodes c) → 1 ≤ u32 my_id ≤ N →
  (∃ C, 0 ≤ C ∧ N * C < INFINITY ∧ ∀ e, e ∈ conf_edges c → 0 ≤ cost e ≤ C) →
  (∀ n, arrays_wf (Z.of_nat n) (junk_ls n)) →
  network_wf N (u32 my_id) (conf_nodes c) (conf_edges c) ∧
  post true (λ _ st', ls_inv N (u32 my_id) (conf_nodes c) (conf_edges c) st' ∧
                      Client_List st' = mk_client_list ∅ [])
    (start inet_pton junk_addr sys_socket sys_ret malloc_usable my_id file arg junk_ls junk_dv).
Proof.
  intros Hm Hc Hn Hme Hcost Hjunk.
  assert (conf_wf c) as Hwf.
  { eapply process_conf_wf; [exact Hc|]. constructor; simpl; [done|lia|lia|set_solver|set_solver]. }
  pose proof (conf_network N (u32 my_id) c Hwf Hn Hme Hcost) as Hnet. split; [done|].
  unfold start. rewrite Hm, Hc. set (st0 := set_edges _ _).
  apply post_bind. eapply post_weaken; [apply init_client_core|]. intros [] st1 H1.
  apply post_bind. eapply post_weaken; [apply init_udp_core|]. intros [] st2 H2.
  apply post_bind. eapply post_weaken; [apply init_udp_core|]. intros [] st3 H3.
  assert (core st3 = core st0) as Hcore by congruence. clear H1 H2 H3.
  apply core_fields in Hcore as (E1 & E2 & E3 & E4 & E5 & E6 & E7). simpl in *.
  apply post_bind. unfold init_link_state. wp. wp. rewrite E4.
  set (st4 := set_ls (junk_ls _) st3).
  assert (ls_pre N (u32 my_id) (conf_nodes c) (conf_edges c) st4) as Hp.
  { constructor; simpl; rewrite ?E4, ?E5; try done.
    - apply Forall_Forall2_diag, Forall_true. by intros.
    - apply same_edge_refl.
    - rewrite <-(nw_len _ _ Hn). apply Hjunk.
    - intros e He. destruct (cf_ptrs _ Hwf e He) as (-> & _). done. }
  eapply post_weaken.
  { apply post_and; [by apply recalculate_routes_ok|].
    exact (keeps_recalculate (mk_client_list ∅ []) st4 E3). }
  intros [] st5 [(Hinv & _) Hcl]. eapply post_weaken.
  { apply post_and; [by apply send_heartbeats_ok|]. by apply keeps_send_heartbeats. }
  by intros [] st6 [(? & _) ?].
Qed.
End startup.

(** ** Properties *)

(** C38: a configuration file reads back.  For any nodes and links that fit the
    tables, [process_conf] run on their text builds exactly the corresponding
    node and edge tables, with the addresses, the control port one above the
    data port, and every edge pointing to the nodes of its ids. *)
Theorem conf_roundtrip inet_pton junk_addr my_id ns es :
  Forall node_entry_ok ns → Forall (edge_entry_ok ns) es →
  (length ns ≤ MAX_NODES)%nat → (length es ≤ MAX_EDGES)%nat →
  ∃ ip port, process_conf inet_pton junk_addr (Some (show_conf ns es)) my_id (mk_conf 0 0 [] [] false) =
    Ret tt (mk_conf ip port (table_node inet_pton junk_addr <$> ns)
              (table_edge (table_node inet_pton junk_addr <$> ns) <$> es) true).
Proof.
  intros Hns Hes Hln Hle. unfold process_conf, show_conf.
  rewrite read_lines_concat; [| |lia].
  2:{ apply Forall_app_2; [|apply Forall_app_2].
      - apply Forall_fmap. eapply Forall_impl; [exact Hns|]. apply show_node_line.
      - constructor; [|done]. exists []. split_and!; [done|simpl; lia|set_solver].
      - apply Forall_fmap. eapply Forall_impl; [exact Hes|]. apply show_edge_line. }
  rewrite for_each_app.
  destruct (process_nodes inet_pton junk_addr my_id ns (mk_conf 0 0 [] [] false)) as (ip & port & E);
    [done|done|simpl; lia|].
  run E. exists ip, port. cbn [app for_each].
  run (eq_refl (process_line inet_pton junk_addr my_id [10]
    (mk_conf ip port (table_node inet_pton junk_addr <$> ns) [] false))).
  by rewrite (process_edges _ _ my_id ns).
Qed.

(** The node starts with the right routes.  When [main] is run in
    link-state mode on a configuration whose nodes have the ids [1..N] and
    whose path costs fit in 32 bits, it reaches the event loop with no
    undefined behaviour (or exits because a socket call failed), and there the
    tables are the configured ones, the routes are shortest and the client
    table is empty: the state in which [node_invariant] starts. *)
Theorem start_routes inet_pton junk_addr sys_socket sys_ret malloc_usable
    N my_id file arg junk_ls junk_dv c :
  parse_mode arg = Some MODE_LINK_STATE →
  process_conf inet_pton junk_addr file my_id (mk_conf 0 0 [] [] false) = Ret tt c →
  nodes_wf N (conf_nodes c) → 1 ≤ u32 my_id ≤ N →
  (∃ C, 0 ≤ C ∧ N * C < INFINITY ∧ ∀ e, e ∈ conf_edges c → 0 ≤ cost e ≤ C) →
  (∀ n, arrays_wf (Z.of_nat n) (junk_ls n)) →
  network_wf N (u32 my_id) (conf_nodes c) (conf_edges c) ∧
  match start inet_pton junk_addr sys_socket sys_ret malloc_usable my_id file arg junk_ls junk_dv with
  | Ret _ st => ls_inv N (u32 my_id) (conf_nodes c) (conf_edges c) st ∧
                Client_List st = mk_client_list ∅ []
  | Exited _ _ => True
  | Undef | Fuel => False
  end.
Proof.
  intros Hm Hc Hn Hme Hcost Hjunk.
  destruct (start_ok inet_pton junk_addr sys_socket sys_ret malloc_usable N my_id file arg junk_ls
    junk_dv c) as [Hnet H]; [done..|]. split; [done|].
  by destruct (start _ _ _ _ _ _ _ _ _ _).
Qed.

(** ** Witnesses: the configuration file of the repository *)

(** "127.0.0.1" *)
Definition local_ip : list Z := [49; 50; 55; 46; 48; 46; 48; 46; 49].
Definition simple_nodes : list (Z * list Z * Z) :=
  [(1, local_ip, 5010); (2, local_ip, 5020); (3, local_ip, 5030); (4, local_ip, 5040)].
Definition simple_edges : list (Z * Z * Z) :=
  [(1, 2, 1); (1, 3, 1); (2, 1, 1); (2, 4, 1); (3, 1, 1); (3, 4, 1); (4, 2, 1); (4, 3, 1)].
Definition demo_pton (ip : list Z) : option Z :=
  if decide (ip = local_ip) then Some 2130706433 else None.

Lemma conf_roundtrip_witness :
  ∃ ip port, process_conf demo_pton 0 (Some (show_conf simple_nodes simple_edges)) 1
      (mk_conf 0 0 [] [] false) =
    Ret tt (mk_conf ip port (table_node demo_pton 0 <$> simple_nodes)
              (table_edge (table_node demo_pton 0 <$> simple_nodes) <$> simple_edges) true).
Proof.
  apply (conf_roundtrip demo_pton 0 1 simple_nodes simple_edges); [| |simpl; unfold MAX_NODES; lia
    |simpl; unfold MAX_EDGES; lia].
  - unfold simple_nodes.
    repeat (constructor; [split_and!; [done..|simpl; lia|];
      intros c Hc; unfold local_ip in Hc; elem_cases Hc; done|]). constructor.
  - unfold simple_edges. repeat (constructor; [split_and!; [done..| |]; simpl; set_solver|]). constructor.
Defined.

Definition demo_conf : conf :=
  mk_conf 2130706433 5010 (table_node demo_pton 0 <$> simple_nodes)
    (table_edge (table_node demo_pton 0 <$> simple_nodes) <$> simple_edges) true.
Definition demo_junk (n : nat) : link_state :=
  mk_ls (replicate n 7) (replicate n true) (replicate n 9) (Z.of_nat n).

Lemma start_routes_witness :
  network_wf 4 1 (conf_nodes demo_conf) (conf_edges demo_conf) ∧
  match start demo_pton 0 demo_sock demo_ret id 1 (Some (show_conf simple_nodes simple_edges)) [76; 83]
          demo_junk (λ _ _, []) with
  | Ret _ st => ls_inv 4 1 (conf_nodes demo_conf) (conf_edges demo_conf) st ∧
                Client_List st = mk_client_list ∅ []
  | Exited _ _ => True
  | Undef | Fuel => False
  end.
Proof.
  apply (start_routes demo_pton 0 demo_sock demo_ret id 4 1 (Some (show_conf simple_nodes simple_edges))
           [76; 83] demo_junk (λ _ _, []) demo_conf).
  - reflexivity.
  - vm_compute. reflexivity.
  - constructor; [done| |].
    + apply (bool_decide_unpack (NoDup (node_id <$> conf_nodes demo_conf))). vm_compute. exact I.
    + intros n Hn. unfold demo_conf, simple_nodes in Hn. simpl in Hn. elem_cases Hn; simpl; lia.
  - done.
  - exists 1. split_and!; [lia|unfold INFINITY; lia|].
    intros e He. unfold demo_conf, simple_edges in He. simpl in He. elem_cases He; simpl; lia.
  - intros n. unfold demo_junk. constructor; simpl; rewrite ?length_replicate; done.
Defined.
