(* ===== verification/Malloc.v ===== *)
(** * The explicit-free-list allocator

    CS449/malloclab-handout/mm.c over the simulated break of memlib.c.  Memory
    is a map from byte addresses (multiples of 8) to 64-bit words; pointers are
    addresses and [NULL] is 0.  A word that was never written has no value, and
    reading it, like any access outside the break, is undefined behaviour. *)
From S2P Require Import Prelude.
Open Scope Z_scope.

(** ** Words *)

Definition wsize : Z := 8.
Definition dsize : Z := 16.
Definition min_block_size : Z := 32.
Definition chunksize : Z := Z.shiftl 1 12.
Definition alloc_mask : Z := 1.
Definition size_mask : Z := 18446744073709551600.

(** [round_up], [pack], [extract_size], [extract_alloc] *)
Definition round_up (size n : Z) : Z := u64 (n * (u64 (size + (n - 1)) / n)).
Definition pack (size : Z) (alloc : bool) : Z := if alloc then Z.lor size alloc_mask else size.
Definition extract_size (word : Z) : Z := Z.land word size_mask.
Definition extract_alloc (word : Z) : bool := negb (Z.land word alloc_mask =? 0).

(** ** memlib.c *)

Definition MAX_HEAP : Z := 40 * Z.shiftl 1 20.

Record heap := mk_heap {
  mem : gmap Z Z;
  mem_start_brk : Z;
  mem_brk : Z;
  mem_max_addr : Z;
  heap_start : Z;
  free_list_head : Z
}.

Definition set_mem (m : gmap Z Z) (h : heap) : heap :=
  mk_heap m (mem_start_brk h) (mem_brk h) (mem_max_addr h) (heap_start h) (free_list_head h).
Definition set_brk (b : Z) (h : heap) : heap :=
  mk_heap (mem h) (mem_start_brk h) b (mem_max_addr h) (heap_start h) (free_list_head h).
Definition set_heap_start (a : Z) (h : heap) : heap :=
  mk_heap (mem h) (mem_start_brk h) (mem_brk h) (mem_max_addr h) a (free_list_head h).
Definition set_head (a : Z) (h : heap) : heap :=
  mk_heap (mem h) (mem_start_brk h) (mem_brk h) (mem_max_addr h) (heap_start h) a.

(** [mem_init]: [base] is the block of [MAX_HEAP] bytes from [malloc]. *)
Definition mem_init (base : Z) : heap := mk_heap ∅ base base (base + MAX_HEAP) 0 0.
Definition mem_reset_brk (h : heap) : heap := set_brk (mem_start_brk h) h.

(** [mem_sbrk]: [None] is [(void * )-1]. *)
Definition mem_sbrk (incr : Z) : prog heap (option Z) := λ h,
  if mem_brk h + incr >? mem_max_addr h then Ret None h
  else Ret (Some (mem_brk h)) (set_brk (mem_brk h + incr) h).
Definition mem_heap_lo (h : heap) : Z := mem_start_brk h.
Definition mem_heap_hi (h : heap) : Z := mem_brk h - 1.
Definition mem_heapsize (h : heap) : Z := mem_brk h - mem_start_brk h.

(** ** Loads and stores *)

(** A word access that stays below the break. *)
Definition word_ok (h : heap) (a : Z) : bool :=
  (mem_start_brk h <=? a) && (a + 8 <=? mem_brk h) && (a mod 8 =? 0).
Definition load (a : Z) : prog heap Z :=
  reads (λ h, if word_ok h a then mem h !! a else None).
Definition store (a v : Z) : prog heap unit :=
  updates (λ h, if word_ok h a then Some (set_mem (<[a := v]> (mem h)) h) else None).

(** ** Blocks *)

Definition get_size (block : Z) : prog heap Z := w ← load block; mret (extract_size w).
Definition get_alloc (block : Z) : prog heap bool := w ← load block; mret (extract_alloc w).
Definition is_free (block : Z) : prog heap bool := a ← get_alloc block; mret (negb a).

Definition payload_to_header (bp : Z) : Z := bp - 8.
Definition header_to_payload (block : Z) : Z := block + 8.
(** [block->payload.data + get_size(block) - dsize] *)
Definition header_to_footer (block : Z) : prog heap Z :=
  size ← get_size block; mret (block + 8 + size - dsize).

Definition write_header (block size : Z) (alloc : bool) : prog heap unit :=
  store block (pack size alloc).
Definition write_footer (block size : Z) (alloc : bool) : prog heap unit :=
  footerp ← header_to_footer block; store footerp (pack size alloc).

Definition find_next (block : Z) : prog heap Z := size ← get_size block; mret (block + size).
Definition find_prev_footer (block : Z) : Z := block - 8.
Definition find_prev (block : Z) : prog heap Z :=
  let footerp := find_prev_footer block in
  w ← load footerp;
  let size := extract_size w in
  if size =? 0 then mret (find_prev_footer block) else mret (block - size).

(** [block->payload.links.prev] and [.next] *)
Definition prev_of (block : Z) : Z := block + 8.
Definition next_of (block : Z) : Z := block + 16.

(** ** The free list *)

Definition insert_block (free_block : Z) : prog heap unit :=
  h ← get;
  (if free_list_head h =? 0
   then store (next_of free_block) 0;; store (prev_of free_block) 0
   else
     let old_root := free_list_head h in
     store (next_of free_block) old_root;;
     store (prev_of free_block) 0;;
     store (prev_of old_root) free_block);;
  modify (set_head free_block).

Definition remove_block (free_block : Z) : prog heap unit :=
  if free_block =? 0 then mret tt
  else
    previous ← load (prev_of free_block);
    next ← load (next_of free_block);
    if (previous =? 0) && (next =? 0) then modify (set_head 0)
    else if previous =? 0 then modify (set_head next);; store (prev_of next) 0
    else if next =? 0 then store (next_of previous) 0
    else store (next_of previous) next;; store (prev_of next) previous.

(** The loop of [find_fit]: the best block so far with its size, [None] while
    [first] is true. *)
Fixpoint find_fit_loop (fuel : nat) (asize curr_block : Z) (best : option (Z * Z))
    : prog heap (option (Z * Z)) :=
  match fuel with
  | O => λ _, Fuel
  | S fuel' =>
      if curr_block =? 0 then mret best
      else
        curr_size ← get_size curr_block;
        best' ← (if curr_size >=? asize
          then
            alloc ← get_alloc curr_block;
            mret (if negb alloc
                  then
                    let best1 := match best with
                                 | None => (curr_block, curr_size)
                                 | Some b => b
                                 end in
                    if curr_size <? best1.2 then Some (curr_block, curr_size) else Some best1
                  else best)
          else mret best);
        next ← load (next_of curr_block);
        find_fit_loop fuel' asize next best'
  end.

(** One round per block is enough: blocks have at least 32 bytes. *)
Definition list_fuel (h : heap) : nat := S (Z.to_nat (mem_heapsize h / 32)).

(** [find_fit]: 0 is [NULL]. *)
Definition find_fit (asize : Z) : prog heap Z :=
  h ← get;
  if free_list_head h =? 0 then mret 0
  else
    best ← find_fit_loop (list_fuel h) asize (free_list_head h) None;
    mret (match best with Some (b, _) => b | None => 0 end).

(** ** Coalescing, splitting, extending *)

Definition coalesce_block (block : Z) : prog heap Z :=
  block_before ← find_prev block;
  block_after ← find_next block;
  before_free ← is_free block_before;
  after_alloc ← get_alloc block_after;
  if before_free && after_alloc
  then
    remove_block block;;
    s0 ← get_size block_before; s1 ← get_size block;
    let new_size := u64 (s0 + s1) in
    write_header block_before new_size false;;
    write_footer block_before new_size false;;
    mret block_before
  else if negb before_free && negb after_alloc
  then
    remove_block block_after;;
    s1 ← get_size block; s2 ← get_size block_after;
    let new_size := u64 (s1 + s2) in
    write_header block new_size false;;
    write_footer block new_size false;;
    mret block
  else if before_free && negb after_alloc
  then
    s0 ← get_size block_before; s1 ← get_size block; s2 ← get_size block_after;
    let new_size := u64 (s0 + s1 + s2) in
    remove_block block;;
    remove_block block_after;;
    write_header block_before new_size false;;
    write_footer block_before new_size false;;
    mret block_before
  else mret block.

Definition split_block (block asize : Z) : prog heap unit :=
  block_size ← get_size block;
  let split_size := u64 (block_size - asize) in
  if split_size >=? min_block_size
  then
    write_header block asize true;;
    write_footer block asize true;;
    next_block ← find_next block;
    write_header next_block split_size false;;
    write_footer next_block split_size false;;
    insert_block next_block
  else mret tt.

(** [extend_heap]: 0 is [NULL]. *)
Definition extend_heap (size : Z) : prog heap Z :=
  let size := round_up size dsize in
  let size := if size <? min_block_size then min_block_size else size in
  r ← mem_sbrk size;
  match r with
  | None => mret 0
  | Some bp =>
      let new_block := payload_to_header bp in
      last_block ← find_prev new_block;
      alloc ← get_alloc last_block;
      if negb alloc
      then
        last_size ← get_size last_block;
        write_header last_block (u64 (last_size + size)) false;;
        write_footer last_block (u64 (last_size + size)) false;;
        epilogue ← find_next last_block;
        write_header epilogue 0 true;;
        mret last_block
      else
        write_header new_block size false;;
        write_footer new_block size false;;
        insert_block new_block;;
        epilogue ← find_next new_block;
        write_header epilogue 0 true;;
        mret new_block
  end.

(** ** The interface *)

(** [mm_init]: its result. *)
Definition mm_init : prog heap Z :=
  modify (set_head 0);;
  r ← mem_sbrk (2 * wsize);
  match r with
  | None => mret (-1)
  | Some start =>
      store start (pack 0 true);;
      store (start + 8) (pack 0 true);;
      modify (set_heap_start (start + 8));;
      free_block ← extend_heap chunksize;
      if free_block =? 0 then mret (-1) else mret 0
  end.

Definition adjust_size (size : Z) : Z :=
  if size <=? dsize then min_block_size else round_up (u64 (size + dsize)) dsize.

(** [mm_malloc]: it calls itself again after every extension. *)
Fixpoint mm_malloc_rec (fuel : nat) (size : Z) : prog heap Z :=
  match fuel with
  | O => λ _, Fuel
  | S fuel' =>
      if size =? 0 then mret 0
      else
        let asize := adjust_size size in
        alloc_block ← find_fit asize;
        if alloc_block =? 0
        then
          r ← extend_heap chunksize;
          if r =? 0 then mret 0 else mm_malloc_rec fuel' size
        else
          remove_block alloc_block;;
          block_size ← get_size alloc_block;
          write_header alloc_block block_size true;;
          write_footer alloc_block block_size true;;
          split_block alloc_block asize;;
          mret (header_to_payload alloc_block)
  end.

(** Each extension takes [chunksize] bytes of what is left below the limit. *)
Definition malloc_fuel (h : heap) : nat :=
  S (S (Z.to_nat ((mem_max_addr h - mem_brk h) / chunksize))).
Definition mm_malloc (size : Z) : prog heap Z := λ h, mm_malloc_rec (malloc_fuel h) size h.

Definition mm_free (bp : Z) : prog heap unit :=
  if bp =? 0 then mret tt
  else
    let to_free := payload_to_header bp in
    alloc ← get_alloc to_free;
    if negb alloc then mret tt
    else
      size ← get_size to_free;
      if size =? 0 then mret tt
      else
        s1 ← get_size to_free;
        write_header to_free s1 false;;
        s2 ← get_size to_free;
        write_footer to_free s2 false;;
        insert_block to_free;;
        _ ← coalesce_block to_free;
        mret tt.

(** [in_heap] and [check_heap]; [block_t] has 24 bytes. *)
Definition in_heap (p : Z) (h : heap) : bool := (p <=? mem_heap_hi h) && (p >=? mem_heap_lo h).

Fixpoint check_loop (fuel : nat) (curr : Z) : prog heap bool :=
  match fuel with
  | O => λ _, Fuel
  | S fuel' =>
      next ← find_next curr;
      h ← get;
      if next + 24 <? mem_heap_hi h
      then
        hdr ← load curr;
        ftr ← load (find_prev_footer next);
        if negb (hdr =? ftr) then mret false else check_loop fuel' next
      else mret true
  end.
Definition check_heap : prog heap bool :=
  h ← get;
  if heap_start h =? 0 then mret false else check_loop (list_fuel h) (heap_start h).

(** What the program that uses the allocator does with its payloads. *)
Definition user_store (a v : Z) : prog heap unit := store a v.

(** ** Specification: the heap as a row of blocks

    A block is its size and whether it is allocated; the row starts at
    [heap_start] and is closed by the epilogue. *)

Abbreviation blk := (Z * bool)%type.

Definition blk_ok (b : blk) : Prop := min_block_size ≤ b.1 ∧ b.1 mod 16 = 0.

Fixpoint total (bs : list blk) : Z :=
  match bs with [] => 0 | b :: bs' => b.1 + total bs' end.

(** Header and footer of every block. *)
Fixpoint seg (m : gmap Z Z) (a : Z) (bs : list blk) : Prop :=
  match bs with
  | [] => True
  | (s, al) :: bs' =>
      m !! a = Some (pack s al) ∧ m !! (a + s - 8) = Some (pack s al) ∧ seg m (a + s) bs'
  end.

(** The addresses of those words, of the free blocks, and of the allocated
    blocks with their sizes. *)
Fixpoint bounds (a : Z) (bs : list blk) : list Z :=
  match bs with [] => [] | (s, _) :: bs' => a :: (a + s - 8) :: bounds (a + s) bs' end.
Fixpoint free_addrs (a : Z) (bs : list blk) : list Z :=
  match bs with
  | [] => []
  | (s, al) :: bs' => (if al : bool then [] else [a]) ++ free_addrs (a + s) bs'
  end.
Fixpoint alloc_addrs (a : Z) (bs : list blk) : list (Z * Z) :=
  match bs with
  | [] => []
  | (s, al) :: bs' => (if al : bool then [(a, s)] else []) ++ alloc_addrs (a + s) bs'
  end.

(** The free list: doubly linked, [NULL] at both ends. *)
Fixpoint dll (m : gmap Z Z) (prev head : Z) (l : list Z) : Prop :=
  match l with
  | [] => head = 0
  | x :: l' => head = x ∧ m !! prev_of x = Some prev ∧
      ∃ next, m !! next_of x = Some next ∧ dll m x next l'
  end.

(** A word of the payload of an allocated block. *)
Definition data_word (a : Z) (bs : list blk) (w : Z) : Prop :=
  ∃ x s, (x, s) ∈ alloc_addrs a bs ∧ x + 8 ≤ w < x + s - 8.

(** Two free blocks are never neighbours. *)
Fixpoint coalesced (bs : list blk) : Prop :=
  match bs with
  | (_, al1) :: ((_, al2) :: _) as bs' => (al1 || al2 = true) ∧ coalesced bs'
  | _ => True
  end.

(** The layout of the heap, with a free list [l] that may miss some free blocks
    while an operation runs. *)
Record layout (h : heap) (bs : list blk) (l : list Z) : Prop := {
  lay_base : 0 < mem_start_brk h ∧ mem_start_brk h mod 16 = 0;
  lay_start : heap_start h = mem_start_brk h + 8;
  lay_brk : mem_brk h = heap_start h + total bs + 8;
  lay_max : mem_brk h ≤ mem_max_addr h < 9223372036854775808;
  lay_ok : Forall blk_ok bs;
  lay_pro : mem h !! mem_start_brk h = Some (pack 0 true);
  lay_seg : seg (mem h) (heap_start h) bs;
  lay_epi : mem h !! (heap_start h + total bs) = Some (pack 0 true);
  lay_dll : dll (mem h) 0 (free_list_head h) l;
  lay_nodup : NoDup l;
  lay_sub : ∀ x, x ∈ l → x ∈ free_addrs (heap_start h) bs
}.

(** The invariant between calls. *)
Record heap_inv (h : heap) (bs : list blk) : Prop := {
  hi_list : ∃ l, layout h bs l ∧ l ≡ₚ free_addrs (heap_start h) bs;
  hi_coalesced : coalesced bs
}.

(** ** Lemmas: words *)

Lemma size_mask_spec w : 0 ≤ w < 18446744073709551616 → extract_size w = 16 * (w / 16).
Proof.
  intros Hw. unfold extract_size.
  change size_mask with (Z.shiftl (Z.ones 60) 4).
  replace (16 * (w / 16)) with (Z.shiftl (Z.shiftr w 4) 4)
    by (rewrite Z.shiftl_mul_pow2, Z.shiftr_div_pow2 by lia; change (2 ^ 4) with 16; lia).
  apply Z.bits_inj'. intros i Hi. rewrite Z.land_spec, !Z.shiftl_spec by lia.
  destruct (decide (i < 4)) as [Hlt|Hge].
  - rewrite !(Z.testbit_neg_r _ (i - 4)) by lia. by rewrite andb_false_r.
  - rewrite Z.shiftr_spec by lia. replace (i - 4 + 4) with i by lia.
    destruct (decide (i < 64)).
    + rewrite Z.ones_spec_low by lia. by rewrite andb_true_r.
    + rewrite Z.ones_spec_high by lia. rewrite andb_false_r. symmetry.
      destruct (decide (w = 0)) as [->|]; [by rewrite Z.testbit_0_l|].
      apply Z.bits_above_log2; [lia|]. apply Z.log2_lt_pow2; [lia|].
      apply Z.lt_le_trans with (2 ^ 64); [change (2 ^ 64) with 18446744073709551616; lia|].
      apply Z.pow_le_mono_r; lia.
Qed.

Lemma pack_true s : s mod 16 = 0 → pack s true = s + 1.
Proof.
  intros Hs. unfold pack, alloc_mask. rewrite <-Z.lxor_lor, <-Z.add_nocarry_lxor; [done|..];
    change 1 with (Z.ones 1); rewrite Z.land_ones by lia; change (2 ^ 1) with 2;
    Z.to_euclidean_division_equations; lia.
Qed.

(** [pack] and the two [extract] functions are inverse on aligned sizes. *)
Lemma extract_size_pack s al :
  0 ≤ s < 18446744073709551616 → s mod 16 = 0 → extract_size (pack s al) = s.
Proof.
  intros Hs Hm. destruct al.
  - rewrite pack_true, size_mask_spec by (done || Z.to_euclidean_division_equations; lia).
    Z.to_euclidean_division_equations; lia.
  - unfold pack. rewrite size_mask_spec by done. Z.to_euclidean_division_equations; lia.
Qed.

Lemma extract_alloc_pack s al : s mod 16 = 0 → extract_alloc (pack s al) = al.
Proof.
  intros Hm. unfold extract_alloc, alloc_mask. change 1 with (Z.ones 1).
  rewrite Z.land_ones by lia. change (2 ^ 1) with 2. destruct al.
  - rewrite pack_true by done. destruct (Z.eqb_spec ((s + 1) mod 2) 0); [|done].
    Z.to_euclidean_division_equations; lia.
  - unfold pack. destruct (Z.eqb_spec (s mod 2) 0); [done|]. Z.to_euclidean_division_equations; lia.
Qed.

Lemma round_up_16 size : 0 ≤ size < 18446744073709551600 - 15 →
  round_up size 16 mod 16 = 0 ∧ size ≤ round_up size 16 < size + 16.
Proof.
  intros H. unfold round_up. rewrite (u64_small (size + _)) by lia.
  rewrite u64_small by (Z.to_euclidean_division_equations; lia).
  Z.to_euclidean_division_equations; lia.
Qed.

(** ** Lemmas: rows of blocks *)

Lemma total_app b1 b2 : total (b1 ++ b2) = total b1 + total b2.
Proof. induction b1 as [|b b1 IH]; simpl; lia. Qed.

Lemma total_nonneg bs : Forall blk_ok bs → 0 ≤ total bs ∧ total bs mod 16 = 0.
Proof.
  induction 1 as [|b bs [H1 H2] _ [IH1 IH2]]; simpl; [done|]. unfold min_block_size in *.
  split; [lia|]. Z.to_euclidean_division_equations; lia.
Qed.

Lemma seg_app m a b1 b2 : seg m a (b1 ++ b2) ↔ seg m a b1 ∧ seg m (a + total b1) b2.
Proof.
  revert a. induction b1 as [|[s al] b1 IH]; intros a; simpl.
  - rewrite Z.add_0_r. naive_solver.
  - rewrite IH. replace (a + s + total b1) with (a + (s + total b1)) by lia. naive_solver.
Qed.

Lemma bounds_app a b1 b2 : bounds a (b1 ++ b2) = bounds a b1 ++ bounds (a + total b1) b2.
Proof.
  revert a. induction b1 as [|[s al] b1 IH]; intros a; simpl; [by rewrite Z.add_0_r|].
  rewrite IH. by replace (a + s + total b1) with (a + (s + total b1)) by lia.
Qed.

Lemma free_addrs_app a b1 b2 :
  free_addrs a (b1 ++ b2) = free_addrs a b1 ++ free_addrs (a + total b1) b2.
Proof.
  revert a. induction b1 as [|[s al] b1 IH]; intros a; simpl; [by rewrite Z.add_0_r|].
  rewrite IH, app_assoc. by replace (a + s + total b1) with (a + (s + total b1)) by lia.
Qed.

Lemma alloc_addrs_app a b1 b2 :
  alloc_addrs a (b1 ++ b2) = alloc_addrs a b1 ++ alloc_addrs (a + total b1) b2.
Proof.
  revert a. induction b1 as [|[s al] b1 IH]; intros a; simpl; [by rewrite Z.add_0_r|].
  rewrite IH, app_assoc. by replace (a + s + total b1) with (a + (s + total b1)) by lia.
Qed.

(** A free or allocated block is a block of the row. *)
Lemma free_addrs_split a bs x :
  x ∈ free_addrs a bs → ∃ pre s post, bs = pre ++ (s, false) :: post ∧ x = a + total pre.
Proof.
  revert a. induction bs as [|[s al] bs IH]; intros a Hx; simpl in Hx; [set_solver|].
  apply elem_of_app in Hx as [Hx|Hx].
  - destruct al; [set_solver|]. apply list_elem_of_singleton in Hx as ->.
    exists [], s, bs. simpl. split; [done|lia].
  - destruct (IH _ Hx) as (pre & s' & post & -> & ->). exists ((s, al) :: pre), s', post.
    simpl. split; [done|lia].
Qed.

Lemma alloc_addrs_split a bs x s :
  (x, s) ∈ alloc_addrs a bs → ∃ pre post, bs = pre ++ (s, true) :: post ∧ x = a + total pre.
Proof.
  revert a. induction bs as [|[s' al] bs IH]; intros a Hx; simpl in Hx; [set_solver|].
  apply elem_of_app in Hx as [Hx|Hx].
  - destruct al; [|set_solver]. apply list_elem_of_singleton in Hx. simplify_eq.
    exists [], bs. simpl. split; [done|lia].
  - destruct (IH _ Hx) as (pre & post & -> & ->). exists ((s', al) :: pre), post.
    simpl. split; [done|lia].
Qed.

(** The words of a row lie in its range, link words inside blocks. *)
Lemma bounds_range a bs w : Forall blk_ok bs → w ∈ bounds a bs → a ≤ w ≤ a + total bs - 8.
Proof.
  intros Hok. revert a. induction Hok as [|[s al] bs [H1 H2] Hok IH]; intros a Hw; simpl in Hw; [set_solver|].
  destruct (total_nonneg bs Hok). unfold min_block_size in *. simpl in *.
  apply elem_of_cons in Hw as [->|[->|Hw]%elem_of_cons]; [lia|lia|]. specialize (IH _ Hw). lia.
Qed.

Lemma free_addrs_range a bs x : Forall blk_ok bs → x ∈ free_addrs a bs → a ≤ x ≤ a + total bs - 32.
Proof.
  intros Hok (pre & s & post & -> & ->)%free_addrs_split.
  apply Forall_app in Hok as [Hpre [[Hs _] Hpost]%Forall_cons].
  destruct (total_nonneg _ Hpre), (total_nonneg _ Hpost). rewrite total_app. simpl in *.
  unfold min_block_size in *. lia.
Qed.

(** No header or footer is a link word of a free block. *)
Lemma bounds_not_link a bs w x :
  Forall blk_ok bs → w ∈ bounds a bs → x ∈ free_addrs a bs → w ≠ x + 8 ∧ w ≠ x + 16.
Proof.
  intros Hok Hw (pre & s & post & -> & ->)%free_addrs_split.
  apply Forall_app in Hok as [Hpre [[Hs _] Hpost]%Forall_cons]. unfold min_block_size in *.
  rewrite bounds_app in Hw. simpl in *.
  apply elem_of_app in Hw as [Hw|[->|[->|Hw]%elem_of_cons]%elem_of_cons]; [|lia|lia|].
  - apply (bounds_range a) in Hw; [lia|done].
  - apply bounds_range in Hw; [lia|done].
Qed.

(** No payload word of an allocated block is a link word of a free block, nor a
    header or footer. *)
Lemma data_not_link a bs w x :
  Forall blk_ok bs → data_word a bs w → x ∈ free_addrs a bs → w ≠ x + 8 ∧ w ≠ x + 16.
Proof.
  intros Hok (y & t & Hy & Hw) (pre & s & post & -> & ->)%free_addrs_split.
  apply Forall_app in Hok as [Hpre [[Hs _] Hpost]%Forall_cons]. unfold min_block_size in *.
  rewrite alloc_addrs_app in Hy. simpl in *. apply elem_of_app in Hy as [Hy|Hy].
  - apply alloc_addrs_split in Hy as (p1 & p2 & -> & ->). rewrite total_app. simpl.
    apply Forall_app in Hpre as [_ [_ Hp2]%Forall_cons]. destruct (total_nonneg _ Hp2). lia.
  - apply alloc_addrs_split in Hy as (p1 & p2 & -> & ->).
    apply Forall_app in Hpost as [Hp1 _]. destruct (total_nonneg _ Hp1). lia.
Qed.

Lemma seg_frame m m' a bs :
  seg m a bs → (∀ w, w ∈ bounds a bs → m' !! w = m !! w) → seg m' a bs.
Proof.
  revert a. induction bs as [|[s al] bs IH]; intros a Hseg Hm; simpl in *; [done|].
  destruct Hseg as (H1 & H2 & H3). split_and!.
  - rewrite Hm; [done|set_solver].
  - rewrite Hm; [done|set_solver].
  - apply IH; [done|]. set_solver.
Qed.

Lemma dll_frame m m' p hd l :
  dll m p hd l → (∀ x, x ∈ l → m' !! (x + 8) = m !! (x + 8) ∧ m' !! (x + 16) = m !! (x + 16)) →
  dll m' p hd l.
Proof.
  revert p hd. induction l as [|x l IH]; intros p hd Hd Hm; simpl in *; [done|].
  destruct Hd as (-> & Hp & nx & Hn & Hd). destruct (Hm x) as [E1 E2]; [set_solver|].
  split; [done|]. unfold prev_of, next_of in *. rewrite E1, E2. split; [done|].
  exists nx. split; [done|]. apply IH; [done|set_solver].
Qed.

Lemma free_addrs_apart a bs x y :
  Forall blk_ok bs → x ∈ free_addrs a bs → y ∈ free_addrs a bs → x ≠ y → x + 32 ≤ y ∨ y + 32 ≤ x.
Proof.
  intros Hok (pre & s & post & -> & ->)%free_addrs_split Hy Hne.
  apply Forall_app in Hok as [Hpre [[Hs _] Hpost]%Forall_cons]. unfold min_block_size in *.
  rewrite free_addrs_app in Hy. simpl in *. apply elem_of_app in Hy as [Hy|Hy].
  - apply free_addrs_range in Hy; [lia|done].
  - apply elem_of_cons in Hy as [->|Hy]; [done|]. apply free_addrs_range in Hy; [lia|done].
Qed.

(** ** Lemmas: the doubly linked list *)

(** A list segment that ends with a pointer to [nx]. *)
Fixpoint dlpart (m : gmap Z Z) (prev head : Z) (l : list Z) (nx : Z) : Prop :=
  match l with
  | [] => head = nx
  | x :: l' => head = x ∧ m !! prev_of x = Some prev ∧
      ∃ next, m !! next_of x = Some next ∧ dlpart m x next l' nx
  end.
Definition last_of (p : Z) (l : list Z) : Z := default p (last l).

Lemma last_of_cons p x l : last_of p (x :: l) = last_of x l.
Proof. unfold last_of. rewrite last_cons. by destruct (last l). Qed.

Lemma dll_app m p hd l1 l2 :
  dll m p hd (l1 ++ l2) ↔ ∃ c, dlpart m p hd l1 c ∧ dll m (last_of p l1) c l2.
Proof.
  revert p hd. induction l1 as [|x l1 IH]; intros p hd; simpl.
  - split; [by exists hd|]. by intros (c & -> & ?).
  - rewrite last_of_cons. setoid_rewrite IH. naive_solver.
Qed.

Lemma dlpart_snoc m p hd l y nx :
  dlpart m p hd (l ++ [y]) nx ↔
  dlpart m p hd l y ∧ m !! prev_of y = Some (last_of p l) ∧ m !! next_of y = Some nx.
Proof.
  revert p hd. induction l as [|x l IH]; intros p hd; simpl.
  - unfold last_of. simpl. split; [|naive_solver]. intros (-> & ? & n & ? & ->). done.
  - rewrite last_of_cons. setoid_rewrite IH. naive_solver.
Qed.

Lemma dlpart_frame m m' p hd l nx :
  dlpart m p hd l nx →
  (∀ x, x ∈ l → m' !! (x + 8) = m !! (x + 8) ∧ m' !! (x + 16) = m !! (x + 16)) →
  dlpart m' p hd l nx.
Proof.
  revert p hd. induction l as [|x l IH]; intros p hd Hd Hm; simpl in *; [done|].
  destruct Hd as (-> & Hp & n & Hn & Hd). destruct (Hm x) as [E1 E2]; [set_solver|].
  split; [done|]. unfold prev_of, next_of in *. rewrite E1, E2. split; [done|].
  exists n. split; [done|]. apply IH; [done|set_solver].
Qed.

(** ** Lemmas: accesses under a layout *)

Lemma load_ok h a v :
  mem_start_brk h ≤ a → a + 8 ≤ mem_brk h → a mod 8 = 0 → mem h !! a = Some v → load a h = Ret v h.
Proof.
  intros H1 H2 H3 Hv. unfold load, reads, word_ok.
  rewrite (proj2 (Z.leb_le _ _) H1), (proj2 (Z.leb_le _ _) H2), H3. simpl. by rewrite Hv.
Qed.

Lemma store_ok h a v :
  mem_start_brk h ≤ a → a + 8 ≤ mem_brk h → a mod 8 = 0 →
  store a v h = Ret tt (set_mem (<[a := v]> (mem h)) h).
Proof.
  intros H1 H2 H3. unfold store, updates, word_ok.
  by rewrite (proj2 (Z.leb_le _ _) H1), (proj2 (Z.leb_le _ _) H2), H3.
Qed.

(** Arithmetic facts of a layout that [lia] can use. *)
Definition in_heap_word (h : heap) (a : Z) : Prop :=
  mem_start_brk h ≤ a ∧ a + 8 ≤ mem_brk h ∧ a mod 8 = 0.

Lemma load_in h a v : in_heap_word h a → mem h !! a = Some v → load a h = Ret v h.
Proof. intros (?&?&?). by apply load_ok. Qed.
Lemma store_in h a v : in_heap_word h a → store a v h = Ret tt (set_mem (<[a := v]> (mem h)) h).
Proof. intros (?&?&?). by apply store_ok. Qed.

Section layout.
Context (h : heap) (bs : list blk) (l : list Z) (L : layout h bs l).
Notation start := (heap_start h).

Lemma lay_facts :
  0 < mem_start_brk h ∧ mem_start_brk h mod 16 = 0 ∧ start = mem_start_brk h + 8 ∧
  mem_brk h = start + total bs + 8 ∧ 0 ≤ total bs ∧ total bs mod 16 = 0 ∧
  mem_brk h ≤ mem_max_addr h < 9223372036854775808.
Proof.
  destruct L as [[H1 H2] H3 H4 H5 H6 _ _ _ _ _ _]. destruct (total_nonneg bs H6).
  split_and!; lia || done.
Qed.

Lemma lay_link_word x : x ∈ free_addrs start bs → in_heap_word h (x + 8) ∧ in_heap_word h (x + 16).
Proof.
  intros Hx. destruct lay_facts as (H1 & H2 & H3 & H4 & H5 & H6 & _).
  pose proof (free_addrs_range start bs x (lay_ok _ _ _ L) Hx).
  apply free_addrs_split in Hx as (pre & s & post & E & ->).
  pose proof (lay_ok _ _ _ L) as Hok. rewrite E in Hok. apply Forall_app in Hok as [Hpre _].
  destruct (total_nonneg _ Hpre). unfold in_heap_word.
  split; (split_and!; [lia|lia|Z.to_euclidean_division_equations; lia]).
Qed.

Lemma lay_pos x : x ∈ free_addrs start bs → 0 < x.
Proof.
  intros Hx. destruct lay_facts as (H1 & H2 & H3 & _).
  pose proof (free_addrs_range start bs x (lay_ok _ _ _ L) Hx). lia.
Qed.

(** Changing link words only, and the list with them. *)
Lemma layout_links m' hd l' :
  (∀ w, (∀ x, x ∈ free_addrs start bs → w ≠ x + 8 ∧ w ≠ x + 16) → m' !! w = mem h !! w) →
  dll m' 0 hd l' → NoDup l' → (∀ x, x ∈ l' → x ∈ free_addrs start bs) →
  layout (set_head hd (set_mem m' h)) bs l' ∧
  (∀ w, data_word start bs w → m' !! w = mem h !! w).
Proof.
  intros Hm Hd Hnd Hsub. destruct lay_facts as (F1 & F2 & F3 & F4 & F5 & F6 & _).
  destruct L as [H1 H2 H3 H4 H5 H6 H7 H8 H9 H10 H11]. split.
  - constructor; simpl; try done.
    + rewrite Hm; [done|]. intros x Hx. apply free_addrs_range in Hx; [lia|done].
    + eapply seg_frame; [done|]. intros w Hw. apply Hm. intros x Hx. by apply (bounds_not_link start bs).
    + rewrite Hm; [done|]. intros x Hx. apply free_addrs_range in Hx; [lia|done].
  - intros w Hw. apply Hm. intros x Hx. by apply (data_not_link start bs).
Qed.

(** The block at the end of [pre]. *)
Lemma lay_block pre s al post :
  bs = pre ++ (s, al) :: post → let x := start + total pre in
  32 ≤ s ∧ s mod 16 = 0 ∧ s ≤ total bs ∧ 0 ≤ total pre ∧ total pre mod 16 = 0 ∧ 0 ≤ total post ∧
  total bs = total pre + s + total post ∧
  load x h = Ret (pack s al) h ∧ load (x + s - 8) h = Ret (pack s al) h ∧
  get_size x h = Ret s h ∧ get_alloc x h = Ret al h ∧ find_next x h = Ret (x + s) h ∧
  header_to_footer x h = Ret (x + s - 8) h.
Proof.
  intros E x. destruct lay_facts as (F1 & F2 & F3 & F4 & F5 & F6 & F7).
  pose proof (lay_ok _ _ _ L) as Hok. pose proof (lay_seg _ _ _ L) as Hseg.
  rewrite E in Hok, Hseg, F4, F5, F6. rewrite E. apply Forall_app in Hok as [Hpre [[Hs1 Hs2] Hpost]%Forall_cons].
  unfold min_block_size in Hs1. simpl in Hs1, Hs2.
  destruct (total_nonneg _ Hpre), (total_nonneg _ Hpost). rewrite total_app in *. simpl in *.
  apply seg_app in Hseg as [_ (Hh & Hf & _)].
  assert (load x h = Ret (pack s al) h) as E1.
  { apply load_in; [|done]. split_and!; [lia|lia|]. Z.to_euclidean_division_equations; lia. }
  assert (load (x + s - 8) h = Ret (pack s al) h) as E2.
  { apply load_in; [|done]. split_and!; [lia|lia|]. Z.to_euclidean_division_equations; lia. }
  assert (get_size x h = Ret s h) as E3.
  { unfold get_size. run E1. by rewrite extract_size_pack by (done || lia). }
  split_and!; try done; try lia.
  - unfold get_alloc. run E1. by rewrite extract_alloc_pack.
  - unfold find_next. by run E3.
  - unfold header_to_footer. run E3. unfold dsize. simpl. f_equal. lia.
Qed.

(** The header behind a prefix: the next block or the epilogue. *)
Definition head_word (post : list blk) : Z :=
  match post with [] => pack 0 true | (s, al) :: _ => pack s al end.
Definition head_alloc (post : list blk) : bool :=
  match post with [] => true | (_, al) :: _ => al end.

Lemma lay_next pre post :
  bs = pre ++ post → get_alloc (start + total pre) h = Ret (head_alloc post) h.
Proof.
  intros E. destruct post as [|[s al] post].
  - destruct lay_facts as (F1 & F2 & F3 & F4 & F5 & F6 & F7).
    rewrite app_nil_r in E. subst pre. unfold get_alloc. rewrite (bind_Ret _ _ _ (pack 0 true) h); [done|].
    apply load_in; [|apply L]. split_and!; [lia|lia|Z.to_euclidean_division_equations; lia].
  - by destruct (lay_block _ _ _ _ E) as (_ & _ & _ & _ & _ & _ & _ & _ & _ & _ & ? & _).
Qed.

(** The footer before: the last block of the prefix or the prologue. *)
Lemma lay_prev pre post :
  bs = pre ++ post →
  match last pre with
  | None => find_prev (start + total pre) h = Ret (start - 8) h ∧ get_alloc (start - 8) h = Ret true h
  | Some (s, al) => find_prev (start + total pre) h = Ret (start + total pre - s) h
  end.
Proof.
  intros E. destruct lay_facts as (F1 & F2 & F3 & F4 & F5 & F6 & F7).
  destruct pre as [|[s al] pre _] using rev_ind; simpl.
  - assert (load (start - 8) h = Ret (pack 0 true) h) as E1.
    { apply load_in; [split_and!; [lia|lia|Z.to_euclidean_division_equations; lia]|].
      replace (start - 8) with (mem_start_brk h) by lia. apply L. }
    split; [|unfold get_alloc; by run E1].
    unfold find_prev, find_prev_footer. rewrite Z.add_0_r. by run E1.
  - rewrite last_snoc. rewrite <-app_assoc in E. simpl in E.
    destruct (lay_block _ _ _ _ E) as (B1 & B2 & B3 & B4 & B5 & B6 & B7 & _ & E2 & _).
    unfold find_prev, find_prev_footer. rewrite total_app. simpl.
    replace (start + (total pre + (s + 0)) - 8) with (start + total pre + s - 8) by lia.
    run E2. rewrite extract_size_pack by (done || lia).
    rewrite (proj2 (Z.eqb_neq _ _)) by lia. done.
Qed.
End layout.

(** ** The free-list operations *)

(** Blocks whose link words may be written: in the heap and apart. *)
Definition links_ok (h : heap) (fs : list Z) : Prop :=
  (∀ x, x ∈ fs → 0 < x ∧ in_heap_word h (x + 8) ∧ in_heap_word h (x + 16)) ∧
  (∀ x y, x ∈ fs → y ∈ fs → x ≠ y → x + 32 ≤ y ∨ y + 32 ≤ x).
Definition outside_links (fs : list Z) (m m' : gmap Z Z) : Prop :=
  ∀ w, (∀ x, x ∈ fs → w ≠ x + 8 ∧ w ≠ x + 16) → m' !! w = m !! w.

Lemma layout_links_ok h bs l : layout h bs l → links_ok h (free_addrs (heap_start h) bs).
Proof.
  intros L. split.
  - intros x Hx. split; [by eapply lay_pos|by eapply lay_link_word].
  - intros x y. apply free_addrs_apart, L.
Qed.

Lemma in_heap_set_mem h m a : in_heap_word (set_mem m h) a ↔ in_heap_word h a.
Proof. done. Qed.

Lemma set_mem_mem m m' h : set_mem m (set_mem m' h) = set_mem m h.
Proof. done. Qed.

Lemma insert_dll h fs l x :
  links_ok h fs → dll (mem h) 0 (free_list_head h) l → NoDup (x :: l) → (∀ y, y ∈ x :: l → y ∈ fs) →
  ∃ m', insert_block x h = Ret tt (set_head x (set_mem m' h)) ∧ dll m' 0 x (x :: l) ∧
    outside_links fs (mem h) m'.
Proof.
  intros [Hin Hap] Hd Hnd Hsub. apply NoDup_cons in Hnd as [Hx Hnd].
  destruct (Hin x) as (Hpos & Hx8 & Hx16); [apply Hsub; set_solver|].
  unfold insert_block. run (eq_refl (get h)).
  destruct l as [|y l]; simpl in Hd.
  - rewrite Hd. cbn [Z.eqb].
    set (m1 := <[x + 16 := 0]> (mem h)). set (m2 := <[x + 8 := 0]> m1).
    exists m2. split.
    { rewrite (bind_Ret _ _ _ tt (set_mem m2 h)); [done|].
      run (store_in h (next_of x) 0 Hx16). by rewrite store_in. }
    split.
    + simpl. split; [done|]. unfold prev_of, next_of, m2, m1. rewrite lookup_insert_eq. split; [done|].
      exists 0. by rewrite lookup_insert_ne, lookup_insert_eq by lia.
    + intros w Hw. destruct (Hw x) as [? ?]; [apply Hsub; set_solver|].
      unfold m2, m1. by rewrite !lookup_insert_ne by congruence.
  - destruct Hd as (Hhd & Hyp & n & Hyn & Hd). rewrite Hhd.
    destruct (Hin y) as (Hypos & Hy8 & Hy16); [apply Hsub; set_solver|].
    rewrite (proj2 (Z.eqb_neq y 0)) by lia.
    assert (x + 32 ≤ y ∨ y + 32 ≤ x) as Hxy by (apply Hap; [apply Hsub; set_solver..|set_solver]).
    set (m1 := <[x + 16 := y]> (mem h)). set (m2 := <[x + 8 := 0]> m1). set (m3 := <[y + 8 := x]> m2).
    exists m3. split.
    { rewrite (bind_Ret _ _ _ tt (set_mem m3 h)); [done|].
      run (store_in h (next_of x) y Hx16). run (store_in (set_mem m1 h) (prev_of x) 0 Hx8).
      by rewrite store_in. }
    split.
    + simpl. split; [done|]. unfold prev_of, next_of in *.
      assert (m3 !! (x + 8) = Some 0) as ->
        by (unfold m3, m2; by rewrite lookup_insert_ne, lookup_insert_eq by lia).
      split; [done|]. exists y.
      assert (m3 !! (x + 16) = Some y) as ->
        by (unfold m3, m2, m1; by rewrite !lookup_insert_ne, lookup_insert_eq by lia).
      split; [done|]. split; [done|]. assert (m3 !! (y + 8) = Some x) as ->
        by (unfold m3; by rewrite lookup_insert_eq).
      split; [done|]. exists n. split.
      { unfold m3, m2, m1. by rewrite !lookup_insert_ne by lia. }
      eapply dll_frame; [done|]. intros z Hz.
      assert (z + 32 ≤ x ∨ x + 32 ≤ z) by (apply Hap; [apply Hsub; set_solver..|set_solver]).
      assert (z + 32 ≤ y ∨ y + 32 ≤ z).
      { apply Hap; [apply Hsub; set_solver..|]. apply NoDup_cons in Hnd as [Hy _]. set_solver. }
      unfold m3, m2, m1. by rewrite !lookup_insert_ne by lia.
    + intros w Hw. destruct (Hw x) as [? ?]; [apply Hsub; set_solver|].
      destruct (Hw y) as [? ?]; [apply Hsub; set_solver|].
      unfold m3, m2, m1. by rewrite !lookup_insert_ne by congruence.
Qed.

(** Removing from the middle of the list. *)
Lemma remove_dll h fs l1 x l2 :
  links_ok h fs → dll (mem h) 0 (free_list_head h) (l1 ++ x :: l2) → NoDup (l1 ++ x :: l2) →
  (∀ y, y ∈ l1 ++ x :: l2 → y ∈ fs) →
  ∃ m' hd, remove_block x h = Ret tt (set_head hd (set_mem m' h)) ∧ dll m' 0 hd (l1 ++ l2) ∧
    outside_links fs (mem h) m'.
Proof.
  intros [Hin Hap] Hd Hnd Hsub.
  apply dll_app in Hd as (c & Hd1 & <- & Hpx & nx & Hnx & Hd2).
  destruct (Hin c) as (Hpos & Hx8 & Hx16); [apply Hsub; set_solver|].
  unfold remove_block. rewrite (proj2 (Z.eqb_neq c 0)) by lia.
  run (load_in h (prev_of c) _ Hx8 Hpx). run (load_in h (next_of c) _ Hx16 Hnx).
  assert (∀ y z, y ∈ l1 ++ l2 → z ∈ l1 ++ l2 → y ≠ z → y + 32 ≤ z ∨ z + 32 ≤ y) as Hap'.
  { intros y z Hy Hz. apply Hap; apply Hsub; set_solver. }
  assert (NoDup (l1 ++ l2)) as Hnd'.
  { apply NoDup_app in Hnd as (N1 & N2 & [_ N3]%NoDup_cons). apply NoDup_app.
    split_and!; [done|set_solver|done]. }
  destruct l1 as [|a l1 _] using rev_ind; [|rewrite <-app_assoc in *; simpl in *].
  - unfold last_of. simpl. destruct l2 as [|z l2]; simpl in Hd2.
    + rewrite Hd2. cbn [Z.eqb andb]. exists (mem h), 0. split; [by destruct h|]. by split.
    + destruct Hd2 as (<- & Hpz & n & Hnz & Hd2).
      destruct (Hin nx) as (Hzpos & Hz8 & Hz16); [apply Hsub; set_solver|].
      rewrite (proj2 (Z.eqb_neq nx 0)) by lia. cbn [Z.eqb andb].
      exists (<[nx + 8 := 0]> (mem h)), nx. split; [|split].
      * run (eq_refl (modify (set_head nx) h)). by rewrite store_in.
      * simpl. split; [done|]. unfold prev_of, next_of in *. rewrite lookup_insert_eq.
        split; [done|]. exists n. rewrite lookup_insert_ne by lia. split; [done|].
        apply NoDup_cons in Hnd' as [Hz _].
        eapply dll_frame; [done|]. intros y Hy.
        destruct (Hap' y nx); [set_solver..| |]; by rewrite !lookup_insert_ne by lia.
      * intros w Hw. destruct (Hw nx); [apply Hsub; set_solver|]. by rewrite lookup_insert_ne.
  - unfold last_of in *. rewrite last_snoc in *. simpl in *.
    apply dlpart_snoc in Hd1 as (Hd1 & Hpa & Hna).
    destruct (Hin a) as (Hapos & Ha8 & Ha16); [apply Hsub; set_solver|].
    rewrite (proj2 (Z.eqb_neq a 0)) by lia. cbn [andb].
    assert (a ∉ l1 ∧ a ∉ l2) as [Ha1 Ha2].
    { apply NoDup_app in Hnd' as (_ & N2 & [N3 _]%NoDup_cons). split; [|done].
      intros Hin1. apply (N2 a Hin1). set_solver. }
    destruct l2 as [|z l2]; simpl in Hd2.
    + rewrite Hd2. cbn [Z.eqb]. exists (<[a + 16 := 0]> (mem h)), (free_list_head h). split; [|split].
      * by rewrite store_in.
      * apply dll_app. exists a. split.
        -- eapply dlpart_frame; [done|]. intros y Hy.
           destruct (Hap' y a); [set_solver..| |]; by rewrite !lookup_insert_ne by lia.
        -- simpl. split; [done|]. unfold prev_of, next_of in *.
           rewrite lookup_insert_ne by lia. split; [done|]. exists 0. by rewrite lookup_insert_eq.
      * intros w Hw. destruct (Hw a); [apply Hsub; set_solver|]. by rewrite lookup_insert_ne.
    + destruct Hd2 as (<- & Hpz & n & Hnz & Hd2).
      destruct (Hin nx) as (Hzpos & Hz8 & Hz16); [apply Hsub; set_solver|].
      rewrite (proj2 (Z.eqb_neq nx 0)) by lia.
      assert (a + 32 ≤ nx ∨ nx + 32 ≤ a) as Haz by (apply Hap'; set_solver).
      assert (nx ∉ l1 ∧ nx ∉ l2) as [Hz1 Hz2].
      { apply NoDup_app in Hnd' as (_ & N2 & N3). apply NoDup_cons in N3 as [_ N3].
        apply NoDup_cons in N3 as [N3 _]. split; [|done]. intros Hin1. apply (N2 nx Hin1). set_solver. }
      assert (∀ y, y ∈ l1 ∨ y ∈ l2 →
        (y + 32 ≤ a ∨ a + 32 ≤ y) ∧ (y + 32 ≤ nx ∨ nx + 32 ≤ y)) as Hfar.
      { intros y Hy. assert (y ∈ l1 ++ a :: nx :: l2) as Hy'.
        { rewrite elem_of_app, !elem_of_cons. destruct Hy; auto. }
        split; apply Hap'; try done; try (rewrite elem_of_app, !elem_of_cons; by auto).
        - intros ->. rewrite not_elem_of_cons in Ha2. by destruct Hy, Ha2.
        - intros ->. by destruct Hy. }
      exists (<[nx + 8 := a]> (<[a + 16 := nx]> (mem h))), (free_list_head h). split; [|split].
      * run (store_in h (next_of a) nx Ha16). by rewrite store_in.
      * apply dll_app. exists a. split.
        -- eapply dlpart_frame; [done|]. intros y Hy.
           destruct (Hfar y); [by auto|]. by rewrite !lookup_insert_ne by lia.
        -- simpl. unfold prev_of, next_of in *. split; [done|].
           rewrite !lookup_insert_ne by lia. split; [done|]. exists nx.
           rewrite lookup_insert_eq. split; [done|]. split; [done|].
           rewrite lookup_insert_eq. split; [done|]. exists n.
           rewrite !lookup_insert_ne by lia. split; [done|].
           eapply dll_frame; [done|]. intros y Hy.
           destruct (Hfar y); [by auto|]. by rewrite !lookup_insert_ne by lia.
      * intros w Hw. destruct (Hw a); [apply Hsub; set_solver|].
        destruct (Hw nx); [apply Hsub; set_solver|]. by rewrite !lookup_insert_ne by congruence.
Qed.


(** ** The operations under a layout *)

(** What only [mem_sbrk] and [mm_init] change. *)
Definition shape (h : heap) : Z * Z * Z * Z :=
  (mem_start_brk h, mem_brk h, mem_max_addr h, heap_start h).

(** Header and footer of one block. *)
Definition bset (m : gmap Z Z) (x s : Z) (al : bool) : gmap Z Z :=
  <[x + s - 8 := pack s al]> (<[x := pack s al]> m).

Lemma insert_block_ok h bs l x :
  layout h bs l → x ∈ free_addrs (heap_start h) bs → x ∉ l →
  ∃ h', insert_block x h = Ret tt h' ∧ layout h' bs (x :: l) ∧ shape h' = shape h ∧
    ∀ w, data_word (heap_start h) bs w → mem h' !! w = mem h !! w.
Proof.
  intros L Hx Hnin. pose proof (lay_nodup _ _ _ L) as Hnd. pose proof (lay_sub _ _ _ L) as Hsub.
  assert (NoDup (x :: l)) as Hnd' by by apply NoDup_cons.
  assert (∀ y, y ∈ x :: l → y ∈ free_addrs (heap_start h) bs) as Hsub'.
  { intros y [->|Hy]%elem_of_cons; [done|by apply Hsub]. }
  destruct (insert_dll h _ l x (layout_links_ok _ _ _ L) (lay_dll _ _ _ L) Hnd' Hsub')
    as (m' & E & Hd & Hout).
  destruct (layout_links h bs l L m' x (x :: l) Hout Hd Hnd' Hsub') as [L' Hdata].
  eexists. by split_and!.
Qed.

Lemma remove_block_ok h bs l1 x l2 :
  layout h bs (l1 ++ x :: l2) →
  ∃ h', remove_block x h = Ret tt h' ∧ layout h' bs (l1 ++ l2) ∧ shape h' = shape h ∧
    ∀ w, data_word (heap_start h) bs w → mem h' !! w = mem h !! w.
Proof.
  intros L. pose proof (lay_nodup _ _ _ L) as Hnd. pose proof (lay_sub _ _ _ L) as Hsub.
  destruct (remove_dll h _ l1 x l2 (layout_links_ok _ _ _ L) (lay_dll _ _ _ L) Hnd Hsub)
    as (m' & hd & E & Hd & Hout).
  assert (NoDup (l1 ++ l2)) as Hnd'.
  { apply NoDup_app in Hnd as (N1 & N2 & [_ N3]%NoDup_cons). apply NoDup_app.
    split_and!; [done|set_solver|done]. }
  destruct (layout_links h bs _ L m' hd (l1 ++ l2) Hout Hd Hnd') as [L' Hdata].
  { intros y Hy. apply Hsub. set_solver. }
  eexists. by split_and!.
Qed.

(** Replacing some neighbouring blocks by others of the same total size. *)
Lemma layout_retag h pre mid mid' post l m' :
  let x := heap_start h + total pre in
  layout h (pre ++ mid ++ post) l → total mid' = total mid → Forall blk_ok mid' →
  seg m' x mid' → (∀ w, (w < x ∨ x + total mid - 8 < w) → m' !! w = mem h !! w) →
  (∀ y, y ∈ l → m' !! (y + 8) = mem h !! (y + 8) ∧ m' !! (y + 16) = mem h !! (y + 16)) →
  (∀ y, y ∈ l → y ∈ free_addrs (heap_start h) (pre ++ mid' ++ post)) →
  layout (set_mem m' h) (pre ++ mid' ++ post) l ∧
  ∀ w, (data_word (heap_start h) pre w ∨ data_word (x + total mid) post w) → m' !! w = mem h !! w.
Proof.
  intros x L Htot Hok' Hseg Hm Hlinks Hsub. pose proof (lay_facts _ _ _ L) as (F1 & F2 & F3 & F4 & F5 & F6 & F7).
  destruct L as [H1 H2 H3 H4 H5 H6 H7 H8 H9 H10 H11].
  apply Forall_app in H5 as [Hpre [Hmid Hpost]%Forall_app].
  destruct (total_nonneg _ Hpre), (total_nonneg _ Hmid), (total_nonneg _ Hpost).
  rewrite !total_app in *. rewrite !seg_app in H7. destruct H7 as (S1 & S2 & S3).
  fold x in S2, S3. split.
  - constructor; simpl; rewrite ?total_app; try done; try lia.
    + by apply Forall_app_2, Forall_app_2.
    + rewrite Hm; [done|lia].
    + rewrite !seg_app. fold x. split_and!.
      * eapply seg_frame; [done|]. intros w Hw. apply Hm.
        pose proof (bounds_range _ _ _ Hpre Hw). lia.
      * done.
      * rewrite Htot. eapply seg_frame; [done|]. intros w Hw. apply Hm.
        pose proof (bounds_range _ _ _ Hpost Hw). lia.
    + rewrite Htot. rewrite Hm; [done|lia].
    + eapply dll_frame; [done|exact Hlinks].
  - intros w Hw. apply Hm. destruct Hw as [(y & t & Hy & Hw)|(y & t & Hy & Hw)];
      apply alloc_addrs_split in Hy as (p1 & p2 & E & ->); subst.
    + apply Forall_app in Hpre as [Hp1 [_ Hp2]%Forall_cons].
      destruct (total_nonneg _ Hp1), (total_nonneg _ Hp2). unfold x. rewrite total_app. simpl. lia.
    + apply Forall_app in Hpost as [Hp1 [_ Hp2]%Forall_cons]. destruct (total_nonneg _ Hp1). lia.
Qed.

(** The same with one block, whose header and footer are written. *)
Lemma layout_set1 h pre mid s al post l :
  let x := heap_start h + total pre in
  layout h (pre ++ mid ++ post) l → mid ≠ [] → s = total mid →
  (∀ y, y ∈ l → y ∈ free_addrs (heap_start h) (pre ++ (s, al) :: post)) →
  let h' := set_mem (bset (mem h) x s al) h in
  in_heap_word h x ∧ in_heap_word h (x + s - 8) ∧ layout h' (pre ++ (s, al) :: post) l ∧
  ∀ w, (data_word (heap_start h) pre w ∨ data_word (x + s) post w) → mem h' !! w = mem h !! w.
Proof.
  intros x L Hne Hs Hsub h'. pose proof (lay_facts _ _ _ L) as (F1 & F2 & F3 & F4 & F5 & F6 & F7).
  pose proof (lay_ok _ _ _ L) as Hok. apply Forall_app in Hok as [Hpre [Hmid Hpost]%Forall_app].
  destruct (total_nonneg _ Hpre), (total_nonneg _ Hmid), (total_nonneg _ Hpost).
  rewrite !total_app in *.
  assert (32 ≤ s ∧ s mod 16 = 0) as [Hs1 Hs2].
  { destruct mid as [|[s0 al0] mid]; [done|]. apply Forall_cons in Hmid as [[Hm1 Hm2] Hmid].
    destruct (total_nonneg _ Hmid). unfold min_block_size in *. simpl in *. split; [lia|].
    rewrite Hs. Z.to_euclidean_division_equations; lia. }
  assert (Forall blk_ok [(s, al)]) as Hok' by (constructor; [by split|done]).
  split; [split_and!; [lia|lia|Z.to_euclidean_division_equations; lia]|].
  split; [split_and!; [lia|lia|Z.to_euclidean_division_equations; lia]|].
  subst h'. rewrite Hs. rewrite Hs in Hok', Hsub. apply (layout_retag h pre mid [(total mid, al)] post l); try done.
  - simpl. lia.
  - simpl. unfold bset. rewrite <-Hs. split_and!; [|by rewrite lookup_insert_eq|done].
    by rewrite lookup_insert_ne, lookup_insert_eq by lia.
  - intros w Hw. simpl. unfold bset. by rewrite !lookup_insert_ne by lia.
  - intros y Hy. specialize (Hsub y Hy).
    assert (∀ w, w ∈ [x; x + s - 8] → w ≠ y + 8 ∧ w ≠ y + 16) as Hnl.
    { intros w Hw. apply (bounds_not_link (heap_start h) (pre ++ (total mid, al) :: post)); [| |done].
      - apply Forall_app_2; [done|]. constructor; [by inversion Hok'|done].
      - rewrite bounds_app. simpl. rewrite <-Hs. set_solver. }
    destruct (Hnl x); [set_solver|]. destruct (Hnl (x + s - 8)); [set_solver|].
    simpl. unfold bset. rewrite <-Hs. by rewrite !lookup_insert_ne by congruence.
Qed.

(** [write_header(x, s, al); write_footer(x, s, al); ...] *)
Lemma write_both {A} h x s al (k : prog heap A) :
  in_heap_word h x → in_heap_word h (x + s - 8) → 0 ≤ s < 9223372036854775808 → s mod 16 = 0 →
  (write_header x s al;; write_footer x s al;; k) h = k (set_mem (bset (mem h) x s al) h).
Proof.
  intros Hx Hf Hs Hm. unfold write_header, write_footer. run (store_in h x (pack s al) Hx).
  set (h1 := set_mem _ h).
  assert (header_to_footer x h1 = Ret (x + s - 8) h1) as E.
  { unfold header_to_footer, get_size.
    assert (load x h1 = Ret (pack s al) h1) as E1 by (apply load_in; [done|apply lookup_insert_eq]).
    assert ((w ← load x; mret (extract_size w)) h1 = Ret s h1) as E2.
    { run E1. by rewrite extract_size_pack by (done || lia). }
    run E2. unfold dsize. simpl. f_equal. lia. }
  assert ((footerp ← header_to_footer x; store footerp (pack s al)) h1 =
    Ret tt (set_mem (bset (mem h) x s al) h)) as E2.
  { run E. by rewrite store_in. }
  by run E2.
Qed.

(** ** Best fit *)

(** [x] is a free block of size [s]. *)
Definition free_blk (a : Z) (bs : list blk) (x s : Z) : Prop :=
  ∃ pre post, bs = pre ++ (s, false) :: post ∧ x = a + total pre.

Lemma free_addrs_blk a bs x : x ∈ free_addrs a bs ↔ ∃ s, free_blk a bs x s.
Proof.
  split.
  - intros (pre & s & post & E & Hx)%free_addrs_split. exists s, pre, post. by split.
  - intros (s & pre & post & -> & ->). rewrite free_addrs_app. simpl. set_solver.
Qed.

Lemma free_addrs_length a bs : Forall blk_ok bs → 32 * Z.of_nat (length (free_addrs a bs)) ≤ total bs.
Proof.
  intros Hok. revert a. induction Hok as [|[s al] bs [Hs _] _ IH]; intros a; simpl in *; [lia|].
  specialize (IH (a + s)). rewrite length_app. unfold min_block_size in *. destruct al; simpl; lia.
Qed.

Lemma lay_list_length h bs l : layout h bs l → (length l < list_fuel h)%nat.
Proof.
  intros L. pose proof (lay_facts _ _ _ L) as (F1 & F2 & F3 & F4 & F5 & _).
  assert (l ⊆+ free_addrs (heap_start h) bs) as Hsub%submseteq_length.
  { apply NoDup_submseteq; apply L. }
  pose proof (free_addrs_length (heap_start h) bs (lay_ok _ _ _ L)).
  unfold list_fuel, mem_heapsize. apply Nat.lt_succ_r. rewrite F4.
  apply Nat2Z.inj_le. rewrite Z2Nat.id by (apply Z.div_pos; lia).
  apply Z.div_le_lower_bound; lia.
Qed.

Section fit.
Context (h : heap) (bs : list blk) (l : list Z) (L : layout h bs l) (asize : Z).
Notation start := (heap_start h).

Lemma free_blk_facts x s : free_blk start bs x s →
  get_size x h = Ret s h ∧ get_alloc x h = Ret false h ∧ 32 ≤ s ∧ s mod 16 = 0 ∧ s ≤ total bs.
Proof.
  intros (pre & post & E & ->).
  destruct (lay_block h bs l L pre s false post E) as (B1 & B2 & B3 & _ & _ & _ & _ & _ & _ & B4 & B5 & _).
  by split_and!.
Qed.

Lemma free_blk_det x s t : free_blk start bs x s → free_blk start bs x t → s = t.
Proof.
  intros H1 H2. destruct (free_blk_facts _ _ H1) as [E1 _], (free_blk_facts _ _ H2) as [E2 _].
  rewrite E1 in E2. by simplify_eq.
Qed.

(** [best] is a best fit among the blocks [done]. *)
Definition best_among (done : list Z) (best : option (Z * Z)) : Prop :=
  match best with
  | None => ∀ y t, y ∈ done → free_blk start bs y t → t < asize
  | Some (b, s) => b ∈ done ∧ free_blk start bs b s ∧ asize ≤ s ∧
      ∀ y t, y ∈ done → free_blk start bs y t → asize ≤ t → s ≤ t
  end.

Lemma best_step done x s best :
  free_blk start bs x s → best_among done best →
  best_among (done ++ [x])
    (if s >=? asize
     then let best1 := match best with None => (x, s) | Some b => b end in
          if s <? best1.2 then Some (x, s) else Some best1
     else best).
Proof.
  intros Hx Hb. assert (∀ y t, y ∈ done ++ [x] → free_blk start bs y t → y ∈ done ∨ t = s) as Hin.
  { intros y t [Hy| ->%list_elem_of_singleton]%elem_of_app Hyt; [by left|right].
    by eapply free_blk_det. }
  destruct (Z.geb_spec s asize) as [Hge|Hlt].
  - destruct best as [[b t]|]; simpl in *.
    + destruct Hb as (H1 & H2 & H3 & H4). destruct (Z.ltb_spec s t) as [Hst|Hst]; simpl.
      * split_and!; [set_solver|done|done|]. intros y u Hy Hyu Hu.
        destruct (Hin y u Hy Hyu) as [Hy'| ->]; [|lia]. specialize (H4 y u Hy' Hyu Hu). lia.
      * split_and!; [set_solver|done|done|]. intros y u Hy Hyu Hu.
        destruct (Hin y u Hy Hyu) as [Hy'| ->]; [|lia]. by apply (H4 y).
    + rewrite Z.ltb_irrefl. simpl. split_and!; [set_solver|done|done|]. intros y u Hy Hyu Hu.
      destruct (Hin y u Hy Hyu) as [Hy'| ->]; [|lia]. specialize (Hb y u Hy' Hyu). lia.
  - destruct best as [[b t]|]; simpl in *.
    + destruct Hb as (H1 & H2 & H3 & H4). split_and!; [set_solver|done|done|].
      intros y u Hy Hyu Hu. destruct (Hin y u Hy Hyu) as [Hy'| ->]; [by apply (H4 y)|lia].
    + intros y u Hy Hyu. destruct (Hin y u Hy Hyu) as [Hy'| ->]; [by apply (Hb y)|lia].
Qed.

Lemma find_fit_loop_ok fuel done l2 p cur best :
  l = done ++ l2 → dll (mem h) p cur l2 → (length l2 < fuel)%nat → best_among done best →
  ∃ best', find_fit_loop fuel asize cur best h = Ret best' h ∧ best_among l best'.
Proof.
  revert done l2 p cur best. induction fuel as [|fuel IH]; intros done l2 p cur best El Hd Hf Hb; [lia|].
  simpl. destruct l2 as [|x l2]; simpl in Hd.
  { subst cur. simpl. rewrite app_nil_r in El. subst. by exists best. }
  destruct Hd as (-> & Hp & nx & Hn & Hd).
  assert (x ∈ free_addrs start bs) as Hx by (apply (lay_sub _ _ _ L); set_solver).
  pose proof (lay_pos h bs l L x Hx). rewrite (proj2 (Z.eqb_neq x 0)) by lia.
  destruct (lay_link_word h bs l L x Hx) as [_ Hw16].
  destruct (proj1 (free_addrs_blk start bs x) Hx) as [s Hs].
  destruct (free_blk_facts x s Hs) as (E1 & E2 & _). run E1.
  set (best' := if s >=? asize then
    let best1 := match best with None => (x, s) | Some b => b end in
    if s <? best1.2 then Some (x, s) else Some best1 else best).
  rewrite (bind_Ret _ _ _ best' h).
  2:{ unfold best'. destruct (s >=? asize); [|done]. by run E2. }
  run (load_in h (next_of x) nx Hw16 Hn).
  apply (IH (done ++ [x]) l2 x nx).
  - by rewrite <-app_assoc.
  - done.
  - simpl in Hf. lia.
  - by apply best_step.
Qed.

(** [find_fit] returns a smallest free block that is large enough, or [NULL]
    when there is none. *)
Lemma find_fit_ok :
  l ≡ₚ free_addrs start bs →
  ∃ r, find_fit asize h = Ret r h ∧
    ((r = 0 ∧ ∀ y t, free_blk start bs y t → t < asize) ∨
     (∃ s, r ≠ 0 ∧ free_blk start bs r s ∧ asize ≤ s ∧
        ∀ y t, free_blk start bs y t → asize ≤ t → s ≤ t)).
Proof.
  intros Hperm. unfold find_fit. run (eq_refl (get h)).
  assert (∀ y t, free_blk start bs y t → y ∈ l) as Hall.
  { intros y t Hy. rewrite Hperm. apply free_addrs_blk. eauto. }
  pose proof (lay_dll _ _ _ L) as Hd.
  destruct (Z.eqb_spec (free_list_head h) 0) as [H0|H0].
  - exists 0. split; [done|]. left. split; [done|]. intros y t Hy. exfalso.
    specialize (Hall y t Hy). destruct l as [|x l']; [set_solver|]. destruct Hd as [Hx _].
    pose proof (lay_pos h bs _ L x ltac:(apply (lay_sub _ _ _ L); set_solver)). lia.
  - destruct (find_fit_loop_ok (list_fuel h) [] l 0 (free_list_head h) None) as (best & E & Hb);
      [done|done|by eapply lay_list_length|simpl; set_solver|].
    run E. destruct best as [[b s]|]; simpl in *; eexists; (split; [done|]).
    + right. destruct Hb as (H1 & H2 & H3 & H4). exists s. split_and!; [|done|done|].
      * assert (0 < b); [|lia]. apply (lay_pos h bs l L). by apply (lay_sub _ _ _ L).
      * intros y t Hy. apply (H4 y); [by eapply Hall|done].
    + left. split; [done|]. intros y t Hy. apply (Hb y); [by eapply Hall|done].
Qed.
End fit.

(** ** Coalescing *)

Lemma data_word_app a b1 b2 w :
  data_word a (b1 ++ b2) w ↔ data_word a b1 w ∨ data_word (a + total b1) b2 w.
Proof. unfold data_word. rewrite alloc_addrs_app. setoid_rewrite elem_of_app. naive_solver. Qed.

Lemma data_word_free a s bs w : data_word a ((s, false) :: bs) w ↔ data_word (a + s) bs w.
Proof. done. Qed.

(** The row after coalescing the free block between [pre] and [post]. *)
Definition absorb_prev (pre : list blk) (s : Z) : list blk * Z :=
  match last pre with
  | Some (s0, false) => (take (length pre - 1) pre, s0 + s)
  | _ => (pre, s)
  end.
Definition absorb_next (s : Z) (post : list blk) : Z * list blk :=
  match post with
  | (s2, false) :: post2 => (s + s2, post2)
  | _ => (s, post)
  end.
Definition coalesce_row (pre : list blk) (s : Z) (post : list blk) : list blk :=
  let '(pre', s1) := absorb_prev pre s in
  let '(s2, post') := absorb_next s1 post in
  pre' ++ (s2, false) :: post'.

Lemma absorb_prev_free pre s0 s : absorb_prev (pre ++ [(s0, false)]) s = (pre, s0 + s).
Proof.
  unfold absorb_prev. rewrite last_snoc, length_app. simpl.
  replace (length pre + 1 - 1)%nat with (length pre) by lia. by rewrite take_app_length.
Qed.

(** Removing one block of the list from a permutation of the free blocks. *)
Lemma perm_remove (l : list Z) F1 x F2 :
  l ≡ₚ F1 ++ x :: F2 → ∃ l1 l2, l = l1 ++ x :: l2 ∧ l1 ++ l2 ≡ₚ F1 ++ F2.
Proof.
  intros Hp. assert (x ∈ l) as (l1 & l2 & ->)%list_elem_of_split by (rewrite Hp; set_solver).
  exists l1, l2. split; [done|]. rewrite <-!Permutation_middle in Hp. by apply Permutation_cons_inv in Hp.
Qed.

(** One merge: [n] neighbouring free blocks, all but the first removed from the
    list, become one by writing a header and a footer. *)
Lemma merge_ok {A} h pre mid s post l (k : prog heap A) :
  let x := heap_start h + total pre in
  layout h (pre ++ mid ++ post) l → mid ≠ [] → s = total mid →
  alloc_addrs x mid = [] →
  l ≡ₚ free_addrs (heap_start h) (pre ++ (s, false) :: post) →
  ∃ h', (write_header x s false;; write_footer x s false;; k) h = k h' ∧
    layout h' (pre ++ (s, false) :: post) l ∧ shape h' = shape h ∧
    ∀ w, data_word (heap_start h) (pre ++ mid ++ post) w → mem h' !! w = mem h !! w.
Proof.
  intros x L Hne Hs Hmid Hperm.
  destruct (layout_set1 h pre mid s false post l L Hne Hs) as (I1 & I2 & L' & Hdata).
  { intros y Hy. by rewrite <-Hperm. }
  eexists. split.
  { apply write_both; [done|done| |].
    - pose proof (lay_facts _ _ _ L') as (F1 & _ & F3 & F4 & F5 & _ & F7).
      pose proof (lay_ok _ _ _ L') as Hok. apply Forall_app in Hok as [Hp [[Hs1 _] Hq]%Forall_cons].
      destruct (total_nonneg _ Hp), (total_nonneg _ Hq). unfold min_block_size in *.
      rewrite total_app in F4, F5. simpl in *. lia.
    - pose proof (lay_ok _ _ _ L') as Hok. by apply Forall_app in Hok as [_ [[_ ?] _]%Forall_cons]. }
  split_and!; [done|done|]. intros w Hw. apply Hdata. rewrite Hs.
  apply data_word_app in Hw as [Hw|Hw]; [by left|]. apply data_word_app in Hw as [Hw|Hw]; [|by right].
  destruct Hw as (y & t & Hy & _). fold x in Hy. rewrite Hmid in Hy. set_solver.
Qed.

(** What an operation that only moves free space leaves behind. *)
Definition freed_row (h h' : heap) (bs bs' : list blk) : Prop :=
  shape h' = shape h ∧ (∃ l', layout h' bs' l' ∧ l' ≡ₚ free_addrs (heap_start h) bs') ∧
  alloc_addrs (heap_start h) bs' = alloc_addrs (heap_start h) bs ∧
  ∀ w, data_word (heap_start h) bs w → mem h' !! w = mem h !! w.

Lemma shape_start h h' : shape h' = shape h → heap_start h' = heap_start h.
Proof. unfold shape. congruence. Qed.

(** Merging after the removals of a branch of [coalesce_block]. *)
Lemma finish_merge h h1 pre mid s post l1 :
  let x := heap_start h + total pre in
  shape h1 = shape h → layout h1 (pre ++ mid ++ post) l1 →
  (∀ w, data_word (heap_start h) (pre ++ mid ++ post) w → mem h1 !! w = mem h !! w) →
  mid ≠ [] → s = total mid → alloc_addrs x mid = [] →
  l1 ≡ₚ free_addrs (heap_start h) (pre ++ (s, false) :: post) →
  ∃ h', (write_header x (u64 s) false;; write_footer x (u64 s) false;; mret x) h1 = Ret x h' ∧
    freed_row h h' (pre ++ mid ++ post) (pre ++ (s, false) :: post).
Proof.
  intros x Hsh L1 Hd Hne Hs Hmid Hp. pose proof (shape_start _ _ Hsh) as Hst.
  assert (u64 s = s) as ->.
  { pose proof (lay_facts _ _ _ L1) as (F1 & _ & F3 & F4 & F5 & _ & F7).
    pose proof (lay_ok _ _ _ L1) as Hok. apply Forall_app in Hok as [Hp1 [Hp2 Hp3]%Forall_app].
    destruct (total_nonneg _ Hp1), (total_nonneg _ Hp2), (total_nonneg _ Hp3).
    rewrite !total_app in *. apply u64_small. lia. }
  subst x. rewrite <-Hst in *.
  destruct (merge_ok h1 pre mid s post l1 (mret (heap_start h1 + total pre)) L1 Hne Hs Hmid Hp)
    as (h' & E & L' & Hsh' & Hd').
  exists h'. split; [exact E|]. split; [congruence|]. rewrite <-Hst. split; [by exists l1|]. split.
  - rewrite !alloc_addrs_app, Hmid. simpl. by rewrite Hs.
  - intros w Hw. rewrite Hd' by done. by apply Hd.
Qed.

Section coalesce.
Context (h : heap) (pre : list blk) (s : Z) (post : list blk) (l : list Z).
Context (L : layout h (pre ++ (s, false) :: post) l).
Context (Hperm : l ≡ₚ free_addrs (heap_start h) (pre ++ (s, false) :: post)).
Notation start := (heap_start h).
Notation x := (start + total pre).

(** The next block is free. *)
Lemma coalesce_next s2 post2 :
  post = (s2, false) :: post2 →
  ∃ h', (remove_block (x + s);; s1 ← get_size x; s2 ← get_size (x + s);
         write_header x (u64 (s1 + s2)) false;; write_footer x (u64 (s1 + s2)) false;; mret x) h = Ret x h' ∧
    freed_row h h' (pre ++ (s, false) :: post) (pre ++ (s + s2, false) :: post2).
Proof.
  intros Ep. pose proof Hperm as Hp. rewrite Ep, free_addrs_app in Hp. simpl in Hp.
  change (x :: x + s :: ?r) with ([x] ++ (x + s) :: r) in Hp.
  rewrite app_assoc in Hp. apply perm_remove in Hp as (l1 & l2 & El & Hp).
  pose proof L as L0. rewrite El in L0.
  destruct (remove_block_ok _ _ _ _ _ L0) as (h1 & E1 & L1 & Hs1 & Hd1). run E1.
  pose proof (shape_start _ _ Hs1) as Hst. pose proof L1 as L1'. rewrite Ep in L1'.
  destruct (lay_block h1 _ _ L1' pre s false _ eq_refl) as (_ & _ & _ & _ & _ & _ & _ & _ & _ & Eg & _).
  destruct (lay_block h1 _ _ L1' (pre ++ [(s, false)]) s2 false post2)
    as (_ & _ & _ & _ & _ & _ & _ & _ & _ & Eg2 & _); [by rewrite <-app_assoc|].
  rewrite Hst in Eg, Eg2. rewrite total_app in Eg2. simpl in Eg2.
  replace (start + (total pre + (s + 0))) with (x + s) in Eg2 by lia.
  run Eg. run Eg2.
  rewrite Ep in Hd1 |- *.
  apply (finish_merge h h1 pre [(s, false); (s2, false)] (s + s2) post2 (l1 ++ l2)); try done.
  - simpl. lia.
  - rewrite Hp, free_addrs_app, <-app_assoc. simpl. by replace (x + (s + s2)) with (x + s + s2) by lia.
Qed.

(** The previous block is free. *)
Lemma coalesce_prev pre0 s0 :
  pre = pre0 ++ [(s0, false)] → let x0 := start + total pre0 in
  ∃ h', (remove_block x;; s0 ← get_size x0; s1 ← get_size x;
         write_header x0 (u64 (s0 + s1)) false;; write_footer x0 (u64 (s0 + s1)) false;; mret x0) h = Ret x0 h' ∧
    freed_row h h' (pre ++ (s, false) :: post) (pre0 ++ (s0 + s, false) :: post).
Proof.
  intros Ep x0. pose proof Hperm as Hp. rewrite free_addrs_app in Hp. simpl in Hp.
  apply perm_remove in Hp as (l1 & l2 & El & Hp). pose proof L as L0. rewrite El in L0.
  destruct (remove_block_ok _ _ _ _ _ L0) as (h1 & E1 & L1 & Hs1 & Hd1). run E1.
  pose proof (shape_start _ _ Hs1) as Hst.
  destruct (lay_block h1 _ _ L1 pre s false _ eq_refl) as (_ & _ & _ & _ & _ & _ & _ & _ & _ & Eg & _).
  pose proof L1 as L1'. rewrite Ep, <-app_assoc in L1'. simpl in L1'.
  destruct (lay_block h1 _ _ L1' pre0 s0 false _ eq_refl) as (_ & _ & _ & _ & _ & _ & _ & _ & _ & Eg0 & _).
  rewrite Hst in Eg, Eg0. run Eg0. run Eg.
  pose proof Hd1 as Hd1'. rewrite Ep, <-app_assoc in Hd1'. rewrite Ep, <-app_assoc.
  apply (finish_merge h h1 pre0 [(s0, false); (s, false)] (s0 + s) post (l1 ++ l2)); try done.
  - simpl. lia.
  - rewrite Hp, Ep, !free_addrs_app, total_app. simpl. rewrite <-app_assoc. simpl.
    by replace (start + (total pre0 + (s0 + 0)) + s) with (start + total pre0 + (s0 + s)) by lia.
Qed.

(** Both neighbours are free. *)
Lemma coalesce_both pre0 s0 s2 post2 :
  pre = pre0 ++ [(s0, false)] → post = (s2, false) :: post2 → let x0 := start + total pre0 in
  ∃ h', (s0 ← get_size x0; s1 ← get_size x; s2 ← get_size (x + s);
         remove_block x;; remove_block (x + s);;
         write_header x0 (u64 (s0 + s1 + s2)) false;; write_footer x0 (u64 (s0 + s1 + s2)) false;;
         mret x0) h = Ret x0 h' ∧
    freed_row h h' (pre ++ (s, false) :: post) (pre0 ++ (s0 + s + s2, false) :: post2).
Proof.
  intros Ep Eq x0.
  destruct (lay_block h _ _ L pre s false _ eq_refl) as (_ & _ & _ & _ & _ & _ & _ & _ & _ & Eg & _).
  pose proof L as L'. rewrite Ep, Eq, <-app_assoc in L'. simpl in L'.
  destruct (lay_block h _ _ L' pre0 s0 false _ eq_refl) as (_ & _ & _ & _ & _ & _ & _ & _ & _ & Eg0 & _).
  destruct (lay_block h _ _ L' (pre ++ [(s, false)]) s2 false post2)
    as (_ & _ & _ & _ & _ & _ & _ & _ & _ & Eg2 & _); [by rewrite Ep, <-!app_assoc|].
  rewrite total_app in Eg2. simpl in Eg2.
  replace (start + (total pre + (s + 0))) with (x + s) in Eg2 by lia. run Eg0. run Eg. run Eg2.
  pose proof Hperm as Hp. rewrite Eq, free_addrs_app in Hp. simpl in Hp.
  apply perm_remove in Hp as (l1 & l2 & El & Hp). pose proof L as L0. rewrite El in L0.
  destruct (remove_block_ok _ _ _ _ _ L0) as (h1 & E1 & L1 & Hs1 & Hd1). run E1.
  apply perm_remove in Hp as (l3 & l4 & El2 & Hp). rewrite El2 in L1.
  destruct (remove_block_ok _ _ _ _ _ L1) as (h2 & E2 & L2 & Hs2 & Hd2). run E2.
  pose proof (shape_start _ _ Hs1) as Hst.
  rewrite Ep, Eq, <-app_assoc in *. simpl in *.
  apply (finish_merge h h2 pre0 [(s0, false); (s, false); (s2, false)] (s0 + s + s2) post2 (l3 ++ l4));
    try done.
  - congruence.
  - intros w Hw. rewrite Hd2 by by rewrite Hst. by apply Hd1.
  - simpl. lia.
  - rewrite Hp, !free_addrs_app, total_app. simpl. rewrite <-app_assoc. simpl.
    by replace (start + (total pre0 + (s0 + 0)) + s + s2) with (start + total pre0 + (s0 + s + s2)) by lia.
Qed.

End coalesce.

(** [coalesce_block] on the free block between [pre] and [post]. *)
Lemma coalesce_block_ok h pre s post l :
  let x := heap_start h + total pre in
  layout h (pre ++ (s, false) :: post) l →
  l ≡ₚ free_addrs (heap_start h) (pre ++ (s, false) :: post) →
  ∃ r h', coalesce_block x h = Ret r h' ∧
    freed_row h h' (pre ++ (s, false) :: post) (coalesce_row pre s post).
Proof.
  intros x L Hperm. subst x. unfold coalesce_block.
  destruct (lay_block h _ _ L pre s false _ eq_refl) as (_ & _ & _ & _ & _ & _ & _ & _ & _ & Eg & _ & En & _).
  pose proof (lay_prev h _ _ L pre _ eq_refl) as Hprev.
  assert (get_alloc (heap_start h + total pre + s) h = Ret (head_alloc post) h) as Ea.
  { pose proof (lay_next h _ _ L (pre ++ [(s, false)]) post) as Hnext.
    rewrite total_app in Hnext. simpl in Hnext.
    replace (heap_start h + total pre + s) with (heap_start h + (total pre + (s + 0))) by lia. apply Hnext. by rewrite <-app_assoc. }
  assert (∃ b al, find_prev (heap_start h + total pre) h = Ret b h ∧ get_alloc b h = Ret al h ∧
    (al = false → ∃ pre0 s0, pre = pre0 ++ [(s0, false)] ∧ b = heap_start h + total pre0) ∧
    (al = true → absorb_prev pre s = (pre, s))) as (b & al & Ep & Epa & Hfree & Halloc).
  { destruct pre as [|[s0 al0] pre0 _] using rev_ind.
    - destruct Hprev as [E1 E2]. by exists (heap_start h - 8), true.
    - rewrite last_snoc in Hprev. rewrite total_app in Hprev. simpl in Hprev.
      exists (heap_start h + total pre0), al0. rewrite total_app. simpl. split_and!.
      + rewrite Hprev. f_equal. lia.
      + pose proof L as L'. rewrite <-app_assoc in L'. simpl in L'.
        by destruct (lay_block h _ _ L' pre0 s0 al0 _ eq_refl) as (_ & _ & _ & _ & _ & _ & _ & _ & _ & _ & ? & _).
      + intros ->. by exists pre0, s0.
      + intros ->. unfold absorb_prev. by rewrite last_snoc. }
  run Ep. run En. unfold is_free at 1.
  rewrite (bind_Ret _ _ _ (negb al) h); [|by run Epa]. run Ea.
  destruct al; cbn [negb andb].
  - unfold coalesce_row. rewrite (Halloc eq_refl).
    destruct post as [|[s2 [|]] post2] eqn:Eq; cbn [head_alloc andb negb absorb_next].
    + exists (heap_start h + total pre), h. split; [done|]. split; [done|]. split; [by exists l|]. done.
    + exists (heap_start h + total pre), h. split; [done|]. split; [done|]. split; [by exists l|]. done.
    + destruct (coalesce_next h pre s _ l L Hperm s2 post2) as (h' & E & Hrow); [done|]. by exists (heap_start h + total pre), h'.
  - destruct (Hfree eq_refl) as (pre0 & s0 & -> & ->). unfold coalesce_row.
    rewrite absorb_prev_free.
    destruct post as [|[s2 [|]] post2] eqn:Eq; cbn [head_alloc andb negb absorb_next].
    + destruct (coalesce_prev h _ s _ l L Hperm pre0 s0) as (h' & E & Hrow); [done|]. by eexists _, h'.
    + destruct (coalesce_prev h _ s _ l L Hperm pre0 s0) as (h' & E & Hrow); [done|]. by eexists _, h'.
    + destruct (coalesce_both h _ s _ l L Hperm pre0 s0 s2 post2) as (h' & E & Hrow); [done|done|]. by eexists _, h'.
Qed.

(** ** No two free neighbours *)

Definition joint_ok (b1 b2 : list blk) : Prop :=
  ∀ s1 s2, last b1 = Some (s1, false) → head b2 = Some (s2, false) → False.

Lemma coalesced_cons b bs : coalesced (b :: bs) ↔ joint_ok [b] bs ∧ coalesced bs.
Proof.
  destruct b as [s al], bs as [|[s2 al2] bs]; simpl; unfold joint_ok; simpl.
  - naive_solver.
  - split.
    + intros [Ho Hc]. split; [|done]. intros ? ? [= -> ->] [= -> ->]. done.
    + intros [Hj Hc]. split; [|done]. destruct al, al2; try done. exfalso. by eapply Hj.
Qed.

Lemma joint_cons b b1 b2 : b1 ≠ [] → joint_ok (b :: b1) b2 ↔ joint_ok b1 b2.
Proof. intros H. unfold joint_ok. destruct b1; [done|]. by rewrite last_cons_cons. Qed.

Lemma coalesced_app b1 b2 : coalesced (b1 ++ b2) ↔ coalesced b1 ∧ joint_ok b1 b2 ∧ coalesced b2.
Proof.
  induction b1 as [|b b1 IH].
  - simpl. unfold joint_ok. simpl. naive_solver.
  - cbn [app]. rewrite !coalesced_cons, IH. destruct b1 as [|b' b1].
    + simpl. unfold joint_ok. simpl. naive_solver.
    + rewrite (joint_cons b (b' :: b1)) by done. unfold joint_ok. simpl. naive_solver.
Qed.

(** The row of [mm_malloc] in place of the free block it takes. *)
Definition alloc_row (s asize : Z) : list blk :=
  if s - asize >=? min_block_size then [(asize, true); (s - asize, false)] else [(s, true)].

Lemma alloc_row_coalesced pre s asize post :
  coalesced (pre ++ (s, false) :: post) → coalesced (pre ++ alloc_row s asize ++ post).
Proof.
  rewrite !coalesced_app, coalesced_cons. intros (H1 & H2 & H3 & H4).
  unfold alloc_row. destruct (_ >=? _); simpl.
  - split_and!; [done| |done|done| |done].
    + intros s1 s2 _ Hh. by simplify_eq/=.
    + intros s1 s2 Hl Hh. simpl in Hl. by eapply (H3 s s2).
  - split_and!; [done| |done| |done].
    + intros s1 s2 _ Hh. by simplify_eq/=.
    + intros s1 s2 Hl. simpl in Hl. by simplify_eq/=.
Qed.

Lemma coalesce_row_coalesced pre s post :
  coalesced (pre ++ (s, true) :: post) → coalesced (coalesce_row pre s post).
Proof.
  rewrite coalesced_app, coalesced_cons. intros (H1 & _ & _ & H4). unfold coalesce_row.
  assert (∃ pre' s1, absorb_prev pre s = (pre', s1) ∧ coalesced pre' ∧
    (∀ u, last pre' ≠ Some (u, false))) as (pre' & s1 & -> & Hc1 & Hl1).
  { destruct pre as [|[s0 al0] pre0 _] using rev_ind; [by exists [], s|].
    apply coalesced_app in H1 as (Hp & Hj & _). destruct al0.
    - exists (pre0 ++ [(s0, true)]), s. unfold absorb_prev. rewrite last_snoc. split_and!; [done| |done].
      apply coalesced_app. split_and!; [done| |done]. intros u v _ Hh. by simplify_eq/=.
    - exists pre0, (s0 + s). rewrite absorb_prev_free. split_and!; [done|done|].
      intros u Hu. by eapply (Hj u s0). }
  assert (∃ s2 post', absorb_next s1 post = (s2, post') ∧ coalesced post' ∧
    (∀ u, head post' ≠ Some (u, false))) as (s2 & post' & -> & Hc2 & Hh2).
  { destruct post as [|[s2 [|]] post]; simpl; [by eexists _, _|by eexists _, _|].
    apply coalesced_cons in H4 as [Hj Hc]. eexists _, _. split_and!; [done|done|].
    intros u Hu. by eapply (Hj s2 u). }
  rewrite coalesced_app, coalesced_cons. split_and!; [done| | |done].
  - intros u v Hu. by destruct (Hl1 u).
  - intros u v _ Hv. by destruct (Hh2 v).
Qed.


(** ** Taking and splitting a block *)

Lemma alloc_row_total s asize : total (alloc_row s asize) = s.
Proof. unfold alloc_row. destruct (_ >=? _); simpl; lia. Qed.

Lemma split_block_ok h pre s asize post l :
  let x := heap_start h + total pre in
  layout h (pre ++ (s, true) :: post) l →
  l ≡ₚ free_addrs (heap_start h) pre ++ free_addrs (x + s) post →
  32 ≤ asize ≤ s → asize mod 16 = 0 →
  ∃ h' l', split_block x asize h = Ret tt h' ∧
    layout h' (pre ++ alloc_row s asize ++ post) l' ∧
    l' ≡ₚ free_addrs (heap_start h) (pre ++ alloc_row s asize ++ post) ∧ shape h' = shape h ∧
    ∀ w, data_word (heap_start h) pre w ∨ data_word (x + s) post w → mem h' !! w = mem h !! w.
Proof.
  intros x L Hp Ha Hm.
  destruct (lay_block h _ _ L pre s true _ eq_refl) as (B1 & B2 & B3 & B4 & B5 & B6 & B7 & _ & _ & Eg & _).
  pose proof (lay_facts _ _ _ L) as (F1 & F2 & F3 & F4 & F5 & F6 & F7).
  fold x in Eg. unfold split_block. run Eg. rewrite u64_small by lia.
  unfold alloc_row, min_block_size. destruct (Z.geb_spec (s - asize) 32) as [Hbig|Hsmall].
  2:{ exists h, l. split_and!; [done|done| |done|done].
      rewrite Hp, !free_addrs_app. simpl. by rewrite Z.add_0_r. }
  assert (in_heap_word h x ∧ in_heap_word h (x + asize - 8) ∧ in_heap_word h (x + asize) ∧
    in_heap_word h (x + asize + (s - asize) - 8)) as (I1 & I2 & I3 & I4).
  { unfold in_heap_word, x. split_and!; try lia; Z.to_euclidean_division_equations; lia. }
  rewrite write_both by (done || lia). set (h1 := set_mem (bset (mem h) x asize true) h).
  assert (find_next x h1 = Ret (x + asize) h1) as En.
  { unfold find_next, get_size. assert (load x h1 = Ret (pack asize true) h1) as E1.
    { apply load_in; [done|]. simpl. unfold bset. by rewrite lookup_insert_ne, lookup_insert_eq by lia. }
    rewrite (bind_Ret _ _ _ asize h1); [done|]. run E1. by rewrite extract_size_pack by (done || lia). }
  run En. assert ((s - asize) mod 16 = 0) as Hm2 by (Z.to_euclidean_division_equations; lia).
  rewrite write_both by (done || lia).
  set (m2 := bset (mem h1) (x + asize) (s - asize) false).
  set (mid' := [(asize, true); (s - asize, false)]).
  change (set_mem m2 h1) with (set_mem m2 h).
  assert (Forall blk_ok mid') as Hok'.
  { unfold mid', blk_ok, min_block_size. rewrite !Forall_cons, Forall_nil. simpl. split_and!; (done || lia). }
  pose proof (lay_ok _ _ _ L) as Hok. apply Forall_app in Hok as [Hpre [_ Hpost]%Forall_cons].
  assert (∀ y, y ∈ l → y ∈ free_addrs (heap_start h) (pre ++ mid' ++ post)) as Hsub.
  { intros y Hy. rewrite Hp in Hy. rewrite !free_addrs_app. unfold mid'. simpl. fold x.
    replace (x + (asize + (s - asize + 0))) with (x + s) by lia. set_solver. }
  assert (x + asize ∉ l) as Hnew.
  { rewrite Hp, elem_of_app. intros [Hy|Hy]; apply free_addrs_range in Hy; try done; unfold x in Hy; lia. }
  destruct (layout_retag h pre [(s, true)] mid' post l m2 L) as [L2 Hd2]; [simpl; lia|done| | | |done|].
  { subst m2 mid'. simpl. unfold bset. fold x.
    split_and!; try done.
    - by rewrite !lookup_insert_ne, lookup_insert_eq by lia.
    - rewrite !lookup_insert_ne by lia. by rewrite lookup_insert_eq.
    - by rewrite lookup_insert_ne, lookup_insert_eq by lia.
    - by rewrite lookup_insert_eq. }
  { intros w Hw. simpl in Hw. fold x in Hw. subst m2. simpl. unfold bset.
    by rewrite !lookup_insert_ne by lia. }
  { intros y Hy.
    assert (∀ w, w ∈ bounds x mid' → w ≠ y + 8 ∧ w ≠ y + 16) as Hnl.
    { intros w Hw. apply (bounds_not_link (heap_start h) (pre ++ mid' ++ post)); [| |by apply Hsub].
      - by apply Forall_app_2, Forall_app_2.
      - rewrite !bounds_app. set_solver. }
    unfold mid' in Hnl. simpl in Hnl.
    destruct (Hnl x) as [? ?]; [set_solver|].
    destruct (Hnl (x + asize - 8)) as [? ?]; [set_solver|].
    destruct (Hnl (x + asize)) as [? ?]; [set_solver|].
    destruct (Hnl (x + asize + (s - asize) - 8)) as [? ?]; [set_solver|].
    subst m2. simpl. unfold bset. by rewrite !lookup_insert_ne by congruence. }
  destruct (insert_block_ok (set_mem m2 h) _ l (x + asize) L2) as (h3 & E3 & L3 & Hs3 & Hd3); [|done|].
  { simpl. rewrite !free_addrs_app. unfold mid'. simpl. fold x. set_solver. }
  exists h3, (x + asize :: l). split_and!; [done|done| |done|].
  - rewrite Hp, !free_addrs_app. unfold mid'. simpl. fold x.
    replace (x + (asize + (s - asize + 0))) with (x + s) by lia.
    by rewrite Permutation_middle.
  - intros w Hw. rewrite Hd3.
    + apply Hd2. simpl. fold x. by rewrite Z.add_0_r.
    + simpl. apply data_word_app. destruct Hw as [Hw|Hw]; [by left|right].
      fold x. apply (data_word_app x mid' post). right. unfold mid'. simpl.
      by replace (x + (asize + (s - asize + 0))) with (x + s) by lia.
Qed.

Lemma perm_remove_blk h pre s post l :
  layout h (pre ++ (s, false) :: post) l →
  l ≡ₚ free_addrs (heap_start h) (pre ++ (s, false) :: post) →
  ∃ l1 l2, l = l1 ++ (heap_start h + total pre) :: l2 ∧
    l1 ++ l2 ≡ₚ free_addrs (heap_start h) pre ++ free_addrs (heap_start h + total pre + s) post.
Proof. intros _ Hp. rewrite free_addrs_app in Hp. simpl in Hp. by apply perm_remove. Qed.

(** The part of [mm_malloc] that takes a block it has found. *)
Definition take_block (b asize : Z) : prog heap Z :=
  remove_block b;;
  block_size ← get_size b;
  write_header b block_size true;;
  write_footer b block_size true;;
  split_block b asize;;
  mret (header_to_payload b).

Lemma take_block_ok h pre s post l asize :
  let x := heap_start h + total pre in
  layout h (pre ++ (s, false) :: post) l →
  l ≡ₚ free_addrs (heap_start h) (pre ++ (s, false) :: post) →
  32 ≤ asize ≤ s → asize mod 16 = 0 →
  ∃ h' l', take_block x asize h = Ret (x + 8) h' ∧
    layout h' (pre ++ alloc_row s asize ++ post) l' ∧
    l' ≡ₚ free_addrs (heap_start h) (pre ++ alloc_row s asize ++ post) ∧ shape h' = shape h ∧
    ∀ w, data_word (heap_start h) (pre ++ (s, false) :: post) w → mem h' !! w = mem h !! w.
Proof.
  intros x L Hp Ha Hm. destruct (perm_remove_blk _ _ _ _ _ L Hp) as (l1 & l2 & -> & Hp1).
  fold x in Hp1. unfold take_block.
  destruct (remove_block_ok _ _ _ _ _ L) as (h1 & E1 & L1 & Hs1 & Hd1). fold x in E1. run E1.
  pose proof (shape_start _ _ Hs1) as Hst.
  destruct (lay_block h1 _ _ L1 pre s false _ eq_refl)
    as (B1 & B2 & B3 & B4 & B5 & B6 & B7 & _ & _ & Eg & _).
  pose proof (lay_facts _ _ _ L1) as (F1 & F2 & F3 & F4 & F5 & F6 & F7).
  rewrite Hst in Eg. fold x in Eg. run Eg.
  destruct (layout_set1 h1 pre [(s, false)] s true post (l1 ++ l2) L1) as (I1 & I2 & L2 & Hd2);
    [done|simpl; lia| |].
  { intros y Hy. rewrite Hst. rewrite Hp1 in Hy. rewrite free_addrs_app. simpl. fold x. done. }
  rewrite Hst in I1, I2, L2, Hd2. fold x in I1, I2, L2, Hd2.
  rewrite write_both by (done || lia). set (h2 := set_mem _ h1) in *.
  destruct (split_block_ok h2 pre s asize post (l1 ++ l2) L2) as (h3 & l3 & E3 & L3 & Hp3 & Hs3 & Hd3).
  { simpl. rewrite Hst. exact Hp1. } { done. } { done. }
  simpl in E3, Hp3, Hd3. rewrite Hst in E3, Hp3, Hd3. fold x in E3, Hd3. run E3.
  exists h3, l3. split_and!; [done|done|done|etrans; [exact Hs3|exact Hs1]|].
  intros w Hw. rewrite <-Hd1 by done. apply data_word_app in Hw. rewrite data_word_free in Hw. fold x in Hw.
  rewrite Hd3 by done. by apply Hd2.
Qed.

(** ** Extending *)

Definition base (h : heap) : Z * Z * Z := (mem_start_brk h, mem_max_addr h, heap_start h).

Lemma layout_grow h pre mid mid' l m' d :
  let x := heap_start h + total pre in
  layout h (pre ++ mid) l → total mid' = total mid + d → 0 ≤ d → mem_brk h + d ≤ mem_max_addr h →
  Forall blk_ok mid' → seg m' x mid' → m' !! (x + total mid') = Some (pack 0 true) →
  (∀ w, w < x → m' !! w = mem h !! w) →
  (∀ y, y ∈ l → m' !! (y + 8) = mem h !! (y + 8) ∧ m' !! (y + 16) = mem h !! (y + 16)) →
  (∀ y, y ∈ l → y ∈ free_addrs (heap_start h) (pre ++ mid')) →
  layout (set_mem m' (set_brk (mem_brk h + d) h)) (pre ++ mid') l.
Proof.
  intros x L Htot Hd Hmax Hok' Hseg Hepi Hm Hlinks Hsub.
  pose proof (lay_facts _ _ _ L) as (F1 & F2 & F3 & F4 & F5 & F6 & F7).
  destruct L as [H1 H2 H3 H4 H5 H6 H7 H8 H9 H10 H11].
  apply Forall_app in H5 as [Hpre Hmid]. destruct (total_nonneg _ Hpre), (total_nonneg _ Hmid).
  rewrite !total_app in *. rewrite !seg_app in H7. destruct H7 as (S1 & S2).
  constructor; simpl; rewrite ?total_app; try done; try lia.
  - by apply Forall_app_2.
  - rewrite Hm; [done|lia].
  - rewrite !seg_app. fold x. split; [|done]. eapply seg_frame; [done|].
    intros w Hw. apply Hm. pose proof (bounds_range _ _ _ Hpre Hw). lia.
  - rewrite Z.add_assoc. exact Hepi.
  - eapply dll_frame; [done|exact Hlinks].
Qed.

(** [extend_heap] at the end of the row. *)
Definition extend_row (bs : list blk) : list blk :=
  match last bs with
  | Some (s, false) => take (length bs - 1) bs ++ [(s + chunksize, false)]
  | _ => bs ++ [(chunksize, false)]
  end.

Lemma chunk_eq : chunksize = 4096.
Proof. done. Qed.

(** The new space, before the list and the epilogue are written. *)
Definition grown (h : heap) : heap := set_brk (mem_brk h + chunksize) h.

Lemma in_heap_grown h a : in_heap_word h a → in_heap_word (grown h) a.
Proof. unfold in_heap_word, grown. rewrite chunk_eq. simpl. lia. Qed.

Section extend.
Context (h : heap) (bs : list blk) (l : list Z) (L : layout h bs l).
Context (Hroom : mem_brk h + chunksize ≤ mem_max_addr h).
Notation start := (heap_start h).
Notation x := (start + total bs).

(** The last block is allocated, or there is none: a new free block. *)
Lemma extend_new :
  ∃ h' l', (write_header x chunksize false;; write_footer x chunksize false;; insert_block x;;
            epilogue ← find_next x; write_header epilogue 0 true;; mret x) (grown h) = Ret x h' ∧
    layout h' (bs ++ [(chunksize, false)]) l' ∧ l' ≡ₚ x :: l ∧ base h' = base h ∧
    mem_brk h' = mem_brk h + chunksize ∧
    ∀ w, data_word start bs w → mem h' !! w = mem h !! w.
Proof.
  pose proof (lay_facts _ _ _ L) as (F1 & F2 & F3 & F4 & F5 & F6 & F7).
  rewrite chunk_eq in *.
  assert (in_heap_word (grown h) x ∧ in_heap_word (grown h) (x + 4096 - 8) ∧
    in_heap_word (grown h) (x + 4096)) as (I1 & I2 & I3).
  { unfold in_heap_word, grown. rewrite chunk_eq. simpl.
    split_and!; try lia; Z.to_euclidean_division_equations; lia. }
  rewrite write_both by (done || lia).
  set (m1 := bset (mem (grown h)) x 4096 false). set (h1 := set_mem m1 (grown h)).
  (* the layout once the epilogue is there *)
  set (m2 := <[x + 4096 := pack 0 true]> m1).
  assert (∀ y, y ∈ l → y + 32 ≤ x) as Hfar.
  { intros y Hy. apply (lay_sub _ _ _ L) in Hy. apply free_addrs_range in Hy; [lia|apply L]. }
  assert (layout (set_mem m2 (grown h)) (bs ++ [(4096, false)]) l) as L2.
  { unfold grown. rewrite chunk_eq.
    apply (layout_grow h bs [] [(4096, false)] l m2 4096); rewrite ?app_nil_r; try done; try lia.
    - constructor; [|done]. by split.
    - simpl. unfold m2, m1, bset. split_and!; [| |done].
      + by rewrite !lookup_insert_ne, lookup_insert_eq by lia.
      + by rewrite lookup_insert_ne, lookup_insert_eq by lia.
    - simpl. unfold m2. by rewrite lookup_insert_eq.
    - intros w Hw. unfold m2, m1, bset. by rewrite !lookup_insert_ne by lia.
    - intros y Hy. specialize (Hfar y Hy). unfold m2, m1, bset. by rewrite !lookup_insert_ne by lia.
    - intros y Hy. rewrite free_addrs_app. apply elem_of_app. left. by apply (lay_sub _ _ _ L). }
  assert (x ∈ free_addrs start (bs ++ [(4096, false)])) as Hx.
  { rewrite free_addrs_app. simpl. set_solver. }
  assert (x ∉ l) as Hnin by (intros Hy; specialize (Hfar x Hy); lia).
  destruct (insert_dll h1 (free_addrs start (bs ++ [(4096, false)])) l x) as (m3 & E3 & Hd3 & Hout3).
  { exact (layout_links_ok _ _ _ L2). }
  { eapply dll_frame; [apply L|]. intros y Hy. specialize (Hfar y Hy). simpl. unfold m1, bset.
    by rewrite !lookup_insert_ne by lia. }
  { apply NoDup_cons. split; [done|apply L]. }
  { intros y [->|Hy]%elem_of_cons; [done|]. by apply (lay_sub _ _ _ L2). }
  run E3. set (h3 := set_head x (set_mem m3 h1)).
  assert (∀ w, w ∈ bounds start (bs ++ [(4096, false)]) → m3 !! w = m1 !! w) as Hb3.
  { intros w Hw. apply Hout3. intros y Hy. eapply bounds_not_link; [apply L2|exact Hw|exact Hy]. }
  assert (find_next x h3 = Ret (x + 4096) h3) as En.
  { unfold find_next, get_size. assert (load x h3 = Ret (pack 4096 false) h3) as E1.
    { apply load_in; [done|]. simpl. rewrite Hb3.
      - unfold m1, bset. by rewrite lookup_insert_ne, lookup_insert_eq by lia.
      - rewrite bounds_app. simpl. set_solver. }
    rewrite (bind_Ret _ _ _ 4096 h3); [done|]. run E1. by rewrite extract_size_pack. }
  run En. unfold write_header. run (store_in h3 (x + 4096) (pack 0 true) I3).
  assert (∀ w, (∀ y, y ∈ free_addrs start (bs ++ [(4096, false)]) → w ≠ y + 8 ∧ w ≠ y + 16) →
    <[x + 4096 := pack 0 true]> m3 !! w = m2 !! w) as Hout4.
  { intros w Hw. unfold m2. destruct (decide (w = x + 4096)) as [->|Hne].
    - by rewrite !lookup_insert_eq.
    - rewrite !lookup_insert_ne by done. by apply Hout3. }
  destruct (layout_links _ _ _ L2 (<[x + 4096 := pack 0 true]> m3) x (x :: l) Hout4) as [L4 Hd4].
  { eapply dll_frame; [done|]. intros y [->|Hy]%elem_of_cons.
    - by rewrite !lookup_insert_ne by lia.
    - specialize (Hfar y Hy). by rewrite !lookup_insert_ne by lia. }
  { apply NoDup_cons. split; [done|apply L]. }
  { intros y [->|Hy]%elem_of_cons; [done|]. by apply (lay_sub _ _ _ L2). }
  eexists _, (x :: l). split; [done|]. split; [exact L4|].
  split_and!; [done|done|done|].
  intros w Hw. simpl. rewrite Hd4.
  - simpl. destruct Hw as (y & t & Hy & Hw).
    apply alloc_addrs_split in Hy as (p1 & p2 & E & ->).
    pose proof (lay_ok _ _ _ L) as Hok. rewrite E in Hok.
    apply Forall_app in Hok as [Hp1 [_ Hp2]%Forall_cons].
    destruct (total_nonneg _ Hp2).
    assert (total bs = total p1 + (t + total p2)) as Ht by (by rewrite E, total_app).
    unfold m2, m1, bset. by rewrite !lookup_insert_ne by lia.
  - simpl. apply data_word_app. by left.
Qed.
End extend.

(** The last block is free: it grows, and stays where it is in the list. *)
Lemma extend_last h pre s l :
  let x := heap_start h + total pre in
  layout h (pre ++ [(s, false)]) l → mem_brk h + chunksize ≤ mem_max_addr h →
  ∃ h', (write_header x (u64 (s + chunksize)) false;; write_footer x (u64 (s + chunksize)) false;;
         epilogue ← find_next x; write_header epilogue 0 true;; mret x) (grown h) = Ret x h' ∧
    layout h' (pre ++ [(s + chunksize, false)]) l ∧ base h' = base h ∧
    mem_brk h' = mem_brk h + chunksize ∧
    ∀ w, data_word (heap_start h) (pre ++ [(s, false)]) w → mem h' !! w = mem h !! w.
Proof.
  intros x L Hroom. rewrite chunk_eq in *.
  destruct (lay_block h _ _ L pre s false [] eq_refl) as (B1 & B2 & B3 & B4 & B5 & B6 & B7 & _).
  pose proof (lay_facts _ _ _ L) as (F1 & F2 & F3 & F4 & F5 & F6 & F7).
  simpl in B7. rewrite u64_small by lia.
  assert (in_heap_word (grown h) x ∧ in_heap_word (grown h) (x + (s + 4096) - 8) ∧
    in_heap_word (grown h) (x + (s + 4096))) as (I1 & I2 & I3).
  { unfold in_heap_word, grown, x. rewrite chunk_eq. simpl.
    split_and!; try lia; Z.to_euclidean_division_equations; lia. }
  assert ((s + 4096) mod 16 = 0) as Hs16 by (Z.to_euclidean_division_equations; lia).
  rewrite write_both by (done || lia).
  set (m1 := bset (mem (grown h)) x (s + 4096) false). set (h1 := set_mem m1 (grown h)).
  assert (find_next x h1 = Ret (x + (s + 4096)) h1) as En.
  { unfold find_next, get_size. assert (load x h1 = Ret (pack (s + 4096) false) h1) as E1.
    { apply load_in; [done|]. simpl. unfold m1, bset. by rewrite lookup_insert_ne, lookup_insert_eq by lia. }
    rewrite (bind_Ret _ _ _ (s + 4096) h1); [done|]. run E1. by rewrite extract_size_pack by (done || lia). }
  run En. unfold write_header. run (store_in h1 (x + (s + 4096)) (pack 0 true) I3).
  set (m2 := <[x + (s + 4096) := pack 0 true]> (mem h1)).
  pose proof (lay_ok _ _ _ L) as Hok. apply Forall_app in Hok as [Hpre _].
  assert (∀ y, y ∈ l → y + 32 ≤ x ∨ y = x) as Hfar.
  { intros y Hy. apply (lay_sub _ _ _ L) in Hy. rewrite free_addrs_app in Hy. simpl in Hy.
    apply elem_of_app in Hy as [Hy|Hy%list_elem_of_singleton]; [left|by right].
    apply free_addrs_range in Hy; [unfold x; lia|done]. }
  eexists. split; [reflexivity|]. split; [|split_and!; [done|done|]].
  - change (set_mem m2 h1) with (set_mem m2 (set_brk (mem_brk h + 4096) h)).
    apply (layout_grow h pre [(s, false)] [(s + 4096, false)] l m2 4096); try done.
    + simpl. lia.
    + constructor; [split; [unfold min_block_size; simpl; lia|done]|done].
    + simpl. fold x. unfold m2, h1, m1. simpl. unfold bset. split_and!; [| |done].
      * by rewrite !lookup_insert_ne, lookup_insert_eq by lia.
      * by rewrite lookup_insert_ne, lookup_insert_eq by lia.
    + simpl. fold x. unfold m2. rewrite Z.add_0_r. by rewrite lookup_insert_eq.
    + intros w Hw. fold x in Hw. unfold m2, h1, m1. simpl. unfold bset.
      by rewrite !lookup_insert_ne by lia.
    + intros y Hy. destruct (Hfar y Hy) as [Hfy| ->]; unfold m2, h1, m1; simpl; unfold bset;
        by rewrite !lookup_insert_ne by lia.
    + intros y Hy. apply (lay_sub _ _ _ L) in Hy. by rewrite free_addrs_app in Hy |- *.
  - intros w Hw. apply data_word_app in Hw as [Hw|Hw]; [|by destruct Hw as (? & ? & Hin & _); set_solver].
    destruct Hw as (y & t & Hy & Hw). apply alloc_addrs_split in Hy as (p1 & p2 & E & ->).
    rewrite E in Hpre. apply Forall_app in Hpre as [_ [_ Hp2]%Forall_cons].
    destruct (total_nonneg _ Hp2).
    assert (total pre = total p1 + (t + total p2)) as Ht by (by rewrite E, total_app).
    unfold m2, h1, m1. simpl. unfold bset. by rewrite !lookup_insert_ne by (unfold x; lia).
Qed.

(** What an extension leaves behind. *)
Lemma extend_heap_ok h bs :
  heap_inv h bs →
  ∃ r h', extend_heap chunksize h = Ret r h' ∧
    ((r = 0 ∧ h' = h ∧ mem_max_addr h < mem_brk h + chunksize) ∨
     (r ≠ 0 ∧ heap_inv h' (extend_row bs) ∧ base h' = base h ∧
      mem_brk h' = mem_brk h + chunksize ∧
      alloc_addrs (heap_start h) (extend_row bs) = alloc_addrs (heap_start h) bs ∧
      ∀ w, data_word (heap_start h) bs w → mem h' !! w = mem h !! w)).
Proof.
  intros [(l & L & Hp) Hco]. pose proof (lay_facts _ _ _ L) as (F1 & F2 & F3 & F4 & F5 & F6 & F7).
  unfold extend_heap. change (round_up chunksize dsize) with 4096. change (4096 <? min_block_size) with false.
  cbv iota zeta. change chunksize with 4096.
  destruct (decide (mem_max_addr h < mem_brk h + 4096)) as [Hno|Hroom].
  { exists 0, h. assert (mem_sbrk 4096 h = Ret None h) as E.
    { unfold mem_sbrk. by rewrite (proj2 (Z.gtb_lt _ _)) by lia. }
    run E. split; [done|]. by left. }
  assert (mem_sbrk 4096 h = Ret (Some (mem_brk h)) (grown h)) as E.
  { unfold mem_sbrk. destruct (Z.gtb_spec (mem_brk h + 4096) (mem_max_addr h)); [lia|done]. }
  run E. unfold payload_to_header. replace (mem_brk h - 8) with (heap_start h + total bs) by lia.
  assert (∀ a v, load a h = Ret v h → load a (grown h) = Ret v (grown h)) as Hload.
  { intros a v El. unfold load, reads in *. destruct (word_ok h a) eqn:Hw; [|done].
    assert (word_ok (grown h) a = true) as ->.
    { unfold word_ok, grown in *. rewrite chunk_eq. simpl.
      apply andb_true_iff in Hw as [[Ha Hb]%andb_true_iff Hc].
      rewrite Ha, Hc. simpl. rewrite andb_true_r. apply Z.leb_le. apply Z.leb_le in Hb. lia. }
    change (mem (grown h)) with (mem h). destruct (mem h !! a); by simplify_eq. }
  assert (∀ A (k : Z → prog heap A) b v, (∀ w g, ∃ u, k w g = Ret u g ∧ ∀ g', k w g' = Ret u g') →
    (w ← load b; k w) h = Ret v h → (w ← load b; k w) (grown h) = Ret v (grown h)) as Hmono.
  { intros A k b v Hk Eb. unfold mbind, prog_bind in *. destruct (load b h) as [w h'| | |] eqn:El; try done.
    assert (h' = h) as ->.
    { unfold load, reads in El. destruct (if word_ok h b then _ else _); by simplify_eq. }
    rewrite (Hload _ _ El). destruct (Hk w h) as (u & E1 & E2). rewrite E2. rewrite E1 in Eb. by simplify_eq. }
  assert (∀ b al, get_alloc b h = Ret al h → get_alloc b (grown h) = Ret al (grown h)) as Hga.
  { intros b al. apply Hmono. intros w g. by eexists. }
  assert (∀ b s, get_size b h = Ret s h → get_size b (grown h) = Ret s (grown h)) as Hgs.
  { intros b s. apply Hmono. intros w g. by eexists. }
  assert (∀ b p, find_prev b h = Ret p h → find_prev b (grown h) = Ret p (grown h)) as Hfp.
  { intros b p. unfold find_prev. apply Hmono. intros w g. destruct (extract_size w =? 0); by eexists. }
  clear E Hload Hmono.
  assert (∀ b, find_prev (heap_start h + total bs) h = Ret b h → get_alloc b h = Ret true h →
    (∀ s, last bs ≠ Some (s, false)) → ∃ r h',
    (last_block ← find_prev (heap_start h + total bs); alloc ← get_alloc last_block;
     if negb alloc
     then
       last_size ← get_size last_block;
       write_header last_block (u64 (last_size + 4096)) false;;
       write_footer last_block (u64 (last_size + 4096)) false;;
       epilogue ← find_next last_block; write_header epilogue 0 true;; mret last_block
     else
       write_header (heap_start h + total bs) 4096 false;;
       write_footer (heap_start h + total bs) 4096 false;;
       insert_block (heap_start h + total bs);;
       epilogue ← find_next (heap_start h + total bs); write_header epilogue 0 true;;
       mret (heap_start h + total bs)) (grown h) = Ret r h' ∧
    (r ≠ 0 ∧ heap_inv h' (extend_row bs) ∧ base h' = base h ∧ mem_brk h' = mem_brk h + 4096 ∧
     alloc_addrs (heap_start h) (extend_row bs) = alloc_addrs (heap_start h) bs ∧
     ∀ w, data_word (heap_start h) bs w → mem h' !! w = mem h !! w)) as Hnew.
  { intros b E1 E2 Hlast. run (Hfp _ _ E1). run (Hga _ _ E2). cbn [negb].
    destruct (extend_new h bs l L) as (h' & l' & E & L' & Hp' & Hb & Hk & Hd); [rewrite chunk_eq; lia|].
    rewrite chunk_eq in *. exists (heap_start h + total bs), h'. split; [exact E|].
    assert (extend_row bs = bs ++ [(4096, false)]) as ->.
    { unfold extend_row. destruct (last bs) as [[s [|]]|] eqn:El; try done. by destruct (Hlast s). }
    assert (heap_start h' = heap_start h) as Hst by (by injection Hb).
    split_and!; [lia| |done|done| |done].
    - constructor.
      + exists l'. split; [done|]. rewrite Hp', Hst, Hp, free_addrs_app. simpl.
        by rewrite Permutation_cons_append.
      + apply coalesced_app. split_and!; [done| |done]. intros u v Hu. by destruct (Hlast u).
    - rewrite alloc_addrs_app. simpl. by rewrite app_nil_r. }
  destruct bs as [|[s al] pre _] using rev_ind.
  - pose proof (lay_prev h _ _ L [] [] eq_refl) as [E1 E2].
    destruct (Hnew (heap_start h - 8)) as (r & h' & E & Hpost); [done|done|done|].
    exists r, h'. split; [exact E|]. by right.
  - pose proof (lay_prev h _ _ L (pre ++ [(s, al)]) []) as E1. rewrite last_snoc in E1.
    specialize (E1 ltac:(by rewrite app_nil_r)).
    replace (heap_start h + total (pre ++ [(s, al)]) - s) with (heap_start h + total pre) in E1
      by (rewrite total_app; simpl; lia).
    destruct (lay_block h _ _ L pre s al [] eq_refl)
      as (B1 & B2 & B3 & B4 & B5 & _ & _ & _ & _ & Eg & Ea & _).
    destruct al.
    + destruct (Hnew (heap_start h + total pre)) as (r & h' & E & Hpost); [done|done| |].
      { intros u. by rewrite last_snoc. }
      exists r, h'. split; [exact E|]. by right.
    + clear Hnew. run (Hfp _ _ E1). run (Hga _ _ Ea). cbn [negb]. run (Hgs _ _ Eg).
      destruct (extend_last h pre s l L) as (h' & E & L' & Hb & Hk & Hd); [rewrite chunk_eq; lia|].
      rewrite chunk_eq in *. exists (heap_start h + total pre), h'. split; [exact E|]. right.
      assert (extend_row (pre ++ [(s, false)]) = pre ++ [(s + 4096, false)]) as ->.
      { unfold extend_row. rewrite last_snoc, length_app. simpl.
        replace (length pre + 1 - 1)%nat with (length pre) by lia. by rewrite take_app_length. }
      assert (heap_start h' = heap_start h) as Hst by (by injection Hb).
      split_and!; [lia| |done|done| |done].
      * constructor.
        -- exists l. split; [done|]. by rewrite Hp, Hst, !free_addrs_app.
        -- apply coalesced_app in Hco as (H1 & H2 & _). apply coalesced_app. split_and!; [done| |done].
           intros u v Hu _. by apply (H2 u s).
      * by rewrite !alloc_addrs_app.
Qed.

(** ** mm_malloc *)

(** The payload of one allocated block meets no other block. *)
Definition apart (x t y u : Z) : Prop := x + t ≤ y ∨ y + u ≤ x.

Lemma alloc_addrs_range a bs y u :
  Forall blk_ok bs → (y, u) ∈ alloc_addrs a bs → a ≤ y ∧ 32 ≤ u ∧ y + u ≤ a + total bs.
Proof.
  intros Hok (p1 & p2 & -> & ->)%alloc_addrs_split.
  apply Forall_app in Hok as [H1 [[H2 _] H3]%Forall_cons]. simpl in H2. unfold min_block_size in H2.
  destruct (total_nonneg _ H1), (total_nonneg _ H3). rewrite total_app. simpl. lia.
Qed.

Lemma alloc_apart a pre t post y u :
  Forall blk_ok (pre ++ (t, true) :: post) →
  (y, u) ∈ alloc_addrs a pre ++ alloc_addrs (a + total pre + t) post → apart (a + total pre) t y u.
Proof.
  intros [Hp [_ Hq]%Forall_cons]%Forall_app [Hy|Hy]%elem_of_app;
    apply alloc_addrs_range in Hy; try done; unfold apart; lia.
Qed.

(** The sizes for which [adjust_size] does not wrap around. *)
Definition fair_size (size : Z) : Prop := 0 < size ≤ 18446744073709551584.

Lemma adjust_size_ok size : fair_size size →
  adjust_size size mod 16 = 0 ∧ 32 ≤ adjust_size size ∧
  size + 16 ≤ adjust_size size ≤ Z.max 32 (size + 31).
Proof.
  intros Hs. unfold fair_size in Hs. unfold adjust_size, dsize, min_block_size.
  destruct (Z.leb_spec size 16); [by split_and!; try lia|].
  rewrite u64_small by lia. unfold round_up.
  rewrite (u64_small (size + 16 + (16 - 1))) by lia.
  rewrite u64_small by (Z.to_euclidean_division_equations; lia).
  Z.to_euclidean_division_equations; lia.
Qed.

(** What [mm_malloc] leaves behind when it returns [r]. *)
Definition malloc_post (h : heap) (bs : list blk) (size r : Z) (h' : heap) (bs' : list blk) : Prop :=
  heap_inv h' bs' ∧ base h' = base h ∧
  (∀ w, data_word (heap_start h) bs w → mem h' !! w = mem h !! w) ∧
  ((r = 0 ∧ alloc_addrs (heap_start h) bs' = alloc_addrs (heap_start h) bs ∧
    (∀ y t, free_blk (heap_start h) bs' y t → t < adjust_size size) ∧
    mem_max_addr h < mem_brk h' + chunksize) ∨
   (∃ x t, r = x + 8 ∧ 0 < r ∧ r mod 16 = 0 ∧ adjust_size size ≤ t < adjust_size size + 32 ∧
      alloc_addrs (heap_start h) bs' ≡ₚ (x, t) :: alloc_addrs (heap_start h) bs ∧
      ∀ y u, (y, u) ∈ alloc_addrs (heap_start h) bs → apart x t y u)).

(** The row of the branch that finds a block. *)
Lemma alloc_row_addrs a pre s asize post :
  32 ≤ asize ≤ s → ∃ t pre' post', asize ≤ t < asize + 32 ∧
    pre ++ alloc_row s asize ++ post = pre ++ (t, true) :: post' ∧
    alloc_addrs (a + total pre + t) post' = alloc_addrs (a + total pre + s) post ∧ pre' = pre.
Proof.
  intros Hs. unfold alloc_row, min_block_size. destruct (Z.geb_spec (s - asize) 32).
  - exists asize, pre, ((s - asize, false) :: post). split_and!; [lia|lia|done| |done].
    simpl. f_equal. lia.
  - exists s, pre, post. split_and!; [lia|lia|done|done|done].
Qed.

Lemma malloc_found h pre s post size :
  heap_inv h (pre ++ (s, false) :: post) → fair_size size → adjust_size size ≤ s →
  let x := heap_start h + total pre in
  ∃ h' bs', take_block x (adjust_size size) h = Ret (x + 8) h' ∧
    malloc_post h (pre ++ (s, false) :: post) size (x + 8) h' bs'.
Proof.
  intros [(l & L & Hp) Hco] Hf Hle x. destruct (adjust_size_ok _ Hf) as (A1 & A2 & A3).
  destruct (take_block_ok h pre s post l (adjust_size size) L Hp) as (h' & l' & E & L' & Hp' & Hs & Hd);
    [lia|done|].
  pose proof (shape_start _ _ Hs) as Hst. pose proof (lay_facts _ _ _ L) as (F1 & F2 & F3 & F4 & F5 & F6 & F7).
  pose proof (lay_ok _ _ _ L) as Hok. apply Forall_app in Hok as [Hpre _].
  destruct (total_nonneg _ Hpre). pose proof (lay_base _ _ _ L). pose proof (lay_start _ _ _ L).
  destruct (alloc_row_addrs (heap_start h) pre s (adjust_size size) post) as (t & ? & post' & Ht & Erow & Ea & _);
    [lia|].
  eexists h', _. split; [exact E|]. split_and!.
  - constructor; [exists l'; rewrite Hst; by split|by apply (alloc_row_coalesced pre s)].
  - unfold base, shape in *. congruence.
  - exact Hd.
  - right. exists x, t. split_and!; [done|unfold x; lia| |lia|lia| |].
    + unfold x. Z.to_euclidean_division_equations; lia.
    + rewrite Erow, !alloc_addrs_app. simpl. rewrite Ea. by rewrite Permutation_middle.
    + intros y u Hy. pose proof (lay_ok _ _ _ L') as Hok'. rewrite Erow in Hok'.
      apply (alloc_apart (heap_start h) _ _ _ _ _ Hok').
      rewrite Ea. rewrite alloc_addrs_app in Hy. by simpl in Hy.
Qed.

Lemma malloc_post_extend h h1 bs bs1 size r h' bs' :
  base h1 = base h → alloc_addrs (heap_start h) bs1 = alloc_addrs (heap_start h) bs →
  (∀ w, data_word (heap_start h) bs w → mem h1 !! w = mem h !! w) →
  malloc_post h1 bs1 size r h' bs' → malloc_post h bs size r h' bs'.
Proof.
  intros Hb Ha Hd (P1 & P2 & P3 & P4). assert (heap_start h1 = heap_start h) as Hst by (by injection Hb).
  assert (mem_max_addr h1 = mem_max_addr h) as Hm by (by injection Hb).
  rewrite Hst, Hm, Ha in P4. rewrite Hst in P3. split_and!; [done|congruence| |exact P4].
  intros w Hw. rewrite P3; [by apply Hd|]. unfold data_word in *. by rewrite Ha.
Qed.

Lemma mm_malloc_rec_ok fuel size h bs :
  heap_inv h bs → fair_size size → (Z.to_nat ((mem_max_addr h - mem_brk h) / chunksize) < fuel)%nat →
  ∃ r h' bs', mm_malloc_rec fuel size h = Ret r h' ∧ malloc_post h bs size r h' bs'.
Proof.
  intros Hinv Hf. revert h bs Hinv. induction fuel as [|fuel IH]; intros h bs Hinv Hfuel; [lia|].
  destruct (adjust_size_ok _ Hf) as (A1 & A2 & A3). pose proof Hf as Hf'. unfold fair_size in Hf'.
  cbn [mm_malloc_rec]. rewrite (proj2 (Z.eqb_neq size 0)) by lia. cbv zeta.
  destruct Hinv as [(l & L & Hp) Hco]. pose proof (Build_heap_inv h bs ltac:(by exists l) Hco) as Hinv.
  destruct (find_fit_ok h bs l L (adjust_size size) Hp) as (r & E & [[-> Hnone]|(s & Hr & Hblk & Hs & _)]); run E.
  - rewrite Z.eqb_refl. destruct (extend_heap_ok h bs Hinv) as
      (r & h1 & E1 & [(-> & -> & Hmax)|(Hr & Hinv1 & Hb & Hbrk & Ha & Hd)]); run E1.
    + exists 0, h, bs. split; [done|]. split_and!; [done|done|done|]. by left.
    + rewrite (proj2 (Z.eqb_neq r 0)) by done. rewrite chunk_eq in *.
      assert (mem_max_addr h1 = mem_max_addr h) as Hm by (by injection Hb).
      destruct Hinv1 as [(l1 & L1 & Hp1) Hco1]. pose proof (lay_max _ _ _ L1) as Hmx.
      destruct (IH h1 (extend_row bs)) as (r' & h' & bs' & E2 & Hpost).
      { constructor; [by exists l1|done]. }
      { rewrite Hm, Hbrk. rewrite Hm in Hmx.
        replace (mem_max_addr h - (mem_brk h + 4096)) with (mem_max_addr h - mem_brk h + (-1) * 4096) by lia.
        rewrite Z.div_add by lia.
        assert (1 ≤ (mem_max_addr h - mem_brk h) / 4096) by (apply Z.div_le_lower_bound; lia). lia. }
      exists r', h', bs'. split; [done|]. by eapply malloc_post_extend.
  - destruct Hblk as (pre & post & -> & ->).
    rewrite (proj2 (Z.eqb_neq _ 0)) by done.
    destruct (malloc_found h pre s post size Hinv Hf Hs) as (h' & bs' & E1 & Hpost).
    exists (heap_start h + total pre + 8), h', bs'. split; [exact E1|exact Hpost].
Qed.

(** ** mm_free *)

Lemma retag_free {A} h x s (k : prog heap A) :
  in_heap_word h x → in_heap_word h (x + s - 8) → 0 ≤ s < 9223372036854775808 → s mod 16 = 0 →
  (write_header x s false;; s2 ← get_size x; write_footer x s2 false;; k) h
  = k (set_mem (bset (mem h) x s false) h).
Proof.
  intros Hx Hf Hs Hm. rewrite <-(write_both h x s false k) by done.
  unfold write_header. run (store_in h x (pack s false) Hx).
  rewrite (bind_Ret (store x (pack s false)) _ h _ _ (store_in h x (pack s false) Hx)).
  set (h1 := set_mem _ h). rewrite (bind_Ret (get_size x) _ h1 s h1); [done|].
  unfold get_size. assert (load x h1 = Ret (pack s false) h1) as E by (apply load_in; [done|apply lookup_insert_eq]).
  run E. by rewrite extract_size_pack by (done || lia).
Qed.

(** What [mm_free] leaves behind. *)
Definition free_post (h : heap) (x t : Z) (bs : list blk) (h' : heap) (bs' : list blk) : Prop :=
  heap_inv h' bs' ∧ shape h' = shape h ∧
  alloc_addrs (heap_start h) bs ≡ₚ (x, t) :: alloc_addrs (heap_start h) bs' ∧
  ∀ w, data_word (heap_start h) bs' w → mem h' !! w = mem h !! w.

Lemma mm_free_ok h bs x t :
  heap_inv h bs → (x, t) ∈ alloc_addrs (heap_start h) bs →
  ∃ h' bs', mm_free (x + 8) h = Ret tt h' ∧ free_post h x t bs h' bs'.
Proof.
  intros [(l & L & Hp) Hco] (pre & post & -> & ->)%alloc_addrs_split.
  destruct (lay_block h _ _ L pre t true post eq_refl)
    as (B1 & B2 & B3 & B4 & B5 & B6 & B7 & _ & _ & Eg & Ea & _).
  pose proof (lay_facts _ _ _ L) as (F1 & F2 & F3 & F4 & F5 & F6 & F7).
  set (x := heap_start h + total pre) in *. unfold mm_free, payload_to_header.
  rewrite (proj2 (Z.eqb_neq (x + 8) 0)) by lia. cbv zeta. replace (x + 8 - 8) with x by lia.
  run Ea. cbn [negb]. run Eg. rewrite (proj2 (Z.eqb_neq t 0)) by lia. run Eg.
  destruct (layout_set1 h pre [(t, true)] t false post l L) as (I1 & I2 & L1 & Hd1); [done|simpl; lia| |].
  { intros y Hy. rewrite Hp, !free_addrs_app in Hy. rewrite free_addrs_app. simpl in *. set_solver. }
  fold x in I1, I2, L1, Hd1. rewrite retag_free by (done || lia). set (h1 := set_mem _ h) in *.
  assert (x ∉ l) as Hnin.
  { rewrite Hp, free_addrs_app. simpl. pose proof (lay_ok _ _ _ L) as [Hk1 [_ Hk2]%Forall_cons]%Forall_app.
    intros [Hx|Hx]%elem_of_app; apply free_addrs_range in Hx; try done; unfold x in *; lia. }
  assert (free_addrs (heap_start h) (pre ++ (t, false) :: post) ≡ₚ x :: l) as Hp1.
  { rewrite Hp, !free_addrs_app. simpl. by rewrite Permutation_middle. }
  destruct (insert_block_ok h1 _ l x L1) as (h2 & E2 & L2 & Hs2 & Hd2); [|done|].
  { change (heap_start h1) with (heap_start h). rewrite Hp1. set_solver. }
  run E2. pose proof (shape_start _ _ Hs2) as Hst2. change (heap_start h1) with (heap_start h) in Hst2.
  destruct (coalesce_block_ok h2 pre t post (x :: l) L2) as (r & h3 & E3 & Hs3 & (l3 & L3 & Hp3) & Ha3 & Hd3).
  { by rewrite Hst2, Hp1. }
  rewrite Hst2 in E3, Hp3, Ha3, Hd3. fold x in E3. run E3.
  assert (heap_start h3 = heap_start h) as Hst3 by (rewrite (shape_start _ _ Hs3); done).
  exists h3, (coalesce_row pre t post). split; [done|]. split_and!.
  - constructor; [exists l3; rewrite Hst3; by split|by apply coalesce_row_coalesced].
  - by rewrite Hs3, Hs2.
  - rewrite Ha3, !alloc_addrs_app. simpl. by rewrite Permutation_middle.
  - intros w Hw. unfold data_word in Hw. setoid_rewrite Ha3 in Hw.
    change (data_word (heap_start h) (pre ++ (t, false) :: post) w) in Hw.
    rewrite Hd3, Hd2 by done. apply Hd1. apply data_word_app in Hw. by rewrite data_word_free in Hw.
Qed.

(** ** mm_init *)

(** What [mem_init] got from [malloc]: the limit is at most the size of [MAX_HEAP]. *)
Definition base_ok (b : Z) : Prop := 0 < b ∧ b mod 16 = 0 ∧ b + MAX_HEAP < 9223372036854775808.

Lemma MAX_HEAP_eq : MAX_HEAP = 41943040.
Proof. done. Qed.

(** The heap before its first extension: prologue and epilogue only. *)
Lemma empty_layout b : base_ok b →
  ∃ h0, (modify (set_head 0);; r ← mem_sbrk (2 * wsize);
         match r with
         | None => mret None
         | Some start =>
             store start (pack 0 true);; store (start + 8) (pack 0 true);;
             modify (set_heap_start (start + 8));; mret (Some tt)
         end) (mem_init b) = Ret (Some tt) h0 ∧
    heap_inv h0 [] ∧ mem_brk h0 = b + 16 ∧ base h0 = (b, b + MAX_HEAP, b + 8).
Proof.
  rewrite MAX_HEAP_eq. intros (H1 & H2 & H3). rewrite MAX_HEAP_eq in H3.
  set (h1 := set_head 0 (mem_init b)).
  run (eq_refl (modify (set_head 0) (mem_init b))). fold h1.
  assert (mem_sbrk (2 * wsize) h1 = Ret (Some b) (set_brk (b + 16) h1)) as E.
  { unfold mem_sbrk. change (mem_brk h1 + 2 * wsize) with (b + 16). change (mem_brk h1) with b.
    change (mem_max_addr h1) with (b + MAX_HEAP). rewrite MAX_HEAP_eq.
    destruct (Z.gtb_spec (b + 16) (b + 41943040)); [lia|reflexivity]. }
  run E. set (h2 := set_brk (b + 16) h1).
  assert (in_heap_word h2 b ∧ in_heap_word h2 (b + 8)) as [I1 I2].
  { unfold in_heap_word, h2, h1, mem_init. simpl. split_and!; try lia; Z.to_euclidean_division_equations; lia. }
  run (store_in h2 b (pack 0 true) I1).
  set (h3 := set_mem _ h2). run (store_in h3 (b + 8) (pack 0 true) I2).
  eexists. split; [reflexivity|]. split; [|split; reflexivity]. constructor; [|done].
  exists []. split; [|done]. constructor; simpl; try done; try lia.
  - change (b + MAX_HEAP) with (b + 41943040). lia.
  - by rewrite lookup_insert_ne, lookup_insert_eq by lia.
  - by rewrite Z.add_0_r, lookup_insert_eq.
  - constructor.
Qed.

Lemma mm_init_ok b : base_ok b →
  ∃ h, mm_init (mem_init b) = Ret 0 h ∧ heap_inv h [(4096, false)] ∧
    base h = (b, b + MAX_HEAP, b + 8) ∧ mem_brk h = b + 4112.
Proof.
  intros Hb. destruct (empty_layout b Hb) as (h0 & E0 & Hinv & Hbrk & Hbase).
  destruct (extend_heap_ok h0 [] Hinv) as (r & h & E & [(-> & -> & Hmax)|(Hr & Hinv1 & Hb1 & Hbrk1 & _)]).
  { injection Hbase as Hb1 Hb2 Hb3. rewrite chunk_eq, Hb2, Hbrk, MAX_HEAP_eq in Hmax. lia. }
  exists h. split_and!; [|done|congruence|rewrite Hbrk1, Hbrk, chunk_eq; lia].
  assert (mm_init (mem_init b) = (free_block ← extend_heap chunksize;
    if free_block =? 0 then mret (-1) else mret 0) h0) as ->.
  { unfold mm_init. unfold mbind, prog_bind in *.
    destruct (modify (set_head 0) (mem_init b)) as [u s|? ?| |]; try done.
    destruct (mem_sbrk (2 * wsize) s) as [[st|] s1|? ?| |]; try done.
    destruct (store st (pack 0 true) s1) as [u2 s2|? ?| |]; try done.
    destruct (store (st + 8) (pack 0 true) s2) as [u3 s3|? ?| |]; try done.
    destruct (modify (set_heap_start (st + 8)) s3) as [u4 s4|? ?| |]; try done.
    injection E0 as ->. reflexivity. }
  run E. by rewrite (proj2 (Z.eqb_neq r 0)).
Qed.

(** ** What the allocator promises

    The client's view: the live payloads with the sizes that were asked for,
    and the words the client has written to them. *)

Record client := mk_client { live : gmap Z Z; data : gmap Z Z }.

(** A word inside a live payload. *)
Definition owned (c : client) (a : Z) : Prop :=
  a mod 8 = 0 ∧ ∃ p n, live c !! p = Some n ∧ p ≤ a ∧ a + 8 ≤ p + n.

Inductive op : Type :=
| Malloc (n : Z)
| Free (p : Z)
| Write (a v : Z)
| Read (a : Z).

Definition run_op (o : op) : prog heap Z :=
  match o with
  | Malloc n => mm_malloc n
  | Free p => mm_free p;; mret 0
  | Write a v => user_store a v;; mret 0
  | Read a => load a
  end.

(** What a correct client may call. *)
Definition legal (c : client) (o : op) : Prop :=
  match o with
  | Malloc n => n = 0 ∨ fair_size n
  | Free p => p = 0 ∨ is_Some (live c !! p)
  | Write a _ => owned c a
  | Read a => is_Some (data c !! a)
  end.

(** The contract: [op] may return [r] and leave the client with [c']. *)
Inductive spec_step (c : client) : op → Z → client → Prop :=
| spec_null n : spec_step c (Malloc n) 0 c
| spec_malloc n p :
    0 < p → p mod 16 = 0 → live c !! p = None →
    (∀ q m, live c !! q = Some m → p + n ≤ q ∨ q + m ≤ p) →
    spec_step c (Malloc n) p (mk_client (<[p := n]> (live c)) (data c))
| spec_free_null : spec_step c (Free 0) 0 c
| spec_free p n :
    p ≠ 0 → live c !! p = Some n →
    spec_step c (Free p) 0
      (mk_client (delete p (live c)) (filter (λ w, ¬ (p ≤ w.1 < p + n)) (data c)))
| spec_write a v : spec_step c (Write a v) 0 (mk_client (live c) (<[a := v]> (data c)))
| spec_read a v : data c !! a = Some v → spec_step c (Read a) v c.

(** The heap, a row of blocks [bs], implements the client's view. *)
Record repr_row (h : heap) (c : client) (bs : list blk) : Prop := {
  repr_inv : heap_inv h bs;
  repr_live : ∀ p n, live c !! p = Some n →
    ∃ t, (p - 8, t) ∈ alloc_addrs (heap_start h) bs ∧ n + 16 ≤ t;
  repr_alloc : ∀ x t, (x, t) ∈ alloc_addrs (heap_start h) bs → is_Some (live c !! (x + 8));
  repr_data : ∀ a v, data c !! a = Some v → owned c a ∧ mem h !! a = Some v
}.
Definition repr (h : heap) (c : client) : Prop := ∃ bs, repr_row h c bs.

Lemma owned_data_word h c bs a : repr_row h c bs → owned c a →
  a mod 8 = 0 ∧ ∃ x t, (x, t) ∈ alloc_addrs (heap_start h) bs ∧ x + 8 ≤ a ∧ a + 8 ≤ x + t - 8.
Proof.
  intros R (Ha & p & n & Hp & H1 & H2). destruct (repr_live _ _ _ R p n Hp) as (t & Ht & Hn).
  split; [done|]. exists (p - 8), t. split; [done|lia].
Qed.

Lemma repr_data_word h c bs a : repr_row h c bs → owned c a → data_word (heap_start h) bs a.
Proof.
  intros R Ho. destruct (owned_data_word _ _ _ _ R Ho) as (_ & x & t & Hx & H). exists x, t.
  split; [done|lia].
Qed.

(** ** The client's operations *)

Lemma user_word_ok h bs x t a :
  heap_inv h bs → (x, t) ∈ alloc_addrs (heap_start h) bs → a mod 8 = 0 → x + 8 ≤ a → a + 8 ≤ x + t - 8 →
  in_heap_word h a ∧ ∀ v, heap_inv (set_mem (<[a := v]> (mem h)) h) bs.
Proof.
  intros [(l & L & Hp) Hco] (pre & post & -> & ->)%alloc_addrs_split Ha H1 H2.
  pose proof (lay_facts _ _ _ L) as (F1 & F2 & F3 & F4 & F5 & F6 & F7).
  destruct (lay_block h _ _ L pre t true post eq_refl) as (B1 & B2 & B3 & B4 & B5 & B6 & B7 & _).
  split; [unfold in_heap_word; lia|]. intros v. constructor; [|done]. exists l. split; [|done].
  pose proof (lay_ok _ _ _ L) as Hok. pose proof (lay_seg _ _ _ L) as Hseg.
  assert (data_word (heap_start h) (pre ++ (t, true) :: post) a) as Hdw.
  { exists (heap_start h + total pre), t. split; [|lia].
    rewrite alloc_addrs_app. simpl. set_solver. }
  apply (layout_retag h pre [(t, true)] [(t, true)] post l); try done.
  - apply Forall_app in Hok as [_ [Hb _]%Forall_cons]. by constructor.
  - apply seg_app in Hseg as [_ (S1 & S2 & _)]. simpl. by rewrite !lookup_insert_ne by lia.
  - intros w Hw. simpl in Hw. rewrite lookup_insert_ne; [done|lia].
  - intros y Hy. destruct (data_not_link _ _ a y Hok Hdw); [by apply (lay_sub _ _ _ L)|].
    by rewrite !lookup_insert_ne by done.
  - intros y Hy. by apply (lay_sub _ _ _ L).
Qed.

Lemma repr_write h c a v : repr h c → owned c a →
  ∃ h', user_store a v h = Ret tt h' ∧ repr h' (mk_client (live c) (<[a := v]> (data c))).
Proof.
  intros [bs R] Ho. destruct (owned_data_word _ _ _ _ R Ho) as (Ha & x & t & Hx & H1 & H2).
  destruct (user_word_ok h bs x t a (repr_inv _ _ _ R) Hx Ha H1 H2) as [Hin Hinv].
  eexists. split; [by apply store_in|]. exists bs.
  constructor; simpl; [done|apply R|apply R|].
  intros b w Hb. destruct (decide (a = b)) as [<-|Hne].
  - rewrite !lookup_insert_eq in Hb |- *. by split.
  - rewrite !lookup_insert_ne in Hb |- * by done. by apply R.
Qed.

Lemma repr_read h c a v : repr h c → data c !! a = Some v → load a h = Ret v h.
Proof.
  intros [bs R] Hv. destruct (repr_data _ _ _ R a v Hv) as [Ho Hm].
  destruct (owned_data_word _ _ _ _ R Ho) as (Ha & x & t & Hx & H1 & H2).
  apply load_in; [|done]. by apply (user_word_ok h bs x t a (repr_inv _ _ _ R) Hx Ha H1 H2).
Qed.

Lemma heap_inv_ok h bs : heap_inv h bs → Forall blk_ok bs.
Proof. intros [(l & L & _) _]. apply L. Qed.

Lemma alloc_addrs_NoDup a bs : Forall blk_ok bs → NoDup (alloc_addrs a bs).*1.
Proof.
  intros Hok. revert a. induction Hok as [|[s al] bs [Hs _] Hok IH]; intros a; simpl; [constructor|].
  destruct al; [|apply IH]. simpl. apply NoDup_cons. split; [|apply IH].
  intros ([y u] & Ey & Hy)%list_elem_of_fmap. simpl in Ey. subst y.
  apply alloc_addrs_range in Hy; [|done]. unfold min_block_size in Hs. simpl in Hs. lia.
Qed.

Lemma repr_malloc h c n : repr h c → n = 0 ∨ fair_size n →
  ∃ r h' c', mm_malloc n h = Ret r h' ∧ spec_step c (Malloc n) r c' ∧ repr h' c'.
Proof.
  intros [bs R] [->|Hf].
  { exists 0, h, c. split_and!; [done|constructor|by exists bs]. }
  destruct (mm_malloc_rec_ok (malloc_fuel h) n h bs (repr_inv _ _ _ R) Hf) as (r & h' & bs' & E & P1 & P2 & P3 & P4).
  { unfold malloc_fuel. lia. }
  assert (heap_start h' = heap_start h) as Hst by (by injection P2).
  assert (∀ a v, data c !! a = Some v → owned c a ∧ mem h' !! a = Some v) as Hdata.
  { intros a v Ha. destruct (repr_data _ _ _ R a v Ha) as [Ho Hm]. split; [done|].
    rewrite P3; [done|by eapply repr_data_word]. }
  destruct P4 as [(-> & Ha & _)|(x & t & -> & Hr & Hmod & Ht & Ha & Hap)].
  - exists 0, h', c. split_and!; [exact E|constructor|]. exists bs'.
    constructor; [done|intros p m; rewrite Hst, Ha; apply R|intros y u; rewrite Hst, Ha; apply R|done].
  - destruct (adjust_size_ok _ Hf) as (A1 & A2 & A3).
    assert (∀ q m, live c !! q = Some m → x + 8 + n ≤ q ∨ q + m ≤ x + 8) as Hdis.
    { intros q m Hq. destruct (repr_live _ _ _ R q m Hq) as (u & Hu & Hmu).
      specialize (Hap _ _ Hu). unfold apart in Hap. lia. }
    assert (live c !! (x + 8) = None) as Hfresh.
    { destruct (live c !! (x + 8)) as [m|] eqn:Hq; [|done]. exfalso.
      destruct (repr_live _ _ _ R _ m Hq) as (u & Hu & Hmu). pose proof (Hap _ _ Hu) as Hau. unfold apart in Hau.
      apply (alloc_addrs_range _ _ _ _ (heap_inv_ok _ _ (repr_inv _ _ _ R))) in Hu. lia. }
    eexists _, h', _. split_and!; [exact E|by apply spec_malloc|]. exists bs'. constructor; simpl.
    + done.
    + intros p m. rewrite Hst. destruct (decide (p = x + 8)) as [->|Hne].
      * rewrite lookup_insert_eq. intros [= <-]. exists t. split; [|lia].
        rewrite Ha. replace (x + 8 - 8) with x by lia. set_solver.
      * rewrite lookup_insert_ne by done. intros Hp. destruct (repr_live _ _ _ R p m Hp) as (u & Hu & Hmu).
        exists u. split; [|done]. rewrite Ha. set_solver.
    + intros y u. rewrite Hst, Ha. intros [[= -> ->]|Hy]%elem_of_cons; [by rewrite lookup_insert_eq|].
      apply lookup_insert_is_Some'. right. by eapply (repr_alloc _ _ _ R).
    + intros a v Hv. destruct (Hdata a v Hv) as [(Hm & p & m & Hp & Hrng) Hmem]. split; [|done].
      split; [done|]. exists p, m. split; [|done]. simpl. rewrite lookup_insert_ne; [done|congruence].
Qed.

Lemma repr_free h c p n : repr h c → live c !! p = Some n →
  ∃ h' c', mm_free p h = Ret tt h' ∧ spec_step c (Free p) 0 c' ∧ repr h' c'.
Proof.
  intros [bs R] Hp. destruct (repr_live _ _ _ R p n Hp) as (t & Ht & Hn).
  destruct (mm_free_ok h bs (p - 8) t (repr_inv _ _ _ R) Ht) as (h' & bs' & E & P1 & P2 & P3 & P4).
  replace (p - 8 + 8) with p in E by lia. pose proof (shape_start _ _ P2) as Hst.
  pose proof (heap_inv_ok _ _ (repr_inv _ _ _ R)) as Hok.
  assert (p ≠ 0) as Hp0.
  { destruct (repr_inv _ _ _ R) as [(l & L & _) _]. pose proof (lay_facts _ _ _ L) as (F1 & F2 & F3 & _).
    apply (alloc_addrs_range _ _ _ _ Hok) in Ht. lia. }
  pose proof (alloc_addrs_NoDup (heap_start h) bs Hok) as Hnd.
  rewrite P3 in Hnd. simpl in Hnd. apply NoDup_cons in Hnd as [Hnin _].
  exists h'. eexists. split_and!; [done|by apply (spec_free c p n)|]. exists bs'.
  assert (∀ q m, q ≠ p → live c !! q = Some m →
    ∃ u, (q - 8, u) ∈ alloc_addrs (heap_start h) bs' ∧ m + 16 ≤ u) as Hothers.
  { intros q m Hne Hq. destruct (repr_live _ _ _ R q m Hq) as (u & Hu & Hmu). exists u. split; [|done].
    rewrite P3 in Hu. apply elem_of_cons in Hu as [Hu|Hu]; [|done]. injection Hu as Hu _. lia. }
  constructor; simpl; rewrite ?Hst.
  - done.
  - intros q m [Hne Hq]%lookup_delete_Some. by apply Hothers.
  - intros y u Hy. rewrite lookup_delete_ne.
    + apply (repr_alloc _ _ _ R y u). rewrite P3. set_solver.
    + intros ->. apply Hnin. apply list_elem_of_fmap. exists (y, u). split; [simpl; lia|done].
  - intros a v [Hv Hout]%map_lookup_filter_Some. simpl in Hout.
    destruct (repr_data _ _ _ R a v Hv) as [(Hm & q & m & Hq & H1 & H2) Hmem].
    assert (q ≠ p) as Hne by (intros ->; simplify_eq; lia).
    split.
    + split; [done|]. exists q, m. simpl. by rewrite lookup_delete_ne.
    + rewrite P4; [done|]. destruct (Hothers q m Hne Hq) as (u & Hu & Hmu). exists (q - 8), u. split; [done|lia].
Qed.

Definition client_step (s s' : heap * client) : Prop :=
  ∃ o r, legal s.2 o ∧ run_op o s.1 = Ret r s'.1 ∧ spec_step s.2 o r s'.2.

Lemma spec_step_det c o r c1 c2 : spec_step c o r c1 → spec_step c o r c2 → c1 = c2.
Proof. intros H1 H2. inversion H1; subst; inversion H2; subst; try done; try lia; by simplify_eq. Qed.

Lemma op_refines h c o : repr h c → legal c o →
  ∃ r h' c', run_op o h = Ret r h' ∧ spec_step c o r c' ∧ repr h' c'.
Proof.
  intros R Hl. destruct o as [n|p|a v|a]; cbn [run_op legal] in *.
  - by apply repr_malloc.
  - destruct Hl as [->|[n Hn]]; [exists 0, h, c; split_and!; [done|constructor|done]|].
    destruct (repr_free h c p n R Hn) as (h' & c' & E & Hs & R'). exists 0, h', c'. run E. by split_and!.
  - destruct (repr_write h c a v R Hl) as (h' & E & R'). eexists 0, h', _. run E.
    split_and!; [done|constructor|done].
  - destruct Hl as [v Hv]. exists v, h, c. split_and!; [by eapply repr_read|by constructor|done].
Qed.

Lemma client_step_repr : preserves client_step (λ s, repr s.1 s.2).
Proof.
  intros [h c] [h' c'] (o & r & Hl & E & Hs) R. simpl in *.
  destruct (op_refines h c o R Hl) as (r1 & h1 & c1 & E1 & Hs1 & R1).
  rewrite E in E1. injection E1 as <- <-. by rewrite (spec_step_det _ _ _ _ _ Hs Hs1).
Qed.

Lemma init_repr h bs : heap_inv h bs → alloc_addrs (heap_start h) bs = [] → repr h (mk_client ∅ ∅).
Proof.
  intros Hinv Ha. exists bs. constructor; simpl; [done|done| |done]. intros x t. rewrite Ha. set_solver.
Qed.

(** ** check_heap *)

Lemma check_loop_ok fuel h pre post l :
  layout h (pre ++ post) l → (length post < fuel)%nat →
  check_loop fuel (heap_start h + total pre) h = Ret true h.
Proof.
  revert pre post. induction fuel as [|fuel IH]; intros pre post L Hf; [lia|]. cbn [check_loop].
  pose proof (lay_facts _ _ _ L) as (F1 & F2 & F3 & F4 & F5 & F6 & F7). rewrite total_app in F4.
  destruct post as [|[s al] post].
  - assert (find_next (heap_start h + total pre) h = Ret (heap_start h + total pre) h) as E.
    { unfold find_next, get_size. rewrite app_nil_r in L.
      assert (load (heap_start h + total pre) h = Ret (pack 0 true) h) as El.
      { apply load_in; [|apply L]. simpl in F4. rewrite app_nil_r in F5, F6.
        unfold in_heap_word. split_and!; try lia. Z.to_euclidean_division_equations; lia. }
      rewrite (bind_Ret _ _ _ 0 h); [|by run El]. unfold mret, prog_ret. f_equal. lia. }
    run E. run (eq_refl (get h)). unfold mem_heap_hi. simpl in F4.
    destruct (Z.ltb_spec (heap_start h + total pre + 24) (mem_brk h - 1)); [lia|done].
  - destruct (lay_block h _ _ L pre s al post eq_refl)
      as (B1 & B2 & B3 & B4 & B5 & B6 & B7 & Eh & Ef & _ & _ & En & _).
    run En. run (eq_refl (get h)). zcase; [|done]. run Eh. unfold find_prev_footer. run Ef.
    rewrite Z.eqb_refl. cbn [negb].
    replace (heap_start h + total pre + s) with (heap_start h + total (pre ++ [(s, al)]))
      by (rewrite total_app; simpl; lia).
    apply (IH (pre ++ [(s, al)]) post); [by rewrite <-app_assoc|simpl in Hf; lia].
Qed.

Lemma blocks_length bs : Forall blk_ok bs → 32 * Z.of_nat (length bs) ≤ total bs.
Proof.
  induction 1 as [|[s al] bs [Hs _] _ IH]; [done|]. unfold min_block_size in Hs. cbn [length total fst] in *. lia.
Qed.

(** A row without allocated blocks is one free block at most. *)
Lemma coalesced_free a bs : coalesced bs → alloc_addrs a bs = [] → bs = [] ∨ ∃ s, bs = [(s, false)].
Proof.
  destruct bs as [|[s [|]] [|[s2 [|]] bs]]; simpl; try done;
    [by left|by right; exists s|naive_solver..].
Qed.

(** ** Properties *)

(** C27: [mm_malloc] on a well-formed heap returns, for every size up to
    2^64 - 32.  The heap it leaves is well formed, no word of an allocated
    payload has changed, and either it returns a fresh, 16-byte aligned payload
    of a block of at least [size + 16] and at most 31 more bytes than that or
    than the minimum, which meets no allocated block, or it returns [NULL], the
    allocated blocks are the same, no free block is large enough and the break
    is less than a chunk below its limit. *)
Theorem mm_malloc_correct h bs size :
  heap_inv h bs → fair_size size →
  adjust_size size mod 16 = 0 ∧ size + 16 ≤ adjust_size size ≤ Z.max 32 (size + 31) ∧
  ∃ r h' bs', mm_malloc size h = Ret r h' ∧ malloc_post h bs size r h' bs'.
Proof.
  intros Hinv Hf. destruct (adjust_size_ok _ Hf) as (A1 & A2 & A3). split_and!; [done|lia|lia|].
  apply mm_malloc_rec_ok; [done|done|]. unfold malloc_fuel. lia.
Qed.

(** [mm_free] on the payload of an allocated block returns and removes
    exactly that block from the allocated ones; the heap it leaves is well
    formed (the free list holds every free block once, no two free blocks are
    neighbours), the break has not moved and no word of the other payloads has
    changed. *)
Theorem mm_free_correct h bs x t :
  heap_inv h bs → (x, t) ∈ alloc_addrs (heap_start h) bs →
  ∃ h' bs', mm_free (header_to_payload x) h = Ret tt h' ∧ free_post h x t bs h' bs'.
Proof. apply mm_free_ok. Qed.

(** C5: The allocator implements its contract.  From the heap that [mm_init]
    builds over any block of memory, after any sequence of calls that a correct
    client makes (allocate, free a live payload once, write and read inside
    live payloads), every further legal call returns without undefined
    behaviour, with a result the contract allows: payloads are aligned and never
    overlap, and a word reads back what was last written to it. *)
Theorem allocator_refines b h0 s o :
  base_ok b → mm_init (mem_init b) = Ret 0 h0 →
  rtc client_step (h0, mk_client ∅ ∅) s → legal s.2 o →
  ∃ r h' c', run_op o s.1 = Ret r h' ∧ spec_step s.2 o r c' ∧ client_step s (h', c').
Proof.
  intros Hb E0 Hr Hl. destruct (mm_init_ok b Hb) as (h & E & Hinv & _).
  rewrite E0 in E. injection E as <-.
  assert (repr s.1 s.2) as R.
  { apply (rtc_invariant client_step (λ s, repr s.1 s.2) _ _ client_step_repr Hr).
    by apply (init_repr _ _ Hinv). }
  destruct (op_refines _ _ _ R Hl) as (r & h' & c' & E & Hs & _). exists r, h', c'.
  split_and!; [done|done|]. by exists o, r.
Qed.

(** [find_fit] is best fit: it returns a free block of at least [asize]
    bytes that is as small as any such block, or [NULL] exactly when there is
    none, and changes nothing. *)
Theorem find_fit_best h bs asize :
  heap_inv h bs → 0 < asize →
  ∃ r, find_fit asize h = Ret r h ∧
    (r = 0 ↔ ∀ y t, free_blk (heap_start h) bs y t → t < asize) ∧
    (r ≠ 0 → ∃ s, free_blk (heap_start h) bs r s ∧ asize ≤ s ∧
       ∀ y t, free_blk (heap_start h) bs y t → asize ≤ t → s ≤ t).
Proof.
  intros [(l & L & Hp) _] Ha.
  destruct (find_fit_ok h bs l L asize Hp) as (r & E & [[-> Hn]|(s & Hr & Hb & Hs & Hmin)]); eexists.
  - split_and!; [done|done|done].
  - split_and!; [done| |by exists s]. split; [done|]. intros Hn. specialize (Hn r s Hb). lia.
Qed.

(** Memory comes back: when the client has freed everything, a request for
    anything up to the whole heap (less the 16 bytes of prologue and epilogue)
    succeeds, and gets the first payload of the heap. *)
Theorem all_freed_reusable h c size :
  repr h c → live c = ∅ → fair_size size → adjust_size size ≤ mem_heapsize h - 16 →
  ∃ h', mm_malloc size h = Ret (header_to_payload (heap_start h)) h'.
Proof.
  intros [bs R] Hl Hf Hs. destruct (adjust_size_ok _ Hf) as (A1 & A2 & A3).
  pose proof (repr_inv _ _ _ R) as [(l & L & Hp) Hco].
  pose proof (lay_facts _ _ _ L) as (F1 & F2 & F3 & F4 & F5 & F6 & F7). unfold mem_heapsize in Hs.
  assert (alloc_addrs (heap_start h) bs = []) as Ha.
  { destruct (alloc_addrs (heap_start h) bs) as [|[x t] ?] eqn:E; [done|].
    destruct (repr_alloc _ _ _ R x t) as [n Hn]; [rewrite E; set_solver|]. by rewrite Hl in Hn. }
  destruct (coalesced_free _ _ Hco Ha) as [->|[s ->]]; simpl in F4; [lia|].
  destruct (find_fit_ok h _ l L (adjust_size size) Hp) as (r & E & Hr).
  assert (free_blk (heap_start h) [(s, false)] (heap_start h) s) as Hblk.
  { exists [], []. split; [done|]. simpl. lia. }
  destruct Hr as [[-> Hn]|(s' & Hr & (pre & post & Eb & ->) & Hs' & _)].
  { specialize (Hn _ _ Hblk). lia. }
  destruct pre as [|? [|? ?]]; simplify_eq/=.
  destruct (malloc_found h [] s' [] size (repr_inv _ _ _ R) Hf Hs') as (h' & bs' & E1 & _).
  simpl in E1. exists h'. unfold mm_malloc, malloc_fuel. cbn [mm_malloc_rec]. unfold fair_size in Hf.
  rewrite (proj2 (Z.eqb_neq size 0)) by lia. cbv zeta. run E. rewrite (proj2 (Z.eqb_neq _ 0)) by done.
  etrans; [exact E1|]. unfold header_to_payload. f_equal. lia.
Qed.

(** [check_heap] accepts every well-formed heap, and changes nothing. *)
Theorem check_heap_accepts h bs : heap_inv h bs → check_heap h = Ret true h.
Proof.
  intros [(l & L & _) _]. pose proof (lay_facts _ _ _ L) as (F1 & F2 & F3 & F4 & F5 & F6 & F7).
  unfold check_heap. run (eq_refl (get h)). rewrite (proj2 (Z.eqb_neq (heap_start h) 0)) by lia.
  pose proof (blocks_length bs (lay_ok _ _ _ L)).
  pose proof (check_loop_ok (list_fuel h) h [] bs l L) as Hc. simpl in Hc. rewrite Z.add_0_r in Hc.
  apply Hc. unfold list_fuel, mem_heapsize. apply Nat.lt_succ_r. apply Nat2Z.inj_le.
  rewrite Z2Nat.id by (apply Z.div_pos; lia). apply Z.div_le_lower_bound; lia.
Qed.

(** ** Sizes that wrap around *)

Lemma adjust_size_wraps size : 18446744073709551584 < size < 18446744073709551616 →
  adjust_size size = if size <=? 18446744073709551600 then 0 else 16.
Proof.
  intros Hs. unfold adjust_size, dsize, min_block_size. rewrite (proj2 (Z.leb_gt size 16)) by lia. unfold round_up, u64.
  destruct (Z.leb_spec size 18446744073709551600); Z.to_euclidean_division_equations; lia.
Qed.
(** Taking no bytes of a block: it is split off itself and freed again. *)
Lemma take_nothing h pre s post l :
  let x := heap_start h + total pre in
  layout h (pre ++ (s, false) :: post) l →
  l ≡ₚ free_addrs (heap_start h) (pre ++ (s, false) :: post) →
  ∃ h', take_block x 0 h = Ret (x + 8) h' ∧ free_list_head h' = x ∧ get_size x h' = Ret s h' ∧ get_alloc x h' = Ret false h'.
Proof.
  intros x L Hp. destruct (perm_remove_blk _ _ _ _ _ L Hp) as (l1 & l2 & -> & Hp1). fold x in Hp1. unfold take_block.
  destruct (remove_block_ok _ _ _ _ _ L) as (h1 & E1 & L1 & Hs1 & _). fold x in E1. run E1. pose proof (shape_start _ _ Hs1) as Hst.
  destruct (lay_block h1 _ _ L1 pre s false _ eq_refl) as (B1 & B2 & B3 & B4 & B5 & B6 & B7 & _ & _ & Eg & _).
  pose proof (lay_facts _ _ _ L1) as (F1 & F2 & F3 & F4 & F5 & F6 & F7). rewrite Hst in Eg. fold x in Eg. run Eg.
  pose proof (lay_ok _ _ _ L1) as Hok. apply Forall_app in Hok as [Hpre [_ Hpost]%Forall_cons]. destruct (total_nonneg _ Hpre), (total_nonneg _ Hpost).
  assert (in_heap_word h1 x ∧ in_heap_word h1 (x + s - 8) ∧ in_heap_word h1 (x + 0 - 8)) as (I1 & I2 & I3).
  { unfold in_heap_word, x. split_and!; try lia; Z.to_euclidean_division_equations; lia. }
  rewrite write_both by (done || lia). set (h2 := set_mem _ h1).
  assert (get_size x h2 = Ret s h2) as Eg2.
  { unfold get_size. erewrite bind_Ret by (apply load_in; [done|]; cbn; unfold bset; by rewrite lookup_insert_ne, lookup_insert_eq by lia).
    by rewrite extract_size_pack by (done || lia). }
  unfold split_block. unfold mbind at 1, prog_bind at 1. rewrite (bind_Ret _ _ _ _ _ Eg2), Z.sub_0_r, u64_small by lia.
  unfold min_block_size. rewrite (proj2 (Z.geb_le s 32)) by lia. rewrite write_both by done. set (h3 := set_mem _ h2).
  assert (find_next x h3 = Ret x h3) as En.
  { unfold find_next, get_size. erewrite bind_Ret; [|erewrite bind_Ret by (apply load_in; [done|]; cbn; unfold bset; by rewrite lookup_insert_ne, lookup_insert_eq by lia); reflexivity].
    by rewrite Z.add_0_r. }
  rewrite (bind_Ret _ _ _ _ _ En), write_both by (done || lia). set (m4 := bset (mem h3) x s false). change (set_mem m4 h3) with (set_mem m4 h1).
  assert (∀ y, y ∈ l1 ++ l2 → y + 32 ≤ x ∨ x + s ≤ y) as Hy.
  { intros y Hy. rewrite Hp1 in Hy. apply elem_of_app in Hy as [Hy|Hy]; apply free_addrs_range in Hy; try done; unfold x in *; [left|right]; lia. }
  set (fs := free_addrs (heap_start h1) (pre ++ (s, false) :: post)).
  assert (x ∈ fs) as Hx by (unfold fs; rewrite free_addrs_app, Hst; simpl; fold x; set_solver).
  destruct (insert_dll (set_mem m4 h1) fs (l1 ++ l2) x) as (m' & E & Hd & Hout).
  - exact (layout_links_ok _ _ _ L1).
  - cbn. eapply dll_frame; [apply (lay_dll _ _ _ L1)|]. intros y Hin. specialize (Hy y Hin). subst m4 h3 h2. cbn. unfold bset.
    by rewrite !lookup_insert_ne by lia.
  - apply NoDup_cons. split; [intros Hin; specialize (Hy x Hin); lia|apply (lay_nodup _ _ _ L1)].
  - intros y [->|Hin]%elem_of_cons; [exact Hx|apply (lay_sub _ _ _ L1); done].
  - rewrite E. eexists. split; [reflexivity|]. split; [done|].
    assert (m' !! x = Some (pack s false)) as Em.
    { rewrite Hout; [subst m4; cbn; unfold bset; by rewrite lookup_insert_ne, lookup_insert_eq by lia|]. intros y Hin.
      pose proof (bounds_not_link (heap_start h1) (pre ++ (s, false) :: post) x y (lay_ok _ _ _ L1)) as Hb. apply Hb; [|exact Hin].
      rewrite bounds_app, Hst. simpl. fold x. set_solver. }
    unfold get_size, get_alloc. split; (erewrite bind_Ret by (apply load_in; [done|exact Em])).
    + by rewrite extract_size_pack by (done || lia).
    + by rewrite extract_alloc_pack by done.
Qed.

(** C39: The bound on the size is tight.  Every larger 64-bit size wraps around
    when it is rounded: up to 2^64 - 16 to 0 bytes, above to 16 bytes, which
    the header and footer of a block take up.  A size that becomes 0, on any heap
    that has a free block, hands out the payload of a free block that stays free,
    with its size, as the first in the free list. *)
Theorem mm_malloc_wraps h bs size : heap_inv h bs → 18446744073709551584 < size < 18446744073709551616 →
  adjust_size size = (if size <=? 18446744073709551600 then 0 else 16) ∧
  (size ≤ 18446744073709551600 → free_addrs (heap_start h) bs ≠ [] →
   ∃ x s h', free_blk (heap_start h) bs x s ∧ mm_malloc size h = Ret (x + 8) h' ∧
     free_list_head h' = x ∧ get_size x h' = Ret s h' ∧ get_alloc x h' = Ret false h').
Proof.
  intros [(l & L & Hp) _] Hs. pose proof (adjust_size_wraps size Hs) as Ha. split; [done|]. intros Hle Hne.
  rewrite (proj2 (Z.leb_le _ _) Hle) in Ha. unfold mm_malloc, malloc_fuel. cbn [mm_malloc_rec].
  rewrite (proj2 (Z.eqb_neq size 0)) by lia. rewrite Ha. cbv zeta.
  destruct (find_fit_ok h bs l L 0 Hp) as (r & E & [[-> Hnone]|(s & Hr & Hblk & _)]); run E.
  - destruct (free_addrs (heap_start h) bs) as [|y ys] eqn:Ef; [done|]. assert (y ∈ free_addrs (heap_start h) bs) as Hy by (rewrite Ef; left).
    apply free_addrs_blk in Hy as [t Ht]. pose proof (Hnone y t Ht). destruct (free_blk_facts h bs l L y t Ht) as (_ & _ & ? & _). lia.
  - rewrite (proj2 (Z.eqb_neq _ 0)) by done. pose proof Hblk as (pre & post & -> & ->).
    destruct (take_nothing h pre s post l L Hp) as (h' & E1 & H1 & H2 & H3). eexists _, s, h'. split; [exact Hblk|]. by split.
Qed.

(** ** Witnesses: a heap at address 4096, fresh and with one payload of 100 bytes *)

Definition fresh_heap : heap :=
  match mm_init (mem_init 4096) with Ret _ h => h | _ => mem_init 4096 end.
Definition used_heap : heap :=
  match mm_malloc 100 fresh_heap with Ret _ h => h | _ => fresh_heap end.
Definition used_row : list blk := [(128, true); (3968, false)].

Lemma base_4096 : base_ok 4096.
Proof. by vm_compute. Qed.

Lemma fresh_init : mm_init (mem_init 4096) = Ret 0 fresh_heap.
Proof. by vm_compute. Qed.

Lemma fresh_inv : heap_inv fresh_heap [(4096, false)].
Proof.
  destruct (mm_init_ok 4096 base_4096) as (h & E & Hinv & _). rewrite fresh_init in E. by injection E as <-.
Qed.

(** A second request of this kind gets the same payload. *)
Example wraps_twice :
  match (p ← mm_malloc 18446744073709551600; q ← mm_malloc 18446744073709551600; mret (p, q)) fresh_heap with
  | Ret r _ => r = (4112, 4112)
  | _ => False
  end.
Proof. by vm_compute. Qed.
Lemma mm_malloc_wraps_witness : ∃ x s h', free_blk (heap_start fresh_heap) [(4096, false)] x s ∧
  mm_malloc 18446744073709551600 fresh_heap = Ret (x + 8) h' ∧ get_alloc x h' = Ret false h'.
Proof.
  destruct (mm_malloc_wraps fresh_heap [(4096, false)] 18446744073709551600 fresh_inv ltac:(lia)) as [_ H].
  destruct H as (x & s & h' & H1 & H2 & _ & _ & H3); [lia|done|]. by exists x, s, h'.
Defined.

Lemma used_inv : heap_inv used_heap used_row.
Proof.
  constructor; [|by vm_compute]. exists [4232]. split; [|by vm_compute].
  constructor; try by vm_compute.
  - by repeat (apply Forall_cons; split; [by vm_compute|]).
  - vm_compute. split_and!; [done|done|]. by exists 0.
  - apply NoDup_singleton.
Qed.

Lemma used_repr : repr used_heap (mk_client {[ 4112 := 100 ]} ∅).
Proof.
  exists used_row. constructor; simpl; [apply used_inv| | |done].
  - intros p n [<- <-]%lookup_singleton_Some. exists 128. split; [vm_compute; by left|lia].
  - change (heap_start used_heap) with 4104. intros x t [[= -> ->]|Hx]%elem_of_cons; [by exists 100|set_solver].
Qed.

Lemma fair_100 : fair_size 100.
Proof. done. Qed.

Lemma mm_malloc_correct_witness :
  ∃ r h' bs', mm_malloc 100 fresh_heap = Ret r h' ∧ malloc_post fresh_heap [(4096, false)] 100 r h' bs'.
Proof. apply (mm_malloc_correct fresh_heap [(4096, false)] 100 fresh_inv fair_100). Defined.

Lemma mm_free_correct_witness :
  ∃ h' bs', mm_free 4112 used_heap = Ret tt h' ∧ free_post used_heap 4104 128 used_row h' bs'.
Proof. apply (mm_free_correct used_heap used_row 4104 128 used_inv). vm_compute. by left. Defined.

Lemma allocator_refines_witness :
  ∃ r h' c', mm_malloc 100 fresh_heap = Ret r h' ∧ spec_step (mk_client ∅ ∅) (Malloc 100) r c' ∧
    client_step (fresh_heap, mk_client ∅ ∅) (h', c').
Proof.
  apply (allocator_refines 4096 fresh_heap (fresh_heap, mk_client ∅ ∅) (Malloc 100) base_4096 fresh_init).
  - apply rtc_refl.
  - right. exact fair_100.
Defined.

Lemma find_fit_best_witness :
  ∃ r, find_fit 64 used_heap = Ret r used_heap ∧
    (r = 0 ↔ ∀ y t, free_blk (heap_start used_heap) used_row y t → t < 64) ∧
    (r ≠ 0 → ∃ s, free_blk (heap_start used_heap) used_row r s ∧ 64 ≤ s ∧
       ∀ y t, free_blk (heap_start used_heap) used_row y t → 64 ≤ t → s ≤ t).
Proof. apply (find_fit_best used_heap used_row 64 used_inv). lia. Defined.

Lemma fresh_repr : repr fresh_heap (mk_client ∅ ∅).
Proof. apply (init_repr _ _ fresh_inv). by vm_compute. Qed.

Lemma all_freed_reusable_witness : ∃ h', mm_malloc 4080 fresh_heap = Ret 4112 h'.
Proof.
  apply (all_freed_reusable fresh_heap (mk_client ∅ ∅) 4080 fresh_repr); by vm_compute.
Defined.

Lemma check_heap_accepts_witness : check_heap used_heap = Ret true used_heap.
Proof. apply (check_heap_accepts used_heap used_row used_inv). Defined.

(** The loop of [check_heap] stops before it compares the last block: a heap
    whose only block has lost its footer is accepted. *)
Example check_heap_skips_last :
  match (store 8192 7;; check_heap) fresh_heap with
  | Ret r h => r = true ∧ mem h !! 8192 = Some 7 ∧ mem fresh_heap !! 8192 = Some (pack 4096 false)
  | _ => False
  end.
Proof. by vm_compute. Qed.
