(* ===== verification/CacheSim.v ===== *)
(** * The cache simulator

    CS449/cachelab-handout/csim.c: a set-associative cache with least recently
    used replacement, replayed over a Valgrind trace.  The trace file is a byte
    string, and so is every command line argument; [malloc] is taken to
    succeed.  What the program prints is a list of events. *)
From stdpp Require Import sorting.
From S2P Require Import Prelude Stdio.
Open Scope Z_scope.

(** ** State *)

Record my_line := mk_line { valid : Z; tag : Z; last_use : Z }.

(** The verbose trace of [accessData] and [replayTrace]. *)
Inductive event : Type :=
| EHit | EMiss | EEviction
| ELine (instruction address size : Z)
| ENewline.

Record sim := mk_sim {
  sets : list (list my_line);
  verbosity : Z;
  s : Z;
  b : Z;
  E : Z;
  S_ : Z;
  miss_count : Z;
  hit_count : Z;
  eviction_count : Z;
  lru_counter : Z;
  printed : list event
}.

Definition set_sets (x : list (list my_line)) (c : sim) : sim :=
  mk_sim x (verbosity c) (s c) (b c) (E c) (S_ c) (miss_count c) (hit_count c)
    (eviction_count c) (lru_counter c) (printed c).
Definition set_counts (m h e : Z) (c : sim) : sim :=
  mk_sim (sets c) (verbosity c) (s c) (b c) (E c) (S_ c) m h e (lru_counter c) (printed c).
Definition set_lru (x : Z) (c : sim) : sim :=
  mk_sim (sets c) (verbosity c) (s c) (b c) (E c) (S_ c) (miss_count c) (hit_count c)
    (eviction_count c) x (printed c).
Definition print (ev : event) (c : sim) : sim :=
  mk_sim (sets c) (verbosity c) (s c) (b c) (E c) (S_ c) (miss_count c) (hit_count c)
    (eviction_count c) (lru_counter c) (printed c ++ [ev]).

(** [if (verbosity == 1) printf(...)] *)
Definition verbose (ev : event) : prog sim unit :=
  modify (λ c, if verbosity c =? 1 then print ev c else c).

Definition count_hit : prog sim unit :=
  updates (λ c, x ← int_incr (hit_count c); Some (set_counts (miss_count c) x (eviction_count c) c)).
Definition count_miss : prog sim unit :=
  updates (λ c, x ← int_incr (miss_count c); Some (set_counts x (hit_count c) (eviction_count c) c)).
Definition count_eviction : prog sim unit :=
  updates (λ c, x ← int_incr (eviction_count c); Some (set_counts (miss_count c) (hit_count c) x c)).

(** [initCache]: every line is zero. *)
Definition initCache : prog sim unit :=
  modify (λ c, set_sets (replicate (Z.to_nat (S_ c)) (replicate (Z.to_nat (E c)) (mk_line 0 0 0))) c).

(** ** [accessData] *)

(** A shift of a 64-bit value: undefined for a count outside [0, 64). *)
Definition shiftl64 (x n : Z) : option Z :=
  if (0 <=? n) && (n <? 64) then Some (u64 (Z.shiftl x n)) else None.
Definition shiftr64 (x n : Z) : option Z :=
  if (0 <=? n) && (n <? 64) then Some (Z.shiftr x n) else None.
Definition lnot64 (x : Z) : Z := u64 (Z.lnot x).

Definition mask : Z := 18446744073709551615.
Definition set_val (s b addr : Z) : option Z :=
  a ← shiftr64 addr b; m ← shiftl64 mask s; Some (Z.land a (lnot64 m)).
Definition tag_val (s b addr : Z) : option Z :=
  a ← shiftr64 addr (s + b); m ← shiftl64 mask (64 - s - b); Some (Z.land a (lnot64 m)).

(** The scan of the set: [set_full], [hit], [hit_index]. *)
Definition scan_line (lines : list my_line) (tagv i : Z) (acc : bool * bool * Z)
    : option (bool * bool * Z) :=
  ln ← aget lines i;
  let '(set_full, hit, hit_index) := acc in
  Some (if valid ln =? 0 then (false, hit, hit_index)
        else if (valid ln =? 1) && (tag ln =? tagv) then (set_full, true, i)
        else (set_full, hit, hit_index)).
Definition scan_set (lines : list my_line) (E tagv : Z) : option (bool * bool * Z) :=
  for_up (scan_line lines tagv) 0 (Z.to_nat E) (true, false, 0).

(** The loop that fills the first empty line. *)
Fixpoint fill_empty (lines : list my_line) (tagv lru i : Z) (n : nat) : option (list my_line) :=
  match n with
  | O => Some lines
  | S n' =>
      ln ← aget lines i;
      if valid ln =? 0 then aset lines i (mk_line 1 (u32 tagv) (u32 lru))
      else fill_empty lines tagv lru (i + 1) n'
  end.

(** The loop that finds the lowest timestamp: [low_val] is an [int] that is
    compared with an [unsigned int]. *)
Definition scan_low (lines : list my_line) (i : Z) (acc : Z * Z) : option (Z * Z) :=
  ln ← aget lines i;
  let '(low_val, low_index) := acc in
  Some (if last_use ln <? u32 low_val then (i32 (last_use ln), i) else (low_val, low_index)).
Definition find_low (lines : list my_line) (E lru : Z) : option (Z * Z) :=
  for_up (scan_low lines) 0 (Z.to_nat E) (i32 lru, 0).

(** [curr_set.lines[i]...]: the new lines of set [k]. *)
Definition put_lines (k : Z) (lines : list my_line) : prog sim unit :=
  updates (λ c, x ← aset (sets c) k lines; Some (set_sets x c)).

Definition accessData (addr : Z) : prog sim unit :=
  c ← get;
  k ← lift (set_val (s c) (b c) addr);
  tagv ← lift (tag_val (s c) (b c) addr);
  lines ← lift (aget (sets c) k);
  scan ← lift (scan_set lines (E c) tagv);
  let '(set_full, hit, hit_index) := scan in
  (if hit : bool
   then
     count_hit;;
     ln ← lift (aget lines hit_index);
     lines' ← lift (aset lines hit_index (mk_line (valid ln) (tag ln) (u32 (lru_counter c))));
     put_lines k lines';;
     verbose EHit
   else count_miss;; verbose EMiss);;
  (if negb hit && negb set_full
   then lines' ← lift (fill_empty lines tagv (lru_counter c) 0 (Z.to_nat (E c))); put_lines k lines'
   else mret tt);;
  (if negb hit && set_full
   then
     low ← lift (find_low lines (E c) (lru_counter c));
     let '(_, low_index) := low in
     ln ← lift (aget lines low_index);
     lines' ← lift (aset lines low_index (mk_line (valid ln) (u32 tagv) (u32 (lru_counter c))));
     put_lines k lines';;
     count_eviction;;
     verbose EEviction
   else mret tt);;
  modify (λ c, set_lru (u64 (lru_counter c + 1)) c).

(** ** [replayTrace] *)

(** The locals of the loop; [None] is a variable or byte never written. *)
Record replay := mk_replay {
  file_line : list (option Z);
  instruction : option Z;
  address : option Z;
  size : option Z
}.

(** [fgets] leaves a null byte and keeps what lies beyond it. *)
Definition fill_line (buf : list (option Z)) (l : list Z) : list (option Z) :=
  (Some <$> l) ++ Some 0 :: drop (S (length l)) buf.

(** The loop that looks for the newline has no other bound. *)
Fixpoint strip_newline (buf : list (option Z)) : option (list (option Z)) :=
  match buf with
  | Some c :: buf' => if c =? 10 then Some (Some 0 :: buf') else cons (Some c) <$> strip_newline buf'
  | _ => None
  end.

Fixpoint line_str (buf : list (option Z)) : list Z :=
  match buf with
  | Some c :: buf' => if c =? 0 then [] else c :: line_str buf'
  | _ => []
  end.

(** [sscanf(file_line, " %c %x,%d", ...)] *)
Definition scan_trace (str : list Z) (r : replay) : replay :=
  match skip_spaces str with
  | [] => r
  | c :: s1 =>
      let r1 := mk_replay (file_line r) (Some c) (address r) (size r) in
      match scan_x (skip_spaces s1) with
      | None => r1
      | Some (a, s2) =>
          let r2 := mk_replay (file_line r) (Some c) (Some a) (size r) in
          match s2 with
          | 44 :: s3 =>
              match scan_d s3 with
              | Some (n, _) => mk_replay (file_line r) (Some c) (Some a) (Some (u32 n))
              | None => r2
              end
          | _ => r2
          end
      end
  end.

(** The verbose [printf] of the line reads all three variables. *)
Definition print_line (r : replay) : prog sim unit :=
  c ← get;
  if verbosity c =? 1
  then i ← lift (instruction r); a ← lift (address r); n ← lift (size r); modify (print (ELine i a n))
  else mret tt.

(** The [switch]. *)
Definition run_instruction (r : replay) : prog sim unit :=
  i ← lift (instruction r);
  if i =? 77 then a ← lift (address r); accessData a;; accessData a
  else if (i =? 76) || (i =? 83) then a ← lift (address r); accessData a
  else mret tt.

(** The loop, at most one round per byte of the file. *)
Fixpoint replay_loop (fuel : nat) (file : list Z) (r : replay) : prog sim unit :=
  match fuel with
  | O => λ _, Fuel
  | S fuel' =>
      match file with
      | [] => mret tt
      | _ =>
          let '(l, rest) := fgets 31 file in
          buf ← lift (strip_newline (fill_line (file_line r) l));
          let r1 := scan_trace (line_str buf) (mk_replay buf (instruction r) (address r) (size r)) in
          print_line r1;;
          run_instruction r1;;
          verbose ENewline;;
          replay_loop fuel' rest r1
      end
  end.

Definition replayTrace (file : option (list Z)) : prog sim unit :=
  match file with
  | None => mret tt
  | Some f => replay_loop (S (length f)) f (mk_replay (replicate 32 None) None None None)
  end.

(** ** [main] *)

(** What [getopt] returns: an option with its argument. *)
Definition opt : Type := Z * list Z.

Record options := mk_options {
  opt_s : Z; opt_E : Z; opt_b : Z; opt_v : Z; trace_file : option (list Z)
}.

(** [printUsage] exits with 0, before the [exit(1)] that follows its calls. *)
Definition printUsage {A} : prog options A := exit_with 0.

Definition parse_opt (o : opt) : prog options unit :=
  let '(c, optarg) := o in
  if c =? 115 then modify (λ p, mk_options (atoi optarg) (opt_E p) (opt_b p) (opt_v p) (trace_file p))
  else if c =? 69 then modify (λ p, mk_options (opt_s p) (atoi optarg) (opt_b p) (opt_v p) (trace_file p))
  else if c =? 98 then modify (λ p, mk_options (opt_s p) (opt_E p) (atoi optarg) (opt_v p) (trace_file p))
  else if c =? 116 then modify (λ p, mk_options (opt_s p) (opt_E p) (opt_b p) (opt_v p) (Some optarg))
  else if c =? 118 then modify (λ p, mk_options (opt_s p) (opt_E p) (opt_b p) 1 (trace_file p))
  else printUsage.

Definition parse_args (opts : list opt) : prog options unit :=
  for_each opts parse_opt;;
  p ← get;
  if (opt_s p =? 0) || (opt_E p =? 0) || (opt_b p =? 0)
     || match trace_file p with None => true | _ => false end
  then printUsage else mret tt.

(** [(unsigned int) pow(2, n)], undefined when it does not fit. *)
Definition pow2 (n : Z) : option Z :=
  if n <? 0 then Some 0 else if n <? 32 then Some (2 ^ n) else None.

(** [main] from the parsed options to [printSummary]; [fopen] gives the
    contents of a file. *)
Definition simulate (fopen : list Z → option (list Z)) (p : options) : prog sim (Z * Z * Z) :=
  n ← lift (pow2 (opt_s p));
  _ ← lift (pow2 (opt_b p));
  modify (λ _, mk_sim [] (opt_v p) (opt_s p) (opt_b p) (opt_E p) (i32 n) 0 0 0 1 []);;
  initCache;;
  replayTrace (match trace_file p with Some f => fopen f | None => None end);;
  c ← get;
  mret (hit_count c, miss_count c, eviction_count c).

Definition main (fopen : list Z → option (list Z)) (opts : list opt) : outcome sim (Z * Z * Z) :=
  let sim0 := mk_sim [] 0 0 0 0 0 0 0 0 1 [] in
  match parse_args opts (mk_options 0 0 0 0 None) with
  | Ret _ p => simulate fopen p sim0
  | Exited code _ => Exited code sim0
  | Undef => Undef
  | Fuel => Fuel
  end.

(** ** Specification: one recency list of tags per set, most recent first *)

Definition lru_touch (E : nat) (t : Z) (row : list Z) : list Z :=
  if decide (t ∈ row) then t :: filter (λ u, u ≠ t) row else t :: take (E - 1) row.

Record lru := mk_lru { rows : list (list Z); hits : Z; misses : Z; evictions : Z; log : list event }.

Definition set_of (s b addr : Z) : Z := (addr / 2 ^ b) mod 2 ^ s.
Definition tag_of (s b addr : Z) : Z := addr / 2 ^ (s + b).

Definition lru_access (s b E addr : Z) (a : lru) : lru :=
  let k := Z.to_nat (set_of s b addr) in
  let t := tag_of s b addr in
  let row := default [] (rows a !! k) in
  let rows' := <[k := lru_touch (Z.to_nat E) t row]> (rows a) in
  if decide (t ∈ row) then mk_lru rows' (hits a + 1) (misses a) (evictions a) (log a ++ [EHit])
  else if decide (Z.of_nat (length row) < E)
  then mk_lru rows' (hits a) (misses a + 1) (evictions a) (log a ++ [EMiss])
  else mk_lru rows' (hits a) (misses a + 1) (evictions a + 1) (log a ++ [EMiss; EEviction]).

(** When a line was last used. *)
Definition use (lines : list my_line) (i : nat) : Z := default 0 (last_use <$> lines !! i).

(** [idx] lists the valid lines, most recently used first; [row] their tags. *)
Record row_order (n : Z) (lines : list my_line) (idx : list nat) (row : list Z) : Prop := {
  ro_valid : ∀ i ln, lines !! i = Some ln → valid ln = 0 ∨ valid ln = 1;
  ro_idx : ∀ i, i ∈ idx ↔ ∃ ln, lines !! i = Some ln ∧ valid ln = 1;
  ro_nodup : NoDup idx;
  ro_tags : Forall2 (λ i t, tag <$> lines !! i = Some t) idx row;
  ro_distinct : NoDup row;
  ro_sorted : StronglySorted (λ i j, use lines j < use lines i) idx;
  ro_bound : ∀ i, i ∈ idx → 0 ≤ use lines i < n
}.
Definition row_rep (n : Z) (lines : list my_line) (row : list Z) : Prop :=
  ∃ idx, row_order n lines idx row.

(** ** Lemmas: shifts *)

Lemma shift_mask n : 0 ≤ n < 64 → shiftl64 mask n = Some (18446744073709551616 - 2 ^ n).
Proof.
  intros Hn. unfold shiftl64, mask. rewrite !(proj2 (Z.leb_le _ _)), (proj2 (Z.ltb_lt _ _)) by lia. simpl.
  f_equal. rewrite Z.shiftl_mul_pow2 by lia. unfold u64.
  assert (0 < 2 ^ n ≤ 18446744073709551616) as Hp.
  { split; [by apply Z.pow_pos_nonneg; lia|]. change 18446744073709551616 with (2 ^ 64). apply Z.pow_le_mono_r; lia. }
  replace (18446744073709551615 * 2 ^ n) with
    (18446744073709551616 - 2 ^ n + (2 ^ n - 1) * 18446744073709551616) by lia.
  rewrite Z.mod_add by lia. apply Z.mod_small. lia.
Qed.

Lemma mask_low n : 0 ≤ n < 64 → lnot64 (18446744073709551616 - 2 ^ n) = Z.ones n.
Proof.
  intros Hn. unfold lnot64. rewrite Z.ones_equiv, <-Z.sub_1_r. unfold Z.lnot, u64. rewrite <-Z.sub_1_r.
  assert (0 < 2 ^ n ≤ 18446744073709551616) as Hp.
  { split; [by apply Z.pow_pos_nonneg; lia|]. change 18446744073709551616 with (2 ^ 64). apply Z.pow_le_mono_r; lia. }
  replace (- (18446744073709551616 - 2 ^ n) - 1) with (2 ^ n - 1 + (-1) * 18446744073709551616) by lia.
  rewrite Z.mod_add by lia. apply Z.mod_small. lia.
Qed.

Lemma shiftr64_ok a n : 0 ≤ n < 64 → shiftr64 a n = Some (a / 2 ^ n).
Proof.
  intros Hn. unfold shiftr64. rewrite (proj2 (Z.leb_le _ _)), (proj2 (Z.ltb_lt _ _)) by lia. simpl.
  by rewrite Z.shiftr_div_pow2 by lia.
Qed.

Lemma set_val_ok s b addr : 0 < s → 0 < b → s + b < 64 → set_val s b addr = Some (set_of s b addr).
Proof.
  intros Hs Hb Hsb. unfold set_val. rewrite shiftr64_ok, shift_mask by lia. simpl.
  rewrite mask_low, Z.land_ones by lia. done.
Qed.

Lemma tag_val_ok s b addr :
  0 < s → 0 < b → s + b < 64 → 0 ≤ addr < 18446744073709551616 →
  tag_val s b addr = Some (tag_of s b addr).
Proof.
  intros Hs Hb Hsb Ha. unfold tag_val. rewrite shiftr64_ok, shift_mask by lia. simpl.
  rewrite mask_low, Z.land_ones by lia. unfold tag_of. f_equal. apply Z.mod_small.
  split; [apply Z.div_pos; [lia|by apply Z.pow_pos_nonneg; lia]|].
  apply Z.div_lt_upper_bound; [by apply Z.pow_pos_nonneg; lia|].
  rewrite <-Z.pow_add_r by lia. replace (s + b + (64 - s - b)) with 64 by lia. lia.
Qed.

Lemma set_of_range s b addr : 0 < s → 0 ≤ set_of s b addr < 2 ^ s.
Proof. intros. apply Z.mod_pos_bound, Z.pow_pos_nonneg; lia. Qed.

(** ** Lemmas: the loops of [accessData] *)

Lemma aget_lookup {A} (l : list A) (i : nat) : aget l (Z.of_nat i) = l !! i.
Proof. unfold aget. rewrite (proj2 (Z.ltb_ge _ _)) by lia. by rewrite Nat2Z.id. Qed.

Definition holds (t : Z) (ln : my_line) : Prop := valid ln = 1 ∧ tag ln = t.

Lemma scan_set_ok lines t :
  (∀ i ln, lines !! i = Some ln → valid ln = 0 ∨ valid ln = 1) →
  ∃ full hit hi, scan_set lines (Z.of_nat (length lines)) t = Some (full, hit, hi) ∧
    (full = true ↔ ∀ i ln, lines !! i = Some ln → valid ln = 1) ∧
    (hit = true → ∃ i ln, hi = Z.of_nat i ∧ lines !! i = Some ln ∧ holds t ln) ∧
    (hit = false → ∀ i ln, lines !! i = Some ln → ¬ holds t ln).
Proof.
  intros Hv. unfold scan_set. rewrite Nat2Z.id.
  destruct (for_up_inv (λ k acc, let '(full, hit, hi) := acc in
      (full = true ↔ ∀ i ln, Z.of_nat i < k → lines !! i = Some ln → valid ln = 1) ∧
      (hit = true → ∃ i ln, hi = Z.of_nat i ∧ lines !! i = Some ln ∧ holds t ln) ∧
      (hit = false → ∀ i ln, Z.of_nat i < k → lines !! i = Some ln → ¬ holds t ln))
    (scan_line lines t) 0 (length lines) (true, false, 0)) as ([[full hit] hi] & -> & H1 & H2 & H3).
  - split_and!; [|done|]; [split; [|done]|]; intros; lia.
  - intros k [[full hit] hi] Hk (H1 & H2 & H3). rewrite Z.add_0_l in Hk.
    destruct (lines !! Z.to_nat k) as [ln|] eqn:E; [|apply lookup_ge_None in E; lia].
    unfold scan_line. rewrite (proj2 (aget_Some lines k ln)) by (split; [lia|done]). simpl.
    assert (∀ i l, Z.of_nat i < k + 1 → lines !! i = Some l → Z.of_nat i < k ∨ l = ln) as Hsplit.
    { intros i l Hi Hl. destruct (decide (Z.of_nat i = k)) as [<-|]; [right|left; lia].
      rewrite Nat2Z.id in E. congruence. }
    destruct (Hv _ _ E) as [Hz|Ho]; (eexists; split; [done|]); rewrite ?Hz, ?Ho; simpl.
    + split_and!; [|done|].
      * split; [done|]. intros Hall. specialize (Hall (Z.to_nat k) ln ltac:(lia) E). lia.
      * intros Hh i l Hi Hl. destruct (Hsplit i l Hi Hl) as [Hlt| ->]; [by apply (H3 Hh i)|].
        intros [? _]. lia.
    + assert (full = true ↔ ∀ i l, Z.of_nat i < k + 1 → lines !! i = Some l → valid l = 1) as H1'.
      { rewrite H1. split; intros Hall i l Hi Hl; [|apply (Hall i); [lia|done]].
        destruct (Hsplit i l Hi Hl) as [Hlt| ->]; [by apply (Hall i)|done]. }
      destruct (Z.eqb_spec (tag ln) t) as [Ht|Ht]; split_and!; try done.
      * intros _. exists (Z.to_nat k), ln. rewrite Z2Nat.id by lia. done.
      * intros Hh i l Hi Hl. destruct (Hsplit i l Hi Hl) as [Hlt| ->]; [by apply (H3 Hh i)|].
        by intros [_ ?].
  - exists full, hit, hi. split; [done|]. rewrite Z.add_0_l in *. split_and!; [|done|].
    + rewrite H1. split; intros Hall i ln Hl; [|by apply (Hall i)]. 
      apply (Hall i); [apply lookup_lt_Some in Hl; lia|done].
    + intros Hh i ln Hl. apply (H3 Hh i); [apply lookup_lt_Some in Hl; lia|done].
Qed.

Lemma fill_empty_ok lines t lru k n ln i :
  lines !! i = Some ln → valid ln = 0 → (k ≤ i < k + n)%nat →
  ∃ j lj, (k ≤ j)%nat ∧ lines !! j = Some lj ∧ valid lj = 0 ∧
    fill_empty lines t lru (Z.of_nat k) n = Some (<[j := mk_line 1 (u32 t) (u32 lru)]> lines).
Proof.
  intros Hi Hv. revert k. induction n as [|n IH]; intros k Hk; [lia|]. simpl. rewrite aget_lookup.
  pose proof (lookup_lt_Some _ _ _ Hi) as Hlen.
  destruct (lines !! k) as [lk|] eqn:Ek; [|apply lookup_ge_None in Ek; lia]. simpl.
  destruct (Z.eqb_spec (valid lk) 0) as [H0|H0].
  - exists k, lk. split_and!; [done|done|done|]. rewrite aset_ok; [by rewrite Nat2Z.id|lia].
  - destruct (IH (S k)) as (j & lj & Hj & Ej & Hvj & E).
    { destruct (decide (k = i)) as [->|]; [congruence|lia]. }
    exists j, lj. split_and!; [lia|done|done|]. replace (Z.of_nat k + 1) with (Z.of_nat (S k)) by lia. done.
Qed.

Lemma find_low_ok lines n :
  lines ≠ [] → 0 < n < 2147483648 → (∀ i ln, lines !! i = Some ln → 0 ≤ last_use ln < n) →
  ∃ low i ln, find_low lines (Z.of_nat (length lines)) n = Some (low, Z.of_nat i) ∧
    lines !! i = Some ln ∧ ∀ j, (j < length lines)%nat → last_use ln ≤ use lines j.
Proof.
  intros Hne Hn Hu. unfold find_low. rewrite Nat2Z.id.
  destruct (for_up_inv (λ k acc, let '(low, li) := acc in
      0 ≤ low ≤ n ∧ (∀ j, Z.of_nat j < k → low ≤ use lines j) ∧
      ((low = n ∧ k = 0) ∨ ∃ i ln, li = Z.of_nat i ∧ lines !! i = Some ln ∧ last_use ln = low))
    (scan_low lines) 0 (length lines) (i32 n, 0)) as ([low li] & -> & H1 & H2 & H3).
  - rewrite i32_small by lia. split_and!; [lia|lia|intros; lia|by left].
  - intros k [low li] Hk (H1 & H2 & H3). rewrite Z.add_0_l in Hk.
    destruct (lines !! Z.to_nat k) as [ln|] eqn:E; [|apply lookup_ge_None in E; lia].
    unfold scan_low. rewrite (proj2 (aget_Some lines k ln)) by (split; [lia|done]). simpl.
    destruct (Hu _ _ E) as [Hu1 Hu2]. eexists. split; [done|]. rewrite u32_small by lia.
    assert (∀ j, Z.of_nat j < k + 1 → Z.of_nat j < k ∨ use lines j = last_use ln) as Hsplit.
    { intros j Hj. destruct (decide (Z.of_nat j = k)) as [<-|]; [right|left; lia].
      unfold use. rewrite Nat2Z.id in E. by rewrite E. }
    destruct (Z.ltb_spec (last_use ln) low) as [Hlt|Hge].
    + rewrite i32_small by lia. split_and!; [lia|lia| |].
      * intros j Hj. destruct (Hsplit j Hj) as [Hj'| ->]; [specialize (H2 j Hj')|]; lia.
      * right. exists (Z.to_nat k), ln. by rewrite Z2Nat.id by lia.
    + split_and!; [lia|lia| |].
      * intros j Hj. destruct (Hsplit j Hj) as [Hj'| ->]; [by apply H2|lia].
      * destruct H3 as [[-> ->]|H3]; [exfalso; lia|by right].
  - destruct H3 as [[_ H0]|(i & ln & -> & E & Hl)]; [destruct lines; simpl in H0; [done|lia]|].
    exists low, i, ln. split_and!; [done|done|]. intros j Hj. rewrite Hl. apply H2. lia.
Qed.

(** ** Lemmas: recency *)

Lemma use_insert lines i j ln : (i < length lines)%nat →
  use (<[i := ln]> lines) j = if decide (i = j) then last_use ln else use lines j.
Proof.
  intros Hi. unfold use. destruct (decide (i = j)) as [<-|Hne].
  - by rewrite list_lookup_insert_eq.
  - by rewrite list_lookup_insert_ne.
Qed.

Lemma sorted_ext (f g : nat → Z) l :
  (∀ i, i ∈ l → f i = g i) → StronglySorted (λ i j, f j < f i) l → StronglySorted (λ i j, g j < g i) l.
Proof.
  intros Hfg. induction 1 as [|i l Hs IH Hi]; constructor.
  - apply IH. intros j Hj. apply Hfg. set_solver.
  - rewrite Forall_forall in Hi |- *. intros j Hj. rewrite <-!Hfg by set_solver. by apply Hi.
Qed.

(** The lines that stay as they are when line [i] is used next. *)
Record kept (n : Z) (lines : list my_line) (i : nat) (idx : list nat) (row : list Z) : Prop := {
  kp_idx : ∀ j, j ∈ idx ↔ j ≠ i ∧ ∃ ln, lines !! j = Some ln ∧ valid ln = 1;
  kp_nodup : NoDup idx;
  kp_tags : Forall2 (λ j t, tag <$> lines !! j = Some t) idx row;
  kp_distinct : NoDup row;
  kp_sorted : StronglySorted (λ j k, use lines k < use lines j) idx;
  kp_bound : ∀ j, j ∈ idx → 0 ≤ use lines j < n
}.

Lemma stamp n lines i idx row t :
  (∀ j ln, lines !! j = Some ln → valid ln = 0 ∨ valid ln = 1) → (i < length lines)%nat → 0 ≤ n →
  kept n lines i idx row → t ∉ row →
  row_rep (n + 1) (<[i := mk_line 1 t n]> lines) (t :: row).
Proof.
  intros Hv Hi Hn [K1 K2 K3 K4 K5 K6] Ht. exists (i :: idx).
  assert (∀ j, j ∈ idx → i ≠ j) as Hne by (intros j Hj ->; by destruct (proj1 (K1 j) Hj)).
  assert (∀ j, j ∈ idx → use (<[i := mk_line 1 t n]> lines) j = use lines j) as Huse.
  { intros j Hj. rewrite use_insert by done. by rewrite decide_False by by apply Hne. }
  constructor.
  - intros j ln Hj. destruct (decide (i = j)) as [<-|Hij].
    + rewrite list_lookup_insert_eq in Hj by done. simplify_eq. by right.
    + rewrite list_lookup_insert_ne in Hj by done. by eapply Hv.
  - intros j. rewrite elem_of_cons, K1. destruct (decide (i = j)) as [<-|Hij].
    + rewrite list_lookup_insert_eq by done. split; [intros _; by eexists|by left].
    + rewrite list_lookup_insert_ne by done. naive_solver.
  - apply NoDup_cons. split; [|done]. intros Hin. by apply (Hne i).
  - constructor; [by rewrite list_lookup_insert_eq|].
    apply Forall2_same_length_lookup. split; [by eapply Forall2_length|]. intros p j u Hp Hu. rewrite list_lookup_insert_ne by (apply Hne; by eapply list_elem_of_lookup_2).
    by eapply (Forall2_lookup_lr _ _ _ _ _ _ K3).
  - by apply NoDup_cons.
  - constructor; [eapply sorted_ext; [|exact K5]; intros j Hj; by rewrite Huse|].
    rewrite Forall_forall. intros j Hj. rewrite Huse by done. rewrite use_insert, decide_True by done.
    simpl. by apply K6.
  - intros j [->|Hj]%elem_of_cons; [rewrite use_insert, decide_True by done; simpl; lia|].
    rewrite Huse by done. specialize (K6 j Hj). lia.
Qed.

(** Taking the valid line [i] out of the order, with its tag. *)
Lemma row_cut n lines l1 i l2 row :
  row_order n lines (l1 ++ i :: l2) row →
  ∃ r1 t r2, row = r1 ++ t :: r2 ∧ length r1 = length l1 ∧ tag <$> lines !! i = Some t ∧
    t ∉ r1 ++ r2 ∧ kept n lines i (l1 ++ l2) (r1 ++ r2).
Proof.
  intros [R1 R2 R3 R4 R5 R6 R7].
  apply Forall2_app_inv_l in R4 as (r1 & r & H1 & H & ->).
  apply Forall2_cons_inv_l in H as (t & r2 & Ht & H2 & ->).
  exists r1, t, r2.
  apply NoDup_app in R3 as (N1 & N2 & [N3 N4]%NoDup_cons).
  assert (NoDup (r1 ++ t :: r2)) as (M1 & M2 & [M3 M4]%NoDup_cons)%NoDup_app by done.
  split_and!; [done|by eapply eq_sym, Forall2_length|done| |].
  { intros [Hin|Hin]%elem_of_app; [by apply (M2 t); [|left]|done]. }
  assert (i ∉ l1 ++ l2) as Hi.
  { intros [Hin|Hin]%elem_of_app; [by apply (N2 i); [|left]|done]. }
  apply StronglySorted_app in R6 as (S1 & S2 & S3). apply StronglySorted_inv in S3 as [S3 _].
  constructor.
  - intros j. rewrite <-(R2 j). rewrite !elem_of_app, elem_of_cons.
    split; [|by intros [Hne [?|[?|?]]]; [left| |right]].
    intros Hj. split; [|tauto]. intros ->. apply Hi. by apply elem_of_app.
  - apply NoDup_app. split_and!; [done| |done]. intros x Hx Hx2. apply (N2 x Hx). by right.
  - by apply Forall2_app.
  - apply NoDup_app. split_and!; [done| |done]. intros x Hx Hx2. apply (M2 x Hx). by right.
  - apply StronglySorted_app. split_and!; [|done|done]. intros x y Hx Hy. apply S1; [done|by right].
  - intros j Hj. apply R7. apply elem_of_app in Hj as [?|?]; apply elem_of_app; [by left|right; by right].
Qed.

Lemma row_find n lines idx row t :
  row_order n lines idx row → t ∈ row ↔ ∃ i ln, lines !! i = Some ln ∧ holds t ln.
Proof.
  intros [R1 R2 R3 R4 R5 R6 R7]. split.
  - intros [p Hp]%list_elem_of_lookup. destruct (Forall2_lookup_r _ _ _ _ _ R4 Hp) as (i & Hi & Ht).
    apply list_elem_of_lookup_2 in Hi. apply R2 in Hi as (ln & E & Hv). exists i, ln.
    rewrite E in Ht. by simplify_eq/=.
  - intros (i & ln & E & Hv & <-). assert (i ∈ idx) as [p Hp]%list_elem_of_lookup by (apply R2; by exists ln).
    destruct (Forall2_lookup_l _ _ _ _ _ R4 Hp) as (t & Ht & E'). rewrite E in E'. simplify_eq/=.
    by eapply list_elem_of_lookup_2.
Qed.

Lemma filter_keep (l : list Z) t : t ∉ l → filter (λ u, u ≠ t) l = l.
Proof.
  induction l as [|x l IH]; intros Ht; [done|].
  rewrite filter_cons_True by set_solver. f_equal. apply IH. set_solver.
Qed.
Lemma filter_out (r1 r2 : list Z) t : t ∉ r1 ++ r2 → filter (λ u, u ≠ t) (r1 ++ t :: r2) = r1 ++ r2.
Proof.
  intros Ht. rewrite filter_app, filter_cons_False by (intros H; by apply H). rewrite <-filter_app.
  by apply filter_keep.
Qed.

Lemma row_length n lines idx row :
  row_order n lines idx row → length row = length idx ∧ (length idx ≤ length lines)%nat ∧
  ((∀ i ln, lines !! i = Some ln → valid ln = 1) → length idx = length lines) ∧
  ((∃ i ln, lines !! i = Some ln ∧ valid ln = 0) → (length idx < length lines)%nat).
Proof.
  intros [R1 R2 R3 R4 R5 R6 R7].
  assert (∀ i, i ∈ idx → i ∈ seq 0 (length lines)) as Hsub.
  { intros i (ln & E & _)%R2. apply elem_of_seq. apply lookup_lt_Some in E. lia. }
  assert (length idx ≤ length (seq 0 (length lines)))%nat as Hle.
  { apply submseteq_length, NoDup_submseteq; [done|exact Hsub]. }
  rewrite length_seq in Hle. split; [by eapply eq_sym, Forall2_length|]. split; [done|]. split.
  - intros Hall. apply Nat.le_antisymm; [done|].
    rewrite <-(length_seq (length lines) 0). apply submseteq_length, NoDup_submseteq; [apply NoDup_seq|].
    intros i [_ Hi]%elem_of_seq. destruct (lines !! i) as [ln|] eqn:E; [|apply lookup_ge_None in E; lia].
    apply R2. exists ln. split; [done|by eapply Hall].
  - intros (i & ln & E & Hv).
    assert (i ∉ idx) as Hi by (intros (ln' & E' & ?)%R2; simplify_eq; lia).
    assert (length (i :: idx) ≤ length (seq 0 (length lines)))%nat as Hlt; [|rewrite length_seq in Hlt; simpl in Hlt; lia].
    apply submseteq_length, NoDup_submseteq; [by apply NoDup_cons|].
    intros j [->|Hj]%elem_of_cons; [|by apply Hsub]. apply elem_of_seq. apply lookup_lt_Some in E. lia.
Qed.

(** The three outcomes of an access, on the lines. *)
Lemma hit_rep n lines row i ln t :
  row_rep n lines row → 0 ≤ n → lines !! i = Some ln → holds t ln →
  row_rep (n + 1) (<[i := mk_line 1 t n]> lines) (lru_touch (length lines) t row) ∧ t ∈ row.
Proof.
  intros [idx R] Hn E [Hv Ht].
  assert (t ∈ row) as Hin by (apply (row_find _ _ _ _ _ R); by exists i, ln).
  split; [|done]. assert (i ∈ idx) as (l1 & l2 & ->)%list_elem_of_split by (apply (ro_idx _ _ _ _ R); by exists ln).
  destruct (row_cut _ _ _ _ _ _ R) as (r1 & u & r2 & -> & _ & Hu & Hnin & Hk).
  assert (u = t) as -> by (rewrite E in Hu; by simplify_eq/=).
  unfold lru_touch. rewrite decide_True by done. rewrite filter_out by done.
  apply (stamp n lines i (l1 ++ l2)); [apply R|by eapply lookup_lt_Some|done|done|done].
Qed.

Lemma fill_rep n lines row i ln t :
  row_rep n lines row → 0 ≤ n → lines !! i = Some ln → valid ln = 0 → t ∉ row →
  row_rep (n + 1) (<[i := mk_line 1 t n]> lines) (lru_touch (length lines) t row) ∧
  (length row < length lines)%nat.
Proof.
  intros [idx R] Hn E Hv Ht. destruct (row_length _ _ _ _ R) as (L1 & L2 & _ & L4).
  assert (length idx < length lines)%nat as Hlt by (apply L4; by exists i, ln).
  split; [|lia]. unfold lru_touch. rewrite decide_False by done. rewrite take_ge by lia.
  apply (stamp n lines i idx); [apply R|by eapply lookup_lt_Some|done| |done].
  constructor; try apply R. intros j. rewrite (ro_idx _ _ _ _ R j). split; [|by intros [_ ?]].
  intros (lj & Ej & Hj). split; [|by exists lj]. intros ->. simplify_eq. lia.
Qed.

Lemma evict_rep n lines row i ln t :
  row_rep n lines row → 0 ≤ n → lines !! i = Some ln → (∀ j lj, lines !! j = Some lj → valid lj = 1) →
  (∀ j, (j < length lines)%nat → last_use ln ≤ use lines j) → t ∉ row →
  row_rep (n + 1) (<[i := mk_line 1 t n]> lines) (lru_touch (length lines) t row) ∧
  length row = length lines.
Proof.
  intros [idx R] Hn E Hall Hmin Ht. destruct (row_length _ _ _ _ R) as (L1 & L2 & L3 & _). specialize (L3 Hall).
  split; [|lia]. assert (i ∈ idx) as Hi by (apply (ro_idx _ _ _ _ R); exists ln; split; [done|by eapply Hall]).
  pose proof Hi as (l1 & l2 & ->)%list_elem_of_split.
  assert (l2 = []) as ->.
  { destruct l2 as [|j l2]; [done|]. exfalso.
    pose proof (ro_sorted _ _ _ _ R) as (_ & _ & Hs)%StronglySorted_app.
    apply StronglySorted_inv in Hs as [_ [Hj _]%Forall_cons].
    assert (j ∈ l1 ++ i :: j :: l2) as (lj & Ej & _)%(ro_idx _ _ _ _ R) by set_solver.
    specialize (Hmin j (lookup_lt_Some _ _ _ Ej)). cbv beta in Hj.
    assert (use lines i = last_use ln) by (unfold use; by rewrite E). lia. }
  destruct (row_cut _ _ _ _ _ _ R) as (r1 & u & r2 & -> & Hl & Hu & Hnin & Hk).
  rewrite !length_app in L1. rewrite length_app in L3. simpl in *. assert (r2 = []) as -> by (destruct r2; [done|simpl in *; lia]).
  rewrite !app_nil_r in *. unfold lru_touch. rewrite decide_False by done.
  rewrite <-L3. replace (length l1 + 1 - 1)%nat with (length r1) by lia. rewrite take_app_length.
  apply (stamp n lines i l1); [apply R|by eapply lookup_lt_Some|done|done|].
  intros Hin. apply Ht, elem_of_app. by left.
Qed.

Lemma row_rep_mono n m lines row : row_rep n lines row → n ≤ m → row_rep m lines row.
Proof.
  intros [idx R] Hm. exists idx. constructor; try apply R. intros i Hi.
  pose proof (ro_bound _ _ _ _ R i Hi). lia.
Qed.

(** ** The simulator implements the specification *)

(** The geometry the command line can ask for. *)
Definition geometry (s b E : Z) : Prop := 0 < s ≤ 30 ∧ 0 < b < 32 ∧ 0 < E < 2147483648.

Record sim_rep (v s' b' E' : Z) (c : sim) (a : lru) : Prop := {
  sr_opts : verbosity c = v ∧ s c = s' ∧ b c = b' ∧ E c = E';
  sr_len : Z.of_nat (length (sets c)) = 2 ^ s';
  sr_sets : Forall2 (λ lines row, length lines = Z.to_nat E' ∧ row_rep (lru_counter c) lines row)
              (sets c) (rows a);
  sr_counts : hit_count c = hits a ∧ miss_count c = misses a ∧ eviction_count c = evictions a;
  sr_lru : lru_counter c = 1 + hits a + misses a;
  sr_nonneg : 0 ≤ hits a ∧ 0 ≤ evictions a ≤ misses a;
  sr_log : printed c = if v =? 1 then log a else []
}.

Definition pr (ev : event) (c : sim) : sim := if verbosity c =? 1 then print ev c else c.
Lemma verbose_run ev c : verbose ev c = Ret tt (pr ev c).
Proof. done. Qed.

Lemma count_hit_run c : hit_count c < 2147483647 →
  count_hit c = Ret tt (set_counts (miss_count c) (hit_count c + 1) (eviction_count c) c).
Proof. intros H. apply updates_Some. by rewrite int_incr_ok. Qed.
Lemma count_miss_run c : miss_count c < 2147483647 →
  count_miss c = Ret tt (set_counts (miss_count c + 1) (hit_count c) (eviction_count c) c).
Proof. intros H. apply updates_Some. by rewrite int_incr_ok. Qed.
Lemma count_eviction_run c : eviction_count c < 2147483647 →
  count_eviction c = Ret tt (set_counts (miss_count c) (hit_count c) (eviction_count c + 1) c).
Proof. intros H. apply updates_Some. by rewrite int_incr_ok. Qed.
Lemma put_lines_run c d k lines css :
  aset (sets c) k lines = Some css → sets d = sets c → put_lines k lines d = Ret tt (set_sets css d).
Proof. intros H Hd. apply updates_Some. by rewrite Hd, H. Qed.

(** Updating one set of the cache. *)
Lemma sets_update (E : nat) (m m' : Z) k css rws lines' row' :
  Forall2 (λ lines row, length lines = E ∧ row_rep m lines row) css rws → m ≤ m' →
  length lines' = E → row_rep m' lines' row' →
  Forall2 (λ lines row, length lines = E ∧ row_rep m' lines row) (<[k := lines']> css) (<[k := row']> rws).
Proof.
  intros H Hm Hl Hr. apply Forall2_insert; [|by split].
  eapply Forall2_impl; [exact H|]. intros lines row [? ?]. split; [done|]. by eapply row_rep_mono.
Qed.

Section access.
Context (v s' b' E' : Z) (G : geometry s' b' E') (c : sim) (a : lru) (R : sim_rep v s' b' E' c a).
Context (Hmax : lru_counter c < 2147483647).
Context (addr : Z) (Haddr : 0 ≤ addr < 4294967296).
Notation k := (Z.to_nat (set_of s' b' addr)).
Notation t := (tag_of s' b' addr).

Lemma access_counts : 0 < lru_counter c ∧ hit_count c < 2147483647 ∧ miss_count c < 2147483647 ∧
  eviction_count c < 2147483647 ∧ u32 (lru_counter c) = lru_counter c ∧
  u64 (lru_counter c + 1) = lru_counter c + 1 ∧ u32 t = t.
Proof.
  pose proof (sr_lru _ _ _ _ _ _ R). pose proof (sr_nonneg _ _ _ _ _ _ R).
  destruct (sr_counts _ _ _ _ _ _ R) as (-> & -> & ->). destruct G as (G1 & G2 & G3).
  split_and!; try lia; [apply u32_small; lia|apply u64_small; lia|apply u32_small].
  unfold tag_of. split; [apply Z.div_pos; [lia|apply Z.pow_pos_nonneg; lia]|].
  apply Z.le_lt_trans with addr; [|lia]. apply Z.div_le_upper_bound; [apply Z.pow_pos_nonneg; lia|].
  assert (0 < 2 ^ (s' + b')) by (apply Z.pow_pos_nonneg; lia). nia.
Qed.

Lemma access_set : ∃ lines row,
  aget (sets c) (set_of s' b' addr) = Some lines ∧ sets c !! k = Some lines ∧ rows a !! k = Some row ∧
  length lines = Z.to_nat E' ∧ row_rep (lru_counter c) lines row ∧
  ∀ lines', aset (sets c) (set_of s' b' addr) lines' = Some (<[k := lines']> (sets c)).
Proof.
  destruct G as (G1 & G2 & G3). pose proof (set_of_range s' b' addr ltac:(lia)) as Hk.
  pose proof (sr_len _ _ _ _ _ _ R) as Hlen.
  destruct (sets c !! k) as [lines|] eqn:E; [|apply lookup_ge_None in E; lia].
  destruct (Forall2_lookup_l _ _ _ _ _ (sr_sets _ _ _ _ _ _ R) E) as (row & Er & Hl & Hr).
  exists lines, row. split_and!; try done; [apply aget_Some; split; [lia|done]|].
  intros lines'. apply aset_ok. lia.
Qed.

(** What an access does to the lines, and what it prints. *)
Lemma access_lines lines row :
  length lines = Z.to_nat E' → row_rep (lru_counter c) lines row →
  ∃ full hit hi, scan_set lines E' t = Some (full, hit, hi) ∧
    ((hit = true ∧ ∃ ln, aget lines hi = Some ln ∧ t ∈ row ∧
        row_rep (lru_counter c + 1) (<[Z.to_nat hi := mk_line (valid ln) (tag ln) (lru_counter c)]> lines)
          (lru_touch (Z.to_nat E') t row) ∧ 0 ≤ hi < Z.of_nat (length lines)) ∨
     (hit = false ∧ full = false ∧ t ∉ row ∧ (Z.of_nat (length row) < E') ∧
        ∃ lines', fill_empty lines t (lru_counter c) 0 (Z.to_nat E') = Some lines' ∧
          length lines' = length lines ∧ row_rep (lru_counter c + 1) lines' (lru_touch (Z.to_nat E') t row)) ∨
     (hit = false ∧ full = true ∧ t ∉ row ∧ Z.of_nat (length row) = E' ∧
        ∃ low j ln, find_low lines E' (lru_counter c) = Some (low, Z.of_nat j) ∧ lines !! j = Some ln ∧
          row_rep (lru_counter c + 1) (<[j := mk_line (valid ln) t (lru_counter c)]> lines)
            (lru_touch (Z.to_nat E') t row))).
Proof.
  intros Hl Hr. destruct access_counts as (C1 & _ & _ & _ & C5 & _ & C7). destruct G as (G1 & G2 & G3).
  pose proof Hr as [idx RO]. pose proof (ro_valid _ _ _ _ RO) as Hv.
  assert (E' = Z.of_nat (length lines)) as HE by lia.
  destruct (scan_set_ok lines t Hv) as (full & hit & hi & Es & S1 & S2 & S3). rewrite <-HE in Es.
  exists full, hit, hi. split; [done|]. rewrite <-Hl.
  destruct hit.
  - left. split; [done|]. destruct (S2 eq_refl) as (i & ln & -> & Ei & Hh).
    destruct (hit_rep _ _ _ i ln t Hr ltac:(lia) Ei Hh) as [H1 H2].
    exists ln. rewrite aget_lookup, Nat2Z.id. destruct Hh as [-> ->].
    split_and!; try done; [lia|apply lookup_lt_Some in Ei; lia].
  - right. assert (t ∉ row) as Hnin.
    { rewrite (row_find _ _ _ _ _ RO). intros (i & ln & Ei & Hh). by apply (S3 eq_refl i ln). }
    destruct full.
    + right. assert (∀ i ln, lines !! i = Some ln → valid ln = 1) as Hall by by apply S1.
      destruct (find_low_ok lines (lru_counter c)) as (low & j & ln & El & Ej & Hmin).
      { intros ->. simpl in HE. lia. } { lia. }
      { intros i ln Ei. assert (i ∈ idx) as Hi%(ro_bound _ _ _ _ RO).
        { apply (ro_idx _ _ _ _ RO). exists ln. split; [done|by eapply Hall]. }
        unfold use in Hi. by rewrite Ei in Hi. }
      destruct (evict_rep _ _ _ j ln t Hr ltac:(lia) Ej Hall Hmin Hnin) as [H1 H2].
      split_and!; try done; [lia|]. exists low, j, ln. rewrite HE. rewrite (Hall _ _ Ej). by split_and!.
    + left. assert (∃ i ln, lines !! i = Some ln ∧ valid ln = 0) as (i & ln & Ei & Hi).
      { destruct (decide (Exists (λ ln, valid ln = 0) lines)) as [Hex|Hno].
        - apply Exists_exists in Hex as (ln & [i Hi]%list_elem_of_lookup & ?). by exists i, ln.
        - exfalso. assert (false = true) as [=]. apply S1. intros i ln Ei.
          destruct (Hv _ _ Ei) as [H0|]; [|done]. destruct Hno. apply Exists_exists. exists ln.
          split; [by eapply list_elem_of_lookup_2|done]. }
      destruct (fill_empty_ok lines t (lru_counter c) 0 (length lines) ln i Ei Hi) as (j & lj & _ & Ej & Hj & Ef).
      { apply lookup_lt_Some in Ei. lia. }
      destruct (fill_rep _ _ _ j lj t Hr ltac:(lia) Ej Hj Hnin) as [H1 H2].
      split_and!; try done; [lia|]. eexists. split; [exact Ef|]. rewrite C5, C7. split; [apply length_insert|done].
Qed.

(** Hits, misses and evictions are counted as the specification counts them. *)
Lemma accessData_ok :
  ∃ c', accessData addr c = Ret tt c' ∧ sim_rep v s' b' E' c' (lru_access s' b' E' addr a).
Proof.
  destruct access_counts as (C1 & C2 & C3 & C4 & C5 & C6 & C7).
  destruct access_set as (lines & row & A1 & A2 & A3 & A4 & A5 & A6).
  destruct (sr_opts _ _ _ _ _ _ R) as (O1 & O2 & O3 & O4). destruct G as (G1 & G2 & G3).
  pose proof (sr_nonneg _ _ _ _ _ _ R) as (N1 & N2). destruct (sr_counts _ _ _ _ _ _ R) as (K1 & K2 & K3).
  destruct (access_lines lines row A4 A5) as (full & hit & hi & Es & Hcase).
  unfold accessData. run (eq_refl (get c)). rewrite O2, O3, O4.
  run (lift_Some _ _ c (set_val_ok s' b' addr ltac:(lia) ltac:(lia) ltac:(lia))).
  run (lift_Some _ _ c (tag_val_ok s' b' addr ltac:(lia) ltac:(lia) ltac:(lia) ltac:(lia))).
  run (lift_Some _ _ c A1). run (lift_Some _ _ c Es).
  assert (lru_access s' b' E' addr a =
    let rows' := <[k := lru_touch (Z.to_nat E') t row]> (rows a) in
    if decide (t ∈ row) then mk_lru rows' (hits a + 1) (misses a) (evictions a) (log a ++ [EHit])
    else if decide (Z.of_nat (length row) < E')
    then mk_lru rows' (hits a) (misses a + 1) (evictions a) (log a ++ [EMiss])
    else mk_lru rows' (hits a) (misses a + 1) (evictions a + 1) (log a ++ [EMiss; EEviction])) as ->.
  { unfold lru_access. by rewrite A3. }
  assert (∀ css lines' row', css = <[k := lines']> (sets c) → length lines' = Z.to_nat E' →
    row_rep (lru_counter c + 1) lines' row' →
    Forall2 (λ lines row, length lines = Z.to_nat E' ∧ row_rep (lru_counter c + 1) lines row)
      css (<[k := row']> (rows a))) as Hsets.
  { intros css lines' row' -> ? ?. eapply sets_update; [apply R|lia|done|done]. }
  assert (∀ lines', Z.of_nat (length (<[k := lines']> (sets c))) = 2 ^ s') as Hlen.
  { intros lines'. rewrite length_insert. apply R. }
  pose proof (sr_log _ _ _ _ _ _ R) as Hlog. pose proof (sr_lru _ _ _ _ _ _ R) as Hlru. cbv zeta.
  set (cM := pr EMiss (set_counts (miss_count c + 1) (hit_count c) (eviction_count c) c)).
  assert ((count_miss;; verbose EMiss) c = Ret tt cM) as EM by by run (count_miss_run c C3).
  assert (∀ lines', aset (sets cM) (set_of s' b' addr) lines' = Some (<[k := lines']> (sets c))) as AM.
  { unfold cM, pr. case (verbosity _ =? 1); exact A6. }
  assert (eviction_count cM < 2147483647) as CM by (unfold cM, pr; case (verbosity _ =? 1); exact C4).
  destruct Hcase as [(-> & ln & H1 & H2 & H3 & H4)|
    [(-> & -> & H1 & H2 & lines' & H3 & H4 & H5)|(-> & -> & H1 & H2 & low & j & ln & H3 & H4 & H5)]].
  - rewrite decide_True by done. cbn [negb andb].
    eexists. split.
    + rewrite (bind_Ret _ _ _ tt (pr EHit (set_sets (<[k := <[Z.to_nat hi := mk_line (valid ln) (tag ln)
        (lru_counter c)]> lines]> (sets c)) (set_counts (miss_count c) (hit_count c + 1) (eviction_count c) c)))).
      2:{ run (count_hit_run c C2). run (lift_Some _ _ _ H1). rewrite C5.
          run (lift_Some _ _ _ (aset_ok _ _ _ H4)). run (put_lines_run c (set_counts _ _ _ c) _ _ _ (A6 _) eq_refl). reflexivity. }
      reflexivity.
    + constructor; unfold cM, pr; simpl; rewrite ?O1; destruct (v =? 1); simpl; rewrite ?C6; try done; try lia;
        try apply Hlen; try (eapply Hsets; [reflexivity|by rewrite length_insert|exact H3]).
      by rewrite Hlog.
  - rewrite decide_False by done. rewrite decide_True by done. cbn [negb andb].
    eexists. split.
    + run EM. rewrite (bind_Ret _ _ _ tt (set_sets (<[k := lines']> (sets c)) cM)); [reflexivity|].
      run (lift_Some _ _ cM H3). by apply (put_lines_run cM).
    + constructor; unfold cM, pr; simpl; rewrite ?O1; destruct (v =? 1); simpl; rewrite ?C6; try done; try lia;
        try apply Hlen; try (eapply Hsets; [reflexivity|by rewrite H4|exact H5]).
      by rewrite Hlog.
  - rewrite decide_False by done. rewrite decide_False by lia. cbn [negb andb].
    assert (0 ≤ Z.of_nat j < Z.of_nat (length lines)) as Hj by (apply lookup_lt_Some in H4; lia).
    eexists. split.
    + run EM. rewrite (bind_Ret _ _ _ tt cM); [|done].
      rewrite (bind_Ret _ _ _ tt (pr EEviction (set_counts (miss_count cM) (hit_count cM)
        (eviction_count cM + 1) (set_sets (<[k := <[j := mk_line (valid ln) t (lru_counter c)]>
        lines]> (sets c)) cM)))).
      2:{ run (lift_Some _ _ cM H3). run (lift_Some _ _ cM (eq_trans (aget_lookup lines j) H4)).
          rewrite C5, C7. run (lift_Some _ _ cM (aset_ok lines (Z.of_nat j) (mk_line (valid ln) t (lru_counter c)) Hj)). rewrite Nat2Z.id.
          run (put_lines_run cM cM _ _ _ (AM _) eq_refl). run (count_eviction_run (set_sets _ cM) CM). reflexivity. }
      reflexivity.
    + constructor; unfold cM, pr; simpl; rewrite ?O1; destruct (v =? 1) eqn:Hv; simpl;
        rewrite ?O1, ?Hv; simpl; rewrite ?C6; try done; try lia;
        try apply Hlen; try (eapply Hsets; [reflexivity|by rewrite length_insert|exact H5]).
      rewrite Hlog. by rewrite <-app_assoc.
Qed.
End access.

(** ** The trace as text *)

(** One line of Valgrind's output: instruction, address, size. *)
Abbreviation entry := (Z * Z * Z)%type.
Definition show_body (x : entry) : list Z :=
  let '(i, addr, n) := x in
  (if i =? 73 then [73; 32; 32] else [32; i; 32]) ++ show_hex addr ++ [44] ++ show_num n.
Definition show_entry (x : entry) : list Z := show_body x ++ [10].
Definition show_trace (tr : list entry) : list Z := concat (show_entry <$> tr).
Definition entry_ok (x : entry) : Prop :=
  let '(i, addr, n) := x in
  i ∈ [77; 76; 83; 73] ∧ 0 ≤ addr < 4294967296 ∧ 0 ≤ n < 2147483648.

Definition log_event (ev : event) (a : lru) : lru :=
  mk_lru (rows a) (hits a) (misses a) (evictions a) (log a ++ [ev]).
Definition lru_entry (s b E : Z) (a : lru) (x : entry) : lru :=
  let '(i, addr, n) := x in
  let a1 := log_event (ELine i addr n) a in
  let a2 := if i =? 77 then lru_access s b E addr (lru_access s b E addr a1)
            else if (i =? 76) || (i =? 83) then lru_access s b E addr a1 else a1 in
  log_event ENewline a2.
Definition lru_init (s : Z) : lru := mk_lru (replicate (Z.to_nat (2 ^ s)) []) 0 0 0 [].
Definition lru_run (s b E : Z) (tr : list entry) : lru := foldl (lru_entry s b E) (lru_init s) tr.

Lemma digits_short base fuel z n :
  is_base base → 0 ≤ z < base ^ Z.of_nat (S n) → (length (digits base fuel z) ≤ S n)%nat.
Proof.
  intros Hb. assert (1 < base) by (destruct Hb; lia).
  revert z n. induction fuel as [|fuel IH]; intros z n Hz; simpl; [lia|].
  destruct (Z.ltb_spec z base); simpl; [lia|]. rewrite length_app. simpl.
  destruct n as [|n]; [change (base ^ Z.of_nat 1) with (base ^ 1) in Hz; rewrite Z.pow_1_r in Hz; lia|].
  assert (length (digits base fuel (z / base)) ≤ S n)%nat; [|lia]. apply IH.
  split; [apply Z.div_pos; lia|]. apply Z.div_lt_upper_bound; [lia|].
  rewrite (Nat2Z.inj_succ (S n)), Z.pow_succ_r in Hz by lia. lia.
Qed.

Lemma show_body_ok x : entry_ok x →
  (length (show_body x) < 31)%nat ∧ (∀ c, c ∈ show_body x → c ≠ 0 ∧ c ≠ 10).
Proof.
  destruct x as [[i addr] n]. intros (Hi & Ha & Hn).
  pose proof (digits_short 16 20 addr 7 (or_intror eq_refl)) as L1.
  pose proof (digits_short 10 20 n 9 (or_introl eq_refl)) as L2.
  change (16 ^ Z.of_nat 8) with 4294967296 in L1. change (10 ^ Z.of_nat 10) with 10000000000 in L2.
  specialize (L1 Ha). specialize (L2 ltac:(lia)).
  assert (∃ p, show_body (i, addr, n) = p ++ show_hex addr ++ [44] ++ show_num n ∧ length p = 3%nat ∧
    ∀ c, c ∈ p → c ≠ 0 ∧ c ≠ 10) as (p & -> & Hp & Hpc).
  { unfold show_body. eexists. split; [reflexivity|]. elem_cases Hi; (split; [done|]); intros c Hc; cbn in Hc; elem_cases Hc; done. }
  split; [unfold show_hex, show_num; rewrite !length_app, Hp; cbn [length]; lia|].
  intros c. rewrite !elem_of_app, list_elem_of_singleton. intros [Hc|[Hc|[->|Hc]]]; [by apply Hpc| |done|].
  - by apply (digits_plain 16 20 addr); [right|lia|].
  - by apply (show_num_plain n); [lia|].
Qed.

Lemma skip_spaces_idem s : skip_spaces (skip_spaces s) = skip_spaces s.
Proof. induction s as [|c s IH]; [done|]. simpl. destruct (isspace c) eqn:Ec; [done|]. simpl. by rewrite Ec. Qed.

Lemma scan_x_spaces s : scan_x (skip_spaces s) = scan_x s.
Proof. unfold scan_x, scan_ulong, scan_number. by rewrite skip_spaces_idem. Qed.

Lemma scan_trace_show x r : entry_ok x →
  scan_trace (show_body x) r =
    mk_replay (file_line r) (Some x.1.1) (Some x.1.2) (Some x.2).
Proof.
  destruct x as [[i addr] n]. intros (Hi & Ha & Hn). cbn [fst snd].
  assert (∀ k, scan_x (skip_spaces (replicate k 32 ++ show_hex addr ++ 44 :: show_num n))
    = Some (addr, 44 :: show_num n)) as Hx.
  { intros k. rewrite scan_x_spaces. unfold scan_x.
    assert (scan_ulong 16 (replicate k 32 ++ show_hex addr ++ 44 :: show_num n)
      = scan_ulong 16 (show_hex addr ++ 44 :: show_num n)) as ->.
    { induction k as [|k IH]; [done|]. exact IH. }
    unfold show_hex. rewrite scan_ulong_show; [|by right|unfold ULONG_MAX; lia|done].
    cbn [mbind option_bind]. by rewrite u32_small by lia. }
  assert (scan_d (show_num n) = Some (n, [])) as Hd.
  { unfold scan_d. rewrite <-(app_nil_r (show_num n)), scan_long_show by (done || unfold LONG_MAX; lia).
    cbn [mbind option_bind]. by rewrite i32_small by lia. }
  assert (∃ k, skip_spaces (show_body (i, addr, n)) = i :: replicate k 32 ++ show_hex addr ++ 44 :: show_num n)
    as [k Hk].
  { unfold show_body. elem_cases Hi; [exists 1%nat|exists 1%nat|exists 1%nat|exists 2%nat]; done. }
  unfold scan_trace. rewrite Hk, Hx. cbn [mbind option_bind]. rewrite Hd. by rewrite u32_small by lia.
Qed.

(** ** The loop *)

(** The line buffer never holds a newline between rounds. *)
Definition clean (buf : list (option Z)) : Prop := Some 10 ∉ buf.

Lemma strip_newline_ok l rest :
  (∀ c, c ∈ l → c ≠ 10) → strip_newline ((Some <$> (l ++ [10])) ++ rest) = Some ((Some <$> l) ++ Some 0 :: rest).
Proof.
  induction l as [|c l IH]; intros H; [done|].
  change (Some <$> (c :: l) ++ [10]) with (Some c :: (Some <$> l ++ [10])). cbn [app strip_newline].
  rewrite (proj2 (Z.eqb_neq c 10)) by (apply H; set_solver). rewrite IH by set_solver. done.
Qed.

Lemma strip_newline_clean buf : clean buf → strip_newline buf = None.
Proof.
  unfold clean. induction buf as [|[c|] buf IH]; intros H; [done| |done]. simpl.
  destruct (Z.eqb_spec c 10) as [->|]; [destruct H; set_solver|]. rewrite IH; [done|set_solver].
Qed.

Lemma line_str_ok l rest : (∀ c, c ∈ l → c ≠ 0) → line_str ((Some <$> l) ++ Some 0 :: rest) = l.
Proof.
  induction l as [|c l IH]; intros H; [done|].
  change (Some <$> c :: l) with (Some c :: (Some <$> l)). cbn [app line_str].
  rewrite (proj2 (Z.eqb_neq c 0)) by (apply H; set_solver). by rewrite IH by set_solver.
Qed.

Lemma clean_drop buf n : clean buf → clean (drop n buf).
Proof. unfold clean. intros H Hin. apply H. rewrite <-(take_drop n buf). set_solver. Qed.

Lemma clean_bytes l : (∀ c, c ∈ l → c ≠ 10) → clean (Some <$> l).
Proof. intros H (c & [= <-] & Hc)%list_elem_of_fmap. by apply (H 10). Qed.

Section run.
Context (v s' b' E' : Z) (G : geometry s' b' E').

Lemma log_rep ev c a : sim_rep v s' b' E' c a → sim_rep v s' b' E' (pr ev c) (log_event ev a).
Proof.
  intros R. destruct (sr_opts _ _ _ _ _ _ R) as (O1 & O2 & O3 & O4).
  pose proof (sr_log _ _ _ _ _ _ R) as Hl. unfold pr. rewrite O1.
  destruct (v =? 1) eqn:Hv; constructor; simpl; try apply R; rewrite ?Hv; try done. by rewrite Hl.
Qed.

Lemma access_total addr a : hits (lru_access s' b' E' addr a) + misses (lru_access s' b' E' addr a)
  = hits a + misses a + 1.
Proof. unfold lru_access. repeat case_decide; simpl; lia. Qed.

Lemma entry_total a x : hits a + misses a ≤ hits (lru_entry s' b' E' a x) + misses (lru_entry s' b' E' a x)
  ≤ hits a + misses a + 2.
Proof.
  destruct x as [[i addr] n]. unfold lru_entry.
  set (a1 := log_event (ELine i addr n) a).
  pose proof (access_total addr a1). pose proof (access_total addr (lru_access s' b' E' addr a1)).
  assert (hits a1 = hits a ∧ misses a1 = misses a) as [] by done.
  destruct (i =? 77); [simpl; lia|]. destruct ((i =? 76) || (i =? 83)); simpl; lia.
Qed.

(** One round of the loop. *)
Lemma entry_run x r c a :
  entry_ok x → sim_rep v s' b' E' c a → lru_counter c + 2 ≤ 2147483647 →
  instruction r = Some x.1.1 → address r = Some x.1.2 → size r = Some x.2 →
  ∃ c', (print_line r;; run_instruction r;; verbose ENewline) c = Ret tt c' ∧
    sim_rep v s' b' E' c' (lru_entry s' b' E' a x).
Proof.
  destruct x as [[i addr] n]. cbn [fst snd]. intros (Hi & Ha & Hn) R Hmax Ei Ea En.
  set (c1 := pr (ELine i addr n) c). set (a1 := log_event (ELine i addr n) a).
  assert (sim_rep v s' b' E' c1 a1) as R1 by by apply log_rep.
  assert (lru_counter c1 = lru_counter c) as Hc1 by (unfold c1, pr; by destruct (verbosity c =? 1)).
  assert (print_line r c = Ret tt c1) as Ep.
  { unfold print_line. rewrite Ei, Ea, En. unfold c1, pr. run (eq_refl (get c)).
    by destruct (verbosity c =? 1). }
  run Ep.
  assert (∃ c2, run_instruction r c1 = Ret tt c2 ∧ sim_rep v s' b' E' c2
    (if i =? 77 then lru_access s' b' E' addr (lru_access s' b' E' addr a1)
     else if (i =? 76) || (i =? 83) then lru_access s' b' E' addr a1 else a1)) as (c2 & E2 & R2).
  { unfold run_instruction. rewrite Ei, Ea. run (lift_Some _ _ c1 (eq_refl (Some i))).
    destruct (accessData_ok v s' b' E' G c1 a1 R1 ltac:(lia) addr ltac:(lia)) as (c2 & E2 & R2).
    destruct (i =? 77).
    - run (lift_Some _ _ c1 (eq_refl (Some addr))). run E2.
      apply (accessData_ok v s' b' E' G c2 _ R2); [|lia].
      rewrite (sr_lru _ _ _ _ _ _ R2). pose proof (access_total addr a1).
      pose proof (sr_lru _ _ _ _ _ _ R1). lia.
    - destruct ((i =? 76) || (i =? 83)); [|by exists c1].
      run (lift_Some _ _ c1 (eq_refl (Some addr))). by exists c2. }
  run E2. exists (pr ENewline c2). split; [done|]. by apply log_rep.
Qed.

(** The loop over a well-formed trace, followed by whatever else is in the file. *)
Lemma replay_lines tr rest fuel r c a :
  Forall entry_ok tr → sim_rep v s' b' E' c a → clean (file_line r) →
  lru_counter c + 2 * Z.of_nat (length tr) ≤ 2147483647 → (length (show_trace tr ++ rest) < fuel)%nat →
  ∃ fuel' r' c', replay_loop fuel (show_trace tr ++ rest) r c = replay_loop fuel' rest r' c' ∧
    sim_rep v s' b' E' c' (foldl (lru_entry s' b' E') a tr) ∧ clean (file_line r') ∧ (length rest < fuel')%nat.
Proof.
  intros Htr. revert fuel r c a. induction Htr as [|x tr Hx Htr IH]; intros fuel r c a R Hr Hmax Hf.
  { exists fuel, r, c. by split_and!. }
  destruct fuel as [|fuel]; [lia|]. destruct (show_body_ok x Hx) as [Hlen Hch].
  unfold show_trace in *. cbn [fmap list_fmap concat] in *. 
  change (show_entry x) with (show_body x ++ [10]) in Hf |- *.
  rewrite <-!app_assoc in Hf |- *. cbn [app] in Hf |- *. set (file := concat _ ++ rest) in *.
  cbn [replay_loop]. destruct (show_body x ++ 10 :: file) as [|f0 fs] eqn:Efile.
  { by destruct (show_body x). }
  rewrite <-Efile in *. clear Efile f0 fs. rewrite fgets_line by (done || intros c' Hc'; by apply Hch).
  set (buf := (Some <$> show_body x) ++ Some 0 :: Some 0 :: drop (S (length (show_body x ++ [10]))) (file_line r)).
  assert (strip_newline (fill_line (file_line r) (show_body x ++ [10])) = Some buf) as Eb.
  { apply strip_newline_ok. intros c' Hc'. by apply Hch. }
  run (lift_Some _ _ c Eb).
  assert (line_str buf = show_body x) as ->.
  { apply (line_str_ok (show_body x)). intros c' Hc'. by apply Hch. }
  rewrite scan_trace_show by done. cbn [file_line instruction address size]. cbv zeta.
  set (r1 := mk_replay buf _ _ _). cbn [length] in Hmax.
  destruct (entry_run x r1 c a Hx R) as (c1 & E1 & R1); [lia|done|done|done|].
  assert ((print_line r1;; run_instruction r1;; verbose ENewline;; replay_loop fuel file r1) c
    = replay_loop fuel file r1 c1) as ->.
  { unfold mbind, prog_bind in *. destruct (print_line r1 c) as [u1 g1|? ?| |]; try done.
    destruct (run_instruction r1 g1) as [u2 g2|? ?| |]; try done.
    destruct (verbose ENewline g2) as [u3 g3|? ?| |]; try done. by simplify_eq. }
  apply IH; [done| | |].
  - unfold r1, buf, clean. cbn [file_line].
    intros [Hc|[Hc|[Hc|Hc]%elem_of_cons]%elem_of_cons]%elem_of_app; try done.
    + revert Hc. apply clean_bytes. intros c' Hc'. by apply Hch.
    + by revert Hc; apply clean_drop.
  - rewrite (sr_lru _ _ _ _ _ _ R1). pose proof (sr_lru _ _ _ _ _ _ R). pose proof (entry_total a x). lia.
  - rewrite length_app in Hf. simpl in Hf. lia.
Qed.
End run.

(** ** The whole program *)

Definition args (s b E : Z) (verbose : bool) (name : list Z) : list opt :=
  [(115, show_num s); (69, show_num E); (98, show_num b); (116, name)] ++
  if verbose then [(118, [])] else [].

Lemma parse_args_ok s b E (vb : bool) name : geometry s b E →
  parse_args (args s b E vb name) (mk_options 0 0 0 0 None) =
    Ret tt (mk_options s E b (if vb then 1 else 0) (Some name)).
Proof.
  intros (G1 & G2 & G3). unfold parse_args.
  assert (for_each (args s b E vb name) parse_opt (mk_options 0 0 0 0 None) =
    Ret tt (mk_options (atoi (show_num s)) (atoi (show_num E)) (atoi (show_num b)) (if vb then 1 else 0)
      (Some name))) as Ep by by destruct vb.
  run Ep. rewrite !atoi_show by lia. run (eq_refl (get (mk_options s E b (if vb then 1 else 0) (Some name)))).
  cbn [opt_s opt_E opt_b trace_file]. by rewrite !(proj2 (Z.eqb_neq _ 0)) by lia.
Qed.

Lemma pow2_ok n : 0 < n < 32 → pow2 n = Some (2 ^ n).
Proof. intros Hn. unfold pow2. by rewrite (proj2 (Z.ltb_ge _ _)), (proj2 (Z.ltb_lt _ _)) by lia. Qed.

Lemma Forall2_replicate_2 {A B} (P : A → B → Prop) n x y : P x y → Forall2 P (replicate n x) (replicate n y).
Proof. intros H. induction n; by constructor. Qed.

Lemma init_rep v s b E : geometry s b E →
  sim_rep v s b E
    (mk_sim (replicate (Z.to_nat (2 ^ s)) (replicate (Z.to_nat E) (mk_line 0 0 0))) v s b E (2 ^ s) 0 0 0 1 [])
    (lru_init s).
Proof.
  intros (G1 & G2 & G3). constructor; simpl; try done; try lia.
  - rewrite length_replicate. rewrite Z2Nat.id; [done|]. apply Z.pow_nonneg. lia.
  - apply Forall2_replicate_2. split; [apply length_replicate|]. exists []. constructor.
    + intros i ln [-> _]%lookup_replicate. by left.
    + intros i. split; [by intros ?%not_elem_of_nil|]. intros (ln & [-> _]%lookup_replicate & ?). done.
    + constructor.
    + constructor.
    + constructor.
    + constructor.
    + by intros i ?%not_elem_of_nil.
  - by destruct (v =? 1).
Qed.

(** [main] up to the loop. *)
Lemma main_loop fopen s' b' E' (vb : bool) name file : geometry s' b' E' → fopen name = Some file →
  ∃ c, sim_rep (if vb then 1 else 0) s' b' E' c (lru_init s') ∧ lru_counter c = 1 ∧
    main fopen (args s' b' E' vb name) =
      (replay_loop (S (length file)) file (mk_replay (replicate 32 None) None None None);;
       c ← get; mret (hit_count c, miss_count c, eviction_count c)) c.
Proof.
  intros Hg Hf. eexists. split; [by apply init_rep|]. split; [done|].
  unfold main. rewrite parse_args_ok by done. destruct Hg as (G1 & G2 & G3).
  assert (i32 (2 ^ s') = 2 ^ s') as Hi.
  { apply i32_small. assert (0 < 2 ^ s') by (apply Z.pow_pos_nonneg; lia).
    assert (2 ^ s' ≤ 2 ^ 30) by (apply Z.pow_le_mono_r; lia). change (2 ^ 30) with 1073741824 in *. lia. }
  unfold simulate. cbn [opt_s opt_b opt_v opt_E trace_file]. rewrite Hf. set (sim0 := mk_sim _ _ _ _ _ _ _ _ _ _ _).
  run (lift_Some _ _ sim0 (pow2_ok s' ltac:(lia))). run (lift_Some _ _ sim0 (pow2_ok b' ltac:(lia))).
  run (eq_refl (modify _ sim0)). unfold initCache. rewrite Hi.
  by run (eq_refl (modify _ (mk_sim [] (if vb then 1 else 0) s' b' E' (2 ^ s') 0 0 0 1 []))).
Qed.

(** ** Associativity: what more lines per set change *)

Lemma filter_take (l : list Z) n t : NoDup l → t ∈ take n l →
  filter (λ u, u ≠ t) (take n l) = take (n - 1) (filter (λ u, u ≠ t) l).
Proof.
  intros Hnd Hin. apply list_elem_of_split in Hin as (r1 & r2 & Et).
  assert (l = r1 ++ t :: (r2 ++ drop n l)) as El.
  { rewrite <-(take_drop n l) at 1. by rewrite Et, <-app_assoc. }
  assert (t ∉ r1 ++ (r2 ++ drop n l)) as Hout.
  { rewrite El in Hnd. rewrite <-Permutation_middle in Hnd. by apply NoDup_cons in Hnd as [? _]. }
  assert (filter (λ u, u ≠ t) l = r1 ++ (r2 ++ drop n l)) as ->.
  { rewrite El at 1. by rewrite filter_out. }
  rewrite Et, filter_out by set_solver. pose proof (f_equal length Et) as Hl.
  rewrite length_take, !length_app in Hl. cbn [length] in Hl. rewrite app_assoc.
  destruct (decide (n ≤ length l)%nat).
  - rewrite <-(take_app_length (r1 ++ r2) (drop n l)) at 1. f_equal. rewrite length_app. lia.
  - rewrite drop_ge, app_nil_r by lia. symmetry. apply take_ge. rewrite length_app. lia.
Qed.

Lemma touch_take (E1 E2 : nat) t row :
  (0 < E1 ≤ E2)%nat → NoDup row →
  lru_touch E1 t (take E1 row) = take E1 (lru_touch E2 t row) ∧ (t ∈ take E1 row → t ∈ row).
Proof.
  intros HE Hnd.
  assert (t ∈ take E1 row → t ∈ row) as Hsub.
  { intros Hin. rewrite <-(take_drop E1 row). set_solver. }
  split; [|done]. unfold lru_touch. destruct E1 as [|E1]; [lia|].
  destruct (decide (t ∈ take (S E1) row)) as [Hin|Hout].
  - rewrite decide_True by auto. rewrite firstn_cons. f_equal.
    rewrite filter_take by done. f_equal. lia.
  - rewrite take_take. replace (S E1 - 1 `min` S E1)%nat with E1 by lia.
    destruct (decide (t ∈ row)) as [Hin'|Hout'].
    + rewrite firstn_cons. f_equal. rewrite <-(take_drop (S E1) row) in Hin', Hnd.
      apply elem_of_app in Hin' as [?|Hd]; [done|].
      rewrite <-(take_drop (S E1) row) at 2. rewrite filter_app, (filter_keep (take (S E1) row)) by done.
      rewrite take_app_le; [rewrite take_take; f_equal; lia|].
      rewrite length_take. apply list_elem_of_lookup in Hd as [j Hj]. rewrite lookup_drop in Hj.
      apply lookup_lt_Some in Hj. lia.
    + rewrite firstn_cons, take_take. do 2 f_equal. lia.
Qed.

(** Fewer lines hold a prefix of what more lines hold. *)
Definition row_prefix (E1 : Z) (r1 r2 : list Z) : Prop := r1 = take (Z.to_nat E1) r2 ∧ NoDup r2.
Definition fewer (E1 : Z) (a1 a2 : lru) : Prop :=
  Forall2 (row_prefix E1) (rows a1) (rows a2) ∧
  hits a1 + misses a1 = hits a2 + misses a2 ∧ misses a2 ≤ misses a1.

Lemma touch_NoDup E t row : NoDup row → NoDup (lru_touch E t row).
Proof.
  intros Hnd. unfold lru_touch. case_decide as Ht.
  - apply NoDup_cons. split; [intros [H _]%list_elem_of_filter; done|]. by apply NoDup_filter.
  - apply NoDup_cons. split.
    + intros H. apply Ht. rewrite <-(take_drop (E - 1) row). set_solver.
    + rewrite <-(take_drop (E - 1) row) in Hnd. by apply NoDup_app in Hnd as [? _].
Qed.

Lemma access_fewer s b E1 E2 addr a1 a2 : 0 < E1 ≤ E2 → fewer E1 a1 a2 →
  fewer E1 (lru_access s b E1 addr a1) (lru_access s b E2 addr a2).
Proof.
  intros HE (Hr & Hs & Hm). set (k := Z.to_nat (set_of s b addr)). set (t := tag_of s b addr).
  assert (row_prefix E1 (default [] (rows a1 !! k)) (default [] (rows a2 !! k))) as [H1 H2].
  { destruct (rows a1 !! k) as [r1|] eqn:Er1.
    - destruct (Forall2_lookup_l _ _ _ _ _ Hr Er1) as (r2 & -> & ?). done.
    - apply lookup_ge_None in Er1. rewrite (Forall2_length _ _ _ Hr) in Er1.
      apply lookup_ge_None in Er1 as ->. split; [by destruct (Z.to_nat E1)|constructor]. }
  set (r1 := default [] (rows a1 !! k)) in *. set (r2 := default [] (rows a2 !! k)) in *.
  destruct (touch_take (Z.to_nat E1) (Z.to_nat E2) t r2) as [Ht Hin]; [lia|done|]. rewrite <-H1 in Ht, Hin.
  assert (Forall2 (row_prefix E1) (<[k := lru_touch (Z.to_nat E1) t r1]> (rows a1))
    (<[k := lru_touch (Z.to_nat E2) t r2]> (rows a2))) as Hr'.
  { apply Forall2_insert; [done|]. split; [done|by apply touch_NoDup]. }
  unfold lru_access. fold k t r1 r2. repeat case_decide; split_and!; simpl; try done; try lia.
  all: by exfalso; auto.
Qed.

Lemma run_fewer s b E1 E2 tr : 0 < E1 ≤ E2 → fewer E1 (lru_run s b E1 tr) (lru_run s b E2 tr).
Proof.
  intros HE. unfold lru_run.
  assert (fewer E1 (lru_init s) (lru_init s)) as H0.
  { split_and!; simpl; [|lia|lia]. apply Forall2_replicate_2. split; [by destruct (Z.to_nat E1)|constructor]. }
  revert H0. generalize (lru_init s) at 1 3. generalize (lru_init s). intros a2 a1. revert a1 a2.
  induction tr as [|[[i addr] n] tr IH]; intros a1 a2 H; [done|]. simpl. apply IH.
  destruct (i =? 77); [by apply (access_fewer s b E1 E2), (access_fewer s b E1 E2)|].
  by destruct ((i =? 76) || (i =? 83)); [apply (access_fewer s b E1 E2)|].
Qed.

(** ** Properties *)

Section theorems.
Context (fopen : list Z → option (list Z)) (name : list Z).

(** The counters of an [int] are enough for a trace of this length. *)
Definition trace_ok (tr : list entry) : Prop :=
  Forall entry_ok tr ∧ 1 + 2 * Z.of_nat (length tr) ≤ 2147483647.

Lemma main_run s' b' E' (vb : bool) tr rest :
  geometry s' b' E' → trace_ok tr → fopen name = Some (show_trace tr ++ rest) →
  ∃ fuel r c, sim_rep (if vb then 1 else 0) s' b' E' c (lru_run s' b' E' tr) ∧ clean (file_line r) ∧
    (length rest < fuel)%nat ∧
    main fopen (args s' b' E' vb name) =
      (replay_loop fuel rest r;; c ← get; mret (hit_count c, miss_count c, eviction_count c)) c.
Proof.
  intros Hg [Htr Hlen] Hf. destruct (main_loop fopen s' b' E' vb name _ Hg Hf) as (c & R & Hc & ->).
  destruct (replay_lines _ s' b' E' Hg tr rest (S (length (show_trace tr ++ rest)))
    (mk_replay (replicate 32 None) None None None) c (lru_init s') Htr R)
    as (fuel & r & c1 & Er & R1 & Hr & Hfu); [|lia|lia|].
  { unfold clean. by intros [? _]%elem_of_replicate. }
  exists fuel, r, c1. split_and!; [done|done|done|]. unfold mbind, prog_bind. by rewrite Er.
Qed.

Lemma main_counts s' b' E' vb tr :
  geometry s' b' E' → trace_ok tr → fopen name = Some (show_trace tr) →
  let a := lru_run s' b' E' tr in
  ∃ c, main fopen (args s' b' E' vb name) = Ret (hits a, misses a, evictions a) c ∧
    printed c = if vb then log a else [].
Proof.
  intros Hg Htr Hf a. rewrite <-(app_nil_r (show_trace tr)) in Hf.
  destruct (main_run s' b' E' vb tr [] Hg Htr Hf) as (fuel & r & c & R & _ & Hfu & ->).
  destruct fuel; [simpl in Hfu; lia|]. exists c.
  destruct (sr_counts _ _ _ _ _ _ R) as (H1 & H2 & H3). pose proof (sr_log _ _ _ _ _ _ R) as Hl.
  unfold a. rewrite <-H1, <-H2, <-H3. split; [done|]. rewrite Hl. by destruct vb.
Qed.

(** C9: The program simulates an LRU cache.  For every geometry the command
    line can ask for (at most 30 index bits) and every well-formed trace of
    loads, stores, modifies and instruction fetches, [main] parses its options
    and the trace file and prints the hits, misses and evictions of a cache
    whose sets are recency lists of at most [E] tags: a hit moves the tag to the
    front, a miss in a full set drops the last one.  In verbose mode the events
    of every access are printed in order. *)
Theorem csim_lru s b E vb tr :
  geometry s b E → trace_ok tr → fopen name = Some (show_trace tr) →
  let a := lru_run s b E tr in
  ∃ c, main fopen (args s b E vb name) = Ret (hits a, misses a, evictions a) c ∧
    printed c = if vb then log a else [].
Proof. apply main_counts. Qed.

(** More lines per set never cost misses: on the same trace with the same
    sets, a simulation with at least as many lines reports at most as many
    misses, and the same number of accesses. *)
Theorem csim_inclusion s b E1 E2 vb tr h1 m1 e1 c1 h2 m2 e2 c2 :
  geometry s b E1 → geometry s b E2 → E1 ≤ E2 → trace_ok tr → fopen name = Some (show_trace tr) →
  main fopen (args s b E1 vb name) = Ret (h1, m1, e1) c1 →
  main fopen (args s b E2 vb name) = Ret (h2, m2, e2) c2 →
  m2 ≤ m1 ∧ h1 + m1 = h2 + m2.
Proof.
  intros Hg1 Hg2 HE Htr Hf R1 R2.
  destruct (main_counts s b E1 vb tr Hg1 Htr Hf) as (c1' & Q1 & _).
  destruct (main_counts s b E2 vb tr Hg2 Htr Hf) as (c2' & Q2 & _).
  rewrite R1 in Q1. rewrite R2 in Q2. simplify_eq.
  destruct (run_fewer s b E1 E2 tr) as (_ & H1 & H2); [destruct Hg1 as (_ & _ & ?); lia|lia].
Qed.

(** A trace file that does not end in a newline is undefined behaviour,
    however correct the lines before: the loop that looks for the newline of the
    last line runs past what [fgets] wrote, into bytes never initialised. *)
Theorem csim_unterminated s b E vb tr l :
  geometry s b E → trace_ok tr → l ≠ [] → (∀ c, c ∈ l → c ≠ 10) →
  fopen name = Some (show_trace tr ++ l) →
  main fopen (args s b E vb name) = Undef.
Proof.
  intros Hg Htr Hl Hc Hf. destruct (main_run s b E vb tr l Hg Htr Hf) as (fuel & r & c & R & Hr & Hfu & ->).
  destruct fuel as [|fuel]; [lia|]. cbn [replay_loop]. destruct l as [|c0 l]; [done|].
  destruct (fgets 31 (c0 :: l)) as [l1 rest] eqn:Eg.
  assert (∀ c, c ∈ l1 → c ≠ 10) as Hl1.
  { intros x Hx. apply Hc. pose proof (fgets_app 31 (c0 :: l)) as Ha. rewrite Eg in Ha. rewrite <-Ha. set_solver. }
  unfold mbind, prog_bind. rewrite strip_newline_clean; [done|].
  unfold fill_line, clean. intros [H|[H|H]%elem_of_cons]%elem_of_app; [by eapply clean_bytes|done|].
  revert H. by apply clean_drop.
Qed.
End theorems.

(** Addresses are read into an [unsigned int]: of the 64-bit addresses of
    the trace format only the low 32 bits count, and a load at 2^32 + 16 makes
    the following load at 16 a hit. *)
Theorem csim_address_truncated :
  match main (λ _, Some ([32; 76; 32] ++ show_hex 4294967312 ++ [44; 49; 10] ++ show_entry (76, 16, 1)))
    (args 1 4 2 false []) with
  | Ret counts _ => counts = (1, 1, 0)
  | _ => False
  end.
Proof. by vm_compute. Qed.

(** ** Witnesses *)

Definition demo_trace : list entry :=
  [(76, 16, 1); (77, 32, 1); (83, 64, 4); (73, 4096, 8); (76, 16, 1); (76, 272, 8); (76, 16, 1)].
Definition demo_fopen (file : list Z) (_ : list Z) : option (list Z) := Some file.

Lemma demo_trace_ok : trace_ok demo_trace.
Proof. split; [|done]. by repeat (apply Forall_cons; split; [split; [set_solver|done]|]). Qed.

Lemma csim_lru_witness :
  ∃ c, main (demo_fopen (show_trace demo_trace)) (args 4 4 1 true []) = Ret (2, 5, 2) c ∧
    printed c = log (lru_run 4 4 1 demo_trace).
Proof.
  apply (csim_lru (demo_fopen (show_trace demo_trace)) [] 4 4 1 true demo_trace);
    [done|apply demo_trace_ok|done].
Defined.

Lemma csim_inclusion_witness : ∃ c1 c2,
  main (demo_fopen (show_trace demo_trace)) (args 4 4 1 false []) = Ret (2, 5, 2) c1 ∧
  main (demo_fopen (show_trace demo_trace)) (args 4 4 2 false []) = Ret (3, 4, 0) c2 ∧ 4 ≤ 5 ∧ 2 + 5 = 3 + 4.
Proof.
  eexists _, _. split; [by vm_compute|]. split; [by vm_compute|].
  eapply (csim_inclusion (demo_fopen (show_trace demo_trace)) [] 4 4 1 2 false demo_trace 2 5 2 _ 3 4 0 _);
    [done|done|lia|apply demo_trace_ok|done|by vm_compute|by vm_compute].
Defined.

Lemma csim_unterminated_witness :
  main (demo_fopen (show_trace demo_trace ++ show_body (76, 16, 1))) (args 4 4 1 false []) = Undef.
Proof.
  apply (csim_unterminated _ _ 4 4 1 false demo_trace (show_body (76, 16, 1)));
    [done|apply demo_trace_ok|done| |done].
  intros c Hc. apply (show_body_ok (76, 16, 1)); [split; [set_solver|done]|done].
Defined.
