(* ===== verification/Museum.v ===== *)
(** * The museum simulation

    CS1550 project 2: museumsim.c synchronises visitor and guide threads with one
    mutex and four condition variables; main.c runs the threads and checks, in
    the callbacks the threads make, that the rules of the museum are kept.

    A thread holds the mutex from [pthread_mutex_lock], or from its return from
    [pthread_cond_wait], to [pthread_mutex_unlock], or to its next
    [pthread_cond_wait]; what it does in between is one step here, and any
    interleaving of the steps of all threads is allowed.  A sleeping thread may
    also wake up without a signal: guides look at their condition again, a
    visitor goes on uninvited.  The program counters
    say where a thread is and on which condition variable it sleeps.  Output and
    delays are left out. *)
From S2P Require Import Prelude.
Open Scope Z_scope.

Definition VISITORS_PER_GUIDE : Z := 10.
Definition GUIDES_ALLOWED_INSIDE : Z := 2.

(** ** Data *)

(** Where a visitor is: before [visitor], asleep on [visitor_can_enter], woken
    up, before [visitor_tours], touring, turned away, gone. *)
Inductive vpc := VStart | VWait | VWoken | VTour | VTouring | VAway | VLeft.

(** Where a guide is, with its local [visitors_served]: before [guide], asleep on
    [guide_can_enter], woken up; before the next visitor, asleep on
    [visitors_are_waiting], woken up; before leaving, asleep on
    [guide_can_leave], woken up; gone. *)
Inductive gpc :=
| GStart | GWaitEnter | GWokenEnter
| GServe (served : Z) | GWaitVisitors (served : Z) | GWokenVisitors (served : Z)
| GLeave (served : Z) | GWaitLeave (served : Z) | GWokenLeave (served : Z)
| GGone (served : Z).

#[export] Instance vpc_eq_dec : EqDecision vpc.
Proof. solve_decision. Defined.
#[export] Instance gpc_eq_dec : EqDecision gpc.
Proof. solve_decision. Defined.

(** main.c: what the checks know of a visitor and of a guide. *)
Record visitor_sim := mk_vsim { v_arrived : bool; v_may_enter : bool; v_may_leave : bool }.
Record guide_sim := mk_gsim {
  g_arrived : bool; g_left : bool; g_may_enter : bool; g_may_admit : bool; served_so_far : Z
}.
(** The errors the checks report, with the thread. *)
Inductive sim_error :=
| ArrivedTwice (id : nat) | EnteredWithoutTicket (id : nat) | TooManyVisitors (id : nat) | LeftTwice (id : nat)
| GuideArrivedTwice (id : nat) | GuideNotAllowedYet (id : nat) | GuideEnteredTwice (id : nat) | TooManyGuides (id : nat)
| NobodyWaiting (id : nat) | GuideNotInside (id : nat) | ServedTooMany (id : nat)
| VisitorsStillInside (id : nat) | GuideLeftTwice (id : nat) | GuideLeftEarly (id : nat)
| TicketsRemaining | VisitorsWaiting | GuidesInside | NeverArrived (id : nat) | GuideNeverArrived (id : nat).
#[export] Instance sim_error_eq_dec : EqDecision sim_error.
Proof. solve_decision. Defined.

Record simulation := mk_sim {
  s_visitors : list visitor_sim;
  s_guides : list guide_sim;
  tickets_remaining : Z;
  s_visitors_inside : Z;
  s_visitors_waiting : Z;
  s_guides_inside : Z;
  guides_may_enter : bool;
  errors : list sim_error
}.

(** [struct shared_data], the threads and the checks. *)
Record museum := mk_museum {
  tickets : Z;
  guides_inside : Z;
  visitors_inside : Z;
  visitors_waiting : Z;
  visitors : list vpc;
  guides : list gpc;
  sim : simulation
}.

(** ** Assignments *)

Definition set_tickets (f : Z → Z) (m : museum) : museum :=
  mk_museum (f (tickets m)) (guides_inside m) (visitors_inside m) (visitors_waiting m) (visitors m) (guides m) (sim m).
Definition set_guides_inside (f : Z → Z) (m : museum) : museum :=
  mk_museum (tickets m) (f (guides_inside m)) (visitors_inside m) (visitors_waiting m) (visitors m) (guides m) (sim m).
Definition set_visitors_inside (f : Z → Z) (m : museum) : museum :=
  mk_museum (tickets m) (guides_inside m) (f (visitors_inside m)) (visitors_waiting m) (visitors m) (guides m) (sim m).
Definition set_visitors_waiting (f : Z → Z) (m : museum) : museum :=
  mk_museum (tickets m) (guides_inside m) (visitors_inside m) (f (visitors_waiting m)) (visitors m) (guides m) (sim m).
Definition set_visitors (l : list vpc) (m : museum) : museum :=
  mk_museum (tickets m) (guides_inside m) (visitors_inside m) (visitors_waiting m) l (guides m) (sim m).
Definition set_guides (l : list gpc) (m : museum) : museum :=
  mk_museum (tickets m) (guides_inside m) (visitors_inside m) (visitors_waiting m) (visitors m) l (sim m).
Definition set_sim (s : simulation) (m : museum) : museum :=
  mk_museum (tickets m) (guides_inside m) (visitors_inside m) (visitors_waiting m) (visitors m) (guides m) s.

(** A thread goes on elsewhere. *)
Definition goto_v (i : nat) (pc : vpc) : prog museum unit := modify (λ m, set_visitors (<[i := pc]> (visitors m)) m).
Definition goto_g (i : nat) (pc : gpc) : prog museum unit := modify (λ m, set_guides (<[i := pc]> (guides m)) m).

(** ** The condition variables *)

(** [pthread_cond_broadcast] wakes every thread asleep on the variable. *)
Definition wake_visitors_are_waiting (pc : gpc) : gpc :=
  match pc with GWaitVisitors n => GWokenVisitors n | _ => pc end.
Definition broadcast_visitors_are_waiting : prog museum unit :=
  modify (λ m, set_guides (wake_visitors_are_waiting <$> guides m) m).
Definition wake_guide_can_leave (pc : gpc) : gpc :=
  match pc with GWaitLeave n => GWokenLeave n | _ => pc end.
Definition broadcast_guide_can_leave : prog museum unit :=
  modify (λ m, set_guides (wake_guide_can_leave <$> guides m) m).

(** [pthread_cond_signal] wakes one of them, [pick], if there is one. *)
Definition signal_visitor_can_enter (pick : option nat) : prog museum unit :=
  updates (λ m, match pick with
                | Some j => if decide (visitors m !! j = Some VWait)
                            then Some (set_visitors (<[j := VWoken]> (visitors m)) m) else None
                | None => if decide (VWait ∈ visitors m) then None else Some m
                end).
Definition signal_guide_can_enter (pick : option nat) : prog museum unit :=
  updates (λ m, match pick with
                | Some j => if decide (guides m !! j = Some GWaitEnter)
                            then Some (set_guides (<[j := GWokenEnter]> (guides m)) m) else None
                | None => if decide (GWaitEnter ∈ guides m) then None else Some m
                end).

(** ** The callbacks of main.c *)

Section callbacks.
Implicit Types (s : simulation).

Definition put_vsims (l : list visitor_sim) s : simulation :=
  mk_sim l (s_guides s) (tickets_remaining s) (s_visitors_inside s) (s_visitors_waiting s) (s_guides_inside s)
    (guides_may_enter s) (errors s).
Definition put_gsims (l : list guide_sim) s : simulation :=
  mk_sim (s_visitors s) l (tickets_remaining s) (s_visitors_inside s) (s_visitors_waiting s) (s_guides_inside s)
    (guides_may_enter s) (errors s).
Definition put_counters (t vi vw gi : Z → Z) s : simulation :=
  mk_sim (s_visitors s) (s_guides s) (t (tickets_remaining s)) (vi (s_visitors_inside s)) (vw (s_visitors_waiting s))
    (gi (s_guides_inside s)) (guides_may_enter s) (errors s).
Definition put_may_enter (b : bool) s : simulation :=
  mk_sim (s_visitors s) (s_guides s) (tickets_remaining s) (s_visitors_inside s) (s_visitors_waiting s) (s_guides_inside s)
    b (errors s).
Definition put_error (e : sim_error) s : simulation :=
  mk_sim (s_visitors s) (s_guides s) (tickets_remaining s) (s_visitors_inside s) (s_visitors_waiting s) (s_guides_inside s)
    (guides_may_enter s) (errors s ++ [e]).

Definition get_vsim (id : nat) : prog simulation visitor_sim := reads (λ s, s_visitors s !! id).
Definition set_vsim (id : nat) (v : visitor_sim) : prog simulation unit :=
  updates (λ s, _ ← s_visitors s !! id; Some (put_vsims (<[id := v]> (s_visitors s)) s)).
Definition get_gsim (id : nat) : prog simulation guide_sim := reads (λ s, s_guides s !! id).
Definition set_gsim (id : nat) (g : guide_sim) : prog simulation unit :=
  updates (λ s, _ ← s_guides s !! id; Some (put_gsims (<[id := g]> (s_guides s)) s)).

(** [if (b) error(...)] *)
Definition check (b : bool) (e : sim_error) : prog simulation unit :=
  if b then modify (put_error e) else mret tt.

Definition visitor_arrives (id : nat) : prog simulation unit :=
  s ← get;
  (if tickets_remaining s >? 0
   then modify (put_counters (λ t, t - 1) (λ z, z) (λ w, w + 1) (λ z, z)) else mret tt);;
  v ← get_vsim id;
  check (v_arrived v) (ArrivedTwice id);;
  set_vsim id (mk_vsim true true true).

Definition visitor_tours (id : nat) : prog simulation unit :=
  modify (put_counters (λ z, z) (λ n, n + 1) (λ z, z) (λ z, z));;
  v ← get_vsim id;
  check (negb (v_may_enter v)) (EnteredWithoutTicket id);;
  s ← get;
  check (s_visitors_inside s >? s_guides_inside s * VISITORS_PER_GUIDE) (TooManyVisitors id);;
  set_vsim id (mk_vsim (v_arrived v) false (v_may_leave v)).

Definition visitor_leaves (id : nat) : prog simulation unit :=
  modify (put_counters (λ z, z) (λ n, n - 1) (λ z, z) (λ z, z));;
  v ← get_vsim id;
  check (negb (v_may_leave v)) (LeftTwice id);;
  set_vsim id (mk_vsim (v_arrived v) (v_may_enter v) false).

Definition guide_arrives (id : nat) : prog simulation unit :=
  g ← get_gsim id;
  check (g_arrived g) (GuideArrivedTwice id);;
  set_gsim id (mk_gsim true (g_left g) true (g_may_admit g) (served_so_far g)).

Definition guide_enters (id : nat) : prog simulation unit :=
  g ← get_gsim id;
  modify (put_counters (λ z, z) (λ z, z) (λ z, z) (λ n, n + 1));;
  s ← get;
  check (negb (guides_may_enter s)) (GuideNotAllowedYet id);;
  check (negb (g_may_enter g)) (GuideEnteredTwice id);;
  check (s_guides_inside s >? GUIDES_ALLOWED_INSIDE) (TooManyGuides id);;
  (if s_guides_inside s =? GUIDES_ALLOWED_INSIDE then modify (put_may_enter false) else mret tt);;
  set_gsim id (mk_gsim (g_arrived g) (g_left g) false true (served_so_far g)).

Definition guide_admits (id : nat) : prog simulation unit :=
  g ← get_gsim id;
  s ← get;
  check (s_visitors_waiting s =? 0) (NobodyWaiting id);;
  check (negb (g_may_admit g)) (GuideNotInside id);;
  check (served_so_far g + 1 >? VISITORS_PER_GUIDE) (ServedTooMany id);;
  set_gsim id (mk_gsim (g_arrived g) (g_left g) (g_may_enter g) (g_may_admit g) (served_so_far g + 1));;
  modify (put_counters (λ z, z) (λ z, z) (λ w, w - 1) (λ z, z)).

Definition guide_leaves (id : nat) : prog simulation unit :=
  modify (put_counters (λ z, z) (λ z, z) (λ z, z) (λ n, n - 1));;
  s ← get; g ← get_gsim id;
  check (s_visitors_inside s >? 0) (VisitorsStillInside id);;
  check (g_left g) (GuideLeftTwice id);;
  check (negb ((tickets_remaining s =? 0) && (s_visitors_waiting s =? 0) || (served_so_far g =? VISITORS_PER_GUIDE)))
    (GuideLeftEarly id);;
  (if s_guides_inside s =? 0 then modify (put_may_enter true) else mret tt);;
  set_gsim id (mk_gsim (g_arrived g) true (g_may_enter g) false (served_so_far g)).

(** [init_simulation_state] and the checks of [free_simulation_state]. *)
Definition MIN (x y : Z) : Z := if x <? y then x else y.
Definition init_simulation_state (num_guides num_visitors : nat) : simulation :=
  mk_sim (replicate num_visitors (mk_vsim false false false)) (replicate num_guides (mk_gsim false false false false 0))
    (MIN (VISITORS_PER_GUIDE * Z.of_nat num_guides) (Z.of_nat num_visitors)) 0 0 0 true [].

Definition free_simulation_state : prog simulation unit :=
  s ← get;
  check (tickets_remaining s >? 0) TicketsRemaining;;
  check (s_visitors_waiting s >? 0) VisitorsWaiting;;
  check ((s_guides_inside s >? 0) || negb (guides_may_enter s)) GuidesInside;;
  for_each (seq 0 (length (s_visitors s))) (λ i, v ← get_vsim i; check (negb (v_arrived v)) (NeverArrived i));;
  for_each (seq 0 (length (s_guides s))) (λ i, g ← get_gsim i; check (negb (g_arrived g)) (GuideNeverArrived i)).
End callbacks.

Definition callback (c : prog simulation unit) : prog museum unit := zoom sim set_sim c.

(** ** museumsim.c *)

(** [museum_init]: the product is an [int]. *)
Definition museum_init (num_guides num_visitors : nat) : option museum :=
  if VISITORS_PER_GUIDE * Z.of_nat num_guides <? 2147483648
  then Some (mk_museum (MIN (VISITORS_PER_GUIDE * Z.of_nat num_guides) (Z.of_nat num_visitors)) 0 0 0
               (replicate num_visitors VStart) (replicate num_guides GStart)
               (init_simulation_state num_guides num_visitors))
  else None.

(** One turn of the loop of [visitor]: it tells the guides and sleeps. *)
Definition wait_for_admission (i : nat) : prog museum unit :=
  broadcast_visitors_are_waiting;; goto_v i VWait.

(** [visitor], from the lock to the first sleep. *)
Definition visitor_arrival (i : nat) : prog museum unit :=
  callback (visitor_arrives i);;
  m ← get;
  if tickets m >? 0
  then
    modify (set_tickets (λ t, t - 1));;
    modify (set_visitors_waiting (λ w, w + 1));;
    wait_for_admission i
  else callback (visitor_leaves i);; goto_v i VAway.

(** Back from the sleep: the condition of the loop. *)
Definition visitor_admission (i : nat) : prog museum unit :=
  m ← get;
  if visitors_inside m >? VISITORS_PER_GUIDE * guides_inside m
  then wait_for_admission i
  else goto_v i VTour.

Definition visitor_tour (i : nat) : prog museum unit :=
  callback (visitor_tours i);; goto_v i VTouring.

Definition visitor_exit (i : nat) : prog museum unit :=
  modify (set_visitors_inside (λ n, n - 1));;
  broadcast_guide_can_leave;;
  callback (visitor_leaves i);; goto_v i VLeft.

Definition visitor (i : nat) : prog museum unit :=
  pc ← reads (λ m, visitors m !! i);
  match pc with
  | VStart => visitor_arrival i
  | VWoken => visitor_admission i
  | VTour => visitor_tour i
  | VTouring => visitor_exit i
  | VWait | VAway | VLeft => undef
  end.

(** [guide], up to its entry. *)
Definition guide_entry (i : nat) : prog museum unit :=
  m ← get;
  if guides_inside m >=? GUIDES_ALLOWED_INSIDE then goto_g i GWaitEnter
  else
    callback (guide_enters i);;
    modify (set_guides_inside (λ n, n + 1));;
    goto_g i (GServe 0).
Definition guide_arrival (i : nat) : prog museum unit :=
  callback (guide_arrives i);; guide_entry i.

(** One turn of the loop that serves visitors. *)
Definition guide_serve (i : nat) (served : Z) (pick : option nat) : prog museum unit :=
  m ← get;
  if visitors_waiting m <=? 0
  then if tickets m <=? 0 then goto_g i (GLeave served) else goto_g i (GWaitVisitors served)
  else
    modify (set_visitors_waiting (λ w, w - 1));;
    modify (set_visitors_inside (λ n, n + 1));;
    callback (guide_admits i);;
    signal_visitor_can_enter pick;;
    goto_g i (if served + 1 <? VISITORS_PER_GUIDE then GServe (served + 1) else GLeave (served + 1)).

Definition guide_exit (i : nat) (served : Z) (pick : option nat) : prog museum unit :=
  m ← get;
  if visitors_inside m >? 0 then goto_g i (GWaitLeave served)
  else
    callback (guide_leaves i);;
    modify (set_guides_inside (λ n, n - 1));;
    m ← get;
    (if guides_inside m =? 0 then signal_guide_can_enter pick else mret tt);;
    broadcast_guide_can_leave;;
    goto_g i (GGone served).

Definition guide (i : nat) (pick : option nat) : prog museum unit :=
  pc ← reads (λ m, guides m !! i);
  match pc with
  | GStart => guide_arrival i
  | GWokenEnter => guide_entry i
  | GServe n | GWokenVisitors n => guide_serve i n pick
  | GLeave n | GWokenLeave n => guide_exit i n pick
  | GWaitEnter | GWaitVisitors _ | GWaitLeave _ | GGone _ => undef
  end.

(** ** All threads *)

(** A guide asleep on any of its three condition variables wakes up. *)
Definition wake_guide (g : gpc) : gpc :=
  match g with
  | GWaitEnter => GWokenEnter
  | GWaitVisitors n => GWokenVisitors n
  | GWaitLeave n => GWokenLeave n
  | _ => g
  end.

(** Any thread may take the next turn; [pick] is whom a signal wakes.  Every
    sleep may also end without a signal, as POSIX allows. *)
Inductive event := Turn | GuideWakes | VisitorWakes.
#[export] Instance event_eq_dec : EqDecision event.
Proof. solve_decision. Defined.
Inductive step : event → museum → museum → Prop :=
| step_visitor i m m' : visitor i m = Ret tt m' → step Turn m m'
| step_guide i pick m m' : guide i pick m = Ret tt m' → step Turn m m'
| step_guide_wakes i g m : guides m !! i = Some g → wake_guide g ≠ g →
    step GuideWakes m (set_guides (<[i := wake_guide g]> (guides m)) m)
| step_visitor_wakes i m : visitors m !! i = Some VWait →
    step VisitorWakes m (set_visitors (<[i := VWoken]> (visitors m)) m).
Inductive run_of : list event → museum → museum → Prop :=
| run_nil m : run_of [] m m
| run_cons e es m m1 m' : step e m m1 → run_of es m1 m' → run_of (e :: es) m m'.

(** ** The invariant *)

(** What the threads contribute to the counters. *)
Definition waits (v : vpc) : Z := match v with VWait => 1 | _ => 0 end.
Definition admitted (v : vpc) : Z := match v with VWoken | VTour | VTouring => 1 | _ => 0 end.
Definition toured (v : vpc) : Z := match v with VLeft => 1 | _ => 0 end.
Definition away (v : vpc) : Z := match v with VAway => 1 | _ => 0 end.
Definition touring (v : vpc) : Z := match v with VTouring => 1 | _ => 0 end.
Definition inside (g : gpc) : Z :=
  match g with
  | GServe _ | GWaitVisitors _ | GWokenVisitors _ | GLeave _ | GWaitLeave _ | GWokenLeave _ => 1
  | _ => 0
  end.
Definition served (g : gpc) : Z :=
  match g with
  | GServe n | GWaitVisitors n | GWokenVisitors n | GLeave n | GWaitLeave n | GWokenLeave n | GGone n => n
  | _ => 0
  end.
Definition room (g : gpc) : Z :=
  match g with
  | GServe n | GWaitVisitors n | GWokenVisitors n | GLeave n | GWaitLeave n | GWokenLeave n => n
  | _ => 0
  end.

(** What a guide may rely on at each point. *)
Definition guide_ok (m : museum) (g : gpc) : Prop :=
  match g with
  | GStart | GWokenEnter => True
  | GWaitEnter => 0 < guides_inside m ∨ GWokenEnter ∈ guides m
  | GServe n | GWokenVisitors n => 0 ≤ n < 10
  | GWaitVisitors n => 0 ≤ n < 10 ∧ visitors_waiting m = 0 ∧ 0 < tickets m
  | GLeave n | GWokenLeave n | GGone n => 0 ≤ n ≤ 10 ∧ (n = 10 ∨ visitors_waiting m = 0 ∧ tickets m = 0)
  | GWaitLeave n => 0 ≤ n ≤ 10 ∧ (n = 10 ∨ visitors_waiting m = 0 ∧ tickets m = 0) ∧ 0 < visitors_inside m
  end.

(** The state of the checks follows from that of the threads. *)
Definition vsim_of (v : vpc) : visitor_sim :=
  match v with
  | VStart => mk_vsim false false false
  | VWait | VWoken | VTour => mk_vsim true true true
  | VTouring => mk_vsim true false true
  | VAway => mk_vsim true true false
  | VLeft => mk_vsim true false false
  end.
Definition gsim_of (g : gpc) : guide_sim :=
  match g with
  | GStart => mk_gsim false false false false 0
  | GWaitEnter | GWokenEnter => mk_gsim true false true false 0
  | GServe n | GWaitVisitors n | GWokenVisitors n | GLeave n | GWaitLeave n | GWokenLeave n => mk_gsim true false false true n
  | GGone n => mk_gsim true true false false n
  end.
Definition sim_of (vs : list vpc) (gs : list gpc) (t vi vw gi : Z) (may : bool) (errs : list sim_error) : simulation :=
  mk_sim (vsim_of <$> vs) (gsim_of <$> gs) t vi vw gi may errs.
(** [calm]: no visitor was woken without a signal. *)
Definition allowed_error (calm : bool) (e : sim_error) : Prop :=
  match e with
  | GuideNotAllowedYet _ => True
  | TooManyVisitors _ | VisitorsStillInside _ => calm = false
  | _ => False
  end.

Record inv (calm : bool) (T : Z) (nv ng : nat) (m : museum) : Prop := {
  i_tickets : 0 ≤ tickets m ∧
    tickets m + sumz waits (visitors m) + sumz admitted (visitors m) + sumz toured (visitors m) = T;
  i_waiting : sumz waits (visitors m) ≤ visitors_waiting m ∧ (calm = true → visitors_waiting m = sumz waits (visitors m));
  i_inside : visitors_inside m = sumz served (guides m) - sumz toured (visitors m);
  i_guides : guides_inside m = sumz inside (guides m) ∧ guides_inside m ≤ 2;
  i_served : sumz served (guides m) + visitors_waiting m + tickets m = T;
  i_room : visitors_inside m ≤ sumz room (guides m);
  i_guide : ∀ g, g ∈ guides m → guide_ok m g;
  i_away : 0 < sumz away (visitors m) → tickets m = 0;
  i_len : length (visitors m) = nv ∧ length (guides m) = ng;
  i_sim : ∃ may errs, Forall (allowed_error calm) errs ∧ (guides_inside m = 0 → may = true) ∧
    sim m = sim_of (visitors m) (guides m) (tickets m)
      (sumz touring (visitors m) - sumz away (visitors m)) (visitors_waiting m) (guides_inside m) may errs
}.

Lemma waits_nonneg v : 0 ≤ waits v. Proof. by destruct v. Qed.
Lemma admitted_nonneg v : 0 ≤ admitted v. Proof. by destruct v. Qed.
Lemma toured_nonneg v : 0 ≤ toured v. Proof. by destruct v. Qed.
Lemma away_nonneg v : 0 ≤ away v. Proof. by destruct v. Qed.
Lemma touring_nonneg v : 0 ≤ touring v. Proof. by destruct v. Qed.
Lemma touring_admitted v : touring v ≤ admitted v. Proof. by destruct v. Qed.
Lemma inside_nonneg g : 0 ≤ inside g. Proof. by destruct g. Qed.

(** Waking guides changes none of the counts. *)
Lemma wake_waiting_same {A} (f : gpc → A) (gs : list gpc) :
  (∀ n, f (GWaitVisitors n) = f (GWokenVisitors n)) → f <$> (wake_visitors_are_waiting <$> gs) = f <$> gs.
Proof. intros H. rewrite <-list_fmap_compose. apply list_fmap_ext. intros _ [] _; simpl; try done. Qed.
Lemma wake_leave_same {A} (f : gpc → A) (gs : list gpc) :
  (∀ n, f (GWaitLeave n) = f (GWokenLeave n)) → f <$> (wake_guide_can_leave <$> gs) = f <$> gs.
Proof. intros H. rewrite <-list_fmap_compose. apply list_fmap_ext. intros _ [] _; simpl; try done. Qed.

Lemma lookup_wake_waiting (gs : list gpc) i g : gs !! i = Some g →
  (wake_visitors_are_waiting <$> gs) !! i = Some (wake_visitors_are_waiting g).
Proof. intros H. by rewrite list_lookup_fmap, H. Qed.

(** The initial state. *)
Lemma museum_init_inv ng nv m : museum_init ng nv = Some m → inv true (tickets m) nv ng m.
Proof.
  unfold museum_init. destruct (Z.ltb_spec (VISITORS_PER_GUIDE * Z.of_nat ng) 2147483648); [|done].
  intros [= <-]. unfold MIN, VISITORS_PER_GUIDE in *.
  constructor; cbn [tickets visitors guides visitors_waiting visitors_inside guides_inside sim]; rewrite ?sumz_replicate; cbn [waits admitted toured inside served away touring room].
  - destruct (Z.ltb_spec (10 * Z.of_nat ng) (Z.of_nat nv)); lia.
  - lia.
  - lia.
  - lia.
  - lia.
  - lia.
  - intros g [-> _]%elem_of_replicate. done.
  - lia.
  - by rewrite !length_replicate.
  - exists true, []. split_and!; [done|done|]. unfold init_simulation_state, sim_of, MIN, VISITORS_PER_GUIDE.
    rewrite !fmap_replicate. done.
Qed.

(** ** The callbacks report nothing *)

Lemma get_vsim_run s vs i v : s_visitors s = vsim_of <$> vs → vs !! i = Some v → get_vsim i s = Ret (vsim_of v) s.
Proof. intros E H. unfold get_vsim. apply reads_Some. by rewrite E, list_lookup_fmap, H. Qed.
Lemma get_gsim_run s gs i g : s_guides s = gsim_of <$> gs → gs !! i = Some g → get_gsim i s = Ret (gsim_of g) s.
Proof. intros E H. unfold get_gsim. apply reads_Some. by rewrite E, list_lookup_fmap, H. Qed.
Lemma set_vsim_run vs gs t vi vw gi may errs i v pc x :
  vs !! i = Some v → x = vsim_of pc →
  set_vsim i x (sim_of vs gs t vi vw gi may errs) = Ret tt (sim_of (<[i := pc]> vs) gs t vi vw gi may errs).
Proof.
  intros H ->. unfold set_vsim. apply updates_Some. unfold sim_of. cbn [s_visitors].
  rewrite list_lookup_fmap, H. cbn. by rewrite list_fmap_insert.
Qed.
Lemma set_gsim_run vs gs t vi vw gi may errs i g pc x :
  gs !! i = Some g → x = gsim_of pc →
  set_gsim i x (sim_of vs gs t vi vw gi may errs) = Ret tt (sim_of vs (<[i := pc]> gs) t vi vw gi may errs).
Proof.
  intros H ->. unfold set_gsim. apply updates_Some. unfold sim_of. cbn [s_guides].
  rewrite list_lookup_fmap, H. cbn. by rewrite list_fmap_insert.
Qed.
Lemma check_run b e s : b = false → check b e s = Ret tt s.
Proof. by intros ->. Qed.

Lemma if_run {S} (b : bool) (m : prog S unit) s s' :
  (b = true → m s = Ret tt s') → (b = false → s = s') → (if b then m else mret tt) s = Ret tt s'.
Proof. destruct b; intros H1 H2; [by apply H1|by rewrite H2]. Qed.

Lemma visitor_arrives_run vs gs t vi vw gi may errs i :
  vs !! i = Some VStart →
  visitor_arrives i (sim_of vs gs t vi vw gi may errs) =
    Ret tt (sim_of (<[i := VWait]> vs) gs (if t >? 0 then t - 1 else t) vi (if t >? 0 then vw + 1 else vw) gi may errs).
Proof.
  intros H. unfold visitor_arrives. run (eq_refl (get _)). cbn [tickets_remaining sim_of].
  set (s' := sim_of vs gs (if t >? 0 then t - 1 else t) vi (if t >? 0 then vw + 1 else vw) gi may errs).
  erewrite bind_Ret; [|apply (if_run _ _ _ s'); unfold s'; by intros ->].
  run (get_vsim_run s' vs i _ eq_refl H). run (check_run _ (ArrivedTwice i) s' (eq_refl false)).
  by apply (set_vsim_run _ _ _ _ _ _ _ _ _ _ VWait _ H).
Qed.
Lemma visitor_tours_run vs gs t vi vw gi may errs i :
  vs !! i = Some VTour →
  visitor_tours i (sim_of vs gs t vi vw gi may errs) = Ret tt (sim_of (<[i := VTouring]> vs) gs t (vi + 1) vw gi may
    (if gi * VISITORS_PER_GUIDE <? vi + 1 then errs ++ [TooManyVisitors i] else errs)).
Proof.
  intros H. unfold visitor_tours. run (eq_refl (modify _ _)).
  set (s' := put_counters _ _ _ _ _). change s' with (sim_of vs gs t (vi + 1) vw gi may errs). clear s'.
  set (s' := sim_of vs gs t (vi + 1) vw gi may errs).
  run (get_vsim_run s' vs i _ eq_refl H). run (check_run _ (EnteredWithoutTicket i) s' (eq_refl false)).
  run (eq_refl (get s')). cbn [s_visitors_inside s_guides_inside s' sim_of]. rewrite Z.gtb_ltb.
  set (s2 := sim_of vs gs t (vi + 1) vw gi may (if gi * VISITORS_PER_GUIDE <? vi + 1 then errs ++ [TooManyVisitors i] else errs)).
  erewrite bind_Ret; [|apply (if_run _ _ _ s2); unfold s2, s'; by intros ->].
  by apply (set_vsim_run _ _ _ _ _ _ _ _ _ _ VTouring _ H).
Qed.
Lemma visitor_leaves_run vs gs t vi vw gi may errs i v pc :
  vs !! i = Some v → v_may_leave (vsim_of v) = true →
  vsim_of pc = mk_vsim (v_arrived (vsim_of v)) (v_may_enter (vsim_of v)) false →
  visitor_leaves i (sim_of vs gs t vi vw gi may errs) = Ret tt (sim_of (<[i := pc]> vs) gs t (vi - 1) vw gi may errs).
Proof.
  intros H Hl Hpc. unfold visitor_leaves. run (eq_refl (modify _ _)).
  set (s' := put_counters _ _ _ _ _). change s' with (sim_of vs gs t (vi - 1) vw gi may errs). clear s'.
  run (get_vsim_run (sim_of vs gs t (vi - 1) vw gi may errs) vs i _ eq_refl H). rewrite Hl.
  run (check_run (negb true) (LeftTwice i) (sim_of vs gs t (vi - 1) vw gi may errs) (eq_refl false)).
  by apply (set_vsim_run _ _ _ _ _ _ _ _ _ v).
Qed.

Lemma guide_arrives_run vs gs t vi vw gi may errs i :
  gs !! i = Some GStart →
  guide_arrives i (sim_of vs gs t vi vw gi may errs) = Ret tt (sim_of vs (<[i := GWaitEnter]> gs) t vi vw gi may errs).
Proof.
  intros H. unfold guide_arrives. run (get_gsim_run (sim_of vs gs t vi vw gi may errs) gs i _ eq_refl H).
  run (check_run _ (GuideArrivedTwice i) (sim_of vs gs t vi vw gi may errs) (eq_refl false)).
  by apply (set_gsim_run _ _ _ _ _ _ _ _ _ _ GWaitEnter _ H).
Qed.
(** The one error that may be reported. *)
Lemma guide_enters_run vs gs t vi vw gi may errs i g :
  gs !! i = Some g → gsim_of g = gsim_of GWokenEnter → 0 ≤ gi < 2 →
  guide_enters i (sim_of vs gs t vi vw gi may errs) = Ret tt (sim_of vs (<[i := GServe 0]> gs) t vi vw (gi + 1)
    (if gi =? 1 then false else may) (if may then errs else errs ++ [GuideNotAllowedYet i])).
Proof.
  intros H Hg Hgi. unfold guide_enters. run (get_gsim_run (sim_of vs gs t vi vw gi may errs) gs i _ eq_refl H). rewrite Hg. run (eq_refl (modify _ _)).
  set (s1 := put_counters _ _ _ _ _). change s1 with (sim_of vs gs t vi vw (gi + 1) may errs). clear s1.
  run (eq_refl (get (sim_of vs gs t vi vw (gi + 1) may errs))).
  set (s2 := sim_of vs gs t vi vw (gi + 1) may (if may then errs else errs ++ [GuideNotAllowedYet i])).
  erewrite bind_Ret; [|apply (if_run _ _ _ s2); cbn; unfold s2; by destruct may].
  run (check_run _ (GuideEnteredTwice i) s2 (eq_refl false)). cbn [s_guides_inside sim_of]. unfold GUIDES_ALLOWED_INSIDE.
  rewrite Z.gtb_ltb. run (check_run _ (TooManyGuides i) s2 (proj2 (Z.ltb_ge 2 (gi + 1)) ltac:(lia))).
  set (s3 := sim_of vs gs t vi vw (gi + 1) (if gi =? 1 then false else may) (if may then errs else errs ++ [GuideNotAllowedYet i])).
  erewrite bind_Ret; [|apply (if_run _ _ _ s3); unfold s3, s2; [intros Hb%Z.eqb_eq|intros Hb%Z.eqb_neq]].
  - by apply (set_gsim_run _ _ _ _ _ _ _ _ _ _ (GServe 0) _ H).
  - rewrite (proj2 (Z.eqb_eq gi 1)) by lia. done.
  - rewrite (proj2 (Z.eqb_neq gi 1)) by lia. done.
Qed.
Lemma guide_admits_run vs gs t vi vw gi may errs i g n pc :
  gs !! i = Some g → gsim_of g = mk_gsim true false false true n → n < 10 → vw ≠ 0 →
  gsim_of pc = mk_gsim true false false true (n + 1) →
  guide_admits i (sim_of vs gs t vi vw gi may errs) = Ret tt (sim_of vs (<[i := pc]> gs) t vi (vw - 1) gi may errs).
Proof.
  intros H Hg Hn Hw Hpc. unfold guide_admits. set (s := sim_of vs gs t vi vw gi may errs).
  run (get_gsim_run s gs i _ eq_refl H). rewrite Hg. cbn [served_so_far g_may_admit g_arrived g_left g_may_enter].
  run (eq_refl (get s)). cbn [s_visitors_waiting s sim_of].
  run (check_run _ (NobodyWaiting i) s (proj2 (Z.eqb_neq vw 0) Hw)).
  run (check_run _ (GuideNotInside i) s (eq_refl false)). unfold VISITORS_PER_GUIDE. rewrite Z.gtb_ltb.
  run (check_run _ (ServedTooMany i) s (proj2 (Z.ltb_ge 10 (n + 1)) ltac:(lia))).
  unfold s. by run (set_gsim_run _ _ _ _ _ _ _ _ _ _ pc _ H (eq_sym Hpc)).
Qed.
Lemma guide_leaves_run vs gs t vi vw gi may errs i g n :
  gs !! i = Some g → gsim_of g = mk_gsim true false false true n → n = 10 ∨ vw = 0 ∧ t = 0 →
  guide_leaves i (sim_of vs gs t vi vw gi may errs) = Ret tt (sim_of vs (<[i := GGone n]> gs) t vi vw (gi - 1)
    (if gi =? 1 then true else may) (if 0 <? vi then errs ++ [VisitorsStillInside i] else errs)).
Proof.
  intros H Hg Hn. unfold guide_leaves. run (eq_refl (modify _ _)).
  set (s1 := put_counters _ _ _ _ _). change s1 with (sim_of vs gs t vi vw (gi - 1) may errs). clear s1.
  set (s0 := sim_of vs gs t vi vw (gi - 1) may errs). run (eq_refl (get s0)).
  run (get_gsim_run s0 gs i _ eq_refl H). rewrite Hg. cbn [s_visitors_inside s0 sim_of]. rewrite Z.gtb_ltb.
  set (errs' := if 0 <? vi then errs ++ [VisitorsStillInside i] else errs). set (s := sim_of vs gs t vi vw (gi - 1) may errs').
  erewrite bind_Ret; [|apply (if_run _ _ _ s); unfold s, errs', s0; by intros ->].
  run (check_run _ (GuideLeftTwice i) s (eq_refl false)).
  cbn [tickets_remaining s_visitors_waiting served_so_far s_guides_inside s s0 sim_of]. unfold VISITORS_PER_GUIDE.
  erewrite bind_Ret; cycle 1.
  { apply (check_run _ (GuideLeftEarly i) s). apply negb_false_iff, orb_true_iff. rewrite andb_true_iff, !Z.eqb_eq. lia. }
  set (s2 := sim_of vs gs t vi vw (gi - 1) (if gi =? 1 then true else may) errs').
  erewrite bind_Ret; [|apply (if_run _ _ _ s2); unfold s2, s; [intros Hb%Z.eqb_eq|intros Hb%Z.eqb_neq]].
  - by apply (set_gsim_run _ _ _ _ _ _ _ _ _ _ (GGone n) _ H).
  - rewrite (proj2 (Z.eqb_eq gi 1)) by lia. done.
  - rewrite (proj2 (Z.eqb_neq gi 1)) by lia. done.
Qed.

(** ** Every step keeps the invariant and makes progress *)

(** What is left to do, and how many guides are awake. *)
Definition rank_v (v : vpc) : Z :=
  match v with VStart => 5 | VWait => 4 | VWoken => 3 | VTour => 2 | VTouring => 1 | VAway | VLeft => 0 end.
Definition rank_g (g : gpc) : Z :=
  match g with
  | GStart | GWaitEnter | GWokenEnter => 12
  | GServe n | GWaitVisitors n | GWokenVisitors n => 11 - n
  | GLeave _ | GWaitLeave _ | GWokenLeave _ => 1
  | GGone _ => 0
  end.
Definition awake (g : gpc) : Z :=
  match g with GWaitEnter | GWaitVisitors _ | GWaitLeave _ | GGone _ => 0 | _ => 1 end.
Definition todo (m : museum) : Z := sumz rank_v (visitors m) + sumz rank_g (guides m).
Definition less (m' m : museum) : Prop :=
  todo m' < todo m ∨ todo m' = todo m ∧ sumz awake (guides m') < sumz awake (guides m).

#[local] Arguments guide_ok : simpl never.

(** The counters, with and without the condition. *)
Ltac count := first [lia | split; [lia|let Hc := fresh in intros Hc; repeat match goal with H : _ ∧ (_ = true → _) |- _ => destruct H as [? H]; specialize (H Hc) end; lia]].

Section steps.
Context (calm : bool) (T : Z) (nv ng : nat).
Implicit Types (m : museum) (vs : list vpc) (gs : list gpc).
Abbreviation I := (inv calm T nv ng).

Definition goes (c : prog museum unit) m : Prop := ∃ m', c m = Ret tt m' ∧ I m' ∧ less m' m.

(** The guides after one has moved, or after some were woken. *)
Lemma guides_insert (P : gpc → Prop) gs i pc :
  (∀ g, g ∈ gs → P g) → P pc → ∀ g, g ∈ <[i := pc]> gs → P g.
Proof.
  intros H Hpc g [j Hj]%list_elem_of_lookup. apply list_lookup_insert_Some in Hj as [(_ & <- & _)|[_ Hj]]; [done|].
  by apply H, list_elem_of_lookup_2 with j.
Qed.
Lemma guides_fmap (P : gpc → Prop) (f : gpc → gpc) gs :
  (∀ g, g ∈ gs → P (f g)) → ∀ g, g ∈ f <$> gs → P g.
Proof. intros H g (x & -> & Hx)%list_elem_of_fmap. by apply H. Qed.

(** The bounds the counters inherit from the threads. *)
Lemma sums_nonneg vs : 0 ≤ sumz waits vs ∧ 0 ≤ sumz admitted vs ∧ 0 ≤ sumz toured vs ∧ 0 ≤ sumz away vs ∧
  sumz touring vs ≤ sumz admitted vs.
Proof.
  split_and!; try (apply sumz_nonneg; intros []; done). apply sumz_le. intros [] _; done.
Qed.

Lemma callback_run c m s' : c (sim m) = Ret tt s' → callback c m = Ret tt (set_sim s' m).
Proof. apply zoom_Ret. Qed.

Lemma visitor_arrival_ok i m : I m → visitors m !! i = Some VStart → goes (visitor_arrival i) m.
Proof.
  intros [[Ht HT] Hw Hin [Hg Hg2] Hs Hr Hok Haw [Hnv Hng] (may & errs & Herr & Hmay & Hsim)] H.
  pose proof (sums_nonneg (visitors m)) as (? & ? & ? & ? & ?).
  pose proof (visitor_arrives_run _ (guides m) (tickets m) (sumz touring (visitors m) - sumz away (visitors m))
    (visitors_waiting m) (guides_inside m) may errs i H) as E. rewrite <-Hsim in E.
  unfold goes, visitor_arrival. run (callback_run _ m _ E). run (eq_refl (get (set_sim _ m))). cbn [tickets set_sim].
  rewrite Z.gtb_ltb in *. destruct (Z.ltb_spec 0 (tickets m)) as [Hpos|Hpos].
  - eexists. split; [reflexivity|]. split.
    + constructor; cbn; rewrite ?(sumz_insert _ _ _ _ _ H), ?(sumz_same wake_visitors_are_waiting); try (by intros []); cbn; try count.
      * apply (guides_fmap (guide_ok _)). intros g Hgs. specialize (Hok g Hgs). destruct g; unfold guide_ok in *; simpl in *; try lia; try done.
        destruct Hok as [?|Hok]; [by left|right]. by apply (list_elem_of_fmap_2 wake_visitors_are_waiting _ GWokenEnter).
      * by rewrite length_insert, length_fmap.
      * exists may, errs. split_and!; [done|done|]. unfold sim_of. rewrite !wake_waiting_same by done. f_equal. lia.
    + unfold less, todo; cbn. rewrite (sumz_insert _ _ _ _ _ H), (sumz_same wake_visitors_are_waiting) by (by intros []). cbn. lia.
  - assert (tickets m = 0) as Ht0 by lia.
    assert (<[i := VWait]> (visitors m) !! i = Some VWait) as HW by (apply list_lookup_insert_eq; by eapply lookup_lt_Some).
    pose proof (visitor_leaves_run _ (guides m) (tickets m) (sumz touring (visitors m) - sumz away (visitors m))
      (visitors_waiting m) (guides_inside m) may errs i VWait VAway HW eq_refl eq_refl) as E2.
    run (callback_run _ (set_sim _ m) _ E2).
    eexists. split; [reflexivity|]. split.
    + constructor; cbn; rewrite ?list_insert_insert_eq, ?(sumz_insert _ _ _ _ _ H); cbn; try count; try done.
      * by rewrite length_insert.
      * exists may, errs. split_and!; [done|done|]. unfold sim_of. f_equal. lia.
    + unfold less, todo; cbn. rewrite (sumz_insert _ _ _ _ _ H). cbn. lia.
Qed.

Lemma report_allowed (b : bool) errs e : Forall (allowed_error calm) errs → (b = true → allowed_error calm e) →
  Forall (allowed_error calm) (if b then errs ++ [e] else errs).
Proof. intros H He. destruct b; [|done]. apply Forall_app. split; [done|]. apply Forall_singleton. by apply He. Qed.

(** There is room for everyone who was admitted. *)
Lemma room_bound m : I m → visitors_inside m ≤ 10 * guides_inside m.
Proof.
  intros [_ _ _ [Hg _] _ Hr Hok _ _ _]. rewrite Hg, <-sumz_scale. etrans; [exact Hr|].
  apply sumz_le. intros g Hgs. specialize (Hok g Hgs). unfold room. destruct g; unfold guide_ok in *; simpl in *; lia.
Qed.

Lemma visitor_admission_ok i m : I m → visitors m !! i = Some VWoken → goes (visitor_admission i) m.
Proof.
  intros HI H. pose proof (room_bound m HI) as Hroom.
  destruct HI as [[Ht HT] Hw Hin [Hg Hg2] Hs Hr Hok Haw [Hnv Hng] (may & errs & Herr & Hmay & Hsim)].
  unfold goes, visitor_admission. run (eq_refl (get m)). rewrite Z.gtb_ltb.
  unfold VISITORS_PER_GUIDE. rewrite (proj2 (Z.ltb_ge _ _)) by lia.
  eexists. split; [reflexivity|]. split.
  - constructor; cbn; rewrite ?(sumz_insert _ _ _ _ _ H); cbn; try count; try done.
    + by rewrite length_insert.
    + exists may, errs. split_and!; [done|done|]. rewrite Hsim. unfold sim_of. rewrite list_fmap_insert.
      rewrite list_insert_id by (by rewrite list_lookup_fmap, H). f_equal. lia.
  - unfold less, todo; cbn. rewrite (sumz_insert _ _ _ _ _ H). cbn. lia.
Qed.

Lemma visitor_tour_ok i m : I m → visitors m !! i = Some VTour → goes (visitor_tour i) m.
Proof.
  intros HI H. pose proof (room_bound m HI) as Hroom.
  destruct HI as [[Ht HT] Hw Hin [Hg Hg2] Hs Hr Hok Haw [Hnv Hng] (may & errs & Herr & Hmay & Hsim)].
  pose proof (sums_nonneg (visitors m)) as (? & ? & ? & ? & ?).
  pose proof (sums_nonneg (<[i := VTouring]> (visitors m))) as (_ & _ & _ & _ & Htour).
  rewrite !(sumz_insert _ _ _ _ _ H) in Htour. cbn in Htour.
  pose proof (visitor_tours_run _ (guides m) (tickets m) (sumz touring (visitors m) - sumz away (visitors m))
    (visitors_waiting m) (guides_inside m) may errs i H) as E. rewrite <-Hsim in E.
  unfold goes, visitor_tour. run (callback_run _ m _ E).
  eexists. split; [reflexivity|]. split.
  - constructor; cbn; rewrite ?(sumz_insert _ _ _ _ _ H); cbn; try count; try done.
    + by rewrite length_insert.
    + eexists may, _. split_and!; [|done|f_equal; lia]. unfold VISITORS_PER_GUIDE.
      apply report_allowed; [done|]. intros Hb%Z.ltb_lt. destruct calm; [|done]. lia.
  - unfold less, todo; cbn. rewrite (sumz_insert _ _ _ _ _ H). cbn. lia.
Qed.

Lemma visitor_exit_ok i m : I m → visitors m !! i = Some VTouring → goes (visitor_exit i) m.
Proof.
  intros [[Ht HT] Hw Hin [Hg Hg2] Hs Hr Hok Haw [Hnv Hng] (may & errs & Herr & Hmay & Hsim)] H.
  pose proof (visitor_leaves_run (visitors m) (guides m) (tickets m) (sumz touring (visitors m) - sumz away (visitors m))
    (visitors_waiting m) (guides_inside m) may errs i VTouring VLeft H eq_refl eq_refl) as E. rewrite <-Hsim in E.
  unfold goes, visitor_exit. run (eq_refl (modify _ m)). set (m1 := set_visitors_inside _ m).
  run (eq_refl (broadcast_guide_can_leave m1)). set (m2 := set_guides _ m1). run (callback_run _ m2 _ E).
  eexists. split; [reflexivity|]. split.
  - constructor; cbn; rewrite ?(sumz_insert _ _ _ _ _ H), ?(sumz_same wake_guide_can_leave); try (by intros []); cbn; try count.
    + apply (guides_fmap (guide_ok _)). intros g Hgs. specialize (Hok g Hgs). destruct g; unfold guide_ok in *; simpl in *; try lia; try done.
      destruct Hok as [?|Hok]; [by left|right]. by apply (list_elem_of_fmap_2 wake_guide_can_leave _ GWokenEnter).
    + by rewrite length_insert, length_fmap.
    + exists may, errs. split_and!; [done|done|]. unfold sim_of. rewrite !wake_leave_same by done. f_equal. lia.
  - unfold less, todo; cbn. rewrite (sumz_insert _ _ _ _ _ H), (sumz_same wake_guide_can_leave) by (by intros []). cbn. lia.
Qed.

(** A guide at the door. *)
Lemma guide_entry_run i m g s1 may errs :
  I m → guides m !! i = Some g → g = GStart ∨ g = GWokenEnter → Forall (allowed_error calm) errs →
  (guides_inside m = 0 → may = true) →
  s1 = sim_of (visitors m) (<[i := GWaitEnter]> (guides m)) (tickets m)
    (sumz touring (visitors m) - sumz away (visitors m)) (visitors_waiting m) (guides_inside m) may errs →
  ∃ m', guide_entry i (set_sim s1 m) = Ret tt m' ∧ I m' ∧ less m' m.
Proof.
  intros [[Ht HT] Hw Hin [Hg Hg2] Hs Hr Hok Haw [Hnv Hng] _] H Hg' Herr Hmay ->.
  assert (inside g = 0 ∧ served g = 0 ∧ rank_g g = 12 ∧ awake g = 1) as (G1 & G2 & G3 & G4) by (by destruct Hg' as [-> | ->]).
  assert (room g = 0) as G5 by (by destruct Hg' as [-> | ->]).
  pose proof (sumz_nonneg inside (guides m) inside_nonneg).
  assert (<[i := GWaitEnter]> (guides m) !! i = Some GWaitEnter) as HW by (apply list_lookup_insert_eq; by eapply lookup_lt_Some).
  unfold guide_entry. run (eq_refl (get (set_sim _ m))). cbn [guides_inside set_sim]. unfold GUIDES_ALLOWED_INSIDE.
  rewrite Z.geb_leb. destruct (Z.leb_spec 2 (guides_inside m)).
  - eexists. split; [reflexivity|]. split.
    + constructor; cbn; rewrite ?(sumz_insert _ _ _ _ _ H), ?G1, ?G2, ?G5; cbn; try count; try done.
      * eapply (guides_insert (guide_ok _)); [|unfold guide_ok; simpl; lia]. intros g0 Hg0. specialize (Hok g0 Hg0). destruct g0; unfold guide_ok in *; simpl in *; try lia; try done.
      * by rewrite length_insert.
      * exists may, errs. by split_and!.
    + unfold less, todo; cbn. rewrite !(sumz_insert _ _ _ _ _ H). cbn. lia.
  - pose proof (guide_enters_run (visitors m) _ (tickets m) (sumz touring (visitors m) - sumz away (visitors m))
      (visitors_waiting m) (guides_inside m) may errs i GWaitEnter HW eq_refl ltac:(lia)) as E.
    run (callback_run _ (set_sim _ m) _ E). eexists. split; [reflexivity|]. split.
    + constructor; cbn; rewrite ?list_insert_insert_eq, ?(sumz_insert _ _ _ _ _ H), ?G1, ?G2, ?G5; cbn; try count; try done.
      * eapply (guides_insert (guide_ok _)); [|unfold guide_ok; simpl; lia]. intros g0 Hg0. specialize (Hok g0 Hg0). destruct g0; unfold guide_ok in *; simpl in *; try lia; try done.
      * by rewrite length_insert.
      * exists (if guides_inside m =? 1 then false else may), (if may then errs else errs ++ [GuideNotAllowedYet i]).
        split_and!; [|lia|done]. destruct may; [done|]. apply Forall_app. split; [done|]. by apply Forall_singleton.
    + unfold less, todo; cbn. rewrite !(sumz_insert _ _ _ _ _ H). cbn. lia.
Qed.

Lemma guide_arrival_ok i m : I m → guides m !! i = Some GStart → goes (guide_arrival i) m.
Proof.
  intros HI H. pose proof (i_sim _ _ _ _ _ HI) as (may & errs & Herr & Hmay & Hsim).
  pose proof (guide_arrives_run (visitors m) _ (tickets m) (sumz touring (visitors m) - sumz away (visitors m))
    (visitors_waiting m) (guides_inside m) may errs i H) as E. rewrite <-Hsim in E.
  unfold goes, guide_arrival. run (callback_run _ m _ E). eapply guide_entry_run; eauto.
Qed.
Lemma guide_entry_ok i m : I m → guides m !! i = Some GWokenEnter → goes (guide_entry i) m.
Proof.
  intros HI H. pose proof (i_sim _ _ _ _ _ HI) as (may & errs & Herr & Hmay & Hsim).
  assert (set_sim (sim m) m = m) as Em by (by destruct m).
  destruct (guide_entry_run i m GWokenEnter (sim m) may errs HI H) as (m' & E & R); [by right|done|done| |].
  - rewrite Hsim. unfold sim_of. rewrite list_fmap_insert. by rewrite list_insert_id by (by rewrite list_lookup_fmap, H).
  - exists m'. by rewrite Em in E.
Qed.

(** Whoever a signal wakes, if there is someone to wake. *)
Definition moves (c : option nat → prog museum unit) m : Prop :=
  (∀ pick m', c pick m = Ret tt m' → I m' ∧ less m' m) ∧ ∃ pick m', c pick m = Ret tt m'.
Lemma goes_moves c m : goes c m → moves (λ _, c) m.
Proof.
  intros (m' & E & HI & Hl). split; [|by exists None, m']. intros _ m'' E'. rewrite E in E'. by injection E' as <-.
Qed.

Lemma signal_visitor_inv pick m m' : signal_visitor_can_enter pick m = Ret tt m' →
  (∃ j, visitors m !! j = Some VWait ∧ m' = set_visitors (<[j := VWoken]> (visitors m)) m) ∨ (VWait ∉ visitors m ∧ m' = m).
Proof.
  unfold signal_visitor_can_enter, updates. destruct pick as [j|]; case_decide; intros [= <-]; [left; by exists j|by right].
Qed.
Lemma signal_guide_inv pick m m' : signal_guide_can_enter pick m = Ret tt m' →
  (∃ j, guides m !! j = Some GWaitEnter ∧ m' = set_guides (<[j := GWokenEnter]> (guides m)) m) ∨ (GWaitEnter ∉ guides m ∧ m' = m).
Proof.
  unfold signal_guide_can_enter, updates. destruct pick as [j|]; case_decide; intros [= <-]; [left; by exists j|by right].
Qed.
Lemma signal_visitor_ex m : ∃ pick m', signal_visitor_can_enter pick m = Ret tt m'.
Proof.
  unfold signal_visitor_can_enter, updates. destruct (decide (VWait ∈ visitors m)) as [H|H].
  - apply list_elem_of_lookup in H as [j Hj]. exists (Some j). eexists. cbv beta iota. by rewrite decide_True by done.
  - exists None. by eexists.
Qed.
Lemma signal_guide_ex m : ∃ pick m', signal_guide_can_enter pick m = Ret tt m'.
Proof.
  unfold signal_guide_can_enter, updates. destruct (decide (GWaitEnter ∈ guides m)) as [H|H].
  - apply list_elem_of_lookup in H as [j Hj]. exists (Some j). eexists. cbv beta iota. by rewrite decide_True by done.
  - exists None. by eexists.
Qed.

(** A guide that sleeps on, or stops waiting for, visitors. *)
Lemma guide_retires i m g g' :
  I m → guides m !! i = Some g → inside g' = inside g → served g' = served g → room g' = room g →
  gsim_of g' = gsim_of g → g ≠ GWokenEnter →
  guide_ok m g' → rank_g g' < rank_g g ∨ rank_g g' = rank_g g ∧ awake g' < awake g → goes (goto_g i g') m.
Proof.
  intros [[Ht HT] Hw Hin [Hg Hg2] Hs Hr Hok Haw [Hnv Hng] (may & errs & Herr & Hmay & Hsim)] H G1 G2 G3 Gs Gw Gok Gr.
  eexists. split; [reflexivity|]. split.
  - constructor; cbn; rewrite ?(sumz_insert _ _ _ _ _ H), ?G1, ?G2, ?G3; try count; try done.
    + set (m' := set_guides _ m). assert (∀ g0, guide_ok m g0 → guide_ok m' g0) as Hmono.
      { intros g0 H0. destruct g0; unfold guide_ok in *; simpl in *; try done. destruct H0 as [?|H0]; [by left|right].
        apply list_elem_of_lookup in H0 as [j Hj]. apply list_elem_of_lookup. exists j.
        rewrite list_lookup_insert_ne; [done|]. intros <-. congruence. }
      eapply (guides_insert (guide_ok m')); [|by apply Hmono]. intros g0 Hg0. by apply Hmono, Hok.
    + by rewrite length_insert.
    + exists may, errs. split_and!; [done|done|]. rewrite Hsim. unfold sim_of. rewrite list_fmap_insert, Gs.
      by rewrite list_insert_id by (by rewrite list_lookup_fmap, H).
  - unfold less, todo; cbn. rewrite !(sumz_insert _ _ _ _ _ H). lia.
Qed.

Lemma guide_serve_ok i n m g : I m → guides m !! i = Some g → g = GServe n ∨ g = GWokenVisitors n → moves (guide_serve i n) m.
Proof.
  intros HI H Hg'. pose proof (i_guide _ _ _ _ _ HI g (list_elem_of_lookup_2 _ _ _ H)) as Gok.
  assert (0 ≤ n < 10) as Hn by (by destruct Hg' as [-> | ->]).
  assert (inside g = 1 ∧ served g = n ∧ room g = n ∧ rank_g g = 11 - n ∧ awake g = 1 ∧ g ≠ GWokenEnter ∧ g ≠ GWaitEnter ∧
    gsim_of g = mk_gsim true false false true n) as (G1 & G2 & G3 & G4 & G5 & G6 & G7 & G8) by (by destruct Hg' as [-> | ->]).
  pose proof (i_waiting _ _ _ _ _ HI) as Hw0. destruct (i_tickets _ _ _ _ _ HI) as [Ht0 _].
  pose proof (sums_nonneg (visitors m)) as (? & ? & ? & ? & ?).
  destruct (Z.leb_spec (visitors_waiting m) 0) as [Hz|Hpos].
  { assert (∀ pick, guide_serve i n pick m = goto_g i (if tickets m <=? 0 then GLeave n else GWaitVisitors n) m) as E.
    { intros pick. unfold guide_serve. run (eq_refl (get m)). rewrite (proj2 (Z.leb_le _ _)) by lia. by destruct (_ <=? _). }
    assert (goes (goto_g i (if tickets m <=? 0 then GLeave n else GWaitVisitors n)) m) as (m' & E' & R).
    { destruct (Z.leb_spec (tickets m) 0); (apply (guide_retires i m g); [done|done|..|];
        rewrite ?G1, ?G2, ?G3, ?G4, ?G5, ?G8; simpl; unfold guide_ok; try done; try lia). }
    split; [|exists None, m'; by rewrite E]. intros pick m'' E''. rewrite E, E' in E''. by injection E'' as <-. }
  set (g' := if n + 1 <? VISITORS_PER_GUIDE then GServe (n + 1) else GLeave (n + 1)).
  assert (inside g' = 1 ∧ served g' = n + 1 ∧ room g' = n + 1 ∧ rank_g g' < 11 - n ∧ awake g' = 1 ∧
    gsim_of g' = mk_gsim true false false true (n + 1) ∧ ∀ m', guide_ok m' g') as (K1 & K2 & K3 & K4 & K5 & K6 & K7).
  { unfold g', VISITORS_PER_GUIDE. destruct (Z.ltb_spec (n + 1) 10); simpl; split_and!; try done; try lia; intros m'; unfold guide_ok; simpl; lia. }
  destruct HI as [[Ht HT] Hw Hin [Hg Hg2] Hs Hr Hok Haw [Hnv Hng] (may & errs & Herr & Hmay & Hsim)].
  pose proof (guide_admits_run (visitors m) (guides m) (tickets m) (sumz touring (visitors m) - sumz away (visitors m))
    (visitors_waiting m) (guides_inside m) may errs i g n g' H G8 ltac:(lia) ltac:(lia) K6) as E. rewrite <-Hsim in E.
  set (m1 := set_sim (sim_of (visitors m) (<[i:=g']> (guides m)) (tickets m) (sumz touring (visitors m) - sumz away (visitors m))
    (visitors_waiting m - 1) (guides_inside m) may errs) (set_visitors_inside (λ x, x + 1) (set_visitors_waiting (λ w, w - 1) m))).
  assert (∀ pick, guide_serve i n pick m = (signal_visitor_can_enter pick;; goto_g i g') m1) as Erun.
  { intros pick. unfold guide_serve. run (eq_refl (get m)). rewrite (proj2 (Z.leb_gt _ _)) by lia.
    do 2 run (eq_refl (modify _ _)). by run (callback_run _ (set_visitors_inside (λ x, x + 1) (set_visitors_waiting (λ w, w - 1) m)) _ E). }
  split.
  - intros pick m'. rewrite Erun. intros ([] & m2 & Es & [= <-])%bind_Ret_inv.
    assert (∀ m', guides_inside m' = guides_inside m → visitors_inside m' = visitors_inside m + 1 → visitors_waiting m' = visitors_waiting m - 1 →
      guides m' = <[i:=g']> (guides m) → ∀ g0, g0 ∈ <[i:=g']> (guides m) → guide_ok m' g0) as Hok'.
    { intros m' M1 M2 M3 M4. apply (guides_insert (guide_ok m')); [|apply K7]. intros g0 Hg0. specialize (Hok g0 Hg0).
      destruct g0; unfold guide_ok in *; simpl in *; rewrite ?M1, ?M2, ?M3, ?M4; try lia; try done. destruct Hok as [?|Hok]; [by left|right].
      apply list_elem_of_lookup in Hok as [j' Hj']. apply list_elem_of_lookup. exists j'.
      rewrite list_lookup_insert_ne; [done|]. intros <-. congruence. }
    apply signal_visitor_inv in Es as [(j & Hj & ->)|[Hno ->]]; cycle 1.
    { assert (sumz waits (visitors m) = 0) as Hw1.
      { destruct (decide (sumz waits (visitors m) = 0)) as [?|?]; [done|]. destruct (sumz_pos waits (visitors m)) as (v & Hv & Hv0); [lia|].
        destruct v; simpl in Hv0; try lia. by destruct Hno. }
      split.
      - constructor; cbn; rewrite ?(sumz_insert _ _ _ _ _ H), ?G1, ?G2, ?G3, ?K1, ?K2, ?K3; cbn; try count; try done.
        + by apply Hok'.
        + by rewrite !length_insert.
        + exists may, errs. by split_and!.
      - unfold less, todo; cbn. rewrite (sumz_insert _ _ _ _ _ H). cbn. lia. }
    change (visitors m1) with (visitors m) in Hj. split.
    + constructor; cbn; rewrite ?(sumz_insert _ _ _ _ _ H), ?(sumz_insert _ _ _ _ _ Hj), ?G1, ?G2, ?G3, ?K1, ?K2, ?K3; cbn; try count; try done.
      * by apply Hok'.
      * by rewrite !length_insert.
      * exists may, errs. split_and!; [done|done|]. unfold sim_of. rewrite (list_fmap_insert vsim_of).
        rewrite (list_insert_id (vsim_of <$> visitors m)) by (by rewrite list_lookup_fmap, Hj). f_equal. lia.
    + unfold less, todo; cbn. rewrite (sumz_insert _ _ _ _ _ H), (sumz_insert _ _ _ _ _ Hj). cbn. lia.
  - destruct (signal_visitor_ex m1) as (pick & m2 & Es). exists pick. rewrite Erun. eexists. by run Es.
Qed.

(** The last guide to leave wakes one that waits at the door. *)
Record woken (gi : Z) gs gs2 : Prop := {
  w_sum : ∀ f : gpc → Z, f GWaitEnter = f GWokenEnter → sumz f gs2 = sumz f gs;
  w_sim : gsim_of <$> gs2 = gsim_of <$> gs;
  w_len : length gs2 = length gs;
  w_old : ∀ g, g ∈ gs2 → g ∈ gs ∨ g = GWokenEnter;
  w_same : ∀ i g, g ≠ GWaitEnter → gs !! i = Some g → gs2 !! i = Some g;
  w_door : GWaitEnter ∈ gs2 → 0 < gi ∨ GWokenEnter ∈ gs2
}.
Lemma signal_woken pick m1 m2 : 0 ≤ guides_inside m1 →
  (if guides_inside m1 =? 0 then signal_guide_can_enter pick else mret tt) m1 = Ret tt m2 →
  ∃ gs2, m2 = set_guides gs2 m1 ∧ woken (guides_inside m1) (guides m1) gs2.
Proof.
  intros H0. assert (∀ gs, (GWaitEnter ∈ gs → 0 < guides_inside m1 ∨ GWokenEnter ∈ gs) → woken (guides_inside m1) gs gs) as Hid.
  { intros gs Hd. by constructor; auto. }
  destruct (Z.eqb_spec (guides_inside m1) 0) as [E|E].
  - intros [(j & Hj & ->)|[Hno ->]]%signal_guide_inv.
    + exists (<[j := GWokenEnter]> (guides m1)). split; [done|]. constructor.
      * intros f Hf. rewrite (sumz_insert _ _ _ _ _ Hj). lia.
      * rewrite list_fmap_insert. by rewrite list_insert_id by (by rewrite list_lookup_fmap, Hj).
      * apply length_insert.
      * apply (guides_insert (λ g, g ∈ guides m1 ∨ g = GWokenEnter)); [by left|by right].
      * intros i g Hg Hi. rewrite list_lookup_insert_ne; [done|]. intros <-. congruence.
      * intros _. right. apply list_elem_of_lookup. exists j. apply list_lookup_insert_eq. by eapply lookup_lt_Some.
    + exists (guides m1). split; [by destruct m1|]. apply Hid. by intros ?%Hno.
  - intros [= <-]. exists (guides m1). split; [by destruct m1|]. apply Hid. intros _. left. lia.
Qed.

Lemma guide_exit_ok i n m g : I m → guides m !! i = Some g → g = GLeave n ∨ g = GWokenLeave n → moves (guide_exit i n) m.
Proof.
  intros HI H Hg'. pose proof (i_guide _ _ _ _ _ HI g (list_elem_of_lookup_2 _ _ _ H)) as Gok.
  assert (0 ≤ n ≤ 10 ∧ (n = 10 ∨ visitors_waiting m = 0 ∧ tickets m = 0)) as Hn by (by destruct Hg' as [-> | ->]).
  assert (inside g = 1 ∧ served g = n ∧ room g = n ∧ rank_g g = 1 ∧ awake g = 1 ∧ g ≠ GWokenEnter ∧ g ≠ GWaitEnter ∧
    gsim_of g = mk_gsim true false false true n) as (G1 & G2 & G3 & G4 & G5 & G6 & G7 & G8) by (by destruct Hg' as [-> | ->]).
  destruct (Z.ltb_spec 0 (visitors_inside m)) as [Hpos|Hz].
  { assert (∀ pick, guide_exit i n pick m = goto_g i (GWaitLeave n) m) as E.
    { intros pick. unfold guide_exit. run (eq_refl (get m)). by rewrite Z.gtb_ltb, (proj2 (Z.ltb_lt _ _)) by lia. }
    assert (goes (goto_g i (GWaitLeave n)) m) as (m' & E' & R).
    { apply (guide_retires i m g); try done; rewrite ?G1, ?G2, ?G3, ?G4, ?G5, ?G8; unfold guide_ok; simpl; try done; lia. }
    split; [|exists None, m'; by rewrite E]. intros pick m'' E''. rewrite E, E' in E''. by injection E'' as <-. }
  destruct HI as [[Ht HT] Hw Hin [Hg Hg2] Hs Hr Hok Haw [Hnv Hng] (may & errs & Herr & Hmay & Hsim)].
  pose proof (sums_nonneg (visitors m)) as (? & ? & ? & ? & ?).
  pose proof (sumz_lookup inside (guides m) i g inside_nonneg H) as Hi1. rewrite G1 in Hi1.
  pose proof (guide_leaves_run (visitors m) (guides m) (tickets m) (sumz touring (visitors m) - sumz away (visitors m))
    (visitors_waiting m) (guides_inside m) may errs i g n H G8 ltac:(destruct Hn as [_ [?|[? ?]]]; [by left|by right])) as E. rewrite <-Hsim in E.
  set (errs' := if 0 <? sumz touring (visitors m) - sumz away (visitors m) then _ else _) in *.
  assert (Forall (allowed_error calm) errs') as Herr'.
  { apply report_allowed; [done|]. intros Hb%Z.ltb_lt. destruct calm; [|done]. lia. }
  set (may' := if guides_inside m =? 1 then true else may) in *.
  set (m1 := set_guides_inside (λ x, x - 1) (set_sim (sim_of (visitors m) (<[i:=GGone n]> (guides m)) (tickets m)
    (sumz touring (visitors m) - sumz away (visitors m)) (visitors_waiting m) (guides_inside m - 1) may' errs') m)).
  assert (∀ pick, guide_exit i n pick m =
    ((if guides_inside m1 =? 0 then signal_guide_can_enter pick else mret tt);; broadcast_guide_can_leave;; goto_g i (GGone n)) m1) as Erun.
  { intros pick. unfold guide_exit. run (eq_refl (get m)). rewrite Z.gtb_ltb, (proj2 (Z.ltb_ge _ _)) by lia.
    run (callback_run _ m _ E). run (eq_refl (modify _ _)). by run (eq_refl (get m1)). }
  split.
  - intros pick m'. rewrite Erun. intros ([] & m2 & Es & E2)%bind_Ret_inv.
    apply signal_woken in Es as (gs2 & -> & [W1 W2 W3 W4 W5 W6]); [|cbn; lia].
    change (guides m1) with (guides m) in *. change (guides_inside m1) with (guides_inside m - 1) in *.
    assert (gs2 !! i = Some g) as HG2 by (by apply W5).
    assert ((wake_guide_can_leave <$> gs2) !! i = Some (wake_guide_can_leave g)) as HG3 by (by rewrite list_lookup_fmap, HG2).
    assert (wake_guide_can_leave g = g) as Eg by (by destruct Hg' as [-> | ->]). rewrite Eg in HG3.
    injection E2 as <-. set (gs3 := <[i:=GGone n]> (wake_guide_can_leave <$> gs2)).
    set (m' := set_guides _ _).
    assert (∀ f, (∀ x, f (GWaitLeave x) = f (GWokenLeave x)) → f GWaitEnter = f GWokenEnter →
      sumz f gs3 = sumz f (guides m) - f g + f (GGone n)) as Hsum.
    { intros f Hf1 Hf2. unfold gs3. rewrite (sumz_insert _ _ _ _ _ HG3), sumz_same, W1 by (done || by intros []). done. }
    assert (∀ g0, g0 ∈ gs3 → guide_ok m' g0) as Hok'.
    { apply (guides_insert (guide_ok m')); [|unfold guide_ok; simpl; tauto].
      assert (∀ g0, guide_ok m g0 → g0 ≠ GWaitEnter → guide_ok m' (wake_guide_can_leave g0)) as Hold.
      { intros g0 Hok0 Hne0. destruct g0; unfold guide_ok in *; simpl in *; try done; tauto. }
      apply (guides_fmap (guide_ok m')). intros g0 Hg0. destruct (decide (g0 = GWaitEnter)) as [->|Hne].
      - unfold guide_ok; simpl. destruct (W6 Hg0) as [?|Hd]; [by left|right].
        apply list_elem_of_lookup in Hd as [j Hj]. apply list_elem_of_lookup. exists j. unfold gs3.
        rewrite list_lookup_insert_ne by (intros <-; congruence). by rewrite list_lookup_fmap, Hj.
      - destruct (W4 g0 Hg0) as [Ho| -> ]; [|done]. apply Hold; [by apply Hok|done]. }
    split.
    + constructor; cbn [m' set_guides tickets visitors visitors_waiting visitors_inside guides_inside guides sim m1 set_sim set_guides_inside];
        fold gs3; rewrite ?Hsum by (by intros); rewrite ?G1, ?G2; cbn; try count; try done.
      * assert (0 ≤ sumz room gs3) as Hroom.
        { rewrite <-(Z.mul_0_l (Z.of_nat (length gs3))), <-sumz_const. apply sumz_le. intros g0 Hg0.
          specialize (Hok' g0 Hg0). destruct g0; unfold guide_ok in Hok'; simpl in *; lia. }
        rewrite Hsum in Hroom by done. simpl in Hroom. lia.
      * unfold gs3. by rewrite length_insert, length_fmap, W3.
      * exists may', errs'. split_and!; [done| |].
        -- intros Hgi. unfold may'. by rewrite (proj2 (Z.eqb_eq _ _)) by lia.
        -- unfold sim_of, gs3. f_equal. rewrite !list_fmap_insert. rewrite wake_leave_same by done. by rewrite W2.
    + unfold less, todo; cbn [m' set_guides visitors guides m1 set_sim set_guides_inside]. fold gs3. rewrite Hsum by done. cbn. lia.
  - destruct (signal_guide_ex m1) as (pick & m2 & Es). exists pick. rewrite Erun.
    destruct (guides_inside m1 =? 0).
    + eexists. by run Es.
    + by eexists.
Qed.

Lemma visitor_ok i m v : I m → visitors m !! i = Some v → v ≠ VWait → v ≠ VAway → v ≠ VLeft → goes (visitor i) m.
Proof.
  intros HI H ? ? ?. unfold goes, visitor. run (reads_Some (λ m, visitors m !! i) v m H).
  destruct v; try done; [by apply visitor_arrival_ok|by apply visitor_admission_ok|by apply visitor_tour_ok|by apply visitor_exit_ok].
Qed.
Definition g_asleep (g : gpc) : bool := match g with GWaitEnter | GWaitVisitors _ | GWaitLeave _ | GGone _ => true | _ => false end.
Lemma guide_moves i m g : I m → guides m !! i = Some g → g_asleep g = false → moves (guide i) m.
Proof.
  intros HI H Hg. assert (∀ c, moves c m → (∀ pick, guide i pick m = c pick m) → moves (guide i) m) as Heq.
  { intros c [H1 (pick & m' & H2)] E. split; [intros p x; rewrite E; apply H1|]. exists pick, m'. by rewrite E. }
  assert (∀ pick, guide i pick m = (match g with
    | GStart => guide_arrival i | GWokenEnter => guide_entry i | GServe n | GWokenVisitors n => guide_serve i n pick
    | GLeave n | GWokenLeave n => guide_exit i n pick | GWaitEnter | GWaitVisitors _ | GWaitLeave _ | GGone _ => undef end) m) as E.
  { intros pick. unfold guide. by run (reads_Some (λ m, guides m !! i) g m H). }
  destruct g; try done.
  - eapply (Heq (λ _, guide_arrival i)); [by apply goes_moves, guide_arrival_ok|done].
  - eapply (Heq (λ _, guide_entry i)); [by apply goes_moves, guide_entry_ok|done].
  - eapply (Heq (guide_serve i served0)); [eapply guide_serve_ok; eauto|done].
  - eapply (Heq (guide_serve i served0)); [eapply guide_serve_ok; eauto|done].
  - eapply (Heq (guide_exit i served0)); [eapply guide_exit_ok; eauto|done].
  - eapply (Heq (guide_exit i served0)); [eapply guide_exit_ok; eauto|done].
Qed.

(** A turn keeps the invariant and comes closer to the end. *)
Lemma visitor_turn_ok i m m' : I m → visitor i m = Ret tt m' → I m' ∧ less m' m.
Proof.
  intros HI E. destruct (visitors m !! i) as [v|] eqn:Hv; cycle 1.
  { unfold visitor, mbind, prog_bind, reads in E. by rewrite Hv in E. }
  destruct (decide (v = VWait ∨ v = VAway ∨ v = VLeft)) as [Hd|Hd].
  { unfold visitor in E. erewrite bind_Ret in E by (by apply reads_Some). by destruct Hd as [ -> |[ -> | -> ]]. }
  destruct (visitor_ok i m v HI Hv) as (m2 & E2 & R); [tauto..|]. rewrite E in E2. by injection E2 as <-.
Qed.
Lemma guide_turn_ok i pick m m' : I m → guide i pick m = Ret tt m' → I m' ∧ less m' m.
Proof.
  intros HI E. destruct (guides m !! i) as [g|] eqn:Hg; cycle 1.
  { unfold guide, mbind, prog_bind, reads in E. by rewrite Hg in E. }
  destruct (g_asleep g) eqn:Ha.
  { unfold guide in E. erewrite bind_Ret in E by (by apply reads_Some). by destruct g. }
  by apply (guide_moves i m g HI Hg Ha) in E.
Qed.

(** A guide may wake up at any time: it will look at its condition again. *)
Lemma guide_wakes_ok i g m : I m → guides m !! i = Some g → wake_guide g ≠ g →
  let m' := set_guides (<[i := wake_guide g]> (guides m)) m in
  I m' ∧ todo m' = todo m ∧ sumz awake (guides m') = sumz awake (guides m) + 1.
Proof.
  intros [[Ht HT] Hw Hin [Hg Hg2] Hs Hr Hok Haw [Hnv Hng] (may & errs & Herr & Hmay & Hsim)] H Hne. cbv zeta.
  assert (inside (wake_guide g) = inside g ∧ served (wake_guide g) = served g ∧ room (wake_guide g) = room g ∧ rank_g (wake_guide g) = rank_g g ∧
    awake (wake_guide g) = awake g + 1 ∧ gsim_of (wake_guide g) = gsim_of g) as (G1 & G2 & G3 & G4 & G5 & G6) by (by destruct g).
  split; [|unfold todo; cbn; rewrite !(sumz_insert _ _ _ _ _ H), G4, G5; lia].
  constructor; cbn; rewrite ?(sumz_insert _ _ _ _ _ H), ?G1, ?G2, ?G3; try count; try done.
  - set (m' := set_guides _ m). assert (∀ g0, g0 ∈ guides m → g0 = g ∨ g0 ∈ guides m' ) as Hold.
    { intros g0 [j Hj]%list_elem_of_lookup. destruct (decide (j = i)) as [->|Hji]; [left; congruence|right].
      apply list_elem_of_lookup. exists j. cbn. by rewrite list_lookup_insert_ne. }
    eapply (guides_insert (guide_ok m')).
    + intros g0 Hg0. specialize (Hok g0 Hg0). destruct g0; unfold guide_ok in *; simpl in *; try lia; try done.
      destruct Hok as [?|Hok]; [by left|right]. by destruct (Hold _ Hok) as [<-|?].
    + pose proof (Hok g (list_elem_of_lookup_2 _ _ _ H)) as Gok. destruct g; unfold guide_ok in *; simpl in *; try done; lia.
  - by rewrite length_insert.
  - exists may, errs. split_and!; [done|done|]. rewrite Hsim. unfold sim_of. rewrite list_fmap_insert, G6.
    by rewrite list_insert_id by (by rewrite list_lookup_fmap, H).
Qed.
(** A visitor who wakes up uninvited is counted as one who is still waiting. *)
Lemma visitor_wakes_ok i m : calm = false → I m → visitors m !! i = Some VWait →
  let m' := set_visitors (<[i := VWoken]> (visitors m)) m in I m' ∧ less m' m.
Proof.
  intros Hcalm [[Ht HT] Hw Hin [Hg Hg2] Hs Hr Hok Haw [Hnv Hng] (may & errs & Herr & Hmay & Hsim)] H. cbv zeta.
  split; [|unfold less, todo; cbn; rewrite (sumz_insert _ _ _ _ _ H); cbn; lia].
  constructor; cbn; rewrite ?(sumz_insert _ _ _ _ _ H); cbn; try lia; try done.
  - split; [lia|by rewrite Hcalm].
  - by rewrite length_insert.
  - exists may, errs. split_and!; [done|done|]. rewrite Hsim. unfold sim_of. rewrite list_fmap_insert.
    rewrite list_insert_id by (by rewrite list_lookup_fmap, H). f_equal. lia.
Qed.

(** Every step keeps the invariant; all but the wakeups of guides come closer to
    the end. *)
Lemma step_ok e m m' : (e = VisitorWakes → calm = false) → I m → step e m m' → I m' ∧
  if decide (e = GuideWakes) then todo m' = todo m ∧ sumz awake (guides m') = sumz awake (guides m) + 1 else less m' m.
Proof.
  intros Hc HI Hst. revert Hc HI. destruct Hst as [i m1 m1' E|i pick m1 m1' E|i g m1 Hi Hne|i m1 Hi]; intros Hc HI; case_decide; try done.
  - by apply (visitor_turn_ok i).
  - by apply (guide_turn_ok i pick).
  - by apply guide_wakes_ok.
  - apply visitor_wakes_ok; [by apply Hc|done|done].
Qed.
End steps.

(** ** Running to the end *)

Definition v_done (v : vpc) : Prop := v = VAway ∨ v = VLeft.
Definition g_done (g : gpc) : Prop := ∃ n, g = GGone n.
Definition v_asleep (v : vpc) : bool := match v with VWait | VAway | VLeft => true | _ => false end.

(** The counts of threads that are all asleep or gone. *)
Lemma asleep_visitors vs : (∀ v, v ∈ vs → v_asleep v = true) →
  sumz admitted vs = 0 ∧ sumz waits vs + sumz toured vs + sumz away vs = Z.of_nat (length vs).
Proof.
  induction vs as [|v vs IH]; intros H; [done|]. destruct IH as [IH1 IH2]; [intros x Hx; apply H; by right|].
  specialize (H v ltac:(by left)). simpl. destruct v; simpl in *; try done; lia.
Qed.
Lemma gone_guides gs : (∀ g, g ∈ gs → g_done g) → sumz inside gs = 0.
Proof.
  induction gs as [|g gs IH]; intros H; [done|]. simpl. destruct (H g) as [n ->]; [by left|].
  rewrite IH; [done|]. intros x Hx. apply H. by right.
Qed.
Lemma full_guides gs : (∀ g, g ∈ gs → served g = 10) → sumz served gs = 10 * Z.of_nat (length gs).
Proof.
  induction gs as [|g gs IH]; intros H; [done|]. simpl. rewrite H by (by left).
  rewrite IH; [lia|]. intros x Hx. apply H. by right.
Qed.

(** Everyone is gone, and as many visitors have toured as there were tickets. *)
Definition finished (T : Z) (m : museum) : Prop :=
  (∀ v, v ∈ visitors m → v_done v) ∧ (∀ g, g ∈ guides m → g_done g) ∧
  sumz toured (visitors m) = T ∧ tickets m = 0 ∧ guides_inside m = 0 ∧ visitors_inside m = 0 ∧ visitors_waiting m = 0.

(** Threads that all sleep have nothing left to do. *)
Lemma stuck_finished calm T nv ng m :
  inv calm T nv ng m → T ≤ Z.of_nat nv → T ≤ 10 * Z.of_nat ng →
  (∀ v, v ∈ visitors m → v_asleep v = true) → (∀ g, g ∈ guides m → g_asleep g = true) → finished T m.
Proof.
  intros [[Ht HT] Hw Hin [Hg Hg2] Hs Hr Hok Haw [Hnv Hng] _] HTv HTg Hv Hga.
  destruct (asleep_visitors _ Hv) as [Hadm Hsum].
  pose proof (sums_nonneg (visitors m)) as (? & ? & ? & ? & ?).
  assert (tickets m = 0) as Ht0 by lia.
  assert (∀ g, g ∈ guides m → g_done g ∨ g = GWaitEnter) as Hgd.
  { intros g Hgin. specialize (Hok g Hgin). specialize (Hga g Hgin). destruct g; try done; unfold guide_ok in Hok; simpl in Hok; try lia;
      [by right|left; by eexists]. }
  assert (sumz toured (visitors m) ≤ T) by lia.
  assert (GWaitEnter ∉ guides m) as Hno.
  { intros Hin0. destruct (Hok _ Hin0) as [Hpos|Hwk]; [|by specialize (Hga _ Hwk)].
    rewrite Hg in Hpos. apply sumz_pos in Hpos as (g & Hgin & Hpos). destruct (Hgd g Hgin) as [[n ->]| ->]; simpl in Hpos; lia. }
  assert (∀ g, g ∈ guides m → g_done g) as Hgone.
  { intros g Hgin. destruct (Hgd g Hgin) as [?|E]; [done|]. exfalso. by rewrite E in Hgin. }
  assert (visitors_waiting m = 0) as Hw0.
  { destruct (decide (visitors_waiting m = 0)); [done|]. exfalso.
    assert (sumz served (guides m) = 10 * Z.of_nat ng); [|lia]. rewrite <-Hng. apply full_guides. intros g Hgin.
    specialize (Hok g Hgin). destruct (Hgone g Hgin) as [k ->]. unfold guide_ok in Hok. simpl in *. lia. }
  split_and!; try done; try lia.
  - intros v Hvin. specialize (Hv v Hvin). unfold v_done. destruct v; try done; [|by left|by right].
    exfalso. assert (waits VWait = 0); [|done]. apply (sumz_zero waits (visitors m)); [by intros []|lia|done].
  - rewrite Hg. by apply gone_guides.
Qed.

Lemma search_list {A} (f : A → bool) (l : list A) : (∀ x, x ∈ l → f x = true) ∨ ∃ i x, l !! i = Some x ∧ f x = false.
Proof.
  induction l as [|x l IH]; [left; by intros ? ?%not_elem_of_nil|].
  destruct (f x) eqn:E; [|right; by exists O, x]. destruct IH as [IH|(i & y & Hi & Hy)].
  - left. by intros y [ -> |?]%elem_of_cons; [|apply IH].
  - right. by exists (S i), y.
Qed.

Lemma progress calm T nv ng m :
  inv calm T nv ng m → T ≤ Z.of_nat nv → T ≤ 10 * Z.of_nat ng → finished T m ∨ ∃ m', step Turn m m'.
Proof.
  intros HI HTv HTg. destruct (search_list v_asleep (visitors m)) as [Hv|(i & v & Hi & Hv)].
  - destruct (search_list g_asleep (guides m)) as [Hg|(i & g & Hi & Hg)].
    + left. by eapply stuck_finished.
    + right. destruct (guide_moves calm T nv ng i m g HI Hi Hg) as [_ (pick & m' & E)]. exists m'. by eapply step_guide.
  - right. destruct (visitor_ok calm T nv ng i m v HI Hi) as (m' & E & _); [by intros ->..|]. exists m'. by eapply step_visitor.
Qed.

(** The checks at the end find nothing. *)
Lemma free_ok calm T nv ng m : inv calm T nv ng m → finished T m → free_simulation_state (sim m) = Ret tt (sim m).
Proof.
  intros [_ _ _ _ _ _ _ _ _ (may & errs & _ & Hmay & Hsim)] (Hv & Hg & _ & Ht & Hgi & Hvi & Hw).
  rewrite Hsim. set (s := sim_of _ _ _ _ _ _ _ _). unfold free_simulation_state. run (eq_refl (get s)).
  cbn [tickets_remaining s_visitors_waiting s_guides_inside guides_may_enter s sim_of]. rewrite Ht, Hgi, Hw, (Hmay Hgi). cbn [Z.gtb Z.compare negb orb].
  run (check_run false TicketsRemaining s eq_refl). run (check_run false VisitorsWaiting s eq_refl). run (check_run false GuidesInside s eq_refl).
  assert (∀ (l : list nat) (c : nat → prog simulation unit), (∀ i, i ∈ l → c i s = Ret tt s) → for_each l c s = Ret tt s) as Hfor.
  { intros l c. induction l as [|i l IH]; intros Hc; [done|]. cbn [for_each]. run (Hc i ltac:(by left)). apply IH. intros j Hj. apply Hc. by right. }
  erewrite bind_Ret.
  - apply Hfor. intros i Hi%elem_of_seq. cbn [s_guides s sim_of] in Hi. rewrite length_fmap in Hi.
    destruct (lookup_lt_is_Some_2 (guides m) i) as [g Hgi']; [lia|].
    run (get_gsim_run s (guides m) i g eq_refl Hgi'). apply check_run.
    destruct (Hg g) as [n ->]; [by eapply list_elem_of_lookup_2|done].
  - apply Hfor. intros i Hi%elem_of_seq. cbn [s_visitors s sim_of] in Hi. rewrite length_fmap in Hi.
    destruct (lookup_lt_is_Some_2 (visitors m) i) as [v Hvi']; [lia|].
    run (get_vsim_run s (visitors m) i v eq_refl Hvi'). apply check_run.
    destruct (Hv v) as [-> | ->]; [by eapply list_elem_of_lookup_2|done..].
Qed.

(** How many steps there can be. *)
Definition measure (ng : nat) (m : museum) : Z := todo m * (Z.of_nat ng + 1) + sumz awake (guides m).
Lemma less_measure calm T nv ng m m' : inv calm T nv ng m → inv calm T nv ng m' → less m' m → measure ng m' < measure ng m.
Proof.
  intros [_ _ _ _ _ _ _ _ [_ Hng] _] [_ _ _ _ _ _ _ _ [_ Hng'] _] Hl.
  assert (∀ gs, 0 ≤ sumz awake gs ≤ Z.of_nat (length gs)) as Hb.
  { intros gs. split; [apply sumz_nonneg; by intros []|]. rewrite <-(Z.mul_1_l (Z.of_nat _)), <-sumz_const.
    apply sumz_le. by intros []. }
  pose proof (Hb (guides m)). pose proof (Hb (guides m')). rewrite Hng, Hng' in *. unfold measure. destruct Hl as [Hl|[Hl ?]]; nia.
Qed.
Lemma measure_nonneg calm T nv ng m : inv calm T nv ng m → 0 ≤ measure ng m.
Proof.
  intros HI. unfold measure, todo. assert (0 ≤ sumz awake (guides m)) by (apply sumz_nonneg; by intros []).
  assert (0 ≤ sumz rank_v (visitors m)) by (apply sumz_nonneg; by intros []).
  assert (0 ≤ sumz rank_g (guides m)); [|nia].
  rewrite <-(Z.mul_0_l (Z.of_nat (length (guides m)))), <-sumz_const. apply sumz_le. intros g Hg.
  pose proof (i_guide _ _ _ _ _ HI g Hg) as Hok. destruct g; unfold guide_ok in Hok; simpl in *; lia.
Qed.
(** Wakeups of guides without a signal in a run. *)
Definition guide_wakeups (es : list event) : Z := sumz (λ e, if decide (e = GuideWakes) then 1 else 0) es.
Lemma run_ok calm T nv ng es m m' : (VisitorWakes ∈ es → calm = false) → inv calm T nv ng m → run_of es m m' →
  inv calm T nv ng m' ∧ Z.of_nat (length es) - 2 * guide_wakeups es ≤ measure ng m - measure ng m'.
Proof.
  intros Hc HI Hr. revert Hc HI. induction Hr as [m|e es m m1 m' Hst _ IH]; intros Hc HI; [split; [done|unfold guide_wakeups; cbn; lia]|].
  destruct (step_ok calm T nv ng e m m1) as [HI1 Hl]; [intros ->; apply Hc; by left|done|done|].
  destruct IH as [HI' Hb]; [intros ?; apply Hc; by right|done|]. split; [done|].
  unfold guide_wakeups in *. cbn [sumz length]. case_decide as He.
  - destruct Hl as [Hl1 Hl2]. unfold measure in *. rewrite Hl1, Hl2 in Hb. lia.
  - pose proof (less_measure _ _ _ _ _ _ HI HI1 Hl). lia.
Qed.
Lemma inv_false T nv ng m : inv true T nv ng m → inv false T nv ng m.
Proof.
  intros [HT Hw Hin Hg Hs Hr Hok Haw Hn (may & errs & Herr & Hmay & Hsim)]. constructor; try done; [tauto|].
  exists may, errs. split_and!; [|done|done]. eapply Forall_impl; [exact Herr|]. by intros [].
Qed.

Lemma museum_init_tickets ng nv m : museum_init ng nv = Some m →
  tickets m = Z.min (10 * Z.of_nat ng) (Z.of_nat nv) ∧ todo m = 5 * Z.of_nat nv + 12 * Z.of_nat ng ∧
  sumz awake (guides m) = Z.of_nat ng.
Proof.
  unfold museum_init. destruct (_ <? _); [|done]. intros [= <-]. unfold todo. cbn. rewrite !sumz_replicate. simpl. unfold MIN, VISITORS_PER_GUIDE.
  destruct (Z.ltb_spec (10 * Z.of_nat ng) (Z.of_nat nv)); lia.
Qed.

(** ** The properties *)

Lemma museum_run calm ng nv m0 es m : museum_init ng nv = Some m0 → run_of es m0 m → (VisitorWakes ∈ es → calm = false) →
  inv calm (Z.min (VISITORS_PER_GUIDE * Z.of_nat ng) (Z.of_nat nv)) nv ng m ∧
  Z.of_nat (length es) - 2 * guide_wakeups es ≤ measure ng m0 - measure ng m.
Proof.
  intros Hi Hr Hc. destruct (museum_init_tickets _ _ _ Hi) as (Ht & _). apply museum_init_inv in Hi. rewrite Ht in Hi.
  apply run_ok; [done| |done]. destruct calm; [done|by apply inv_false].
Qed.

(** C11: In every run, whatever order the threads run in and whichever of them
    wake up without a signal: at most two guides are inside and the counter
    [guides_inside] is their number, each guide serves at most ten, no more
    visitors get in than there are tickets, and of all the checks of main.c only
    [GuideNotAllowedYet], [TooManyVisitors] and [VisitorsStillInside] can fail.
    As long as no visitor wakes up without a signal there are moreover never
    more visitors inside than ten for each guide inside, and only
    [GuideNotAllowedYet] can fail. *)
Theorem museum_rules ng nv m0 es m : museum_init ng nv = Some m0 → run_of es m0 m →
  guides_inside m = sumz inside (guides m) ∧ guides_inside m ≤ GUIDES_ALLOWED_INSIDE ∧
  (∀ g, g ∈ guides m → 0 ≤ served g ≤ VISITORS_PER_GUIDE) ∧
  sumz admitted (visitors m) + sumz toured (visitors m) ≤ Z.min (VISITORS_PER_GUIDE * Z.of_nat ng) (Z.of_nat nv) ∧
  Forall (allowed_error false) (errors (sim m)) ∧
  (VisitorWakes ∉ es → sumz admitted (visitors m) ≤ VISITORS_PER_GUIDE * guides_inside m ∧ Forall (allowed_error true) (errors (sim m))).
Proof.
  intros Hi Hr. destruct (museum_run false _ _ _ _ _ Hi Hr) as [HI _]; [done|]. pose proof HI as [[Ht HT] [Hw _] _ [Hg Hg2] Hs _ Hok _ _ (may & errs & Herr & _ & Es)].
  pose proof (sums_nonneg (visitors m)) as (? & ? & ? & ? & ?). split_and!; [done|done| |lia|by rewrite Es|].
  - intros g Hgin. specialize (Hok g Hgin). unfold VISITORS_PER_GUIDE. destruct g; unfold guide_ok in Hok; simpl in *; lia.
  - intros Hv. destruct (museum_run true _ _ _ _ _ Hi Hr) as [HI' _]; [by intros ?%Hv|]. pose proof (room_bound _ _ _ _ _ HI') as Hroom.
    destruct HI' as [_ [_ Hw'] Hin' _ Hs' _ _ _ _ (may' & errs' & Herr' & _ & ->)]. specialize (Hw' eq_refl).
    split; [unfold VISITORS_PER_GUIDE; lia|done].
Qed.

(** C16: The threads never deadlock, also when some wake up without a signal: as
    long as some thread has not left the museum one of them can take a turn, and
    when all have left, everyone with a ticket has toured - that is, ten visitors
    per guide or all of them - and the final checks of main.c report nothing. *)
Theorem museum_completes ng nv m0 es m : museum_init ng nv = Some m0 → run_of es m0 m →
  (∃ m', step Turn m m') ∨
  (finished (Z.min (VISITORS_PER_GUIDE * Z.of_nat ng) (Z.of_nat nv)) m ∧ free_simulation_state (sim m) = Ret tt (sim m)).
Proof.
  intros Hi Hr. destruct (museum_run false _ _ _ _ _ Hi Hr) as [HI _]; [done|]. unfold VISITORS_PER_GUIDE in *.
  destruct (progress _ _ _ _ _ HI) as [Hf|?]; [lia|lia| |by left]. right. split; [done|by eapply free_ok].
Qed.

(** C29: A run of the museum is finite: however the threads are scheduled, a run in
    which guides wake up [k] times without a signal has at most
    [(5 nv + 12 ng) (ng + 1) + ng + k] other steps, those of visitors who wake up
    without a signal included. *)
Theorem museum_terminates ng nv m0 es m : museum_init ng nv = Some m0 → run_of es m0 m →
  Z.of_nat (length es) - guide_wakeups es ≤ (5 * Z.of_nat nv + 12 * Z.of_nat ng) * (Z.of_nat ng + 1) + Z.of_nat ng + guide_wakeups es.
Proof.
  intros Hi Hr. destruct (museum_init_tickets _ _ _ Hi) as (_ & Htodo & Haw).
  destruct (museum_run false _ _ _ _ _ Hi Hr) as [HI Hb]; [done|]. pose proof (measure_nonneg _ _ _ _ _ HI).
  unfold measure at 1 in Hb. rewrite Htodo, Haw in Hb. lia.
Qed.

(** ** Runs that end differently from what is asked *)

(** A schedule: which thread goes next, whom its signal wakes, and who wakes
    up without one. *)
Inductive slot := V (i : nat) | G (i : nat) (pick : option nat) | WakeV (i : nat) | WakeG (i : nat).
Definition event_of (t : slot) : event := match t with WakeV _ => VisitorWakes | WakeG _ => GuideWakes | _ => Turn end.
Definition take_turn (t : slot) (m : museum) : option museum :=
  match t with
  | V i => match visitor i m with Ret _ m' => Some m' | _ => None end
  | G i pick => match guide i pick m with Ret _ m' => Some m' | _ => None end
  | WakeV i => if decide (visitors m !! i = Some VWait) then Some (set_visitors (<[i := VWoken]> (visitors m)) m) else None
  | WakeG i => g ← guides m !! i; if decide (wake_guide g = g) then None else Some (set_guides (<[i := wake_guide g]> (guides m)) m)
  end.
Fixpoint run_schedule (ts : list slot) (m : museum) : option museum :=
  match ts with
  | [] => Some m
  | t :: ts => m' ← take_turn t m; run_schedule ts m'
  end.

Lemma take_turn_step t m m' : take_turn t m = Some m' → step (event_of t) m m'.
Proof.
  destruct t as [i|i pick|i|i]; simpl.
  - destruct (visitor i m) as [[] m1| | |] eqn:E; try done. intros [= <-]. by eapply step_visitor.
  - destruct (guide i pick m) as [[] m1| | |] eqn:E; try done. intros [= <-]. by eapply step_guide.
  - case_decide; [|done]. intros [= <-]. by apply step_visitor_wakes.
  - intros (g & Hg & E)%bind_Some. case_decide; [done|]. injection E as <-. by apply step_guide_wakes.
Qed.
Lemma run_schedule_steps ts m m' : run_schedule ts m = Some m' → run_of (event_of <$> ts) m m'.
Proof.
  revert m. induction ts as [|t ts IH]; intros m; simpl; [intros [= <-]; constructor|].
  intros (m1 & E & Hr)%bind_Some. econstructor; [by apply take_turn_step|by apply IH].
Qed.

(** Two guides enter, the first serves ten visitors, who tour and leave, and
    leaves; the second, who serves nobody, is still inside. *)
Definition apart_schedule : list slot :=
  [G 0 None; G 1 None] ++ concat ((λ i, [V i; G 0 (Some i); V i; V i; V i]) <$> seq 0 10) ++ [G 0 None; G 2 None].

(** The end of a run, if every turn of the schedule can be taken. *)
Definition opening (ng nv : nat) : museum :=
  default (mk_museum 0 0 0 0 [] [] (init_simulation_state 0 0)) (museum_init ng nv).
Definition ends_with (ts : list slot) (m : museum) (P : museum → bool) : bool :=
  match run_schedule ts m with Some m' => P m' | None => false end.
Lemma ends_with_run ts m P : ends_with ts m P = true → ∃ m', run_schedule ts m = Some m' ∧ P m' = true.
Proof. unfold ends_with. destruct (run_schedule ts m) as [m'|]; [by exists m'|done]. Qed.

(** With three guides and eleven visitors, the first guide can leave while
    the second is still inside and the third enters before both have left,
    which main.c reports as an error: guides do not wait to leave together. *)
Theorem museum_guides_apart : ∃ m0 m, museum_init 3 11 = Some m0 ∧ run_of (event_of <$> apart_schedule) m0 m ∧
  guides m = [GGone 10; GServe 0; GServe 0] ∧ GuideNotAllowedYet 2 ∈ errors (sim m).
Proof.
  destruct (ends_with_run apart_schedule (opening 3 11) (λ m,
    bool_decide (guides m = [GGone 10; GServe 0; GServe 0] ∧ GuideNotAllowedYet 2 ∈ errors (sim m)))) as (m & Hr & Hm).
  { vm_cast_no_check (eq_refl true). }
  apply bool_decide_eq_true in Hm. exists (opening 3 11), m. split; [done|]. split; [|exact Hm].
  by apply run_schedule_steps.
Qed.

(** A sleep that ends without a signal lets a visitor in uninvited: the loop
    around [pthread_cond_wait] does not check that a guide has admitted the
    visitor, so with no guide inside it goes on to tour. *)
Theorem museum_spurious_wakeup : ∃ m0 m, museum_init 1 1 = Some m0 ∧ run_of [Turn; VisitorWakes; Turn; Turn] m0 m ∧
  visitors m = [VTouring] ∧ guides m = [GStart] ∧ guides_inside m = 0 ∧ visitors_waiting m = 1 ∧
  TooManyVisitors 0 ∈ errors (sim m).
Proof.
  destruct (ends_with_run [V 0; WakeV 0; V 0; V 0] (opening 1 1) (λ m,
    bool_decide (visitors m = [VTouring] ∧ guides m = [GStart] ∧ guides_inside m = 0 ∧ visitors_waiting m = 1 ∧
      TooManyVisitors 0 ∈ errors (sim m)))) as (m & Hr & Hm).
  { vm_cast_no_check (eq_refl true). }
  apply bool_decide_eq_true in Hm. exists (opening 1 1), m. split; [done|]. split; [|exact Hm].
  by apply (run_schedule_steps [V 0; WakeV 0; V 0; V 0]).
Qed.

(** ** Witnesses *)

(** One guide, one visitor, a complete run in which the guide wakes up once
    before there is a visitor. *)
Definition small_schedule : list slot := [G 0 None; G 0 None; WakeG 0; G 0 None; V 0; G 0 (Some 0%nat); V 0; V 0; V 0; G 0 None; G 0 None].
Definition small_events : list event := event_of <$> small_schedule.
Definition small_start : museum := opening 1 1.
Definition small_end : museum := default small_start (run_schedule small_schedule small_start).
Lemma small_run : run_of small_events small_start small_end.
Proof. apply (run_schedule_steps small_schedule). vm_cast_no_check (eq_refl (Some small_end)). Qed.
Lemma museum_rules_witness : guides small_end = [GGone 1] ∧ guides_inside small_end = sumz inside (guides small_end) ∧ Forall (allowed_error true) (errors (sim small_end)).
Proof.
  split; [by vm_compute|]. destruct (museum_rules 1 1 small_start small_events small_end eq_refl small_run) as (H1 & _ & _ & _ & _ & H2).
  split; [exact H1|]. apply H2. vm_compute. intros H. repeat (apply elem_of_cons in H as [H|H]; [discriminate H|]). by apply elem_of_nil in H.
Defined.
Lemma museum_completes_witness : visitors small_end = [VLeft] ∧
  ((∃ m', step Turn small_end m') ∨
   (finished (Z.min (VISITORS_PER_GUIDE * Z.of_nat 1) (Z.of_nat 1)) small_end ∧
    free_simulation_state (sim small_end) = Ret tt (sim small_end))).
Proof. split; [by vm_compute|]. apply (museum_completes 1 1 small_start small_events small_end eq_refl small_run). Defined.
Lemma museum_terminates_witness : length small_events = 11%nat ∧ guide_wakeups small_events = 1 ∧
  Z.of_nat (length small_events) - guide_wakeups small_events ≤ (5 * Z.of_nat 1 + 12 * Z.of_nat 1) * (Z.of_nat 1 + 1) + Z.of_nat 1 + guide_wakeups small_events.
Proof. split; [done|]. split; [done|]. exact (museum_terminates 1 1 small_start small_events small_end eq_refl small_run). Defined.
