(* ===== verification/Semaphore.v ===== *)
(** * Semaphores as system calls

    CS1550/cs1550-project1/cs1550.c: semaphores in the kernel, with any number of
    tasks that call it.  A system call is a sequence of atomic steps: between two
    of them another task may run.  What a task does while it holds the spin lock
    of a semaphore is one step, and so is a search of, or an update to, the list
    of semaphores.  [sem_rwlock] is only ever taken for reading, so that it
    excludes nobody and is left out.  Of the kernel there are [kmalloc], which
    fails or gives a new address, spin locks, [schedule], which a task leaves when
    it is running, [wake_up_process], and signals, which wake a task that sleeps
    interruptibly. *)
From S2P Require Import Prelude.
From stdpp Require Import gmap.
Open Scope Z_scope.

Definition EINVAL : Z := 22.
Definition ENOMEM : Z := 12.
Definition LONG_MAX : Z := 9223372036854775807.

(** ** State *)

(** [struct cs1550_sem]; the owner of the spin lock; tasks are numbers. *)
Record sem := mk_sem { value : Z; sem_id : Z; lock : option nat; waiting_tasks : list nat }.
(** Where a task that has called the kernel is: before the search, before the spin lock, in the critical
    section, before its end, and so on. *)
Inductive pc :=
| Create0 (v : Z) | Create1 (a : nat) | Create2 (a : nat) (id : Z) | Create3 (a : nat) (id : Z)
| Down0 (id : Z) | Down1 (a : nat) | Down2 (a : nat) | Down3 (a : nat) | Down3_nomem (a : nat) | Down3_sleep (a : nat) | Down4 (a : nat)
| Up0 (id : Z) | Up1 (a : nat) | Up2 (a : nat) | Up3 (a : nat)
| Close0 (id : Z) | Close1 (a : nat)
| Returned (r : Z).
Record task := mk_task { at_ : pc; running : bool }.
(** Addresses are numbers as well. *)
Record kernel := mk_kernel {
  heap : gmap nat sem;
  sem_list : list nat;
  next_id : Z;
  tasks : gmap nat task
}.
Definition put_sem (a : nat) (s : sem) (k : kernel) : kernel := mk_kernel (<[a := s]> (heap k)) (sem_list k) (next_id k) (tasks k).
Definition put_task (t : nat) (x : task) (k : kernel) : kernel := mk_kernel (heap k) (sem_list k) (next_id k) (<[t := x]> (tasks k)).
Definition put_list (l : list nat) (k : kernel) : kernel := mk_kernel (heap k) l (next_id k) (tasks k).
Definition put_next (z : Z) (k : kernel) : kernel := mk_kernel (heap k) (sem_list k) z (tasks k).
Definition free_sem (a : nat) (k : kernel) : kernel := mk_kernel (delete a (heap k)) (sem_list k) (next_id k) (tasks k).
Definition with_id (id : Z) (s : sem) : sem := mk_sem (value s) id (lock s) (waiting_tasks s).
Definition with_lock (l : option nat) (s : sem) : sem := mk_sem (value s) (sem_id s) l (waiting_tasks s).
Definition with_value (v : Z) (w : list nat) (s : sem) : sem := mk_sem v (sem_id s) (lock s) w.

(** ** Steps *)

(** A task goes on, has to wait, or the kernel is damaged: freed memory is used
    or a [long] overflows. *)
Inductive result := Next (k : kernel) | Blocked | Crash.
(** The task goes to [p]. *)
Definition goto (t : nat) (p : pc) (k : kernel) : result := Next (put_task t (mk_task p true) k).
Definition access (a : nat) (k : kernel) (f : sem → result) : result := match heap k !! a with Some s => f s | None => Crash end.
Definition search (id : Z) (k : kernel) : option nat :=
  snd <$> list_find (λ a, match heap k !! a with Some s => sem_id s =? id | None => false end = true) (sem_list k).

(** [kmalloc] returned [c], an address that is not in use. *)
Definition create_step (c : option nat) (t : nat) (v : Z) (k : kernel) : result :=
  if v <? 0 then goto t (Returned (- EINVAL)) k
  else
    match c with
    | None => goto t (Returned (- ENOMEM)) k
    | Some a => if decide (heap k !! a = None) then goto t (Create1 a) (put_sem a (mk_sem v 0 None []) k) else Blocked
    end.
Definition take_lock (t a : nat) (p : pc) (k : kernel) : result :=
  access a k (λ s, match lock s with None => goto t p (put_sem a (with_lock (Some t) s) k) | Some _ => Blocked end).
Definition release (t a : nat) (p : pc) (running : bool) (k : kernel) : result :=
  access a k (λ s, Next (put_task t (mk_task p running) (put_sem a (with_lock None s) k))).
Definition down_step (c : option nat) (t a : nat) (k : kernel) : result :=
  access a k (λ s,
    let v := value s - 1 in
    if v <? - LONG_MAX - 1 then Crash
    else if v <? 0 then
      match c with
      | None => goto t (Down3_nomem a) (put_sem a (with_value v (waiting_tasks s) s) k)
      | Some _ => Next (put_task t (mk_task (Down3_sleep a) false) (put_sem a (with_value v (waiting_tasks s ++ [t]) s) k))
      end
    else goto t (Down3 a) (put_sem a (with_value v (waiting_tasks s) s) k)).
Definition wake_up_process (w : nat) (k : kernel) : kernel :=
  match tasks k !! w with Some x => put_task w (mk_task (at_ x) true) k | None => k end.
Definition up_step (t a : nat) (k : kernel) : result :=
  access a k (λ s,
    let v := value s + 1 in
    if v >? LONG_MAX then Crash
    else
      match waiting_tasks s with
      | to_wake :: rest =>
          if v <=? 0 then goto t (Up3 a) (wake_up_process to_wake (put_sem a (with_value v rest s) k))
          else goto t (Up3 a) (put_sem a (with_value v (to_wake :: rest) s) k)
      | [] => goto t (Up3 a) (put_sem a (with_value v [] s) k)
      end).
Definition find_then (t : nat) (id : Z) (k : kernel) (p : nat → result) : result :=
  match search id k with Some a => p a | None => goto t (Returned (- EINVAL)) k end.

Definition run_task (c : option nat) (t : nat) (k : kernel) : result :=
  match tasks k !! t with
  | None => Blocked
  | Some x =>
      match at_ x with
      | Returned _ => Blocked
      | Create0 v => create_step c t v k
      | Create1 a => access a k (λ s, goto t (Create2 a (next_id k)) (put_sem a (with_id (next_id k) s) k))
      | Create2 a id => goto t (Create3 a id) (put_next (u64 (next_id k + 1)) k)
      | Create3 a id => goto t (Returned id) (put_list (a :: sem_list k) k)
      | Down0 id => find_then t id k (λ a, goto t (Down1 a) k)
      | Down1 a => take_lock t a (Down2 a) k
      | Down2 a => down_step c t a k
      | Down3 a => release t a (Returned 0) true k
      | Down3_nomem a => release t a (Returned (- ENOMEM)) true k
      | Down3_sleep a => release t a (Down4 a) (running x) k
      | Down4 a => if running x then goto t (Returned 0) k else Blocked
      | Up0 id => find_then t id k (λ a, goto t (Up1 a) k)
      | Up1 a => take_lock t a (Up2 a) k
      | Up2 a => up_step t a k
      | Up3 a => release t a (Returned 0) true k
      | Close0 id => find_then t id k (λ a, access a k (λ s,
          match waiting_tasks s with [] => goto t (Close1 a) k | _ => goto t (Returned (- EINVAL)) k end))
      | Close1 a => access a k (λ s, goto t (Returned 0) (free_sem a (put_list (filter (λ b, b ≠ a) (sem_list k)) k)))
      end
  end.

(** A task calls the kernel, goes on in it, or is sent a signal. *)
Inductive syscall := cs1550_create (v : Z) | cs1550_down (id : Z) | cs1550_up (id : Z) | cs1550_close (id : Z).
Definition entry (c : syscall) : pc :=
  match c with cs1550_create v => Create0 v | cs1550_down id => Down0 id | cs1550_up id => Up0 id | cs1550_close id => Close0 id end.
Inductive event := Call (t : nat) (c : syscall) | Run (t : nat) (c : option nat) | Signal (t : nat).
Definition idle (k : kernel) (t : nat) : bool :=
  match tasks k !! t with Some x => match at_ x with Returned _ => true | _ => false end | None => true end.
Definition step (e : event) (k : kernel) : result :=
  match e with
  | Call t c => if idle k t then goto t (entry c) k else Blocked
  | Run t c => run_task c t k
  | Signal t => Next (wake_up_process t k)
  end.
Fixpoint exec (es : list event) (k : kernel) : result :=
  match es with
  | [] => Next k
  | e :: es' => match step e k with Next k' => exec es' k' | r => r end
  end.
Definition boot : kernel := mk_kernel ∅ [] 0 ∅.

(** ** What is counted *)

(** Of a semaphore: its first value, how many [down] and [up] operations have
    taken effect, and how many [down] operations have got through: at once, or
    when they were woken. *)
Record tally := mk_tally { made : Z; downs : Z; ups : Z; passed : Z }.
Definition count_down (s : sem) (y : tally) : tally :=
  mk_tally (made y) (downs y + 1) (ups y) (if value s - 1 <? 0 then passed y else passed y + 1).
Definition count_up (s : sem) (y : tally) : tally :=
  mk_tally (made y) (downs y) (ups y + 1) (match waiting_tasks s with _ :: _ => if value s + 1 <=? 0 then passed y + 1 else passed y | [] => passed y end).
Definition count (e : event) (k : kernel) (g : gmap nat tally) : gmap nat tally :=
  match e with
  | Run t c =>
      match at_ <$> tasks k !! t with
      | Some (Create0 v) => if v <? 0 then g else match c with Some a => <[a := mk_tally v 0 0 0]> g | None => g end
      | Some (Down2 a) => match heap k !! a with Some s => alter (count_down s) a g | None => g end
      | Some (Up2 a) => match heap k !! a with Some s => alter (count_up s) a g | None => g end
      | _ => g
      end
  | _ => g
  end.
(** Runs without signals and [cs1550_close], in which a [down] gets the memory
    it needs and no value leaves its type. *)
Definition gentle (e : event) (k : kernel) : Prop :=
  match e with
  | Call t (cs1550_close _) => False
  | Call t _ => True
  | Run t c =>
      match at_ <$> tasks k !! t with
      | Some (Down2 a) => c ≠ None ∧ ∀ s, heap k !! a = Some s → - LONG_MAX - 1 < value s
      | Some (Up2 a) => ∀ s, heap k !! a = Some s → value s < LONG_MAX
      | _ => True
      end
  | Signal _ => False
  end.
Inductive reach : kernel → gmap nat tally → Prop :=
| reach_boot : reach boot ∅
| reach_step k g e k' : reach k g → gentle e k → step e k = Next k' → reach k' (count e k g).

(** ** The invariant *)

Definition tally_ok (s : sem) (y : tally) : Prop :=
  0 ≤ made y ∧ value s = made y + ups y - downs y ∧ Z.of_nat (length (waiting_tasks s)) = Z.max 0 (- value s) ∧
  passed y = downs y - Z.of_nat (length (waiting_tasks s)) ∧ NoDup (waiting_tasks s).
Definition holds (a : nat) (p : pc) : Prop := p = Down2 a ∨ p = Down3 a ∨ p = Down3_sleep a ∨ p = Up2 a ∨ p = Up3 a.
Definition sleeps (a : nat) (p : pc) : Prop := p = Down3_sleep a ∨ p = Down4 a.
Definition task_ok (k : kernel) (t : nat) (x : task) : Prop :=
  match at_ x with
  | Create1 a | Create2 a _ | Create3 a _ | Down1 a | Up1 a => is_Some (heap k !! a) ∧ running x = true
  | Down2 a | Down3 a | Up2 a | Up3 a => (∃ s, heap k !! a = Some s ∧ lock s = Some t) ∧ running x = true
  | Down3_sleep a => ∃ s, heap k !! a = Some s ∧ lock s = Some t ∧ (running x = false ↔ t ∈ waiting_tasks s)
  | Down4 a => ∃ s, heap k !! a = Some s ∧ (running x = false ↔ t ∈ waiting_tasks s)
  | Down3_nomem _ | Close0 _ | Close1 _ => False
  | Create0 _ | Down0 _ | Up0 _ | Returned _ => running x = true
  end.
Record good (k : kernel) (g : gmap nat tally) : Prop := {
  gd_sem : ∀ a s, heap k !! a = Some s → ∃ y, g !! a = Some y ∧ tally_ok s y;
  gd_task : ∀ t x, tasks k !! t = Some x → task_ok k t x;
  gd_wait : ∀ a s t, heap k !! a = Some s → t ∈ waiting_tasks s → ∃ x, tasks k !! t = Some x ∧ running x = false ∧ sleeps a (at_ x);
  gd_lock : ∀ a s t, heap k !! a = Some s → lock s = Some t → ∃ x, tasks k !! t = Some x ∧ holds a (at_ x);
  gd_list : ∀ a, a ∈ sem_list k → is_Some (heap k !! a)
}.

Lemma holds_unique a b p : holds a p → holds b p → a = b.
Proof. unfold holds. intros H1 H2. naive_solver congruence. Qed.
Lemma sleeps_unique a b p : sleeps a p → sleeps b p → a = b.
Proof. unfold sleeps. intros H1 H2. naive_solver congruence. Qed.

(** A change of a semaphore and of a task that is not queued in, and does not
    hold the lock of, another one. *)
Lemma good_change k g t x' a s s' y' :
  good k g → heap k !! a = Some s → tally_ok s' y' →
  (∀ u, u ≠ t → u ∈ waiting_tasks s' ↔ u ∈ waiting_tasks s) →
  (∀ u, u ≠ t → lock s' = Some u ↔ lock s = Some u) →
  (t ∈ waiting_tasks s' → running x' = false ∧ sleeps a (at_ x')) →
  (lock s' = Some t → holds a (at_ x')) →
  (∀ b r, b ≠ a → heap k !! b = Some r → t ∉ waiting_tasks r ∧ lock r ≠ Some t) →
  task_ok (put_task t x' (put_sem a s' k)) t x' → good (put_task t x' (put_sem a s' k)) (<[a := y']> g).
Proof.
  intros [G1 G2 G3 G4 G5] Ha Hy Hw Hl Htw Htl Hb Hok. constructor; cbn [put_task put_sem heap tasks sem_list].
  - intros b r [[<- <-]|[Hne Hr]]%lookup_insert_Some; [exists y'; by rewrite lookup_insert_eq|].
    rewrite lookup_insert_ne by done. by apply G1.
  - intros u x [[<- <-]|[Hne Hx]]%lookup_insert_Some; [done|]. specialize (G2 u x Hx).
    assert (∀ b, is_Some (heap k !! b) → is_Some (<[a := s']> (heap k) !! b)) as HS.
    { intros b ?. destruct (decide (a = b)) as [->|]; [rewrite lookup_insert_eq|rewrite lookup_insert_ne by done]; eauto. }
    assert (∀ b r, heap k !! b = Some r → ∃ r', <[a := s']> (heap k) !! b = Some r' ∧ (lock r' = Some u ↔ lock r = Some u) ∧ (u ∈ waiting_tasks r' ↔ u ∈ waiting_tasks r)) as HR.
    { intros b r Hr. destruct (decide (a = b)) as [<-|Hab]; [rewrite lookup_insert_eq|rewrite lookup_insert_ne by done]; [|by exists r].
      rewrite Ha in Hr. injection Hr as <-. exists s'. split; [done|]. split; [by apply Hl|by apply Hw]. }
    unfold task_ok in *. cbn [put_task put_sem heap]. destruct (at_ x); try done; try (destruct G2 as [? ?]; by split; [apply HS|]).
    all: try (destruct G2 as [(r & Hr & Hlr) Hrun]; split; [|done]; destruct (HR _ _ Hr) as (r' & Hr' & HL & _); exists r'; split; [done|by apply HL]).
    + destruct G2 as (r & Hr & Hlr & Hrun). destruct (HR _ _ Hr) as (r' & Hr' & HL & HW). exists r'. split; [done|]. split; [by apply HL|]. by rewrite HW.
    + destruct G2 as (r & Hr & Hrun). destruct (HR _ _ Hr) as (r' & Hr' & HL & HW). exists r'. split; [done|]. by rewrite HW.
  - intros b r u [[<- <-]|[Hne Hr]]%lookup_insert_Some Hu.
    + destruct (decide (u = t)) as [->|Hut]; [exists x'; rewrite lookup_insert_eq; split; [done|by apply Htw]|].
      rewrite lookup_insert_ne by done. apply (G3 a s u Ha). by apply Hw.
    + destruct (decide (u = t)) as [->|Hut]; [by destruct (Hb b r); [done|done|]|]. rewrite lookup_insert_ne by done. by apply (G3 b r u).
  - intros b r u [[<- <-]|[Hne Hr]]%lookup_insert_Some Hu.
    + destruct (decide (u = t)) as [->|Hut]; [exists x'; rewrite lookup_insert_eq; split; [done|by apply Htl]|].
      rewrite lookup_insert_ne by done. apply (G4 a s u Ha). by apply Hl.
    + destruct (decide (u = t)) as [->|Hut]; [by destruct (Hb b r); [done|done|]|]. rewrite lookup_insert_ne by done. by apply (G4 b r u).
  - intros b Hbl. destruct (decide (a = b)) as [->|]; [rewrite lookup_insert_eq; eauto|rewrite lookup_insert_ne by done]. by apply G5.
Qed.

(** A task that is elsewhere neither waits for nor holds [b]. *)
Definition away (k : kernel) (t b : nat) : Prop := ∀ r, heap k !! b = Some r → t ∉ waiting_tasks r ∧ lock r ≠ Some t.
Lemma away_pc k g t p b : good k g → at_ <$> tasks k !! t = Some p → ¬ holds b p → ¬ sleeps b p → away k t b.
Proof.
  intros G Hp Hh Hs r Hr. split; intros H.
  - destruct (gd_wait _ _ G b r t Hr H) as (x & Hx & _ & Hsx). rewrite Hx in Hp. injection Hp as <-. done.
  - destruct (gd_lock _ _ G b r t Hr H) as (x & Hx & Hhx). rewrite Hx in Hp. injection Hp as <-. done.
Qed.
Lemma away_new k g t b : good k g → tasks k !! t = None → away k t b.
Proof.
  intros G Hn r Hr. split; intros H; [destruct (gd_wait _ _ G b r t Hr H) as (x & Hx & _)|destruct (gd_lock _ _ G b r t Hr H) as (x & Hx & _)]; congruence.
Qed.
Lemma good_goto k g t x : good k g → (∀ b, away k t b) → task_ok k t x → good (put_task t x k) g.
Proof.
  intros [G1 G2 G3 G4 G5] Hb Hok. constructor; cbn [put_task heap tasks sem_list]; try done.
  - intros u y [[<- <-]|[Hne Hy]]%lookup_insert_Some; [done|]. exact (G2 u y Hy).
  - intros b r u Hr Hu. destruct (decide (t = u)) as [->|Hne]; [by destruct (Hb b r Hr)|]. rewrite lookup_insert_ne by done. by apply (G3 b r u).
  - intros b r u Hr Hu. destruct (decide (t = u)) as [->|Hne]; [by destruct (Hb b r Hr)|]. rewrite lookup_insert_ne by done. by apply (G4 b r u).
Qed.
Lemma task_ok_next k t x z : task_ok (put_next z k) t x ↔ task_ok k t x.
Proof. done. Qed.
Lemma good_next k g z : good k g → good (put_next z k) g.
Proof. intros []. by constructor. Qed.
Lemma good_list k g a : good k g → is_Some (heap k !! a) → good (put_list (a :: sem_list k) k) g.
Proof. intros [] Ha. constructor; try done. intros b [->|Hb]%elem_of_cons; [done|]. by apply gd_list0. Qed.
(** A new semaphore. *)
Lemma good_alloc k g a v : good k g → heap k !! a = None → 0 ≤ v → good (put_sem a (mk_sem v 0 None []) k) (<[a := mk_tally v 0 0 0]> g).
Proof.
  intros [G1 G2 G3 G4 G5] Ha Hv.
  assert (∀ b r, heap k !! b = Some r → <[a := mk_sem v 0 None []]> (heap k) !! b = Some r) as HK.
  { intros b r Hr. rewrite lookup_insert_ne; [done|]. intros ->. congruence. }
  constructor; cbn [put_sem heap tasks sem_list].
  - intros b r [[<- <-]|[Hne Hr]]%lookup_insert_Some.
    + eexists. rewrite lookup_insert_eq. split; [done|]. unfold tally_ok. cbn. split_and!; try lia. constructor.
    + rewrite lookup_insert_ne by done. by apply G1.
  - intros u x Hx. specialize (G2 u x Hx). unfold task_ok in *. cbn [put_sem heap].
    destruct (at_ x); try done; try (destruct G2 as [[r Hr] ?]; split; [exists r; by apply HK|done]);
      try (destruct G2 as [(r & Hr & Hlr) ?]; split; [exists r; split; [by apply HK|done]|done]);
      destruct G2 as (r & Hr & Hlr); exists r; split; try done; by apply HK.
  - intros b r u [[<- <-]|[Hne Hr]]%lookup_insert_Some Hu; [by apply not_elem_of_nil in Hu|by apply (G3 b r u)].
  - intros b r u [[<- <-]|[Hne Hr]]%lookup_insert_Some Hu; [done|by apply (G4 b r u)].
  - intros b Hb. destruct (G5 b Hb) as [r Hr]. exists r. by apply HK.
Qed.
Lemma search_Some id k a : search id k = Some a → a ∈ sem_list k ∧ ∃ s, heap k !! a = Some s ∧ sem_id s = id.
Proof.
  unfold search. destruct (list_find _ _) as [[i b]|] eqn:E; [|done]. intros [= ->]. apply list_find_Some in E as (Hi & Hp & _).
  split; [by eapply list_elem_of_lookup_2|]. destruct (heap k !! a) as [s|]; [|done]. exists s. split; [done|lia].
Qed.
(** Waking the first of a queue. *)
Lemma good_wake k g t a s w rest v y' : good k g → heap k !! a = Some s → waiting_tasks s = w :: rest → lock s = Some t →
  at_ <$> tasks k !! t = Some (Up2 a) → tally_ok (with_value v rest s) y' →
  good (put_task t (mk_task (Up3 a) true) (wake_up_process w (put_sem a (with_value v rest s) k))) (<[a := y']> g).
Proof.
  intros G Ha Hw Hl Hp Hy. destruct (gd_wait _ _ G a s w Ha) as (xw & Hxw & Hrw & Hsw); [rewrite Hw; left|].
  destruct (gd_sem _ _ G a s Ha) as (y & _ & (_ & _ & _ & _ & Hnd)). rewrite Hw in Hnd. apply NoDup_cons in Hnd as [Hwr Hnd].
  assert (w ≠ t) as Hwt.
  { intros ->. rewrite Hxw in Hp. injection Hp as Hp. rewrite Hp in Hsw. destruct Hsw; done. }
  assert (at_ xw = Down4 a) as Hat.
  { destruct Hsw as [Hsw|Hsw]; [|done]. pose proof (gd_task _ _ G w xw Hxw) as Hok. unfold task_ok in Hok. rewrite Hsw in Hok.
    destruct Hok as (r & Hr & Hlr & _). congruence. }
  (* waking w leaves a state in which w still looks like a waiting task of s *)
  unfold wake_up_process. cbn [put_sem tasks]. rewrite Hxw.
  destruct G as [G1 G2 G3 G4 G5]. set (s' := with_value v rest s).
  assert (∀ b, is_Some (heap k !! b) → is_Some (<[a := s']> (heap k) !! b)) as HS.
  { intros b ?. destruct (decide (a = b)) as [->|]; [rewrite lookup_insert_eq|rewrite lookup_insert_ne by done]; eauto. }
  assert (∀ u b r, u ≠ w → heap k !! b = Some r → ∃ r', <[a := s']> (heap k) !! b = Some r' ∧ lock r' = lock r ∧ (u ∈ waiting_tasks r' ↔ u ∈ waiting_tasks r)) as HR.
  { intros u b r Hu Hr. destruct (decide (a = b)) as [<-|Hab]; [rewrite lookup_insert_eq|rewrite lookup_insert_ne by done; by exists r].
    exists s'. rewrite Ha in Hr. injection Hr as <-. split; [done|]. split; [done|]. rewrite Hw. cbn. rewrite elem_of_cons. naive_solver. }
  constructor; cbn [put_task put_sem heap tasks sem_list].
  - intros b r [[<- <-]|[Hne Hr]]%lookup_insert_Some; [exists y'; by rewrite lookup_insert_eq|]. rewrite lookup_insert_ne by done. by apply G1.
  - intros u x [[<- <-]|[Hne Hx]]%lookup_insert_Some.
    { unfold task_ok. cbn. split; [|done]. exists s'. by rewrite lookup_insert_eq. }
    apply lookup_insert_Some in Hx as [[<- <-]|[Hne2 Hx]].
    { unfold task_ok. cbn. rewrite Hat. exists s'. rewrite lookup_insert_eq. split; [done|]. split; [done|]. intros Hin. done. }
    specialize (G2 u x Hx). unfold task_ok in *. cbn [put_task put_sem heap]. assert (u ≠ w) as Huw by done.
    destruct (at_ x); try done; try (destruct G2 as [? ?]; by split; [apply HS|]).
    all: try (destruct G2 as [(r & Hr & Hlr) Hrun]; split; [|done]; destruct (HR u _ _ Huw Hr) as (r' & Hr' & HL & _); exists r'; by rewrite HL).
    + destruct G2 as (r & Hr & Hlr & Hrun). destruct (HR u _ _ Huw Hr) as (r' & Hr' & HL & HW). exists r'. by rewrite HL, HW.
    + destruct G2 as (r & Hr & Hrun). destruct (HR u _ _ Huw Hr) as (r' & Hr' & HL & HW). exists r'. by rewrite HW.
  - assert (∀ b r u, heap k !! b = Some r → u ∈ waiting_tasks r → u ≠ t ∧ (u = w → b = a)) as Huq.
    { intros b r u Hr Hu. destruct (G3 b r u Hr Hu) as (x & Hx & _ & Hsx). split.
      - intros ->. rewrite Hx in Hp. injection Hp as Hp. rewrite Hp in Hsx. by destruct Hsx.
      - intros ->. rewrite Hxw in Hx. injection Hx as <-. by eapply sleeps_unique. }
    intros b r u [[<- <-]|[Hne Hr]]%lookup_insert_Some Hu.
    + cbn in Hu. destruct (Huq a s u Ha) as [Hut _]; [rewrite Hw; by right|]. rewrite !lookup_insert_ne by congruence.
      apply (G3 a s u Ha). rewrite Hw. by right.
    + destruct (Huq b r u Hr Hu) as [Hut Huw]. rewrite !lookup_insert_ne by naive_solver. by apply (G3 b r u).
  - intros b r u [[<- <-]|[Hne Hr]]%lookup_insert_Some Hu.
    + cbn in Hu. rewrite Hl in Hu. injection Hu as <-. rewrite lookup_insert_eq. eexists. split; [done|]. unfold holds. naive_solver.
    + destruct (G4 b r u Hr Hu) as (x & Hx & Hhx). destruct (decide (u = t)) as [->|Hut].
      * rewrite Hx in Hp. injection Hp as Hp. rewrite Hp in Hhx. destruct (Hne (holds_unique a b (Up2 a) ltac:(unfold holds; naive_solver) Hhx)).
      * rewrite lookup_insert_ne by done. destruct (decide (u = w)) as [->|Huw]; [|rewrite lookup_insert_ne by done; by exists x].
        rewrite Hxw in Hx. injection Hx as <-. rewrite Hat in Hhx. unfold holds in Hhx. naive_solver.
  - intros b Hb. apply HS. by apply G5.
Qed.

Lemma alter_insert_same (f : tally → tally) (g : gmap nat tally) a y : g !! a = Some y → alter f a g = <[a := f y]> g.
Proof.
  intros Hy. apply map_eq. intros b. destruct (decide (a = b)) as [<-|Hne].
  - by rewrite lookup_alter_eq, lookup_insert_eq, Hy.
  - by rewrite lookup_alter_ne, lookup_insert_ne.
Qed.
(** The usual case: the semaphore stays as it is but for its id and its lock. *)
Lemma good_lock_change k g t x x' a s s' :
  good k g → tasks k !! t = Some x → heap k !! a = Some s →
  value s' = value s → waiting_tasks s' = waiting_tasks s →
  (∀ u, u ≠ t → lock s' = Some u ↔ lock s = Some u) →
  (∀ b, b ≠ a → ¬ holds b (at_ x) ∧ ¬ sleeps b (at_ x)) →
  (t ∈ waiting_tasks s → running x' = false ∧ sleeps a (at_ x')) →
  (lock s' = Some t → holds a (at_ x')) →
  task_ok (put_task t x' (put_sem a s' k)) t x' → good (put_task t x' (put_sem a s' k)) g.
Proof.
  intros G Hx Ha Hv Hw Hl Hb Htw Htl Hok. destruct (gd_sem _ _ G a s Ha) as (y & Hy & Ht).
  rewrite <-(insert_id g a y Hy). apply (good_change k g t x' a s s' y G Ha); rewrite ?Hw; try done.
  - unfold tally_ok. by rewrite Hv, Hw.
  - intros b r Hne Hr. destruct (Hb b Hne) as [H1 H2]. refine (away_pc k g t (at_ x) b G _ H1 H2 r Hr). by rewrite Hx.
Qed.
Ltac elsewhere := unfold holds, sleeps; naive_solver congruence.
Lemma take_good k g t x a p :
  good k g → tasks k !! t = Some x → (∃ s, heap k !! a = Some s) → (∀ b, ¬ holds b (at_ x) ∧ ¬ sleeps b (at_ x)) →
  p = Down2 a ∨ p = Up2 a → take_lock t a p k ≠ Crash ∧ ∀ k', take_lock t a p k = Next k' → good k' g.
Proof.
  intros G Hx [s Ha] Hb Hp. unfold take_lock, access. rewrite Ha. destruct (lock s) eqn:El; [done|]. split; [done|]. intros k' [= <-].
  apply (good_lock_change k g t x _ a s); try done.
  - intros u Hu. cbn. rewrite El. naive_solver.
  - intros Hin. by destruct (away_pc k g t (at_ x) a G ltac:(by rewrite Hx) (proj1 (Hb a)) (proj2 (Hb a)) s Ha) as [? _].
  - intros _. cbn. elsewhere.
  - unfold task_ok. cbn [at_ running put_task put_sem heap]. destruct Hp as [-> | ->]; (split; [|done]); eexists; by rewrite lookup_insert_eq.
Qed.
Lemma release_good k g t x a p :
  good k g → tasks k !! t = Some x → (∃ s, heap k !! a = Some s ∧ lock s = Some t) → running x = true → (∀ b, ¬ sleeps b (at_ x)) → holds a (at_ x) →
  (∃ r, p = Returned r) → release t a p true k ≠ Crash ∧ ∀ k', release t a p true k = Next k' → good k' g.
Proof.
  intros G Hx (s & Ha & Hl) Hrun Hs Hh [r ->]. unfold release, access. rewrite Ha. split; [done|]. intros k' [= <-].
  apply (good_lock_change k g t x _ a s); try done.
  - intros u Hu. cbn. rewrite Hl. naive_solver.
  - intros b Hne. split; [|done]. intros Hb. by destruct (Hne (holds_unique b a _ Hb Hh)).
  - intros Hin. destruct (gd_wait _ _ G a s t Ha Hin) as (x0 & Hx0 & Hr0 & Hs0). rewrite Hx in Hx0. injection Hx0 as <-. congruence.
Qed.
Lemma find_good k g t x id p : good k g → tasks k !! t = Some x → (∀ b, ¬ holds b (at_ x) ∧ ¬ sleeps b (at_ x)) →
  p = Down1 ∨ p = Up1 → let r := find_then t id k (λ a, goto t (p a) k) in r ≠ Crash ∧ ∀ k', r = Next k' → good k' g.
Proof.
  intros G Hx Hb Hp r. assert (∀ b, away k t b) as Haw by (intros b; apply (away_pc k g t (at_ x) b G); [by rewrite Hx|apply Hb|apply Hb]).
  unfold r, find_then. destruct (search id k) as [a|] eqn:Es; split; try done; intros k' [= <-].
  - apply good_goto; [done..|]. apply search_Some in Es as (_ & s & Ha & _). unfold task_ok. cbn. destruct Hp as [-> | ->]; by split; [eexists|].
  - by apply good_goto.
Qed.

Lemma down_good k g t x a c : good k g → tasks k !! t = Some x → at_ x = Down2 a → (∃ s, heap k !! a = Some s ∧ lock s = Some t) → c ≠ None →
  (∀ s, heap k !! a = Some s → - LONG_MAX - 1 < value s) →
  down_step c t a k ≠ Crash ∧
  ∀ k', down_step c t a k = Next k' → good k' (match heap k !! a with Some s => alter (count_down s) a g | None => g end).
Proof.
  intros G Hx Hp (s & Ha & Hl) Hc Hv. specialize (Hv s Ha). unfold down_step, access. rewrite Ha.
  destruct (Z.ltb_spec (value s - 1) (- LONG_MAX - 1)) as [|_]; [lia|].
  destruct (gd_sem _ _ G a s Ha) as (y & Hy & (Y1 & Y2 & Y3 & Y4 & Y5)). rewrite (alter_insert_same _ g a y Hy).
  assert (∀ b, b ≠ a → away k t b) as Haw by (intros b Hne; apply (away_pc k g t (Down2 a) b G); [by rewrite Hx, <-Hp|elsewhere|elsewhere]).
  assert (t ∉ waiting_tasks s) as Htw.
  { intros Hin. destruct (gd_wait _ _ G a s t Ha Hin) as (x0 & Hx0 & _ & Hs0). rewrite Hx in Hx0. injection Hx0 as <-. rewrite Hp in Hs0. by destruct Hs0. }
  unfold count_down. destruct (Z.ltb_spec (value s - 1) 0) as [Hneg|Hpos].
  - destruct c; [|done]. split; [done|]. intros k' [= <-]. apply (good_change k g t _ a s); try done.
    + unfold tally_ok. cbn. rewrite length_app. cbn. split_and!; try lia. apply NoDup_app. split; [done|]. split; [|apply NoDup_singleton].
      intros u Hu ->%list_elem_of_singleton. done.
    + intros u Hu. cbn. rewrite elem_of_app, list_elem_of_singleton. naive_solver.
    + intros _. split; [done|]. cbn. elsewhere.
    + intros _. cbn. elsewhere.
    + intros b r Hne Hr. by apply (Haw b Hne r).
    + unfold task_ok. cbn. eexists. rewrite lookup_insert_eq. split; [done|]. split; [done|]. cbn. split; [|done]. intros _. apply elem_of_app. right. by left.
  - split; [done|]. intros k' [= <-]. apply (good_change k g t _ a s); try done.
    + unfold tally_ok. cbn. split_and!; try lia. done.
    + intros _. cbn. elsewhere.
    + intros b r Hne Hr. by apply (Haw b Hne r).
    + unfold task_ok. cbn. split; [|done]. eexists. by rewrite lookup_insert_eq.
Qed.
Lemma up_good k g t x a : good k g → tasks k !! t = Some x → at_ x = Up2 a → (∃ s, heap k !! a = Some s ∧ lock s = Some t) →
  (∀ s, heap k !! a = Some s → value s < LONG_MAX) →
  up_step t a k ≠ Crash ∧ ∀ k', up_step t a k = Next k' → good k' (match heap k !! a with Some s => alter (count_up s) a g | None => g end).
Proof.
  intros G Hx Hp (s & Ha & Hl) Hv. specialize (Hv s Ha). unfold up_step, access. rewrite Ha, Z.gtb_ltb.
  destruct (Z.ltb_spec LONG_MAX (value s + 1)) as [|_]; [lia|].
  destruct (gd_sem _ _ G a s Ha) as (y & Hy & (Y1 & Y2 & Y3 & Y4 & Y5)). rewrite (alter_insert_same _ g a y Hy). unfold count_up.
  destruct (waiting_tasks s) as [|w rest] eqn:Ew.
  - split; [done|]. intros k' [= <-]. apply (good_change k g t _ a s); try done.
    + unfold tally_ok. cbn in *. split_and!; try lia. constructor.
    + intros u _. cbn. by rewrite Ew.
    + cbn. by intros ?%not_elem_of_nil.
    + intros _. cbn. elsewhere.
    + intros b r Hne Hr. by apply (away_pc k g t (Up2 a) b G); [rewrite Hx, <-Hp|elsewhere|elsewhere|].
    + unfold task_ok. cbn. split; [|done]. eexists. by rewrite lookup_insert_eq.
  - cbn in Y3. rewrite (proj2 (Z.leb_le _ _)) by lia. split; [done|]. intros k' [= <-].
    apply (good_wake k g t a s w rest); try done; [by rewrite Hx, <-Hp|]. apply NoDup_cons in Y5 as [_ Y5].
    unfold tally_ok. cbn in *. split_and!; try lia. done.
Qed.

Lemma user_good k g t p : good k g → (∀ b, away k t b) → (∃ c, p = entry c ∧ ∀ id, c ≠ cs1550_close id) → good (put_task t (mk_task p true) k) g.
Proof.
  intros G Hb (c & -> & Hc). apply good_goto; [done..|]. unfold task_ok. cbn. destruct c; try done. by destruct (Hc id).
Qed.
Lemma step_good k g e : good k g → gentle e k → step e k ≠ Crash ∧ ∀ k', step e k = Next k' → good k' (count e k g).
Proof.
  intros G Hg. destruct e as [t c|t c|t]; [| |done].
  - assert (∃ c', entry c = entry c' ∧ ∀ id, c' ≠ cs1550_close id) as Hc by (exists c; split; [done|]; intros id ->; done).
    cbn [step count]. destruct (idle k t) eqn:Ei; [|done]. unfold idle in Ei.
    destruct (tasks k !! t) as [x|] eqn:Hx; [|split; [done|]; intros k' [= <-]; apply user_good; [done|intros b; by eapply away_new|done]].
    destruct (at_ x) eqn:Ep; try done; (split; [done|]; intros k' [= <-]; apply user_good; [done| |done]);
      intros b; apply (away_pc k g t (at_ x) b G); rewrite ?Hx; try done; rewrite Ep; elsewhere.
  - cbn [step count gentle] in *. unfold run_task. destruct (tasks k !! t) as [x|] eqn:Hx; [|done]. cbn [fmap option_fmap option_map] in *.
    pose proof (gd_task _ _ G t x Hx) as Hok. unfold task_ok in Hok.
    assert (∀ p, at_ x = p → (∀ b, ¬ holds b p ∧ ¬ sleeps b p) → ∀ b, away k t b) as Haw.
    { intros p Hp Hb b. apply (away_pc k g t p b G); [by rewrite Hx, <-Hp|apply Hb|apply Hb]. }
    destruct (at_ x) eqn:Ep; try done.
    + (* Create0 *) specialize (Haw _ eq_refl ltac:(split; elsewhere)). unfold create_step. destruct (Z.ltb_spec v 0) as [|Hv].
      { split; [done|]. intros k' [= <-]. by apply good_goto. }
      destruct c as [a|]; [|split; [done|]; intros k' [= <-]; by apply good_goto]. case_decide as Ha; [|done]. split; [done|]. intros k' [= <-].
      pose proof (good_alloc k g a v G Ha Hv) as G'. apply good_goto; [done| |].
      * intros b. apply (away_pc _ _ t (at_ x) b G'); [cbn; by rewrite Hx|rewrite Ep; elsewhere|rewrite Ep; elsewhere].
      * unfold task_ok. cbn. rewrite lookup_insert_eq. by split; [eexists|].
    + (* Create1 *) destruct Hok as [[s Ha] Hrun]. unfold access. rewrite Ha. split; [done|]. intros k' [= <-].
      apply (good_lock_change k g t x _ a s); try done; [rewrite Ep; split; elsewhere| | |].
      * intros Hin. specialize (Haw _ eq_refl ltac:(split; elsewhere) a s Ha). by destruct Haw.
      * intros Hl. specialize (Haw _ eq_refl ltac:(split; elsewhere) a s Ha). cbn in Hl. by destruct Haw.
      * unfold task_ok. cbn. rewrite lookup_insert_eq. by split; [eexists|].
    + (* Create2 *) specialize (Haw _ eq_refl ltac:(split; elsewhere)). split; [done|]. intros k' [= <-]. apply good_goto; [by apply good_next|exact Haw|split; [apply Hok|done]].
    + (* Create3 *) specialize (Haw _ eq_refl ltac:(split; elsewhere)). split; [done|]. intros k' [= <-]. apply good_goto; [apply good_list; [done|apply Hok]|exact Haw|done].
    + apply (find_good k g t x id Down1 G Hx); [rewrite Ep; split; elsewhere|by left].
    + apply (take_good k g t x a _ G Hx); [apply Hok|rewrite Ep; split; elsewhere|by left].
    + destruct Hg as [Hc Hv]. apply (down_good k g t x a c G Hx Ep); [apply Hok|done|done].
    + destruct Hok as [Hs Hrun]. apply (release_good k g t x a _ G Hx Hs Hrun); [rewrite Ep; elsewhere|rewrite Ep; elsewhere|by eexists].
    + (* Down3_sleep *) destruct Hok as (s & Ha & Hl & Hrw). unfold release, access. rewrite Ha. split; [done|]. intros k' [= <-].
      apply (good_lock_change k g t x _ a s); try done.
      * intros u Hu. cbn. rewrite Hl. naive_solver.
      * rewrite Ep. intros b Hne. elsewhere.
      * intros Hin. split; [by apply Hrw|]. cbn. elsewhere.
      * unfold task_ok. cbn. eexists. rewrite lookup_insert_eq. split; [done|]. exact Hrw.
    + (* Down4 *) destruct Hok as (s & Ha & Hrw). destruct (running x) eqn:Er; [|done]. split; [done|]. intros k' [= <-]. apply good_goto; [done| |done].
      intros b. destruct (decide (b = a)) as [->|Hne].
      * intros r Hr. assert (r = s) as -> by congruence. split; [by intros Hin%Hrw|]. intros Hl.
        destruct (gd_lock _ _ G a s t Ha Hl) as (x0 & Hx0 & Hh). rewrite Hx in Hx0. injection Hx0 as <-. rewrite Ep in Hh. unfold holds in Hh. naive_solver.
      * apply (away_pc k g t (at_ x) b G); [by rewrite Hx|rewrite Ep; elsewhere|rewrite Ep; elsewhere].
    + apply (find_good k g t x id Up1 G Hx); [rewrite Ep; split; elsewhere|by right].
    + apply (take_good k g t x a _ G Hx); [apply Hok|rewrite Ep; split; elsewhere|by right].
    + apply (up_good k g t x a G Hx Ep); [apply Hok|done].
    + destruct Hok as [Hs Hrun]. apply (release_good k g t x a _ G Hx Hs Hrun); [rewrite Ep; elsewhere|rewrite Ep; elsewhere|by eexists].
Qed.
Lemma reach_good k g : reach k g → good k g.
Proof.
  induction 1 as [|k g e k' _ G Hg E]; [|by destruct (step_good k g e G Hg) as [_ H]; apply H].
  constructor; cbn; try (intros *; by rewrite lookup_empty). by intros a ?%not_elem_of_nil.
Qed.

(** C17: The semaphores work under every interleaving of any number of tasks (as
    long as nobody closes one, no signal arrives and memory lasts): no step
    damages the kernel; the value of a semaphore is its first value and the ups
    less the downs; as many tasks wait as the value is below zero, so that never
    more downs have got through than the first value and the ups allow; a task
    is asleep exactly when it is queued; and at most one task is between taking
    and releasing the spin lock. *)
Theorem semaphores_correct k g : reach k g →
  (∀ e, gentle e k → step e k ≠ Crash) ∧
  (∀ a s, heap k !! a = Some s → ∃ y, g !! a = Some y ∧ value s = made y + ups y - downs y ∧
    Z.of_nat (length (waiting_tasks s)) = Z.max 0 (- value s) ∧ passed y = downs y - Z.of_nat (length (waiting_tasks s)) ∧ passed y ≤ made y + ups y) ∧
  (∀ t x, tasks k !! t = Some x → running x = false ↔ ∃ a s, heap k !! a = Some s ∧ t ∈ waiting_tasks s) ∧
  (∀ t u x y a, tasks k !! t = Some x → tasks k !! u = Some y → holds a (at_ x) → holds a (at_ y) → t = u).
Proof.
  intros R. pose proof (reach_good k g R) as G. split; [intros e He; by apply (step_good k g e G He)|]. split; [|split].
  - intros a s Ha. destruct (gd_sem _ _ G a s Ha) as (y & Hy & (Y1 & Y2 & Y3 & Y4 & Y5)). exists y. split_and!; try done; lia.
  - intros t x Hx. split.
    + intros Hr. pose proof (gd_task _ _ G t x Hx) as Hok. unfold task_ok in Hok.
      destruct (at_ x); try done; try congruence; try (rewrite (proj2 Hok) in Hr; done).
      * destruct Hok as (s & Ha & _ & Hw). exists a, s. split; [done|]. by apply Hw.
      * destruct Hok as (s & Ha & Hw). exists a, s. split; [done|]. by apply Hw.
    + intros (a & s & Ha & Hw). destruct (gd_wait _ _ G a s t Ha Hw) as (x0 & Hx0 & Hr & _). congruence.
  - assert (∀ t x a, tasks k !! t = Some x → holds a (at_ x) → ∃ s, heap k !! a = Some s ∧ lock s = Some t) as Hlk.
    { intros t x a Hx Hh. pose proof (gd_task _ _ G t x Hx) as Hok. unfold task_ok in Hok. unfold holds in Hh.
      destruct Hh as [Hh|[Hh|[Hh|[Hh|Hh]]]]; rewrite Hh in Hok; try exact (proj1 Hok). destruct Hok as (s & Ha & Hl & _). by exists s. }
    intros t u x y a Hx Hy H1 H2. destruct (Hlk t x a Hx H1) as (s & Ha & Hl), (Hlk u y a Hy H2) as (s2 & Ha2 & Hl2). congruence.
Qed.

(** A whole system call of a task that runs alone. *)
Definition alone (t : nat) (c : syscall) (n : nat) : list event := Call t c :: replicate n (Run t None).
Lemma exec_cons e es k k' : step e k = Next k' → exec (e :: es) k = exec es k'.
Proof. intros E. cbn [exec]. by rewrite E. Qed.
(** Steps whose task is known. *)
Lemma run_at t c k x : tasks k !! t = Some x → step (Run t c) k = run_task c t k.
Proof. done. Qed.
Ltac look := unfold run_task; cbn [put_task put_sem put_list put_next free_sem heap tasks sem_list next_id]; rewrite ?lookup_insert_eq; cbn [at_ running].

(** [up] wakes the first of the queue: when it has run, the value is one
    higher, the task that waited longest is out of the queue and its [down]
    returns 0 with its next step, the others still wait in their order. *)
Theorem up_wakes_first k g id a s t w rest : reach k g → search id k = Some a → heap k !! a = Some s → lock s = None → waiting_tasks s = w :: rest →
  idle k t = true → value s < LONG_MAX →
  ∃ k' k'', exec (alone t (cs1550_up id) 4) k = Next k' ∧ tasks k' !! t = Some (mk_task (Returned 0) true) ∧
    heap k' !! a = Some (with_value (value s + 1) rest s) ∧
    step (Run w None) k' = Next k'' ∧ tasks k'' !! w = Some (mk_task (Returned 0) true).
Proof.
  intros R Hs Ha Hl Hw Ht Hv. pose proof (reach_good k g R) as G.
  destruct (gd_sem _ _ G a s Ha) as (y & Hy & (Y1 & Y2 & Y3 & Y4 & Y5)). rewrite Hw in Y3. cbn in Y3.
  destruct (gd_wait _ _ G a s w Ha) as (xw & Hxw & Hrw & Hsw); [rewrite Hw; left|].
  assert (w ≠ t) as Hwt by (intros ->; unfold idle in Ht; rewrite Hxw in Ht; by destruct Hsw as [E|E]; rewrite E in Ht).
  assert (at_ xw = Down4 a) as Hat.
  { destruct Hsw as [Hsw|Hsw]; [|done]. pose proof (gd_task _ _ G w xw Hxw) as Hok. unfold task_ok in Hok. rewrite Hsw in Hok.
    destruct Hok as (r & Hr & Hlr & _). congruence. }
  set (k1 := put_task t (mk_task (Up0 id) true) k). set (k2 := put_task t (mk_task (Up1 a) true) k1).
  set (s3 := with_lock (Some t) s). set (k3 := put_task t (mk_task (Up2 a) true) (put_sem a s3 k2)).
  set (s4 := with_value (value s + 1) rest s3). set (k4 := put_task t (mk_task (Up3 a) true) (wake_up_process w (put_sem a s4 k3))).
  set (k5 := put_task t (mk_task (Returned 0) true) (put_sem a (with_lock None s4) k4)).
  assert (step (Call t (cs1550_up id)) k = Next k1) as E1 by (cbn [step]; by rewrite Ht).
  assert (step (Run t None) k1 = Next k2) as E2.
  { cbn [step]. unfold k1. look. unfold find_then. change (search id (put_task _ _ k)) with (search id k). by rewrite Hs. }
  assert (step (Run t None) k2 = Next k3) as E3.
  { cbn [step]. unfold k2, k1. look. unfold take_lock, access. cbn [put_task heap]. by rewrite Ha, Hl. }
  assert (step (Run t None) k3 = Next k4) as E4.
  { cbn [step]. unfold k3. look. unfold up_step, access. cbn [put_task put_sem heap]. rewrite lookup_insert_eq. unfold s3. cbn [value waiting_tasks with_lock].
    rewrite Hw, Z.gtb_ltb, (proj2 (Z.ltb_ge _ _)), (proj2 (Z.leb_le _ _)) by lia. done. }
  assert (tasks k4 = <[t := mk_task (Up3 a) true]> (<[w := mk_task (Down4 a) true]> (tasks k3))) as Et4.
  { unfold k4, wake_up_process. cbn [put_sem tasks]. unfold k3. cbn [put_task put_sem tasks]. unfold k2, k1. cbn [put_task put_sem tasks].
    rewrite !lookup_insert_ne, Hxw, Hat by done. done. }
  assert (heap k4 !! a = Some s4) as Eh4.
  { unfold k4, wake_up_process. destruct (tasks (put_sem a s4 k3) !! w); cbn [put_task put_sem heap]; by rewrite lookup_insert_eq. }
  assert (step (Run t None) k4 = Next k5) as E5.
  { cbn [step]. unfold run_task. rewrite Et4, lookup_insert_eq. cbn [at_]. unfold release, access. by rewrite Eh4. }
  exists k5, (put_task w (mk_task (Returned 0) true) k5). split; [|split; [|split; [|split]]].
  - unfold alone. cbn [replicate]. by rewrite (exec_cons _ _ _ _ E1), (exec_cons _ _ _ _ E2), (exec_cons _ _ _ _ E3), (exec_cons _ _ _ _ E4), (exec_cons _ _ _ _ E5).
  - unfold k5. cbn [put_task tasks]. by rewrite lookup_insert_eq.
  - unfold k5. cbn [put_task put_sem heap]. rewrite lookup_insert_eq. unfold s4, s3, with_value, with_lock. cbn. by rewrite Hl.
  - cbn [step]. unfold run_task. unfold k5 at 1. cbn [put_task put_sem tasks]. by rewrite lookup_insert_ne, Et4, lookup_insert_ne, lookup_insert_eq by done.
  - cbn [put_task tasks]. by rewrite lookup_insert_eq.
Qed.

Ltac look_up := cbn [step goto entry]; unfold run_task; cbn [put_task put_sem put_list put_next free_sem heap tasks sem_list next_id at_ running value waiting_tasks lock with_lock with_id with_value];
  simplify_map_eq; cbn [put_task put_sem put_list put_next free_sem heap tasks sem_list next_id at_ running value waiting_tasks lock with_lock with_id with_value].

(** What the assumptions exclude goes wrong.  A task that closes a semaphore
    while another is between finding it and taking its spin lock frees it under
    that one.  Two tasks that create semaphores together can be given the same
    identifier.  And a [down] that fails for want of memory leaves the value one
    lower, with nobody in the queue. *)
Theorem semaphore_races k t u id a s v v' b b' : t ≠ u →
  idle k t = true → idle k u = true →
  search id k = Some a → heap k !! a = Some s → lock s = None → waiting_tasks s = [] →
  0 ≤ v → 0 ≤ v' → heap k !! b = None → heap k !! b' = None → b ≠ b' → - LONG_MAX - 1 < value s ≤ 0 →
  exec [Call t (cs1550_down id); Run t None; Call u (cs1550_close id); Run u None; Run u None; Run t None] k = Crash ∧
  (∃ k1, exec [Call t (cs1550_create v); Call u (cs1550_create v'); Run t (Some b); Run u (Some b'); Run t None; Run u None;
    Run t None; Run u None; Run t None; Run u None] k = Next k1 ∧
    tasks k1 !! t = Some (mk_task (Returned (next_id k)) true) ∧ tasks k1 !! u = Some (mk_task (Returned (next_id k)) true) ∧
    sem_list k1 = b' :: b :: sem_list k) ∧
  ∃ k2, exec (alone t (cs1550_down id) 4) k = Next k2 ∧ tasks k2 !! t = Some (mk_task (Returned (- ENOMEM)) true) ∧
    heap k2 !! a = Some (with_value (value s - 1) [] s).
Proof.
  intros Htu Ht Hu Hs Ha Hl Hw Hv Hv' Hb Hb' Hbb Hval.
  assert (∀ p q x, search id (put_task p x q) = search id q) as Hst by done.
  assert (∀ q x, idle (put_task t x q) u = idle q u) as Hid by (intros q x; unfold idle; cbn [put_task tasks]; by rewrite lookup_insert_ne).
  split; [|split].
  - cbn [exec step]. rewrite Ht. cbn [goto entry exec step]. look. unfold find_then. rewrite Hst, Hs. cbn [goto exec step].
    rewrite !Hid, Hu. cbn [goto exec step entry]. look. unfold find_then. rewrite !Hst, Hs.
    unfold access. cbn [put_task heap]. rewrite Ha, Hw. cbn [goto exec step]. look. unfold access. cbn [put_task put_list heap]. rewrite Ha. cbn [goto exec step]. look.
    rewrite !(lookup_insert_ne _ u t) by done. rewrite lookup_insert_eq. cbn [at_]. unfold take_lock, access. cbn [put_task free_sem heap].
    by rewrite lookup_delete_eq.
  - eexists. unfold alone. erewrite exec_cons; [|cbn [step]; by rewrite Ht]. erewrite exec_cons; [|cbn [step]; by rewrite Hid, Hu].
    erewrite exec_cons; [|look_up; unfold create_step; by rewrite (proj2 (Z.ltb_ge v 0)), decide_True by done].
    erewrite exec_cons; [|look_up; unfold create_step; rewrite (proj2 (Z.ltb_ge v' 0)) by done; rewrite decide_True by (look_up; done); done].
    do 6 (erewrite exec_cons; [|by look_up; unfold access; look_up]).
    split; [reflexivity|]. by look_up.
  - eexists. unfold alone. cbn [replicate]. erewrite exec_cons; [|cbn [step]; by rewrite Ht].
    erewrite exec_cons; [|look_up; unfold find_then; by rewrite Hst, Hs].
    erewrite exec_cons; [|look_up; unfold take_lock, access; look_up; by rewrite ?Hl].
    erewrite exec_cons; [|look_up; unfold down_step, access; look_up; rewrite (proj2 (Z.ltb_ge _ _)), (proj2 (Z.ltb_lt _ _)) by lia; done].
    erewrite exec_cons; [|by look_up; unfold release, access; look_up].
    split; [reflexivity|]. look_up. split; [done|]. unfold with_value, with_lock. cbn. by rewrite Hl, Hw.
Qed.

(** ** A run *)

(** Task 0 creates a semaphore with value 0, task 1 waits for it. *)
Definition demo_events : list event :=
  Call 0 (cs1550_create 0) :: Run 0 (Some 5%nat) :: replicate 3 (Run 0 None) ++ Call 1 (cs1550_down 0) :: replicate 4 (Run 1 (Some 9%nat)).
Definition gentleb (e : event) (k : kernel) : bool :=
  match e with
  | Call t (cs1550_close _) => false
  | Call t _ => true
  | Run t c =>
      match at_ <$> tasks k !! t with
      | Some (Down2 a) => match c, heap k !! a with Some _, Some s => - LONG_MAX - 1 <? value s | _, _ => false end
      | Some (Up2 a) => match heap k !! a with Some s => value s <? LONG_MAX | None => false end
      | _ => true
      end
  | Signal _ => false
  end.
Lemma gentleb_ok e k : gentleb e k = true → gentle e k.
Proof.
  destruct e as [t []|t c|t]; cbn; try done. destruct (at_ <$> tasks k !! t) as [[]|]; try done.
  - destruct c; [|done]. destruct (heap k !! a); [|done]. intros H%Z.ltb_lt. split; [done|]. by intros ? [= <-].
  - destruct (heap k !! a); [|done]. intros H%Z.ltb_lt. by intros ? [= <-].
Qed.
Fixpoint run_gentle (es : list event) (k : kernel) (g : gmap nat tally) : option (kernel * gmap nat tally) :=
  match es with
  | [] => Some (k, g)
  | e :: es' => if gentleb e k then match step e k with Next k' => run_gentle es' k' (count e k g) | _ => None end else None
  end.
Lemma run_gentle_reach es : ∀ k g r, reach k g → run_gentle es k g = Some r → reach r.1 r.2.
Proof.
  induction es as [|e es IH]; intros k g r R H; cbn in H; [by injection H as <-|].
  destruct (gentleb e k) eqn:Eg; [|done]. destruct (step e k) eqn:Es; try done. eapply IH; [|exact H]. eapply reach_step; [done|by apply gentleb_ok|done].
Qed.
Definition demo : kernel * gmap nat tally := default (boot, ∅) (run_gentle demo_events boot ∅).
Lemma demo_reach : reach demo.1 demo.2.
Proof.
  assert (run_gentle demo_events boot ∅ = Some demo) as E by (vm_compute; reflexivity). exact (run_gentle_reach _ _ _ _ reach_boot E).
Qed.

Lemma semaphores_correct_witness : ∃ y, demo.2 !! 5%nat = Some y ∧ downs y = 1 ∧ passed y ≤ made y + ups y.
Proof.
  destruct (semaphores_correct demo.1 demo.2 demo_reach) as (_ & H & _).
  destruct (H 5%nat (mk_sem (-1) 0 None [1%nat])) as (y & Hy & _ & _ & _ & Hp); [vm_compute; reflexivity|]. exists y. split; [exact Hy|]. split; [|exact Hp].
  vm_compute in Hy. injection Hy as <-. reflexivity.
Defined.
Lemma up_wakes_first_witness : ∃ k' k'', exec (alone 2 (cs1550_up 0) 4) demo.1 = Next k' ∧ step (Run 1 None) k' = Next k'' ∧
  tasks k'' !! 1%nat = Some (mk_task (Returned 0) true).
Proof.
  destruct (up_wakes_first demo.1 demo.2 0 5%nat (mk_sem (-1) 0 None [1%nat]) 2%nat 1%nat [] demo_reach) as (k' & k'' & E & _ & _ & E2 & Ht);
    [vm_compute; reflexivity..|]. by exists k', k''.
Defined.
(** A semaphore that nobody waits for. *)
Definition demo_free : kernel := mk_kernel {[5%nat := mk_sem 0 3 None []]} [5%nat] 4 ∅.
Lemma semaphore_races_witness :
  exec [Call 1 (cs1550_down 3); Run 1 None; Call 2 (cs1550_close 3); Run 2 None; Run 2 None; Run 1 None] demo_free = Crash.
Proof.
  apply (semaphore_races demo_free 1%nat 2%nat 3 5%nat (mk_sem 0 3 None []) 1 1 6%nat 7%nat); try done; try (vm_compute; reflexivity).
Defined.
