(* ===== verification/Queue.v ===== *)
(** * The string queue

    CS449/queuelab-handout/queue.c: a singly linked list of copied strings.
    The heap has three kinds of blocks, nodes, character arrays and queue
    headers, each with its own addresses; a block that was freed is gone, and
    touching it is undefined behaviour.  [malloc] may fail at any call. *)
From S2P Require Import Prelude.
Open Scope Z_scope.

Abbreviation loc := positive.
Abbreviation ptr := (option positive).

Record list_ele := mk_ele { value : ptr; next : ptr }.
Record queue := mk_queue { q_size_ : Z; q_head : ptr; q_tail : ptr }.

(** A character that was never written is [None]. *)
Record qheap := mk_qheap {
  eles : gmap loc list_ele;
  strs : gmap loc (list (option Z));
  queues : gmap loc queue;
  calls : nat
}.

Definition set_eles (m : gmap loc list_ele) (h : qheap) : qheap :=
  mk_qheap m (strs h) (queues h) (calls h).
Definition set_strs (m : gmap loc (list (option Z))) (h : qheap) : qheap :=
  mk_qheap (eles h) m (queues h) (calls h).
Definition set_queues (m : gmap loc queue) (h : qheap) : qheap :=
  mk_qheap (eles h) (strs h) m (calls h).
Definition next_call (h : qheap) : qheap := mk_qheap (eles h) (strs h) (queues h) (S (calls h)).

(** ** Access through pointers *)

Definition get_ele (p : ptr) : prog qheap list_ele := reads (λ h, l ← p; eles h !! l).
Definition put_ele (p : ptr) (f : list_ele → list_ele) : prog qheap unit :=
  updates (λ h, l ← p; e ← eles h !! l; Some (set_eles (<[l := f e]> (eles h)) h)).
Definition set_value (v : ptr) (e : list_ele) : list_ele := mk_ele v (next e).
Definition set_next (n : ptr) (e : list_ele) : list_ele := mk_ele (value e) n.

Definition get_queue (q : loc) : prog qheap queue := reads (λ h, queues h !! q).
Definition put_queue (q : loc) (f : queue → option queue) : prog qheap unit :=
  updates (λ h, x ← queues h !! q; y ← f x; Some (set_queues (<[q := y]> (queues h)) h)).
Definition set_head (p : ptr) (q : queue) : option queue := Some (mk_queue (q_size_ q) p (q_tail q)).
Definition set_tail (p : ptr) (q : queue) : option queue := Some (mk_queue (q_size_ q) (q_head q) p).
Definition add_size (d : Z) (q : queue) : option queue :=
  let n := q_size_ q + d in
  if (-2147483648 <=? n) && (n <=? 2147483647) then Some (mk_queue n (q_head q) (q_tail q)) else None.

Definition read_char (p : ptr) (i : Z) : prog qheap Z :=
  reads (λ h, l ← p; b ← strs h !! l; c ← aget b i; c).
Definition write_char (p : ptr) (i c : Z) : prog qheap unit :=
  updates (λ h, l ← p; b ← strs h !! l; b' ← aset b i (Some c); Some (set_strs (<[l := b']> (strs h)) h)).

(** [free]: a null pointer is ignored, a pointer to no block is undefined. *)
Definition free_ele (p : ptr) : prog qheap unit :=
  match p with
  | None => mret tt
  | Some l => updates (λ h, _ ← eles h !! l; Some (set_eles (delete l (eles h)) h))
  end.
Definition free_str (p : ptr) : prog qheap unit :=
  match p with
  | None => mret tt
  | Some l => updates (λ h, _ ← strs h !! l; Some (set_strs (delete l (strs h)) h))
  end.
Definition free_queue (q : loc) : prog qheap unit :=
  updates (λ h, _ ← queues h !! q; Some (set_queues (delete q (queues h)) h)).

(** ** Strings *)

(** [get_str_length]: the length with the null byte, in an [int]. *)
Fixpoint str_loop (fuel : nat) (s : ptr) (i : Z) : prog qheap Z :=
  match fuel with
  | O => λ _, Fuel
  | S fuel' =>
      c ← read_char s i;
      if c =? 0 then mret i else (i' ← lift (int_incr i); str_loop fuel' s i')
  end.
Definition block_fuel (s : ptr) (h : qheap) : nat :=
  match s with
  | Some l => S (length (default [] (strs h !! l)))
  | None => 1
  end.
Definition get_str_length (s : ptr) : prog qheap Z :=
  h ← get; n ← str_loop (block_fuel s h) s 0; lift (int_incr n).

(** [copy_n_chars] *)
Fixpoint copy_loop (n : nat) (src dst : ptr) (i : Z) : prog qheap unit :=
  match n with
  | O => mret tt
  | S n' => c ← read_char src i; write_char dst i c;; copy_loop n' src dst (i + 1)
  end.
Definition is_null (p : ptr) : bool := match p with None => true | Some _ => false end.
Definition copy_n_chars (n : Z) (src dst : ptr) : prog qheap unit :=
  if (n >? 0) && negb (is_null src) && negb (is_null dst)
  then copy_loop (Z.to_nat (n - 1)) src dst 0;; write_char dst (n - 1) 0
  else mret tt.

Section queue.
(** Which calls of [malloc] succeed, and what a fresh node holds. *)
Context (malloc_ok : nat → bool) (junk : nat → list_ele).

Definition malloc_ele : prog qheap ptr := λ h,
  if malloc_ok (calls h)
  then let l := fresh (dom (eles h)) in
       Ret (Some l) (next_call (set_eles (<[l := junk (calls h)]> (eles h)) h))
  else Ret None (next_call h).
Definition malloc_str (n : Z) : prog qheap ptr := λ h,
  if malloc_ok (calls h)
  then let l := fresh (dom (strs h)) in
       Ret (Some l) (next_call (set_strs (<[l := replicate (Z.to_nat n) None]> (strs h)) h))
  else Ret None (next_call h).
Definition malloc_queue : prog qheap (option loc) := λ h,
  if malloc_ok (calls h)
  then let l := fresh (dom (queues h)) in
       Ret (Some l) (next_call (set_queues (<[l := mk_queue 0 None None]> (queues h)) h))
  else Ret None (next_call h).

(** ** The interface *)

(** [q_new]: every field of the new block is written. *)
Definition q_new : prog qheap (option loc) :=
  q ← malloc_queue;
  match q with
  | None => mret None
  | Some l =>
      put_queue l (set_head None);; put_queue l (set_tail None);;
      put_queue l (λ x, Some (mk_queue 0 (q_head x) (q_tail x)));;
      mret (Some l)
  end.

(** The loop of [q_free]. *)
Fixpoint free_loop (fuel : nat) (q : loc) : prog qheap unit :=
  match fuel with
  | O => λ _, Fuel
  | S fuel' =>
      x ← get_queue q;
      e ← get_ele (q_head x);
      if is_null (next e) then mret tt
      else
        let curr_node := q_head x in
        let next_node := next e in
        put_ele curr_node (set_next None);;
        e1 ← get_ele curr_node; free_str (value e1);;
        put_ele curr_node (set_value None);;
        free_ele curr_node;;
        put_queue q (set_head next_node);;
        free_loop fuel' q
  end.
Definition list_fuel (h : qheap) : nat := S (size (eles h)).

Definition q_free (q : option loc) : prog qheap unit :=
  match q with
  | None => mret tt
  | Some l =>
      x ← get_queue l;
      (if is_null (q_head x) then mret tt
       else
         h ← get;
         free_loop (list_fuel h) l;;
         x1 ← get_queue l;
         e ← get_ele (q_head x1); free_str (value e);;
         put_ele (q_head x1) (set_value None);;
         free_ele (q_head x1);;
         put_queue l (set_head None);; put_queue l (set_tail None));;
      free_queue l
  end.

(** The two allocations and the copy that both insertions start with: the new
    node, or [None] when memory ran out. *)
Definition new_ele (s : ptr) : prog qheap ptr :=
  newe ← malloc_ele;
  if is_null newe then mret None
  else
    str_len ← get_str_length s;
    v ← malloc_str str_len;
    put_ele newe (set_value v);;
    e ← get_ele newe;
    if is_null (value e) then free_ele newe;; mret None
    else copy_n_chars str_len s (value e);; mret newe.

Definition q_insert_head (q : option loc) (s : ptr) : prog qheap bool :=
  match q with
  | None => mret false
  | Some l =>
      newh ← new_ele s;
      if is_null newh then mret false
      else
        x ← get_queue l;
        (if is_null (q_tail x)
         then put_ele newh (set_next None);; put_queue l (set_tail newh)
         else mret tt);;
        x1 ← get_queue l;
        put_ele newh (set_next (q_head x1));;
        put_queue l (set_head newh);;
        put_queue l (add_size 1);;
        mret true
  end.

Definition q_insert_tail (q : option loc) (s : ptr) : prog qheap bool :=
  match q with
  | None => mret false
  | Some l =>
      newt ← new_ele s;
      if is_null newt then mret false
      else
        put_ele newt (set_next None);;
        x ← get_queue l;
        (if is_null (q_head x) && is_null (q_tail x)
         then put_queue l (set_head newt);; put_queue l (set_tail newt)
         else put_ele (q_tail x) (set_next newt);; put_queue l (set_tail newt));;
        put_queue l (add_size 1);;
        mret true
  end.

(** [bufsize] is a [size_t]; it is passed on as an [int]. *)
Definition q_remove_head (q : option loc) (sp : ptr) (bufsize : Z) : prog qheap bool :=
  match q with
  | None => mret false
  | Some l =>
      x ← get_queue l;
      if is_null (q_head x) then mret false
      else if is_null sp then mret false
      else
        let to_remove := q_head x in
        e ← get_ele to_remove;
        let removed_string := value e in
        str_len ← get_str_length removed_string;
        (if u64 str_len >? bufsize
         then copy_n_chars (i32 bufsize) removed_string sp
         else copy_n_chars str_len removed_string sp);;
        e1 ← get_ele (q_head x);
        (if negb (is_null (next e1))
         then put_queue l (set_head (next e1))
         else put_queue l (set_head None);; put_queue l (set_tail None));;
        put_queue l (add_size (-1));;
        free_str removed_string;;
        free_ele to_remove;;
        mret true
  end.

Definition q_size (q : option loc) : prog qheap Z :=
  match q with
  | None => mret 0
  | Some l => x ← get_queue l; mret (q_size_ x)
  end.

(** The loop of [q_reverse]: its last [curr_node] and [next_node]. *)
Fixpoint reverse_loop (fuel : nat) (curr_node next_node : ptr) : prog qheap (ptr * ptr) :=
  match fuel with
  | O => λ _, Fuel
  | S fuel' =>
      e ← get_ele next_node;
      if is_null (next e) then mret (curr_node, next_node)
      else
        let temp_node := next e in
        put_ele next_node (set_next curr_node);;
        reverse_loop fuel' next_node temp_node
  end.

Definition q_reverse (q : option loc) : prog qheap unit :=
  match q with
  | None => mret tt
  | Some l =>
      x ← get_queue l;
      if is_null (q_head x) then mret tt
      else
        e ← get_ele (q_head x);
        if is_null (next e) then mret tt
        else
          h ← get;
          r ← reverse_loop (list_fuel h) (q_head x) (next e);
          let '(curr_node, next_node) := r in
          put_ele next_node (set_next curr_node);;
          x1 ← get_queue l;
          put_ele (q_head x1) (set_next None);;
          let temp := q_head x1 in
          put_queue l (set_head (q_tail x1));;
          put_queue l (set_tail temp)
  end.
End queue.

(** ** Specification

    A cell is a node, the block of its string, and the string. *)

Abbreviation cell := (loc * loc * list Z)%type.
Abbreviation ele_locs cells := (cells.*1.*1).
Abbreviation str_locs cells := (cells.*1.*2).

(** A string as a character array, and a string an [int] can measure. *)
Definition cstr (v : list Z) : list (option Z) := (Some <$> v) ++ [Some 0].
Definition text_ok (v : list Z) : Prop := 0 ∉ v ∧ Z.of_nat (length v) < 2147483647.

Definition first (cells : list cell) (stop : ptr) : ptr :=
  match cells with [] => stop | (l, _, _) :: _ => Some l end.
Definition last_ptr (cells : list cell) : ptr := (λ c : cell, c.1.1) <$> last cells.

Fixpoint lseg (m : gmap loc list_ele) (cells : list cell) (stop : ptr) : Prop :=
  match cells with
  | [] => True
  | (l, sl, _) :: cells' => m !! l = Some (mk_ele (Some sl) (first cells' stop)) ∧ lseg m cells' stop
  end.

(** The list at the head of the queue [q], whose other fields are [sz] and [tl],
    holds [cells]; everything else in the heap is [F]. *)
Record list_rep (F h : qheap) (q : loc) (sz : Z) (tl : ptr) (cells : list cell) : Prop := {
  qr_queue : queues h !! q = Some (mk_queue sz (first cells None) tl);
  qr_seg : lseg (eles h) cells None;
  qr_strs : ∀ l sl v, (l, sl, v) ∈ cells → strs h !! sl = Some (cstr v) ∧ text_ok v;
  qr_nodup : NoDup (ele_locs cells);
  qr_nodup' : NoDup (str_locs cells);
  qr_eles : ∀ l, (l ∈ ele_locs cells → eles F !! l = None) ∧ (l ∉ ele_locs cells → eles h !! l = eles F !! l);
  qr_chars : ∀ l, (l ∈ str_locs cells → strs F !! l = None) ∧ (l ∉ str_locs cells → strs h !! l = strs F !! l);
  qr_queues : queues F !! q = None ∧ ∀ l, l ≠ q → queues h !! l = queues F !! l
}.

(** The queue [q] holds [cells]. *)
Definition q_rep (F h : qheap) (q : loc) (cells : list cell) : Prop :=
  list_rep F h q (Z.of_nat (length cells)) (last_ptr cells) cells.

(** The caller's string at [s]: [v] up to its null byte. *)
Definition holds_str (h : qheap) (s : loc) (v : list Z) : Prop :=
  ∃ rest, strs h !! s = Some (cstr v ++ rest) ∧ text_ok v.

(** What a removal leaves in a buffer of [bufsize] bytes at [sp]. *)
Definition copied (v : list Z) (bufsize : Z) (b : list (option Z)) : list (option Z) :=
  let n := Z.min bufsize (Z.of_nat (length v) + 1) in
  if n >? 0 then (Some <$> take (Z.to_nat (n - 1)) v) ++ Some 0 :: drop (Z.to_nat n) b else b.

(** ** Lemmas: segments *)

Lemma lseg_frame m m' cells stop :
  (∀ l, l ∈ ele_locs cells → m' !! l = m !! l) → lseg m cells stop → lseg m' cells stop.
Proof.
  induction cells as [|[[l sl] v] cells IH]; intros Hm Hs; [done|]. simpl in *. destruct Hs as [H1 H2].
  split; [rewrite Hm; [done|set_solver]|]. apply IH; [set_solver|done].
Qed.

Lemma lseg_first_app c1 c2 stop : first (c1 ++ c2) stop = first c1 (first c2 stop).
Proof. by destruct c1 as [|[[l sl] v] c1]. Qed.

Lemma lseg_app m c1 c2 stop : lseg m (c1 ++ c2) stop ↔ lseg m c1 (first c2 stop) ∧ lseg m c2 stop.
Proof.
  induction c1 as [|[[l sl] v] c1 IH]; simpl; [naive_solver|]. rewrite IH, lseg_first_app. naive_solver.
Qed.

Lemma lseg_snoc m cells l sl v stop stop' nx :
  lseg m (cells ++ [(l, sl, v)]) stop → l ∉ ele_locs cells → nx = stop' →
  lseg (<[l := mk_ele (Some sl) nx]> m) (cells ++ [(l, sl, v)]) stop'.
Proof.
  intros [H1 [H2 _]]%lseg_app Hl ->. apply lseg_app. split; [|split; [apply lookup_insert_eq|done]].
  simpl in *. eapply lseg_frame; [|exact H1]. intros k Hk. rewrite lookup_insert_ne; [done|]. intros <-. done.
Qed.

(** ** Lemmas: strings *)

Lemma cstr_length v : length (cstr v) = S (length v).
Proof. unfold cstr. rewrite length_app, length_fmap. simpl. lia. Qed.

Lemma cstr_lookup v rest i c : v !! i = Some c → (cstr v ++ rest) !! i = Some (Some c).
Proof.
  intros H. rewrite lookup_app_l by (rewrite cstr_length; apply lookup_lt_Some in H; lia).
  unfold cstr. rewrite lookup_app_l by (rewrite length_fmap; by eapply lookup_lt_Some).
  by rewrite list_lookup_fmap, H.
Qed.

Lemma cstr_end v rest : (cstr v ++ rest) !! length v = Some (Some 0).
Proof.
  rewrite lookup_app_l by (rewrite cstr_length; lia). unfold cstr.
  rewrite lookup_app_r by (rewrite length_fmap; lia). by rewrite length_fmap, Nat.sub_diag.
Qed.

Lemma aget_nat {A} (l : list A) (i : nat) : aget l (Z.of_nat i) = l !! i.
Proof. unfold aget. rewrite (proj2 (Z.ltb_ge _ _)) by lia. by rewrite Nat2Z.id. Qed.

Lemma read_char_ok h s b i c :
  strs h !! s = Some b → b !! i = Some (Some c) → read_char (Some s) (Z.of_nat i) h = Ret c h.
Proof. intros Hs Hi. apply reads_Some. simpl. rewrite Hs. simpl. by rewrite aget_nat, Hi. Qed.

Lemma str_loop_ok h s v rest i fuel :
  strs h !! s = Some (cstr v ++ rest) → text_ok v → (i ≤ length v)%nat → (length v - i < fuel)%nat →
  str_loop fuel (Some s) (Z.of_nat i) h = Ret (Z.of_nat (length v)) h.
Proof.
  intros Hs [Hz Hl]. revert i. induction fuel as [|fuel IH]; intros i Hi Hf; [lia|]. simpl.
  destruct (decide (i = length v)) as [->|Hne].
  - by run (read_char_ok h s _ _ _ Hs (cstr_end v rest)).
  - destruct (v !! i) as [c|] eqn:Ec; [|apply lookup_ge_None in Ec; lia].
    run (read_char_ok h s _ _ _ Hs (cstr_lookup v rest i c Ec)).
    destruct (Z.eqb_spec c 0) as [->|_]; [destruct Hz; by eapply list_elem_of_lookup_2|].
    run (lift_Some _ _ h (int_incr_ok (Z.of_nat i) ltac:(lia))).
    replace (Z.of_nat i + 1) with (Z.of_nat (S i)) by lia. apply IH; lia.
Qed.

Lemma get_str_length_ok h s v : holds_str h s v →
  get_str_length (Some s) h = Ret (Z.of_nat (length v) + 1) h.
Proof.
  intros (rest & Hs & Ht). unfold get_str_length. run (eq_refl (get h)).
  rewrite (bind_Ret _ _ _ (Z.of_nat (length v)) h).
  - apply lift_Some, int_incr_ok, Ht.
  - change 0 with (Z.of_nat 0). eapply str_loop_ok; [exact Hs|done|lia|].
    unfold block_fuel. rewrite Hs. simpl. rewrite length_app, cstr_length. lia.
Qed.

Definition poke (d : loc) (b : list (option Z)) (h : qheap) : qheap := set_strs (<[d := b]> (strs h)) h.

Lemma write_char_ok h d b i c : strs h !! d = Some b → (i < length b)%nat →
  write_char (Some d) (Z.of_nat i) c h = Ret tt (poke d (<[i := Some c]> b) h).
Proof.
  intros Hd Hi. apply updates_Some. simpl. rewrite Hd. simpl. rewrite aset_ok by lia. by rewrite Nat2Z.id.
Qed.

Lemma poke_poke d b b' h : poke d b (poke d b' h) = poke d b h.
Proof. unfold poke, set_strs. simpl. by rewrite insert_insert_eq. Qed.

Lemma copy_loop_ok n h s d v rest b i :
  s ≠ d → strs h !! s = Some (cstr v ++ rest) → strs h !! d = Some b →
  (i + n ≤ length v)%nat → (i + n ≤ length b)%nat →
  copy_loop n (Some s) (Some d) (Z.of_nat i) h =
    Ret tt (poke d (take i b ++ (Some <$> take n (drop i v)) ++ drop (i + n) b) h).
Proof.
  intros Hsd. revert h b i. induction n as [|n IH]; intros h b i Hs Hd Hv Hb.
  - simpl. rewrite Nat.add_0_r, take_drop. unfold poke. rewrite insert_id by done. by destruct h.
  - simpl. destruct (v !! i) as [c|] eqn:Ec; [|apply lookup_ge_None in Ec; lia].
    run (read_char_ok h s _ _ _ Hs (cstr_lookup v rest i c Ec)).
    run (write_char_ok h d b i c Hd ltac:(lia)).
    replace (Z.of_nat i + 1) with (Z.of_nat (S i)) by lia.
    rewrite (IH _ (<[i := Some c]> b) (S i)); [|unfold poke; simpl; by rewrite lookup_insert_ne
      |apply lookup_insert_eq|lia|rewrite length_insert; lia].
    rewrite poke_poke. do 2 f_equal.
    rewrite (drop_S v c i Ec). cbn [take fmap list_fmap]. replace (i + S n)%nat with (S i + n)%nat by lia.
    rewrite drop_insert_lt by lia. rewrite (take_S_r _ i (Some c)) by (apply list_lookup_insert_eq; lia).
    rewrite take_insert_ge by lia. by rewrite <-app_assoc.
Qed.

Lemma copy_n_chars_ok h s d v rest b n :
  s ≠ d → strs h !! s = Some (cstr v ++ rest) → strs h !! d = Some b →
  (n ≤ S (length v))%nat → (n ≤ length b)%nat →
  copy_n_chars (Z.of_nat n) (Some s) (Some d) h =
    Ret tt (if decide (n = 0%nat) then h
            else poke d ((Some <$> take (n - 1) v) ++ Some 0 :: drop n b) h).
Proof.
  intros Hsd Hs Hd Hv Hb. unfold copy_n_chars. cbn [is_null negb]. rewrite !andb_true_r.
  destruct n as [|n]; [done|]. rewrite (proj2 (Z.gtb_lt _ _)) by lia.
  replace (Z.of_nat (S n) - 1) with (Z.of_nat n) by lia. rewrite Nat2Z.id.
  change 0 with (Z.of_nat 0) at 1. run (copy_loop_ok n h s d v rest b 0 Hsd Hs Hd ltac:(lia) ltac:(lia)).
  change (Z.of_nat 0) with 0. set (b1 := take 0 b ++ _).
  assert (length (Some <$> take n (drop 0 v)) = n) as Hn.
  { rewrite length_fmap, drop_0, length_take. lia. }
  rewrite (write_char_ok (poke d b1 h) d b1 n 0 (lookup_insert_eq _ _ _)).
  - rewrite poke_poke. rewrite decide_False by done. do 2 f_equal.
    unfold b1. rewrite take_0, app_nil_l, Nat.add_0_l. replace (S n - 1)%nat with n by lia. rewrite drop_0 in *.
    rewrite insert_app_r_alt by lia. rewrite Hn, Nat.sub_diag. f_equal.
    destruct (b !! n) as [x|] eqn:Ex; [|apply lookup_ge_None in Ex; lia].
    by rewrite (drop_S b x n Ex).
  - unfold b1. rewrite !length_app, Hn, length_take, length_drop. lia.
Qed.

(** ** Lemmas: one step on an explicit heap *)
Section steps.
Context (em : gmap loc list_ele) (sm : gmap loc (list (option Z))) (qm : gmap loc queue) (n : nat).
Notation H := (mk_qheap em sm qm n).

Lemma get_ele_run l e : em !! l = Some e → get_ele (Some l) H = Ret e H.
Proof. intros E. by apply reads_Some. Qed.
Lemma put_ele_run l f e : em !! l = Some e →
  put_ele (Some l) f H = Ret tt (mk_qheap (<[l := f e]> em) sm qm n).
Proof. intros E. apply updates_Some. simpl. by rewrite E. Qed.
Lemma free_ele_run l e : em !! l = Some e → free_ele (Some l) H = Ret tt (mk_qheap (delete l em) sm qm n).
Proof. intros E. apply updates_Some. simpl. by rewrite E. Qed.
Lemma free_str_run l b : sm !! l = Some b → free_str (Some l) H = Ret tt (mk_qheap em (delete l sm) qm n).
Proof. intros E. apply updates_Some. simpl. by rewrite E. Qed.
Lemma get_queue_run q x : qm !! q = Some x → get_queue q H = Ret x H.
Proof. intros E. by apply reads_Some. Qed.
Lemma put_queue_run q f x y : qm !! q = Some x → f x = Some y →
  put_queue q f H = Ret tt (mk_qheap em sm (<[q := y]> qm) n).
Proof. intros E Ef. apply updates_Some. simpl. rewrite E. simpl. by rewrite Ef. Qed.
End steps.

Lemma add_size_ok d sz p t : -2147483648 ≤ sz + d ≤ 2147483647 →
  add_size d (mk_queue sz p t) = Some (mk_queue (sz + d) p t).
Proof.
  intros Hr. unfold add_size. simpl. by rewrite !(proj2 (Z.leb_le _ _)) by lia.
Qed.

Section ops.
Context (malloc_ok : nat → bool) (junk : nat → list_ele).

(** A new node holds a copy of the string, or nothing has changed. *)
Lemma new_ele_ok em sm qm n s v rest :
  sm !! s = Some (cstr v ++ rest) → text_ok v →
  ∃ n', (new_ele malloc_ok junk (Some s) (mk_qheap em sm qm n) = Ret None (mk_qheap em sm qm n') ∧
           (malloc_ok n = false ∨ malloc_ok (S n) = false)) ∨
    (∃ l sl nx, em !! l = None ∧ sm !! sl = None ∧
       new_ele malloc_ok junk (Some s) (mk_qheap em sm qm n) =
         Ret (Some l) (mk_qheap (<[l := mk_ele (Some sl) nx]> em) (<[sl := cstr v]> sm) qm n')).
Proof.
  intros Hs Ht. unfold new_ele.
  destruct (malloc_ok n) eqn:E1.
  2:{ exists (S n). left. split; [|by left]. rewrite (bind_Ret _ _ _ None (mk_qheap em sm qm (S n))); [done|].
      unfold malloc_ele. simpl. by rewrite E1. }
  set (l := fresh (dom em)). assert (em !! l = None) as Hl by apply not_elem_of_dom_1, is_fresh.
  rewrite (bind_Ret _ _ _ (Some l) (mk_qheap (<[l := junk n]> em) sm qm (S n))).
  2:{ unfold malloc_ele. simpl. by rewrite E1. }
  cbn [is_null]. set (em1 := <[l := junk n]> em). assert (em1 !! l = Some (junk n)) as Hl1 by apply lookup_insert_eq.
  run (get_str_length_ok (mk_qheap em1 sm qm (S n)) s v ltac:(by exists rest)).
  destruct (malloc_ok (S n)) eqn:E2.
  2:{ exists (S (S n)). left. split; [|by right].
      rewrite (bind_Ret _ _ _ None (mk_qheap em1 sm qm (S (S n)))); [|unfold malloc_str; simpl; by rewrite E2].
      run (put_ele_run em1 sm qm (S (S n)) l (set_value None) _ Hl1).
      set (em2 := <[l := _]> em1). assert (em2 !! l = Some (set_value None (junk n))) as Hl2 by apply lookup_insert_eq.
      run (get_ele_run em2 sm qm (S (S n)) l _ Hl2). cbn [is_null value set_value].
      run (free_ele_run em2 sm qm (S (S n)) l _ Hl2). unfold em2, em1.
      rewrite !delete_insert_eq. by rewrite delete_id by done. }
  set (sl := fresh (dom sm)). assert (sm !! sl = None) as Hsl by apply not_elem_of_dom_1, is_fresh.
  exists (S (S n)). right. exists l, sl, (next (junk n)). split_and!; [done|done|].
  set (b := replicate (S (length v)) None : list (option Z)).
  rewrite (bind_Ret _ _ _ (Some sl) (mk_qheap em1 (<[sl := b]> sm) qm (S (S n)))).
  2:{ unfold malloc_str. simpl. rewrite E2. unfold b. by replace (Z.to_nat (Z.of_nat (length v) + 1)) with (S (length v)) by lia. }
  run (put_ele_run em1 (<[sl := b]> sm) qm (S (S n)) l (set_value (Some sl)) _ Hl1).
  set (em2 := <[l := _]> em1). assert (em2 !! l = Some (set_value (Some sl) (junk n))) as Hl2 by apply lookup_insert_eq.
  run (get_ele_run em2 (<[sl := b]> sm) qm (S (S n)) l _ Hl2). cbn [is_null value set_value].
  assert (s ≠ sl) as Hne by congruence.
  assert (copy_n_chars (Z.of_nat (length v) + 1) (Some s) (Some sl) (mk_qheap em2 (<[sl := b]> sm) qm (S (S n)))
    = Ret tt (mk_qheap em2 (<[sl := cstr v]> sm) qm (S (S n)))) as Ec.
  { replace (Z.of_nat (length v) + 1) with (Z.of_nat (S (length v))) by lia.
    rewrite (copy_n_chars_ok _ s sl v rest b (S (length v))); [|done|simpl; by rewrite lookup_insert_ne
      |apply lookup_insert_eq|lia|unfold b; rewrite length_replicate; lia].
    rewrite decide_False by done. unfold poke, set_strs. simpl. rewrite insert_insert_eq. do 3 f_equal.
    unfold b, cstr. rewrite drop_ge by (rewrite length_replicate; lia).
    by rewrite Nat.sub_0_r, take_ge by lia. }
  run Ec. unfold em2, em1. rewrite insert_insert_eq. done.
Qed.

(** What a fresh node has to do with the cells. *)
Lemma rep_fresh F h q cells l sl : q_rep F h q cells → eles h !! l = None → strs h !! sl = None →
  l ∉ ele_locs cells ∧ eles F !! l = None ∧ sl ∉ str_locs cells ∧ strs F !! sl = None.
Proof.
  intros R Hl Hsl.
  assert (l ∉ ele_locs cells) as H1.
  { intros Hin. apply list_elem_of_fmap in Hin as ([l' sl'] & El & Hin). simpl in El. subst l'.
    apply list_elem_of_fmap in Hin as ([[l' sl''] v] & [= <- <-] & Hin).
    apply list_elem_of_split in Hin as (c1 & c2 & ->).
    pose proof (qr_seg _ _ _ _ _ _ R) as [_ [Hx _]]%lseg_app. by rewrite Hl in Hx. }
  assert (sl ∉ str_locs cells) as H2.
  { intros Hin. apply list_elem_of_fmap in Hin as ([l' sl'] & El & Hin). simpl in El. subst sl'.
    apply list_elem_of_fmap in Hin as ([[l'' sl''] v] & [= <- <-] & Hin).
    destruct (qr_strs _ _ _ _ _ _ R _ _ _ Hin) as [Hx _]. by rewrite Hsl in Hx. }
  split_and!; [done| |done|].
  - by rewrite <-(proj2 (qr_eles _ _ _ _ _ _ R l) H1).
  - by rewrite <-(proj2 (qr_chars _ _ _ _ _ _ R sl) H2).
Qed.

(** The heap after an insertion, wherever the new cell went. *)
Lemma rep_add F h h' q cells cells' l sl v :
  q_rep F h q cells → eles h !! l = None → strs h !! sl = None → text_ok v →
  cells' ≡ₚ (l, sl, v) :: cells →
  queues h' = <[q := mk_queue (Z.of_nat (length cells')) (first cells' None) (last_ptr cells')]> (queues h) →
  strs h' = <[sl := cstr v]> (strs h) → lseg (eles h') cells' None →
  (∀ k, k ≠ l → k ∉ ele_locs cells → eles h' !! k = eles h !! k) →
  q_rep F h' q cells'.
Proof.
  intros R Hl Hsl Ht Hp Hq Hs Hseg Hframe.
  destruct (rep_fresh F h q cells l sl R Hl Hsl) as (N1 & N2 & N3 & N4).
  assert (ele_locs cells' ≡ₚ l :: ele_locs cells) as P1 by by rewrite Hp.
  assert (str_locs cells' ≡ₚ sl :: str_locs cells) as P2 by by rewrite Hp.
  destruct (qr_queues _ _ _ _ _ _ R) as [Q1 Q2]. constructor.
  - rewrite Hq. apply lookup_insert_eq.
  - done.
  - intros k sk w. rewrite Hp, Hs. intros [[= -> -> ->]|Hin]%elem_of_cons; [by rewrite lookup_insert_eq|].
    destruct (qr_strs _ _ _ _ _ _ R _ _ _ Hin) as [Hk Hw]. rewrite lookup_insert_ne; [done|].
    intros <-. apply N3. apply list_elem_of_fmap. exists (k, sl). split; [done|].
    apply list_elem_of_fmap. by exists (k, sl, w).
  - rewrite P1. apply NoDup_cons. split; [done|apply R].
  - rewrite P2. apply NoDup_cons. split; [done|apply R].
  - intros k. rewrite P1, elem_of_cons. split.
    + intros [->|Hk]; [done|by apply R].
    + intros Hk. rewrite Hframe by tauto. apply R. tauto.
  - intros k. rewrite P2, elem_of_cons, Hs. split.
    + intros [->|Hk]; [done|by apply R].
    + intros Hk. rewrite lookup_insert_ne by (intros ->; tauto). apply R. tauto.
  - split; [done|]. intros k Hk. rewrite Hq, lookup_insert_ne by done. by apply Q2.
Qed.

Lemma insert_head_ok F h q cells s v :
  q_rep F h q cells → holds_str h s v → Z.of_nat (length cells) < 2147483647 →
  ∃ r h', q_insert_head malloc_ok junk (Some q) (Some s) h = Ret r h' ∧
    ((r = false ∧ eles h' = eles h ∧ strs h' = strs h ∧ queues h' = queues h ∧
       (malloc_ok (calls h) = false ∨ malloc_ok (S (calls h)) = false)) ∨
     (r = true ∧ ∃ l sl, strs h !! sl = None ∧ strs h' = <[sl := cstr v]> (strs h) ∧
        q_rep F h' q ((l, sl, v) :: cells))).
Proof.
  intros R (rest & Hs & Ht) Hlen. pose proof (qr_queue _ _ _ _ _ _ R) as Hq. pose proof (qr_seg _ _ _ _ _ _ R) as Hseg.
  destruct h as [em sm qm n]. simpl in *. unfold q_insert_head.
  destruct (new_ele_ok em sm qm n s v rest Hs Ht) as (n' & [[E Hf]|(l & sl & nx & Hl & Hsl & E)]); run E; cbn [is_null].
  { exists false. eexists. split; [reflexivity|]. by left. }
  destruct (rep_fresh F _ q cells l sl R Hl Hsl) as (N1 & N2 & N3 & N4).
  set (em1 := <[l := mk_ele (Some sl) nx]> em). set (sm1 := <[sl := cstr v]> sm).
  run (get_queue_run em1 sm1 qm n' q _ Hq). cbn [q_tail].
  set (tl := match last_ptr cells with None => Some l | t => t end).
  assert (∃ em2, em2 !! l = Some (mk_ele (Some sl) (next (default (mk_ele None None) (em2 !! l)))) ∧
    (∀ k, k ≠ l → em2 !! k = em !! k) ∧
    (if is_null (last_ptr cells)
     then put_ele (Some l) (set_next None);; put_queue q (set_tail (Some l)) else mret tt)
      (mk_qheap em1 sm1 qm n') = Ret tt (mk_qheap em2 sm1
        (<[q := mk_queue (Z.of_nat (length cells)) (first cells None) tl]> qm) n')) as (em2 & H1 & H2 & E2).
  { unfold tl. destruct (last_ptr cells) as [t|] eqn:Et; cbn [is_null].
    - exists em1. split_and!; [unfold em1; by rewrite lookup_insert_eq|intros; unfold em1; by rewrite lookup_insert_ne|].
      by rewrite (insert_id qm) by done.
    - run (put_ele_run em1 sm1 qm n' l (set_next None) _ (lookup_insert_eq _ _ _)).
      eexists. split; [|split; [|by apply (put_queue_run _ _ _ _ _ _ _ _ Hq)]].
      + by rewrite lookup_insert_eq.
      + intros k Hk. unfold em1. by rewrite !lookup_insert_ne. }
  run E2. set (qm2 := <[q := _]> qm).
  assert (qm2 !! q = Some (mk_queue (Z.of_nat (length cells)) (first cells None) tl)) as Hq2 by apply lookup_insert_eq.
  run (get_queue_run em2 sm1 qm2 n' q _ Hq2). cbn [q_head].
  run (put_ele_run em2 sm1 qm2 n' l (set_next (first cells None)) _ H1). cbn [set_next value].
  set (em3 := <[l := mk_ele (Some sl) (first cells None)]> em2).
  run (put_queue_run em3 sm1 qm2 n' q (set_head (Some l)) _ _ Hq2 eq_refl).
  run (put_queue_run em3 sm1 (<[q := _]> qm2) n' q (add_size 1) _ _ (lookup_insert_eq _ _ _)
    (add_size_ok 1 (Z.of_nat (length cells)) (Some l) tl ltac:(lia))).
  exists true. eexists. split; [reflexivity|]. right. split; [done|]. exists l, sl. split_and!; [done|done|].
  apply (rep_add F (mk_qheap em sm qm n) _ q cells _ l sl v); try done; simpl.
  - unfold qm2. rewrite !insert_insert_eq. do 2 f_equal; [lia|].
    unfold tl, last_ptr. rewrite last_cons. by destruct (last cells).
  - split; [unfold em3; by rewrite lookup_insert_eq|]. eapply lseg_frame; [|exact Hseg]. intros k Hk.
    assert (k ≠ l) by congruence. unfold em3. rewrite lookup_insert_ne by done. by apply H2.
  - intros k Hk _. unfold em3. rewrite lookup_insert_ne by done. by apply H2.
Qed.

Lemma last_split (cells : list cell) : cells ≠ [] →
  ∃ init l sl v, cells = init ++ [(l, sl, v)] ∧ last_ptr cells = Some l.
Proof.
  destruct cells as [|[[l sl] v] init _] using rev_ind; [done|]. intros _. exists init, l, sl, v.
  split; [done|]. unfold last_ptr. by rewrite last_snoc.
Qed.

Lemma insert_tail_ok F h q cells s v :
  q_rep F h q cells → holds_str h s v → Z.of_nat (length cells) < 2147483647 →
  ∃ r h', q_insert_tail malloc_ok junk (Some q) (Some s) h = Ret r h' ∧
    ((r = false ∧ eles h' = eles h ∧ strs h' = strs h ∧ queues h' = queues h ∧
       (malloc_ok (calls h) = false ∨ malloc_ok (S (calls h)) = false)) ∨
     (r = true ∧ ∃ l sl, strs h !! sl = None ∧ strs h' = <[sl := cstr v]> (strs h) ∧
        q_rep F h' q (cells ++ [(l, sl, v)]))).
Proof.
  intros R (rest & Hs & Ht) Hlen. pose proof (qr_queue _ _ _ _ _ _ R) as Hq. pose proof (qr_seg _ _ _ _ _ _ R) as Hseg.
  pose proof (qr_nodup _ _ _ _ _ _ R) as Hnd.
  destruct h as [em sm qm n]. simpl in *. unfold q_insert_tail.
  destruct (new_ele_ok em sm qm n s v rest Hs Ht) as (n' & [[E Hf]|(l & sl & nx & Hl & Hsl & E)]); run E; cbn [is_null].
  { exists false. eexists. split; [reflexivity|]. by left. }
  destruct (rep_fresh F _ q cells l sl R Hl Hsl) as (N1 & N2 & N3 & N4).
  set (em1 := <[l := mk_ele (Some sl) nx]> em). set (sm1 := <[sl := cstr v]> sm).
  run (put_ele_run em1 sm1 qm n' l (set_next None) _ (lookup_insert_eq _ _ _)). cbn [set_next value].
  set (em2 := <[l := mk_ele (Some sl) None]> em1).
  run (get_queue_run em2 sm1 qm n' q _ Hq). cbn [q_head q_tail].
  assert (∃ em3, lseg em3 (cells ++ [(l, sl, v)]) None ∧
    (∀ k, k ≠ l → k ∉ ele_locs cells → em3 !! k = em !! k) ∧
    (if is_null (first cells None) && is_null (last_ptr cells)
     then put_queue q (set_head (Some l));; put_queue q (set_tail (Some l))
     else put_ele (last_ptr cells) (set_next (Some l));; put_queue q (set_tail (Some l)))
      (mk_qheap em2 sm1 qm n') = Ret tt (mk_qheap em3 sm1 (<[q := mk_queue (Z.of_nat (length cells))
        (first (cells ++ [(l, sl, v)]) None) (Some l)]> qm) n')) as (em3 & H1 & H2 & E3).
  { destruct (decide (cells = [])) as [->|Hne].
    - exists em2. split_and!; [split; [by unfold em2; rewrite lookup_insert_eq|done]
        |intros k Hk _; unfold em2, em1; by rewrite !lookup_insert_ne|]. simpl.
      run (put_queue_run em2 sm1 qm n' q (set_head (Some l)) _ _ Hq eq_refl).
      rewrite (put_queue_run em2 sm1 _ n' q (set_tail (Some l)) _ _ (lookup_insert_eq _ _ _) eq_refl).
      by rewrite insert_insert_eq.
    - destruct (last_split cells Hne) as (init & l0 & sl0 & v0 & -> & Hlast). rewrite Hlast.
      rewrite fmap_app, fmap_app in N1, Hnd. simpl in N1, Hnd.
      assert (l0 ∉ ele_locs init) as Hl0.
      { apply NoDup_app in Hnd as (_ & Hnd & _). intros Hin. apply (Hnd l0 Hin). set_solver. }
      assert (is_null (first (init ++ [(l0, sl0, v0)]) None) && is_null (Some l0) = false) as ->
        by apply andb_false_r.
      assert (em2 !! l0 = Some (mk_ele (Some sl0) None)) as Hl0'.
      { apply lseg_app in Hseg as [_ [Hx _]]. unfold em2, em1. rewrite !lookup_insert_ne by set_solver. done. }
      run (put_ele_run em2 sm1 qm n' l0 (set_next (Some l)) _ Hl0'). cbn [set_next value].
      eexists. split; [|split; [|apply (put_queue_run _ sm1 qm n' q (set_tail (Some l)) _ _ Hq)]].
      + rewrite lseg_app. split.
        * apply (lseg_snoc em2 init l0 sl0 v0 None (Some l)); [|done|done].
          eapply lseg_frame; [|exact Hseg]. intros k Hk. unfold em2, em1.
          rewrite fmap_app, fmap_app in Hk. simpl in Hk. rewrite !lookup_insert_ne by set_solver. done.
        * split; [|done]. rewrite lookup_insert_ne by set_solver. by unfold em2; rewrite lookup_insert_eq.
      + intros k Hk Hk'. rewrite fmap_app, fmap_app in Hk'. simpl in Hk'. unfold em2, em1.
        rewrite !lookup_insert_ne by set_solver. done.
      + unfold set_tail. cbn [q_size_ q_head]. do 2 f_equal. rewrite !lseg_first_app. by destruct init. }
  run E3.
  run (put_queue_run em3 sm1 (<[q := _]> qm) n' q (add_size 1) _ _ (lookup_insert_eq _ _ _)
    (add_size_ok 1 (Z.of_nat (length cells)) _ _ ltac:(lia))).
  exists true. eexists. split; [reflexivity|]. right. split; [done|]. exists l, sl. split_and!; [done|done|].
  apply (rep_add F (mk_qheap em sm qm n) _ q cells _ l sl v); try done; simpl.
  - by rewrite Permutation_app_comm.
  - rewrite insert_insert_eq. do 2 f_equal.
    + rewrite length_app. simpl. lia.
    + unfold last_ptr. by rewrite last_snoc.
Qed.

End ops.

(** ** Lemmas: taking cells away *)

(** The heap after the first node and its string are gone. *)
Lemma rep_pop F h h' q sz tl sz' tl' l sl v cells :
  list_rep F h q sz tl ((l, sl, v) :: cells) →
  queues h' = <[q := mk_queue sz' (first cells None) tl']> (queues h) →
  eles h' !! l = None → (∀ k, k ≠ l → eles h' !! k = eles h !! k) →
  strs h' = delete sl (strs h) →
  list_rep F h' q sz' tl' cells.
Proof.
  intros R Hq Hl He Hs. pose proof (qr_nodup _ _ _ _ _ _ R) as [N1 N2]%NoDup_cons.
  pose proof (qr_nodup' _ _ _ _ _ _ R) as [N3 N4]%NoDup_cons. cbn [fst snd] in *.
  pose proof (qr_queues _ _ _ _ _ _ R) as [Q1 Q2]. constructor.
  - rewrite Hq. apply lookup_insert_eq.
  - pose proof (qr_seg _ _ _ _ _ _ R) as [_ Hseg]. eapply lseg_frame; [|exact Hseg].
    intros k Hk. apply He. intros ->. done.
  - intros k sk w Hin. destruct (qr_strs _ _ _ _ _ _ R k sk w) as [Hk Hw]; [set_solver|].
    rewrite Hs, lookup_delete_ne; [done|]. intros <-. apply N3. apply list_elem_of_fmap. exists (k, sl).
    split; [done|]. apply list_elem_of_fmap. by exists (k, sl, w).
  - done.
  - done.
  - intros k. split; [intros Hk; apply R; by right|]. intros Hk.
    destruct (decide (k = l)) as [->|Hkl].
    + rewrite Hl. symmetry. apply (proj1 (qr_eles _ _ _ _ _ _ R l)). by left.
    + rewrite He by done. apply R. by intros [?|?]%elem_of_cons.
  - intros k. split; [intros Hk; apply R; by right|]. intros Hk. rewrite Hs.
    destruct (decide (k = sl)) as [->|Hkl].
    + rewrite lookup_delete_eq. symmetry. apply (proj1 (qr_chars _ _ _ _ _ _ R sl)). by left.
    + rewrite lookup_delete_ne by done. apply R. by intros [?|?]%elem_of_cons.
  - split; [done|]. intros k Hk. rewrite Hq, lookup_insert_ne by done. by apply Q2.
Qed.

(** A change of a buffer of the caller. *)
Lemma rep_poke F h q sz tl cells sp b b' :
  list_rep F h q sz tl cells → strs F !! sp = Some b →
  strs h !! sp = Some b ∧ list_rep (poke sp b' F) (poke sp b' h) q sz tl cells.
Proof.
  intros R Hb. assert (sp ∉ str_locs cells) as Hn.
  { intros Hin. by rewrite (proj1 (qr_chars _ _ _ _ _ _ R sp) Hin) in Hb. }
  split; [by rewrite (proj2 (qr_chars _ _ _ _ _ _ R sp) Hn)|].
  destruct R as [R1 R2 R3 R4 R5 R6 R7 R8]. constructor; try done; simpl.
  - intros l sl v Hin. destruct (R3 l sl v Hin) as [Hs Ht]. rewrite lookup_insert_ne; [done|].
    intros <-. apply Hn. apply list_elem_of_fmap. exists (l, sp). split; [done|].
    apply list_elem_of_fmap. by exists (l, sp, v).
  - intros k. split.
    + intros Hk. rewrite lookup_insert_ne by (intros ->; done). by apply R7.
    + intros Hk. destruct (decide (k = sp)) as [->|Hne]; [by rewrite !lookup_insert_eq|].
      rewrite !lookup_insert_ne by done. by apply R7.
Qed.

(** What the buffer must have room for. *)
Definition room (v : list Z) (bufsize : Z) (b : list (option Z)) : Prop :=
  0 ≤ bufsize < 18446744073709551616 ∧ Z.min bufsize (Z.of_nat (length v) + 1) ≤ Z.of_nat (length b).

Lemma copy_out h l v sp b bufsize :
  strs h !! l = Some (cstr v) → text_ok v → strs h !! sp = Some b → l ≠ sp → room v bufsize b →
  (if u64 (Z.of_nat (length v) + 1) >? bufsize
   then copy_n_chars (i32 bufsize) (Some l) (Some sp)
   else copy_n_chars (Z.of_nat (length v) + 1) (Some l) (Some sp)) h =
  Ret tt (poke sp (copied v bufsize b) h).
Proof.
  intros Hl [Hz Ht] Hb Hne [Hr1 Hr2]. rewrite u64_small by lia.
  assert (∀ n, Z.of_nat n = Z.min bufsize (Z.of_nat (length v) + 1) →
    copy_n_chars (Z.of_nat n) (Some l) (Some sp) h = Ret tt (poke sp (copied v bufsize b) h)) as Hcopy.
  { intros n En. rewrite (copy_n_chars_ok h l sp v [] b n Hne); [|by rewrite app_nil_r|done|lia|lia].
    unfold copied. rewrite <-En. destruct (decide (n = 0%nat)) as [->|Hn0].
    - simpl. unfold poke. rewrite insert_id by done. by destruct h.
    - rewrite (proj2 (Z.gtb_lt _ _)) by lia. rewrite Nat2Z.id.
      by replace (Z.to_nat (Z.of_nat n - 1)) with (n - 1)%nat by lia. }
  destruct (Z.gtb_spec (Z.of_nat (length v) + 1) bufsize).
  - rewrite i32_small by lia. rewrite <-(Z2Nat.id bufsize) by lia. rewrite (Hcopy (Z.to_nat bufsize)) by lia.
    by rewrite Z2Nat.id by lia.
  - rewrite <-(Hcopy (S (length v))) by lia. f_equal. lia.
Qed.

Lemma remove_head_empty F h q sp bufsize :
  q_rep F h q [] → q_remove_head (Some q) sp bufsize h = Ret false h.
Proof.
  intros R. destruct h as [em sm qm n]. unfold q_remove_head.
  by run (get_queue_run em sm qm n q _ (qr_queue _ _ _ _ _ _ R)).
Qed.

Lemma remove_head_ok F h q l sl v cells sp b bufsize :
  q_rep F h q ((l, sl, v) :: cells) → strs F !! sp = Some b → room v bufsize b →
  Z.of_nat (length cells) < 2147483647 →
  ∃ h', q_remove_head (Some q) (Some sp) bufsize h = Ret true h' ∧
    q_rep (poke sp (copied v bufsize b) F) h' q cells.
Proof.
  intros R Hb Hroom Hlen. destruct (rep_poke F h q _ _ _ sp b (copied v bufsize b) R Hb) as [Hsp R1].
  destruct (qr_strs _ _ _ _ _ _ R l sl v) as [Hsl Ht]; [by left|].
  assert (sl ≠ sp) as Hne.
  { intros ->. rewrite (proj1 (qr_chars _ _ _ _ _ _ R sp)) in Hb; [done|by left]. }
  pose proof (qr_queue _ _ _ _ _ _ R) as Hq. pose proof (qr_seg _ _ _ _ _ _ R) as [Hl Hseg].
  destruct h as [em sm qm n]. simpl in *. unfold q_remove_head.
  run (get_queue_run em sm qm n q _ Hq). cbn [q_head first is_null].
  run (get_ele_run em sm qm n l _ Hl). cbn [value].
  run (get_str_length_ok (mk_qheap em sm qm n) sl v ltac:(exists []; by rewrite app_nil_r)).
  run (copy_out (mk_qheap em sm qm n) sl v sp b bufsize Hsl Ht Hsp Hne Hroom).
  unfold poke, set_strs. cbn [eles strs queues calls]. set (sm1 := <[sp := copied v bufsize b]> sm).
  run (get_ele_run em sm1 qm n l _ Hl). cbn [next].
  assert (∃ tl', (if negb (is_null (first cells None))
      then put_queue q (set_head (first cells None))
      else put_queue q (set_head None);; put_queue q (set_tail None)) (mk_qheap em sm1 qm n)
    = Ret tt (mk_qheap em sm1 (<[q := mk_queue (Z.of_nat (S (length cells))) (first cells None) tl']> qm) n) ∧
    tl' = last_ptr cells) as (tl' & E1 & Htl).
  { destruct cells as [|[[l2 sl2] v2] cells]; cbn [first is_null negb].
    - eexists. split; [|done]. run (put_queue_run em sm1 qm n q (set_head None) _ _ Hq eq_refl).
      rewrite (put_queue_run em sm1 _ n q (set_tail None) _ _ (lookup_insert_eq _ _ _) eq_refl).
      by rewrite insert_insert_eq.
    - eexists. split; [by apply (put_queue_run _ _ _ _ _ _ _ _ Hq)|].
      unfold last_ptr. simpl. by destruct (last cells). }
  run E1.
  run (put_queue_run em sm1 (<[q := _]> qm) n q (add_size (-1)) _ _ (lookup_insert_eq _ _ _)
    (add_size_ok (-1) (Z.of_nat (S (length cells))) _ _ ltac:(lia))).
  assert (sm1 !! sl = Some (cstr v)) as Hsl1 by (unfold sm1; by rewrite lookup_insert_ne).
  run (free_str_run em sm1 (<[q := _]> (<[q := _]> qm)) n sl _ Hsl1).
  run (free_ele_run em (delete sl sm1) (<[q := _]> (<[q := _]> qm)) n l _ Hl).
  eexists. split; [reflexivity|].
  apply (rep_pop _ _ _ q _ _ _ _ l sl v cells R1); simpl.
  - rewrite insert_insert_eq, Htl. do 2 f_equal. lia.
  - apply lookup_delete_eq.
  - intros k Hk. by rewrite lookup_delete_ne.
  - done.
Qed.

Lemma free_loop_ok F fuel h q sz tl c cells :
  list_rep F h q sz tl (c :: cells) → (length cells < fuel)%nat →
  ∃ h' c', free_loop fuel q h = Ret tt h' ∧ list_rep F h' q sz tl [c'].
Proof.
  revert h c cells. induction fuel as [|fuel IH]; intros h [[l sl] v] cells R Hf; [lia|].
  pose proof (qr_queue _ _ _ _ _ _ R) as Hq. pose proof (qr_seg _ _ _ _ _ _ R) as [Hl Hseg].
  destruct (qr_strs _ _ _ _ _ _ R l sl v) as [Hsl Ht]; [by left|].
  pose proof R as R0. destruct h as [em sm qm n]. cbn [eles strs queues] in *. cbn [free_loop].
  run (get_queue_run em sm qm n q _ Hq). cbn [q_head first].
  run (get_ele_run em sm qm n l _ Hl). cbn [next].
  destruct cells as [|[[l2 sl2] v2] cells]; cbn [first is_null].
  { exists (mk_qheap em sm qm n), (l, sl, v). by split. }
  run (put_ele_run em sm qm n l (set_next None) _ Hl). cbn [set_next value].
  set (em1 := <[l := _]> em). assert (em1 !! l = Some (mk_ele (Some sl) None)) as Hl1 by apply lookup_insert_eq.
  run (get_ele_run em1 sm qm n l _ Hl1). cbn [value]. run (free_str_run em1 sm qm n sl _ Hsl).
  run (put_ele_run em1 (delete sl sm) qm n l (set_value None) _ Hl1). cbn [set_value next].
  set (em2 := <[l := _]> em1). assert (em2 !! l = Some (mk_ele None None)) as Hl2 by apply lookup_insert_eq.
  run (free_ele_run em2 (delete sl sm) qm n l _ Hl2).
  run (put_queue_run (delete l em2) (delete sl sm) qm n q (set_head (Some l2)) _ _ Hq eq_refl).
  apply (IH _ (l2, sl2, v2) cells); [|simpl in Hf; lia].
  apply (rep_pop _ _ _ q _ _ _ _ l sl v _ R0); simpl.
  - done.
  - apply lookup_delete_eq.
  - intros k Hk. unfold em2, em1. by rewrite lookup_delete_ne, !lookup_insert_ne.
  - done.
Qed.

Lemma list_fuel_ok F h q sz tl cells : list_rep F h q sz tl cells → (length cells < list_fuel h)%nat.
Proof.
  intros R. unfold list_fuel. apply Nat.lt_succ_r.
  assert (list_to_set (ele_locs cells) ⊆ (dom (eles h) : gset loc)) as Hsub.
  { intros l Hl. apply elem_of_list_to_set in Hl. apply list_elem_of_fmap in Hl as ([l' sl] & -> & Hl).
    apply list_elem_of_fmap in Hl as ([[l'' sl'] v] & [= <- <-] & Hl). apply list_elem_of_split in Hl as (c1 & c2 & ->).
    pose proof (qr_seg _ _ _ _ _ _ R) as [_ [Hx _]]%lseg_app. simpl. apply elem_of_dom. by eexists. }
  apply subseteq_size in Hsub. rewrite size_list_to_set in Hsub by apply R.
  rewrite !length_fmap in Hsub. by rewrite size_dom in Hsub.
Qed.

(** [q_free] gives everything back. *)
Lemma q_free_ok F h q cells : q_rep F h q cells →
  ∃ h', q_free (Some q) h = Ret tt h' ∧ eles h' = eles F ∧ strs h' = strs F ∧ queues h' = queues F.
Proof.
  intros R. pose proof (qr_queue _ _ _ _ _ _ R) as Hq. pose proof (list_fuel_ok _ _ _ _ _ _ R) as Hfuel.
  unfold q_free. assert (get_queue q h = Ret _ h) as Eq by by apply reads_Some. run Eq. cbn [q_head].
  assert (∃ h1 sz tl, (if is_null (first cells None) then mret tt else
      h ← get; free_loop (list_fuel h) q;; x1 ← get_queue q; e ← get_ele (q_head x1);
      free_str (value e);; put_ele (q_head x1) (set_value None);; free_ele (q_head x1);;
      put_queue q (set_head None);; put_queue q (set_tail None)) h = Ret tt h1 ∧
      list_rep F h1 q sz tl []) as (h1 & sz & tl & E1 & R1).
  { destruct cells as [|c cells]; [exists h; by eexists _, _|].
    destruct (free_loop_ok F (list_fuel h) h q _ _ c cells R ltac:(simpl in Hfuel; lia)) as (h1 & [[l sl] v] & E1 & R1).
    destruct c as [[lc slc] vc]. cbn [first is_null]. run (eq_refl (get h)). run E1.
    pose proof (qr_queue _ _ _ _ _ _ R1) as Hq1. pose proof (qr_seg _ _ _ _ _ _ R1) as [Hl _].
    destruct (qr_strs _ _ _ _ _ _ R1 l sl v) as [Hsl _]; [by left|]. clear E1 Eq.
    destruct h1 as [em sm qm n]. cbn [eles strs queues] in *.
    run (get_queue_run em sm qm n q _ Hq1). cbn [q_head first].
    run (get_ele_run em sm qm n l _ Hl). cbn [value]. run (free_str_run em sm qm n sl _ Hsl).
    run (put_ele_run em (delete sl sm) qm n l (set_value None) _ Hl). cbn [set_value next first].
    set (em1 := <[l := _]> em). assert (em1 !! l = Some (mk_ele None None)) as Hl1 by apply lookup_insert_eq.
    run (free_ele_run em1 (delete sl sm) qm n l _ Hl1).
    run (put_queue_run (delete l em1) (delete sl sm) qm n q (set_head None) _ _ Hq1 eq_refl).
    eexists _, _, None. split.
    - apply (put_queue_run (delete l em1) (delete sl sm) _ n q (set_tail None) _ _ (lookup_insert_eq _ _ _) eq_refl).
    - apply (rep_pop _ _ _ q _ _ _ _ l sl v _ R1); simpl.
      + rewrite insert_insert_eq. done.
      + apply lookup_delete_eq.
      + intros k Hk. unfold em1. by rewrite lookup_delete_ne, lookup_insert_ne.
      + done. }
  run E1. clear E1. eexists. split.
  { apply updates_Some. rewrite (qr_queue _ _ _ _ _ _ R1). reflexivity. }
  simpl. split_and!; apply map_eq; intros k.
  - apply (proj2 (qr_eles _ _ _ _ _ _ R1 k)). by intros ?%not_elem_of_nil.
  - apply (proj2 (qr_chars _ _ _ _ _ _ R1 k)). by intros ?%not_elem_of_nil.
  - destruct (qr_queues _ _ _ _ _ _ R1) as [Q1 Q2]. destruct (decide (k = q)) as [->|Hne].
    + by rewrite lookup_delete_eq.
    + rewrite lookup_delete_ne by done. by apply Q2.
Qed.

(** ** Lemmas: reversal *)

Lemma first_cons l sl v cells stop : first ((l, sl, v) :: cells) stop = Some l.
Proof. done. Qed.

Lemma reverse_loop_ok sm qm n l0 todo d em fuel :
  lseg em todo None → lseg em (reverse d) (Some l0) → todo ≠ [] → (length todo ≤ fuel)%nat →
  NoDup (l0 :: ele_locs (d ++ todo)) →
  ∃ em' d' l sl v, reverse_loop fuel (first (reverse d) (Some l0)) (first todo None) (mk_qheap em sm qm n)
      = Ret (first (reverse d') (Some l0), Some l) (mk_qheap em' sm qm n) ∧
    d ++ todo = d' ++ [(l, sl, v)] ∧ lseg em' (reverse d') (Some l0) ∧
    em' !! l = Some (mk_ele (Some sl) None) ∧ (∀ k, k ∉ ele_locs (d ++ todo) → em' !! k = em !! k).
Proof.
  revert todo d em. induction fuel as [|fuel IH]; intros todo d em Ht Hd Hne Hf Hnd.
  { destruct todo; [done|simpl in Hf; lia]. }
  destruct todo as [|[[l sl] v] todo]; [done|]. destruct Ht as [Hl Ht]. rewrite first_cons. cbn [reverse_loop].
  run (get_ele_run em sm qm n l _ Hl). cbn [next].
  destruct todo as [|[[l2 sl2] v2] todo]; cbn [first is_null].
  { exists em, d, l, sl, v. by split_and!. }
  run (put_ele_run em sm qm n l (set_next (first (reverse d) (Some l0))) _ Hl). cbn [set_next value].
  set (em1 := <[l := _]> em).
  assert (d ++ (l, sl, v) :: (l2, sl2, v2) :: todo = (d ++ [(l, sl, v)]) ++ (l2, sl2, v2) :: todo) as El
    by by rewrite <-app_assoc.
  assert (l ∉ ele_locs d ∧ l ∉ ele_locs ((l2, sl2, v2) :: todo)) as [N1 N2].
  { apply NoDup_cons in Hnd as [_ Hnd]. rewrite fmap_app, fmap_app in Hnd. apply NoDup_app in Hnd as (_ & H1 & H2).
    cbn [fmap list_fmap fst] in H2. apply NoDup_cons in H2 as [H2 _]. split; [|done].
    intros Hin. apply (H1 l Hin). by left. }
  rewrite El in Hnd |- *.
  destruct (IH ((l2, sl2, v2) :: todo) (d ++ [(l, sl, v)]) em1) as (em' & d' & lz & slz & vz & E & H1 & H2 & H3 & H4).
  - eapply lseg_frame; [|exact Ht]. intros k Hk. unfold em1. rewrite lookup_insert_ne; [done|]. by intros ->.
  - rewrite reverse_snoc. split; [unfold em1; apply lookup_insert_eq|].
    eapply lseg_frame; [|exact Hd]. intros k Hk. unfold em1. rewrite lookup_insert_ne; [done|]. intros ->.
    apply N1. rewrite <-(reverse_involutive (ele_locs d)), elem_of_reverse. by rewrite !fmap_reverse in Hk.
  - done.
  - simpl in *. lia.
  - done.
  - exists em', d', lz, slz, vz. rewrite reverse_snoc in E. split_and!; [exact E|done|done|done|].
    intros k Hk. rewrite H4 by done. unfold em1. rewrite lookup_insert_ne; [done|]. intros ->. apply Hk.
    rewrite fmap_app, fmap_app, fmap_app, fmap_app. set_solver.
Qed.

Lemma q_reverse_ok F h q cells : q_rep F h q cells →
  ∃ h', q_reverse (Some q) h = Ret tt h' ∧ q_rep F h' q (reverse cells) ∧ strs h' = strs h.
Proof.
  intros R. pose proof (qr_queue _ _ _ _ _ _ R) as Hq. pose proof (qr_seg _ _ _ _ _ _ R) as Hseg.
  pose proof (list_fuel_ok _ _ _ _ _ _ R) as Hfuel. pose proof (qr_nodup _ _ _ _ _ _ R) as Hnd.
  unfold q_reverse. assert (get_queue q h = Ret _ h) as Eq by by apply reads_Some. run Eq. cbn [q_head]. clear Eq.
  destruct cells as [|[[l0 sl0] v0] todo]; [by exists h|]. cbn [first is_null].
  destruct Hseg as [Hl0 Hseg]. destruct h as [em sm qm n] eqn:Eh. cbn [eles strs queues] in *.
  run (get_ele_run em sm qm n l0 _ Hl0). cbn [next].
  destruct todo as [|c1 todo0] eqn:Et; [by exists h; subst|]. rewrite <-Et in *.
  assert (todo ≠ []) as Hne by by rewrite Et.
  assert (is_null (first todo None) = false) as -> by (rewrite Et; by destruct c1 as [[? ?] ?]).
  run (eq_refl (get (mk_qheap em sm qm n))).
  destruct (reverse_loop_ok sm qm n l0 todo [] em (list_fuel (mk_qheap em sm qm n)))
    as (em' & d & l & sl & v & E & H1 & H2 & H3 & H4);
    [done|done|done|simpl in Hfuel; lia|exact Hnd|].
  cbn [reverse first app] in E, H1. change (first (reverse []) (Some l0)) with (Some l0) in E. run E.
  run (put_ele_run em' sm qm n l (set_next (first (reverse d) (Some l0))) _ H3). cbn [set_next value].
  set (em1 := <[l := _]> em'). run (get_queue_run em1 sm qm n q _ Hq). cbn [q_head q_tail].
  change (ele_locs ((l0, sl0, v0) :: todo)) with (l0 :: ele_locs todo) in Hnd.
  apply NoDup_cons in Hnd as [N0 N1]. rewrite H1, fmap_app, fmap_app in N0, N1. cbn [fmap list_fmap fst] in N0, N1.
  apply NoDup_app in N1 as (_ & N2 & _).
  assert (l ∉ ele_locs d) as Nl by (intros Hin; apply (N2 l Hin); by left).
  assert (l0 ≠ l ∧ l0 ∉ ele_locs d) as [Nl0 Nd0] by (split; [intros ->|]; set_solver).
  assert (em1 !! l0 = Some (mk_ele (Some sl0) (first todo None))) as Hl1.
  { unfold em1. rewrite lookup_insert_ne by done. rewrite H4; [done|].
    rewrite H1. rewrite fmap_app, fmap_app. cbn [app fmap list_fmap fst]. set_solver. }
  run (put_ele_run em1 sm qm n l0 (set_next None) _ Hl1). cbn [set_next value].
  set (em2 := <[l0 := _]> em1).
  run (put_queue_run em2 sm qm n q (set_head (last_ptr ((l0, sl0, v0) :: todo))) _ _ Hq eq_refl).
  eexists. split.
  { apply (put_queue_run em2 sm (<[q := _]> qm) n q (set_tail (Some l0)) _ _ (lookup_insert_eq _ _ _) eq_refl). }
  split; [|done].
  assert (reverse ((l0, sl0, v0) :: todo) = (l, sl, v) :: reverse d ++ [(l0, sl0, v0)]) as Er.
  { rewrite H1. by rewrite reverse_cons, reverse_snoc. }
  assert (reverse ((l0, sl0, v0) :: todo) ≡ₚ (l0, sl0, v0) :: todo) as Hperm by apply reverse_Permutation.
  assert (∀ k, k ∉ ele_locs ((l0, sl0, v0) :: todo) → em2 !! k = em !! k) as Hframe.
  { intros k Hk. change (ele_locs ((l0, sl0, v0) :: todo)) with (l0 :: ele_locs todo) in Hk.
    apply not_elem_of_cons in Hk as [Hk0 Hk]. unfold em2, em1. rewrite lookup_insert_ne by done.
    rewrite lookup_insert_ne; [by apply H4|]. intros ->. apply Hk. rewrite H1, fmap_app, fmap_app.
    apply elem_of_app. right. by left. }
  constructor; simpl.
  - rewrite insert_insert_eq, lookup_insert_eq. unfold last_ptr. rewrite length_reverse.
    f_equal. f_equal.
    + rewrite Er. simpl. rewrite H1. change ((l0, sl0, v0) :: d ++ [(l, sl, v)]) with (((l0, sl0, v0) :: d) ++ [(l, sl, v)]).
      by rewrite last_snoc.
    + rewrite reverse_cons, last_snoc. done.
  - rewrite Er. split.
    + unfold em2. rewrite lookup_insert_ne by done. unfold em1. rewrite lookup_insert_eq.
      rewrite lseg_first_app. done.
    + apply lseg_app. split; [|split; [unfold em2; apply lookup_insert_eq|done]]. eapply lseg_frame; [|exact H2].
      intros k Hk. rewrite !fmap_reverse, elem_of_reverse in Hk. unfold em2, em1.
      rewrite !lookup_insert_ne; [done| |]; intros ->; done.
  - intros k sk w. rewrite Hperm. apply R.
  - rewrite Hperm. apply R.
  - rewrite Hperm. apply R.
  - intros k. rewrite Hperm. split; [apply R|]. intros Hk. rewrite Hframe by done. by apply R.
  - intros k. rewrite Hperm. apply R.
  - destruct (qr_queues _ _ _ _ _ _ R) as [Q1 Q2]. split; [done|]. intros k Hk.
    rewrite !lookup_insert_ne by done. by apply Q2.
Qed.

(** ** The contract *)

Inductive qop : Type :=
| InsertHead (s : loc)
| InsertTail (s : loc)
| RemoveHead (sp : loc) (bufsize : Z)
| Size
| Reverse.

Section contract.
Context (malloc_ok : nat → bool) (junk : nat → list_ele) (q : loc).

Definition run_qop (o : qop) : prog qheap Z :=
  match o with
  | InsertHead s => b ← q_insert_head malloc_ok junk (Some q) (Some s); mret (Z.b2z b)
  | InsertTail s => b ← q_insert_tail malloc_ok junk (Some q) (Some s); mret (Z.b2z b)
  | RemoveHead sp bufsize => b ← q_remove_head (Some q) (Some sp) bufsize; mret (Z.b2z b)
  | Size => q_size (Some q)
  | Reverse => q_reverse (Some q);; mret 0
  end.

(** The caller's heap [F] and the strings of the queue. *)
Definition q_abs (F h : qheap) (vs : list (list Z)) : Prop :=
  ∃ cells, q_rep F h q cells ∧ cells.*2 = vs ∧ Z.of_nat (length vs) ≤ 2147483647.

Definition qlegal (F : qheap) (vs : list (list Z)) (o : qop) : Prop :=
  match o with
  | InsertHead s | InsertTail s => (∃ v, holds_str F s v) ∧ Z.of_nat (length vs) < 2147483647
  | RemoveHead sp bufsize =>
      ∃ b, strs F !! sp = Some b ∧ ∀ v vs', vs = v :: vs' → room v bufsize b
  | _ => True
  end.

Inductive qspec (F : qheap) (vs : list (list Z)) : qop → Z → qheap → list (list Z) → Prop :=
| qs_insert_head s v : holds_str F s v → qspec F vs (InsertHead s) 1 F (v :: vs)
| qs_insert_tail s v : holds_str F s v → qspec F vs (InsertTail s) 1 F (vs ++ [v])
| qs_no_memory o s k : malloc_ok k = false → o = InsertHead s ∨ o = InsertTail s → qspec F vs o 0 F vs
| qs_remove sp bufsize b v vs' : vs = v :: vs' → strs F !! sp = Some b →
    qspec F vs (RemoveHead sp bufsize) 1 (poke sp (copied v bufsize b) F) vs'
| qs_remove_empty sp bufsize : vs = [] → qspec F vs (RemoveHead sp bufsize) 0 F vs
| qs_size : qspec F vs Size (Z.of_nat (length vs)) F vs
| qs_reverse : qspec F vs Reverse 0 F (reverse vs).

Lemma abs_string F h cells s v : q_rep F h q cells → holds_str F s v → holds_str h s v.
Proof.
  intros R (rest & Hs & Ht). exists rest. split; [|done]. rewrite (proj2 (qr_chars _ _ _ _ _ _ R s)); [done|].
  intros Hin. by rewrite (proj1 (qr_chars _ _ _ _ _ _ R s) Hin) in Hs.
Qed.

(** Only the calls of [malloc] are counted outside the three maps. *)
Lemma rep_same F h h' cells :
  eles h' = eles h → strs h' = strs h → queues h' = queues h → q_rep F h q cells → q_rep F h' q cells.
Proof. intros E1 E2 E3 R. destruct R. constructor; rewrite ?E1, ?E2, ?E3; done. Qed.

Lemma qop_ok F h vs o : q_abs F h vs → qlegal F vs o →
  ∃ r h' F' vs', run_qop o h = Ret r h' ∧ qspec F vs o r F' vs' ∧ q_abs F' h' vs'.
Proof.
  intros (cells & R & Hvs & Hlen) Hl.
  assert (length cells = length vs) as Hcl by by rewrite <-Hvs, length_fmap.
  destruct o as [s|s|sp bufsize| |]; cbn [run_qop qlegal] in *.
  - destruct Hl as [[v Hv] Hlt]. pose proof (abs_string F h cells s v R Hv) as Hs.
    destruct (insert_head_ok malloc_ok junk F h q cells s v R Hs ltac:(lia)) as
      (r & h' & E & [(-> & E1 & E2 & E3 & Hm)|(-> & l & sl & _ & _ & R')]); run E.
    + eexists _, h', F, vs. split_and!; [done| |exists cells; split_and!; [by apply (rep_same F h)|done|done]].
      destruct Hm; eapply qs_no_memory; eauto.
    + eexists _, h', F, (v :: vs). split_and!; [done|by apply qs_insert_head|].
      exists ((l, sl, v) :: cells). split_and!; [done|by rewrite <-Hvs|simpl; lia].
  - destruct Hl as [[v Hv] Hlt]. pose proof (abs_string F h cells s v R Hv) as Hs.
    destruct (insert_tail_ok malloc_ok junk F h q cells s v R Hs ltac:(lia)) as
      (r & h' & E & [(-> & E1 & E2 & E3 & Hm)|(-> & l & sl & _ & _ & R')]); run E.
    + eexists _, h', F, vs. split_and!; [done| |exists cells; split_and!; [by apply (rep_same F h)|done|done]].
      destruct Hm; eapply qs_no_memory; eauto.
    + eexists _, h', F, (vs ++ [v]). split_and!; [done|by apply qs_insert_tail|].
      exists (cells ++ [(l, sl, v)]). split_and!; [done|by rewrite fmap_app, <-Hvs|rewrite length_app; simpl; lia].
  - destruct Hl as (b & Hb & Hroom). destruct cells as [|[[l sl] v] cells].
    + subst vs. run (remove_head_empty F h q (Some sp) bufsize R). eexists _, h, F, [].
      split_and!; [done|by apply qs_remove_empty|by exists []].
    + subst vs. destruct (remove_head_ok F h q l sl v cells sp b bufsize R Hb (Hroom v _ eq_refl)) as (h' & E & R').
      { rewrite <-Hcl in Hlen. cbn [length] in Hlen. lia. }
      run E. eexists _, h', _, (cells.*2). split_and!; [done|by eapply qs_remove|].
      exists cells. split_and!; [done|done|]. rewrite <-Hcl in Hlen. cbn [length] in Hlen. rewrite length_fmap. lia.
  - assert (q_size (Some q) h = Ret (Z.of_nat (length vs)) h) as E.
    { unfold q_size. run (reads_Some (λ h, queues h !! q) _ h (qr_queue _ _ _ _ _ _ R)). by rewrite <-Hcl. }
    eexists _, h, F, vs. split_and!; [done|constructor|by exists cells].
  - destruct (q_reverse_ok F h q cells R) as (h' & E & R' & _). run E.
    eexists _, h', F, (reverse vs). split_and!; [done|constructor|].
    exists (reverse cells). split_and!; [done|by rewrite fmap_reverse, Hvs|by rewrite length_reverse].
Qed.

(** What the caller may do over time; [F] follows the buffers. *)
Definition qstate : Type := qheap * qheap * list (list Z).
Definition qstep (x y : qstate) : Prop :=
  let '(F, h, vs) := x in let '(F', h', vs') := y in
  ∃ o r, qlegal F vs o ∧ run_qop o h = Ret r h' ∧ qspec F vs o r F' vs' ∧ q_abs F' h' vs'.

Definition qinv (h0 : qheap) (x : qstate) : Prop :=
  let '(F, h, vs) := x in
  q_abs F h vs ∧ eles F = eles h0 ∧ queues F = queues h0 ∧ dom (strs F) = dom (strs h0).

Lemma qstep_inv h0 : preserves qstep (qinv h0).
Proof.
  intros [[F h] vs] [[F' h'] vs'] (o & r & Hl & E & Hs & HA) (_ & H1 & H2 & H3).
  split; [done|]. inversion Hs; subst; try done. unfold poke. simpl. split_and!; [done|done|].
  rewrite <-H3. apply dom_insert_lookup_L. by eexists.
Qed.

Lemma q_new_ok h0 h1 : q_new malloc_ok h0 = Ret (Some q) h1 → qinv h0 (h0, h1, []).
Proof.
  destruct h0 as [em sm qm n]. unfold q_new.
  destruct (malloc_ok n) eqn:E1.
  2:{ rewrite (bind_Ret _ _ _ None (mk_qheap em sm qm (S n))); [by intros [=]|]. unfold malloc_queue. simpl. by rewrite E1. }
  set (l := fresh (dom qm)). assert (qm !! l = None) as Hl by apply not_elem_of_dom_1, is_fresh.
  rewrite (bind_Ret _ _ _ (Some l) (mk_qheap em sm (<[l := mk_queue 0 None None]> qm) (S n))).
  2:{ unfold malloc_queue. simpl. by rewrite E1. }
  run (put_queue_run em sm (<[l := mk_queue 0 None None]> qm) (S n) l (set_head None) _ _ (lookup_insert_eq _ _ _) eq_refl).
  run (put_queue_run em sm (<[l := _]> _) (S n) l (set_tail None) _ _ (lookup_insert_eq _ _ _) eq_refl).
  run (put_queue_run em sm (<[l := _]> _) (S n) l (λ x, Some (mk_queue 0 (q_head x) (q_tail x))) _ _ (lookup_insert_eq _ _ _) eq_refl).
  clearbody l. intros [= -> <-]. cbn [q_head q_tail q_size_]. rewrite !insert_insert_eq. split; [|by split_and!].
  exists []. split_and!; [|done|done]. constructor; simpl; try done.
  - apply lookup_insert_eq.
  - by intros ? ? ? ?%not_elem_of_nil.
  - constructor.
  - constructor.
  - intros k. split; [by intros ?%not_elem_of_nil|done].
  - intros k. split; [by intros ?%not_elem_of_nil|done].
  - split; [done|]. intros k Hk. by rewrite lookup_insert_ne.
Qed.

(** C25: The queue implements a double-ended list of strings.  After [q_new]
    and any sequence of legal calls, every further call returns what the list
    says: insertions at either end copy the caller's string (or report failure
    and change nothing, which only happens when [malloc] fails), a removal
    writes at most [bufsize - 1] characters and a null byte to the caller's
    buffer, [q_size] is the length, [q_reverse] reverses. *)
Theorem queue_refines h0 h1 F h vs o :
  q_new malloc_ok h0 = Ret (Some q) h1 → rtc qstep (h0, h1, []) (F, h, vs) → qlegal F vs o →
  ∃ r h' F' vs', run_qop o h = Ret r h' ∧ qspec F vs o r F' vs' ∧ qstep (F, h, vs) (F', h', vs').
Proof.
  intros Hnew Hr Hl. pose proof (rtc_invariant _ _ _ _ (qstep_inv h0) Hr (q_new_ok h0 h1 Hnew)) as (HA & _).
  destruct (qop_ok F h vs o HA Hl) as (r & h' & F' & vs' & E & Hs & HA').
  exists r, h', F', vs'. split_and!; [done|done|]. by exists o, r.
Qed.

(** No leak: after [q_new] and any sequence of legal calls, [q_free]
    returns and leaves exactly the caller's blocks: every node, string and
    header that was allocated is gone, and nothing else. *)
Theorem queue_no_leak h0 h1 F h vs :
  q_new malloc_ok h0 = Ret (Some q) h1 → rtc qstep (h0, h1, []) (F, h, vs) →
  ∃ h', q_free (Some q) h = Ret tt h' ∧
    eles h' = eles h0 ∧ queues h' = queues h0 ∧ strs h' = strs F ∧ dom (strs h') = dom (strs h0).
Proof.
  intros Hnew Hr.
  pose proof (rtc_invariant _ _ _ _ (qstep_inv h0) Hr (q_new_ok h0 h1 Hnew)) as ((cells & R & _) & H1 & H2 & H3).
  destruct (q_free_ok F h q cells R) as (h' & E & E1 & E2 & E3). exists h'. rewrite E2. split_and!; congruence.
Qed.

(** Null arguments are refused without any effect: every operation on a
    null queue returns its failure value, and [q_remove_head] without a buffer
    fails even when the queue is not empty. *)
Theorem queue_null_arguments h s sp bufsize F cells :
  (q_insert_head malloc_ok junk None s h = Ret false h ∧ q_insert_tail malloc_ok junk None s h = Ret false h ∧
   q_remove_head None sp bufsize h = Ret false h ∧ q_size None h = Ret 0 h ∧
   q_reverse None h = Ret tt h ∧ q_free None h = Ret tt h) ∧
  (q_rep F h q cells → q_remove_head (Some q) None bufsize h = Ret false h).
Proof.
  split; [done|]. intros R. unfold q_remove_head.
  run (reads_Some (λ h, queues h !! q) _ h (qr_queue _ _ _ _ _ _ R)). cbn [q_head].
  by destruct (is_null (first cells None)).
Qed.
End contract.

(** ** Witnesses *)

(** The string "hi" at 1 and an empty buffer of four bytes at 2. *)
Definition demo_heap : qheap :=
  mk_qheap ∅ {[ 1%positive := cstr [104; 105]; 2%positive := [None; None; None; None] ]} ∅ 0.
Definition all_ok (_ : nat) : bool := true.
Definition no_junk (_ : nat) : list_ele := mk_ele None None.
Definition demo_queue : qheap :=
  match q_new all_ok demo_heap with Ret _ h => h | _ => demo_heap end.

Lemma demo_new : q_new all_ok demo_heap = Ret (Some 1%positive) demo_queue.
Proof. by vm_compute. Qed.

Lemma demo_legal : qlegal demo_heap [] (InsertTail 1%positive).
Proof.
  split; [|done]. exists [104; 105], []. split; [done|]. split; [|done].
  set_solver.
Qed.

Lemma queue_refines_witness : ∃ r h' F' vs',
  run_qop all_ok no_junk 1%positive (InsertTail 1%positive) demo_queue = Ret r h' ∧
  qspec all_ok demo_heap [] (InsertTail 1%positive) r F' vs' ∧
  qstep all_ok no_junk 1%positive (demo_heap, demo_queue, []) (F', h', vs').
Proof.
  apply (queue_refines all_ok no_junk 1%positive demo_heap demo_queue demo_heap demo_queue [] (InsertTail 1%positive));
    [apply demo_new|apply rtc_refl|apply demo_legal].
Defined.

Lemma queue_no_leak_witness : ∃ h', q_free (Some 1%positive) demo_queue = Ret tt h' ∧
  eles h' = eles demo_heap ∧ queues h' = queues demo_heap ∧ strs h' = strs demo_heap ∧
  dom (strs h') = dom (strs demo_heap).
Proof.
  apply (queue_no_leak all_ok no_junk 1%positive demo_heap demo_queue demo_heap demo_queue []);
    [apply demo_new|apply rtc_refl].
Defined.

Lemma queue_null_arguments_witness : q_remove_head (Some 1%positive) None 8 demo_queue = Ret false demo_queue.
Proof.
  destruct (q_new_ok all_ok 1%positive demo_heap demo_queue demo_new) as [(cells & R & _) _].
  apply (queue_null_arguments all_ok no_junk 1%positive demo_queue None None 8 demo_heap cells). exact R.
Defined.
