(* ===== verification/GapList.v ===== *)
(** * The gap list of the file receiver

    CS2520/project1/gap_list.c: a doubly linked list of the intervals of
    sequence numbers that are missing.  Nodes, their gaps and the list headers
    are blocks of the heap; [malloc] may fail at any call. *)
From S2P Require Import Prelude.
Open Scope Z_scope.

Definition MAX_GAPS : Z := 100.

Abbreviation loc := positive.
Abbreviation ptr := (option positive).

(** [start] inclusive, [end] exclusive. *)
Record gap := mk_gap { start : Z; end_ : Z }.
Record node := mk_node { gap_data : ptr; next : ptr; prev : ptr }.
Record gap_list := mk_list { head : ptr; tail : ptr; size : Z }.

Record gheap := mk_gheap {
  nodes : gmap loc node;
  gaps : gmap loc gap;
  lists : gmap loc gap_list;
  calls : nat
}.

Definition set_nodes (m : gmap loc node) (h : gheap) : gheap := mk_gheap m (gaps h) (lists h) (calls h).
Definition set_gaps (m : gmap loc gap) (h : gheap) : gheap := mk_gheap (nodes h) m (lists h) (calls h).
Definition set_lists (m : gmap loc gap_list) (h : gheap) : gheap := mk_gheap (nodes h) (gaps h) m (calls h).
Definition next_call (h : gheap) : gheap := mk_gheap (nodes h) (gaps h) (lists h) (S (calls h)).

Definition get_node (p : ptr) : prog gheap node := reads (λ h, l ← p; nodes h !! l).
Definition put_node (p : ptr) (f : node → node) : prog gheap unit :=
  updates (λ h, l ← p; _ ← nodes h !! l; Some (set_nodes (alter f l (nodes h)) h)).
Definition get_gap (p : ptr) : prog gheap gap := reads (λ h, l ← p; gaps h !! l).
Definition put_gap (p : ptr) (f : gap → gap) : prog gheap unit :=
  updates (λ h, l ← p; _ ← gaps h !! l; Some (set_gaps (alter f l (gaps h)) h)).
Definition get_list (l : loc) : prog gheap gap_list := reads (λ h, lists h !! l).
Definition put_list (l : loc) (f : gap_list → gap_list) : prog gheap unit :=
  updates (λ h, _ ← lists h !! l; Some (set_lists (alter f l (lists h)) h)).

Definition set_data (p : ptr) (n : node) : node := mk_node p (next n) (prev n).
Definition set_next (p : ptr) (n : node) : node := mk_node (gap_data n) p (prev n).
Definition set_prev (p : ptr) (n : node) : node := mk_node (gap_data n) (next n) p.
Definition set_start (z : Z) (g : gap) : gap := mk_gap z (end_ g).
Definition set_end (z : Z) (g : gap) : gap := mk_gap (start g) z.
Definition set_head (p : ptr) (l : gap_list) : gap_list := mk_list p (tail l) (size l).
Definition set_tail (p : ptr) (l : gap_list) : gap_list := mk_list (head l) p (size l).
Definition set_size (f : Z → Z) (l : gap_list) : gap_list := mk_list (head l) (tail l) (f (size l)).

Definition is_null (p : ptr) : bool := match p with None => true | Some _ => false end.

Definition free_node (p : ptr) : prog gheap unit :=
  match p with
  | None => mret tt
  | Some l => updates (λ h, _ ← nodes h !! l; Some (set_nodes (delete l (nodes h)) h))
  end.
Definition free_gap (p : ptr) : prog gheap unit :=
  match p with
  | None => mret tt
  | Some l => updates (λ h, _ ← gaps h !! l; Some (set_gaps (delete l (gaps h)) h))
  end.
Definition free_header (l : loc) : prog gheap unit :=
  updates (λ h, _ ← lists h !! l; Some (set_lists (delete l (lists h)) h)).

Section gap_list.
(** Which calls of [malloc] succeed; what the blocks hold does not matter,
    every field is written before it is read. *)
Context (malloc_ok : nat → bool) (junk_node : node) (junk_gap : gap).

Definition malloc_node : prog gheap ptr := λ h,
  if malloc_ok (calls h)
  then let l := fresh (dom (nodes h)) in Ret (Some l) (next_call (set_nodes (<[l := junk_node]> (nodes h)) h))
  else Ret None (next_call h).
Definition malloc_gap : prog gheap ptr := λ h,
  if malloc_ok (calls h)
  then let l := fresh (dom (gaps h)) in Ret (Some l) (next_call (set_gaps (<[l := junk_gap]> (gaps h)) h))
  else Ret None (next_call h).
Definition malloc_list : prog gheap (option loc) := λ h,
  if malloc_ok (calls h)
  then let l := fresh (dom (lists h)) in
       Ret (Some l) (next_call (set_lists (<[l := mk_list None None 0]> (lists h)) h))
  else Ret None (next_call h).

(** [new_list]: out of memory exits. *)
Definition new_list : prog gheap loc :=
  g ← malloc_list;
  match g with
  | None => exit_with 1
  | Some l =>
      put_list l (set_head None);; put_list l (set_tail None);; put_list l (set_size (λ _, 0));;
      mret l
  end.

(** The loop of [free_list]. *)
Fixpoint free_nodes (fuel : nat) (curr : ptr) : prog gheap unit :=
  match fuel with
  | O => λ _, Fuel
  | S fuel' =>
      if is_null curr then mret tt
      else
        n ← get_node curr; free_gap (gap_data n);;
        n' ← get_node curr;
        let next_node := next n' in
        free_node curr;;
        free_nodes fuel' next_node
  end.
Definition list_fuel (h : gheap) : nat := S (base.size (nodes h)).

Definition free_list (list : option loc) : prog gheap unit :=
  match list with
  | None => mret tt
  | Some l =>
      g ← get_list l;
      h ← get;
      free_nodes (list_fuel h) (head g);;
      free_header l
  end.

Definition insert (list : option loc) (new_gap : gap) : prog gheap bool :=
  match list with
  | None => mret false
  | Some l =>
      new_node ← malloc_node;
      if is_null new_node then exit_with 1
      else
        d ← malloc_gap;
        put_node new_node (set_data d);;
        if is_null d then free_node new_node;; exit_with 1
        else
          put_node new_node (set_next None);;
          put_node new_node (set_prev None);;
          put_gap d (set_start (start new_gap));;
          put_gap d (set_end (end_ new_gap));;
          g ← get_list l;
          (if is_null (head g)
           then put_list l (set_head new_node);; put_list l (set_tail new_node)
           else
             put_node (tail g) (set_next new_node);;
             put_node new_node (set_prev (tail g));;
             put_list l (set_tail new_node));;
          put_list l (set_size (λ z, z + 1));;
          mret true
  end.

(** The branch of [split_gap] that cuts a gap in two. *)
Definition split_node (l : loc) (curr : ptr) (split_point : Z) : prog gheap bool :=
  new_node ← malloc_node;
  if is_null new_node then mret false
  else
    d ← malloc_gap;
    put_node new_node (set_data d);;
    if is_null d then mret false
    else
      n ← get_node curr; g ← get_gap (gap_data n);
      put_gap d (set_start (split_point + 1));;
      put_gap d (set_end (end_ g));;
      put_node new_node (set_prev curr);;
      (if is_null (next n) then put_list l (set_tail new_node)
       else put_node (next n) (set_prev new_node));;
      n1 ← get_node curr;
      put_node new_node (set_next (next n1));;
      put_gap (gap_data n1) (set_end split_point);;
      put_node curr (set_next new_node);;
      put_list l (set_size (λ z, z + 1));;
      mret true.

(** The branch that drops a gap that has become empty. *)
Definition drop_node (l : loc) (curr : ptr) : prog gheap unit :=
  put_list l (set_size (λ z, z - 1));;
  n ← get_node curr;
  (if is_null (next n) && is_null (prev n)
   then put_list l (set_size (λ _, 0));; put_list l (set_tail None);; put_list l (set_head None)
   else if is_null (next n)
   then put_list l (set_tail (prev n));; put_node (prev n) (set_next None)
   else if is_null (prev n)
   then put_list l (set_head (next n));; put_node (next n) (set_prev None)
   else put_node (prev n) (set_next (next n));; put_node (next n) (set_prev (prev n)));;
  free_gap (gap_data n);;
  free_node curr.

(** The loop of [split_gap]. *)
Fixpoint split_loop (fuel : nat) (l : loc) (curr : ptr) (split_point : Z) : prog gheap bool :=
  match fuel with
  | O => λ _, Fuel
  | S fuel' =>
      if is_null curr then mret false
      else
        n ← get_node curr; g ← get_gap (gap_data n);
        if split_point <? start g then mret false
        else if split_point >=? end_ g then split_loop fuel' l (next n) split_point
        else if negb (split_point =? start g) && negb (split_point =? end_ g - 1)
        then split_node l curr split_point
        else
          (if split_point =? start g
           then put_gap (gap_data n) (set_start (start g + 1))
           else put_gap (gap_data n) (set_end (end_ g - 1)));;
          g1 ← get_gap (gap_data n);
          (if start g1 >=? end_ g1 then drop_node l curr else mret tt);;
          mret true
  end.
Definition split_gap (list : loc) (split_point : Z) : prog gheap bool :=
  g ← get_list list;
  h ← get;
  split_loop (list_fuel h) list (head g) split_point.

(** The gaps from a node on, at most [n] of them: the loop of [print_list], and
    with [n = MAX_GAPS] the one of [prepare_message]. *)
Fixpoint walk (n : nat) (curr : ptr) : prog gheap (list gap) :=
  match n with
  | O => mret []
  | S n' =>
      if is_null curr then mret []
      else
        nd ← get_node curr; g ← get_gap (gap_data nd);
        rest ← walk n' (next nd);
        mret (g :: rest)
  end.
(** The loop of [print_list_reverse]. *)
Fixpoint walk_back (n : nat) (curr : ptr) : prog gheap (list gap) :=
  match n with
  | O => mret []
  | S n' =>
      if is_null curr then mret []
      else
        nd ← get_node curr; g ← get_gap (gap_data nd);
        rest ← walk_back n' (prev nd);
        mret (g :: rest)
  end.
(** What the two print. *)
Definition print_list (l : loc) : prog gheap (list gap) :=
  g ← get_list l; h ← get; walk (list_fuel h) (head g).
Definition print_list_reverse (l : loc) : prog gheap (list gap) :=
  g ← get_list l; h ← get; walk_back (list_fuel h) (tail g).
End gap_list.

(** ** The list at the level of values *)

(** One missing interval, and the whole list. *)
Definition in_gap (i : Z) (g : gap) : Prop := start g ≤ i < end_ g.
Definition missing (gs : list gap) (i : Z) : Prop := ∃ g, g ∈ gs ∧ in_gap i g.

(** Non-empty intervals in increasing order, none overlapping the next. *)
Fixpoint ordered (lo : Z) (gs : list gap) : Prop :=
  match gs with
  | [] => True
  | g :: gs' => lo ≤ start g ∧ start g < end_ g ∧ ordered (end_ g) gs'
  end.

(** What [split_gap] does to the intervals; [room] is whether both calls of
    [malloc] succeed where a gap is cut in two. *)
Fixpoint gsplit (room : bool) (gs : list gap) (p : Z) : bool * list gap :=
  match gs with
  | [] => (false, [])
  | g :: gs' =>
      if p <? start g then (false, gs)
      else if p >=? end_ g then let r := gsplit room gs' p in (r.1, g :: r.2)
      else if negb (p =? start g) && negb (p =? end_ g - 1)
      then if room then (true, mk_gap (start g) p :: mk_gap (p + 1) (end_ g) :: gs') else (false, gs)
      else
        let g' := if p =? start g then mk_gap (start g + 1) (end_ g) else mk_gap (start g) (end_ g - 1) in
        (true, if start g' >=? end_ g' then gs' else g' :: gs')
  end.

Lemma missing_cons g gs i : missing (g :: gs) i ↔ in_gap i g ∨ missing gs i.
Proof. unfold missing. setoid_rewrite elem_of_cons. naive_solver. Qed.
Lemma missing_nil i : ¬ missing [] i.
Proof. intros (g & Hg & _). by apply not_elem_of_nil in Hg. Qed.
Lemma missing_singleton g i : missing [g] i ↔ in_gap i g.
Proof. rewrite missing_cons. pose proof (missing_nil i). tauto. Qed.
Lemma missing_app g1 g2 i : missing (g1 ++ g2) i ↔ missing g1 i ∨ missing g2 i.
Proof. unfold missing. setoid_rewrite elem_of_app. naive_solver. Qed.

Lemma ordered_lo lo lo' gs : lo' ≤ lo → ordered lo gs → ordered lo' gs.
Proof. destruct gs; simpl; [done|]. intros ? (? & ? & ?). split_and!; [lia|done..]. Qed.

Lemma ordered_ge lo gs i : ordered lo gs → missing gs i → lo ≤ i.
Proof.
  revert lo. induction gs as [|g gs IH]; intros lo H Hi; [by apply missing_nil in Hi|].
  destruct H as (? & ? & Ho). apply missing_cons in Hi as [[? ?]|Hi]; [lia|].
  specialize (IH _ Ho Hi). lia.
Qed.

Lemma ordered_snoc lo gs g :
  ordered lo gs → start g < end_ g → lo ≤ start g → (∀ i, missing gs i → i < start g) →
  ordered lo (gs ++ [g]).
Proof.
  revert lo. induction gs as [|g1 gs IH]; intros lo H Hg Hlo Hi; simpl; [done|].
  destruct H as (? & ? & Ho). split_and!; [done..|]. apply IH; [done|done| |].
  - specialize (Hi (end_ g1 - 1)). rewrite missing_cons in Hi. unfold in_gap in Hi. lia.
  - intros i Him. apply Hi, missing_cons. by right.
Qed.

(** Filling a number in: it is reported when it was missing, and only it
    leaves the set; without memory to cut a gap nothing changes. *)
Definition filled (room : bool) (gs : list gap) (p lo : Z) (r : bool * list gap) : Prop :=
  ordered lo r.2 ∧
  ((r.1 = true ∧ missing gs p ∧ ∀ i, missing r.2 i ↔ missing gs i ∧ i ≠ p) ∨
   (r.1 = false ∧ r.2 = gs ∧ (missing gs p → room = false))).

Lemma gsplit_spec room gs p lo : ordered lo gs → filled room gs p lo (gsplit room gs p).
Proof.
  unfold filled.
  revert lo. induction gs as [|g gs IH]; intros lo H; simpl.
  { split; [done|]. right. split_and!; [done..|]. by intros ?%missing_nil. }
  destruct H as (Hlo & Hne & Ho).
  assert (∀ i, missing gs i → end_ g ≤ i) as Hge by eauto using ordered_ge.
  destruct (Z.ltb_spec p (start g)).
  { split; [done|]. right. split_and!; [done..|].
    intros [[? ?]|Hm]%missing_cons; [lia|]. specialize (Hge _ Hm). lia. }
  rewrite Z.geb_leb. destruct (Z.leb_spec (end_ g) p).
  { destruct (IH (end_ g) Ho) as (Ho' & [(E & Hp & Hi)|(E & Hr & Hp)]); cbn [fst snd].
    - split; [done|]. left. split_and!; [done|by apply missing_cons; right|]. intros i.
      rewrite !missing_cons, Hi. unfold in_gap. naive_solver lia.
    - split; [done|]. right. rewrite Hr. split_and!; [done..|].
      intros [[? ?]|Hm]%missing_cons; [lia|auto]. }
  assert (missing (g :: gs) p) as Hp by (apply missing_cons; left; done).
  assert (∀ i, missing gs i → i ≠ p) as Hnp by (intros i Hm ->; specialize (Hge _ Hm); lia).
  assert (∀ gs1 : list gap, (∀ i, missing gs1 i ↔ in_gap i g ∧ i ≠ p) →
    ordered lo (gs1 ++ gs) → filled room (g :: gs) p lo (true, gs1 ++ gs)) as Hfill.
  { intros gs1 H1 H2. split; [done|]. left. split_and!; [done..|]. intros i. simpl.
    rewrite missing_app, missing_cons, H1. specialize (Hnp i). tauto. }
  destruct (Z.eqb_spec p (start g)) as [Es|Es]; [|destruct (Z.eqb_spec p (end_ g - 1)) as [Ee|Ee]];
    cbn [negb andb start end_]; rewrite ?Z.geb_leb.
  - destruct (Z.leb_spec (end_ g) (start g + 1)).
    + apply (Hfill []); [|by eapply ordered_lo; [|done]; lia]. intros i. unfold in_gap.
      split; [by intros ?%missing_nil|lia].
    + apply (Hfill [mk_gap (start g + 1) (end_ g)]); [|simpl; split_and!; [lia..|done]].
      intros i. rewrite missing_singleton. unfold in_gap. simpl. lia.
  - destruct (Z.leb_spec (end_ g - 1) (start g)); [lia|].
    apply (Hfill [mk_gap (start g) (end_ g - 1)]).
    + intros i. rewrite missing_singleton. unfold in_gap. simpl. lia.
    + simpl. split_and!; [lia..|]. eapply ordered_lo; [|done]. lia.
  - destruct room.
    + apply (Hfill [mk_gap (start g) p; mk_gap (p + 1) (end_ g)]); [|simpl; split_and!; [lia..|done]].
      intros i. rewrite missing_cons, missing_singleton. unfold in_gap. simpl. lia.
    + split; [done|]. right. by split_and!.
Qed.

(** ** The list at the level of the heap *)

(** A cell: its node, its gap block and the gap. *)
Record cell := mk_cell { cn : loc; cd : loc; cg : gap }.
Definition first (cells : list cell) (stop : ptr) : ptr :=
  match cells with [] => stop | c :: _ => Some (cn c) end.
Fixpoint final (from : ptr) (cells : list cell) : ptr :=
  match cells with [] => from | c :: cells' => final (Some (cn c)) cells' end.

(** A segment between the nodes [p] and [q]. *)
Fixpoint dseg (h : gheap) (p : ptr) (cells : list cell) (q : ptr) : Prop :=
  match cells with
  | [] => True
  | c :: cells' =>
      nodes h !! cn c = Some (mk_node (Some (cd c)) (first cells' q) p) ∧
      gaps h !! cd c = Some (cg c) ∧ dseg h (Some (cn c)) cells' q
  end.

(** The header [l] holds [cells]; apart from [leaked] nodes nothing else is
    allocated. *)
Record list_at (leaked : gset loc) (h : gheap) (l : loc) (cells : list cell) : Prop := {
  la_header : lists h = {[l := mk_list (first cells None) (final None cells) (Z.of_nat (length cells))]};
  la_seg : dseg h None cells None;
  la_nodes : NoDup (cn <$> cells);
  la_gaps : NoDup (cd <$> cells);
  la_dom : dom (nodes h) = list_to_set (cn <$> cells) ∪ leaked;
  la_leaked : list_to_set (cn <$> cells) ## leaked;
  la_dom_gaps : dom (gaps h) = list_to_set (cd <$> cells)
}.

Lemma first_app c1 c2 q : first (c1 ++ c2) q = first c1 (first c2 q).
Proof. by destruct c1. Qed.
Lemma final_app p c1 c2 : final p (c1 ++ c2) = final (final p c1) c2.
Proof. revert p. induction c1; intros p; simpl; auto. Qed.
Lemma final_snoc p c1 c : final p (c1 ++ [c]) = Some (cn c).
Proof. by rewrite final_app. Qed.

Lemma dseg_app h p c1 c2 q :
  dseg h p (c1 ++ c2) q ↔ dseg h p c1 (first c2 q) ∧ dseg h (final p c1) c2 q.
Proof.
  revert p. induction c1 as [|c c1 IH]; intros p; simpl; [naive_solver|].
  rewrite first_app, IH. naive_solver.
Qed.

Lemma dseg_frame h h' p cells q :
  (∀ k, k ∈ cn <$> cells → nodes h' !! k = nodes h !! k) →
  (∀ k, k ∈ cd <$> cells → gaps h' !! k = gaps h !! k) →
  dseg h p cells q → dseg h' p cells q.
Proof.
  revert p. induction cells as [|c cells IH]; intros p Hn Hg; simpl; [done|].
  rewrite fmap_cons in Hn, Hg. intros (? & ? & ?).
  rewrite Hn, Hg by set_solver. split_and!; [done..|]. apply IH; [..|done]; set_solver.
Qed.

(** Relinking an end of a segment. *)
Definition relink (f : node → node) (k : ptr) (h : gheap) : gheap :=
  match k with Some l => set_nodes (alter f l (nodes h)) h | None => h end.

Lemma relink_frame f k h p cells q :
  (∀ l, k = Some l → l ∉ cn <$> cells) → dseg h p cells q → dseg (relink f k h) p cells q.
Proof.
  intros Hk. apply dseg_frame; intros j Hj; destruct k as [l|]; try done.
  apply lookup_alter_ne. intros ->. by apply (Hk j).
Qed.

Lemma relink_next h p cells q q' :
  NoDup (cn <$> cells) → cells ≠ [] → dseg h p cells q →
  dseg (relink (set_next q') (final p cells) h) p cells q'.
Proof.
  destruct cells as [|c cells _] using rev_ind; [done|]. rewrite final_snoc, fmap_app. intros Hnd _.
  apply NoDup_app in Hnd as (_ & Hnd & _). rewrite !dseg_app. intros (H1 & H2 & H3 & _).
  split.
  - apply relink_frame; [|done]. intros l [= <-]. intros Hl. apply (Hnd _ Hl). set_solver.
  - simpl in *. split_and!; [|done..]. by rewrite lookup_alter_eq, H2.
Qed.

Lemma relink_prev h p p' cells q :
  NoDup (cn <$> cells) → cells ≠ [] → dseg h p cells q →
  dseg (relink (set_prev p') (first cells None) h) p' cells q.
Proof.
  destruct cells as [|c cells]; [done|]. rewrite fmap_cons. intros [Hnd _]%NoDup_cons _ (H1 & H2 & H3).
  simpl. split_and!; [by rewrite lookup_alter_eq, H1|done|].
  apply (relink_frame _ (Some (cn c))); [|done]. intros l [= <-]. done.
Qed.

Lemma first_None cells : first cells None = None → cells = [].
Proof. by destruct cells. Qed.
Lemma final_None cells : final None cells = None → cells = [].
Proof. destruct cells as [|c cells _] using rev_ind; [done|]. by rewrite final_snoc. Qed.

(** ** Running the operations *)

Lemma get_node_Ret h l n : nodes h !! l = Some n → get_node (Some l) h = Ret n h.
Proof. intros E. by apply (reads_Some _ _ h). Qed.
Lemma put_node_Ret f h l : is_Some (nodes h !! l) → put_node (Some l) f h = Ret tt (relink f (Some l) h).
Proof. intros [n E]. apply updates_Some. simpl. by rewrite E. Qed.
Lemma get_gap_Ret h l g : gaps h !! l = Some g → get_gap (Some l) h = Ret g h.
Proof. intros E. by apply (reads_Some _ _ h). Qed.
Lemma put_gap_Ret f h l : is_Some (gaps h !! l) →
  put_gap (Some l) f h = Ret tt (set_gaps (alter f l (gaps h)) h).
Proof. intros [n E]. apply updates_Some. simpl. by rewrite E. Qed.
Lemma get_list_Ret h l g : lists h !! l = Some g → get_list l h = Ret g h.
Proof. intros E. by apply (reads_Some _ _ h). Qed.
Lemma put_list_Ret f h l : is_Some (lists h !! l) →
  put_list l f h = Ret tt (set_lists (alter f l (lists h)) h).
Proof. intros [n E]. apply updates_Some. simpl. by rewrite E. Qed.
Lemma free_node_Ret h l : is_Some (nodes h !! l) →
  free_node (Some l) h = Ret tt (set_nodes (delete l (nodes h)) h).
Proof. intros [n E]. apply updates_Some. by rewrite E. Qed.
Lemma free_gap_Ret h l : is_Some (gaps h !! l) →
  free_gap (Some l) h = Ret tt (set_gaps (delete l (gaps h)) h).
Proof. intros [n E]. apply updates_Some. by rewrite E. Qed.

Lemma alter_singleton_list f l g : alter f l {[l := g]} = ({[l := f g]} : gmap loc gap_list).
Proof. apply map_eq. intros k. destruct (decide (l = k)) as [->|]; simplify_map_eq; done. Qed.

(** Look a block up in a heap that has been updated. *)
Ltac heap :=
  cbn [relink set_nodes set_gaps set_lists next_call nodes gaps lists calls];
  repeat first
    [ rewrite lookup_alter_eq | rewrite lookup_insert_eq | rewrite lookup_singleton_eq
    | rewrite lookup_alter_ne by congruence | rewrite lookup_insert_ne by congruence
    | rewrite lookup_delete_ne by congruence ].
Ltac heap_some := heap; first [eassumption|reflexivity|by eexists
  |match goal with H : ?m !! ?k = Some _ |- context [?m !! ?k] => rewrite H; first [reflexivity|by eexists] end].
(** Run the next operation on a block that is there. *)
Ltac op L := erewrite bind_Ret; [|apply L; heap_some].

(** A node of the list and its gap. *)
Lemma dseg_cell h cells a x b :
  dseg h None cells None → cells = a ++ x :: b →
  nodes h !! cn x = Some (mk_node (Some (cd x)) (first b None) (final None a)) ∧
  gaps h !! cd x = Some (cg x).
Proof. intros Hs ->. apply dseg_app in Hs as [_ (? & ? & _)]. done. Qed.

Lemma NoDup_cell (f : cell → loc) a x b :
  NoDup (f <$> a ++ x :: b) →
  NoDup (f <$> a) ∧ NoDup (f <$> b) ∧ f x ∉ f <$> a ∧ f x ∉ f <$> b ∧
  (∀ k, k ∈ f <$> a → k ∉ f <$> b).
Proof.
  rewrite fmap_app, fmap_cons. intros (H1 & H2 & [H3 H4]%NoDup_cons)%NoDup_app.
  split_and!; [done|done| |done|]; [intros Hx; specialize (H2 _ Hx)|intros k Hk; specialize (H2 _ Hk)]; set_solver.
Qed.

Lemma list_size_fuel lk h l cells : list_at lk h l cells → (length cells < list_fuel h)%nat.
Proof.
  intros L. unfold list_fuel.
  rewrite <-size_dom, (la_dom _ _ _ _ L), size_union by apply (la_leaked _ _ _ _ L).
  rewrite size_list_to_set by apply (la_nodes _ _ _ _ L). rewrite length_fmap. lia.
Qed.

Lemma final_In p cells : cells ≠ [] → ∃ c, final p cells = Some (cn c) ∧ c ∈ cells.
Proof.
  destruct cells as [|c cells _] using rev_ind; [done|]. exists c. rewrite final_snoc. set_solver.
Qed.

Lemma free_nodes_spec fuel cells p h :
  dseg h p cells None → NoDup (cn <$> cells) → NoDup (cd <$> cells) → (length cells < fuel)%nat →
  ∃ h', free_nodes fuel (first cells None) h = Ret tt h' ∧ lists h' = lists h ∧ calls h' = calls h ∧
    dom (nodes h') = dom (nodes h) ∖ list_to_set (cn <$> cells) ∧
    dom (gaps h') = dom (gaps h) ∖ list_to_set (cd <$> cells).
Proof.
  revert p h fuel. induction cells as [|c cells IH]; intros p h [|fuel] Hs Hn Hd Hf; simpl in Hf; try lia.
  { exists h. simpl. split_and!; [done..|set_solver|set_solver]. }
  destruct Hs as (Hnode & Hgap & Hs). rewrite fmap_cons in Hn, Hd.
  apply NoDup_cons in Hn as [Hn1 Hn], Hd as [Hd1 Hd].
  cbn [free_nodes first is_null]. op get_node_Ret. cbn [gap_data]. op free_gap_Ret. op get_node_Ret.
  cbn [next]. op free_node_Ret.
  set (h1 := set_nodes _ _).
  destruct (IH (Some (cn c)) h1 fuel) as (h' & E & El & Ec & En & Eg); [|done|done|lia|].
  { eapply dseg_frame; [..|exact Hs]; intros k Hk; simpl; apply lookup_delete_ne; congruence. }
  exists h'. split_and!; [exact E|exact El|exact Ec| |].
  - rewrite En. simpl. rewrite dom_delete_L. set_solver.
  - rewrite Eg. simpl. rewrite dom_delete_L. set_solver.
Qed.

(** [free_list] gives every block of the list back. *)
Lemma free_list_spec lk h l cells :
  list_at lk h l cells →
  ∃ h', free_list (Some l) h = Ret tt h' ∧ lists h' = ∅ ∧ dom (nodes h') = lk ∧ gaps h' = ∅.
Proof.
  intros L. unfold free_list. erewrite bind_Ret; [|apply get_list_Ret; rewrite (la_header _ _ _ _ L); apply lookup_singleton_eq].
  run (eq_refl (get h)). cbn [head].
  destruct (free_nodes_spec (list_fuel h) cells None h) as (h' & E & El & _ & En & Eg);
    [apply L..|exact (list_size_fuel _ _ _ _ L)|].
  run E. exists (set_lists ∅ h').
  assert (lists h' = {[l := mk_list (first cells None) (final None cells) (Z.of_nat (length cells))]}) as Hl
    by (rewrite El; apply L).
  split_and!; [|done| |].
  - apply updates_Some. rewrite Hl, lookup_singleton_eq. simpl. by rewrite delete_singleton_eq.
  - simpl. rewrite En, (la_dom _ _ _ _ L). pose proof (la_leaked _ _ _ _ L). set_solver.
  - simpl. apply dom_empty_inv_L. rewrite Eg, (la_dom_gaps _ _ _ _ L). set_solver.
Qed.

(** The heap after a call of [malloc] that succeeds. *)
Definition with_node (jn : node) (h : gheap) : gheap :=
  next_call (set_nodes (<[fresh (dom (nodes h)) := jn]> (nodes h)) h).
Definition with_gap (jg : gap) (h : gheap) : gheap :=
  next_call (set_gaps (<[fresh (dom (gaps h)) := jg]> (gaps h)) h).
Lemma malloc_node_Ret ok jn h : ok (calls h) = true →
  malloc_node ok jn h = Ret (Some (fresh (dom (nodes h)))) (with_node jn h).
Proof. intros E. unfold malloc_node. by rewrite E. Qed.
Lemma malloc_node_None ok jn h : ok (calls h) = false → malloc_node ok jn h = Ret None (next_call h).
Proof. intros E. unfold malloc_node. by rewrite E. Qed.
Lemma malloc_gap_Ret ok jg h : ok (calls h) = true →
  malloc_gap ok jg h = Ret (Some (fresh (dom (gaps h)))) (with_gap jg h).
Proof. intros E. unfold malloc_gap. by rewrite E. Qed.
Lemma malloc_gap_None ok jg h : ok (calls h) = false → malloc_gap ok jg h = Ret None (next_call h).
Proof. intros E. unfold malloc_gap. by rewrite E. Qed.

Lemma first_Some cells q f : first cells None = Some f → first cells q = Some f.
Proof. by destruct cells. Qed.
Lemma dom_relink f k h : dom (nodes (relink f k h)) = dom (nodes h).
Proof. destruct k; [apply dom_alter_L|done]. Qed.
Lemma gaps_relink f k h : gaps (relink f k h) = gaps h.
Proof. by destruct k. Qed.
Lemma lists_relink f k h : lists (relink f k h) = lists h.
Proof. by destruct k. Qed.

(** A cell put after the others. *)
Lemma snoc_at lk h h' l cells c :
  list_at lk h l cells → cn c ∉ dom (nodes h) → cd c ∉ dom (gaps h) →
  lists h' = {[l := mk_list (first (cells ++ [c]) None) (Some (cn c)) (Z.of_nat (length cells) + 1)]} →
  nodes h' = <[cn c := mk_node (Some (cd c)) None (final None cells)]>
    (nodes (relink (set_next (Some (cn c))) (final None cells) h)) →
  gaps h' = <[cd c := cg c]> (gaps h) →
  list_at lk h' l (cells ++ [c]).
Proof.
  intros [Hl Hs Hn Hd Hdn Hlk Hdd] Hcn Hcd El En Eg.
  assert (cn c ∉ cn <$> cells) by (intros Hx; apply Hcn; rewrite Hdn; set_solver).
  assert (cd c ∉ cd <$> cells) by (intros Hx; apply Hcd; rewrite Hdd; set_solver).
  constructor.
  - rewrite El, final_snoc, length_app. simpl. do 2 f_equal. lia.
  - apply dseg_app. split.
    + apply dseg_frame with (relink (set_next (Some (cn c))) (final None cells) h).
      * intros k Hk. rewrite En, lookup_insert_ne; [done|]. congruence.
      * intros k Hk. rewrite Eg, gaps_relink, lookup_insert_ne; [done|]. congruence.
      * destruct cells as [|c0 cells]; [done|]. by apply relink_next with None.
    + simpl. by rewrite En, Eg, !lookup_insert_eq.
  - rewrite fmap_app. apply NoDup_app. split_and!; [done| |apply NoDup_singleton]. set_solver.
  - rewrite fmap_app. apply NoDup_app. split_and!; [done| |apply NoDup_singleton]. set_solver.
  - rewrite En, dom_insert_L, dom_relink, Hdn, fmap_app. set_solver.
  - rewrite fmap_app. rewrite Hdn in Hcn. set_solver.
  - rewrite Eg, dom_insert_L, Hdd, fmap_app. set_solver.
Qed.

(** [insert] appends. *)
Lemma insert_spec (ok : nat → bool) jn jg lk h l cells g :
  list_at lk h l cells →
  if ok (calls h) && ok (S (calls h))
  then ∃ h' c, insert ok jn jg (Some l) g h = Ret true h' ∧ cg c = g ∧ list_at lk h' l (cells ++ [c])
  else ∃ h', insert ok jn jg (Some l) g h = Exited 1 h'.
Proof.
  intros L. unfold insert.
  destruct (ok (calls h)) eqn:E1; cbn [andb]; [|run (malloc_node_None _ jn _ E1); by eexists].
  run (malloc_node_Ret _ jn _ E1). cbn [is_null].
  destruct (ok (S (calls h))) eqn:E2; cycle 1.
  { run (malloc_gap_None ok jg (with_node jn h) E2). unfold with_node. op put_node_Ret.
    cbn [is_null]. op free_node_Ret. by eexists. }
  run (malloc_gap_Ret ok jg (with_node jn h) E2). cbn [is_null with_node next_call set_nodes gaps].
  assert (fresh (dom (nodes h)) ∉ dom (nodes h)) as Hn by apply is_fresh.
  assert (fresh (dom (gaps h)) ∉ dom (gaps h)) as Hd by apply is_fresh.
  set (n := fresh (dom (nodes h))) in *. set (d := fresh (dom (gaps h))) in *.
  unfold with_gap, with_node. cbn [next_call set_nodes nodes gaps]. fold n d.
  do 3 op put_node_Ret. do 2 op put_gap_Ret.
  erewrite bind_Ret; [|apply get_list_Ret; simpl; rewrite (la_header _ _ _ _ L); apply lookup_singleton_eq].
  cbn [head tail].
  eassert (∃ h', _ = Ret true h' ∧ list_at lk h' l (cells ++ [mk_cell n d g])) as (h' & E & Hat);
    [|exists h', (mk_cell n d g); split_and!; [exact E|done|exact Hat]].
  assert (lists h !! l = Some (mk_list (first cells None) (final None cells) (Z.of_nat (length cells)))) as Hl
    by (rewrite (la_header _ _ _ _ L); apply lookup_singleton_eq).
  destruct (first cells None) as [f|] eqn:Ef; cbn [is_null].
  - destruct (final_In None cells) as (t & Et & Ht); [by intros ->|]. rewrite Et.
    assert (is_Some (nodes h !! cn t)) as [nt Hnt].
    { apply elem_of_dom. rewrite (la_dom _ _ _ _ L). set_solver. }
    assert (cn t ≠ n) as Hne by (intros Hx; apply Hn; rewrite <-Hx; by apply elem_of_dom_2 in Hnt).
    erewrite bind_Ret; cycle 1.
    { op put_node_Ret. op put_node_Ret. apply put_list_Ret. heap_some. }
    op put_list_Ret. eexists. split; [reflexivity|].
    eapply snoc_at; [exact L|done|done|..]; cbn [cn cd cg].
    + heap. rewrite (la_header _ _ _ _ L), !alter_singleton_list. rewrite first_app. simpl. by rewrite (first_Some cells (Some n) f Ef), Ef.
    + heap. rewrite Et. simpl. rewrite !alter_insert_eq, (alter_insert_ne _ _ n) by done. by rewrite !alter_insert_eq.
    + heap. by rewrite !alter_insert_eq; destruct g.
  - apply first_None in Ef as ->.
    erewrite bind_Ret; cycle 1.
    { op put_list_Ret. apply put_list_Ret. heap_some. }
    op put_list_Ret. eexists. split; [reflexivity|].
    eapply snoc_at; [exact L|done|done|..]; cbn [cn cd cg].
    + heap. by rewrite (la_header _ _ _ _ L), !alter_singleton_list.
    + heap. by rewrite !alter_insert_eq.
    + heap. by rewrite !alter_insert_eq; destruct g.
Qed.

(** A cell whose gap is changed. *)
Lemma regap_at lk h l a x b f :
  list_at lk h l (a ++ x :: b) →
  list_at lk (set_gaps (alter f (cd x) (gaps h)) h) l (a ++ mk_cell (cn x) (cd x) (f (cg x)) :: b).
Proof.
  intros [Hl Hs Hn Hd Hdn Hlk Hdd].
  assert (∀ (g : cell → loc), g x = g (mk_cell (cn x) (cd x) (f (cg x))) →
    g <$> a ++ x :: b = g <$> a ++ mk_cell (cn x) (cd x) (f (cg x)) :: b) as Hmap.
  { intros g Hg. by rewrite !fmap_app, !fmap_cons, Hg. }
  pose proof (Hmap cn eq_refl) as Hcn. pose proof (Hmap cd eq_refl) as Hcd.
  rewrite Hcn in Hn, Hdn, Hlk. pose proof Hd as Hd'. rewrite Hcd in Hd, Hdd.
  destruct (NoDup_cell cd a x b Hd') as (_ & _ & Hxa & Hxb & _).
  constructor; [|..|exact Hn|exact Hd|exact Hdn|exact Hlk|].
  - simpl. by rewrite Hl, !first_app, !final_app, !length_app.
  - apply dseg_app in Hs as [Hs1 (H1 & H2 & H3)]. apply dseg_app. split; [|split_and!].
    + eapply (dseg_frame h); [done|intros k Hk; simpl; apply lookup_alter_ne; congruence|exact Hs1].
    + exact H1.
    + simpl. by rewrite lookup_alter_eq, H2.
    + eapply (dseg_frame h); [done|intros k Hk; simpl; apply lookup_alter_ne; congruence|exact H3].
  - simpl. by rewrite dom_alter_L.
Qed.

(** A cell taken out, its neighbours linked to each other. *)
Lemma drop_at lk h h' l a x b :
  list_at lk h l (a ++ x :: b) →
  lists h' = {[l := mk_list (first (a ++ b) None) (final None (a ++ b)) (Z.of_nat (length (a ++ b)))]} →
  nodes h' = delete (cn x) (nodes (relink (set_prev (final None a)) (first b None)
    (relink (set_next (first b None)) (final None a) h))) →
  gaps h' = delete (cd x) (gaps h) →
  list_at lk h' l (a ++ b).
Proof.
  intros [Hl Hs Hn Hd Hdn Hlk Hdd] El En Eg.
  destruct (NoDup_cell cn a x b Hn) as (Hna & Hnb & Hxa & Hxb & Hab).
  destruct (NoDup_cell cd a x b Hd) as (Hda & Hdb & Hya & Hyb & Hab').
  apply dseg_app in Hs as [H1 (_ & _ & H3)]. rewrite fmap_app, fmap_cons in Hdn, Hlk, Hdd.
  constructor.
  - done.
  - apply dseg_app. split.
    + eapply dseg_frame with (relink (set_prev (final None a)) (first b None)
        (relink (set_next (first b None)) (final None a) h)).
      * intros k Hk. rewrite En. apply lookup_delete_ne. congruence.
      * intros k Hk. rewrite Eg, !gaps_relink. apply lookup_delete_ne. congruence.
      * apply relink_frame; [|destruct a; [done|by apply relink_next with (Some (cn x))]].
        intros k Ek Hk. apply (Hab k Hk). destruct b; simplify_eq/=. set_solver.
    + eapply dseg_frame with (relink (set_prev (final None a)) (first b None)
        (relink (set_next (first b None)) (final None a) h)).
      * intros k Hk. rewrite En. apply lookup_delete_ne. congruence.
      * intros k Hk. rewrite Eg, !gaps_relink. apply lookup_delete_ne. congruence.
      * destruct b as [|c b]; [done|]. apply relink_prev with (Some (cn x)); [done|done|].
        apply relink_frame; [|done]. intros k Ek Hk. apply (Hab k); [|done].
        destruct a as [|c0 a _] using rev_ind; [done|]. rewrite final_snoc in Ek. set_solver.
  - rewrite fmap_app. by apply NoDup_app.
  - rewrite fmap_app. by apply NoDup_app.
  - rewrite En, dom_delete_L, !dom_relink, Hdn, fmap_app. set_solver.
  - rewrite fmap_app. set_solver.
  - rewrite Eg, dom_delete_L, Hdd, fmap_app. set_solver.
Qed.

(** A new cell after [x], whose gap is cut. *)
Lemma split_at lk h h' l a x b y f :
  list_at lk h l (a ++ x :: b) → cn y ∉ dom (nodes h) → cd y ∉ dom (gaps h) →
  lists h' = {[l := mk_list (first (a ++ x :: b) None) (final (Some (cn y)) b)
    (Z.of_nat (length (a ++ x :: b)) + 1)]} →
  nodes h' = <[cn y := mk_node (Some (cd y)) (first b None) (Some (cn x))]>
    (alter (set_next (Some (cn y))) (cn x) (nodes (relink (set_prev (Some (cn y))) (first b None) h))) →
  gaps h' = <[cd y := cg y]> (alter f (cd x) (gaps h)) →
  list_at lk h' l (a ++ mk_cell (cn x) (cd x) (f (cg x)) :: y :: b).
Proof.
  intros Hat Hcn Hcd El En Eg. pose proof Hat as [Hl Hs Hn Hd Hdn Hlk Hdd].
  destruct (NoDup_cell cn a x b Hn) as (Hna & Hnb & Hxa & Hxb & Hab).
  destruct (NoDup_cell cd a x b Hd) as (Hda & Hdb & Hya & Hyb & Hab').
  apply dseg_app in Hs as [H1 (Hx1 & Hx2 & H3)]. rewrite fmap_app, fmap_cons in Hdn, Hlk, Hdd.
  rewrite Hdn in Hcn. rewrite Hdd in Hcd.
  assert (∀ k, k ∈ cn <$> a → first b None ≠ Some k) as Hfb.
  { intros k Hk Ek. apply (Hab k Hk). destruct b; simplify_eq/=. set_solver. }
  assert (first b None ≠ Some (cn x)) as Hfx.
  { intros Ek. apply Hxb. destruct b; simplify_eq/=. rewrite Ek. set_solver. }
  constructor.
  - rewrite El, !first_app, !final_app, !length_app. simpl. do 2 f_equal. lia.
  - apply dseg_app. split; [|simpl; split_and!].
    + eapply dseg_frame with (relink (set_prev (Some (cn y))) (first b None) h).
      * intros k Hk. rewrite En, lookup_insert_ne, lookup_alter_ne; [done|congruence|set_solver].
      * intros k Hk. rewrite Eg, gaps_relink, lookup_insert_ne, lookup_alter_ne; [done|congruence|set_solver].
      * apply relink_frame; [|exact H1]. intros k Ek Hk. by apply (Hfb k).
    + rewrite En, lookup_insert_ne, lookup_alter_eq by set_solver.
      assert (nodes (relink (set_prev (Some (cn y))) (first b None) h) !! cn x = nodes h !! cn x) as ->.
      { destruct (first b None) as [k|]; [|done]. apply lookup_alter_ne. congruence. }
      by rewrite Hx1.
    + rewrite Eg, lookup_insert_ne, lookup_alter_eq, Hx2 by set_solver. done.
    + by rewrite En, lookup_insert_eq.
    + by rewrite Eg, lookup_insert_eq.
    + eapply dseg_frame with (relink (set_prev (Some (cn y))) (first b None) h).
      * intros k Hk. rewrite En, lookup_insert_ne, lookup_alter_ne; [done|congruence|set_solver].
      * intros k Hk. rewrite Eg, gaps_relink, lookup_insert_ne, lookup_alter_ne; [done|congruence|set_solver].
      * destruct b as [|c b]; [done|]. by apply relink_prev with (Some (cn x)).
  - rewrite fmap_app, !fmap_cons. simpl. apply NoDup_app. split_and!; [done|set_solver|].
    repeat apply NoDup_cons_2; [set_solver..|done].
  - rewrite fmap_app, !fmap_cons. simpl. apply NoDup_app. split_and!; [done|set_solver|].
    repeat apply NoDup_cons_2; [set_solver..|done].
  - rewrite En, dom_insert_L, dom_alter_L, dom_relink, Hdn, fmap_app, !fmap_cons. set_solver.
  - rewrite fmap_app, !fmap_cons. set_solver.
  - rewrite Eg, dom_insert_L, dom_alter_L, Hdd, fmap_app, !fmap_cons. set_solver.
Qed.

Lemma list_at_calls lk h l cells k : list_at lk h l cells →
  list_at lk (mk_gheap (nodes h) (gaps h) (lists h) k) l cells.
Proof.
  intros [? Hs ? ? ? ? ?]. constructor; try done.
  by apply (dseg_frame h).
Qed.

(** The header of a list that is there. *)
Lemma header_at lk h l cells : list_at lk h l cells →
  lists h !! l = Some (mk_list (first cells None) (final None cells) (Z.of_nat (length cells))).
Proof. intros L. rewrite (la_header _ _ _ _ L). apply lookup_singleton_eq. Qed.

(** The neighbours of a cell are blocks of the heap. *)
Lemma neighbour_some lk h l cells c : list_at lk h l cells → c ∈ cells → is_Some (nodes h !! cn c).
Proof. intros L Hc. apply elem_of_dom. rewrite (la_dom _ _ _ _ L). set_solver. Qed.

Lemma drop_node_spec lk h l a x b :
  list_at lk h l (a ++ x :: b) →
  ∃ h', drop_node l (Some (cn x)) h = Ret tt h' ∧ list_at lk h' l (a ++ b).
Proof.
  intros L. pose proof (header_at _ _ _ _ L) as Hl.
  destruct (dseg_cell h _ a x b (la_seg _ _ _ _ L) eq_refl) as [Hx Hgx].
  destruct (NoDup_cell cn a x b (la_nodes _ _ _ _ L)) as (_ & _ & Hxa & Hxb & Hab).
  unfold drop_node. op put_list_Ret. op get_node_Ret. cbn [next prev gap_data].
  destruct b as [|c b]; [destruct a as [|c a _] using rev_ind|destruct a as [|c1 a _] using rev_ind];
    rewrite ?final_snoc; cbn [first final is_null andb app].
  - erewrite bind_Ret; cycle 1.
    { op put_list_Ret. op put_list_Ret. apply put_list_Ret. heap_some. }
    op free_gap_Ret. erewrite free_node_Ret; [|heap_some]. eexists. split; [reflexivity|].
    apply (drop_at lk h _ l [] x [] L); [|done..]. cbn [set_nodes set_gaps set_lists lists].
    by rewrite (la_header _ _ _ _ L), !alter_singleton_list.
  - assert (is_Some (nodes h !! cn c)) as [nc Hc] by (eapply neighbour_some; [done|set_solver]).
    assert (cn c ≠ cn x) by set_solver.
    erewrite bind_Ret; cycle 1.
    { op put_list_Ret. apply put_node_Ret. heap_some. }
    op free_gap_Ret. erewrite free_node_Ret; [|heap_some]. eexists. split; [reflexivity|].
    apply (drop_at lk h _ l (a ++ [c]) x [] L); [|by rewrite final_snoc|done].
    cbn [relink set_nodes set_gaps set_lists lists].
    rewrite (la_header _ _ _ _ L), !alter_singleton_list, app_nil_r, final_snoc, !first_app, !length_app.
    do 2 f_equal. unfold set_tail, set_size. simpl. rewrite ?final_snoc. f_equal. lia.
  - assert (is_Some (nodes h !! cn c)) as [nc Hc] by (eapply neighbour_some; [done|set_solver]).
    assert (cn c ≠ cn x) by set_solver.
    erewrite bind_Ret; cycle 1.
    { op put_list_Ret. apply put_node_Ret. heap_some. }
    op free_gap_Ret. erewrite free_node_Ret; [|heap_some]. eexists. split; [reflexivity|].
    apply (drop_at lk h _ l [] x (c :: b) L); [|done..].
    cbn [relink set_nodes set_gaps set_lists lists].
    rewrite (la_header _ _ _ _ L), !alter_singleton_list.
    do 2 f_equal. unfold set_head, set_size. simpl. rewrite ?final_snoc. f_equal. lia.
  - assert (is_Some (nodes h !! cn c)) as [nc Hc] by (eapply neighbour_some; [done|set_solver]).
    assert (is_Some (nodes h !! cn c1)) as [nc1 Hc1] by (eapply neighbour_some; [done|set_solver]).
    assert (cn c ≠ cn c1) by (intros E; apply (Hab (cn c)); set_solver).
    assert (cn c ≠ cn x) by set_solver. assert (cn c1 ≠ cn x) by set_solver.
    erewrite bind_Ret; cycle 1.
    { op put_node_Ret. apply put_node_Ret. heap_some. }
    op free_gap_Ret. erewrite free_node_Ret; [|heap_some]. eexists. split; [reflexivity|].
    apply (drop_at lk h _ l (a ++ [c1]) x (c :: b) L); [|by rewrite final_snoc|done].
    cbn [relink set_nodes set_gaps set_lists lists].
    rewrite (la_header _ _ _ _ L), !alter_singleton_list, !first_app, !final_app, !length_app.
    do 2 f_equal. unfold set_size. simpl. rewrite ?final_snoc. f_equal. lia.
Qed.

Lemma split_node_spec ok jn jg lk h l a x b p :
  list_at lk h l (a ++ x :: b) →
  ∃ r h' lk' cells', split_node ok jn jg l (Some (cn x)) p h = Ret r h' ∧ list_at lk' h' l cells' ∧
    if ok (calls h) && ok (S (calls h))
    then r = true ∧ lk' = lk ∧
      cg <$> cells' = (cg <$> a) ++ mk_gap (start (cg x)) p :: mk_gap (p + 1) (end_ (cg x)) :: (cg <$> b)
    else r = false ∧ cells' = a ++ x :: b ∧
      lk' = (if ok (calls h) then {[fresh (dom (nodes h))]} ∪ lk else lk).
Proof.
  intros L. pose proof (header_at _ _ _ _ L) as Hl.
  destruct (dseg_cell h _ a x b (la_seg _ _ _ _ L) eq_refl) as [Hx Hgx].
  destruct (NoDup_cell cn a x b (la_nodes _ _ _ _ L)) as (_ & _ & Hxa & Hxb & Hab).
  unfold split_node. destruct (ok (calls h)) eqn:E1; cbn [andb]; cycle 1.
  { run (malloc_node_None _ jn _ E1). exists false, (next_call h), lk, (a ++ x :: b).
    split_and!; [done| |done..]. by apply list_at_calls. }
  run (malloc_node_Ret _ jn _ E1). cbn [is_null].
  assert (fresh (dom (nodes h)) ∉ dom (nodes h)) as Hn by apply is_fresh.
  assert (fresh (dom (gaps h)) ∉ dom (gaps h)) as Hd by apply is_fresh.
  set (n := fresh (dom (nodes h))) in *. set (d := fresh (dom (gaps h))) in *.
  unfold with_node. fold n.
  destruct (ok (S (calls h))) eqn:E2; cycle 1.
  { run (malloc_gap_None ok jg (next_call (set_nodes (<[n:=jn]> (nodes h)) h)) E2).
    op put_node_Ret. cbn [is_null]. eexists false, _, ({[n]} ∪ lk), (a ++ x :: b).
    split_and!; [reflexivity| |done..]. destruct L as [? Hs ? ? Hdn Hlk ?].
    assert (n ∉ cn <$> a ++ x :: b) by (intros Hk; apply Hn; rewrite Hdn; set_solver).
    constructor; [done| |done|done| |set_solver|done].
    - apply (dseg_frame h); [|done|done]. intros k Hk. assert (k ≠ n) by congruence. by heap.
    - heap. rewrite alter_insert_eq, dom_insert_L, Hdn. set_solver. }
  run (malloc_gap_Ret ok jg (next_call (set_nodes (<[n:=jn]> (nodes h)) h)) E2).
  unfold with_gap. cbn [is_null next_call set_nodes gaps]. fold d.
  assert (cn x ≠ n) by (intros E; apply Hn; rewrite <-E; by eapply elem_of_dom_2).
  assert (cd x ≠ d) by (intros E; apply Hd; rewrite <-E; by eapply elem_of_dom_2).
  op put_node_Ret. op get_node_Ret. cbn [gap_data]. op get_gap_Ret. do 2 op put_gap_Ret. op put_node_Ret.
  cbn [next].
  set (y := mk_cell n d (mk_gap (p + 1) (end_ (cg x)))).
  assert (∀ m : gmap loc gap, alter (set_end p) (cd x) (alter (set_end (end_ (cg x))) d
    (alter (set_start (p + 1)) d (<[d:=jg]> m))) =
    <[d:=mk_gap (p + 1) (end_ (cg x))]> (alter (set_end p) (cd x) m)) as Hgaps.
  { intros m. by rewrite !alter_insert_eq, (alter_insert_ne _ _ d) by done. }
  destruct b as [|c b]; cbn [first is_null].
  - op put_list_Ret. op get_node_Ret. op put_node_Ret. cbn [gap_data]. op put_gap_Ret. op put_node_Ret.
    op put_list_Ret. eexists true, _, lk, _. split_and!; [reflexivity| |done|done|].
    + apply (split_at lk h _ l a x [] y (set_end p) L Hn Hd).
      * cbn [relink set_nodes set_gaps set_lists next_call lists].
        by rewrite (la_header _ _ _ _ L), !alter_singleton_list.
      * heap. by rewrite !alter_insert_eq, (alter_insert_ne _ _ n) by done.
      * heap. apply Hgaps.
    + by rewrite fmap_app.
  - assert (is_Some (nodes h !! cn c)) as [nc Hc] by (eapply neighbour_some; [done|set_solver]).
    assert (cn c ≠ n) by (intros E; apply Hn; rewrite <-E; by eapply elem_of_dom_2).
    assert (cn c ≠ cn x) by set_solver.
    op put_node_Ret. op get_node_Ret. op put_node_Ret. cbn [gap_data]. op put_gap_Ret. op put_node_Ret.
    op put_list_Ret. eexists true, _, lk, _. split_and!; [reflexivity| |done|done|].
    + apply (split_at lk h _ l a x (c :: b) y (set_end p) L Hn Hd).
      * cbn [relink set_nodes set_gaps set_lists next_call lists].
        rewrite (la_header _ _ _ _ L), !alter_singleton_list.
        unfold set_size. by rewrite !final_app.
      * heap. rewrite !alter_insert_eq, !(alter_insert_ne _ _ n) by done.
        by rewrite !alter_insert_eq, (alter_insert_ne _ _ n) by done.
      * heap. apply Hgaps.
    + by rewrite fmap_app.
Qed.

(** [split_gap] is [gsplit] on the intervals; only a failed [malloc] of the
    gap of a new node leaks that node. *)
Lemma split_loop_spec ok jn jg p l a b :
  ∀ fuel lk h, list_at lk h l (a ++ b) → (length b < fuel)%nat →
  ∃ h' lk' cells',
    split_loop ok jn jg fuel l (first b None) p h =
      Ret (gsplit (ok (calls h) && ok (S (calls h))) (cg <$> b) p).1 h' ∧
    list_at lk' h' l cells' ∧
    cg <$> cells' = (cg <$> a) ++ (gsplit (ok (calls h) && ok (S (calls h))) (cg <$> b) p).2 ∧
    (lk' = lk ∨ ok (S (calls h)) = false ∧ ∃ n, lk' = {[n]} ∪ lk).
Proof.
  revert a. induction b as [|x b IH]; intros a [|fuel] lk h L Hf; simpl in Hf; try lia.
  { exists h, lk, a. rewrite app_nil_r in L. split_and!; [done|done| |by left]. by rewrite app_nil_r. }
  destruct (dseg_cell h _ a x b (la_seg _ _ _ _ L) eq_refl) as [Hx Hgx].
  cbn [split_loop first is_null]. op get_node_Ret. cbn [gap_data next]. op get_gap_Ret.
  rewrite fmap_cons. cbn [gsplit].
  destruct (Z.ltb_spec p (start (cg x))).
  { exists h, lk, (a ++ x :: b). split_and!; [done|done|by rewrite fmap_app|by left]. }
  destruct (p >=? end_ (cg x)).
  { destruct (IH (a ++ [x]) fuel lk h) as (h' & lk' & cells' & E & L' & Hc & Hk);
      [by rewrite <-app_assoc|lia|].
    exists h', lk', cells'. split_and!; [exact E|done| |done]. by rewrite Hc, fmap_app, <-app_assoc. }
  destruct (negb (p =? start (cg x)) && negb (p =? end_ (cg x) - 1)).
  { destruct (split_node_spec ok jn jg lk h l a x b p L) as (r & h' & lk' & cells' & E & L' & Hr).
    exists h', lk', cells'. destruct (ok (calls h)), (ok (S (calls h))); cbn [andb] in *.
    - destruct Hr as (-> & -> & Hr). split_and!; [done|done|done|by left].
    - destruct Hr as (-> & -> & ->). split_and!; [done|done|by rewrite fmap_app|right; eauto].
    - destruct Hr as (-> & -> & ->). split_and!; [done|done|by rewrite fmap_app|by left].
    - destruct Hr as (-> & -> & ->). split_and!; [done|done|by rewrite fmap_app|by left]. }
  set (f := if p =? start (cg x) then set_start (start (cg x) + 1) else set_end (end_ (cg x) - 1)).
  assert ((if p =? start (cg x) then mk_gap (start (cg x) + 1) (end_ (cg x))
    else mk_gap (start (cg x)) (end_ (cg x) - 1)) = f (cg x)) as -> by (unfold f; by destruct (p =? _)).
  erewrite bind_Ret; cycle 1.
  { transitivity (put_gap (Some (cd x)) f h); [unfold f; by destruct (p =? _)|].
    apply put_gap_Ret. by eexists. }
  op get_gap_Ret. pose proof (regap_at lk h l a x b f L) as L1. cbn [fst snd].
  destruct (start (f (cg x)) >=? end_ (f (cg x))).
  - destruct (drop_node_spec _ _ _ _ _ _ L1) as (h' & E & L'). cbn [cn] in E. run E.
    exists h', lk, (a ++ b). split_and!; [done|done|by rewrite fmap_app|by left].
  - eexists _, lk, _. split_and!; [reflexivity|exact L1|by rewrite fmap_app|by left].
Qed.

Lemma split_gap_spec ok jn jg lk h l cells p :
  list_at lk h l cells →
  ∃ h' lk' cells',
    split_gap ok jn jg l p h = Ret (gsplit (ok (calls h) && ok (S (calls h))) (cg <$> cells) p).1 h' ∧
    list_at lk' h' l cells' ∧
    cg <$> cells' = (gsplit (ok (calls h) && ok (S (calls h))) (cg <$> cells) p).2 ∧
    (lk' = lk ∨ ok (S (calls h)) = false ∧ ∃ n, lk' = {[n]} ∪ lk).
Proof.
  intros L. unfold split_gap. run (get_list_Ret _ _ _ (header_at _ _ _ _ L)).
  run (eq_refl (get h)). cbn [head].
  apply (split_loop_spec ok jn jg p l []); [done|by eapply list_size_fuel].
Qed.

Definition with_list (h : gheap) : gheap :=
  next_call (set_lists (<[fresh (dom (lists h)) := mk_list None None 0]> (lists h)) h).
Lemma malloc_list_Ret ok h : ok (calls h) = true →
  malloc_list ok h = Ret (Some (fresh (dom (lists h)))) (with_list h).
Proof. intros E. unfold malloc_list. by rewrite E. Qed.
Lemma malloc_list_None ok h : ok (calls h) = false → malloc_list ok h = Ret None (next_call h).
Proof. intros E. unfold malloc_list. by rewrite E. Qed.

Lemma new_list_spec (ok : nat → bool) h :
  lists h = ∅ →
  if ok (calls h)
  then ∃ l h', new_list ok h = Ret l h' ∧ nodes h' = nodes h ∧ gaps h' = gaps h ∧ lists h' = {[l := mk_list None None 0]}
  else ∃ h', new_list ok h = Exited 1 h'.
Proof.
  intros Hl. unfold new_list. destruct (ok (calls h)) eqn:E.
  - run (malloc_list_Ret _ _ E). unfold with_list. do 3 op put_list_Ret. eexists _, _. split_and!; [reflexivity|done|done|].
    heap. by rewrite Hl, insert_empty, !alter_singleton_list.
  - run (malloc_list_None _ _ E). by eexists.
Qed.

Lemma new_list_at h l lk :
  lists h = {[l := mk_list None None 0]} → gaps h = ∅ → dom (nodes h) = lk → list_at lk h l [].
Proof.
  intros Hl Hg Hn. constructor; [done|done|constructor|constructor|set_solver|set_solver|].
  by rewrite Hg, dom_empty_L.
Qed.

Lemma walk_spec n h p cells :
  dseg h p cells None → walk n (first cells None) h = Ret (take n (cg <$> cells)) h.
Proof.
  revert p cells. induction n as [|n IH]; intros p [|c cells] Hs; [done..|].
  destruct Hs as (Hn & Hg & Hs). cbn [walk first is_null]. op get_node_Ret. cbn [gap_data next].
  op get_gap_Ret. by run (IH _ _ Hs).
Qed.

Lemma walk_back_spec n h cells q :
  dseg h None cells q → walk_back n (final None cells) h = Ret (take n (reverse (cg <$> cells))) h.
Proof.
  revert q cells. induction n as [|n IH]; intros q cells Hs; [done|].
  destruct cells as [|c cells _] using rev_ind; [done|].
  apply dseg_app in Hs as [Hs (Hn & Hg & _)]. rewrite final_snoc. cbn [walk_back is_null].
  op get_node_Ret. cbn [gap_data prev]. op get_gap_Ret. run (IH _ _ Hs).
  by rewrite fmap_app, reverse_app.
Qed.

Lemma print_list_spec lk h l cells : list_at lk h l cells →
  print_list l h = Ret (cg <$> cells) h ∧ print_list_reverse l h = Ret (reverse (cg <$> cells)) h.
Proof.
  intros L. pose proof (list_size_fuel _ _ _ _ L).
  split; [unfold print_list|unfold print_list_reverse];
    run (get_list_Ret _ _ _ (header_at _ _ _ _ L)); run (eq_refl (get h)); cbn [head tail].
  - rewrite (walk_spec _ _ _ _ (la_seg _ _ _ _ L)), take_ge; [done|]. rewrite length_fmap. lia.
  - rewrite (walk_back_spec _ _ _ _ (la_seg _ _ _ _ L)), take_ge; [done|]. rewrite length_reverse, length_fmap. lia.
Qed.

(** ** The set of missing numbers *)

(** The calls a client makes, and what they do to a set of numbers. *)
Inductive gop := GInsert (g : gap) | GSplit (p : Z).
Definition interval (g : gap) : gset Z := list_to_set (seqZ (start g) (end_ g - start g)).
Definition spec_gop (o : gop) (s : gset Z) : bool * gset Z :=
  match o with
  | GInsert g => (true, s ∪ interval g)
  | GSplit p => (bool_decide (p ∈ s), s ∖ {[p]})
  end.
Fixpoint spec_gops (ops : list gop) (s : gset Z) : list bool * gset Z :=
  match ops with
  | [] => ([], s)
  | o :: ops' => let r := spec_gops ops' (spec_gop o s).2 in ((spec_gop o s).1 :: r.1, r.2)
  end.
(** A gap is not empty and is added above the others. *)
Fixpoint legal_gops (ops : list gop) (s : gset Z) : Prop :=
  match ops with
  | [] => True
  | o :: ops' =>
      match o with GInsert g => start g < end_ g ∧ ∀ i, i ∈ s → i < start g | GSplit _ => True end ∧
      legal_gops ops' (spec_gop o s).2
  end.

Section client.
Context (ok : nat → bool) (jn : node) (jg : gap).
Definition run_gop (l : loc) (o : gop) : prog gheap bool :=
  match o with GInsert g => insert ok jn jg (Some l) g | GSplit p => split_gap ok jn jg l p end.
Fixpoint run_gops (l : loc) (ops : list gop) : prog gheap (list bool) :=
  match ops with
  | [] => mret []
  | o :: ops' => b ← run_gop l o; bs ← run_gops l ops'; mret (b :: bs)
  end.
(** A list is made, used and printed both ways. *)
Definition gap_client (ops : list gop) : prog gheap (loc * list bool * list gap * list gap) :=
  l ← new_list ok; bs ← run_gops l ops; gs ← print_list l; rs ← print_list_reverse l;
  mret (l, bs, gs, rs).
End client.

Definition holds_set (gs : list gap) (s : gset Z) : Prop :=
  (∃ lo, ordered lo gs) ∧ ∀ i, missing gs i ↔ i ∈ s.

Lemma elem_of_interval g i : i ∈ interval g ↔ in_gap i g.
Proof. unfold interval, in_gap. rewrite elem_of_list_to_set, elem_of_seqZ. lia. Qed.

Lemma holds_set_insert gs s g :
  holds_set gs s → start g < end_ g → (∀ i, i ∈ s → i < start g) → holds_set (gs ++ [g]) (s ∪ interval g).
Proof.
  intros [[lo Ho] Hs] Hne Hlt. split.
  - exists (lo `min` start g). apply ordered_snoc; [by eapply ordered_lo; [|done]; lia|done|lia|].
    intros i Hi. by apply Hlt, Hs.
  - intros i. rewrite missing_app, missing_singleton, Hs, elem_of_union, elem_of_interval. done.
Qed.

Lemma holds_set_split gs s p :
  holds_set gs s → (gsplit true gs p).1 = bool_decide (p ∈ s) ∧ holds_set (gsplit true gs p).2 (s ∖ {[p]}).
Proof.
  intros [[lo Ho] Hs]. destruct (gsplit_spec true gs p lo Ho) as [Ho' [(-> & Hp & Hi)|(-> & Hgs & Hp)]].
  - rewrite bool_decide_true by by apply Hs. split; [done|]. split; [by exists lo|].
    intros i. rewrite Hi, Hs. set_solver.
  - assert (p ∉ s) by (rewrite <-Hs; intros Hm; by specialize (Hp Hm)).
    rewrite bool_decide_false by done. split; [done|]. rewrite Hgs. split; [by exists lo|].
    intros i. rewrite Hs. set_solver.
Qed.

Lemma run_gops_spec ok jn jg l ops : (∀ n, ok n = true) → ∀ h cells s,
  list_at ∅ h l cells → holds_set (cg <$> cells) s → legal_gops ops s →
  ∃ h' cells', run_gops ok jn jg l ops h = Ret (spec_gops ops s).1 h' ∧ list_at ∅ h' l cells' ∧
    holds_set (cg <$> cells') (spec_gops ops s).2.
Proof.
  intros Hok. induction ops as [|[g|p] ops IH]; intros h cells s L Hs Hlegal; [by exists h, cells|..];
    destruct Hlegal as [Ho Hlegal]; cbn [run_gops run_gop spec_gops spec_gop fst snd] in *.
  - pose proof (insert_spec ok jn jg ∅ h l cells g L) as Hins. rewrite !Hok in Hins.
    destruct Hins as (h1 & c & E & <- & L1). run E.
    destruct (IH h1 (cells ++ [c]) (s ∪ interval (cg c))) as (h' & cells' & E' & L' & Hs'); [done| |done|].
    { rewrite fmap_app. destruct Ho. by apply holds_set_insert. }
    run E'. by exists h', cells'.
  - destruct (split_gap_spec ok jn jg ∅ h l cells p L) as (h1 & lk & cells1 & E & L1 & Hc & Hlk).
    rewrite !Hok in *. destruct Hlk as [->|[? _]]; [|done]. cbn [andb] in *.
    destruct (holds_set_split _ _ p Hs) as [Hb Hs1]. rewrite Hb in E. rewrite <-Hc in Hs1. run E.
    destruct (IH h1 cells1 (s ∖ {[p]})) as (h' & cells' & E' & L' & Hs'); [done..|].
    run E'. by exists h', cells'.
Qed.

(** ** Theorems *)

(** C35: A list that is made, used by any sequence of [insert] and [split_gap]
    calls (a gap that is inserted is non-empty and lies above the others) and
    freed behaves like the set of the missing numbers: [split_gap] says whether
    the number was missing and takes it out, the intervals are disjoint, in
    increasing order and cover exactly the set, read backwards they are the same
    ones, nothing undefined happens, and [free_list] gives every block back. *)
Theorem gap_list_refines ok jn jg ops h :
  (∀ n, ok n = true) → nodes h = ∅ → gaps h = ∅ → lists h = ∅ → legal_gops ops ∅ →
  ∃ l gs h1 h2,
    gap_client ok jn jg ops h = Ret (l, (spec_gops ops ∅).1, gs, reverse gs) h1 ∧
    holds_set gs (spec_gops ops ∅).2 ∧
    free_list (Some l) h1 = Ret tt h2 ∧ nodes h2 = ∅ ∧ gaps h2 = ∅ ∧ lists h2 = ∅.
Proof.
  intros Hok Hn Hg Hl Hlegal. pose proof (new_list_spec ok h Hl) as Hnew. rewrite Hok in Hnew.
  destruct Hnew as (l & h0 & E0 & En & Eg & El).
  assert (list_at ∅ h0 l []) as L0 by (apply new_list_at; [done|by rewrite Eg|by rewrite En, Hn, dom_empty_L]).
  destruct (run_gops_spec ok jn jg l ops Hok h0 [] ∅ L0) as (h1 & cells & E1 & L1 & Hs); [|done|].
  { split; [by exists 0|]. intros i. pose proof (missing_nil i). set_solver. }
  destruct (print_list_spec _ _ _ _ L1) as [Ep Er].
  destruct (free_list_spec _ _ _ _ L1) as (h2 & E2 & El2 & En2 & Eg2).
  exists l, (cg <$> cells), h1, h2. split; [|split; [done|split_and!; [done|by apply dom_empty_inv_L|done..]]].
  unfold gap_client. run E0. run E1. run Ep. by run Er.
Qed.

Lemma gap_list_refines_witness :
  let ops := [GInsert (mk_gap 0 1); GInsert (mk_gap 2 7); GSplit 4; GSplit 4; GSplit 0; GSplit 6] in
  (spec_gops ops ∅).1 = [true; true; true; false; true; true] ∧
  ∃ l gs h1 h2,
    gap_client (λ _, true) (mk_node None None None) (mk_gap 0 0) ops (mk_gheap ∅ ∅ ∅ 0) =
      Ret (l, (spec_gops ops ∅).1, gs, reverse gs) h1 ∧
    holds_set gs (spec_gops ops ∅).2 ∧
    free_list (Some l) h1 = Ret tt h2 ∧ nodes h2 = ∅ ∧ gaps h2 = ∅ ∧ lists h2 = ∅.
Proof.
  split; [vm_compute; reflexivity|]. apply gap_list_refines; [done..|].
  simpl. split_and!; try done; try lia; set_solver by lia.
Defined.

(** The loop walks over the intervals below [p]. *)
Lemma split_loop_cut ok jn jg p l a x b h fuel pre :
  dseg h None (pre ++ a ++ x :: b) None → (length a < fuel)%nat →
  Forall (λ c, start (cg c) ≤ p ∧ end_ (cg c) ≤ p) a → start (cg x) < p < end_ (cg x) - 1 →
  split_loop ok jn jg fuel l (first (a ++ x :: b) None) p h = split_node ok jn jg l (Some (cn x)) p h.
Proof.
  revert pre fuel. induction a as [|c a IH]; intros pre [|fuel] Hs Hf Ha Hx; simpl in Hf; try lia.
  - destruct (dseg_cell h _ pre x b Hs eq_refl) as [Hn Hg]. cbn [app first split_loop is_null].
    op get_node_Ret. cbn [gap_data]. op get_gap_Ret.
    destruct (Z.ltb_spec p (start (cg x))); [lia|]. rewrite Z.geb_leb.
    destruct (Z.leb_spec (end_ (cg x)) p); [lia|].
    by rewrite (proj2 (Z.eqb_neq p _)), (proj2 (Z.eqb_neq p (end_ _ - 1))) by lia.
  - apply Forall_cons in Ha as [Hc Ha].
    destruct (dseg_cell h _ pre c (a ++ x :: b) Hs eq_refl) as [Hn Hg]. cbn [app first split_loop is_null].
    op get_node_Ret. cbn [gap_data next]. op get_gap_Ret.
    destruct (Z.ltb_spec p (start (cg c))); [lia|]. rewrite Z.geb_leb.
    destruct (Z.leb_spec (end_ (cg c)) p); [|lia].
    apply (IH (pre ++ [c])); [by rewrite <-app_assoc|lia|done|done].
Qed.

Lemma ordered_below lo a x b :
  ordered lo (a ++ x :: b) → Forall (λ g, start g ≤ start x ∧ end_ g ≤ start x) a ∧ lo ≤ start x.
Proof.
  revert lo. induction a as [|g a IH]; intros lo; simpl; [by intros (? & _)|].
  intros (? & ? & Ho). destruct (IH _ Ho). split; [|lia]. apply Forall_cons. split; [lia|done].
Qed.

(** When memory runs out while a gap is cut in two, [split_gap] answers
    [false] for a number that is missing and leaves every interval as it was;
    when it is the second allocation that fails, the node of the first one is
    leaked: after [free_list] it is still allocated. *)
Theorem split_gap_no_memory ok jn jg l cells p h :
  list_at ∅ h l cells → ok (calls h) = true → ok (S (calls h)) = false →
  (∃ c, c ∈ cells ∧ start (cg c) < p < end_ (cg c) - 1) → (∃ lo, ordered lo (cg <$> cells)) →
  ∃ h1 h2 n,
    split_gap ok jn jg l p h = Ret false h1 ∧ print_list l h1 = Ret (cg <$> cells) h1 ∧
    free_list (Some l) h1 = Ret tt h2 ∧ dom (nodes h2) = {[n]}.
Proof.
  intros L E1 E2 (x & (a & b & ->)%list_elem_of_split & Hx) [lo Ho].
  rewrite fmap_app, fmap_cons in Ho. apply ordered_below in Ho as [Ha _]. apply Forall_fmap in Ha.
  destruct (split_node_spec ok jn jg ∅ h l a x b p L) as (r & h1 & lk & cells & E & L1 & Hr).
  rewrite E1, E2 in Hr. destruct Hr as (-> & -> & ->).
  destruct (print_list_spec _ _ _ _ L1) as [Ep _].
  destruct (free_list_spec _ _ _ _ L1) as (h2 & Ef & _ & En & _).
  exists h1, h2, (fresh (dom (nodes h))). split_and!; [|done|done|rewrite En; set_solver].
  unfold split_gap. run (get_list_Ret _ _ _ (header_at _ _ _ _ L)). run (eq_refl (get h)). cbn [head].
  rewrite <-E. apply (split_loop_cut ok jn jg p l a x b h _ []); [apply L| | |done].
  - pose proof (list_size_fuel _ _ _ _ L). rewrite length_app in *. simpl in *. lia.
  - eapply Forall_impl; [exact Ha|]. intros c. simpl. lia.
Qed.

(** One gap [0, 9) on the heap; the fifth allocation fails. *)
Definition demo_cell : cell := mk_cell 1%positive 1%positive (mk_gap 0 9).
Definition demo_heap : gheap :=
  mk_gheap {[1%positive := mk_node (Some 1%positive) None None]} {[1%positive := mk_gap 0 9]}
    {[1%positive := mk_list (Some 1%positive) (Some 1%positive) 1]} 3.
Definition demo_ok (n : nat) : bool := negb (Nat.eqb n 4).

Lemma split_gap_no_memory_witness :
  ∃ h1 h2 n,
    split_gap demo_ok (mk_node None None None) (mk_gap 0 0) 1%positive 4 demo_heap = Ret false h1 ∧
    print_list 1%positive h1 = Ret [mk_gap 0 9] h1 ∧
    free_list (Some 1%positive) h1 = Ret tt h2 ∧ dom (nodes h2) = {[n]}.
Proof.
  apply (split_gap_no_memory demo_ok (mk_node None None None) (mk_gap 0 0) 1%positive [demo_cell] 4 demo_heap);
    [|reflexivity|reflexivity|exists demo_cell; split; [set_solver|simpl; lia]|exists 0; simpl; lia].
  constructor; [reflexivity|by vm_compute|apply NoDup_singleton|apply NoDup_singleton|..];
    cbn [fmap list_fmap demo_heap demo_cell nodes gaps cn cd]; set_solver.
Defined.
