(* ===== verification/Upkt.v ===== *)
(** * Datagrams of the file transfer

    CS2520/project1/net_include.h and gap_list.h: [struct upkt] and
    [struct rcv_msg] as the compiler lays them out (x86-64: [int64_t] is
    aligned to 8, so [struct upkt] has 4 bytes of padding after the flags and 4
    at the end).  A [bool] that holds another byte than 0 or 1 is undefined. *)
From S2P Require Import Prelude Stdio Bytes GapList.
Open Scope Z_scope.

Definition MAX_MESS_LEN : Z := 1400.
Definition MAX_FILENAME : Z := 255.

(** [struct upkt] *)
Record upkt := mk_upkt {
  is_rcv_msg : bool;
  init : bool;
  fin : bool;
  sleep : bool;
  ts_sec : Z;
  ts_usec : Z;
  seq : Z;
  payload_len : Z;
  payload : list Z
}.

(** The layout: flags at 0, [ts_sec] at 8, [ts_usec] at 16, [seq] at 20,
    [payload_len] at 24, [payload] at 28. *)
Definition sizeof_upkt : Z := 1432.
Definition byte_of_bool (b : bool) : Z := if b then 1 else 0.
Definition upkt_hdr_bytes (p : upkt) : list Z :=
  (byte_of_bool <$> [is_rcv_msg p; init p; fin p; sleep p]) ++ [0; 0; 0; 0] ++
  le64 (ts_sec p) ++ le32 (ts_usec p) ++ le32 (seq p) ++ le32 (payload_len p).
Definition upkt_bytes (p : upkt) : list Z := upkt_hdr_bytes p ++ payload p ++ [0; 0; 0; 0].

Definition get_bool (buf : list Z) (off : Z) : option bool :=
  b ← aget buf off; if b =? 0 then Some false else if b =? 1 then Some true else None.
Definition read_upkt (buf : list Z) : option upkt :=
  r ← get_bool buf 0; i ← get_bool buf 1; f ← get_bool buf 2; s ← get_bool buf 3;
  sec ← i64 <$> get_u64 buf 8; usec ← i32 <$> get_u32 buf 16; q ← i32 <$> get_u32 buf 20;
  len ← get_u32 buf 24; pl ← slice buf 28 1400;
  Some (mk_upkt r i f s sec usec q len pl).

(** [recvfrom(sock, &pkt, sizeof(pkt), ...)] into a variable that held [old]. *)
Definition recv_into (size : Z) (old dgram : list Z) : list Z :=
  let d := take (Z.to_nat size) dgram in d ++ drop (length d) old.

(** [struct rcv_msg]: the flag at 0, [aru] at 4, [num_gaps] at 8, the gaps from 12 on. *)
Record rcv_msg := mk_rcv_msg { aru : Z; num_gaps : Z; msg_gaps : list gap }.
Definition sizeof_rcv_msg : Z := 812.
Definition gap_bytes (g : gap) : list Z := le32 (start g) ++ le32 (end_ g).
(** [pad] is what the stack held in the three bytes after the flag. *)
Definition rcv_msg_bytes (pad : list Z) (m : rcv_msg) : list Z :=
  1 :: pad ++ le32 (aru m) ++ le32 (num_gaps m) ++ concat (gap_bytes <$> msg_gaps m).

Definition get_gap_at (buf : list Z) (i : Z) : option gap :=
  s ← i32 <$> get_u32 buf (12 + 8 * i); e ← i32 <$> get_u32 buf (16 + 8 * i); Some (mk_gap s e).
Definition get_aru (buf : list Z) : option Z := i32 <$> get_u32 buf 4.
Definition get_num_gaps (buf : list Z) : option Z := i32 <$> get_u32 buf 8.

(** [fputs], [strcpy] and the like: the string that starts a buffer, when a
    null byte ends it. *)
Definition c_string (buf : list Z) : option (list Z) :=
  if decide (0 ∈ buf) then Some (c_str buf) else None.

(** [create_pkt] of rcv.c, at time [sec], [usec]. *)
Definition create_pkt (sec usec : Z) : upkt :=
  mk_upkt false false false false sec usec 0 0 (replicate 1400 0).
Definition set_init (p : upkt) : upkt :=
  mk_upkt (is_rcv_msg p) true (fin p) (sleep p) (ts_sec p) (ts_usec p) (seq p) (payload_len p) (payload p).
Definition set_fin (p : upkt) : upkt :=
  mk_upkt (is_rcv_msg p) (init p) true (sleep p) (ts_sec p) (ts_usec p) (seq p) (payload_len p) (payload p).
Definition set_sleep (p : upkt) : upkt :=
  mk_upkt (is_rcv_msg p) (init p) (fin p) true (ts_sec p) (ts_usec p) (seq p) (payload_len p) (payload p).

(** ** Lemmas *)

Definition is_i32 (z : Z) : Prop := -2147483648 ≤ z < 2147483648.
Definition upkt_ok (p : upkt) : Prop :=
  -9223372036854775808 ≤ ts_sec p < 9223372036854775808 ∧ is_i32 (ts_usec p) ∧ is_i32 (seq p) ∧
  is_u32 (payload_len p) ∧ length (payload p) = 1400%nat.

Definition with_upkt_payload (p : upkt) (pl : list Z) : upkt :=
  mk_upkt (is_rcv_msg p) (init p) (fin p) (sleep p) (ts_sec p) (ts_usec p) (seq p) (payload_len p) pl.

Lemma get_bool_holds buf off b : holds buf off [byte_of_bool b] → get_bool buf off = Some b.
Proof.
  intros H. specialize (H 0%nat ltac:(simpl; lia)). rewrite Z.add_0_r in H. unfold get_bool. rewrite H.
  by destruct b.
Qed.

Lemma length_upkt_hdr p : length (upkt_hdr_bytes p) = 28%nat.
Proof. done. Qed.

(** The header and a payload of 1400 bytes determine what is read. *)
Lemma read_upkt_holds p buf :
  upkt_ok p → (1428 ≤ length buf)%nat → holds buf 0 (upkt_hdr_bytes p ++ payload p) → read_upkt buf = Some p.
Proof.
  intros (H1 & H2 & H3 & H4 & H5) Hlen [Hh Hp]%holds_app. rewrite length_upkt_hdr in Hp.
  assert (upkt_hdr_bytes p = [byte_of_bool (is_rcv_msg p)] ++ [byte_of_bool (init p)] ++
    [byte_of_bool (fin p)] ++ [byte_of_bool (sleep p)] ++ [0; 0; 0; 0] ++ le64 (ts_sec p) ++
    le32 (ts_usec p) ++ le32 (seq p) ++ le32 (payload_len p)) as E by done.
  rewrite E in Hh.
  apply holds_app in Hh as [Ha Hh]. apply holds_app in Hh as [Hb Hh]. apply holds_app in Hh as [Hc Hh].
  apply holds_app in Hh as [Hd Hh]. apply holds_app in Hh as [_ Hh]. apply holds_app in Hh as [He Hh].
  apply holds_app in Hh as [Hf Hh]. apply holds_app in Hh as [Hg Hi].
  unfold read_upkt.
  rewrite (get_bool_holds _ 0 _ Ha), (get_bool_holds _ 1 _ Hb), (get_bool_holds _ 2 _ Hc),
    (get_bool_holds _ 3 _ Hd), (get_i64_le64 _ 8 _ He H1), (get_i32_le32 _ 16 _ Hf H2),
    (get_i32_le32 _ 20 _ Hg H3), (get_u32_holds _ 24 _ H4 Hi), (slice_holds _ 28 1400 (payload p) H5 Hlen Hp).
  by destruct p.
Qed.

(** What a variable that held [old] holds after the first [k] bytes of a
    packet arrived: its header, the bytes of its payload that were sent, and
    what was there before. *)
Lemma recv_upkt p k old :
  upkt_ok p → length old = 1432%nat → (28 ≤ k ≤ 1432)%nat →
  length (recv_into sizeof_upkt old (take k (upkt_bytes p))) = 1432%nat ∧
  ∃ rest, read_upkt (recv_into sizeof_upkt old (take k (upkt_bytes p))) =
      Some (with_upkt_payload p (take (k - 28) (payload p) ++ rest)) ∧
    length (take (k - 28) (payload p) ++ rest) = 1400%nat.
Proof.
  intros Hok Ho Hk. pose proof Hok as (H1 & H2 & H3 & H4 & H5).
  assert (length (take k (upkt_bytes p)) = k) as El.
  { rewrite length_take. unfold upkt_bytes. rewrite !length_app, length_upkt_hdr, H5. simpl. lia. }
  unfold recv_into. rewrite (take_ge _ (Z.to_nat sizeof_upkt)) by (rewrite El; unfold sizeof_upkt; lia).
  rewrite El. split; [rewrite length_app, El, length_drop; lia|].
  set (body := take (k - 28) (payload p ++ [0; 0; 0; 0]) ++ drop k old).
  assert (take k (upkt_bytes p) ++ drop k old = upkt_hdr_bytes p ++ body) as E.
  { unfold upkt_bytes, body. replace k with (28 + (k - 28))%nat at 1 by lia.
    by rewrite take_app_add' by done. }
  assert (length body = 1404%nat) as Hb.
  { unfold body. rewrite length_app, length_take, length_app, length_drop, H5. simpl. lia. }
  assert (∃ rest, take (k - 28) (payload p) ++ rest = take 1400 body) as [rest Ep].
  { unfold body. destruct (decide (k - 28 ≤ 1400)%nat).
    - exists (take (1400 - (k - 28)) (drop k old)). rewrite (take_app_le (payload p)) by lia.
      rewrite take_app, take_take, length_take, H5. rewrite (Nat.min_r 1400), (Nat.min_l (k - 28)) by lia. done.
    - exists []. rewrite (take_ge (payload p)), app_nil_r by lia.
      rewrite take_app_le by (rewrite length_take, length_app, H5; simpl; lia).
      rewrite take_take, Nat.min_l by lia. rewrite take_app_le, take_ge by lia. done. }
  exists rest.
  rewrite Ep. split; [|rewrite length_take, Hb; lia].
  rewrite E. apply read_upkt_holds.
  - refine (conj H1 (conj H2 (conj H3 (conj H4 _)))). simpl. rewrite length_take, Hb. lia.
  - rewrite length_app, Hb. simpl. lia.
  - cbn [with_upkt_payload payload]. change (upkt_hdr_bytes (with_upkt_payload _ _)) with (upkt_hdr_bytes p).
    rewrite <-(take_drop 1400 body) at 1. rewrite app_assoc. apply holds_prefix.
Qed.

(** What a string followed by a null byte reads as. *)
Lemma c_string_app s rest : 0 ∉ s → c_string (s ++ 0 :: rest) = Some s.
Proof.
  intros H. unfold c_string. rewrite decide_True by set_solver.
  rewrite c_str_app; [done|]. intros c Hc ->. done.
Qed.
