(* ===== verification/RcvBuffer.v ===== *)
(** * The out-of-order buffer of the file receiver

    CS2520/project1/rcv_buffer.c: the packets that arrived ahead of the window,
    as a singly linked list in increasing order of sequence numbers.  Nodes and
    headers are blocks of the heap; [malloc] may fail at any call. *)
From S2P Require Import Prelude Stdio Bytes GapList Upkt.
Open Scope Z_scope.

Record buffer_node := mk_bnode { b_seq : Z; b_next : ptr; b_payload_len : Z; b_payload : list Z }.
Record rcv_buffer := mk_buffer { b_head : ptr; b_size : Z }.

Record bheap := mk_bheap {
  bnodes : gmap loc buffer_node;
  buffers : gmap loc rcv_buffer;
  bcalls : nat
}.

Definition set_bnodes (m : gmap loc buffer_node) (h : bheap) : bheap := mk_bheap m (buffers h) (bcalls h).
Definition set_buffers (m : gmap loc rcv_buffer) (h : bheap) : bheap := mk_bheap (bnodes h) m (bcalls h).
Definition next_bcall (h : bheap) : bheap := mk_bheap (bnodes h) (buffers h) (S (bcalls h)).

Definition get_bnode (p : ptr) : prog bheap buffer_node := reads (λ h, l ← p; bnodes h !! l).
Definition put_bnode (p : ptr) (f : buffer_node → option buffer_node) : prog bheap unit :=
  updates (λ h, l ← p; n ← bnodes h !! l; n' ← f n; Some (set_bnodes (<[l := n']> (bnodes h)) h)).
Definition get_buffer (b : loc) : prog bheap rcv_buffer := reads (λ h, buffers h !! b).
Definition put_buffer (b : loc) (f : rcv_buffer → option rcv_buffer) : prog bheap unit :=
  updates (λ h, r ← buffers h !! b; r' ← f r; Some (set_buffers (<[b := r']> (buffers h)) h)).

Definition set_seq (z : Z) (n : buffer_node) : option buffer_node :=
  Some (mk_bnode z (b_next n) (b_payload_len n) (b_payload n)).
Definition set_bnext (p : ptr) (n : buffer_node) : option buffer_node :=
  Some (mk_bnode (b_seq n) p (b_payload_len n) (b_payload n)).
Definition set_len (z : Z) (n : buffer_node) : option buffer_node :=
  Some (mk_bnode (b_seq n) (b_next n) z (b_payload n)).
Definition set_payload (f : list Z → option (list Z)) (n : buffer_node) : option buffer_node :=
  pl ← f (b_payload n); Some (mk_bnode (b_seq n) (b_next n) (b_payload_len n) pl).
Definition set_bhead (p : ptr) (b : rcv_buffer) : option rcv_buffer := Some (mk_buffer p (b_size b)).
(** [size += d], an [int]. *)
Definition add_bsize (d : Z) (b : rcv_buffer) : option rcv_buffer :=
  let z := b_size b + d in
  if (-2147483648 <=? z) && (z <? 2147483648) then Some (mk_buffer (b_head b) z) else None.

(** [strncpy(dst, src, n)]: at most [n] bytes of the string, then null bytes up
    to [n]; writing or reading past an array is undefined. *)
Definition strncpy (src : list Z) (n : Z) (dst : list Z) : option (list Z) :=
  let k := Z.to_nat n in
  if decide ((k ≤ length dst)%nat ∧ (0 ∈ src ∨ (k ≤ length src)%nat))
  then Some (take k (c_str src ++ replicate k 0) ++ drop k dst) else None.

Definition free_bnode (p : ptr) : prog bheap unit :=
  match p with
  | None => mret tt
  | Some l => updates (λ h, _ ← bnodes h !! l; Some (set_bnodes (delete l (bnodes h)) h))
  end.
Definition free_header (b : loc) : prog bheap unit :=
  updates (λ h, _ ← buffers h !! b; Some (set_buffers (delete b (buffers h)) h)).

Section buffer.
(** Which calls of [malloc] succeed, and what a new node holds (its payload is
    an array of [MAX_MESS_LEN] bytes). *)
Context (malloc_ok : nat → bool) (junk : buffer_node).

Definition malloc_bnode : prog bheap ptr := λ h,
  if malloc_ok (bcalls h)
  then let l := fresh (dom (bnodes h)) in
       Ret (Some l) (next_bcall (set_bnodes (<[l := junk]> (bnodes h)) h))
  else Ret None (next_bcall h).
Definition malloc_buffer : prog bheap ptr := λ h,
  if malloc_ok (bcalls h)
  then let l := fresh (dom (buffers h)) in
       Ret (Some l) (next_bcall (set_buffers (<[l := mk_buffer None 0]> (buffers h)) h))
  else Ret None (next_bcall h).

Definition new_buffer : prog bheap loc :=
  b ← malloc_buffer;
  match b with
  | None => exit_with 1
  | Some l => put_buffer l (set_bhead None);; put_buffer l (λ r, Some (mk_buffer (b_head r) 0));; mret l
  end.

(** The loop of [free_buffer]. *)
Fixpoint free_bnodes (fuel : nat) (curr : ptr) : prog bheap unit :=
  match fuel with
  | O => λ _, Fuel
  | S fuel' =>
      if is_null curr then mret tt
      else
        n ← get_bnode curr;
        let next_node := b_next n in
        free_bnode curr;;
        free_bnodes fuel' next_node
  end.
Definition buffer_fuel (h : bheap) : nat := S (base.size (bnodes h)).

Definition free_buffer (buffer : ptr) : prog bheap unit :=
  match buffer with
  | None => mret tt
  | Some l =>
      b ← get_buffer l;
      h ← get;
      free_bnodes (buffer_fuel h) (b_head b);;
      free_header l
  end.

(** The loop of [buffer_insert], from the node [curr] on. *)
Fixpoint insert_loop (fuel : nat) (curr new_node : ptr) : prog bheap bool :=
  match fuel with
  | O => λ _, Fuel
  | S fuel' =>
      c ← get_bnode curr;
      let next := b_next c in
      if is_null next then put_bnode curr (set_bnext new_node);; mret true
      else
        x ← get_bnode next; n ← get_bnode new_node;
        if b_seq x =? b_seq n then free_bnode new_node;; mret false
        else if b_seq x >? b_seq n
        then put_bnode new_node (set_bnext next);; put_bnode curr (set_bnext new_node);; mret true
        else insert_loop fuel' next new_node
  end.

Definition buffer_insert (buffer : ptr) (packet : upkt) : prog bheap bool :=
  match buffer with
  | None => mret false
  | Some l =>
      new_node ← malloc_bnode;
      if is_null new_node then exit_with 1
      else
        put_buffer l (add_bsize 1);;
        put_bnode new_node (set_seq (seq packet));;
        put_bnode new_node (set_bnext None);;
        put_bnode new_node (set_payload (λ _, Some (replicate (Z.to_nat MAX_MESS_LEN) 0)));;
        put_bnode new_node (set_len (i32 (payload_len packet)));;
        put_bnode new_node (set_payload (strncpy (payload packet) (payload_len packet)));;
        b ← get_buffer l;
        let curr := b_head b in
        if is_null curr then put_buffer l (set_bhead new_node);; mret true
        else
          c ← get_bnode curr; n ← get_bnode new_node;
          if b_seq c =? b_seq n then free_bnode new_node;; mret false
          else if b_seq c >? b_seq n
          then put_bnode new_node (set_bnext curr);; put_buffer l (set_bhead new_node);; mret true
          else h ← get; insert_loop (buffer_fuel h) curr new_node
  end.

Definition free_head (l : loc) : prog bheap bool :=
  b ← get_buffer l;
  let curr := b_head b in
  if is_null curr then mret false
  else
    c ← get_bnode curr;
    put_buffer l (set_bhead (b_next c));;
    put_buffer l (add_bsize (-1));;
    free_bnode curr;;
    mret true.
End buffer.

(** ** The buffer at the level of values *)

Record entry := mk_entry { e_seq : Z; e_len : Z; e_payload : list Z }.

(** Insertion in order; an entry with the same number is kept. *)
Fixpoint binsert (e : entry) (es : list entry) : bool * list entry :=
  match es with
  | [] => (true, [e])
  | x :: es' =>
      if e_seq x =? e_seq e then (false, es)
      else if e_seq x >? e_seq e then (true, e :: es)
      else let r := binsert e es' in (r.1, x :: r.2)
  end.

(** What is stored of a packet. *)
Definition entry_of (p : upkt) (e : entry) : Prop :=
  e_seq e = seq p ∧ e_len e = i32 (payload_len p) ∧
  strncpy (payload p) (payload_len p) (replicate (Z.to_nat MAX_MESS_LEN) 0) = Some (e_payload e).

Fixpoint increasing (lo : Z) (es : list entry) : Prop :=
  match es with [] => True | e :: es' => lo < e_seq e ∧ increasing (e_seq e) es' end.

(** ** The buffer at the level of the heap *)

Abbreviation bcell := (loc * entry)%type.
Definition bfirst (cells : list bcell) (stop : ptr) : ptr :=
  match cells with [] => stop | c :: _ => Some c.1 end.
Definition node_of (e : entry) (q : ptr) : buffer_node := mk_bnode (e_seq e) q (e_len e) (e_payload e).
Fixpoint bseg (m : gmap loc buffer_node) (cells : list bcell) (stop : ptr) : Prop :=
  match cells with
  | [] => True
  | c :: cells' => m !! c.1 = Some (node_of c.2 (bfirst cells' stop)) ∧ bseg m cells' stop
  end.

(** The header [l] holds [cells] and says [sz]; nothing else is allocated. *)
Record buffer_at (h : bheap) (l : loc) (sz : Z) (cells : list bcell) : Prop := {
  ba_header : buffers h = {[l := mk_buffer (bfirst cells None) sz]};
  ba_seg : bseg (bnodes h) cells None;
  ba_nodes : NoDup cells.*1;
  ba_dom : dom (bnodes h) = list_to_set cells.*1
}.

Lemma bfirst_app c1 c2 q : bfirst (c1 ++ c2) q = bfirst c1 (bfirst c2 q).
Proof. by destruct c1. Qed.
Lemma bseg_app m c1 c2 q : bseg m (c1 ++ c2) q ↔ bseg m c1 (bfirst c2 q) ∧ bseg m c2 q.
Proof. induction c1 as [|c c1 IH]; simpl; [naive_solver|]. rewrite bfirst_app, IH. naive_solver. Qed.
Lemma bseg_frame m m' cells q :
  (∀ k, k ∈ cells.*1 → m' !! k = m !! k) → bseg m cells q → bseg m' cells q.
Proof.
  induction cells as [|c cells IH]; simpl; [done|]. intros Hm [H1 H2].
  rewrite Hm by set_solver. split; [done|]. apply IH; [set_solver|done].
Qed.

Lemma get_bnode_Ret h l n : bnodes h !! l = Some n → get_bnode (Some l) h = Ret n h.
Proof. intros E. by apply (reads_Some _ _ h). Qed.
Lemma put_bnode_Ret f h l n n' : bnodes h !! l = Some n → f n = Some n' →
  put_bnode (Some l) f h = Ret tt (set_bnodes (<[l := n']> (bnodes h)) h).
Proof. intros E Ef. apply updates_Some. simpl. rewrite E. simpl. by rewrite Ef. Qed.
Lemma get_buffer_Ret h l b : buffers h !! l = Some b → get_buffer l h = Ret b h.
Proof. intros E. by apply (reads_Some _ _ h). Qed.
Lemma put_buffer_Ret f h l b b' : buffers h !! l = Some b → f b = Some b' →
  put_buffer l f h = Ret tt (set_buffers (<[l := b']> (buffers h)) h).
Proof. intros E Ef. apply updates_Some. rewrite E. simpl. by rewrite Ef. Qed.
Lemma free_bnode_Ret h l n : bnodes h !! l = Some n →
  free_bnode (Some l) h = Ret tt (set_bnodes (delete l (bnodes h)) h).
Proof. intros E. apply updates_Some. by rewrite E. Qed.
Lemma add_bsize_ok d b : -2147483648 ≤ b_size b + d < 2147483648 →
  add_bsize d b = Some (mk_buffer (b_head b) (b_size b + d)).
Proof. intros H. unfold add_bsize. by rewrite (proj2 (Z.leb_le _ _)), (proj2 (Z.ltb_lt _ _)) by lia. Qed.

Lemma NoDup_fst_app (a b : list bcell) c :
  NoDup (a ++ c :: b).*1 → c.1 ∉ a.*1 ∧ c.1 ∉ b.*1 ∧ NoDup a.*1 ∧ NoDup b.*1 ∧ (∀ k, k ∈ a.*1 → k ∉ b.*1).
Proof.
  rewrite fmap_app, fmap_cons. intros (H1 & H2 & [H3 H4]%NoDup_cons)%NoDup_app.
  split_and!; [|done|done|done|]; [intros Hx; specialize (H2 _ Hx)|intros k Hk; specialize (H2 _ Hk)]; set_solver.
Qed.

(** Linking the node [n] in after the cell [c]. *)
Lemma bseg_insert m a c b n e :
  bseg m (a ++ c :: b) None → NoDup (a ++ c :: b).*1 → n ∉ (a ++ c :: b).*1 →
  bseg (<[c.1 := node_of c.2 (Some n)]> (<[n := node_of e (bfirst b None)]> m)) (a ++ c :: (n, e) :: b) None.
Proof.
  intros [Ha [Hc Hb]]%bseg_app Hnd Hn. destruct (NoDup_fst_app _ _ _ Hnd) as (Hca & Hcb & _ & _ & _).
  rewrite fmap_app, fmap_cons in Hn. apply bseg_app. split; [|split; [|split]].
  - eapply bseg_frame; [|exact Ha]. intros k Hk. rewrite !lookup_insert_ne; [done|set_solver|congruence].
  - apply lookup_insert_eq.
  - cbn [fst snd]. rewrite lookup_insert_ne, lookup_insert_eq by set_solver. done.
  - eapply bseg_frame; [|exact Hb]. intros k Hk. rewrite !lookup_insert_ne; [done|set_solver|congruence].
Qed.

Lemma insert_loop_spec e n fuel a c b h :
  bseg (bnodes h) (a ++ c :: b) None → NoDup (a ++ c :: b).*1 → n ∉ (a ++ c :: b).*1 →
  bnodes h !! n = Some (node_of e None) → (length b < fuel)%nat →
  ∃ h', insert_loop fuel (Some c.1) (Some n) h = Ret (binsert e b.*2).1 h' ∧ buffers h' = buffers h ∧
    if (binsert e b.*2).1
    then ∃ p q, b = p ++ q ∧ (binsert e b.*2).2 = p.*2 ++ e :: q.*2 ∧
      bseg (bnodes h') (a ++ c :: p ++ (n, e) :: q) None ∧ dom (bnodes h') = dom (bnodes h)
    else (binsert e b.*2).2 = b.*2 ∧ bnodes h' = delete n (bnodes h).
Proof.
  revert a c fuel. induction b as [|x b IH]; intros a c [|fuel] Hs Hnd Hn He Hf; simpl in Hf; try lia;
    pose proof Hs as [_ [Hc Hs']]%bseg_app; cbn [insert_loop]; run (get_bnode_Ret _ _ _ Hc);
    cbn [node_of b_next bfirst is_null].
  { run (put_bnode_Ret (set_bnext (Some n)) _ _ _ _ Hc eq_refl). eexists. split_and!; [reflexivity|done|].
    exists [], []. split_and!; [done|done| |].
    - pose proof (bseg_insert _ a c [] n e Hs Hnd Hn) as Hi. cbn [bfirst] in Hi.
      rewrite (insert_id (bnodes h)) in Hi by done. exact Hi.
    - simpl. rewrite dom_insert_L. apply elem_of_dom_2 in Hc. set_solver. }
  destruct Hs' as [Hx Hs']. run (get_bnode_Ret _ _ _ Hx). run (get_bnode_Ret _ _ _ He).
  rewrite fmap_cons. cbn [node_of b_seq binsert].
  destruct (e_seq x.2 =? e_seq e).
  { run (free_bnode_Ret _ _ _ He). by eexists. }
  assert (n ≠ c.1) by (rewrite fmap_app in Hn; set_solver).
  destruct (e_seq x.2 >? e_seq e).
  { run (put_bnode_Ret (set_bnext (Some x.1)) _ _ _ _ He eq_refl).
    erewrite bind_Ret; cycle 1.
    { apply (put_bnode_Ret (set_bnext (Some n)) (set_bnodes (<[n := _]> (bnodes h)) h) c.1 (node_of c.2 (Some x.1)));
        [|reflexivity]. simpl. by rewrite lookup_insert_ne. }
    eexists. split_and!; [reflexivity|done|]. exists [], (x :: b). split_and!; [done|done| |].
    - apply (bseg_insert _ a c (x :: b) n e Hs Hnd Hn).
    - simpl. rewrite !dom_insert_L. apply elem_of_dom_2 in Hc, He. set_solver. }
  destruct (IH (a ++ [c]) x fuel) as (h' & E & Eb & Hr); [by rewrite <-app_assoc..|done|lia|].
  exists h'. cbn [fst snd]. split_and!; [exact E|done|]. destruct (binsert e b.*2).1.
  - destruct Hr as (p & q & -> & Hr & Hs2 & Hd). exists (x :: p), q. rewrite Hr.
    split_and!; [done|done| |done]. by rewrite <-app_assoc in Hs2.
  - destruct Hr as [-> Hr]. done.
Qed.

(** The heap after the node of [buffer_insert] has been written. *)
Definition with_bnode (n : loc) (e : entry) (h : bheap) : bheap :=
  next_bcall (set_bnodes (<[n := node_of e None]> (bnodes h)) h).

Lemma buffer_size_fuel h l sz cells : buffer_at h l sz cells → (length cells < buffer_fuel h)%nat.
Proof.
  intros B. unfold buffer_fuel. rewrite <-size_dom, (ba_dom _ _ _ _ B).
  rewrite size_list_to_set by apply (ba_nodes _ _ _ _ B). rewrite length_fmap. apply Nat.lt_succ_diag_r.
Qed.
Lemma bheader_at h l sz cells : buffer_at h l sz cells → buffers h !! l = Some (mk_buffer (bfirst cells None) sz).
Proof. intros B. rewrite (ba_header _ _ _ _ B). apply lookup_singleton_eq. Qed.

(** Putting the new node where [binsert] puts the entry. *)
Lemma link_spec e n h l sz cells :
  buffer_at h l sz cells → n ∉ dom (bnodes h) →
  let h1 := set_buffers {[l := mk_buffer (bfirst cells None) (sz + 1)]} (with_bnode n e h) in
  let prg :=
    b ← get_buffer l;
    let curr := b_head b in
    if is_null curr then put_buffer l (set_bhead (Some n));; mret true
    else
      c ← get_bnode curr; n' ← get_bnode (Some n);
      if b_seq c =? b_seq n' then free_bnode (Some n);; mret false
      else if b_seq c >? b_seq n'
      then put_bnode (Some n) (set_bnext curr);; put_buffer l (set_bhead (Some n));; mret true
      else h ← get; insert_loop (buffer_fuel h) curr (Some n) in
  ∃ h' cells', prg h1 = Ret (binsert e cells.*2).1 h' ∧ buffer_at h' l (sz + 1) cells' ∧
    cells'.*2 = (binsert e cells.*2).2.
Proof.
  intros B Hn h1 prg. unfold prg. pose proof B as [Hl Hs Hnd Hd].
  assert (n ∉ cells.*1) as Hnc by (intros Hx; apply Hn; rewrite Hd; set_solver).
  assert (bnodes h1 !! n = Some (node_of e None)) as He by apply lookup_insert_eq.
  assert (bseg (bnodes h1) cells None) as Hs1.
  { eapply bseg_frame; [|exact Hs]. intros k Hk. apply lookup_insert_ne. congruence. }
  run (get_buffer_Ret h1 l _ (lookup_singleton_eq _ _)).
  destruct cells as [|c cells]; cbn [bfirst b_head is_null].
  { run (put_buffer_Ret (set_bhead (Some n)) h1 l _ _ (lookup_singleton_eq _ _) eq_refl).
    eexists _, [(n, e)]. split_and!; [reflexivity| |done].
    constructor; simpl; [by rewrite insert_singleton_eq|by split|apply NoDup_singleton|].
    rewrite dom_insert_L, Hd. simpl. set_solver. }
  destruct Hs1 as [Hc Hs1]. run (get_bnode_Ret h1 _ _ Hc). run (get_bnode_Ret h1 _ _ He).
  rewrite fmap_cons. cbn [node_of b_seq binsert].
  destruct (e_seq c.2 =? e_seq e).
  { run (free_bnode_Ret h1 _ _ He). eexists _, (c :: cells). split_and!; [reflexivity| |done].
    assert (delete n (<[n := node_of e None]> (bnodes h)) = bnodes h) as Hdel.
    { apply delete_insert_id, not_elem_of_dom_1. done. }
    constructor; simpl; rewrite ?Hdel; done. }
  destruct (e_seq c.2 >? e_seq e).
  { run (put_bnode_Ret (set_bnext (Some c.1)) h1 _ _ _ He eq_refl).
    run (put_buffer_Ret (set_bhead (Some n)) (set_bnodes _ h1) l _ _ (lookup_singleton_eq _ _) eq_refl).
    eexists _, ((n, e) :: c :: cells). split_and!; [reflexivity| |done].
    constructor; simpl.
    - by rewrite insert_singleton_eq.
    - split; [apply lookup_insert_eq|]. rewrite insert_insert_eq.
      apply (bseg_frame (bnodes h) _ (c :: cells)); [|done]. intros k Hk. apply lookup_insert_ne. congruence.
    - apply NoDup_cons_2; done.
    - rewrite !dom_insert_L, Hd. set_solver. }
  run (eq_refl (get h1)).
  destruct (insert_loop_spec e n (buffer_fuel h1) [] c cells h1) as (h' & E & Eb & Hr);
    [done|done|done|done| |].
  { pose proof (buffer_size_fuel _ _ _ _ B) as Hf. unfold buffer_fuel in *. simpl in *.
    rewrite map_size_insert_None by by apply not_elem_of_dom_1. lia. }
  destruct (binsert e cells.*2).1; cbn [fst snd].
  - destruct Hr as (p & q & -> & -> & Hs2 & Hd2). exists h', (c :: p ++ (n, e) :: q).
    split_and!; [exact E| |by rewrite fmap_cons, fmap_app].
    constructor; [by rewrite Eb|exact Hs2|..].
    + rewrite fmap_cons, fmap_app, fmap_cons in *. simpl in *.
      apply NoDup_cons in Hnd as [Hc1 Hnd]. apply NoDup_cons. split; [set_solver|].
      apply NoDup_app in Hnd as (? & ? & ?). apply NoDup_app. split_and!; [done|set_solver|].
      apply NoDup_cons. split; [set_solver|done].
    + rewrite Hd2. simpl. rewrite dom_insert_L, Hd. simpl. rewrite !fmap_app, fmap_cons. set_solver.
  - destruct Hr as [-> Hr]. exists h', (c :: cells). split_and!; [exact E| |done].
    assert (bnodes h' = bnodes h) as Hh.
    { rewrite Hr. apply delete_insert_id, not_elem_of_dom_1. done. }
    constructor; [by rewrite Eb|by rewrite Hh..|done|by rewrite Hh].
Qed.

Lemma set_payload_Some f n pl : f (b_payload n) = Some pl →
  set_payload f n = Some (mk_bnode (b_seq n) (b_next n) (b_payload_len n) pl).
Proof. intros E. unfold set_payload. by rewrite E. Qed.

Lemma buffer_insert_spec (ok : nat → bool) junk h l sz cells p e :
  buffer_at h l sz cells → entry_of p e → -2147483648 ≤ sz < 2147483647 →
  if ok (bcalls h)
  then ∃ h' cells', buffer_insert ok junk (Some l) p h = Ret (binsert e cells.*2).1 h' ∧
    buffer_at h' l (sz + 1) cells' ∧ cells'.*2 = (binsert e cells.*2).2
  else ∃ h', buffer_insert ok junk (Some l) p h = Exited 1 h'.
Proof.
  intros B (He1 & He2 & He3) Hsz. unfold buffer_insert. destruct (ok (bcalls h)) eqn:Eok; cycle 1.
  { erewrite bind_Ret; [|unfold malloc_bnode; by rewrite Eok]. by eexists. }
  set (n := fresh (dom (bnodes h))). assert (n ∉ dom (bnodes h)) as Hn by apply is_fresh.
  erewrite bind_Ret; [|unfold malloc_bnode; rewrite Eok; reflexivity]. cbn [is_null]. fold n.
  destruct (link_spec e n h l sz cells B Hn) as (h' & cells' & E & B' & Hc).
  exists h', cells'. split_and!; [|done|done]. rewrite <-E.
  erewrite bind_Ret; cycle 1.
  { eapply put_buffer_Ret; [apply (bheader_at _ _ _ _ B)|]. apply add_bsize_ok. simpl. lia. }
  do 2 (erewrite bind_Ret; [|eapply put_bnode_Ret; [simpl; apply lookup_insert_eq|reflexivity]]).
  erewrite bind_Ret; [|eapply put_bnode_Ret; [simpl; apply lookup_insert_eq|by apply set_payload_Some]].
  erewrite bind_Ret; [|eapply put_bnode_Ret; [simpl; apply lookup_insert_eq|reflexivity]].
  erewrite bind_Ret; [|eapply put_bnode_Ret; [simpl; apply lookup_insert_eq|apply set_payload_Some, He3]].
  cbn [set_bnodes set_buffers next_bcall bnodes buffers bcalls b_head b_size b_seq b_next b_payload_len].
  rewrite !insert_insert_eq, (ba_header _ _ _ _ B), insert_singleton_eq, <-He1, <-He2.
  reflexivity.
Qed.

Lemma free_head_spec h l sz c cells :
  buffer_at h l sz (c :: cells) → -2147483648 < sz ≤ 2147483648 →
  ∃ h', free_head l h = Ret true h' ∧ buffer_at h' l (sz - 1) cells ∧ bcalls h' = bcalls h.
Proof.
  intros B Hsz. pose proof B as [Hl [Hc Hs] [Hc1 Hnd]%NoDup_cons Hd]. unfold free_head.
  run (get_buffer_Ret _ _ _ (bheader_at _ _ _ _ B)). cbn [b_head bfirst is_null].
  run (get_bnode_Ret _ _ _ Hc). run (put_buffer_Ret (set_bhead (bfirst cells None)) _ _ _ _ (bheader_at _ _ _ _ B) eq_refl).
  erewrite bind_Ret; cycle 1.
  { eapply put_buffer_Ret; [apply lookup_insert_eq|]. apply add_bsize_ok. simpl. lia. }
  run (free_bnode_Ret (set_buffers _ (set_buffers _ h)) _ _ Hc). eexists. split_and!; [reflexivity| |done].
  constructor; simpl.
  - by rewrite Hl, !insert_singleton_eq.
  - eapply bseg_frame; [|exact Hs]. intros k Hk. apply lookup_delete_ne. intros <-. by apply Hc1.
  - done.
  - rewrite dom_delete_L, Hd. simpl. set_solver.
Qed.

Lemma free_head_empty h l sz : buffer_at h l sz [] → free_head l h = Ret false h.
Proof. intros B. unfold free_head. by run (get_buffer_Ret _ _ _ (bheader_at _ _ _ _ B)). Qed.

Lemma free_bnodes_spec fuel cells h :
  bseg (bnodes h) cells None → NoDup cells.*1 → (length cells < fuel)%nat →
  ∃ h', free_bnodes fuel (bfirst cells None) h = Ret tt h' ∧ buffers h' = buffers h ∧ bcalls h' = bcalls h ∧
    dom (bnodes h') = dom (bnodes h) ∖ list_to_set cells.*1.
Proof.
  revert h fuel. induction cells as [|c cells IH]; intros h [|fuel] Hs Hnd Hf; simpl in Hf; try lia.
  { exists h. simpl. split_and!; [done..|set_solver]. }
  destruct Hs as [Hc Hs]. rewrite fmap_cons in Hnd. apply NoDup_cons in Hnd as [Hc1 Hnd].
  cbn [free_bnodes bfirst is_null]. run (get_bnode_Ret _ _ _ Hc). cbn [node_of b_next].
  run (free_bnode_Ret _ _ _ Hc). set (h1 := set_bnodes _ _).
  destruct (IH h1 fuel) as (h' & E & Eb & Ec & Ed); [|done|lia|].
  { eapply bseg_frame; [|exact Hs]. intros k Hk. apply lookup_delete_ne. congruence. }
  exists h'. split_and!; [exact E|exact Eb|exact Ec|]. rewrite Ed. simpl. rewrite dom_delete_L. set_solver.
Qed.

(** [free_buffer] gives every block back. *)
Lemma free_buffer_spec h l sz cells :
  buffer_at h l sz cells →
  ∃ h', free_buffer (Some l) h = Ret tt h' ∧ buffers h' = ∅ ∧ bnodes h' = ∅ ∧ bcalls h' = bcalls h.
Proof.
  intros B. unfold free_buffer. run (get_buffer_Ret _ _ _ (bheader_at _ _ _ _ B)). run (eq_refl (get h)).
  destruct (free_bnodes_spec (buffer_fuel h) cells h) as (h' & E & Eb & Ec & Ed);
    [apply B|apply B|exact (buffer_size_fuel _ _ _ _ B)|].
  cbn [b_head]. run E. exists (set_buffers ∅ h'). split_and!; [|done| |].
  - apply updates_Some. rewrite Eb, (ba_header _ _ _ _ B), lookup_singleton_eq. simpl.
    by rewrite delete_singleton_eq.
  - simpl. apply dom_empty_inv_L. rewrite Ed, (ba_dom _ _ _ _ B). set_solver.
  - done.
Qed.

Lemma new_buffer_spec (ok : nat → bool) h :
  buffers h = ∅ → bnodes h = ∅ →
  if ok (bcalls h) then ∃ l h', new_buffer ok h = Ret l h' ∧ buffer_at h' l 0 []
  else ∃ h', new_buffer ok h = Exited 1 h'.
Proof.
  intros Hb Hn. unfold new_buffer. destruct (ok (bcalls h)) eqn:E.
  - erewrite bind_Ret; [|unfold malloc_buffer; rewrite E; reflexivity]. cbv beta iota.
    do 2 (erewrite bind_Ret; [|eapply put_buffer_Ret; [apply lookup_insert_eq|reflexivity]]).
    eexists _, _. split; [reflexivity|]. constructor; simpl.
    + by rewrite Hb, !insert_insert_eq, insert_empty.
    + done.
    + constructor.
    + by rewrite Hn, dom_empty_L.
  - erewrite bind_Ret; [|unfold malloc_buffer; by rewrite E]. by eexists.
Qed.


(** ** The buffer as a map *)

Lemma increasing_lo lo lo' es : lo' ≤ lo → increasing lo es → increasing lo' es.
Proof. destruct es; simpl; [done|]. intros ? [? ?]. split; [lia|done]. Qed.
Lemma increasing_gt lo es x : increasing lo es → x ∈ es → lo < e_seq x.
Proof.
  revert lo. induction es as [|y es IH]; intros lo; [by intros _ ?%not_elem_of_nil|].
  intros [H Hes] [->|Hx]%elem_of_cons; [done|]. specialize (IH _ Hes Hx). lia.
Qed.
Lemma increasing_inj lo es x y : increasing lo es → x ∈ es → y ∈ es → e_seq x = e_seq y → x = y.
Proof.
  revert lo. induction es as [|z es IH]; intros lo; [by intros _ ?%not_elem_of_nil|].
  intros [H Hes] [->|Hx]%elem_of_cons [->|Hy]%elem_of_cons E; [done|..|by eauto].
  - pose proof (increasing_gt _ _ _ Hes Hy). lia.
  - pose proof (increasing_gt _ _ _ Hes Hx). lia.
Qed.

Lemma binsert_spec lo es e :
  increasing lo es → lo < e_seq e →
  increasing lo (binsert e es).2 ∧
  (((binsert e es).1 = true ∧ (∀ x, x ∈ es → e_seq x ≠ e_seq e) ∧
    ∀ x, x ∈ (binsert e es).2 ↔ x = e ∨ x ∈ es) ∨
   ((binsert e es).1 = false ∧ (binsert e es).2 = es ∧ ∃ x, x ∈ es ∧ e_seq x = e_seq e)).
Proof.
  revert lo. induction es as [|y es IH]; intros lo Hes He; simpl.
  { split; [done|]. left. split_and!; [done|set_solver|set_solver]. }
  destruct Hes as [Hy Hes]. destruct (Z.eqb_spec (e_seq y) (e_seq e)) as [Eq|Hne]; cbn [fst snd].
  { split; [done|]. right. split_and!; [done..|]. exists y. split; [set_solver|done]. }
  rewrite Z.gtb_ltb. destruct (Z.ltb_spec (e_seq e) (e_seq y)) as [Hlt|Hge]; cbn [fst snd].
  { split; [simpl; split_and!; done|]. left. split_and!; [done| |set_solver].
    intros x [->|Hx]%elem_of_cons; [done|]. pose proof (increasing_gt _ _ _ Hes Hx). lia. }
  destruct (IH (e_seq y) Hes) as [Hi [(-> & Hx & Hin)|(-> & -> & x & Hx & Ex)]]; [lia|..].
  - split; [done|]. left. split_and!; [done| |set_solver]. intros x [->|?]%elem_of_cons; [done|auto].
  - split; [done|]. right. split_and!; [done..|]. exists x. split; [set_solver|done].
Qed.

Inductive bop := BInsert (p : upkt) | BFreeHead.
Abbreviation bmap := (gmap Z entry).

(** What a call answers and does to the map from numbers to entries. *)
Inductive bspec : bop → bmap → bool → bmap → Prop :=
| spec_new p e m : entry_of p e → m !! seq p = None → bspec (BInsert p) m true (<[seq p := e]> m)
| spec_duplicate p m : is_Some (m !! seq p) → bspec (BInsert p) m false m
| spec_pop k m : is_Some (m !! k) → (∀ j, is_Some (m !! j) → k ≤ j) → bspec BFreeHead m true (delete k m)
| spec_empty : bspec BFreeHead ∅ false ∅.
(** A sequence of calls, with the number of packets refused as duplicates. *)
Inductive bspecs : list bop → bmap → list bool → Z → bmap → Prop :=
| specs_nil m : bspecs [] m [] 0 m
| specs_cons o ops m b m1 bs d m2 :
    bspec o m b m1 → bspecs ops m1 bs d m2 →
    bspecs (o :: ops) m (b :: bs) ((match o, b with BInsert _, false => 1 | _, _ => 0 end) + d) m2.

(** A packet whose payload fits. *)
Definition fits (o : bop) : Prop :=
  match o with
  | BInsert p => 0 ≤ payload_len p ≤ MAX_MESS_LEN ∧ length (payload p) = 1400%nat ∧ 0 ≤ seq p
  | BFreeHead => True
  end.

Section bclient.
Context (ok : nat → bool) (junk : buffer_node).
Definition run_bop (l : loc) (o : bop) : prog bheap bool :=
  match o with BInsert p => buffer_insert ok junk (Some l) p | BFreeHead => free_head l end.
Fixpoint run_bops (l : loc) (ops : list bop) : prog bheap (list bool) :=
  match ops with
  | [] => mret []
  | o :: ops' => b ← run_bop l o; bs ← run_bops l ops'; mret (b :: bs)
  end.
Definition buffer_client (ops : list bop) : prog bheap (loc * list bool) :=
  l ← new_buffer ok; bs ← run_bops l ops; mret (l, bs).
End bclient.

Definition as_map (es : list entry) (m : bmap) : Prop :=
  increasing (-1) es ∧ ∀ k e, m !! k = Some e ↔ e ∈ es ∧ e_seq e = k.

Lemma as_map_nil : as_map [] ∅.
Proof. split; [done|]. intros k e. rewrite lookup_empty. split; [done|]. by intros [?%not_elem_of_nil _]. Qed.

Lemma as_map_insert es m e p :
  as_map es m → entry_of p e → 0 ≤ seq p →
  ∃ m', bspec (BInsert p) m (binsert e es).1 m' ∧ as_map (binsert e es).2 m'.
Proof.
  intros [Hes Hm] He Hp. pose proof He as (E & _). destruct (binsert_spec (-1) es e Hes) as [Hi Hr]; [lia|].
  destruct Hr as [(-> & Hx & Hin)|(-> & -> & x & Hx & Ex)].
  - assert (m !! seq p = None) as Hnone.
    { destruct (m !! seq p) as [x|] eqn:Ex; [|done]. apply Hm in Ex as [Hin' Ex]. specialize (Hx x Hin'). congruence. }
    exists (<[seq p := e]> m). split; [by constructor|]. split; [done|]. intros k x. rewrite Hin.
    destruct (decide (seq p = k)) as [<-|Hk].
    + rewrite lookup_insert_eq. split; [intros [= <-]; split; [by left|done]|].
      intros [[->|Hx'] Ex]; [done|]. specialize (Hx x Hx'). congruence.
    + rewrite lookup_insert_ne by done. rewrite Hm. split; [intros [? ?]; split; [by right|done]|].
      intros [[->|?] ?]; [congruence|done].
  - exists m. split; [|done]. constructor. exists x. apply Hm. split; [done|]. congruence.
Qed.

Lemma as_map_pop e es m : as_map (e :: es) m →
  bspec BFreeHead m true (delete (e_seq e) m) ∧ as_map es (delete (e_seq e) m).
Proof.
  intros [[He Hes] Hm]. assert (m !! e_seq e = Some e) as Hl by (apply Hm; split; [set_solver|done]).
  split.
  - constructor; [by eexists|]. intros j [x [[->|Hx]%elem_of_cons <-]%Hm]; [lia|].
    pose proof (increasing_gt _ _ _ Hes Hx). lia.
  - split; [by eapply increasing_lo; [|done]; lia|]. intros k x. destruct (decide (e_seq e = k)) as [<-|Hk].
    + rewrite lookup_delete_eq. split; [done|]. intros [Hx Ex].
      pose proof (increasing_gt _ _ _ Hes Hx). lia.
    + rewrite lookup_delete_ne, Hm by done. rewrite elem_of_cons. naive_solver.
Qed.

Lemma entry_of_ex p : fits (BInsert p) → ∃ e, entry_of p e.
Proof.
  intros (H1 & H2 & H3). unfold entry_of, strncpy, MAX_MESS_LEN in *.
  rewrite decide_True; [|rewrite length_replicate, H2; lia].
  by eexists (mk_entry _ _ _).
Qed.

Lemma run_bops_spec ok junk l ops : (∀ n, ok n = true) → Forall fits ops → ∀ h sz cells m,
  buffer_at h l sz cells → as_map cells.*2 m →
  Z.of_nat (length cells) ≤ sz ∧ sz + Z.of_nat (length ops) < 2147483647 →
  ∃ h' cells' bs d m', run_bops ok junk l ops h = Ret bs h' ∧ bspecs ops m bs d m' ∧
    buffer_at h' l (sz - Z.of_nat (length cells) + Z.of_nat (length cells') + d) cells' ∧ as_map cells'.*2 m'.
Proof.
  intros Hok. induction 1 as [|o ops Ho _ IH]; intros h sz cells m B Hm Hsz.
  { exists h, cells, [], 0, m. split_and!; [done|constructor| |done].
    by replace (sz - _ + _ + 0) with sz by lia. }
  cbn [length] in Hsz. destruct o as [p|]; cbn [run_bops run_bop].
  - destruct (entry_of_ex p Ho) as [e He]. pose proof Ho as (_ & _ & Hp).
    pose proof (buffer_insert_spec ok junk h l sz cells p e B He ltac:(lia)) as Hins. rewrite Hok in Hins.
    destruct Hins as (h1 & cells1 & E1 & B1 & Hc). run E1.
    destruct (as_map_insert _ _ _ _ Hm He Hp) as (m1 & Hspec & Hm1). rewrite <-Hc in Hm1.
    assert (Z.of_nat (length cells1) = Z.of_nat (length cells) + (if (binsert e cells.*2).1 then 1 else 0)) as Hlen.
    { rewrite <-(length_fmap snd cells1), Hc, <-(length_fmap snd cells). clear.
      induction cells.*2 as [|x es IH]; [done|]. simpl. repeat (case_match; simpl; try lia). }
    destruct (IH h1 (sz + 1) cells1 m1 B1 Hm1) as (h' & cells' & bs & d & m' & E & Hs & B' & Hm').
    { destruct (binsert e cells.*2).1; lia. }
    run E. eexists h', cells', (_ :: bs), _, m'. split_and!; [done|by econstructor| |done].
    replace (sz - _ + _ + _) with (sz + 1 - Z.of_nat (length cells1) + Z.of_nat (length cells') + d); [done|].
    rewrite Hlen. destruct (binsert e cells.*2).1; lia.
  - destruct cells as [|c cells].
    + run (free_head_empty _ _ _ B).
      assert (m = ∅) as ->.
      { apply map_empty. intros k. destruct (m !! k) eqn:E; [|done]. by apply Hm in E as [?%not_elem_of_nil _]. }
      destruct (IH h sz [] ∅ B Hm) as (h' & cells' & bs & d & m' & E & Hs & B' & Hm'); [simpl in *; lia|].
      run E. eexists h', cells', (_ :: bs), _, m'. split_and!; [done|econstructor; [constructor|done]| |done].
      exact B'.
    + destruct (free_head_spec h l sz c cells B) as (h1 & E1 & B1 & _); [simpl in *; lia|]. run E1.
      destruct (as_map_pop _ _ _ Hm) as [Hspec Hm1].
      destruct (IH h1 (sz - 1) cells _ B1 Hm1) as (h' & cells' & bs & d & m' & E & Hs & B' & Hm'); [simpl in *; lia|].
      run E. eexists h', cells', (_ :: bs), _, m'. split_and!; [done|by econstructor| |done].
      replace (sz - _ + _ + _) with (sz - 1 - Z.of_nat (length cells) + Z.of_nat (length cells') + d);
        [done|simpl; lia].
Qed.

(** ** Theorems *)

(** A buffer that is made, used by any sequence of [buffer_insert] and
    [free_head] calls and freed behaves like a map from sequence numbers to
    payloads: an insertion is refused exactly when the number is present,
    [free_head] takes the least number out, the list holds the map in increasing
    order, nothing undefined happens, and [free_buffer] gives every block back.
    The field [size] is too large by the number of refused insertions. *)
Theorem buffer_refines ok junk ops h :
  (∀ n, ok n = true) → buffers h = ∅ → bnodes h = ∅ →
  Forall fits ops → Z.of_nat (length ops) < 2147483647 →
  ∃ l bs d m cells h1 h2,
    buffer_client ok junk ops h = Ret (l, bs) h1 ∧ bspecs ops ∅ bs d m ∧ as_map cells.*2 m ∧
    buffer_at h1 l (Z.of_nat (length cells) + d) cells ∧
    free_buffer (Some l) h1 = Ret tt h2 ∧ bnodes h2 = ∅ ∧ buffers h2 = ∅.
Proof.
  intros Hok Hb Hn Hf Hlen. pose proof (new_buffer_spec ok h Hb Hn) as Hnew. rewrite Hok in Hnew.
  destruct Hnew as (l & h0 & E0 & B0).
  destruct (run_bops_spec ok junk l ops Hok Hf h0 0 [] ∅ B0 as_map_nil)
    as (h1 & cells & bs & d & m & E & Hs & B & Hm); [simpl; lia|].
  destruct (free_buffer_spec _ _ _ _ B) as (h2 & E2 & Hb2 & Hn2 & _).
  exists l, bs, d, m, cells, h1, h2. split; [unfold buffer_client; run E0; by run E|].
  do 2 (split; [done|]). split; [by replace (_ + d) with (0 - Z.of_nat (length (@nil bcell)) + Z.of_nat (length cells) + d) by (simpl; lia)|].
  by split_and!.
Qed.

(** A packet with one byte of payload. *)
Definition demo_pkt (n : Z) : upkt :=
  mk_upkt false false false false 0 0 n 1 (65 :: replicate 1399 0).

Lemma buffer_refines_witness :
  ∃ l bs d m cells h1 h2,
    buffer_client (λ _, true) (mk_bnode 0 None 0 []) [BInsert (demo_pkt 5); BInsert (demo_pkt 3); BInsert (demo_pkt 5); BFreeHead]
      (mk_bheap ∅ ∅ 0) = Ret (l, bs) h1 ∧
    bspecs [BInsert (demo_pkt 5); BInsert (demo_pkt 3); BInsert (demo_pkt 5); BFreeHead] ∅ bs d m ∧
    as_map cells.*2 m ∧ buffer_at h1 l (Z.of_nat (length cells) + d) cells ∧
    free_buffer (Some l) h1 = Ret tt h2 ∧ bnodes h2 = ∅ ∧ buffers h2 = ∅.
Proof.
  apply buffer_refines; [done|done|done| |simpl; lia].
  repeat (apply Forall_cons; split; [|]); [..|apply Forall_nil_2]; try done; (split; [|split]); simpl; unfold MAX_MESS_LEN; lia || reflexivity.
Defined.
