(* ===== verification/SendtoDbg.v ===== *)
(** * The lossy network of the file transfer

    CS2520/project1/sendto_dbg.c: [sendto] behind a filter that drops datagrams
    at random.  The loss threshold is computed in [double], modelled exactly with
    the Standard Library's specification of IEEE 754. *)
From Stdlib Require Import SpecFloat.
From S2P Require Import Prelude.
Open Scope Z_scope.

(** ** [double] *)
Definition dbl_prec : Z := 53.
Definition dbl_emax : Z := 1024.
Definition dbl_of_Z (z : Z) : spec_float := binary_normalize dbl_prec dbl_emax z 0 false.
Definition dbl_mul : spec_float → spec_float → spec_float := SFmul dbl_prec dbl_emax.
(** The literal [0.01]: the double nearest to 1/100. *)
Definition dbl_hundredth : spec_float := SFdiv dbl_prec dbl_emax (dbl_of_Z 1) (dbl_of_Z 100).
(** Conversion to an integer truncates. *)
Definition Z_of_dbl (x : spec_float) : option Z :=
  match x with
  | S754_zero _ => Some 0
  | S754_finite s m e =>
      let v := if 0 <=? e then Zpos m * 2 ^ e else Zpos m / 2 ^ (- e) in
      Some (if s then - v else v)
  | _ => None
  end.

(** The file-scope state, and the datagrams handed to [sendto]. *)
Record net (A : Type) := mk_net {
  first_time : bool;
  cutoff : Z;
  rand_calls : nat;
  wire : list (A * list Z)
}.
Arguments mk_net {A}. Arguments first_time {A}. Arguments cutoff {A}.
Arguments rand_calls {A}. Arguments wire {A}.

(** [cutoff = (percent * 0.01 * 0xff)] *)
Definition cutoff_of (percent : Z) : option Z :=
  Z_of_dbl (dbl_mul (dbl_mul (dbl_of_Z percent) dbl_hundredth) (dbl_of_Z 255)).

Section sendto_dbg.
(** The addresses, and the values that [rand] returns. *)
Context {A : Type} (rand : nat → Z).

Definition sendto_dbg_init (percent : Z) : prog (net A) unit :=
  c ← lift (cutoff_of percent);
  modify (λ n, mk_net (first_time n) c (rand_calls n) (wire n)).

(** [len] bytes of [buf] to [dst]; reading past [buf] is undefined. *)
Definition sendto_dbg (buf : list Z) (len : Z) (dst : A) : prog (net A) Z :=
  modify (λ n, mk_net false (cutoff n) (rand_calls n) (wire n));;
  n ← get;
  let decision := Z.land (rand (rand_calls n)) 255 in
  modify (λ n, mk_net (first_time n) (cutoff n) (S (rand_calls n)) (wire n));;
  if (cutoff n >? 0) && (decision <=? cutoff n) then mret len
  else if (0 <=? len) && (len <=? Z.of_nat (length buf))
  then modify (λ n, mk_net (first_time n) (cutoff n) (rand_calls n) (wire n ++ [(dst, take (Z.to_nat len) buf)]));;
       mret len
  else undef.
End sendto_dbg.

(** Whether a decision drops the datagram. *)
Definition dropped (percent decision : Z) : bool := (0 <? percent) && (decision <=? percent * 255 / 100).

(** A decidable property of every loss rate. *)
Lemma rates_all (P : Z → bool) : forallb P (seqZ 0 101) = true → ∀ percent, 0 ≤ percent ≤ 100 → P percent = true.
Proof.
  intros H percent Hp. rewrite forallb_forall in H. apply H.
  apply list_elem_of_In, elem_of_seqZ. lia.
Qed.

(** The floating-point computation, checked on every loss rate. *)
Lemma cutoff_of_percent percent : 0 ≤ percent ≤ 100 → cutoff_of percent = Some (percent * 255 / 100).
Proof.
  intros H. set (P := λ p : Z, bool_decide (cutoff_of p = Some (p * 255 / 100))).
  assert (forallb P (seqZ 0 101) = true) as HP by (vm_compute; reflexivity).
  exact (bool_decide_eq_true_1 _ (rates_all P HP percent H)).
Qed.

Lemma dropped_count percent : 0 ≤ percent ≤ 100 →
  length (filter (λ d, dropped percent d = true) (seqZ 0 256)) =
  if percent =? 0 then 0%nat else Z.to_nat (percent * 255 / 100 + 1).
Proof.
  intros H. set (P := λ p : Z, bool_decide (length (filter (λ d, dropped p d = true) (seqZ 0 256)) =
    if p =? 0 then 0%nat else Z.to_nat (p * 255 / 100 + 1))).
  assert (forallb P (seqZ 0 101) = true) as HP by (vm_compute; reflexivity).
  exact (bool_decide_eq_true_1 _ (rates_all P HP percent H)).
Qed.

Lemma sendto_dbg_spec {A} (rand : nat → Z) (buf : list Z) len (dst : A) n :
  0 ≤ len ≤ Z.of_nat (length buf) →
  ∃ n', sendto_dbg rand buf len dst n = Ret len n' ∧ cutoff n' = cutoff n ∧ rand_calls n' = S (rand_calls n) ∧
    wire n' = if (0 <? cutoff n) && (Z.land (rand (rand_calls n)) 255 <=? cutoff n)
      then wire n else wire n ++ [(dst, take (Z.to_nat len) buf)].
Proof.
  intros Hlen.
  unfold sendto_dbg. run (eq_refl (modify _ n)). run (eq_refl (get _)). run (eq_refl (modify _ _)).
  cbn [cutoff rand_calls wire first_time]. rewrite Z.gtb_ltb.
  destruct ((0 <? cutoff n) && (Z.land (rand (rand_calls n)) 255 <=? cutoff n)).
  - eexists. split_and!; reflexivity.
  - rewrite (proj2 (Z.leb_le 0 len)), (proj2 (Z.leb_le len _)) by lia. eexists. split_and!; reflexivity.
Qed.

(** After [sendto_dbg_init percent] the threshold is [percent * 255 / 100]
    exactly (no rounding error of the [double] computation shows), and
    [sendto_dbg] reports success and hands the datagram to the network, or drops
    it when the low byte of [rand] is at most the threshold.  So a rate of 0
    drops nothing, a rate of 100 drops everything, and any other rate drops
    [percent * 255 / 100 + 1] of the 256 values. *)
Theorem sendto_dbg_loss {A} (rand : nat → Z) percent (buf : list Z) len (dst : A) n :
  0 ≤ percent ≤ 100 → 0 ≤ len ≤ Z.of_nat (length buf) →
  ∃ n1 n2,
    sendto_dbg_init percent n = Ret tt n1 ∧ cutoff n1 = percent * 255 / 100 ∧
    sendto_dbg rand buf len dst n1 = Ret len n2 ∧
    wire n2 = (if dropped percent (Z.land (rand (rand_calls n)) 255)
      then wire n else wire n ++ [(dst, take (Z.to_nat len) buf)]) ∧
    length (filter (λ d, dropped percent d = true) (seqZ 0 256)) =
      (if percent =? 0 then 0%nat else Z.to_nat (percent * 255 / 100 + 1)).
Proof.
  intros Hp Hlen. set (n1 := mk_net (first_time n) (percent * 255 / 100) (rand_calls n) (wire n)).
  destruct (sendto_dbg_spec rand buf len dst n1 Hlen) as (n2 & E & _ & _ & Ew).
  exists n1, n2. split_and!; [|done|exact E| |by apply dropped_count].
  - unfold sendto_dbg_init. by run (lift_Some _ _ n (cutoff_of_percent _ Hp)).
  - rewrite Ew. cbn [n1 cutoff rand_calls wire].
    assert ((0 <? percent * 255 / 100) = (0 <? percent)) as ->; [|done].
    destruct (Z.ltb_spec 0 percent); [apply Z.ltb_lt|apply Z.ltb_ge];
      Z.to_euclidean_division_equations; lia.
Qed.

Lemma sendto_dbg_loss_witness :
  ∃ n1 n2 : net unit,
    sendto_dbg_init 29 (mk_net true 64 0 []) = Ret tt n1 ∧ cutoff n1 = 73 ∧
    sendto_dbg (λ _, 329) [1; 2; 3] 2 tt n1 = Ret 2 n2 ∧ wire n2 = [] ∧
    length (filter (λ d, dropped 29 d = true) (seqZ 0 256)) = 74%nat.
Proof.
  exact (sendto_dbg_loss (λ _, 329) 29 [1; 2; 3] 2 tt (mk_net true 64 0 [])
    ltac:(lia) ltac:(simpl; lia)).
Defined.
