(* ===== verification/Rcv.v ===== *)
(** * The file receiver

    CS2520/project1/rcv.c: one connection is served at a time, the others wait
    in a queue; data packets are written in order, those ahead of the window are
    buffered and the missing intervals reported.  [select] is the environment: it
    delivers a datagram, times out, or is interrupted by the alarm that closes a
    connection.  Times are pairs of seconds and microseconds; the comparisons of
    [double]s are made on microseconds, which orders the values the same way.
    Output on the terminal is left out. *)
From S2P Require Import Prelude Stdio Bytes Clock GapList Upkt RcvBuffer SendtoDbg.
Open Scope Z_scope.

(** ** Data *)

Inductive conn_state := SLEEPING | ACTIVE | CLOSING.
#[export] Instance conn_state_eq_dec : EqDecision conn_state.
Proof. solve_decision. Defined.

(** [struct conn]: the strings its arrays hold. *)
Record conn := mk_conn {
  conn_st : conn_state;
  curr_seq : Z;
  ip : list Z;
  port : list Z;
  filename : list Z
}.
Definition set_state (st : conn_state) (c : conn) : conn := mk_conn st (curr_seq c) (ip c) (port c) (filename c).

(** [d.tv_sec + d.tv_usec / 1000000.0 >= s + u / 1000000.0] *)
Definition at_least (d : timeval) (s u : Z) : bool := (s * 1000000 + u <=? d.1 * 1000000 + d.2).

(** The adjustable parameters. *)
Record params := mk_params { WINDOW_SIZE : Z; MESSAGE_TIMEOUT_S : Z; MESSAGE_TIMEOUT_US : Z }.

(** The file transfer and statistic variables of the current connection. *)
Record transfer := mk_transfer {
  start_of_window : Z;
  written_since_last_message : Z;
  greatest_recvd_seq : Z;
  last_sent_time : timeval;
  bytes_since_last_output : Z;
  bytes_successfully_received : Z;
  start_of_transfer : timeval;
  end_of_transfer : timeval;
  time_of_last_output : timeval
}.

Record rcv (A : Type) := mk_rcv {
  cfg : params;
  conn_queue : list conn;
  curr_conn : option conn;
  tr : transfer;
  list_ : ptr;
  buf_ : ptr;
  gh : gheap;
  bh : bheap;
  fp : option (list Z);
  files : gmap (list Z) (list Z);
  alarm_set : bool;
  pkt_mem : list Z;
  net_ : net A;
  clocks : nat;
  opens : nat;
  mallocs : nat
}.
Arguments mk_rcv {A}. Arguments cfg {A}. Arguments conn_queue {A}. Arguments curr_conn {A}.
Arguments tr {A}. Arguments list_ {A}. Arguments buf_ {A}. Arguments gh {A}. Arguments bh {A}.
Arguments fp {A}. Arguments files {A}. Arguments alarm_set {A}. Arguments pkt_mem {A}.
Arguments net_ {A}. Arguments clocks {A}. Arguments opens {A}. Arguments mallocs {A}.

(** ** Assignments *)

Definition with_sow (z : Z) (t : transfer) : transfer :=
  mk_transfer z (written_since_last_message t) (greatest_recvd_seq t) (last_sent_time t)
    (bytes_since_last_output t) (bytes_successfully_received t) (start_of_transfer t) (end_of_transfer t)
    (time_of_last_output t).
Definition with_written (z : Z) (t : transfer) : transfer :=
  mk_transfer (start_of_window t) z (greatest_recvd_seq t) (last_sent_time t)
    (bytes_since_last_output t) (bytes_successfully_received t) (start_of_transfer t) (end_of_transfer t)
    (time_of_last_output t).
Definition with_greatest (z : Z) (t : transfer) : transfer :=
  mk_transfer (start_of_window t) (written_since_last_message t) z (last_sent_time t)
    (bytes_since_last_output t) (bytes_successfully_received t) (start_of_transfer t) (end_of_transfer t)
    (time_of_last_output t).
Definition with_last_sent (v : timeval) (t : transfer) : transfer :=
  mk_transfer (start_of_window t) (written_since_last_message t) (greatest_recvd_seq t) v
    (bytes_since_last_output t) (bytes_successfully_received t) (start_of_transfer t) (end_of_transfer t)
    (time_of_last_output t).
Definition with_since (z : Z) (t : transfer) : transfer :=
  mk_transfer (start_of_window t) (written_since_last_message t) (greatest_recvd_seq t) (last_sent_time t)
    z (bytes_successfully_received t) (start_of_transfer t) (end_of_transfer t) (time_of_last_output t).
Definition with_received (z : Z) (t : transfer) : transfer :=
  mk_transfer (start_of_window t) (written_since_last_message t) (greatest_recvd_seq t) (last_sent_time t)
    (bytes_since_last_output t) z (start_of_transfer t) (end_of_transfer t) (time_of_last_output t).
Definition with_start (v : timeval) (t : transfer) : transfer :=
  mk_transfer (start_of_window t) (written_since_last_message t) (greatest_recvd_seq t) (last_sent_time t)
    (bytes_since_last_output t) (bytes_successfully_received t) v (end_of_transfer t) (time_of_last_output t).
Definition with_end (v : timeval) (t : transfer) : transfer :=
  mk_transfer (start_of_window t) (written_since_last_message t) (greatest_recvd_seq t) (last_sent_time t)
    (bytes_since_last_output t) (bytes_successfully_received t) (start_of_transfer t) v (time_of_last_output t).
Definition with_output (v : timeval) (t : transfer) : transfer :=
  mk_transfer (start_of_window t) (written_since_last_message t) (greatest_recvd_seq t) (last_sent_time t)
    (bytes_since_last_output t) (bytes_successfully_received t) (start_of_transfer t) (end_of_transfer t) v.

Section rcv.
Context {A : Type}.
Abbreviation st := (rcv A).
Implicit Types (s : st).

Definition put_cfg (c : params) (s : st) : st :=
  mk_rcv c (conn_queue s) (curr_conn s) (tr s) (list_ s) (buf_ s) (gh s) (bh s) (fp s) (files s)
    (alarm_set s) (pkt_mem s) (net_ s) (clocks s) (opens s) (mallocs s).
Definition put_queue (q : list conn) (s : st) : st :=
  mk_rcv (cfg s) q (curr_conn s) (tr s) (list_ s) (buf_ s) (gh s) (bh s) (fp s) (files s)
    (alarm_set s) (pkt_mem s) (net_ s) (clocks s) (opens s) (mallocs s).
Definition put_conn (c : option conn) (s : st) : st :=
  mk_rcv (cfg s) (conn_queue s) c (tr s) (list_ s) (buf_ s) (gh s) (bh s) (fp s) (files s)
    (alarm_set s) (pkt_mem s) (net_ s) (clocks s) (opens s) (mallocs s).
Definition put_tr (f : transfer → transfer) (s : st) : st :=
  mk_rcv (cfg s) (conn_queue s) (curr_conn s) (f (tr s)) (list_ s) (buf_ s) (gh s) (bh s) (fp s) (files s)
    (alarm_set s) (pkt_mem s) (net_ s) (clocks s) (opens s) (mallocs s).
Definition put_list_ (p : ptr) (s : st) : st :=
  mk_rcv (cfg s) (conn_queue s) (curr_conn s) (tr s) p (buf_ s) (gh s) (bh s) (fp s) (files s)
    (alarm_set s) (pkt_mem s) (net_ s) (clocks s) (opens s) (mallocs s).
Definition put_buf_ (p : ptr) (s : st) : st :=
  mk_rcv (cfg s) (conn_queue s) (curr_conn s) (tr s) (list_ s) p (gh s) (bh s) (fp s) (files s)
    (alarm_set s) (pkt_mem s) (net_ s) (clocks s) (opens s) (mallocs s).
Definition put_gh (h : gheap) (s : st) : st :=
  mk_rcv (cfg s) (conn_queue s) (curr_conn s) (tr s) (list_ s) (buf_ s) h (bh s) (fp s) (files s)
    (alarm_set s) (pkt_mem s) (net_ s) (clocks s) (opens s) (mallocs s).
Definition put_bh (h : bheap) (s : st) : st :=
  mk_rcv (cfg s) (conn_queue s) (curr_conn s) (tr s) (list_ s) (buf_ s) (gh s) h (fp s) (files s)
    (alarm_set s) (pkt_mem s) (net_ s) (clocks s) (opens s) (mallocs s).
Definition put_file (f : option (list Z)) (fs : gmap (list Z) (list Z)) (s : st) : st :=
  mk_rcv (cfg s) (conn_queue s) (curr_conn s) (tr s) (list_ s) (buf_ s) (gh s) (bh s) f fs
    (alarm_set s) (pkt_mem s) (net_ s) (clocks s) (opens s) (mallocs s).
Definition put_alarm (b : bool) (s : st) : st :=
  mk_rcv (cfg s) (conn_queue s) (curr_conn s) (tr s) (list_ s) (buf_ s) (gh s) (bh s) (fp s) (files s)
    b (pkt_mem s) (net_ s) (clocks s) (opens s) (mallocs s).
Definition put_mem (m : list Z) (s : st) : st :=
  mk_rcv (cfg s) (conn_queue s) (curr_conn s) (tr s) (list_ s) (buf_ s) (gh s) (bh s) (fp s) (files s)
    (alarm_set s) m (net_ s) (clocks s) (opens s) (mallocs s).
Definition put_net (n : net A) (s : st) : st :=
  mk_rcv (cfg s) (conn_queue s) (curr_conn s) (tr s) (list_ s) (buf_ s) (gh s) (bh s) (fp s) (files s)
    (alarm_set s) (pkt_mem s) n (clocks s) (opens s) (mallocs s).
Definition put_counts (c o m : nat) (s : st) : st :=
  mk_rcv (cfg s) (conn_queue s) (curr_conn s) (tr s) (list_ s) (buf_ s) (gh s) (bh s) (fp s) (files s)
    (alarm_set s) (pkt_mem s) (net_ s) c o m.
End rcv.

(** ** Operations *)

Section ops.
Context {A : Type}.
Abbreviation st := (rcv A).

(** The library: names and addresses, the clock, [rand], and which calls of
    [fopen] and [malloc] succeed; the blocks of [malloc] hold junk. *)
Context (getnameinfo : A → option (list Z * list Z)) (getaddrinfo : list Z → list Z → option A).
Context (clock : nat → timeval) (rand : nat → Z) (fopen_ok : nat → bool).
Context (malloc_gaps malloc_bufs malloc_conn : nat → bool).
Context (junk_node : node) (junk_gap : gap) (junk_bnode : buffer_node) (pad : list Z).

Definition gaps_do {B} (m : prog gheap B) : prog st B := zoom gh put_gh m.
Definition bufs_do {B} (m : prog bheap B) : prog st B := zoom bh put_bh m.

Definition gettimeofday : prog st timeval := λ s,
  Ret (clock (clocks s)) (put_counts (S (clocks s)) (opens s) (mallocs s) s).

(** [fopen(name, "w+")] empties the file; [fputs] appends to the open one. *)
Definition fopen (name : list Z) : prog st unit := λ s,
  let s' := put_counts (clocks s) (S (opens s)) (mallocs s) s in
  if fopen_ok (opens s) then Ret tt (put_file (Some name) (<[name := []]> (files s)) s')
  else Ret tt (put_file None (files s) s').
Definition fputs (buf : list Z) : prog st unit :=
  updates (λ s, name ← fp s; text ← c_string buf; old ← files s !! name;
    Some (put_file (fp s) (<[name := old ++ text]> (files s)) s)).
Definition fclose : prog st unit := modify (λ s, put_file None (files s) s).

Definition set_tr (f : transfer → transfer) : prog st unit := modify (put_tr f).


Definition send (buf : list Z) (len : Z) (dst : A) : prog st unit :=
  zoom net_ put_net (sendto_dbg rand buf len dst);; mret tt.
(** A control packet: the header only. *)
Definition send_upkt (p : upkt) (dst : A) : prog st unit :=
  send (upkt_bytes p) (sizeof_upkt - MAX_MESS_LEN) dst.
Definition new_pkt : prog st upkt := now ← gettimeofday; mret (create_pkt now.1 now.2).

(** [prepare_message] *)
Definition prepare_message : prog st rcv_msg :=
  s ← get;
  a ← lift (int_incr (start_of_window (tr s)));
  l ← lift (list_ s);
  g ← gaps_do (get_list l);
  gs ← gaps_do (walk (Z.to_nat MAX_GAPS) (head g));
  mret (mk_rcv_msg a (size g) (gs ++ replicate (Z.to_nat MAX_GAPS - length gs) (mk_gap 0 0))).

(** Report to [dst]: [prepare_message], the time, [sendto_dbg], the counter. *)
Definition send_message (dst : A) : prog st unit :=
  msg ← prepare_message;
  now ← gettimeofday; set_tr (with_last_sent now);;
  send (rcv_msg_bytes pad msg) (sizeof_rcv_msg - (MAX_GAPS - num_gaps msg) * 8) dst;;
  set_tr (with_written 0).

(** ** [handle_init_pkt] *)

Definition malloc_conn_ : prog st unit := λ s,
  if malloc_conn (mallocs s) then Ret tt (put_counts (clocks s) (opens s) (S (mallocs s)) s) else Undef.

(** [strcpy] into [filename], an array of [MAX_FILENAME] bytes. *)
Definition strcpy_filename (buf : list Z) : option (list Z) :=
  name ← c_string buf; if Z.of_nat (length name) <? MAX_FILENAME then Some name else None.

Definition is_client (c : conn) (ip_buf port_buf : list Z) : bool :=
  bool_decide (ip c = ip_buf) && bool_decide (port c = port_buf).

(** Resetting the transfer related globals, and the statistics. *)
Definition reset_transfer : prog st unit :=
  set_tr (with_sow (-1));; set_tr (with_written 0);;
  modify (λ s, put_file None (files s) s);;
  now ← gettimeofday; set_tr (with_last_sent now);;
  set_tr (with_greatest (-1)).
Definition reset_statistics : prog st unit :=
  now ← gettimeofday; set_tr (with_start now);;
  set_tr (with_since 0);; set_tr (with_received 0).
Definition new_lists : prog st unit :=
  l ← gaps_do (new_list malloc_gaps); modify (put_list_ (Some l));;
  b ← bufs_do (new_buffer malloc_bufs); modify (put_buf_ (Some b)).

Definition handle_init_pkt (init_pkt : upkt) (from : A) : prog st unit :=
  match getnameinfo from with
  | None => mret tt
  | Some (ip_buf, port_buf) =>
      s ← get;
      match curr_conn s with
      | None =>
          malloc_conn_;;
          name ← lift (strcpy_filename (payload init_pkt));
          modify (put_conn (Some (mk_conn ACTIVE 0 ip_buf port_buf name)));;
          reset_transfer;; reset_statistics;;
          s ← get;
          gaps_do (free_list (list_ s));;
          l ← gaps_do (new_list malloc_gaps); modify (put_list_ (Some l));;
          s ← get;
          bufs_do (free_buffer (buf_ s));;
          b ← bufs_do (new_buffer malloc_bufs); modify (put_buf_ (Some b));;
          init_response ← new_pkt;
          send_upkt (set_init init_response) from
      | Some c =>
          if is_client c ip_buf port_buf
          then init_response ← new_pkt; send_upkt (set_init init_response) from
          else if existsb (λ c, is_client c ip_buf port_buf) (conn_queue s)
          then sleep_pkt ← new_pkt; send_upkt (set_sleep sleep_pkt) from
          else
            malloc_conn_;;
            name ← lift (strcpy_filename (payload init_pkt));
            modify (put_queue (conn_queue s ++ [mk_conn SLEEPING 0 ip_buf port_buf name]));;
            sleep_pkt ← new_pkt; send_upkt (set_sleep sleep_pkt) from
      end
  end.

(** ** [handle_fin_pkt] and [close_conn] *)

Definition handle_fin_pkt (from : A) : prog st unit :=
  now ← gettimeofday; set_tr (with_end now);;
  s ← get;
  (match fp s with Some _ => fclose | None => mret tt end);;
  match getnameinfo from with
  | None => mret tt
  | Some (ip_buf, port_buf) =>
      s ← get;
      match curr_conn s with
      | None => mret tt
      | Some c =>
          if is_client c ip_buf port_buf
          then
            modify (put_conn (Some (set_state CLOSING c)));;
            fin_pkt ← new_pkt; send_upkt (set_fin fin_pkt) from;;
            modify (put_alarm true)
          else mret tt
      end
  end.

Definition close_conn : prog st unit :=
  s ← get;
  r ← lift (int_add (bytes_successfully_received (tr s)) (bytes_since_last_output (tr s)));
  set_tr (with_received r);; set_tr (with_since 0);;
  _ ← lift (curr_conn s);
  gaps_do (free_list (list_ s));;
  bufs_do (free_buffer (buf_ s));;
  match conn_queue s with
  | next_conn :: rest =>
      modify (put_queue rest);; modify (put_conn (Some next_conn));;
      reset_transfer;; new_lists;; reset_statistics
  | [] => modify (put_conn None);; modify (put_list_ None);; modify (put_buf_ None)
  end.

(** ** Data packets *)

(** A string written in order, with its statistics. *)
Definition write_chunk (seqno : Z) (buf : list Z) (add : Z → option Z) : prog st unit :=
  set_tr (with_sow seqno);;
  fputs buf;;
  s ← get; n ← lift (add (bytes_since_last_output (tr s))); set_tr (with_since n);;
  s ← get; w ← lift (int_incr (written_since_last_message (tr s))); set_tr (with_written w).

(** The loop that writes what the buffer holds next. *)
Fixpoint drain (fuel : nat) (b : loc) : prog st unit :=
  match fuel with
  | O => λ _, Fuel
  | S fuel' =>
      r ← bufs_do (get_buffer b);
      if is_null (b_head r) then mret tt
      else
        n ← bufs_do (get_bnode (b_head r));
        s ← get; next ← lift (int_incr (start_of_window (tr s)));
        if b_seq n =? next
        then
          write_chunk (b_seq n) (b_payload n) (λ z, int_add z (b_payload_len n));;
          bufs_do (free_head b);;
          drain fuel' b
        else mret tt
  end.

Definition NUM_BYTES_TO_PRINT_STATS : Z := 10000000.
(** The periodic statistics, without the printing. *)
Definition statistics : prog st unit :=
  s ← get;
  if bytes_since_last_output (tr s) >=? NUM_BYTES_TO_PRINT_STATS
  then
    _ ← gettimeofday;
    r ← lift (int_add (bytes_successfully_received (tr s)) (bytes_since_last_output (tr s)));
    set_tr (with_received r);;
    now ← gettimeofday; set_tr (with_output now);;
    set_tr (with_since 0)
  else mret tt.

(** The packet that directly follows the window. *)
Definition in_order (pkt : upkt) : prog st unit :=
  write_chunk (seq pkt) (payload pkt) (λ z, Some (i32 (u32 (z + payload_len pkt))));;
  s ← get; l ← lift (list_ s);
  gaps_do (split_gap malloc_gaps junk_node junk_gap l (seq pkt));;
  b ← lift (buf_ s);
  drain (buffer_fuel (bh s)) b;;
  statistics.

(** A packet ahead of the window. *)
Definition out_of_order (pkt : upkt) (from : A) : prog st unit :=
  s ← get;
  bufs_do (buffer_insert malloc_bufs junk_bnode (buf_ s) pkt);;
  l ← lift (list_ s);
  filled ← gaps_do (split_gap malloc_gaps junk_node junk_gap l (seq pkt));
  if filled : bool then mret tt
  else
    next ← lift (int_incr (greatest_recvd_seq (tr s)));
    if seq pkt >? next
    then
      gaps_do (GapList.insert malloc_gaps junk_node junk_gap (Some l) (mk_gap next (seq pkt)));;
      send_message from
    else mret tt.

(** Waking a sleeping connection, and creating its file. *)
Definition begin_transfer : prog st unit :=
  s ← get;
  match curr_conn s with
  | Some c =>
      (if bool_decide (conn_st c = SLEEPING)
       then now ← gettimeofday; set_tr (with_start now);; set_tr (with_since 0);; set_tr (with_received 0);;
            modify (put_conn (Some (set_state ACTIVE c)))
       else mret tt);;
      match fp s with None => fopen (filename c) | Some _ => mret tt end
  | None => mret tt
  end.

Definition accept_data (pkt : upkt) (from : A) : prog st unit :=
  s ← get;
  let sow := start_of_window (tr s) in
  (if seq pkt <=? sow then mret tt
   else
     next ← lift (int_incr sow);
     if next =? seq pkt then in_order pkt else out_of_order pkt from);;
  s ← get;
  (if seq pkt >? greatest_recvd_seq (tr s) then set_tr (with_greatest (seq pkt)) else mret tt);;
  now ← gettimeofday; s ← get;
  let diff_time := timersub now (last_sent_time (tr s)) in
  if (written_since_last_message (tr s) >=? WINDOW_SIZE (cfg s) ÷ 2) ||
     at_least diff_time (MESSAGE_TIMEOUT_S (cfg s)) (MESSAGE_TIMEOUT_US (cfg s))
  then send_message from else mret tt.

Definition handle_data (pkt : upkt) (from : A) : prog st unit :=
  begin_transfer;; accept_data pkt from.

(** ** The control loop *)

(** [select] did not report a packet: a timeout, or an interrupted call. *)
Definition handle_timeout : prog st unit :=
  s ← get;
  match curr_conn s with
  | Some c =>
      match conn_st c with
      | SLEEPING =>
          match getaddrinfo (ip c) (port c) with
          | None => exit_with 1
          | Some addr => wakeup_pkt ← new_pkt; send_upkt (set_init wakeup_pkt) addr
          end
      | ACTIVE =>
          match getaddrinfo (ip c) (port c) with
          | None => undef
          | Some addr => send_message addr
          end
      | CLOSING => mret tt
      end
  | None => mret tt
  end.

Inductive event := EvPacket (from : A) (dgram : list Z) | EvTimeout | EvAlarm.

Definition handle_packet (pkt : upkt) (from : A) : prog st unit :=
  if init pkt then handle_init_pkt pkt from
  else if fin pkt then handle_fin_pkt from
  else handle_data pkt from.

(** One turn of the loop.  The alarm interrupts [select], which then reports no
    packet. *)
Definition turn (e : event) : prog st unit :=
  match e with
  | EvPacket from dgram =>
      s ← get; modify (put_mem (recv_into sizeof_upkt (pkt_mem s) dgram));;
      pkt ← reads (λ s, read_upkt (pkt_mem s));
      handle_packet pkt from
  | EvTimeout => handle_timeout
  | EvAlarm =>
      s ← get;
      if alarm_set s then modify (put_alarm false);; close_conn;; handle_timeout else mret tt
  end.

(** ** [main] *)

(** [Usage]: the loss rate, the port and the environment; [Print_help] exits with 0. *)
Definition WAN : list Z := [87; 65; 78].
Definition LAN : list Z := [76; 65; 78].
Definition WAN_EC : list Z := [87; 65; 78; 45; 69; 67].
Definition Usage (argv : list (list Z)) : prog st (Z * list Z) :=
  match argv with
  | [_; rate; port_str; env] =>
      let loss_rate := atoi rate in
      if (loss_rate <? 0) || (loss_rate >? 100) then exit_with 0
      else if bool_decide (env = WAN) then modify (put_cfg (mk_params 45 0 85000));; mret (loss_rate, port_str)
      else if bool_decide (env = LAN) then modify (put_cfg (mk_params 45 0 125000));; mret (loss_rate, port_str)
      else if bool_decide (env = WAN_EC) then modify (put_cfg (mk_params 55 0 50000));; mret (loss_rate, port_str)
      else exit_with 0
  | _ => exit_with 0
  end.

(** The addresses to listen on, each with whether [socket] and [bind] succeed. *)
Fixpoint open_socket (addrs : list (bool * bool)) : prog st unit :=
  match addrs with
  | [] => exit_with 1
  | (socket_ok, bind_ok) :: addrs' =>
      if negb socket_ok then open_socket addrs'
      else if negb bind_ok then open_socket addrs'
      else mret tt
  end.

(** Up to the control loop; [passive] is the answer of [getaddrinfo] for the
    port. *)
Definition start_up (argv : list (list Z)) (passive : list Z → option (list (bool * bool))) : prog st unit :=
  '(loss_rate, port_str) ← Usage argv;
  zoom net_ put_net (sendto_dbg_init loss_rate);;
  match passive port_str with
  | None => exit_with 1
  | Some addrs =>
      open_socket addrs;;
      set_tr (with_sow (-1));; set_tr (with_written 0);; set_tr (with_greatest (-1));;
      modify (λ s, put_file None (files s) s);;
      now ← gettimeofday; set_tr (with_last_sent now);;
      new_lists;;
      modify (put_queue []);; modify (put_conn None)
  end.

Definition main (argv : list (list Z)) (passive : list Z → option (list (bool * bool))) (evs : list event) : prog st unit :=
  start_up argv passive;; for_each evs turn.
End ops.
Arguments event : clear implicits.
