(* ===== verification/RcvSpec.v ===== *)
(** * Correctness of the file receiver

    What rcv.c makes of the datagrams of one transfer, in whatever order and
    number they arrive: the file holds the packets up to the first one that is
    missing, the buffer those beyond it, the gap list exactly the missing
    numbers, and every report tells the truth. *)
From S2P Require Import Prelude Stdio Bytes Clock GapList Upkt RcvBuffer SendtoDbg Rcv.
Open Scope Z_scope.

(** ** Datagrams of a transfer *)

(** The strings that the packets carry, in order: no null bytes, and room for
    the terminator. *)
Definition chunk_ok (c : list Z) : Prop := 0 ∉ c ∧ (length c ≤ 1399)%nat.

(** The packet of the chunk [c], at some time, and the datagram of it that the
    sender hands to the network. *)
Definition data_pkt (sec usec i : Z) (c : list Z) : upkt :=
  mk_upkt false false false false sec usec i (Z.of_nat (length c)) (c ++ replicate (1400 - length c) 0).
Definition data_dgram (sec usec i : Z) (c : list Z) : list Z :=
  take (31 + length c) (upkt_bytes (data_pkt sec usec i c)).
Definition time_ok (sec usec : Z) : Prop :=
  -9223372036854775808 ≤ sec < 9223372036854775808 ∧ is_i32 usec.
Definition is_data (chunks : list (list Z)) (i : Z) (dgram : list Z) : Prop :=
  ∃ sec usec c, 0 ≤ i ∧ chunks !! Z.to_nat i = Some c ∧ time_ok sec usec ∧ dgram = data_dgram sec usec i c.

(** A connection request for the file [name]. *)
Definition init_pkt (sec usec : Z) (name : list Z) : upkt :=
  mk_upkt false true false false sec usec 0 (Z.of_nat (length name)) (name ++ replicate (1400 - length name) 0).
Definition name_ok (name : list Z) : Prop := 0 ∉ name ∧ Z.of_nat (length name) < MAX_FILENAME.
Definition is_init (name : list Z) (dgram : list Z) : Prop :=
  ∃ sec usec, name_ok name ∧ time_ok sec usec ∧ dgram = take (32 + length name) (upkt_bytes (init_pkt sec usec name)).

(** What is read of them, whatever the variable held before. *)
Lemma recv_text p t k old :
  upkt_ok p → length old = 1432%nat → 0 ∉ t → (length t ≤ 1399)%nat →
  payload p = t ++ replicate (1400 - length t) 0 → (29 + length t ≤ k ≤ 1432)%nat →
  length (recv_into sizeof_upkt old (take k (upkt_bytes p))) = 1432%nat ∧
  ∃ rest, read_upkt (recv_into sizeof_upkt old (take k (upkt_bytes p))) =
      Some (with_upkt_payload p (t ++ 0 :: rest)) ∧ length (t ++ 0 :: rest) = 1400%nat.
Proof.
  intros Hok Ho Ht Hlen Hp Hk. destruct (recv_upkt p k old Hok Ho) as [Hl (rest & Hr & Hlr)]; [lia|].
  split; [done|]. replace (1400 - length t)%nat with (S (1399 - length t)) in Hp by lia.
  replace (k - 28)%nat with (length t + S (k - 29 - length t))%nat in Hr, Hlr by lia.
  rewrite Hp, take_app_add in Hr, Hlr. cbn [replicate] in Hr, Hlr. rewrite firstn_cons in Hr, Hlr.
  rewrite <-app_assoc in Hr, Hlr. by eexists.
Qed.

Lemma recv_data chunks i dgram old :
  Forall chunk_ok chunks → Z.of_nat (length chunks) < 2147483648 →
  is_data chunks i dgram → length old = 1432%nat →
  ∃ c p rest, chunks !! Z.to_nat i = Some c ∧ 0 ≤ i < Z.of_nat (length chunks) ∧ chunk_ok c ∧
    length (recv_into sizeof_upkt old dgram) = 1432%nat ∧
    read_upkt (recv_into sizeof_upkt old dgram) = Some p ∧
    init p = false ∧ fin p = false ∧ seq p = i ∧ payload_len p = Z.of_nat (length c) ∧
    payload p = c ++ 0 :: rest ∧ length (payload p) = 1400%nat.
Proof.
  intros Hch HN (sec & usec & c & Hi & Hc & [Hs Hu] & ->) Ho.
  pose proof (Forall_lookup_1 _ _ _ _ Hch Hc) as Hok. pose proof Hok as [Hc0 Hlen].
  apply lookup_lt_Some in Hc as Hlt.
  destruct (recv_text (data_pkt sec usec i c) c (31 + length c) old) as [Hl (rest & Hr & Hlr)]; try done; [|lia|].
  { refine (conj Hs (conj Hu (conj _ (conj _ _)))); simpl; unfold is_i32, is_u32; [lia..|].
    rewrite length_app, length_replicate. lia. }
  exists c, (with_upkt_payload (data_pkt sec usec i c) (c ++ 0 :: rest)), rest.
  split_and!; try done; lia.
Qed.

Lemma recv_init name dgram old : is_init name dgram → length old = 1432%nat →
  ∃ p rest, length (recv_into sizeof_upkt old dgram) = 1432%nat ∧
    read_upkt (recv_into sizeof_upkt old dgram) = Some p ∧ init p = true ∧ payload p = name ++ 0 :: rest.
Proof.
  intros (sec & usec & [H0 Hlen] & [Hs Hu] & ->) Ho. unfold MAX_FILENAME in Hlen.
  destruct (recv_text (init_pkt sec usec name) name (32 + length name) old) as [Hl (rest & Hr & Hlr)]; try done; [|lia..|].
  { refine (conj Hs (conj Hu (conj _ (conj _ _)))); simpl; unfold is_i32, is_u32; [lia..|].
    rewrite length_app, length_replicate. lia. }
  exists (with_upkt_payload (init_pkt sec usec name) (name ++ 0 :: rest)), rest. by split_and!.
Qed.

Lemma strcpy_filename_ok name rest : name_ok name → strcpy_filename (name ++ 0 :: rest) = Some name.
Proof.
  intros [H0 Hl]. unfold strcpy_filename. rewrite c_string_app by done. cbn [mbind option_bind].
  by rewrite (proj2 (Z.ltb_lt _ _)).
Qed.

(** The first packet that has not been received. *)
Definition first_missing (D : gset Z) (k : Z) : Prop := 0 ≤ k ∧ (∀ i, 0 ≤ i < k → i ∈ D) ∧ k ∉ D.

(** The traffic of a transfer, starting when the packets [D] have arrived: data
    packets that lie in a window of [MAX_GAPS] packets from the first missing
    one, connection requests (of anyone), timeouts and spurious alarms, in any
    order and number. *)
Inductive traffic {A} (chunks : list (list Z)) : gset Z → list (event A) → gset Z → Prop :=
| traffic_nil D : traffic chunks D [] D
| traffic_data D i from dgram evs D' :
    is_data chunks i dgram → (∀ k, first_missing D k → i < k + MAX_GAPS) →
    traffic chunks (D ∪ {[i]}) evs D' → traffic chunks D (EvPacket from dgram :: evs) D'
| traffic_init D name from dgram evs D' :
    is_init name dgram → traffic chunks D evs D' → traffic chunks D (EvPacket from dgram :: evs) D'
| traffic_timeout D evs D' : traffic chunks D evs D' → traffic chunks D (EvTimeout :: evs) D'
| traffic_alarm D evs D' : traffic chunks D evs D' → traffic chunks D (EvAlarm :: evs) D'.

(** A datagram that does not acknowledge more than what has arrived, and reports
    gaps only before something that has arrived. *)
Definition sound_gap (D : gset Z) (g : gap) : Prop := 0 ≤ start g ∧ ∃ i, i ∈ D ∧ end_ g ≤ i.
Definition sound (D : gset Z) (bytes : list Z) : Prop :=
  get_bool bytes 0 = Some true →
  ∃ a n, get_aru bytes = Some a ∧ 0 ≤ a ∧ (∀ i, 0 ≤ i < a → i ∈ D) ∧
    get_num_gaps bytes = Some n ∧ n ≤ MAX_GAPS ∧
    ∀ j, 0 ≤ j < n → ∃ g, get_gap_at bytes j = Some g ∧ sound_gap D g.

Lemma sound_mono D D' bytes : D ⊆ D' → sound D bytes → sound D' bytes.
Proof.
  intros HD H Hb. destruct (H Hb) as (a & n & Ha & Ha0 & Hi & Hn & Hm & Hg). exists a, n. split_and!; try done; [set_solver|].
  intros j Hj. destruct (Hg j Hj) as (g & Eg & Hs & i & HiD & He). exists g. split; [done|]. split; [done|]. exists i. set_solver.
Qed.

Lemma sound_upkt D p k : is_rcv_msg p = false → sound D (take k (upkt_bytes p)).
Proof.
  intros Hp Hb. exfalso. unfold get_bool, aget in Hb. change (0 <? 0) with false in Hb. cbv iota in Hb.
  destruct k; [done|]. unfold upkt_bytes, upkt_hdr_bytes in Hb. simpl in Hb. by rewrite Hp in Hb.
Qed.

(** ** Reports *)

Lemma holds_take buf n bs : holds buf 0 bs → (length bs ≤ n)%nat → holds (take n buf) 0 bs.
Proof.
  intros H Hn i Hi. rewrite <-H by done. unfold aget. destruct (Z.ltb_spec (0 + Z.of_nat i) 0); [done|].
  apply lookup_take_lt. lia.
Qed.

Lemma length_gaps_bytes gs : length (concat (gap_bytes <$> gs)) = (8 * length gs)%nat.
Proof. induction gs as [|g gs IH]; [done|]. rewrite fmap_cons. cbn [concat]. rewrite length_app, IH. simpl. lia. Qed.

Lemma holds_gaps buf off gs i g :
  holds buf off (concat (gap_bytes <$> gs)) → gs !! i = Some g →
  holds buf (off + 8 * Z.of_nat i) (gap_bytes g).
Proof.
  revert off i. induction gs as [|y gs IH]; intros off [|i] H Hg; simplify_eq/=.
  - apply (holds_app _ _ (gap_bytes g)) in H as [H _]. by replace (off + 8 * Z.of_nat 0) with off by lia.
  - apply (holds_app _ _ (gap_bytes y)) in H as [_ H]. simpl in H.
    replace (off + 8 * Z.of_nat (S i)) with (off + 8 + 8 * Z.of_nat i) by lia. by apply (IH _ i).
Qed.

Definition gap_i32 (g : gap) : Prop := is_i32 (start g) ∧ is_i32 (end_ g).

(** What the sender reads of a report that was cut after its last gap. *)
Lemma rcv_msg_reads pad m n :
  length pad = 3%nat → is_i32 (aru m) → 0 ≤ num_gaps m < 2147483648 → Forall gap_i32 (take (Z.to_nat (num_gaps m)) (msg_gaps m)) →
  num_gaps m ≤ Z.of_nat (length (msg_gaps m)) → n = Z.to_nat (12 + 8 * num_gaps m) →
  let buf := take n (rcv_msg_bytes pad m) in
  get_bool buf 0 = Some true ∧ get_aru buf = Some (aru m) ∧ get_num_gaps buf = Some (num_gaps m) ∧
  ∀ i g, msg_gaps m !! i = Some g → Z.of_nat i < num_gaps m → get_gap_at buf (Z.of_nat i) = Some g.
Proof.
  intros Hpad Ha Hn Hg Hlen -> buf.
  set (gs := take (Z.to_nat (num_gaps m)) (msg_gaps m)).
  set (bs := [1] ++ pad ++ le32 (aru m) ++ le32 (num_gaps m) ++ concat (gap_bytes <$> gs)).
  assert (holds buf 0 bs) as H.
  { apply holds_take.
    - assert (rcv_msg_bytes pad m = bs ++ concat (gap_bytes <$> drop (Z.to_nat (num_gaps m)) (msg_gaps m))) as ->;
        [|apply holds_prefix].
      unfold rcv_msg_bytes, bs. rewrite <-(take_drop (Z.to_nat (num_gaps m)) (msg_gaps m)) at 1.
      rewrite fmap_app, concat_app. by rewrite <-!app_assoc.
    - unfold bs. rewrite !length_app, length_gaps_bytes, Hpad. unfold gs. rewrite length_take. simpl. lia. }
  unfold bs in H. apply holds_app in H as [H0 H]. apply holds_app in H as [_ H]. rewrite Hpad in H.
  apply holds_app in H as [H1 H]. apply holds_app in H as [H2 H3].
  change (holds buf 4 (le32 (aru m))) in H1. change (holds buf 8 (le32 (num_gaps m))) in H2.
  change (holds buf 12 (concat (gap_bytes <$> gs))) in H3.
  split_and!.
  - exact (get_bool_holds buf 0 true H0).
  - by apply get_i32_le32.
  - apply get_i32_le32; [done|lia].
  - intros i g Hi Hlt. assert (gs !! i = Some g) as Hgi by (unfold gs; rewrite lookup_take_lt by lia; done).
    pose proof (holds_gaps _ _ _ _ _ H3 Hgi) as [Hs He]%holds_app.
    change (Z.of_nat (length (le32 (start g)))) with 4 in He.
    destruct (Forall_lookup_1 _ _ _ _ Hg Hgi) as [Hg1 Hg2]. unfold get_gap_at.
    rewrite (get_i32_le32 _ _ (start g) Hs Hg1). cbn [mbind option_bind].
    replace (16 + 8 * Z.of_nat i) with (12 + 8 * Z.of_nat i + 4) by lia.
    rewrite (get_i32_le32 _ _ (end_ g) He Hg2). by destruct g.
Qed.

(** ** The receiver during a transfer *)

(** How many intervals fit below a bound. *)
Lemma ordered_length lo hi gs : ordered lo gs → lo ≤ hi → (∀ i, missing gs i → i < hi) →
  Z.of_nat (length gs) ≤ hi - lo.
Proof.
  revert lo. induction gs as [|g gs IH]; intros lo Ho Hlo Hi; simpl; [lia|].
  destruct Ho as (H1 & H2 & Ho).
  assert (end_ g ≤ hi) as Hend.
  { assert (end_ g - 1 < hi); [|lia]. apply Hi, missing_cons. left. unfold in_gap. lia. }
  specialize (IH _ Ho Hend ltac:(intros i Hm; apply Hi, missing_cons; by right)). lia.
Qed.
Lemma ordered_raise lo lo' gs : ordered lo gs → (∀ i, missing gs i → lo' ≤ i) → ordered lo' gs.
Proof.
  destruct gs as [|g gs]; [done|]. intros (H1 & H2 & Ho) Hi. split; [|done].
  apply Hi, missing_cons. left. unfold in_gap. lia.
Qed.
Lemma ordered_bounds lo hi gs : ordered lo gs → (∀ i, missing gs i → i < hi) →
  Forall (λ g, lo ≤ start g ∧ start g < end_ g ∧ end_ g ≤ hi) gs.
Proof.
  revert lo. induction gs as [|g gs IH]; intros lo Ho Hi; [constructor|]. destruct Ho as (H1 & H2 & Ho).
  assert (end_ g ≤ hi) as Hend.
  { assert (end_ g - 1 < hi); [|lia]. apply Hi, missing_cons. left. unfold in_gap. lia. }
  constructor; [done|]. eapply Forall_impl.
  - apply (IH (end_ g)); [done|]. intros i Hm. apply Hi, missing_cons. by right.
  - simpl. lia.
Qed.

(** The wire holds [w0] and then sound datagrams. *)
Definition wire_sound {A} (w0 : list (A * list Z)) (D : gset Z) (w : list (A * list Z)) : Prop :=
  ∃ w1, w = w0 ++ w1 ∧ Forall (λ m, sound D m.2) w1.

Lemma wire_sound_mono {A} (w0 : list (A * list Z)) D D' w : D ⊆ D' → wire_sound w0 D w → wire_sound w0 D' w.
Proof.
  intros HD (w1 & -> & H). exists w1. split; [done|]. eapply Forall_impl; [exact H|].
  intros m. by apply sound_mono.
Qed.
Lemma wire_sound_snoc {A} (w0 : list (A * list Z)) D w m :
  wire_sound w0 D w → sound D m.2 → wire_sound w0 D (w ++ [m]).
Proof.
  intros (w1 & -> & H) Hm. exists (w1 ++ [m]). split; [by rewrite app_assoc|].
  apply Forall_app. split; [done|]. by apply Forall_singleton.
Qed.

(** The queue holds [q0] and then new clients. *)
Definition queue_grows (q0 q : list conn) : Prop :=
  ∃ extra, q = q0 ++ extra ∧ Forall (λ c, conn_st c = SLEEPING) extra.
Lemma queue_grows_snoc q0 q c : queue_grows q0 q → conn_st c = SLEEPING → queue_grows q0 (q ++ [c]).
Proof.
  intros (extra & -> & H) Hc. exists (extra ++ [c]). split; [by rewrite app_assoc|].
  apply Forall_app. split; [done|]. by apply Forall_singleton.
Qed.

(** What was there when a transfer began: whether the alarm was set, the
    datagrams sent, the clients waiting and the files. *)
Record past (A : Type) := mk_past {
  was_set : bool;
  sent_before : list (A * list Z);
  waiting : list conn;
  files_before : gmap (list Z) (list Z)
}.
Arguments mk_past {A}. Arguments was_set {A}. Arguments sent_before {A}. Arguments waiting {A}.
Arguments files_before {A}.

Section transfer.
Context {A : Type} (chunks : list (list Z)) (client : conn) (pa : past A).

(** The gap list holds what is missing below [G]. *)
Definition gaps_at (D : gset Z) (G : Z) (h : gheap) (l : loc) : Prop :=
  ∃ cells, list_at ∅ h l cells ∧ ordered 0 (cg <$> cells) ∧
    ∀ i, missing (cg <$> cells) i ↔ 0 ≤ i < G ∧ i ∉ D.
(** The buffer holds what has arrived from [k] on; its field [size] is at most [n]. *)
Definition buffered (e : entry) : Prop :=
  0 ≤ e_seq e ∧ ∃ c, chunks !! Z.to_nat (e_seq e) = Some c ∧ e_len e = Z.of_nat (length c) ∧
    c_string (e_payload e) = Some c.
Definition buf_at (D : gset Z) (k n : Z) (h : bheap) (b : loc) : Prop :=
  ∃ sz cells, buffer_at h b sz cells ∧ Z.of_nat (length cells) ≤ sz ≤ n ∧ increasing (-1) cells.*2 ∧
    Forall buffered cells.*2 ∧ ∀ i, (i ∈ D ∧ k ≤ i) ↔ ∃ e, e ∈ cells.*2 ∧ e_seq e = i.

Definition text (k : Z) : list Z := concat (take (Z.to_nat k) chunks).

(** The state when [D] has arrived, everything below [k] among it and nothing
    above [G], and at most [n] packets were put in the buffer; [pa] is what was
    there before the transfer. *)
Record receiving (D : gset Z) (k G n : Z) (s : rcv A) : Prop := {
  rc_list : ∃ l, list_ s = Some l ∧ gaps_at D G (gh s) l;
  rc_buf : ∃ b, buf_ s = Some b ∧ buf_at D k n (bh s) b;
  rc_below : 0 ≤ k ∧ ∀ i, 0 ≤ i < k → i ∈ D;
  rc_range : ∀ i, i ∈ D → 0 ≤ i < Z.of_nat (length chunks) ∧ i ≤ G;
  rc_window : k - 1 ≤ G < k + MAX_GAPS;
  rc_top : G ∈ D ∨ G = -1;
  rc_sow : start_of_window (tr s) = k - 1;
  rc_stat : 0 ≤ bytes_since_last_output (tr s) ∧ 0 ≤ bytes_successfully_received (tr s) ∧
    bytes_since_last_output (tr s) + bytes_successfully_received (tr s) = Z.of_nat (length (text k));
  rc_written : 0 ≤ written_since_last_message (tr s) ≤ k;
  rc_conn : curr_conn s = Some client;
  rc_alarm : alarm_set s = was_set pa;
  rc_mem : length (pkt_mem s) = 1432%nat;
  rc_wire : wire_sound (sent_before pa) D (wire (net_ s));
  rc_queue : queue_grows (waiting pa) (conn_queue s);
  rc_files : ∀ name, name ≠ filename client → files s !! name = files_before pa !! name
}.

(** The file is open and holds the text up to [k], or nothing has arrived. *)
Definition file_at (k : Z) (s : rcv A) : Prop :=
  fp s = Some (filename client) ∧ files s !! filename client = Some (text k).
Definition receiver_at (D : gset Z) (k n : Z) (s : rcv A) : Prop :=
  ∃ G, receiving D k G n s ∧ k ∉ D ∧ greatest_recvd_seq (tr s) = G ∧
    (file_at k s ∨ D = ∅ ∧ fp s = None).

Lemma receiver_first_missing D k n s : receiver_at D k n s → first_missing D k.
Proof. intros (G & R & Hk & _). destruct (rc_below _ _ _ _ _ R). by split_and!. Qed.
End transfer.

(** ** Running the handlers *)

Section run.
Context {A : Type}.
Context (getnameinfo : A → option (list Z * list Z)) (getaddrinfo : list Z → list Z → option A).
Context (clock : nat → timeval) (rand : nat → Z) (fopen_ok : nat → bool).
Context (malloc_gaps malloc_bufs malloc_conn : nat → bool).
Context (junk_node : node) (junk_gap : gap) (junk_bnode : buffer_node) (pad : list Z).
Context (chunks : list (list Z)) (client : conn) (pa : past A).
Implicit Types (s : rcv A).

(** Memory and files are available, and the client's address can be looked up
    again; what is sent fits [int]s. *)
Hypothesis Hfopen : ∀ n, fopen_ok n = true.
Hypothesis Hgaps : ∀ n, malloc_gaps n = true.
Hypothesis Hbufs : ∀ n, malloc_bufs n = true.
Hypothesis Hconns : ∀ n, malloc_conn n = true.
Hypothesis Hpad : length pad = 3%nat.
Hypothesis Haddr : is_Some (getaddrinfo (ip client) (port client)).
Hypothesis Hawake : conn_st client ≠ SLEEPING.
Hypothesis Hchunks : Forall chunk_ok chunks.
Hypothesis Htotal : Z.of_nat (length (concat chunks)) < 2147483648.
Hypothesis Hcount : Z.of_nat (length chunks) < 2147483547.

(** What a command leaves alone: the file, and the highest number. *)
Definition quiet s s' : Prop :=
  fp s' = fp s ∧ files s' = files s ∧ greatest_recvd_seq (tr s') = greatest_recvd_seq (tr s).

Lemma silent_refl s : quiet s s.
Proof. done. Qed.

Lemma gaps_do_id {B} (m : prog gheap B) s a : m (gh s) = Ret a (gh s) → gaps_do m s = Ret a s.
Proof. intros E. unfold gaps_do. rewrite (zoom_Ret _ _ _ _ _ _ E). by destruct s. Qed.
Lemma bufs_do_id {B} (m : prog bheap B) s a : m (bh s) = Ret a (bh s) → bufs_do m s = Ret a s.
Proof. intros E. unfold bufs_do. rewrite (zoom_Ret _ _ _ _ _ _ E). by destruct s. Qed.

Lemma send_spec D buf len (dst : A) s :
  0 ≤ len ≤ Z.of_nat (length buf) → sound D (take (Z.to_nat len) buf) → wire_sound (sent_before pa) D (wire (net_ s)) →
  ∃ n', send rand buf len dst s = Ret tt (put_net n' s) ∧ wire_sound (sent_before pa) D (wire n').
Proof.
  intros Hlen HP Hw. destruct (sendto_dbg_spec rand buf len dst (net_ s) Hlen) as (n' & E & _ & _ & Ew).
  exists n'. split.
  - unfold send. by run (zoom_Ret _ _ _ s _ _ E).
  - rewrite Ew. case_match; [done|]. by apply wire_sound_snoc.
Qed.

(** What a report says when [D] has arrived up to [G]. *)
Definition reports (D : gset Z) (k G : Z) (m : rcv_msg) : Prop :=
  aru m = k ∧ 0 ≤ num_gaps m ≤ MAX_GAPS ∧ length (msg_gaps m) = Z.to_nat MAX_GAPS ∧
  Forall gap_i32 (take (Z.to_nat (num_gaps m)) (msg_gaps m)) ∧
  ordered 0 (take (Z.to_nat (num_gaps m)) (msg_gaps m)) ∧
  ∀ i, missing (take (Z.to_nat (num_gaps m)) (msg_gaps m)) i ↔ 0 ≤ i < G ∧ i ∉ D.

Lemma receiving_bounds D k G n s : receiving chunks client pa D k G n s → -1 ≤ k - 1 ≤ G ∧ G < 2147483547.
Proof.
  intros R. destruct (rc_below _ _ _ _ _ _ _ _ R) as [? _]. pose proof (rc_window _ _ _ _ _ _ _ _ R).
  destruct (rc_top _ _ _ _ _ _ _ _ R) as [HG|?]; [|lia].
  pose proof (rc_range _ _ _ _ _ _ _ _ R G HG). lia.
Qed.

Lemma prepare_message_spec D k G n s :
  receiving chunks client pa D k G n s → ∃ m, prepare_message s = Ret m s ∧ reports D k G m.
Proof.
  intros R. pose proof (receiving_bounds _ _ _ _ _ R) as HG.
  pose proof (rc_window _ _ _ _ _ _ _ _ R) as Hwin. destruct (rc_below _ _ _ _ _ _ _ _ R) as [Hk0 Hk].
  destruct (rc_list _ _ _ _ _ _ _ _ R) as (l & El & cells & L & Ho & Hm).
  assert (Z.of_nat (length (cg <$> cells)) ≤ MAX_GAPS) as Hlen.
  { etrans; [apply (ordered_length k (G `max` k))|unfold MAX_GAPS in *; lia].
    - apply (ordered_raise 0); [done|]. intros i [Hi HiD]%Hm.
      destruct (decide (i < k)); [|lia]. exfalso. apply HiD, Hk. lia.
    - lia.
    - intros i Hi%Hm. lia. }
  exists (mk_rcv_msg k (Z.of_nat (length cells))
    ((cg <$> cells) ++ replicate (Z.to_nat MAX_GAPS - length (cg <$> cells)) (mk_gap 0 0))).
  split.
  - unfold prepare_message. run (eq_refl (get s)).
    rewrite (rc_sow _ _ _ _ _ _ _ _ R). run (lift_Some _ _ s (int_incr_ok (k - 1) ltac:(lia))).
    rewrite El. run (lift_Some _ _ s (eq_refl (Some l))).
    run (gaps_do_id _ _ _ (get_list_Ret _ _ _ (header_at _ _ _ _ L))). cbn [head size].
    run (gaps_do_id _ _ _ (walk_spec (Z.to_nat MAX_GAPS) _ _ _ (la_seg _ _ _ _ L))).
    rewrite take_ge by lia. by replace (k - 1 + 1) with k by lia.
  - rewrite length_fmap in *. split_and!; cbn [aru num_gaps msg_gaps]; [done|lia|lia| |..].
    + rewrite length_app, length_replicate, length_fmap. lia.
    + rewrite Nat2Z.id, take_app_length' by by rewrite length_fmap.
      eapply Forall_impl; [apply (ordered_bounds 0 (G `max` 0)); [exact Ho|]|].
      * intros i Hi%Hm. lia.
      * intros g (? & ? & ?). unfold gap_i32, is_i32. lia.
    + by rewrite Nat2Z.id, take_app_length' by by rewrite length_fmap.
    + by rewrite Nat2Z.id, take_app_length' by by rewrite length_fmap.
Qed.

(** The gaps of a report lie before what has arrived last. *)
Lemma report_gap D k G n s m j g : receiving chunks client pa D k G n s → reports D k G m → 0 ≤ j < num_gaps m →
  msg_gaps m !! Z.to_nat j = Some g → sound_gap D g.
Proof.
  intros R (_ & _ & _ & _ & Ho & Hm) Hj Eg. set (gs := take (Z.to_nat (num_gaps m)) (msg_gaps m)) in *.
  assert (gs !! Z.to_nat j = Some g) as Egs by (unfold gs; rewrite lookup_take_lt; [done|lia]).
  pose proof (Forall_lookup_1 _ _ _ _ (ordered_bounds 0 G gs Ho (λ i Hi, proj2 (proj1 (proj1 (Hm i) Hi)))) Egs) as (Hs & Hlt & He).
  split; [done|]. exists G. destruct (rc_top _ _ _ _ _ _ _ _ R) as [HG| ->]; [done|lia].
Qed.

Lemma send_message_spec D k G n s dst :
  receiving chunks client pa D k G n s →
  ∃ s', send_message clock rand pad dst s = Ret tt s' ∧ receiving chunks client pa D k G n s' ∧ quiet s s'.
Proof.
  intros R. destruct (prepare_message_spec D k G n s R) as (m & E & Hr).
  pose proof Hr as (Ha & Hn & Hl & Hg & _). pose proof (receiving_bounds _ _ _ _ _ R) as HG.
  unfold MAX_GAPS in Hn, Hl.
  unfold send_message. run E. run (eq_refl (gettimeofday clock s)). run (eq_refl (set_tr _ _)).
  set (s1 := put_tr _ _).
  assert (length (rcv_msg_bytes pad m) = 812%nat) as Hlen.
  { unfold rcv_msg_bytes. rewrite length_cons, !length_app, length_gaps_bytes, Hpad, Hl. done. }
  destruct (send_spec D (rcv_msg_bytes pad m) (sizeof_rcv_msg - (MAX_GAPS - num_gaps m) * 8) dst s1)
    as (n' & Es & Hw).
  - rewrite Hlen. unfold sizeof_rcv_msg, MAX_GAPS. lia.
  - intros _. exists k, (num_gaps m).
    replace (sizeof_rcv_msg - (MAX_GAPS - num_gaps m) * 8) with (12 + 8 * num_gaps m)
      by (unfold sizeof_rcv_msg, MAX_GAPS; lia).
    destruct (rcv_msg_reads pad m (Z.to_nat (12 + 8 * num_gaps m)) Hpad) as (_ & Hba & Hbn & Hbg); [unfold is_i32; lia|lia|done|lia|reflexivity|].
    destruct (rc_below _ _ _ _ _ _ _ _ R) as [Hk0 Hk]. rewrite Hba, Hbn, Ha. unfold MAX_GAPS. split_and!; try done; [lia|].
    intros j Hj. destruct (lookup_lt_is_Some_2 (msg_gaps m) (Z.to_nat j)) as [g Eg]; [lia|]. exists g.
    specialize (Hbg (Z.to_nat j) g Eg ltac:(lia)). rewrite Z2Nat.id in Hbg by lia. split; [done|].
    by apply (report_gap D k G n s m j g R Hr).
  - apply R.
  - run Es. eexists. split; [reflexivity|]. split; [|done].
    destruct R. constructor; try done. simpl. lia.
Qed.

Lemma text_succ k c : 0 ≤ k → chunks !! Z.to_nat k = Some c → text chunks (k + 1) = text chunks k ++ c.
Proof using Type. clear.
  intros Hk Hc. unfold text. rewrite Z2Nat.inj_add by lia. rewrite Nat.add_1_r, (take_S_r _ _ _ Hc), concat_app.
  simpl. by rewrite app_nil_r.
Qed.
Lemma text_length k : Z.of_nat (length (text chunks k)) ≤ Z.of_nat (length (concat chunks)).
Proof using Type. clear.
  unfold text. rewrite <-(take_drop (Z.to_nat k) chunks) at 2. rewrite concat_app, length_app. lia.
Qed.

Lemma write_chunk_spec s q buf add name old txt n :
  fp s = Some name → files s !! name = Some old → c_string buf = Some txt →
  add (bytes_since_last_output (tr s)) = Some n → written_since_last_message (tr s) < 2147483647 →
  write_chunk q buf add s = Ret tt
    (put_tr (with_written (written_since_last_message (tr s) + 1)) (put_tr (with_since n)
      (put_file (Some name) (<[name := old ++ txt]> (files s)) (put_tr (with_sow q) s)))).
Proof using Type. clear.
  intros Hfp Hf Ht Ha Hw. unfold write_chunk. run (eq_refl (set_tr _ _)). set (s1 := put_tr _ _).
  erewrite bind_Ret; cycle 1.
  { apply updates_Some. change (fp s1) with (fp s). change (files s1) with (files s).
    rewrite Hfp. cbn [mbind option_bind]. rewrite Ht. cbn [mbind option_bind]. by rewrite Hf. }
  run (eq_refl (get _)). cbn [put_file tr s1 put_tr with_sow bytes_since_last_output].
  run (lift_Some _ _ _ Ha). run (eq_refl (set_tr _ _)). run (eq_refl (get _)).
  cbn [put_file tr s1 put_tr with_sow with_since written_since_last_message].
  run (lift_Some _ _ _ (int_incr_ok _ Hw)). reflexivity.
Qed.

(** The state after [write_chunk] of the chunk [c], number [k]. *)
Definition wrote k c s : rcv A :=
  put_tr (with_written (written_since_last_message (tr s) + 1))
    (put_tr (with_since (bytes_since_last_output (tr s) + Z.of_nat (length c)))
      (put_file (Some (filename client)) (<[filename client := text chunks k ++ c]> (files s)) (put_tr (with_sow k) s))).

(** A chunk in order moves the window by one. *)
Lemma receiving_written D k G n s c gheap' bheap' :
  receiving chunks client pa D k G n s → chunks !! Z.to_nat k = Some c → G ≤ k + MAX_GAPS →
  (∃ l, list_ s = Some l ∧ gaps_at (D ∪ {[k]}) (G `max` k) gheap' l) →
  (∃ b, buf_ s = Some b ∧ buf_at chunks (D ∪ {[k]}) (k + 1) n bheap' b) →
  receiving chunks client pa (D ∪ {[k]}) (k + 1) (G `max` k) n (put_gh gheap' (put_bh bheap' (wrote k c s))) ∧
  file_at chunks client (k + 1) (put_gh gheap' (put_bh bheap' (wrote k c s))).
Proof.
  intros [_ _ [Hk0 Hk] Hr Hw Ht Hsow Hstat Hwr Hcn Hal Hmem Hwire Hqueue Hfiles] Hc HG Hl Hb.
  apply lookup_lt_Some in Hc as Hlt. unfold MAX_GAPS in *.
  split; [|split; [done|]].
  - constructor; try done.
    + split; [lia|]. intros i Hi. destruct (decide (i = k)) as [->|]; [set_solver|].
      apply elem_of_union_l, Hk. lia.
    + intros i [Hi|Hi%elem_of_singleton]%elem_of_union; [|subst i; lia]. destruct (Hr i Hi). lia.
    + unfold MAX_GAPS. lia.
    + destruct (Z.max_spec G k) as [[? ->]|[? ->]]; [set_solver|]. destruct Ht; [set_solver|by right].
    + simpl. lia.
    + simpl. rewrite (text_succ k c) by done. rewrite length_app. lia.
    + simpl. lia.
    + eapply wire_sound_mono; [|exact Hwire]. set_solver.
    + intros name Hname. simpl. rewrite lookup_insert_ne by done. by apply Hfiles.
  - simpl. rewrite lookup_insert_eq. by rewrite (text_succ k c).
Qed.

(** [write_chunk] of the chunk that follows the window. *)
Lemma write_next D k G n s c buf add :
  receiving chunks client pa D k G n s → file_at chunks client k s → chunks !! Z.to_nat k = Some c →
  c_string buf = Some c →
  (∀ x, 0 ≤ x → x + Z.of_nat (length c) < 2147483648 → add x = Some (x + Z.of_nat (length c))) →
  write_chunk k buf add s = Ret tt (wrote k c s).
Proof.
  intros R [Efp Efile] Hc Hstr Hadd. pose proof (receiving_bounds _ _ _ _ _ R) as HG.
  pose proof (rc_stat _ _ _ _ _ _ _ _ R) as Hstat. pose proof (text_length (k + 1)) as Htl.
  rewrite (text_succ k c), length_app in Htl by (done || lia).
  eapply (write_chunk_spec s k buf add _ _ _ _ Efp Efile Hstr); [apply Hadd; lia|].
  pose proof (rc_written _ _ _ _ _ _ _ _ R). lia.
Qed.

(** The buffer without its first entry. *)
Lemma buffer_pop (D : gset Z) k e0 es :
  increasing (-1) (e0 :: es) → (∀ i, (i ∈ D ∧ k ≤ i) ↔ ∃ e, e ∈ e0 :: es ∧ e_seq e = i) → e_seq e0 = k →
  increasing (-1) es ∧ ∀ i, (i ∈ D ∧ k + 1 ≤ i) ↔ ∃ e, e ∈ es ∧ e_seq e = i.
Proof using Type. clear.
  intros [Hc Hi] Hd Hk. split; [by eapply increasing_lo; [|exact Hi]; lia|]. intros i. split.
  - intros [HiD Hki]. destruct (proj1 (Hd i)) as (e & [->|He]%elem_of_cons & Ei); [split; [done|lia]|lia|eauto].
  - intros (e & He & Ei). pose proof (increasing_gt _ _ _ Hi He).
    destruct (proj2 (Hd i)) as [? ?]; [exists e; split; [set_solver|done]|]. split; [done|lia].
Qed.

Lemma drain_spec (D : gset Z) G n b fuel : ∀ k s sz cells,
  receiving chunks client pa D k G n s → file_at chunks client k s → buf_ s = Some b →
  buffer_at (bh s) b sz cells → (length cells < fuel)%nat →
  Z.of_nat (length cells) ≤ sz ≤ n → n < 2147483648 → increasing (-1) cells.*2 → Forall (buffered chunks) cells.*2 →
  (∀ i, (i ∈ D ∧ k ≤ i) ↔ ∃ e, e ∈ cells.*2 ∧ e_seq e = i) →
  ∃ k' s', drain fuel b s = Ret tt s' ∧ receiving chunks client pa D k' G n s' ∧ file_at chunks client k' s' ∧
    k' ∉ D ∧ greatest_recvd_seq (tr s') = greatest_recvd_seq (tr s).
Proof.
  induction fuel as [|fuel IH]; intros k s sz cells R F Eb B Hf Hsz Hn Hi Hbuf HD; [lia|].
  cbn [drain]. run (bufs_do_id _ _ _ (get_buffer_Ret _ _ _ (bheader_at _ _ _ _ B))). cbn [b_head].
  destruct cells as [|c cells]; cbn [bfirst is_null].
  { exists k, s. split_and!; [done|done|by destruct F..| |done]. intros HkD.
    destruct (proj1 (HD k)) as (e & He & _); [split; [done|lia]|]. by apply elem_of_nil in He. }
  pose proof (ba_seg _ _ _ _ B) as [Hc _]. run (bufs_do_id _ _ _ (get_bnode_Ret _ _ _ Hc)).
  run (eq_refl (get s)). pose proof (receiving_bounds _ _ _ _ _ R) as HG.
  rewrite (rc_sow _ _ _ _ _ _ _ _ R). run (lift_Some _ _ s (int_incr_ok (k - 1) ltac:(lia))).
  cbn [node_of b_seq b_payload b_payload_len]. replace (k - 1 + 1) with k by lia.
  rewrite fmap_cons in Hi, Hbuf, HD.
  destruct (proj2 (HD (e_seq c.2))) as [HcD Hck]; [exists c.2; split; [set_solver|done]|].
  destruct (Z.eqb_spec (e_seq c.2) k) as [Ek|Hne].
  - pose proof Hbuf as [(Hc0 & ch & Hch & Elen & Hstr) _]%Forall_cons. rewrite Ek in *.
    rewrite Elen.
    run (write_next D k G n s ch (e_payload c.2) (λ z, int_add z (Z.of_nat (length ch))) R F Hch Hstr
      ltac:(intros; apply int_add_ok; lia)).
    destruct (free_head_spec (bh s) b sz c cells B) as (h' & Efree & B' & _); [simpl in Hsz; lia|].
    run (zoom_Ret bh put_bh _ (wrote k ch s) _ _ Efree).
    destruct (buffer_pop _ _ _ _ Hi HD Ek) as [Hi1 HD1]. apply Forall_cons in Hbuf as [_ Hbuf].
    simpl in Hsz, Hf.
    assert (D ∪ {[k]} = D) as ED by set_solver.
    pose proof (rc_range _ _ _ _ _ _ _ _ R k HcD) as HkG. pose proof (rc_window _ _ _ _ _ _ _ _ R).
    destruct (receiving_written D k G n s ch (gh s) h' R Hch) as [R1 F1]; rewrite ?ED, ?Z.max_l by lia.
    + lia.
    + apply R.
    + exists b. split; [done|]. exists (sz - 1), cells. split_and!; done || lia.
    + rewrite ED, Z.max_l in R1 by lia.
      destruct (IH (k + 1) (put_bh h' (wrote k ch s)) (sz - 1) cells) as (k' & s' & E & R' & F' & Hk' & Eg);
        [exact R1|exact F1|done|done|lia|lia|done..|].
      exists k', s'. by split_and!.
  - exists k, s. split_and!; [done|done|by destruct F..| |done]. intros HkD.
    destruct (proj1 (HD k)) as (e & [->|He]%elem_of_cons & Ee); [split; [done|lia]|done|].
    destruct Hi as [_ Hi]. pose proof (increasing_gt _ _ _ Hi He). lia.
Qed.

Lemma statistics_spec D k G n s : receiving chunks client pa D k G n s →
  ∃ s', statistics clock s = Ret tt s' ∧ receiving chunks client pa D k G n s' ∧ quiet s s'.
Proof.
  intros R. unfold statistics. run (eq_refl (get s)).
  destruct (_ >=? _); [|by exists s]. pose proof (rc_stat _ _ _ _ _ _ _ _ R) as Hstat.
  pose proof (text_length k). run (eq_refl (gettimeofday clock s)).
  erewrite bind_Ret; [|apply lift_Some, int_add_ok; lia].
  run (eq_refl (set_tr _ _)). run (eq_refl (gettimeofday clock _)). run (eq_refl (set_tr _ _)).
  eexists. split; [reflexivity|]. split; [|done].
  destruct R. constructor; try done. simpl. lia.
Qed.

(** [split_gap] when memory is available. *)
Lemma split_gap_at D G h l i :
  gaps_at D G h l → ∃ h' r, split_gap malloc_gaps junk_node junk_gap l i h = Ret r h' ∧
    (r = true ∧ 0 ≤ i < G ∧ i ∉ D ∧ gaps_at (D ∪ {[i]}) G h' l ∨
     r = false ∧ ¬ (0 ≤ i < G ∧ i ∉ D) ∧ gaps_at D G h' l).
Proof.
  intros (cells & L & Ho & Hm).
  destruct (split_gap_spec malloc_gaps junk_node junk_gap ∅ h l cells i L) as (h' & lk & cells' & E & L' & Hc & Hlk).
  rewrite !Hgaps in *. destruct Hlk as [->|[? _]]; [|done]. cbn [andb] in *.
  exists h', (gsplit true (cg <$> cells) i).1. split; [done|].
  destruct (gsplit_spec true (cg <$> cells) i 0 Ho) as [Ho' [(-> & Hi & Hr)|(-> & Hr & Hi)]]; rewrite <-Hc in *.
  - left. apply Hm in Hi as [? ?]. split_and!; try done; try lia. exists cells'. split_and!; [done..|].
    intros j. rewrite Hr, Hm. set_solver.
  - right. split; [done|]. split; [intros Hi'%Hm; by specialize (Hi Hi')|]. exists cells'. split_and!; [done..|].
    intros j. by rewrite Hr.
Qed.

(** A packet, as it was read, that carries the chunk [c] of number [i]. *)
Definition carries (p : upkt) (i : Z) (c : list Z) : Prop :=
  seq p = i ∧ 0 ≤ i ∧ chunks !! Z.to_nat i = Some c ∧ chunk_ok c ∧ payload_len p = Z.of_nat (length c) ∧
  length (payload p) = 1400%nat ∧ ∃ rest, payload p = c ++ 0 :: rest.

Lemma in_order_spec D k G n s p c :
  receiving chunks client pa D k G n s → file_at chunks client k s → k ∉ D → carries p k c → n < 2147483648 →
  ∃ k' s', in_order clock malloc_gaps junk_node junk_gap p s = Ret tt s' ∧
    receiving chunks client pa (D ∪ {[k]}) k' (G `max` k) n s' ∧ file_at chunks client k' s' ∧
    k' ∉ D ∪ {[k]} ∧ greatest_recvd_seq (tr s') = greatest_recvd_seq (tr s).
Proof.
  intros R F HkD (Hseq & Hk0 & Hc & Hok & Hlen & _ & rest & Hpl) Hn. unfold in_order. rewrite Hseq.
  assert (c_string (payload p) = Some c) as Hstr by (rewrite Hpl; apply c_string_app, Hok).
  assert (∀ x, 0 ≤ x → x + Z.of_nat (length c) < 2147483648 →
    Some (i32 (u32 (x + payload_len p))) = Some (x + Z.of_nat (length c))) as Hadd.
  { intros x ? ?. by rewrite Hlen, u32_small, i32_small by lia. }
  run (write_next D k G n s c (payload p) (λ z, Some (i32 (u32 (z + payload_len p)))) R F Hc Hstr Hadd).
  run (eq_refl (get (wrote k c s))).
  destruct (rc_list _ _ _ _ _ _ _ _ R) as (l & El & Hgl).
  destruct (rc_buf _ _ _ _ _ _ _ _ R) as (b & Eb & sz & cells & B & Hsz & Hi & Hf & HD).
  pose proof (rc_below _ _ _ _ _ _ _ _ R) as [_ Hbelow]. pose proof (rc_window _ _ _ _ _ _ _ _ R) as Hw.
  change (list_ (wrote k c s)) with (list_ s). rewrite El. run (lift_Some _ _ (wrote k c s) (eq_refl (Some l))).
  destruct (split_gap_at D G (gh s) l k Hgl) as (h' & r & E & Hr).
  run (zoom_Ret gh put_gh _ (wrote k c s) _ _ E).
  change (buf_ (wrote k c s)) with (buf_ s). rewrite Eb. run (lift_Some _ _ (put_gh h' (wrote k c s)) (eq_refl (Some b))).
  assert (gaps_at (D ∪ {[k]}) (G `max` k) h' l) as Hgl'.
  { destruct Hr as [(_ & ? & _ & ?)|(_ & Hk & cells' & L & Ho & Hm)]; [by rewrite Z.max_l by lia|].
    exists cells'. split_and!; [done..|]. intros j. rewrite Hm.
    assert (¬ k < G) by (intros ?; apply Hk; split; [lia|done]).
    split; intros [Hj HjD]; exfalso; apply HjD; [|apply elem_of_union_l]; apply Hbelow; lia. }
  assert (∀ i, (i ∈ D ∪ {[k]} ∧ k + 1 ≤ i) ↔ ∃ e, e ∈ cells.*2 ∧ e_seq e = i) as HD'.
  { intros i. rewrite <-HD, elem_of_union, elem_of_singleton. split.
    - intros [[?| ->] ?]; [split; [done|lia]|lia].
    - intros [Hi' Hki]. assert (i ≠ k) by congruence. split; [by left|lia]. }
  destruct (receiving_written D k G n s c h' (bh s) R Hc) as [R1 F1]; [lia|by exists l| |].
  { exists b. split; [done|]. exists sz, cells. split_and!; done || lia. }
  destruct (drain_spec (D ∪ {[k]}) (G `max` k) n b (buffer_fuel (bh s)) (k + 1) (put_gh h' (wrote k c s)) sz cells)
    as (k' & s2 & E2 & R2 & F2 & Hk2 & Eg); [exact R1|exact F1|done|done|exact (buffer_size_fuel _ _ _ _ B)|lia|done..|].
  change (bh (wrote k c s)) with (bh s). run E2.
  destruct (statistics_spec _ _ _ _ _ R2) as (s3 & E3 & R3 & Q1 & Q2 & Q3).
  exists k', s3. split_and!; [exact E3|done| |done|by rewrite Q3, Eg].
  unfold file_at. rewrite Q1, Q2. exact F2.
Qed.

(** The state when one more packet ahead of the window has arrived. *)
Lemma receiving_more D k G n s i c gheap' bheap' :
  receiving chunks client pa D k G n s → chunks !! Z.to_nat i = Some c → k < i < k + MAX_GAPS →
  (∃ l, list_ s = Some l ∧ gaps_at (D ∪ {[i]}) (G `max` i) gheap' l) →
  (∃ b, buf_ s = Some b ∧ buf_at chunks (D ∪ {[i]}) k (n + 1) bheap' b) →
  receiving chunks client pa (D ∪ {[i]}) k (G `max` i) (n + 1) (put_gh gheap' (put_bh bheap' s)).
Proof.
  intros [_ _ [Hk0 Hk] Hr Hw Ht Hsow Hstat Hwr Hcn Hal Hmem Hwire Hqueue Hfiles] Hc Hik Hl Hb.
  apply lookup_lt_Some in Hc as Hlt. constructor; try done.
  - split; [lia|]. intros j Hj. apply elem_of_union_l, Hk. lia.
  - intros j [Hj|Hj%elem_of_singleton]%elem_of_union; [|subst j; lia]. destruct (Hr j Hj). lia.
  - lia.
  - destruct (Z.max_spec G i) as [[? ->]|[? ->]]; [set_solver|]. destruct Ht; [set_solver|by right].
  - eapply wire_sound_mono; [|exact Hwire]. set_solver.
Qed.

(** The entry that is stored of a packet. *)
Lemma entry_of_carries p i c : carries p i c →
  ∃ e, entry_of p e ∧ e_seq e = i ∧ buffered chunks e.
Proof.
  intros (Hseq & Hi & Hc & [H0 Hlen] & Hpl & Hlp & rest & Hp).
  exists (mk_entry i (Z.of_nat (length c)) (c ++ replicate (1400 - length c) 0)). split; [|split; [done|]].
  - split_and!; cbn [e_seq e_len e_payload]; [done|rewrite Hpl, i32_small by lia; done|].
    unfold strncpy. rewrite Hpl, Nat2Z.id.
    rewrite decide_True by (rewrite length_replicate, Hlp; unfold MAX_MESS_LEN; lia).
    rewrite Hp, c_str_app by (intros x Hx ->; done).
    by rewrite take_app_length, drop_replicate.
  - split; [done|]. exists c. split_and!; [done..|]. cbn [e_payload].
    replace (1400 - length c)%nat with (S (1399 - length c)) by lia. by apply c_string_app.
Qed.

Lemma buf_insert_at D k n h b p i c :
  buf_at chunks D k n h b → carries p i c → k ≤ i → 0 ≤ n < 2147483646 →
  ∃ h' r, buffer_insert malloc_bufs junk_bnode (Some b) p h = Ret r h' ∧ buf_at chunks (D ∪ {[i]}) k (n + 1) h' b.
Proof.
  intros (sz & cells & B & Hsz & Hi & Hf & HD) Hc Hki Hn. pose proof Hc as (_ & Hi0 & _).
  destruct (entry_of_carries p i c Hc) as (e & He & Ei & Hbuf).
  pose proof (buffer_insert_spec malloc_bufs junk_bnode h b sz cells p e B He ltac:(lia)) as Hins.
  rewrite Hbufs in Hins. destruct Hins as (h' & cells' & E & B' & Hc').
  exists h', (binsert e cells.*2).1. split; [done|]. exists (sz + 1), cells'.
  destruct (binsert_spec (-1) cells.*2 e Hi) as [Hi' Hr]; [lia|]. rewrite <-Hc' in *.
  assert (length cells' ≤ S (length cells))%nat as Hlen.
  { rewrite <-(length_fmap snd cells'), Hc', <-(length_fmap snd cells). clear.
    induction cells.*2 as [|x es IH]; [done|]. simpl. repeat (case_match; simpl; try lia). }
  destruct Hr as [(_ & Hx & Hin)|(_ & Hsame & x & Hx & Ex)].
  - split_and!; [done|lia|lia|done| |].
    + apply Forall_forall. intros y [->|Hy]%Hin; [done|]. by apply (proj1 (Forall_forall _ _) Hf).
    + intros j. split.
      * intros [[HjD|Hji%elem_of_singleton]%elem_of_union Hkj].
        -- destruct (proj1 (HD j)) as (y & Hy & Ey); [done|]. exists y. split; [apply Hin; by right|done].
        -- exists e. split; [apply Hin; by left|congruence].
      * intros (y & [-> | Hy]%Hin & Ey).
        -- rewrite <-Ey, Ei. split; [by apply elem_of_union_r, elem_of_singleton|done].
        -- destruct (proj2 (HD j)) as [? ?]; [by exists y|]. split; [by apply elem_of_union_l|done].
  - rewrite Hsame. assert (i ∈ D) as HiD by (apply (HD i); exists x; split; [done|congruence]).
    split_and!; [done|lia|lia|done|done|]. intros j.
    assert (D ∪ {[i]} = D) as -> by (clear -HiD; set_solver). apply HD.
Qed.

(** A new gap above the others. *)
Lemma insert_at D G h l i :
  gaps_at D G h l → (G ∈ D ∨ G = -1) → (∀ j, j ∈ D → j ≤ G) → -1 ≤ G → G + 1 < i →
  ∃ h', GapList.insert malloc_gaps junk_node junk_gap (Some l) (mk_gap (G + 1) i) h = Ret true h' ∧
    gaps_at (D ∪ {[i]}) i h' l.
Proof.
  intros (cells & L & Ho & Hm) HG HD HG1 Hi.
  pose proof (insert_spec malloc_gaps junk_node junk_gap ∅ h l cells (mk_gap (G + 1) i) L) as Hins.
  rewrite !Hgaps in Hins. destruct Hins as (h' & c & E & Ec & L'). exists h'. split; [done|].
  exists (cells ++ [c]). rewrite fmap_app. cbn [fmap list_fmap]. rewrite Ec. split; [done|]. split.
  - apply ordered_snoc; [done|simpl; lia|simpl; lia|]. intros j Hj%Hm. simpl. lia.
  - intros j. rewrite missing_app, missing_singleton, Hm. unfold in_gap. cbn [start end_].
    rewrite elem_of_union, elem_of_singleton. split.
    + intros [[? ?]|?]; [split; [lia|]; intros [?|?]; [done|lia]|].
      split; [lia|]. intros [HjD|?]; [specialize (HD j HjD)|]; lia.
    + intros [? HjD]. destruct (decide (j < G)); [left; split; [lia|naive_solver]|]. right.
      destruct (decide (j = G)) as [->|]; [|lia]. destruct HG; [naive_solver|lia].
Qed.

Lemma out_of_order_spec D k G n s p i c from :
  receiving chunks client pa D k G n s → greatest_recvd_seq (tr s) = G → k < i < k + MAX_GAPS → carries p i c →
  0 ≤ n < 2147483646 →
  ∃ s', out_of_order clock rand malloc_gaps malloc_bufs junk_node junk_gap junk_bnode pad p from s = Ret tt s' ∧
    receiving chunks client pa (D ∪ {[i]}) k (G `max` i) (n + 1) s' ∧ quiet s s'.
Proof.
  intros R Hgr Hik Hc Hn. pose proof Hc as (Hseq & Hi0 & Hci & _). unfold out_of_order.
  pose proof (receiving_bounds _ _ _ _ _ R) as HG.
  destruct (rc_list _ _ _ _ _ _ _ _ R) as (l & El & Hgl). destruct (rc_buf _ _ _ _ _ _ _ _ R) as (b & Eb & Hb).
  run (eq_refl (get s)). rewrite Eb.
  destruct (buf_insert_at D k n (bh s) b p i c Hb Hc ltac:(lia) Hn) as (hb & rb & Eins & Hb').
  run (zoom_Ret bh put_bh _ s _ _ Eins). rewrite El. run (lift_Some _ _ (put_bh hb s) (eq_refl (Some l))).
  destruct (split_gap_at D G (gh s) l i Hgl) as (h' & r & E & Hr). rewrite Hseq.
  run (zoom_Ret gh put_gh _ (put_bh hb s) _ _ E). rewrite Hgr.
  assert (∀ hg, gaps_at (D ∪ {[i]}) (G `max` i) hg l →
    receiving chunks client pa (D ∪ {[i]}) k (G `max` i) (n + 1) (put_gh hg (put_bh hb s))) as Hmore.
  { intros hg Hhg. apply (receiving_more D k G n s i c); [done..| |]; [by exists l|by exists b]. }
  destruct Hr as [(-> & ? & _ & Hg')|(-> & Hi & Hg')].
  { exists (put_gh h' (put_bh hb s)). split; [done|]. split; [|done]. apply Hmore. by rewrite Z.max_l by lia. }
  run (lift_Some _ _ (put_gh h' (put_bh hb s)) (int_incr_ok G ltac:(lia))). rewrite Z.gtb_ltb.
  pose proof (rc_top _ _ _ _ _ _ _ _ R) as Htop.
  destruct (Z.ltb_spec (G + 1) i) as [Hlt|Hge].
  - destruct (insert_at D G h' l i Hg' Htop) as (h2 & E2 & Hg2); [|lia|done|].
    { intros j Hj. by apply (rc_range _ _ _ _ _ _ _ _ R). }
    run (zoom_Ret gh put_gh _ (put_gh h' (put_bh hb s)) _ _ E2).
    destruct (send_message_spec (D ∪ {[i]}) k (G `max` i) (n + 1) (put_gh h2 (put_gh h' (put_bh hb s))) from)
      as (s' & E' & R' & Q'); [apply Hmore; by rewrite Z.max_r by lia|].
    exists s'. by split_and!.
  - exists (put_gh h' (put_bh hb s)). split; [done|]. split; [|done]. apply Hmore.
    destruct Hg' as (cells & L & Ho & Hm). exists cells. split_and!; [done..|]. intros j. rewrite Hm.
    destruct (decide (i ∈ D)) as [HiD|HiD].
    { pose proof (rc_range _ _ _ _ _ _ _ _ R i HiD). rewrite Z.max_l by lia.
      assert (D ∪ {[i]} = D) as -> by (clear -HiD; set_solver). done. }
    assert (i = G + 1) as ->.
    { destruct (decide (i < G)); [exfalso; apply Hi; split; [lia|done]|].
      assert (i ≠ G); [|lia]. intros ->. destruct Htop; [done|lia]. }
    rewrite Z.max_r, elem_of_union, elem_of_singleton by lia. split.
    + intros [? ?]. split; [lia|]. intros [?|?]; [done|lia].
    + intros [? HjD]. split; [|intros ?; apply HjD; by left]. assert (j ≠ G); [|lia]. intros ->.
      destruct Htop; [apply HjD; by left|lia].
Qed.

Lemma receiving_size D k G n s : receiving chunks client pa D k G n s → receiving chunks client pa D k G (n + 1) s.
Proof using Type. clear.
  intros [? (b & Eb & sz & cells & B & Hsz & Hr)]. constructor; try done.
  exists b. split; [done|]. exists sz, cells. split; [done|]. split; [lia|done].
Qed.
(** The state with another highest number. *)
Lemma receiving_greatest D k G n s z :
  receiving chunks client pa D k G n s → receiving chunks client pa D k G n (put_tr (with_greatest z) s).
Proof using Type. clear. intros []. by constructor. Qed.
Lemma receiving_clock D k G n s c o m :
  receiving chunks client pa D k G n s → receiving chunks client pa D k G n (put_counts c o m s).
Proof using Type. clear. intros []. by constructor. Qed.

Lemma fopen_Ret name s : fopen fopen_ok name s = Ret tt
  (put_file (Some name) (<[name := []]> (files s)) (put_counts (clocks s) (S (opens s)) (mallocs s) s)).
Proof. unfold fopen. by rewrite Hfopen. Qed.

(** The file of a connection that is awake. *)
Lemma begin_transfer_spec D k n s : receiver_at chunks client pa D k n s →
  ∃ s1, begin_transfer clock fopen_ok s = Ret tt s1 ∧ receiving chunks client pa D k (greatest_recvd_seq (tr s)) n s1 ∧
    file_at chunks client k s1 ∧ greatest_recvd_seq (tr s1) = greatest_recvd_seq (tr s) ∧ k ∉ D.
Proof.
  intros (G & R & HkD & Hgr & Hfile). unfold begin_transfer. run (eq_refl (get s)).
  rewrite (rc_conn _ _ _ _ _ _ _ _ R). rewrite (bool_decide_false _ Hawake). run (eq_refl (mret (M:=prog (rcv A)) () s)).
  rewrite Hgr. destruct Hfile as [F|[-> Hfp]].
  - exists s. destruct F as [Hfp F]. rewrite Hfp. by split_and!.
  - rewrite Hfp. assert (k = 0) as ->.
    { destruct (rc_below _ _ _ _ _ _ _ _ R) as [? Hb]. destruct (decide (k = 0)); [done|].
      specialize (Hb 0 ltac:(lia)). set_solver. }
    eexists. split; [exact (fopen_Ret (filename client) s)|]. split; [|split; [|done]].
    + destruct R as [? ? ? ? ? ? ? ? ? ? ? ? ? ? Hfiles]. constructor; try done.
      intros name Hname. simpl. rewrite lookup_insert_ne by done. by apply Hfiles.
    + split; [done|]. apply lookup_insert_eq.
Qed.

(** A data packet for an open file. *)
Lemma accept_data_spec D k G n s1 p i c from :
  receiving chunks client pa D k G n s1 → file_at chunks client k s1 → greatest_recvd_seq (tr s1) = G → k ∉ D →
  carries p i c → i < k + MAX_GAPS → 0 ≤ n < 2147483646 →
  ∃ k' s', accept_data clock rand malloc_gaps malloc_bufs junk_node junk_gap junk_bnode pad p from s1 = Ret tt s' ∧
    receiver_at chunks client pa (D ∪ {[i]}) k' (n + 1) s' ∧ file_at chunks client k' s'.
Proof.
  intros R F1 Hgr1 HkD Hc Hik Hn. pose proof Hc as (Hseq & Hi0 & Hci & _). pose proof R as R1.
  unfold accept_data. run (eq_refl (get s1)). rewrite (rc_sow _ _ _ _ _ _ _ _ R1), Hseq.
  pose proof (receiving_bounds _ _ _ _ _ R) as HG.
  assert (∃ k' s2, (if i <=? k - 1 then mret () else
      next ← lift (int_incr (k - 1));
      if next =? i then in_order clock malloc_gaps junk_node junk_gap p
      else out_of_order clock rand malloc_gaps malloc_bufs junk_node junk_gap junk_bnode pad p from) s1 = Ret tt s2 ∧
    receiving chunks client pa (D ∪ {[i]}) k' (G `max` i) (n + 1) s2 ∧ file_at chunks client k' s2 ∧
    k' ∉ D ∪ {[i]} ∧ greatest_recvd_seq (tr s2) = G) as (k' & s2 & E2 & R2 & F2 & Hk2 & Hgr2).
  { destruct (Z.leb_spec i (k - 1)) as [Hle|Hgt].
    - destruct (rc_below _ _ _ _ _ _ _ _ R) as [_ Hb]. assert (i ∈ D) as HiD by (apply Hb; lia).
      assert (D ∪ {[i]} = D) as -> by (clear -HiD; set_solver). pose proof (rc_range _ _ _ _ _ _ _ _ R i HiD).
      rewrite Z.max_l by lia. exists k, s1. split_and!; [done|by apply receiving_size|done..].
    - run (lift_Some _ _ s1 (int_incr_ok (k - 1) ltac:(lia))). replace (k - 1 + 1) with k by lia.
      destruct (Z.eqb_spec k i) as [->|Hne].
      + destruct (in_order_spec D i G n s1 p c R1 F1 HkD Hc) as (k' & s2 & E2 & R2 & F2 & Hk2 & Hgr2); [lia|].
        exists k', s2. split_and!; [done|by apply receiving_size|done|done|by rewrite Hgr2].
      + destruct (out_of_order_spec D k G n s1 p i c from R1 Hgr1) as (s2 & E2 & R2 & Q1 & Q2 & Q3); [lia|done|done|].
        exists k, s2. split_and!; [done|done| | |by rewrite Q3].
        * unfold file_at. rewrite Q1, Q2. exact F1.
        * rewrite elem_of_union, elem_of_singleton. intros [?|?]; [done|congruence]. }
  run E2. run (eq_refl (get s2)). rewrite Hgr2.
  set (s3 := if i >? G then put_tr (with_greatest i) s2 else s2).
  assert ((if i >? G then set_tr (with_greatest i) else mret ()) s2 = Ret tt s3) as E3 by (unfold s3; by destruct (i >? G)).
  assert (receiving chunks client pa (D ∪ {[i]}) k' (G `max` i) (n + 1) s3 ∧ file_at chunks client k' s3 ∧
    greatest_recvd_seq (tr s3) = G `max` i) as (R3 & F3 & Hgr3).
  { unfold s3. rewrite Z.gtb_ltb. destruct (Z.ltb_spec G i).
    - split_and!; [by apply receiving_greatest|done|simpl; lia].
    - split_and!; [done|done|rewrite Hgr2; lia]. }
  run E3. run (eq_refl (gettimeofday clock s3)). set (s4 := put_counts _ _ _ s3). run (eq_refl (get s4)).
  assert (receiving chunks client pa (D ∪ {[i]}) k' (G `max` i) (n + 1) s4) as R4 by by apply receiving_clock.
  destruct (_ || _).
  - destruct (send_message_spec _ _ _ _ _ from R4) as (s5 & E5 & R5 & Q1 & Q2 & Q3).
    assert (file_at chunks client k' s5) as F5 by (unfold file_at; rewrite Q1, Q2; exact F3).
    exists k', s5. split_and!; [exact E5| |done]. exists (G `max` i). split_and!; [done|done|by rewrite Q3|by left].
  - exists k', s4. split_and!; [done| |done]. exists (G `max` i). split_and!; [done|done|done|by left].
Qed.

(** A data packet. *)
Lemma handle_data_spec D k n s p i c from :
  receiver_at chunks client pa D k n s → carries p i c → i < k + MAX_GAPS → 0 ≤ n < 2147483646 →
  ∃ k' s', handle_data clock rand fopen_ok malloc_gaps malloc_bufs junk_node junk_gap junk_bnode pad p from s = Ret tt s' ∧
    receiver_at chunks client pa (D ∪ {[i]}) k' (n + 1) s' ∧ file_at chunks client k' s'.
Proof.
  intros R Hc Hik Hn. destruct (begin_transfer_spec D k n s R) as (s1 & E1 & R1 & F1 & Hgr1 & HkD).
  unfold handle_data. run E1. by eapply accept_data_spec.
Qed.

(** What the other handlers leave alone. *)
Record same_transfer s s' : Prop := {
  st_list : list_ s' = list_ s;
  st_buf : buf_ s' = buf_ s;
  st_gh : gh s' = gh s;
  st_bh : bh s' = bh s;
  st_tr : tr s' = tr s;
  st_conn : curr_conn s' = curr_conn s;
  st_alarm : alarm_set s' = alarm_set s;
  st_fp : fp s' = fp s;
  st_files : files s' = files s
}.

Lemma receiver_at_frame D k n s s' :
  receiver_at chunks client pa D k n s → same_transfer s s' → length (pkt_mem s') = 1432%nat →
  wire_sound (sent_before pa) D (wire (net_ s')) →
  queue_grows (waiting pa) (conn_queue s') → receiver_at chunks client pa D k n s'.
Proof.
  intros (G & [? ? ? ? ? ? ? ? ? ? ? ? ? ? ?] & Hk & Hg & Hf) [E1 E2 E3 E4 E5 E6 E7 E8 E9] Hm Hw Hq. exists G.
  split_and!; [|done|by rewrite E5|].
  - constructor; rewrite ?E1, ?E2, ?E3, ?E4, ?E5, ?E6, ?E7, ?E9; done.
  - unfold file_at. by rewrite E8, E9.
Qed.

Lemma receiver_at_sound D k n s : receiver_at chunks client pa D k n s →
  length (pkt_mem s) = 1432%nat ∧ wire_sound (sent_before pa) D (wire (net_ s)) ∧
  queue_grows (waiting pa) (conn_queue s).
Proof. intros (G & R & _). split_and!; apply R. Qed.

(** A control packet to anyone. *)
Lemma send_upkt_spec D p (dst : A) s :
  is_rcv_msg p = false → length (payload p) = 1400%nat → wire_sound (sent_before pa) D (wire (net_ s)) →
  ∃ n', send_upkt rand p dst s = Ret tt (put_net n' s) ∧ wire_sound (sent_before pa) D (wire n').
Proof.
  intros Hp Hl Hw. apply send_spec; [|by apply sound_upkt|done].
  unfold upkt_bytes. rewrite !length_app, length_upkt_hdr, Hl. unfold sizeof_upkt, MAX_MESS_LEN. simpl. lia.
Qed.

(** Answering with a control packet made by [f] of a new one. *)
Lemma answer_keeps D k n s (f : upkt → upkt) dst :
  receiver_at chunks client pa D k n s →
  (∀ p, is_rcv_msg (f p) = is_rcv_msg p ∧ payload (f p) = payload p) →
  ∃ s', (p ← new_pkt clock; send_upkt rand (f p) dst) s = Ret tt s' ∧ receiver_at chunks client pa D k n s' ∧
    conn_queue s' = conn_queue s.
Proof.
  intros R Hf. destruct (receiver_at_sound _ _ _ _ R) as (Hm & Hw & Hq).
  unfold new_pkt. set (s1 := put_counts (S (clocks s)) (opens s) (mallocs s) s).
  set (p := create_pkt (clock (clocks s)).1 (clock (clocks s)).2). destruct (Hf p) as [Hf1 Hf2].
  erewrite bind_Ret; [|reflexivity]. fold s1 p.
  destruct (send_upkt_spec D (f p) dst s1) as (n' & E & Hw'); [by rewrite Hf1|by rewrite Hf2|done|].
  exists (put_net n' s1). split; [exact E|]. split; [|done]. eapply receiver_at_frame; [exact R|by constructor|done..].
Qed.
Lemma answer_spec D k n s (f : upkt → upkt) dst :
  receiver_at chunks client pa D k n s →
  (∀ p, is_rcv_msg (f p) = is_rcv_msg p ∧ payload (f p) = payload p) →
  ∃ s', (p ← new_pkt clock; send_upkt rand (f p) dst) s = Ret tt s' ∧ receiver_at chunks client pa D k n s'.
Proof. intros R Hf. destruct (answer_keeps D k n s f dst R Hf) as (s' & E & R' & _). by exists s'. Qed.

(** A connection request during the transfer, whoever sends it. *)
Lemma handle_init_busy D k n s p name rest from :
  receiver_at chunks client pa D k n s → payload p = name ++ 0 :: rest → name_ok name →
  ∃ s', handle_init_pkt getnameinfo clock rand malloc_gaps malloc_bufs malloc_conn p from s = Ret tt s' ∧
    receiver_at chunks client pa D k n s'.
Proof.
  intros R Hp Hname. unfold handle_init_pkt.
  destruct (getnameinfo from) as [[ip_buf port_buf]|]; [|by exists s].
  run (eq_refl (get s)). pose proof R as (G & RG & _). rewrite (rc_conn _ _ _ _ _ _ _ _ RG).
  destruct (is_client client ip_buf port_buf); [by apply answer_spec|].
  destruct (existsb _ (conn_queue s)); [by apply answer_spec|].
  erewrite bind_Ret; [|unfold malloc_conn_; rewrite Hconns; reflexivity]. set (s1 := put_counts _ _ _ s).
  rewrite Hp. run (lift_Some _ _ s1 (strcpy_filename_ok name rest Hname)).
  run (eq_refl (modify _ s1)). apply answer_spec; [|done].
  destruct (receiver_at_sound _ _ _ _ R) as (Hm & Hw & Hq).
  eapply receiver_at_frame; [exact R|by constructor|done|done|]. by apply queue_grows_snoc.
Qed.

Lemma handle_timeout_active D k n s : receiver_at chunks client pa D k n s →
  ∃ s', handle_timeout getaddrinfo clock rand pad s = Ret tt s' ∧ receiver_at chunks client pa D k n s'.
Proof.
  intros (G & R & Hk & Hg & Hf). unfold handle_timeout. run (eq_refl (get s)).
  rewrite (rc_conn _ _ _ _ _ _ _ _ R). destruct (conn_st client) eqn:Est; [done| |by exists s; split; [|exists G]].
  destruct Haddr as [addr ->].
  destruct (send_message_spec D k G n s addr R) as (s' & E & R' & Q1 & Q2 & Q3).
  exists s'. split; [done|]. exists G. split_and!; [done|done|by rewrite Q3|].
  unfold file_at. by rewrite Q1, Q2.
Qed.

Abbreviation turn_ := (turn getnameinfo getaddrinfo clock rand fopen_ok malloc_gaps malloc_bufs malloc_conn
  junk_node junk_gap junk_bnode pad).

(** A turn that receives a packet. *)
Lemma turn_packet from dgram p s :
  read_upkt (recv_into sizeof_upkt (pkt_mem s) dgram) = Some p →
  turn_ (EvPacket from dgram) s =
    handle_packet getnameinfo clock rand fopen_ok malloc_gaps malloc_bufs malloc_conn junk_node junk_gap junk_bnode
      pad p from (put_mem (recv_into sizeof_upkt (pkt_mem s) dgram) s).
Proof using Type. clear.
  intros Hread. unfold turn. run (eq_refl (get s)). run (eq_refl (modify _ s)).
  by run (reads_Some (λ s, read_upkt (pkt_mem s)) _ (put_mem (recv_into sizeof_upkt (pkt_mem s) dgram) s) Hread).
Qed.
Lemma receiver_at_mem D k n s dgram m :
  receiver_at chunks client pa D k n s → length (recv_into m (pkt_mem s) dgram) = 1432%nat →
  receiver_at chunks client pa D k n (put_mem (recv_into m (pkt_mem s) dgram) s).
Proof using Type. clear.
  intros R Hl. destruct (receiver_at_sound _ _ _ _ R) as (Hm & Hw & Hq).
  eapply receiver_at_frame; [exact R|by constructor|done..].
Qed.

Lemma receiver_at_size D k n n' s : receiver_at chunks client pa D k n s → n ≤ n' → receiver_at chunks client pa D k n' s.
Proof.
  intros (G & [? (b & Eb & sz & cells & B & Hsz & Hr)] & Hf) Hn. exists G. split; [|done].
  constructor; try done. exists b. split; [done|]. exists sz, cells. split; [done|]. split; [lia|done].
Qed.

(** Any traffic: every turn returns, and the receiver is where it should be. *)
Lemma traffic_spec D evs D' : was_set pa = false → traffic chunks D evs D' → ∀ k n s,
  receiver_at chunks client pa D k n s → 0 ≤ n ∧ n + Z.of_nat (length evs) < 2147483647 →
  ∃ k' s', for_each evs turn_ s = Ret tt s' ∧ receiver_at chunks client pa D' k' (n + Z.of_nat (length evs)) s'.
Proof.
  intros Hal. induction 1 as [D|D i from dgram evs D' Hd Hwin _ IH|D name from dgram evs D' Hd _ IH|D evs D' _ IH|D evs D' _ IH];
    intros k n s R Hn; cbn [for_each length] in *; rewrite ?Nat2Z.inj_succ in *.
  all: try replace (n + Z.succ (Z.of_nat (length evs))) with (n + 1 + Z.of_nat (length evs)) in * by lia.
  - exists k, s. split; [done|]. by rewrite Z.add_0_r.
  - destruct (receiver_at_sound _ _ _ _ R) as (Hm & Hw & Hq).
    destruct (recv_data chunks i dgram (pkt_mem s)) as
      (c & p & rest & Hc & Hi & Hok & Hl & Hread & Hinit & Hfin & Hseq & Hlen & Hpl & Hlpl); [done|lia|done|done|].
    pose proof (receiver_at_mem D k n s dgram _ R Hl) as R1.
    destruct (handle_data_spec D k n _ p i c from R1) as (k1 & s2 & E & R2 & _).
    { split_and!; try done; [apply Hi|by exists rest]. }
    { apply Hwin. by eapply receiver_first_missing. }
    { lia. }
    erewrite bind_Ret; [|rewrite (turn_packet from dgram p s Hread); unfold handle_packet; rewrite Hinit, Hfin; exact E]. apply (IH k1 (n + 1) s2 R2). lia.
  - destruct (receiver_at_sound _ _ _ _ R) as (Hm & Hw & Hq). pose proof Hd as (sec & usec & Hname & _).
    destruct (recv_init name dgram (pkt_mem s) Hd Hm) as (p & rest & Hl & Hread & Hinit & Hpl).
    pose proof (receiver_at_mem D k n s dgram _ R Hl) as R1.
    destruct (handle_init_busy D k n _ p name rest from R1 Hpl Hname) as (s2 & E & R2).
    erewrite bind_Ret; [|rewrite (turn_packet from dgram p s Hread); unfold handle_packet; rewrite Hinit; exact E]. apply (IH k (n + 1) s2); [apply (receiver_at_size D k n); [done|lia]|lia].
  - destruct (handle_timeout_active D k n s R) as (s1 & E & R1).
    run (E : turn_ EvTimeout s = Ret tt s1). apply (IH k (n + 1) s1); [apply (receiver_at_size D k n); [done|lia]|lia].
  - assert (turn_ EvAlarm s = Ret tt s) as Eturn.
    { unfold turn. run (eq_refl (get s)). destruct R as (G & R & _). by rewrite (rc_alarm _ _ _ _ _ _ _ _ R), Hal. }
    run Eturn. apply (IH k (n + 1) s); [apply (receiver_at_size D k n); [done|lia]|lia].
Qed.

(** ** Starting up and accepting the first client *)

(** No connection, empty lists. *)
Record idle s : Prop := {
  id_list : ∃ l, list_ s = Some l ∧ list_at ∅ (gh s) l [];
  id_buf : ∃ b sz, buf_ s = Some b ∧ buffer_at (bh s) b sz [];
  id_conn : curr_conn s = None;
  id_alarm : alarm_set s = false;
  id_mem : length (pkt_mem s) = 1432%nat;
  id_wire : wire (net_ s) = [];
  id_queue : conn_queue s = [];
  id_sow : start_of_window (tr s) = -1;
  id_fp : fp s = None
}.

(** A state in which nothing is allocated yet. *)
Record blank s : Prop := {
  bl_gh : nodes (gh s) = ∅ ∧ gaps (gh s) = ∅ ∧ lists (gh s) = ∅;
  bl_bh : bnodes (bh s) = ∅ ∧ buffers (bh s) = ∅;
  bl_alarm : alarm_set s = false;
  bl_mem : length (pkt_mem s) = 1432%nat;
  bl_wire : wire (net_ s) = []
}.

(** The new lists of a connection. *)
Lemma fresh_gaps s : nodes (gh s) = ∅ ∧ gaps (gh s) = ∅ ∧ lists (gh s) = ∅ →
  ∃ l h', gaps_do (new_list malloc_gaps) s = Ret l (put_gh h' s) ∧ list_at ∅ h' l [].
Proof using Hgaps. clear -Hgaps.
  intros (Hn & Hg & Hl). pose proof (new_list_spec malloc_gaps (gh s) Hl) as H. rewrite Hgaps in H.
  destruct H as (l & h' & E & En & Eg & El). exists l, h'. split; [exact (zoom_Ret _ _ _ s _ _ E)|].
  apply new_list_at; [done|by rewrite Eg|by rewrite En, Hn, dom_empty_L].
Qed.
Lemma fresh_buffer s : bnodes (bh s) = ∅ ∧ buffers (bh s) = ∅ →
  ∃ b h', bufs_do (new_buffer malloc_bufs) s = Ret b (put_bh h' s) ∧ buffer_at h' b 0 [].
Proof using Hbufs. clear -Hbufs.
  intros (Hn & Hb). pose proof (new_buffer_spec malloc_bufs (bh s) Hb Hn) as H. rewrite Hbufs in H.
  destruct H as (b & h' & E & B). exists b, h'. split; [exact (zoom_Ret _ _ _ s _ _ E)|done].
Qed.

Lemma open_socket_spec addrs s : (true, true) ∈ addrs → open_socket addrs s = Ret tt s.
Proof using Type. clear.
  induction addrs as [|[so bo] addrs IH]; [by intros ?%not_elem_of_nil|].
  intros [H|H]%elem_of_cons; [by injection H as <- <-|]. cbn [open_socket]. destruct so, bo; [done|by apply IH..].
Qed.

(** A command line that is accepted. *)
Definition argv_ok (argv : list (list Z)) (passive : list Z → option (list (bool * bool))) : Prop :=
  ∃ prg rate port_str env addrs, argv = [prg; rate; port_str; env] ∧ 0 ≤ atoi rate ≤ 100 ∧
    (env = WAN ∨ env = LAN ∨ env = WAN_EC) ∧ passive port_str = Some addrs ∧ (true, true) ∈ addrs.

Lemma Usage_spec argv passive s : argv_ok argv passive →
  ∃ rate port_str c addrs, Usage argv s = Ret (rate, port_str) (put_cfg c s) ∧ 0 ≤ rate ≤ 100 ∧
    passive port_str = Some addrs ∧ (true, true) ∈ addrs.
Proof using Type. clear.
  intros (prg & rate & port_str & env & addrs & -> & Hr & Henv & Hp & Hin).
  exists (atoi rate), port_str. unfold Usage. rewrite Z.gtb_ltb.
  rewrite (proj2 (Z.ltb_ge _ _)), (proj2 (Z.ltb_ge 100 _)) by lia. cbn [orb].
  assert (∃ c, (if bool_decide (env = WAN) then modify (put_cfg (mk_params 45 0 85000));; mret (atoi rate, port_str)
    else if bool_decide (env = LAN) then modify (put_cfg (mk_params 45 0 125000));; mret (atoi rate, port_str)
    else if bool_decide (env = WAN_EC) then modify (put_cfg (mk_params 55 0 50000));; mret (atoi rate, port_str)
    else exit_with 0) s = Ret (atoi rate, port_str) (put_cfg c s)) as [c E].
  { destruct Henv as [ -> | [ -> | -> ] ].
    - rewrite bool_decide_true by done. by eexists.
    - rewrite bool_decide_false, bool_decide_true by done. by eexists.
    - rewrite !bool_decide_false, bool_decide_true by done. by eexists. }
  exists c, addrs. split; [exact E|split; [exact Hr|by split]].
Qed.

Lemma start_up_spec argv passive s : argv_ok argv passive → blank s →
  ∃ s', start_up clock malloc_gaps malloc_bufs argv passive s = Ret tt s' ∧ idle s'.
Proof.
  intros Hargv [Hgh Hbh Hal Hmem Hw]. unfold start_up.
  destruct (Usage_spec argv passive s Hargv) as (rate & port_str & c & addrs & E & Hr & Hp & Hin). run E.
  set (s1 := put_cfg c s).
  set (nw := mk_net (first_time (net_ s)) (rate * 255 / 100) (rand_calls (net_ s)) (wire (net_ s))).
  assert (sendto_dbg_init rate (net_ s1) = Ret tt nw) as Einit.
  { unfold sendto_dbg_init. by run (lift_Some _ _ (net_ s1) (cutoff_of_percent _ Hr)). }
  run (zoom_Ret net_ put_net _ s1 _ _ Einit). rewrite Hp.
  run (open_socket_spec addrs (put_net nw s1) Hin).
  do 3 run (eq_refl (set_tr _ _)). run (eq_refl (modify _ _)). run (eq_refl (gettimeofday clock _)).
  run (eq_refl (set_tr _ _)). set (s2 := put_tr _ (put_counts _ _ _ _)).
  destruct (fresh_gaps s2 Hgh) as (l & h' & El & L).
  destruct (fresh_buffer (put_list_ (Some l) (put_gh h' s2)) Hbh) as (b & hb & Eb & B).
  assert (new_lists malloc_gaps malloc_bufs s2 = Ret tt (put_buf_ (Some b) (put_bh hb (put_list_ (Some l) (put_gh h' s2))))) as Enew.
  { unfold new_lists. run El. run (eq_refl (modify _ (put_gh h' s2))). run Eb. reflexivity. }
  run Enew. run (eq_refl (modify _ _)).
  eexists. split; [reflexivity|]. constructor; try done.
  - by exists l.
  - by exists b, 0.
Qed.

(** The variables of a new transfer. *)
Lemma reset_transfer_spec s : ∃ s', reset_transfer clock s = Ret tt s' ∧
  same_transfer (put_file None (files s) (put_tr (λ _, tr s') s)) s' ∧
  pkt_mem s' = pkt_mem s ∧ net_ s' = net_ s ∧ conn_queue s' = conn_queue s ∧
  start_of_window (tr s') = -1 ∧ written_since_last_message (tr s') = 0 ∧ greatest_recvd_seq (tr s') = -1.
Proof using Type. clear.
  unfold reset_transfer. do 2 run (eq_refl (set_tr _ _)). run (eq_refl (modify _ _)).
  run (eq_refl (gettimeofday clock _)). run (eq_refl (set_tr _ _)).
  eexists. split; [reflexivity|]. split; [by constructor|]. by split_and!.
Qed.
Lemma reset_statistics_spec s : ∃ s', reset_statistics clock s = Ret tt s' ∧
  same_transfer (put_tr (λ _, tr s') s) s' ∧ pkt_mem s' = pkt_mem s ∧ net_ s' = net_ s ∧
  conn_queue s' = conn_queue s ∧ start_of_window (tr s') = start_of_window (tr s) ∧
  written_since_last_message (tr s') = written_since_last_message (tr s) ∧
  greatest_recvd_seq (tr s') = greatest_recvd_seq (tr s) ∧
  bytes_since_last_output (tr s') = 0 ∧ bytes_successfully_received (tr s') = 0.
Proof using Type. clear.
  unfold reset_statistics. run (eq_refl (gettimeofday clock _)). do 2 run (eq_refl (set_tr _ _)).
  eexists. split; [reflexivity|]. split; [by constructor|]. by split_and!.
Qed.

(** New lists and new variables make a receiver to which nothing has arrived. *)
Lemma receiver_at_new l b s :
  list_ s = Some l → list_at ∅ (gh s) l [] → buf_ s = Some b → buffer_at (bh s) b 0 [] →
  start_of_window (tr s) = -1 → written_since_last_message (tr s) = 0 → greatest_recvd_seq (tr s) = -1 →
  bytes_since_last_output (tr s) = 0 → bytes_successfully_received (tr s) = 0 →
  curr_conn s = Some client → alarm_set s = was_set pa → length (pkt_mem s) = 1432%nat → fp s = None →
  wire_sound (sent_before pa) ∅ (wire (net_ s)) →
  queue_grows (waiting pa) (conn_queue s) → files s = files_before pa → receiver_at chunks client pa ∅ 0 0 s.
Proof using Type. clear.
  intros El L Eb B H1 H2 H3 H4 H5 H6 H7 H8 H9 H10 H11 H12. exists (-1). split_and!; [|set_solver|done|by right].
  constructor; try done.
  - exists l. split; [done|]. exists []. split_and!; [done|done|]. intros i. split; [by intros ?%missing_nil|lia].
  - exists b. split; [done|]. exists 0, []. split_and!; [done|simpl; lia|lia|done|by constructor|].
    intros i. split; [set_solver|]. by intros (e & ?%elem_of_nil & _).
  - split; [lia|]. intros i ?. lia.
  - unfold MAX_GAPS. lia.
  - by rewrite H4, H5.
  - rewrite H2. lia.
  - intros name _. by rewrite H12.
Qed.

(** The request that makes [client] the current connection. *)
Lemma handle_init_idle s p name rest from :
  pa = mk_past false [] [] (files s) → idle s → payload p = name ++ 0 :: rest → name_ok name →
  getnameinfo from = Some (ip client, port client) → client = mk_conn ACTIVE 0 (ip client) (port client) name →
  ∃ s', handle_init_pkt getnameinfo clock rand malloc_gaps malloc_bufs malloc_conn p from s = Ret tt s' ∧
    receiver_at chunks client pa ∅ 0 0 s' ∧ conn_queue s' = [].
Proof.
  intros Hpa [(l & El & L) (b & sz & Eb & B) Hcn Hal Hmem Hw Hq _ _] Hp Hname Hfrom Hcl.
  unfold handle_init_pkt. rewrite Hfrom. run (eq_refl (get s)). rewrite Hcn.
  erewrite bind_Ret; [|unfold malloc_conn_; rewrite Hconns; reflexivity]. set (s1 := put_counts _ _ _ s).
  rewrite Hp. run (lift_Some _ _ s1 (strcpy_filename_ok name rest Hname)).
  run (eq_refl (modify _ s1)). rewrite <-Hcl.
  set (s2 := put_conn (Some client) s1).
  destruct (reset_transfer_spec s2) as (s3 & E3 & S3 & Hm3 & Hn3 & Hq3 & Ht1 & Ht2 & Ht3).
  run E3.
  destruct (reset_statistics_spec s3) as (s4 & E4 & S4 & Hm4 & Hn4 & Hq4 & Hu1 & Hu2 & Hu3 & Hu4 & Hu5).
  rewrite Ht1 in Hu1. rewrite Ht2 in Hu2. rewrite Ht3 in Hu3.
  run E4. run (eq_refl (get s4)).
  destruct S3 as [A1 A2 A3 A4 _ A5 A6 A7 A8]. destruct S4 as [B1 B2 B3 B4 _ B5 B6 B7 B8].
  cbn in A1, A2, A3, A4, A5, A6, A7, A8, B1, B2, B3, B4, B5, B6, B7, B8.
  rewrite B1, A1, El. destruct (free_list_spec ∅ (gh s4) l []) as (h1 & Ef & Hl1 & Hn1 & Hg1); [by rewrite B3, A3|].
  run (zoom_Ret gh put_gh _ s4 _ _ Ef).
  destruct (fresh_gaps (put_gh h1 s4)) as (l' & h2 & El' & L'); [split_and!; [by apply dom_empty_inv_L|done|done]|].
  run El'. run (eq_refl (modify _ (put_gh h2 (put_gh h1 s4)))).
  set (s5 := put_list_ (Some l') _). run (eq_refl (get s5)).
  change (buf_ s5) with (buf_ s4). rewrite B2, A2, Eb.
  destruct (free_buffer_spec (bh s5) b sz []) as (h3 & Efb & Hb3 & Hn3' & _); [change (bh s5) with (bh s4); by rewrite B4, A4|].
  run (zoom_Ret bh put_bh _ s5 _ _ Efb).
  destruct (fresh_buffer (put_bh h3 s5)) as (b' & h4 & Eb' & B'); [by split|].
  run Eb'. run (eq_refl (modify _ (put_bh h4 (put_bh h3 s5)))).
  edestruct (answer_keeps ∅ 0 0) as (s' & E & R & Hq'); cycle 2.
  { exists s'. split; [exact E|split; [exact R|]]. rewrite Hq'. cbn [conn_queue put_bh put_buf_ put_list_ put_gh s5].
    rewrite Hq4, Hq3. exact Hq. }
  2: done.
  apply (receiver_at_new l' b'); try done; simpl.
  - by rewrite B5, A5.
  - by rewrite B6, A6, Hpa.
  - by rewrite Hm4, Hm3.
  - by rewrite B7, A7.
  - rewrite Hn4, Hn3. change (net_ s2) with (net_ s). rewrite Hw, Hpa. by exists [].
  - rewrite Hq4, Hq3. simpl. rewrite Hq, Hpa. by exists [].
  - by rewrite B8, A8, Hpa.
Qed.
End run.

(** Everything below the number of packets, and nothing else, has arrived. *)
Lemma first_missing_all {A} chunks client pa D k n (s : rcv A) :
  receiver_at chunks client pa D k n s → (∀ i, 0 ≤ i < Z.of_nat (length chunks) → i ∈ D) → text chunks k = concat chunks.
Proof.
  intros (G & R & Hk & _) HD. unfold text. destruct (rc_below _ _ _ _ _ _ _ _ R) as [Hk0 _].
  rewrite take_ge; [done|]. destruct (decide (k < Z.of_nat (length chunks))); [|lia].
  exfalso. apply Hk, HD. lia.
Qed.

(** A receiver that has just accepted its first client. *)
Lemma first_request {A} getnameinfo getaddrinfo clock rand fopen_ok malloc_gaps malloc_bufs malloc_conn
    junk_node junk_gap junk_bnode pad chunks client (from : A) dgram argv passive s :
  (∀ n, malloc_gaps n = true) → (∀ n, malloc_bufs n = true) → (∀ n, malloc_conn n = true) → length pad = 3%nat →
  getnameinfo from = Some (ip client, port client) → client = mk_conn ACTIVE 0 (ip client) (port client) (filename client) →
  argv_ok argv passive → blank s → is_init (filename client) dgram →
  ∃ s1 s2, start_up clock malloc_gaps malloc_bufs argv passive s = Ret tt s1 ∧
    turn getnameinfo getaddrinfo clock rand fopen_ok malloc_gaps malloc_bufs malloc_conn junk_node junk_gap
      junk_bnode pad (EvPacket from dgram) s1 = Ret tt s2 ∧
    receiver_at chunks client (mk_past false [] [] (files s1)) ∅ 0 0 s2.
Proof.
  intros Hg Hb Hc Hpad Hfrom Hcl Hargv Hbl Hinit.
  destruct (start_up_spec clock malloc_gaps malloc_bufs Hg Hb argv passive s Hargv Hbl) as (s1 & E1 & I1).
  pose proof Hinit as (sec & usec & Hname & _).
  destruct (recv_init _ dgram (pkt_mem s1) Hinit (id_mem _ I1)) as (p & rest & Hl & Hread & Hpi & Hpl).
  set (s2 := put_mem (recv_into sizeof_upkt (pkt_mem s1) dgram) s1).
  assert (idle s2) as I2 by (destruct I1; by constructor).
  destruct (handle_init_idle getnameinfo clock rand malloc_gaps malloc_bufs malloc_conn pad
    chunks client (mk_past false [] [] (files s2)) Hg Hb Hc Hpad s2 p _ rest from eq_refl I2 Hpl Hname Hfrom Hcl) as (s3 & E3 & R3 & _).
  exists s1, s3. split_and!; [done| |done]. rewrite (turn_packet getnameinfo getaddrinfo clock rand fopen_ok malloc_gaps malloc_bufs malloc_conn
    junk_node junk_gap junk_bnode pad from dgram p s1 Hread). unfold handle_packet. by rewrite Hpi.
Qed.

(** ** Theorems *)

(** C10: The receiver, started with an accepted command line, gets a connection
    request for the file [name] and then any traffic of a transfer: data packets
    lost, repeated and reordered within a window of [MAX_GAPS] packets, requests
    of other clients, timeouts.  Memory and files being available, every turn
    returns without undefined behaviour.  Once a packet has arrived the file
    holds exactly the text of the packets before the first missing one, so the
    whole text once every packet has arrived; no report on the wire acknowledges
    a packet that has not arrived, nor a gap behind what has; and a report made now gives the first missing
    number and exactly the missing intervals. *)
Theorem receiver_correct {A} getnameinfo getaddrinfo clock rand fopen_ok malloc_gaps malloc_bufs malloc_conn
    junk_node junk_gap junk_bnode pad chunks client (from : A) dgram argv passive evs D s :
  (∀ n, fopen_ok n = true) → (∀ n, malloc_gaps n = true) → (∀ n, malloc_bufs n = true) → (∀ n, malloc_conn n = true) →
  length pad = 3%nat → Forall chunk_ok chunks → Z.of_nat (length (concat chunks)) < 2147483648 →
  Z.of_nat (length chunks) < 2147483547 → Z.of_nat (length evs) < 2147483647 →
  getnameinfo from = Some (ip client, port client) → is_Some (getaddrinfo (ip client) (port client)) →
  client = mk_conn ACTIVE 0 (ip client) (port client) (filename client) →
  argv_ok argv passive → blank s → is_init (filename client) dgram → traffic chunks ∅ evs D →
  ∃ k s' m,
    main getnameinfo getaddrinfo clock rand fopen_ok malloc_gaps malloc_bufs malloc_conn junk_node junk_gap
      junk_bnode pad argv passive (EvPacket from dgram :: evs) s = Ret tt s' ∧
    first_missing D k ∧
    (D ≠ ∅ → files s' !! filename client = Some (concat (take (Z.to_nat k) chunks))) ∧
    (D ≠ ∅ → (∀ i, 0 ≤ i < Z.of_nat (length chunks) → i ∈ D) → files s' !! filename client = Some (concat chunks)) ∧
    Forall (λ w, sound D w.2) (wire (net_ s')) ∧
    prepare_message s' = Ret m s' ∧ reports D k (greatest_recvd_seq (tr s')) m.
Proof.
  intros Hf Hg Hb Hc Hpad Hch Htot Hcnt Hev Hfrom Haddr Hcl Hargv Hbl Hinit Htr.
  destruct (first_request getnameinfo getaddrinfo clock rand fopen_ok malloc_gaps malloc_bufs malloc_conn junk_node
    junk_gap junk_bnode pad chunks client from dgram argv passive s Hg Hb Hc Hpad Hfrom Hcl Hargv Hbl Hinit) as (s2 & s3 & E1 & E2 & R3).
  destruct (traffic_spec getnameinfo getaddrinfo clock rand fopen_ok malloc_gaps malloc_bufs malloc_conn junk_node
    junk_gap junk_bnode pad chunks client (mk_past false [] [] (files s2)) Hf Hg Hb Hc Hpad Haddr ltac:(by rewrite Hcl) Hch Htot Hcnt _ _ _ eq_refl Htr
    0 0 s3 R3) as (k & s4 & E4 & R4); [lia|].
  pose proof R4 as (G & R & HkD & Hgr & Hfile).
  destruct (prepare_message_spec pad chunks client (mk_past false [] [] (files s2)) Hpad Hcnt D k G _ s4 R) as (m & Em & Hm).
  exists k, s4, m. split; [|split; [by eapply receiver_first_missing|]].
  { unfold main. run E1. cbn [for_each]. by run E2. }
  assert (D ≠ ∅ → files s4 !! filename client = Some (text chunks k)) as Hfl.
  { intros HD. destruct Hfile as [[_ F]|[? _]]; [exact F|done]. }
  assert (Forall (λ w, sound D w.2) (wire (net_ s4))) as Hw by (destruct (rc_wire _ _ _ _ _ _ _ _ R) as (w1 & -> & Hw1); exact Hw1).
  split; [exact Hfl|]. split; [|split; [exact Hw|by rewrite Hgr]].
  intros HD Hall. by rewrite (Hfl HD), (first_missing_all chunks client (mk_past false [] [] (files s2)) D k _ s4 R4 Hall).
Qed.

(** A transfer of "HI" and "!" from client 7, the second packet first. *)
Definition demo_client : conn := mk_conn ACTIVE 0 [55] [49] [102].
Definition demo_chunks : list (list Z) := [[72; 73]; [33]].
Definition demo_names (a : Z) : option (list Z * list Z) := Some ([48 + a], [49]).
Definition demo_addrs (i p : list Z) : option Z := (λ d, d - 48) <$> List.hd_error i.
Definition demo_evs : list (event Z) :=
  [EvPacket 7 (data_dgram 0 0 1 [33]); EvTimeout; EvPacket 7 (data_dgram 0 0 0 [72; 73]); EvPacket 7 (data_dgram 0 0 0 [72; 73])].
Definition demo_argv : list (list Z) := [[114]; [53]; [49]; WAN].
Definition demo_state : rcv Z :=
  mk_rcv (mk_params 0 0 0) [] None (mk_transfer 0 0 0 (0, 0) 0 0 (0, 0) (0, 0) (0, 0)) None None
    (mk_gheap ∅ ∅ ∅ 0) (mk_bheap ∅ ∅ 0) None ∅ false (replicate 1432 0) (mk_net true 64 0 []) 0 0 0.

Lemma demo_argv_ok : argv_ok demo_argv (λ _, Some [(true, true)]).
Proof.
  exists [114], [53], [49], WAN, [(true, true)]. split; [done|].
  split; [split; by vm_compute|]. split; [by left|]. split; [done|set_solver].
Qed.
Lemma demo_chunks_ok : Forall chunk_ok demo_chunks.
Proof. repeat constructor; simpl; try lia; set_solver. Qed.
Lemma demo_data i c : 0 ≤ i → demo_chunks !! Z.to_nat i = Some c → is_data demo_chunks i (data_dgram 0 0 i c).
Proof. intros ? ?. exists 0, 0, c. unfold time_ok, is_i32. split_and!; done || lia. Qed.

Lemma demo_traffic : traffic demo_chunks ∅ demo_evs {[0; 1]}.
Proof.
  assert (({[0; 1]} : gset Z) = ∅ ∪ {[1]} ∪ {[0]} ∪ {[0]}) as -> by set_solver.
  assert (∀ D : gset Z, D ⊆ {[0; 1]} → ∀ i, 0 ≤ i ≤ 1 → ∀ k, first_missing D k → i < k + MAX_GAPS) as Hw.
  { intros D _ i Hi k (Hk & _). unfold MAX_GAPS. lia. }
  apply (traffic_data _ _ 1); [by apply demo_data|by apply (Hw _); [set_solver|lia]|].
  apply traffic_timeout.
  apply (traffic_data _ _ 0); [by apply demo_data|by apply (Hw _); [set_solver|lia]|].
  apply (traffic_data _ _ 0); [by apply demo_data|by apply (Hw _); [set_solver|lia]|].
  apply traffic_nil.
Qed.

Lemma receiver_correct_witness :
  ∃ k s' m,
    main demo_names demo_addrs (λ n, (Z.of_nat n, 0)) (λ n, Z.of_nat n) (λ _, true) (λ _, true) (λ _, true) (λ _, true)
      (mk_node None None None) (mk_gap 0 0) (mk_bnode 0 None 0 []) [0; 0; 0] demo_argv (λ _, Some [(true, true)])
      (EvPacket 7 (take (32 + 1) (upkt_bytes (init_pkt 0 0 [102]))) :: demo_evs) demo_state = Ret tt s' ∧
    first_missing {[0; 1]} k ∧
    ({[0; 1]} ≠ (∅ : gset Z) → files s' !! [102] = Some (concat (take (Z.to_nat k) demo_chunks))) ∧
    ({[0; 1]} ≠ (∅ : gset Z) → (∀ i, 0 ≤ i < 2 → i ∈ ({[0; 1]} : gset Z)) → files s' !! [102] = Some [72; 73; 33]) ∧
    Forall (λ w, sound {[0; 1]} w.2) (wire (net_ s')) ∧
    prepare_message s' = Ret m s' ∧ reports {[0; 1]} k (greatest_recvd_seq (tr s')) m.
Proof.
  apply (receiver_correct demo_names demo_addrs (λ n, (Z.of_nat n, 0)) (λ n, Z.of_nat n) (λ _, true) (λ _, true)
    (λ _, true) (λ _, true) (mk_node None None None) (mk_gap 0 0) (mk_bnode 0 None 0 []) [0; 0; 0]
    demo_chunks demo_client 7 _ demo_argv (λ _, Some [(true, true)]) demo_evs {[0; 1]} demo_state); try done.
  - exact demo_chunks_ok.
  - exact demo_argv_ok.
  - exists 0, 0. unfold time_ok, is_i32, name_ok, MAX_FILENAME. split_and!; done || lia || set_solver.
  - exact demo_traffic.
Defined.

(** A data packet that arrives when there is no connection is taken for the
    next of a transfer: the receiver writes to a file that is not open, which is
    undefined behaviour. *)
Theorem stray_data_undefined {A} getnameinfo getaddrinfo clock rand fopen_ok malloc_gaps malloc_bufs malloc_conn
    junk_node junk_gap junk_bnode pad argv passive (from : A) chunks dgram s :
  (∀ n, malloc_gaps n = true) → (∀ n, malloc_bufs n = true) →
  Forall chunk_ok chunks → Z.of_nat (length chunks) < 2147483648 →
  argv_ok argv passive → blank s → is_data chunks 0 dgram →
  main getnameinfo getaddrinfo clock rand fopen_ok malloc_gaps malloc_bufs malloc_conn junk_node junk_gap
    junk_bnode pad argv passive [EvPacket from dgram] s = Undef.
Proof.
  intros Hg Hb Hch Hcnt Hargv Hbl Hdata.
  destruct (start_up_spec clock malloc_gaps malloc_bufs Hg Hb argv passive s Hargv Hbl) as (s1 & E1 & I1).
  destruct (recv_data chunks 0 dgram (pkt_mem s1) Hch Hcnt Hdata (id_mem _ I1))
    as (c & p & rest & _ & _ & _ & Hl & Hread & Hinit & Hfin & Hseq & _).
  unfold main. run E1. cbn [for_each]. unfold mbind at 1, prog_bind at 1. erewrite turn_packet by exact Hread.
  unfold handle_packet. rewrite Hinit, Hfin. set (s2 := put_mem _ s1).
  assert (begin_transfer clock fopen_ok s2 = Ret tt s2) as E2.
  { unfold begin_transfer. run (eq_refl (get s2)). change (curr_conn s2) with (curr_conn s1). by rewrite (id_conn _ I1). }
  unfold handle_data. run E2. unfold accept_data. run (eq_refl (get s2)).
  change (tr s2) with (tr s1). rewrite (id_sow _ I1), Hseq. cbn [Z.leb Z.compare].
  assert (in_order clock malloc_gaps junk_node junk_gap p s2 = Undef) as E3; [|by unfold mbind, prog_bind; simpl; rewrite E3].
  assert (∀ buf (s' : rcv A), fp s' = None → fputs buf s' = Undef) as Hputs by (intros buf s' Hfp; unfold fputs, updates; by rewrite Hfp).
  unfold in_order, write_chunk. unfold mbind, prog_bind. cbn [set_tr modify].
  by rewrite Hputs by exact (id_fp _ I1).
Qed.

Lemma stray_data_undefined_witness :
  main demo_names demo_addrs (λ n, (Z.of_nat n, 0)) (λ n, Z.of_nat n) (λ _, true) (λ _, true) (λ _, true) (λ _, true)
    (mk_node None None None) (mk_gap 0 0) (mk_bnode 0 None 0 []) [0; 0; 0] demo_argv (λ _, Some [(true, true)])
    [EvPacket 9 (data_dgram 0 0 0 [72; 73])] demo_state = Undef.
Proof.
  apply (stray_data_undefined _ _ _ _ _ _ _ _ _ _ _ _ _ _ _ demo_chunks).
  - done.
  - done.
  - exact demo_chunks_ok.
  - done.
  - exact demo_argv_ok.
  - by constructor.
  - by apply demo_data.
Defined.
