(* ===== verification/RcvClose.v ===== *)
(** * Closing a connection of the file receiver

    What the FIN of the client and the alarm after it do: the next client of the
    queue is served and every block of the old connection is given back; and the
    two places where a late datagram does harm. *)
From S2P Require Import Prelude Stdio Bytes Clock GapList Upkt RcvBuffer SendtoDbg Rcv RcvSpec.
Open Scope Z_scope.

(** The FIN of the sender: a header without payload. *)
Definition is_fin (dgram : list Z) : Prop :=
  ∃ sec usec, time_ok sec usec ∧ dgram = take 32 (upkt_bytes (set_fin (create_pkt sec usec))).

Lemma recv_fin dgram old : is_fin dgram → length old = 1432%nat →
  ∃ p, length (recv_into sizeof_upkt old dgram) = 1432%nat ∧
    read_upkt (recv_into sizeof_upkt old dgram) = Some p ∧ init p = false ∧ fin p = true.
Proof.
  intros (sec & usec & [Hs Hu] & ->) Ho.
  destruct (recv_upkt (set_fin (create_pkt sec usec)) 32 old) as [Hl (rest & Hr & _)]; [|done|lia|].
  { refine (conj Hs (conj Hu (conj _ (conj _ _)))); simpl; unfold is_i32, is_u32; lia. }
  eexists. split; [exact Hl|]. split; [exact Hr|]. done.
Qed.

Section close.
Context {A : Type}.
Context (getnameinfo : A → option (list Z * list Z)) (getaddrinfo : list Z → list Z → option A).
Context (clock : nat → timeval) (rand : nat → Z) (fopen_ok : nat → bool).
Context (malloc_gaps malloc_bufs malloc_conn : nat → bool).
Context (junk_node : node) (junk_gap : gap) (junk_bnode : buffer_node) (pad : list Z).
Context (chunks : list (list Z)) (client : conn) (pa : past A).
Implicit Types (s : rcv A).

Hypothesis Hfopen : ∀ n, fopen_ok n = true.
Hypothesis Hgaps : ∀ n, malloc_gaps n = true.
Hypothesis Hbufs : ∀ n, malloc_bufs n = true.
Hypothesis Hpad : length pad = 3%nat.
Hypothesis Htotal : Z.of_nat (length (concat chunks)) < 2147483648.
Hypothesis Hcount : Z.of_nat (length chunks) < 2147483547.

Abbreviation turn_ := (turn getnameinfo getaddrinfo clock rand fopen_ok malloc_gaps malloc_bufs malloc_conn
  junk_node junk_gap junk_bnode pad).

Lemma is_client_self c : is_client c (ip c) (port c) = true.
Proof. unfold is_client. by rewrite !bool_decide_true. Qed.

(** A control packet of the receiver: only the network changes. *)
Lemma send_control p (dst : A) s : length (payload p) = 1400%nat →
  ∃ n', send_upkt rand p dst s = Ret tt (put_net n' s) ∧
    (wire n' = wire (net_ s) ∨ wire n' = wire (net_ s) ++ [(dst, take 32 (upkt_bytes p))]).
Proof using Type. clear.
  intros Hl. assert (0 ≤ 32 ≤ Z.of_nat (length (upkt_bytes p))) as Hlen.
  { unfold upkt_bytes. rewrite !length_app, length_upkt_hdr, Hl. simpl. lia. }
  destruct (sendto_dbg_spec rand (upkt_bytes p) 32 dst (net_ s) Hlen) as (n' & E & _ & _ & Ew).
  exists n'. split.
  - unfold send_upkt, send. by run (zoom_Ret net_ put_net _ s _ _ E).
  - rewrite Ew. case_match; [by left|by right].
Qed.

(** The FIN has set the alarm. *)
Definition armed : past A := mk_past true (sent_before pa) (waiting pa) (files_before pa).

(** The FIN of the current client. *)
Lemma handle_fin_spec D k G n s from :
  receiving chunks client pa D k G n s → getnameinfo from = Some (ip client, port client) →
  ∃ s', handle_fin_pkt getnameinfo clock rand from s = Ret tt s' ∧
    receiving chunks (set_state CLOSING client) armed D k G n s' ∧
    fp s' = None ∧ files s' = files s ∧ greatest_recvd_seq (tr s') = greatest_recvd_seq (tr s) ∧
    conn_queue s' = conn_queue s.
Proof.
  intros R Hfrom. unfold handle_fin_pkt. run (eq_refl (gettimeofday clock s)). run (eq_refl (set_tr _ _)).
  set (s1 := put_tr _ _). run (eq_refl (get s1)).
  assert ((match fp s1 with Some _ => fclose | None => mret tt end) s1 = Ret tt (put_file None (files s) s1)) as E1.
  { destruct (fp s1) eqn:Efp; [done|]. change (fp s1) with (fp s) in Efp. unfold s1, put_file. by rewrite <-Efp. }
  run E1. rewrite Hfrom. run (eq_refl (get _)). cbn [put_file curr_conn s1 put_tr put_counts].
  rewrite (rc_conn _ _ _ _ _ _ _ _ R), is_client_self. run (eq_refl (modify _ _)).
  set (s2 := put_conn _ _). unfold new_pkt.
  erewrite bind_Ret; [|reflexivity]. set (s3 := put_counts _ _ _ s2).
  destruct (send_control (set_fin (create_pkt (clock (clocks s2)).1 (clock (clocks s2)).2)) from s3) as (n' & E & Hw); [done|].
  run E. eexists. split; [reflexivity|]. split; [|done].
  destruct R. constructor; try done. simpl. change (wire (net_ s3)) with (wire (net_ s)) in Hw.
  destruct Hw as [-> | ->]; [done|]. apply wire_sound_snoc; [done|]. by apply sound_upkt.
Qed.

Lemma fin_turn D k G n s from dgram :
  receiving chunks client pa D k G n s → getnameinfo from = Some (ip client, port client) → is_fin dgram →
  ∃ s', turn_ (EvPacket from dgram) s = Ret tt s' ∧
    receiving chunks (set_state CLOSING client) armed D k G n s' ∧
    fp s' = None ∧ files s' = files s ∧ greatest_recvd_seq (tr s') = greatest_recvd_seq (tr s) ∧
    conn_queue s' = conn_queue s.
Proof.
  intros R Hfrom Hfin. destruct (recv_fin dgram (pkt_mem s) Hfin) as (p & Hl & Hread & Hi & Hf); [apply R|].
  set (s1 := put_mem (recv_into sizeof_upkt (pkt_mem s) dgram) s).
  assert (receiving chunks client pa D k G n s1) as R1 by (destruct R; by constructor).
  destruct (handle_fin_spec D k G n s1 from R1 Hfrom) as (s2 & E & R2 & Hr).
  exists s2. split; [|split; [done|exact Hr]].
  erewrite turn_packet by exact Hread. unfold handle_packet. by rewrite Hi, Hf.
Qed.

(** The alarm: the connection is given up. *)
Definition all_freed s : Prop :=
  curr_conn s = None ∧ list_ s = None ∧ buf_ s = None ∧
  nodes (gh s) = ∅ ∧ gaps (gh s) = ∅ ∧ lists (gh s) = ∅ ∧ bnodes (bh s) = ∅ ∧ buffers (bh s) = ∅.

Lemma close_conn_spec D k G n s :
  receiving chunks client pa D k G n s → fp s = None →
  ∃ s', close_conn clock malloc_gaps malloc_bufs s = Ret tt s' ∧ files s' = files s ∧ wire (net_ s') = wire (net_ s) ∧
    match conn_queue s with
    | [] => all_freed s' ∧ conn_queue s' = []
    | c :: rest => conn_queue s' = rest ∧ curr_conn s' = Some c ∧
        ∀ chunks', receiver_at chunks' c (mk_past (was_set pa) (wire (net_ s)) rest (files s)) ∅ 0 0 s'
    end.
Proof.
  intros R Hfp. unfold close_conn. run (eq_refl (get s)).
  pose proof (rc_stat _ _ _ _ _ _ _ _ R) as Hst. pose proof (text_length chunks k) as Htl.
  erewrite bind_Ret; [|apply lift_Some, int_add_ok; lia].
  do 2 run (eq_refl (set_tr _ _)). set (s1 := put_tr _ (put_tr _ s)).
  rewrite (rc_conn _ _ _ _ _ _ _ _ R). run (lift_Some _ _ s1 (eq_refl (Some client))).
  destruct (rc_list _ _ _ _ _ _ _ _ R) as (l & El & cells & L & _).
  destruct (rc_buf _ _ _ _ _ _ _ _ R) as (b & Eb & sz & bcells & B & _).
  destruct (free_list_spec ∅ (gh s1) l cells L) as (h1 & E1 & Hl1 & Hn1 & Hg1). rewrite El.
  run (zoom_Ret gh put_gh _ s1 _ _ E1).
  destruct (free_buffer_spec (bh s1) b sz bcells B) as (h2 & E2 & Hb2 & Hn2 & _). rewrite Eb.
  run (zoom_Ret bh put_bh _ (put_gh h1 s1) _ _ E2). apply dom_empty_inv_L in Hn1.
  destruct (conn_queue s) as [|c rest] eqn:Eq.
  { do 2 run (eq_refl (modify _ _)). eexists. split; [reflexivity|]. by split_and!. }
  do 2 run (eq_refl (modify _ _)). set (s2 := put_conn (Some c) _).
  destruct (reset_transfer_spec clock s2) as (s3 & E3 & [A1 A2 A3 A4 _ A5 A6 A7 A8] & Hm3 & Hn3 & Hq3 & Ht1 & Ht2 & Ht3).
  run E3. cbn in A1, A2, A3, A4, A5, A6, A7, A8.
  change (conn_queue s2) with rest in Hq3.
  destruct (fresh_gaps malloc_gaps Hgaps s3) as (l' & h3 & E4 & L'); [by rewrite A3|].
  destruct (fresh_buffer malloc_bufs Hbufs (put_list_ (Some l') (put_gh h3 s3))) as (b' & h4 & E5 & B'); [simpl; by rewrite A4|].
  assert (new_lists malloc_gaps malloc_bufs s3 = Ret tt (put_buf_ (Some b') (put_bh h4 (put_list_ (Some l') (put_gh h3 s3))))) as Enew.
  { unfold new_lists. run E4. run (eq_refl (modify _ (put_gh h3 s3))). run E5. reflexivity. }
  run Enew. set (s4 := put_buf_ _ _).
  destruct (reset_statistics_spec clock s4) as (s5 & E6 & [B1 B2 B3 B4 _ B5 B6 B7 B8] & Hm5 & Hn5 & Hq5 & Hu1 & Hu2 & Hu3 & Hu4 & Hu5).
  cbn in B1, B2, B3, B4, B5, B6, B7, B8.
  exists s5. split; [exact E6|]. split; [by rewrite B8, A8|]. split; [by rewrite Hn5; change (net_ s4) with (net_ s3); rewrite Hn3|].
  split; [by rewrite Hq5|]. split; [by rewrite B5, A5|]. intros chunks'.
  apply (receiver_at_new chunks' c (mk_past (was_set pa) (wire (net_ s)) rest (files s)) l' b'); try done.
  - by rewrite B3.
  - by rewrite B4.
  - by rewrite Hu1.
  - by rewrite Hu2.
  - by rewrite Hu3.
  - by rewrite B5, A5.
  - rewrite B6, A6. apply R.
  - rewrite Hm5. change (pkt_mem s4) with (pkt_mem s3). rewrite Hm3. apply R.
  - by rewrite B7, A7.
  - rewrite Hn5. change (net_ s4) with (net_ s3). rewrite Hn3. exists []. by rewrite app_nil_r.
  - rewrite Hq5. change (conn_queue s4) with (conn_queue s3). rewrite Hq3. exists []. by rewrite app_nil_r.
  - by rewrite B8, A8.
Qed.
End close.

(** ** Clients that wait *)

(** Nothing has arrived of the current client, and nothing was alarmed. *)
Definition now {A} (s : rcv A) : past A := mk_past false (wire (net_ s)) (conn_queue s) (files s).
Definition ready {A} (c : conn) (s : rcv A) : Prop := ∀ chunks, receiver_at chunks c (now s) ∅ 0 0 s.

Lemma receiver_at_now {A} chunks c (pa : past A) D k n s :
  was_set pa = false → receiver_at chunks c pa D k n s → receiver_at chunks c (now s) D k n s.
Proof.
  intros Hal (G & [] & Hk & Hg & Hf). exists G. split_and!; [|done..]. constructor; try done.
  - by rewrite Hal in *.
  - exists []. by rewrite app_nil_r.
  - exists []. by rewrite app_nil_r.
Qed.
Lemma ready_past {A} c (s : rcv A) pa :
  was_set pa = false → (∀ chunks, receiver_at chunks c pa ∅ 0 0 s) → ready c s.
Proof. intros Hal H chunks. by eapply receiver_at_now. Qed.
Lemma ready_frame {A} c (s s' : rcv A) :
  ready c s → same_transfer s s' → length (pkt_mem s') = 1432%nat → ready c s'.
Proof.
  intros R S Hm chunks. apply (receiver_at_now _ _ (mk_past false (wire (net_ s')) (conn_queue s') (files s))); [done|].
  destruct (R chunks) as (G & [? ? ? ? ? ? ? ? ? ? ? ? ? ? ?] & Hk & Hg & Hf). destruct S as [E1 E2 E3 E4 E5 E6 E7 E8 E9].
  exists G. split_and!; [|done|by rewrite E5|].
  - constructor; rewrite ?E1, ?E2, ?E3, ?E4, ?E5, ?E6, ?E7, ?E9; try done.
    + exists []. by rewrite app_nil_r.
    + exists []. by rewrite app_nil_r.
  - unfold file_at. by rewrite E8, E9.
Qed.
Lemma ready_conn {A} c (s : rcv A) : ready c s → curr_conn s = Some c ∧ length (pkt_mem s) = 1432%nat.
Proof. intros R. destruct (R []) as (G & RG & _). split; apply RG. Qed.
Lemma same_transfer_trans {A} (s1 s2 s3 : rcv A) : same_transfer s1 s2 → same_transfer s2 s3 → same_transfer s1 s3.
Proof. intros [] []. constructor; congruence. Qed.

(** A transfer that fits the [int]s of the receiver. *)
Definition transfer_ok (chunks : list (list Z)) : Prop :=
  Forall chunk_ok chunks ∧ Z.of_nat (length (concat chunks)) < 2147483648 ∧ Z.of_nat (length chunks) < 2147483547.

Section serve.
Context {A : Type}.
Context (getnameinfo : A → option (list Z * list Z)) (getaddrinfo : list Z → list Z → option A).
Context (clock : nat → timeval) (rand : nat → Z) (fopen_ok : nat → bool).
Context (malloc_gaps malloc_bufs malloc_conn : nat → bool).
Context (junk_node : node) (junk_gap : gap) (junk_bnode : buffer_node) (pad : list Z).
Implicit Types (s : rcv A).

Hypothesis Hfopen : ∀ n, fopen_ok n = true.
Hypothesis Hgaps : ∀ n, malloc_gaps n = true.
Hypothesis Hbufs : ∀ n, malloc_bufs n = true.
Hypothesis Hconns : ∀ n, malloc_conn n = true.
Hypothesis Hpad : length pad = 3%nat.
Hypothesis Haddr : ∀ i p, is_Some (getaddrinfo i p).

Abbreviation turn_ := (turn getnameinfo getaddrinfo clock rand fopen_ok malloc_gaps malloc_bufs malloc_conn
  junk_node junk_gap junk_bnode pad).

(** The first data packet wakes a sleeping connection. *)
Lemma begin_transfer_wakes chunks c pa k n s :
  conn_st c = SLEEPING → receiver_at chunks c pa ∅ k n s →
  ∃ s1, begin_transfer clock fopen_ok s = Ret tt s1 ∧ receiving chunks (set_state ACTIVE c) pa ∅ k (greatest_recvd_seq (tr s)) n s1 ∧
    file_at chunks (set_state ACTIVE c) k s1 ∧ greatest_recvd_seq (tr s1) = greatest_recvd_seq (tr s).
Proof.
  intros Hc (G & R & HkD & Hgr & Hfile). unfold begin_transfer. run (eq_refl (get s)).
  pose proof R as [? ? [Hk0 Hb] ? ? ? ? ? ? Hcn ? ? ? ? Hfiles].
  assert (k = 0) as ->.
  { destruct (decide (k = 0)); [done|]. specialize (Hb 0 ltac:(lia)). set_solver. }
  rewrite Hcn, bool_decide_true by done. rewrite Hgr.
  erewrite bind_Ret by reflexivity. destruct Hfile as [[Hfp F]|[_ Hfp]]; rewrite Hfp.
  - eexists. split; [reflexivity|]. split; [|done]. by constructor.
  - eexists. split; [by apply fopen_Ret|]. split; [|split; [|done]].
    + constructor; try done. intros name Hname. simpl. rewrite lookup_insert_ne by done. by apply Hfiles.
    + split; [done|]. apply lookup_insert_eq.
Qed.

Lemma handle_timeout_sleeping chunks c pa D k n s :
  conn_st c = SLEEPING → receiver_at chunks c pa D k n s →
  ∃ s', handle_timeout getaddrinfo clock rand pad s = Ret tt s' ∧ receiver_at chunks c pa D k n s'.
Proof.
  intros Hc R. unfold handle_timeout. run (eq_refl (get s)). pose proof R as (G & RG & _).
  rewrite (rc_conn _ _ _ _ _ _ _ _ RG), Hc. destruct (Haddr (ip c) (port c)) as [addr ->].
  by eapply answer_spec.
Qed.

(** The traffic of a client that may still be asleep. *)
Lemma traffic_wakes chunks c pa evs D D' :
  conn_st c = SLEEPING → was_set pa = false → transfer_ok chunks → traffic chunks D evs D' → D = ∅ → ∀ k n s,
  receiver_at chunks c pa D k n s → 0 ≤ n ∧ n + Z.of_nat (length evs) < 2147483647 →
  ∃ k' n' s', for_each evs turn_ s = Ret tt s' ∧
    (receiver_at chunks (set_state ACTIVE c) pa D' k' n' s' ∨ D' = ∅ ∧ receiver_at chunks c pa D' k' n' s').
Proof.
  intros Hc Hal (Hch & Htot & Hcnt).
  induction 1 as [D|D i from dgram evs D' Hd Hwin Ht _|D name from dgram evs D' Hd _ IH|D evs D' _ IH|D evs D' _ IH];
    intros -> k n s R Hn; cbn [for_each length] in *.
  - exists k, n, s. split; [done|]. by right.
  - destruct (receiver_at_sound _ _ _ _ _ _ _ R) as (Hm & _).
    destruct (recv_data chunks i dgram (pkt_mem s)) as
      (ch & p & rest & Hi & Hir & Hok & Hl & Hread & Hinit & Hfin & Hseq & Hlen & Hpl & Hlpl); [done|lia|done|done|].
    pose proof (receiver_at_mem _ _ _ _ _ _ s dgram _ R Hl) as R1.
    destruct (begin_transfer_wakes _ _ _ _ _ _ Hc R1) as (s1 & E1 & R2 & F2 & Hgr).
    destruct (accept_data_spec getaddrinfo clock rand fopen_ok malloc_gaps malloc_bufs malloc_conn junk_node junk_gap
      junk_bnode pad chunks (set_state ACTIVE c) pa Hfopen Hgaps Hbufs Hconns Hpad ltac:(apply Haddr) ltac:(done) Hch Htot Hcnt
      ∅ k _ n s1 p i ch from R2 F2 Hgr) as (k1 & s2 & E2 & R3 & _).
    { set_solver. }
    { split_and!; try done; [apply Hir|by exists rest]. }
    { apply Hwin. by eapply receiver_first_missing. }
    { lia. }
    erewrite bind_Ret; cycle 1.
    { erewrite turn_packet by exact Hread. unfold handle_packet. rewrite Hinit, Hfin. unfold handle_data. run E1. exact E2. }
    destruct (traffic_spec getnameinfo getaddrinfo clock rand fopen_ok malloc_gaps malloc_bufs malloc_conn junk_node
      junk_gap junk_bnode pad chunks (set_state ACTIVE c) pa Hfopen Hgaps Hbufs Hconns Hpad ltac:(apply Haddr) ltac:(done) Hch Htot Hcnt
      _ _ _ Hal Ht k1 (n + 1) s2 R3) as (k' & s' & E & R'); [lia|].
    eexists k', _, s'. split; [done|by left].
  - destruct (receiver_at_sound _ _ _ _ _ _ _ R) as (Hm & _). pose proof Hd as (sec & usec & Hname & _).
    destruct (recv_init name dgram (pkt_mem s) Hd Hm) as (p & rest & Hl & Hread & Hinit & Hpl).
    pose proof (receiver_at_mem _ _ _ _ _ _ s dgram _ R Hl) as R1.
    edestruct (handle_init_busy getnameinfo clock rand malloc_gaps malloc_bufs malloc_conn pad) as (s2 & E & R2); [done|done|exact R1|exact Hpl|done|].
    erewrite bind_Ret; [|erewrite turn_packet by exact Hread; unfold handle_packet; rewrite Hinit; exact E].
    apply (IH eq_refl k n s2 R2). lia.
  - destruct (handle_timeout_sleeping _ _ _ _ _ _ _ Hc R) as (s1 & E & R1).
    run (E : turn_ EvTimeout s = Ret tt s1). apply (IH eq_refl k n s1 R1). lia.
  - assert (turn_ EvAlarm s = Ret tt s) as Eturn.
    { unfold turn. run (eq_refl (get s)). destruct R as (G & R & _). by rewrite (rc_alarm _ _ _ _ _ _ _ _ R), Hal. }
    run Eturn. apply (IH eq_refl k n s R). lia.
Qed.

(** *** One client after the other *)

(** What a client does: its request, the traffic of its file, its FIN. *)
Record session := mk_session {
  ss_ip : list Z;
  ss_port : list Z;
  ss_name : list Z;
  ss_chunks : list (list Z);
  ss_from : A;
  ss_init : list Z;
  ss_evs : list (event A);
  ss_fin : list Z
}.
Definition conn_of (st : conn_state) (ss : session) : conn := mk_conn st 0 (ss_ip ss) (ss_port ss) (ss_name ss).
Definition address (ss : session) : list Z * list Z := (ss_ip ss, ss_port ss).
(** Every packet of the file arrives. *)
Definition session_ok (ss : session) : Prop :=
  getnameinfo (ss_from ss) = Some (address ss) ∧ is_init (ss_name ss) (ss_init ss) ∧ is_fin (ss_fin ss) ∧
  transfer_ok (ss_chunks ss) ∧ ss_chunks ss ≠ [] ∧ Z.of_nat (length (ss_evs ss)) < 2147483647 ∧
  ∃ D, traffic (ss_chunks ss) ∅ (ss_evs ss) D ∧ ∀ i, 0 ≤ i < Z.of_nat (length (ss_chunks ss)) → i ∈ D.
Definition request (ss : session) : event A := EvPacket (ss_from ss) (ss_init ss).
Definition transfer_events (ss : session) : list (event A) :=
  ss_evs ss ++ [EvPacket (ss_from ss) (ss_fin ss); EvAlarm].

(** After a client: the next one is current, or everything is given back. *)
Definition moved_on (q : list conn) s : Prop :=
  match q with
  | [] => all_freed s ∧ conn_queue s = []
  | c :: rest => ready c s ∧ conn_queue s = rest
  end.

(** The alarm after a FIN. *)
Lemma alarm_turn chunks c pa D k G n s :
  transfer_ok chunks → receiving chunks c (armed pa) D k G n s → fp s = None →
  Forall (λ c, conn_st c = SLEEPING) (conn_queue s) →
  ∃ s', turn_ EvAlarm s = Ret tt s' ∧ files s' = files s ∧ moved_on (conn_queue s) s'.
Proof.
  intros (_ & Htot & _) R Hfp Hq. unfold turn. run (eq_refl (get s)). rewrite (rc_alarm _ _ _ _ _ _ _ _ R). cbn [armed was_set].
  run (eq_refl (modify _ s)). set (s1 := put_alarm false s).
  set (pa1 := mk_past false (sent_before pa) (waiting pa) (files_before pa)).
  assert (receiving chunks c pa1 D k G n s1) as R1 by (destruct R; by constructor).
  destruct (close_conn_spec clock malloc_gaps malloc_bufs pad chunks c pa1 Hgaps Hbufs Hpad Htot D k G n s1 R1 Hfp)
    as (s2 & E & Hf & _ & Hnext).
  run E. change (conn_queue s1) with (conn_queue s) in Hnext.
  destruct (conn_queue s) as [|c' rest].
  { destruct Hnext as [Hfree Hq2]. exists s2. split; [|by split].
    unfold handle_timeout. run (eq_refl (get s2)). destruct Hfree as [Hcn _]. by rewrite Hcn. }
  apply Forall_cons in Hq as [Hc' _]. destruct Hnext as (Hq2 & Hcn2 & R2).
  unfold handle_timeout. run (eq_refl (get s2)). rewrite Hcn2, Hc'. destruct (Haddr (ip c') (port c')) as [addr ->].
  erewrite bind_Ret by reflexivity. set (s3 := put_counts _ _ _ s2).
  destruct (send_control rand (set_init (create_pkt (clock (clocks s2)).1 (clock (clocks s2)).2)) addr s3) as (n' & En & _); [done|].
  exists (put_net n' s3). split; [exact En|]. split; [done|]. split; [|done].
  assert (ready c' s2) as R2' by (eapply ready_past; [|exact R2]; done).
  apply (ready_frame _ s2); [done|by constructor|exact (proj2 (ready_conn c' s2 R2'))].
Qed.

(** One client, from the moment it is current to the next one. *)
Lemma session_served ss st s :
  session_ok ss → st ≠ CLOSING → ready (conn_of st ss) s → Forall (λ c, conn_st c = SLEEPING) (conn_queue s) →
  ∃ s' extra, for_each (transfer_events ss) turn_ s = Ret tt s' ∧
    files s' !! ss_name ss = Some (concat (ss_chunks ss)) ∧
    (∀ name, name ≠ ss_name ss → files s' !! name = files s !! name) ∧
    Forall (λ c, conn_st c = SLEEPING) extra ∧ moved_on (conn_queue s ++ extra) s'.
Proof.
  intros (Hfrom & _ & Hfin & Hok & Hne & Hlen & D & Ht & HD) Hst R Hq.
  assert (D ≠ ∅) as HD0.
  { intros ->. assert (0 ∈ (∅ : gset Z)); [|set_solver]. apply HD. destruct (ss_chunks ss); [done|simpl; lia]. }
  assert (∃ k n s1, for_each (ss_evs ss) turn_ s = Ret tt s1 ∧
    receiver_at (ss_chunks ss) (conn_of ACTIVE ss) (now s) D k n s1) as (k & n & s1 & E1 & R1).
  { specialize (R (ss_chunks ss)). destruct st; [| |done].
    - destruct (traffic_wakes (ss_chunks ss) (conn_of SLEEPING ss) (now s) _ _ _ eq_refl eq_refl Hok Ht eq_refl 0 0 s R)
        as (k & n & s1 & E & [R1|[? _]]); [lia|by exists k, n, s1|done].
    - destruct Hok as (Hch & Htot & Hcnt).
      edestruct (traffic_spec getnameinfo getaddrinfo clock rand fopen_ok malloc_gaps malloc_bufs malloc_conn junk_node
        junk_gap junk_bnode pad (ss_chunks ss) (conn_of ACTIVE ss) (now s)) as (k & s1 & E & R1); try done.
      by eexists k, _, s1. }
  pose proof (first_missing_all _ _ _ _ _ _ _ R1 HD) as Hall. destruct R1 as (G & R1 & _ & _ & [[Hfp F]|[? _]]); [|done].
  rewrite Hall in F.
  destruct (fin_turn getnameinfo getaddrinfo clock rand fopen_ok malloc_gaps malloc_bufs malloc_conn junk_node
    junk_gap junk_bnode pad _ _ _ _ _ _ _ _ _ _ R1 Hfrom Hfin) as (s2 & E2 & R2 & Hfp2 & Hf2 & _ & Hq2).
  destruct (rc_queue _ _ _ _ _ _ _ _ R1) as (extra & Eq & Hex). cbn [now waiting] in Eq.
  destruct (alarm_turn _ _ _ _ _ _ _ s2 Hok R2 Hfp2) as (s3 & E3 & Hf3 & Hm); [by rewrite Hq2, Eq; apply Forall_app|].
  exists s3, extra. split_and!.
  - unfold transfer_events. rewrite for_each_app. run E1. cbn [for_each]. run E2. by run E3.
  - by rewrite Hf3, Hf2.
  - intros name Hname. rewrite Hf3, Hf2. by apply (rc_files _ _ _ _ _ _ _ _ R1).
  - done.
  - by rewrite <-Eq, <-Hq2.
Qed.

(** All of those that wait. *)
Lemma sessions_served sss : ∀ ss st s rest,
  Forall session_ok (ss :: sss) → NoDup (ss_name <$> ss :: sss) → st ≠ CLOSING → ready (conn_of st ss) s →
  conn_queue s = (conn_of SLEEPING <$> sss) ++ rest → Forall (λ c, conn_st c = SLEEPING) rest →
  ∃ s' extra, for_each (concat (transfer_events <$> ss :: sss)) turn_ s = Ret tt s' ∧
    Forall (λ ss, files s' !! ss_name ss = Some (concat (ss_chunks ss))) (ss :: sss) ∧
    (∀ name, name ∉ ss_name <$> ss :: sss → files s' !! name = files s !! name) ∧
    moved_on (rest ++ extra) s'.
Proof.
  induction sss as [|ss2 sss IH]; intros ss st s rest [Hss Hoks]%Forall_cons [Hnin Hnd]%NoDup_cons Hst R Hq Hrest;
    destruct (session_served ss st s Hss Hst R) as (s1 & extra & E1 & F1 & Hf1 & Hex & Hm1).
  { by rewrite Hq. }
  { exists s1, extra. rewrite Hq in Hm1. split_and!; [|by apply Forall_singleton| |done].
    - cbn. by rewrite app_nil_r.
    - intros name Hname. apply Hf1. set_solver. }
  { rewrite Hq. apply Forall_app. split; [|done]. apply Forall_fmap, Forall_true. done. }
  rewrite Hq, <-app_assoc in Hm1. destruct Hm1 as [R1 Hq1].
  destruct (IH ss2 SLEEPING s1 (rest ++ extra) Hoks Hnd) as (s2 & extra2 & E2 & F2 & Hf2 & Hm2); [done|done|done|by apply Forall_app|].
  exists s2, (extra ++ extra2). split_and!.
  - change (concat (transfer_events <$> ss :: ss2 :: sss)) with (transfer_events ss ++ concat (transfer_events <$> ss2 :: sss)).
    rewrite for_each_app. by run E1.
  - apply Forall_cons. split; [|done]. by rewrite Hf2.
  - intros name Hname. rewrite fmap_cons, not_elem_of_cons in Hname. destruct Hname. by rewrite Hf2, Hf1.
  - by rewrite app_assoc.
Qed.

(** The request of a client while another one is served. *)
Lemma request_queued c ss s :
  session_ok ss → ready c s → address ss ≠ (ip c, port c) →
  Forall (λ c', address ss ≠ (ip c', port c')) (conn_queue s) →
  ∃ s', turn_ (request ss) s = Ret tt s' ∧ ready c s' ∧ conn_queue s' = conn_queue s ++ [conn_of SLEEPING ss].
Proof.
  intros (Hfrom & Hinit & _) R Hc Hq. pose proof (ready_conn c s R) as [Hcn Hm].
  destruct (recv_init _ _ (pkt_mem s) Hinit Hm) as (p & rest & Hl & Hread & Hpi & Hpl).
  pose proof Hinit as (sec & usec & Hname & _).
  unfold request. erewrite turn_packet by exact Hread. unfold handle_packet. rewrite Hpi.
  set (s1 := put_mem _ s). unfold handle_init_pkt. rewrite Hfrom. unfold address. cbv iota.
  run (eq_refl (get s1)). change (curr_conn s1) with (curr_conn s). change (conn_queue s1) with (conn_queue s). rewrite Hcn.
  assert (∀ c', address ss ≠ (ip c', port c') → is_client c' (ss_ip ss) (ss_port ss) = false) as Hother.
  { intros c' Hne. unfold is_client. apply andb_false_iff. rewrite !bool_decide_eq_false.
    destruct (decide (ip c' = ss_ip ss)) as [Ei|?]; [right; intros Ep; apply Hne; unfold address; congruence|by left]. }
  rewrite (Hother c Hc).
  assert (existsb (λ c', is_client c' (ss_ip ss) (ss_port ss)) (conn_queue s) = false) as ->.
  { induction Hq as [|c' q Hne _ IH]; [done|]. simpl. by rewrite (Hother c' Hne). }
  erewrite bind_Ret; [|unfold malloc_conn_; rewrite Hconns; reflexivity]. set (s2 := put_counts _ _ _ s1).
  rewrite Hpl. run (lift_Some _ _ s2 (strcpy_filename_ok _ rest Hname)). run (eq_refl (modify _ s2)).
  fold (conn_of SLEEPING ss). set (s3 := put_queue _ s2).
  erewrite bind_Ret by reflexivity.
  set (s4 := put_counts _ _ _ s3).
  destruct (send_control rand (set_sleep (create_pkt (clock (clocks s3)).1 (clock (clocks s3)).2)) (ss_from ss) s4) as (n' & En & _); [done|].
  exists (put_net n' s4). split; [exact En|]. split; [|done].
  apply (ready_frame _ s); [done|by constructor|done].
Qed.

Lemma requests_queued sss : ∀ c s,
  Forall session_ok sss → ready c s → NoDup ((ip c, port c) :: (address <$> sss)) →
  Forall (λ c', (ip c', port c') ∉ address <$> sss) (conn_queue s) →
  ∃ s', for_each (request <$> sss) turn_ s = Ret tt s' ∧ ready c s' ∧
    conn_queue s' = conn_queue s ++ (conn_of SLEEPING <$> sss).
Proof.
  induction sss as [|ss sss IH]; intros c s Hok R Hnd Hq.
  { exists s. rewrite app_nil_r. by split_and!. }
  apply Forall_cons in Hok as [Hss Hok]. apply NoDup_cons in Hnd as [Hc Hnd]. rewrite fmap_cons in Hc, Hnd, Hq.
  apply NoDup_cons in Hnd as [Hss2 Hnd].
  destruct (request_queued c ss s Hss R) as (s1 & E1 & R1 & Hq1); [set_solver| |].
  { eapply Forall_impl; [exact Hq|]. set_solver. }
  destruct (IH c s1 Hok R1) as (s2 & E2 & R2 & Hq2).
  - apply NoDup_cons. split; [set_solver|done].
  - rewrite Hq1. apply Forall_app. split; [eapply Forall_impl; [exact Hq|]; set_solver|].
    apply Forall_singleton. exact Hss2.
  - exists s2. split_and!; [rewrite fmap_cons; cbn [for_each]; by run E1|done|].
    by rewrite Hq2, Hq1, fmap_cons, <-app_assoc.
Qed.

(** The first client. *)
Lemma request_accepted ss s :
  session_ok ss → idle s → ∃ s', turn_ (request ss) s = Ret tt s' ∧ ready (conn_of ACTIVE ss) s' ∧ conn_queue s' = [].
Proof.
  intros (Hfrom & Hinit & _) I. destruct (recv_init _ _ (pkt_mem s) Hinit (id_mem _ I)) as (p & rest & Hl & Hread & Hpi & Hpl).
  pose proof Hinit as (sec & usec & Hname & _).
  set (s1 := put_mem (recv_into sizeof_upkt (pkt_mem s) (ss_init ss)) s).
  assert (idle s1) as I1 by (destruct I; by constructor).
  assert (∀ chunks, ∃ s', handle_init_pkt getnameinfo clock rand malloc_gaps malloc_bufs malloc_conn p (ss_from ss) s1 = Ret tt s' ∧
    receiver_at chunks (conn_of ACTIVE ss) (mk_past false [] [] (files s1)) ∅ 0 0 s' ∧ conn_queue s' = []) as Hrun.
  { intros chunks. by apply (handle_init_idle getnameinfo clock rand malloc_gaps malloc_bufs malloc_conn pad
      chunks (conn_of ACTIVE ss) (mk_past false [] [] (files s1)) Hgaps Hbufs Hconns Hpad s1 p (ss_name ss) rest (ss_from ss)). }
  destruct (Hrun []) as (s2 & E & _ & Hq). exists s2. split.
  { unfold request. erewrite turn_packet by exact Hread. unfold handle_packet. by rewrite Hpi. }
  split; [|done]. apply (ready_past _ _ (mk_past false [] [] (files s1)) eq_refl). intros chunks.
  destruct (Hrun chunks) as (s3 & E3 & R3 & _). rewrite E in E3. by injection E3 as <-.
Qed.
End serve.
Arguments session : clear implicits.

(** ** Theorems *)

(** C6: The receiver serves one client after the other.  Several clients, with
    different addresses and file names, ask for a connection; then, in the order
    of their requests, each has its traffic, in which every packet arrives
    though in any order and number, its FIN and the alarm that follows.  Every
    turn returns without undefined behaviour, the request of a client that must
    wait is kept, the first packet of a client that was asleep opens its file,
    and in the end every file holds exactly the text that its client sent.  What
    is left is either nothing, every block of the lists given back, or the next
    of the clients that asked later. *)
Theorem clients_served {A} getnameinfo getaddrinfo clock rand fopen_ok malloc_gaps malloc_bufs malloc_conn
    junk_node junk_gap junk_bnode pad argv passive (ss : session A) sss s :
  (∀ n, fopen_ok n = true) → (∀ n, malloc_gaps n = true) → (∀ n, malloc_bufs n = true) → (∀ n, malloc_conn n = true) →
  length pad = 3%nat → (∀ i p, is_Some (getaddrinfo i p)) → argv_ok argv passive → blank s →
  Forall (session_ok getnameinfo) (ss :: sss) → NoDup (address <$> ss :: sss) → NoDup (ss_name <$> ss :: sss) →
  ∃ s' later,
    main getnameinfo getaddrinfo clock rand fopen_ok malloc_gaps malloc_bufs malloc_conn junk_node junk_gap
      junk_bnode pad argv passive ((request <$> ss :: sss) ++ concat (transfer_events <$> ss :: sss)) s = Ret tt s' ∧
    Forall (λ x, files s' !! ss_name x = Some (concat (ss_chunks x))) (ss :: sss) ∧
    moved_on later s'.
Proof.
  intros Hf Hg Hb Hc Hpad Haddr Hargv Hbl Hok Haddrs Hnames.
  destruct (start_up_spec clock malloc_gaps malloc_bufs Hg Hb argv passive s Hargv Hbl) as (s1 & E1 & I1).
  pose proof Hok as [Hss Hsss]%Forall_cons.
  destruct (request_accepted getnameinfo getaddrinfo clock rand fopen_ok malloc_gaps malloc_bufs malloc_conn junk_node
    junk_gap junk_bnode pad Hg Hb Hc Hpad ss s1 Hss I1) as (s2 & E2 & R2 & Hq2).
  destruct (requests_queued getnameinfo getaddrinfo clock rand fopen_ok malloc_gaps malloc_bufs malloc_conn junk_node
    junk_gap junk_bnode pad Hf Hg Hb Hc Hpad Haddr sss (conn_of ACTIVE ss) s2 Hsss R2 Haddrs) as (s3 & E3 & R3 & Hq3); [by rewrite Hq2|].
  rewrite Hq2 in Hq3.
  destruct (sessions_served getnameinfo getaddrinfo clock rand fopen_ok malloc_gaps malloc_bufs malloc_conn junk_node
    junk_gap junk_bnode pad Hf Hg Hb Hc Hpad Haddr sss ss ACTIVE s3 [] Hok Hnames) as (s4 & extra & E4 & F4 & _ & Hm);
    [done|done|by rewrite app_nil_r|done|].
  exists s4, extra. split; [|done]. unfold main. run E1. rewrite for_each_app.
  erewrite bind_Ret; [exact E4|]. rewrite fmap_cons. cbn [for_each]. by run E2.
Qed.

(** Two clients: 7 sends "HI" and "!", 8 waits and sends "YO". *)
Definition demo_fin : list Z := take 32 (upkt_bytes (set_fin (create_pkt 0 0))).
Definition demo_init (name : list Z) : list Z := take (32 + length name) (upkt_bytes (init_pkt 0 0 name)).
Definition demo_first : session Z :=
  mk_session [55] [49] [102] demo_chunks 7 (demo_init [102]) demo_evs demo_fin.
Definition demo_second : session Z :=
  mk_session [56] [49] [103] [[89; 79]] 8 (demo_init [103]) [EvTimeout; EvPacket 8 (data_dgram 0 0 0 [89; 79])] demo_fin.

Lemma demo_is_init name : name_ok name → is_init name (demo_init name).
Proof. intros Hn. exists 0, 0. unfold time_ok, is_i32. split_and!; done || lia. Qed.
Lemma demo_is_fin : is_fin demo_fin.
Proof. exists 0, 0. unfold time_ok, is_i32. split_and!; done || lia. Qed.
Lemma demo_first_ok : session_ok demo_names demo_first.
Proof.
  split_and!; try done.
  - apply demo_is_init. split; [set_solver|done].
  - apply demo_is_fin.
  - repeat constructor; simpl; try lia; set_solver.
  - exists {[0; 1]}. split; [exact demo_traffic|]. intros i Hi. simpl in Hi. assert (i = 0 ∨ i = 1) by lia. set_solver.
Qed.
Lemma demo_second_ok : session_ok demo_names demo_second.
Proof.
  split_and!; try done.
  - apply demo_is_init. split; [set_solver|done].
  - apply demo_is_fin.
  - repeat constructor; simpl; try lia; set_solver.
  - exists (∅ ∪ {[0]}). split.
    + apply traffic_timeout, (traffic_data _ _ 0); [|intros k (? & _); unfold MAX_GAPS; lia|apply traffic_nil].
      exists 0, 0, [89; 79]. unfold time_ok, is_i32. split_and!; done || lia.
    + intros i Hi. simpl in Hi. assert (i = 0) by lia. set_solver.
Qed.

Lemma clients_served_witness :
  ∃ s' later,
    main demo_names (λ _ _, Some 8) (λ n, (Z.of_nat n, 0)) (λ n, Z.of_nat n) (λ _, true) (λ _, true) (λ _, true) (λ _, true)
      (mk_node None None None) (mk_gap 0 0) (mk_bnode 0 None 0 []) [0; 0; 0] demo_argv (λ _, Some [(true, true)])
      ((request <$> [demo_first; demo_second]) ++ concat (transfer_events <$> [demo_first; demo_second])) demo_state = Ret tt s' ∧
    Forall (λ x, files s' !! ss_name x = Some (concat (ss_chunks x))) [demo_first; demo_second] ∧
    moved_on later s'.
Proof.
  apply (clients_served demo_names (λ _ _, Some 8) (λ n, (Z.of_nat n, 0)) (λ n, Z.of_nat n) (λ _, true) (λ _, true)
    (λ _, true) (λ _, true) (mk_node None None None) (mk_gap 0 0) (mk_bnode 0 None 0 []) [0; 0; 0]
    demo_argv (λ _, Some [(true, true)]) demo_first [demo_second] demo_state); try done.
  - exact demo_argv_ok.
  - apply Forall_cons. split; [exact demo_first_ok|]. apply Forall_singleton, demo_second_ok.
  - repeat constructor; set_solver.
  - repeat constructor; set_solver.
Defined.

(** A packet that had arrived, delivered again after the FIN. *)
Lemma late_data_spec {A} getnameinfo getaddrinfo clock rand fopen_ok malloc_gaps malloc_bufs malloc_conn
    junk_node junk_gap junk_bnode pad chunks client pa D k n (from from' : A) fin_dgram i dgram s :
  (∀ n, fopen_ok n = true) → length pad = 3%nat → transfer_ok chunks → receiver_at chunks client pa D k n s →
  getnameinfo from = Some (ip client, port client) → is_fin fin_dgram → is_data chunks i dgram → i < k →
  ∃ s', for_each [EvPacket from fin_dgram; EvPacket from' dgram]
      (turn getnameinfo getaddrinfo clock rand fopen_ok malloc_gaps malloc_bufs malloc_conn
        junk_node junk_gap junk_bnode pad) s = Ret tt s' ∧
    files s' !! filename client = Some [].
Proof.
  intros Hf Hpad (Hch & Htot & Hcnt) (G & R & _) Hfrom Hfin Hdata Hi.
  destruct (fin_turn getnameinfo getaddrinfo clock rand fopen_ok malloc_gaps malloc_bufs malloc_conn junk_node
    junk_gap junk_bnode pad _ _ _ _ _ _ _ _ _ _ R Hfrom Hfin) as (s1 & E1 & R1 & Hfp1 & _). clear R.
  cbn [for_each]. run E1.
  destruct (recv_data chunks i dgram (pkt_mem s1) Hch ltac:(lia) Hdata (rc_mem _ _ _ _ _ _ _ _ R1))
    as (c & p & rest & _ & _ & _ & Hl & Hread & Hinit & Hfinp & Hseq & _).
  set (s2 := put_mem (recv_into sizeof_upkt (pkt_mem s1) dgram) s1).
  set (s3 := put_file (Some (filename client)) (<[filename client := []]> (files s2)) (put_counts (clocks s2) (S (opens s2)) (mallocs s2) s2)).
  assert (receiving chunks (set_state CLOSING client) (armed pa) D k G n s3) as R3.
  { destruct R1. constructor; try done. intros name Hname. simpl. rewrite lookup_insert_ne by done. auto. }
  assert (begin_transfer clock fopen_ok s2 = Ret tt s3) as E3.
  { unfold begin_transfer. run (eq_refl (get s2)). change (curr_conn s2) with (curr_conn s1).
    rewrite (rc_conn _ _ _ _ _ _ _ _ R1). change (fp s2) with (fp s1). rewrite Hfp1.
    rewrite bool_decide_false by done. run (eq_refl (mret (M:=prog (rcv A)) () s2)). by apply fopen_Ret. }
  assert (∃ s', accept_data clock rand malloc_gaps malloc_bufs junk_node junk_gap junk_bnode pad p from' s3 = Ret tt s' ∧
    files s' !! filename client = Some []) as (s' & E' & F').
  { unfold accept_data. run (eq_refl (get s3)). rewrite (rc_sow _ _ _ _ _ _ _ _ R3), Hseq.
    rewrite (proj2 (Z.leb_le _ _)) by lia. run (eq_refl (mret (M:=prog (rcv A)) () s3)). run (eq_refl (get s3)).
    set (s4 := if i >? greatest_recvd_seq (tr s3) then put_tr (with_greatest i) s3 else s3).
    assert (receiving chunks (set_state CLOSING client) (armed pa) D k G n s4 ∧ files s4 = files s3) as [R4 F4].
    { unfold s4. destruct (_ >? _); [split; [by apply receiving_greatest|done]|done]. }
    erewrite bind_Ret; [|instantiate (1 := s4); unfold s4; by destruct (_ >? _)].
    run (eq_refl (gettimeofday clock s4)). set (s5 := put_counts _ _ _ s4). run (eq_refl (get s5)).
    assert (files s5 !! filename client = Some []) as F5.
    { change (files s5) with (files s4). rewrite F4. apply lookup_insert_eq. }
    destruct (_ || _); [|by exists s5].
    assert (receiving chunks (set_state CLOSING client) (armed pa) D k G n s5) as R5 by apply receiving_clock, R4.
    destruct (send_message_spec clock rand pad _ _ _ Hpad Hcnt _ _ _ _ s5 from' R5) as (s6 & E6 & _ & _ & Q & _).
    exists s6. split; [exact E6|]. by rewrite Q. }
  exists s'. split; [|done]. erewrite bind_Ret; [reflexivity|].
  erewrite turn_packet by exact Hread. unfold handle_packet. rewrite Hinit, Hfinp. unfold handle_data. by run E3.
Qed.

(** Between the FIN of a client and the alarm that closes its connection, a
    data packet of the finished transfer that the network delivers once more
    opens the file again and empties it: the file was complete and is lost. *)
Theorem late_data_empties {A} getnameinfo getaddrinfo clock rand fopen_ok malloc_gaps malloc_bufs malloc_conn
    junk_node junk_gap junk_bnode pad argv passive (ss : session A) (from' : A) i dgram s :
  (∀ n, fopen_ok n = true) → (∀ n, malloc_gaps n = true) → (∀ n, malloc_bufs n = true) → (∀ n, malloc_conn n = true) →
  length pad = 3%nat → is_Some (getaddrinfo (ss_ip ss) (ss_port ss)) → argv_ok argv passive → blank s →
  session_ok getnameinfo ss → is_data (ss_chunks ss) i dgram →
  ∃ s1 s2,
    main getnameinfo getaddrinfo clock rand fopen_ok malloc_gaps malloc_bufs malloc_conn junk_node junk_gap
      junk_bnode pad argv passive (request ss :: ss_evs ss) s = Ret tt s1 ∧
    files s1 !! ss_name ss = Some (concat (ss_chunks ss)) ∧
    for_each [EvPacket (ss_from ss) (ss_fin ss); EvPacket from' dgram]
      (turn getnameinfo getaddrinfo clock rand fopen_ok malloc_gaps malloc_bufs malloc_conn
        junk_node junk_gap junk_bnode pad) s1 = Ret tt s2 ∧
    files s2 !! ss_name ss = Some [].
Proof.
  intros Hf Hg Hb Hc Hpad Haddr Hargv Hbl Hss Hdata.
  destruct (start_up_spec clock malloc_gaps malloc_bufs Hg Hb argv passive s Hargv Hbl) as (s1 & E1 & I1).
  destruct (request_accepted getnameinfo getaddrinfo clock rand fopen_ok malloc_gaps malloc_bufs malloc_conn junk_node
    junk_gap junk_bnode pad Hg Hb Hc Hpad ss s1 Hss I1) as (s2 & E2 & R2 & _).
  destruct Hss as (Hfrom & _ & Hfin & Hok & Hne & Hlen & D & Ht & HD). pose proof Hok as (Hch & Htot & Hcnt).
  destruct (traffic_spec getnameinfo getaddrinfo clock rand fopen_ok malloc_gaps malloc_bufs malloc_conn junk_node
    junk_gap junk_bnode pad (ss_chunks ss) (conn_of ACTIVE ss) (now s2) Hf Hg Hb Hc Hpad Haddr ltac:(done) Hch Htot Hcnt
    _ _ _ eq_refl Ht 0 0 s2 (R2 _)) as (k & s3 & E3 & R3); [lia|].
  pose proof (first_missing_all _ _ _ _ _ _ _ R3 HD) as Hall.
  pose proof Hdata as (? & ? & c & Hi0 & Hi%lookup_lt_Some & _).
  destruct (late_data_spec getnameinfo getaddrinfo clock rand fopen_ok malloc_gaps malloc_bufs malloc_conn junk_node
    junk_gap junk_bnode pad _ _ _ _ _ _ (ss_from ss) from' _ _ _ _ Hf Hpad Hok R3 Hfrom Hfin Hdata) as (s4 & E4 & F4).
  { destruct (receiver_first_missing _ _ _ _ _ _ _ R3) as (_ & _ & Hk). specialize (HD k).
    destruct (decide (k < Z.of_nat (length (ss_chunks ss)))); [|lia].
    exfalso. apply Hk, HD. destruct R3 as (G & R & _). destruct (rc_below _ _ _ _ _ _ _ _ R). lia. }
  destruct R3 as (G & R3 & _ & _ & [[_ F]|[-> _]]); cycle 1.
  { exfalso. assert (i ∈ (∅ : gset Z)); [apply HD; lia|set_solver]. }
  exists s3, s4. split_and!; [unfold main; run E1; cbn [for_each]; by run E2|by rewrite Hall in F|exact E4|exact F4].
Qed.

Lemma late_data_empties_witness :
  ∃ s1 s2,
    main demo_names (λ _ _, Some 8) (λ n, (Z.of_nat n, 0)) (λ n, Z.of_nat n) (λ _, true) (λ _, true) (λ _, true) (λ _, true)
      (mk_node None None None) (mk_gap 0 0) (mk_bnode 0 None 0 []) [0; 0; 0] demo_argv (λ _, Some [(true, true)])
      (request demo_first :: ss_evs demo_first) demo_state = Ret tt s1 ∧
    files s1 !! [102] = Some [72; 73; 33] ∧
    for_each [EvPacket 7 demo_fin; EvPacket 7 (data_dgram 0 0 0 [72; 73])]
      (turn demo_names (λ _ _, Some 8) (λ n, (Z.of_nat n, 0)) (λ n, Z.of_nat n) (λ _, true) (λ _, true) (λ _, true) (λ _, true)
        (mk_node None None None) (mk_gap 0 0) (mk_bnode 0 None 0 []) [0; 0; 0]) s1 = Ret tt s2 ∧
    files s2 !! [102] = Some [].
Proof.
  apply (late_data_empties demo_names (λ _ _, Some 8) (λ n, (Z.of_nat n, 0)) (λ n, Z.of_nat n) (λ _, true) (λ _, true)
    (λ _, true) (λ _, true) (mk_node None None None) (mk_gap 0 0) (mk_bnode 0 None 0 []) [0; 0; 0]
    demo_argv (λ _, Some [(true, true)]) demo_first 7 0 (data_dgram 0 0 0 [72; 73]) demo_state); try done.
  - exact demo_argv_ok.
  - exact demo_first_ok.
  - by apply demo_data.
Defined.
