(* ===== verification/Ncp.v ===== *)
(** * The file sender

    CS2520/project1/ncp.c: it asks the receiver for a connection, may sleep until
    it is its turn, keeps a window of packets in flight, sends again what the
    reports of the receiver miss or what the window waits for, and says good-bye.
    [select] is the environment: it delivers a datagram or times out; the lists
    of events are its answers, one per call, and a sequence whose list ends is
    still waiting.  Times are compared as in Rcv.v.  What is printed is left
    out, the statistics that are printed are kept. *)
From S2P Require Import Prelude Stdio Bytes Clock GapList Upkt SendtoDbg Rcv.
Open Scope Z_scope.

(** ** State *)

Inductive ncp_state := N_INITIALIZING | N_SLEEPING | N_ACTIVE | N_CLOSING.

(** The adjustable parameters. *)
Record params := mk_params { WINDOW_SIZE : Z; WINDOW_TIMEOUT_S : Z; WINDOW_TIMEOUT_US : Z; NUM_TO_RESEND : Z }.

(** The variables of [transmission_sequence]: a packet of the window has no
    value before it is first written; [unread] is what is left of the file. *)
Record sending := mk_sending {
  window : list (option upkt);
  start_of_window : Z;
  curr_in_flight : Z;
  check_gaps : bool;
  time_of_last_win_move : timeval;
  recvd_msg : list Z;
  unread : list Z;
  eof : bool
}.
Record statistics := mk_statistics {
  bytes_since_last_output : Z;
  bytes_successfully_sent : Z;
  total_data_sent : Z;
  start_of_transfer : timeval;
  end_of_transfer : timeval;
  time_of_last_output : timeval
}.
Record ncp (A : Type) := mk_ncp {
  cfg : params;
  state : ncp_state;
  tx : sending;
  stat : statistics;
  net_ : net A;
  clocks : nat
}.
Arguments mk_ncp {A}. Arguments cfg {A}. Arguments state {A}. Arguments tx {A}. Arguments stat {A}.
Arguments net_ {A}. Arguments clocks {A}.

Definition with_packet (i : Z) (p : upkt) (t : sending) : option sending :=
  w ← aset (window t) i (Some p);
  Some (mk_sending w (start_of_window t) (curr_in_flight t) (check_gaps t) (time_of_last_win_move t) (recvd_msg t) (unread t) (eof t)).
Definition with_start_of_window (z : Z) (t : sending) : sending :=
  mk_sending (window t) z (curr_in_flight t) (check_gaps t) (time_of_last_win_move t) (recvd_msg t) (unread t) (eof t).
Definition with_in_flight (z : Z) (t : sending) : sending :=
  mk_sending (window t) (start_of_window t) z (check_gaps t) (time_of_last_win_move t) (recvd_msg t) (unread t) (eof t).
Definition with_check (b : bool) (t : sending) : sending :=
  mk_sending (window t) (start_of_window t) (curr_in_flight t) b (time_of_last_win_move t) (recvd_msg t) (unread t) (eof t).
Definition with_win_move (v : timeval) (t : sending) : sending :=
  mk_sending (window t) (start_of_window t) (curr_in_flight t) (check_gaps t) v (recvd_msg t) (unread t) (eof t).
Definition with_recvd (m : list Z) (t : sending) : sending :=
  mk_sending (window t) (start_of_window t) (curr_in_flight t) (check_gaps t) (time_of_last_win_move t) m (unread t) (eof t).
Definition with_unread (l : list Z) (b : bool) (t : sending) : sending :=
  mk_sending (window t) (start_of_window t) (curr_in_flight t) (check_gaps t) (time_of_last_win_move t) (recvd_msg t) l b.
Definition with_ts_sec (z : Z) (p : upkt) : upkt :=
  mk_upkt (is_rcv_msg p) (init p) (fin p) (sleep p) z (ts_usec p) (seq p) (payload_len p) (payload p).

Definition with_since (z : Z) (t : statistics) : statistics :=
  mk_statistics z (bytes_successfully_sent t) (total_data_sent t) (start_of_transfer t) (end_of_transfer t) (time_of_last_output t).
Definition with_sent (z : Z) (t : statistics) : statistics :=
  mk_statistics (bytes_since_last_output t) z (total_data_sent t) (start_of_transfer t) (end_of_transfer t) (time_of_last_output t).
Definition with_total (z : Z) (t : statistics) : statistics :=
  mk_statistics (bytes_since_last_output t) (bytes_successfully_sent t) z (start_of_transfer t) (end_of_transfer t) (time_of_last_output t).
Definition with_started (v : timeval) (t : statistics) : statistics :=
  mk_statistics (bytes_since_last_output t) (bytes_successfully_sent t) (total_data_sent t) v (end_of_transfer t) (time_of_last_output t).
Definition with_ended (v : timeval) (t : statistics) : statistics :=
  mk_statistics (bytes_since_last_output t) (bytes_successfully_sent t) (total_data_sent t) (start_of_transfer t) v (time_of_last_output t).
Definition with_output (v : timeval) (t : statistics) : statistics :=
  mk_statistics (bytes_since_last_output t) (bytes_successfully_sent t) (total_data_sent t) (start_of_transfer t) (end_of_transfer t) v.

Section state.
Context {A : Type}.
Implicit Types (s : ncp A).
Definition put_cfg (c : params) s : ncp A := mk_ncp c (state s) (tx s) (stat s) (net_ s) (clocks s).
Definition put_state (x : ncp_state) s : ncp A := mk_ncp (cfg s) x (tx s) (stat s) (net_ s) (clocks s).
Definition put_tx (t : sending) s : ncp A := mk_ncp (cfg s) (state s) t (stat s) (net_ s) (clocks s).
Definition put_stat (t : statistics) s : ncp A := mk_ncp (cfg s) (state s) (tx s) t (net_ s) (clocks s).
Definition put_net (n : net A) s : ncp A := mk_ncp (cfg s) (state s) (tx s) (stat s) n (clocks s).
Definition put_clocks (n : nat) s : ncp A := mk_ncp (cfg s) (state s) (tx s) (stat s) (net_ s) n.
End state.

(** ** Operations *)

Inductive event := SPacket (dgram : list Z) | STimeout.

Section ops.
Context {A : Type}.
Abbreviation st := (ncp A).

(** The address of the receiver, the clock, [rand], and what the variables that
    packets are received into hold before. *)
Context (servaddr : A) (clock : nat → timeval) (rand : nat → Z) (junk_pkt junk_msg : list Z).

Definition gettimeofday : prog st timeval := λ s, Ret (clock (clocks s)) (put_clocks (S (clocks s)) s).
Definition set_tx (f : sending → sending) : prog st unit := modify (λ s, put_tx (f (tx s)) s).
Definition set_stat (f : statistics → statistics) : prog st unit := modify (λ s, put_stat (f (stat s)) s).
Definition sendto (buf : list Z) (len : Z) : prog st unit :=
  zoom net_ put_net (sendto_dbg rand buf len servaddr);; mret tt.

(** ** The connection request *)

(** [memset] to 0, then the fields that are set. *)
Definition zeros : upkt := mk_upkt false false false false 0 0 0 0 (replicate 1400 0).
(** [strcpy] into the payload, an array of [MAX_MESS_LEN] bytes. *)
Definition init_packet (dst_file : list Z) : option upkt :=
  if Z.of_nat (length dst_file) <? MAX_MESS_LEN
  then Some (mk_upkt false true false false 0 0 0 (Z.of_nat (length dst_file)) (dst_file ++ replicate (1400 - length dst_file) 0))
  else None.
Definition with_time (v : timeval) (p : upkt) : upkt :=
  mk_upkt (is_rcv_msg p) (init p) (fin p) (sleep p) v.1 v.2 (seq p) (payload_len p) (payload p).

Fixpoint initialization_loop (init_pkt : upkt) (evs : list event) : prog st (option (list event)) :=
  match evs with
  | [] => mret None
  | SPacket dgram :: evs' =>
      let rcv_pkt := recv_into sizeof_upkt junk_pkt dgram in
      sl ← lift (get_bool rcv_pkt 3);
      if sl : bool then modify (put_state N_SLEEPING);; mret (Some evs')
      else
        i ← lift (get_bool rcv_pkt 1);
        if i : bool then modify (put_state N_ACTIVE);; mret (Some evs')
        else initialization_loop init_pkt evs'
  | STimeout :: evs' =>
      now ← gettimeofday;
      let p := with_time now init_pkt in
      sendto (upkt_bytes p) (sizeof_upkt - MAX_MESS_LEN + payload_len p);;
      initialization_loop p evs'
  end.
Definition initialization_sequence (dst_file : list Z) (evs : list event) : prog st (option (list event)) :=
  p ← lift (init_packet dst_file); initialization_loop p evs.

(** The variable [pkt] keeps what it held. *)
Fixpoint sleep_loop (pkt : list Z) (evs : list event) : prog st (option (list event)) :=
  match evs with
  | [] => mret None
  | SPacket dgram :: evs' =>
      let pkt := recv_into sizeof_upkt pkt dgram in
      i ← lift (get_bool pkt 1);
      if i : bool then modify (put_state N_ACTIVE);; mret (Some evs') else sleep_loop pkt evs'
  | STimeout :: _ => exit_with 0
  end.
Definition sleep_sequence (evs : list event) : prog st (option (list event)) := sleep_loop junk_pkt evs.

(** ** The transfer *)

Definition window_get (i : Z) : prog st upkt := reads (λ s, p ← aget (window (tx s)) i; p).
Definition window_set (i : Z) (p : upkt) : prog st unit := updates (λ s, t ← with_packet i p (tx s); Some (put_tx t s)).
(** [total_data_sent += payload_len + 1], in [unsigned]. *)
Definition add_total (len : Z) : prog st unit := set_stat (λ t, with_total (i32 (u32 (total_data_sent t + len + 1))) t).
(** A packet goes without the end of its payload. *)
Definition send_packet (p : upkt) : prog st unit :=
  add_total (payload_len p);;
  sendto (upkt_bytes p) (sizeof_upkt - (MAX_MESS_LEN - payload_len p + 1)).
(** A packet of the window is sent again, with the time. *)
Definition resend (index sec : Z) : prog st unit :=
  p ← window_get index; window_set index (with_ts_sec sec p);; send_packet (with_ts_sec sec p).

Fixpoint resend_range (n : nat) (seq_to_resend : Z) : prog st unit :=
  match n with
  | O => mret tt
  | S n' =>
      now ← gettimeofday; s ← get;
      resend (Z.rem seq_to_resend (WINDOW_SIZE (cfg s))) now.1;;
      resend_range n' (seq_to_resend + 1)
  end.
Fixpoint resend_gaps (fuel : nat) (gap_num : Z) : prog st unit :=
  match fuel with
  | O => λ _, Fuel
  | S fuel' =>
      n ← reads (λ s, get_num_gaps (recvd_msg (tx s)));
      if gap_num <? n
      then
        g ← reads (λ s, get_gap_at (recvd_msg (tx s)) gap_num);
        resend_range (Z.to_nat (end_ g - start g)) (start g);;
        resend_gaps fuel' (gap_num + 1)
      else mret tt
  end.
Definition fill_gaps : prog st unit :=
  s ← get;
  if check_gaps (tx s) then resend_gaps (S (Z.to_nat MAX_GAPS)) 0;; set_tx (with_check false) else mret tt.

(** The next piece of the file, as long as it is not known to have ended. *)
Definition send_next : prog st unit :=
  s ← get;
  if (curr_in_flight (tx s) <? WINDOW_SIZE (cfg s)) && negb (eof (tx s))
  then
    n ← lift (int_add (start_of_window (tx s)) (curr_in_flight (tx s)));
    let piece := take (Z.to_nat (MAX_MESS_LEN - 1)) (unread (tx s)) in
    set_tx (with_unread (drop (length piece) (unread (tx s))) (Z.of_nat (length piece) <? MAX_MESS_LEN - 1));;
    let text := piece ++ replicate (1400 - length piece) 0 in
    now ← gettimeofday;
    let p := mk_upkt false false false false now.1 0 n (Z.of_nat (length (c_str text))) text in
    window_set (Z.rem n (WINDOW_SIZE (cfg s))) p;;
    send_packet p;;
    s ← get; f ← lift (int_incr (curr_in_flight (tx s))); set_tx (with_in_flight f)
  else mret tt.

(** Counting the packets that a report acknowledges. *)
Fixpoint count_acked (n : nat) (index : Z) : prog st unit :=
  match n with
  | O => mret tt
  | S n' =>
      s ← get; p ← window_get (Z.rem index (WINDOW_SIZE (cfg s)));
      set_stat (λ t, with_since (i32 (u32 (bytes_since_last_output t + payload_len p))) t);;
      count_acked n' (index + 1)
  end.
(** The window moves to what the report acknowledges. *)
Definition acknowledge (aru : Z) : prog st unit :=
  s ← get; let start := start_of_window (tx s) in
  d ← lift (int_add aru (- start));
  f ← lift (int_add (curr_in_flight (tx s)) (- d)); set_tx (with_in_flight f);;
  count_acked (Z.to_nat (aru - start)) start;;
  (if negb (start =? aru) then now ← gettimeofday; set_tx (with_win_move now) else mret tt);;
  set_tx (with_start_of_window aru).
Definition handle_report (dgram : list Z) : prog st unit :=
  set_tx (λ t, with_recvd (recv_into sizeof_rcv_msg (recvd_msg t) dgram) t);;
  aru ← reads (λ s, get_aru (recvd_msg (tx s)));
  (if aru >? 0 then acknowledge aru else mret tt);;
  n ← reads (λ s, get_num_gaps (recvd_msg (tx s)));
  if n >? 0 then set_tx (with_check true) else mret tt.

(** The loop of the window timeout. *)
Fixpoint resend_first (n : nat) (seq_to_resend sec : Z) : prog st unit :=
  match n with
  | O => mret tt
  | S n' =>
      s ← get;
      if seq_to_resend <? curr_in_flight (tx s)
      then
        i ← lift (int_add (start_of_window (tx s)) seq_to_resend);
        resend (Z.rem i (WINDOW_SIZE (cfg s))) sec;;
        resend_first n' (seq_to_resend + 1) sec
      else mret tt
  end.
Definition window_timeout : prog st unit :=
  now ← gettimeofday; s ← get;
  if at_least (timersub now (time_of_last_win_move (tx s))) (WINDOW_TIMEOUT_S (cfg s)) (WINDOW_TIMEOUT_US (cfg s))
  then
    resend_first (Z.to_nat (NUM_TO_RESEND (cfg s))) 0 now.1;;
    now ← gettimeofday; set_tx (with_win_move now)
  else mret tt.
Definition print_statistics : prog st unit :=
  s ← get;
  if bytes_since_last_output (stat s) >=? NUM_BYTES_TO_PRINT_STATS
  then
    _ ← gettimeofday;
    z ← lift (int_add (bytes_successfully_sent (stat s)) (bytes_since_last_output (stat s)));
    set_stat (with_sent z);;
    now ← gettimeofday; set_stat (with_output now);; set_stat (with_since 0)
  else mret tt.

(** One turn of the loop; [true] leaves it. *)
Definition turn (e : event) : prog st bool :=
  fill_gaps;;
  send_next;;
  (match e with SPacket dgram => handle_report dgram | STimeout => mret tt end);;
  s ← get;
  if eof (tx s) && (curr_in_flight (tx s) <=? 0) then mret true
  else window_timeout;; print_statistics;; mret false.
Fixpoint transmission_loop (evs : list event) : prog st (option (list event)) :=
  match evs with
  | [] => mret None
  | e :: evs' => b ← turn e; if b : bool then mret (Some evs') else transmission_loop evs'
  end.

(** [source] is what the file holds, [None] when it cannot be opened. *)
Definition transmission_start (source : option (list Z)) : prog st unit :=
  match source with
  | None => exit_with 1
  | Some text =>
      moved ← gettimeofday; s ← get;
      set_tx (λ _, mk_sending (replicate (Z.to_nat (WINDOW_SIZE (cfg s))) None) 0 0 false moved junk_msg text false);;
      started ← gettimeofday; set_stat (with_started started);;
      now ← gettimeofday; set_stat (with_output now);;
      set_stat (with_since 0);; set_stat (with_sent 0);; set_stat (with_total 0)
  end.
Definition transmission_sequence (source : option (list Z)) (evs : list event) : prog st (option (list event)) :=
  transmission_start source;;
  r ← transmission_loop evs;
  match r with
  | None => mret None
  | Some evs' => now ← gettimeofday; set_stat (with_ended now);; mret (Some evs')
  end.

(** ** The end *)

Definition fin_packet : upkt := mk_upkt false false true false 0 0 0 0 (replicate 1400 0).
Fixpoint closing_loop (fin_pkt : upkt) (fins_sent : Z) (evs : list event) : prog st (option (list event)) :=
  if fins_sent >? 600 then modify (put_state N_CLOSING);; mret (Some evs)
  else
    match evs with
    | [] => mret None
    | SPacket dgram :: evs' =>
        let rcv_pkt := recv_into sizeof_upkt junk_pkt dgram in
        r ← lift (get_bool rcv_pkt 0);
        if r : bool then closing_loop fin_pkt fins_sent evs'
        else
          f ← lift (get_bool rcv_pkt 2);
          if f : bool then modify (put_state N_CLOSING);; mret (Some evs') else closing_loop fin_pkt fins_sent evs'
    | STimeout :: evs' =>
        now ← gettimeofday;
        let p := with_time now fin_pkt in
        sendto (upkt_bytes p) (sizeof_upkt - MAX_MESS_LEN);;
        closing_loop p (fins_sent + 1) evs'
    end.
Definition closing_sequence (evs : list event) : prog st (option (list event)) :=
  sendto (upkt_bytes fin_packet) (sizeof_upkt - MAX_MESS_LEN);;
  closing_loop fin_packet 0 evs.
End ops.

(** ** [main] *)

Record arguments := mk_arguments { loss_rate : Z; src_file : list Z; dst_file : list Z; Server_IP : list Z; Port_Str : list Z }.
Section main.
Context {A : Type}.
Abbreviation st := (ncp A).
Context (clock : nat → timeval) (rand : nat → Z) (junk_pkt junk_msg : list Z).
(** The files that can be read, and the addresses of a name and a port, each
    with whether [socket] succeeds. *)
Context (file_of : list Z → option (list Z)) (getaddrinfo : list Z → list Z → option (list (A * bool))).

Definition environment (env : list Z) : option params :=
  if bool_decide (env = WAN) then Some (mk_params 45 1 0 2)
  else if bool_decide (env = LAN) then Some (mk_params 45 1 0 2)
  else if bool_decide (env = WAN_EC) then Some (mk_params 55 0 50000 2)
  else None.
Definition Usage (argv : list (list Z)) : prog st arguments :=
  match argv with
  | [_; rate; env; src; dest] =>
      let loss := atoi rate in
      if (loss <? 0) || (loss >? 100) then exit_with 0
      else
        match environment env with
        | None => exit_with 0
        | Some c =>
            modify (put_cfg c);;
            match split_first 64 dest with
            | None => exit_with 0
            | Some (dst, server_addr) =>
                match split_last 58 server_addr with
                | None => exit_with 0
                | Some (host, port) => mret (mk_arguments loss src dst (strip_brackets host) port)
                end
            end
        end
  | _ => exit_with 0
  end.
(** The first address for which a socket can be made. *)
Fixpoint open_socket (addrs : list (A * bool)) : prog st A :=
  match addrs with
  | [] => exit_with 1
  | (a, ok) :: addrs' => if ok : bool then mret a else open_socket addrs'
  end.

(** [None] when the events end before the program. *)
Definition main (argv : list (list Z)) (evs : list event) : prog st (option (list event)) :=
  args ← Usage argv;
  zoom net_ put_net (sendto_dbg_init (loss_rate args));;
  match getaddrinfo (Server_IP args) (Port_Str args) with
  | None => exit_with 1
  | Some addrs =>
      servaddr ← open_socket addrs;
      modify (put_state N_INITIALIZING);;
      r ← initialization_sequence servaddr clock rand junk_pkt (dst_file args) evs;
      match r with
      | None => mret None
      | Some evs =>
          s ← get;
          r ← (match state s with N_SLEEPING => sleep_sequence junk_pkt evs | _ => mret (Some evs) end);
          match r with
          | None => mret None
          | Some evs =>
              r ← transmission_sequence servaddr clock rand junk_msg (file_of (src_file args)) evs;
              match r with
              | None => mret None
              | Some evs =>
                  r ← closing_sequence servaddr clock rand junk_pkt evs;
                  s ← get;
                  z ← lift (int_add (bytes_successfully_sent (stat s)) (bytes_since_last_output (stat s)));
                  set_stat (with_sent z);;
                  mret r
              end
          end
      end
  end.
End main.
