(* ===== verification/NcpSpec.v ===== *)
(** * The file sender at work

    What ncp.c keeps during a transfer: the window holds the packets that may
    have to be sent again, everything handed to the network is a packet of the
    file, and the window never runs further ahead than the receiver can take.
    And that it stops waiting for the last answer. *)
From S2P Require Import Prelude Stdio Bytes Clock GapList Upkt RcvBuffer SendtoDbg Rcv RcvSpec Ncp.
Open Scope Z_scope.

(** ** The pieces of a file *)

(** [fread] of 1399 bytes at a time until one is short. *)
Fixpoint pieces (fuel : nat) (text : list Z) : list (list Z) :=
  match fuel with
  | O => []
  | S fuel' =>
      let c := take 1399 text in
      if Z.of_nat (length c) <? 1399 then [c] else c :: pieces fuel' (drop 1399 text)
  end.
Definition chunks_of (text : list Z) : list (list Z) := pieces (S (length text)) text.
(** All pieces but the last are full, the last is not. *)
Fixpoint complete (l : list (list Z)) : Prop :=
  match l with
  | [] => True
  | [c] => (length c < 1399)%nat
  | c :: l' => length c = 1399%nat ∧ complete l'
  end.
Lemma pieces_ok fuel text : (length text < fuel)%nat →
  concat (pieces fuel text) = text ∧ complete (pieces fuel text) ∧ pieces fuel text ≠ [].
Proof.
  revert text. induction fuel as [|fuel IH]; intros text Hf; [lia|]. cbn [pieces].
  destruct (Z.ltb_spec (Z.of_nat (length (take 1399 text))) 1399) as [H|H]; rewrite length_take in H.
  - split_and!; [|simpl; rewrite length_take; lia|done]. cbn [concat]. rewrite app_nil_r, take_ge; [done|lia].
  - destruct (IH (drop 1399 text)) as (E & C & Hn); [rewrite length_drop; lia|]. split_and!; [|simpl|done].
    + cbn [concat]. by rewrite E, take_drop.
    + destruct (pieces fuel (drop 1399 text)); [done|]. split; [rewrite length_take; lia|done].
Qed.
Lemma chunks_concat text : concat (chunks_of text) = text.
Proof. apply pieces_ok. lia. Qed.
Lemma chunks_complete text : complete (chunks_of text).
Proof. apply pieces_ok. lia. Qed.
Lemma chunks_nonempty text : chunks_of text ≠ [].
Proof. apply pieces_ok. lia. Qed.
Lemma chunks_chunk_ok text : 0 ∉ text → Forall chunk_ok (chunks_of text).
Proof.
  unfold chunks_of. generalize (S (length text)) as fuel. intros fuel. revert text.
  induction fuel as [|fuel IH]; intros text H0; [constructor|]. cbn [pieces].
  assert (chunk_ok (take 1399 text)) as Hc.
  { split; [|rewrite length_take; lia]. intros Hi. apply H0. rewrite <-(take_drop 1399 text). apply elem_of_app. by left. }
  case_match; [by constructor|]. constructor; [done|]. apply IH. intros Hi. apply H0. rewrite <-(take_drop 1399 text). apply elem_of_app. by right.
Qed.
Lemma complete_drop n l : complete l → complete (drop n l).
Proof.
  revert l. induction n as [|n IH]; intros [|c l] H; try done. apply IH. destruct l as [|d l]; [done|]. apply H.
Qed.
(** What [fread] gives of pieces that are still to be read. *)
Lemma read_piece c l : complete (c :: l) → take 1399 (concat (c :: l)) = c ∧ drop (length c) (concat (c :: l)) = concat l ∧
  (Z.of_nat (length c) <? 1399) = bool_decide (l = []).
Proof.
  intros H. cbn [concat]. rewrite drop_app_length. destruct l as [|d l].
  - cbn in H. rewrite app_nil_r. split_and!; [apply take_ge; lia|done|]. rewrite bool_decide_true by done. apply Z.ltb_lt. lia.
  - destruct H as [H _]. split_and!; [by apply take_app_length'|done|]. rewrite bool_decide_false by done. apply Z.ltb_ge. lia.
Qed.

(** ** The sender during the transfer *)

Section sender.
Context {A : Type} (servaddr : A) (clock : nat → timeval) (rand : nat → Z) (junk_pkt junk_msg : list Z).
Context (chunks : list (list Z)) (name : list Z).
Context (Hclock : ∀ n, time_ok (clock n).1 (clock n).2) (Hchunks : Forall chunk_ok chunks) (Hcomplete : complete chunks).
Notation N := (Z.of_nat (length chunks)).
Context (HN : N < 2147483547).
Implicit Types (s : ncp A).

(** The packet of a piece, as the window holds it. *)
Definition is_packet (i : Z) (p : upkt) : Prop :=
  ∃ sec c, 0 ≤ i ∧ chunks !! Z.to_nat i = Some c ∧ time_ok sec 0 ∧ p = RcvSpec.data_pkt sec 0 i c.
(** A report that was received can be acted upon. *)
Definition usable_msg (next : Z) (m : list Z) : Prop :=
  ∃ n, get_num_gaps m = Some n ∧ n ≤ MAX_GAPS ∧ ∀ j, 0 ≤ j < n → ∃ g, get_gap_at m j = Some g ∧ 0 ≤ start g ∧ end_ g ≤ next.
(** [budget] bounds what the statistics may come to. *)
Record sending_ok (next acked budget cut : Z) s : Prop := {
  so_window_size : 0 < WINDOW_SIZE (cfg s) ≤ MAX_GAPS;
  so_next : 0 ≤ start_of_window (tx s) ∧ start_of_window (tx s) + curr_in_flight (tx s) = next ∧ 0 ≤ next ≤ N;
  so_acked : start_of_window (tx s) ≤ acked ∧ acked ≤ next ∧ next ≤ acked + WINDOW_SIZE (cfg s);
  so_file : eof (tx s) = bool_decide (next = N) ∧ unread (tx s) = concat (drop (Z.to_nat next) chunks);
  so_window : length (window (tx s)) = Z.to_nat (WINDOW_SIZE (cfg s)) ∧
    ∀ i, 0 ≤ i < next → next - WINDOW_SIZE (cfg s) ≤ i →
    ∃ p, window (tx s) !! Z.to_nat (i mod WINDOW_SIZE (cfg s)) = Some (Some p) ∧ is_packet i p;
  so_wire : Forall (λ w, is_init name w.2 ∨ ∃ i, i < next ∧ is_data chunks i w.2) (wire (net_ s));
  so_cut : cutoff (net_ s) = cut;
  so_lossless : cut = 0 → ∀ i, 0 ≤ i < next → ∃ w, w ∈ wire (net_ s) ∧ is_data chunks i w.2;
  so_msg : length (recvd_msg (tx s)) = 812%nat ∧ (check_gaps (tx s) = true → usable_msg next (recvd_msg (tx s)));
  so_stat : 0 ≤ bytes_since_last_output (stat s) ∧ 0 ≤ bytes_successfully_sent (stat s) ∧
    bytes_since_last_output (stat s) + bytes_successfully_sent (stat s) ≤ 1399 * (start_of_window (tx s) + budget)
}.

(** What sending a packet again leaves as it was. *)
Definition same_sender s s' : Prop :=
  cfg s' = cfg s ∧ state s' = state s ∧ start_of_window (tx s') = start_of_window (tx s) ∧ curr_in_flight (tx s') = curr_in_flight (tx s) ∧
  check_gaps (tx s') = check_gaps (tx s) ∧ recvd_msg (tx s') = recvd_msg (tx s) ∧ unread (tx s') = unread (tx s) ∧ eof (tx s') = eof (tx s) ∧
  bytes_since_last_output (stat s') = bytes_since_last_output (stat s) ∧ bytes_successfully_sent (stat s') = bytes_successfully_sent (stat s).
#[local] Instance same_sender_refl : Reflexive same_sender.
Proof. by intros s. Qed.
#[local] Instance same_sender_trans : Transitive same_sender.
Proof. intros s1 s2 s3 H1 H2. unfold same_sender in *. destruct_and!. split_and!; congruence. Qed.

(** A packet that is put on the wire, or dropped. *)
Definition counted (p : upkt) s : ncp A := put_stat (with_total (i32 (u32 (total_data_sent (stat s) + payload_len p + 1))) (stat s)) s.
Lemma send_packet_net i p s : is_packet i p →
  ∃ n' d, send_packet servaddr rand p s = Ret tt (put_net n' (counted p s)) ∧ is_data chunks i d ∧ cutoff n' = cutoff (net_ s) ∧
    (wire n' = wire (net_ s) ++ [(servaddr, d)] ∨ wire n' = wire (net_ s) ∧ cutoff (net_ s) ≠ 0).
Proof.
  intros (sec & c & Hi & Hc & Ht & ->). pose proof (Forall_lookup_1 _ _ _ _ Hchunks Hc) as [_ Hlen].
  set (p := RcvSpec.data_pkt sec 0 i c). unfold send_packet. erewrite bind_Ret by reflexivity.
  change (put_stat _ s) with (counted p s).
  assert (length (upkt_bytes p) = 1432%nat) as Hlp.
  { unfold p, upkt_bytes. rewrite !length_app, length_upkt_hdr. cbn [payload RcvSpec.data_pkt]. rewrite length_app, length_replicate. simpl. lia. }
  replace (sizeof_upkt - (MAX_MESS_LEN - payload_len p + 1)) with (31 + Z.of_nat (length c)) by (cbn [payload_len p RcvSpec.data_pkt]; unfold sizeof_upkt, MAX_MESS_LEN; lia).
  destruct (sendto_dbg_spec rand (upkt_bytes p) (31 + Z.of_nat (length c)) servaddr (net_ (counted p s))) as (n' & E & Ec & _ & Ew); [lia|].
  exists n', (take (Z.to_nat (31 + Z.of_nat (length c))) (upkt_bytes p)). split_and!.
  - unfold sendto. by erewrite bind_Ret by exact (zoom_Ret _ _ _ (counted p s) _ _ E).
  - exists sec, 0, c. split_and!; try done. unfold data_dgram. f_equal. lia.
  - done.
  - rewrite Ew. change (net_ (counted p s)) with (net_ s). destruct (Z.ltb_spec 0 (cutoff (net_ s))); [|by left].
    cbn [andb]. destruct (Z.land _ 255 <=? _); [right; split; [done|lia]|by left].
Qed.
Lemma send_packet_run i p s next acked budget cut : sending_ok next acked budget cut s → is_packet i p → i < next →
  ∃ s', send_packet servaddr rand p s = Ret tt s' ∧ sending_ok next acked budget cut s' ∧ same_sender s s'.
Proof.
  intros S Hp Hlt. destruct (send_packet_net i p s Hp) as (n' & d & E & Hd & Ec & Ew). eexists. split; [exact E|]. split; [|done].
  pose proof (so_cut _ _ _ _ _ S) as Hcut. destruct S. constructor; try done; cbn [net_ put_net].
  - destruct Ew as [-> | [-> _]]; [|done]. apply Forall_app_2; [done|]. constructor; [|done]. right. by exists i.
  - by rewrite Ec.
  - intros H0 j Hj. destruct (so_lossless0 H0 j Hj) as (w & Hin & Hw2). exists w. split; [|done].
    destruct Ew as [-> | [-> _]]; [|done]. apply elem_of_app. by left.
Qed.

(** Where a packet that was sent is, or the later one that took its place. *)
Lemma window_slot next W i : 0 < W → 0 ≤ i < next → ∃ j, i ≤ j < next ∧ next - W ≤ j ∧ j mod W = i mod W.
Proof using Type. clear.
  intros HW Hi. exists (i + W * ((next - 1 - i) / W)).
  pose proof (Z.div_mod (next - 1 - i) W ltac:(lia)). pose proof (Z.mod_pos_bound (next - 1 - i) W HW).
  pose proof (Z.div_pos (next - 1 - i) W ltac:(lia) HW).
  split_and!; [nia|lia|lia|]. rewrite Z.mul_comm. by apply Z_mod_plus_full.
Qed.
Lemma rem_mod i W : 0 < W → 0 ≤ i → Z.rem i W = i mod W ∧ 0 ≤ i mod W < W.
Proof using Type. clear. intros HW Hi. split; [apply Z.rem_mod_nonneg; lia|by apply Z.mod_pos_bound]. Qed.
Lemma mod_inj lo W x y : 0 < W → lo ≤ x < lo + W → lo ≤ y < lo + W → x mod W = y mod W → x = y.
Proof using Type. clear.
  intros HW Hx Hy Hm. pose proof (Z.div_mod x W ltac:(lia)) as Ex. pose proof (Z.div_mod y W ltac:(lia)) as Ey.
  assert (x / W - y / W = 0); [|nia]. assert (x - y = W * (x / W - y / W)) as E by lia. nia.
Qed.
Lemma window_get_run i s next acked budget cut : sending_ok next acked budget cut s → 0 ≤ i < next →
  ∃ p j, window_get (Z.rem i (WINDOW_SIZE (cfg s))) s = Ret p s ∧ is_packet j p ∧ 0 ≤ j < next ∧
    next - WINDOW_SIZE (cfg s) ≤ j ∧ j mod WINDOW_SIZE (cfg s) = i mod WINDOW_SIZE (cfg s).
Proof.
  intros S Hi. pose proof (so_window_size _ _ _ _ _ S) as HW. destruct (so_window _ _ _ _ _ S) as [Hl Hw].
  destruct (window_slot next (WINDOW_SIZE (cfg s)) i) as (j & Hj & Hjn & Hm); [lia|done|].
  destruct (Hw j) as (p & Ep & Hp); [lia|done|]. destruct (rem_mod i (WINDOW_SIZE (cfg s))) as [Er Hr]; [lia|lia|].
  exists p, j. split_and!; try done; [|lia|lia]. unfold window_get. apply (reads_Some (λ s, q ← aget (window (tx s)) _; q)).
  rewrite Er, <-Hm. assert (aget (window (tx s)) (j mod WINDOW_SIZE (cfg s)) = Some (Some p)) as ->; [|done].
  apply aget_Some. split; [rewrite Hm; lia|done].
Qed.
Lemma is_packet_time i p sec : is_packet i p → time_ok sec 0 → is_packet i (with_ts_sec sec p).
Proof. intros (sec0 & c & Hi & Hc & _ & ->) Ht. by exists sec, c. Qed.
Lemma resend_run i sec s next acked budget cut : sending_ok next acked budget cut s → 0 ≤ i < next → time_ok sec 0 →
  ∃ s', resend servaddr rand (Z.rem i (WINDOW_SIZE (cfg s))) sec s = Ret tt s' ∧ sending_ok next acked budget cut s' ∧ same_sender s s'.
Proof.
  intros S Hi Ht. destruct (window_get_run i s _ _ _ _ S Hi) as (p & j & E & Hp & Hj & Hjn & Hm). unfold resend. run E.
  pose proof (so_window_size _ _ _ _ _ S) as HW. destruct (so_window _ _ _ _ _ S) as [Hl Hw].
  destruct (rem_mod i (WINDOW_SIZE (cfg s))) as [Er Hr]; [lia|lia|]. rewrite Er. pose proof (is_packet_time j p sec Hp Ht) as Hp'.
  set (w' := <[Z.to_nat (i mod WINDOW_SIZE (cfg s)) := Some (with_ts_sec sec p)]> (window (tx s))).
  set (s1 := put_tx (mk_sending w' (start_of_window (tx s)) (curr_in_flight (tx s)) (check_gaps (tx s))
    (time_of_last_win_move (tx s)) (recvd_msg (tx s)) (unread (tx s)) (eof (tx s))) s).
  assert (window_set (i mod WINDOW_SIZE (cfg s)) (with_ts_sec sec p) s = Ret tt s1) as Es.
  { unfold window_set. apply updates_Some. unfold with_packet. rewrite (aset_ok (window (tx s))) by (rewrite Hl; lia). done. }
  run Es. assert (sending_ok next acked budget cut s1) as S1.
  { destruct S. constructor; try done. cbn [tx put_tx s1 cfg window]. split; [by unfold w'; rewrite length_insert|].
    intros x Hx Hxn. destruct (decide (x = j)) as [->|Hne].
    - exists (with_ts_sec sec p). split; [|done]. unfold w'. rewrite Hm. apply list_lookup_insert_eq. rewrite Hl. lia.
    - destruct (Hw x Hx Hxn) as (q & Eq & Hq). exists q. split; [|done]. unfold w'. rewrite list_lookup_insert_ne; [done|].
      intros Heq. apply Hne. pose proof (Z.mod_pos_bound x (WINDOW_SIZE (cfg s)) ltac:(lia)).
      assert (x mod WINDOW_SIZE (cfg s) = j mod WINDOW_SIZE (cfg s)) as Hxj by lia.
      apply (mod_inj (next - WINDOW_SIZE (cfg s)) (WINDOW_SIZE (cfg s))); lia. }
  destruct (send_packet_run j _ s1 _ _ _ _ S1 Hp' ltac:(lia)) as (s2 & E2 & S2 & Q). exists s2. split_and!; [exact E2|done|].
  etrans; [|exact Q]. done.
Qed.
Lemma time_ok_sec n : time_ok (clock n).1 0.
Proof. split; [apply Hclock|unfold is_i32; lia]. Qed.
Lemma tick_ok n s next acked budget cut : sending_ok next acked budget cut s → sending_ok next acked budget cut (put_clocks n s).
Proof. by intros []. Qed.

(** The gaps of a report. *)
Lemma resend_range_run n : ∀ i s next acked budget cut, sending_ok next acked budget cut s → 0 ≤ i → i + Z.of_nat n ≤ next →
  ∃ s', resend_range servaddr clock rand n i s = Ret tt s' ∧ sending_ok next acked budget cut s' ∧ same_sender s s'.
Proof.
  induction n as [|n IH]; intros i s next acked budget cut S Hi Hn; [by exists s|]. cbn [resend_range].
  erewrite bind_Ret by reflexivity. set (s1 := put_clocks (Datatypes.S (clocks s)) s). run (eq_refl (get s1)).
  destruct (resend_run i (clock (clocks s)).1 s1 next acked budget cut) as (s2 & E & S2 & Q); [by apply tick_ok|lia|apply time_ok_sec|].
  run E. destruct (IH (i + 1) s2 next acked budget cut S2) as (s3 & E3 & S3 & Q3); [lia|lia|].
  exists s3. split_and!; [done|done|]. etrans; [|exact Q3]. etrans; [|exact Q]. done.
Qed.
Lemma resend_gaps_run fuel : ∀ j s next acked budget cut, sending_ok next acked budget cut s → usable_msg next (recvd_msg (tx s)) →
  0 ≤ j ≤ MAX_GAPS → MAX_GAPS < j + Z.of_nat fuel →
  ∃ s', resend_gaps servaddr clock rand fuel j s = Ret tt s' ∧ sending_ok next acked budget cut s' ∧ same_sender s s'.
Proof.
  induction fuel as [|fuel IH]; intros j s next acked budget cut S (n & En & Hn & Hg) Hj Hf.
  - lia.
  - cbn [resend_gaps]. run (reads_Some (λ s : ncp A, get_num_gaps (recvd_msg (tx s))) _ s En).
    destruct (Z.ltb_spec j n) as [Hjn|_]; [|by exists s]. destruct (Hg j ltac:(lia)) as (g & Eg & Hs & He).
    run (reads_Some (λ s : ncp A, get_gap_at (recvd_msg (tx s)) j) _ s Eg).
    assert (∃ s1, resend_range servaddr clock rand (Z.to_nat (end_ g - start g)) (start g) s = Ret tt s1 ∧
      sending_ok next acked budget cut s1 ∧ same_sender s s1) as (s1 & E1 & S1 & Q1).
    { destruct (decide (start g ≤ end_ g)).
      - apply resend_range_run; [done|lia|lia].
      - replace (Z.to_nat (end_ g - start g)) with 0%nat by lia. by exists s. }
    run E1. pose proof Q1 as (_ & _ & _ & _ & _ & Eq & _).
    destruct (IH (j + 1) s1 next acked budget cut S1) as (s2 & E2 & S2 & Q2); [rewrite Eq; by exists n|lia|lia|].
    exists s2. split_and!; [done|done|by etrans].
Qed.
Lemma set_tx_run f s : set_tx f s = Ret tt (put_tx (f (tx s)) s).
Proof using Type. done. Qed.
Lemma fill_gaps_run s next acked budget cut : sending_ok next acked budget cut s →
  ∃ s', fill_gaps servaddr clock rand s = Ret tt s' ∧ sending_ok next acked budget cut s' ∧
    start_of_window (tx s') = start_of_window (tx s) ∧ cfg s' = cfg s ∧ eof (tx s') = eof (tx s) ∧ check_gaps (tx s') = false.
Proof.
  intros S. unfold fill_gaps. run (eq_refl (get s)). destruct (check_gaps (tx s)) eqn:Ec; [|by exists s].
  destruct (so_msg _ _ _ _ _ S) as [Hl Hm]. destruct (resend_gaps_run (Datatypes.S (Z.to_nat MAX_GAPS)) 0 s next acked budget cut S (Hm Ec))
    as (s1 & E & S1 & Q); [unfold MAX_GAPS; lia|unfold MAX_GAPS; lia|]. run E. rewrite set_tx_run.
  destruct Q as (Q1 & Q2 & Q3 & Q4 & Q5 & Q6 & Q7 & Q8 & _).
  eexists. split; [reflexivity|]. split; [|by split_and!]. destruct S1. constructor; try done. cbn. split; [apply so_msg0|done].
Qed.

(** The next piece. *)
Lemma usable_msg_mono next next' m : usable_msg next m → next ≤ next' → usable_msg next' m.
Proof using Type. clear.
  intros (n & En & Hn & Hg) Hle. exists n. split_and!; try done. intros j Hj. destruct (Hg j Hj) as (g & Eg & Hs & He).
  exists g. split_and!; [done|done|lia].
Qed.
Lemma c_str_padded c : chunk_ok c → c_str (c ++ replicate (1400 - length c) 0) = c.
Proof using Type. clear.
  intros [H0 Hl]. replace (1400 - length c)%nat with (Datatypes.S (1399 - length c)) by lia. apply c_str_app. by intros x Hx ->.
Qed.
Lemma send_next_run s next acked budget cut : sending_ok next acked budget cut s →
  ∃ s' next', send_next servaddr clock rand s = Ret tt s' ∧ sending_ok next' acked budget cut s' ∧
    start_of_window (tx s') = start_of_window (tx s) ∧ cfg s' = cfg s ∧ check_gaps (tx s') = check_gaps (tx s) ∧ next ≤ next' ≤ next + 1 ∧
    (curr_in_flight (tx s) < WINDOW_SIZE (cfg s) → next < N → next' = next + 1).
Proof.
  intros S. pose proof (so_window_size _ _ _ _ _ S) as HW. destruct (so_next _ _ _ _ _ S) as (Hst & Hsum & Hn).
  destruct (so_acked _ _ _ _ _ S) as (Ha1 & Ha2 & Ha3). destruct (so_file _ _ _ _ _ S) as [Heof Hun].
  unfold send_next. run (eq_refl (get s)). rewrite Heof.
  destruct (Z.ltb_spec (curr_in_flight (tx s)) (WINDOW_SIZE (cfg s))) as [Hroom|Hfull]; cbn [andb].
  2:{ exists s, next. split_and!; try done; lia. }
  case_bool_decide as HnN; cbn [negb].
  { exists s, next. split_and!; try done; lia. }
  run (lift_Some _ _ s (int_add_ok (start_of_window (tx s)) (curr_in_flight (tx s)) ltac:(unfold MAX_GAPS in *; lia))). rewrite Hsum.
  destruct (lookup_lt_is_Some_2 chunks (Z.to_nat next)) as [c Ec]; [lia|].
  pose proof (drop_S _ _ _ Ec) as Ed. assert (complete (c :: drop (Datatypes.S (Z.to_nat next)) chunks)) as Hcd by (rewrite <-Ed; by apply complete_drop).
  destruct (read_piece _ _ Hcd) as (Et & Edr & Elt). rewrite Hun, Ed. change (Z.to_nat (MAX_MESS_LEN - 1)) with 1399%nat. rewrite Et, Edr.
  pose proof (Forall_lookup_1 _ _ _ _ Hchunks Ec) as Hok. destruct Hok as [H0 Hlen].
  destruct (rem_mod next (WINDOW_SIZE (cfg s))) as [Er Hr]; [lia|lia|]. destruct (so_window _ _ _ _ _ S) as [Hl Hw].
  erewrite bind_Ret by apply set_tx_run. set (s1 := put_tx _ s).
  set (now := clock (clocks s1)). erewrite bind_Ret by reflexivity. fold now. set (s2 := put_clocks _ s1).
  rewrite (c_str_padded c) by done. set (p := mk_upkt _ _ _ _ _ _ _ _ _).
  assert (is_packet next p) as Hp.
  { exists now.1, c. split_and!; [lia|done|apply time_ok_sec|done]. }
  assert (window_set (Z.rem next (WINDOW_SIZE (cfg s))) p s2 = Ret tt (put_tx (mk_sending (<[Z.to_nat (next mod WINDOW_SIZE (cfg s)) := Some p]> (window (tx s)))
     (start_of_window (tx s)) (curr_in_flight (tx s)) (check_gaps (tx s)) (time_of_last_win_move (tx s)) (recvd_msg (tx s))
     (concat (drop (Datatypes.S (Z.to_nat next)) chunks)) (Z.of_nat (length c) <? MAX_MESS_LEN - 1)) s2)) as Es.
  { rewrite Er. unfold window_set. apply updates_Some. unfold with_packet. change (window (tx s2)) with (window (tx s)).
    rewrite (aset_ok (window (tx s))) by (rewrite Hl; lia). done. }
  run Es. set (s3 := put_tx _ s2). destruct (send_packet_net next p s3 Hp) as (n' & d & E & Hd & Ecut & Ew). run E. clear E Es.
  set (s4 := put_net n' (counted p s3)). run (eq_refl (get s4)). change (curr_in_flight (tx s4)) with (curr_in_flight (tx s)).
  run (lift_Some _ _ s4 (int_incr_ok (curr_in_flight (tx s)) ltac:(unfold MAX_GAPS in *; lia))). rewrite set_tx_run.
  eexists _, (next + 1). split; [reflexivity|]. split; [|split_and!; try done; lia].
  assert (Z.to_nat (next + 1) = Datatypes.S (Z.to_nat next)) as En by lia. change (net_ s3) with (net_ s) in Ecut, Ew.
  destruct S. constructor; cbn [tx put_tx cfg stat net_ s4 put_net put_stat counted s3 s2 s1 put_clocks window start_of_window curr_in_flight check_gaps recvd_msg unread eof with_in_flight bytes_since_last_output bytes_successfully_sent with_total]; try done.
  - lia.
  - lia.
  - rewrite En. split; [|done]. etrans; [exact Elt|]. apply bool_decide_ext. rewrite <-length_zero_iff_nil, length_drop. lia.
  - split; [by rewrite length_insert|]. intros i Hi Hin. destruct (decide (i = next)) as [->|Hne].
    + exists p. split; [|done]. apply list_lookup_insert_eq. rewrite Hl. lia.
    + destruct (Hw i) as (q & Eq & Hq); [lia|lia|]. exists q. split; [|done]. rewrite list_lookup_insert_ne; [done|].
      intros Heq. apply Hne. pose proof (Z.mod_pos_bound i (WINDOW_SIZE (cfg s)) ltac:(lia)).
      apply (mod_inj (next + 1 - WINDOW_SIZE (cfg s)) (WINDOW_SIZE (cfg s))); lia.
  - destruct Ew as [-> | [-> _]].
    + apply Forall_app_2; [|constructor; [|done]].
      * eapply Forall_impl; [exact so_wire0|]. intros w [Hw1|(i & Hi & Hd1)]; [by left|right]. exists i. split; [lia|done].
      * right. exists next. split; [lia|done].
    + eapply Forall_impl; [exact so_wire0|]. intros w [Hw1|(i & Hi & Hd1)]; [by left|right]. exists i. split; [lia|done].
  - by rewrite Ecut.
  - intros H0' i Hi. destruct Ew as [-> | [_ Hn0]]; [|by rewrite so_cut0, H0' in Hn0].
    destruct (decide (i = next)) as [->|Hne].
    + exists (servaddr, d). split; [apply elem_of_app; right; by apply list_elem_of_singleton|done].
    + destruct (so_lossless0 H0' i ltac:(lia)) as (w & Hin & Hwd). exists w. split; [apply elem_of_app; by left|done].
  - split; [apply so_msg0|]. intros Hc. eapply usable_msg_mono; [by apply so_msg0|lia].
Qed.

(** ** Reports *)

(** What a received datagram says, it says in the variable that received it. *)
Lemma aget_recv old d i x : aget d i = Some x → i < sizeof_rcv_msg → aget (recv_into sizeof_rcv_msg old d) i = Some x.
Proof using Type. clear.
  intros [H0 H]%aget_Some Hi. apply aget_Some. split; [done|]. unfold recv_into, sizeof_rcv_msg in *.
  apply lookup_app_l_Some. by rewrite lookup_take_lt by lia.
Qed.
Lemma get_u32_recv old d off x : get_u32 d off = Some x → off + 4 ≤ sizeof_rcv_msg → get_u32 (recv_into sizeof_rcv_msg old d) off = Some x.
Proof using Type. clear.
  unfold get_u32. intros H Hoff. destruct (aget d off) as [b0|] eqn:E0; [|done]. destruct (aget d (off + 1)) as [b1|] eqn:E1; [|done].
  destruct (aget d (off + 2)) as [b2|] eqn:E2; [|done]. destruct (aget d (off + 3)) as [b3|] eqn:E3; [|done].
  rewrite (aget_recv old d _ b0 E0), (aget_recv old d _ b1 E1), (aget_recv old d _ b2 E2), (aget_recv old d _ b3 E3) by lia. done.
Qed.
Lemma get_i32_recv old d off x : i32 <$> get_u32 d off = Some x → off + 4 ≤ sizeof_rcv_msg →
  i32 <$> get_u32 (recv_into sizeof_rcv_msg old d) off = Some x.
Proof using Type. clear.
  intros (y & Ey & ->)%fmap_Some Hoff. by rewrite (get_u32_recv old d off y Ey Hoff).
Qed.
Lemma get_gap_recv old d j g : get_gap_at d j = Some g → j < MAX_GAPS → get_gap_at (recv_into sizeof_rcv_msg old d) j = Some g.
Proof using Type. clear.
  unfold get_gap_at. intros H Hj. destruct (i32 <$> get_u32 d (12 + 8 * j)) as [a|] eqn:Ea; [|done].
  destruct (i32 <$> get_u32 d (16 + 8 * j)) as [b|] eqn:Eb; [|done].
  rewrite (get_i32_recv old d _ a Ea), (get_i32_recv old d _ b Eb) by (unfold sizeof_rcv_msg, MAX_GAPS in *; lia). done.
Qed.
Lemma length_recv old d : length old = 812%nat → length (recv_into sizeof_rcv_msg old d) = 812%nat.
Proof using Type. clear. intros H. unfold recv_into. rewrite length_app, length_drop, length_take, H. unfold sizeof_rcv_msg. lia. Qed.

(** The packets that are acknowledged are counted. *)
Definition with_bytes (z : Z) s : ncp A := put_stat (with_since z (stat s)) s.
Lemma with_bytes_eta s : s = with_bytes (bytes_since_last_output (stat s)) s.
Proof using Type. clear. by destruct s as [? ? ? [] ? ?]. Qed.
Lemma count_acked_run n : ∀ i s s0 next acked budget cut, sending_ok next acked budget cut s0 → window (tx s) = window (tx s0) → cfg s = cfg s0 →
  0 ≤ i → i + Z.of_nat n ≤ next →
  0 ≤ bytes_since_last_output (stat s) → bytes_since_last_output (stat s) + 1399 * Z.of_nat n < 2147483648 →
  ∃ z, count_acked n i s = Ret tt (with_bytes z s) ∧
    bytes_since_last_output (stat s) ≤ z ≤ bytes_since_last_output (stat s) + 1399 * Z.of_nat n.
Proof.
  induction n as [|n IH]; intros i s s0 next acked budget cut S Hw Hc Hi Hn Hz Hb.
  { exists (bytes_since_last_output (stat s)). rewrite <-with_bytes_eta. split; [done|lia]. }
  cbn [count_acked]. run (eq_refl (get s)). destruct (window_get_run i s0 next acked budget cut S ltac:(lia)) as (p & j & E & Hp & _).
  assert (window_get (Z.rem i (WINDOW_SIZE (cfg s))) s = Ret p s) as E1.
  { unfold window_get, reads in *. rewrite Hw, Hc. case_match; [|done]. by injection E as ->. }
  run E1. destruct Hp as (sec & c & _ & Hcc & _ & ->). pose proof (Forall_lookup_1 _ _ _ _ Hchunks Hcc) as [_ Hlen].
  cbn [payload_len RcvSpec.data_pkt]. erewrite bind_Ret by reflexivity. set (z := bytes_since_last_output (stat s)) in *.
  assert (i32 (u32 (z + Z.of_nat (length c))) = z + Z.of_nat (length c)) as Ez by (rewrite u32_small, i32_small by lia; done).
  change (put_stat _ s) with (with_bytes (i32 (u32 (z + Z.of_nat (length c)))) s). rewrite Ez.
  destruct (IH (i + 1) (with_bytes (z + Z.of_nat (length c)) s) s0 next acked budget cut S Hw Hc) as (z' & E' & Hz'); [lia|lia|cbn; lia|cbn; lia|].
  cbn in Hz'. exists z'. split; [exact E'|lia].
Qed.
Lemma acknowledge_run a s next acked budget cut : sending_ok next acked budget cut s → check_gaps (tx s) = false →
  0 < a ≤ next → 1399 * (N + budget) < 2147483648 →
  ∃ s', acknowledge clock a s = Ret tt s' ∧ cfg s' = cfg s ∧ recvd_msg (tx s') = recvd_msg (tx s) ∧ check_gaps (tx s') = false ∧
    start_of_window (tx s') = a ∧
    sending_ok next (acked `max` a) (if a <? start_of_window (tx s) then budget + N else budget) cut s'.
Proof.
  intros S Hcg Ha Hbud. destruct (so_next _ _ _ _ _ S) as (Hst & Hsum & Hn). destruct (so_acked _ _ _ _ _ S) as (Ha1 & Ha2 & Ha3).
  pose proof (so_window_size _ _ _ _ _ S) as HW. destruct (so_stat _ _ _ _ _ S) as (Hs1 & Hs2 & Hs3). set (start := start_of_window (tx s)) in *.
  unfold acknowledge. run (eq_refl (get s)). cbn zeta. fold start.
  run (lift_Some _ _ s (int_add_ok a (- start) ltac:(unfold MAX_GAPS in *; lia))).
  run (lift_Some _ _ s (int_add_ok (curr_in_flight (tx s)) (- (a + - start)) ltac:(unfold MAX_GAPS in *; lia))).
  erewrite bind_Ret by apply set_tx_run. set (s1 := put_tx (with_in_flight (curr_in_flight (tx s) + - (a + - start)) (tx s)) s).
  destruct (count_acked_run (Z.to_nat (a - start)) start s1 s next acked budget cut S eq_refl eq_refl) as (z & E & Hz); [lia|lia|done|cbn; lia|].
  run E. cbn in Hz. set (s2 := with_bytes z s1).
  assert (∃ s3, (if negb (start =? a) then now ← gettimeofday clock; set_tx (with_win_move now) else mret tt) s2 = Ret tt s3 ∧
    cfg s3 = cfg s ∧ stat s3 = stat s2 ∧ net_ s3 = net_ s ∧ ∃ v, tx s3 = with_win_move v (tx s1)) as (s3 & E3 & Hc3 & Hs3' & Hn3 & v & Ht3).
  { destruct (negb (start =? a)).
    - erewrite bind_Ret by reflexivity. rewrite set_tx_run. eexists. split; [reflexivity|]. split_and!; try done. by eexists.
    - exists s2. split_and!; try done. exists (time_of_last_win_move (tx s1)). by destruct (tx s). }
  run E3. rewrite set_tx_run. eexists. split; [reflexivity|]. cbn [cfg put_tx tx]. rewrite Hc3, Ht3. split_and!; try done.
  destruct S. constructor; cbn [cfg put_tx tx stat net_ with_win_move with_start_of_window with_in_flight s1 window start_of_window curr_in_flight check_gaps recvd_msg unread eof];
    rewrite ?Hc3, ?Hn3, ?Ht3, ?Hs3'; try done; cbn [with_win_move with_start_of_window with_in_flight put_tx tx s1 window start_of_window curr_in_flight check_gaps recvd_msg unread eof s2 with_bytes put_stat stat with_since bytes_since_last_output bytes_successfully_sent].
  - lia.
  - lia.
  - split_and!; [lia|done|]. destruct (Z.ltb_spec a start); lia.
Qed.

(** A report of the receiver; [D] is what it had received. *)
Definition good_report (D : gset Z) (next : Z) (dgram : list Z) : Prop :=
  get_bool dgram 0 = Some true ∧ sound D dgram ∧ ∀ i, i ∈ D → i < next.
Lemma handle_report_run D dgram s next acked budget cut : sending_ok next acked budget cut s → check_gaps (tx s) = false →
  good_report D next dgram → 1399 * (N + budget) < 2147483648 →
  ∃ s' a budget', handle_report clock dgram s = Ret tt s' ∧ get_aru dgram = Some a ∧ cfg s' = cfg s ∧
    sending_ok next (acked `max` a) budget' cut s' ∧ (∀ i, 0 ≤ i < a → i ∈ D) ∧
    (if start_of_window (tx s') <? start_of_window (tx s) then budget' = budget + N else budget' = budget) ∧
    start_of_window (tx s') = (if 0 <? a then a else start_of_window (tx s)).
Proof.
  intros S Hcg (Hb & Hsound & HD) Hbud. destruct (Hsound Hb) as (a & n & Ea & Ha0 & Ha & En & Hnm & Hg).
  destruct (so_next _ _ _ _ _ S) as (Hst & Hsum & Hn). destruct (so_acked _ _ _ _ _ S) as (Ha1 & Ha2 & Ha3).
  assert (a ≤ next) as Han. { destruct (decide (a ≤ 0)); [lia|]. specialize (HD (a - 1) (Ha (a - 1) ltac:(lia))). lia. }
  pose proof (so_window_size _ _ _ _ _ S) as HW. destruct (so_msg _ _ _ _ _ S) as [Hlm _].
  set (m := recv_into sizeof_rcv_msg (recvd_msg (tx s)) dgram).
  unfold handle_report. erewrite bind_Ret by apply set_tx_run. fold m. set (s1 := put_tx (with_recvd m (tx s)) s).
  assert (get_aru m = Some a) as Eam by by apply get_i32_recv.
  assert (get_num_gaps m = Some n) as Enm by by apply get_i32_recv.
  assert (usable_msg next m) as Hum.
  { exists n. split_and!; [done|done|]. intros j Hj. destruct (Hg j Hj) as (g & Eg & Hs & i & Hi & He). exists g.
    split; [apply get_gap_recv; [done|lia]|]. split; [done|]. specialize (HD i Hi). lia. }
  assert (sending_ok next acked budget cut s1) as S1.
  { destruct S. constructor; try done. cbn. split; [by apply length_recv|by rewrite Hcg]. }
  run (reads_Some (λ s : ncp A, get_aru (recvd_msg (tx s))) _ s1 Eam). rewrite Z.gtb_ltb.
  assert (∃ s2, (if 0 <? a then acknowledge clock a else mret tt) s1 = Ret tt s2 ∧ cfg s2 = cfg s ∧ recvd_msg (tx s2) = m ∧ check_gaps (tx s2) = false ∧
     start_of_window (tx s2) = (if 0 <? a then a else start_of_window (tx s)) ∧
     sending_ok next (acked `max` a) (if start_of_window (tx s2) <? start_of_window (tx s) then budget + N else budget) cut s2) as
    (s2 & E2 & Ec2 & Em2 & Eg2 & Est2 & S2).
  { destruct (Z.ltb_spec 0 a) as [Hpos|Hz].
    - destruct (acknowledge_run a s1 next acked budget cut S1 Hcg) as (s2 & E2 & Ec2 & Em2 & Eg2 & Est2 & S2); [lia|done|].
      exists s2. by rewrite Est2.
    - exists s1. split_and!; try done. change (start_of_window (tx s1)) with (start_of_window (tx s)).
      rewrite Z.ltb_irrefl. by replace (acked `max` a) with acked by lia. }
  run E2. assert (get_num_gaps (recvd_msg (tx s2)) = Some n) as Enm2 by by rewrite Em2.
  run (reads_Some (λ s : ncp A, get_num_gaps (recvd_msg (tx s))) _ s2 Enm2).
  assert (∃ s3, (if n >? 0 then set_tx (with_check true) else mret tt) s2 = Ret tt s3 ∧ cfg s3 = cfg s ∧
    start_of_window (tx s3) = start_of_window (tx s2) ∧
    sending_ok next (acked `max` a) (if start_of_window (tx s2) <? start_of_window (tx s) then budget + N else budget) cut s3) as (s3 & E3 & Ec3 & Est3 & S3).
  { destruct (n >? 0); [|by exists s2]. rewrite set_tx_run. eexists. split; [reflexivity|]. split_and!; [done|done|].
    destruct S2. constructor; try done. cbn. rewrite Em2. split; [|done]. unfold m. by apply length_recv. }
  exists s3, a. eexists. split_and!; [exact E3|done|done|exact S3|done| |by rewrite Est3].
  rewrite Est3. by case_match.
Qed.

(** ** A turn *)

Lemma resend_first_run n : ∀ j sec s next acked budget cut, sending_ok next acked budget cut s → 0 ≤ j → time_ok sec 0 →
  ∃ s', resend_first servaddr rand n j sec s = Ret tt s' ∧ sending_ok next acked budget cut s' ∧ same_sender s s'.
Proof.
  induction n as [|n IH]; intros j sec s next acked budget cut S Hj Ht; [by exists s|]. cbn [resend_first]. run (eq_refl (get s)).
  destruct (Z.ltb_spec j (curr_in_flight (tx s))) as [Hlt|_]; [|by exists s].
  destruct (so_next _ _ _ _ _ S) as (Hst & Hsum & Hn).
  run (lift_Some _ _ s (int_add_ok (start_of_window (tx s)) j ltac:(lia))).
  destruct (resend_run (start_of_window (tx s) + j) sec s next acked budget cut S) as (s1 & E & S1 & Q); [lia|done|]. run E.
  destruct (IH (j + 1) sec s1 next acked budget cut S1) as (s2 & E2 & S2 & Q2); [lia|done|]. exists s2. split_and!; [done|done|by etrans].
Qed.
(** What is left alone from the report to the end of the turn. *)
Definition same_window s s' : Prop :=
  cfg s' = cfg s ∧ start_of_window (tx s') = start_of_window (tx s) ∧ curr_in_flight (tx s') = curr_in_flight (tx s) ∧ eof (tx s') = eof (tx s).
Lemma window_timeout_run s next acked budget cut : sending_ok next acked budget cut s →
  ∃ s', window_timeout servaddr clock rand s = Ret tt s' ∧ sending_ok next acked budget cut s' ∧ same_window s s'.
Proof.
  intros S. unfold window_timeout. erewrite bind_Ret by reflexivity. set (now := clock (clocks s)).
  set (s1 := put_clocks _ s). run (eq_refl (get s1)). case_match; [|by exists s1; split_and!; [|apply tick_ok|..]].
  destruct (resend_first_run (Z.to_nat (NUM_TO_RESEND (cfg s1))) 0 now.1 s1 next acked budget cut) as (s2 & E & S2 & Q);
    [by apply tick_ok|done|apply time_ok_sec|]. run E. erewrite bind_Ret by reflexivity. rewrite set_tx_run.
  eexists. split; [reflexivity|]. destruct Q as (Q1 & Q2 & Q3 & Q4 & Q5 & Q6 & Q7 & Q8 & _). split; [|by split_and!].
  destruct S2. by constructor.
Qed.
Lemma print_statistics_run s next acked budget cut : sending_ok next acked budget cut s → 1399 * (N + budget) < 2147483648 →
  ∃ s', print_statistics clock s = Ret tt s' ∧ sending_ok next acked budget cut s' ∧ same_window s s'.
Proof.
  intros S Hb. unfold print_statistics. run (eq_refl (get s)). case_match; [|by exists s]. erewrite bind_Ret by reflexivity.
  destruct (so_stat _ _ _ _ _ S) as (Hs1 & Hs2 & Hs3). destruct (so_next _ _ _ _ _ S) as (Hst & Hsum & Hn). destruct (so_acked _ _ _ _ _ S) as (Ha1 & Ha2 & _).
  set (s1 := put_clocks _ s). run (lift_Some _ _ s1 (int_add_ok (bytes_successfully_sent (stat s)) (bytes_since_last_output (stat s)) ltac:(lia))).
  erewrite bind_Ret by reflexivity. erewrite bind_Ret by reflexivity. erewrite bind_Ret by reflexivity.
  eexists. split; [reflexivity|]. split; [|done]. destruct S. constructor; try done. cbn. lia.
Qed.

Definition event_ok (D : gset Z) (next : Z) (e : event) : Prop :=
  match e with STimeout => True | SPacket d => good_report D next d end.
Lemma good_report_mono D next next' d : good_report D next d → next ≤ next' → good_report D next' d.
Proof using Type. clear. intros (Hb & Hs & HD) Hle. split_and!; [done|done|]. intros i Hi. specialize (HD i Hi). lia. Qed.

(** What a turn does: the window may grow by one packet and moves to what the
    report acknowledges; [true] only when everything is acknowledged. *)
Record turned (D : gset Z) (e : event) (next acked budget cut : Z) s (b : bool) (next' acked' budget' : Z) s' : Prop := {
  td_ok : sending_ok next' acked' budget' cut s';
  td_cfg : cfg s' = cfg s;
  td_next : next ≤ next' ≤ next + 1 ∧ (curr_in_flight (tx s) < WINDOW_SIZE (cfg s) → next < N → next' = next + 1);
  td_acked : acked' = acked ∨ ∀ i, 0 ≤ i < acked' → i ∈ D;
  td_budget : if start_of_window (tx s') <? start_of_window (tx s) then budget' = budget + N else budget' = budget;
  td_done : b = true → next' = N ∧ acked' = N;
  td_over : next' = N → start_of_window (tx s') = N → b = true;
  td_start : match e with
    | STimeout => start_of_window (tx s') = start_of_window (tx s)
    | SPacket d => ∃ a, get_aru d = Some a ∧ start_of_window (tx s') = (if 0 <? a then a else start_of_window (tx s))
    end
}.
Lemma turn_run D e s next acked budget cut : sending_ok next acked budget cut s → event_ok D next e → 1399 * (2 * N + budget) < 2147483648 →
  ∃ b s' next' acked' budget', turn servaddr clock rand e s = Ret b s' ∧ turned D e next acked budget cut s b next' acked' budget' s'.
Proof.
  intros S He Hb. unfold turn. destruct (fill_gaps_run s next acked budget cut S) as (s1 & E1 & S1 & St1 & C1 & F1 & G1). run E1.
  destruct (send_next_run s1 next acked budget cut S1) as (s2 & next' & E2 & S2 & St2 & C2 & G2 & Hn & Hn1). run E2.
  rewrite G1 in G2. rewrite St1 in St2. rewrite C1 in C2. destruct (so_next _ _ _ _ _ S) as (_ & Hsum & _). destruct (so_next _ _ _ _ _ S1) as (_ & Hsum1 & _).
  assert (∃ s3 acked' budget', (match e with SPacket dgram => handle_report clock dgram | STimeout => mret tt end) s2 = Ret tt s3 ∧
    cfg s3 = cfg s ∧ sending_ok next' acked' budget' cut s3 ∧ (acked' = acked ∨ ∀ i, 0 ≤ i < acked' → i ∈ D) ∧
    (if start_of_window (tx s3) <? start_of_window (tx s) then budget' = budget + N else budget' = budget) ∧
    match e with
    | STimeout => start_of_window (tx s3) = start_of_window (tx s)
    | SPacket d => ∃ a, get_aru d = Some a ∧ start_of_window (tx s3) = (if 0 <? a then a else start_of_window (tx s))
    end) as (s3 & acked' & budget' & E3 & C3 & S3 & Hack & Hbud & Hst3).
  { destruct e as [d|].
    - destruct (handle_report_run D d s2 next' acked budget cut S2 G2) as (s3 & a & budget' & E & Ea & C & S3 & Ha & Hbu & Hst); [by eapply good_report_mono, Hn|lia|].
      rewrite St2 in Hbu, Hst. exists s3, (acked `max` a), budget'. split_and!; [done|congruence|done| |done|by exists a].
      destruct (Z.max_spec acked a) as [[_ ->]|[_ ->]]; [by right|by left].
    - exists s2, acked, budget. split_and!; [done|done|done|by left| |done]. by rewrite St2, Z.ltb_irrefl. }
  run E3. run (eq_refl (get s3)). destruct (so_next _ _ _ _ _ S3) as (Hst & Hsum3 & HnN). destruct (so_acked _ _ _ _ _ S3) as (Ha1 & Ha2 & _).
  destruct (so_file _ _ _ _ _ S3) as [Heof _]. destruct (eof (tx s3) && (curr_in_flight (tx s3) <=? 0)) eqn:Ed.
  - apply andb_true_iff in Ed as [Ee Ef%Z.leb_le]. rewrite Heof in Ee. apply bool_decide_eq_true in Ee.
    exists true, s3, next', acked', budget'. split; [done|]. constructor; try done; [|lia].
    split; [done|]. intros Hf HnN'. apply Hn1; [|done]. rewrite C1. lia.
  - destruct (window_timeout_run s3 next' acked' budget' cut S3) as (s4 & E4 & S4 & W1 & W2 & W3 & W4). run E4.
    assert (budget' ≤ budget + N) as Hbb by (destruct (start_of_window (tx s3) <? start_of_window (tx s)); lia).
    destruct (print_statistics_run s4 next' acked' budget' cut S4) as (s5 & E5 & S5 & V1 & V2 & V3 & V4); [lia|]. run E5.
    exists false, s5, next', acked', budget'. split; [done|]. rewrite W2 in V2.
    constructor; try done; rewrite ?V2; try done; [congruence| |].
    + split; [done|]. intros Hf HnN'. apply Hn1; [|done]. rewrite C1. lia.
    + intros HnN' Hs. exfalso. rewrite Heof, bool_decide_true in Ed by done. apply Z.leb_gt in Ed. lia.
Qed.

(** The start of a transfer. *)
Lemma transmission_start_run text s : text = concat chunks → chunks ≠ [] → 0 < WINDOW_SIZE (cfg s) ≤ MAX_GAPS → length junk_msg = 812%nat →
  Forall (λ w, is_init name w.2) (wire (net_ s)) →
  ∃ s', transmission_start clock junk_msg (Some text) s = Ret tt s' ∧ sending_ok 0 0 0 (cutoff (net_ s)) s' ∧ cfg s' = cfg s ∧ net_ s' = net_ s.
Proof.
  intros -> Hne HW Hj Hw. unfold transmission_start. eexists. split; [reflexivity|]. split; [|done].
  assert (0 < N) as HN0. { destruct chunks; [done|]. simpl. lia. }
  constructor; cbn; try done; try lia.
  - rewrite bool_decide_false by lia. done.
  - split; [by rewrite length_replicate|]. intros i Hi. lia.
  - eapply Forall_impl; [exact Hw|]. intros w H. by left.
Qed.
End sender.

(** ** The end *)

Section closing.
Context {A : Type} (servaddr : A) (clock : nat → timeval) (rand : nat → Z) (junk_pkt : list Z).
Implicit Types (s : ncp A).

(** How often [select] times out, and datagrams whose flags can be read: the one
    for reports, and for what is not a report the one for FIN. *)
Definition timeouts (evs : list event) : Z := sumz (λ e, match e with STimeout => 1 | SPacket _ => 0 end) evs.
Definition readable (e : event) : bool :=
  match e with
  | STimeout => true
  | SPacket d =>
      let pkt := recv_into sizeof_upkt junk_pkt d in
      match get_bool pkt 0, get_bool pkt 2 with Some true, _ => true | Some false, Some _ => true | _, _ => false end
  end.
Definition is_fin_packet (p : upkt) : Prop := ∃ sec usec, p = with_time (sec, usec) fin_packet.

Lemma send_fin p s : is_fin_packet p →
  ∃ s', sendto servaddr rand (upkt_bytes p) (sizeof_upkt - MAX_MESS_LEN) s = Ret tt s' ∧
    (length (wire (net_ s')) ≤ S (length (wire (net_ s))))%nat.
Proof.
  intros (sec & usec & ->). destruct (sendto_dbg_spec rand (upkt_bytes (with_time (sec, usec) fin_packet)) (sizeof_upkt - MAX_MESS_LEN) servaddr (net_ s))
    as (n' & E & _ & _ & Ew); [done|]. unfold sendto. run (zoom_Ret net_ put_net _ s _ _ E). eexists. split; [reflexivity|].
  cbn. rewrite Ew. case_match; [lia|]. rewrite length_app. simpl. lia.
Qed.
Lemma timeouts_nonneg evs : 0 ≤ timeouts evs.
Proof. unfold timeouts. induction evs as [|[d|] evs IH]; simpl in *; lia. Qed.
Lemma closing_loop_run evs : ∀ p n s, is_fin_packet p → 0 ≤ n ≤ 601 → 601 - n ≤ timeouts evs →
  (closing_loop servaddr clock rand junk_pkt p n evs s = Undef ∧ forallb readable evs = false) ∨
  ∃ rest s', closing_loop servaddr clock rand junk_pkt p n evs s = Ret (Some rest) s' ∧ state s' = N_CLOSING ∧
    Z.of_nat (length (wire (net_ s'))) ≤ Z.of_nat (length (wire (net_ s))) + (601 - n).
Proof.
  induction evs as [|e evs IH]; intros p n s Hp Hn Ht; cbn [closing_loop]; rewrite Z.gtb_ltb.
  all: destruct (Z.ltb_spec 600 n) as [Hlt|Hle]; [right; eexists _, _; split_and!; [reflexivity|done|cbn; lia]|].
  - unfold timeouts in Ht. simpl in Ht. lia.
  - destruct e as [d|].
    + assert (601 - n ≤ timeouts evs) as Ht' by (unfold timeouts in *; simpl in Ht; lia). specialize (IH p n s Hp Hn Ht').
      assert (∀ b, (closing_loop servaddr clock rand junk_pkt p n evs s = Undef ∧ forallb readable evs = false) →
        closing_loop servaddr clock rand junk_pkt p n evs s = Undef ∧ b && forallb readable evs = false) as Hb by (intros b [-> ->]; by rewrite andb_false_r).
      cbn [forallb readable]. destruct (get_bool (recv_into sizeof_upkt junk_pkt d) 0) as [[]|] eqn:E0; [| |by left].
      { rewrite (bind_Ret (lift (Some true)) _ s true s) by done. destruct IH as [H|H]; [left; by apply Hb|by right]. }
      rewrite (bind_Ret (lift (Some false)) _ s false s) by done. destruct (get_bool (recv_into sizeof_upkt junk_pkt d) 2) as [f|] eqn:E2; [|by left].
      rewrite (bind_Ret (lift (Some f)) _ s f s) by done. destruct f; [right|destruct IH as [H|H]; [left; by apply Hb|by right]].
      eexists _, _. split_and!; [reflexivity|done|cbn; lia].
    + assert (600 - n ≤ timeouts evs) as Ht' by (unfold timeouts in *; simpl in Ht; lia).
      erewrite bind_Ret by reflexivity. set (s1 := put_clocks _ s). destruct Hp as (sec & usec & ->).
      set (p1 := with_time (clock (clocks s)) (with_time (sec, usec) fin_packet)).
      assert (is_fin_packet p1) as Hp1 by (exists (clock (clocks s)).1, (clock (clocks s)).2; done).
      destruct (send_fin p1 s1 Hp1) as (s2 & E & Hw). rewrite (bind_Ret _ _ _ _ _ E).
      destruct (IH p1 (n + 1) s2 Hp1) as [H|(rest & s' & E' & Hst & Hw')]; [lia|lia|by left|right]. exists rest, s'. split_and!; [done|done|].
      change (net_ s1) with (net_ s) in Hw. lia.
Qed.

(** C40: The sender does not wait for ever to be told good-bye: with 601 timeouts
    it is closed, whatever arrives in between and even if nothing does, and it has
    sent the FIN at most 602 times; or it has read a flag of an arriving datagram
    that is not a bool, the one for reports or, of what is not a report, the one
    for FIN, which is undefined. *)
Theorem closing_terminates evs s : 601 ≤ timeouts evs →
  (closing_sequence servaddr clock rand junk_pkt evs s = Undef ∧ forallb readable evs = false) ∨
  ∃ rest s', closing_sequence servaddr clock rand junk_pkt evs s = Ret (Some rest) s' ∧ state s' = N_CLOSING ∧
    Z.of_nat (length (wire (net_ s'))) ≤ Z.of_nat (length (wire (net_ s))) + 602.
Proof.
  intros Ht. assert (is_fin_packet fin_packet) as Hp by by exists 0, 0. unfold closing_sequence.
  destruct (send_fin fin_packet s Hp) as (s1 & E & Hw). rewrite (bind_Ret _ _ _ _ _ E).
  destruct (closing_loop_run evs fin_packet 0 s1 Hp) as [H|(rest & s' & E' & Hst & Hw')]; [lia|lia|by left|right].
  exists rest, s'. split_and!; [done|done|lia].
Qed.
End closing.

(** The receiver is gone; one late report. *)
Lemma closing_terminates_witness :
  let s := mk_ncp (mk_params 45 1 0 2) N_ACTIVE (mk_sending [] 0 0 false (0, 0) [] [] true) (mk_statistics 0 0 0 (0, 0) (0, 0) (0, 0)) (mk_net true 0 0 []) 0 in
  ∃ rest s', closing_sequence tt (λ _, (0, 0)) (λ _, 0) (replicate 1432 0) (SPacket [1; 7; 7; 7] :: replicate 601 STimeout) s = Ret (Some rest) s' ∧
    state s' = N_CLOSING ∧ Z.of_nat (length (wire (net_ s'))) ≤ 0 + 602.
Proof.
  intros s. destruct (closing_terminates tt (λ _, (0, 0)) (λ _, 0) (replicate 1432 0) (SPacket [1; 7; 7; 7] :: replicate 601 STimeout) s) as [[_ H]|H].
  - vm_compute. discriminate.
  - exfalso. vm_compute in H. discriminate H.
  - exact H.
Defined.
