(* ===== verification/Transfer.v ===== *)
(** * The file transfer

    ncp.c and rcv.c with the network between them: what either of them hands to
    its socket may be delivered at once, late, more than once, out of order or
    never.  As long as what reaches the sender are reports, neither side runs into
    undefined behaviour, and when the sender stops the receiver's file is the
    sender's.  The sender takes the replies of the receiver to requests for
    reports too: one that arrives late leads to undefined behaviour. *)
From S2P Require Import Prelude Stdio Bytes Clock GapList Upkt RcvBuffer SendtoDbg Rcv RcvSpec Ncp NcpSpec.
Open Scope Z_scope.

(** ** The two programs and the network *)

Section protocol.
Context {A : Type}.
(** The receiver's library calls, *)
Context (getnameinfo : A → option (list Z * list Z)) (getaddrinfo : list Z → list Z → option A).
Context (rclock : nat → timeval) (rrand : nat → Z) (fopen_ok : nat → bool).
Context (malloc_gaps malloc_bufs malloc_conn : nat → bool).
Context (junk_node : node) (junk_gap : gap) (junk_bnode : buffer_node) (pad : list Z).
(** and the sender's. *)
Context (servaddr : A) (clock : nat → timeval) (rand : nat → Z) (junk_pkt junk_msg : list Z).
Abbreviation rturn := (Rcv.turn getnameinfo getaddrinfo rclock rrand fopen_ok malloc_gaps malloc_bufs malloc_conn
  junk_node junk_gap junk_bnode pad).
Abbreviation sturn := (Ncp.turn servaddr clock rand).

(** The sender in its transfer loop, or [finished] with it; [turns] counts what
    the receiver did, [overtaken] how often the sender's window moved back, when
    a report came after a later one. *)
Record world := mk_world { sender : ncp A; receiver : rcv A; finished : bool; turns : nat; overtaken : nat }.

(** What may be delivered: anything the other side has sent, and to the receiver
    requests of other clients. *)
Definition sender_gets (w : world) (e : Ncp.event) : Prop :=
  finished w = false ∧ match e with STimeout => True | SPacket d => d ∈ (wire (Rcv.net_ (receiver w))).*2 end.
(** The sender takes whatever arrives for a report.  These are reports. *)
Definition orderly (e : Ncp.event) : bool := match e with STimeout => true | SPacket d => bool_decide (get_bool d 0 = Some true) end.
Definition receiver_gets (w : world) (e : Rcv.event A) : Prop :=
  match e with
  | EvPacket _ d => d ∈ (wire (net_ (sender w))).*2 ∨ ∃ name, is_init name d
  | _ => True
  end.
(** The moves of a transfer in which only reports reach the sender. *)
Inductive moves : world → world → Prop :=
| sender_moves w e b s' : sender_gets w e → orderly e = true → sturn e (sender w) = Ret b s' →
    moves w (mk_world s' (receiver w) b (turns w)
      (if start_of_window (tx s') <? start_of_window (tx (sender w)) then S (overtaken w) else overtaken w))
| receiver_moves w e r' : receiver_gets w e → rturn e (receiver w) = Ret tt r' →
    moves w (mk_world (sender w) r' (finished w) (S (turns w)) (overtaken w)).

(** The sender connects and opens its file: the first transmission of the
    request, its repetitions, and the queue if the receiver is busy. *)
Definition sender_starts (name text : list Z) (s0 : ncp A) : Prop :=
  ∃ env s evs evs1 s1 evs2 s2,
    wire (net_ s) = [] ∧ environment env = Some (cfg s) ∧
    initialization_sequence servaddr clock rand junk_pkt name evs s = Ret (Some evs1) s1 ∧
    (state s1 ≠ N_SLEEPING ∧ evs2 = evs1 ∧ s2 = s1 ∨
     state s1 = N_SLEEPING ∧ sleep_sequence junk_pkt evs1 s1 = Ret (Some evs2) s2) ∧
    transmission_start clock junk_msg (Some text) s2 = Ret tt s0.

(** *** The beginning *)

Section start.
Context (name text : list Z).
Context (Hclock : ∀ n, time_ok (clock n).1 (clock n).2) (Hname : name_ok name) (Htext : 0 ∉ text) (Hmsg : length junk_msg = 812%nat).

(** While it connects the sender only sends the request. *)
Definition connecting (c : params) (cut : Z) (s : ncp A) : Prop :=
  Forall (λ w, is_init name w.2) (wire (net_ s)) ∧ cfg s = c ∧ cutoff (net_ s) = cut.
Lemma keeps_request c cut sec usec : time_ok sec usec →
  keeps (connecting c cut) (sendto servaddr rand (upkt_bytes (init_pkt sec usec name)) (sizeof_upkt - MAX_MESS_LEN + Z.of_nat (length name))).
Proof using Hname. clear -Hname.
  intros Ht s (Hw & Hc & Hcut). pose proof Hname as [H0 Hl]. unfold MAX_FILENAME in Hl.
  assert (length (upkt_bytes (init_pkt sec usec name)) = 1432%nat) as Hlen.
  { unfold upkt_bytes. rewrite !length_app, length_upkt_hdr. cbn [payload init_pkt]. rewrite length_app, length_replicate. simpl. lia. }
  destruct (sendto_dbg_spec rand (upkt_bytes (init_pkt sec usec name)) (sizeof_upkt - MAX_MESS_LEN + Z.of_nat (length name)) servaddr (net_ s))
    as (n' & E & Ec & _ & Ew); [unfold sizeof_upkt, MAX_MESS_LEN; lia|].
  unfold sendto. rewrite (bind_Ret _ _ _ _ _ (zoom_Ret net_ put_net _ s _ _ E)). cbn. split_and!; [|done|by etrans; [exact Ec|]]. cbn.
  rewrite Ew. case_match; [done|]. apply Forall_app_2; [done|]. constructor; [|done].
  exists sec, usec. split_and!; try done; try apply Ht. cbn [snd]. f_equal. unfold sizeof_upkt, MAX_MESS_LEN. lia.
Qed.
Lemma keeps_clock c cut : keeps (connecting c cut) (gettimeofday clock).
Proof using Type. clear. by intros s Hs. Qed.
Lemma keeps_state c cut x : keeps (connecting c cut) (modify (put_state x)).
Proof using Type. clear. by intros s Hs. Qed.
#[local] Hint Resolve keeps_clock keeps_state : frame.
Lemma keeps_initialization c cut evs : ∀ sec usec, keeps (connecting c cut) (initialization_loop servaddr clock rand junk_pkt (init_pkt sec usec name) evs).
Proof using Hclock Hname. clear -Hclock Hname.
  induction evs as [|[d|] evs IH]; intros sec usec; cbn [initialization_loop]; [keep|keep|].
  intros s Hs. erewrite bind_Ret by reflexivity. set (now := clock (clocks s)).
  change (with_time now (init_pkt sec usec name)) with (init_pkt now.1 now.2 name).
  assert (keeps (connecting c cut) (sendto servaddr rand (upkt_bytes (init_pkt now.1 now.2 name)) (sizeof_upkt - MAX_MESS_LEN + Z.of_nat (length name));;
    initialization_loop servaddr clock rand junk_pkt (init_pkt now.1 now.2 name) evs)) as H.
  { apply keeps_bind; [apply keeps_request, Hclock|]. intros []. apply IH. }
  by apply (H (put_clocks (S (clocks s)) s)).
Qed.
Lemma keeps_sleep c cut evs : ∀ pkt, keeps (connecting c cut) (sleep_loop pkt evs).
Proof using Type. clear. induction evs as [|[d|] evs IH]; intros pkt; cbn [sleep_loop]; keep. Qed.

Lemma environment_window env c : environment env = Some c → 1 < WINDOW_SIZE c ≤ MAX_GAPS.
Proof using Type. clear. unfold environment. intros H. repeat case_match; simplify_eq; cbn; unfold MAX_GAPS; lia. Qed.
Lemma sender_start_ok s0 : Z.of_nat (length (chunks_of text)) < 2147483547 → sender_starts name text s0 →
  sending_ok (chunks_of text) name 0 0 0 (cutoff (net_ s0)) s0 ∧ 1 < WINDOW_SIZE (cfg s0) ∧ Forall (λ w, is_init name w.2) (wire (net_ s0)).
Proof using Hclock Hname Htext Hmsg.
  intros HN (env & s & evs & evs1 & s1 & evs2 & s2 & Hw & Henv & E1 & E2 & E3). apply environment_window in Henv as HW.
  assert (connecting (cfg s) (cutoff (net_ s)) s1) as C1.
  { unfold initialization_sequence, init_packet in E1. destruct Hname as [_ Hl]. unfold MAX_FILENAME in Hl.
    rewrite (proj2 (Z.ltb_lt _ _)) in E1 by (unfold MAX_MESS_LEN; lia).
    rewrite (bind_Ret _ _ _ _ _ (lift_Some _ _ s eq_refl)) in E1. eapply (keeps_Ret _ _ s); [apply (keeps_initialization _ _ evs 0 0)| |exact E1].
    by unfold connecting; rewrite Hw. }
  assert (connecting (cfg s) (cutoff (net_ s)) s2) as (Hw2 & Hc2 & Hcut2).
  { destruct E2 as [(_ & _ & ->)|[_ E2]]; [done|]. eapply keeps_Ret; [apply keeps_sleep|exact C1|exact E2]. }
  destruct (transmission_start_run clock junk_msg (chunks_of text) name (chunks_chunk_ok _ Htext) (chunks_complete _) HN text s2)
    as (s0' & E0 & S0 & Hc & Hn); [by rewrite chunks_concat|apply chunks_nonempty|rewrite Hc2; lia|done|done|].
  rewrite E3 in E0. injection E0 as <-. rewrite Hn, Hc, Hc2. by split_and!; [|lia|].
Qed.
End start.

(** *** What the receiver sends *)

(** Reports, and replies to requests with the time of day. *)
Definition sends (buf : list Z) (len : Z) : Prop :=
  (∃ m, buf = rcv_msg_bytes pad m) ∨
  (len = 32 ∧ ∃ k p, buf = upkt_bytes p ∧ is_rcv_msg p = false ∧ ts_sec p = (rclock k).1 ∧ length (payload p) = 1400%nat).
(** What these keep of the network is kept by every turn. *)
Definition of_net (P : net A → Prop) (r : rcv A) : Prop := P (Rcv.net_ r).
Section sends.
Context (P : net A → Prop).
Hypothesis Hsend : ∀ buf len dst, sends buf len → keeps (of_net P) (send rrand buf len dst).
Lemma keeps_gaps_do {B} (m : prog gheap B) : keeps (of_net P) (gaps_do m).
Proof using Type. clear. intros r Hr. unfold gaps_do, zoom. by destruct (m _). Qed.
Lemma keeps_bufs_do {B} (m : prog bheap B) : keeps (of_net P) (bufs_do m).
Proof using Type. clear. intros r Hr. unfold bufs_do, zoom. by destruct (m _). Qed.
Lemma keeps_set_tr f : keeps (of_net P) (set_tr f).
Proof using Type. clear. by intros r Hr. Qed.
Lemma keeps_time : keeps (of_net P) (Rcv.gettimeofday rclock).
Proof using Type. clear. by intros r Hr. Qed.
Lemma keeps_fopen name : keeps (of_net P) (fopen fopen_ok name).
Proof using Type. clear. intros r Hr. unfold fopen. by destruct (fopen_ok _). Qed.
Lemma keeps_fputs buf : keeps (of_net P) (fputs buf).
Proof using Type. clear. apply keeps_updates. intros r r' Hr E. inv_opt. by subst. Qed.
Lemma keeps_malloc_conn : keeps (of_net P) (malloc_conn_ malloc_conn).
Proof using Type. clear. intros r Hr. unfold malloc_conn_. by destruct (malloc_conn _). Qed.
#[local] Hint Resolve keeps_gaps_do keeps_bufs_do keeps_set_tr keeps_time keeps_fopen keeps_fputs keeps_malloc_conn : frame.
#[local] Hint Extern 1 (keeps _ (modify _)) => (apply keeps_modify; done) : frame.
Definition header_only (f : upkt → upkt) : Prop := ∀ p, is_rcv_msg (f p) = is_rcv_msg p ∧ ts_sec (f p) = ts_sec p ∧ payload (f p) = payload p.
Lemma keeps_reply {B} (f : upkt → upkt) dst (k : unit → prog (rcv A) B) : header_only f → (∀ u, keeps (of_net P) (k u)) →
  keeps (of_net P) (p ← new_pkt rclock; u ← send_upkt rrand (f p) dst; k u).
Proof using Hsend. clear -Hsend.
  intros Hf Hk s Hs. erewrite bind_Ret by reflexivity. apply (keeps_bind (of_net P) (send_upkt rrand _ dst) k); [|done|exact Hs]. apply Hsend.
  right. split; [done|]. destruct (Hf (create_pkt (rclock (Rcv.clocks s)).1 (rclock (Rcv.clocks s)).2)) as (E1 & E2 & E3).
  eexists (Rcv.clocks s), _. split; [reflexivity|]. by rewrite E1, E2, E3.
Qed.
Lemma keeps_new_send (f : upkt → upkt) dst : header_only f → keeps (of_net P) (p ← new_pkt rclock; send_upkt rrand (f p) dst).
Proof using Hsend.
  intros Hf s Hs. pose proof (keeps_reply f dst (λ u, mret u) Hf ltac:(auto with frame) s Hs) as H. unfold mbind, prog_bind in *.
  destruct (new_pkt rclock s) as [p s1| | |]; [|done..]. by destruct (send_upkt rrand (f p) dst s1) as [[]| | |].
Qed.
Lemma keeps_init_reply dst : keeps (of_net P) (p ← new_pkt rclock; send_upkt rrand (set_init p) dst).
Proof using Hsend. by apply (keeps_new_send set_init). Qed.
Lemma keeps_sleep_reply dst : keeps (of_net P) (p ← new_pkt rclock; send_upkt rrand (set_sleep p) dst).
Proof using Hsend. by apply (keeps_new_send set_sleep). Qed.
Lemma keeps_fin_reply dst : keeps (of_net P) (p ← new_pkt rclock; send_upkt rrand (set_fin p) dst;; modify (put_alarm true)).
Proof using Hsend. by apply (keeps_reply set_fin dst (λ _, modify (put_alarm true))); [|intros _; apply keeps_modify]. Qed.
Lemma keeps_prepare : keeps (of_net P) prepare_message.
Proof using Hsend. clear -Hsend. unfold prepare_message. keep. Qed.
Lemma keeps_report m len dst : keeps (of_net P) (send rrand (rcv_msg_bytes pad m) len dst).
Proof using Hsend. apply Hsend. left. by exists m. Qed.
#[local] Hint Resolve keeps_init_reply keeps_sleep_reply keeps_fin_reply keeps_prepare keeps_report : frame.
Lemma keeps_send_message dst : keeps (of_net P) (send_message rclock rrand pad dst).
Proof using Hsend. clear -Hsend. unfold send_message. keep. Qed.
Lemma keeps_reset_transfer : keeps (of_net P) (reset_transfer rclock).
Proof using Hsend. clear -Hsend. unfold reset_transfer. keep. Qed.
Lemma keeps_reset_statistics : keeps (of_net P) (reset_statistics rclock).
Proof using Hsend. clear -Hsend. unfold reset_statistics. keep. Qed.
Lemma keeps_new_lists : keeps (of_net P) (new_lists malloc_gaps malloc_bufs).
Proof using Hsend. clear -Hsend. unfold new_lists. keep. Qed.
Lemma keeps_write_chunk q buf add : keeps (of_net P) (write_chunk q buf add).
Proof using Hsend. clear -Hsend. unfold write_chunk. keep. Qed.
Lemma keeps_statistics : keeps (of_net P) (Rcv.statistics rclock).
Proof using Hsend. clear -Hsend. unfold Rcv.statistics. keep. Qed.
#[local] Hint Resolve keeps_send_message keeps_reset_transfer keeps_reset_statistics keeps_new_lists keeps_write_chunk keeps_statistics : frame.
Lemma keeps_drain fuel b : keeps (of_net P) (drain fuel b).
Proof using Hsend. clear -Hsend. induction fuel as [|fuel IH]; cbn [drain]; keep. Qed.
#[local] Hint Resolve keeps_drain : frame.
Lemma keeps_handle_init p from : keeps (of_net P) (handle_init_pkt getnameinfo rclock rrand malloc_gaps malloc_bufs malloc_conn p from).
Proof using Hsend. clear -Hsend. unfold handle_init_pkt. keep. Qed.
Lemma keeps_handle_fin from : keeps (of_net P) (handle_fin_pkt getnameinfo rclock rrand from).
Proof using Hsend. clear -Hsend. unfold handle_fin_pkt, fclose. keep. Qed.
Lemma keeps_close_conn : keeps (of_net P) (close_conn rclock malloc_gaps malloc_bufs).
Proof using Hsend. clear -Hsend. unfold close_conn. keep. Qed.
Lemma keeps_in_order p : keeps (of_net P) (in_order rclock malloc_gaps junk_node junk_gap p).
Proof using Hsend. clear -Hsend. unfold in_order. keep. Qed.
Lemma keeps_out_of_order p from : keeps (of_net P) (out_of_order rclock rrand malloc_gaps malloc_bufs junk_node junk_gap junk_bnode pad p from).
Proof using Hsend. clear -Hsend. unfold out_of_order. keep. Qed.
Lemma keeps_begin_transfer : keeps (of_net P) (begin_transfer rclock fopen_ok).
Proof using Hsend. clear -Hsend. unfold begin_transfer. keep. Qed.
Lemma keeps_handle_timeout : keeps (of_net P) (handle_timeout getaddrinfo rclock rrand pad).
Proof using Hsend. clear -Hsend. unfold handle_timeout. keep. Qed.
#[local] Hint Resolve keeps_handle_init keeps_handle_fin keeps_close_conn keeps_in_order keeps_out_of_order keeps_begin_transfer keeps_handle_timeout : frame.
Lemma keeps_turn_net e : keeps (of_net P) (rturn e).
Proof using Hsend. clear -Hsend. unfold Rcv.turn, handle_packet, handle_data, accept_data. keep. Qed.
End sends.

(** No command of the receiver changes its loss rate. *)
Definition rate_is (c : Z) : rcv A → Prop := of_net (λ n, cutoff n = c).
Lemma keeps_turn c e : keeps (rate_is c) (rturn e).
Proof using Type. clear.
  apply keeps_turn_net. intros buf len dst _. apply keeps_bind; [|auto with frame]. intros r Hr. unfold zoom, sendto_dbg, mbind, prog_bind. cbn.
  destruct (_ && (_ <=? cutoff _)); [done|]. by destruct (_ && (len <=? _)).
Qed.

(** Read as a report it announces more gaps than one can hold. *)
Definition overlong (d : list Z) : Prop := ∃ n, get_num_gaps d = Some n ∧ MAX_GAPS < n.
(** The time of day in a reply is where a report has its number of gaps. *)
Definition replies_overlong (n : net A) : Prop := Forall (λ m, get_bool m.2 0 = Some false → overlong m.2) (wire n).
Definition by_day : Prop := ∀ k, MAX_GAPS < (rclock k).1 < 2147483648.
Lemma reply_overlong p : MAX_GAPS < ts_sec p < 2147483648 → length (payload p) = 1400%nat → overlong (take 32 (upkt_bytes p)).
Proof using Type. clear.
  intros Ht Hl. exists (ts_sec p). split; [|lia]. unfold MAX_GAPS in Ht. unfold get_num_gaps. apply get_i32_le32; [|lia].
  unfold upkt_bytes. rewrite take_app, length_upkt_hdr. intros i Hi. by do 4 (destruct i as [|i]; [reflexivity|]); cbn in Hi; lia.
Qed.
Lemma keeps_overlong e : by_day → keeps (of_net replies_overlong) (rturn e).
Proof using Type. clear.
  intros Hday. apply keeps_turn_net. intros buf len dst Hs. apply keeps_bind; [|auto with frame]. intros r Hr. unfold zoom, sendto_dbg, mbind, prog_bind. cbn.
  destruct (_ && (_ <=? cutoff _)); [exact Hr|]. destruct (_ && (len <=? _)); [|done]. unfold of_net, replies_overlong. cbn.
  apply Forall_app_2; [exact Hr|]. constructor; [|done]. cbn [snd]. destruct Hs as [[m ->]|(-> & k & p & -> & Hf & Hp & Hl)].
  - by destruct (Z.to_nat len) as [|n].
  - intros _. apply reply_overlong; [rewrite Hp; apply Hday|done].
Qed.

(** *** The transfer *)

Section run.
Context (text : list Z) (client : conn) (pa : past A) (cut W : Z).
Notation chunks := (chunks_of text).
Notation N := (Z.of_nat (length chunks)).
Hypothesis Hfopen : ∀ n, fopen_ok n = true.
Hypothesis Hgaps : ∀ n, malloc_gaps n = true.
Hypothesis Hbufs : ∀ n, malloc_bufs n = true.
Hypothesis Hconns : ∀ n, malloc_conn n = true.
Hypothesis Hpad : length pad = 3%nat.
Hypothesis Haddr : is_Some (getaddrinfo (ip client) (port client)).
Hypothesis Hactive : conn_st client = ACTIVE.
Hypothesis Hpast : was_set pa = false ∧ sent_before pa = [].
Hypothesis Hclock : ∀ n, time_ok (clock n).1 (clock n).2.
Hypothesis Htext : 0 ∉ text.

(** No more turns than the [int]s of the receiver can count, and not so many
    reports overtaken that the statistics of the sender overflow. *)
Definition within (w : world) : Prop :=
  Z.of_nat (turns w) < 2147483646 ∧ 1399 * (N * (2 + Z.of_nat (overtaken w))) < 2147483648.
Lemma moves_within w w' : moves w w' → within w' → within w.
Proof using Type. clear.
  intros M [H1 H2]. destruct M as [w e b s' _ _ _|w e r' _ _]; cbn [turns overtaken] in *; split; try lia.
  destruct (start_of_window (tx s') <? start_of_window (tx (sender w))); nia.
Qed.

(** Where they are: [D] has arrived, everything below [k] and not [k]; packets
    below [next] were sent, and those below [acked] acknowledged. *)
Definition in_step (D : gset Z) (k next acked : Z) (w : world) : Prop :=
  sending_ok chunks (filename client) next acked (N * Z.of_nat (overtaken w)) cut (sender w) ∧
  WINDOW_SIZE (cfg (sender w)) = W ∧
  receiver_at chunks client pa D k (Z.of_nat (turns w)) (receiver w) ∧
  acked ≤ k ∧ (∀ i, i ∈ D → i < next) ∧ (finished w = true → acked = N).

Lemma text_bound : Z.of_nat (length text) ≤ 1399 * N.
Proof using Htext. clear -Htext.
  rewrite <-(chunks_concat text) at 1. pose proof (chunks_chunk_ok text Htext) as H. induction H as [|c l [_ Hc] _ IH]; [done|].
  cbn [concat length]. rewrite length_app. lia.
Qed.
Lemma count_bound w : within w → N < 2147483547 ∧ Z.of_nat (length (concat chunks)) < 2147483648.
Proof using Htext. clear -Htext. intros [_ H]. pose proof text_bound. rewrite chunks_concat. nia. Qed.
Lemma behind D k n r acked : receiver_at chunks client pa D k n r → (∀ i, 0 ≤ i < acked → i ∈ D) → acked ≤ k.
Proof using Type. clear.
  intros R H. destruct (receiver_first_missing _ _ _ _ _ _ _ R) as (Hk & _ & Hkd). destruct (decide (acked ≤ k)); [done|].
  exfalso. apply Hkd, H. lia.
Qed.

Lemma in_step_order D k next acked w : in_step D k next acked w →
  0 ≤ k ≤ next ∧ next ≤ N ∧ start_of_window (tx (sender w)) ≤ acked ≤ next ∧
  start_of_window (tx (sender w)) + curr_in_flight (tx (sender w)) = next.
Proof using Type. clear.
  intros (S0 & _ & R & _ & HD & _). destruct (so_next _ _ _ _ _ _ _ S0) as (? & ? & ?). destruct (so_acked _ _ _ _ _ _ _ S0) as (? & ? & _).
  destruct (receiver_first_missing _ _ _ _ _ _ _ R) as (Hk0 & Hk & _). split_and!; try lia.
  destruct (decide (k ≤ 0)); [lia|]. specialize (HD (k - 1) (Hk (k - 1) ltac:(lia))). lia.
Qed.

(** The sender's turn. *)
Lemma report_good D k next acked w d : in_step D k next acked w → d ∈ (wire (Rcv.net_ (receiver w))).*2 →
  get_bool d 0 = Some true → good_report D next d.
Proof using Hpast. clear -Hpast.
  intros (_ & _ & (G & R & _) & _ & HD & _) Hd Hb. split_and!; [done| |done].
  destruct (rc_wire _ _ _ _ _ _ _ _ R) as (w1 & Ew & Hw1). destruct Hpast as [_ Hs]. rewrite Hs in Ew. cbn [app] in Ew. rewrite Ew in Hd.
  apply list_elem_of_fmap in Hd as (m & -> & Hm). exact (proj1 (Forall_forall _ _) Hw1 m Hm).
Qed.
Lemma sender_step D k next acked w e : in_step D k next acked w → within w → sender_gets w e → orderly e = true →
  ∃ b s' next' acked' budget', sturn e (sender w) = Ret b s' ∧
    turned chunks (filename client) D e next acked (N * Z.of_nat (overtaken w)) cut (sender w) b next' acked' budget' s' ∧
    in_step D k next' acked' (mk_world s' (receiver w) b (turns w)
      (if start_of_window (tx s') <? start_of_window (tx (sender w)) then S (overtaken w) else overtaken w)).
Proof using Hpast Hclock Htext. clear -Hpast Hclock Htext.
  intros I Hw (Hf & He) Ho. pose proof I as (S0 & HW & R & Hak & HD & _). destruct (count_bound w Hw) as [HN _]. destruct Hw as [_ Hb].
  destruct (turn_run servaddr clock rand chunks (filename client) Hclock (chunks_chunk_ok _ Htext) (chunks_complete _) HN D e (sender w)
    next acked (N * Z.of_nat (overtaken w)) cut S0) as (b & s' & next' & acked' & budget' & E & T).
  { destruct e as [d|]; [|done]. apply bool_decide_eq_true in Ho. by eapply report_good. }
  { nia. }
  exists b, s', next', acked', budget'. split_and!; [done|done|]. pose proof T as [T1 T2 T3 T4 T5 T6 _ _].
  split_and!; cbn [sender receiver finished turns overtaken].
  - destruct (start_of_window (tx s') <? start_of_window (tx (sender w))); rewrite T5 in T1; [|done].
    by replace (N * Z.of_nat (S (overtaken w))) with (N * Z.of_nat (overtaken w) + N) by lia.
  - by rewrite T2.
  - done.
  - destruct T4 as [-> | T4]; [done|]. by eapply behind.
  - intros i Hi. specialize (HD i Hi). lia.
  - intros Hb'. by apply T6.
Qed.

(** The receiver's turn. *)
Lemma receiver_step D k next acked w e D' : in_step D k next acked w → within w → traffic chunks D [e] D' → (∀ i, i ∈ D' → i < next) → D ⊆ D' →
  ∃ r' k', rturn e (receiver w) = Ret tt r' ∧ in_step D' k' next acked (mk_world (sender w) r' (finished w) (S (turns w)) (overtaken w)).
Proof.
  intros (S0 & HW & R & Hak & HD & Hfin) Hw T HD' Hsub. destruct (count_bound w Hw) as [HN HT]. destruct Hw as [Ht _].
  destruct (traffic_spec getnameinfo getaddrinfo rclock rrand fopen_ok malloc_gaps malloc_bufs malloc_conn junk_node junk_gap junk_bnode pad
    chunks client pa Hfopen Hgaps Hbufs Hconns Hpad Haddr ltac:(by rewrite Hactive) (chunks_chunk_ok _ Htext) HT HN D [e] D' ltac:(apply Hpast) T k _ _ R)
    as (k' & r' & E & R'); [simpl; lia|].
  cbn [for_each] in E. destruct (rturn e (receiver w)) as [[] r1| | |] eqn:E1; try (unfold mbind, prog_bind in E; rewrite E1 in E; discriminate E).
  rewrite (bind_Ret _ _ _ _ _ E1) in E. injection E as ->.
  exists r', k'. split; [done|]. split_and!; cbn [sender receiver finished turns overtaken]; try done.
  - by replace (Z.of_nat (S (turns w))) with (Z.of_nat (turns w) + Z.of_nat (length [e])) by (simpl; lia).
  - eapply behind; [exact R'|]. intros i Hi. apply Hsub. destruct (receiver_first_missing _ _ _ _ _ _ _ R) as (_ & Hk & _). apply Hk. lia.
Qed.
(** Whatever is delivered to it is traffic of the transfer. *)
Lemma receiver_traffic D k next acked w e : in_step D k next acked w → receiver_gets w e →
  ∃ D', traffic chunks D [e] D' ∧ D ⊆ D' ∧ ∀ i, i ∈ D' → i < next.
Proof using Type. clear.
  intros (S0 & HW & R & Hak & HD & _) He. destruct e as [from d| |]; [|by exists D; split_and!; [repeat constructor|done|done]..].
  assert (is_init (filename client) d ∨ (∃ i, i < next ∧ is_data chunks i d) ∨ ∃ name, is_init name d) as [H|[(i & Hi & Hd)|[name H]]].
  { destruct He as [Hd|He]; [|by right; right]. apply list_elem_of_fmap in Hd as (m & -> & Hm).
    destruct (proj1 (Forall_forall _ _) (so_wire _ _ _ _ _ _ _ S0) m Hm) as [H|H]; [by left|by right; left]. }
  - exists D. split_and!; [|done|done]. eapply traffic_init; [exact H|constructor].
  - exists (D ∪ {[i]}). split_and!; [|set_solver|].
    + apply (traffic_data _ _ i); [exact Hd| |constructor]. intros k' Hk'. destruct (so_window_size _ _ _ _ _ _ _ S0) as [_ HM].
      destruct (so_acked _ _ _ _ _ _ _ S0) as (_ & _ & Hn). assert (acked ≤ k'); [|lia].
      destruct Hk' as (Hk0' & _ & Hk'). destruct (receiver_first_missing _ _ _ _ _ _ _ R) as (Hk0 & Hkd & _).
      destruct (decide (acked ≤ k')); [done|]. exfalso. apply Hk', Hkd. lia.
    + intros j [Hj|Hj%elem_of_singleton]%elem_of_union; [by apply HD|by subst].
  - exists D. split_and!; [|done|done]. eapply traffic_init; [exact H|constructor].
Qed.

Lemma in_step_move w w' D k next acked : moves w w' → in_step D k next acked w → within w →
  ∃ D' k' next' acked', in_step D' k' next' acked' w'.
Proof.
  intros M I Hw. destruct M as [w e b s' He Ho E|w e r' He E].
  - destruct (sender_step _ _ _ _ w e I Hw He Ho) as (b' & s'' & next' & acked' & budget' & E' & _ & I').
    rewrite E in E'. injection E' as <- <-. by exists D, k, next', acked'.
  - destruct (receiver_traffic _ _ _ _ w e I He) as (D' & T & Hs & HD).
    destruct (receiver_step _ _ _ _ w e D' I Hw T HD Hs) as (r'' & k' & E' & I'). rewrite E in E'. injection E' as <-.
    by exists D', k', next, acked.
Qed.
Lemma rtc_within w w' : rtc moves w w' → within w' → within w.
Proof using Type. clear. induction 1 as [w|w w1 w' M _ IH]; [done|]. intros H. by eapply moves_within, IH. Qed.
Lemma in_step_reach w w' D k next acked : rtc moves w w' → in_step D k next acked w → within w' →
  ∃ D' k' next' acked', in_step D' k' next' acked' w'.
Proof.
  intros M. revert D k next acked. induction M as [w|w w1 w' M M' IH]; intros D k next acked I Hw; [by exists D, k, next, acked|].
  destruct (in_step_move w w1 D k next acked M I) as (D1 & k1 & n1 & a1 & I1); [by eapply moves_within, rtc_within|]. by eapply IH.
Qed.

(** The file, when the sender has left its loop. *)
Lemma in_step_finished D k next acked w : in_step D k next acked w → finished w = true → Rcv.files (receiver w) !! filename client = Some text.
Proof using Type. clear.
  intros (S0 & _ & R & Hak & _ & Hf) Hfin. specialize (Hf Hfin). subst acked.
  assert (0 < N) as HN. { pose proof (chunks_nonempty text). destruct chunks; [done|simpl; lia]. }
  destruct (receiver_first_missing _ _ _ _ _ _ _ R) as (_ & Hk & _).
  assert (∀ i, 0 ≤ i < N → i ∈ D) as HD by (intros i Hi; apply Hk; lia).
  pose proof (first_missing_all _ _ _ _ _ _ _ R HD) as Hall. destruct R as (G & R & _ & _ & [[_ F]|[-> _]]).
  - by rewrite Hall, chunks_concat in F.
  - exfalso. assert (0 ∈ (∅ : gset Z)); [apply HD; lia|set_solver].
Qed.

(** *** Progress *)

Definition lossless (w : world) : Prop := cut = 0 ∧ cutoff (Rcv.net_ (receiver w)) = 0.

(** Every packet that was sent is delivered. *)
Lemma deliver n : ∀ D k next acked w, in_step D k next acked w → lossless w → next - k ≤ Z.of_nat n →
  Z.of_nat (turns w) + (next - k) < 2147483646 → within w →
  ∃ w' D', rtc moves w w' ∧ in_step D' next next acked w' ∧ lossless w' ∧ within w' ∧ sender w' = sender w ∧ finished w' = finished w ∧
    overtaken w' = overtaken w ∧ Z.of_nat (turns w') ≤ Z.of_nat (turns w) + (next - k).
Proof.
  induction n as [|n IH]; intros D k next acked w I L Hn Ht Hw; pose proof I as (S0 & HW & R & Hak & HD & Hf).
  all: destruct (receiver_first_missing _ _ _ _ _ _ _ R) as (Hk0 & Hk & Hkd).
  all: destruct (in_step_order _ _ _ _ _ I) as (Hkn & _).
  all: destruct (decide (k = next)) as [->|Hne]; [exists w, D; split_and!; try done; lia|].
  1: lia.
  destruct L as [Hcut Hrc]. destruct (so_lossless _ _ _ _ _ _ _ S0 Hcut k ltac:(lia)) as (m & Hm & Hd).
  assert (receiver_gets w (EvPacket m.1 m.2)) as Hg by (left; apply list_elem_of_fmap; by exists m).
  destruct (receiver_step D k next acked w (EvPacket m.1 m.2) (D ∪ {[k]}) I Hw) as (r' & k' & E & I').
  { eapply traffic_data; [exact Hd| |constructor]. intros j (Hj0 & _ & Hj). unfold MAX_GAPS.
    assert (k ≤ j); [|lia]. destruct (decide (k ≤ j)); [done|]. exfalso. apply Hj, Hk. lia. }
  { intros i [Hi|Hi%elem_of_singleton]%elem_of_union; [by apply HD|lia]. }
  { set_solver. }
  set (w1 := mk_world (sender w) r' (finished w) (S (turns w)) (overtaken w)) in *.
  assert (k + 1 ≤ k') as Hk1.
  { pose proof I' as (_ & _ & R' & _). destruct (receiver_first_missing _ _ _ _ _ _ _ R') as (Hk0' & _ & Hkd').
    destruct (decide (k + 1 ≤ k')); [done|]. exfalso. apply Hkd'. apply elem_of_union. destruct (decide (k' = k)) as [->|]; [right; by apply elem_of_singleton|left; apply Hk; lia]. }
  destruct (IH _ _ _ _ w1 I') as (w' & D' & M & I2 & L2 & W2 & Hs & Hfin & Hov & Htu).
  { split; [done|]. unfold w1. cbn [receiver]. eapply (keeps_Ret (λ r, cutoff (Rcv.net_ r) = 0)); [apply keeps_turn|exact Hrc|exact E]. }
  { lia. }
  { cbn [turns w1]. lia. }
  { destruct Hw as [_ Hw]. split; [cbn [turns w1]; lia|done]. }
  exists w', D'. split_and!; try done.
  - eapply rtc_l; [|exact M]. by eapply receiver_moves.
  - cbn [turns w1] in Htu. lia.
Qed.

(** A report is made and delivered. *)
Lemma report_sent D k G n s dst : receiving chunks client pa D k G n s → N < 2147483547 → cutoff (Rcv.net_ s) = 0 →
  ∃ s' d, send_message rclock rrand pad dst s = Ret tt s' ∧ (dst, d) ∈ wire (Rcv.net_ s') ∧ get_bool d 0 = Some true ∧ get_aru d = Some k.
Proof using Hpad. clear -Hpad.
  intros R HN Hc. destruct (prepare_message_spec pad chunks client pa Hpad HN D k G n s R) as (m & E & Ha & Hn & Hl & Hg & _).
  unfold MAX_GAPS in Hn, Hl. unfold send_message. run E. erewrite bind_Ret by reflexivity. erewrite bind_Ret by reflexivity.
  set (s1 := Rcv.put_tr _ _). set (len := sizeof_rcv_msg - (MAX_GAPS - num_gaps m) * 8).
  assert (length (rcv_msg_bytes pad m) = 812%nat) as Hlen.
  { unfold rcv_msg_bytes. rewrite length_cons, !length_app, length_gaps_bytes, Hpad, Hl. done. }
  destruct (sendto_dbg_spec rrand (rcv_msg_bytes pad m) len dst (Rcv.net_ s1)) as (n' & Es & _ & _ & Ew).
  { rewrite Hlen. unfold len, sizeof_rcv_msg, MAX_GAPS. lia. }
  assert (len = 12 + 8 * num_gaps m) as El by (unfold len, sizeof_rcv_msg, MAX_GAPS; lia).
  unfold send at 1. erewrite bind_Ret; [|by run (zoom_Ret Rcv.net_ Rcv.put_net _ s1 _ _ Es)].
  exists (Rcv.put_tr (Rcv.with_written 0) (Rcv.put_net n' s1)), (take (Z.to_nat len) (rcv_msg_bytes pad m)). split; [done|].
  change (Rcv.net_ s1) with (Rcv.net_ s) in Ew. rewrite Hc in Ew. cbn in Ew. split; [cbn; rewrite Ew; apply elem_of_app; right; by apply list_elem_of_singleton|].
  pose proof (receiving_bounds pad chunks client pa Hpad HN _ _ _ _ _ R) as HG.
  rewrite El. destruct (rcv_msg_reads pad m (Z.to_nat (12 + 8 * num_gaps m)) Hpad) as (Hb & Har & _); [unfold is_i32; lia|lia|done|lia|done|].
  by rewrite Har, Ha.
Qed.

(** One round: everything is delivered, then a report. *)
Lemma round D k next acked w : in_step D k next acked w → lossless w → within w → finished w = false →
  Z.of_nat (turns w) + (next - k) + 1 < 2147483646 →
  ∃ w' D' next' acked', rtc moves w w' ∧ in_step D' next next' acked' w' ∧ lossless w' ∧ within w' ∧
    Z.of_nat (turns w') ≤ Z.of_nat (turns w) + (next - k) + 1 ∧
    start_of_window (tx (sender w')) = next ∧ next ≤ next' ≤ next + 1 ∧ (next = N → finished w' = true) ∧
    (curr_in_flight (tx (sender w)) < W → next < N → next' = next + 1).
Proof.
  intros I L Hw Hfin Ht. destruct (deliver (Z.to_nat (next - k)) D k next acked w I L) as
    (w1 & D1 & M1 & I1 & L1 & Hw1 & Hs1 & Hf1 & Ho1 & Ht1); [lia|lia|done|].
  pose proof I1 as (S1 & HW1 & R1 & Hak1 & HD1 & _). destruct L1 as [Hcut Hrc1]. destruct (count_bound w Hw) as [HN _].
  destruct (receiver_step D1 next next acked w1 EvTimeout D1 I1 Hw1 ltac:(repeat constructor) HD1 ltac:(done)) as (r2 & k2 & E2 & I2).
  set (w2 := mk_world (sender w1) r2 (finished w1) (S (turns w1)) (overtaken w1)) in *.
  assert (∃ dst d, (dst, d) ∈ wire (Rcv.net_ r2) ∧ get_bool d 0 = Some true ∧ get_aru d = Some next) as (dst & d & Hd & Hb & Hau).
  { destruct R1 as (G & R1 & _). destruct Haddr as [addr Ea].
    destruct (report_sent D1 next G _ (receiver w1) addr R1 HN Hrc1) as (s' & d & Es & Hd & Hb & Hau).
    assert (rturn EvTimeout (receiver w1) = Ret tt s') as E'.
    { unfold Rcv.turn, handle_timeout. run (eq_refl (get (receiver w1))). by rewrite (rc_conn _ _ _ _ _ _ _ _ R1), Hactive, Ea. }
    rewrite E' in E2. injection E2 as <-. by exists addr, d. }
  assert (within w2) as Hw2 by (destruct Hw1 as [_ Hb1]; split; [cbn [turns w2]; lia|done]).
  assert (k2 = next) as ->.
  { pose proof I2 as (_ & _ & R2 & _). pose proof (receiver_first_missing _ _ _ _ _ _ _ R1) as (Ha0 & Ha1 & Ha2).
    destruct (receiver_first_missing _ _ _ _ _ _ _ R2) as (Hb0 & Hb1 & Hb2).
    destruct (Z.lt_trichotomy k2 next) as [Hlt|[?|Hlt]]; [|done|]; exfalso; [apply Hb2, Ha1; lia|apply Ha2, Hb1; lia]. }
  assert (sender_gets w2 (SPacket d)) as Hg2.
  { split; [cbn [finished w2]; congruence|]. apply list_elem_of_fmap. by exists (dst, d). }
  destruct (sender_step D1 next next acked w2 (SPacket d) I2 Hw2 Hg2 ltac:(by apply bool_decide_eq_true)) as (b & s3 & next' & acked' & budget' & E3 & T & I3).
  destruct T as [T1 T2 T3 T4 T5 T6 T7 (a & Ea & Est)]. rewrite Hau in Ea. injection Ea as <-.
  change (sender w2) with (sender w1) in T3, T5, Est, I3. destruct (so_acked _ _ _ _ _ _ _ S1) as (Ha1 & Ha2 & _).
  destruct (so_next _ _ _ _ _ _ _ S1) as (Hn0 & Hn1 & Hn2).
  assert (start_of_window (tx s3) = next) as Hst by (rewrite Est; destruct (Z.ltb_spec 0 next); lia).
  set (w3 := mk_world s3 (receiver w2) b (turns w2) (if start_of_window (tx s3) <? start_of_window (tx (sender w1)) then S (overtaken w2) else overtaken w2)) in *.
  assert (overtaken w3 = overtaken w2) as Ho3 by (cbn [overtaken w3]; rewrite (proj2 (Z.ltb_ge _ _)); [done|lia]).
  exists w3, D1, next', acked'. split_and!; try done.
  - etrans; [exact M1|]. eapply rtc_l; [by eapply (receiver_moves w1 EvTimeout)|].
    apply rtc_once. eapply (sender_moves w2); [exact Hg2|by apply bool_decide_eq_true|exact E3].
  - split; [done|]. unfold w3, w2. cbn [receiver]. eapply (keeps_Ret (λ r, cutoff (Rcv.net_ r) = 0)); [apply keeps_turn|exact Hrc1|exact E2].
  - destruct Hw2 as [? Hb2]. split; [done|]. by rewrite Ho3.
  - cbn [turns w3 w2]. lia.
  - apply T3.
  - apply T3.
  - intros ->. cbn [finished w3]. apply T7; [|done]. destruct (so_next _ _ _ _ _ _ _ T1). lia.
  - rewrite HW1, Hs1 in T3. apply T3.
Qed.

(** As long as the window has room, every round sends a new packet. *)
Lemma rounds n : ∀ D k next acked w, in_step D k next acked w → lossless w → within w → finished w = false → 1 < W →
  next ≤ start_of_window (tx (sender w)) + 1 → N - next ≤ Z.of_nat n →
  Z.of_nat (turns w) + (N - k) + (N - next) + 1 < 2147483646 →
  ∃ w', rtc moves w w' ∧ finished w' = true ∧ within w'.
Proof.
  induction n as [|n IH]; intros D k next acked w I L Hw Hf HW Hroom Hn Ht; destruct (in_step_order _ _ _ _ _ I) as (Hk & HN & Hs & Hs1).
  all: destruct (round D k next acked w I L Hw Hf) as (w1 & D1 & next1 & acked1 & M1 & I1 & L1 & Hw1 & Ht1 & Hst1 & Hn1 & Hdone & Hmore); [lia|].
  all: destruct (decide (next = N)) as [->|Hne]; [exists w1; split_and!; [done|by apply Hdone|done]|].
  - lia.
  - specialize (Hmore ltac:(lia) ltac:(lia)). destruct (finished w1) eqn:Hf1; [by exists w1|].
    destruct (IH _ _ _ _ w1 I1 L1 Hw1 Hf1 HW) as (w2 & M2 & Hf2 & Hw2); [lia|lia|lia|].
    exists w2. split_and!; [by etrans|done|done].
Qed.
Lemma completes D k next acked w : in_step D k next acked w → lossless w → within w → 1 < W →
  Z.of_nat (turns w) + 2 * N + 2 < 2147483646 → ∃ w', rtc moves w w' ∧ finished w' = true ∧ within w'.
Proof.
  intros I L Hw HW Ht. destruct (finished w) eqn:Hf; [by exists w|]. destruct (in_step_order _ _ _ _ _ I) as (Hk & HN & Hs & Hs1).
  destruct (round D k next acked w I L Hw Hf) as (w1 & D1 & next1 & acked1 & M1 & I1 & L1 & Hw1 & Ht1 & Hst1 & Hn1 & _); [lia|].
  destruct (finished w1) eqn:Hf1; [by exists w1|]. destruct (in_step_order _ _ _ _ _ I1) as (_ & HN1 & _).
  destruct (rounds (Z.to_nat (N - next1)) _ _ _ _ w1 I1 L1 Hw1 Hf1 HW) as (w2 & M2 & Hf2 & Hw2); [lia|lia|lia|].
  exists w2. split_and!; [by etrans|done|done].
Qed.
End run.

(** *** A datagram that is not a report *)

Section stray.
(** Commands that do nothing worse than undefined behaviour, and leave what was
    received alone. *)
Definition harmless {B} (m : prog (ncp A) B) : Prop :=
  ∀ s, m s = Undef ∨ ∃ b s', m s = Ret b s' ∧ recvd_msg (tx s') = recvd_msg (tx s).
Lemma harmless_bind {B C} (m : prog (ncp A) B) (k : B → prog (ncp A) C) : harmless m → (∀ b, harmless (k b)) → harmless (m ≫= k).
Proof using Type. clear.
  intros Hm Hk s. unfold mbind, prog_bind. destruct (Hm s) as [-> |(b & s1 & -> & E1)]; [by left|].
  destruct (Hk b s1) as [-> |(c & s2 & -> & E2)]; [by left|right]. exists c, s2. split; [done|congruence].
Qed.
Lemma harmless_window_get i : harmless (window_get i).
Proof using Type. clear. intros s. unfold window_get, reads. destruct (aget (window (tx s)) i) as [[p|]|]; cbn; [right; by exists p, s|by left..]. Qed.
Lemma harmless_window_set i p : harmless (window_set i p).
Proof using Type. clear.
  intros s. unfold window_set, updates, with_packet. destruct (aset (window (tx s)) i (Some p)); [right|by left]. by eexists _, _.
Qed.
Lemma harmless_send_packet p : harmless (send_packet servaddr rand p).
Proof using Type. clear.
  apply harmless_bind; [intros s; right; by eexists _, _|intros _].
  apply harmless_bind; [|intros _ s; right; by eexists _, _]. intros s. unfold zoom, sendto_dbg, mbind, prog_bind. cbn.
  destruct (_ && (_ <=? cutoff _)); [right; by eexists _, _|].
  destruct (_ && (_ <=? Z.of_nat _)); [right; by eexists _, _|by left].
Qed.
Lemma harmless_resend_range n : ∀ i, harmless (resend_range servaddr clock rand n i).
Proof using Type. clear.
  induction n as [|n IH]; intros i; [intros s; right; by eexists _, _|]. cbn [resend_range].
  apply harmless_bind; [intros s; right; by eexists _, _|intros now]. apply harmless_bind; [intros s; right; by eexists _, _|intros s0].
  apply harmless_bind; [|intros _; apply IH]. apply harmless_bind; [apply harmless_window_get|intros p].
  apply harmless_bind; [apply harmless_window_set|intros _; apply harmless_send_packet].
Qed.

(** After the last gap of the array the loop reads past it. *)
Lemma gap_past m : length m = 812%nat → get_gap_at m MAX_GAPS = None.
Proof using Type. clear.
  intros Hl. unfold get_gap_at, get_u32. change (12 + 8 * MAX_GAPS) with 812.
  assert (aget m 812 = None) as -> by (apply lookup_ge_None_2; rewrite Hl; lia). done.
Qed.
Lemma resend_gaps_overrun fuel : ∀ j s n, 0 ≤ j ≤ MAX_GAPS → MAX_GAPS < j + Z.of_nat fuel → length (recvd_msg (tx s)) = 812%nat →
  get_num_gaps (recvd_msg (tx s)) = Some n → MAX_GAPS < n → resend_gaps servaddr clock rand fuel j s = Undef.
Proof using Type. clear.
  induction fuel as [|fuel IH]; intros j s n Hj Hf Hl En Hn; [lia|]. cbn [resend_gaps].
  run (reads_Some (λ s : ncp A, get_num_gaps (recvd_msg (tx s))) _ s En). rewrite (proj2 (Z.ltb_lt j n)) by lia.
  destruct (get_gap_at (recvd_msg (tx s)) j) as [g|] eqn:Eg; [|unfold mbind, prog_bind, reads; by rewrite Eg].
  run (reads_Some (λ s : ncp A, get_gap_at (recvd_msg (tx s)) j) _ s Eg).
  assert (j ≠ MAX_GAPS) as Hne by (intros ->; by rewrite gap_past in Eg).
  destruct (harmless_resend_range (Z.to_nat (end_ g - start g)) (start g) s) as [E|([] & s' & E & Em)]; [unfold mbind, prog_bind; by rewrite E|].
  run E. apply (IH (j + 1) s' n); [lia|lia|congruence|congruence|done].
Qed.

(** What the rest of the turn leaves for the next one. *)
Definition announced (m : list Z) (s : ncp A) : Prop := check_gaps (tx s) = true ∧ recvd_msg (tx s) = m.
Definition received (m : list Z) (s : ncp A) : Prop := recvd_msg (tx s) = m.
#[local] Hint Extern 1 (keeps _ (modify _)) => (apply keeps_modify; done) : frame.
#[local] Hint Extern 1 (keeps _ (set_tx _)) => (apply keeps_modify; intros ? H; exact H) : frame.
#[local] Hint Extern 1 (keeps _ (set_stat _)) => (apply keeps_modify; intros ? H; exact H) : frame.
Lemma keeps_ntime m : keeps (announced m) (gettimeofday clock).
Proof using Type. clear. by intros s Hs. Qed.
Lemma keeps_window_set m i p : keeps (announced m) (window_set i p).
Proof using Type. clear. apply keeps_updates. intros s s' H E. unfold with_packet in E. inv_opt. by subst. Qed.
Lemma keeps_nsend_packet m p : keeps (announced m) (send_packet servaddr rand p).
Proof using Type. clear.
  unfold send_packet, add_total, sendto. keep. intros s Hs. unfold zoom. by destruct (sendto_dbg _ _ _ _ _).
Qed.
#[local] Hint Resolve keeps_ntime keeps_window_set keeps_nsend_packet : frame.
Lemma keeps_resend_first m n : ∀ j sec, keeps (announced m) (resend_first servaddr rand n j sec).
Proof using Type. clear. induction n as [|n IH]; intros j sec; cbn [resend_first]; unfold resend, window_get; keep. Qed.
Lemma keeps_window_timeout m : keeps (announced m) (window_timeout servaddr clock rand).
Proof using Type. clear. unfold window_timeout. keep; apply keeps_resend_first. Qed.
Lemma keeps_print_statistics m : keeps (announced m) (print_statistics clock).
Proof using Type. clear. unfold print_statistics. keep. Qed.
Lemma keeps_count_acked m n : ∀ i, keeps (received m) (count_acked n i).
Proof using Type. clear. induction n as [|n IH]; intros i; cbn [count_acked]; unfold window_get; keep. Qed.
Lemma keeps_acknowledge m a : keeps (received m) (acknowledge clock a).
Proof using Type. clear. unfold acknowledge. keep; apply keeps_count_acked. Qed.

Lemma handle_report_announces d s : length (recvd_msg (tx s)) = 812%nat →
  overlong d →
  post false (λ _ s', ∃ m n, announced m s' ∧ length m = 812%nat ∧ get_num_gaps m = Some n ∧ MAX_GAPS < n) (handle_report clock d s).
Proof using Type. clear.
  intros Hl (n & En & Hn). unfold handle_report. apply post_bind. unfold set_tx, modify. cbn [post]. set (m := recv_into sizeof_rcv_msg (recvd_msg (tx s)) d).
  set (s1 := put_tx _ s). assert (get_num_gaps m = Some n) as Em by by apply get_i32_recv.
  assert (received m s1) as R1 by done. assert (length m = 812%nat) as Hm by by apply length_recv. clearbody s1 m. apply post_bind. destruct (get_aru (recvd_msg (tx s1))) as [a|] eqn:Ea; cycle 1.
  { assert (reads (λ s, get_aru (recvd_msg (tx s))) s1 = Undef) as -> by (unfold reads; by rewrite Ea). done. }
  apply (post_reads _ _ (λ s : ncp A, get_aru (recvd_msg (tx s))) _ _ Ea). apply post_bind. eapply post_weaken.
  { assert (keeps (received m) (if a >? 0 then acknowledge clock a else mret tt)) as K by (destruct (a >? 0); [apply keeps_acknowledge|auto with frame]). exact (K s1 R1). }
  intros [] s2 R2. cbn beta in R2. apply post_bind. unfold reads. cbn beta. rewrite R2, Em. cbn [post]. rewrite Z.gtb_ltb, (proj2 (Z.ltb_lt _ _)) by (unfold MAX_GAPS in *; lia).
  exists m, n. split_and!; [split; [done|exact R2]|done|done|done].
Qed.
Lemma keeps_harmless {B} m (c : prog (ncp A) B) : harmless c → keeps (received m) c.
Proof using Type. clear. intros H s Hs. destruct (H s) as [-> |(b & s' & -> & E)]; [done|]. cbn. unfold received in *. congruence. Qed.
Lemma keeps_fill_gaps m : keeps (received m) (fill_gaps servaddr clock rand).
Proof using Type. clear.
  unfold fill_gaps. assert (∀ fuel j, keeps (received m) (resend_gaps servaddr clock rand fuel j)) as H; [|keep; apply H].
  induction fuel as [|fuel IH]; intros j; cbn [resend_gaps]; keep. apply keeps_harmless, harmless_resend_range.
Qed.
Lemma keeps_send_next m : keeps (received m) (send_next servaddr clock rand).
Proof using Type. clear.
  unfold send_next. keep; [apply keeps_harmless, harmless_window_set|].
  intros s Hs. unfold zoom. by destruct (sendto_dbg _ _ _ _ _).
Qed.
Lemma turn_announces d s s' : length (recvd_msg (tx s)) = 812%nat → overlong d →
  sturn (SPacket d) s = Ret false s' → ∃ m n, announced m s' ∧ length m = 812%nat ∧ get_num_gaps m = Some n ∧ MAX_GAPS < n.
Proof using Type. clear.
  intros Hl Hn E. assert (post false (λ b s', b = false → ∃ m n, announced m s' ∧ length m = 812%nat ∧ get_num_gaps m = Some n ∧ MAX_GAPS < n)
    (sturn (SPacket d) s)) as H; [|rewrite E in H; by apply H].
  unfold Ncp.turn. apply post_bind. eapply post_weaken; [apply (keeps_fill_gaps _ s eq_refl)|intros [] s1 R1].
  apply post_bind. eapply post_weaken; [apply (keeps_send_next _ s1 R1)|intros [] s2 R2].
  apply post_bind. eapply post_weaken; [apply (handle_report_announces d s2); [by rewrite R2|done]|intros [] s3 (m & n & Ha & Hr)].
  apply post_bind. cbn [post get]. destruct (eof (tx s3) && _); [done|].
  assert (keeps (announced m) (window_timeout servaddr clock rand;; print_statistics clock;; mret false)) as K.
  { apply keeps_bind; [apply keeps_window_timeout|intros _]. apply keeps_bind; [apply keeps_print_statistics|auto with frame]. }
  eapply post_weaken; [exact (K s3 Ha)|]. intros b s4 Ha4 _. by exists m, n.
Qed.
End stray.

(** ** Theorems *)

(** Files can be created, memory is available, addresses can be looked up, the
    clock tells proper times. *)
Definition available (client : conn) (from : A) : Prop :=
  (∀ n, fopen_ok n = true) ∧ (∀ n, malloc_gaps n = true) ∧ (∀ n, malloc_bufs n = true) ∧ (∀ n, malloc_conn n = true) ∧
  length pad = 3%nat ∧ length junk_msg = 812%nat ∧ (∀ n, time_ok (clock n).1 (clock n).2) ∧
  getnameinfo from = Some (ip client, port client) ∧ is_Some (getaddrinfo (ip client) (port client)).

(** The receiver has accepted a request that the sender made, and the sender,
    told so, has opened its file. *)
Definition begins (text : list Z) (client : conn) (from : A) (w : world) : Prop :=
  ∃ s0 r0 r dgram argv passive, w = mk_world s0 r0 false 0 0 ∧ sender_starts (filename client) text s0 ∧
    dgram ∈ (wire (net_ s0)).*2 ∧ argv_ok argv passive ∧ blank r ∧
    Rcv.main getnameinfo getaddrinfo rclock rrand fopen_ok malloc_gaps malloc_bufs malloc_conn junk_node junk_gap junk_bnode pad
      argv passive [EvPacket from dgram] r = Ret tt r0.

(** A transfer of [text] by [client]: a file without null bytes, whose name the
    receiver can hold. *)
Definition transfer_of (text : list Z) (client : conn) (from : A) (w : world) : Prop :=
  available client from ∧ client = mk_conn ACTIVE 0 (ip client) (port client) (filename client) ∧
  name_ok (filename client) ∧ 0 ∉ text ∧ begins text client from w.

Lemma begins_in_step text client from w : transfer_of text client from w → within text w →
  ∃ pa W, was_set pa = false ∧ sent_before pa = [] ∧ 1 < W ∧ in_step text client pa (cutoff (net_ (sender w))) W ∅ 0 0 0 w.
Proof using Type.
  intros ((Hf & Hg & Hb & Hc & Hpad & Hmsg & Hclock & Hfrom & Haddr) & Hcl & Hname & Htext & s0 & r0 & r & dgram & argv & passive & -> & Hs & Hd & Hargv & Hbl & E) Hw.
  destruct (count_bound text Htext _ Hw) as [HN _].
  destruct (sender_start_ok (filename client) text Hclock Hname Htext Hmsg s0 HN Hs) as (S0 & HW & Hwire).
  assert (is_init (filename client) dgram) as Hinit.
  { apply list_elem_of_fmap in Hd as (m & -> & Hm). exact (proj1 (Forall_forall _ _) Hwire m Hm). }
  destruct (first_request getnameinfo getaddrinfo rclock rrand fopen_ok malloc_gaps malloc_bufs malloc_conn junk_node
    junk_gap junk_bnode pad (chunks_of text) client from dgram argv passive r Hg Hb Hc Hpad Hfrom Hcl Hargv Hbl Hinit) as (s2 & s3 & E1 & E2 & R3).
  unfold Rcv.main in E. rewrite (bind_Ret _ _ _ _ _ E1) in E. cbn [for_each] in E. rewrite (bind_Ret _ _ _ _ _ E2) in E. injection E as <-.
  exists (mk_past false [] [] (files s2)), (WINDOW_SIZE (cfg s0)). split_and!; [done|done|done|].
  unfold in_step. cbn [sender receiver finished turns overtaken]. rewrite Z.mul_0_r. split_and!; try done; set_solver.
Qed.

Lemma begins_overlong text client from w0 w : transfer_of text client from w0 → rtc moves w0 w → by_day → of_net replies_overlong (receiver w).
Proof using Type.
  intros ((_ & Hg & Hb & _) & _ & _ & _ & s0 & r0 & r & dgram & argv & passive & -> & _ & _ & Hargv & Hbl & E) M Hday.
  destruct (start_up_spec rclock malloc_gaps malloc_bufs Hg Hb argv passive r Hargv Hbl) as (r1 & E1 & I1).
  assert (of_net replies_overlong r0) as H0.
  { unfold Rcv.main in E. rewrite (bind_Ret _ _ _ _ _ E1) in E. cbn [for_each] in E. apply bind_Ret_inv in E as ([] & r2 & E2 & [= <-]).
    eapply (keeps_Ret _ _ _ _ _ (keeps_overlong _ Hday)); [|exact E2]. unfold of_net, replies_overlong. by rewrite (id_wire _ I1). }
  apply (rtc_invariant moves (λ w, of_net replies_overlong (receiver w))) with (mk_world s0 r0 false 0 0); [|exact M|exact H0].
  intros w1 w2 [w3 e b s' _ _ _|w3 e r' _ Er] H; [exact H|]. by eapply (keeps_Ret _ _ _ _ _ (keeps_overlong _ Hday)).
Qed.
(** A reply of the receiver taken for a report: the turn after it reads gaps behind the
    end of the message. *)
Lemma stray_reply_undefined d s s' e : overlong d → length (recvd_msg (tx s)) = 812%nat → sturn (SPacket d) s = Ret false s' → sturn e s' = Undef.
Proof using Type.
  intros Hd Hl E. destruct (turn_announces d s s' Hl Hd E) as (m & n' & [Hc Hm] & Hlm & Enm & Hn').
  assert (fill_gaps servaddr clock rand s' = Undef) as Ef.
  { unfold fill_gaps. run (eq_refl (get s')). rewrite Hc. unfold mbind, prog_bind.
    rewrite (resend_gaps_overrun (S (Z.to_nat MAX_GAPS)) 0 s' n'); [done|..]; rewrite ?Hm; unfold MAX_GAPS in *; done || lia. }
  unfold Ncp.turn, mbind, prog_bind. by rewrite Ef.
Qed.

(** C1: A transfer in which the sender is only given reports: delayed, lost,
    repeated or overtaking one another, as may be the sender's packets, with
    requests of other clients to the receiver and timeouts on both sides at any
    time.  It has had fewer than 2^31 - 2 turns of the receiver, and so few reports
    were overtaken by later ones that the count of acknowledged bytes fits an
    [int] ([within]: 1399 * N * (2 + overtaken) < 2^31 for N packets).  Then every
    turn of the receiver, and of the sender on a timeout or a report, returns
    without undefined behaviour, and when the sender has left its loop the
    receiver's file is the sender's.  But the sender takes the receiver's replies
    to INIT, SLEEP and FIN for reports as well: their seconds of the time of day
    are where a report has its number of gaps.  When one arrives and the sender
    stays in its loop the turn after it is undefined, whatever comes next, at any
    time between 200 seconds after the beginning of 1970 and the year 2038. *)
Theorem transfer_correct text client from w0 w :
  transfer_of text client from w0 → rtc moves w0 w → within text w →
  (∀ e, sender_gets w e → orderly e = true → ∃ b s', sturn e (sender w) = Ret b s') ∧
  (∀ e, receiver_gets w e → ∃ r', rturn e (receiver w) = Ret tt r') ∧
  (finished w = true → Rcv.files (receiver w) !! filename client = Some text) ∧
  (by_day → ∀ d s', sender_gets w (SPacket d) → get_bool d 0 = Some false → sturn (SPacket d) (sender w) = Ret false s' →
     ∀ e, sturn e s' = Undef).
Proof using Type.
  intros T M Hw. pose proof (rtc_within text w0 w M Hw) as Hw0. destruct (begins_in_step text client from w0 T Hw0) as (pa & W & Hal & Hsent & HW & I0).
  pose proof T as ((Hf & Hg & Hb & Hc & Hpad & Hmsg & Hclock & _ & Haddr) & Hcl & Hname & Htext & _).
  assert (conn_st client = ACTIVE) as Hact by by rewrite Hcl.
  destruct (in_step_reach text client pa (cutoff (net_ (sender w0))) W Hf Hg Hb Hc Hpad Haddr Hact (conj Hal Hsent) Hclock Htext w0 w ∅ 0 0 0 M I0 Hw)
    as (D & k & next & acked & I). split_and!.
  - intros e He Ho. destruct (sender_step text client pa _ W (conj Hal Hsent) Hclock Htext _ _ _ _ w e I Hw He Ho)
      as (b & s' & _ & _ & _ & E & _). by exists b, s'.
  - intros e He. destruct (receiver_traffic text client pa _ W _ _ _ _ w e I He) as (D' & Tr & Hs & HD).
    destruct (receiver_step text client pa _ W Hf Hg Hb Hc Hpad Haddr Hact (conj Hal Hsent) Htext _ _ _ _ w e D' I Hw Tr HD Hs) as (r' & _ & E & _). by exists r'.
  - by eapply (in_step_finished text client pa).
  - intros Hday d s' [_ Hd] Hm E e. destruct I as (S0 & _). eapply stray_reply_undefined; [|apply (so_msg _ _ _ _ _ _ _ S0)|exact E].
    apply list_elem_of_fmap in Hd as (m & -> & Hin). exact (proj1 (Forall_forall _ _) (begins_overlong text client from w0 w T M Hday) m Hin Hm).
Qed.

(** Neither program changes its own loss rate. *)
Lemma receiver_rate w w' : rtc moves w w' → cutoff (Rcv.net_ (receiver w')) = cutoff (Rcv.net_ (receiver w)).
Proof using Type.
  induction 1 as [w|w w1 w' M _ IH]; [done|]. rewrite IH. destruct M as [w e b s' _ _ _|w e r' _ E]; [done|].
  eapply (keeps_Ret (rate_is (cutoff (Rcv.net_ (receiver w))))); [apply keeps_turn| |exact E]. done.
Qed.

(** C28: If neither side drops what it sends ([loss_rate] 0), the transfer can
    always be completed: from every state that it can have reached, the sender
    having been given reports only, with turns left to count, there are deliveries after which the sender leaves its loop
    and the receiver's file is the sender's.  No report, however late, leads
    into a deadlock or a livelock. *)
Theorem transfer_can_complete text client from w0 w :
  transfer_of text client from w0 → rtc moves w0 w → within text w →
  cutoff (net_ (sender w0)) = 0 → cutoff (Rcv.net_ (receiver w0)) = 0 →
  Z.of_nat (turns w) + 2 * Z.of_nat (length (chunks_of text)) + 2 < 2147483646 →
  ∃ w', rtc moves w w' ∧ finished w' = true ∧ Rcv.files (receiver w') !! filename client = Some text.
Proof using Type.
  intros T M Hw Hs0 Hr0 Ht. pose proof (rtc_within text w0 w M Hw) as Hw0.
  destruct (begins_in_step text client from w0 T Hw0) as (pa & W & Hal & Hsent & HW & I0). rewrite Hs0 in I0.
  pose proof T as ((Hf & Hg & Hb & Hc & Hpad & Hmsg & Hclock & _ & Haddr) & Hcl & Hname & Htext & _).
  assert (conn_st client = ACTIVE) as Hact by by rewrite Hcl.
  destruct (in_step_reach text client pa 0 W Hf Hg Hb Hc Hpad Haddr Hact (conj Hal Hsent) Hclock Htext w0 w ∅ 0 0 0 M I0 Hw)
    as (D & k & next & acked & I).
  destruct (completes text client pa 0 W Hf Hg Hb Hc Hpad Haddr Hact (conj Hal Hsent) Hclock Htext D k next acked w I) as (w' & M' & Hfin & Hw');
    [split; [done|by rewrite (receiver_rate w0 w M)]|done|done|done|].
  exists w'. split_and!; [done|done|].
  destruct (in_step_reach text client pa 0 W Hf Hg Hb Hc Hpad Haddr Hact (conj Hal Hsent) Hclock Htext w w' D k next acked M' I Hw')
    as (D' & k' & next' & acked' & I'). by eapply (in_step_finished text client pa).
Qed.

End protocol.

(** ** A transfer *)

(** Client 7 sends a file of two packets; the second arrives first. *)
Definition demo_text : list Z := replicate 1399 72 ++ [33].
Definition demo_clock (n : nat) : timeval := (Z.of_nat n mod 86400, 0).
(** The receiver's clock shows a time in 2023. *)
Definition demo_rclock (n : nat) : timeval := (1700000000 + Z.of_nat n mod 86400, 0).
Definition demo_ncp : ncp Z :=
  mk_ncp (mk_params 45 1 0 2) N_INITIALIZING (mk_sending [] 0 0 false (0, 0) [] [] false)
    (mk_statistics 0 0 0 (0, 0) (0, 0) (0, 0)) (mk_net true 0 0 []) 0.
Definition demo_argv0 : list (list Z) := [[114]; [48]; [49]; WAN].
Definition demo_junk : list Z := replicate 812 0.
Definition demo_reply (sec : Z) : list Z := take 32 (upkt_bytes (set_init (create_pkt sec 0))).
Definition demo_after {T B} (d : T) (o : outcome T B) : T := match o with Ret _ s => s | _ => d end.
Definition demo_connected : ncp Z :=
  demo_after demo_ncp (initialization_sequence 5 demo_clock (λ _, 0) (replicate 1432 0) [102] [STimeout; SPacket (demo_reply 0)] demo_ncp).
Definition demo_s0 : ncp Z := demo_after demo_ncp (transmission_start demo_clock demo_junk (Some demo_text) demo_connected).
Abbreviation demo_rmain := (Rcv.main demo_names demo_addrs demo_rclock (λ _, 0) (λ _, true) (λ _, true) (λ _, true) (λ _, true)
  (mk_node None None None) (mk_gap 0 0) (mk_bnode 0 None 0 []) [0; 0; 0]).
Abbreviation demo_rturn := (Rcv.turn demo_names demo_addrs demo_rclock (λ _, 0) (λ _, true) (λ _, true) (λ _, true) (λ _, true)
  (mk_node None None None) (mk_gap 0 0) (mk_bnode 0 None 0 []) [0; 0; 0]).
Abbreviation demo_sturn := (Ncp.turn 5 demo_clock (λ _, 0)).
Abbreviation demo_moves := (moves demo_names demo_addrs demo_rclock (λ _, 0) (λ _, true) (λ _, true) (λ _, true) (λ _, true)
  (mk_node None None None) (mk_gap 0 0) (mk_bnode 0 None 0 []) [0; 0; 0] 5 demo_clock (λ _, 0)).
Definition demo_request : list Z := take 33 (upkt_bytes (init_pkt 0 0 [102])).
Definition demo_r0 : rcv Z := demo_after demo_state (demo_rmain demo_argv0 (λ _, Some [(true, true)]) [EvPacket 7 demo_request] demo_state).
Definition demo_w0 : world := mk_world demo_s0 demo_r0 false 0 0.

(** The turns, one after the other. *)
Inductive demo_turn := Sends (e : Ncp.event) | Takes (e : Rcv.event Z).
Definition demo_step (w : world) (t : demo_turn) : world :=
  match t with
  | Sends e =>
      match demo_sturn e (sender w) with
      | Ret b s' => mk_world s' (receiver w) b (turns w)
          (if start_of_window (tx s') <? start_of_window (tx (sender w)) then S (overtaken w) else overtaken w)
      | _ => w
      end
  | Takes e =>
      match demo_rturn e (receiver w) with
      | Ret _ r' => mk_world (sender w) r' (finished w) (S (turns w)) (overtaken w)
      | _ => w
      end
  end.
Definition demo_can (w : world) (t : demo_turn) : bool :=
  match t with
  | Sends e =>
      negb (finished w) &&
      match e with STimeout => true | SPacket d => bool_decide (d ∈ (wire (Rcv.net_ (receiver w))).*2) end && orderly e &&
      match demo_sturn e (sender w) with Ret _ _ => true | _ => false end
  | Takes e =>
      match e with EvPacket _ d => bool_decide (d ∈ (wire (net_ (sender w))).*2) | _ => true end &&
      match demo_rturn e (receiver w) with Ret _ _ => true | _ => false end
  end.
Fixpoint demo_runs (w : world) (ts : list demo_turn) : bool :=
  match ts with [] => true | t :: ts' => demo_can w t && demo_runs (demo_step w t) ts' end.
Lemma demo_runs_moves ts : ∀ w, demo_runs w ts = true → rtc demo_moves w (foldl demo_step w ts).
Proof.
  induction ts as [|t ts IH]; intros w H; [apply rtc_refl|]. cbn [demo_runs] in H. apply andb_true_iff in H as [H1 H2].
  eapply rtc_l; [|exact (IH _ H2)]. destruct t as [e|e]; cbn [demo_can demo_step] in *.
  - rewrite !andb_true_iff in H1. destruct H1 as [[[Hf He] Ho] Hr]. destruct (demo_sturn e (sender w)) as [b s'| | |] eqn:E; try done.
    apply (sender_moves _ _ _ _ _ _ _ _ _ _ _ _ _ _ _ w e b s'); [|exact Ho|exact E]. apply negb_true_iff in Hf. split; [done|].
    destruct e as [d|]; [|done]. by rewrite bool_decide_eq_true in He.
  - rewrite andb_true_iff in H1. destruct H1 as [He Hr]. destruct (demo_rturn e (receiver w)) as [[] r'| | |] eqn:E; try done.
    apply (receiver_moves _ _ _ _ _ _ _ _ _ _ _ _ _ _ _ w e r'); [|exact E].
    destruct e as [from d| |]; try done. left. by rewrite bool_decide_eq_true in He.
Qed.
Definition demo_begin : list demo_turn :=
  [Sends STimeout; Sends STimeout; Takes (EvPacket 7 (data_dgram 7 0 1 [33])); Takes (EvPacket 7 (data_dgram 4 0 0 (replicate 1399 72)))].
Definition demo_middle : world := foldl demo_step demo_w0 demo_begin.
(** The receiver reports once more, and the report arrives. *)
Definition demo_report : list Z := default [] (last (wire (Rcv.net_ (receiver (demo_step demo_middle (Takes EvTimeout))))).*2).
Definition demo_turns : list demo_turn := demo_begin ++ [Takes EvTimeout; Sends (SPacket demo_report)].
Definition demo_end : world := foldl demo_step demo_w0 demo_turns.

Lemma demo_transfer : transfer_of demo_names demo_addrs demo_rclock (λ _, 0) (λ _, true) (λ _, true) (λ _, true) (λ _, true)
  (mk_node None None None) (mk_gap 0 0) (mk_bnode 0 None 0 []) [0; 0; 0] 5 demo_clock (λ _, 0) (replicate 1432 0) demo_junk
  demo_text demo_client 7 demo_w0.
Proof.
  split; [|split; [done|split; [by split; [set_solver|]|split]]].
  - split_and!; try done. intros n. unfold time_ok, is_i32, demo_clock. cbn [fst snd]. pose proof (Z.mod_pos_bound (Z.of_nat n) 86400). lia.
  - unfold demo_text. rewrite elem_of_app. intros [H%elem_of_replicate|H]; [lia|set_solver].
  - exists demo_s0, demo_r0, demo_state, demo_request, demo_argv0, (λ _, Some [(true, true)]).
    split_and!.
    + done.
    + exists WAN, demo_ncp, [STimeout; SPacket (demo_reply 0)], [], demo_connected, [], demo_connected.
      split_and!; [done|vm_compute; reflexivity|vm_compute; reflexivity|left|vm_compute; reflexivity].
      split_and!; [|done|done]. vm_compute. discriminate.
    + vm_compute. left.
    + exists [114], [48], [49], WAN, [(true, true)]. split; [done|]. split; [split; by vm_compute|]. split; [by left|]. split; [done|set_solver].
    + by constructor.
    + vm_compute. reflexivity.
Qed.

Lemma demo_short (w : @world Z) : turns w = 3%nat → overtaken w = 0%nat → within demo_text w.
Proof.
  intros Ht Ho. unfold within. rewrite Ht, Ho. assert (length (chunks_of demo_text) = 2%nat) as -> by (vm_compute; reflexivity). lia.
Qed.

(** The reply to a request, repeated by the network at the start. *)
Definition demo_reply0 : list Z := hd [] (wire (Rcv.net_ (receiver demo_w0))).*2.
Lemma transfer_correct_witness :
  (rtc demo_moves demo_w0 demo_end ∧ finished demo_end = true ∧ Rcv.files (receiver demo_end) !! [102] = Some demo_text) ∧
  ∃ s', demo_sturn (SPacket demo_reply0) (sender demo_w0) = Ret false s' ∧ demo_sturn STimeout s' = Undef.
Proof.
  assert (rtc demo_moves demo_w0 demo_end) as M by (apply demo_runs_moves; vm_compute; reflexivity). split.
  - destruct (transfer_correct demo_names demo_addrs demo_rclock (λ _, 0) (λ _, true) (λ _, true) (λ _, true) (λ _, true)
      (mk_node None None None) (mk_gap 0 0) (mk_bnode 0 None 0 []) [0; 0; 0] 5 demo_clock (λ _, 0) (replicate 1432 0) demo_junk
      demo_text demo_client 7 demo_w0 demo_end demo_transfer M) as (Hs & Hr & Hf & _).
    + apply demo_short; vm_compute; reflexivity.
    + split; [exact M|]. split; [vm_compute; reflexivity|]. apply Hf. vm_compute. reflexivity.
  - destruct (transfer_correct demo_names demo_addrs demo_rclock (λ _, 0) (λ _, true) (λ _, true) (λ _, true) (λ _, true)
      (mk_node None None None) (mk_gap 0 0) (mk_bnode 0 None 0 []) [0; 0; 0] 5 demo_clock (λ _, 0) (replicate 1432 0) demo_junk
      demo_text demo_client 7 demo_w0 demo_w0 demo_transfer (rtc_refl _ _)) as (_ & _ & _ & Hm).
    + unfold within. assert (turns demo_w0 = 0%nat ∧ overtaken demo_w0 = 0%nat ∧ length (chunks_of demo_text) = 2%nat) as (-> & -> & ->) by (vm_compute; done). lia.
    + set (s' := demo_after demo_s0 (demo_sturn (SPacket demo_reply0) (sender demo_w0))).
      assert (demo_sturn (SPacket demo_reply0) (sender demo_w0) = Ret false s') as E by (vm_compute; reflexivity).
      exists s'. split; [exact E|]. apply (Hm ltac:(intros n; unfold demo_rclock, MAX_GAPS; cbn [fst]; pose proof (Z.mod_pos_bound (Z.of_nat n) 86400); lia) demo_reply0 s'); [|by vm_compute|exact E].
      split; [vm_compute; reflexivity|]. vm_compute. left.
Defined.

(** From the middle of the transfer, both packets delivered and not reported. *)
Lemma transfer_can_complete_witness :
  finished demo_middle = false ∧
  ∃ w, rtc demo_moves demo_middle w ∧ finished w = true ∧ Rcv.files (receiver w) !! [102] = Some demo_text.
Proof.
  split; [vm_compute; reflexivity|].
  assert (rtc demo_moves demo_w0 demo_middle) as M by (apply demo_runs_moves; vm_compute; reflexivity).
  assert (turns demo_middle = 2%nat ∧ overtaken demo_middle = 0%nat ∧ length (chunks_of demo_text) = 2%nat) as (Ht & Ho & Hl) by (vm_compute; done).
  apply (transfer_can_complete demo_names demo_addrs demo_rclock (λ _, 0) (λ _, true) (λ _, true) (λ _, true) (λ _, true)
    (mk_node None None None) (mk_gap 0 0) (mk_bnode 0 None 0 []) [0; 0; 0] 5 demo_clock (λ _, 0) (replicate 1432 0) demo_junk
    demo_text demo_client 7 demo_w0 demo_middle demo_transfer M).
  - unfold within. rewrite Ht, Ho, Hl. lia.
  - vm_compute. reflexivity.
  - vm_compute. reflexivity.
  - rewrite Ht, Hl. lia.
Defined.

(** The receiver answers a repeated request on a day in 2023. *)
Lemma stray_reply_undefined_witness :
  ∃ s', demo_sturn (SPacket (demo_reply 1700000000)) demo_s0 = Ret false s' ∧ demo_sturn STimeout s' = Undef.
Proof.
  set (s' := demo_after demo_s0 (demo_sturn (SPacket (demo_reply 1700000000)) demo_s0)).
  assert (demo_sturn (SPacket (demo_reply 1700000000)) demo_s0 = Ret false s') as E by (vm_compute; reflexivity).
  exists s'. split; [exact E|]. apply (stray_reply_undefined 5 demo_clock (λ _, 0) (demo_reply 1700000000) demo_s0 s' STimeout).
  - exists 1700000000. split; [vm_compute; reflexivity|reflexivity].
  - vm_compute. reflexivity.
  - exact E.
Defined.
