(* ===== verification/RtPkt.v ===== *)
(** * Datagrams and times of the real-time stream

    CS2520/project2/net_include.h: [struct upkt] as the compiler lays it out
    (x86-64: [ts_sec] is aligned to 8, so there are 5 bytes of padding after the
    three flags and 4 at the end), and the functions on times that rt_srv.c and
    rt_rcv.c share. *)
From S2P Require Import Prelude Stdio Bytes Clock Upkt.
Open Scope Z_scope.

(** ** Packets *)

Record rpkt := mk_rpkt {
  r_init : bool;
  r_live : bool;
  r_nack : bool;
  r_sec : Z;
  r_usec : Z;
  r_seq : Z;
  r_size : Z;
  r_payload : list Z
}.
Definition sizeof_rpkt : Z := 1432.
(** Padding is 0: the variables are static or cleared by [memset]. *)
Definition rpkt_hdr_bytes (p : rpkt) : list Z :=
  (byte_of_bool <$> [r_init p; r_live p; r_nack p]) ++ [0; 0; 0; 0; 0] ++
  le64 (r_sec p) ++ le32 (r_usec p) ++ le32 (r_seq p) ++ le32 (r_size p).
Definition rpkt_bytes (p : rpkt) : list Z := rpkt_hdr_bytes p ++ r_payload p ++ [0; 0; 0; 0].
Definition read_rpkt (buf : list Z) : option rpkt :=
  i ← get_bool buf 0; l ← get_bool buf 1; n ← get_bool buf 2;
  sec ← i64 <$> get_u64 buf 8; usec ← i32 <$> get_u32 buf 16; q ← get_u32 buf 20;
  len ← get_u32 buf 24; pl ← slice buf 28 1400;
  Some (mk_rpkt i l n sec usec q len pl).

(** A control packet, cleared and then filled in. *)
Definition control (i l n : bool) (t : timeval) (q : Z) : rpkt := mk_rpkt i l n t.1 t.2 q 0 (replicate 1400 0).

Definition rpkt_ok (p : rpkt) : Prop :=
  -9223372036854775808 ≤ r_sec p < 9223372036854775808 ∧ is_i32 (r_usec p) ∧ is_u32 (r_seq p) ∧
  is_u32 (r_size p) ∧ length (r_payload p) = 1400%nat.
Definition with_body (p : rpkt) (pl : list Z) : rpkt :=
  mk_rpkt (r_init p) (r_live p) (r_nack p) (r_sec p) (r_usec p) (r_seq p) (r_size p) pl.

Lemma length_rpkt_hdr p : length (rpkt_hdr_bytes p) = 28%nat.
Proof. done. Qed.
Lemma length_rpkt p : length (r_payload p) = 1400%nat → length (rpkt_bytes p) = 1432%nat.
Proof. intros H. unfold rpkt_bytes. rewrite !length_app, length_rpkt_hdr, H. done. Qed.

(** The header and a payload determine what is read. *)
Lemma read_rpkt_holds p buf :
  rpkt_ok p → (1428 ≤ length buf)%nat → holds buf 0 (rpkt_hdr_bytes p ++ r_payload p) → read_rpkt buf = Some p.
Proof.
  intros (H1 & H2 & H3 & H4 & H5) Hlen [Hh Hp]%holds_app. rewrite length_rpkt_hdr in Hp.
  assert (rpkt_hdr_bytes p = [byte_of_bool (r_init p)] ++ [byte_of_bool (r_live p)] ++
    [byte_of_bool (r_nack p)] ++ [0; 0; 0; 0; 0] ++ le64 (r_sec p) ++
    le32 (r_usec p) ++ le32 (r_seq p) ++ le32 (r_size p)) as E by done.
  rewrite E in Hh. apply holds_app in Hh as [Ha Hh]. apply holds_app in Hh as [Hb Hh]. apply holds_app in Hh as [Hc Hh].
  apply holds_app in Hh as [_ Hh]. apply holds_app in Hh as [Hd Hh]. apply holds_app in Hh as [He Hh].
  apply holds_app in Hh as [Hf Hg]. unfold read_rpkt.
  rewrite (get_bool_holds _ 0 _ Ha), (get_bool_holds _ 1 _ Hb), (get_bool_holds _ 2 _ Hc), (get_i64_le64 _ 8 _ Hd H1),
    (get_i32_le32 _ 16 _ He H2), (get_u32_holds _ 20 _ H3 Hf), (get_u32_holds _ 24 _ H4 Hg),
    (slice_holds _ 28 1400 (r_payload p) H5 Hlen Hp).
  by destruct p.
Qed.

(** What a variable that held [old] holds after the first [k] bytes of a packet
    arrived. *)
Lemma recv_rpkt p k old :
  rpkt_ok p → length old = 1432%nat → (28 ≤ k ≤ 1432)%nat →
  ∃ rest, read_rpkt (recv_into sizeof_rpkt old (take k (rpkt_bytes p))) = Some (with_body p (take (k - 28) (r_payload p) ++ rest)).
Proof.
  intros Hok Ho Hk. pose proof Hok as (H1 & H2 & H3 & H4 & H5). pose proof (length_rpkt p H5) as Hlp.
  assert (length (take k (rpkt_bytes p)) = k) as El by (rewrite length_take; lia).
  unfold recv_into. rewrite (take_ge _ (Z.to_nat sizeof_rpkt)) by (rewrite El; unfold sizeof_rpkt; lia). rewrite El.
  set (body := take (k - 28) (r_payload p ++ [0; 0; 0; 0]) ++ drop k old).
  assert (take k (rpkt_bytes p) ++ drop k old = rpkt_hdr_bytes p ++ body) as E.
  { unfold rpkt_bytes, body. replace k with (28 + (k - 28))%nat at 1 by lia. by rewrite take_app_add' by done. }
  assert (length body = 1404%nat) as Hb.
  { unfold body. rewrite length_app, length_take, length_app, length_drop, H5. simpl. lia. }
  assert (∃ rest, take (k - 28) (r_payload p) ++ rest = take 1400 body) as [rest Ep].
  { unfold body. destruct (decide (k - 28 ≤ 1400)%nat).
    - exists (take (1400 - (k - 28)) (drop k old)). rewrite (take_app_le (r_payload p)) by lia.
      rewrite take_app, take_take, length_take, H5. rewrite (Nat.min_r 1400), (Nat.min_l (k - 28)) by lia. done.
    - exists []. rewrite (take_ge (r_payload p)), app_nil_r by lia.
      rewrite take_app_le by (rewrite length_take, length_app, H5; simpl; lia).
      rewrite take_take, Nat.min_l by lia. rewrite take_app_le, take_ge by lia. done. }
  exists rest. rewrite Ep, E. apply read_rpkt_holds.
  - refine (conj H1 (conj H2 (conj H3 (conj H4 _)))). cbn [r_payload with_body]. rewrite length_take, Hb. lia.
  - rewrite length_app, Hb. simpl. lia.
  - cbn [with_body r_payload]. change (rpkt_hdr_bytes (with_body _ _)) with (rpkt_hdr_bytes p).
    rewrite <-(take_drop 1400 body) at 1. rewrite app_assoc. apply holds_prefix.
Qed.

(** ** Times *)

(** 1, -1 or 0. *)
Definition Cmp_time (t1 t2 : timeval) : Z :=
  if t1.1 >? t2.1 then 1
  else if t1.1 <? t2.1 then -1
  else if t1.2 >? t2.2 then 1
  else if t1.2 <? t2.2 then -1
  else 0.
Definition timeval_to_usec (t : timeval) : Z := u32 (t.1 * 1000000 + t.2).
Definition usec_to_timeval (usec : Z) : timeval := (usec / 1000000, usec mod 1000000).
Definition ms_to_timeval (ms : Z) : timeval := (Z.quot ms 1000, Z.rem ms 1000 * 1000).
(** [None] is a null pointer. *)
Definition min_step (best t : option timeval) : option timeval :=
  match t, best with
  | None, _ => best
  | Some t, None => Some t
  | Some t, Some m => if Cmp_time m t >? 0 then Some t else Some m
  end.
Definition Min_Time (time_events : list (option timeval)) : option timeval := foldl min_step None time_events.

Lemma Cmp_time_spec a b : normal a → normal b → Cmp_time a b = Z.sgn (usecs a - usecs b).
Proof.
  destruct a as [a1 a2], b as [b1 b2]. unfold normal, usecs, Cmp_time. cbn [fst snd]. intros Ha Hb. rewrite !Z.gtb_ltb.
  repeat zcase; first [rewrite Z.sgn_pos by lia; done|rewrite Z.sgn_neg by lia; done|
    replace (a1 * 1000000 + a2 - (b1 * 1000000 + b2)) with 0 by lia; done].
Qed.
Lemma Cmp_time_ge a b : normal a → normal b → (Cmp_time a b >=? 0) = (usecs b <=? usecs a).
Proof. intros Ha Hb. rewrite Cmp_time_spec, Z.geb_leb by done. destruct (Z.leb_spec (usecs b) (usecs a)), (Z.leb_spec 0 (Z.sgn (usecs a - usecs b))); lia. Qed.
Lemma Cmp_time_gt a b : normal a → normal b → (Cmp_time a b >? 0) = (usecs b <? usecs a).
Proof. intros Ha Hb. rewrite Cmp_time_spec, Z.gtb_ltb by done. destruct (Z.ltb_spec (usecs b) (usecs a)), (Z.ltb_spec 0 (Z.sgn (usecs a - usecs b))); lia. Qed.
Lemma normal_usec z : 0 ≤ z → normal (usec_to_timeval z) ∧ usecs (usec_to_timeval z) = z.
Proof.
  intros Hz. unfold normal, usecs, usec_to_timeval. cbn [fst snd]. pose proof (Z.mod_pos_bound z 1000000). pose proof (Z.div_mod z 1000000). lia.
Qed.

(** ** What a packet carries *)

(** The packet number [i] with the message [m]. *)
Definition carries (i : Z) (m : list Z) (p : rpkt) : Prop :=
  r_init p = false ∧ r_live p = false ∧ r_nack p = false ∧ r_seq p = i ∧ r_size p = Z.of_nat (length m) ∧
  take (length m) (r_payload p) = m ∧ rpkt_ok p.
(** The whole of a data packet, or what is needed of it. *)
Definition is_stream (msgs : list (list Z)) (dgram : list Z) : Prop :=
  ∃ i m p k, 0 ≤ i ∧ msgs !! Z.to_nat i = Some m ∧ carries i m p ∧ (28 + length m ≤ k ≤ 1432)%nat ∧ dgram = take k (rpkt_bytes p).
(** A header with a flag. *)
Definition is_control (p : rpkt) (dgram : list Z) : Prop :=
  rpkt_ok p ∧ (r_init p || r_live p || r_nack p) = true ∧ r_size p = 0 ∧ dgram = take 32 (rpkt_bytes p).
Definition time_ok (t : timeval) : Prop := normal t ∧ -9223372036854775808 ≤ t.1 < 9223372036854775808.

Lemma control_ok i l n t q : time_ok t → is_u32 q → rpkt_ok (control i l n t q).
Proof. intros [Hn Ht] Hq. unfold normal in Hn. split_and!; cbn; unfold is_i32, is_u32 in *; try lia. Qed.
Lemma recv_control p dgram old : is_control p dgram → length old = 1432%nat →
  ∃ pl, read_rpkt (recv_into sizeof_rpkt old dgram) = Some (with_body p pl).
Proof. intros (Hok & _ & _ & ->) Ho. destruct (recv_rpkt p 32 old Hok Ho) as (rest & E); [lia|]. by eexists. Qed.
Lemma carries_length i m p : carries i m p → (length m ≤ 1400)%nat.
Proof.
  intros (_ & _ & _ & _ & _ & Ht & Hrok). rewrite <-Ht, length_take. destruct Hrok as (_ & _ & _ & _ & Hl). lia.
Qed.
Lemma is_stream_mono msgs msgs' d : is_stream msgs d → is_stream (msgs ++ msgs') d.
Proof. intros (i & m & p & k & Hi & Hm & H). exists i, m, p, k. split_and!; try apply H; [done|]. by apply lookup_app_l_Some. Qed.

(** Receiving a data packet. *)
Lemma read_rpkt_payload buf p : read_rpkt buf = Some p → length (r_payload p) = 1400%nat.
Proof. unfold read_rpkt. intros H. inv_opt. subst p. cbn [r_payload]. match goal with E : slice _ _ _ = _ |- _ => revert E end. unfold slice.
  case_decide; [|done]. intros [= <-]. rewrite length_take, length_drop. lia.
Qed.
Lemma length_recv_into size old d : Z.of_nat (length old) = size → length (recv_into size old d) = length old.
Proof. intros H. unfold recv_into. rewrite length_app, length_drop, length_take. lia. Qed.
Lemma recv_stream msgs d old : is_stream msgs d → length old = 1432%nat →
  ∃ i m p, read_rpkt (recv_into sizeof_rpkt old d) = Some p ∧ 0 ≤ i ∧ msgs !! Z.to_nat i = Some m ∧ carries i m p ∧ (length d ≤ 1432)%nat.
Proof.
  intros (i & m & p & k & Hi & Hm & Hc & Hk & ->) Ho. pose proof Hc as (H1 & H2 & H3 & H4 & H5 & H6 & Hok).
  destruct (recv_rpkt p k old Hok Ho) as (rest & E); [lia|]. exists i, m. eexists. split; [exact E|].
  pose proof (read_rpkt_payload _ _ E) as Hl. cbn [with_body r_payload] in Hl. refine (conj Hi (conj Hm (conj _ _))).
  { refine (conj H1 (conj H2 (conj H3 (conj H4 (conj H5 (conj _ _)))))). 2: destruct Hok as (o1 & o2 & o3 & o4 & _); exact (conj o1 (conj o2 (conj o3 (conj o4 Hl)))).
    cbn [with_body r_payload]. rewrite take_app_le by (pose proof (carries_length _ _ _ Hc); destruct Hok as (_ & _ & _ & _ & ?); rewrite length_take; lia).
    rewrite take_take, Nat.min_l by lia. done. }
  rewrite length_take. lia.
Qed.
