(* ===== verification/RtSrv.v ===== *)
(** * The server of the real-time stream

    CS2520/project2/rt_srv.c: it serves one client, to which it forwards what
    the application sends, and keeps the last packets for retransmission.
    [select] is the environment: an event says which of the two sockets has a
    datagram, neither when [select] timed out.  Of the statistics the counters
    are kept and the divisions that print them; the output is left out. *)
From S2P Require Import Prelude Stdio Bytes Clock Upkt SendtoDbg RtPkt.
Open Scope Z_scope.

Definition WINDOW_SIZE : Z := 1800.
Definition Report_Interval : timeval := (5, 0).
Inductive srv_state := FREE | WAITING | BUSY.
#[export] Instance srv_state_eq_dec : EqDecision srv_state.
Proof. solve_decision. Defined.

(** ** State *)

(** The file-scope variables and those of [main] that outlive an iteration;
    [Receiver_IP] and [Receiver_Port] are set together. *)
Record srv (A : Type) := mk_srv {
  state : srv_state;
  seq : Z;
  Receiver : option (list Z * list Z);
  clean_bytes_sent : Z;
  clean_pkts_sent : Z;
  pkt_retransmissions : Z;
  stream_start_time : timeval;
  pkt_buf : list rpkt;
  first_data_pkt_rcvd : bool;
  stat_report_time : timeval;
  net_ : net A;
  clocks : nat;
  mallocs : nat
}.
Arguments mk_srv {A}. Arguments state {A}. Arguments seq {A}. Arguments Receiver {A}. Arguments clean_bytes_sent {A}.
Arguments clean_pkts_sent {A}. Arguments pkt_retransmissions {A}. Arguments stream_start_time {A}. Arguments pkt_buf {A}.
Arguments first_data_pkt_rcvd {A}. Arguments stat_report_time {A}. Arguments net_ {A}. Arguments clocks {A}. Arguments mallocs {A}.

Section state.
Context {A : Type}.
Implicit Types (s : srv A).
Definition set_state (x : srv_state) s : srv A :=
  mk_srv x (seq s) (Receiver s) (clean_bytes_sent s) (clean_pkts_sent s) (pkt_retransmissions s) (stream_start_time s) (pkt_buf s)
    (first_data_pkt_rcvd s) (stat_report_time s) (net_ s) (clocks s) (mallocs s).
Definition set_receiver (r : list Z * list Z) s : srv A :=
  mk_srv (state s) (seq s) (Some r) (clean_bytes_sent s) (clean_pkts_sent s) (pkt_retransmissions s) (stream_start_time s) (pkt_buf s)
    (first_data_pkt_rcvd s) (stat_report_time s) (net_ s) (clocks s) (mallocs s).
(** The number, the counters and the times of a stream. *)
Definition set_stream (q b p r : Z) (start : timeval) (first : bool) (report : timeval) s : srv A :=
  mk_srv (state s) q (Receiver s) b p r start (pkt_buf s) first report (net_ s) (clocks s) (mallocs s).
Definition set_report (t : timeval) s : srv A :=
  set_stream (seq s) (clean_bytes_sent s) (clean_pkts_sent s) (pkt_retransmissions s) (stream_start_time s) (first_data_pkt_rcvd s) t s.
Definition set_counts (q b p : Z) s : srv A :=
  set_stream q b p (pkt_retransmissions s) (stream_start_time s) (first_data_pkt_rcvd s) (stat_report_time s) s.
Definition set_retransmissions (r : Z) s : srv A :=
  set_stream (seq s) (clean_bytes_sent s) (clean_pkts_sent s) r (stream_start_time s) (first_data_pkt_rcvd s) (stat_report_time s) s.
Definition set_buf (b : list rpkt) s : srv A :=
  mk_srv (state s) (seq s) (Receiver s) (clean_bytes_sent s) (clean_pkts_sent s) (pkt_retransmissions s) (stream_start_time s) b
    (first_data_pkt_rcvd s) (stat_report_time s) (net_ s) (clocks s) (mallocs s).
Definition set_net (n : net A) s : srv A :=
  mk_srv (state s) (seq s) (Receiver s) (clean_bytes_sent s) (clean_pkts_sent s) (pkt_retransmissions s) (stream_start_time s) (pkt_buf s)
    (first_data_pkt_rcvd s) (stat_report_time s) n (clocks s) (mallocs s).
Definition set_calls (c m : nat) s : srv A :=
  mk_srv (state s) (seq s) (Receiver s) (clean_bytes_sent s) (clean_pkts_sent s) (pkt_retransmissions s) (stream_start_time s) (pkt_buf s)
    (first_data_pkt_rcvd s) (stat_report_time s) (net_ s) c m.
End state.

(** ** Operations *)

Section ops.
Context {A : Type}.
Abbreviation st := (srv A).
(** Names and addresses, the clock, [rand]; how many bytes a call of [malloc]
    really gives, at least those asked for; what [client_pkt] holds before. *)
Context (getnameinfo : A → option (list Z * list Z)) (getaddrinfo : list Z → list Z → option A).
Context (clock : nat → timeval) (rand : nat → Z) (malloc : nat → Z → option Z) (junk : list Z).

Definition gettimeofday : prog st timeval := λ s, Ret (clock (clocks s)) (set_calls (S (clocks s)) (mallocs s) s).
Definition sendto (buf : list Z) (len : Z) (dst : A) : prog st Z := zoom net_ set_net (sendto_dbg rand buf len dst).
(** A copy of a string in a block of as many bytes as it has characters: the
    null byte goes into the byte behind it. *)
Definition copy_string (str : list Z) : prog st unit :=
  s ← get;
  modify (set_calls (clocks s) (S (mallocs s)));;
  match malloc (mallocs s) (Z.of_nat (length str)) with
  | Some room => if Z.of_nat (length str) + 1 <=? room then mret tt else undef
  | None => undef
  end.
(** [strcmp] with the saved address, a null pointer before there is a client. *)
Definition is_receiver (host serv : list Z) : prog st bool :=
  r ← reads Receiver;
  mret (bool_decide (r.1 = host) && bool_decide (r.2 = serv)).
(** A control packet goes without payload. *)
Definition respond (p : rpkt) (dst : A) : prog st unit :=
  sendto (rpkt_bytes p) (sizeof_rpkt - MAX_MESS_LEN) dst;; mret tt.

Definition handle_init (pkt : rpkt) (from : A) : prog st unit :=
  now ← gettimeofday;
  match getnameinfo from with
  | None => mret tt
  | Some (hbuf, sbuf) =>
      s ← get;
      match state s with
      | FREE =>
          copy_string hbuf;; copy_string sbuf;;
          modify (set_receiver (hbuf, sbuf));; modify (set_state WAITING);;
          respond (control true false false now (r_seq pkt)) from
      | _ =>
          same ← is_receiver hbuf sbuf;
          if same : bool then respond (control true false false now (r_seq pkt)) from
          else respond (control false false true now (r_seq pkt)) from
      end
  end.

Definition handle_live (pkt : rpkt) (from : A) : prog st unit :=
  now ← gettimeofday;
  match getnameinfo from with
  | None => mret tt
  | Some (hbuf, sbuf) =>
      same ← is_receiver hbuf sbuf;
      if same : bool then
        s ← get;
        (match state s with WAITING => modify (set_state BUSY) | _ => mret tt end);;
        respond (control false true false now (r_seq pkt)) from
      else mret tt
  end.

(** [unsigned] comparisons and remainders. *)
Definition handle_nack (pkt : rpkt) (from : A) : prog st unit :=
  _ ← gettimeofday;
  s ← get;
  match state s with
  | FREE | WAITING => mret tt
  | BUSY =>
      match getnameinfo from with
      | None => mret tt
      | Some (hbuf, sbuf) =>
          same ← is_receiver hbuf sbuf;
          if same : bool then
            if r_seq pkt >? u32 (seq s) then mret tt
            else
              to_resend ← lift (aget (pkt_buf s) (r_seq pkt mod WINDOW_SIZE));
              if negb (r_seq to_resend =? r_seq pkt) then mret tt
              else
                sendto (rpkt_bytes to_resend) sizeof_rpkt from;;
                s ← get; n ← lift (int_incr (pkt_retransmissions s)); modify (set_retransmissions n)
          else mret tt
      end
  end.

(** [memset] of the first [MAX_MESS_LEN] bytes of a slot, 28 of them the header;
    [recvfrom] into its payload. *)
Definition clear_slot (p : rpkt) : rpkt := mk_rpkt false false false 0 0 0 0 (replicate 1372 0 ++ drop 1372 (r_payload p)).
Definition fill_slot (data : list Z) (p : rpkt) : rpkt := with_body p (recv_into MAX_MESS_LEN (r_payload p) data).
Definition set_slot (index : Z) (f : rpkt → rpkt) : prog st unit :=
  updates (λ s, p ← aget (pkt_buf s) index; b ← aset (pkt_buf s) index (f p); Some (set_buf b s)).
Definition stamp_slot (now : timeval) (q bytes : Z) (p : rpkt) : rpkt :=
  mk_rpkt (r_init p) (r_live p) (r_nack p) now.1 now.2 (u32 q) bytes (r_payload p).

(** The beginning of the stream. *)
Definition begin_stream (now : timeval) : prog st unit :=
  s ← get;
  if first_data_pkt_rcvd s then mret tt
  else
    start ← gettimeofday;
    modify (set_stream 0 0 0 0 start true (timeradd now Report_Interval)).

(** A datagram of the application. *)
Definition handle_app (data : list Z) : prog st unit :=
  s ← get;
  let index := Z.rem (seq s) WINDOW_SIZE in
  set_slot index clear_slot;; set_slot index (fill_slot data);;
  let bytes := Z.of_nat (length data) `min` MAX_MESS_LEN in
  match state s with
  | BUSY =>
      now ← gettimeofday;
      begin_stream now;;
      r ← reads Receiver;
      client_info ← lift (getaddrinfo r.1 r.2);
      s ← get;
      set_slot index (stamp_slot now (seq s) bytes);;
      p ← reads (λ s, aget (pkt_buf s) index);
      bytes ← sendto (rpkt_bytes p) (sizeof_rpkt - (MAX_MESS_LEN - bytes)) client_info;
      s ← get;
      b ← lift (int_add (clean_bytes_sent s) bytes); n ← lift (int_incr (clean_pkts_sent s)); q ← lift (int_incr (seq s));
      modify (set_counts q b n)
  | _ => mret tt
  end.

(** A datagram from the network. *)
Definition handle_client (dgram : list Z) (from : A) : prog st unit :=
  client_pkt ← lift (read_rpkt (recv_into sizeof_rpkt junk dgram));
  if r_init client_pkt then handle_init client_pkt from
  else if r_live client_pkt then handle_live client_pkt from
  else if r_nack client_pkt then handle_nack client_pkt from
  else mret tt.

(** [clean_bytes_sent * 8] is an [int], and whole seconds are divided by. *)
Definition report : prog st unit :=
  now ← gettimeofday;
  s ← get;
  if first_data_pkt_rcvd s && (Cmp_time now (stat_report_time s) >=? 0)
  then
    modify (set_report (timeradd now Report_Interval));;
    let stream_time := (now.1 - (stream_start_time s).1) * 1000000 + (now.2 - (stream_start_time s).2) in
    _ ← lift (int_add (clean_bytes_sent s * 8) 0);
    if Z.quot stream_time 1000000 =? 0 then undef else mret tt
  else mret tt.

(** What [select] reports. *)
Record event := mk_event { app_sock : option (list Z); client_sock : option (A * list Z) }.
Definition turn (e : event) : prog st unit :=
  s ← get;
  (if first_data_pkt_rcvd s && match state s with BUSY => true | _ => false end then _ ← gettimeofday; mret tt else mret tt);;
  (match app_sock e with Some data => handle_app data | None => mret tt end);;
  (match client_sock e with Some (from, dgram) => handle_client dgram from | None => mret tt end);;
  report.

(** ** [main] *)

Definition Usage (argv : list (list Z)) : prog st (Z * list Z * list Z) :=
  match argv with
  | [_; rate; app_port; client_port] =>
      let loss_rate := atoi rate in
      if (loss_rate <? 0) || (loss_rate >? 100) then exit_with 0 else mret (loss_rate, app_port, client_port)
  | _ => exit_with 0
  end.
(** The addresses of a port, each with whether [socket] and [bind] succeed. *)
Definition setup_client_sock (addrs : option (list (bool * bool))) : prog st unit :=
  match addrs with
  | None => exit_with 1
  | Some l => if existsb (λ x, x.1 && x.2) l then mret tt else exit_with 1
  end.
Definition start_up (argv : list (list Z)) (passive : list Z → option (list (bool * bool))) : prog st unit :=
  '(loss_rate, app_port, client_port) ← Usage argv;
  zoom net_ set_net (sendto_dbg_init loss_rate);;
  setup_client_sock (passive client_port);; setup_client_sock (passive app_port).
Definition main (argv : list (list Z)) (passive : list Z → option (list (bool * bool))) (evs : list event) : prog st unit :=
  start_up argv passive;; for_each evs turn.
End ops.
Arguments event : clear implicits.

(** Static variables are 0. *)
Definition no_packet : rpkt := mk_rpkt false false false 0 0 0 0 (replicate 1400 0).
Definition srv_init {A} (n : net A) : srv A :=
  mk_srv FREE 0 None 0 0 0 (0, 0) (replicate 1800 no_packet) false (0, 0) n 0 0.
