(* ===== verification/RtSrvSpec.v ===== *)
(** * Correctness of the streaming server

    Whatever clients ask and the application sends, what rt_srv.c puts on the
    wire as data is what the application sent, under the right number, and the
    last [WINDOW_SIZE] packets can be had again. *)
From S2P Require Import Prelude Stdio Bytes Clock Upkt SendtoDbg RtPkt RtSrv.
Open Scope Z_scope.

Section server.
Context {A : Type} (getnameinfo : A → option (list Z * list Z)) (getaddrinfo : list Z → list Z → option A).
Context (clock : nat → timeval) (rand : nat → Z) (malloc : nat → Z → option Z) (junk : list Z).
Implicit Types (s : srv A).
Abbreviation turn_ := (turn getnameinfo getaddrinfo clock rand malloc junk).

(** The address of the client can be looked up, and the clock is in order. *)
Hypothesis Haddr : ∀ h p, is_Some (getaddrinfo h p).
Hypothesis Hclock : ∀ n, time_ok (clock n).
Hypothesis Hjunk : length junk = 1432%nat.

(** ** The invariant *)

Definition slot_ok (p : rpkt) : Prop := length (r_payload p) = 1400%nat.
Definition on_wire (msgs : list (list Z)) (w : A * list Z) : Prop := is_stream msgs w.2 ∨ ∃ p, is_control p w.2.
(** The messages [msgs] were sent to the client. *)
Record serves (msgs : list (list Z)) s : Prop := {
  sv_slots : length (pkt_buf s) = 1800%nat ∧ Forall slot_ok (pkt_buf s);
  sv_seq : seq s = Z.of_nat (length msgs) ∧ (first_data_pkt_rcvd s = false → msgs = []) ∧ (first_data_pkt_rcvd s = true → state s = BUSY);
  sv_window : ∀ i m, msgs !! i = Some m → (length msgs ≤ i + 1800)%nat → ∃ p, pkt_buf s !! (i mod 1800)%nat = Some p ∧ carries (Z.of_nat i) m p;
  sv_unused : ∀ j, (length msgs ≤ j < 1800)%nat → ∃ p, pkt_buf s !! j = Some p ∧ r_seq p = 0;
  sv_receiver : state s ≠ FREE → is_Some (Receiver s);
  sv_free : state s = FREE → Receiver s = None;
  sv_wire : Forall (on_wire msgs) (wire (net_ s));
  sv_counts : 0 ≤ clean_bytes_sent s ≤ 1432 * seq s ∧ clean_pkts_sent s = seq s ∧ 0 ≤ pkt_retransmissions s;
  sv_time : first_data_pkt_rcvd s = true →
    normal (stat_report_time s) ∧ normal (stream_start_time s) ∧ usecs (stream_start_time s) + 1000000 ≤ usecs (stat_report_time s)
}.

(** What may arrive: control packets of anyone, but no NACK for packet 0, and no
    NACK once the counter of retransmissions is at its maximum; and the process is
    not put aside for seconds at the moment the stream begins. *)
Definition client_ok s (d : list Z) : Prop :=
  ∃ p, is_control p d ∧ (r_nack p = true → 0 < r_seq p ∧ pkt_retransmissions s < 2147483647).
Definition admissible s (e : event A) : Prop :=
  match client_sock e with None => True | Some (_, d) => client_ok s d end ∧
  (first_data_pkt_rcvd s = false → usecs (clock (S (clocks s))) ≤ usecs (clock (clocks s)) + 4000000).
(** The block of this call of [malloc] holds the copy of a string. *)
Definition fits (k : nat) (str : list Z) : bool :=
  match malloc k (Z.of_nat (length str)) with Some room => Z.of_nat (length str) + 1 <=? room | None => false end.
(** What the server cannot bear before it has a client: an INIT whose sender's
    address does not fit into the blocks for it, and a LIVE. *)
Definition client_faults s (d : list Z) (from : A) : bool :=
  match state s, read_rpkt (recv_into sizeof_rpkt junk d), getnameinfo from with
  | FREE, Some p, Some (h, sv) => if r_init p then negb (fits (mallocs s) h && fits (S (mallocs s)) sv) else r_live p
  | _, _, _ => false
  end.
Definition faults s (e : event A) : bool := match client_sock e with Some (from, d) => client_faults s d from | None => false end.
Lemma client_faults_ext s s' d from : state s' = state s → (state s = FREE → mallocs s' = mallocs s) → client_faults s' d from = client_faults s d from.
Proof using Type. clear. unfold client_faults. intros ->. destruct (state s); [|done|done]. by intros ->. Qed.
(** What the turn sends of the application. *)
Definition sent (msgs : list (list Z)) s (e : event A) : list (list Z) :=
  match state s, app_sock e with BUSY, Some data => msgs ++ [take 1400 data] | _, _ => msgs end.

(** ** Control packets *)

Lemma serves_net msgs s n' : serves msgs s → Forall (on_wire msgs) (wire n') → serves msgs (set_net n' s).
Proof. intros [] Hw. by constructor. Qed.
Lemma respond_run msgs p dst s : serves msgs s → rpkt_ok p → (r_init p || r_live p || r_nack p) = true → r_size p = 0 →
  ∃ n', respond rand p dst s = Ret tt (set_net n' s) ∧ serves msgs (set_net n' s).
Proof.
  intros V Hok Hf Hs. pose proof Hok as (_ & _ & _ & _ & Hl). pose proof (length_rpkt p Hl) as Hlp.
  destruct (sendto_dbg_spec rand (rpkt_bytes p) (sizeof_rpkt - MAX_MESS_LEN) dst (net_ s)) as (n' & E & _ & _ & Ew).
  { unfold sizeof_rpkt, MAX_MESS_LEN. lia. }
  exists n'. split; [unfold respond; by run (zoom_Ret net_ set_net _ s _ _ E)|]. apply serves_net; [done|]. rewrite Ew.
  case_match; [apply V|]. apply Forall_app_2; [apply V|]. constructor; [|done]. right. by exists p.
Qed.
Lemma respond_control msgs i l n t q dst s : serves msgs s → is_u32 q → time_ok t → (i || l || n) = true →
  ∃ s', respond rand (control i l n t q) dst s = Ret tt s' ∧ serves msgs s'.
Proof.
  intros V Hq Ht Hf. destruct (respond_run msgs (control i l n t q) dst s V) as (n' & E & V'); [by apply control_ok|done|done|].
  by exists (set_net n' s).
Qed.
Lemma serves_calls msgs s c m : serves msgs s → serves msgs (set_calls c m s).
Proof. by intros []. Qed.
Lemma is_receiver_run msgs s h p : serves msgs s → state s ≠ FREE → ∃ b, is_receiver h p s = Ret b s.
Proof.
  intros V Hs. destruct (sv_receiver _ _ V Hs) as [r Er]. unfold is_receiver. run (reads_Some Receiver r s Er). by eexists.
Qed.
Lemma copy_string_run str s : copy_string malloc str s = if fits (mallocs s) str then Ret tt (set_calls (clocks s) (S (mallocs s)) s) else Undef.
Proof using Type. clear.
  unfold copy_string, fits. run (eq_refl (get s)). erewrite bind_Ret by reflexivity. destruct (malloc _ _); [|done]. by destruct (_ <=? _).
Qed.
Lemma set_calls_twice s c m c' m' : set_calls c' m' (set_calls c m s) = set_calls c' m' s.
Proof using Type. done. Qed.
Lemma serves_waiting msgs s r : serves msgs s → state s = FREE → serves msgs (set_state WAITING (set_receiver r s)).
Proof using Type. clear.
  intros [] Hs. constructor; try done. destruct sv_seq0 as (? & ? & H). split_and!; [done|done|]. intros Hf. apply H in Hf. congruence.
Qed.
Lemma serves_busy msgs s : serves msgs s → state s = WAITING → serves msgs (set_state BUSY s).
Proof using Type. clear.
  intros [] Hs. constructor; try done; [destruct sv_seq0 as (? & ? & _); by split_and!|]. intros _. apply sv_receiver0. by rewrite Hs.
Qed.

Lemma handle_init_run msgs p from s : serves msgs s → is_u32 (r_seq p) →
  if match state s, getnameinfo from with FREE, Some (h, sv) => negb (fits (mallocs s) h && fits (S (mallocs s)) sv) | _, _ => false end
  then handle_init getnameinfo clock rand malloc p from s = Undef
  else ∃ s', handle_init getnameinfo clock rand malloc p from s = Ret tt s' ∧ serves msgs s'.
Proof.
  intros V Hq. unfold handle_init. erewrite bind_Ret by reflexivity.
  apply (serves_calls _ _ (S (clocks s)) (mallocs s)) in V. change (mallocs s) with (mallocs (set_calls (S (clocks s)) (mallocs s) s)).
  change (state s) with (state (set_calls (S (clocks s)) (mallocs s) s)).
  change (set_calls _ (mallocs (set_calls _ _ _)) s) with (set_calls (S (clocks s)) (mallocs s) s). set (s1 := set_calls _ _ s) in *.
  destruct (getnameinfo from) as [[h sv]|]; [|destruct (state s1); by exists s1]. run (eq_refl (get s1)). destruct (state s1) eqn:Est.
  - pose proof (copy_string_run h s1) as E1. destruct (fits (mallocs s1) h); cbn [andb negb]; [|unfold mbind at 1, prog_bind at 1; by rewrite E1].
    run E1. pose proof (copy_string_run sv (set_calls (clocks s1) (S (mallocs s1)) s1)) as E2. cbn [mallocs set_calls] in E2.
    destruct (fits (S (mallocs s1)) sv); cbn [negb]; [|unfold mbind at 1, prog_bind at 1; by rewrite E2]. run E2.
    erewrite bind_Ret by reflexivity. erewrite bind_Ret by reflexivity.
    apply (respond_control msgs); [|done|apply Hclock|done]. apply serves_waiting; [|done]. by do 2 apply serves_calls.
  - destruct (is_receiver_run msgs s1 h sv V) as [b Eb]; [by rewrite Est|]. run Eb. destruct b; by apply respond_control.
  - destruct (is_receiver_run msgs s1 h sv V) as [b Eb]; [by rewrite Est|]. run Eb. destruct b; by apply respond_control.
Qed.
Lemma handle_live_run msgs p from s : serves msgs s → is_u32 (r_seq p) →
  if match state s, getnameinfo from with FREE, Some _ => true | _, _ => false end
  then handle_live getnameinfo clock rand p from s = Undef
  else ∃ s', handle_live getnameinfo clock rand p from s = Ret tt s' ∧ serves msgs s'.
Proof.
  intros V Hq. unfold handle_live. erewrite bind_Ret by reflexivity.
  apply (serves_calls _ _ (S (clocks s)) (mallocs s)) in V. set (s1 := set_calls _ _ s) in *.
  change (state s) with (state s1).
  destruct (getnameinfo from) as [[h sv]|]; [|destruct (state s1); by exists s1]. destruct (state s1) eqn:Hst.
  { unfold is_receiver, reads, mbind, prog_bind. by rewrite (sv_free _ _ V Hst). }
  all: destruct (is_receiver_run msgs s1 h sv V) as [b Eb]; [by rewrite Hst|]; run Eb; destruct b; [|by exists s1]; run (eq_refl (get s1)); rewrite Hst; erewrite bind_Ret by reflexivity.
  - apply respond_control; [by apply serves_busy|done|apply Hclock|done].
  - by apply respond_control.
Qed.

(** ** Retransmission *)

(** The slot of a packet holds it as long as it is among the last 1800; what
    is asked for and is not there does not have its number. *)
Lemma slot_of msgs s i : serves msgs s → Z.of_nat (length msgs) < 2147483648 → 0 < i →
  ∃ p, aget (pkt_buf s) (i mod WINDOW_SIZE) = Some p ∧ slot_ok p ∧
    if bool_decide (Z.of_nat (length msgs) - 1800 ≤ i < Z.of_nat (length msgs))
    then ∃ m, msgs !! Z.to_nat i = Some m ∧ carries i m p
    else i ≤ Z.of_nat (length msgs) → r_seq p ≠ i.
Proof using Type. clear.
  intros V Hlen Hi. destruct (sv_slots _ _ V) as [Hl Hf]. unfold WINDOW_SIZE.
  pose proof (Z.mod_pos_bound i 1800 ltac:(lia)) as Hm. pose proof (Z.div_mod i 1800 ltac:(lia)) as Hdm.
  destruct (lookup_lt_is_Some_2 (pkt_buf s) (Z.to_nat (i mod 1800))) as [p Ep]; [lia|].
  exists p. split; [apply aget_Some; split; [lia|done]|]. split; [exact (Forall_lookup_1 _ _ _ _ Hf Ep)|].
  assert (∀ j m, msgs !! j = Some m → (length msgs ≤ j + 1800)%nat → Z.of_nat j mod 1800 = i mod 1800 → carries (Z.of_nat j) m p) as Hw.
  { intros j m Ej Hj Hji. destruct (sv_window _ _ V j m Ej Hj) as (p' & Ep' & Hc).
    assert ((j mod 1800)%nat = Z.to_nat (i mod 1800)) as Hj2 by (pose proof (Nat2Z.inj_mod j 1800) as Hn; change (Z.of_nat 1800) with 1800 in Hn; lia). congruence. }
  case_bool_decide as Hin.
  - destruct (lookup_lt_is_Some_2 msgs (Z.to_nat i)) as [m Em]; [lia|]. exists m. split; [done|].
    specialize (Hw (Z.to_nat i) m Em). rewrite Z2Nat.id in Hw by lia. apply Hw; [lia|done].
  - intros Hle Heq. destruct (decide (i mod 1800 < Z.of_nat (length msgs))) as [Hlt|Hge].
    + set (L := Z.of_nat (length msgs)) in *. set (j := L - 1 - (L - 1 - i) mod 1800).
      pose proof (Z.mod_pos_bound (L - 1 - i) 1800 ltac:(lia)) as Hm2. pose proof (Z.div_mod (L - 1 - i) 1800 ltac:(lia)) as Hdm2.
      assert (j mod 1800 = i mod 1800) as Hji.
      { unfold j. replace (L - 1 - (L - 1 - i) mod 1800) with (i + (L - 1 - i) / 1800 * 1800) by lia. apply Z_mod_plus_full. }
      assert (0 ≤ j) as Hj0.
      { destruct (decide (0 ≤ j)); [done|]. exfalso. pose proof (Z.mod_pos_bound j 1800 ltac:(lia)). pose proof (Z.div_mod j 1800 ltac:(lia)). nia. }
      destruct (lookup_lt_is_Some_2 msgs (Z.to_nat j)) as [m Em]; [lia|].
      destruct (Hw (Z.to_nat j) m Em) as (_ & _ & _ & Hs & _); [lia|by rewrite Z2Nat.id|]. rewrite Z2Nat.id in Hs by lia. lia.
    + destruct (sv_unused _ _ V (Z.to_nat (i mod 1800))) as (p' & Ep' & H0); [lia|]. assert (p = p') as -> by congruence. lia.
Qed.

(** The server resends packet [i] to its client when it still has it. *)
Definition answers (msgs : list (list Z)) s (from : A) (i : Z) : bool :=
  bool_decide (state s = BUSY ∧ Receiver s = getnameinfo from ∧ Z.of_nat (length msgs) - 1800 ≤ i < Z.of_nat (length msgs)).
Definition lost s : bool := (0 <? cutoff (net_ s)) && (Z.land (rand (rand_calls (net_ s))) 255 <=? cutoff (net_ s)).
Definition nack_result (msgs : list (list Z)) (from : A) (i : Z) s s' : Prop :=
  if answers msgs s from i
  then ∃ m p, msgs !! Z.to_nat i = Some m ∧ carries i m p ∧ pkt_retransmissions s' = pkt_retransmissions s + 1 ∧
    wire (net_ s') = if lost s then wire (net_ s) else wire (net_ s) ++ [(from, rpkt_bytes p)]
  else pkt_retransmissions s' = pkt_retransmissions s ∧ wire (net_ s') = wire (net_ s).
Lemma serves_retransmissions msgs s z : serves msgs s → 0 ≤ z → serves msgs (set_retransmissions z s).
Proof using Type. clear. intros [] Hz. constructor; try done. cbn. split_and!; try done; apply sv_counts0. Qed.

Lemma handle_nack_run msgs p from s : serves msgs s → 0 < r_seq p < 4294967296 → Z.of_nat (length msgs) < 2147483648 →
  pkt_retransmissions s < 2147483647 →
  ∃ s', handle_nack getnameinfo clock rand p from s = Ret tt s' ∧ serves msgs s' ∧ nack_result msgs from (r_seq p) s s'.
Proof.
  intros V Hq Hlen Hr. unfold handle_nack. erewrite bind_Ret by reflexivity. unfold nack_result, answers.
  apply (serves_calls _ _ (S (clocks s)) (mallocs s)) in V. set (s1 := set_calls _ _ s) in *. change (state s) with (state s1).
  run (eq_refl (get s1)). destruct (state s1) eqn:Est.
  1, 2: rewrite bool_decide_false by (intros [? _]; done); by exists s1.
  destruct (sv_receiver _ _ V) as [[h0 sv0] Er]; [by rewrite Est|]. change (Receiver s) with (Receiver s1).
  destruct (getnameinfo from) as [[h sv]|] eqn:En; cycle 1.
  { exists s1. rewrite Er, bool_decide_false; [done|]. by intros (_ & ? & _). }
  assert (is_receiver h sv s1 = Ret (bool_decide (h0 = h) && bool_decide (sv0 = sv)) s1) as Eb by (unfold is_receiver; by run (reads_Some Receiver _ s1 Er)).
  run Eb. rewrite Er.
  destruct (bool_decide (h0 = h) && bool_decide (sv0 = sv)) eqn:Esame; cycle 1.
  { exists s1. rewrite bool_decide_false; [done|]. intros (_ & [= -> ->] & _). by rewrite !bool_decide_true in Esame. }
  apply andb_true_iff in Esame as [->%bool_decide_eq_true ->%bool_decide_eq_true].
  destruct (sv_seq _ _ V) as (Hseq & _). rewrite Hseq, u32_small, Z.gtb_ltb by lia.
  destruct (Z.ltb_spec (Z.of_nat (length msgs)) (r_seq p)) as [Hlt|Hle].
  { exists s1. rewrite bool_decide_false by lia. done. }
  destruct (slot_of msgs s1 (r_seq p) V Hlen) as (q & Eq & Hok & Hc); [lia|]. run (lift_Some _ _ s1 Eq).
  case_bool_decide as Hin; cycle 1.
  { specialize (Hc Hle). rewrite (proj2 (Z.eqb_neq _ _)) by done. exists s1. rewrite bool_decide_false by naive_solver. done. }
  destruct Hc as (m & Em & Hc). pose proof Hc as (_ & _ & _ & Hs & _). rewrite Hs, Z.eqb_refl. cbn [negb].
  rewrite bool_decide_true by done. pose proof (length_rpkt q Hok) as Hlq.
  destruct (sendto_dbg_spec rand (rpkt_bytes q) sizeof_rpkt from (net_ s1)) as (n' & E & _ & _ & Ew); [unfold sizeof_rpkt; lia|].
  erewrite bind_Ret by exact (zoom_Ret net_ set_net _ s1 _ _ E). set (s2 := set_net n' s1). run (eq_refl (get s2)).
  run (lift_Some _ _ s2 (int_incr_ok (pkt_retransmissions s1) Hr)). eexists. split; [reflexivity|].
  assert (take (Z.to_nat sizeof_rpkt) (rpkt_bytes q) = rpkt_bytes q) as Et by (apply take_ge; unfold sizeof_rpkt; lia). rewrite Et in Ew.
  split; [|exists m, q; split_and!; try done].
  apply serves_retransmissions; [|pose proof (sv_counts _ _ V); lia]. apply serves_net; [done|]. rewrite Ew.
  case_match; [apply V|]. apply Forall_app_2; [apply V|]. constructor; [|done]. left.
  pose proof (carries_length _ _ _ Hc). exists (r_seq p), m, q, 1432%nat.
  split_and!; [lia|done|done|lia|lia|]. cbn [snd]. by rewrite take_ge by lia.
Qed.

(** ** Data *)

Lemma set_slot_run index f s p : aget (pkt_buf s) index = Some p →
  set_slot index f s = Ret tt (set_buf (<[Z.to_nat index := f p]> (pkt_buf s)) s).
Proof using Type. clear.
  intros E. unfold set_slot. apply updates_Some. rewrite E. pose proof (aget_bounds _ _ _ E). cbn.
  by rewrite (aset_ok (pkt_buf s)) by lia.
Qed.

Definition new_slot (now : timeval) (q : Z) (data : list Z) (p : rpkt) : rpkt :=
  stamp_slot now q (Z.of_nat (length data) `min` MAX_MESS_LEN) (fill_slot data (clear_slot p)).
Lemma slot_ok_fill data p : slot_ok p → slot_ok (fill_slot data (clear_slot p)).
Proof using Type. clear.
  unfold slot_ok. intros H. unfold fill_slot, clear_slot, recv_into. cbn [with_body r_payload].
  rewrite length_app, length_drop, length_app, length_replicate, length_drop, length_take, H. change (Z.to_nat MAX_MESS_LEN) with 1400%nat. lia.
Qed.
Lemma new_slot_carries now q data p : slot_ok p → time_ok now → 0 ≤ q < 4294967296 → carries q (take 1400 data) (new_slot now q data p).
Proof using Type. clear.
  intros Hp [Hn Ht] Hq. pose proof (slot_ok_fill data p Hp) as Hl. unfold slot_ok in Hl. unfold normal in Hn. split_and!; try done.
  - cbn. by rewrite u32_small.
  - cbn. rewrite length_take. unfold MAX_MESS_LEN. lia.
  - unfold new_slot, stamp_slot, fill_slot, recv_into. cbn [with_body r_payload]. change (Z.to_nat MAX_MESS_LEN) with 1400%nat. by rewrite take_app_length.
  - split_and!; cbn; unfold is_i32, is_u32, MAX_MESS_LEN; try lia; [|done]. rewrite u32_small; lia.
Qed.

(** The beginning of the stream leaves the packets alone. *)
Lemma begin_stream_run msgs s : serves msgs s → state s = BUSY →
  (first_data_pkt_rcvd s = false → usecs (clock (S (clocks s))) ≤ usecs (clock (clocks s)) + 4000000) →
  ∃ s', serves msgs s' ∧ first_data_pkt_rcvd s' = true ∧ state s' = BUSY ∧ Receiver s' = Receiver s ∧ net_ s' = net_ s ∧ pkt_buf s' = pkt_buf s ∧
    pkt_retransmissions s' ≤ pkt_retransmissions s ∧
    ∀ b, begin_stream clock (clock (clocks s)) (set_buf b (set_calls (S (clocks s)) (mallocs s) s)) = Ret tt (set_buf b s').
Proof using Hclock. clear -Hclock.
  intros V Hst Hp. unfold begin_stream. destruct (first_data_pkt_rcvd s) eqn:Ef.
  - exists (set_calls (S (clocks s)) (mallocs s) s). split_and!; try done; [by apply serves_calls|].
    intros b. run (eq_refl (get (set_buf b (set_calls (S (clocks s)) (mallocs s) s)))). cbn [first_data_pkt_rcvd set_buf set_calls]. by rewrite Ef.
  - set (t0 := clock (clocks s)) in *. set (t1 := clock (S (clocks s))) in *.
    exists (set_stream 0 0 0 0 t1 true (timeradd t0 Report_Interval) (set_calls (S (S (clocks s))) (mallocs s) s)).
    split_and!; try done; cycle 1.
    { cbn. apply V. }
    { intros b. run (eq_refl (get (set_buf b (set_calls (S (clocks s)) (mallocs s) s)))). cbn [first_data_pkt_rcvd set_buf set_calls]. by rewrite Ef. }
    destruct (sv_seq _ _ V) as (Hs & Hm & _). specialize (Hm Ef). subst msgs. destruct V.
    constructor; try done; cbn.
    intros _. destruct (Hclock (clocks s)) as [Hn0 _], (Hclock (S (clocks s))) as [Hn1 _].
    refine (conj (normal_add _ _ Hn0 _) (conj Hn1 _)); [done|]. rewrite usecs_add. change (usecs Report_Interval) with 5000000.
    specialize (Hp eq_refl). lia.
Qed.

(** A slot that is overwritten holds a packet that has become too old. *)
Lemma serves_sent msgs m q s n' : serves msgs s → Z.of_nat (length msgs) < 2147483648 → carries (Z.of_nat (length msgs)) m q →
  first_data_pkt_rcvd s = true → Forall (on_wire (msgs ++ [m])) (wire n') →
  ∀ b, 0 ≤ b ≤ 1432 →
  serves (msgs ++ [m]) (set_counts (seq s + 1) (clean_bytes_sent s + b) (clean_pkts_sent s + 1)
    (set_net n' (set_buf (<[(length msgs mod 1800)%nat := q]> (pkt_buf s)) s))).
Proof using Type. clear.
  intros V Hlen Hq Hf Hw b Hb. destruct V as [[Hl Hok] (Hs & _ & Hst) Hwin Hun Hrec Hfree _ (Hc1 & Hc2 & Hc3) Ht].
  assert (length msgs mod 1800 < 1800)%nat as Hm by (apply Nat.mod_upper_bound; lia).
  pose proof (Nat.div_mod (length msgs) 1800 ltac:(lia)) as Hd.
  constructor; cbn [pkt_buf set_counts set_stream set_net set_buf seq first_data_pkt_rcvd state Receiver net_ clean_bytes_sent clean_pkts_sent
    pkt_retransmissions stat_report_time stream_start_time]; try done.
  - rewrite length_insert. split; [done|]. apply Forall_insert; [done|]. apply Hq.
  - rewrite length_app. cbn. split_and!; [lia|congruence|done].
  - intros i x Hi Hi2. rewrite length_app in Hi2. cbn in Hi2. apply lookup_app_Some in Hi as [Hi|[Hi1 Hi]].
    + pose proof (lookup_lt_Some _ _ _ Hi). destruct (Hwin i x Hi) as (p & Ep & Hp); [lia|]. exists p. split; [|done].
      rewrite list_lookup_insert_ne; [done|]. intros He. pose proof (Nat.div_mod i 1800 ltac:(lia)). nia.
    + apply list_lookup_singleton_Some in Hi as [Hi <-]. assert (i = length msgs) as -> by lia. exists q. split; [|done].
      apply list_lookup_insert_eq. lia.
  - intros j Hj. rewrite length_app in Hj. cbn in Hj. destruct (Hun j) as (p & Ep & Hp); [lia|]. exists p. split; [|done].
    rewrite list_lookup_insert_ne; [done|]. rewrite Nat.mod_small by lia. lia.
  - lia.
Qed.

(** The slot of the next packet. *)
Lemma next_slot msgs s : serves msgs s →
  Z.to_nat (Z.rem (seq s) WINDOW_SIZE) = (length msgs mod 1800)%nat ∧
  ∃ p, aget (pkt_buf s) (Z.rem (seq s) WINDOW_SIZE) = Some p ∧ slot_ok p.
Proof using Type. clear.
  intros V. destruct (sv_slots _ _ V) as [Hl Hf]. rewrite (proj1 (sv_seq _ _ V)). unfold WINDOW_SIZE. rewrite Z.rem_mod_nonneg by lia.
  pose proof (Nat2Z.inj_mod (length msgs) 1800) as Hn. change (Z.of_nat 1800) with 1800 in Hn. rewrite <-Hn, Nat2Z.id. split; [done|].
  destruct (lookup_lt_is_Some_2 (pkt_buf s) (length msgs mod 1800)) as [p Ep]; [rewrite Hl; apply Nat.mod_upper_bound; lia|].
  exists p. split; [apply aget_Some; rewrite Nat2Z.id; split; [lia|done]|]. exact (Forall_lookup_1 _ _ _ _ Hf Ep).
Qed.
(** Emptying and filling it. *)
Lemma fill_run {B} data p s index (k : unit → prog (srv A) B) : aget (pkt_buf s) index = Some p →
  (set_slot index clear_slot;; y ← set_slot index (fill_slot data); k y) s =
  k tt (set_buf (<[Z.to_nat index := fill_slot data (clear_slot p)]> (pkt_buf s)) s).
Proof using Type. clear.
  intros E. run (set_slot_run index clear_slot s p E). pose proof (aget_bounds _ _ _ E).
  erewrite bind_Ret; cycle 1.
  - apply (set_slot_run index (fill_slot data) _ (clear_slot p)). cbn [pkt_buf set_buf]. apply aget_Some. split; [lia|].
    apply list_lookup_insert_eq. lia.
  - cbn [pkt_buf set_buf]. by rewrite list_insert_insert_eq.
Qed.

(** Nothing is sent of what comes before there is a client. *)
Lemma handle_app_idle msgs data s : serves msgs s → state s ≠ BUSY →
  ∃ b, handle_app getaddrinfo clock rand data s = Ret tt (set_buf b s) ∧ serves msgs (set_buf b s).
Proof using Type. clear.
  intros V Hst. pose proof (next_slot msgs s V) as (Hi & p & Ep & Hp). unfold handle_app. run (eq_refl (get s)).
  rewrite (fill_run data p s _ _ Ep).
  destruct (sv_seq _ _ V) as (_ & Hm & Hb).
  assert (first_data_pkt_rcvd s = false) as Hf by (destruct (first_data_pkt_rcvd s); [by destruct Hst; apply Hb|done]). specialize (Hm Hf). subst msgs.
  eexists. split.
  - by destruct (state s).
  - rewrite Hi. destruct V as [[Hl Hok]]. constructor; try done; cbn.
    + rewrite length_insert. split; [done|]. apply Forall_insert; [done|]. by apply slot_ok_fill.
    + intros j Hj. destruct (decide (j = 0%nat)) as [->|Hne].
      * eexists. split; [apply list_lookup_insert_eq; lia|done].
      * rewrite list_lookup_insert_ne by done. by apply sv_unused0.
Qed.

(** The datagram that carries a message, to the address of the client. *)
Definition forwarded (msgs : list (list Z)) (m : list Z) s s' : Prop :=
  wire (net_ s') = wire (net_ s) ∧ lost s = true ∨
  ∃ a q r, Receiver s = Some r ∧ getaddrinfo r.1 r.2 = Some a ∧ carries (Z.of_nat (length msgs)) m q ∧ lost s = false ∧
    wire (net_ s') = wire (net_ s) ++ [(a, take (32 + length m) (rpkt_bytes q))].
Definition few (msgs : list (list Z)) : Prop := Z.of_nat (length msgs) < 187000.

Lemma handle_app_busy msgs data s : serves msgs s → state s = BUSY → few msgs →
  (first_data_pkt_rcvd s = false → usecs (clock (S (clocks s))) ≤ usecs (clock (clocks s)) + 4000000) →
  ∃ s', handle_app getaddrinfo clock rand data s = Ret tt s' ∧ serves (msgs ++ [take 1400 data]) s' ∧
    state s' = BUSY ∧ pkt_retransmissions s' ≤ pkt_retransmissions s ∧ forwarded msgs (take 1400 data) s s'.
Proof using Haddr Hclock. clear -Haddr Hclock.
  intros V Hst Hfew Hp. pose proof (next_slot msgs s V) as (Hi & p & Ep & Hp0). unfold few in Hfew.
  destruct (begin_stream_run msgs s V Hst Hp) as (s1 & V1 & Hf1 & Hst1 & Hr1 & Hn1 & Hb1 & Hre1 & Erun).
  unfold handle_app. run (eq_refl (get s)). set (index := Z.rem (seq s) WINDOW_SIZE) in *. rewrite (fill_run data p s index _ Ep), Hst.
  erewrite bind_Ret by reflexivity. set (b1 := <[_ := _]> (pkt_buf s)). run (Erun b1).
  destruct (sv_receiver _ _ V1) as [r Er]; [by rewrite Hst1|]. run (reads_Some Receiver r (set_buf b1 s1) Er).
  destruct (Haddr r.1 r.2) as [a Ea]. run (lift_Some _ _ (set_buf b1 s1) Ea). run (eq_refl (get (set_buf b1 s1))).
  set (m := take 1400 data). set (q := new_slot (clock (clocks s)) (seq s1) data p). pose proof (aget_bounds _ _ _ Ep) as Hib.
  assert (aget b1 index = Some (fill_slot data (clear_slot p))) as Eb1.
  { apply aget_Some. split; [lia|]. apply list_lookup_insert_eq. lia. }
  rewrite (bind_Ret _ _ _ _ _ (set_slot_run index _ (set_buf b1 s1) _ Eb1)). cbn [pkt_buf set_buf seq clocks].
  assert (<[Z.to_nat index := stamp_slot (clock (clocks s)) (seq s1) (Z.of_nat (length data) `min` MAX_MESS_LEN) (fill_slot data (clear_slot p))]> b1 =
    <[(length msgs mod 1800)%nat := q]> (pkt_buf s1)) as -> by (unfold b1; by rewrite list_insert_insert_eq, Hi, Hb1).
  change (set_buf ?x (set_buf b1 s1)) with (set_buf x s1). set (s2 := set_buf _ s1).
  assert (aget (pkt_buf s2) index = Some q) as Eq.
  { apply aget_Some. split; [lia|]. rewrite Hi. apply list_lookup_insert_eq. rewrite Hb1. lia. }
  run (reads_Some (λ s, aget (pkt_buf s) index) q s2 Eq).
  assert (carries (Z.of_nat (length msgs)) m q) as Hc.
  { unfold q. rewrite (proj1 (sv_seq _ _ V1)). apply new_slot_carries; [done|apply Hclock|lia]. }
  assert (Z.of_nat (length data) `min` MAX_MESS_LEN = Z.of_nat (length m)) as -> by (unfold m, MAX_MESS_LEN; rewrite length_take; lia).
  pose proof (carries_length _ _ _ Hc) as Hm. pose proof Hc as (_ & _ & _ & _ & _ & _ & _ & _ & _ & _ & Hql). pose proof (length_rpkt q Hql) as Hlq.
  destruct (sendto_dbg_spec rand (rpkt_bytes q) (sizeof_rpkt - (MAX_MESS_LEN - Z.of_nat (length m))) a (net_ s2)) as (n' & E & _ & _ & Ew);
    [unfold sizeof_rpkt, MAX_MESS_LEN; lia|].
  erewrite bind_Ret by exact (zoom_Ret net_ set_net _ s2 _ _ E). set (s3 := set_net n' s2). run (eq_refl (get s3)).
  assert (Z.to_nat (sizeof_rpkt - (MAX_MESS_LEN - Z.of_nat (length m))) = (32 + length m)%nat) as El by (unfold sizeof_rpkt, MAX_MESS_LEN; lia).
  rewrite El in Ew. change (net_ s2) with (net_ s1) in Ew. rewrite Hn1 in Ew. change (_ && _) with (lost s) in Ew.
  destruct (sv_counts _ _ V1) as (Hcb & Hcp & _), (sv_seq _ _ V1) as (Hseq & _).
  set (b := sizeof_rpkt - _) in *. assert (0 ≤ b ≤ 1432) as Hb by (unfold b, sizeof_rpkt, MAX_MESS_LEN; lia).
  run (lift_Some _ _ s3 (int_add_ok (clean_bytes_sent s1) b ltac:(lia))).
  run (lift_Some _ _ s3 (int_incr_ok (clean_pkts_sent s1) ltac:(lia))). run (lift_Some _ _ s3 (int_incr_ok (seq s1) ltac:(lia))).
  eexists. split; [reflexivity|]. split; [|split_and!; [done|done|]].
  - apply serves_sent; [done|lia|done|done| |done]. rewrite Ew.
    assert (Forall (on_wire (msgs ++ [m])) (wire (net_ s))) as Hw.
    { eapply Forall_impl; [apply V|]. intros w [Hw|Hw]; [left; by apply is_stream_mono|by right]. }
    destruct (lost s); [done|]. apply Forall_app_2; [done|]. constructor; [|done]. left.
    exists (Z.of_nat (length msgs)), m, q, (32 + length m)%nat. split_and!; [lia| |done|lia|lia|done]. rewrite Nat2Z.id. by apply list_lookup_middle.
  - unfold forwarded. change (net_ (set_counts _ _ _ s3)) with n'. rewrite Ew. destruct (lost s) eqn:El2; [by left|right].
    exists a, q, r. rewrite <-Hr1. done.
Qed.

(** ** An iteration *)

Lemma srv_report_run msgs s : serves msgs s → Z.of_nat (length msgs) ≤ 187000 →
  ∃ s', report clock s = Ret tt s' ∧ serves msgs s' ∧ net_ s' = net_ s ∧ pkt_retransmissions s' = pkt_retransmissions s.
Proof using Hclock. clear -Hclock.
  intros V Hlen. unfold report. erewrite bind_Ret by reflexivity. destruct (Hclock (clocks s)) as [Hn _].
  set (now := clock (clocks s)) in *. apply (serves_calls _ _ (S (clocks s)) (mallocs s)) in V. set (s1 := set_calls _ _ s) in *.
  run (eq_refl (get s1)). destruct (first_data_pkt_rcvd s1) eqn:Ef; [|by exists s1].
  destruct (sv_time _ _ V Ef) as (Hn1 & Hn2 & Hle). cbn [andb]. rewrite Cmp_time_ge by done.
  destruct (Z.leb_spec (usecs (stat_report_time s1)) (usecs now)) as [Hr|Hr]; [|by exists s1].
  erewrite bind_Ret by reflexivity. destruct (sv_counts _ _ V) as (Hb & _ & _), (sv_seq _ _ V) as (Hs & _).
  set (s2 := set_report _ s1). run (lift_Some _ _ s2 (int_add_ok (clean_bytes_sent s1 * 8) 0 ltac:(lia))).
  assert (Z.quot ((now.1 - (stream_start_time s1).1) * 1000000 + (now.2 - (stream_start_time s1).2)) 1000000 ≠ 0) as Hq.
  { unfold usecs in *. intros Hq. pose proof (Z.quot_rem' ((now.1 - (stream_start_time s1).1) * 1000000 + (now.2 - (stream_start_time s1).2)) 1000000).
    pose proof (Z.rem_bound_pos ((now.1 - (stream_start_time s1).1) * 1000000 + (now.2 - (stream_start_time s1).2)) 1000000). lia. }
  rewrite (proj2 (Z.eqb_neq _ _) Hq). exists s2. split_and!; try done.
  destruct V. constructor; try done. intros _. refine (conj (normal_add _ _ Hn _) (conj Hn2 _)); [done|].
  cbn [s2 set_report set_stream stat_report_time stream_start_time]. rewrite usecs_add. change (usecs Report_Interval) with 5000000. lia.
Qed.

(** The part of an iteration before the datagram of the network. *)
Lemma app_run msgs s e : serves msgs s → few msgs → admissible s e →
  ∃ s', (match app_sock e with Some data => handle_app getaddrinfo clock rand data | None => mret tt end)
      (if first_data_pkt_rcvd s && match state s with BUSY => true | _ => false end then set_calls (S (clocks s)) (mallocs s) s else s) = Ret tt s' ∧
    serves (sent msgs s e) s' ∧ state s' = state s ∧ pkt_retransmissions s' ≤ pkt_retransmissions s ∧
    (if decide (state s = BUSY) then ∀ data, app_sock e = Some data → forwarded msgs (take 1400 data) s s' else net_ s' = net_ s) ∧
    (app_sock e = None → s' = set_calls (clocks s') (mallocs s) s) ∧ (state s ≠ BUSY → mallocs s' = mallocs s).
Proof using Haddr Hclock. clear -Haddr Hclock.
  intros V Hfew [_ Hp]. set (s1 := if _ && _ then _ else s).
  assert (serves msgs s1 ∧ s1 = set_calls (clocks s1) (mallocs s) s ∧ (first_data_pkt_rcvd s = false → s1 = s)) as (V1 & E1 & E2).
  { unfold s1. destruct (first_data_pkt_rcvd s) eqn:Ef; cbn [andb]; [|split_and!; [done|by destruct s|done]].
    destruct (state s); split_and!; try done; try (by destruct s). by apply serves_calls. }
  assert (state s1 = state s ∧ first_data_pkt_rcvd s1 = first_data_pkt_rcvd s ∧ pkt_retransmissions s1 = pkt_retransmissions s ∧
    net_ s1 = net_ s ∧ Receiver s1 = Receiver s) as (Es & Ef & Er & En & Erc) by (rewrite E1; done).
  unfold sent. destruct (app_sock e) as [data|] eqn:Ea; cycle 1.
  { exists s1. rewrite Es, Er, En. split_and!; try done; [by destruct (state s)|by case_decide|by rewrite E1]. }
  case_decide as Hst; cycle 1.
  - destruct (handle_app_idle msgs data s1 V1) as (b & E & V'); [by rewrite Es|]. exists (set_buf b s1).
    split; [exact E|]. split_and!; [by destruct (state s)|done|cbn; lia|done|done|]. intros _. cbn. by rewrite E1.
  - destruct (handle_app_busy msgs data s1 V1) as (s' & E & V' & Hst' & Hr' & Hfw); [by rewrite Es|done| |].
    { intros Hf. rewrite Ef in Hf. rewrite (E2 Hf). by apply Hp. }
    exists s'. split; [exact E|]. rewrite Hst. split_and!; [done|done|lia| |done|done]. intros d [= <-].
    unfold forwarded, lost in *. rewrite En, Erc in Hfw. exact Hfw.
Qed.

(** Requests of clients. *)
Lemma client_run msgs s d from : serves msgs s → Z.of_nat (length msgs) ≤ 187000 → client_ok s d →
  if client_faults s d from then handle_client getnameinfo clock rand malloc junk d from s = Undef
  else ∃ s', handle_client getnameinfo clock rand malloc junk d from s = Ret tt s' ∧ serves msgs s' ∧
    ∀ p, is_control p d → r_init p = false → r_live p = false → nack_result msgs from (r_seq p) s s'.
Proof.
  intros V Hfew (p & Hc & Hn). destruct (recv_control p d junk Hc Hjunk) as [pl E].
  assert (∀ p', is_control p' d → ∃ pl', with_body p pl = with_body p' pl') as Hu.
  { intros p' Hc'. destruct (recv_control p' d junk Hc' Hjunk) as [pl' E']. exists pl'. congruence. }
  pose proof Hc as ((_ & _ & Hq & _) & Hf & _ & _). unfold is_u32 in Hq. unfold handle_client, client_faults. rewrite (bind_Ret _ _ s _ s (lift_Some _ _ s E)), E.
  cbn [with_body r_init r_live r_nack]. pose proof (handle_init_run msgs (with_body p pl) from s V Hq) as HI.
  pose proof (handle_live_run msgs (with_body p pl) from s V Hq) as HL. destruct (r_init p) eqn:Ei; [|destruct (r_live p) eqn:El].
  - destruct (state s), (getnameinfo from) as [[h sv]|]; try (destruct (negb _); [exact HI|]);
      destruct HI as (s' & Es & V'); exists s'; (split_and!; [done|done|]); intros p' Hc' Hi'; destruct (Hu p' Hc') as [pl' [= Hx]]; congruence.
  - destruct (state s), (getnameinfo from) as [[h sv]|]; try exact HL;
      destruct HL as (s' & Es & V'); exists s'; (split_and!; [done|done|]); intros p' Hc' _ Hl'; destruct (Hu p' Hc') as [pl' [= Hx Hy]]; congruence.
  - cbn [orb] in Hf. rewrite Hf. destruct (Hn Hf) as [Hq0 Hr].
    destruct (handle_nack_run msgs (with_body p pl) from s V) as (s' & Es & V' & Hres); [cbn; lia|lia|done|].
    replace (match state s with FREE => _ | _ => _ end) with false by (by destruct (state s), (getnameinfo from) as [[]|]).
    exists s'. split_and!; [done|done|]. intros p' Hc' _ _. destruct (Hu p' Hc') as [pl' [= _ _ _ _ _ <-]]. exact Hres.
Qed.

(** A turn is undefined exactly when the request is one that the server cannot
    bear. *)
Lemma srv_turn_run msgs s e : serves msgs s → few msgs → admissible s e →
  if faults s e then turn_ e s = Undef
  else ∃ s', turn_ e s = Ret tt s' ∧ serves (sent msgs s e) s' ∧
    (client_sock e = None → if decide (state s = BUSY) then ∀ data, app_sock e = Some data → forwarded msgs (take 1400 data) s s' else net_ s' = net_ s) ∧
    (app_sock e = None → ∀ from d p, client_sock e = Some (from, d) → is_control p d → r_init p = false → r_live p = false →
      nack_result msgs from (r_seq p) s s').
Proof.
  intros V Hfew Ha. destruct (app_run msgs s e V Hfew Ha) as (s1 & E1 & V1 & Hst1 & Hr1 & Hf1 & Hi1 & Hm1).
  unfold turn. rewrite (bind_Ret _ _ s s s) by done.
  assert (∀ B (k : unit → prog (srv A) B), (y ← (if first_data_pkt_rcvd s && match state s with BUSY => true | _ => false end
    then _ ← gettimeofday clock; mret tt else mret tt); k y) s =
    k tt (if first_data_pkt_rcvd s && match state s with BUSY => true | _ => false end then set_calls (S (clocks s)) (mallocs s) s else s)) as Et.
  { intros B k. by destruct (first_data_pkt_rcvd s), (state s). }
  rewrite Et, (bind_Ret _ _ _ _ _ E1). destruct Ha as [Hc _].
  assert (Z.of_nat (length (sent msgs s e)) ≤ 187000) as Hlen.
  { unfold few in Hfew. unfold sent. destruct (state s), (app_sock e); try lia. rewrite length_app. simpl. lia. }
  unfold faults. destruct (client_sock e) as [[from d]|] eqn:Ec.
  - pose proof (client_run (sent msgs s e) s1 d from V1 Hlen) as Hcl. rewrite (client_faults_ext s s1 d from Hst1) in Hcl by (intros Hs; apply Hm1; by rewrite Hs).
    assert (client_ok s1 d) as Hc1.
    { destruct Hc as (p & Hp & Hn). exists p. split; [done|]. intros Hx. destruct (Hn Hx). split; lia. }
    specialize (Hcl Hc1). destruct (client_faults s d from); [unfold mbind at 1, prog_bind at 1; by rewrite Hcl|]. destruct Hcl as (s2 & E2 & V2 & Hn2).
    assert (app_sock e = None → sent msgs s e = msgs) as Hsent by (intros Hx; unfold sent; rewrite Hx; by destruct (state s)).
    run E2. destruct (srv_report_run _ s2 V2 Hlen) as (s3 & E3 & V3 & En3 & Er3). exists s3. split_and!; [done|done|done|].
    intros Hx f' d' p [= <- <-] Hp Hi Hl. specialize (Hn2 p Hp Hi Hl). rewrite (Hsent Hx) in Hn2. unfold nack_result, answers, lost in *. rewrite (Hi1 Hx) in Hn2.
    rewrite En3, Er3. exact Hn2.
  - erewrite bind_Ret by reflexivity. destruct (srv_report_run _ s1 V1 Hlen) as (s3 & E3 & V3 & En3 & Er3). exists s3. split_and!; [done|done| |done].
    intros _. unfold forwarded. rewrite En3. exact Hf1.
Qed.

(** ** The server *)

Lemma start_up_run argv passive n s : start_up argv passive (srv_init n) = Ret tt s → ∃ n', s = srv_init n' ∧ wire n' = wire n.
Proof using Type. clear.
  unfold start_up. intros H. apply bind_Ret_inv in H as ([[rate p1] p2] & s1 & H1 & H). apply bind_Ret_inv in H as ([] & s2 & H2 & H).
  apply bind_Ret_inv in H as ([] & s3 & H3 & H).
  assert (∀ l (x y : srv A), setup_client_sock l x = Ret tt y → x = y) as Hs.
  { intros [l|] x y; cbn; [case_match; [by intros [= ->]|done]|done]. }
  apply Hs in H3 as <-. apply Hs in H as <-.
  assert (s1 = srv_init n) as ->.
  { unfold Usage in H1. destruct argv as [|? [|? [|? [|? [|]]]]]; try done. destruct (_ || _); [done|]. by injection H1 as _ _ _ <-. }
  unfold zoom, sendto_dbg_init, lift in H2. cbn [net_ srv_init] in H2. destruct (cutoff_of rate) as [c|]; [|done].
  injection H2 as <-. by eexists.
Qed.
Lemma serves_init n : wire n = [] → serves [] (srv_init n : srv A).
Proof using Type. clear.
  intros Hw. constructor; cbn [srv_init pkt_buf seq first_data_pkt_rcvd state Receiver net_ clean_bytes_sent clean_pkts_sent pkt_retransmissions]; try done.
  - split; [done|]. by apply Forall_replicate.
  - intros j Hj. exists no_packet. split; [|done]. apply lookup_replicate. split; [done|lia].
  - by rewrite Hw.
Qed.

(** A run, with the messages the application sent to the client. *)
Inductive serving : list (list Z) → srv A → Prop :=
| serving_start argv passive n s : wire n = [] → start_up argv passive (srv_init n) = Ret tt s → serving [] s
| serving_turn msgs s e s' : serving msgs s → few msgs → admissible s e → turn_ e s = Ret tt s' → serving (sent msgs s e) s'.
Lemma serving_serves msgs s : serving msgs s → serves msgs s.
Proof.
  induction 1 as [argv passive n s Hw H|msgs s e s' _ V Hfew Ha E].
  - destruct (start_up_run _ _ _ _ H) as (n' & -> & Hn). apply serves_init. congruence.
  - pose proof (srv_turn_run msgs s e V Hfew Ha) as Ht. destruct (faults s e); [congruence|]. destruct Ht as (s2 & E2 & V2 & _). congruence.
Qed.
End server.

(** C21: The streaming server serves its client, as long as [few] messages have
    been sent, fewer than 187000, at which the bit count of the statistics no
    longer fits an [int].  In every state it can reach, all it has put on the wire
    are control packets and packets that carry what the application sent, each
    under the number of its position in the stream.  An admissible event is
    anything of the application together with any control packet of anyone, but
    no NACK for packet 0 or after the last retransmission an [int] can count, and
    the clock does not advance 4 seconds between its two readings when the stream
    begins.  Such an event is undefined exactly when the server has no client yet
    and it is a LIVE, which is compared with a null pointer, or an INIT for whose
    address, with the null byte that the copies write behind their blocks, the
    blocks of [malloc] have no room; no other makes the server fail, leave its
    arrays or overflow a counter.  And when the application sends while the client
    is ready, exactly that message, cut at 1400 bytes, goes to the client's address
    under the next number, unless the lossy network drops it. *)
Theorem stream_served {A} (getnameinfo : A → option (list Z * list Z)) getaddrinfo clock rand malloc junk msgs s :
  (∀ h p, is_Some (getaddrinfo h p)) → (∀ n, time_ok (clock n)) → length junk = 1432%nat →
  serving getnameinfo getaddrinfo clock rand malloc junk msgs s →
  Forall (on_wire msgs) (wire (net_ s)) ∧
  (few msgs → ∀ e, admissible clock s e →
    if faults getnameinfo malloc junk s e then turn getnameinfo getaddrinfo clock rand malloc junk e s = Undef
    else ∃ s', turn getnameinfo getaddrinfo clock rand malloc junk e s = Ret tt s' ∧
      Forall (on_wire (sent msgs s e)) (wire (net_ s')) ∧
      (client_sock e = None → ∀ data, app_sock e = Some data →
        if decide (state s = BUSY) then forwarded getaddrinfo rand msgs (take 1400 data) s s' else net_ s' = net_ s)).
Proof.
  intros Ha Hc Hj V. apply serving_serves in V; try done. split; [apply V|]. intros Hfew e He.
  pose proof (srv_turn_run getnameinfo getaddrinfo clock rand malloc junk Ha Hc Hj msgs s e V Hfew He) as H. destruct (faults _ _ _ _ _); [exact H|].
  destruct H as (s' & E & V' & Hf & _). exists s'. split_and!; [done|apply V'|]. intros Hx data Hd. specialize (Hf Hx). case_decide; [by apply Hf|done].
Qed.

(** A request for a lost packet is answered from the window: a NACK for
    packet [i > 0] makes the server send the packet again, whole and with the
    bytes the application sent, exactly when it streams to the client that asks
    and the packet is among the last 1800; otherwise it sends nothing at all,
    also for packets that are not sent yet. *)
Theorem nack_answered {A} (getnameinfo : A → option (list Z * list Z)) getaddrinfo clock rand malloc junk msgs s from d p :
  (∀ h p, is_Some (getaddrinfo h p)) → (∀ n, time_ok (clock n)) → length junk = 1432%nat →
  serving getnameinfo getaddrinfo clock rand malloc junk msgs s → few msgs →
  (first_data_pkt_rcvd s = false → usecs (clock (S (clocks s))) ≤ usecs (clock (clocks s)) + 4000000) →
  is_control p d → r_init p = false → r_live p = false → 0 < r_seq p → pkt_retransmissions s < 2147483647 →
  ∃ s', turn getnameinfo getaddrinfo clock rand malloc junk (mk_event None (Some (from, d))) s = Ret tt s' ∧
    nack_result getnameinfo rand msgs from (r_seq p) s s'.
Proof.
  intros Ha Hc Hj V Hfew Ht Hp Hi Hl Hq Hr. apply serving_serves in V; try done.
  pose proof (srv_turn_run getnameinfo getaddrinfo clock rand malloc junk Ha Hc Hj msgs s (mk_event None (Some (from, d))) V Hfew) as H.
  replace (faults _ _ _ _ _) with false in H; cycle 1.
  { cbn [faults client_sock]. unfold client_faults. destruct (recv_control p d junk Hp Hj) as [pl ->]. cbn [with_body r_init r_live]. rewrite Hi, Hl.
    by destruct (state s), (getnameinfo from) as [[]|]. }
  destruct H as (s' & E & _ & _ & Hres); [split; [by exists p|done]|].
  exists s'. split; [done|]. by apply (Hres eq_refl from d p).
Qed.

(** The first request is a trap: a LIVE that arrives before any client asked
    compares its address with a null pointer, and when [malloc] gives exactly
    the bytes that are asked for, the INIT of the first client writes the end of
    its address behind the block.  Both are undefined behaviour, from the state
    in which the server starts. *)
Theorem first_request_undefined {A} (getnameinfo : A → option (list Z * list Z)) getaddrinfo clock rand malloc junk argv passive n s from d p :
  is_Some (getnameinfo from) → length junk = 1432%nat → (∀ k z, malloc k z = Some z) →
  start_up argv passive (srv_init n) = Ret tt s →
  is_control p d → (r_init p || r_live p) = true →
  turn getnameinfo getaddrinfo clock rand malloc junk (mk_event None (Some (from, d))) s = Undef.
Proof.
  intros [[h sv] Hn] Hj Hm Hs Hp Hf. destruct (start_up_run _ _ _ _ Hs) as (n' & -> & _). unfold turn.
  run (eq_refl (get (srv_init n' : srv A))). cbn [first_data_pkt_rcvd srv_init andb]. do 2 erewrite bind_Ret by reflexivity.
  cbn [client_sock]. destruct (recv_control p d junk Hp Hj) as [pl E].
  assert (handle_client getnameinfo clock rand malloc junk d from (srv_init n') = Undef) as Eh.
  { unfold handle_client. run (lift_Some _ _ (srv_init n' : srv A) E). cbn [with_body r_init r_live].
    destruct (r_init p); [|rewrite orb_false_l in Hf; rewrite Hf].
    - unfold handle_init. erewrite bind_Ret by reflexivity. rewrite Hn. erewrite bind_Ret by reflexivity.
      cbn [set_calls srv_init state]. unfold mbind at 1, prog_bind at 1.
      unfold copy_string at 1. erewrite bind_Ret by reflexivity. erewrite bind_Ret by reflexivity.
      rewrite Hm, (proj2 (Z.leb_gt _ _)) by lia. done.
    - unfold handle_live. erewrite bind_Ret by reflexivity. by rewrite Hn. }
  unfold mbind at 1, prog_bind at 1. by rewrite Eh.
Qed.

(** ** A run *)

(** Addresses are numbers; client 7 asks, is live, is sent two packets and lost
    the second. *)
Definition demo_name (a : Z) : option (list Z * list Z) := Some ([a], [a]).
Definition demo_addr (h p : list Z) : option Z := Some (hd 0 h).
Definition demo_clock (n : nat) : timeval := (5, 0).
Definition demo_rand (n : nat) : Z := 255.
Definition demo_malloc (n : nat) (z : Z) : option Z := Some (z + 1).
Definition demo_junk : list Z := replicate 1432 9.
Definition demo_turn : event Z → prog (srv Z) unit := turn demo_name demo_addr demo_clock demo_rand demo_malloc demo_junk.
Definition demo_serving : list (list Z) → srv Z → Prop := serving demo_name demo_addr demo_clock demo_rand demo_malloc demo_junk.
Definition request (p : rpkt) : event Z := mk_event None (Some (7, take 32 (rpkt_bytes p))).
Definition ask : rpkt := control true false false (5, 0) 0.
Definition alive : rpkt := control false true false (5, 0) 0.
Definition lost_packet : rpkt := control false false true (5, 0) 1.
Definition data (m : list Z) : event Z := mk_event (Some m) None.
(** The state after a command that returned. *)
Definition after {S A} (o : outcome S A) (d : S) : S := match o with Ret _ s => s | _ => d end.
Definition returned {S A} (o : outcome S A) : bool := match o with Ret _ _ => true | _ => false end.
Lemma after_Ret {S} (o : outcome S unit) d : returned o = true → o = Ret tt (after o d).
Proof. by destruct o as [[]| | |]. Qed.

Definition demo_net : net Z := mk_net true 0 0 [].
Definition demo0 : srv Z := srv_init demo_net.
Definition demo1 : srv Z := after (demo_turn (request ask) demo0) demo0.
Definition demo2 : srv Z := after (demo_turn (request alive) demo1) demo1.
Definition demo3 : srv Z := after (demo_turn (data [1; 2; 3]) demo2) demo2.
Definition demo4 : srv Z := after (demo_turn (data [4; 5]) demo3) demo3.
Definition demo_argv : list (list Z) := [[114]; [48]; [49]; [50]].
Definition demo_passive (port : list Z) : option (list (bool * bool)) := Some [(true, true)].

Lemma demo_control i l n q : (i || l || n) = true → is_u32 q →
  is_control (control i l n (5, 0) q) (take 32 (rpkt_bytes (control i l n (5, 0) q))).
Proof. intros Hf Hq. split; [apply control_ok; [|done]; split; [split; cbn; lia|cbn; lia]|done]. Qed.
Lemma srv_demo_env : (∀ h p, is_Some (demo_addr h p)) ∧ (∀ n, time_ok (demo_clock n)) ∧ length demo_junk = 1432%nat.
Proof.
  split_and!; [by eexists| |done].
  intros n. split; [split; cbn; lia|cbn; lia].
Qed.
Lemma demo_admissible (s : srv Z) (e : event Z) : match client_sock e with Some (_, d) => client_ok s d | None => True end → admissible demo_clock s e.
Proof. intros H. split; [by destruct (client_sock e) as [[]|]|]. intros _. unfold demo_clock; lia. Qed.
Lemma srv_demo_step msgs s e s' : demo_serving msgs s → few msgs → admissible demo_clock s e → returned (demo_turn e s) = true →
  s' = after (demo_turn e s) s → demo_serving (sent msgs s e) s'.
Proof. intros Hs Hf Ha Hr ->. by eapply serving_turn; [..|apply after_Ret]. Qed.
Lemma demo_serving2 : demo_serving [] demo2.
Proof.
  assert (demo_serving [] demo0) as H0 by (apply (serving_start _ _ _ _ _ _ demo_argv demo_passive demo_net); reflexivity).
  assert (demo_serving [] demo1) as H1.
  { apply (srv_demo_step [] demo0 (request ask)); [done|done| |vm_compute; reflexivity|done]. apply demo_admissible.
    exists ask. by split; [apply demo_control|]. }
  apply (srv_demo_step [] demo1 (request alive)); [done|done| |vm_compute; reflexivity|done]. apply demo_admissible.
  exists alive. by split; [apply demo_control|].
Qed.
Lemma demo_serving4 : demo_serving [[1; 2; 3]; [4; 5]] demo4.
Proof.
  assert (demo_serving [[1; 2; 3]] demo3) as H3.
  { replace [[1; 2; 3]] with (sent (A:=Z) [] demo2 (data [1; 2; 3])) by (vm_compute; reflexivity).
    by apply (srv_demo_step [] demo2); [apply demo_serving2|..|vm_compute; reflexivity|]; [done|apply demo_admissible|..]. }
  replace [[1; 2; 3]; [4; 5]] with (sent (A:=Z) [[1; 2; 3]] demo3 (data [4; 5])) by (vm_compute; reflexivity).
  by apply (srv_demo_step [[1; 2; 3]] demo3); [..|vm_compute; reflexivity|]; [done|done|apply demo_admissible|..].
Qed.

Lemma stream_served_witness :
  (∃ s', demo_turn (data [1; 2; 3]) demo2 = Ret tt s' ∧ forwarded demo_addr demo_rand [] [1; 2; 3] demo2 s') ∧
  turn demo_name demo_addr demo_clock demo_rand (λ _ z, Some z) demo_junk (request ask) demo0 = Undef.
Proof.
  destruct srv_demo_env as (H1 & H2 & H3). split.
  - destruct (stream_served demo_name demo_addr demo_clock demo_rand demo_malloc demo_junk [] demo2 H1 H2 H3 demo_serving2) as [_ H].
    specialize (H ltac:(done) (data [1; 2; 3]) ltac:(by apply demo_admissible)). destruct H as (s' & E & _ & Hf). exists s'. split; [exact E|].
    specialize (Hf eq_refl _ eq_refl). rewrite decide_True in Hf by (vm_compute; reflexivity). exact Hf.
  - destruct (stream_served demo_name demo_addr demo_clock demo_rand (λ _ z, Some z) demo_junk [] demo0 H1 H2 H3) as [_ H].
    { apply (serving_start _ _ _ _ _ _ demo_argv demo_passive demo_net); reflexivity. }
    specialize (H ltac:(done) (request ask)). replace (faults _ _ _ _ _) with true in H by (vm_compute; reflexivity). apply H, demo_admissible.
    exists ask. by split; [apply demo_control|].
Defined.
Lemma nack_answered_witness : ∃ s', demo_turn (request lost_packet) demo4 = Ret tt s' ∧ pkt_retransmissions s' = 1.
Proof.
  destruct srv_demo_env as (H1 & H2 & H3).
  destruct (nack_answered demo_name demo_addr demo_clock demo_rand demo_malloc demo_junk _ demo4 7 (take 32 (rpkt_bytes lost_packet)) lost_packet
    H1 H2 H3 demo_serving4) as (s' & E & Hr); [done|intros _; unfold demo_clock; lia|by apply demo_control|done|done|done|vm_compute; done|].
  exists s'. split; [exact E|]. unfold nack_result in Hr.
  replace (answers _ _ _ _ _) with true in Hr by (vm_compute; reflexivity). destruct Hr as (m & p & _ & _ & -> & _). vm_compute; reflexivity.
Defined.
Lemma first_request_undefined_witness :
  turn demo_name demo_addr demo_clock demo_rand (λ _ z, Some z) demo_junk (request alive) demo0 = Undef.
Proof.
  apply (first_request_undefined demo_name demo_addr demo_clock demo_rand (λ _ z, Some z) demo_junk demo_argv demo_passive demo_net demo0 7
    (take 32 (rpkt_bytes alive)) alive); [by eexists|done|done|reflexivity|by apply demo_control|done].
Defined.
