(* ===== verification/RtRcv.v ===== *)
(** * The client of the real-time stream

    CS2520/project2/rt_rcv.c: it asks the server for the stream, keeps what
    arrives for the length of the latency window, asks again for what is missing
    and hands the packets on to the application when their time has come.
    [select] is the environment: a function of the timeout that returns the
    datagram that arrives, if one does.  Queues (sys/queue.h) are lists.  Of the
    statistics the variables are kept and what is divided by; the output is left
    out, with [first_pkt_rcvd], which only guards a message. *)
From S2P Require Import Prelude Stdio Bytes Clock Upkt SendtoDbg RtPkt.
Open Scope Z_scope.

Definition Init_Interval : timeval := (1, 500000).
Definition Live_Interval : timeval := (1, 0).
Definition Stat_Interval : timeval := (5, 0).

(** ** State *)

(** [struct pkt_list]: a packet and when it came. *)
Record item := mk_item { i_pkt : rpkt; i_recvd : timeval }.
Record stats := mk_stats {
  clean_bytes_rcvd : Z;
  clean_pkts_rcvd : Z;
  stream_start_time : timeval;
  num_pkts_delivered : Z;
  max_delay : timeval;
  min_delay : timeval;
  delay_sum : timeval
}.
(** The variables of [transmission_protocol] and those of the file it changes;
    what was handed to the application. *)
Record client (A : Type) := mk_client {
  latency_buffer : list item;
  buf_size : Z;
  missing_pkts : list Z;
  outstanding_pkts : Z;
  highest_seq_recvd : Z;
  next_seq_to_deliver : Z;
  live_seq_num : Z;
  live_send_time : timeval;
  deliver_time : timeval;
  stat_time : timeval;
  nack_time : timeval;
  stat : stats;
  recvd_pkt : list Z;
  delivered : list (list Z);
  net_ : net A;
  clocks : nat
}.
Arguments mk_client {A}. Arguments latency_buffer {A}. Arguments buf_size {A}. Arguments missing_pkts {A}. Arguments outstanding_pkts {A}.
Arguments highest_seq_recvd {A}. Arguments next_seq_to_deliver {A}. Arguments live_seq_num {A}. Arguments live_send_time {A}.
Arguments deliver_time {A}. Arguments stat_time {A}. Arguments nack_time {A}. Arguments stat {A}. Arguments recvd_pkt {A}.
Arguments delivered {A}. Arguments net_ {A}. Arguments clocks {A}.

Section state.
Context {A : Type}.
Implicit Types (s : client A).
(** Changes of a group of variables that belong together. *)
Definition set_buffer (b : list item) (n : Z) s : client A :=
  mk_client b n (missing_pkts s) (outstanding_pkts s) (highest_seq_recvd s) (next_seq_to_deliver s) (live_seq_num s) (live_send_time s)
    (deliver_time s) (stat_time s) (nack_time s) (stat s) (recvd_pkt s) (delivered s) (net_ s) (clocks s).
Definition set_missing (l : list Z) (n : Z) s : client A :=
  mk_client (latency_buffer s) (buf_size s) l n (highest_seq_recvd s) (next_seq_to_deliver s) (live_seq_num s) (live_send_time s)
    (deliver_time s) (stat_time s) (nack_time s) (stat s) (recvd_pkt s) (delivered s) (net_ s) (clocks s).
Definition set_highest (q : Z) s : client A :=
  mk_client (latency_buffer s) (buf_size s) (missing_pkts s) (outstanding_pkts s) q (next_seq_to_deliver s) (live_seq_num s) (live_send_time s)
    (deliver_time s) (stat_time s) (nack_time s) (stat s) (recvd_pkt s) (delivered s) (net_ s) (clocks s).
(** The next packet of the application and its time. *)
Definition set_next (q : Z) (t : timeval) s : client A :=
  mk_client (latency_buffer s) (buf_size s) (missing_pkts s) (outstanding_pkts s) (highest_seq_recvd s) q (live_seq_num s) (live_send_time s)
    t (stat_time s) (nack_time s) (stat s) (recvd_pkt s) (delivered s) (net_ s) (clocks s).
Definition set_live (q : Z) (t : timeval) s : client A :=
  mk_client (latency_buffer s) (buf_size s) (missing_pkts s) (outstanding_pkts s) (highest_seq_recvd s) (next_seq_to_deliver s) q t
    (deliver_time s) (stat_time s) (nack_time s) (stat s) (recvd_pkt s) (delivered s) (net_ s) (clocks s).
Definition set_stat_time (t : timeval) s : client A :=
  mk_client (latency_buffer s) (buf_size s) (missing_pkts s) (outstanding_pkts s) (highest_seq_recvd s) (next_seq_to_deliver s) (live_seq_num s)
    (live_send_time s) (deliver_time s) t (nack_time s) (stat s) (recvd_pkt s) (delivered s) (net_ s) (clocks s).
Definition set_nack_time (t : timeval) s : client A :=
  mk_client (latency_buffer s) (buf_size s) (missing_pkts s) (outstanding_pkts s) (highest_seq_recvd s) (next_seq_to_deliver s) (live_seq_num s)
    (live_send_time s) (deliver_time s) (stat_time s) t (stat s) (recvd_pkt s) (delivered s) (net_ s) (clocks s).
Definition set_stat (x : stats) s : client A :=
  mk_client (latency_buffer s) (buf_size s) (missing_pkts s) (outstanding_pkts s) (highest_seq_recvd s) (next_seq_to_deliver s) (live_seq_num s)
    (live_send_time s) (deliver_time s) (stat_time s) (nack_time s) x (recvd_pkt s) (delivered s) (net_ s) (clocks s).
Definition set_recvd (b : list Z) s : client A :=
  mk_client (latency_buffer s) (buf_size s) (missing_pkts s) (outstanding_pkts s) (highest_seq_recvd s) (next_seq_to_deliver s) (live_seq_num s)
    (live_send_time s) (deliver_time s) (stat_time s) (nack_time s) (stat s) b (delivered s) (net_ s) (clocks s).
Definition set_delivered (l : list (list Z)) s : client A :=
  mk_client (latency_buffer s) (buf_size s) (missing_pkts s) (outstanding_pkts s) (highest_seq_recvd s) (next_seq_to_deliver s) (live_seq_num s)
    (live_send_time s) (deliver_time s) (stat_time s) (nack_time s) (stat s) (recvd_pkt s) l (net_ s) (clocks s).
Definition set_net (n : net A) s : client A :=
  mk_client (latency_buffer s) (buf_size s) (missing_pkts s) (outstanding_pkts s) (highest_seq_recvd s) (next_seq_to_deliver s) (live_seq_num s)
    (live_send_time s) (deliver_time s) (stat_time s) (nack_time s) (stat s) (recvd_pkt s) (delivered s) n (clocks s).
Definition tick s : client A :=
  mk_client (latency_buffer s) (buf_size s) (missing_pkts s) (outstanding_pkts s) (highest_seq_recvd s) (next_seq_to_deliver s) (live_seq_num s)
    (live_send_time s) (deliver_time s) (stat_time s) (nack_time s) (stat s) (recvd_pkt s) (delivered s) (net_ s) (S (clocks s)).
End state.

Definition with_clean (b p : Z) (x : stats) : stats :=
  mk_stats b p (stream_start_time x) (num_pkts_delivered x) (max_delay x) (min_delay x) (delay_sum x).
Definition with_start (t d : timeval) (x : stats) : stats :=
  mk_stats (clean_bytes_rcvd x) (clean_pkts_rcvd x) t (num_pkts_delivered x) d d (delay_sum x).
Definition with_delivered (n : Z) (x : stats) : stats :=
  mk_stats (clean_bytes_rcvd x) (clean_pkts_rcvd x) (stream_start_time x) n (max_delay x) (min_delay x) (delay_sum x).
(** The statistics of the delays with one more. *)
Definition with_delay (d : timeval) (x : stats) : stats :=
  mk_stats (clean_bytes_rcvd x) (clean_pkts_rcvd x) (stream_start_time x) (num_pkts_delivered x)
    (if Cmp_time (max_delay x) d <? 0 then d else max_delay x) (if Cmp_time (min_delay x) d >? 0 then d else min_delay x)
    (timeradd (delay_sum x) d).

(** ** Operations *)

Section ops.
Context {A : Type}.
Abbreviation st := (client A).
(** The server; the clock and [rand]; the measured times and the latency window. *)
Context (servaddr : A) (clock : nat → timeval) (rand : nat → Z).

Definition gettimeofday : prog st timeval := λ s, Ret (clock (clocks s)) (tick s).
Definition send_control (p : rpkt) : prog st unit :=
  _ ← zoom net_ set_net (sendto_dbg rand (rpkt_bytes p) (sizeof_rpkt - MAX_MESS_LEN) servaddr); mret tt.

Section transmission.
Context (rtt base_delta latency_window : timeval).

(** When a packet is due. *)
Definition due (p : rpkt) : timeval := timeradd (timeradd (r_sec p, r_usec p) latency_window) base_delta.
(** 1.25 times [rtt]: exact in [double], and then cut to an [int]. *)
Definition nack_interval : option timeval :=
  let x := timeval_to_usec rtt * 5 / 4 in if x <? 2147483648 then Some (usec_to_timeval x) else None.

(** The timeout of [select]: the time to the first event. *)
Definition timeout (now : timeval) (s : st) : option timeval :=
  Min_Time [
    Some (timersub (live_send_time s) now);
    if buf_size s >? 0 then Some (timersub (deliver_time s) now) else None;
    if highest_seq_recvd s >? 0 then Some (timersub (stat_time s) now) else None;
    if outstanding_pkts s >? 0 then Some (timersub (nack_time s) now) else None].

(** The first data packet. *)
Definition start_statistics (p : rpkt) : prog st unit :=
  now ← gettimeofday;
  s ← get;
  modify (set_stat (with_start now (timersub now (r_sec p, r_usec p)) (stat s)));;
  modify (set_stat_time (timeradd now Stat_Interval)).
(** The packet that was expected. *)
Definition count_clean (p : rpkt) (bytes : Z) : prog st unit :=
  s ← get;
  b ← lift (int_add (clean_bytes_rcvd (stat s)) bytes);
  n ← lift (int_incr (clean_pkts_rcvd (stat s)));
  modify (set_stat (with_clean b n (stat s)));;
  now ← gettimeofday;
  s ← get;
  modify (set_stat (with_delay (timersub now (r_sec p, r_usec p)) (stat s))).

Definition nack (now : timeval) (q : Z) : rpkt := control false false true now (u32 q).
(** One number of a gap. *)
Definition request (i : Z) : prog st unit :=
  s ← get;
  h ← lift (int_incr (highest_seq_recvd s)); q ← lift (int_add h i);
  if q <=? next_seq_to_deliver s then mret tt
  else
    (if outstanding_pkts s =? 0 then
       interval ← lift nack_interval;
       now ← gettimeofday;
       modify (set_nack_time (timeradd now interval))
     else mret tt);;
    s ← get;
    n ← lift (int_incr (outstanding_pkts s));
    modify (set_missing (missing_pkts s ++ [q]) n);;
    now ← gettimeofday;
    send_control (nack now q).
Definition request_gap (q : Z) : prog st unit :=
  s ← get;
  let gap_size := i32 (u32 (q - highest_seq_recvd s)) in
  for_each (seqZ 0 (gap_size - 1)) request.

(** The first entry of a number goes. *)
Fixpoint remove_first (q : Z) (l : list Z) : option (list Z) :=
  match l with
  | [] => None
  | x :: l' => if u32 x =? q then Some l' else cons x <$> remove_first q l'
  end.
Definition found (q : Z) : prog st unit :=
  s ← get;
  match remove_first q (missing_pkts s) with
  | Some l => n ← lift (int_add (outstanding_pkts s) (-1)); modify (set_missing l n)
  | None => mret tt
  end.
(** Where a packet belongs: [insert_target], [target_found] and [is_dup]. *)
Record place := mk_place { insert_target : option nat; target_found : bool; is_dup : bool }.
Fixpoint find_place (q : Z) (l : list item) (i : nat) (target : option nat) : place :=
  match l with
  | [] => mk_place target false false
  | x :: l' =>
      if r_seq (i_pkt x) <? q then find_place q l' (S i) (Some i)
      else if r_seq (i_pkt x) =? q then mk_place target false true
      else mk_place target true false
  end.
(** [TAILQ_INSERT_AFTER] *)
Definition insert_after (l : list item) (target : option nat) (x : item) : option (list item) :=
  i ← target; Some (take (S i) l ++ x :: drop (S i) l).

(** A data packet: comparisons with it are [unsigned]. *)
Definition handle_data (p : rpkt) (bytes : Z) : prog st unit :=
  s ← get;
  (if highest_seq_recvd s =? 0 then start_statistics p else mret tt);;
  (if buf_size s =? 0 then modify (set_next (i32 (r_seq p)) (due p)) else mret tt);;
  s ← get;
  h ← lift (int_incr (highest_seq_recvd s));
  where_ ←
    (if r_seq p =? u32 h then count_clean p bytes;; mret (mk_place None false false)
     else if r_seq p >? u32 h then request_gap (r_seq p);; mret (mk_place None false false)
     else if (r_seq p >? u32 (next_seq_to_deliver s)) && (r_seq p <? u32 (highest_seq_recvd s))
     then found (r_seq p);; s ← get; mret (find_place (r_seq p) (latency_buffer s) 0 None)
     else mret (mk_place None false false));
  s ← get;
  (if r_seq p >=? u32 (highest_seq_recvd s) then modify (set_highest (i32 (r_seq p))) else mret tt);;
  now ← gettimeofday;
  s ← get;
  let next_item := mk_item p now in
  if target_found where_ then
    b ← lift (insert_after (latency_buffer s) (insert_target where_) next_item);
    n ← lift (int_incr (buf_size s));
    modify (set_buffer b n)
  else if negb (is_dup where_) && (r_seq p >=? u32 (next_seq_to_deliver s)) then
    n ← lift (int_incr (buf_size s));
    modify (set_buffer (latency_buffer s ++ [next_item]) n)
  else mret tt.

Definition handle_packet (dgram : list Z) : prog st unit :=
  s ← get;
  modify (set_recvd (recv_into sizeof_rpkt (recvd_pkt s) dgram));;
  p ← reads (λ s, read_rpkt (recvd_pkt s));
  if r_live p then mret tt
  else if r_init p || r_nack p then mret tt
  else handle_data p (Z.of_nat (length dgram) `min` sizeof_rpkt).

(** The events below return [now], which they read again. *)
Definition send_live (now : timeval) : prog st timeval :=
  s ← get;
  if Cmp_time now (live_send_time s) >=? 0 then
    now ← gettimeofday;
    n ← lift (int_incr (live_seq_num s));
    send_control (control false true false now (u32 (live_seq_num s)));;
    modify (set_live n (timeradd now Live_Interval));;
    mret now
  else mret now.

(** How many numbers at the front are not wanted any more. *)
Fixpoint count_old (next : Z) (l : list Z) : nat :=
  match l with
  | x :: l' => if x <=? next then S (count_old next l') else 0
  | [] => 0
  end.
Definition skip_old : prog st unit :=
  s ← get;
  if outstanding_pkts s >? 0 then
    for_each (List.seq 0 (count_old (next_seq_to_deliver s) (missing_pkts s))) (λ _,
      s ← get;
      l ← lift (match missing_pkts s with _ :: l => Some l | [] => None end);
      n ← lift (int_add (outstanding_pkts s) (-1));
      modify (set_missing l n))
  else mret tt.
(** The payload goes to the application with [sendto]. *)
Definition deliver : prog st unit :=
  s ← get;
  match latency_buffer s with
  | [] => undef
  | x :: rest =>
      m ← lift (if r_size (i_pkt x) <=? MAX_MESS_LEN then Some (take (Z.to_nat (r_size (i_pkt x))) (r_payload (i_pkt x))) else None);
      modify (set_delivered (delivered s ++ [m]));;
      d ← lift (int_incr (num_pkts_delivered (stat s)));
      modify (set_stat (with_delivered d (stat s)));;
      n ← lift (int_add (buf_size s) (-1));
      modify (set_buffer rest n);;
      (if n >? 0 then
         y ← lift (head rest);
         modify (set_next (i32 (r_seq (i_pkt y))) (due (i_pkt y)))
       else mret tt);;
      skip_old
  end.

(** [clean_bytes_rcvd * 8] and the number of lost packets are [int]s, and
    whole seconds are divided by. *)
Definition report : prog st timeval :=
  now ← gettimeofday;
  modify (set_stat_time (timeradd now Stat_Interval));;
  s ← get;
  let stream_time := (now.1 - (stream_start_time (stat s)).1) * 1000000 + (now.2 - (stream_start_time (stat s)).2) in
  _ ← lift (int_add (clean_bytes_rcvd (stat s) * 8) 0);
  _ ← lift (if Z.quot stream_time 1000000 =? 0 then None else Some tt);
  lost ← lift (int_add (highest_seq_recvd s) (- num_pkts_delivered (stat s)));
  lost ← lift (int_add lost (- buf_size s));
  _ ← lift (int_incr lost);
  mret now.

Definition resend_nacks : prog st unit :=
  interval ← lift nack_interval;
  now ← gettimeofday;
  modify (set_nack_time (timeradd now interval));;
  s ← get;
  for_each (missing_pkts s) (λ q, send_control (nack now q)).

(** An iteration of the loop. *)
Definition turn (select : option timeval → option (list Z)) : prog st unit :=
  now ← gettimeofday;
  s0 ← get;
  (match select (timeout now s0) with Some dgram => handle_packet dgram | None => mret tt end);;
  now ← gettimeofday;
  now ← send_live now;
  s ← get;
  (if (buf_size s0 >? 0) && (Cmp_time now (deliver_time s) >=? 0) then deliver else mret tt);;
  s ← get;
  now ← (if (highest_seq_recvd s0 >? 0) && (Cmp_time now (stat_time s) >? 0) then report else mret now);
  s ← get;
  if (outstanding_pkts s0 >? 0) && (Cmp_time now (nack_time s) >? 0) then resend_nacks else mret tt.

(** What precedes it: static variables are reset, the others keep what they
    hold. *)
Definition transmission_start : prog st unit :=
  s ← get;
  modify (set_buffer [] 0);; modify (set_missing [] 0);; modify (set_highest 0);; modify (set_next 0 (deliver_time s));;
  modify (set_stat (mk_stats 0 0 (stream_start_time (stat s)) 0 (max_delay (stat s)) (min_delay (stat s)) (0, 0)));;
  now ← gettimeofday;
  modify (set_live 0 (timeradd now Live_Interval)).
Definition transmission_protocol (app_info : bool) (selects : list (option timeval → option (list Z))) : prog st unit :=
  if app_info then transmission_start;; for_each selects turn else exit_with 1.
End transmission.

(** ** The request for a stream *)

(** What [select] reports: a datagram, or that the time is over.  [sent] is when
    the last request went, [None] before there is one: then [now] is not set. *)
Fixpoint initialization_loop (q : Z) (sent : option timeval) (recvd : list Z) (evs : list (option (list Z))) : prog st (option (option (timeval * timeval))) :=
  match evs with
  | [] => mret None
  | Some dgram :: evs' =>
      let recvd := recv_into sizeof_rpkt recvd dgram in
      p ← lift (read_rpkt recvd);
      if r_init p && (r_seq p =? u32 (q - 1)) then
        recv_time ← gettimeofday;
        now ← lift sent;
        mret (Some (Some (timersub recv_time now, timersub recv_time (r_sec p, r_usec p))))
      else if r_nack p then mret (Some None)
      else initialization_loop q sent recvd evs'
  | None :: evs' =>
      now ← gettimeofday;
      n ← lift (int_incr q);
      send_control (control true false false now (u32 q));;
      initialization_loop n (Some now) recvd evs'
  end.
(** [None] when the events end first, [Some None] when the server is busy,
    otherwise [rtt] and [base_delta]. *)
Definition initialization_sequence (junk : list Z) (evs : list (option (list Z))) : prog st (option (option (timeval * timeval))) :=
  initialization_loop 0 None junk evs.
End ops.

(** ** [main] *)

Section main.
Context {A : Type}.
Abbreviation st := (client A).
Context (clock : nat → timeval) (rand : nat → Z) (junk : list Z).
(** The addresses of a name and a port, each with whether [socket] succeeds. *)
Context (getaddrinfo : list Z → list Z → option (list (A * bool))).

Record options := mk_options { o_rate : Z; o_server : list Z; o_port : list Z; o_app_port : list Z; o_window : timeval }.
Definition Usage (argv : list (list Z)) : prog st options :=
  match argv with
  | [_; rate; server; app_port; window] =>
      let loss_rate := atoi rate in
      if (loss_rate <? 0) || (loss_rate >? 100) then exit_with 0
      else
        match split_last 58 server with
        | None => exit_with 0
        | Some (host, port) =>
            let latency_window_ms := atoi window in
            if latency_window_ms >? 1000 then exit_with 0
            else mret (mk_options loss_rate (strip_brackets host) port app_port (ms_to_timeval latency_window_ms))
        end
  | _ => exit_with 0
  end.
Fixpoint open_socket (addrs : list (A * bool)) : prog st A :=
  match addrs with
  | [] => exit_with 1
  | (a, ok) :: addrs' => if ok : bool then mret a else open_socket addrs'
  end.
(** [127.0.0.1] *)
Definition LOCALHOST : list Z := [49; 50; 55; 46; 48; 46; 48; 46; 49].
Definition main (argv : list (list Z)) (evs : list (option (list Z))) (selects : list (option timeval → option (list Z))) : prog st unit :=
  o ← Usage argv;
  zoom net_ set_net (sendto_dbg_init (o_rate o));;
  match getaddrinfo (o_server o) (o_port o) with
  | None => exit_with 1
  | Some addrs =>
      servaddr ← open_socket addrs;
      r ← initialization_sequence servaddr clock rand junk evs;
      match r with
      | Some (Some (rtt, base_delta)) =>
          transmission_protocol servaddr clock rand rtt base_delta (o_window o)
            (match getaddrinfo LOCALHOST (o_app_port o) with Some _ => true | None => false end) selects
      | _ => mret tt
      end
  end.
(** Static variables are 0; the junk is what the stack holds. *)
Definition client_init (j : timeval) (n : net A) : client A :=
  mk_client [] 0 [] 0 0 0 0 j j j j (mk_stats 0 0 (0, 0) 0 (0, 0) (0, 0) (0, 0)) junk [] n 0.
End main.
