(* ===== verification/RtRcvSpec.v ===== *)
(** * Correctness of the streaming client

    Against any traffic whose data packets carry the messages of a stream, the
    client stays within its data and hands only those messages on; when no
    packet comes again that waits or was handed on, they are handed on in order,
    and what it asks for again is exactly what it misses. *)
From Stdlib Require Import Sorted.
From stdpp Require Import sorting.
From S2P Require Import Prelude Stdio Bytes Clock Upkt SendtoDbg RtPkt RtRcv.
Open Scope Z_scope.

Section client.
Context {A : Type} (servaddr : A) (clock : nat → timeval) (rand : nat → Z) (rtt base_delta latency_window : timeval).
Implicit Types (s : client A).
Abbreviation turn_ := (turn servaddr clock rand rtt base_delta latency_window).
Abbreviation due_ := (due base_delta latency_window).

(** The clock is a clock that is not set back, and the round trip takes less
    than half an hour. *)
Hypothesis Hclock : ∀ n, time_ok (clock n).
Hypothesis Hmono : ∀ n, usecs (clock n) ≤ usecs (clock (S n)).
Hypothesis Hrtt : timeval_to_usec rtt * 5 / 4 < 2147483648.

(** ** The invariant *)

Definition numbers (l : list item) : list Z := (λ x, r_seq (i_pkt x)) <$> l.
(** The client's own packets: a request for the stream, signs of life and
    requests for packets after the first. *)
Definition asks (d : list Z) : Prop := ∃ p, is_control p d ∧ (r_nack p = true → 0 < r_seq p).
Definition item_ok (msgs : list (list Z)) (h : Z) (x : item) : Prop :=
  ∃ i m, 0 ≤ i ≤ h ∧ msgs !! Z.to_nat i = Some m ∧ carries i m (i_pkt x).
(** [n] is the number of turns so far. *)
Record receives (msgs : list (list Z)) (n : nat) s : Prop := {
  rv_buffer : buf_size s = Z.of_nat (length (latency_buffer s)) ∧ Forall (item_ok msgs (highest_seq_recvd s)) (latency_buffer s);
  rv_head : ∀ x l, latency_buffer s = x :: l → next_seq_to_deliver s = r_seq (i_pkt x) ∧ deliver_time s = due_ (i_pkt x);
  rv_missing : outstanding_pkts s = Z.of_nat (length (missing_pkts s)) ∧ StronglySorted Z.lt (missing_pkts s) ∧
    Forall (λ q, 0 < q < highest_seq_recvd s) (missing_pkts s);
  rv_next : 0 ≤ next_seq_to_deliver s ≤ Z.of_nat (length msgs);
  rv_highest : 0 ≤ highest_seq_recvd s ≤ Z.of_nat (length msgs);
  rv_delivered : Forall (λ m, m ∈ msgs) (delivered s) ∧ num_pkts_delivered (stat s) = Z.of_nat (length (delivered s));
  rv_wire : Forall (λ w, w.1 = servaddr ∧ asks w.2) (wire (net_ s));
  rv_counts : 0 ≤ clean_pkts_rcvd (stat s) ≤ highest_seq_recvd s ∧ 0 ≤ clean_bytes_rcvd (stat s) ≤ 1432 * clean_pkts_rcvd (stat s);
  rv_turns : (length (delivered s) + length (latency_buffer s) ≤ n)%nat ∧ 0 ≤ live_seq_num s ≤ Z.of_nat n;
  rv_time : 0 < highest_seq_recvd s → normal (stat_time s) ∧ normal (stream_start_time (stat s)) ∧
    usecs (stream_start_time (stat s)) + 1000000 ≤ usecs (stat_time s);
  rv_recvd : length (recvd_pkt s) = 1432%nat
}.
(** A stream of fewer packets than the statistics can count, and turns fewer
    than an [int] can. *)
Definition few (msgs : list (list Z)) (n : nat) : Prop := Z.of_nat (length msgs) ≤ 187000 ∧ Z.of_nat n < 2147483647.

(** The variables that only say when, and the network. *)
Definition at_clock (c : nat) s : client A :=
  mk_client (latency_buffer s) (buf_size s) (missing_pkts s) (outstanding_pkts s) (highest_seq_recvd s) (next_seq_to_deliver s) (live_seq_num s)
    (live_send_time s) (deliver_time s) (stat_time s) (nack_time s) (stat s) (recvd_pkt s) (delivered s) (net_ s) c.

Lemma receives_clock msgs n s c : receives msgs n s → receives msgs n (at_clock c s).
Proof using Type. by intros []. Qed.
Lemma receives_nack_time msgs n s t : receives msgs n s → receives msgs n (set_nack_time t s).
Proof using Type. by intros []. Qed.
Lemma receives_net msgs n s x : receives msgs n s → Forall (λ w, w.1 = servaddr ∧ asks w.2) (wire x) → receives msgs n (set_net x s).
Proof using Type. intros [] Hw. by constructor. Qed.
Lemma receives_missing msgs n s l : receives msgs n s → StronglySorted Z.lt l → Forall (λ q, 0 < q < highest_seq_recvd s) l →
  receives msgs n (set_missing l (Z.of_nat (length l)) s).
Proof using Type. intros [] H1 H2. by constructor. Qed.
Lemma receives_more msgs msgs' n s : receives msgs n s → receives (msgs ++ msgs') n s.
Proof using Type.
  intros [[Hn Hb]]. constructor; try done.
  - split; [done|]. eapply Forall_impl; [exact Hb|]. intros x (i & m & Hi & Hm & Hc). exists i, m. split_and!; try done; try lia. by apply lookup_app_l_Some.
  - rewrite length_app. lia.
  - rewrite length_app. lia.
  - split; [|apply rv_delivered0]. eapply Forall_impl; [apply rv_delivered0|]. intros m Hm. apply elem_of_app. by left.
Qed.

(** ** Sending *)

(** What goes on the wire: the datagram, unless it is lost. *)
Definition put (s s' : client A) (p : rpkt) : Prop :=
  cutoff (net_ s') = cutoff (net_ s) ∧
  wire (net_ s') = if (0 <? cutoff (net_ s)) && (Z.land (rand (rand_calls (net_ s))) 255 <=? cutoff (net_ s)) then wire (net_ s)
    else wire (net_ s) ++ [(servaddr, take 32 (rpkt_bytes p))].
Lemma send_control_run p s : length (r_payload p) = 1400%nat →
  ∃ x, send_control servaddr rand p s = Ret tt (set_net x s) ∧ put s (set_net x s) p.
Proof using Type. clear.
  intros Hl. pose proof (length_rpkt p Hl) as Hlp.
  destruct (sendto_dbg_spec rand (rpkt_bytes p) (sizeof_rpkt - MAX_MESS_LEN) servaddr (net_ s)) as (x & E & Hc & _ & Ew).
  { unfold sizeof_rpkt, MAX_MESS_LEN. lia. }
  exists x. split; [unfold send_control; by run (zoom_Ret net_ set_net _ s _ _ E)|done].
Qed.
Lemma put_asks msgs n s s' p : receives msgs n s → put s s' p → asks (take 32 (rpkt_bytes p)) → Forall (λ w, w.1 = servaddr ∧ asks w.2) (wire (net_ s')).
Proof using Type. clear.
  intros V [_ ->] Hp. case_match; [apply V|]. apply Forall_app_2; [apply V|]. by constructor.
Qed.
Lemma control_asks k i l n q : i || l || n = true → (n = true → 0 < u32 q) → asks (take 32 (rpkt_bytes (control i l n (clock k) (u32 q)))).
Proof using Hclock. clear -Hclock.
  intros Hf Hq. exists (control i l n (clock k) (u32 q)). split; [|exact Hq]. split; [apply control_ok; [apply Hclock|apply u32_range]|done].
Qed.
Lemma asks_nack k q : 0 < q < 4294967296 → asks (take 32 (rpkt_bytes (nack (clock k) q))).
Proof using Hclock. intros Hq. apply control_asks; [done|]. intros _. rewrite u32_small; lia. Qed.

(** ** Gaps *)

(** Requests for [asked], as they go on the wire when nothing is lost. *)
Definition nacks (asked : list Z) (ws : list (A * list Z)) : Prop :=
  Forall2 (λ q w, ∃ k, w = (servaddr, take 32 (rpkt_bytes (nack (clock k) q)))) asked ws.
Definition requested (asked : list Z) s s' : Prop :=
  cutoff (net_ s') = cutoff (net_ s) ∧ (cutoff (net_ s) ≤ 0 → ∃ ws, wire (net_ s') = wire (net_ s) ++ ws ∧ nacks asked ws).
Lemma requested_refl s : requested [] s s.
Proof using Type. clear. split; [done|]. intros _. exists []. split; [by rewrite app_nil_r|constructor]. Qed.
Lemma requested_trans l1 l2 s1 s2 s3 : requested l1 s1 s2 → requested l2 s2 s3 → requested (l1 ++ l2) s1 s3.
Proof using Type. clear.
  intros [E1 H1] [E2 H2]. split; [congruence|]. intros Hc. destruct (H1 Hc) as (w1 & Ew1 & Hn1), H2 as (w2 & Ew2 & Hn2); [lia|].
  exists (w1 ++ w2). split; [by rewrite Ew2, Ew1, app_assoc|]. by apply Forall2_app.
Qed.
Lemma put_requested k q s s' : put s s' (nack (clock k) q) → requested [q] s s'.
Proof using Type. clear.
  intros [Hc Hw]. split; [done|]. intros H0. rewrite (proj2 (Z.ltb_ge 0 _)) in Hw by done. cbn [andb] in Hw.
  eexists. split; [exact Hw|]. constructor; [by exists k|constructor].
Qed.

(** What a step of the loop over a gap may change. *)
Definition asked_state (t : timeval) (l : list Z) (x : net A) (c : nat) s : client A :=
  set_nack_time t (set_missing l (Z.of_nat (length l)) (set_net x (at_clock c s))).
Lemma receives_asked msgs n s l t x c : receives msgs n s → StronglySorted Z.lt l → Forall (λ q, 0 < q < highest_seq_recvd s) l →
  Forall (λ w, w.1 = servaddr ∧ asks w.2) (wire x) → receives msgs n (asked_state t l x c s).
Proof using Type. clear.
  intros V H1 H2 Hw. apply receives_nack_time, receives_missing; [|done|done]. apply receives_net; [|done]. by apply receives_clock.
Qed.

Lemma request_run i s : let q := highest_seq_recvd s + 1 + i in
  0 ≤ highest_seq_recvd s → 0 ≤ i → 0 < q < 2147483647 → 0 ≤ next_seq_to_deliver s → Z.of_nat (length (missing_pkts s)) < 2147483647 →
  outstanding_pkts s = Z.of_nat (length (missing_pkts s)) → Forall (λ w, w.1 = servaddr ∧ asks w.2) (wire (net_ s)) →
  let new := if q <=? next_seq_to_deliver s then [] else [q] in
  ∃ t x c, request servaddr clock rand rtt i s = Ret tt (asked_state t (missing_pkts s ++ new) x c s) ∧
    requested new s (asked_state t (missing_pkts s ++ new) x c s) ∧ Forall (λ w, w.1 = servaddr ∧ asks w.2) (wire x).
Proof using Hclock Hrtt. clear -Hclock Hrtt.
  intros q Hh Hi Hq Hn Hlen Ho Hw new. unfold request. run (eq_refl (get s)).
  run (lift_Some _ _ s (int_incr_ok (highest_seq_recvd s) ltac:(lia))).
  run (lift_Some _ _ s (int_add_ok (highest_seq_recvd s + 1) i ltac:(lia))). fold q. unfold new.
  destruct (Z.leb_spec q (next_seq_to_deliver s)) as [Hle|Hgt].
  { exists (nack_time s), (net_ s), (clocks s). rewrite app_nil_r.
    assert (asked_state (nack_time s) (missing_pkts s) (net_ s) (clocks s) s = s) as -> by (destruct s; cbn in *; by rewrite Ho).
    split_and!; [done|apply requested_refl|done]. }
  set (timer := if outstanding_pkts s =? 0 then _ else _).
  assert (∃ t c, timer s = Ret tt (set_nack_time t (at_clock c s))) as (t & c & Et).
  { unfold timer. destruct (outstanding_pkts s =? 0); [|exists (nack_time s), (clocks s); by destruct s].
    assert (nack_interval rtt = Some (usec_to_timeval (timeval_to_usec rtt * 5 / 4))) as Ei by (unfold nack_interval; by rewrite (proj2 (Z.ltb_lt _ _) Hrtt)).
    run (lift_Some _ _ s Ei). erewrite bind_Ret by reflexivity. by eexists _, _. }
  run Et. clear timer Et. set (s1 := set_nack_time t (at_clock c s)). run (eq_refl (get s1)).
  assert (int_incr (outstanding_pkts s1) = Some (outstanding_pkts s + 1)) as Einc by (apply int_incr_ok; rewrite <-Ho in Hlen; exact Hlen).
  run (lift_Some _ _ s1 Einc). do 2 erewrite bind_Ret by reflexivity.
  set (s2 := tick _). destruct (send_control_run (nack (clock (clocks (set_missing (missing_pkts s1 ++ [q]) (outstanding_pkts s + 1) s1))) q) s2) as (x & E & Hp); [done|].
  exists t, x, (S c).
  assert (asked_state t (missing_pkts s ++ [q]) x (S c) s = set_net x s2) as ->.
  { unfold asked_state. rewrite length_app. cbn [length]. by replace (Z.of_nat (length (missing_pkts s) + 1)) with (outstanding_pkts s + 1) by lia. }
  split_and!; [exact E| |].
  - apply put_requested in Hp. exact Hp.
  - destruct Hp as [_ Hx]. cbn [net_ set_net] in Hx. change (net_ s2) with (net_ s) in Hx.
    rewrite Hx. case_match; [done|]. apply Forall_app_2; [done|]. constructor; [|done]. split; [done|]. apply asks_nack. lia.
Qed.

(** The numbers that follow [h + j] and are asked for. *)
Definition wanted (next h j : Z) (k : nat) : list Z := filter (λ q, next < q) (seqZ (h + 1 + j) (Z.of_nat k)).
Lemma wanted_S next h j k : wanted next h j (S k) = (if h + 1 + j <=? next then [] else [h + 1 + j]) ++ wanted next h (j + 1) k.
Proof using Type. clear.
  unfold wanted. rewrite seqZ_cons by lia. replace (Z.pred (Z.of_nat (S k))) with (Z.of_nat k) by lia.
  replace (Z.succ (h + 1 + j)) with (h + 1 + (j + 1)) by lia. destruct (Z.leb_spec (h + 1 + j) next).
  - by rewrite filter_cons_False by lia.
  - by rewrite filter_cons_True by lia.
Qed.
Lemma requests_run k : ∀ j s, 0 ≤ highest_seq_recvd s → 0 ≤ j → highest_seq_recvd s + 1 + j + Z.of_nat k < 2147483647 → 0 ≤ next_seq_to_deliver s →
  Z.of_nat (length (missing_pkts s)) + Z.of_nat k < 2147483647 →
  outstanding_pkts s = Z.of_nat (length (missing_pkts s)) → Forall (λ w, w.1 = servaddr ∧ asks w.2) (wire (net_ s)) →
  let l := missing_pkts s ++ wanted (next_seq_to_deliver s) (highest_seq_recvd s) j k in
  ∃ t x c, for_each (seqZ j (Z.of_nat k)) (request servaddr clock rand rtt) s = Ret tt (asked_state t l x c s) ∧
    requested (wanted (next_seq_to_deliver s) (highest_seq_recvd s) j k) s (asked_state t l x c s) ∧
    Forall (λ w, w.1 = servaddr ∧ asks w.2) (wire x).
Proof using Hclock Hrtt. clear -Hclock Hrtt.
  induction k as [|k IH]; intros j s Hh Hj Hq Hn Hlen Ho Hw l.
  - exists (nack_time s), (net_ s), (clocks s). unfold l, wanted. cbn. rewrite app_nil_r.
    assert (asked_state (nack_time s) (missing_pkts s) (net_ s) (clocks s) s = s) as -> by (destruct s; cbn in *; by rewrite Ho).
    split_and!; [done|apply requested_refl|done].
  - unfold l. rewrite seqZ_cons by lia. replace (Z.pred (Z.of_nat (S k))) with (Z.of_nat k) by lia. replace (Z.succ j) with (j + 1) by lia.
    destruct (request_run j s) as (t1 & x1 & c1 & E1 & R1 & W1); [lia..|done|done|]. cbn [for_each]. run E1.
    set (new := if _ <=? _ then _ else _) in *. set (s1 := asked_state t1 _ x1 c1 s) in *.
    assert (length new ≤ 1)%nat by (unfold new; case_match; cbn; lia).
    destruct (IH (j + 1) s1) as (t & x & c & E & R & W); [done|lia|cbn; lia|done|cbn; rewrite length_app; lia|done|done|].
    exists t, x, c. rewrite wanted_S, app_assoc. split; [exact E|]. split; [|exact W]. exact (requested_trans _ _ _ _ _ R1 R).
Qed.
Lemma wanted_props next h k : StronglySorted Z.lt (wanted next h 0 k) ∧ Forall (λ q, h < q ≤ h + Z.of_nat k ∧ next < q) (wanted next h 0 k).
Proof using Type. clear.
  unfold wanted. split; [|apply Forall_forall; intros q [? ?%elem_of_seqZ]%list_elem_of_filter; lia].
  replace (h + 1 + 0) with (h + 1) by lia. generalize (h + 1). induction k as [|k IH]; intros z; [constructor|].
  rewrite seqZ_cons by lia. replace (Z.pred (Z.of_nat (S k))) with (Z.of_nat k) by lia. rewrite filter_cons. case_decide; [|apply IH].
  constructor; [apply IH|]. apply Forall_forall. intros q [_ ?%elem_of_seqZ]%list_elem_of_filter. lia.
Qed.

(** ** A data packet *)

Lemma remove_first_run q l : StronglySorted Z.lt l → Forall (λ x, 0 ≤ x < 4294967296) l →
  remove_first q l = if bool_decide (q ∈ l) then Some (filter (λ x, x ≠ q) l) else None.
Proof using Type. clear.
  intros Hs Hf. induction l as [|x l IH]; [done|]. apply StronglySorted_cons in Hs as [Hx Hs]. apply Forall_cons in Hf as [Hr Hf].
  cbn [remove_first]. rewrite u32_small, filter_cons by done. destruct (Z.eqb_spec x q) as [->|Hne].
  - rewrite bool_decide_true by left. rewrite decide_False by naive_solver. f_equal. symmetry.
    clear -Hx. induction l as [|y l IH]; [done|]. apply Forall_cons in Hx as [Hy Hx]. rewrite filter_cons_True by lia. f_equal. by apply IH.
  - rewrite IH, decide_True by done. destruct (decide (q ∈ l)) as [Hin|Hin].
    + by rewrite !bool_decide_true by (by try right).
    + rewrite !bool_decide_false; [done| |done]. intros [?|?]%elem_of_cons; congruence.
Qed.
Lemma filter_absent q (l : list Z) : q ∉ l → filter (λ x, x ≠ q) l = l.
Proof using Type. clear.
  induction l as [|x l IH]; [done|]. intros Hq. apply not_elem_of_cons in Hq as [Hx Hq]. rewrite filter_cons_True by done. f_equal. by apply IH.
Qed.
Lemma found_run q s : StronglySorted Z.lt (missing_pkts s) → Forall (λ x, 0 < x < highest_seq_recvd s) (missing_pkts s) →
  highest_seq_recvd s < 2147483648 → outstanding_pkts s = Z.of_nat (length (missing_pkts s)) → outstanding_pkts s < 2147483648 →
  let l := filter (λ x, x ≠ q) (missing_pkts s) in found q s = Ret tt (set_missing l (Z.of_nat (length l)) s).
Proof using Type. clear.
  intros Hs Hf Hh Ho Hb l. unfold found. run (eq_refl (get s)). rewrite remove_first_run; [|done|eapply Forall_impl; [exact Hf|]; cbn; lia].
  case_bool_decide as Hin; cycle 1.
  - unfold l. rewrite filter_absent, <-Ho by done. by destruct s.
  - assert (length (missing_pkts s) = S (length l)) as Hl.
    { unfold l. clear -Hs Hin. induction (missing_pkts s) as [|x k IH]; [by apply not_elem_of_nil in Hin|].
      apply StronglySorted_cons in Hs as [Hx Hs]. rewrite filter_cons. case_decide as Hne.
      - cbn. f_equal. apply IH; [done|]. apply elem_of_cons in Hin as [?|?]; [congruence|done].
      - cbn. f_equal. rewrite filter_absent; [done|]. intros Hq. rewrite Forall_forall in Hx. specialize (Hx q Hq). assert (x = q) by lia. lia. }
    run (lift_Some _ _ s (int_add_ok (outstanding_pkts s) (-1) ltac:(lia))). fold l. by replace (outstanding_pkts s + -1) with (Z.of_nat (length l)) by lia.
Qed.

(** Where a packet goes: before the first that is later, unless it is there. *)
Lemma find_place_spec q l : ∀ i t, ∃ pre suf, l = pre ++ suf ∧ Forall (λ x, r_seq (i_pkt x) < q) pre ∧
  insert_target (find_place q l i t) = (if decide (pre = []) then t else Some (i + length pre - 1)%nat) ∧
  match suf with
  | [] => target_found (find_place q l i t) = false ∧ is_dup (find_place q l i t) = false
  | y :: _ => r_seq (i_pkt y) = q ∧ target_found (find_place q l i t) = false ∧ is_dup (find_place q l i t) = true ∨
      q < r_seq (i_pkt y) ∧ target_found (find_place q l i t) = true
  end.
Proof using Type. clear.
  induction l as [|x l IH]; intros i t.
  - exists [], []. by split_and!.
  - cbn [find_place]. destruct (Z.ltb_spec (r_seq (i_pkt x)) q) as [Hlt|Hge].
    + destruct (IH (S i) (Some i)) as (pre & suf & -> & Hp & Ht & Hs). exists (x :: pre), suf. split_and!; [done|by constructor| |done].
      rewrite Ht, (decide_False (P := x :: pre = [])) by done. case_decide; [subst pre; cbn|cbn]; f_equal; try lia.
    + destruct (Z.eqb_spec (r_seq (i_pkt x)) q); exists [], (x :: l); split_and!; try done; [left|right]; split_and!; try done; lia.
Qed.

(** A list of different numbers below [h] is not longer than [h]. *)
Lemma sorted_length l h : ∀ a, StronglySorted Z.lt l → Forall (λ q, a < q < h) l → l = [] ∨ Z.of_nat (length l) ≤ h - a - 1.
Proof using Type. clear.
  induction l as [|x l IH]; intros a Hs Hf; [by left|right]. apply StronglySorted_cons in Hs as [Hx Hs]. apply Forall_cons in Hf as [Ha Hf].
  destruct (IH x Hs) as [->|Hl]; [|cbn; lia|cbn; lia]. apply Forall_forall. intros y Hy. rewrite Forall_forall in Hx, Hf. specialize (Hx y Hy). specialize (Hf y Hy). cbn in *. lia.
Qed.
Lemma missing_length msgs n s : receives msgs n s → Z.of_nat (length (missing_pkts s)) ≤ highest_seq_recvd s.
Proof using Type. clear.
  intros V. destruct (rv_missing _ _ _ V) as (_ & Hs & Hf). pose proof (rv_highest _ _ _ V).
  destruct (sorted_length _ _ 0 Hs Hf) as [->|Hl]; cbn; lia.
Qed.

(** The statistics, as far as the rest depends on them. *)
Definition same_stats (x y : stats) : Prop :=
  stream_start_time y = stream_start_time x ∧ num_pkts_delivered y = num_pkts_delivered x ∧
  clean_pkts_rcvd x ≤ clean_pkts_rcvd y ≤ clean_pkts_rcvd x + 1 ∧
  clean_bytes_rcvd x ≤ clean_bytes_rcvd y ≤ clean_bytes_rcvd x + 1432 * (clean_pkts_rcvd y - clean_pkts_rcvd x).
Definition nowhere : place := mk_place None false false.
(** The three cases of a data packet. *)
Definition sort_in (p : rpkt) (bytes : Z) (h : Z) (s : client A) : prog (client A) place :=
  if r_seq p =? u32 h then count_clean clock p bytes;; mret nowhere
  else if r_seq p >? u32 h then request_gap servaddr clock rand rtt (r_seq p);; mret nowhere
  else if (r_seq p >? u32 (next_seq_to_deliver s)) && (r_seq p <? u32 (highest_seq_recvd s))
  then found (r_seq p);; s ← get; mret (find_place (r_seq p) (latency_buffer s) 0 None)
  else mret nowhere.
Definition within (next h q : Z) : bool := (next <? q) && (q <? h).
Definition still_missing (next h q : Z) (l : list Z) : list Z := if within next h q then filter (λ x, x ≠ q) l else l.

Lemma sort_in_run msgs n s p bytes q : receives msgs n s → few msgs n → r_seq p = q → 0 ≤ q < Z.of_nat (length msgs) → 0 ≤ bytes ≤ 1432 →
  let h := highest_seq_recvd s in let next := next_seq_to_deliver s in
  let asked := wanted next h 0 (Z.to_nat (q - h - 1)) in
  let l := still_missing next h q (missing_pkts s) ++ asked in
  ∃ t x c y, sort_in p bytes (h + 1) s s =
      Ret (if within next h q then find_place q (latency_buffer s) 0 None else nowhere) (set_stat y (asked_state t l x c s)) ∧
    requested asked s (asked_state t l x c s) ∧ Forall (λ w, w.1 = servaddr ∧ asks w.2) (wire x) ∧
    same_stats (stat s) y ∧ (clean_pkts_rcvd y ≤ Z.max h q).
Proof using Hclock Hrtt. clear -Hclock Hrtt.
  intros V [Hfew _] Hq Hql Hb h next asked l. unfold sort_in. rewrite Hq.
  pose proof (rv_next _ _ _ V) as Hn. fold next in Hn. destruct (rv_counts _ _ _ V) as [Hcp Hcb]. fold h in Hcp.
  assert (0 ≤ h ≤ 187000) as Hh by (unfold h; pose proof (rv_highest _ _ _ V); lia).
  pose proof (missing_length _ _ _ V) as Hml. fold h in Hml. destruct (rv_missing _ _ _ V) as (Ho & Hs & Hf).
  assert (∀ c, asked_state (nack_time s) (missing_pkts s) (net_ s) c s = at_clock c s) as Hid by (intros c; destruct s; cbn in *; by rewrite Ho).
  assert (same_stats (stat s) (stat s)) as Hst by (split_and!; try done; lia).
  unfold l, asked, still_missing, within. rewrite !u32_small, Z.gtb_ltb by lia.
  destruct (Z.eqb_spec q (h + 1)) as [->|Hne].
  - rewrite (proj2 (Z.ltb_ge (h + 1) h)), andb_false_r by lia. replace (Z.to_nat (h + 1 - h - 1)) with 0%nat by lia. cbn [wanted seqZ].
    assert (wanted next h 0 0 = []) as -> by done. rewrite app_nil_r.
    unfold count_clean.
    eexists (nack_time s), (net_ s), (S (clocks s)), _. rewrite Hid. split; [|split; [|split; [apply V|]]].
    + unfold mbind at 1, prog_bind at 1. run (eq_refl (get s)).
      run (lift_Some _ _ s (int_add_ok (clean_bytes_rcvd (stat s)) bytes ltac:(lia))).
      run (lift_Some _ _ s (int_incr_ok (clean_pkts_rcvd (stat s)) ltac:(lia))). reflexivity.
    + exact (requested_refl s).
    + split; [split_and!; try done; cbn; lia|cbn; lia].
  - destruct (Z.ltb_spec (h + 1) q) as [Hgt|Hle].
    + rewrite (proj2 (Z.ltb_ge q h)), andb_false_r by lia. unfold request_gap.
      assert (i32 (u32 (q - h)) = q - h) as Hi by (rewrite u32_small by lia; apply i32_small; lia).
      destruct (requests_run (Z.to_nat (q - h - 1)) 0 s) as (t & x & c & E & R & W); fold h next; [lia..|apply V|].
      fold h next in E, R. rewrite Z2Nat.id in E by lia. exists t, x, c, (stat s). split; [|split; [exact R|split; [exact W|split; [exact Hst|lia]]]].
      unfold mbind at 1, prog_bind at 1. run (eq_refl (get s)). fold h. rewrite Hi, E. done.
    + replace (Z.to_nat (q - h - 1)) with 0%nat by lia. assert (wanted next h 0 0 = []) as -> by done. rewrite app_nil_r.
      rewrite Z.gtb_ltb. fold next h. destruct ((next <? q) && (q <? h)).
      * pose proof (found_run q s Hs Hf ltac:(fold h; lia) Ho ltac:(lia)) as E. cbv zeta in E. fold h in Hml.
        exists (nack_time s), (net_ s), (clocks s), (stat s). split; [|split; [|split; [apply V|split; [done|lia]]]].
        -- run E. erewrite bind_Ret by reflexivity. by destruct s.
        -- split; [done|]. intros _. exists []. split; [by rewrite app_nil_r|constructor].
      * exists (nack_time s), (net_ s), (clocks s), (stat s). rewrite Hid. split; [by destruct s|]. split; [exact (requested_refl s)|].
        split; [apply V|]. split; [done|lia].
Qed.

(** Where the packet [x] is put in the buffer [l]. *)
Definition placed (next h : Z) (l : list item) (x : item) (l' : list item) : Prop :=
  let q := r_seq (i_pkt x) in
  if decide (l = []) then l' = [x]
  else if within next h q then
    ∃ pre suf, l = pre ++ suf ∧ Forall (λ y, r_seq (i_pkt y) < q) pre ∧
      match suf with
      | y :: _ => r_seq (i_pkt y) = q ∧ l' = l ∨ q < r_seq (i_pkt y) ∧ l' = pre ++ x :: suf
      | [] => l' = l ++ [x]
      end
  else if q <? next then l' = l else l' = l ++ [x].
Definition place_item (w : place) (x : item) : prog (client A) unit :=
  s ← get;
  if target_found w then
    b ← lift (insert_after (latency_buffer s) (insert_target w) x);
    n ← lift (int_incr (buf_size s));
    modify (set_buffer b n)
  else if negb (is_dup w) && (r_seq (i_pkt x) >=? u32 (next_seq_to_deliver s)) then
    n ← lift (int_incr (buf_size s));
    modify (set_buffer (latency_buffer s ++ [x]) n)
  else mret tt.
(** [next0] is what the variable held before the packet. *)
Lemma place_run next0 h x s : let q := r_seq (i_pkt x) in
  buf_size s = Z.of_nat (length (latency_buffer s)) → buf_size s < 2147483647 → 0 ≤ next_seq_to_deliver s < 4294967296 →
  (latency_buffer s = [] → next_seq_to_deliver s = q) →
  (∀ y l, latency_buffer s = y :: l → next_seq_to_deliver s = next0 ∧ next0 = r_seq (i_pkt y)) →
  ∃ b, place_item (if within (next_seq_to_deliver s) h q then find_place q (latency_buffer s) 0 None else nowhere) x s =
      Ret tt (set_buffer b (Z.of_nat (length b)) s) ∧ placed next0 h (latency_buffer s) x b.
Proof using Type. clear.
  intros q Hbs Hb Hn Hnil Hcons. unfold place_item. run (eq_refl (get s)). fold q. rewrite u32_small, Z.geb_leb by done.
  assert (s = set_buffer (latency_buffer s) (Z.of_nat (length (latency_buffer s))) s) as Hid by (destruct s; cbn in *; by rewrite Hbs).
  assert (∀ b : list item, length b = S (length (latency_buffer s)) → Z.of_nat (length b) = buf_size s + 1) as Hlen by lia.
  unfold placed. fold q. case_decide as Hl.
  { rewrite (Hnil Hl). unfold within. rewrite Z.ltb_irrefl, andb_false_l. cbn [nowhere target_found is_dup negb andb]. rewrite Z.leb_refl.
    run (lift_Some _ _ s (int_incr_ok _ Hb)). rewrite Hl. eexists. split; [|done]. unfold modify. do 2 f_equal. cbn. rewrite Hbs, Hl. done. }
  destruct (latency_buffer s) as [|y0 l0] eqn:El; [done|]. destruct (Hcons y0 l0 eq_refl) as [Hn0 Hy0]. rewrite Hn0. rewrite <-El in *.
  destruct (within next0 h q) eqn:Ew.
  - apply andb_true_iff in Ew as [Hw1%Z.ltb_lt Hw2%Z.ltb_lt].
    destruct (find_place_spec q (latency_buffer s) 0 None) as (pre & suf & E & Hp & Ht & Hs).
    assert (pre ≠ []) as Hpre.
    { intros ->. cbn in E. rewrite El in E. subst suf. destruct Hs as [[? _]|[? _]]; lia. }
    rewrite decide_False in Ht by done. assert (length pre ≠ 0%nat) by (by destruct pre).
    destruct suf as [|y suf].
    + destruct Hs as [-> ->]. cbn [negb andb]. rewrite (proj2 (Z.leb_le _ _)) by lia. run (lift_Some _ _ s (int_incr_ok _ Hb)).
      exists (latency_buffer s ++ [x]). split; [rewrite Hlen; [done|rewrite length_app; cbn; lia]|]. by exists pre, [].
    + destruct Hs as [(Hy & -> & ->)|[Hy ->]].
      * exists (latency_buffer s). split; [by rewrite <-Hid|]. exists pre, (y :: suf). split_and!; try done. by left.
      * rewrite Ht. assert (insert_after (latency_buffer s) (Some (0 + length pre - 1)%nat) x = Some (pre ++ x :: y :: suf)) as Ei.
        { cbn. replace (S (length pre - 1)) with (length pre) by lia. by rewrite E, take_app_length, drop_app_length. }
        run (lift_Some _ _ s Ei). run (lift_Some _ _ s (int_incr_ok _ Hb)). exists (pre ++ x :: y :: suf). split.
        -- rewrite Hlen; [done|]. rewrite E, !length_app. cbn. lia.
        -- exists pre, (y :: suf). split_and!; try done. by right.
  - cbn [nowhere target_found is_dup negb andb]. destruct (Z.leb_spec next0 q), (Z.ltb_spec q next0); try lia.
    + run (lift_Some _ _ s (int_incr_ok _ Hb)). exists (latency_buffer s ++ [x]). split; [|done]. rewrite Hlen; [done|rewrite length_app; cbn; lia].
    + exists (latency_buffer s). split; [|done]. by rewrite <-Hid.
Qed.

(** The first packet starts the statistics. *)
Lemma start_run msgs n s p : receives msgs n s →
  ∃ t x c, (if highest_seq_recvd s =? 0 then start_statistics clock p else mret tt) s = Ret tt (set_stat_time t (set_stat x (at_clock c s))) ∧
    normal t ∧ normal (stream_start_time x) ∧ usecs (stream_start_time x) + 1000000 ≤ usecs t ∧
    clean_bytes_rcvd x = clean_bytes_rcvd (stat s) ∧ clean_pkts_rcvd x = clean_pkts_rcvd (stat s) ∧ num_pkts_delivered x = num_pkts_delivered (stat s).
Proof using Hclock. clear -Hclock.
  intros V. pose proof (rv_highest _ _ _ V). destruct (Z.eqb_spec (highest_seq_recvd s) 0) as [H0|Hne].
  - destruct (Hclock (clocks s)) as [Hn _]. exists (timeradd (clock (clocks s)) Stat_Interval),
      (with_start (clock (clocks s)) (timersub (clock (clocks s)) (r_sec p, r_usec p)) (stat s)), (S (clocks s)).
    split; [reflexivity|]. refine (conj (normal_add _ _ Hn _) (conj Hn (conj _ (conj eq_refl (conj eq_refl eq_refl))))); [done|].
    rewrite usecs_add. change (usecs Stat_Interval) with 5000000. cbn [with_start stream_start_time]. lia.
  - destruct (rv_time _ _ _ V) as (H1 & H2 & H3); [lia|]. exists (stat_time s), (stat s), (clocks s).
    refine (conj _ (conj H1 (conj H2 (conj H3 (conj eq_refl (conj eq_refl eq_refl)))))). by destruct s.
Qed.

(** What a data packet does to the variables that matter. *)
Record arrived (p : rpkt) (s s' : client A) : Prop := {
  ar_placed : ∃ x, i_pkt x = p ∧ placed (next_seq_to_deliver s) (highest_seq_recvd s) (latency_buffer s) x (latency_buffer s');
  ar_next : next_seq_to_deliver s' = if decide (latency_buffer s = []) then r_seq p else next_seq_to_deliver s;
  ar_deliver : deliver_time s' = if decide (latency_buffer s = []) then due_ p else deliver_time s;
  ar_highest : highest_seq_recvd s' = Z.max (highest_seq_recvd s) (r_seq p);
  ar_missing : missing_pkts s' = still_missing (next_seq_to_deliver s') (highest_seq_recvd s) (r_seq p) (missing_pkts s) ++
    wanted (next_seq_to_deliver s') (highest_seq_recvd s) 0 (Z.to_nat (r_seq p - highest_seq_recvd s - 1));
  ar_requested : requested (wanted (next_seq_to_deliver s') (highest_seq_recvd s) 0 (Z.to_nat (r_seq p - highest_seq_recvd s - 1))) s s';
  ar_delivered : delivered s' = delivered s;
  ar_live : live_seq_num s' = live_seq_num s ∧ live_send_time s' = live_send_time s
}.
Lemma Forall_placed (P : item → Prop) next h l x l' : Forall P l → P x → placed next h l x l' → Forall P l' ∧ (length l' ≤ S (length l))%nat.
Proof using Type. clear.
  intros Hl Hx. unfold placed. case_decide as Hn; [subst l; intros ->; split; [by constructor|done]|].
  assert (Forall P (l ++ [x]) ∧ (length (l ++ [x]) ≤ S (length l))%nat) as Happ.
  { split; [apply Forall_app_2; [done|by constructor]|rewrite length_app; cbn; lia]. }
  destruct (within next h _); [|destruct (_ <? _); intros ->; [split; [done|lia]|done]].
  intros (pre & [|y suf] & -> & _ & H); [subst l'; done|]. destruct H as [[_ ->]|[_ ->]]; [split; [done|lia]|].
  apply Forall_app in Hl as [H1 H2]. split; [apply Forall_app_2; [done|by constructor]|]. rewrite !length_app. cbn. lia.
Qed.
Lemma placed_head next h l x l' : placed next h l x l' → (∀ y k, l = y :: k → next = r_seq (i_pkt y)) →
  ∀ y k, l' = y :: k → if decide (l = []) then y = x else ∃ k0, l = y :: k0.
Proof using Type. clear.
  unfold placed. intros H Hh y k ->. case_decide as Hl; [by injection H|]. destruct l as [|y0 l0]; [done|]. specialize (Hh y0 l0 eq_refl).
  destruct (within next h _) eqn:Ew.
  - apply andb_true_iff in Ew as [Hw%Z.ltb_lt _]. destruct H as ([|z pre] & suf & E & Hp & H).
    + cbn in E. subst suf. destruct H as [[? _]|[? _]]; lia.
    + injection E as -> ->. destruct suf as [|w suf]; [injection H as ? ?|destruct H as [[_ H]|[_ H]]; injection H as ? ?]; subst; by eexists.
  - destruct (_ <? _); injection H as ? ?; subst; by eexists.
Qed.
Lemma Forall_filter (P Q : Z → Prop) `{!∀ x, Decision (Q x)} l : Forall P l → Forall P (filter Q l).
Proof using Type. clear. rewrite !Forall_forall. intros HP x [_ Hx]%list_elem_of_filter. by apply HP. Qed.
Lemma receives_missing_ok msgs n s q next k : receives msgs n s → 0 ≤ next → let h := highest_seq_recvd s in
  h + Z.of_nat k < Z.max h q + (if decide (k = 0%nat) then 1 else 0) →
  let l := still_missing next h q (missing_pkts s) ++ wanted next h 0 k in
  StronglySorted Z.lt l ∧ Forall (λ x, 0 < x < Z.max h q) l.
Proof using Type. clear.
  intros V Hn h Hk l. destruct (rv_missing _ _ _ V) as (_ & Hs & Hf). fold h in Hf. destruct (wanted_props next h k) as [Hws Hwf].
  pose proof (rv_highest _ _ _ V) as Hh. fold h in Hh.
  assert (StronglySorted Z.lt (still_missing next h q (missing_pkts s)) ∧ Forall (λ x, 0 < x < h) (still_missing next h q (missing_pkts s))) as [Hss Hsf].
  { unfold still_missing. destruct (within next h q); [|done]. split; [|by apply Forall_filter].
    clear -Hs. induction Hs as [|x k H IH Hx]; [constructor|]. rewrite filter_cons. case_decide; [|done]. constructor; [done|]. by apply Forall_filter. }
  split.
  - apply StronglySorted_app_2; [|done|done]. intros x1 x2 H1 H2. rewrite Forall_forall in Hsf, Hwf. specialize (Hsf x1 H1). specialize (Hwf x2 H2). cbn in *. lia.
  - apply Forall_app_2; [eapply Forall_impl; [exact Hsf|]; cbn; lia|]. destruct k as [|k]; [by apply Forall_nil_2|].
    rewrite decide_False in Hk by done. eapply Forall_impl; [exact Hwf|]. cbn. lia.
Qed.

Lemma data_run msgs n s p bytes i m : receives msgs n s → few msgs (S n) → 0 ≤ i → msgs !! Z.to_nat i = Some m → carries i m p → 0 ≤ bytes ≤ 1432 →
  ∃ s', handle_data servaddr clock rand rtt base_delta latency_window p bytes s = Ret tt s' ∧ receives msgs (S n) s' ∧ arrived p s s'.
Proof using Hclock Hrtt. clear -Hclock Hrtt.
  intros V Hfew Hi Hm Hc Hb. pose proof Hc as (_ & _ & _ & Hq & _). pose proof (lookup_lt_Some _ _ _ Hm) as Him.
  assert (few msgs n) as Hfew' by (destruct Hfew; split; lia).
  destruct (start_run msgs n s p V) as (t1 & x1 & c1 & E1 & T1 & T2 & T3 & S1 & S2 & S3). set (s1 := set_stat_time t1 (set_stat x1 (at_clock c1 s))) in *.
  set (q1 := if decide (latency_buffer s = []) then i else next_seq_to_deliver s).
  set (d1 := if decide (latency_buffer s = []) then due_ p else deliver_time s).
  destruct (rv_buffer _ _ _ V) as [Hbs Hbf]. destruct (rv_turns _ _ _ V) as [Hturn Hlive].
  assert ((if buf_size s1 =? 0 then modify (set_next (i32 (r_seq p)) (due_ p)) else mret tt) s1 = Ret tt (set_next q1 d1 s1)) as E2.
  { change (buf_size s1) with (buf_size s). unfold q1, d1. rewrite Hbs, Hq, i32_small by (destruct Hfew; lia). destruct (latency_buffer s) as [|y l]; [done|].
    rewrite !decide_False by done. rewrite (proj2 (Z.eqb_neq _ _)) by (cbn; lia). by destruct s. }
  set (s2 := set_next q1 d1 s1) in *. pose proof (rv_next _ _ _ V) as Hn. pose proof (rv_highest _ _ _ V) as Hh. destruct Hfew as [Hf1 Hf2].
  assert (0 ≤ q1 ≤ Z.of_nat (length msgs)) as Hq1 by (unfold q1; case_decide; lia).
  assert (receives msgs n s2) as V2.
  { destruct V. constructor; try done; cbn [s2 s1 set_next set_stat_time set_stat at_clock latency_buffer next_seq_to_deliver deliver_time stat highest_seq_recvd delivered].
    - intros x l Hl. unfold q1, d1. rewrite !decide_False by congruence. by apply (rv_head0 x l).
    - by rewrite S3.
    - rewrite S1, S2. done. }
  destruct (sort_in_run msgs n s2 p bytes i V2 Hfew' Hq ltac:(lia) Hb) as (t & x & c & y & E3 & R & W & (Y1 & Y2 & Y3 & Y4) & Y5).
  cbv zeta in *. change (highest_seq_recvd s2) with (highest_seq_recvd s) in *. change (next_seq_to_deliver s2) with q1 in *.
  change (missing_pkts s2) with (missing_pkts s) in *. change (stat s2) with x1 in *.
  set (h := highest_seq_recvd s) in *. set (l := still_missing q1 h i (missing_pkts s) ++ _) in *. set (s3 := set_stat y (asked_state t l x c s2)) in *.
  set (h' := Z.max h i).
  assert ((if r_seq p >=? u32 (highest_seq_recvd s3) then modify (set_highest (i32 (r_seq p))) else mret tt) s3 = Ret tt (set_highest h' s3)) as E4.
  { change (highest_seq_recvd s3) with h. rewrite Hq, u32_small, i32_small, Z.geb_leb by lia. unfold h'. destruct (Z.leb_spec h i).
    - by rewrite Z.max_r by lia.
    - rewrite Z.max_l by lia. by destruct s. }
  set (s4 := set_highest h' s3) in *. set (it := mk_item p (clock (clocks s4))).
  assert (∀ z k, latency_buffer s = z :: k → next_seq_to_deliver s = r_seq (i_pkt z)) as Hhead by (intros z k Hz; exact (proj1 (rv_head _ _ _ V z k Hz))).
  destruct (place_run (next_seq_to_deliver s) h it (tick s4)) as (b & E5 & Hp); try done; [change (buf_size (tick s4)) with (buf_size s); lia|cbn; lia| | |].
  { intros Hl. change (q1 = r_seq p). unfold q1. change (latency_buffer s = []) in Hl. by rewrite decide_True. }
  { intros z k Hz. change (latency_buffer s = z :: k) in Hz. split; [|by eapply Hhead]. change (q1 = next_seq_to_deliver s). unfold q1. by rewrite decide_False by congruence. }
  change (next_seq_to_deliver (tick s4)) with q1 in E5. change (latency_buffer (tick s4)) with (latency_buffer s) in *. change (r_seq (i_pkt it)) with (r_seq p) in E5. rewrite Hq in E5.
  set (s' := set_buffer b (Z.of_nat (length b)) (tick s4)) in *. exists s'.
  assert (0 ≤ Z.of_nat (Z.to_nat (i - h - 1))) by lia.
  destruct (receives_missing_ok msgs n s i q1 (Z.to_nat (i - h - 1)) V) as [Hls Hlf]; [lia|cbv zeta; fold h; destruct (decide (Z.to_nat (i - h - 1) = 0%nat)); lia|]. fold h l h' in Hls, Hlf.
  assert (Forall (item_ok msgs h') (latency_buffer s)) as Hbf0.
  { eapply Forall_impl; [exact Hbf|]. intros z (j & mj & Hj1 & Hj2). exists j, mj. split; [unfold h', h; lia|done]. }
  assert (item_ok msgs h' it) as Hit by (exists i, m; split; [unfold h'; lia|done]).
  destruct (Forall_placed (item_ok msgs h') _ _ _ _ _ Hbf0 Hit Hp) as [Hbf' Hbl].
  split; [|split].
  - unfold handle_data. run (eq_refl (get s)). run E1.
    run E2. run (eq_refl (get s2)). run (lift_Some _ _ s2 (int_incr_ok (highest_seq_recvd s2) ltac:(change (highest_seq_recvd s2) with h; unfold h; lia))).
    erewrite bind_Ret by exact E3. run (eq_refl (get s3)). run E4. erewrite bind_Ret by reflexivity. exact E5.
  - destruct V. constructor; cbn [s' s4 s3 s2 s1 it set_buffer tick set_highest set_stat asked_state set_nack_time set_missing set_net at_clock set_next set_stat_time
      buf_size latency_buffer highest_seq_recvd next_seq_to_deliver deliver_time outstanding_pkts missing_pkts delivered stat net_ live_seq_num stat_time recvd_pkt]; try done.
    + intros z k Hz. pose proof (placed_head _ _ _ _ _ Hp Hhead z k Hz) as Hd. unfold q1, d1. case_decide as Hl.
      * subst z. split; [exact (eq_sym Hq)|done].
      * destruct Hd as [k0 Hk]. by apply (rv_head0 z k0).
    + unfold h', h. lia.
    + by rewrite Y2, S3.
    + rewrite S1, S2 in *. unfold h', h in *. lia.
    + lia.
    + intros _. by rewrite Y1.
  - constructor; try done; cbn [s' s4 s3 s2 s1 set_buffer tick set_highest set_stat asked_state set_nack_time set_missing set_net at_clock set_next set_stat_time
      highest_seq_recvd next_seq_to_deliver deliver_time missing_pkts latency_buffer]; rewrite ?Hq; try done.
    exists it. split; [done|]. exact Hp.
Qed.

(** ** The events of an iteration *)

Record same_queue (s s' : client A) : Prop := {
  sq_buffer : latency_buffer s' = latency_buffer s;
  sq_missing : missing_pkts s' = missing_pkts s;
  sq_highest : highest_seq_recvd s' = highest_seq_recvd s;
  sq_next : next_seq_to_deliver s' = next_seq_to_deliver s;
  sq_deliver : deliver_time s' = deliver_time s;
  sq_delivered : delivered s' = delivered s
}.
Lemma same_queue_trans s1 s2 s3 : same_queue s1 s2 → same_queue s2 s3 → same_queue s1 s3.
Proof using Type. clear. intros [] []. constructor; congruence. Qed.
(** What may come: packets of the stream and control packets. *)
Definition arrives (msgs : list (list Z)) (d : list Z) : Prop := is_stream msgs d ∨ ∃ p, is_control p d.
Definition arrival (msgs : list (list Z)) (e : option (list Z)) s s' : Prop :=
  same_queue s s' ∨ ∃ d p i m, e = Some d ∧ 0 ≤ i ∧ msgs !! Z.to_nat i = Some m ∧ carries i m p ∧
    read_rpkt (recv_into sizeof_rpkt (recvd_pkt s) d) = Some p ∧ arrived p s s'.

Lemma receives_turns msgs n s : receives msgs n s → receives msgs (S n) s.
Proof using Type. clear. intros []. constructor; try done. lia. Qed.
Lemma receives_recvd msgs n s b : receives msgs n s → length b = 1432%nat → receives msgs n (set_recvd b s).
Proof using Type. clear. intros [] Hb. by constructor. Qed.
Lemma stream_run msgs n s d : receives msgs n s → few msgs (S n) → is_stream msgs d →
  ∃ s' p i m, handle_packet servaddr clock rand rtt base_delta latency_window d s = Ret tt s' ∧ receives msgs (S n) s' ∧
    read_rpkt (recv_into sizeof_rpkt (recvd_pkt s) d) = Some p ∧ 0 ≤ i ∧ msgs !! Z.to_nat i = Some m ∧ carries i m p ∧ arrived p s s'.
Proof using Hclock Hrtt. clear -Hclock Hrtt.
  intros V Hfew Hd. unfold handle_packet. run (eq_refl (get s)). erewrite bind_Ret by reflexivity.
  destruct (recv_stream msgs d (recvd_pkt s) Hd (rv_recvd _ _ _ V)) as (i & m & p & E & Hi & Hm & Hc & Hlen). pose proof Hc as (E1 & E2 & E3 & _).
  set (b := recv_into sizeof_rpkt (recvd_pkt s) d) in *. set (s1 := set_recvd b s).
  assert (receives msgs n s1) as V1.
  { apply receives_recvd; [done|]. unfold b. rewrite length_recv_into; rewrite (rv_recvd _ _ _ V); done. }
  run (reads_Some (λ s, read_rpkt (recvd_pkt s)) p s1 E). rewrite E1, E2, E3. cbn [orb].
  destruct (data_run msgs n s1 p (Z.of_nat (length d) `min` sizeof_rpkt) i m V1 Hfew Hi Hm Hc) as (s' & Es & V' & Har); [unfold sizeof_rpkt; lia|].
  exists s', p, i, m. split; [done|]. split; [done|]. split; [done|]. split; [done|]. split; [done|]. split; [done|]. destruct Har. by constructor.
Qed.
Lemma packet_run msgs n s d : receives msgs n s → few msgs (S n) → arrives msgs d →
  ∃ s', handle_packet servaddr clock rand rtt base_delta latency_window d s = Ret tt s' ∧ receives msgs (S n) s' ∧ arrival msgs (Some d) s s' ∧
    live_seq_num s' = live_seq_num s.
Proof using Hclock Hrtt. clear -Hclock Hrtt.
  intros V Hfew [Hd|[p Hp]].
  - destruct (stream_run msgs n s d V Hfew Hd) as (s' & p & i & m & E & V' & H). exists s'. split_and!; [done|done| |apply H].
    right. by exists d, p, i, m; destruct H as (? & ? & ? & ? & ?).
  - unfold handle_packet. run (eq_refl (get s)). erewrite bind_Ret by reflexivity. set (b := recv_into sizeof_rpkt (recvd_pkt s) d). set (s1 := set_recvd b s).
    assert (receives msgs n s1) as V1.
    { apply receives_recvd; [done|]. unfold b. rewrite length_recv_into; rewrite (rv_recvd _ _ _ V); done. }
    destruct (recv_control p d (recvd_pkt s) Hp (rv_recvd _ _ _ V)) as [pl E]. run (reads_Some (λ s, read_rpkt (recvd_pkt s)) _ s1 E). cbn [with_body r_live r_init r_nack].
    exists s1. destruct Hp as (_ & Hf & _). destruct (r_live p); [by split_and!; [|apply receives_turns|left|]|].
    assert (r_init p || r_nack p = true) as -> by (by destruct (r_init p)). by split_and!; [|apply receives_turns|left|].
Qed.

Lemma receives_live msgs n s q t : receives msgs n s → 0 ≤ q ≤ Z.of_nat n → receives msgs n (set_live q t s).
Proof using Type. clear. intros [] Hq. constructor; try done. split; [apply rv_turns0|done]. Qed.
Lemma live_run msgs n s k : receives msgs (S n) s → few msgs (S n) → live_seq_num s ≤ Z.of_nat n → (k < clocks s)%nat →
  ∃ s' k', send_live servaddr clock rand (clock k) s = Ret (clock k') s' ∧ receives msgs (S n) s' ∧ same_queue s s' ∧ (k ≤ k' < clocks s')%nat.
Proof using Hclock. clear -Hclock.
  intros V [_ Hn] Hl Hk. unfold send_live. run (eq_refl (get s)). destruct (rv_turns _ _ _ V) as [_ Hlive].
  destruct (_ >=? 0); [|exists s, k; split_and!; try done; lia]. erewrite bind_Ret by reflexivity.
  run (lift_Some _ _ (tick s) (int_incr_ok (live_seq_num s) ltac:(lia))).
  destruct (send_control_run (control false true false (clock (clocks s)) (u32 (live_seq_num s))) (tick s)) as (x & E & Hp); [done|]. run E.
  erewrite bind_Ret by reflexivity. eexists _, (clocks s). split; [reflexivity|]. split_and!; try done; [|lia|cbn; lia].
  apply receives_live; [|lia]. apply receives_net; [by apply (receives_clock _ _ s (S (clocks s)))|].
  refine (put_asks msgs (S n) (tick s) _ _ _ Hp _); [by apply (receives_clock _ _ s (S (clocks s)))|]. by apply control_asks.
Qed.

(** Handing on the packet [x]. *)
Record handed (x : item) (s s' : client A) : Prop := {
  hd_buffer : latency_buffer s = x :: latency_buffer s';
  hd_delivered : delivered s' = delivered s ++ [take (Z.to_nat (r_size (i_pkt x))) (r_payload (i_pkt x))];
  hd_next : next_seq_to_deliver s' = match latency_buffer s' with y :: _ => r_seq (i_pkt y) | [] => next_seq_to_deliver s end;
  hd_missing : missing_pkts s' = filter (λ q, next_seq_to_deliver s' < q) (missing_pkts s);
  hd_highest : highest_seq_recvd s' = highest_seq_recvd s
}.
Lemma count_old_drop next l : StronglySorted Z.lt l → drop (count_old next l) l = filter (λ q, next < q) l ∧ (count_old next l ≤ length l)%nat.
Proof using Type. clear.
  induction l as [|x l IH]; [by split|]. intros [Hx Hs]%StronglySorted_cons. cbn [count_old]. destruct (Z.leb_spec x next).
  - rewrite filter_cons_False by lia. cbn. destruct (IH Hs). split; [done|lia].
  - split; [|lia]. rewrite filter_cons_True by lia. cbn. f_equal. clear IH. induction l as [|y l IH]; [done|].
    apply Forall_cons in Hx as [Hy Hx]. apply StronglySorted_cons in Hs as [_ Hs]. rewrite filter_cons_True by lia. f_equal. by apply IH.
Qed.
Lemma drop_run k : ∀ j s, (k ≤ length (missing_pkts s))%nat → outstanding_pkts s = Z.of_nat (length (missing_pkts s)) → outstanding_pkts s < 2147483648 →
  for_each (List.seq j k) (λ _, s ← get; l ← lift (match missing_pkts s with _ :: l => Some l | [] => None end);
    n ← lift (int_add (outstanding_pkts s) (-1)); modify (set_missing l n)) s =
  Ret tt (set_missing (drop k (missing_pkts s)) (Z.of_nat (length (drop k (missing_pkts s)))) s).
Proof using Type. clear.
  induction k as [|k IH]; intros j s Hk Ho Hb; cbn [List.seq for_each].
  - rewrite drop_0, <-Ho. by destruct s.
  - destruct (missing_pkts s) as [|x l] eqn:Em; [cbn in Hk; lia|]. cbn in Hk, Ho.
    erewrite bind_Ret; cycle 1.
    + run (eq_refl (get s)). rewrite Em. erewrite bind_Ret by reflexivity.
      run (lift_Some _ _ s (int_add_ok (outstanding_pkts s) (-1) ltac:(lia))). reflexivity.
    + rewrite IH; [done|cbn; lia|cbn; lia|cbn; lia].
Qed.
Lemma skip_old_run s : outstanding_pkts s = Z.of_nat (length (missing_pkts s)) → outstanding_pkts s < 2147483648 → StronglySorted Z.lt (missing_pkts s) →
  let l := filter (λ q, next_seq_to_deliver s < q) (missing_pkts s) in skip_old s = Ret tt (set_missing l (Z.of_nat (length l)) s).
Proof using Type. clear.
  intros Ho Hb Hs l. unfold skip_old. run (eq_refl (get s)). destruct (count_old_drop (next_seq_to_deliver s) _ Hs) as [E Hc].
  destruct (Z.gtb_spec (outstanding_pkts s) 0) as [Hpos|H0]; cycle 1.
  { unfold l. destruct (missing_pkts s) eqn:Em; [|cbn in *; lia]. cbn. destruct s; cbn in *. by subst. }
  rewrite (drop_run _ 0 s Hc Ho Hb). unfold l. by rewrite E.
Qed.
Lemma deliver_run msgs n s x k : receives msgs n s → few msgs n → latency_buffer s = x :: k →
  ∃ s', deliver base_delta latency_window s = Ret tt s' ∧ receives msgs n s' ∧ handed x s s' ∧ live_seq_num s' = live_seq_num s ∧ clocks s' = clocks s.
Proof using Type. clear.
  intros V [Hf1 Hf2] Hb. unfold deliver. run (eq_refl (get s)). rewrite Hb. destruct (rv_buffer _ _ _ V) as [Hbs Hbf].
  rewrite Hb in Hbs, Hbf. cbn in Hbs. apply Forall_cons in Hbf as [(i & m & Hi & Hm & Hc) Hbf]. pose proof Hc as (_ & _ & _ & Hq & Hsz & Htk & Hok).
  pose proof (carries_length _ _ _ Hc) as Hlm. destruct (rv_turns _ _ _ V) as [Ht Hlv]. destruct (rv_delivered _ _ _ V) as [Hd1 Hd2]. rewrite Hb in Ht. cbn in Ht.
  rewrite (proj2 (Z.leb_le _ _)) by (unfold MAX_MESS_LEN; lia).
  do 2 erewrite bind_Ret by reflexivity. rewrite Hsz, Nat2Z.id, Htk.
  set (s1 := set_delivered _ s). run (lift_Some _ _ s1 (int_incr_ok (num_pkts_delivered (stat s)) ltac:(lia))).
  erewrite bind_Ret by reflexivity. set (s2 := set_stat _ s1). run (lift_Some _ _ s2 (int_add_ok (buf_size s) (-1) ltac:(lia))).
  replace (buf_size s + -1) with (Z.of_nat (length k)) by lia. erewrite bind_Ret by reflexivity. set (s3 := set_buffer k (Z.of_nat (length k)) s2).
  set (q := match k with y :: _ => r_seq (i_pkt y) | [] => next_seq_to_deliver s end).
  set (d := match k with y :: _ => due_ (i_pkt y) | [] => deliver_time s end).
  assert (∀ y, y ∈ k → 0 ≤ r_seq (i_pkt y) ≤ Z.of_nat (length msgs)) as Hk.
  { intros y Hy. rewrite Forall_forall in Hbf. destruct (Hbf y Hy) as (j & mj & Hj & Hmj & (_ & _ & _ & Hqj & _)). pose proof (lookup_lt_Some _ _ _ Hmj). lia. }
  set (nxt := if Z.of_nat (length k) >? 0 then _ else _).
  assert (nxt s3 = Ret tt (set_next q d s3)) as En.
  { unfold nxt, q, d. destruct k as [|y k]; [by destruct s|]. cbn [length head].
    rewrite Z.gtb_ltb, (proj2 (Z.ltb_lt _ _)) by lia. erewrite bind_Ret by reflexivity. rewrite i32_small; [done|]. specialize (Hk y ltac:(left)). lia. }
  run En. clear nxt En. set (s4 := set_next q d s3). destruct (rv_missing _ _ _ V) as (Ho & Hs & Hf). pose proof (missing_length _ _ _ V). pose proof (rv_highest _ _ _ V).
  rewrite (skip_old_run s4); [|done|change (outstanding_pkts s4) with (outstanding_pkts s); lia|done].
  change (next_seq_to_deliver s4) with q. change (missing_pkts s4) with (missing_pkts s). set (l := filter _ _).
  eexists. split; [reflexivity|]. split_and!; try done.
  - destruct V. constructor; cbn [s4 s3 s2 s1 set_missing set_next set_buffer set_stat set_delivered with_delivered buf_size latency_buffer highest_seq_recvd
      next_seq_to_deliver deliver_time outstanding_pkts missing_pkts delivered stat net_ live_seq_num num_pkts_delivered clean_pkts_rcvd clean_bytes_rcvd stream_start_time stat_time recvd_pkt]; try done.
    + intros y k0 ->. done.
    + split_and!; [done| |by apply Forall_filter]. unfold l. clear -Hs.
      induction Hs as [|y k0 H IH Hx]; [constructor|]. rewrite filter_cons. case_decide; [|done]. constructor; [done|]. by apply Forall_filter.
    + unfold q. destruct k as [|y k]; [done|]. apply Hk. left.
    + split; [|rewrite length_app; cbn; lia]. apply Forall_app_2; [done|]. constructor; [|done]. by eapply list_elem_of_lookup_2.
    + rewrite length_app. cbn. lia.
  - constructor; try done. cbn [s4 s3 s2 s1 set_missing set_next set_buffer set_stat set_delivered delivered]. by rewrite Hsz, Nat2Z.id, Htk.
Qed.

Lemma clock_mono j k : (j ≤ k)%nat → usecs (clock j) ≤ usecs (clock k).
Proof using Hmono. clear -Hmono. induction 1 as [|k H IH]; [done|]. specialize (Hmono k). lia. Qed.
Lemma receives_stat_time msgs n s t : receives msgs n s → normal t → usecs (stat_time s) ≤ usecs t → receives msgs n (set_stat_time t s).
Proof using Type. clear.
  intros [] Ht Hle. constructor; try done. intros H. destruct (rv_time0 H) as (H1 & H2 & H3). refine (conj Ht (conj H2 _)). cbn. lia.
Qed.
Lemma rcv_report_run msgs n s k : receives msgs n s → few msgs n → 0 < highest_seq_recvd s → (k < clocks s)%nat → usecs (stat_time s) < usecs (clock k) →
  ∃ s' k', report clock s = Ret (clock k') s' ∧ receives msgs n s' ∧ same_queue s s' ∧ (k ≤ k' < clocks s')%nat.
Proof using Hclock Hmono. clear -Hclock Hmono.
  intros V [Hf1 Hf2] Hh Hk Hlt. unfold report. erewrite bind_Ret by reflexivity. pose proof (clock_mono k (clocks s) ltac:(lia)) as Hm.
  destruct (Hclock (clocks s)) as [Hn _]. set (now := clock (clocks s)) in *. erewrite bind_Ret by reflexivity.
  destruct (rv_time _ _ _ V Hh) as (T1 & T2 & T3).
  assert (receives msgs n (set_stat_time (timeradd now Stat_Interval) (tick s))) as V1.
  { apply receives_stat_time; [by apply (receives_clock _ _ s (S (clocks s)))|by apply normal_add|]. rewrite usecs_add. change (usecs Stat_Interval) with 5000000.
    change (stat_time (tick s)) with (stat_time s). lia. }
  set (s1 := set_stat_time _ (tick s)) in *. run (eq_refl (get s1)).
  destruct (rv_counts _ _ _ V) as [Hcp Hcb]. destruct (rv_delivered _ _ _ V) as [_ Hd]. destruct (rv_buffer _ _ _ V) as [Hbs _]. destruct (rv_turns _ _ _ V) as [Ht _].
  pose proof (rv_highest _ _ _ V).
  run (lift_Some _ _ s1 (int_add_ok (clean_bytes_rcvd (stat s) * 8) 0 ltac:(lia))).
  assert (Z.quot ((now.1 - (stream_start_time (stat s)).1) * 1000000 + (now.2 - (stream_start_time (stat s)).2)) 1000000 ≠ 0) as Hq.
  { unfold usecs in *. intros Hq. pose proof (Z.quot_rem' ((now.1 - (stream_start_time (stat s)).1) * 1000000 + (now.2 - (stream_start_time (stat s)).2)) 1000000).
    pose proof (Z.rem_bound_pos ((now.1 - (stream_start_time (stat s)).1) * 1000000 + (now.2 - (stream_start_time (stat s)).2)) 1000000). lia. }
  change (stream_start_time (stat s1)) with (stream_start_time (stat s)). rewrite (proj2 (Z.eqb_neq _ _) Hq). erewrite bind_Ret by reflexivity.
  run (lift_Some _ _ s1 (int_add_ok (highest_seq_recvd s) (- num_pkts_delivered (stat s)) ltac:(lia))).
  run (lift_Some _ _ s1 (int_add_ok (highest_seq_recvd s + - num_pkts_delivered (stat s)) (- buf_size s) ltac:(lia))).
  run (lift_Some _ _ s1 (int_incr_ok (highest_seq_recvd s + - num_pkts_delivered (stat s) + - buf_size s) ltac:(lia))).
  exists s1, (clocks s). split_and!; try done; [lia|cbn; lia].
Qed.

Lemma resend_loop msgs n k l : ∀ s, receives msgs n s → Forall (λ q, 0 < q < 4294967296) l →
  ∃ x, for_each l (λ q, send_control servaddr rand (nack (clock k) q)) s = Ret tt (set_net x s) ∧ receives msgs n (set_net x s) ∧ requested l s (set_net x s).
Proof using Hclock. clear -Hclock.
  induction l as [|q l IH]; intros s V Hl.
  - exists (net_ s). split_and!; [by destruct s|apply receives_net; [done|apply V]|]. exact (requested_refl s).
  - apply Forall_cons in Hl as [Hq Hl]. cbn [for_each]. destruct (send_control_run (nack (clock k) q) s) as (x & E & Hp); [done|]. run E.
    destruct (IH (set_net x s)) as (y & E' & V' & R'); [|done|].
    { apply receives_net; [done|]. refine (put_asks _ _ _ (set_net x s) _ V Hp _). by apply asks_nack. }
    exists y. split_and!; [exact E'|exact V'|]. exact (requested_trans [q] l s _ _ (put_requested _ _ _ _ Hp) R').
Qed.
Lemma rcv_resend_run msgs n s : receives msgs n s → few msgs n →
  ∃ s', resend_nacks servaddr clock rand rtt s = Ret tt s' ∧ receives msgs n s' ∧ same_queue s s' ∧ requested (missing_pkts s) s s'.
Proof using Hclock Hrtt. clear -Hclock Hrtt.
  intros V [Hf1 _]. unfold resend_nacks.
  assert (nack_interval rtt = Some (usec_to_timeval (timeval_to_usec rtt * 5 / 4))) as Ei by (unfold nack_interval; by rewrite (proj2 (Z.ltb_lt _ _) Hrtt)).
  run (lift_Some _ _ s Ei). do 2 erewrite bind_Ret by reflexivity. set (s1 := set_nack_time _ (tick s)). run (eq_refl (get s1)).
  assert (receives msgs n s1) as V1 by (apply receives_nack_time; by apply (receives_clock _ _ s (S (clocks s)))).
  destruct (rv_missing _ _ _ V) as (_ & _ & Hf). pose proof (rv_highest _ _ _ V).
  destruct (resend_loop msgs n (clocks s) (missing_pkts s) s1 V1) as (x & E & V' & R); [eapply Forall_impl; [exact Hf|]; cbn; lia|].
  exists (set_net x s1). split_and!; [exact E|exact V'|by constructor|exact R].
Qed.

(** An iteration: a packet may arrive, then the head of the buffer is handed on
    if it is due. *)
Definition turned (msgs : list (list Z)) (n : nat) (select : option timeval → option (list Z)) s s' : Prop :=
  ∃ s1 k, receives msgs (S n) s1 ∧ arrival msgs (select (timeout (clock (clocks s)) (tick s))) s s1 ∧ (clocks s ≤ k < clocks s')%nat ∧
    if decide (latency_buffer s ≠ [] ∧ Cmp_time (clock k) (deliver_time s1) >= 0) then ∃ x, handed x s1 s' else same_queue s1 s'.
Lemma arrival_buffer msgs e s s1 : arrival msgs e s s1 → latency_buffer s ≠ [] → latency_buffer s1 ≠ [].
Proof using Type. clear.
  intros [Hq|(d & p & i & m & _ & _ & _ & _ & _ & Ha)] Hn; [by rewrite (sq_buffer _ _ Hq)|]. destruct (ar_placed _ _ _ Ha) as (x & _ & Hp).
  unfold placed in Hp. rewrite decide_False in Hp by done. destruct (within _ _ _).
  - destruct Hp as (pre & [|y suf] & E & _ & H); [rewrite H; by destruct (latency_buffer s)|]. destruct H as [[_ ->]|[_ ->]]; [done|by destruct pre].
  - destruct (_ <? _); rewrite Hp; [done|by destruct (latency_buffer s)].
Qed.

(** The clock is only read on. *)
Definition read_on (c : nat) s : Prop := (c ≤ clocks s)%nat.
Lemma read_on_time c : keeps (read_on c) (gettimeofday clock).
Proof using Type. clear. intros s H. cbn. unfold read_on in *. cbn. lia. Qed.
Lemma read_on_modify c (f : client A → client A) : (∀ s, clocks (f s) = clocks s) → keeps (read_on c) (modify f).
Proof using Type. clear. intros Hf. apply keeps_modify. intros s. unfold read_on. by rewrite Hf. Qed.
Lemma read_on_send c p : keeps (read_on c) (send_control servaddr rand p).
Proof using Type. clear.
  intros s H. unfold send_control, zoom, mbind, prog_bind. cbn. by destruct (sendto_dbg _ _ _ _ _).
Qed.
#[local] Hint Resolve read_on_time read_on_send : frame.
#[local] Hint Extern 1 (keeps _ (modify _)) => (apply read_on_modify; done) : frame.
Lemma packet_read_on c d : keeps (read_on c) (handle_packet servaddr clock rand rtt base_delta latency_window d).
Proof using Type. clear.
  unfold handle_packet, handle_data, start_statistics, count_clean, request_gap, request, found.
  keep.
Qed.
Lemma resend_read_on c : keeps (read_on c) (resend_nacks servaddr clock rand rtt).
Proof using Type. clear. unfold resend_nacks. keep. Qed.

Lemma handed_same x s1 s2 s3 s4 : same_queue s1 s2 → handed x s2 s3 → same_queue s3 s4 → handed x s1 s4.
Proof using Type. clear.
  intros Q1 H Q2. constructor; rewrite ?(sq_buffer _ _ Q2), ?(sq_delivered _ _ Q2), ?(sq_missing _ _ Q2), ?(sq_next _ _ Q2), ?(sq_highest _ _ Q2),
    <-?(sq_buffer _ _ Q1), <-?(sq_delivered _ _ Q1), <-?(sq_missing _ _ Q1), <-?(sq_next _ _ Q1), <-?(sq_highest _ _ Q1); apply H.
Qed.
Lemma arrival_highest msgs e s s1 : arrival msgs e s s1 → highest_seq_recvd s ≤ highest_seq_recvd s1.
Proof using Type. clear.
  intros [Hq|(d & p & i & m & _ & _ & _ & _ & _ & Ha)]; [rewrite (sq_highest _ _ Hq); lia|]. rewrite (ar_highest _ _ _ Ha). lia.
Qed.
Definition arrives_opt (msgs : list (list Z)) (e : option (list Z)) : Prop := match e with Some d => arrives msgs d | None => True end.
(** The packet of the turn. *)
Lemma event_run msgs n s e : receives msgs n s → few msgs (S n) → arrives_opt msgs e →
  ∃ s1, (match e with Some d => handle_packet servaddr clock rand rtt base_delta latency_window d | None => mret tt end) s = Ret tt s1 ∧
    receives msgs (S n) s1 ∧ arrival msgs e s s1 ∧ live_seq_num s1 = live_seq_num s ∧ (clocks s ≤ clocks s1)%nat.
Proof using Hclock Hrtt. clear -Hclock Hrtt.
  intros V Hfew Ha. destruct e as [d|].
  - destruct (packet_run msgs n s d V Hfew Ha) as (s1 & E & V1 & Har & Hl). exists s1. split_and!; try done.
    by apply (keeps_Ret _ _ _ _ _ (packet_read_on (clocks s) d)) in E; [|unfold read_on].
  - exists s. split_and!; [done|by apply receives_turns|by left|done|done].
Qed.
(** The reports and requests that end it. *)
Lemma rest_run msgs n s k (b1 b2 : bool) : receives msgs n s → few msgs n → (b1 = true → 0 < highest_seq_recvd s) → (k < clocks s)%nat →
  ∃ s', (now ← (if b1 && (Cmp_time (clock k) (stat_time s) >? 0) then report clock else mret (clock k)); s ← get;
      if b2 && (Cmp_time now (nack_time s) >? 0) then resend_nacks servaddr clock rand rtt else mret tt) s = Ret tt s' ∧
    receives msgs n s' ∧ same_queue s s' ∧ (k < clocks s')%nat.
Proof using Hclock Hmono Hrtt. clear -Hclock Hmono Hrtt.
  intros V Hfew Hb Hk.
  assert (∃ s1 k', (if b1 && (Cmp_time (clock k) (stat_time s) >? 0) then report clock else mret (clock k)) s = Ret (clock k') s1 ∧
    receives msgs n s1 ∧ same_queue s s1 ∧ (k ≤ k' < clocks s1)%nat) as (s1 & k' & E1 & V1 & Q1 & Hk1).
  { destruct b1; [|exists s, k; by split_and!]. cbn [andb]. specialize (Hb eq_refl). destruct (rv_time _ _ _ V Hb) as (Hn & _).
    rewrite Cmp_time_gt by (by try apply Hclock). destruct (Z.ltb_spec (usecs (stat_time s)) (usecs (clock k))); [|exists s, k; by split_and!].
    by apply (rcv_report_run msgs). }
  run E1. run (eq_refl (get s1)). destruct (b2 && _).
  - destruct (rcv_resend_run msgs n s1 V1 Hfew) as (s' & E & V' & Q & _). exists s'. split_and!; [done|done|by eapply same_queue_trans|].
    apply (keeps_Ret _ _ _ _ _ (resend_read_on (clocks s1))) in E; [|unfold read_on; lia]. unfold read_on in E. lia.
  - exists s1. split_and!; [done|done|done|lia].
Qed.
Lemma rcv_turn_run msgs n s select : receives msgs n s → few msgs (S n) → arrives_opt msgs (select (timeout (clock (clocks s)) (tick s))) →
  ∃ s', turn_ select s = Ret tt s' ∧ receives msgs (S n) s' ∧ turned msgs n select s s'.
Proof.
  intros V Hfew Ha. unfold turn. erewrite bind_Ret by reflexivity. run (eq_refl (get (tick s))).
  assert (receives msgs n (tick s)) as V0 by (by apply (receives_clock _ _ s (S (clocks s)))).
  destruct (event_run msgs n (tick s) _ V0 Hfew Ha) as (s1 & E1 & V1 & Ar & Hl & Hc1). run E1. erewrite bind_Ret by reflexivity.
  assert (receives msgs (S n) (tick s1)) as V1' by (by apply (receives_clock _ _ s1 (S (clocks s1)))).
  destruct (rv_turns _ _ _ V) as [_ Hlive].
  destruct (live_run msgs n (tick s1) (clocks s1) V1' Hfew) as (s2 & k & E2 & V2 & Q2 & Hk); [change (live_seq_num s1 ≤ Z.of_nat n); rewrite Hl; cbn; lia|cbn; lia|].
  run E2. run (eq_refl (get s2)). change (buf_size (tick s)) with (buf_size s). rewrite (proj1 (rv_buffer _ _ _ V)).
  assert (same_queue s1 s2) as Q12 by (destruct Q2; by constructor).
  assert (∃ s3, (if (Z.of_nat (length (latency_buffer s)) >? 0) && (Cmp_time (clock k) (deliver_time s2) >=? 0) then deliver base_delta latency_window else mret tt) s2 = Ret tt s3 ∧
    receives msgs (S n) s3 ∧ clocks s3 = clocks s2 ∧ highest_seq_recvd s3 = highest_seq_recvd s2 ∧
    if decide (latency_buffer s ≠ [] ∧ Cmp_time (clock k) (deliver_time s1) >= 0) then ∃ x, handed x s2 s3 else same_queue s2 s3) as (s3 & E3 & V3 & Hc3 & Hh3 & D3).
  { rewrite (sq_deliver _ _ Q12). destruct (decide (latency_buffer s = [])) as [Hb|Hb].
    - rewrite Hb. exists s2. rewrite decide_False by naive_solver. by split_and!.
    - assert (Z.of_nat (length (latency_buffer s)) >? 0 = true) as -> by (destruct (latency_buffer s); [done|]; rewrite Z.gtb_ltb; apply Z.ltb_lt; cbn; lia).
      cbn [andb]. rewrite Z.geb_leb. destruct (Z.leb_spec 0 (Cmp_time (clock k) (deliver_time s1))).
      + assert (latency_buffer s2 ≠ []) as Hb2.
        { rewrite (sq_buffer _ _ Q12). by apply (arrival_buffer msgs _ (tick s) s1 Ar). }
        destruct (latency_buffer s2) as [|x l] eqn:El; [done|]. destruct (deliver_run msgs (S n) s2 x l V2 Hfew El) as (s3 & E & V' & Hx & _ & Hc).
        exists s3. rewrite decide_True by (split; [done|lia]). split_and!; [done|done|done|apply Hx|by exists x].
      + exists s2. rewrite decide_False by lia. by split_and!. }
  run E3. run (eq_refl (get s3)).
  destruct (rest_run msgs (S n) s3 k (highest_seq_recvd (tick s) >? 0) (outstanding_pkts (tick s) >? 0) V3 Hfew) as (s' & E & V' & Q & Hk').
  { rewrite Z.gtb_ltb. intros H%Z.ltb_lt. rewrite Hh3, (sq_highest _ _ Q12). pose proof (arrival_highest _ _ _ _ Ar). lia. }
  { lia. }
  exists s'. split; [exact E|]. split; [done|]. exists s1, k. split; [done|]. split; [|split; [cbn in Hc1; lia|]].
  - destruct Ar as [Hq|(d & p & i & m & H1 & H2 & H3 & H4 & H5 & H6)]; [left; destruct Hq; by constructor|right].
    exists d, p, i, m. refine (conj H1 (conj H2 (conj H3 (conj H4 (conj H5 _))))). destruct H6. by constructor.
  - case_decide; [|by eapply same_queue_trans; [|eapply same_queue_trans]]. destruct D3 as [x D]. exists x. by eapply handed_same.
Qed.

(** ** Order *)

(** [D] are the numbers that were handed on; what is missing is what lies
    between the head of the buffer and the highest number and is not there. *)
Record ordered (msgs : list (list Z)) (D : list Z) s : Prop := {
  od_sorted : StronglySorted Z.lt (D ++ numbers (latency_buffer s));
  od_delivered : Forall2 (λ i m, 0 ≤ i ∧ msgs !! Z.to_nat i = Some m) D (delivered s);
  od_last : if decide (D ++ numbers (latency_buffer s) = []) then highest_seq_recvd s = 0
    else last (D ++ numbers (latency_buffer s)) = Some (highest_seq_recvd s);
  od_missing : ∀ q, q ∈ missing_pkts s ↔ ∃ x l, latency_buffer s = x :: l ∧ r_seq (i_pkt x) < q < highest_seq_recvd s ∧ q ∉ numbers (x :: l)
}.
(** A data packet is fresh unless its number is the first or the last of those
    that wait, or nothing waits and a later one came before. *)
Definition fresh s (e : option (list Z)) : Prop :=
  ∀ d p, e = Some d → read_rpkt (recv_into sizeof_rpkt (recvd_pkt s) d) = Some p → r_init p = false → r_live p = false → r_nack p = false →
    if decide (latency_buffer s = []) then delivered s = [] ∨ highest_seq_recvd s < r_seq p
    else r_seq p ≠ next_seq_to_deliver s ∧ r_seq p ≠ highest_seq_recvd s.

Lemma sorted_last l h : StronglySorted Z.lt l → last l = Some h → Forall (λ q, q ≤ h) l.
Proof using Type. clear.
  intros Hs Hl. apply last_Some in Hl as [l' ->]. apply StronglySorted_app in Hs as (H & _ & _).
  apply Forall_app_2; [|by constructor]. apply Forall_forall. intros q Hq. specialize (H q h Hq ltac:(left)). lia.
Qed.
Lemma sorted_snoc l q : StronglySorted Z.lt l → Forall (λ x, x < q) l → StronglySorted Z.lt (l ++ [q]).
Proof using Type. clear.
  intros Hs Hf. apply StronglySorted_app_2; [|done|by repeat constructor]. intros x y Hx ->%list_elem_of_singleton. rewrite Forall_forall in Hf. by apply Hf.
Qed.
Lemma wanted_elem next h k q : q ∈ wanted next h 0 k ↔ next < q ∧ h < q ≤ h + Z.of_nat k.
Proof using Type. clear. unfold wanted. rewrite list_elem_of_filter, elem_of_seqZ. lia. Qed.
Lemma ordered_same msgs D s s' : ordered msgs D s → same_queue s s' → ordered msgs D s'.
Proof using Type. clear.
  intros [H1 H2 H3 H4] Q. constructor; rewrite ?(sq_buffer _ _ Q), ?(sq_delivered _ _ Q), ?(sq_highest _ _ Q), ?(sq_missing _ _ Q); done.
Qed.
Lemma ordered_more msgs msgs' D s : ordered msgs D s → ordered (msgs ++ msgs') D s.
Proof using Type. clear.
  intros []. constructor; try done. eapply Forall2_impl; [done|]. intros i m [? ?]. split; [done|]. by apply lookup_app_l_Some.
Qed.
Lemma numbers_app l k : numbers (l ++ k) = numbers l ++ numbers k.
Proof using Type. apply fmap_app. Qed.

(** Handing on the head. *)
Lemma ordered_handed msgs n D x s s' : receives msgs n s → ordered msgs D s → handed x s s' → ordered msgs (D ++ [r_seq (i_pkt x)]) s'.
Proof using Type. clear.
  intros V [Hs Hd Hl Hm] H. pose proof (hd_buffer _ _ _ H) as Hb. rewrite Hb in Hs, Hl.
  change (numbers (x :: latency_buffer s')) with (r_seq (i_pkt x) :: numbers (latency_buffer s')) in Hs, Hl.
  assert ((D ++ [r_seq (i_pkt x)]) ++ numbers (latency_buffer s') = D ++ r_seq (i_pkt x) :: numbers (latency_buffer s')) as E by (by rewrite <-app_assoc).
  constructor.
  - by rewrite E.
  - rewrite (hd_delivered _ _ _ H). apply Forall2_app; [done|]. constructor; [|constructor]. destruct (rv_buffer _ _ _ V) as [_ Hf]. rewrite Hb in Hf.
    apply Forall_cons in Hf as [(i & m & Hi & Hmi & (_ & _ & _ & Hq & Hz & Ht & _)) _]. rewrite Hq, Hz, Nat2Z.id, Ht. split; [lia|done].
  - rewrite E, (hd_highest _ _ _ H). exact Hl.
  - intros q. rewrite (hd_missing _ _ _ H), list_elem_of_filter, Hm, (hd_highest _ _ _ H), (hd_next _ _ _ H), Hb.
    rewrite decide_False in Hl by (by destruct D). apply StronglySorted_app in Hs as (_ & _ & [Hx Hs]%StronglySorted_cons).
    destruct (latency_buffer s') as [|y k].
    + split; [|by intros (? & ? & ? & _)]. intros [_ (x0 & l0 & [= <- <-] & Hr & _)]. change (r_seq (i_pkt x) :: numbers []) with [r_seq (i_pkt x)] in Hl. rewrite last_snoc in Hl. injection Hl. lia.
    + apply Forall_cons in Hx as [Hxy _]. change (numbers (x :: y :: k)) with (r_seq (i_pkt x) :: numbers (y :: k)). split.
      * intros [Hy (x0 & l0 & [= <- <-] & Hr & Hq)]. exists y, k. split; [done|split; [lia|]]. intros Hin. apply Hq. by right.
      * intros (y0 & k0 & [= <- <-] & Hr & Hq). split; [lia|]. exists x, (y :: k). split; [done|split; [lia|]].
        intros [->|Hin]%elem_of_cons; [lia|done].
Qed.

(** An empty buffer: everything is new. *)
Lemma ordered_first msgs n D p s s' : receives msgs n s → ordered msgs D s → arrived p s s' → latency_buffer s = [] → 0 ≤ r_seq p →
  delivered s = [] ∨ highest_seq_recvd s < r_seq p → ordered msgs D s'.
Proof using Type. clear.
  intros V [Hs Hd Hl Hm] Ha Hb Hq Hf. destruct (ar_placed _ _ _ Ha) as (x & Hx & Hp). pose proof (rv_highest _ _ _ V) as Hh.
  unfold placed in Hp. rewrite decide_True in Hp by done. pose proof (ar_highest _ _ _ Ha) as Eh. pose proof (ar_missing _ _ _ Ha) as Em.
  rewrite (ar_next _ _ _ Ha), decide_True in Em by done.
  assert (missing_pkts s = []) as E0.
  { apply elem_of_nil_inv. intros q Hin. apply Hm in Hin as (? & ? & ? & _). congruence. }
  assert (missing_pkts s' = []) as E1.
  { rewrite Em, E0. apply elem_of_nil_inv. intros q [Hin|Hin]%elem_of_app; [|apply wanted_elem in Hin; lia].
    unfold still_missing in Hin. destruct (within _ _ _); [apply list_elem_of_filter in Hin as [_ Hin]|]; by apply not_elem_of_nil in Hin. }
  rewrite Hb in Hs, Hl. change (numbers []) with (@nil Z) in Hs, Hl. rewrite app_nil_r in Hs, Hl.
  assert (highest_seq_recvd s' = r_seq p ∧ Forall (λ i, i < r_seq p) D) as [Eh' HD].
  { destruct D as [|i D].
    - rewrite decide_True in Hl by done. split; [lia|done].
    - rewrite decide_False in Hl by done. destruct Hf as [Hf|Hf]; [rewrite Hf in Hd; by inversion Hd|]. split; [lia|].
      eapply Forall_impl; [by apply sorted_last|]. cbn. lia. }
  constructor; rewrite ?Hp; change (numbers [x]) with [r_seq (i_pkt x)]; rewrite ?Hx.
  - by apply sorted_snoc.
  - by rewrite (ar_delivered _ _ _ Ha).
  - rewrite decide_False by (by destruct D). by rewrite last_snoc, Eh'.
  - intros q. rewrite E1, Eh'. split; [by intros ?%not_elem_of_nil|]. intros (y & l & [= <- <-] & Hr & _). rewrite Hx in Hr. lia.
Qed.

Lemma numbers_elem q l : q ∈ numbers l ↔ ∃ x, x ∈ l ∧ r_seq (i_pkt x) = q.
Proof using Type. clear. unfold numbers. rewrite list_elem_of_fmap. naive_solver. Qed.
(** The state of the queues in one place. *)
Lemma ordered_buffer msgs D s x l : ordered msgs D s → latency_buffer s = x :: l →
  StronglySorted Z.lt (numbers (x :: l)) ∧ last (numbers (x :: l)) = Some (highest_seq_recvd s) ∧
  ∀ i q, i ∈ D → q ∈ numbers (x :: l) → i < q.
Proof using Type. clear.
  intros [Hs _ Hl _] Hb. rewrite Hb in Hs, Hl. rewrite decide_False in Hl by (by destruct D). apply StronglySorted_app in Hs as (H & _ & Hs).
  split; [done|]. split; [|done]. change (numbers (x :: l)) with (r_seq (i_pkt x) :: numbers l) in *. by rewrite last_app_cons in Hl.
Qed.
Lemma ordered_change msgs D s s' x l l' : ordered msgs D s → latency_buffer s = x :: l → latency_buffer s' = x :: l' → delivered s' = delivered s →
  StronglySorted Z.lt (numbers (x :: l')) → last (numbers (x :: l')) = Some (highest_seq_recvd s') →
  (∀ q, q ∈ missing_pkts s' ↔ r_seq (i_pkt x) < q < highest_seq_recvd s' ∧ q ∉ numbers (x :: l')) → ordered msgs D s'.
Proof using Type. clear.
  intros O Hb Hb' Hd' Hs' Hl' Hm'. destruct (ordered_buffer _ _ _ _ _ O Hb) as (Hs & _ & HD). destruct O as [HsD Hd _ _].
  constructor; rewrite ?Hb'.
  - rewrite Hb in HsD. apply StronglySorted_app in HsD as (_ & HsD & _). apply StronglySorted_app_2; [|done|done]. intros i q Hi Hq.
    specialize (HD i (r_seq (i_pkt x)) Hi ltac:(left)). apply StronglySorted_cons in Hs' as [Hx _]. apply elem_of_cons in Hq as [->|Hq]; [done|].
    rewrite Forall_forall in Hx. specialize (Hx q Hq). lia.
  - by rewrite Hd'.
  - rewrite decide_False by (by destruct D). change (numbers (x :: l')) with (r_seq (i_pkt x) :: numbers l') in *. by rewrite last_app_cons.
  - intros q. rewrite Hm'. split; [intros [? ?]; by exists x, l'|]. by intros (y & k & [= <- <-] & ? & ?).
Qed.
Lemma sorted_insert l1 l2 q : StronglySorted Z.lt (l1 ++ l2) → Forall (λ x, x < q) l1 → (∀ x l, l2 = x :: l → q < x) → StronglySorted Z.lt (l1 ++ q :: l2).
Proof using Type. clear.
  intros Hs H1 H2. apply StronglySorted_app in Hs as (H12 & Hs1 & Hs2). rewrite Forall_forall in H1.
  assert (∀ x, x ∈ l2 → q < x) as Hq.
  { destruct l2 as [|y l2]; [by intros x ?%not_elem_of_nil|]. specialize (H2 y l2 eq_refl). apply StronglySorted_cons in Hs2 as [Hy _]. rewrite Forall_forall in Hy.
    intros x [->|Hx]%elem_of_cons; [done|]. specialize (Hy x Hx). lia. }
  apply StronglySorted_app_2; [|done|].
  - intros x1 x2 Hx1 [->|Hx2]%elem_of_cons; [by apply H1|by apply H12].
  - apply StronglySorted_cons. split; [|done]. by apply Forall_forall.
Qed.
Lemma ordered_arrived msgs n D p s s' : receives msgs n s → ordered msgs D s → arrived p s s' → 0 ≤ r_seq p →
  (if decide (latency_buffer s = []) then delivered s = [] ∨ highest_seq_recvd s < r_seq p
   else r_seq p ≠ next_seq_to_deliver s ∧ r_seq p ≠ highest_seq_recvd s) → ordered msgs D s'.
Proof using Type. clear.
  intros V O Ha Hq Hf. case_decide as Hb; [by eapply ordered_first|]. destruct Hf as [Hf1 Hf2].
  destruct (latency_buffer s) as [|x l] eqn:El; [done|]. destruct (ordered_buffer _ _ _ _ _ O El) as (Hs & Hl & _).
  destruct (rv_head _ _ _ V _ _ El) as [Hn _]. destruct (ar_placed _ _ _ Ha) as (y & Hy & Hp). unfold placed in Hp. rewrite El, decide_False in Hp by done.
  pose proof (ar_highest _ _ _ Ha) as Eh. pose proof (ar_missing _ _ _ Ha) as Em. rewrite (ar_next _ _ _ Ha), El, decide_False in Em by done.
  pose proof (sorted_last _ _ Hs Hl) as Hle. rewrite Forall_forall in Hle. pose proof (Hle (r_seq (i_pkt x)) ltac:(left)) as Hxh.
  assert (∀ q, q ∈ missing_pkts s ↔ r_seq (i_pkt x) < q < highest_seq_recvd s ∧ q ∉ numbers (x :: l)) as Hm.
  { intros q. rewrite (od_missing _ _ _ O), El. split; [by intros (? & ? & [= <- <-] & ? & ?)|]. intros [? ?]. by exists x, l. }
  assert (highest_seq_recvd s ∈ numbers (x :: l)) as Hhin by (apply last_Some in Hl as [? ->]; apply elem_of_app; right; left).
  unfold still_missing in Em. rewrite Hy, Hn in Hp. rewrite Hn in Em. destruct (within _ _ _) eqn:Ew.
  - apply andb_true_iff in Ew as [Hw1%Z.ltb_lt Hw2%Z.ltb_lt].
    assert (∀ q, q ∈ missing_pkts s' ↔ q ∈ missing_pkts s ∧ q ≠ r_seq p) as Em'.
    { intros q. rewrite Em, elem_of_app, list_elem_of_filter, wanted_elem. split; [intros [[? ?]|?]; [done|lia]|intros [? ?]; by left]. }
    rewrite Z.max_l in Eh by lia. destruct Hp as ([|x0 pre] & suf & E & Hpre & Hp).
    { cbn in E. subst suf. destruct Hp as [[? _]|[? _]]; lia. }
    injection E as <- El'. destruct suf as [|z suf].
    { rewrite app_nil_r in El'. subst l. apply numbers_elem in Hhin as (w & Hw & Ew). rewrite Forall_forall in Hpre. specialize (Hpre w Hw). lia. }
    destruct Hp as [[Hz Hp]|[Hz Hp]].
    + apply (ordered_change _ _ _ _ _ _ _ O El Hp (ar_delivered _ _ _ Ha) Hs); [by rewrite Eh|]. intros q. rewrite Em', Hm, Eh.
      split; [by intros [? _]|]. intros [? Hnin]. split; [done|]. intros ->. apply Hnin, numbers_elem. exists z. split; [|done].
      subst l. right. apply elem_of_app. right. left.
    + change ((x :: pre) ++ y :: z :: suf) with (x :: pre ++ y :: z :: suf) in Hp.
      assert (numbers (x :: pre ++ y :: z :: suf) = numbers (x :: pre) ++ r_seq p :: numbers (z :: suf)) as En.
      { change (x :: pre ++ y :: z :: suf) with ((x :: pre) ++ y :: z :: suf). rewrite numbers_app. by rewrite <-Hy. }
      assert (numbers (x :: l) = numbers (x :: pre) ++ numbers (z :: suf)) as En0 by (subst l; by rewrite <-numbers_app).
      apply (ordered_change _ _ _ _ _ _ _ O El Hp (ar_delivered _ _ _ Ha)); rewrite ?Eh.
      * rewrite En. rewrite En0 in Hs. apply sorted_insert; [done| |by intros ? ? [= <- _]]. apply Forall_forall. intros q (w & Hw & <-)%numbers_elem. rewrite Forall_forall in Hpre. by apply Hpre.
      * rewrite En, last_app_cons. rewrite En0 in Hl. change (numbers (z :: suf)) with (r_seq (i_pkt z) :: numbers suf) in *. rewrite last_app_cons in Hl. exact Hl.
      * intros q. rewrite Em', Hm, En, En0. rewrite !not_elem_of_app, not_elem_of_cons. naive_solver.
  - destruct (Z.ltb_spec (r_seq p) (r_seq (i_pkt x))).
    + rewrite Z.max_l in Eh by lia. apply (ordered_change _ _ _ _ _ _ _ O El Hp (ar_delivered _ _ _ Ha) Hs); [by rewrite Eh|].
      intros q. rewrite Em, elem_of_app, wanted_elem, Hm, Eh. split; [intros [?|?]; [done|lia]|by left].
    + assert (highest_seq_recvd s < r_seq p) by (apply andb_false_iff in Ew as [?%Z.ltb_ge|?%Z.ltb_ge]; lia).
      rewrite Z.max_r in Eh by lia. change ((x :: l) ++ [y]) with (x :: l ++ [y]) in Hp.
      assert (numbers (x :: l ++ [y]) = numbers (x :: l) ++ [r_seq p]) as En.
      { change (x :: l ++ [y]) with ((x :: l) ++ [y]). rewrite numbers_app. by rewrite <-Hy. }
      apply (ordered_change _ _ _ _ _ _ _ O El Hp (ar_delivered _ _ _ Ha)); rewrite ?En, ?Eh.
      * apply sorted_snoc; [done|]. apply Forall_forall. intros q Hin. specialize (Hle q Hin). lia.
      * by rewrite last_snoc.
      * intros q. rewrite Em, elem_of_app, wanted_elem, Hm, not_elem_of_app, not_elem_of_cons. split.
        -- intros [[? ?]|[? ?]]; split; [lia| |lia|]; (split; [|split; [lia|by apply not_elem_of_nil]]); [done|]. intros Hin. specialize (Hle q Hin). lia.
        -- intros [Hr [Hnin _]]. destruct (decide (q < highest_seq_recvd s)); [left; split; [lia|done]|right].
           assert (q ≠ highest_seq_recvd s) by (intros ->; done). lia.
Qed.

(** ** From the beginning *)

(** What holds before the stream. *)
Definition ready s : Prop := delivered s = [] ∧ length (recvd_pkt s) = 1432%nat ∧ Forall (λ w, w.1 = servaddr ∧ asks w.2) (wire (net_ s)).
Lemma lift_Ret_inv {S B} (o : option B) (x y : S) b : lift o x = Ret b y → o = Some b ∧ y = x.
Proof using Type. unfold lift. destruct o; [by intros [= -> ->]|done]. Qed.
Lemma initialization_ready evs : ∀ q sent recvd s r s', initialization_loop servaddr clock rand q sent recvd evs s = Ret r s' → ready s → ready s'.
Proof using Hclock. clear -Hclock.
  induction evs as [|[d|] evs IH]; intros q sent recvd s r s' H R; cbn [initialization_loop] in H.
  - by injection H as _ <-.
  - apply bind_Ret_inv in H as (p & s1 & Hp & H). apply lift_Ret_inv in Hp as [_ ->].
    destruct (r_init p && _).
    + apply bind_Ret_inv in H as (t & s1 & Ht & H). injection Ht as _ <-. apply bind_Ret_inv in H as (t' & s2 & Ht' & H).
      apply lift_Ret_inv in Ht' as [_ ->]. by injection H as _ <-.
    + destruct (r_nack p); [by injection H as _ <-|]. by eapply IH.
  - apply bind_Ret_inv in H as (now & s1 & Hn & H). injection Hn as <- <-. apply bind_Ret_inv in H as (n & s1 & Hn & H).
    apply lift_Ret_inv in Hn as [_ ->].
    destruct (send_control_run (control true false false (clock (clocks s)) (u32 q)) (tick s)) as (x & E & _ & Hw); [done|].
    erewrite bind_Ret in H by exact E. apply (IH _ _ _ _ _ _ H). destruct R as (R1 & R2 & R3). split; [done|split; [done|]]. rewrite Hw.
    case_match; [done|]. apply Forall_app_2; [done|]. constructor; [|done]. split; [done|]. by apply control_asks.
Qed.
Lemma transmission_receives msgs s s' : ready s → transmission_start clock s = Ret tt s' → receives msgs 0 s' ∧ ordered msgs [] s'.
Proof using Type. clear.
  intros (R1 & R2 & R3) H. injection H as <-. split.
  - constructor; cbn; try done; try lia; [|by rewrite R1|by rewrite R1]. by split_and!; [|constructor|].
  - constructor; cbn; [constructor|rewrite R1; constructor|done|]. intros q. split; [by intros ?%not_elem_of_nil|by intros (? & ? & ? & _)].
Qed.

(** The states of a client that got its stream: [msgs] are the messages of the
    server so far, [n] the turns; [fair] when all data packets were fresh. *)
Inductive playing (fair : bool) (junk : list Z) : list (list Z) → nat → client A → Prop :=
| playing_start j net0 evs s0 s : length junk = 1432%nat → wire net0 = [] →
    initialization_sequence servaddr clock rand junk evs (client_init junk j net0) = Ret (Some (Some (rtt, base_delta))) s0 →
    transmission_protocol servaddr clock rand rtt base_delta latency_window true [] s0 = Ret tt s → playing fair junk [] 0 s
| playing_more msgs msgs' n s : playing fair junk msgs n s → playing fair junk (msgs ++ msgs') n s
| playing_turn msgs n s select s' : playing fair junk msgs n s → few msgs (S n) →
    arrives_opt msgs (select (timeout (clock (clocks s)) (tick s))) →
    (fair = true → fresh s (select (timeout (clock (clocks s)) (tick s)))) →
    turn_ select s = Ret tt s' → playing fair junk msgs (S n) s'.

Lemma turned_ordered msgs n D select s s' : receives msgs n s → few msgs (S n) → ordered msgs D s → turned msgs n select s s' →
  fresh s (select (timeout (clock (clocks s)) (tick s))) → ∃ D', ordered msgs D' s'.
Proof using Hclock Hrtt. clear -Hclock Hrtt.
  intros V Hfew O (s1 & k & V1 & Ar & _ & H) Hf.
  assert (ordered msgs D s1) as O1.
  { destruct Ar as [Q|(d & p & i & m & He & Hi & Hm & Hc & Er & Ha)]; [by eapply ordered_same|]. pose proof Hc as (C1 & C2 & C3 & C4 & _).
    apply (ordered_arrived msgs n D p s s1 V O Ha); [lia|]. by apply (Hf d p He Er). }
  case_decide as Hd; [|exists D; by eapply ordered_same]. destruct H as [x Hx].
  exists (D ++ [r_seq (i_pkt x)]). by eapply ordered_handed.
Qed.
Lemma playing_receives fair junk msgs n s : playing fair junk msgs n s → receives msgs n s ∧ (fair = true → ∃ D, ordered msgs D s).
Proof.
  induction 1 as [j net0 evs s0 s Hj Hw Hi Ht|msgs msgs' n s _ [V O]|msgs n s select s' _ [V O] Hfew Ha Hf Ht].
  - apply initialization_ready in Hi; [|split; [done|split; [done|cbn; rewrite Hw; constructor]]]. unfold transmission_protocol in Ht.
    apply bind_Ret_inv in Ht as ([] & s1 & H1 & Ht). injection Ht as <-. destruct (transmission_receives [] s0 s1 Hi H1) as [V O]. split; [done|]. by exists [].
  - split; [by apply receives_more|]. intros Hfair. destruct (O Hfair) as [D HD]. exists D. by apply ordered_more.
  - destruct (rcv_turn_run msgs n s select V Hfew Ha) as (s2 & E & V2 & T). assert (s2 = s') as -> by congruence. split; [done|].
    intros Hfair. destruct (O Hfair) as [D HD]. exact (turned_ordered _ _ _ _ _ _ V Hfew HD T (Hf Hfair)).
Qed.
Lemma wanted_all next h k : next ≤ h → wanted next h 0 k = seqZ (h + 1) (Z.of_nat k).
Proof using Type. clear.
  intros Hn. unfold wanted. replace (h + 1 + 0) with (h + 1) by lia.
  assert (Forall (λ q, next < q) (seqZ (h + 1) (Z.of_nat k))) as Hf by (apply Forall_forall; intros q ?%elem_of_seqZ; lia).
  induction Hf as [|q l Hq Hf IH]; [done|]. by rewrite filter_cons_True, IH.
Qed.
(** The number of the head is not above the highest. *)
Lemma next_highest msgs n s : receives msgs n s → latency_buffer s ≠ [] → next_seq_to_deliver s ≤ highest_seq_recvd s.
Proof using Type. clear.
  intros V Hb. destruct (latency_buffer s) as [|x l] eqn:El; [done|]. destruct (rv_head _ _ _ V _ _ El) as [-> _].
  destruct (rv_buffer _ _ _ V) as [_ Hf]. rewrite El in Hf. apply Forall_cons in Hf as [(i & m & Hi & _ & (_ & _ & _ & -> & _)) _]. lia.
Qed.
Lemma handed_message msgs n x s s' : receives msgs n s → handed x s s' → ∃ m, msgs !! Z.to_nat (r_seq (i_pkt x)) = Some m ∧ delivered s' = delivered s ++ [m].
Proof using Type. clear.
  intros V H. destruct (rv_buffer _ _ _ V) as [_ Hf]. rewrite (hd_buffer _ _ _ H) in Hf.
  apply Forall_cons in Hf as [(i & m & Hi & Hm & (_ & _ & _ & Hq & Hz & Ht & _)) _]. exists m. by rewrite (hd_delivered _ _ _ H), Hz, Nat2Z.id, Ht, Hq.
Qed.
End client.

(** C22: The streaming client is safe against every network, as long as the
    stream has at most 187000 messages, beyond which the bit count of the
    statistics no longer fits an [int], and there have been fewer than 2^31 - 1
    turns; the clock never goes back, and the round trip time that was measured at
    the start is under 28 minutes, so that 5/4 of its microseconds fit an [int].
    When the data packets that arrive carry messages of the stream (lost, late,
    repeated and in any order, with control packets between), no turn is
    undefined, all the application gets is messages of the stream, and the only
    packets the client sends are control packets to its server that ask for
    packets after the first.  A turn hands on the head of the buffer if its time
    has come and touches the queues in no other way than by what arrived. *)
Theorem client_safe {A} (servaddr : A) clock rand rtt base_delta latency_window fair junk msgs n s :
  (∀ k, time_ok (clock k)) → (∀ k, usecs (clock k) ≤ usecs (clock (S k))) → timeval_to_usec rtt * 5 / 4 < 2147483648 →
  playing servaddr clock rand rtt base_delta latency_window fair junk msgs n s →
  Forall (λ m, m ∈ msgs) (delivered s) ∧ Forall (λ w, w.1 = servaddr ∧ asks w.2) (wire (net_ s)) ∧
  (few msgs (S n) → ∀ select, arrives_opt msgs (select (timeout (clock (clocks s)) (tick s))) →
    ∃ s', turn servaddr clock rand rtt base_delta latency_window select s = Ret tt s' ∧
      turned servaddr clock base_delta latency_window msgs n select s s').
Proof.
  intros Hc Hm Hr P. destruct (playing_receives _ _ _ _ _ _ Hc Hm Hr _ _ _ _ _ P) as [V _]. split; [apply V|split; [apply V|]].
  intros Hfew select Ha. destruct (rcv_turn_run servaddr clock rand rtt base_delta latency_window Hc Hm Hr msgs n s select V Hfew Ha) as (s' & E & _ & T). by exists s'.
Qed.

(** C8: With fresh data packets, that is when no packet comes again that is the
    first or the last of those that wait, and none comes after all that were
    sent before it have been handed on, the application gets a subsequence of the
    stream: the numbers of the packets it was given increase.  And the client
    misses exactly what it should: the numbers between the first that waits and
    the highest that came which do not wait themselves. *)
Theorem stream_in_order {A} (servaddr : A) clock rand rtt base_delta latency_window junk msgs n s :
  (∀ k, time_ok (clock k)) → (∀ k, usecs (clock k) ≤ usecs (clock (S k))) → timeval_to_usec rtt * 5 / 4 < 2147483648 →
  playing servaddr clock rand rtt base_delta latency_window true junk msgs n s →
  ∃ D, StronglySorted Z.lt (D ++ numbers (latency_buffer s)) ∧ Forall2 (λ i m, 0 ≤ i ∧ msgs !! Z.to_nat i = Some m) D (delivered s) ∧
    ∀ q, q ∈ missing_pkts s ↔ ∃ x l, latency_buffer s = x :: l ∧ r_seq (i_pkt x) < q < highest_seq_recvd s ∧ q ∉ numbers (x :: l).
Proof.
  intros Hc Hm Hr P. destruct (playing_receives _ _ _ _ _ _ Hc Hm Hr _ _ _ _ _ P) as [_ O]. destruct (O eq_refl) as [D []]. by exists D.
Qed.

(** A gap is asked for at once: when packets wait and a data packet arrives
    whose number is beyond the next, every number between goes on the list of
    missing packets and, unless the simulated network loses it, a NACK for it to
    the server, in order and nothing else. *)
Theorem gap_requested {A} (servaddr : A) clock rand rtt base_delta latency_window fair junk msgs n s d p :
  (∀ k, time_ok (clock k)) → (∀ k, usecs (clock k) ≤ usecs (clock (S k))) → timeval_to_usec rtt * 5 / 4 < 2147483648 →
  playing servaddr clock rand rtt base_delta latency_window fair junk msgs n s → few msgs (S n) → cutoff (net_ s) ≤ 0 →
  is_stream msgs d → read_rpkt (recv_into sizeof_rpkt (recvd_pkt s) d) = Some p →
  latency_buffer s ≠ [] → highest_seq_recvd s + 1 < r_seq p →
  let gap := seqZ (highest_seq_recvd s + 1) (r_seq p - highest_seq_recvd s - 1) in
  ∃ s' ws, handle_packet servaddr clock rand rtt base_delta latency_window d s = Ret tt s' ∧
    wire (net_ s') = wire (net_ s) ++ ws ∧ nacks servaddr clock gap ws ∧ missing_pkts s' = missing_pkts s ++ gap.
Proof.
  intros Hc Hm Hr P Hfew Hcut Hd Ep Hb Hq gap. destruct (playing_receives _ _ _ _ _ _ Hc Hm Hr _ _ _ _ _ P) as [V _].
  destruct (stream_run servaddr clock rand rtt base_delta latency_window Hc Hr msgs n s d V Hfew Hd) as (s' & p' & i & m & E & _ & Ep' & _ & _ & _ & Ha).
  assert (p' = p) as -> by congruence. pose proof (next_highest _ _ _ _ _ _ V Hb) as Hn.
  destruct (ar_requested _ _ _ _ _ _ _ Ha) as [_ Hw]. destruct (Hw Hcut) as (ws & Ew & Hws). pose proof (ar_missing _ _ _ _ _ _ _ Ha) as Em.
  rewrite (ar_next _ _ _ _ _ _ _ Ha), decide_False, wanted_all, Z2Nat.id in Hws by (done || lia).
  rewrite (ar_next _ _ _ _ _ _ _ Ha), decide_False, wanted_all, Z2Nat.id in Em by (done || lia).
  exists s', ws. split; [done|]. split; [done|]. split; [exact Hws|]. rewrite Em. unfold still_missing, within.
  by rewrite (proj2 (Z.ltb_ge (r_seq p) _)), andb_false_r by lia.
Qed.

(** Without that assumption the application can get a packet twice and out of
    order: a data packet that comes when its like is the only one that waits is
    put behind it, and both are handed on; and one that comes when nothing waits
    is handed on whatever its number, also when that was given up or handed on
    long ago. *)
Theorem repeats_handed_on {A} (servaddr : A) clock rand rtt base_delta latency_window fair junk msgs n s d p :
  (∀ k, time_ok (clock k)) → (∀ k, usecs (clock k) ≤ usecs (clock (S k))) → timeval_to_usec rtt * 5 / 4 < 2147483648 →
  playing servaddr clock rand rtt base_delta latency_window fair junk msgs n s → few msgs (S n) →
  is_stream msgs d → read_rpkt (recv_into sizeof_rpkt (recvd_pkt s) d) = Some p →
  ∃ m s1 s2, msgs !! Z.to_nat (r_seq p) = Some m ∧ handle_packet servaddr clock rand rtt base_delta latency_window d s = Ret tt s1 ∧
    ((∃ x, latency_buffer s = [x] ∧ r_seq (i_pkt x) = r_seq p) → deliver base_delta latency_window s1 = Ret tt s2 ∧
      ∃ s3, deliver base_delta latency_window s2 = Ret tt s3 ∧ delivered s3 = delivered s ++ [m; m]) ∧
    (latency_buffer s = [] → deliver base_delta latency_window s1 = Ret tt s2 ∧ delivered s2 = delivered s ++ [m]).
Proof.
  intros Hc Hm Hr P Hfew Hd Ep. destruct (playing_receives _ _ _ _ _ _ Hc Hm Hr _ _ _ _ _ P) as [V _].
  destruct (stream_run servaddr clock rand rtt base_delta latency_window Hc Hr msgs n s d V Hfew Hd) as (s1 & p' & i & m & E & V1 & Ep' & _ & Hmi & (_ & _ & _ & Hqi & _) & Ha).
  assert (p' = p) as -> by congruence. destruct (ar_placed _ _ _ _ _ _ _ Ha) as (y & Hy & Hp). rewrite <-Hqi in Hmi. unfold placed in Hp.
  destruct (latency_buffer s) as [|x [|x' l]] eqn:Eb.
  - rewrite decide_True in Hp by done. destruct (deliver_run _ _ _ _ _ _ y [] V1 Hfew Hp) as (s2 & Ed & _ & H2 & _).
    destruct (handed_message _ _ _ _ _ _ _ _ V1 H2) as (m2 & Hm2 & Hd2). rewrite Hy, Hmi in Hm2. injection Hm2 as <-.
    exists m, s1, s2. split; [done|]. split; [done|]. split; [by intros (? & ? & _)|]. intros _. split; [done|]. by rewrite Hd2, (ar_delivered _ _ _ _ _ _ _ Ha).
  - destruct (decide (r_seq (i_pkt x) = r_seq p)) as [Hx|Hx]; cycle 1.
    { exists m, s1, s1. split; [done|]. split; [done|]. split; [|done]. by intros (? & [= <-] & ?). }
    rewrite decide_False in Hp by done. destruct (rv_head _ _ _ _ _ _ V _ _ Eb) as [Hn _]. unfold within in Hp.
    rewrite Hy, Hn, Hx, Z.ltb_irrefl in Hp. cbn [andb app] in Hp.
    destruct (deliver_run _ _ _ _ _ _ x [y] V1 Hfew Hp) as (s2 & Ed & V2 & H2 & _). destruct (handed_message _ _ _ _ _ _ _ _ V1 H2) as (m2 & Hm2 & Hd2).
    pose proof (hd_buffer _ _ _ H2) as Hb2. rewrite Hp in Hb2. injection Hb2 as Hb2.
    destruct (deliver_run _ _ _ _ _ _ y [] V2 Hfew (eq_sym Hb2)) as (s3 & Ed3 & _ & H3 & _). destruct (handed_message _ _ _ _ _ _ _ _ V2 H3) as (m3 & Hm3 & Hd3).
    rewrite Hx, Hmi in Hm2. injection Hm2 as <-. rewrite Hy, Hmi in Hm3. injection Hm3 as <-.
    exists m, s1, s2. split; [done|]. split; [done|]. split; [|done]. intros _. split; [done|]. exists s3. split; [done|].
    by rewrite Hd3, Hd2, (ar_delivered _ _ _ _ _ _ _ Ha), <-app_assoc.
  - exists m, s1, s1. split; [done|]. split; [done|]. split; [by intros (? & ? & _)|done].
Qed.

(** ** A run *)

Definition demo_clock (n : nat) : timeval := (5, 0).
Definition demo_rand (n : nat) : Z := 255.
Definition demo_junk : list Z := replicate 1432 9.
Definition demo_net : net Z := mk_net true 0 0 [].
(** The stream, and its packets on the wire. *)
Definition demo_msgs : list (list Z) := [[1; 2]; [3]; [4; 5; 6]].
Definition demo_packet (i : Z) : rpkt :=
  let m := nth (Z.to_nat i) demo_msgs [] in mk_rpkt false false false 5 0 i (Z.of_nat (length m)) (m ++ replicate (1400 - length m) 0).
Definition demo_dgram (i : Z) : list Z := take (32 + length (nth (Z.to_nat i) demo_msgs [])) (rpkt_bytes (demo_packet i)).
Definition demo_reply : list Z := take 32 (rpkt_bytes (control true false false (5, 0) 0)).
Definition demo_turn (select : option timeval → option (list Z)) : prog (client Z) unit := turn 3 demo_clock demo_rand (0, 0) (0, 0) (0, 0) select.
Definition demo_playing (fair : bool) : list (list Z) → nat → client Z → Prop :=
  playing 3 demo_clock demo_rand (0, 0) (0, 0) (0, 0) fair demo_junk.
Definition ended {S B} (o : outcome S B) (d : S) : S := match o with Ret _ s => s | _ => d end.
Definition demo_begin : client Z :=
  ended (initialization_sequence 3 demo_clock demo_rand demo_junk [None; Some demo_reply] (client_init demo_junk (0, 0) demo_net)) (client_init demo_junk (0, 0) demo_net).
Definition demo0 : client Z := ended (transmission_protocol 3 demo_clock demo_rand (0, 0) (0, 0) (0, 0) true [] demo_begin) demo_begin.
(** Packet 0 has arrived; then packet 1 does and packet 0 is handed on. *)
Definition demo1 : client Z := ended (demo_turn (λ _, Some (demo_dgram 0)) demo0) demo0.
Definition demo2 : client Z := ended (demo_turn (λ _, Some (demo_dgram 1)) demo1) demo1.

Lemma rcv_demo_env : (∀ k, time_ok (demo_clock k)) ∧ (∀ k, usecs (demo_clock k) ≤ usecs (demo_clock (S k))) ∧ timeval_to_usec (0, 0) * 5 / 4 < 2147483648.
Proof. split; [|split; [done|by vm_compute]]. intros k. split; [split; cbn; lia|cbn; lia]. Qed.
Lemma demo_stream i : i ∈ [0; 1; 2] → is_stream demo_msgs (demo_dgram i).
Proof.
  intros Hi. set (m := nth (Z.to_nat i) demo_msgs []).
  assert (0 ≤ i < 3 ∧ demo_msgs !! Z.to_nat i = Some m ∧ (length m ≤ 3)%nat) as (Hr & Hm & Hl) by (elem_cases Hi; (split; [lia|split; [done|unfold m; simpl; lia]])).
  exists i, m, (demo_packet i), (32 + length m)%nat. split; [lia|split; [done|split; [|split; [lia|done]]]].
  assert (length (m ++ replicate (1400 - length m) 0) = 1400%nat) as Hp by (rewrite length_app, length_replicate; lia).
  refine (conj eq_refl (conj eq_refl (conj eq_refl (conj eq_refl (conj eq_refl (conj _ _)))))).
  - cbn [demo_packet r_payload]. fold m. by rewrite take_app_length.
  - unfold rpkt_ok, is_i32, is_u32. cbn [demo_packet r_sec r_usec r_seq r_size r_payload]. fold m. rewrite Hp. lia.
Qed.
Lemma rcv_demo_step fair n s i : demo_playing fair demo_msgs n s → few demo_msgs (S n) → i ∈ [0; 1; 2] →
  (fair = true → fresh s (Some (demo_dgram i))) → demo_playing fair demo_msgs (S n) (ended (demo_turn (λ _, Some (demo_dgram i)) s) s).
Proof.
  intros P Hfew Hi Hf. destruct rcv_demo_env as (H1 & H2 & H3).
  assert (arrives_opt demo_msgs (Some (demo_dgram i))) as Ha by (left; by apply demo_stream).
  destruct (playing_receives _ _ _ _ _ _ H1 H2 H3 _ _ _ _ _ P) as [V _].
  destruct (rcv_turn_run 3 demo_clock demo_rand (0, 0) (0, 0) (0, 0) H1 H2 H3 demo_msgs n s (λ _, Some (demo_dgram i)) V Hfew Ha) as (s' & E & _).
  assert (ended (demo_turn (λ _, Some (demo_dgram i)) s) s = s') as -> by (unfold demo_turn; by rewrite E).
  exact (playing_turn _ _ _ _ _ _ _ _ _ _ _ (λ _, Some (demo_dgram i)) _ P Hfew Ha Hf E).
Qed.
Lemma demo_playing0 fair : demo_playing fair demo_msgs 0 demo0.
Proof.
  apply (playing_more _ _ _ _ _ _ _ _ [] demo_msgs). eapply (playing_start _ _ _ _ _ _ _ _ (0, 0) demo_net [None; Some demo_reply] demo_begin); reflexivity.
Qed.
Lemma demo_playing1 fair : demo_playing fair demo_msgs 1 demo1.
Proof.
  apply rcv_demo_step; [apply demo_playing0|done|left|]. intros _ d p [= <-] Ep _ _ _. by left.
Qed.
Lemma demo_view1 : numbers (latency_buffer demo1) = [0] ∧ next_seq_to_deliver demo1 = 0 ∧ highest_seq_recvd demo1 = 0 ∧ cutoff (net_ demo1) = 0.
Proof. refine (conj _ (conj _ (conj _ _))); vm_compute; reflexivity. Qed.
Lemma numbers_nil l : numbers l = [] ↔ l = [].
Proof. unfold numbers. split; [apply fmap_nil_inv|by intros ->]. Qed.
Lemma demo_read1 i : i ∈ [0; 1; 2] → r_seq <$> read_rpkt (recv_into sizeof_rpkt (recvd_pkt demo1) (demo_dgram i)) = Some i.
Proof. intros Hi. elem_cases Hi; vm_compute; reflexivity. Qed.
Lemma demo_playing2 fair : demo_playing fair demo_msgs 2 demo2.
Proof.
  apply rcv_demo_step; [apply demo_playing1|done|right; left|]. intros _ d p [= <-] Ep _ _ _.
  pose proof (demo_read1 1 ltac:(right; left)) as Er. rewrite Ep in Er. injection Er as Er.
  destruct demo_view1 as (E1 & E2 & E3 & Ec). rewrite decide_False by (rewrite <-numbers_nil, E1; done). lia.
Qed.

Lemma demo_few : few demo_msgs 2.
Proof. done. Qed.
#[local] Opaque demo0 demo1 demo2 demo_dgram.
Lemma client_safe_witness : ∃ s', demo_turn (λ _, None) demo2 = Ret tt s' ∧ Forall (λ m, m ∈ demo_msgs) (delivered demo2).
Proof.
  destruct rcv_demo_env as (H1 & H2 & H3).
  destruct (client_safe 3 demo_clock demo_rand (0, 0) (0, 0) (0, 0) false demo_junk demo_msgs 2 demo2 H1 H2 H3 (demo_playing2 false)) as (Hd & _ & H).
  destruct (H ltac:(done) (λ _, None) I) as (s' & E & _). exists s'. split; [exact E|exact Hd].
Defined.
Lemma stream_in_order_witness : ∃ D, StronglySorted Z.lt (D ++ numbers (latency_buffer demo2)) ∧
  Forall2 (λ i m, 0 ≤ i ∧ demo_msgs !! Z.to_nat i = Some m) D (delivered demo2).
Proof.
  destruct rcv_demo_env as (H1 & H2 & H3).
  destruct (stream_in_order 3 demo_clock demo_rand (0, 0) (0, 0) (0, 0) demo_junk demo_msgs 2 demo2 H1 H2 H3 (demo_playing2 true)) as (D & Hs & Hd & _).
  by exists D.
Defined.
Lemma gap_requested_witness : ∃ s' ws, handle_packet 3 demo_clock demo_rand (0, 0) (0, 0) (0, 0) (demo_dgram 2) demo1 = Ret tt s' ∧
  nacks 3 demo_clock [1] ws ∧ missing_pkts s' = missing_pkts demo1 ++ [1].
Proof.
  destruct rcv_demo_env as (H1 & H2 & H3). pose proof (demo_read1 2 ltac:(do 2 right; left)) as Er.
  destruct (read_rpkt (recv_into sizeof_rpkt (recvd_pkt demo1) (demo_dgram 2))) as [p|] eqn:Ep; [|discriminate Er]. injection Er as Er.
  destruct demo_view1 as (E1 & E2 & E3 & Ec).
  assert (cutoff (net_ demo1) ≤ 0) as F2 by (by rewrite Ec).
  assert (is_stream demo_msgs (demo_dgram 2)) as F3 by (apply demo_stream; do 2 right; left).
  assert (latency_buffer demo1 ≠ []) as F4 by (rewrite <-numbers_nil, E1; discriminate).
  assert (highest_seq_recvd demo1 + 1 < r_seq p) as F5 by (rewrite E3, Er; done).
  pose proof (gap_requested 3 demo_clock demo_rand (0, 0) (0, 0) (0, 0) false demo_junk demo_msgs 1 demo1 (demo_dgram 2) p H1 H2 H3 (demo_playing1 false) demo_few F2 F3 Ep F4 F5) as G.
  destruct G as (s' & ws & E & _ & Hw & Hm).
  rewrite E3, Er in Hw, Hm. exists s', ws. split; [exact E|split; [exact Hw|exact Hm]].
Defined.
Lemma repeats_handed_on_witness : ∃ s1 s2 s3, handle_packet 3 demo_clock demo_rand (0, 0) (0, 0) (0, 0) (demo_dgram 0) demo1 = Ret tt s1 ∧
  deliver (0, 0) (0, 0) s1 = Ret tt s2 ∧ deliver (0, 0) (0, 0) s2 = Ret tt s3 ∧ delivered s3 = delivered demo1 ++ [[1; 2]; [1; 2]].
Proof.
  destruct rcv_demo_env as (H1 & H2 & H3). pose proof (demo_read1 0 ltac:(left)) as Er.
  destruct (read_rpkt (recv_into sizeof_rpkt (recvd_pkt demo1) (demo_dgram 0))) as [p|] eqn:Ep; [|discriminate Er]. injection Er as Er.
  destruct demo_view1 as (E1 & E2 & E3 & Ec).
  assert (is_stream demo_msgs (demo_dgram 0)) as F3 by (apply demo_stream; left).
  pose proof (repeats_handed_on 3 demo_clock demo_rand (0, 0) (0, 0) (0, 0) false demo_junk demo_msgs 1 demo1 (demo_dgram 0) p H1 H2 H3 (demo_playing1 false) demo_few F3 Ep) as G.
  destruct G as (m & s1 & s2 & Hm & E & Htwo & _).
  destruct Htwo as (Ed & s3 & Ed3 & Hd).
  { unfold numbers in E1. destruct (latency_buffer demo1) as [|x [|]]; [discriminate E1| |discriminate E1]. exists x. injection E1 as E1. split; [done|lia]. }
  rewrite Er in Hm. injection Hm as <-. exists s1, s2, s3. split; [exact E|split; [exact Ed|split; [exact Ed3|exact Hd]]].
Defined.
