(* ===== verification/RtStream.v ===== *)
(** * The stream from end to end

    The server of rt_srv.c and a client of rt_rcv.c it has accepted, with a
    network between them that may lose, delay, repeat and reorder datagrams and
    carries those of others too: what the application of the client gets is what
    the application of the server sent. *)
From S2P Require Import Prelude Stdio Bytes Clock Upkt SendtoDbg RtPkt RtSrv RtSrvSpec RtRcv RtRcvSpec.
Open Scope Z_scope.

(** ** A server that serves goes on serving *)

Definition occupied {A} (s : srv A) : Prop := RtSrv.state s ≠ FREE.
Section server.
Context {A : Type} (getnameinfo : A → option (list Z * list Z)) (getaddrinfo : list Z → list Z → option A).
Context (clock : nat → timeval) (rand : nat → Z) (malloc : nat → Z → option Z) (junk : list Z).
Implicit Types (s : srv A).
Lemma occupied_modify (f : srv A → srv A) : (∀ s, RtSrv.state (f s) = RtSrv.state s ∨ RtSrv.state (f s) ≠ FREE) → keeps occupied (modify f).
Proof using Type. clear. intros Hf. apply keeps_modify. intros s. unfold occupied. destruct (Hf s) as [->|H]; done. Qed.
Lemma occupied_time : keeps occupied (RtSrv.gettimeofday (A:=A) clock).
Proof using Type. clear. intros s H. exact H. Qed.
Lemma occupied_sendto b l (dst : A) : keeps occupied (RtSrv.sendto rand b l dst).
Proof using Type. clear. intros s H. unfold RtSrv.sendto, zoom. by destruct (sendto_dbg _ _ _ _ _). Qed.
Lemma occupied_slot i f : keeps occupied (RtSrv.set_slot (A:=A) i f).
Proof using Type. clear.
  unfold RtSrv.set_slot. apply keeps_updates. intros s s' H. destruct (aget _ _); [|done]. cbn. destruct (aset _ _ _); [|done]. by intros [= <-].
Qed.
#[local] Hint Resolve occupied_time occupied_sendto occupied_slot : frame.
#[local] Hint Extern 1 (keeps _ (modify _)) => (apply occupied_modify; first [by left|by right]) : frame.
Lemma turn_occupied e : keeps occupied (RtSrv.turn getnameinfo getaddrinfo clock rand malloc junk e).
Proof using Type. clear.
  unfold RtSrv.turn, handle_app, handle_client, handle_init, handle_live, handle_nack, RtSrv.report, begin_stream, is_receiver, respond, copy_string.
  keep.
Qed.
End server.

(** ** The two together *)

Section stream.
Context {A : Type} (getnameinfo : A → option (list Z * list Z)) (getaddrinfo : list Z → list Z → option A).
Context (srv_clock : nat → timeval) (srv_rand : nat → Z) (malloc : nat → Z → option Z) (srv_junk : list Z).
Context (servaddr : A) (clock : nat → timeval) (rand : nat → Z) (rtt base_delta latency_window : timeval) (junk : list Z).
Abbreviation srv_turn := (RtSrv.turn getnameinfo getaddrinfo srv_clock srv_rand malloc srv_junk).
Abbreviation cli_turn := (RtRcv.turn servaddr clock rand rtt base_delta latency_window).

(** What the server may meet: its application may send anything; from the
    network comes what the client has sent, or other requests like it; counters
    and the scheduler as for the server alone. *)
Definition srv_event (s : srv A) (c : client A) (e : event A) : Prop :=
  (∀ from d, client_sock e = Some (from, d) → (∃ a, (a, d) ∈ wire (RtRcv.net_ c)) ∨ asks d) ∧
  pkt_retransmissions s < 2147483647 ∧
  (first_data_pkt_rcvd s = false → usecs (srv_clock (S (RtSrv.clocks s))) ≤ usecs (srv_clock (RtSrv.clocks s)) + 4000000).
(** What the client may meet: what the server has sent, to anyone. *)
Definition cli_event (s : srv A) (e : option (list Z)) : Prop := ∀ d, e = Some d → ∃ a, (a, d) ∈ wire (RtSrv.net_ s).
Definition timeout_of (c : client A) : option timeval := RtRcv.timeout (clock (RtRcv.clocks c)) (tick c).

(** The runs, from the moment the client was accepted. *)
Inductive stream : list (list Z) → nat → srv A → client A → Prop :=
| stream_start s c :
    serving getnameinfo getaddrinfo srv_clock srv_rand malloc srv_junk [] s → occupied s →
    playing servaddr clock rand rtt base_delta latency_window false junk [] 0 c → stream [] 0 s c
| stream_server msgs n s c e s' :
    stream msgs n s c → RtSrvSpec.few msgs → srv_event s c e → srv_turn e s = Ret tt s' → stream (sent msgs s e) n s' c
| stream_client msgs n s c select c' :
    stream msgs n s c → RtRcvSpec.few msgs (S n) → cli_event s (select (timeout_of c)) →
    cli_turn select c = Ret tt c' → stream msgs (S n) s c'.

Hypothesis Haddr : ∀ h p, is_Some (getaddrinfo h p).
Hypothesis Hsclock : ∀ n, time_ok (srv_clock n).
Hypothesis Hjunk : length srv_junk = 1432%nat.
Hypothesis Hclock : ∀ k, time_ok (clock k).
Hypothesis Hmono : ∀ k, usecs (clock k) ≤ usecs (clock (S k)).
Hypothesis Hrtt : timeval_to_usec rtt * 5 / 4 < 2147483648.

Lemma sent_app msgs (s : srv A) e : ∃ l, sent msgs s e = msgs ++ l.
Proof using Type. clear.
  unfold sent. destruct (RtSrv.state s), (app_sock e); first [by eexists|exists []; by rewrite app_nil_r].
Qed.
(** Requests of the client never meet a server that does not know it. *)
Lemma srv_admissible (s : srv A) c n msgs e : occupied s → receives servaddr base_delta latency_window msgs n c → srv_event s c e → admissible srv_clock s e.
Proof using Type. clear.
  intros Ho V (He & Hr & Ht). split; [|done]. destruct (client_sock e) as [[from d]|]; [|done].
  assert (asks d) as (p & Hp & Hq).
  { destruct (He from d eq_refl) as [[a Ha]|H]; [|done]. pose proof (rv_wire _ _ _ _ _ _ V) as Hw. rewrite Forall_forall in Hw. apply (Hw _ Ha). }
  exists p. split; [done|]. intros Hx. split; [by apply Hq|done].
Qed.
Lemma occupied_bears (s : srv A) e : occupied s → faults getnameinfo malloc srv_junk s e = false.
Proof using Type. clear. unfold occupied, faults, client_faults. intros Ho. destruct (client_sock e) as [[from d]|]; [|done]. by destruct (RtSrv.state s). Qed.
Lemma cli_arrives (s : srv A) msgs e : serves msgs s → cli_event s e → arrives_opt msgs e.
Proof using Type. clear.
  intros V He. destruct e as [d|]; [|done]. destruct (He d eq_refl) as [a Ha]. pose proof (sv_wire _ _ V) as Hw. rewrite Forall_forall in Hw. apply (Hw _ Ha).
Qed.
Lemma stream_parts msgs n s c : stream msgs n s c →
  serving getnameinfo getaddrinfo srv_clock srv_rand malloc srv_junk msgs s ∧ occupied s ∧
  playing servaddr clock rand rtt base_delta latency_window false junk msgs n c.
Proof.
  induction 1 as [s c Hs Ho Hc|msgs n s c e s' _ (Hs & Ho & Hc) Hfew He Ht|msgs n s c select c' _ (Hs & Ho & Hc) Hfew He Ht]; [done|..].
  - destruct (playing_receives _ _ _ _ _ _ Hclock Hmono Hrtt _ _ _ _ _ Hc) as [V _]. split; [|split].
    + eapply serving_turn; [done|done|by eapply srv_admissible|done].
    + by apply (keeps_Ret _ _ _ _ _ (turn_occupied _ _ _ _ _ _ e)) in Ht.
    + destruct (sent_app msgs s e) as [l ->]. by apply playing_more.
  - split; [done|split; [done|]]. eapply playing_turn; [done|done| |done|done]. exact (cli_arrives s msgs _ (serving_serves _ _ _ _ _ _ Haddr Hsclock Hjunk _ _ Hs) He).
Qed.
End stream.

(** C2: End to end: after any number of turns of the server and of a client that
    it has accepted, with any network between them, every message the application
    of the client was given is one that the application of the server sent; and
    both can take their next turn without undefined behaviour, in particular the
    client never sends what the server cannot bear, as long as the counters fit:
    fewer than 187000 messages sent, at which the bit counts of the statistics
    overflow, and fewer turns of the client and retransmissions of the server than
    an [int] can count.  Besides the client, others may send the server the same
    kinds of requests.  The clock of the client never goes back, and the round
    trip time that it measured at the start is under 28 minutes, so that 5/4 of
    its microseconds fit an [int]; the clock of the server does not advance 4
    seconds between its two readings at the beginning of the stream. *)
Theorem stream_end_to_end {A} (getnameinfo : A → option (list Z * list Z)) getaddrinfo srv_clock srv_rand malloc srv_junk
    servaddr clock rand rtt base_delta latency_window junk msgs n s c :
  (∀ h p, is_Some (getaddrinfo h p)) → (∀ k, time_ok (srv_clock k)) → length srv_junk = 1432%nat →
  (∀ k, time_ok (clock k)) → (∀ k, usecs (clock k) ≤ usecs (clock (S k))) → timeval_to_usec rtt * 5 / 4 < 2147483648 →
  stream getnameinfo getaddrinfo srv_clock srv_rand malloc srv_junk servaddr clock rand rtt base_delta latency_window junk msgs n s c →
  Forall (λ m, m ∈ msgs) (delivered c) ∧
  (RtSrvSpec.few msgs → ∀ e, srv_event srv_clock s c e → ∃ s', RtSrv.turn getnameinfo getaddrinfo srv_clock srv_rand malloc srv_junk e s = Ret tt s') ∧
  (RtRcvSpec.few msgs (S n) → ∀ select, cli_event s (select (timeout_of clock c)) →
    ∃ c', RtRcv.turn servaddr clock rand rtt base_delta latency_window select c = Ret tt c').
Proof.
  intros H2 H3 H5 H6 H7 H8 W.
  destruct (stream_parts _ _ _ _ _ _ _ _ _ _ _ _ _ H2 H3 H5 H6 H7 H8 _ _ _ _ W) as (Hs & Ho & Hc).
  destruct (playing_receives _ _ _ _ _ _ H6 H7 H8 _ _ _ _ _ Hc) as [V _]. pose proof (serving_serves _ _ _ _ _ _ H2 H3 H5 _ _ Hs) as Vs.
  split; [apply V|split].
  - intros Hfew e He. pose proof (RtSrvSpec.srv_turn_run getnameinfo _ _ srv_rand malloc _ H2 H3 H5 msgs s e Vs Hfew) as Ht.
    rewrite occupied_bears in Ht by done. destruct Ht as (s' & E & _); [by eapply srv_admissible|by exists s'].
  - intros Hfew select He. destruct (RtRcvSpec.rcv_turn_run servaddr clock rand rtt base_delta latency_window H6 H7 H8 msgs n c select V Hfew) as (c' & E & _);
      [by eapply cli_arrives|by exists c'].
Qed.

(** The two runs of RtSrvSpec.v and RtRcvSpec.v together: the server that has
    accepted a client, and the client before its first turn. *)
Definition demo_client : client Z := RtRcvSpec.demo0.
Definition demo_server : srv Z := RtSrvSpec.demo2.
Lemma demo_start : stream demo_name demo_addr RtSrvSpec.demo_clock RtSrvSpec.demo_rand demo_malloc RtSrvSpec.demo_junk
  3 RtRcvSpec.demo_clock RtRcvSpec.demo_rand (0, 0) (0, 0) (0, 0) RtRcvSpec.demo_junk [] 0 demo_server demo_client.
Proof.
  apply stream_start; [apply demo_serving2|vm_compute; discriminate|].
  eapply (playing_start _ _ _ _ _ _ _ _ (0, 0) RtRcvSpec.demo_net [None; Some demo_reply] demo_begin); reflexivity.
Qed.
Lemma stream_end_to_end_witness : ∃ c', RtRcvSpec.demo_turn (λ _, None) demo_client = Ret tt c'.
Proof.
  destruct RtSrvSpec.srv_demo_env as (H2 & H3 & H5). destruct RtRcvSpec.rcv_demo_env as (H6 & H7 & H8).
  destruct (stream_end_to_end demo_name demo_addr RtSrvSpec.demo_clock RtSrvSpec.demo_rand demo_malloc RtSrvSpec.demo_junk
    3 RtRcvSpec.demo_clock RtRcvSpec.demo_rand (0, 0) (0, 0) (0, 0) RtRcvSpec.demo_junk [] 0 demo_server demo_client H2 H3 H5 H6 H7 H8 demo_start) as (_ & _ & H).
  refine (H _ (λ _, None) _); [split; [cbn; lia|done]|intros d Hd; discriminate Hd].
Defined.
