(* ===== verification/StrTable.v ===== *)
(** * The string table of the compiler

    CS2210/table.c: identifiers and string constants are stored once, one after
    the other, in [strg_tbl], and found again through a hash table with chained
    overflow.  Characters are [Z]; [text] is the text of a token, which the
    scanner ends with a null byte; its length is [yyleng].  A chain is a list
    here: elements are only appended, never freed.  Output is left out. *)
From S2P Require Import Prelude.
Open Scope Z_scope.

Definition TBL_LEN : Z := 101.
Definition STRTBL_LEN : Z := 3001.
Definition STR_SPRTR : Z := 0.

(** ** Data *)

Record hash_ele := mk_hash_ele { tok_id : Z; tok_len : Z; str_index : Z }.

Record strtab := mk_strtab {
  hash_tbl : list (list hash_ele);
  strg_tbl : list Z;
  last : Z
}.

Definition put_hash (b : Z) (c : list hash_ele) (t : strtab) : option strtab :=
  h ← aset (hash_tbl t) b c; Some (mk_strtab h (strg_tbl t) (last t)).
Definition put_char (c : Z) (t : strtab) : option strtab :=
  s ← aset (strg_tbl t) (last t) c; Some (mk_strtab (hash_tbl t) s (last t)).
Definition incr_last (t : strtab) : strtab := mk_strtab (hash_tbl t) (strg_tbl t) (last t + 1).

Definition init_hash_tbl (t : strtab) : strtab :=
  mk_strtab (replicate (Z.to_nat TBL_LEN) []) (strg_tbl t) (last t).
Definition init_string_tbl (t : strtab) : strtab :=
  mk_strtab (hash_tbl t) (replicate (Z.to_nat STRTBL_LEN) 0) (last t).

(** ** The C library *)

(** [strncmp(a, b, n) == 0]; [None] reads past the end of an array. *)
Fixpoint strncmp_eq (a b : list Z) (n : nat) {struct n} : option bool :=
  match n with
  | O => Some true
  | S n' => match a, b with
            | x :: a', y :: b' =>
                if x =? y then if x =? 0 then Some true else strncmp_eq a' b' n' else Some false
            | _, _ => None
            end
  end.
(** [strcmp(a, b) == 0]. *)
Fixpoint strcmp_eq (a b : list Z) : option bool :=
  match a, b with
  | x :: a', y :: b' => if x =? y then if x =? 0 then Some true else strcmp_eq a' b' else Some false
  | _, _ => None
  end.
Fixpoint strlen (a : list Z) : option Z :=
  match a with
  | [] => None
  | x :: a' => if x =? 0 then Some 0 else n ← strlen a'; Some (n + 1)
  end.
(** [&a[i]]. *)
Definition from (a : list Z) (i : Z) : option (list Z) :=
  if (0 <=? i) && (i <=? Z.of_nat (length a)) then Some (drop (Z.to_nat i) a) else None.

(** ** table.c *)

(** The loop of [hashpjw]: the hash so far is an [unsigned]. *)
Definition hash_step (h c : Z) : Z :=
  let h := u32 (Z.shiftl h 4 + c) in
  let g := Z.land h 4026531840 in
  if g =? 0 then h else Z.lxor (Z.lxor h (Z.shiftr g 24)) g.
Definition hashpjw (s : list Z) : Z := fold_left hash_step s 0 mod TBL_LEN.

(** The first element of a chain whose string starts with the text. *)
Fixpoint search_chain (tbl text : list Z) (chain : list hash_ele) : option (option hash_ele) :=
  match chain with
  | [] => Some None
  | p :: chain' =>
      s ← from tbl (str_index p);
      b ← strncmp_eq s (text ++ [0]) (length text);
      if b : bool then Some (Some p) else search_chain tbl text chain'
  end.

(** One character of the text, at [i]: what is stored and where to go on. *)
Definition copy_char (text : list Z) (i : Z) : option (Z * Z) :=
  c ← aget (text ++ [0]) i;
  if negb (c =? 92) then Some (c, i + 1)
  else
    e ← aget (text ++ [0]) (i + 1);
    Some (if e =? 116 then (9, i + 2) else if e =? 110 then (10, i + 2)
          else if e =? 92 then (92, i + 2) else if e =? 39 then (39, i + 2)
          else (92, i + 1)).
Fixpoint copy_text (fuel : nat) (text : list Z) (i : Z) : prog strtab unit :=
  match fuel with
  | O => λ _, Fuel
  | S fuel' =>
      if i <? Z.of_nat (length text)
      then
        ci ← lift (copy_char text i);
        updates (put_char ci.1);;
        modify incr_last;;
        copy_text fuel' text ci.2
      else mret tt
  end.

(** [install_id]: the result is [yylval]. *)
Definition install_id (text : list Z) (tokenid : Z) : prog strtab Z :=
  t ← get;
  let ind := hashpjw text in
  chain ← lift (aget (hash_tbl t) ind);
  found ← lift (search_chain (strg_tbl t) text chain);
  match found with
  | Some p => mret (str_index p)
  | None =>
      if last t + Z.of_nat (length text) >? STRTBL_LEN then exit_with 0
      else
        updates (put_hash ind (chain ++ [mk_hash_ele tokenid (Z.of_nat (length text)) (last t)]));;
        copy_text (S (length text)) text 0;;
        updates (put_char STR_SPRTR);;
        modify incr_last;;
        mret (last t)
  end.

(** The loop of [loc_str]: past [last] the function ends without a result. *)
Fixpoint loc_loop (fuel : nat) (string : list Z) (i : Z) : prog strtab Z :=
  match fuel with
  | O => λ _, Fuel
  | S fuel' =>
      t ← get;
      if i <? last t
      then
        s ← lift (from (strg_tbl t) i);
        b ← lift (strcmp_eq s (string ++ [0]));
        if b : bool then mret i
        else n ← lift (strlen s); loc_loop fuel' string (i + (n + 1))
      else if i =? last t then mret (-1) else undef
  end.
Definition loc_str (string : list Z) : prog strtab Z := loc_loop (S (Z.to_nat STRTBL_LEN)) string 0.

(** The string at an index, as [getname] and [getstring] of proj2.c give it. *)
Fixpoint c_string_at (a : list Z) : option (list Z) :=
  match a with
  | [] => None
  | x :: a' => if x =? 0 then Some [] else s ← c_string_at a'; Some (x :: s)
  end.
Definition getname (t : strtab) (i : Z) : option (list Z) := s ← from (strg_tbl t) i; c_string_at s.

(** The tables when the program starts. *)
Definition new_strtab : strtab := init_string_tbl (init_hash_tbl (mk_strtab [] [] 0)).

(** ** The tables as a list of words *)

(** What is stored of a text. *)
Definition escape (c : Z) : option Z :=
  if c =? 116 then Some 9 else if c =? 110 then Some 10
  else if c =? 92 then Some 92 else if c =? 39 then Some 39 else None.
Fixpoint unescape (text : list Z) : list Z :=
  match text with
  | [] => []
  | c :: rest =>
      if negb (c =? 92) then c :: unescape rest
      else match rest with
           | [] => [92]
           | e :: rest' => match escape e with
                           | Some x => x :: unescape rest'
                           | None => 92 :: unescape rest
                           end
           end
  end.

(** The texts installed so far, with their token numbers, are all there is to
    the tables: [strg_tbl] holds what is stored of them one after the other, the
    chain of a bucket the elements of the texts with that hash, in order. *)
Definition word : Type := list Z * Z.
Definition stored (w : word) : list Z := unescape w.1 ++ [0].
Fixpoint elements (i : Z) (ws : list word) (b : Z) : list hash_ele :=
  match ws with
  | [] => []
  | w :: ws' =>
      let rest := elements (i + Z.of_nat (length (stored w))) ws' b in
      if hashpjw w.1 =? b then mk_hash_ele w.2 (Z.of_nat (length w.1)) i :: rest else rest
  end.
Definition chars (ws : list word) : list Z := concat (stored <$> ws).
Definition used (ws : list word) : Z := Z.of_nat (length (chars ws)).
Definition table_of (ws : list word) : strtab :=
  mk_strtab (elements 0 ws <$> seqZ 0 TBL_LEN)
    (chars ws ++ replicate (Z.to_nat (STRTBL_LEN - used ws)) 0) (used ws).

(** Where a text is found: the first one with the same hash that starts with it. *)
Fixpoint find_word (i : Z) (ws : list word) (text : list Z) : option Z :=
  match ws with
  | [] => None
  | w :: ws' =>
      if bool_decide (hashpjw w.1 = hashpjw text ∧ text `prefix_of` unescape w.1) then Some i
      else find_word (i + Z.of_nat (length (stored w))) ws' text
  end.

(** ** Lemmas *)

Definition nonzero (s : list Z) : Prop := Forall (λ c, c ≠ 0) s.

Lemma escape_nonzero c e : escape c = Some e → e ≠ 0.
Proof. unfold escape. repeat (case_match; [naive_solver lia|]). done. Qed.
Lemma unescape_nonzero text : nonzero text → nonzero (unescape text).
Proof.
  intros H. remember (length text) as n eqn:Hn. assert (length text ≤ n)%nat as Hle by lia. clear Hn. revert text H Hle.
  induction n as [|n IH]; intros [|c rest] H Hle; simpl in *; try lia; try constructor.
  inversion H as [|? ? Hc Hrest]; subst. destruct (Z.eqb_spec c 92) as [->|Hne]; simpl; [|constructor; [done|apply IH; [done|lia]]].
  destruct rest as [|e rest']; [by repeat constructor|]. inversion Hrest; subst.
  destruct (escape e) as [x|] eqn:E; constructor; [by eapply escape_nonzero|apply IH; [done|simpl in *; lia]|done|apply IH; [done|lia]].
Qed.
Lemma unescape_length text : (length (unescape text) ≤ length text)%nat.
Proof.
  remember (length text) as n eqn:Hn. rewrite Hn. assert (length text ≤ n)%nat as Hle by lia. clear Hn. revert text Hle.
  induction n as [|n IH]; intros [|c rest] Hle; simpl in *; try lia.
  destruct (Z.eqb_spec c 92) as [->|Hne]; simpl; [|specialize (IH rest); lia].
  destruct rest as [|e rest']; [done|]. destruct (escape e).
  - simpl. specialize (IH rest'). simpl in *. lia.
  - pose proof (IH (e :: rest') ltac:(lia)). simpl in *. lia.
Qed.
Lemma unescape_plain text : Forall (λ c, c ≠ 92) text → unescape text = text.
Proof. induction 1 as [|c text Hc _ IH]; [done|]. simpl. rewrite (proj2 (Z.eqb_neq _ _) Hc). simpl. by rewrite IH. Qed.
Lemma unescape_pos text : text ≠ [] → unescape text ≠ [].
Proof.
  destruct text as [|c rest]; [done|]. intros _. simpl. destruct (negb (c =? 92)); [done|].
  destruct rest as [|e rest']; [done|]. by destruct (escape e).
Qed.

(** Writing at the end of what is stored. *)
Lemma put_char_app h pre x z c n : n = Z.of_nat (length pre) →
  put_char c (mk_strtab h (pre ++ x :: z) n) = Some (mk_strtab h (pre ++ c :: z) n).
Proof.
  intros ->. unfold put_char. simpl. rewrite aset_ok by (rewrite length_app; simpl; lia).
  simpl. by rewrite Nat2Z.id, insert_app_r_alt, Nat.sub_diag by lia.
Qed.
Lemma put_char_full h s c n : n = Z.of_nat (length s) → put_char c (mk_strtab h s n) = None.
Proof. intros ->. unfold put_char, aset. simpl. by rewrite Z.ltb_irrefl, andb_false_r. Qed.

Lemma aget_app_r (l1 l2 : list Z) i : i = Z.of_nat (length l1) → aget (l1 ++ l2) i = l2 !! O.
Proof. intros ->. unfold aget. rewrite (proj2 (Z.ltb_ge _ _)) by lia. rewrite Nat2Z.id, lookup_app_r by lia. by rewrite Nat.sub_diag. Qed.

Lemma copy_char_ok dn c rest i : i = Z.of_nat (length dn) →
  copy_char (dn ++ c :: rest) i =
    Some (if negb (c =? 92) then (c, i + 1)
          else match rest with
               | e :: _ => match escape e with Some x => (x, i + 2) | None => (92, i + 1) end
               | [] => (92, i + 1)
               end).
Proof.
  intros Hi. unfold copy_char. rewrite <-app_assoc, (aget_app_r dn _ i Hi). simpl. destruct (negb (c =? 92)); [done|].
  replace (dn ++ c :: rest ++ [0]) with ((dn ++ [c]) ++ rest ++ [0]) by (by rewrite <-app_assoc).
  rewrite aget_app_r by (rewrite length_app; simpl; lia).
  destruct rest as [|e rest]; simpl; [done|]. unfold escape. by repeat case_match.
Qed.

Lemma copy_text_ok h fuel dn rest i pre z n : i = Z.of_nat (length dn) → (length rest < fuel)%nat →
  n = Z.of_nat (length pre) → (length (unescape rest) ≤ length z)%nat →
  copy_text fuel (dn ++ rest) i (mk_strtab h (pre ++ z) n) =
    Ret tt (mk_strtab h (pre ++ unescape rest ++ drop (length (unescape rest)) z) (n + Z.of_nat (length (unescape rest)))).
Proof.
  revert dn rest i pre z n. induction fuel as [|fuel IH]; intros dn rest i pre z n Hi Hf Hn Hz; [lia|].
  cbn [copy_text]. rewrite length_app. destruct rest as [|c rest].
  { rewrite (proj2 (Z.ltb_ge _ _)) by (simpl; lia). simpl. by rewrite drop_0, Z.add_0_r. }
  rewrite (proj2 (Z.ltb_lt _ _)) by (simpl; lia). run (lift_Some _ _ _ (copy_char_ok dn c rest i Hi)).
  assert (∀ d r x j, dn ++ c :: rest = d ++ r → j = Z.of_nat (length d) → (length r ≤ length rest)%nat →
    unescape (c :: rest) = x :: unescape r →
    (updates (put_char x);; modify incr_last;; copy_text fuel (dn ++ c :: rest) j) (mk_strtab h (pre ++ z) n) =
    Ret tt (mk_strtab h (pre ++ unescape (c :: rest) ++ drop (length (unescape (c :: rest))) z)
      (n + Z.of_nat (length (unescape (c :: rest)))))) as Hgo.
  { intros d r x j E Hj Hr Hu. rewrite Hu in *. destruct z as [|y z]; [simpl in Hz; lia|]. simpl in Hf, Hz.
    run (updates_Some _ _ _ (put_char_app h pre y z x n Hn)). run (eq_refl (modify _ _)). unfold incr_last. simpl.
    replace (pre ++ x :: z) with ((pre ++ [x]) ++ z) by (by rewrite <-app_assoc).
    rewrite E, IH; [|done|lia|rewrite length_app; simpl; lia|lia].
    rewrite <-!app_assoc. do 2 f_equal. lia. }
  cbn [unescape] in Hgo |- *. destruct (negb (c =? 92)).
  { apply (Hgo (dn ++ [c]) rest); [by rewrite <-app_assoc|rewrite length_app; simpl; lia|lia|done]. }
  destruct rest as [|e rest].
  { apply (Hgo (dn ++ [c]) []); [by rewrite <-app_assoc|rewrite length_app; simpl; lia|simpl; lia|done]. }
  destruct (escape e) as [x|].
  - apply (Hgo (dn ++ [c; e]) rest); [by rewrite <-app_assoc|rewrite length_app; simpl; lia|simpl; lia|done].
  - apply (Hgo (dn ++ [c]) (e :: rest)); [by rewrite <-app_assoc|rewrite length_app; simpl; lia|simpl; lia|done].
Qed.

(** Comparing with what is stored. *)
Lemma strncmp_prefix s text rest : nonzero s → nonzero text →
  strncmp_eq (s ++ 0 :: rest) (text ++ [0]) (length text) = Some (bool_decide (text `prefix_of` s)).
Proof.
  intros Hs Ht. revert s Hs. induction Ht as [|c text Hc _ IH]; intros s Hs; cbn [app strncmp_eq length].
  { rewrite bool_decide_true by apply prefix_nil. done. }
  destruct Hs as [|x s Hx Hs]; cbn [app strncmp_eq].
  - rewrite (proj2 (Z.eqb_neq 0 c)) by done. rewrite bool_decide_false; [done|]. by intros ?%prefix_nil_not.
  - destruct (Z.eqb_spec x c) as [->|Hne].
    + rewrite (proj2 (Z.eqb_neq c 0)) by done. rewrite IH by done. f_equal. apply bool_decide_ext.
      split; [apply prefix_cons|apply prefix_cons_inv_2].
    + rewrite bool_decide_false; [done|]. intros ?%prefix_cons_inv_1. done.
Qed.
Lemma strcmp_same s t rest : nonzero s → nonzero t →
  strcmp_eq (s ++ 0 :: rest) (t ++ [0]) = Some (bool_decide (s = t)).
Proof.
  intros Hs. revert t. induction Hs as [|x s Hx _ IH]; intros t Ht.
  - destruct Ht as [|c t Hc]; cbn [app strcmp_eq]; [done|]. rewrite (proj2 (Z.eqb_neq 0 c)) by done. f_equal.
  - destruct Ht as [|c t Hc Ht]; cbn [app strcmp_eq].
    + rewrite (proj2 (Z.eqb_neq x 0)) by done. f_equal.
    + destruct (Z.eqb_spec x c) as [->|Hne].
      * rewrite (proj2 (Z.eqb_neq c 0)) by done. rewrite IH by done. f_equal. apply bool_decide_ext. naive_solver.
      * rewrite bool_decide_false; [done|]. naive_solver.
Qed.
Lemma strlen_stored s rest : nonzero s → strlen (s ++ 0 :: rest) = Some (Z.of_nat (length s)).
Proof.
  induction 1 as [|x s Hx _ IH]; simpl; [done|]. rewrite (proj2 (Z.eqb_neq x 0)) by done. rewrite IH. simpl. f_equal. lia.
Qed.
Lemma c_string_at_stored s rest : nonzero s → c_string_at (s ++ 0 :: rest) = Some s.
Proof. induction 1 as [|x s Hx _ IH]; simpl; [done|]. rewrite (proj2 (Z.eqb_neq x 0)) by done. by rewrite IH. Qed.
Lemma from_app (a b : list Z) i : i = Z.of_nat (length a) → from (a ++ b) i = Some b.
Proof.
  intros ->. unfold from. rewrite (proj2 (Z.leb_le 0 _)), (proj2 (Z.leb_le _ _)) by (rewrite ?length_app; lia). simpl.
  by rewrite Nat2Z.id, drop_app_length.
Qed.

(** The hash is the number of a bucket. *)
Lemma hashpjw_range s : 0 ≤ hashpjw s < TBL_LEN.
Proof. by apply Z.mod_pos_bound. Qed.

(** ** What the operations do to the words *)

Definition words_ok (ws : list word) : Prop := Forall (λ w, nonzero w.1) ws.

Lemma chars_cons w ws : chars (w :: ws) = unescape w.1 ++ 0 :: chars ws.
Proof. unfold chars, stored. simpl. by rewrite <-app_assoc. Qed.
Lemma chars_snoc ws w : chars (ws ++ [w]) = chars ws ++ stored w.
Proof. unfold chars. rewrite fmap_app, concat_app. simpl. by rewrite app_nil_r. Qed.
Lemma used_snoc ws w : used (ws ++ [w]) = used ws + Z.of_nat (length (unescape w.1)) + 1.
Proof. unfold used. rewrite chars_snoc. unfold stored. rewrite !length_app. simpl. lia. Qed.

Definition index_of (o : option hash_ele) : option Z := str_index <$> o.
Lemma search_chain_ok ws pre rest i text b : words_ok ws → nonzero text → i = Z.of_nat (length pre) → b = hashpjw text →
  index_of <$> search_chain (pre ++ chars ws ++ rest) text (elements i ws b) = Some (find_word i ws text).
Proof.
  intros Hws Ht. revert pre i. induction Hws as [|w ws Hw _ IH]; intros pre i Hi ->; [done|].
  rewrite chars_cons. cbn [elements find_word]. set (j := i + _).
  assert (index_of <$> search_chain (pre ++ (unescape w.1 ++ 0 :: chars ws) ++ rest) text (elements j ws (hashpjw text))
    = Some (find_word j ws text)) as E.
  { replace (pre ++ (unescape w.1 ++ 0 :: chars ws) ++ rest) with ((pre ++ stored w) ++ chars ws ++ rest).
    - apply IH; [|done]. unfold j. rewrite length_app. lia.
    - unfold stored. by rewrite <-!app_assoc. }
  destruct (Z.eqb_spec (hashpjw w.1) (hashpjw text)) as [Eh|Hne].
  - cbn [search_chain]. cbn [str_index]. rewrite from_app by done. cbn [mbind option_bind].
    rewrite <-app_assoc. cbn [app]. rewrite strncmp_prefix by (by try apply unescape_nonzero). cbn [mbind option_bind].
    case_bool_decide as Hp.
    + rewrite bool_decide_true by done. done.
    + rewrite bool_decide_false by (by intros [? ?]). rewrite <-E. by rewrite <-app_assoc.
  - rewrite bool_decide_false by (by intros [? ?]). exact E.
Qed.

Lemma elements_snoc i ws w b : elements i (ws ++ [w]) b =
  elements i ws b ++ if hashpjw w.1 =? b then [mk_hash_ele w.2 (Z.of_nat (length w.1)) (i + used ws)] else [].
Proof.
  revert i. induction ws as [|w' ws IH]; intros i.
  - simpl. rewrite Z.add_0_r. done.
  - cbn [app elements]. rewrite IH. assert (used (w' :: ws) = Z.of_nat (length (stored w')) + used ws) as ->.
    { unfold used, stored. rewrite chars_cons, !length_app. simpl. lia. }
    rewrite Z.add_assoc. by destruct (hashpjw w'.1 =? b).
Qed.

Lemma bucket_lookup ws b : 0 ≤ b < TBL_LEN → aget (elements 0 ws <$> seqZ 0 TBL_LEN) b = Some (elements 0 ws b).
Proof.
  intros Hb. apply aget_Some. split; [lia|]. rewrite list_lookup_fmap, lookup_seqZ_lt by lia. simpl. do 2 f_equal. lia.
Qed.
Lemma put_hash_ok ws w s n :
  put_hash (hashpjw w.1) (elements 0 ws (hashpjw w.1) ++ [mk_hash_ele w.2 (Z.of_nat (length w.1)) (used ws)])
    (mk_strtab (elements 0 ws <$> seqZ 0 TBL_LEN) s n) =
  Some (mk_strtab (elements 0 (ws ++ [w]) <$> seqZ 0 TBL_LEN) s n).
Proof.
  pose proof (hashpjw_range w.1). unfold put_hash. cbn [hash_tbl strg_tbl last].
  rewrite aset_ok by (rewrite length_fmap, length_seqZ; lia). cbn [mbind option_bind]. do 2 f_equal.
  apply list_eq. intros j. rewrite list_lookup_fmap. destruct (decide (j = Z.to_nat (hashpjw w.1))) as [->|Hne].
  - rewrite list_lookup_insert_eq by (rewrite length_fmap, length_seqZ; lia). rewrite lookup_seqZ_lt by lia. simpl. f_equal.
    rewrite Z2Nat.id by lia. rewrite elements_snoc, Z.eqb_refl. done.
  - rewrite list_lookup_insert_ne, list_lookup_fmap by done. destruct (seqZ 0 TBL_LEN !! j) as [k|] eqn:E; [|done].
    simpl. f_equal. rewrite elements_snoc. apply lookup_seqZ in E as [-> ?]. rewrite (proj2 (Z.eqb_neq _ _)) by lia. by rewrite app_nil_r.
Qed.

(** [install_id] in full: found, out of space, one byte beyond the end, stored. *)
Lemma install_id_run ws text tok : words_ok ws → nonzero text → used ws ≤ STRTBL_LEN →
  install_id text tok (table_of ws) =
    match find_word 0 ws text with
    | Some i => Ret i (table_of ws)
    | None =>
        if used ws + Z.of_nat (length text) >? STRTBL_LEN then Exited 0 (table_of ws)
        else if used ws + Z.of_nat (length (unescape text)) =? STRTBL_LEN then Undef
        else Ret (used ws) (table_of (ws ++ [(text, tok)]))
    end.
Proof.
  intros Hws Ht Hu. unfold install_id. run (eq_refl (get _)). unfold table_of at 1 2. cbn [hash_tbl strg_tbl last].
  run (lift_Some _ _ (table_of ws) (bucket_lookup ws _ (hashpjw_range text))).
  pose proof (search_chain_ok ws [] (replicate (Z.to_nat (STRTBL_LEN - used ws)) 0) 0 text _ Hws Ht eq_refl eq_refl) as Hs.
  cbn [app] in Hs. destruct (search_chain _ _ _) as [found|]; [|done]. injection Hs as Hs. rewrite <-Hs.
  run (eq_refl (lift (Some found) (table_of ws))). destruct found as [p|]; [done|]. cbn [index_of fmap option_fmap option_map].
  rewrite Z.gtb_ltb. destruct (Z.ltb_spec STRTBL_LEN (used ws + Z.of_nat (length text))) as [|Hroom]; [done|].
  pose proof (unescape_length text) as Hlen. rewrite (bind_Ret _ _ (table_of ws) _ _ (updates_Some _ (table_of ws) _ (put_hash_ok ws (text, tok) _ _))).
  set (z := replicate _ 0). assert (length z = Z.to_nat (STRTBL_LEN - used ws)) as Hz by apply length_replicate.
  run (copy_text_ok _ (S (length text)) [] text 0 (chars ws) z (used ws) eq_refl ltac:(lia) eq_refl ltac:(lia)).
  rewrite app_assoc. destruct (Z.eqb_spec (used ws + Z.of_nat (length (unescape text))) STRTBL_LEN) as [Hfull|Hfull].
  - unfold mbind, prog_bind, updates. rewrite put_char_full; [done|].
    unfold used in *. rewrite !length_app, length_drop. lia.
  - assert (drop (length (unescape text)) z = 0 :: replicate (Z.to_nat (STRTBL_LEN - used (ws ++ [(text, tok)]))) 0) as ->.
    { unfold z. rewrite drop_replicate. rewrite used_snoc. cbn [fst].
      replace (Z.to_nat (STRTBL_LEN - used ws) - length (unescape text))%nat with
        (S (Z.to_nat (STRTBL_LEN - (used ws + Z.of_nat (length (unescape text)) + 1)))) by lia. done. }
    run (updates_Some _ _ _ (put_char_app _ (chars ws ++ unescape text) 0 _ STR_SPRTR (used ws + Z.of_nat (length (unescape text))) ltac:(unfold used; rewrite length_app; lia))).
    run (eq_refl (modify _ _)). unfold incr_last, table_of. cbn [hash_tbl strg_tbl last mret prog_ret]. rewrite used_snoc, chars_snoc.
    unfold stored. cbn [fst]. rewrite (app_assoc (chars ws)), <-(app_assoc _ [0]). done.
Qed.

(** ** Finding a string *)

(** The position of the first word stored as the string. *)
Fixpoint loc_word (i : Z) (ws : list word) (s : list Z) : Z :=
  match ws with
  | [] => -1
  | w :: ws' => if bool_decide (unescape w.1 = s) then i else loc_word (i + Z.of_nat (length (stored w))) ws' s
  end.

Lemma loc_loop_ok h fuel pre ws rest i s n : words_ok ws → nonzero s → i = Z.of_nat (length pre) →
  n = i + used ws → (length ws < fuel)%nat →
  let t := mk_strtab h (pre ++ chars ws ++ rest) n in loc_loop fuel s i t = Ret (loc_word i ws s) t.
Proof.
  intros Hws Hs. revert fuel pre i. induction Hws as [|w ws Hw Hws IH]; intros fuel pre i Hi Hn Hf t;
    (destruct fuel as [|fuel]; [simpl in Hf; lia|]); cbn [loc_loop loc_word]; run (eq_refl (get t)); cbn [last t].
  - unfold used in Hn. simpl in Hn. rewrite (proj2 (Z.ltb_ge _ _)), (proj2 (Z.eqb_eq _ _)) by lia. done.
  - assert (used (w :: ws) = Z.of_nat (length (unescape w.1)) + 1 + used ws) as Hu.
    { unfold used. rewrite chars_cons, length_app. simpl. lia. }
    assert (0 ≤ used ws) by (unfold used; lia). rewrite (proj2 (Z.ltb_lt _ _)) by lia.
    cbn [strg_tbl]. assert (from (pre ++ chars (w :: ws) ++ rest) i = Some (unescape w.1 ++ 0 :: chars ws ++ rest)) as Hfrom.
    { rewrite from_app by done. rewrite chars_cons, <-app_assoc. done. }
    pose proof (unescape_nonzero _ Hw) as Hnz.
    run (lift_Some _ _ t Hfrom). run (lift_Some _ _ t (strcmp_same _ _ (chars ws ++ rest) Hnz Hs)).
    case_bool_decide; [done|]. run (lift_Some _ _ t (strlen_stored _ (chars ws ++ rest) Hnz)).
    unfold stored. rewrite length_app. cbn [length].
    assert (t = mk_strtab h ((pre ++ unescape w.1 ++ [0]) ++ chars ws ++ rest) n) as ->.
    { unfold t. rewrite chars_cons, <-!app_assoc. done. }
    replace (i + (Z.of_nat (length (unescape w.1)) + 1)) with (i + Z.of_nat (length (unescape w.1) + 1)) by lia.
    apply IH; [rewrite !length_app; simpl; lia|lia|simpl in Hf; lia].
Qed.

Lemma words_le_used ws : Z.of_nat (length ws) ≤ used ws.
Proof. induction ws as [|w ws IH]; [done|]. unfold used in *. rewrite chars_cons, length_app. simpl. lia. Qed.

Lemma loc_str_run ws s : words_ok ws → nonzero s → used ws ≤ STRTBL_LEN →
  loc_str s (table_of ws) = Ret (loc_word 0 ws s) (table_of ws).
Proof.
  intros Hws Hs Hu. unfold loc_str, table_of. pose proof (words_le_used ws).
  pose proof (loc_loop_ok (elements 0 ws <$> seqZ 0 TBL_LEN) (S (Z.to_nat STRTBL_LEN)) [] ws
    (replicate (Z.to_nat (STRTBL_LEN - used ws)) 0) 0 s (used ws)) as H1. cbn zeta in H1. cbn [app] in H1. apply H1; try done. lia.
Qed.

(** ** Interning *)

(** An identifier of the scanner: letters and digits. *)
Definition ident_char (c : Z) : bool := (48 <=? c) && (c <=? 57) || (97 <=? c) && (c <=? 122).
Definition ident (s : list Z) : Prop := s ≠ [] ∧ Forall (λ c, ident_char c = true) s.

Lemma ident_nonzero s : ident s → nonzero s.
Proof.
  intros [_ H]. eapply Forall_impl; [exact H|]. intros c Hc ->. done.
Qed.
Lemma ident_plain s : ident s → unescape s = s.
Proof. intros [_ H]. apply unescape_plain. eapply Forall_impl; [exact H|]. intros c Hc ->. done. Qed.

Fixpoint install_all (ids : list (list Z)) (tok : Z) : prog strtab (list Z) :=
  match ids with
  | [] => mret []
  | s :: ids' => i ← install_id s tok; l ← install_all ids' tok; mret (i :: l)
  end.

(** Two identifiers that [install_id] can tell apart, whichever comes first. *)
Definition apart (a b : list Z) : Prop := hashpjw a = hashpjw b → a `prefix_of` b → a = b.
Definition space (ids : list (list Z)) : Z := sumz (λ s, Z.of_nat (length s) + 1) ids.

Lemma loc_word_old i ws w s : s ∈ ws.*1 → words_ok ws → Forall (λ w, unescape w.1 = w.1) ws →
  loc_word i (ws ++ [w]) s = loc_word i ws s.
Proof.
  intros Hs _ Hp. revert i. induction Hp as [|w' ws Hw Hp IH]; intros i; [by apply not_elem_of_nil in Hs|].
  cbn [app loc_word]. case_bool_decide as E; [done|]. apply IH. apply elem_of_cons in Hs as [->|?]; [|done]. by rewrite Hw in E.
Qed.
Lemma loc_word_new i ws w : w.1 ∉ ws.*1 → Forall (λ w, unescape w.1 = w.1) ws → unescape w.1 = w.1 →
  loc_word i (ws ++ [w]) w.1 = i + used ws.
Proof.
  intros Hs Hp Hw. revert i. induction Hp as [|w' ws Hw' Hp IH]; intros i; cbn [app loc_word].
  - rewrite bool_decide_true by done. unfold used. simpl. lia.
  - apply not_elem_of_cons in Hs as [Hne Hs]. rewrite bool_decide_false by (rewrite Hw'; congruence). rewrite IH by done.
    unfold used, stored. rewrite chars_cons, !length_app. simpl. lia.
Qed.
Lemma find_word_loc i ws s : Forall (λ w, unescape w.1 = w.1 ∧ apart s w.1) ws →
  find_word i ws s = if decide (s ∈ ws.*1) then Some (loc_word i ws s) else None.
Proof.
  intros Hp. revert i. induction Hp as [|w ws [Hw Ha] Hp IH]; intros i; cbn [find_word loc_word fmap list_fmap].
  - by rewrite decide_False by apply not_elem_of_nil.
  - rewrite Hw. destruct (decide (w.1 = s)) as [E|Hne].
    + rewrite bool_decide_true by (split; [by rewrite E|by rewrite E]). rewrite decide_True by (rewrite E; by left).
      by rewrite bool_decide_true.
    + rewrite bool_decide_false by (intros [E ?]; by apply Hne; symmetry; apply Ha). rewrite bool_decide_false by done.
      rewrite IH. destruct (decide (s ∈ ws.*1)); [rewrite decide_True by (by right); done|].
      rewrite decide_False; [done|]. intros [?|?]%elem_of_cons; congruence.
Qed.

Lemma getname_loc ws s : s ∈ ws.*1 → words_ok ws → Forall (λ w, unescape w.1 = w.1) ws →
  getname (table_of ws) (loc_word 0 ws s) = Some s.
Proof.
  intros Hs Hok Hp. unfold getname, table_of. cbn [strg_tbl]. set (rest := replicate _ 0). clearbody rest.
  assert (∀ pre i, i = Z.of_nat (length pre) → (r ← from (pre ++ chars ws ++ rest) (loc_word i ws s); c_string_at r) = Some s) as Hgen.
  { induction Hp as [|w ws Hw Hp IH]; intros pre i Hi; [by apply not_elem_of_nil in Hs|].
    inversion Hok; subst. cbn [loc_word]. rewrite Hw. case_bool_decide as E.
    - rewrite from_app by done. cbn [mbind option_bind]. rewrite chars_cons, <-app_assoc, Hw. cbn [app].
      rewrite <-E. by apply c_string_at_stored.
    - rewrite chars_cons. replace (pre ++ (unescape w.1 ++ 0 :: chars ws) ++ rest) with ((pre ++ stored w) ++ chars ws ++ rest).
      + apply IH; [|done|rewrite length_app; lia]. apply elem_of_cons in Hs as [->|?]; done.
      + unfold stored. by rewrite <-!app_assoc. }
  by apply (Hgen []).
Qed.

Lemma install_all_run ids tok ws : Forall ident ids → Forall (λ w, ident w.1) ws →
  (∀ a b, a ∈ ids → b ∈ ws.*1 ++ ids → apart a b) → used ws + space ids ≤ STRTBL_LEN →
  ∃ js ws', install_all ids tok (table_of ws) = Ret js (table_of ws') ∧ Forall (λ w, ident w.1) ws' ∧ used ws' ≤ STRTBL_LEN ∧
    (∀ s, s ∈ ws.*1 → s ∈ ws'.*1 ∧ loc_word 0 ws' s = loc_word 0 ws s) ∧
    Forall2 (λ s i, s ∈ ws'.*1 ∧ i = loc_word 0 ws' s) ids js.
Proof.
  assert (∀ l : list word, Forall (λ w, ident w.1) l → words_ok l ∧ Forall (λ w, unescape w.1 = w.1) l) as Hid.
  { intros l Hl. split; (eapply Forall_impl; [exact Hl|]); intros w Hw; [by apply ident_nonzero|by apply ident_plain]. }
  intros Hids. revert ws. induction Hids as [|s ids Hs Hids IH]; intros ws Hws Ha Hu.
  { exists [], ws. split_and!; try done. unfold space in Hu. simpl in Hu. lia. }
  destruct (Hid ws Hws) as [Hok Hp]. assert (used ws + (Z.of_nat (length s) + 1) + space ids ≤ STRTBL_LEN) as Hu' by (unfold space in *; simpl in Hu; lia).
  assert (0 ≤ space ids) as H0 by (apply sumz_nonneg; lia).
  assert (find_word 0 ws s = if decide (s ∈ ws.*1) then Some (loc_word 0 ws s) else None) as Ef.
  { apply find_word_loc. apply Forall_forall. intros w Hw. split; [by eapply Forall_forall in Hp|].
    apply Ha; [by left|]. apply elem_of_app. left. by apply list_elem_of_fmap_2. }
  pose proof (install_id_run ws s tok Hok (ident_nonzero _ Hs) ltac:(lia)) as Erun. rewrite Ef, (ident_plain s Hs) in Erun.
  cbn [install_all]. destruct (decide (s ∈ ws.*1)) as [Hin|Hnin].
  - run Erun. destruct (IH ws Hws) as (js & ws' & E & Hid' & Hu1 & Hold & Hall); [|lia|].
    { intros a b Hain Hb. apply Ha; [by right|]. apply elem_of_app in Hb as [?|?]; apply elem_of_app; [by left|right; by right]. }
    run E. exists (loc_word 0 ws s :: js), ws'. split_and!; try done. constructor; [|done].
    destruct (Hold s Hin) as [? ->]. done.
  - rewrite Z.gtb_ltb, (proj2 (Z.ltb_ge _ _)), (proj2 (Z.eqb_neq _ _)) in Erun by lia. run Erun.
    assert ((ws ++ [(s, tok)]).*1 = ws.*1 ++ [s]) as Efst by (by rewrite fmap_app).
    destruct (IH (ws ++ [(s, tok)])) as (js & ws' & E & Hid' & Hu1 & Hold & Hall).
    + apply Forall_app. split; [done|by constructor].
    + rewrite Efst. intros a b Hain Hb. apply Ha; [by right|]. rewrite <-app_assoc in Hb. done.
    + rewrite used_snoc. cbn [fst]. rewrite (ident_plain s Hs). lia.
    + run E. exists (used ws :: js), ws'. rewrite Efst in Hold. split_and!; try done.
      * intros x Hx. destruct (Hold x) as [? ->]; [apply elem_of_app; by left|]. split; [done|]. by apply loc_word_old.
      * constructor; [|done]. destruct (Hold s) as [? ->]; [apply elem_of_app; right; by left|]. split; [done|].
        symmetry. apply (loc_word_new 0 ws (s, tok)); [done|done|by apply ident_plain].
Qed.

(** ** The properties *)

(** Installing identifiers one after the other in the empty table gives each
    of them, whenever it comes, the index at which [getname] reads exactly this
    identifier and where [loc_str] finds it, so equal identifiers get equal
    indices and different ones different indices; this holds when they fit
    and no identifier is a proper prefix of another one with the same hash. *)
Theorem identifiers_interned ids tok : Forall ident ids → (∀ a b, a ∈ ids → b ∈ ids → apart a b) → space ids ≤ STRTBL_LEN →
  ∃ js t, install_all ids tok new_strtab = Ret js t ∧
    Forall2 (λ s i, getname t i = Some s ∧ loc_str s t = Ret i t) ids js.
Proof.
  intros Hids Ha Hu. destruct (install_all_run ids tok [] Hids) as (js & ws & E & Hws & Huw & _ & Hall); [done|done|done|].
  exists js, (table_of ws). split; [exact E|]. 
  assert (words_ok ws ∧ Forall (λ w, unescape w.1 = w.1) ws) as [Hok Hp].
  { split; (eapply Forall_impl; [exact Hws|]); intros w Hw; [by apply ident_nonzero|by apply ident_plain]. }
  eapply Forall2_impl; [exact Hall|]. intros s i [Hin ->]. split; [by apply getname_loc|].
  apply loc_str_run; [done| |done]. apply list_elem_of_fmap in Hin as (w & -> & Hw). by eapply Forall_forall in Hok.
Qed.

Definition id_max5 : list Z := [109; 97; 120; 53].
Definition id_max : list Z := [109; 97; 120].

(** The number of characters is compared, not where the stored string ends:
    after max5 the identifier max, which has the same hash, gets the index of
    max5. *)
Theorem prefix_taken_for_identifier tok : ∃ t, install_all [id_max5; id_max] tok new_strtab = Ret [0; 0] t ∧
  getname t 0 = Some id_max5 ∧ loc_str id_max t = Ret (-1) t.
Proof.
  set (ws := [(id_max5, tok)]). exists (table_of ws). split_and!.
  - assert (install_id id_max5 tok new_strtab = Ret 0 (table_of ws)) as E1.
    { change new_strtab with (table_of []). rewrite install_id_run; [|constructor|by repeat constructor|done].
      assert (find_word 0 [] id_max5 = None) as -> by done. done. }
    assert (install_id id_max tok (table_of ws) = Ret 0 (table_of ws)) as E2.
    { rewrite install_id_run; [|by repeat constructor|by repeat constructor|done].
      assert (find_word 0 ws id_max = Some 0) as -> by done. done. }
    cbn [install_all]. run E1. rewrite (bind_Ret _ _ (table_of ws) [0] (table_of ws)); [done|]. by run E2.
  - done.
  - rewrite loc_str_run; [done|by repeat constructor|by repeat constructor|done].
Qed.

(** A new text that would end exactly at the end of [strg_tbl] passes the
    check for space, and its null byte is written behind the array; any text
    for which there is one byte more is stored, any longer one ends the
    program. *)
Theorem install_id_bounds ws text tok : words_ok ws → nonzero text → used ws ≤ STRTBL_LEN → unescape text = text →
  find_word 0 ws text = None →
  install_id text tok (table_of ws) =
    match used ws + Z.of_nat (length text) ?= STRTBL_LEN with
    | Lt => Ret (used ws) (table_of (ws ++ [(text, tok)]))
    | Eq => Undef
    | Gt => Exited 0 (table_of ws)
    end.
Proof.
  intros Hws Ht Hu Hp Hf. rewrite install_id_run, Hf, Hp by done. rewrite Z.gtb_ltb.
  destruct (Z.compare_spec (used ws + Z.of_nat (length text)) STRTBL_LEN) as [E|E|E].
  - by rewrite E, Z.ltb_irrefl, Z.eqb_refl.
  - by rewrite (proj2 (Z.ltb_ge _ _)), (proj2 (Z.eqb_neq _ _)) by lia.
  - by rewrite (proj2 (Z.ltb_lt _ _)) by lia.
Qed.

(** ** Witnesses *)

Definition id_a : list Z := [97].
Definition id_sum : list Z := [115; 117; 109].
Lemma identifiers_interned_witness : ∃ js t, install_all [id_a; id_sum; id_a] 258 new_strtab = Ret js t ∧
  Forall2 (λ s i, getname t i = Some s ∧ loc_str s t = Ret i t) [id_a; id_sum; id_a] js.
Proof.
  apply identifiers_interned.
  - by repeat constructor.
  - intros a b Ha Hb. unfold apart.
    assert (a = id_a ∨ a = id_sum) as [-> | ->] by (repeat (apply elem_of_cons in Ha as [Ha|Ha]; [by auto|]); by apply not_elem_of_nil in Ha);
    assert (b = id_a ∨ b = id_sum) as [-> | ->] by (repeat (apply elem_of_cons in Hb as [Hb|Hb]; [by auto|]); by apply not_elem_of_nil in Hb);
    try done; intros E; by vm_compute in E.
  - by vm_compute.
Defined.
Lemma install_id_bounds_witness : find_word 0 [(replicate 2996 97, 0)] id_sum = None ∧
  install_id id_sum 258 (table_of [(replicate 2997 97, 0)]) = Undef.
Proof.
  split; [by vm_compute|].
  rewrite (install_id_bounds [(replicate 2997 97, 0)] id_sum 258).
  - by vm_compute.
  - constructor; [|done]. by apply Forall_replicate.
  - by repeat constructor.
  - by vm_compute.
  - by vm_compute.
  - by vm_compute.
Defined.
