(* ===== verification/SymTab.v ===== *)
(** * The symbol table of the compiler

    CS2210/proj3.c and proj3.h: the attributes of the symbols, in linked lists
    inside the array [attrarray], and the stack of the symbols in scope, with a
    marker for each open block.  Of the output only the reports of [error_msg]
    are kept.

    [LookUpHere] and [CloseBlock] look for the marker of the innermost block
    without a lower bound: outside of all blocks they go on to [stack[-1]], which
    is undefined.  The abstract table is undefined there too. *)
From S2P Require Import Prelude StrTable.
Open Scope Z_scope.

Definition STACK_SIZE : Z := 100.
Definition ST_SIZE : Z := 500.
Definition ATTR_SIZE : Z := 2000.

(** [error_type] of proj3.h. *)
Definition STACK_OVERFLOW : Z := 100.
Definition REDECLARATION : Z := 101.
Definition ST_OVERFLOW : Z := 102.
Definition UNDECLARATION : Z := 103.
Definition ATTR_OVERFLOW : Z := 104.
Definition CONTINUE : Z := 0.
Definition ABORT : Z := 1.

Definition NAME_ATTR : Z := 1.
Definition NEST_ATTR : Z := 2.
Definition TREE_ATTR : Z := 3.
Definition PREDE_ATTR : Z := 4.
Definition KIND_ATTR : Z := 5.
Definition TYPE_ATTR : Z := 6.
Definition VALUE_ATTR : Z := 7.
Definition OFFSET_ATTR : Z := 8.
Definition SIZE_ATTR : Z := 9.
Definition DIMEN_ATTR : Z := 10.
Definition ARGNUM_ATTR : Z := 11.

Definition VAR : Z := 2.
Definition FUNC : Z := 4.
Definition REF_ARG : Z := 5.
Definition VALUE_ARG : Z := 6.
Definition PROCE : Z := 10.
Definition CLASS : Z := 11.
Definition ARR : Z := 12.

(** ** Data *)

Record elem := mk_elem { e_marker : bool; e_name : Z; e_st_ptr : Z; e_dummy : bool; e_used : bool }.
Record attr_type := mk_attr { attr_num : Z; attr_val : Z; next_attr : Z }.
Record symtab := mk_symtab {
  st : list Z;
  attrarray : list attr_type;
  stack : list elem;
  stack_top : Z;
  st_top : Z;
  nesting : Z;
  attr_top : Z;
  messages : list (Z * Z)
}.

(** The arrays are global and start as zeros. *)
Definition no_elem : elem := mk_elem false 0 0 false false.
Definition new_symtab : symtab :=
  mk_symtab (replicate (Z.to_nat ST_SIZE) 0) (replicate (Z.to_nat ATTR_SIZE) (mk_attr 0 0 0))
    (replicate (Z.to_nat STACK_SIZE) no_elem) 0 0 0 0 [].

Definition set_st (f : list Z → option (list Z)) (s : symtab) : option symtab :=
  l ← f (st s);
  Some (mk_symtab l (attrarray s) (stack s) (stack_top s) (st_top s) (nesting s) (attr_top s) (messages s)).
Definition set_attrarray (f : list attr_type → option (list attr_type)) (s : symtab) : option symtab :=
  l ← f (attrarray s);
  Some (mk_symtab (st s) l (stack s) (stack_top s) (st_top s) (nesting s) (attr_top s) (messages s)).
Definition set_stack (f : list elem → option (list elem)) (s : symtab) : option symtab :=
  l ← f (stack s);
  Some (mk_symtab (st s) (attrarray s) l (stack_top s) (st_top s) (nesting s) (attr_top s) (messages s)).
Definition set_stack_top (z : Z) (s : symtab) : symtab :=
  mk_symtab (st s) (attrarray s) (stack s) z (st_top s) (nesting s) (attr_top s) (messages s).
Definition set_st_top (z : Z) (s : symtab) : symtab :=
  mk_symtab (st s) (attrarray s) (stack s) (stack_top s) z (nesting s) (attr_top s) (messages s).
Definition set_nesting (z : Z) (s : symtab) : symtab :=
  mk_symtab (st s) (attrarray s) (stack s) (stack_top s) (st_top s) z (attr_top s) (messages s).
Definition set_attr_top (z : Z) (s : symtab) : symtab :=
  mk_symtab (st s) (attrarray s) (stack s) (stack_top s) (st_top s) (nesting s) z (messages s).
Definition add_message (m : Z * Z) (s : symtab) : symtab :=
  mk_symtab (st s) (attrarray s) (stack s) (stack_top s) (st_top s) (nesting s) (attr_top s) (messages s ++ [m]).

(** [a[i] = x] where [f] makes [x] of the old element. *)
Definition update_at {A} (i : Z) (f : A → A) (l : list A) : option (list A) := x ← aget l i; aset l i (f x).

(** ** Errors *)

(** [error_msg]: the kind of error and the identifier are reported. *)
Definition error_msg (type action id : Z) : prog symtab unit :=
  modify (add_message (type, id));;
  if action =? ABORT then exit_with 0 else mret tt.

(** ** The attributes of a symbol *)

(** [IsAttr]: a cyclic list would be followed for ever. *)
Fixpoint is_attr_loop (fuel : nat) (i num : Z) : prog symtab Z :=
  match fuel with
  | O => λ _, Fuel
  | S fuel' =>
      if i =? 0 then mret 0
      else
        a ← reads (λ s, aget (attrarray s) i);
        if attr_num a =? num then mret i
        else if attr_num a >? num then mret 0
        else is_attr_loop fuel' (next_attr a) num
  end.
Definition attr_fuel : nat := S (Z.to_nat ATTR_SIZE).
Definition IsAttr (p num : Z) : prog symtab Z :=
  i ← reads (λ s, aget (st s) p);
  is_attr_loop attr_fuel i num.

Definition GetAttr (p num : Z) : prog symtab Z :=
  i ← IsAttr p num;
  if i =? 0 then mret 0
  else a ← reads (λ s, aget (attrarray s) i); mret (attr_val a).

(** [p] of [SetAttr]: the pointer that is to point to the new attribute. *)
Inductive place := AtSymbol (p : Z) | AtAttr (i : Z).
Definition store_at (pl : place) (x : Z) (s : symtab) : option symtab :=
  match pl with
  | AtSymbol p => set_st (λ l, aset l p x) s
  | AtAttr i => set_attrarray (update_at i (λ a, mk_attr (attr_num a) (attr_val a) x)) s
  end.
Fixpoint find_place (fuel : nat) (num : Z) (pl : place) (next : Z) : prog symtab (place * Z) :=
  match fuel with
  | O => λ _, Fuel
  | S fuel' =>
      if next =? 0 then mret (pl, next)
      else
        a ← reads (λ s, aget (attrarray s) next);
        if attr_num a <? num then find_place fuel' num (AtAttr next) (next_attr a) else mret (pl, next)
  end.
(** [attr_num] is a [char]. *)
Definition i8 (z : Z) : Z := (z + 128) mod 256 - 128.
Definition SetAttr (p num val : Z) : prog symtab unit :=
  i ← IsAttr p num;
  if negb (i =? 0)
  then updates (set_attrarray (update_at i (λ a, mk_attr (attr_num a) val (next_attr a))))
  else
    next ← reads (λ s, aget (st s) p);
    pn ← find_place attr_fuel num (AtSymbol p) next;
    s ← get;
    (if attr_top s >=? ATTR_SIZE - 1 then error_msg ATTR_OVERFLOW ABORT 0 else mret tt);;
    modify (set_attr_top (attr_top s + 1));;
    updates (set_attrarray (λ l, aset l (attr_top s + 1) (mk_attr (i8 num) val pn.2)));;
    updates (store_at pn.1 (attr_top s + 1)).

(** ** The stack *)

Definition Push (marker : bool) (name st_ptr : Z) (dummy : bool) : prog symtab unit :=
  s ← get;
  (if stack_top s >=? STACK_SIZE - 1 then error_msg STACK_OVERFLOW ABORT 0 else mret tt);;
  modify (set_stack_top (stack_top s + 1));;
  updates (set_stack (λ l, aset l (stack_top s + 1) (mk_elem marker name st_ptr dummy false))).

Definition OpenBlock : prog symtab unit :=
  s ← get; modify (set_nesting (nesting s + 1));; Push true 0 0 false.

Fixpoint lookup_loop (n : nat) (id : Z) : prog symtab (option Z) :=
  match n with
  | O => mret None
  | S n' =>
      e ← reads (λ s, aget (stack s) (Z.of_nat n));
      if negb (e_marker e) && (e_name e =? id)
      then
        updates (set_stack (λ l, aset l (Z.of_nat n) (mk_elem (e_marker e) (e_name e) (e_st_ptr e) (e_dummy e) true)));;
        mret (Some (e_st_ptr e))
      else lookup_loop n' id
  end.
Definition LookUp (id : Z) : prog symtab Z :=
  s ← get;
  r ← lookup_loop (Z.to_nat (stack_top s)) id;
  match r with
  | Some p => mret p
  | None => error_msg UNDECLARATION CONTINUE id;; Push false id 0 true;; mret 0
  end.

(** [stack[i]], [stack[i - 1]] and so on down to [stack[0]]. *)
Definition downwards (s : symtab) : list elem :=
  if stack_top s <? 0 then [] else reverse (take (S (Z.to_nat (stack_top s))) (stack s)).

Fixpoint here_loop (l : list elem) (id : Z) : prog symtab Z :=
  match l with
  | [] => undef
  | e :: l' =>
      if e_marker e then mret 0
      else if (e_name e =? id) && negb (e_dummy e) then mret (e_st_ptr e)
      else here_loop l' id
  end.
Definition LookUpHere (id : Z) : prog symtab Z := s ← get; here_loop (downwards s) id.

Definition InsertEntry (id : Z) : prog symtab Z :=
  h ← LookUpHere id;
  if negb (h =? 0) then error_msg REDECLARATION CONTINUE id;; mret 0
  else
    s ← get;
    (if st_top s >=? ST_SIZE - 1 then error_msg ST_OVERFLOW ABORT 0 else mret tt);;
    let top := st_top s + 1 in
    modify (set_st_top top);;
    updates (set_st (λ l, aset l top 0));;
    SetAttr top NAME_ATTR id;;
    SetAttr top NEST_ATTR (nesting s);;
    Push false id top false;;
    mret top.

(** The loop of [CloseBlock]: how far the marker is from the top. *)
Fixpoint marker_distance (l : list elem) : option Z :=
  match l with
  | [] => None
  | e :: l' => if e_marker e then Some 0 else n ← marker_distance l'; Some (n + 1)
  end.
Definition CloseBlock : prog symtab unit :=
  s ← get;
  n ← lift (marker_distance (downwards s));
  modify (set_nesting (nesting s - 1));;
  modify (set_stack_top (stack_top s - n - 1)).

(** [STInit] declares the predefined names that the program uses. *)
Definition compiler : Type := strtab * symtab.
Definition strings {A} (m : prog strtab A) : prog compiler A := zoom fst (λ t c, (t, c.2)) m.
Definition symbols {A} (m : prog symtab A) : prog compiler A := zoom snd (λ s c, (c.1, s)) m.

(** "system", "readln" and "println". *)
Definition str_system : list Z := [115; 121; 115; 116; 101; 109].
Definition str_readln : list Z := [114; 101; 97; 100; 108; 110].
Definition str_println : list Z := [112; 114; 105; 110; 116; 108; 110].

Definition declare_method (name : list Z) : prog compiler unit :=
  nStrInd ← strings (loc_str name);
  if nStrInd =? -1 then mret tt
  else
    nSymInd ← symbols (InsertEntry nStrInd);
    c ← get;
    symbols (SetAttr nSymInd NEST_ATTR (nesting c.2 + 1));;
    symbols (SetAttr nSymInd PREDE_ATTR 1);;
    symbols (SetAttr nSymInd KIND_ATTR PROCE).
Definition STInit : prog compiler unit :=
  nStrInd ← strings (loc_str str_system);
  (if nStrInd =? -1 then mret tt
   else
     nSymInd ← symbols (InsertEntry nStrInd);
     symbols (SetAttr nSymInd PREDE_ATTR 1);;
     symbols (SetAttr nSymInd KIND_ATTR CLASS));;
  declare_method str_readln;;
  declare_method str_println.

(** ** The abstract table: scopes and attributes *)

(** The innermost block comes first, the last one is outside of all blocks; a
    binding is a name with its symbol, 0 for a name that was looked up in vain;
    the latest comes first. *)
Record scoping := mk_scoping {
  blocks : list (list (Z * Z));
  attrs : gmap (Z * Z) Z;
  entries : Z;
  attr_count : Z;
  reports : list (Z * Z)
}.

(** Elements on the stack: one per binding and one per open block. *)
Fixpoint items (bs : list (list (Z * Z))) : list (option (Z * Z)) :=
  match bs with
  | [] => []
  | [b] => Some <$> b
  | b :: bs' => (Some <$> b) ++ None :: items bs'
  end.
Definition depth (a : scoping) : Z := Z.of_nat (length (items (blocks a))).

Fixpoint binding (b : list (Z * Z)) (id : Z) : option Z :=
  match b with
  | [] => None
  | (n, p) :: b' => if n =? id then Some p else binding b' id
  end.
Definition declared (b : list (Z * Z)) (id : Z) : Z :=
  default 0 (binding (filter (λ np, np.2 ≠ 0) b) id).

Definition report (m : Z * Z) (a : scoping) : scoping :=
  mk_scoping (blocks a) (attrs a) (entries a) (attr_count a) (reports a ++ [m]).
Definition put_blocks (bs : list (list (Z * Z))) (a : scoping) : scoping :=
  mk_scoping bs (attrs a) (entries a) (attr_count a) (reports a).

Definition spec_push (bs : list (list (Z * Z))) : prog scoping unit :=
  a ← get;
  if depth a >=? STACK_SIZE - 1 then modify (report (STACK_OVERFLOW, 0));; exit_with 0 else modify (put_blocks bs).
Definition bind_name (id p : Z) (bs : list (list (Z * Z))) : list (list (Z * Z)) :=
  match bs with
  | [] => []
  | b :: bs' => ((id, p) :: b) :: bs'
  end.

Definition spec_bind (id p : Z) : prog scoping unit := a ← get; spec_push (bind_name id p (blocks a)).

Definition spec_get (p num : Z) : prog scoping Z :=
  a ← get;
  if (0 <=? p) && (p <? ST_SIZE) then mret (default 0 (attrs a !! (p, num))) else undef.
Definition spec_set (p num val : Z) : prog scoping unit :=
  a ← get;
  if (0 <=? p) && (p <=? entries a) && (-128 <=? num) && (num <? 128) then
    let a' n := mk_scoping (blocks a) (<[(p, num) := val]> (attrs a)) (entries a) n (reports a) in
    match attrs a !! (p, num) with
    | Some _ => modify (λ _, a' (attr_count a))
    | None =>
        if attr_count a >=? ATTR_SIZE - 1 then modify (report (ATTR_OVERFLOW, 0));; exit_with 0
        else modify (λ _, a' (attr_count a + 1))
    end
  else undef.
(** Outside of all blocks there is no marker to stop at; the element at the
    bottom, which nothing is pushed on, has the name 0. *)
Definition here (a : scoping) (id : Z) : option Z :=
  match blocks a with
  | [] => None
  | [b] => if negb (declared b id =? 0) then Some (declared b id) else if id =? 0 then Some 0 else None
  | b :: _ => Some (declared b id)
  end.
Definition spec_here (id : Z) : prog scoping Z := a ← get; lift (here a id).
Definition spec_lookup (id : Z) : prog scoping Z :=
  a ← get;
  match binding (concat (blocks a)) id with
  | Some p => mret p
  | None => modify (report (UNDECLARATION, id));; spec_bind id 0;; mret 0
  end.
Definition spec_insert (id : Z) : prog scoping Z :=
  h ← spec_here id;
  if negb (h =? 0) then modify (report (REDECLARATION, id));; mret 0
  else
    a ← get;
    let p := entries a + 1 in
    if entries a >=? ST_SIZE - 1 then modify (report (ST_OVERFLOW, 0));; exit_with 0
    else
      modify (λ a, mk_scoping (blocks a) (attrs a) p (attr_count a) (reports a));;
      spec_set p NAME_ATTR id;;
      spec_set p NEST_ATTR (Z.of_nat (length (blocks a)) - 1);;
      spec_bind id p;;
      mret p.
Definition spec_open : prog scoping unit := a ← get; spec_push ([] :: blocks a).
(** There must be a block to close. *)
Definition spec_close : prog scoping unit :=
  a ← get;
  match blocks a with
  | _ :: b :: bs => modify (put_blocks (b :: bs))
  | _ => undef
  end.

(** The calls of the rest of the compiler. *)
Inductive op :=
| OInsert (id : Z) | OLookUp (id : Z) | OLookUpHere (id : Z) | OOpen | OClose
| OGet (p num : Z) | OSet (p num val : Z).
Definition unit_op {S} (m : prog S unit) : prog S Z := m;; mret 0.
Definition do_op (o : op) : prog symtab Z :=
  match o with
  | OInsert id => InsertEntry id
  | OLookUp id => LookUp id
  | OLookUpHere id => LookUpHere id
  | OOpen => unit_op OpenBlock
  | OClose => unit_op CloseBlock
  | OGet p num => GetAttr p num
  | OSet p num val => unit_op (SetAttr p num val)
  end.
Definition spec_op (o : op) : prog scoping Z :=
  match o with
  | OInsert id => spec_insert id
  | OLookUp id => spec_lookup id
  | OLookUpHere id => spec_here id
  | OOpen => unit_op spec_open
  | OClose => unit_op spec_close
  | OGet p num => spec_get p num
  | OSet p num val => unit_op (spec_set p num val)
  end.
Fixpoint run_ops {S} (run : op → prog S Z) (ops : list op) : prog S (list Z) :=
  match ops with
  | [] => mret []
  | o :: ops' => r ← run o; rs ← run_ops run ops'; mret (r :: rs)
  end.
Definition new_scoping : scoping := mk_scoping [[]] ∅ 0 0 [].

(** ** Attribute lists *)

Section chains.
Implicit Types (arr : list attr_type) (cs : list (Z * Z * Z)).

(** The list at [i]: for each attribute its index, its number and its value. *)
Fixpoint lseg arr (i : Z) cs : Prop :=
  match cs with
  | [] => i = 0
  | (k, num, val) :: cs' => i = k ∧ 1 ≤ k ∧ ∃ nx, aget arr k = Some (mk_attr num val nx) ∧ lseg arr nx cs'
  end.
Definition idx cs : list Z := (λ c, c.1.1) <$> cs.
Definition head_idx cs : Z := match cs with [] => 0 | (k, _, _) :: _ => k end.
(** Strictly ascending numbers. *)
Fixpoint sorted cs : Prop :=
  match cs with
  | [] => True
  | (_, num, _) :: cs' => (∀ c, c ∈ cs' → num < c.1.2) ∧ sorted cs'
  end.
Fixpoint find_cell cs (num : Z) : option (Z * Z) :=
  match cs with
  | [] => None
  | (k, n, v) :: cs' => if n =? num then Some (k, v) else find_cell cs' num
  end.

Lemma idx_app cs1 cs2 : idx (cs1 ++ cs2) = idx cs1 ++ idx cs2.
Proof. apply fmap_app. Qed.
Lemma lseg_head arr i cs : lseg arr i cs → i = head_idx cs.
Proof. destruct cs as [|[[k n] v] cs]; [done|]. by intros [-> _]. Qed.
Lemma aseg_frame arr arr' i cs : lseg arr i cs → (∀ k, k ∈ idx cs → aget arr' k = aget arr k) → lseg arr' i cs.
Proof.
  revert i. induction cs as [|[[k n] v] cs IH]; intros i; [done|]. intros (-> & Hk & nx & E & H) Hf. split; [done|].
  split; [done|]. exists nx. split; [rewrite <-E; apply Hf; by left|]. apply IH; [done|]. intros j Hj. apply Hf. by right.
Qed.
Lemma lseg_lookup arr i cs k n v : lseg arr i cs → (k, n, v) ∈ cs → 1 ≤ k ∧ ∃ nx, aget arr k = Some (mk_attr n v nx).
Proof.
  revert i. induction cs as [|[[k' n'] v'] cs IH]; intros i H; [by intros ?%not_elem_of_nil|].
  destruct H as (_ & Hk & nx & E & H). intros [[= -> -> ->]|Hin]%elem_of_cons; [by split; [|exists nx]|by eapply IH].
Qed.
Lemma find_cell_none cs num : (∀ c, c ∈ cs → c.1.2 ≠ num) → find_cell cs num = None.
Proof.
  induction cs as [|[[k n] v] cs IH]; intros H; [done|]. simpl.
  rewrite (proj2 (Z.eqb_neq n num)) by (apply (H (k, n, v)); by left). apply IH. intros c Hc. apply H. by right.
Qed.
Lemma find_cell_app cs1 cs2 num : find_cell (cs1 ++ cs2) num =
  match find_cell cs1 num with Some x => Some x | None => find_cell cs2 num end.
Proof. induction cs1 as [|[[k n] v] cs1 IH]; [done|]. simpl. by destruct (n =? num). Qed.
Lemma find_cell_split cs num k v : find_cell cs num = Some (k, v) →
  ∃ cs1 cs2, cs = cs1 ++ (k, num, v) :: cs2 ∧ find_cell cs1 num = None.
Proof.
  induction cs as [|[[k' n'] v'] cs IH]; simpl; [done|]. destruct (Z.eqb_spec n' num) as [->|Hne].
  - intros [= -> ->]. by exists [], cs.
  - intros (cs1 & cs2 & -> & Hn)%IH. exists ((k', n', v') :: cs1), cs2. simpl. by rewrite (proj2 (Z.eqb_neq _ _)).
Qed.

(** [IsAttr] finds what is in the list. *)
Lemma is_attr_loop_ok s fuel i cs num : lseg (attrarray s) i cs → sorted cs → (length cs < fuel)%nat →
  is_attr_loop fuel i num s = Ret (default 0 (fst <$> find_cell cs num)) s.
Proof.
  revert i fuel. induction cs as [|[[k n] v] cs IH]; intros i fuel H Hs Hf; (destruct fuel as [|fuel]; [simpl in Hf; lia|]).
  - simpl in H. subst. done.
  - destruct H as (-> & Hk & nx & E & H), Hs as [Hlt Hs]. cbn [is_attr_loop find_cell]. rewrite (proj2 (Z.eqb_neq k 0)) by lia.
    run (reads_Some (λ s, aget (attrarray s) k) _ s E). cbn [attr_num next_attr].
    destruct (Z.eqb_spec n num) as [|Hne]; [done|]. rewrite Z.gtb_ltb. destruct (Z.ltb_spec num n) as [Hl|Hl].
    + rewrite find_cell_none; [done|]. intros c Hc. specialize (Hlt c Hc). lia.
    + apply IH; [done|done|simpl in Hf; lia].
Qed.

(** Where [SetAttr] puts a new attribute. *)
Definition place_after (pl : place) cs1 : place :=
  match list.last cs1 with Some (k, _, _) => AtAttr k | None => pl end.
Lemma place_after_cons pl c cs1 : place_after pl (c :: cs1) = place_after (AtAttr c.1.1) cs1.
Proof. unfold place_after. rewrite last_cons. destruct (list.last cs1) as [[[??]?]|]; [done|]. by destruct c as [[??]?]. Qed.
Lemma find_place_ok s fuel num pl i cs : lseg (attrarray s) i cs → (length cs < fuel)%nat → find_cell cs num = None →
  sorted cs →
  ∃ cs1 cs2, cs = cs1 ++ cs2 ∧ (∀ c, c ∈ cs1 → c.1.2 < num) ∧ (∀ c, c ∈ cs2 → num < c.1.2) ∧
    find_place fuel num pl i s = Ret (place_after pl cs1, head_idx cs2) s.
Proof.
  revert i fuel pl. induction cs as [|[[k n] v] cs IH]; intros i fuel pl H Hf Hn Hs; (destruct fuel as [|fuel]; [simpl in Hf; lia|]).
  - simpl in H. subst. exists [], []. split_and!; try done; by intros ? ?%not_elem_of_nil.
  - destruct H as (-> & Hk & nx & E & H), Hs as [Hlt Hs]. cbn [find_place]. rewrite (proj2 (Z.eqb_neq k 0)) by lia.
    run (reads_Some (λ s, aget (attrarray s) k) _ s E). cbn [attr_num next_attr].
    simpl in Hn. destruct (Z.eqb_spec n num) as [|Hne]; [done|]. destruct (Z.ltb_spec n num) as [Hl|Hl].
    + destruct (IH nx fuel (AtAttr k) H ltac:(simpl in Hf; lia) Hn Hs) as (cs1 & cs2 & -> & H1 & H2 & E2).
      exists ((k, n, v) :: cs1), cs2. rewrite E2, place_after_cons. split_and!; try done.
      by intros c [->|Hc]%elem_of_cons; [|apply H1].
    + exists [], ((k, n, v) :: cs). split_and!; try done; [by intros ? ?%not_elem_of_nil|].
      intros c [->|Hc]%elem_of_cons; [simpl; lia|]. specialize (Hlt c Hc). lia.
Qed.

Lemma aseg_app arr i cs1 cs2 : lseg arr i (cs1 ++ cs2) → ∃ j, lseg arr j cs2.
Proof.
  revert i. induction cs1 as [|[[k n] v] cs1 IH]; intros i; [by exists i|]. intros (_ & _ & nx & _ & H). by eapply IH.
Qed.
(** A new attribute behind the one with index [k]. *)
Lemma lseg_link arr arr' i cs1 k n v cs2 k' n' v' :
  lseg arr i (cs1 ++ (k, n, v) :: cs2) → NoDup (idx (cs1 ++ (k, n, v) :: cs2)) → 1 ≤ k' →
  (∀ j, j ∈ idx (cs1 ++ cs2) → aget arr' j = aget arr j) → aget arr' k = Some (mk_attr n v k') →
  aget arr' k' = Some (mk_attr n' v' (head_idx cs2)) →
  lseg arr' i (cs1 ++ (k, n, v) :: (k', n', v') :: cs2).
Proof.
  revert i. induction cs1 as [|[[k0 n0] v0] cs1 IH]; intros i H Hnd Hk' Hf Ek Ek'.
  - destruct H as (-> & Hk & nx & E & H). split; [done|]. split; [done|]. exists k'. split; [done|]. split; [done|].
    split; [done|]. exists nx. rewrite (lseg_head _ _ _ H). split; [done|]. rewrite <-(lseg_head _ _ _ H).
    eapply aseg_frame; [exact H|]. intros j Hj. by apply Hf.
  - destruct H as (-> & Hk & nx & E & H). split; [done|]. split; [done|]. exists nx. cbn [app idx fmap list_fmap] in Hnd.
    apply NoDup_cons in Hnd as [_ Hnd]. split; [rewrite Hf; [done|by left]|]. apply IH; try done. intros j Hj. apply Hf. by right.
Qed.
Lemma lseg_update arr arr' i cs1 k n v cs2 v' :
  lseg arr i (cs1 ++ (k, n, v) :: cs2) → NoDup (idx (cs1 ++ (k, n, v) :: cs2)) →
  (∀ j, j ≠ k → aget arr' j = aget arr j) → (∀ nx, aget arr k = Some (mk_attr n v nx) → aget arr' k = Some (mk_attr n v' nx)) →
  lseg arr' i (cs1 ++ (k, n, v') :: cs2).
Proof.
  intros H Hnd Hf Hk. revert i H. induction cs1 as [|[[k0 n0] v0] cs1 IH]; intros i H.
  - destruct H as (-> & Hk1 & nx & E & H). split; [done|]. split; [done|]. exists nx. split; [by apply Hk|].
    eapply aseg_frame; [exact H|]. intros j Hj. apply Hf. intros ->. by apply NoDup_cons in Hnd as [? _].
  - destruct H as (-> & Hk1 & nx & E & H). split; [done|]. split; [done|]. exists nx. apply NoDup_cons in Hnd as [Hni Hnd].
    split; [|by apply IH]. rewrite Hf; [done|]. intros ->. apply Hni. change (k ∈ idx (cs1 ++ (k, n, v) :: cs2)). rewrite idx_app. apply elem_of_app. right. by left.
Qed.

Lemma sorted_app cs1 cs2 : sorted (cs1 ++ cs2) ↔ sorted cs1 ∧ sorted cs2 ∧ (∀ c c', c ∈ cs1 → c' ∈ cs2 → c.1.2 < c'.1.2).
Proof.
  induction cs1 as [|[[k n] v] cs1 IH]; simpl.
  - split; [intros H; split_and!; try done; by intros ? ? ?%not_elem_of_nil|tauto].
  - rewrite IH. setoid_rewrite elem_of_app. setoid_rewrite elem_of_cons. split.
    + intros (H & H1 & H2 & H3). split_and!; auto. intros c c' [->|Hc] Hc'; [apply H; by right|by apply H3].
    + intros ((H & H1) & H2 & H3). split_and!; auto. intros c [Hc|Hc]; [auto|]. apply (H3 (k, n, v)); auto.
Qed.
End chains.

(** ** The attributes as a map *)

Definition st_range (p : Z) : Prop := 0 ≤ p < ST_SIZE.
Record attrs_ok (s : symtab) (m : gmap (Z * Z) Z) (C : Z → list (Z * Z * Z)) : Prop := {
  ao_len : length (st s) = Z.to_nat ST_SIZE ∧ length (attrarray s) = Z.to_nat ATTR_SIZE;
  ao_top : 0 ≤ attr_top s < ATTR_SIZE ∧ 0 ≤ st_top s < ST_SIZE;
  ao_seg : ∀ p, st_range p → ∃ i, aget (st s) p = Some i ∧ lseg (attrarray s) i (C p);
  ao_sorted : ∀ p, st_range p → sorted (C p);
  ao_nodup : ∀ p, st_range p → NoDup (idx (C p));
  ao_dom : ∀ p k, st_range p → k ∈ idx (C p) → 1 ≤ k ≤ attr_top s;
  ao_disj : ∀ p q k, st_range p → st_range q → k ∈ idx (C p) → k ∈ idx (C q) → p = q;
  ao_map : ∀ p num, st_range p → m !! (p, num) = snd <$> find_cell (C p) num;
  ao_fresh : ∀ p, st_top s < p < ST_SIZE → C p = []
}.

(** What the attribute operations leave alone. *)
Definition same_rest (s s' : symtab) : Prop :=
  stack s' = stack s ∧ stack_top s' = stack_top s ∧ st_top s' = st_top s ∧ nesting s' = nesting s ∧ messages s' = messages s.
#[export] Instance same_rest_preorder : PreOrder same_rest.
Proof. split; [by intros s|]. intros s1 s2 s3 (?&?&?&?&?) (?&?&?&?&?). unfold same_rest. by split_and!; etrans. Qed.

Section attributes.
Context (s : symtab) (m : gmap (Z * Z) Z) (C : Z → list (Z * Z * Z)).
Context (HA : attrs_ok s m C).

Lemma chain_short p : st_range p → (length (C p) < attr_fuel)%nat.
Proof using HA.
  intros Hp. pose proof (NoDup_range_length (idx (C p)) ATTR_SIZE (ao_nodup _ _ _ HA p Hp)) as H.
  unfold attr_fuel. assert (length (idx (C p)) = length (C p)) as E by apply length_fmap. rewrite E in H.
  assert (Z.of_nat (length (C p)) ≤ Z.max 0 ATTR_SIZE); [|unfold ATTR_SIZE in *; lia].
  apply H. intros k Hk. pose proof (ao_dom _ _ _ HA p k Hp Hk). pose proof (ao_top _ _ _ HA). lia.
Qed.
Lemma IsAttr_ok p num : st_range p → IsAttr p num s = Ret (default 0 (fst <$> find_cell (C p) num)) s.
Proof using HA.
  intros Hp. destruct (ao_seg _ _ _ HA p Hp) as (i & Ei & Hseg). unfold IsAttr.
  run (reads_Some (λ s, aget (st s) p) _ s Ei). apply is_attr_loop_ok; [done|by apply (ao_sorted _ _ _ HA)|by apply chain_short].
Qed.
Lemma cell_ok p num k v : st_range p → find_cell (C p) num = Some (k, v) →
  1 ≤ k ∧ ∃ nx, aget (attrarray s) k = Some (mk_attr num v nx).
Proof using HA.
  intros Hp (cs1 & cs2 & E & _)%find_cell_split. destruct (ao_seg _ _ _ HA p Hp) as (i & Ei & Hseg).
  eapply lseg_lookup; [exact Hseg|]. rewrite E. apply elem_of_app. right. by left.
Qed.
Lemma GetAttr_ok p num : st_range p → GetAttr p num s = Ret (default 0 (m !! (p, num))) s.
Proof using HA.
  intros Hp. unfold GetAttr. run (IsAttr_ok p num Hp). rewrite (ao_map _ _ _ HA p num Hp).
  destruct (find_cell (C p) num) as [[k v]|] eqn:E; [|done]. destruct (cell_ok p num k v Hp E) as (Hk & nx & Ek). simpl.
  rewrite (proj2 (Z.eqb_neq k 0)) by lia. by run (reads_Some (λ s, aget (attrarray s) k) _ s Ek).
Qed.

(** An attribute that is there gets the new value. *)
Lemma SetAttr_update p num val k v : st_range p → find_cell (C p) num = Some (k, v) →
  ∃ s' C', SetAttr p num val s = Ret tt s' ∧ attrs_ok s' (<[(p, num) := val]> m) C' ∧ same_rest s s' ∧ attr_top s' = attr_top s.
Proof using HA.
  intros Hp E. destruct (cell_ok p num k v Hp E) as (Hk & nx & Ek). unfold SetAttr. run (IsAttr_ok p num Hp). rewrite E. simpl.
  rewrite (proj2 (Z.eqb_neq k 0)) by lia. simpl. pose proof (aget_bounds _ _ _ Ek) as Hb.
  set (arr' := <[Z.to_nat k := mk_attr num val nx]> (attrarray s)).
  assert (aset (attrarray s) k (mk_attr num val nx) = Some arr') as Eset by (by apply aset_ok).
  exists (mk_symtab (st s) arr' (stack s) (stack_top s) (st_top s) (nesting s) (attr_top s) (messages s)).
  destruct (find_cell_split _ _ _ _ E) as (cs1 & cs2 & EC & Hn1).
  set (new := cs1 ++ (k, num, val) :: cs2). exists (λ q, if decide (q = p) then new else C q).
  assert (idx new = idx (C p)) as Eidx by (unfold new; by rewrite EC, !idx_app).
  split; [|split; [|done]].
  { unfold updates, set_attrarray, update_at. cbn. rewrite Ek. cbn [mbind option_bind attr_num next_attr]. by rewrite Eset. }
  assert (∀ j, j ≠ k → aget arr' j = aget (attrarray s) j) as Hne by (intros j Hj; by apply (aget_aset_ne _ _ _ _ _ Eset)).
  destruct HA as [[H1 H2] H3 Hseg Hsort Hnd Hdom Hdisj Hmap Hfresh]. constructor; cbn [st attrarray attr_top st_top]; try done.
  - unfold arr'. by rewrite length_insert.
  - intros q Hq. destruct (Hseg q Hq) as (i & Ei & Hs). exists i. split; [done|]. case_decide as Hqp.
    + subst q. rewrite EC in Hs. eapply lseg_update; [exact Hs|rewrite <-EC; by apply Hnd|done|].
      intros nx' Hx. rewrite (aget_aset_eq _ _ _ _ Eset). congruence.
    + eapply aseg_frame; [exact Hs|]. intros j Hj. apply Hne. intros ->. apply Hqp. apply (Hdisj q p k Hq Hp Hj).
      rewrite EC, idx_app. apply elem_of_app. right. by left.
  - intros q Hq. case_decide; [|by apply Hsort]. subst. specialize (Hsort p Hp). rewrite EC in Hsort. unfold new.
    apply sorted_app in Hsort as (S1 & [S2 S3] & S4). apply sorted_app. split_and!; [done|done|].
    intros c c' Hc [->|Hc']%elem_of_cons; [apply (S4 c (k, num, v)); [done|by left]|apply S4; [done|by right]].
  - intros q Hq. case_decide; [|by apply Hnd]. subst. rewrite Eidx. by apply Hnd.
  - intros q j Hq. case_decide; [subst; rewrite Eidx|]; by apply Hdom.
  - intros q r j Hq Hr. repeat case_decide; subst; rewrite ?Eidx; by apply Hdisj.
  - intros q n Hq. case_decide as Hqp.
    + subst q. unfold new. rewrite find_cell_app. destruct (decide (n = num)) as [->|Hnn].
      * rewrite lookup_insert_eq, Hn1. simpl. by rewrite Z.eqb_refl.
      * rewrite lookup_insert_ne, Hmap, EC, find_cell_app by congruence. simpl. by rewrite (proj2 (Z.eqb_neq num n)) by done.
    + rewrite lookup_insert_ne by congruence. by apply Hmap.
  - intros q Hq. case_decide as Hqp; [|by apply Hfresh]. subst q. rewrite (Hfresh p Hq) in EC. by destruct cs1.
Qed.

Lemma i8_small z : -128 ≤ z < 128 → i8 z = z.
Proof using Type. clear. intros H. unfold i8. rewrite Z.mod_small; lia. Qed.

(** The new attribute, with its number [n], in the list of [p]. *)
Lemma link_new p num val i cs1 cs2 : st_range p → aget (st s) p = Some i → lseg (attrarray s) i (C p) → C p = cs1 ++ cs2 →
  attr_top s < ATTR_SIZE - 1 →
  let n := attr_top s + 1 in let new := cs1 ++ (n, num, val) :: cs2 in
  ∃ arr1 s2, aset (attrarray s) n (mk_attr num val (head_idx cs2)) = Some arr1 ∧
    store_at (place_after (AtSymbol p) cs1) n (mk_symtab (st s) arr1 (stack s) (stack_top s) (st_top s) (nesting s) n (messages s)) = Some s2 ∧
    same_rest s s2 ∧ attr_top s2 = n ∧ length (st s2) = length (st s) ∧ length (attrarray s2) = length (attrarray s) ∧
    (∀ q, q ≠ p → aget (st s2) q = aget (st s) q) ∧
    (∀ k, k ∉ idx (C p) → k ≠ n → aget (attrarray s2) k = aget (attrarray s) k) ∧
    (∃ j, aget (st s2) p = Some j ∧ lseg (attrarray s2) j new).
Proof using HA.
  intros Hp Ei Hseg EC Hroom n new. pose proof (ao_top _ _ _ HA) as Htop. destruct (ao_len _ _ _ HA) as [Hlen1 Hlen2].
  set (arr1 := <[Z.to_nat n := mk_attr num val (head_idx cs2)]> (attrarray s)).
  assert (aset (attrarray s) n (mk_attr num val (head_idx cs2)) = Some arr1) as Eset1 by (apply aset_ok; unfold n, ATTR_SIZE in *; lia).
  set (s1 := mk_symtab (st s) arr1 (stack s) (stack_top s) (st_top s) (nesting s) n (messages s)).
  assert (n ∉ idx (C p)) as Hfreshn by (intros Hn; pose proof (ao_dom _ _ _ HA p n Hp Hn); unfold n in *; lia).
  exists arr1.
  destruct cs1 as [|[[k0 n0] v0] cs1' _] using rev_ind.
    - assert (aset (st s) p n = Some (<[Z.to_nat p := n]> (st s))) as Eset by (apply aset_ok; unfold st_range in Hp; lia).
      exists (mk_symtab (<[Z.to_nat p := n]> (st s)) arr1 (stack s) (stack_top s) (st_top s) (nesting s) n (messages s)).
      unfold place_after, s1. simpl. unfold set_st. simpl. rewrite Eset. split_and!; try done.
      + apply length_insert.
      + apply length_insert.
      + intros q Hq. by apply (aget_aset_ne _ _ _ _ _ Eset).
      + intros k _ Hk. by apply (aget_aset_ne _ _ _ _ _ Eset1).
      + exists n. split; [by apply (aget_aset_eq _ _ _ _ Eset)|]. simpl in EC. unfold new. simpl. split; [done|]. split; [unfold n; lia|].
        exists (head_idx cs2). split; [by apply (aget_aset_eq _ _ _ _ Eset1)|]. rewrite <-EC, <-(lseg_head _ _ _ Hseg).
        eapply aseg_frame; [exact Hseg|]. intros k Hk. apply (aget_aset_ne _ _ _ _ _ Eset1). by intros ->.
    - rewrite <-app_assoc in EC. simpl in EC. assert (k0 ∈ idx (C p)) as Hk0 by (rewrite EC, idx_app; apply elem_of_app; right; by left).
      assert ((k0, n0, v0) ∈ C p) as Hin by (rewrite EC; apply elem_of_app; right; by left).
      destruct (lseg_lookup _ _ _ _ _ _ Hseg Hin) as (Hk1 & nx & Ek0). assert (k0 ≠ n) as Hk0n by (by intros ->).
      pose proof (aget_aset_ne _ _ k0 _ _ Eset1 ltac:(done)) as Ek01. rewrite Ek0 in Ek01. pose proof (aget_bounds _ _ _ Ek01) as Hb.
      set (arr2 := <[Z.to_nat k0 := mk_attr n0 v0 n]> arr1).
      assert (aset arr1 k0 (mk_attr n0 v0 n) = Some arr2) as Eset2 by (by apply aset_ok).
      exists (mk_symtab (st s) arr2 (stack s) (stack_top s) (st_top s) (nesting s) n (messages s)).
      unfold place_after, s1. rewrite last_snoc. simpl. unfold set_attrarray, update_at. simpl. rewrite Ek01. simpl. rewrite Eset2.
      split_and!; try done.
      + unfold arr2, arr1. by rewrite !length_insert.
      + intros k Hk Hkn. rewrite (aget_aset_ne _ _ _ _ _ Eset2) by (by intros ->). by apply (aget_aset_ne _ _ _ _ _ Eset1).
      + exists i. split; [done|]. unfold new. rewrite <-app_assoc. simpl. rewrite EC in Hseg. pose proof (ao_nodup _ _ _ HA p Hp) as Hnd. rewrite EC in Hnd.
        eapply lseg_link; [exact Hseg|done|unfold n; lia| | |].
        * intros k Hk. assert (k ≠ k0).
          { intros ->. rewrite idx_app in Hnd, Hk. apply NoDup_app in Hnd as (_ & Hd & Hnd). apply NoDup_cons in Hnd as [Hnd _].
            apply elem_of_app in Hk as [Hk|Hk]; [by apply (Hd k0 Hk); left|by apply Hnd]. }
          rewrite (aget_aset_ne _ _ _ _ _ Eset2) by done. apply (aget_aset_ne _ _ _ _ _ Eset1). intros <-. apply Hfreshn.
          rewrite EC, idx_app. rewrite idx_app in Hk. apply elem_of_app in Hk as [Hk|Hk]; apply elem_of_app; [by left|right; by right].
        * by apply (aget_aset_eq _ _ _ _ Eset2).
        * rewrite (aget_aset_ne _ _ _ _ _ Eset2) by done. by apply (aget_aset_eq _ _ _ _ Eset1).
Qed.

(** A new attribute takes the next element of the array. *)
Lemma SetAttr_new p num val : 0 ≤ p ≤ st_top s → -128 ≤ num < 128 → find_cell (C p) num = None → attr_top s < ATTR_SIZE - 1 →
  ∃ s' C', SetAttr p num val s = Ret tt s' ∧ attrs_ok s' (<[(p, num) := val]> m) C' ∧ same_rest s s' ∧ attr_top s' = attr_top s + 1.
Proof using HA.
  intros Hpt Hnum E Hroom. pose proof (ao_top _ _ _ HA) as Htop. assert (st_range p) as Hp by (unfold st_range; lia).
  destruct (ao_seg _ _ _ HA p Hp) as (i & Ei & Hseg).
  destruct (find_place_ok s attr_fuel num (AtSymbol p) i (C p) Hseg (chain_short p Hp) E (ao_sorted _ _ _ HA p Hp))
    as (cs1 & cs2 & EC & Hl1 & Hl2 & Eplace).
  set (n := attr_top s + 1). set (new := cs1 ++ (n, num, val) :: cs2).
  destruct (ao_len _ _ _ HA) as [Hlen1 Hlen2].
  assert (n ∉ idx (C p)) as Hfreshn by (intros Hn; pose proof (ao_dom _ _ _ HA p n Hp Hn); unfold n in *; lia).
  destruct (link_new p num val i cs1 cs2 Hp Ei Hseg EC Hroom) as (arr1 & s2 & Eset1 & Estore & Hrest & Htop2 & Hl3 & Hl4 & Hst & Harr & j & Ej & Hseg2).
  fold n in Eset1, Estore, Htop2, Harr, Hseg2. fold new in Hseg2.
  set (s1 := mk_symtab (st s) arr1 (stack s) (stack_top s) (st_top s) (nesting s) n (messages s)) in *.
  exists s2, (λ q, if decide (q = p) then new else C q). split; [|split; [|done]].
  { unfold SetAttr. run (IsAttr_ok p num Hp). rewrite E. simpl. run (reads_Some (λ s, aget (st s) p) _ s Ei). run Eplace.
    run (eq_refl (get s)). rewrite Z.geb_leb, (proj2 (Z.leb_gt _ _)) by lia.
    erewrite bind_Ret by reflexivity. run (eq_refl (modify _ s)). cbn [fst snd]. rewrite i8_small by done.
    erewrite bind_Ret; [|apply (updates_Some _ _ s1); unfold set_attrarray; cbn; fold n; by rewrite Eset1].
    apply updates_Some. exact Estore. }
  assert (∀ k, k ∈ idx new ↔ k = n ∨ k ∈ idx (C p)) as Hidx.
  { intros k. unfold new. rewrite EC, !idx_app. cbn [idx fmap list_fmap]. rewrite !elem_of_app, elem_of_cons. simpl. tauto. }
  destruct Hrest as (R1 & R2 & R3 & R4 & R5).
  destruct HA as [_ _ Hsegs Hsort Hnd Hdom Hdisj Hmap Hfresh]. constructor; rewrite ?R3, ?Htop2.
  - by rewrite Hl3, Hl4.
  - unfold n. lia.
  - intros q Hq. case_decide as Hqp; [subst q; by exists j|]. destruct (Hsegs q Hq) as (iq & Eq & Hs). exists iq.
    rewrite Hst by done. split; [done|]. eapply aseg_frame; [exact Hs|]. intros k Hk. apply Harr.
    + intros Hk'. apply Hqp. by apply (Hdisj q p k).
    + intros ->. pose proof (Hdom q n Hq Hk). unfold n in *. lia.
  - intros q Hq. case_decide; [|by apply Hsort]. subst. specialize (Hsort p Hp). rewrite EC in Hsort. apply sorted_app in Hsort as (S1 & S2 & S3).
    unfold new. apply sorted_app. split_and!; [done|split; [by apply Hl2|done]|].
    intros c c' Hc [->|Hc']%elem_of_cons; [by apply Hl1|by apply S3].
  - intros q Hq. case_decide; [|by apply Hnd]. subst. specialize (Hnd p Hp). rewrite EC, idx_app in Hnd. rewrite EC, idx_app in Hfreshn.
    unfold new. rewrite idx_app. rewrite not_elem_of_app in Hfreshn. apply NoDup_app in Hnd as (N1 & N2 & N3). apply NoDup_app. split_and!; [done| |].
    + intros k Hk [->|Hk']%elem_of_cons; [exact (proj1 Hfreshn Hk)|exact (N2 k Hk Hk')].
    + apply NoDup_cons. split; [exact (proj2 Hfreshn)|done].
  - intros q k Hq. case_decide; [subst; rewrite Hidx; intros [->|Hk]; [unfold n; lia|]|intros Hk]; pose proof (Hdom _ k Hq Hk); unfold n; lia.
  - intros q r k Hq Hr. repeat case_decide; subst; rewrite ?Hidx; try done; [..|by apply Hdisj].
    + intros [->|Hk] Hk'; [pose proof (Hdom r n Hr Hk'); unfold n in *; lia|by apply (Hdisj p r k)].
    + intros Hk [->|Hk']; [pose proof (Hdom q n Hq Hk); unfold n in *; lia|by apply (Hdisj q p k)].
  - intros q nm Hq. case_decide as Hqp.
    + subst q. unfold new. rewrite find_cell_app. destruct (decide (nm = num)) as [->|Hnn].
      * rewrite lookup_insert_eq. rewrite find_cell_none by (intros c Hc; specialize (Hl1 c Hc); lia). simpl. by rewrite Z.eqb_refl.
      * rewrite lookup_insert_ne, Hmap, EC, find_cell_app by congruence. simpl. by rewrite (proj2 (Z.eqb_neq num nm)) by done.
    + rewrite lookup_insert_ne by congruence. by apply Hmap.
  - intros q Hq. case_decide; [|by apply Hfresh]. subst. lia.
Qed.
End attributes.

(** ** The stack as scopes *)

(** What the loops look at of an element, and what a binding shows them. *)
Definition item (e : elem) : option (Z * Z * bool) :=
  if e_marker e then None else Some (e_name e, e_st_ptr e, e_dummy e).
Definition shown (it : option (Z * Z)) : option (Z * Z * bool) :=
  match it with Some (n, p) => Some (n, p, bool_decide (p = 0)) | None => None end.
Definition live (s : symtab) : list elem := reverse (take (Z.to_nat (stack_top s)) (drop 1 (stack s))).

Record rep (s : symtab) (a : scoping) : Prop := {
  r_attrs : ∃ C, attrs_ok s (attrs a) C;
  r_entries : st_top s = entries a;
  r_count : attr_top s = attr_count a;
  r_stack : length (stack s) = Z.to_nat STACK_SIZE ∧ 0 ≤ stack_top s < STACK_SIZE;
  r_bottom : ∃ e, stack s !! O = Some e ∧ e_marker e = false ∧ e_st_ptr e = 0 ∧ e_name e = 0 ∧ e_dummy e = false;
  r_items : item <$> live s = shown <$> items (blocks a);
  r_open : blocks a ≠ [];
  r_nesting : nesting s = Z.of_nat (length (blocks a)) - 1;
  r_messages : messages s = reports a
}.

(** The abstract run is followed; where it is undefined nothing is claimed. *)
Definition refines {A} (o : outcome symtab A) (o' : outcome scoping A) : Prop :=
  match o' with
  | Ret r a => ∃ s, o = Ret r s ∧ rep s a
  | Exited code a => ∃ s, o = Exited code s ∧ messages s = reports a
  | Undef => True
  | Fuel => False
  end.
Lemma refines_bind {A B} (m : prog symtab A) (m' : prog scoping A) (k : A → prog symtab B) (k' : A → prog scoping B) s a :
  refines (m s) (m' a) → (∀ r s a, rep s a → refines (k r s) (k' r a)) → refines ((m ≫= k) s) ((m' ≫= k') a).
Proof.
  unfold mbind, prog_bind. intros H Hk. destruct (m' a) as [r a1|c a1| |]; simpl in H; [|..|done].
  - destruct H as (s1 & -> & H1). by apply Hk.
  - destruct H as (s1 & -> & H1). by exists s1.
  - done.
Qed.

Section stacks.
Implicit Types (s : symtab) (a : scoping).

Lemma live_length s : length (stack s) = Z.to_nat STACK_SIZE → 0 ≤ stack_top s < STACK_SIZE →
  length (live s) = Z.to_nat (stack_top s).
Proof. intros Hl Ht. unfold live. rewrite length_reverse, length_take, length_drop. lia. Qed.

Lemma depth_top s a : rep s a → depth a = stack_top s.
Proof.
  intros [_ _ _ [Hl Ht] _ Hi _ _ _]. unfold depth. apply (f_equal length) in Hi. rewrite !length_fmap, live_length in Hi by done. lia.
Qed.

(** What is below the live elements. *)
Lemma downwards_live s a : rep s a →
  ∃ e, downwards s = live s ++ [e] ∧ e_marker e = false ∧ e_st_ptr e = 0 ∧ e_name e = 0 ∧ e_dummy e = false.
Proof.
  intros [_ _ _ [Hl Ht] (e & E & He) _ _ _ _]. exists e. split; [|done]. unfold downwards, live.
  rewrite (proj2 (Z.ltb_ge _ _)) by lia. destruct (stack s) as [|x l] eqn:Es; [done|]. injection E as ->.
  cbn [take drop]. by rewrite reverse_cons.
Qed.

(** The next element becomes live. *)
Lemma live_push s e : length (stack s) = Z.to_nat STACK_SIZE → 0 ≤ stack_top s < STACK_SIZE - 1 →
  reverse (take (Z.to_nat (stack_top s + 1)) (drop 1 (<[Z.to_nat (stack_top s + 1) := e]> (stack s)))) = e :: live s.
Proof.
  intros Hl Ht. unfold live. replace (Z.to_nat (stack_top s + 1)) with (S (Z.to_nat (stack_top s))) by lia.
  set (n := Z.to_nat (stack_top s)). assert (n < 99)%nat by (unfold n, STACK_SIZE in *; lia).
  destruct (stack s) as [|x l]; [done|]. simpl in Hl. cbn [drop].
  change (<[S n := e]> (x :: l)) with (x :: <[n := e]> l). cbn [drop].
  rewrite !drop_0, (take_S_r _ n e) by (apply list_lookup_insert_eq; unfold STACK_SIZE in Hl; lia). rewrite take_insert_ge by lia.
  rewrite reverse_snoc. done.
Qed.

(** [Push] when there is room and when there is none. *)
Definition pushed s (e : elem) : symtab :=
  mk_symtab (st s) (attrarray s) (<[Z.to_nat (stack_top s + 1) := e]> (stack s)) (stack_top s + 1)
    (st_top s) (nesting s) (attr_top s) (messages s).
Lemma Push_room s mk id p d : length (stack s) = Z.to_nat STACK_SIZE → 0 ≤ stack_top s < STACK_SIZE - 1 →
  Push mk id p d s = Ret tt (pushed s (mk_elem mk id p d false)).
Proof.
  intros Hl Ht. unfold Push. run (eq_refl (get s)). rewrite Z.geb_leb, (proj2 (Z.leb_gt _ _)) by lia.
  erewrite bind_Ret by reflexivity. run (eq_refl (modify _ s)). apply updates_Some. unfold set_stack. cbn.
  rewrite aset_ok by (unfold STACK_SIZE in *; lia). done.
Qed.
Lemma Push_full s mk id p d : STACK_SIZE - 1 ≤ stack_top s → Push mk id p d s = Exited 0 (add_message (STACK_OVERFLOW, 0) s).
Proof. intros Ht. unfold Push. run (eq_refl (get s)). rewrite Z.geb_leb, (proj2 (Z.leb_le _ _)) by lia. done. Qed.
Lemma rep_pushed s a e bs z : rep s a → item e :: (item <$> live s) = shown <$> items bs → bs ≠ [] →
  stack_top s < STACK_SIZE - 1 → z = Z.of_nat (length bs) - 1 →
  rep (pushed (set_nesting z s) e) (put_blocks bs a).
Proof.
  intros [[C HA] He Hc [Hl Ht] (e0 & E0 & Hb) Hi Hne Hn Hm] Hbs Hbs0 Hroom Hz. constructor; cbn; try done.
  - exists C. by destruct HA; constructor.
  - rewrite length_insert. lia.
  - exists e0. split; [|done]. rewrite list_lookup_insert_ne by lia. done.
  - unfold live. cbn [stack stack_top pushed set_nesting]. rewrite live_push by lia. done.
Qed.
(** The abstract push, for any element that shows what is pushed. *)
Lemma push_ok s a mk id p d bs z : rep s a → item (mk_elem mk id p d false) :: (shown <$> items (blocks a)) = shown <$> items bs →
  bs ≠ [] → z = Z.of_nat (length bs) - 1 → refines (Push mk id p d (set_nesting z s)) (spec_push bs a).
Proof.
  intros R Hbs Hbs0 Hz. unfold spec_push. rewrite (bind_Ret _ _ a a a) by done. rewrite (depth_top s a R), Z.geb_leb.
  destruct (r_stack _ _ R) as [Hl Ht]. destruct (Z.leb_spec (STACK_SIZE - 1) (stack_top s)) as [Hfull|Hroom].
  - rewrite Push_full by done. eexists. split; [done|]. cbn. by rewrite (r_messages _ _ R).
  - rewrite Push_room by (cbn; lia). eexists. split; [done|]. apply rep_pushed; try done. by rewrite (r_items _ _ R).
Qed.
Lemma set_nesting_id s : set_nesting (nesting s) s = s.
Proof. by destruct s. Qed.

(** Outside and inside of blocks. *)
Lemma items_cons b bs : bs ≠ [] → items (b :: bs) = (Some <$> b) ++ None :: items bs.
Proof. by destruct bs. Qed.
Lemma items_bind id p bs : bs ≠ [] → items (bind_name id p bs) = Some (id, p) :: items bs.
Proof. destruct bs as [|b [|b' bs]]; done. Qed.
Lemma omap_bindings (b : list (Z * Z)) l : omap id ((Some <$> b) ++ l) = b ++ omap id l.
Proof. induction b as [|x b IH]; [done|]. cbn in IH |- *. by f_equal. Qed.
Lemma items_bindings bs : omap id (items bs) = concat bs.
Proof.
  induction bs as [|b [|b' bs] IH]; [done| |].
  - simpl. rewrite <-(app_nil_r (Some <$> b)), omap_bindings. done.
  - rewrite items_cons, omap_bindings by done. change (concat (b :: b' :: bs)) with (b ++ concat (b' :: bs)). by rewrite <-IH.
Qed.
Lemma bind_name_length id p bs : length (bind_name id p bs) = length bs.
Proof. by destruct bs. Qed.
Lemma bind_name_nil id p bs : bs ≠ [] → bind_name id p bs ≠ [].
Proof. by destruct bs. Qed.

Lemma push_binding_ok s a id p : rep s a →
  refines (Push false id p (bool_decide (p = 0)) s) (spec_bind id p a).
Proof.
  intros R. unfold spec_bind. rewrite (bind_Ret _ _ a a a) by done. pose proof (r_open _ _ R). rewrite <-(set_nesting_id s). apply push_ok; [done| |by apply bind_name_nil|].
  - by rewrite items_bind.
  - rewrite bind_name_length. apply (r_nesting _ _ R).
Qed.

Lemma OpenBlock_ok s a : rep s a → refines (OpenBlock s) (spec_open a).
Proof.
  intros R. unfold spec_open, OpenBlock. rewrite (bind_Ret _ _ a a a) by done. run (eq_refl (get s)). run (eq_refl (modify _ s)).
  apply push_ok; [done|by rewrite items_cons by apply (r_open _ _ R)|done|]. rewrite (r_nesting _ _ R). simpl. lia.
Qed.
End stacks.

(** ** The loops over the stack *)

Section loops.
Implicit Types (s : symtab) (a : scoping).

(** [LookUpHere] stops at the first marker. *)
Lemma here_bindings l b tl id s : item <$> l = shown <$> (Some <$> b) →
  here_loop (l ++ tl) id s = if declared b id =? 0 then here_loop tl id s else Ret (declared b id) s.
Proof using Type.
  revert b. induction l as [|e l IH]; intros [|[n p] b] H; try done.
  simpl in H. injection H as He H. unfold item in He. destruct (e_marker e) eqn:Em; [done|]. injection He as En Ep Ed.
  cbn [app here_loop]. rewrite Em, En, Ep, Ed. unfold declared. rewrite filter_cons. cbn [snd].
  destruct (decide (p = 0)) as [->|Hp].
  - rewrite bool_decide_true, andb_false_r by done. rewrite decide_False by (by intros []). by apply IH.
  - rewrite bool_decide_false, andb_true_r, decide_True by done. cbn [binding]. destruct (n =? id); [|by apply IH].
    cbn. by rewrite (proj2 (Z.eqb_neq p 0) Hp).
Qed.
Lemma LookUpHere_run s a id : rep s a → LookUpHere id s = lift (here a id) s.
Proof.
  intros R. unfold LookUpHere, here. run (eq_refl (get s)).
  destruct (downwards_live s a R) as (eb & -> & Em & Ep & En & Ed). pose proof (r_items _ _ R) as Hi. pose proof (r_open _ _ R) as Hne.
  destruct (blocks a) as [|b [|b' bs]] eqn:Eb; [done| |].
  - rewrite (here_bindings (live s) b) by exact Hi. destruct (declared b id =? 0); [|done].
    cbn [here_loop negb]. rewrite Em, Ep, En, Ed, andb_true_r, Z.eqb_sym. by destruct (id =? 0).
  - rewrite items_cons, fmap_app in Hi by done. apply fmap_app_inv in Hi as (l1 & l2 & H1 & H2 & ->).
    destruct l2 as [|em l2]; [done|]. simpl in H2. injection H2 as Hem _. rewrite <-app_assoc.
    rewrite (here_bindings l1 b) by done. destruct (Z.eqb_spec (declared b id) 0) as [E0|_]; [|done].
    cbn [app here_loop]. unfold item in Hem. destruct (e_marker em); [by rewrite E0|done].
Qed.

(** [CloseBlock] drops the innermost block. *)
Lemma marker_distance_app l b em tl : item <$> l = shown <$> (Some <$> b) → e_marker em = true →
  marker_distance (l ++ em :: tl) = Some (Z.of_nat (length l)).
Proof using Type.
  clear. intros Hl Hm. revert b Hl. induction l as [|e l IH]; intros [|[n p] b] H; try done; cbn [app marker_distance].
  - by rewrite Hm.
  - simpl in H. injection H as He H. unfold item in He. destruct (e_marker e); [done|]. rewrite (IH b H). cbn. f_equal. lia.
Qed.
Lemma live_drop s k : (k ≤ Z.to_nat (stack_top s))%nat → length (stack s) = Z.to_nat STACK_SIZE → 0 ≤ stack_top s < STACK_SIZE →
  live (set_stack_top (stack_top s - Z.of_nat k) s) = drop k (live s).
Proof using Type.
  clear. intros Hk Hl Ht. unfold live. cbn [stack stack_top set_stack_top].
  replace (Z.to_nat (stack_top s - Z.of_nat k)) with (Z.to_nat (stack_top s) - k)%nat by lia. set (n := Z.to_nat (stack_top s)) in *.
  assert (n ≤ length (drop 1 (stack s)))%nat as Hn by (rewrite length_drop; unfold STACK_SIZE, n in *; lia).
  set (l := drop 1 (stack s)) in *. rewrite <-(take_drop (n - k) (take n l)), reverse_app, take_take, Nat.min_l by lia.
  rewrite drop_app_length'; [done|]. rewrite length_reverse, length_drop, length_take. lia.
Qed.
Lemma CloseBlock_ok s a : rep s a → refines (CloseBlock s) (spec_close a).
Proof using Type.
  intros R. unfold spec_close. rewrite (bind_Ret _ _ a a a) by done. destruct (blocks a) as [|b [|b' bs]] eqn:Eb; [done..|].
  unfold CloseBlock. run (eq_refl (get s)). destruct (downwards_live s a R) as (eb & -> & _).
  destruct R as [[C HA] He Hc [Hl Ht] Hb Hi Hne Hn Hm]. rewrite Eb, items_cons, fmap_app in Hi by done.
  apply fmap_app_inv in Hi as (l1 & l2 & H1 & H2 & El). destruct l2 as [|em l2]; [done|]. simpl in H2. injection H2 as Hem H2.
  assert (e_marker em = true) as Em by (unfold item in Hem; by destruct (e_marker em)).
  assert (marker_distance (live s ++ [eb]) = Some (Z.of_nat (length l1))) as ->.
  { rewrite El, <-app_assoc. by eapply marker_distance_app. }
  run (eq_refl (lift (Some (Z.of_nat (length l1))) s)). run (eq_refl (modify _ s)).
  pose proof (live_length s Hl Ht) as Hll. rewrite El, length_app in Hll. simpl in Hll.
  assert (live (set_stack_top (stack_top s - Z.of_nat (S (length l1))) s) = l2) as Hlive.
  { rewrite live_drop by lia. rewrite El. replace (S (length l1)) with (length (l1 ++ [em])) by (rewrite length_app; simpl; lia).
    rewrite (app_assoc l1 [em] l2 : l1 ++ em :: l2 = _), drop_app_length. done. }
  eexists. split; [reflexivity|]. cbn [stack_top set_nesting].
  replace (stack_top s - Z.of_nat (length l1) - 1) with (stack_top s - Z.of_nat (S (length l1))) by lia.
  constructor; cbn; try done.
  - exists C. by destruct HA; constructor.
  - lia.
  - unfold live in Hlive |- *. cbn [stack stack_top set_stack_top set_nesting] in Hlive |- *. rewrite Hlive. by symmetry.
  - rewrite Hn, Eb. simpl. lia.
Qed.
End loops.

(** [LookUp] goes through all scopes; it only marks what it finds as used. *)
Definition mark_used (e : elem) : elem := mk_elem (e_marker e) (e_name e) (e_st_ptr e) (e_dummy e) true.
Lemma item_used e : item (mark_used e) = item e.
Proof. done. Qed.
Lemma rep_used s a i e : rep s a → stack s !! i = Some e →
  rep (mk_symtab (st s) (attrarray s) (<[i := mark_used e]> (stack s)) (stack_top s) (st_top s) (nesting s) (attr_top s) (messages s)) a.
Proof.
  intros [[C HA] He Hc [Hl Ht] (eb & E0 & Hb) Hi Hne Hn Hm] Hie. constructor; cbn; try done.
  - exists C. by destruct HA; constructor.
  - by rewrite length_insert.
  - destruct (decide (i = O)) as [->|Hi0].
    + exists (mark_used e). rewrite list_lookup_insert_eq by (by eapply lookup_lt_Some). rewrite E0 in Hie. by injection Hie as <-.
    + exists eb. by rewrite list_lookup_insert_ne.
  - rewrite <-Hi. unfold live. cbn [stack stack_top]. rewrite !fmap_reverse, !fmap_take, !fmap_drop, list_fmap_insert, item_used.
    by rewrite (list_insert_id (item <$> stack s)) by (by rewrite list_lookup_fmap, Hie).
Qed.

Lemma lookup_loop_ok s a id n : rep s a → (n ≤ Z.to_nat (stack_top s))%nat →
  ∃ s', lookup_loop n id s =
    Ret (binding (omap (λ it, (λ npd, npd.1) <$> it) (item <$> reverse (take n (drop 1 (stack s))))) id) s' ∧ rep s' a.
Proof.
  intros R. pose proof (r_stack _ _ R) as [Hl Ht]. induction n as [|n IH]; intros Hn; [by exists s|].
  cbn [lookup_loop]. destruct (lookup_lt_is_Some_2 (stack s) (S n)) as [e Ee]; [unfold STACK_SIZE in *; lia|].
  assert (aget (stack s) (Z.of_nat (S n)) = Some e) as Eg by (apply aget_Some; split; [lia|by rewrite Nat2Z.id]).
  run (reads_Some (λ s, aget (stack s) (Z.of_nat (S n))) _ s Eg).
  assert (drop 1 (stack s) !! n = Some e) as Ed by (by rewrite lookup_drop).
  rewrite (take_S_r _ n e Ed), reverse_snoc. cbn [fmap list_fmap omap list_omap]. unfold item at 1.
  destruct (e_marker e) eqn:Em; cbn [negb andb].
  - apply IH. lia.
  - cbn [binding fmap option_fmap option_map fst]. destruct (Z.eqb_spec (e_name e) id) as [En|En]; [|apply IH; lia].
    eexists. split; [|by apply (rep_used s a (S n) e)].
    assert (aset (stack s) (Z.of_nat (S n)) (mk_elem false (e_name e) (e_st_ptr e) (e_dummy e) true) = Some (<[S n := mark_used e]> (stack s))) as Es.
    { rewrite aset_ok by (apply aget_bounds in Eg; lia). unfold mark_used. by rewrite Nat2Z.id, Em. }
    erewrite bind_Ret; [reflexivity|]. apply updates_Some. unfold set_stack. rewrite Es. reflexivity.
Qed.
Lemma shown_bindings bs : omap (λ it, (λ npd, npd.1) <$> it) (shown <$> items bs) = concat bs.
Proof.
  rewrite <-items_bindings. induction (items bs) as [|[[n p]|] l IH]; [done|..]; cbn in IH |- *; [by f_equal|done].
Qed.
Lemma LookUp_ok s a id : rep s a → refines (LookUp id s) (spec_lookup id a).
Proof.
  intros R. unfold spec_lookup, LookUp. rewrite (bind_Ret _ _ a a a) by done. run (eq_refl (get s)).
  destruct (lookup_loop_ok s a id (Z.to_nat (stack_top s)) R (Nat.le_refl _)) as (s1 & E & R1). run E.
  fold (live s). rewrite (r_items _ _ R), shown_bindings. destruct (binding (concat (blocks a)) id) as [p|]; [by exists s1|].
  run (eq_refl (error_msg UNDECLARATION CONTINUE id s1)). rewrite (bind_Ret _ _ a tt (report (UNDECLARATION, id) a)) by done.
  eapply refines_bind; [|intros [] s2 a2 R2; by exists s2].
  apply (push_binding_ok _ (report (UNDECLARATION, id) a) id 0).
  destruct R1 as [[C HA] ? ? ? ? ? ? ? Hm]. constructor; try done; [exists C; by destruct HA; constructor|cbn; by rewrite Hm].
Qed.

(** ** Every operation *)

Lemma GetAttr_refines s a p num : rep s a → refines (GetAttr p num s) (spec_get p num a).
Proof.
  intros R. unfold spec_get. rewrite (bind_Ret _ _ a a a) by done. destruct (r_attrs _ _ R) as [C HA].
  destruct ((0 <=? p) && (p <? ST_SIZE)) eqn:Hp; [|done]. apply andb_true_iff in Hp as [Hp1%Z.leb_le Hp2%Z.ltb_lt].
  exists s. split; [|done]. by apply (GetAttr_ok s _ C HA).
Qed.
Lemma SetAttr_refines s a p num val : rep s a → refines (SetAttr p num val s) (spec_set p num val a).
Proof.
  intros R. unfold spec_set. rewrite (bind_Ret _ _ a a a) by done. pose proof (r_attrs _ _ R) as [C HA].
  destruct (_ && _) eqn:Hp; [|done]. rewrite !andb_true_iff, !Z.leb_le, Z.ltb_lt in Hp. destruct Hp as [[[Hp1 Hp2] Hn1] Hn2].
  rewrite <-(r_entries _ _ R) in Hp2. pose proof (ao_top _ _ _ HA) as Htop. assert (st_range p) as Hp by (unfold st_range; lia).
  assert (∀ s' m' C' n, attrs_ok s' m' C' → same_rest s s' → attr_top s' = n →
    rep s' (mk_scoping (blocks a) m' (entries a) n (reports a))) as Hrep.
  { intros s' m' C' n HA' (R1 & R2 & R3 & R4 & R5) Hn. destruct R as [_ He Hc Hst Hb Hi Hne Hnest Hm].
    constructor; cbn; unfold live; rewrite ?R1, ?R2, ?R3, ?R4, ?R5; try done. by exists C'. }
  rewrite (ao_map _ _ _ HA p num Hp). destruct (find_cell (C p) num) as [[k v]|] eqn:E; simpl.
  - destruct (SetAttr_update s _ C HA p num val k v Hp E) as (s' & C' & Erun & HA' & Hr & Ht). exists s'. split; [done|].
    eapply Hrep; [exact HA'|done|]. by rewrite Ht, (r_count _ _ R).
  - rewrite <-(r_count _ _ R), Z.geb_leb. destruct (Z.leb_spec (ATTR_SIZE - 1) (attr_top s)) as [Hfull|Hroom].
    + destruct (ao_seg _ _ _ HA p Hp) as (i & Ei & Hseg).
      destruct (find_place_ok s attr_fuel num (AtSymbol p) i (C p) Hseg (chain_short s _ C HA p Hp) E (ao_sorted _ _ _ HA p Hp)) as (cs1 & cs2 & _ & _ & _ & Epl).
      exists (add_message (ATTR_OVERFLOW, 0) s). split; [|cbn; by rewrite (r_messages _ _ R)]. unfold SetAttr.
      run (IsAttr_ok s _ C HA p num Hp). rewrite E. simpl. run (reads_Some (λ s, aget (st s) p) _ s Ei). run Epl.
      run (eq_refl (get s)). rewrite Z.geb_leb, (proj2 (Z.leb_le _ _)) by lia. done.
    + destruct (SetAttr_new s _ C HA p num val) as (s' & C' & Erun & HA' & Hr & Ht); [lia|lia|done|done|]. exists s'. split; [done|].
      eapply Hrep; [exact HA'|done|lia].
Qed.

(** A new symbol without attributes. *)
Lemma rep_new_entry s a : rep s a → st_top s < ST_SIZE - 1 →
  let p := st_top s + 1 in
  ∃ s', set_st (λ l, aset l p 0) (set_st_top p s) = Some s' ∧ nesting s' = nesting s ∧
    rep s' (mk_scoping (blocks a) (attrs a) p (attr_count a) (reports a)).
Proof.
  intros [[C HA] He Hc Hst Hb Hi Hne Hn Hm] Hroom p. destruct HA as [[L1 L2] Ht Hseg Hsort Hnd Hdom Hdisj Hmap Hfresh].
  assert (aset (st s) p 0 = Some (<[Z.to_nat p := 0]> (st s))) as E by (apply aset_ok; unfold p, ST_SIZE in *; lia).
  eexists. split; [unfold set_st; cbn; rewrite E; reflexivity|]. split; [done|]. constructor; try done. exists C.
  constructor; cbn; try done.
  - by rewrite length_insert.
  - unfold p. lia.
  - intros q Hq. destruct (decide (q = p)) as [->|Hne'].
    + exists 0. split; [by apply (aget_aset_eq _ _ _ _ E)|]. rewrite Hfresh by (unfold p, st_range in *; lia). done.
    + rewrite (aget_aset_ne _ _ _ _ _ E) by done. by apply Hseg.
  - intros q Hq. apply Hfresh. unfold p in Hq. lia.
Qed.

Section operations.

Lemma LookUpHere_refines s a id : rep s a → refines (LookUpHere id s) (spec_here id a).
Proof.
  intros R. rewrite (LookUpHere_run s a id R). unfold spec_here. rewrite (bind_Ret _ _ a a a) by done.
  destruct (here a id); [by exists s|done].
Qed.
Lemma InsertEntry_refines s a id : rep s a → refines (InsertEntry id s) (spec_insert id a).
Proof.
  intros R. unfold InsertEntry, spec_insert. eapply refines_bind; [by apply LookUpHere_refines|]. clear s a R. intros h s a R. destruct (negb (h =? 0)).
  { run (eq_refl (error_msg REDECLARATION CONTINUE id s)). eexists. split; [reflexivity|].
    destruct R as [[C HA] ? ? ? ? ? ? ? Hm]. constructor; try done; [exists C; by destruct HA; constructor|cbn; by rewrite Hm]. }
  run (eq_refl (get s)). rewrite (bind_Ret _ _ a a a) by done. rewrite <-(r_entries _ _ R), Z.geb_leb.
  destruct (Z.leb_spec (ST_SIZE - 1) (st_top s)) as [Hfull|Hroom].
  { eexists. split; [reflexivity|]. cbn. by rewrite (r_messages _ _ R). }
  erewrite bind_Ret by reflexivity. run (eq_refl (modify (set_st_top (st_top s + 1)) s)).
  destruct (rep_new_entry s a R Hroom) as (s2 & E2 & _ & R2). erewrite bind_Ret; [|by apply updates_Some].
  rewrite (bind_Ret (modify _) _ a tt (mk_scoping (blocks a) (attrs a) (st_top s + 1) (attr_count a) (reports a))) by done.
  rewrite <-(r_nesting _ _ R). pose proof (r_attrs _ _ R) as [C HA]. pose proof (ao_top _ _ _ HA) as Htop.
  eapply refines_bind; [by apply SetAttr_refines|intros [] s3 a3 R3].
  eapply refines_bind; [by apply SetAttr_refines|intros [] s4 a4 R4].
  eapply refines_bind; [|intros [] s5 a5 R5; by exists s5].
  pose proof (push_binding_ok s4 a4 id (st_top s + 1) R4) as Hp. by rewrite bool_decide_false in Hp by lia.
Qed.

Lemma unit_op_refines (m : prog symtab unit) (m' : prog scoping unit) s a : refines (m s) (m' a) → refines (unit_op m s) (unit_op m' a).
Proof using Type. clear. intros H. eapply refines_bind; [exact H|]. intros r s1 a1 R. by exists s1. Qed.

Lemma do_op_refines s a o : rep s a → refines (do_op o s) (spec_op o a).
Proof.
  intros R. destruct o; cbn [do_op spec_op].
  - by apply InsertEntry_refines.
  - by apply LookUp_ok.
  - by apply LookUpHere_refines.
  - by apply unit_op_refines, OpenBlock_ok.
  - by eapply unit_op_refines, CloseBlock_ok.
  - by apply GetAttr_refines.
  - by apply unit_op_refines, SetAttr_refines.
Qed.
Lemma run_ops_refines s a ops : rep s a → refines (run_ops do_op ops s) (run_ops spec_op ops a).
Proof.
  revert s a. induction ops as [|o ops IH]; intros s a R; [by exists s|]. cbn [run_ops].
  eapply refines_bind; [by apply do_op_refines|]. intros r s1 a1 R1.
  eapply refines_bind; [by apply IH|]. intros rs s2 a2 R2. by exists s2.
Qed.
End operations.

Lemma new_rep : rep new_symtab new_scoping.
Proof.
  constructor; try done.
  - exists (λ _, []). constructor; try done.
    + intros p Hp. exists 0. split; [|done]. apply aget_Some. split; [unfold st_range in Hp; lia|].
      apply lookup_replicate_2. unfold st_range in Hp. lia.
    + intros p _. apply NoDup_nil_2.
    + by intros p k _ ?%not_elem_of_nil.
    + by intros p q k _ _ ?%not_elem_of_nil.
  - exists no_elem. done.
Qed.

(** ** The properties *)

(** C18: The symbol table behaves like the list of scopes and the map from symbols
    and attributes to values, whatever the rest of the compiler calls for as long
    as the abstract table is defined: names are declared, and looked up with
    [LookUpHere], inside of a block, blocks that are closed were opened, and
    attributes are set on existing symbols.  The results, the reported errors and
    the three overflows that end the program are those of the abstract table, and
    nothing is undefined. *)
Theorem symtab_refines ops :
  match run_ops spec_op ops new_scoping with
  | Ret rs a => ∃ s, run_ops do_op ops new_symtab = Ret rs s ∧ rep s a
  | Exited code a => ∃ s, run_ops do_op ops new_symtab = Exited code s ∧ messages s = reports a
  | Undef => True
  | Fuel => False
  end.
Proof. exact (run_ops_refines new_symtab new_scoping ops new_rep). Qed.

(** The attributes of every symbol stay in a list that is sorted by number,
    without repetition, ends within [attrarray] and shares no element with the
    list of another symbol. *)
Theorem attribute_lists_sorted ops rs a : run_ops spec_op ops new_scoping = Ret rs a →
  ∃ s C, run_ops do_op ops new_symtab = Ret rs s ∧ attr_top s < ATTR_SIZE ∧
    (∀ p, st_range p → ∃ i, aget (st s) p = Some i ∧ lseg (attrarray s) i (C p) ∧ sorted (C p) ∧ NoDup (idx (C p))) ∧
    (∀ p q k, st_range p → st_range q → k ∈ idx (C p) → k ∈ idx (C q) → p = q).
Proof.
  intros E. pose proof (run_ops_refines new_symtab new_scoping ops new_rep) as H. rewrite E in H.
  destruct H as (s & Hr & R). destruct (r_attrs _ _ R) as [C HA]. exists s, C. split; [done|].
  destruct HA as [_ [Ht _] Hseg Hsort Hnd Hdom Hdisj _ _]. split; [lia|]. split; [|done].
  intros p Hp. destruct (Hseg p Hp) as (i & Ei & Hs). exists i. split_and!; [done|done|by apply Hsort|by apply Hnd].
Qed.

(** C32: A symbol declared outside of all blocks, the predefined ones and every
    class, makes [LookUpHere] go on below the stack: unless the name is known
    there already, or is the first of the string table, [LookUpHere] and
    [InsertEntry] are undefined, in every state that calls lead to. *)
Theorem outer_declaration_undefined ops rs a s b id : run_ops spec_op ops new_scoping = Ret rs a → run_ops do_op ops new_symtab = Ret rs s →
  blocks a = [b] → declared b id = 0 → id ≠ 0 → LookUpHere id s = Undef ∧ InsertEntry id s = Undef.
Proof.
  intros E Es Eb Hd Hid. pose proof (run_ops_refines new_symtab new_scoping ops new_rep) as H. rewrite E in H.
  destruct H as (s' & Hr & R). rewrite Es in Hr. injection Hr as <-.
  assert (here a id = None) as Hn by (unfold here; rewrite Eb, Hd; cbn; by rewrite (proj2 (Z.eqb_neq _ _))).
  pose proof (LookUpHere_run s a id R) as HL. rewrite Hn in HL. split; [exact HL|]. unfold InsertEntry, mbind, prog_bind. by rewrite HL.
Qed.

(** ** Witnesses *)

Definition nested_ops : list op := [OOpen; OInsert 7; OOpen; OInsert 9; OInsert 9; OLookUp 7; OLookUp 8; OSet 2 KIND_ATTR VAR; OGet 2 KIND_ATTR; OClose; OLookUp 9].
Definition nested_scoping : scoping :=
  mk_scoping [[(9, 0); (7, 1)]; []] (<[(2, KIND_ATTR) := VAR]> (<[(2, NEST_ATTR) := 2]> (<[(2, NAME_ATTR) := 9]>
    (<[(1, NEST_ATTR) := 1]> (<[(1, NAME_ATTR) := 7]> ∅))))) 2 5 [(REDECLARATION, 9); (UNDECLARATION, 8); (UNDECLARATION, 9)].
Lemma nested_run : run_ops spec_op nested_ops new_scoping = Ret [0; 1; 0; 2; 0; 1; 0; 0; VAR; 0; 0] nested_scoping.
Proof. vm_compute. reflexivity. Qed.
Example nested_symtab : ∃ s, run_ops do_op nested_ops new_symtab = Ret [0; 1; 0; 2; 0; 1; 0; 0; VAR; 0; 0] s.
Proof.
  pose proof (run_ops_refines new_symtab new_scoping nested_ops new_rep) as H. rewrite nested_run in H.
  destruct H as (s & E & _). by exists s.
Qed.
Lemma attribute_lists_sorted_witness : ∃ rs a s C,
  run_ops spec_op nested_ops new_scoping = Ret rs a ∧
  (∀ p, st_range p → ∃ i, aget (st s) p = Some i ∧ lseg (attrarray s) i (C p) ∧ sorted (C p) ∧ NoDup (idx (C p))).
Proof.
  destruct (attribute_lists_sorted nested_ops _ _ nested_run) as (s & C & _ & _ & H & _).
  eexists _, _, s, C. split; [exact nested_run|exact H].
Defined.
Lemma outer_declaration_undefined_witness : InsertEntry 7 new_symtab = Undef.
Proof. apply (outer_declaration_undefined [] [] new_scoping new_symtab [] 7); done. Defined.
