(* ===== verification/Tree.v ===== *)
(** * The syntax tree of the compiler

    CS2210/proj2.c and proj2.h: nodes with an operation and two children, leaves
    with a number, and one dummy node that stands for every missing tree.  A
    node is at an address; the fields that [MakeLeaf] and [MakeTree] do not set
    are indeterminate, [None].  Memory for a node is assumed to be there. *)
From S2P Require Import Prelude.
Open Scope Z_scope.

(** ** Kinds of nodes and operations *)

Definition BodyOp : Z := 101.
Definition DeclOp : Z := 102.
Definition CommaOp : Z := 103.
Definition ArrayTypeOp : Z := 104.
Definition TypeIdOp : Z := 105.
Definition BoundOp : Z := 106.
Definition HeadOp : Z := 113.
Definition RArgTypeOp : Z := 114.
Definition VArgTypeOp : Z := 115.
Definition StmtOp : Z := 116.
Definition IfElseOp : Z := 117.
Definition LoopOp : Z := 118.
Definition SpecOp : Z := 119.
Definition RoutineCallOp : Z := 120.
Definition AssignOp : Z := 121.
Definition ReturnOp : Z := 122.
Definition AddOp : Z := 123.
Definition SubOp : Z := 124.
Definition MultOp : Z := 125.
Definition DivOp : Z := 126.
Definition LTOp : Z := 127.
Definition GTOp : Z := 128.
Definition EQOp : Z := 129.
Definition NEOp : Z := 130.
Definition LEOp : Z := 131.
Definition GEOp : Z := 132.
Definition AndOp : Z := 133.
Definition OrOp : Z := 134.
Definition UnaryNegOp : Z := 135.
Definition NotOp : Z := 136.
Definition VarOp : Z := 137.
Definition SelectOp : Z := 138.
Definition IndexOp : Z := 139.
Definition FieldOp : Z := 140.
Definition ClassOp : Z := 143.
Definition MethodOp : Z := 144.
Definition ClassDefOp : Z := 145.

Definition IDNode : Z := 200.
Definition NUMNode : Z := 201.
Definition STRINGNode : Z := 203.
Definition DUMMYNode : Z := 204.
Definition EXPRNode : Z := 205.
Definition INTEGERTNode : Z := 206.
Definition STNode : Z := 209.

(** ** Data *)

Record treenode := mk_treenode {
  n_kind : Z;
  n_optype : option Z;
  n_intval : option Z;
  n_left : option Z;
  n_right : option Z
}.
(** The nodes by address; from [fresh] on addresses are unused. *)
Record forest := mk_forest { nodes : gmap Z treenode; fresh : Z }.
Notation tprog := (prog forest).

(** [dummy]: no other node is at its address. *)
Definition NullExp : Z := 1.
Definition dummy : treenode := mk_treenode DUMMYNode (Some 0) (Some 0) (Some 0) (Some 0).
Definition new_forest : forest := mk_forest {[ NullExp := dummy ]} 2.

Definition node_at (p : Z) : tprog treenode := reads (λ h, nodes h !! p).
Definition set_node (p : Z) (f : treenode → treenode) : tprog unit :=
  updates (λ h, n ← nodes h !! p; Some (mk_forest (<[p := f n]> (nodes h)) (fresh h))).
Definition malloc_node (n : treenode) : tprog Z := λ h,
  Ret (fresh h) (mk_forest (<[fresh h := n]> (nodes h)) (fresh h + 1)).
(** The dummy node is a static object. *)
Definition free_node (p : Z) : tprog unit :=
  updates (λ h, if p =? NullExp then None else _ ← nodes h !! p; Some (mk_forest (delete p (nodes h)) (fresh h))).

Definition with_op (o : Z) (n : treenode) : treenode := mk_treenode (n_kind n) (Some o) (n_intval n) (n_left n) (n_right n).
Definition with_left (p : Z) (n : treenode) : treenode := mk_treenode (n_kind n) (n_optype n) (n_intval n) (Some p) (n_right n).
Definition with_right (p : Z) (n : treenode) : treenode := mk_treenode (n_kind n) (n_optype n) (n_intval n) (n_left n) (Some p).

(** ** proj2.c *)

Definition MakeLeaf (Kind N : Z) : tprog Z := malloc_node (mk_treenode Kind None (Some N) None None).
Definition MakeTree (NodeOp Left Right : Z) : tprog Z :=
  malloc_node (mk_treenode EXPRNode (Some NodeOp) None (Some Left) (Some Right)).

Definition NodeKind (T : Z) : tprog Z := n ← node_at T; mret (n_kind n).
Definition IsNull (T : Z) : tprog bool := k ← NodeKind T; mret (k =? DUMMYNode).
Definition NodeOp (T : Z) : tprog Z :=
  n ← node_at T; if negb (n_kind n =? EXPRNode) then mret 0 else lift (n_optype n).
Definition IntVal (T : Z) : tprog Z :=
  n ← node_at T; if n_kind n =? EXPRNode then mret (-1) else lift (n_intval n).
Definition LeftChild (T : Z) : tprog Z :=
  n ← node_at T; if negb (n_kind n =? EXPRNode) then mret NullExp else lift (n_left n).
Definition RightChild (T : Z) : tprog Z :=
  n ← node_at T; if negb (n_kind n =? EXPRNode) then mret NullExp else lift (n_right n).

(** The loops of [MkLeftC] and [MkRightC] go down to the last node. *)
Fixpoint last_child (child : Z → tprog Z) (fuel : nat) (p : Z) : tprog Z :=
  match fuel with
  | O => λ _, Fuel
  | S fuel' => q ← child p; b ← IsNull q; if b : bool then mret p else last_child child fuel' q
  end.
Definition MkLeftC (fuel : nat) (T1 T2 : Z) : tprog Z :=
  b ← IsNull T2;
  if b : bool then mret T1 else p ← last_child LeftChild fuel T2; set_node p (with_left T1);; mret T2.
Definition MkRightC (fuel : nat) (T1 T2 : Z) : tprog Z :=
  b ← IsNull T2;
  if b : bool then mret T1 else p ← last_child RightChild fuel T2; set_node p (with_right T1);; mret T2.

Definition SetNode (Target Source : Z) : tprog unit :=
  s ← node_at Source;
  set_node Target (λ t, mk_treenode (n_kind s) (n_optype t) (n_intval t) (n_left t) (n_right t));;
  if negb (n_kind s =? EXPRNode)
  then set_node Target (λ t, mk_treenode (n_kind t) (n_optype t) (n_intval s) (Some NullExp) (Some NullExp))
  else set_node Target (λ t, mk_treenode (n_kind t) (n_optype s) (n_intval t) (n_left s) (n_right s)).
Definition SetNodeOp (T Op : Z) : tprog unit :=
  k ← NodeKind T; if negb (k =? EXPRNode) then mret tt else set_node T (with_op Op).
Fixpoint SetTreeOp (child : Z → tprog Z) (fuel : nat) (T Op : Z) : tprog unit :=
  match fuel with
  | O => λ _, Fuel
  | S fuel' =>
      SetNodeOp T Op;;
      p ← child T; b ← IsNull p;
      if b : bool then mret tt else SetTreeOp child fuel' p Op
  end.
Definition SetLeftTreeOp (fuel : nat) (T Op : Z) : tprog unit := SetTreeOp LeftChild fuel T Op.
Definition SetRightTreeOp (fuel : nat) (T Op : Z) : tprog unit := SetTreeOp RightChild fuel T Op.
Definition SetLeftChild (T NewC : Z) : tprog unit :=
  k ← NodeKind T; if negb (k =? EXPRNode) then mret tt else set_node T (with_left NewC).
Definition SetRightChild (T NewC : Z) : tprog unit :=
  k ← NodeKind T; if negb (k =? EXPRNode) then mret tt else set_node T (with_right NewC).

(** ** Trees as values *)

Inductive ast := TNull | TLeaf (kind val : Z) | TExpr (op : Z) (l r : ast).

(** The tree at an address; the addresses of its nodes, the dummy left out. *)
Fixpoint tree_at (h : forest) (p : Z) (t : ast) : Prop :=
  match t with
  | TNull => p = NullExp
  | TLeaf kind val => p ≠ NullExp ∧ kind ≠ EXPRNode ∧ kind ≠ DUMMYNode ∧
      ∃ n, nodes h !! p = Some n ∧ n_kind n = kind ∧ n_intval n = Some val
  | TExpr op l r => p ≠ NullExp ∧ ∃ n pl pr, nodes h !! p = Some n ∧ n_kind n = EXPRNode ∧ n_optype n = Some op ∧
      n_left n = Some pl ∧ n_right n = Some pr ∧ tree_at h pl l ∧ tree_at h pr r
  end.
Fixpoint owned (h : forest) (p : Z) (t : ast) (F : gset Z) : Prop :=
  match t with
  | TNull => p = NullExp ∧ F = ∅
  | TLeaf _ _ => tree_at h p t ∧ F = {[ p ]}
  | TExpr op l r => p ≠ NullExp ∧ ∃ n pl pr Fl Fr, nodes h !! p = Some n ∧ n_kind n = EXPRNode ∧ n_optype n = Some op ∧
      n_left n = Some pl ∧ n_right n = Some pr ∧ owned h pl l Fl ∧ owned h pr r Fr ∧
      p ∉ Fl ∧ p ∉ Fr ∧ Fl ## Fr ∧ F = {[ p ]} ∪ Fl ∪ Fr
  end.
Definition forest_ok (h : forest) : Prop :=
  nodes h !! NullExp = Some dummy ∧ NullExp < fresh h ∧ ∀ p n, nodes h !! p = Some n → p < fresh h.

Definition lchild (t : ast) : ast := match t with TExpr _ l _ => l | _ => TNull end.
Definition rchild (t : ast) : ast := match t with TExpr _ _ r => r | _ => TNull end.
Definition opof (t : ast) : Z := match t with TExpr op _ _ => op | _ => 0 end.
Definition kindof (t : ast) : Z := match t with TNull => DUMMYNode | TLeaf k _ => k | TExpr _ _ _ => EXPRNode end.
Definition valof (t : ast) : Z := match t with TNull => 0 | TLeaf _ v => v | TExpr _ _ _ => -1 end.
Fixpoint height (t : ast) : nat := match t with TExpr _ l r => S (Nat.max (height l) (height r)) | _ => 1%nat end.

(** What [MkLeftC] and [MkRightC] promise: the tree goes where the first dummy
    is on the way down, and below a leaf it is lost. *)
Fixpoint attach (left : bool) (t1 t2 : ast) : ast :=
  match t2 with
  | TNull => t1
  | TLeaf k v => TLeaf k v
  | TExpr op l r => if left then TExpr op (attach left t1 l) r else TExpr op l (attach left t1 r)
  end.
Definition attach_left : ast → ast → ast := attach true.
Definition attach_right : ast → ast → ast := attach false.

(** ** Reading a tree *)

Section reading.
Context (h : forest) (Hok : forest_ok h).

Lemma tree_node p t : tree_at h p t → ∃ n, nodes h !! p = Some n ∧ n_kind n = kindof t ∧
  (t = TNull → n = dummy) ∧ (∀ k v, t = TLeaf k v → n_intval n = Some v).
Proof using Hok.
  destruct t as [|k v|op l r]; simpl.
  - intros ->. exists dummy. by destruct Hok as [? _].
  - intros (_ & _ & _ & n & Hn & Hk & Hv). exists n. by split_and!; [..|intros ? ? [= <- <-]].
  - intros (_ & n & pl & pr & Hn & Hk & _). by exists n.
Qed.
Lemma kindof_not_expr t : (∀ op l r, t ≠ TExpr op l r) → ∀ p, tree_at h p t → kindof t ≠ EXPRNode.
Proof using Type. clear. destruct t as [|k v|op l r]; simpl; intros Ht p Hp; [done|by destruct Hp as (_ & ? & _)|by destruct (Ht op l r)]. Qed.

Lemma NodeKind_ok p t : tree_at h p t → NodeKind p h = Ret (kindof t) h.
Proof using Hok. intros (n & Hn & <- & _)%tree_node. unfold NodeKind, node_at. by run (reads_Some (λ h, nodes h !! p) _ h Hn). Qed.
Definition isnull (t : ast) : bool := match t with TNull => true | _ => false end.
Lemma IsNull_ok p t : tree_at h p t → IsNull p h = Ret (isnull t) h.
Proof using Hok.
  intros Ht. unfold IsNull. run (NodeKind_ok p t Ht). destruct t as [|k v|op l r]; [done| |done].
  destruct Ht as (_ & _ & Hd & _). simpl. by rewrite (proj2 (Z.eqb_neq k DUMMYNode)).
Qed.
Lemma NodeOp_ok p t : tree_at h p t → NodeOp p h = Ret (opof t) h.
Proof using Hok.
  intros Ht. destruct (tree_node p t Ht) as (n & Hn & Hk & _). unfold NodeOp, node_at. run (reads_Some (λ h, nodes h !! p) _ h Hn). rewrite Hk.
  destruct t as [|k v|op l r]; [done|by rewrite (proj2 (Z.eqb_neq _ _)) by (by apply (kindof_not_expr (TLeaf k v)) with p)|].
  destruct Ht as (_ & n' & pl & pr & Hn' & _ & Ho & _). assert (n' = n) as -> by congruence. simpl. by rewrite Ho.
Qed.
Lemma IntVal_ok p t : tree_at h p t → IntVal p h = Ret (valof t) h.
Proof using Hok.
  intros Ht. destruct (tree_node p t Ht) as (n & Hn & Hk & Hd & Hv). unfold IntVal, node_at. run (reads_Some (λ h, nodes h !! p) _ h Hn). rewrite Hk.
  destruct t as [|k v|op l r]; [by rewrite Hd|rewrite (proj2 (Z.eqb_neq _ _)) by (by apply (kindof_not_expr (TLeaf k v)) with p)|done].
  by rewrite (Hv k v).
Qed.
Lemma LeftChild_ok p t : tree_at h p t → ∃ q, LeftChild p h = Ret q h ∧ tree_at h q (lchild t).
Proof using Hok.
  intros Ht. destruct (tree_node p t Ht) as (n & Hn & Hk & _). unfold LeftChild, node_at. 
  destruct t as [|k v|op l r].
  - exists NullExp. run (reads_Some (λ h, nodes h !! p) _ h Hn). by rewrite Hk.
  - exists NullExp. run (reads_Some (λ h, nodes h !! p) _ h Hn). rewrite Hk. by rewrite (proj2 (Z.eqb_neq _ _)) by (by apply (kindof_not_expr (TLeaf k v)) with p).
  - destruct Ht as (_ & n' & pl & pr & Hn' & _ & _ & Hl & _ & Htl & _). assert (n' = n) as -> by congruence. exists pl.
    run (reads_Some (λ h, nodes h !! p) _ h Hn). rewrite Hk. simpl. by rewrite Hl.
Qed.
Lemma RightChild_ok p t : tree_at h p t → ∃ q, RightChild p h = Ret q h ∧ tree_at h q (rchild t).
Proof using Hok.
  intros Ht. destruct (tree_node p t Ht) as (n & Hn & Hk & _). unfold RightChild, node_at. 
  destruct t as [|k v|op l r].
  - exists NullExp. run (reads_Some (λ h, nodes h !! p) _ h Hn). by rewrite Hk.
  - exists NullExp. run (reads_Some (λ h, nodes h !! p) _ h Hn). rewrite Hk. by rewrite (proj2 (Z.eqb_neq _ _)) by (by apply (kindof_not_expr (TLeaf k v)) with p).
  - destruct Ht as (_ & n' & pl & pr & Hn' & _ & _ & _ & Hr & _ & Htr). assert (n' = n) as -> by congruence. exists pr.
    run (reads_Some (λ h, nodes h !! p) _ h Hn). rewrite Hk. simpl. by rewrite Hr.
Qed.
End reading.

(** ** Ownership *)

Lemma owned_tree h p t F : owned h p t F → tree_at h p t.
Proof.
  revert p F. induction t as [|k v|op l IHl r IHr]; intros p F; simpl; [by intros [-> _]|by intros [? _]|].
  intros (Hp & n & pl & pr & Fl & Fr & ? & ? & ? & ? & ? & Hl & Hr & _). split; [done|]. exists n, pl, pr. split_and!; eauto.
Qed.
Lemma owned_frame h h' p t F : owned h p t F → (∀ q, q ∈ F → nodes h' !! q = nodes h !! q) → owned h' p t F.
Proof.
  revert p F. induction t as [|k v|op l IHl r IHr]; intros p F; [done|..].
  - intros [(Hp & Hk & Hd & n & Hn & Hv) ->] Hf. split; [|done]. split_and!; [done..|]. exists n. rewrite Hf by set_solver. done.
  - intros (Hp & n & pl & pr & Fl & Fr & Hn & Hk & Ho & Hl & Hr & Ol & Or & Hnl & Hnr & Hd & ->) Hf.
    split; [done|]. exists n, pl, pr, Fl, Fr. rewrite Hf by set_solver. split_and!; try done.
    + apply IHl; [done|]. intros q Hq. apply Hf. set_solver.
    + apply IHr; [done|]. intros q Hq. apply Hf. set_solver.
Qed.
Lemma owned_root h p t F : owned h p t F → t ≠ TNull → p ∈ F ∧ p ≠ NullExp.
Proof.
  destruct t as [|k v|op l r]; simpl; [done|intros [(Hp & _) ->] _; set_solver|].
  intros (Hp & n & pl & pr & Fl & Fr & _ & _ & _ & _ & _ & _ & _ & _ & _ & _ & ->) _. set_solver.
Qed.
Lemma owned_not_null h p t F : owned h p t F → NullExp ∉ F.
Proof.
  revert p F. induction t as [|k v|op l IHl r IHr]; intros p F; simpl; [intros [_ ->]; set_solver|intros [(Hp & _) ->]; set_solver|].
  intros (Hp & n & pl & pr & Fl & Fr & _ & _ & _ & _ & _ & Ol & Or & _ & _ & _ & ->).
  specialize (IHl _ _ Ol). specialize (IHr _ _ Or). set_solver.
Qed.

(** ** Attaching a tree *)

Definition child_of (left : bool) : Z → tprog Z := if left then LeftChild else RightChild.
Definition with_child (left : bool) (p : Z) : treenode → treenode := if left then with_left p else with_right p.
Definition side (left : bool) (t : ast) : ast := if left then lchild t else rchild t.
Lemma child_of_ok (left : bool) h p t : forest_ok h → tree_at h p t → ∃ q, child_of left p h = Ret q h ∧ tree_at h q (side left t).
Proof. destruct left; intros Hok Ht; [by apply LeftChild_ok|by apply RightChild_ok]. Qed.
Lemma owned_child (left : bool) h p op l r F : owned h p (TExpr op l r) F → forest_ok h →
  ∃ n q q' Fq Fq', nodes h !! p = Some n ∧ n_kind n = EXPRNode ∧ n_optype n = Some op ∧ p ≠ NullExp ∧
    child_of left p h = Ret q h ∧ owned h q (side left (TExpr op l r)) Fq ∧ owned h q' (side (negb left) (TExpr op l r)) Fq' ∧
    p ∉ Fq ∧ p ∉ Fq' ∧ Fq ## Fq' ∧ F = {[ p ]} ∪ Fq ∪ Fq' ∧
    n_left n = Some (if left then q else q') ∧ n_right n = Some (if left then q' else q).
Proof.
  intros (Hp & n & pl & pr & Fl & Fr & Hn & Hk & Ho & Hl & Hr & Ol & Or & Hnl & Hnr & Hd & ->) _.
  destruct left; [exists n, pl, pr, Fl, Fr|exists n, pr, pl, Fr, Fl]; (split_and!; try done); try set_solver;
    unfold child_of, LeftChild, RightChild, node_at; run (reads_Some (λ h, nodes h !! p) _ h Hn); rewrite Hk; simpl; by rewrite ?Hl, ?Hr.
Qed.
(** The other way round: a node with its two subtrees. *)
Lemma owned_node (left : bool) h p op (t t' : ast) n q q' Fq Fq' : nodes h !! p = Some n → n_kind n = EXPRNode → n_optype n = Some op →
  p ≠ NullExp → n_left n = Some (if left then q else q') → n_right n = Some (if left then q' else q) →
  owned h q t Fq → owned h q' t' Fq' → p ∉ Fq → p ∉ Fq' → Fq ## Fq' →
  owned h p (if left then TExpr op t t' else TExpr op t' t) ({[ p ]} ∪ Fq ∪ Fq').
Proof.
  intros Hn Hk Ho Hp Hl Hr O1 O2 N1 N2 Hd. destruct left; (split; [done|]).
  - by exists n, q, q', Fq, Fq'.
  - exists n, q', q, Fq', Fq. split_and!; try done; set_solver.
Qed.

Section attaching.
Context (left : bool) (h : forest) (Hok : forest_ok h) (p1 : Z) (t1 : ast) (F1 : gset Z) (O1 : owned h p1 t1 F1).

Definition attached (p : Z) (n : treenode) : forest := mk_forest (<[p := with_child left p1 n]> (nodes h)) (fresh h).

Lemma last_child_ok t2 p2 F2 fuel : owned h p2 t2 F2 → t2 ≠ TNull → F1 ## F2 → (height t2 ≤ fuel)%nat →
  ∃ p n F', last_child (child_of left) fuel p2 h = Ret p h ∧ nodes h !! p = Some n ∧ p ∈ F2 ∧
    owned (attached p n) p2 (attach left t1 t2) F' ∧ F' ⊆ F1 ∪ F2.
Proof using Hok O1.
  revert p2 F2 fuel. induction t2 as [|k v|op l IHl r IHr]; intros p2 F2 fuel O2 Hne Hd Hf; [done|..];
    (destruct fuel as [|fuel]; [simpl in Hf; lia|]); cbn [last_child].
  - pose proof O2 as [Ht ->]. destruct (child_of_ok left h p2 _ Hok Ht) as (q & E & Hq). run E.
    assert (side left (TLeaf k v) = TNull) as Es by (by destruct left). rewrite Es in Hq. run (IsNull_ok h Hok q TNull Hq).
    destruct Ht as (Hp & Hk & Hdm & n & Hn & Hnk & Hv). exists p2, n, {[ p2 ]}. split_and!; try done; [set_solver| |set_solver].
    split; [|done]. split_and!; try done. exists (with_child left p1 n). cbn [nodes attached]. rewrite lookup_insert_eq. by destruct left.
  - destruct (owned_child left h p2 op l r F2 O2 Hok) as (n & q & q' & Fq & Fq' & Hn & Hk & Ho & Hp & E & Oq & Oq' & Nq & Nq' & Hqq & -> & El & Er).
    run E. run (IsNull_ok h Hok q _ (owned_tree _ _ _ _ Oq)).
    assert (∀ h' n' qa ta Fa, nodes h' !! p2 = Some n' → n_kind n' = EXPRNode → n_optype n' = Some op →
      n_left n' = Some (if left then qa else q') → n_right n' = Some (if left then q' else qa) →
      owned h' qa ta Fa → owned h' q' (side (negb left) (TExpr op l r)) Fq' → p2 ∉ Fa → Fa ## Fq' →
      attach left t1 (side left (TExpr op l r)) = ta →
      owned h' p2 (attach left t1 (TExpr op l r)) ({[ p2 ]} ∪ Fa ∪ Fq')) as Hnode.
    { intros h' n' qa ta Fa Hn' Hk' Ho' Hl' Hr' Oa Oq2 Na Hda <-.
      pose proof (owned_node left h' p2 op _ _ n' qa q' Fa Fq' Hn' Hk' Ho' Hp Hl' Hr' Oa Oq2 Na Nq' Hda) as H. by destruct left. }
    destruct (isnull (side left (TExpr op l r))) eqn:Enull.
    + assert (side left (TExpr op l r) = TNull) as Es by (by destruct (side left (TExpr op l r))).
      exists p2, n, ({[ p2 ]} ∪ F1 ∪ Fq'). split_and!; try done; [set_solver| |set_solver].
      apply (Hnode _ (with_child left p1 n) p1 t1); try (by destruct left).
      * apply lookup_insert_eq.
      * eapply owned_frame; [exact O1|]. intros x Hx. cbn. rewrite lookup_insert_ne; [done|]. set_solver.
      * eapply owned_frame; [exact Oq'|]. intros x Hx. cbn. rewrite lookup_insert_ne; [done|]. set_solver.
      * set_solver.
      * set_solver.
      * by rewrite Es.
    + assert (∃ p n' F', last_child (child_of left) fuel q h = Ret p h ∧ nodes h !! p = Some n' ∧ p ∈ Fq ∧
        owned (attached p n') q (attach left t1 (side left (TExpr op l r))) F' ∧ F' ⊆ F1 ∪ Fq) as (p & n' & F' & E' & Hn' & Hpq & O' & HF').
      { assert (F1 ## Fq) as Hdq by (clear -Hd; set_solver). clear Hnode. simpl in Hf.
        assert (∀ t, isnull t = false → t ≠ TNull) as Hnn by (by intros t Ht ->).
        destruct left; simpl in Enull, Oq; [apply IHl|apply IHr]; try done; try (by apply Hnn); lia. }
      exists p, n', ({[ p2 ]} ∪ F' ∪ Fq'). split_and!; [done|done|clear -Hpq; set_solver| |clear -HF'; set_solver].
      apply (Hnode _ n q (attach left t1 (side left (TExpr op l r)))); [|exact Hk|exact Ho|exact El|exact Er|exact O'| | | |done].
      * cbn. rewrite lookup_insert_ne; [done|]. intros ->. done.
      * eapply owned_frame; [exact Oq'|]. intros x Hx. cbn. rewrite lookup_insert_ne; [done|]. intros <-. by apply (Hqq p).
      * clear -HF' Hd Nq. set_solver.
      * clear -HF' Hd Hqq. set_solver.
Qed.

(** [MkLeftC] and [MkRightC] in one. *)
Lemma attach_run t2 p2 F2 fuel : owned h p2 t2 F2 → F1 ## F2 → (height t2 ≤ fuel)%nat →
  ∃ p h' F', (b ← IsNull p2; if b : bool then mret p1 else p ← last_child (child_of left) fuel p2; set_node p (with_child left p1);; mret p2) h = Ret p h' ∧
    forest_ok h' ∧ owned h' p (attach left t1 t2) F' ∧ F' ⊆ F1 ∪ F2 ∧ (∀ q, q ∉ F2 → nodes h' !! q = nodes h !! q) ∧ fresh h' = fresh h.
Proof using Hok O1.
  intros O2 Hd Hf. run (IsNull_ok h Hok p2 t2 (owned_tree _ _ _ _ O2)). destruct (isnull t2) eqn:En.
  - assert (t2 = TNull) as -> by (by destruct t2). exists p1, h, F1. split_and!; try done. set_solver.
  - assert (t2 ≠ TNull) as Hne by (by intros ->).
    destruct (last_child_ok t2 p2 F2 fuel O2 Hne Hd Hf) as (p & n & F' & E & Hn & Hp & O' & HF'). run E.
    exists p2, (attached p n), F'. split_and!; try done.
    + unfold set_node. erewrite bind_Ret; [reflexivity|]. apply updates_Some. rewrite Hn. done.
    + destruct Hok as (H1 & H2 & H3). pose proof (owned_not_null _ _ _ _ O2). split_and!; cbn; try done.
      * rewrite lookup_insert_ne by set_solver. done.
      * intros q m [[<- _]|[_ Hq]]%lookup_insert_Some; by eapply H3.
    + intros q Hq. cbn. rewrite lookup_insert_ne by set_solver. done.
Qed.
End attaching.

(** ** Making trees *)

Lemma malloc_ok h n : forest_ok h → fresh h ≠ NullExp ∧ nodes h !! fresh h = None ∧
  forest_ok (mk_forest (<[fresh h := n]> (nodes h)) (fresh h + 1)).
Proof.
  intros (H1 & H2 & H3). assert (nodes h !! fresh h = None) as Hf.
  { destruct (nodes h !! fresh h) as [m|] eqn:E; [|done]. specialize (H3 _ _ E). lia. }
  split; [unfold NullExp in *; lia|]. split; [done|]. split_and!; cbn.
  - rewrite lookup_insert_ne by lia. done.
  - lia.
  - intros q m [[<- _]|[_ Hq]]%lookup_insert_Some; [lia|]. specialize (H3 _ _ Hq). lia.
Qed.
Lemma owned_fresh h p t F : forest_ok h → owned h p t F → fresh h ∉ F.
Proof.
  intros Hok. revert p F. induction t as [|k v|op l IHl r IHr]; intros p F; simpl.
  - intros [_ ->]. set_solver.
  - intros [(_ & _ & _ & n & Hn & _) ->]. destruct Hok as (_ & _ & H3). specialize (H3 _ _ Hn). set_unfold. lia.
  - intros (Hp & n & pl & pr & Fl & Fr & Hn & _ & _ & _ & _ & Ol & Or & _ & _ & _ & ->).
    destruct Hok as (_ & _ & H3). specialize (H3 _ _ Hn). specialize (IHl _ _ Ol). specialize (IHr _ _ Or).
    set_unfold. intros [[?| ]|]; [lia|done..].
Qed.
Lemma MakeTree_ok h op p1 t1 F1 p2 t2 F2 : forest_ok h → owned h p1 t1 F1 → owned h p2 t2 F2 → F1 ## F2 →
  ∃ p h', MakeTree op p1 p2 h = Ret p h' ∧ forest_ok h' ∧ owned h' p (TExpr op t1 t2) ({[ p ]} ∪ F1 ∪ F2).
Proof.
  intros Hok O1 O2 Hd. destruct (malloc_ok h (mk_treenode EXPRNode (Some op) None (Some p1) (Some p2)) Hok) as (Hn & Hf & Hok').
  eexists _, _. split; [reflexivity|]. split; [exact Hok'|].
  pose proof (owned_fresh _ _ _ _ Hok O1) as N1. pose proof (owned_fresh _ _ _ _ Hok O2) as N2.
  split; [done|]. eexists _, p1, p2, F1, F2. split; [cbn; apply lookup_insert_eq|]. split_and!; try done;
    (eapply owned_frame; [done|]); intros q Hq; cbn; rewrite lookup_insert_ne; [done|by intros <-|done|by intros <-].
Qed.

(** ** The properties *)

(** [MkLeftC] and [MkRightC] put the first tree where the second one, followed
    down its left or right children, has its first dummy, whatever trees they
    are as long as they share no node; they end, nothing else changes, and only
    where they meet a leaf instead of a dummy is the first tree lost. *)
Theorem children_attached h p1 t1 F1 p2 t2 F2 fuel : forest_ok h → owned h p1 t1 F1 → owned h p2 t2 F2 → F1 ## F2 →
  (height t2 ≤ fuel)%nat →
  (∃ p h' F', MkLeftC fuel p1 p2 h = Ret p h' ∧ forest_ok h' ∧ owned h' p (attach_left t1 t2) F' ∧ F' ⊆ F1 ∪ F2 ∧
     ∀ q, q ∉ F2 → nodes h' !! q = nodes h !! q) ∧
  (∃ p h' F', MkRightC fuel p1 p2 h = Ret p h' ∧ forest_ok h' ∧ owned h' p (attach_right t1 t2) F' ∧ F' ⊆ F1 ∪ F2 ∧
     ∀ q, q ∉ F2 → nodes h' !! q = nodes h !! q).
Proof.
  intros Hok O1 O2 Hd Hf. split.
  - destruct (attach_run true h Hok p1 t1 F1 O1 t2 p2 F2 fuel O2 Hd Hf) as (p & h' & F' & H1 & H2 & H3 & H4 & H5 & _). by exists p, h', F'.
  - destruct (attach_run false h Hok p1 t1 F1 O1 t2 p2 F2 fuel O2 Hd Hf) as (p & h' & F' & H1 & H2 & H3 & H4 & H5 & _). by exists p, h', F'.
Qed.

(** ** Witness *)

(** A comparison without operands, and a number. *)
Definition comparison : forest :=
  mk_forest (<[2 := mk_treenode EXPRNode (Some LTOp) None (Some NullExp) (Some NullExp)]>
    (<[3 := mk_treenode NUMNode None (Some 5) None None]> {[ NullExp := dummy ]})) 4.
Lemma children_attached_witness : ∃ p h' F', MkLeftC 2 3 2 comparison = Ret p h' ∧ owned h' p (TExpr LTOp (TLeaf NUMNode 5) TNull) F'.
Proof.
  destruct (children_attached comparison 3 (TLeaf NUMNode 5) {[ 3 ]} 2 (TExpr LTOp TNull TNull) {[ 2 ]} 2) as [(p & h' & F' & E & _ & O & _) _].
  - split_and!; [done|done|]. intros p n Hp. unfold comparison in Hp. cbn [nodes] in Hp.
    apply lookup_insert_Some in Hp as [[<- _]|[_ Hp]]; [done|]. apply lookup_insert_Some in Hp as [[<- _]|[_ Hp]]; [done|].
    by apply lookup_singleton_Some in Hp as [<- _].
  - split; [|done]. split_and!; try done. by eexists.
  - split; [done|]. eexists _, NullExp, NullExp, ∅, ∅. split; [reflexivity|]. split_and!; try done; set_solver.
  - set_solver.
  - done.
  - exists p, h', F'. split; [exact E|exact O].
Defined.
