(* ===== verification/Mips.v ===== *)
(** * The assembly the compiler writes

    The lines that CS2210/codegen.c prints, comments left out, and what the
    MIPS instructions among them do: registers hold 32-bit signed integers,
    [add], [addi] and [sub] trap on overflow, [mult] keeps the low word of the
    product, memory is accessed by words at multiples of four.  This file
    describes the target, it models no code. *)
From S2P Require Import Prelude.
Open Scope Z_scope.

Inductive label :=
| L (n : Z) | S_ (n : Z) | Main | Method (name : list Z) (id : Z) | Var (name : list Z) (id : Z) | Enter | Base.
#[export] Instance label_eq_dec : EqDecision label.
Proof. solve_decision. Defined.

Inductive reg := Zero | T0 | T1 | V0 | A (n : Z) | SP | FP | RA.
#[export] Instance reg_eq_dec : EqDecision reg.
Proof. solve_decision. Defined.

Inductive line :=
| Lbl (l : label)
| Data | Text | Globl (l : label) | Word (z : Z) | Asciiz (s : list Z)
| Li (r : reg) (z : Z) | LiSym (r : reg) (l : label) | La (r : reg) (l : label) | Move (d s : reg)
| Lw (r : reg) (off : Z) (b : reg) | Sw (r : reg) (off : Z) (b : reg)
| Addi (d s : reg) (z : Z) | Add (d s t : reg) | Sub (d s t : reg)
| Mult (s t : reg) | Div (s t : reg) | Mflo (d : reg)
| Slt (d s t : reg) | Sgt (d s t : reg) | Seq (d s t : reg) | Sne (d s t : reg) | Sle (d s t : reg) | Sge (d s t : reg)
| Bnez (r : reg) (l : label) | B (l : label) | Jal (l : label) | Jr (r : reg) | Syscall.

(** ** Execution *)

Record machine := mk_machine { pc : nat; regs : reg → Z; lo : Z; mem : Z → Z }.

Definition word (z : Z) : Prop := -2147483648 ≤ z < 2147483648.
#[export] Instance word_dec z : Decision (word z).
Proof. unfold word. apply _. Defined.
Definition b2z (b : bool) : Z := if b then 1 else 0.

(** Register [$0] is always zero. *)
Definition rget (m : machine) (r : reg) : Z := match r with Zero => 0 | _ => regs m r end.
Definition rset (r : reg) (z : Z) (m : machine) : machine :=
  mk_machine (S (pc m)) (λ q, if decide (q = r) then z else regs m q) (lo m) (mem m).
Definition next (m : machine) : machine := mk_machine (S (pc m)) (regs m) (lo m) (mem m).
Definition goto (n : nat) (m : machine) : machine := mk_machine n (regs m) (lo m) (mem m).
Definition set_lo (z : Z) (m : machine) : machine := mk_machine (S (pc m)) (regs m) z (mem m).
Definition store (a z : Z) (m : machine) : machine :=
  mk_machine (S (pc m)) (regs m) (lo m) (λ x, if decide (x = a) then z else mem m x).

Definition aligned (a : Z) : Prop := word a ∧ a mod 4 = 0.
#[export] Instance aligned_dec a : Decision (aligned a).
Proof. unfold aligned. apply _. Defined.
(** A result that must fit in a word. *)
Definition checked (z : Z) (k : Z → machine) : option machine := if decide (word z) then Some (k z) else None.

Section execution.
Variable code : list line.
(** Where the data labels are. *)
Variable data : label → Z.

(** The position of a label in the code. *)
Fixpoint find_label (l : label) (c : list line) (i : nat) : option nat :=
  match c with
  | [] => None
  | Lbl l' :: c' => if decide (l = l') then Some i else find_label l c' (S i)
  | _ :: c' => find_label l c' (S i)
  end.

(** One line; calls, returns, system calls and data are not executed here. *)
Definition exec_line (ln : line) (m : machine) : option machine :=
  match ln with
  | Lbl _ => Some (next m)
  | Li r z => checked z (λ z, rset r z m)
  | La r l => Some (rset r (data l) m)
  | Move d s => Some (rset d (rget m s) m)
  | Lw r off b =>
      let a := rget m b + off in
      if decide (aligned a) then Some (rset r (mem m a) m) else None
  | Sw r off b =>
      let a := rget m b + off in
      if decide (aligned a) then Some (store a (rget m r) m) else None
  | Addi d s z => checked (rget m s + z) (λ v, rset d v m)
  | Add d s t => checked (rget m s + rget m t) (λ v, rset d v m)
  | Sub d s t => checked (rget m s - rget m t) (λ v, rset d v m)
  | Mult s t => Some (set_lo (i32 (rget m s * rget m t)) m)
  | Div s t =>
      if decide (rget m t = 0) then None
      else checked (Z.quot (rget m s) (rget m t)) (λ v, set_lo v m)
  | Mflo d => Some (rset d (lo m) m)
  | Slt d s t => Some (rset d (b2z (rget m s <? rget m t)) m)
  | Sgt d s t => Some (rset d (b2z (rget m t <? rget m s)) m)
  | Seq d s t => Some (rset d (b2z (rget m s =? rget m t)) m)
  | Sne d s t => Some (rset d (b2z (negb (rget m s =? rget m t))) m)
  | Sle d s t => Some (rset d (b2z (rget m s <=? rget m t)) m)
  | Sge d s t => Some (rset d (b2z (rget m t <=? rget m s)) m)
  | Bnez r l => if rget m r =? 0 then Some (next m) else i ← find_label l code 0; Some (goto i m)
  | B l => i ← find_label l code 0; Some (goto i m)
  | Data | Text | Globl _ | Word _ | Asciiz _ | LiSym _ _ | Jal _ | Jr _ | Syscall => None
  end.
Definition mstep (m m' : machine) : Prop := ∃ ln, code !! pc m = Some ln ∧ exec_line ln m = Some m'.
End execution.
