(* ===== verification/Codegen.v ===== *)
(** * The code generator of the compiler

    CS2210/codegen.c: it walks the syntax tree that seman.c has linked to the
    symbol table and writes MIPS assembly, whose lines are collected here.  The
    functions follow the tree by address; [fuel] bounds the recursion and the
    loops.  Attributes hold addresses of trees as integers, as the code stores
    them.  Names go through arrays of 20 characters. *)
From S2P Require Import Prelude StrTable SymTab Tree Mips.
Open Scope Z_scope.

(** ** State *)

Record gen := mk_gen {
  trees : forest;
  strs : strtab;
  syms : symtab;
  asm_file : list line;
  global_offset : Z;
  label_id : Z;
  class_offset : Z
}.
Definition in_tree {A} (m : prog forest A) : prog gen A :=
  zoom trees (λ h g, mk_gen h (strs g) (syms g) (asm_file g) (global_offset g) (label_id g) (class_offset g)) m.
Definition in_syms {A} (m : prog symtab A) : prog gen A :=
  zoom syms (λ s g, mk_gen (trees g) (strs g) s (asm_file g) (global_offset g) (label_id g) (class_offset g)) m.
(** [fprintf(asm_file, ...)] *)
Definition put_lines (l : list line) (g : gen) : gen :=
  mk_gen (trees g) (strs g) (syms g) (asm_file g ++ l) (global_offset g) (label_id g) (class_offset g).
Definition emit (l : list line) : prog gen unit := modify (put_lines l).
Definition set_label (n : Z) (g : gen) : gen :=
  mk_gen (trees g) (strs g) (syms g) (asm_file g) (global_offset g) n (class_offset g).
Definition set_class (n : Z) (g : gen) : gen :=
  mk_gen (trees g) (strs g) (syms g) (asm_file g) (global_offset g) (label_id g) n.
Definition set_global (n : Z) (g : gen) : gen :=
  mk_gen (trees g) (strs g) (syms g) (asm_file g) n (label_id g) (class_offset g).
(** [label_id++] *)
Definition new_label : prog gen Z := g ← get; modify (set_label (label_id g + 1));; mret (label_id g).

Definition left_of (p : Z) : prog gen Z := in_tree (LeftChild p).
Definition right_of (p : Z) : prog gen Z := in_tree (RightChild p).
Definition op_of (p : Z) : prog gen Z := in_tree (NodeOp p).
Definition kind_of (p : Z) : prog gen Z := in_tree (NodeKind p).
Definition val_of (p : Z) : prog gen Z := in_tree (IntVal p).
Definition null (p : Z) : prog gen bool := in_tree (IsNull p).
Definition attr (id num : Z) : prog gen Z := in_syms (GetAttr id num).
Definition set_attr (id num val : Z) : prog gen unit := in_syms (SetAttr id num val).

(** [strcpy(name, getname(GetAttr(id, NAME_ATTR)))] *)
Definition name_of (id : Z) : prog gen (list Z) :=
  i ← attr id NAME_ATTR;
  s ← reads (λ g, getname (strs g) i);
  if (length s <? 20)%nat then mret s else undef.

Definition push (r : reg) : list line := [Sw r 0 SP; Addi SP SP (-4)].
Definition pop (r : reg) : list line := [Lw r 4 SP; Addi SP SP 4].
Definition out_of_fuel {A} : prog gen A := λ _, Fuel.

(** ** Constants *)

(** Signed arithmetic that leaves [int] is undefined. *)
Definition int_ok (z : Z) : option Z := if decide (word z) then Some z else None.
Fixpoint EvalExpression (fuel : nat) (curr_node : Z) : prog gen Z :=
  match fuel with
  | O => out_of_fuel
  | S fuel' =>
      k ← kind_of curr_node;
      if k =? DUMMYNode then mret 0
      else if k =? NUMNode then val_of curr_node
      else
        lc ← left_of curr_node; l ← EvalExpression fuel' lc;
        rc ← right_of curr_node; r ← EvalExpression fuel' rc;
        o ← op_of curr_node;
        if o =? AddOp then lift (int_ok (l + r))
        else if o =? SubOp then lift (int_ok (l - r))
        else if o =? MultOp then lift (int_ok (l * r))
        else if o =? DivOp then (if r =? 0 then undef else lift (int_ok (Z.quot l r)))
        else if o =? UnaryNegOp then lift (int_ok ((-1) * l))
        else mret 0
  end.

(** ** Arrays *)

Fixpoint length_loop (fuel : nat) (curr_node : Z) (len : Z) : prog gen Z :=
  match fuel with
  | O => out_of_fuel
  | S fuel' =>
      l ← left_of curr_node; o ← op_of l;
      if o =? CommaOp then length_loop fuel' l (len + 1) else mret len
  end.
Definition ArrayLength (fuel : nat) (head : Z) : prog gen Z :=
  l ← left_of head; o ← op_of l;
  if o =? BoundOp then r ← right_of l; val_of r
  else if o =? CommaOp then length_loop fuel l 1
  else mret 0.
(** The values of an initialiser, the last one first. *)
Fixpoint array_values (fuel : nat) (curr_node : Z) : prog gen (list Z) :=
  match fuel with
  | O => out_of_fuel
  | S fuel' =>
      o ← op_of curr_node;
      if o =? CommaOp then
        r ← right_of curr_node; v ← EvalExpression fuel' r;
        l ← left_of curr_node; vs ← array_values fuel' l;
        mret (v :: vs)
      else mret []
  end.
(** [PushArray] and [GenArray] write the same values in two ways. *)
Definition array_lines (fuel : nat) (zero : list line) (one : Z → list line) (head : Z) : prog gen unit :=
  len ← ArrayLength fuel head;
  l ← left_of head; o ← op_of l;
  if o =? BoundOp then emit (concat (replicate (Z.to_nat len) zero))
  else if o =? CommaOp then vs ← array_values fuel l; emit (concat (one <$> reverse vs))
  else mret tt.
Definition PushArray (fuel : nat) (head : Z) : prog gen unit :=
  array_lines fuel (push Zero) (λ v, Li T0 v :: push T0) head.
Definition GenArray (fuel : nat) (head : Z) : prog gen unit :=
  array_lines fuel [Word 0] (λ v, [Word v]) head.

(** ** Expressions, variables and calls *)

(** The two loops of [MethodCall] that look for the method's symbol. *)
Fixpoint last_right (fuel : nat) (temp : Z) : prog gen Z :=
  match fuel with
  | O => out_of_fuel
  | S fuel' => r ← right_of temp; b ← null r; if b : bool then mret temp else last_right fuel' r
  end.
Fixpoint left_symbol (fuel : nat) (temp : Z) : prog gen Z :=
  match fuel with
  | O => out_of_fuel
  | S fuel' => k ← kind_of temp; if k =? STNode then mret temp else l ← left_of temp; left_symbol fuel' l
  end.

(** "println", "readln" and "main". *)
Definition name_println : list Z := [112; 114; 105; 110; 116; 108; 110].
Definition name_readln : list Z := [114; 101; 97; 100; 108; 110].
Definition name_main : list Z := [109; 97; 105; 110].

Definition call_saved : list reg := [FP; A 0; A 1; A 2; A 3].
Definition save_lines : list line := concat (push <$> call_saved).
Definition restore_lines : list line := concat (pop <$> reverse call_saved).
Definition newline_lines : list line := [La (A 0) Enter; Li V0 4; Syscall].

(** What prints a string constant: it is stored with its quotes. *)
Definition print_string (id : Z) : prog gen unit :=
  s ← reads (λ g, getname (strs g) id);
  if (length s <? 100)%nat then
    match s with
    | [] => undef
    | _ :: p =>
        n ← new_label;
        emit [Data; Asciiz (removelast p ++ [10]); Text; La (A 0) (S_ n); Li V0 4; Syscall]
    end
  else undef.

Definition is_binary (o : Z) : bool := (AddOp <=? o) && (o <=? GEOp).
(** The instructions for an operation on $t0 and $t1. *)
Definition op_lines (o : Z) : list line :=
  if o =? AddOp then [Add T0 T0 T1] else if o =? SubOp then [Sub T0 T0 T1]
  else if o =? MultOp then [Mult T0 T1; Mflo T0] else if o =? DivOp then [Div T0 T1; Mflo T0]
  else if o =? LTOp then [Slt T0 T0 T1] else if o =? GTOp then [Sgt T0 T0 T1]
  else if o =? EQOp then [Seq T0 T0 T1] else if o =? NEOp then [Sne T0 T0 T1]
  else if o =? LEOp then [Sle T0 T0 T1] else [Sge T0 T0 T1].

(** The base address of a variable, and where its selectors start. *)
Definition gen_base (head var_id var_kind nest_level : Z) (var_name : list Z) : prog gen Z :=
  if var_kind =? CLASS then
    select_node ← right_of head;
    l ← left_of select_node; base_node ← left_of l; id ← val_of base_node;
    name ← name_of id;
    emit [La T0 (Var name id)];; mret select_node
  else if var_kind =? REF_ARG then
    reg_number ← attr var_id OFFSET_ATTR;
    emit [Move T0 (A reg_number)];; mret head
  else if nest_level =? 1 then emit [La T0 (Var var_name var_id)];; mret head
  else if nest_level =? 2 then
    offset ← attr var_id OFFSET_ATTR;
    emit [Move T0 FP; Li T1 offset; Sub T0 T0 T1];; mret head
  else mret head.

Fixpoint GenExpression (fuel : nat) (curr_node : Z) : prog gen unit :=
  match fuel with
  | O => out_of_fuel
  | S fuel' =>
      k ← kind_of curr_node;
      if k =? NUMNode then num_val ← val_of curr_node; emit (Li T0 num_val :: push T0)
      else
        o ← op_of curr_node;
        if is_binary o then
          l ← left_of curr_node; GenExpression fuel' l;;
          r ← right_of curr_node; GenExpression fuel' r;;
          emit (pop T1 ++ [Lw T0 4 SP]);;
          emit (op_lines o);;
          emit [Sw T0 4 SP]
        else if o =? UnaryNegOp then
          l ← left_of curr_node; GenExpression fuel' l;;
          emit [Lw T0 4 SP; Li T1 (-1); Mult T0 T1; Mflo T0; Sw T0 4 SP]
        else if o =? VarOp then
          name_node ← left_of curr_node; var_id ← val_of name_node;
          var_kind ← attr var_id KIND_ATTR;
          if var_kind =? VALUE_ARG then
            reg_number ← attr var_id OFFSET_ATTR; emit (push (A reg_number))
          else
            GenVar fuel' curr_node;;
            emit [Lw T1 4 SP; Lw T0 0 T1; Sw T0 4 SP]
        else if o =? RoutineCallOp then
          MethodCall fuel' curr_node;; emit (push V0)
        else mret tt
  end
with GenVar (fuel : nat) (head : Z) : prog gen unit :=
  match fuel with
  | O => out_of_fuel
  | S fuel' =>
      name_node ← left_of head; var_id ← val_of name_node;
      nest_level ← attr var_id NEST_ATTR;
      var_name ← name_of var_id;
      var_kind ← attr var_id KIND_ATTR;
      head ← gen_base head var_id var_kind nest_level var_name;
      emit (push T0);; emit (push Zero);;
      select_node ← right_of head;
      GenSelects fuel' select_node;;
      if (nest_level =? 1) || (var_kind =? CLASS) then emit (pop T1 ++ [Lw T0 4 SP; Add T0 T0 T1; Sw T0 4 SP])
      else if nest_level =? 2 then emit (pop T1 ++ [Lw T0 4 SP; Sub T0 T0 T1; Sw T0 4 SP])
      else mret tt
  end
with GenSelects (fuel : nat) (select_node : Z) : prog gen unit :=
  match fuel with
  | O => out_of_fuel
  | S fuel' =>
      b ← null select_node;
      if b : bool then mret tt
      else
        l ← left_of select_node; o ← op_of l;
        (if o =? FieldOp then
           f ← left_of l; field_id ← val_of f; offset ← attr field_id OFFSET_ATTR;
           emit [Li T1 offset; Lw T0 4 SP; Add T0 T0 T1; Sw T0 4 SP]
         else if o =? IndexOp then
           e ← left_of l; GenExpression fuel' e;;
           emit (pop T1 ++ [Li T0 4; Mult T0 T1; Mflo T1; Lw T0 4 SP; Add T0 T0 T1; Sw T0 4 SP])
         else mret tt);;
        r ← right_of select_node; GenSelects fuel' r
  end
with MethodCall (fuel : nat) (head : Z) : prog gen unit :=
  match fuel with
  | O => out_of_fuel
  | S fuel' =>
      emit save_lines;;
      temp ← left_of head; temp ← last_right fuel' temp; method_node ← left_symbol fuel' temp;
      method_id ← val_of method_node;
      method_name ← name_of method_id;
      (if bool_decide (method_name = name_println) then
         r ← right_of head; arg_node ← left_of r; k ← kind_of arg_node;
         if k =? STRINGNode then id ← val_of arg_node; print_string id
         else if k =? NUMNode then
           num_val ← val_of arg_node;
           emit ([LiSym (A 0) (S_ num_val); Li V0 4; Syscall] ++ newline_lines)
         else
           GenExpression fuel' arg_node;;
           emit (pop (A 0) ++ [Li V0 1; Syscall] ++ newline_lines)
       else if bool_decide (method_name = name_readln) then
         r ← right_of head; arg_node ← left_of r;
         GenVar fuel' arg_node;;
         emit (pop T0 ++ [Li V0 5; Syscall; Sw V0 0 T0])
       else
         method_decl ← attr method_id TYPE_ATTR;
         l ← left_of method_decl; r ← right_of l; arg_def_node ← left_of r;
         arg_node ← right_of head;
         GenArguments fuel' arg_node arg_def_node;;
         emit [Jal (Method method_name method_id)]);;
      emit restore_lines
  end
with GenArguments (fuel : nat) (arg_node arg_def_node : Z) : prog gen unit :=
  match fuel with
  | O => out_of_fuel
  | S fuel' =>
      b ← null arg_node;
      if b : bool then mret tt
      else
        l ← left_of arg_def_node; name_node ← left_of l; var_id ← val_of name_node;
        arg_kind ← attr var_id KIND_ATTR;
        reg_number ← attr var_id OFFSET_ATTR;
        a ← left_of arg_node;
        (if arg_kind =? REF_ARG then GenVar fuel' a
         else if arg_kind =? VALUE_ARG then GenExpression fuel' a else mret tt);;
        emit (pop T0 ++ [Move (A reg_number) T0]);;
        next_arg ← right_of arg_node; next_def ← right_of arg_def_node;
        GenArguments fuel' next_arg next_def
  end.

(** ** Statements *)

Definition AssignmentStmt (fuel : nat) (head : Z) : prog gen unit :=
  expr ← right_of head; l ← left_of head; var_op ← right_of l;
  name_node ← left_of var_op; var_id ← val_of name_node;
  var_kind ← attr var_id KIND_ATTR;
  if var_kind =? VALUE_ARG then
    reg_number ← attr var_id OFFSET_ATTR;
    GenExpression fuel expr;; emit (pop (A reg_number))
  else
    GenVar fuel var_op;; GenExpression fuel expr;;
    emit (pop T1 ++ pop T0 ++ [Sw T1 0 T0]).

Definition return_lines : list line := [Lw RA 0 FP; Move SP FP; Jr RA].
Definition ReturnStmt (fuel : nat) (head : Z) : prog gen unit :=
  expr ← left_of head; b ← null expr;
  (if b : bool then mret tt else GenExpression fuel expr;; emit (pop V0));;
  emit return_lines.

Definition branch_lines (true_label false_label : Z) : list line :=
  pop T0 ++ [Bnez T0 (L true_label); B (L false_label); Lbl (L true_label)].

Fixpoint GenStmt (fuel : nat) (curr_node : Z) : prog gen unit :=
  match fuel with
  | O => out_of_fuel
  | S fuel' =>
      b ← null curr_node;
      if b : bool then mret tt
      else
        l ← left_of curr_node; GenStmt fuel' l;;
        operation ← right_of curr_node; o ← op_of operation;
        if o =? AssignOp then AssignmentStmt fuel' operation
        else if o =? IfElseOp then
          next_label ← new_label; IfElseStmt fuel' operation next_label;; emit [Lbl (L next_label)]
        else if o =? LoopOp then LoopStmt fuel' operation
        else if o =? ReturnOp then ReturnStmt fuel' operation
        else if o =? RoutineCallOp then MethodCall fuel' operation
        else mret tt
  end
with IfElseStmt (fuel : nat) (curr_node next_label : Z) : prog gen unit :=
  match fuel with
  | O => out_of_fuel
  | S fuel' =>
      b ← null curr_node;
      if b : bool then mret tt
      else
        true_label ← new_label; false_label ← new_label;
        l ← left_of curr_node; IfElseStmt fuel' l next_label;;
        r ← right_of curr_node; o ← op_of r;
        if o =? CommaOp then
          stmt_node ← right_of r; expr_node ← left_of r;
          GenExpression fuel' expr_node;;
          emit (branch_lines true_label false_label);;
          GenStmt fuel' stmt_node;;
          emit [B (L next_label); Lbl (L false_label)]
        else if o =? StmtOp then GenStmt fuel' r;; emit [B (L next_label)]
        else mret tt
  end
with LoopStmt (fuel : nat) (head : Z) : prog gen unit :=
  match fuel with
  | O => out_of_fuel
  | S fuel' =>
      main_label ← new_label; true_label ← new_label; false_label ← new_label;
      emit [Lbl (L main_label)];;
      l ← left_of head; GenExpression fuel' l;;
      emit (branch_lines true_label false_label);;
      r ← right_of head; GenStmt fuel' r;;
      emit [B (L main_label); Lbl (L false_label)]
  end.

(** ** Declarations *)

(** What the declaration functions read of a [DeclOp] node: the symbol, its
    kind, the node of the type name and the initial value. *)
Definition declared_var (decl : Z) : prog gen (Z * Z * Z * Z) :=
  r ← right_of decl; var_node ← left_of r;
  rr ← right_of r; rrl ← left_of rr; type_node ← left_of rrl;
  val_node ← right_of rr;
  var_id ← val_of var_node;
  symbol_type ← attr var_id KIND_ATTR;
  mret (var_id, symbol_type, type_node, val_node).

(** The functions thread [*local_offset]. *)
Fixpoint PushClassDecl (fuel : nat) (curr_node local_offset : Z) : prog gen Z :=
  match fuel with
  | O => out_of_fuel
  | S fuel' =>
      b ← null curr_node;
      if b : bool then mret local_offset
      else
        l ← left_of curr_node; local_offset ← PushClassDecl fuel' l local_offset;
        next_node ← right_of curr_node; node_type ← op_of next_node;
        if node_type =? DeclOp then
          '(var_id, symbol_type, type_node, val_node) ← declared_var next_node;
          if symbol_type =? VAR then
            k ← kind_of type_node;
            if k =? INTEGERTNode then
              value ← EvalExpression fuel' val_node;
              emit (Li T0 value :: push T0);; mret (local_offset + 4)
            else if k =? STNode then
              class_id ← val_of type_node; class_decl ← attr class_id TYPE_ATTR;
              c ← left_of class_decl; PushClassDecl fuel' c local_offset
            else mret local_offset
          else if symbol_type =? ARR then
            arr_length ← ArrayLength fuel' val_node;
            PushArray fuel' val_node;; mret (local_offset + arr_length * 4)
          else mret local_offset
        else mret local_offset
  end.

Fixpoint GenMethodDecl (fuel : nat) (curr_node local_offset : Z) : prog gen Z :=
  match fuel with
  | O => out_of_fuel
  | S fuel' =>
      b ← null curr_node;
      if b : bool then mret local_offset
      else
        l ← left_of curr_node; local_offset ← GenMethodDecl fuel' l local_offset;
        '(var_id, symbol_type, type_node, val_node) ← declared_var curr_node;
        if symbol_type =? VAR then
          k ← kind_of type_node;
          if k =? INTEGERTNode then
            set_attr var_id OFFSET_ATTR local_offset;;
            value ← EvalExpression fuel' val_node;
            emit (Li T0 value :: push T0);; mret (local_offset + 4)
          else if k =? STNode then
            class_id ← val_of type_node; class_decl ← attr class_id TYPE_ATTR;
            set_attr var_id OFFSET_ATTR local_offset;;
            c ← left_of class_decl; PushClassDecl fuel' c local_offset
          else mret local_offset
        else if symbol_type =? ARR then
          set_attr var_id OFFSET_ATTR local_offset;;
          arr_length ← ArrayLength fuel' val_node;
          set_attr var_id SIZE_ATTR (arr_length * 4);;
          set_attr var_id DIMEN_ATTR 1;;
          PushArray fuel' val_node;; mret (local_offset + arr_length * 4)
        else mret local_offset
  end.

Fixpoint AllocClassDecl (fuel : nat) (curr_node : Z) : prog gen unit :=
  match fuel with
  | O => out_of_fuel
  | S fuel' =>
      b ← null curr_node;
      if b : bool then mret tt
      else
        l ← left_of curr_node; AllocClassDecl fuel' l;;
        next_node ← right_of curr_node; node_type ← op_of next_node;
        if node_type =? DeclOp then
          '(var_id, symbol_type, type_node, val_node) ← declared_var next_node;
          if symbol_type =? VAR then
            k ← kind_of type_node;
            if k =? INTEGERTNode then value ← EvalExpression fuel' val_node; emit [Word value]
            else if k =? STNode then
              class_id ← val_of type_node; class_decl ← attr class_id TYPE_ATTR;
              c ← left_of class_decl; AllocClassDecl fuel' c
            else mret tt
          else if symbol_type =? ARR then GenArray fuel' val_node
          else mret tt
        else mret tt
  end.

Fixpoint GenDecl (fuel : nat) (curr_node : Z) : prog gen unit :=
  match fuel with
  | O => out_of_fuel
  | S fuel' =>
      b ← null curr_node;
      if b : bool then mret tt
      else
        l ← left_of curr_node; GenDecl fuel' l;;
        '(var_id, symbol_type, type_node, val_node) ← declared_var curr_node;
        var_name ← name_of var_id;
        g ← get;
        if symbol_type =? VAR then
          k ← kind_of type_node;
          if k =? INTEGERTNode then
            set_attr var_id OFFSET_ATTR (class_offset g);;
            value ← EvalExpression fuel' val_node;
            emit [Lbl (Var var_name var_id); Word value];;
            modify (set_class (class_offset g + 4))
          else if k =? STNode then
            class_id ← val_of type_node;
            class_size ← attr class_id SIZE_ATTR; class_decl ← attr class_id TYPE_ATTR;
            set_attr var_id OFFSET_ATTR (class_offset g);;
            emit [Lbl (Var var_name var_id)];;
            c ← left_of class_decl; AllocClassDecl fuel' c;;
            modify (set_class (class_offset g + class_size))
          else mret tt
        else if symbol_type =? ARR then
          emit [Lbl (Var var_name var_id)];;
          set_attr var_id OFFSET_ATTR (class_offset g);;
          arr_length ← ArrayLength fuel' val_node;
          modify (set_class (class_offset g + arr_length * 4));;
          set_attr var_id SIZE_ATTR (arr_length * 4);;
          set_attr var_id DIMEN_ATTR 1;;
          GenArray fuel' val_node
        else mret tt
  end.

(** ** Methods, classes, the program *)

Fixpoint GenMethodBody (fuel : nat) (curr_node local_offset : Z) : prog gen Z :=
  match fuel with
  | O => out_of_fuel
  | S fuel' =>
      b ← null curr_node;
      if b : bool then mret local_offset
      else
        l ← left_of curr_node; local_offset ← GenMethodBody fuel' l local_offset;
        target_node ← right_of curr_node; o ← op_of target_node;
        if o =? DeclOp then GenMethodDecl fuel' target_node local_offset
        else if o =? StmtOp then GenStmt fuel' target_node;; mret local_offset
        else mret local_offset
  end.

Fixpoint AssignRegs (fuel : nat) (arg_node next_reg : Z) : prog gen unit :=
  match fuel with
  | O => out_of_fuel
  | S fuel' =>
      b ← null arg_node;
      if b : bool then mret tt
      else
        l ← left_of arg_node; n ← left_of l; var_id ← val_of n;
        set_attr var_id OFFSET_ATTR next_reg;;
        r ← right_of arg_node; AssignRegs fuel' r (next_reg + 1)
  end.

(** The symbol of the class before a method. *)
Fixpoint class_of (fuel : nat) (method_id : Z) : prog gen Z :=
  match fuel with
  | O => out_of_fuel
  | S fuel' =>
      if method_id >? 0 then
        k ← attr method_id KIND_ATTR;
        if k =? CLASS then mret method_id else class_of fuel' (method_id - 1)
      else mret method_id
  end.

Definition entry_lines : list line := [Move FP SP; Sw RA 0 SP; Addi SP SP (-4)].
Definition GenMethod (fuel : nat) (curr_node : Z) : prog gen unit :=
  head ← left_of curr_node; name_node ← left_of head; specop_node ← right_of head;
  method_id ← val_of name_node;
  set_attr method_id TYPE_ATTR curr_node;;
  set_attr method_id OFFSET_ATTR 0;;
  method_name ← name_of method_id;
  emit [Text];;
  emit [Lbl (if bool_decide (method_name = name_main) then Main else Method method_name method_id)];;
  class_id ← class_of fuel method_id; attr class_id OFFSET_ATTR;;
  emit entry_lines;;
  args ← left_of specop_node; AssignRegs fuel args 0;;
  body ← right_of curr_node; GenMethodBody fuel body 4;;
  emit return_lines.

Fixpoint GenClass (fuel : nat) (curr_node : Z) : prog gen unit :=
  match fuel with
  | O => out_of_fuel
  | S fuel' =>
      b ← null curr_node;
      if b : bool then mret tt
      else
        l ← left_of curr_node; GenClass fuel' l;;
        next_node ← right_of curr_node; node_type ← op_of next_node;
        if node_type =? MethodOp then GenMethod fuel' next_node
        else if node_type =? DeclOp then emit [Data];; GenDecl fuel' next_node
        else mret tt
  end.

Fixpoint GenProgram (fuel : nat) (curr_node : Z) : prog gen unit :=
  match fuel with
  | O => out_of_fuel
  | S fuel' =>
      b ← null curr_node;
      if b : bool then mret tt
      else
        node_type ← op_of curr_node;
        if node_type =? ClassDefOp then
          class_id_node ← right_of curr_node; class_id ← val_of class_id_node;
          g ← get; set_attr class_id OFFSET_ATTR (global_offset g);;
          set_attr class_id TYPE_ATTR curr_node;;
          modify (set_class 0);;
          body ← left_of curr_node; GenClass fuel' body;;
          g ← get; set_attr class_id SIZE_ATTR (class_offset g);;
          modify (set_global (global_offset g + class_offset g))
        else
          l ← left_of curr_node; GenProgram fuel' l;;
          r ← right_of curr_node; GenProgram fuel' r
  end.

(** [main], from the opened assembly file on. *)
Definition prologue : list line := [Data; Lbl Enter; Asciiz [10]; Lbl Base; Text; Globl Main].
Definition write_program (fuel : nat) (SyntaxTree : Z) : prog gen unit :=
  modify (set_global 0);; modify (set_label 0);; modify (set_class 0);;
  emit prologue;; GenProgram fuel SyntaxTree.
