(* ===== verification/CodegenSpec.v ===== *)
(** * The code of expressions and statements

    What CS2210/codegen.c writes for expressions, variables, assignments,
    conditionals and loops over integers, as functions of the tree, and that
    [GenExpression] and [GenStmt] write exactly this.  Method calls, strings,
    returns, and variables named through a class are left to Codegen.v. *)
From S2P Require Import Prelude StrTable SymTab Tree Mips Codegen.
Open Scope Z_scope.

Section code.
Variable attrs : gmap (Z * Z) Z.
Variable name : Z → list Z.

Definition attr_of (id num : Z) : Z := default 0 (attrs !! (id, num)).

(** ** Expressions *)

Definition base_lines (id : Z) : list line :=
  if attr_of id KIND_ATTR =? REF_ARG then [Move T0 (A (attr_of id OFFSET_ATTR))]
  else if attr_of id NEST_ATTR =? 1 then [La T0 (Var (name id) id)]
  else [Move T0 FP; Li T1 (attr_of id OFFSET_ATTR); Sub T0 T0 T1].
Definition add_base (id : Z) : list line :=
  pop T1 ++ [Lw T0 4 SP; if attr_of id NEST_ATTR =? 1 then Add T0 T0 T1 else Sub T0 T0 T1; Sw T0 4 SP].
Definition field_lines (id : Z) : list line := [Li T1 (attr_of id OFFSET_ATTR); Lw T0 4 SP; Add T0 T0 T1; Sw T0 4 SP].
Definition index_lines : list line := pop T1 ++ [Li T0 4; Mult T0 T1; Mflo T1; Lw T0 4 SP; Add T0 T0 T1; Sw T0 4 SP].
Definition neg_lines : list line := [Lw T0 4 SP; Li T1 (-1); Mult T0 T1; Mflo T0; Sw T0 4 SP].
Definition binary_lines (o : Z) : list line := pop T1 ++ [Lw T0 4 SP] ++ op_lines o ++ [Sw T0 4 SP].
Definition load_lines : list line := [Lw T1 4 SP; Lw T0 0 T1; Sw T0 4 SP].

Fixpoint cexpr (t : ast) : list line :=
  match t with
  | TLeaf k v => Li T0 v :: push T0
  | TExpr o l r =>
      if is_binary o then cexpr l ++ cexpr r ++ binary_lines o
      else if o =? UnaryNegOp then cexpr l ++ neg_lines
      else if attr_of (valof l) KIND_ATTR =? VALUE_ARG then push (A (attr_of (valof l) OFFSET_ATTR))
      else base_lines (valof l) ++ push T0 ++ push Zero ++ cselects r ++ add_base (valof l) ++ load_lines
  | TNull => []
  end
with cselects (t : ast) : list line :=
  match t with
  | TExpr _ (TExpr o e _) rest =>
      (if o =? FieldOp then field_lines (valof e) else cexpr e ++ index_lines) ++ cselects rest
  | _ => []
  end.
Definition cvar (id : Z) (sel : ast) : list line := base_lines id ++ push T0 ++ push Zero ++ cselects sel ++ add_base id.

(** The trees spoken of: a variable is an integer, an array or an argument, with
    selectors by field and by index. *)
Definition plain_symbol (t : ast) : bool :=
  match t with
  | TLeaf k id => (k =? STNode) && (0 <=? id) && (id <? ST_SIZE) && (length (name id) <? 20)%nat
  | _ => false
  end.
Definition plain_var (id : Z) : bool :=
  let k := attr_of id KIND_ATTR in let n := attr_of id NEST_ATTR in
  negb (k =? CLASS) && ((n =? 1) || (n =? 2)).
Fixpoint plain (t : ast) : bool :=
  match t with
  | TNull => false
  | TLeaf k v => k =? NUMNode
  | TExpr o l r =>
      if is_binary o then plain l && plain r
      else if o =? UnaryNegOp then plain l
      else (o =? VarOp) && plain_symbol l && plain_var (valof l) && plain_selects r
  end
with plain_selects (t : ast) : bool :=
  match t with
  | TNull => true
  | TExpr _ (TExpr o e _) rest => (if o =? FieldOp then plain_symbol e else (o =? IndexOp) && plain e) && plain_selects rest
  | _ => false
  end.

(** ** Statements, with the number of the next label *)

Definition assign_lines (id : Z) (sel e : ast) : list line :=
  if attr_of id KIND_ATTR =? VALUE_ARG then cexpr e ++ pop (A (attr_of id OFFSET_ATTR))
  else cvar id sel ++ cexpr e ++ pop T1 ++ pop T0 ++ [Sw T1 0 T0].

Fixpoint cstmts (t : ast) (n : Z) : list line * Z :=
  match t with
  | TExpr _ l r =>
      let '(c, n) := cstmts l n in
      match r with
      | TExpr o a b =>
          if o =? AssignOp then (c ++ assign_lines (valof (lchild (rchild a))) (rchild (rchild a)) b, n)
          else if o =? IfElseOp then
            let '(c', n') := cif r n (n + 1) in (c ++ c' ++ [Lbl (L n)], n')
          else if o =? LoopOp then
            let '(c', n') := cstmts b (n + 3) in
            (c ++ [Lbl (L n)] ++ cexpr a ++ branch_lines (n + 1) (n + 2) ++ c' ++ [B (L n); Lbl (L (n + 2))], n')
          else (c, n)
      | _ => (c, n)
      end
  | _ => ([], n)
  end
with cif (t : ast) (next n : Z) : list line * Z :=
  match t with
  | TExpr _ l r =>
      let '(c, n') := cif l next (n + 2) in
      match r with
      | TExpr o a b =>
          if o =? CommaOp then
            let '(c', n'') := cstmts b n' in
            (c ++ cexpr a ++ branch_lines n (n + 1) ++ c' ++ [B (L next); Lbl (L (n + 1))], n'')
          else if o =? StmtOp then
            let '(c', n'') := cstmts r n' in (c ++ c' ++ [B (L next)], n'')
          else (c, n')
      | _ => (c, n')
      end
  | TLeaf _ _ => ([], n + 2)
  | TNull => ([], n)
  end.

Lemma cstmts_eq o l r n : cstmts (TExpr o l r) n =
  let '(c, n) := cstmts l n in
  match r with
  | TExpr o a b =>
      if o =? AssignOp then (c ++ assign_lines (valof (lchild (rchild a))) (rchild (rchild a)) b, n)
      else if o =? IfElseOp then
        let '(c', n') := cif r n (n + 1) in (c ++ c' ++ [Lbl (L n)], n')
      else if o =? LoopOp then
        let '(c', n') := cstmts b (n + 3) in
        (c ++ [Lbl (L n)] ++ cexpr a ++ branch_lines (n + 1) (n + 2) ++ c' ++ [B (L n); Lbl (L (n + 2))], n')
      else (c, n)
  | _ => (c, n)
  end.
Proof. done. Qed.
Lemma cif_eq o l r next n : cif (TExpr o l r) next n =
  let '(c, n') := cif l next (n + 2) in
  match r with
  | TExpr o a b =>
      if o =? CommaOp then
        let '(c', n'') := cstmts b n' in
        (c ++ cexpr a ++ branch_lines n (n + 1) ++ c' ++ [B (L next); Lbl (L (n + 1))], n'')
      else if o =? StmtOp then
        let '(c', n'') := cstmts r n' in (c ++ c' ++ [B (L next)], n'')
      else (c, n')
  | _ => (c, n')
  end.
Proof. done. Qed.

(** Assignments, conditionals and loops with plain expressions. *)
Definition plain_assign (a e : ast) : bool :=
  match a with
  | TExpr _ _ (TExpr _ s sel) => plain_symbol s && plain_var (valof s) && plain_selects sel && plain e
  | _ => false
  end.
Fixpoint plain_stmts (t : ast) : bool :=
  match t with
  | TNull => true
  | TLeaf _ _ => false
  | TExpr _ l r =>
      plain_stmts l &&
      match r with
      | TExpr o a b =>
          if o =? AssignOp then plain_assign a b
          else if o =? IfElseOp then plain_if r
          else (o =? LoopOp) && plain a && plain_stmts b
      | _ => false
      end
  end
with plain_if (t : ast) : bool :=
  match t with
  | TNull => true
  | TLeaf _ _ => false
  | TExpr _ l r =>
      plain_if l &&
      match r with
      | TExpr o a b => if o =? CommaOp then plain a && plain_stmts b else (o =? StmtOp) && plain_stmts r
      | _ => false
      end
  end.
Lemma plain_stmts_eq o l r : plain_stmts (TExpr o l r) =
  plain_stmts l &&
  match r with
  | TExpr o a b =>
      if o =? AssignOp then plain_assign a b
      else if o =? IfElseOp then plain_if r
      else (o =? LoopOp) && plain a && plain_stmts b
  | _ => false
  end.
Proof. done. Qed.
Lemma plain_if_eq o l r : plain_if (TExpr o l r) =
  plain_if l &&
  match r with
  | TExpr o a b => if o =? CommaOp then plain a && plain_stmts b else (o =? StmtOp) && plain_stmts r
  | _ => false
  end.
Proof. done. Qed.
End code.

(** ** The generator writes this code *)

Section generation.
Context (h : forest) (s : symtab) (t : strtab) (attrs : gmap (Z * Z) Z) (C : Z → list (Z * Z * Z)) (name : Z → list Z).
Context (Hok : forest_ok h) (HA : attrs_ok s attrs C).
Context (Hname : ∀ id, st_range id → getname t (attr_of attrs id NAME_ATTR) = Some (name id)).
Implicit Types (g : gen).

Notation attr_of := (attr_of attrs).
Notation cexpr := (cexpr attrs name).
Notation cselects := (cselects attrs name).
Notation cstmts := (cstmts attrs name).
Notation cif := (cif attrs name).
Notation plain := (plain attrs name).
Notation plain_selects := (plain_selects attrs name).
Notation plain_stmts := (plain_stmts attrs name).
Notation plain_if := (plain_if attrs name).

(** The parts of the state that expressions and statements only read. *)
Definition static g : Prop := trees g = h ∧ syms g = s ∧ strs g = t.
Lemma static_put l g : static g → static (put_lines l g).
Proof. done. Qed.
Lemma static_label n g : static g → static (set_label n g).
Proof. done. Qed.
Lemma put_put l1 l2 g : put_lines l2 (put_lines l1 g) = put_lines (l1 ++ l2) g.
Proof. unfold put_lines. cbn. by rewrite app_assoc. Qed.
Lemma put_nil g : put_lines [] g = g.
Proof. destruct g. unfold put_lines. cbn. by rewrite app_nil_r. Qed.
Lemma emit_run l g : emit l g = Ret tt (put_lines l g).
Proof. done. Qed.

Lemma in_tree_run {X} (m : prog forest X) x g : static g → m h = Ret x h → in_tree m g = Ret x g.
Proof. intros (<- & _ & _) E. unfold in_tree, zoom. rewrite E. by destruct g. Qed.
Lemma left_run g p x : static g → tree_at h p x → ∃ q, left_of p g = Ret q g ∧ tree_at h q (lchild x).
Proof. intros Hg Hp. destruct (LeftChild_ok h Hok p x Hp) as (q & E & Hq). exists q. split; [by apply in_tree_run|done]. Qed.
Lemma right_run g p x : static g → tree_at h p x → ∃ q, right_of p g = Ret q g ∧ tree_at h q (rchild x).
Proof. intros Hg Hp. destruct (RightChild_ok h Hok p x Hp) as (q & E & Hq). exists q. split; [by apply in_tree_run|done]. Qed.
Lemma op_run g p x : static g → tree_at h p x → op_of p g = Ret (opof x) g.
Proof. intros Hg Hp. apply in_tree_run; [done|by apply NodeOp_ok]. Qed.
Lemma kind_run g p x : static g → tree_at h p x → kind_of p g = Ret (kindof x) g.
Proof. intros Hg Hp. apply in_tree_run; [done|by apply NodeKind_ok]. Qed.
Lemma val_run g p x : static g → tree_at h p x → val_of p g = Ret (valof x) g.
Proof. intros Hg Hp. apply in_tree_run; [done|by apply IntVal_ok]. Qed.
Lemma null_run g p x : static g → tree_at h p x → null p g = Ret (isnull x) g.
Proof. intros Hg Hp. apply in_tree_run; [done|by apply IsNull_ok]. Qed.
Lemma attr_run g id num : static g → st_range id → attr id num g = Ret (attr_of id num) g.
Proof.
  intros (_ & <- & _) Hid. unfold attr, in_syms, zoom. rewrite (GetAttr_ok _ _ _ HA id num Hid). by destruct g.
Qed.
Lemma name_run g id : static g → st_range id → (length (name id) < 20)%nat → name_of id g = Ret (name id) g.
Proof.
  intros Hg Hid Hl. unfold name_of. run (attr_run g id NAME_ATTR Hg Hid). destruct Hg as (Hh & Hs & Ht).
  rewrite (bind_Ret _ _ g (name id) g); [by rewrite (proj2 (Nat.ltb_lt _ _) Hl)|].
  apply (reads_Some (λ g, getname (strs g) _)). rewrite Ht. by apply Hname.
Qed.
Lemma new_label_run g : new_label g = Ret (label_id g) (set_label (label_id g + 1) g).
Proof. done. Qed.

Lemma plain_symbol_inv x : plain_symbol name x = true →
  ∃ id, x = TLeaf STNode id ∧ st_range id ∧ (length (name id) < 20)%nat.
Proof.
  clear. destruct x as [|k id|]; simpl; [done| |done]. rewrite !andb_true_iff, Z.eqb_eq, Z.leb_le, Z.ltb_lt, Nat.ltb_lt.
  intros [[[-> ?] ?] ?]. exists id. by split_and!.
Qed.
Lemma plain_var_inv id : plain_var attrs id = true →
  (attr_of id KIND_ATTR =? CLASS) = false ∧ (attr_of id NEST_ATTR = 1 ∨ attr_of id NEST_ATTR = 2).
Proof.
  clear. unfold plain_var. rewrite andb_true_iff, negb_true_iff, orb_true_iff, !Z.eqb_eq. tauto.
Qed.

(** One step of a function that reads the tree, on the state [g]. *)
Ltac fetch H := let q := fresh "q" in let E := fresh "E" in let Hq := fresh "Hq" in destruct H as (q & E & Hq); run E; clear E.

Lemma gen_base_run g p x id : static g → tree_at h p x → st_range id → plain_var attrs id = true →
  gen_base p id (attr_of id KIND_ATTR) (attr_of id NEST_ATTR) (name id) g = Ret p (put_lines (base_lines attrs name id) g).
Proof.
  intros Hg Hp Hid (Hc & Hn)%plain_var_inv. unfold gen_base, base_lines. rewrite Hc.
  destruct (attr_of id KIND_ATTR =? REF_ARG).
  { run (attr_run g id OFFSET_ATTR Hg Hid). done. }
  destruct (Z.eqb_spec (attr_of id NEST_ATTR) 1) as [|Hn1]; [done|]. destruct Hn as [|Hn2]; [done|]. rewrite Hn2. cbn [Z.eqb Pos.eqb].
  run (attr_run g id OFFSET_ATTR Hg Hid). done.
Qed.

(** Expressions, variables and selectors together. *)
Definition expr_gen (fuel : nat) : Prop := ∀ p x g, static g → tree_at h p x → plain x = true → (3 * height x ≤ fuel)%nat →
  GenExpression fuel p g = Ret tt (put_lines (cexpr x) g).
Definition selects_gen (fuel : nat) : Prop := ∀ p x g, static g → tree_at h p x → plain_selects x = true → (3 * height x ≤ fuel)%nat →
  GenSelects fuel p g = Ret tt (put_lines (cselects x) g).
Definition var_gen (fuel : nat) : Prop := ∀ p o id sel g, static g → tree_at h p (TExpr o (TLeaf STNode id) sel) →
  st_range id → (length (name id) < 20)%nat → plain_var attrs id = true → plain_selects sel = true → (3 * height sel < fuel)%nat →
  GenVar fuel p g = Ret tt (put_lines (cvar attrs name id sel) g).

Lemma GenVar_run fuel : selects_gen fuel → var_gen (S fuel).
Proof.
  intros IH p o id sel g Hg Hp Hid Hlen Hv Hsel Hf. cbn [GenVar].
  fetch (left_run g p _ Hg Hp). run (val_run g q _ Hg Hq). cbn [lchild valof].
  run (attr_run g id NEST_ATTR Hg Hid). run (name_run g id Hg Hid Hlen). run (attr_run g id KIND_ATTR Hg Hid).
  run (gen_base_run g p _ id Hg Hp Hid Hv). run (emit_run (push T0) (put_lines (base_lines attrs name id) g)).
  rewrite put_put. run (emit_run (push Zero) (put_lines (base_lines attrs name id ++ push T0) g)). rewrite put_put.
  fetch (right_run (put_lines ((base_lines attrs name id ++ push T0) ++ push Zero) g) p _ Hg Hp).
  run (IH q0 sel (put_lines ((base_lines attrs name id ++ push T0) ++ push Zero) g) Hg Hq0 Hsel ltac:(lia)). rewrite put_put.
  destruct (plain_var_inv id Hv) as [Hc Hn]. rewrite Hc, orb_false_r. unfold cvar, add_base.
  destruct Hn as [-> | ->]; cbn [Z.eqb Pos.eqb]; rewrite emit_run, put_put, <-!app_assoc; done.
Qed.

Lemma GenSelects_run fuel : expr_gen fuel → selects_gen fuel → selects_gen (S fuel).
Proof.
  intros IHe IHs p x g Hg Hp Hx Hf. cbn [GenSelects]. run (null_run g p x Hg Hp).
  destruct x as [|k v|o l rest]; [by rewrite put_nil|done|]. cbn [isnull]. destruct l as [|k v|o' e r']; [done..|].
  cbn [plain_selects] in Hx. apply andb_true_iff in Hx as [Hx Hrest]. simpl in Hf.
  fetch (left_run g p _ Hg Hp). cbn [lchild] in Hq. run (op_run g q _ Hg Hq). cbn [opof cselects].
  destruct (Z.eqb_spec o' FieldOp) as [->|Ho].
  - destruct (plain_symbol_inv e Hx) as (id & -> & Hid & _).
    erewrite bind_Ret.
    2:{ fetch (left_run g q _ Hg Hq). run (val_run g q0 _ Hg Hq0). cbn [lchild valof].
        run (attr_run g id OFFSET_ATTR Hg Hid). apply emit_run. }
    fetch (right_run (put_lines (field_lines attrs id) g) p _ Hg Hp). 
    rewrite (IHs q0 rest (put_lines (field_lines attrs id) g)); [by rewrite put_put|done|done|done|lia].
  - apply andb_true_iff in Hx as [Hi%Z.eqb_eq He]. rewrite Hi. cbn [Z.eqb Pos.eqb IndexOp].
    erewrite bind_Ret.
    2:{ fetch (left_run g q _ Hg Hq). cbn [lchild] in Hq0. run (IHe q0 e g Hg Hq0 He ltac:(lia)). rewrite emit_run, put_put. reflexivity. }
    fetch (right_run (put_lines (cexpr e ++ index_lines) g) p _ Hg Hp).
    rewrite (IHs q0 rest (put_lines (cexpr e ++ index_lines) g)); [by rewrite put_put|done|done|done|lia].
Qed.

Lemma GenExpression_run fuel : expr_gen fuel → var_gen fuel → expr_gen (S fuel).
Proof.
  intros IHe IHv p x g Hg Hp Hx Hf. cbn [GenExpression]. run (kind_run g p x Hg Hp).
  destruct x as [|k v|o l r]; [done| |].
  { cbn in Hx. cbn [kindof]. rewrite Hx. run (val_run g p _ Hg Hp). done. }
  cbn [kindof]. assert ((EXPRNode =? NUMNode) = false) as -> by done. run (op_run g p _ Hg Hp). cbn [opof cexpr plain] in *. simpl in Hf.
  destruct (is_binary o) eqn:Hb.
  { apply andb_true_iff in Hx as [Hl Hr].
    fetch (left_run g p _ Hg Hp). cbn [lchild] in Hq. run (IHe q l g Hg Hq Hl ltac:(lia)).
    fetch (right_run (put_lines (cexpr l) g) p _ Hg Hp). cbn [rchild] in Hq0.
    run (IHe q0 r (put_lines (cexpr l) g) Hg Hq0 Hr ltac:(lia)). rewrite put_put.
    run (emit_run (pop T1 ++ [Lw T0 4 SP]) (put_lines (cexpr l ++ cexpr r) g)). rewrite put_put.
    run (emit_run (op_lines o) (put_lines ((cexpr l ++ cexpr r) ++ pop T1 ++ [Lw T0 4 SP]) g)). rewrite put_put.
    rewrite emit_run, put_put. unfold binary_lines. by rewrite <-!app_assoc. }
  destruct (Z.eqb_spec o UnaryNegOp) as [->|Hneg].
  { fetch (left_run g p _ Hg Hp). cbn [lchild] in Hq. run (IHe q l g Hg Hq Hx ltac:(lia)). by rewrite emit_run, put_put. }
  rewrite !andb_true_iff in Hx. destruct Hx as [[[->%Z.eqb_eq Hs] Hv] Hsel]. cbn [Z.eqb Pos.eqb VarOp].
  destruct (plain_symbol_inv l Hs) as (id & -> & Hid & Hlen). cbn [valof] in *.
  fetch (left_run g p _ Hg Hp). cbn [lchild] in Hq. run (val_run g q _ Hg Hq). cbn [valof]. run (attr_run g id KIND_ATTR Hg Hid).
  destruct (attr_of id KIND_ATTR =? VALUE_ARG).
  { run (attr_run g id OFFSET_ATTR Hg Hid). done. }
  run (IHv p VarOp id r g Hg Hp Hid Hlen Hv Hsel ltac:(simpl in Hf; lia)). rewrite emit_run, put_put. unfold cvar. by rewrite <-!app_assoc.
Qed.

Lemma expressions_run fuel : expr_gen fuel ∧ selects_gen fuel ∧ var_gen fuel.
Proof.
  induction fuel as [|fuel (IHe & IHs & IHv)].
  - split_and!.
    + intros p x g _ _ _ Hf. destruct x; simpl in Hf; lia.
    + intros p x g _ _ _ Hf. destruct x; simpl in Hf; lia.
    + intros p o id sel g _ _ _ _ _ _ Hf. lia.
  - split_and!; [by apply GenExpression_run|by apply GenSelects_run|by apply GenVar_run].
Qed.

(** Statements also take labels. *)
Definition written (c : list line) (n : Z) g : gen := set_label n (put_lines c g).
Lemma written_put c n c' g : put_lines c' (written c n g) = written (c ++ c') n g.
Proof. unfold written, set_label, put_lines. cbn. by rewrite app_assoc. Qed.
Lemma written_written c n c' n' g : written c' n' (written c n g) = written (c ++ c') n' g.
Proof. unfold written, set_label, put_lines. cbn. by rewrite app_assoc. Qed.
Lemma written_nil g : g = written [] (label_id g) g.
Proof. destruct g. unfold written, set_label, put_lines. cbn. by rewrite app_nil_r. Qed.
Lemma static_written c n g : static g → static (written c n g).
Proof. done. Qed.
Lemma new_label_written c n g : new_label (written c n g) = Ret n (written c (n + 1) g).
Proof. done. Qed.

Definition stmts_gen (fuel : nat) : Prop := ∀ p x g, static g → tree_at h p x → plain_stmts x = true → (3 * height x ≤ fuel)%nat →
  ∀ c n, GenStmt fuel p (written c n g) = Ret tt (written (c ++ (cstmts x n).1) (cstmts x n).2 g).
Definition if_gen (fuel : nat) : Prop := ∀ p x next g, static g → tree_at h p x → plain_if x = true → (3 * height x ≤ fuel)%nat →
  ∀ c n, IfElseStmt fuel p next (written c n g) = Ret tt (written (c ++ (cif x next n).1) (cif x next n).2 g).

Lemma AssignmentStmt_run fuel p a e g : static g → tree_at h p (TExpr AssignOp a e) → plain_assign attrs name a e = true →
  (3 * height (TExpr AssignOp a e) ≤ fuel)%nat →
  ∀ c n, AssignmentStmt fuel p (written c n g) =
    Ret tt (written (c ++ assign_lines attrs name (valof (lchild (rchild a))) (rchild (rchild a)) e) n g).
Proof.
  intros Hg Hp Ha Hf c n. destruct a as [|k v|oa la [|k v|ov s0 sel]]; try done. cbn [plain_assign] in Ha.
  rewrite !andb_true_iff in Ha. destruct Ha as [[[Hs Hv] Hsel] He]. destruct (plain_symbol_inv s0 Hs) as (id & -> & Hid & Hlen).
  cbn [rchild lchild valof] in *. set (gw := written c n g). assert (static gw) as Hgw by done. cbn in Hf.
  unfold AssignmentStmt. fetch (right_run gw p _ Hgw Hp). fetch (left_run gw p _ Hgw Hp). cbn [lchild rchild] in *.
  fetch (right_run gw q0 _ Hgw Hq0). cbn [rchild] in Hq1. fetch (left_run gw q1 _ Hgw Hq1). cbn [lchild] in Hq2.
  run (val_run gw q2 _ Hgw Hq2). cbn [valof]. run (attr_run gw id KIND_ATTR Hgw Hid).
  destruct (expressions_run fuel) as (IHe & IHs & IHv). unfold assign_lines. destruct (attr_of id KIND_ATTR =? VALUE_ARG).
  - run (attr_run gw id OFFSET_ATTR Hgw Hid). run (IHe q e gw Hgw Hq He ltac:(lia)). rewrite emit_run. unfold gw. by rewrite !written_put, <-!app_assoc.
  - run (IHv q1 ov id sel gw Hgw Hq1 Hid Hlen Hv Hsel ltac:(lia)).
    run (IHe q e (put_lines (cvar attrs name id sel) gw) Hgw Hq He ltac:(lia)). rewrite emit_run. unfold gw. by rewrite !written_put, <-!app_assoc.
Qed.

Definition loop_code (a b : ast) (n : Z) : list line * Z :=
  ([Lbl (L n)] ++ cexpr a ++ branch_lines (n + 1) (n + 2) ++ (cstmts b (n + 3)).1 ++ [B (L n); Lbl (L (n + 2))], (cstmts b (n + 3)).2).
Definition loop_gen (fuel : nat) : Prop := ∀ p o a b g, static g → tree_at h p (TExpr o a b) → plain a = true → plain_stmts b = true →
  (3 * height (TExpr o a b) ≤ fuel)%nat →
  ∀ c n, LoopStmt fuel p (written c n g) = Ret tt (written (c ++ (loop_code a b n).1) (loop_code a b n).2 g).
Lemma LoopStmt_run fuel : stmts_gen fuel → loop_gen (S fuel).
Proof.
  intros IHs p o a b g Hg Hp Ha Hb Hf c n. cbn [LoopStmt]. simpl in Hf.
  run (new_label_written c n g). run (new_label_written c (n + 1) g). run (new_label_written c (n + 1 + 1) g).
  replace (n + 1 + 1 + 1) with (n + 3) by lia. replace (n + 1 + 1) with (n + 2) by lia.
  run (emit_run [Lbl (L n)] (written c (n + 3) g)). rewrite written_put.
  fetch (left_run (written (c ++ [Lbl (L n)]) (n + 3) g) p _ Hg Hp). cbn [lchild] in Hq.
  destruct (expressions_run fuel) as (IHe & _ & _). run (IHe q a (written (c ++ [Lbl (L n)]) (n + 3) g) Hg Hq Ha ltac:(lia)).
  rewrite written_put. run (emit_run (branch_lines (n + 1) (n + 2)) (written ((c ++ [Lbl (L n)]) ++ cexpr a) (n + 3) g)). rewrite written_put.
  set (c3 := _ ++ branch_lines _ _). fetch (right_run (written c3 (n + 3) g) p _ Hg Hp). cbn [rchild] in Hq0.
  run (IHs q0 b g Hg Hq0 Hb ltac:(lia) c3 (n + 3)). rewrite emit_run, written_put. unfold loop_code, c3. cbn [fst snd]. by rewrite <-!app_assoc.
Qed.

Lemma GenStmt_run fuel : stmts_gen fuel → if_gen fuel → loop_gen fuel → stmts_gen (S fuel).
Proof.
  intros IHs IHi IHl p x g Hg Hp Hx Hf c n. cbn [GenStmt]. run (null_run (written c n g) p x Hg Hp).
  destruct x as [|k v|o l r]; [by rewrite app_nil_r|done|]. cbn [isnull]. rewrite plain_stmts_eq in Hx. rewrite cstmts_eq. simpl in Hf.
  apply andb_true_iff in Hx as [Hl Hr]. fetch (left_run (written c n g) p _ Hg Hp). cbn [lchild] in Hq.
  run (IHs q l g Hg Hq Hl ltac:(lia) c n). destruct (cstmts l n) as [c1 n1]. cbn [fst snd].
  fetch (right_run (written (c ++ c1) n1 g) p _ Hg Hp). cbn [rchild] in Hq0. run (op_run (written (c ++ c1) n1 g) q0 _ Hg Hq0).
  destruct r as [|k v|o' a b]; [done..|]. cbn [opof]. destruct (Z.eqb_spec o' AssignOp) as [->|Ha].
  { rewrite (AssignmentStmt_run fuel q0 a b g); [by rewrite <-app_assoc|done|done|done|lia]. }
  destruct (Z.eqb_spec o' IfElseOp) as [->|Hi].
  { run (new_label_written (c ++ c1) n1 g). run (IHi q0 _ n1 g Hg Hq0 Hr ltac:(lia) (c ++ c1) (n1 + 1)).
    destruct (cif (TExpr IfElseOp a b) n1 (n1 + 1)) as [c2 n2]. cbn [fst snd]. rewrite emit_run, written_put. by rewrite <-!app_assoc. }
  apply andb_true_iff in Hr as [Hr Hb]. apply andb_true_iff in Hr as [->%Z.eqb_eq Hc]. cbn [Z.eqb Pos.eqb LoopOp].
  rewrite (IHl q0 LoopOp a b g Hg Hq0 Hc Hb ltac:(lia)). unfold loop_code. destruct (cstmts b (n1 + 3)) as [c2 n2]. cbn [fst snd]. by rewrite <-!app_assoc.
Qed.

Lemma IfElseStmt_run fuel : stmts_gen fuel → if_gen fuel → if_gen (S fuel).
Proof.
  intros IHs IHi p x next g Hg Hp Hx Hf c n. cbn [IfElseStmt]. run (null_run (written c n g) p x Hg Hp).
  destruct x as [|k v|o l r]; [by rewrite app_nil_r|done|]. cbn [isnull]. rewrite plain_if_eq in Hx. rewrite cif_eq. simpl in Hf.
  apply andb_true_iff in Hx as [Hl Hr]. run (new_label_written c n g). run (new_label_written c (n + 1) g).
  replace (n + 1 + 1) with (n + 2) by lia. fetch (left_run (written c (n + 2) g) p _ Hg Hp). cbn [lchild] in Hq.
  run (IHi q l next g Hg Hq Hl ltac:(lia) c (n + 2)). destruct (cif l next (n + 2)) as [c1 n1]. cbn [fst snd].
  fetch (right_run (written (c ++ c1) n1 g) p _ Hg Hp). cbn [rchild] in Hq0. run (op_run (written (c ++ c1) n1 g) q0 _ Hg Hq0).
  destruct r as [|k v|o' a b]; [done..|]. cbn [opof]. destruct (Z.eqb_spec o' CommaOp) as [->|Hc].
  - apply andb_true_iff in Hr as [Ha Hb]. fetch (right_run (written (c ++ c1) n1 g) q0 _ Hg Hq0). fetch (left_run (written (c ++ c1) n1 g) q0 _ Hg Hq0).
    cbn [lchild rchild] in Hq1, Hq2. destruct (expressions_run fuel) as (IHe & _ & _). simpl in Hf.
    run (IHe q2 a (written (c ++ c1) n1 g) Hg Hq2 Ha ltac:(lia)). rewrite written_put.
    run (emit_run (branch_lines n (n + 1)) (written ((c ++ c1) ++ cexpr a) n1 g)). rewrite written_put.
    run (IHs q1 b g Hg Hq1 Hb ltac:(lia) (((c ++ c1) ++ cexpr a) ++ branch_lines n (n + 1)) n1).
    destruct (cstmts b n1) as [c2 n2]. cbn [fst snd]. rewrite emit_run, written_put. by rewrite <-!app_assoc.
  - apply andb_true_iff in Hr as [->%Z.eqb_eq Hr]. cbn [Z.eqb Pos.eqb StmtOp].
    run (IHs q0 _ g Hg Hq0 Hr ltac:(lia) (c ++ c1) n1). destruct (cstmts (TExpr StmtOp a b) n1) as [c2 n2]. cbn [fst snd].
    rewrite emit_run, written_put. by rewrite <-!app_assoc.
Qed.

Lemma statements_run fuel : stmts_gen fuel ∧ if_gen fuel ∧ loop_gen fuel.
Proof.
  induction fuel as [|fuel (IHs & IHi & IHl)].
  - split_and!.
    + intros p x g _ _ _ Hf. assert (1 ≤ height x)%nat by (destruct x; simpl; lia). lia.
    + intros p x next g _ _ _ Hf. assert (1 ≤ height x)%nat by (destruct x; simpl; lia). lia.
    + intros p o a b g _ _ _ _ Hf. simpl in Hf. lia.
  - split_and!; [by apply GenStmt_run|by apply IfElseStmt_run|by apply LoopStmt_run].
Qed.
End generation.
