(* ===== verification/CodegenSem.v ===== *)
(** * What the generated code does

    The meaning of expressions and statements over the memory where the
    variables live, and that the code of CodegenSpec.v computes it: an
    expression pushes its value and changes nothing but the stack below, a
    statement changes the variables as it should and leaves the stack as it
    was. *)
From S2P Require Import Prelude SymTab Tree Mips Codegen CodegenSpec.
Open Scope Z_scope.

(** ** Meaning *)

(** What a program can change: the argument registers and the memory. *)
Record sstate := mk_sstate { s_args : Z → Z; s_mem : Z → Z }.
Definition set_arg (i v : Z) (σ : sstate) : sstate :=
  mk_sstate (λ j, if decide (j = i) then v else s_args σ j) (s_mem σ).
Definition set_mem (a v : Z) (σ : sstate) : sstate :=
  mk_sstate (s_args σ) (λ x, if decide (x = a) then v else s_mem σ x).

Definition fits (z : Z) : option Z := if decide (word z) then Some z else None.
Definition binop (o a b : Z) : option Z :=
  if o =? AddOp then fits (a + b) else if o =? SubOp then fits (a - b)
  else if o =? MultOp then Some (i32 (a * b))
  else if o =? DivOp then (if decide (b = 0) then None else fits (Z.quot a b))
  else if o =? LTOp then Some (b2z (a <? b)) else if o =? GTOp then Some (b2z (b <? a))
  else if o =? EQOp then Some (b2z (a =? b)) else if o =? NEOp then Some (b2z (negb (a =? b)))
  else if o =? LEOp then Some (b2z (a <=? b)) else Some (b2z (b <=? a)).

Section meaning.
Variable attrs : gmap (Z * Z) Z.
Variable name : Z → list Z.
(** The frame pointer, the addresses of the global variables and the addresses
    that variables may have. *)
Variable frame : Z.
Variable data : label → Z.
Variable visible : Z → bool.

Notation attr_of := (attr_of attrs).

Definition usable (a : Z) : option Z := if visible a && bool_decide (aligned a) then Some a else None.
Definition ebase (σ : sstate) (id : Z) : option Z :=
  if attr_of id KIND_ATTR =? REF_ARG then Some (s_args σ (attr_of id OFFSET_ATTR))
  else if attr_of id NEST_ATTR =? 1 then Some (data (Var (name id) id))
  else off ← fits (attr_of id OFFSET_ATTR); fits (frame - off).
(** Globals grow upwards from their label, locals downwards in the frame. *)
Definition eaddress (id base off : Z) : option Z :=
  if attr_of id NEST_ATTR =? 1 then fits (base + off) else fits (base - off).

Fixpoint eexpr (σ : sstate) (t : ast) : option Z :=
  match t with
  | TLeaf _ v => fits v
  | TExpr o l r =>
      if is_binary o then a ← eexpr σ l; b ← eexpr σ r; binop o a b
      else if o =? UnaryNegOp then a ← eexpr σ l; Some (i32 (a * -1))
      else if attr_of (valof l) KIND_ATTR =? VALUE_ARG then Some (s_args σ (attr_of (valof l) OFFSET_ATTR))
      else
        b ← ebase σ (valof l); off ← eselects σ 0 r; a ← eaddress (valof l) b off;
        a ← usable a; Some (s_mem σ a)
  | TNull => None
  end
with eselects (σ : sstate) (acc : Z) (t : ast) : option Z :=
  match t with
  | TExpr _ (TExpr o e _) rest =>
      acc ← (if o =? FieldOp then off ← fits (attr_of (valof e) OFFSET_ATTR); fits (acc + off)
             else i ← eexpr σ e; fits (acc + i32 (4 * i)));
      eselects σ acc rest
  | _ => Some acc
  end.
Definition evar (σ : sstate) (id : Z) (sel : ast) : option Z :=
  b ← ebase σ id; off ← eselects σ 0 sel; eaddress id b off.

(** An assignment evaluates the address, then the value. *)
Definition eassign (σ : sstate) (id : Z) (sel e : ast) : option sstate :=
  if attr_of id KIND_ATTR =? VALUE_ARG then v ← eexpr σ e; Some (set_arg (attr_of id OFFSET_ATTR) v σ)
  else a ← evar σ id sel; v ← eexpr σ e; a ← usable a; Some (set_mem a v σ).

(** Statements, and the branches of a conditional: [true] when one was taken. *)
Inductive part := Stmts | Branches.
Inductive exec : part → ast → sstate → bool → sstate → Prop :=
| exec_none p σ : exec p TNull σ false σ
| exec_assign o l a e σ σ1 σ2 b : exec Stmts l σ b σ1 →
    eassign σ1 (valof (lchild (rchild a))) (rchild (rchild a)) e = Some σ2 →
    exec Stmts (TExpr o l (TExpr AssignOp a e)) σ false σ2
| exec_if o l x y σ σ1 σ2 b taken : exec Stmts l σ b σ1 → exec Branches (TExpr IfElseOp x y) σ1 taken σ2 →
    exec Stmts (TExpr o l (TExpr IfElseOp x y)) σ false σ2
| exec_loop_end o l c body σ σ1 b : exec Stmts l σ b σ1 → eexpr σ1 c = Some 0 →
    exec Stmts (TExpr o l (TExpr LoopOp c body)) σ false σ1
| exec_loop o l c body σ σ1 σ2 σ3 b b' v : exec Stmts l σ b σ1 → eexpr σ1 c = Some v → v ≠ 0 → exec Stmts body σ1 b' σ2 →
    exec Stmts (TExpr o TNull (TExpr LoopOp c body)) σ2 false σ3 →
    exec Stmts (TExpr o l (TExpr LoopOp c body)) σ false σ3
| exec_done o l r σ σ1 : exec Branches l σ true σ1 → exec Branches (TExpr o l r) σ true σ1
| exec_then o l c body σ σ1 σ2 b v : exec Branches l σ false σ1 → eexpr σ1 c = Some v → v ≠ 0 → exec Stmts body σ1 b σ2 →
    exec Branches (TExpr o l (TExpr CommaOp c body)) σ true σ2
| exec_skip o l c body σ σ1 : exec Branches l σ false σ1 → eexpr σ1 c = Some 0 →
    exec Branches (TExpr o l (TExpr CommaOp c body)) σ false σ1
| exec_else o l x y σ σ1 σ2 b : exec Branches l σ false σ1 → exec Stmts (TExpr StmtOp x y) σ1 b σ2 →
    exec Branches (TExpr o l (TExpr StmtOp x y)) σ true σ2.

(** How many words an expression needs on the stack. *)
Fixpoint depth_e (t : ast) : Z :=
  match t with
  | TExpr o l r =>
      if is_binary o then Z.max (depth_e l) (1 + depth_e r)
      else if o =? UnaryNegOp then depth_e l
      else 2 + depth_s r
  | _ => 1
  end
with depth_s (t : ast) : Z :=
  match t with
  | TExpr _ (TExpr _ e _) rest => Z.max (depth_e e) (depth_s rest)
  | _ => 0
  end.
Fixpoint depth_st (t : ast) : Z :=
  match t with
  | TExpr _ l r =>
      Z.max (depth_st l)
        (match r with
         | TExpr o a b => Z.max (2 + depth_s (rchild (rchild a))) (Z.max (1 + depth_e a) (Z.max (1 + depth_e b) (Z.max (depth_st r) (depth_st b))))
         | _ => 0
         end)
  | _ => 0
  end.
End meaning.

(** ** Straight code *)

Definition straight (ln : line) : bool := match ln with Lbl _ | Bnez _ _ | B _ => false | _ => true end.
Fixpoint exec_seq (data : label → Z) (c : list line) (m : machine) : option machine :=
  match c with
  | [] => Some m
  | ln :: c' => m' ← exec_line [] data ln m; exec_seq data c' m'
  end.
Lemma exec_seq_app data c1 c2 m : exec_seq data (c1 ++ c2) m = m' ← exec_seq data c1 m; exec_seq data c2 m'.
Proof. revert m. induction c1 as [|ln c1 IH]; intros m; simpl; [done|]. destruct (exec_line [] data ln m); simpl; [apply IH|done]. Qed.
Lemma straight_line code data ln m m' : straight ln = true → exec_line [] data ln m = Some m' →
  exec_line code data ln m = Some m' ∧ pc m' = S (pc m).
Proof.
  intros Hs E. split; [by destruct ln|]. destruct ln; simpl in *; try discriminate; unfold checked in E; repeat case_decide; try discriminate; by injection E as <-.
Qed.
(** Straight code runs where it stands. *)
Lemma straight_run data pre c post m m' : forallb straight c = true → exec_seq data c m = Some m' → pc m = length pre →
  rtc (mstep (pre ++ c ++ post) data) m m' ∧ pc m' = length (pre ++ c).
Proof.
  revert pre m. induction c as [|ln c IH]; intros pre m Hs E Hpc; simpl in *.
  { simplify_eq. rewrite app_nil_r. by split; [apply rtc_refl|]. }
  apply andb_true_iff in Hs as [Hl Hs]. destruct (exec_line [] data ln m) as [m1|] eqn:E1; [|done]. simpl in E.
  destruct (straight_line (pre ++ ln :: c ++ post) data ln m m1 Hl E1) as [E2 Hpc1].
  destruct (IH (pre ++ [ln]) m1 Hs E) as [Hr Hpc']; [rewrite length_app; simpl; lia|].
  rewrite <-!app_assoc in Hr, Hpc'. simpl in Hr, Hpc'. split; [|done]. eapply rtc_l; [|exact Hr].
  exists ln. split; [|done]. rewrite Hpc. apply list_lookup_middle. done.
Qed.

(** What one line does to the registers and the memory. *)
Lemma rget_set r z m : r ≠ Zero → rget (rset r z m) r = z.
Proof. intros H. destruct r; simpl; by rewrite ?decide_True. Qed.
Lemma rget_set_ne q r z m : q ≠ r → rget (rset r z m) q = rget m q.
Proof. intros H. destruct q; simpl; by rewrite ?decide_False. Qed.
Lemma rget_set_lo z m q : rget (set_lo z m) q = rget m q.
Proof. done. Qed.
Lemma rget_store a z m q : rget (store a z m) q = rget m q.
Proof. done. Qed.
Lemma rget_next m q : rget (next m) q = rget m q.
Proof. done. Qed.
Lemma rget_goto n m q : rget (goto n m) q = rget m q.
Proof. done. Qed.
Lemma rget_zero m : rget m Zero = 0.
Proof. done. Qed.
Lemma lo_set_lo z m : lo (set_lo z m) = z.
Proof. done. Qed.
Lemma lo_rset r z m : lo (rset r z m) = lo m.
Proof. done. Qed.
Lemma mem_rset r z m : mem (rset r z m) = mem m.
Proof. done. Qed.
Lemma mem_set_lo z m : mem (set_lo z m) = mem m.
Proof. done. Qed.
Lemma mem_store a z m b : b = a → mem (store a z m) b = z.
Proof. intros ->. simpl. by rewrite decide_True. Qed.
Lemma mem_store_ne a z m b : b ≠ a → mem (store a z m) b = mem m b.
Proof. intros H. simpl. by rewrite decide_False. Qed.
Lemma fits_inv z v : fits z = Some v → z = v ∧ word v.
Proof. unfold fits. case_decide; [|done]. by intros [= <-]. Qed.

#[local] Hint Rewrite rget_set_lo rget_store rget_next rget_goto rget_zero lo_set_lo lo_rset mem_rset mem_set_lo Z.add_0_r : machine.
#[local] Hint Rewrite rget_set using discriminate : machine.
#[local] Hint Rewrite rget_set_ne using discriminate : machine.
#[local] Hint Rewrite mem_store mem_store_ne using lia : machine.

Section simulation.
Context (attrs : gmap (Z * Z) Z) (name : Z → list Z) (frame : Z) (data : label → Z) (visible : Z → bool).
(** The stack lies between [bot] and [top]; variables are elsewhere. *)
Context (bot top : Z).
Context (Hbot : -2147483648 ≤ bot) (Hvis : ∀ a, visible a = true → ¬ (bot ≤ a ≤ top)).
Implicit Types (σ : sstate) (m : machine).

Notation attr_of := (attr_of attrs).
Notation cexpr := (cexpr attrs name).
Notation cselects := (cselects attrs name).
Notation cvar := (cvar attrs name).
Notation cstmts := (cstmts attrs name).
Notation cif := (cif attrs name).
Notation plain := (plain attrs name).
Notation plain_selects := (plain_selects attrs name).
Notation plain_stmts := (plain_stmts attrs name).
Notation plain_if := (plain_if attrs name).
Notation eexpr := (eexpr attrs name frame data visible).
Notation eselects := (eselects attrs name frame data visible).
Notation ebase := (ebase attrs name frame data).
Notation eaddress := (eaddress attrs).
Notation evar := (evar attrs name frame data visible).
Notation eassign := (eassign attrs name frame data visible).
Notation exec := (exec attrs name frame data visible).
Notation exec_seq := (exec_seq data).

(** The machine holds the state [σ]. *)
Definition agree σ m : Prop :=
  (∀ i, rget m (A i) = s_args σ i) ∧ rget m FP = frame ∧ ∀ a, visible a = true → mem m a = s_mem σ a.
(** There are [k] free words on the stack. *)
Definition room (k : Z) m : Prop := aligned (rget m SP) ∧ bot ≤ rget m SP - 4 * k ∧ rget m SP ≤ top.
Lemma room_le k k' m : room k m → k' ≤ k → room k' m.
Proof. unfold room. intros (? & ? & ?) ?. split_and!; [done|lia|done]. Qed.

(** From [m] to [m'] the stack has grown by [k] words, and only memory from
    [bot] to [hi] and the temporaries have changed. *)
Record delta (k hi : Z) m m' : Prop := {
  delta_sp : rget m' SP = rget m SP - 4 * k;
  delta_mem a : ¬ (bot ≤ a ≤ hi) → mem m' a = mem m a;
  delta_reg r : r ≠ T0 → r ≠ T1 → r ≠ SP → rget m' r = rget m r
}.
Lemma delta_trans k1 k2 hi1 hi2 hi m1 m2 m3 : delta k1 hi1 m1 m2 → delta k2 hi2 m2 m3 → hi1 ≤ hi → hi2 ≤ hi → delta (k1 + k2) hi m1 m3.
Proof.
  intros [S1 M1 R1] [S2 M2 R2] H1 H2. split; [lia| |].
  - intros a Ha. rewrite M2, M1; [done|lia|lia].
  - intros r ???. by rewrite R2, R1.
Qed.
Lemma delta_agree k hi σ m m' : agree σ m → delta k hi m m' → hi ≤ top → agree σ m'.
Proof.
  intros (HA & HF & HM) [_ M R] Hhi. split_and!.
  - intros i. by rewrite R.
  - by rewrite R.
  - intros a Ha. rewrite M; [by apply HM|]. pose proof (Hvis a Ha). lia.
Qed.

(** [runs c m P]: straight code [c] runs from [m] to a state with [P]. *)
Definition runs (c : list line) m (P : machine → Prop) : Prop := ∃ m', exec_seq c m = Some m' ∧ P m'.
Lemma runs_nil m (P : machine → Prop) : P m → runs [] m P.
Proof. intros. by exists m. Qed.
Lemma runs_cons ln c m m1 P : exec_line [] data ln m = Some m1 → runs c m1 P → runs (ln :: c) m P.
Proof. intros E (m' & E' & HP). exists m'. split; [|done]. simpl. by rewrite E. Qed.
Lemma runs_app c1 c2 m P : runs c1 m (λ m1, runs c2 m1 P) → runs (c1 ++ c2) m P.
Proof. intros (m1 & E1 & m2 & E2 & HP). exists m2. split; [|done]. rewrite exec_seq_app, E1. done. Qed.
Lemma runs_mono c m (P Q : machine → Prop) : runs c m P → (∀ m', P m' → Q m') → runs c m Q.
Proof. intros (m' & E & HP) HPQ. exists m'. by split; [|apply HPQ]. Qed.

(** Solves the conditions of a line. *)
Ltac side := unfold room, aligned, word in *; repeat match goal with H : _ ∧ _ |- _ => destruct H end; repeat split; Z.div_mod_to_equations; lia.
(** Reads what is known of the memory, from facts [∀ x, x = a → mem m x = v]. *)
Ltac read := repeat match goal with H : ∀ x, x = _ → mem ?m x = _ |- context [mem ?m ?a] => rewrite (H a) by lia end.
(** Runs one line. *)
Ltac line :=
  eapply runs_cons; [cbn [exec_line]; unfold checked; autorewrite with machine; read; rewrite ?decide_True by side; reflexivity|].
(** A register the code does not touch. *)
Ltac keep := repeat first [rewrite rget_set_ne by done | rewrite rget_store | rewrite rget_set_lo].
Ltac finish := apply runs_nil; autorewrite with machine.

(** [m'] is [m] with [v] pushed. *)
Definition pushed (v : Z) m m' : Prop := delta 1 (rget m SP) m m' ∧ mem m' (rget m SP) = v.
Lemma push_runs r m : room 1 m → runs (push r) m (pushed (rget m r) m).
Proof.
  intros Hr. unfold push. line. line. finish. split; [split|]; autorewrite with machine.
  - lia.
  - intros a Ha. autorewrite with machine. rewrite mem_store_ne; [done|side].
  - intros q ???. by rewrite rget_set_ne.
  - done.
Qed.

(** What was pushed can be taken back into a temporary. *)
Definition popped (k : Z) m m' : Prop := rget m' SP = rget m SP + 4 * k ∧ mem m' = mem m ∧ ∀ q, q ≠ T0 → q ≠ T1 → q ≠ SP → rget m' q = rget m q.
Lemma delta_weaken k hi hi' m m' : delta k hi m m' → hi ≤ hi' → delta k hi' m m'.
Proof. intros [S M R] H. split; [done| |done]. intros a Ha. apply M. lia. Qed.
Lemma delta_room k hi j m m' : room j m → delta k hi m m' → 0 ≤ k ≤ j → room (j - k) m'.
Proof. intros Hr [HS _ _] Hk. unfold room in *. rewrite HS. side. Qed.

(** ** Expressions *)

(** The value of an expression is pushed. *)
Definition expr_runs (t : ast) : Prop := ∀ σ m v, plain t = true → agree σ m → eexpr σ t = Some v → room (depth_e t) m →
  runs (cexpr t) m (pushed v m).
(** Selectors are added to the word on top of the stack. *)
Definition selects_runs (t : ast) : Prop := ∀ σ m acc v, plain_selects t = true → agree σ m → eselects σ acc t = Some v → room (depth_s t) m →
  aligned (rget m SP + 4) → rget m SP + 4 ≤ top → mem m (rget m SP + 4) = acc →
  runs (cselects t) m (λ m', delta 0 (rget m SP + 4) m m' ∧ mem m' (rget m SP + 4) = v).

(** Two expressions, one above the other. *)
Lemma pushed_room k v m m' : room k m → 1 ≤ k → pushed v m m' → room (k - 1) m'.
Proof. intros Hr Hk [Hd _]. eapply delta_room; [done..|lia]. Qed.
Lemma pushed_agree σ v m m' : room 0 m → agree σ m → pushed v m m' → agree σ m'.
Proof. intros Hr Ha [Hd _]. eapply delta_agree; [done..|]. side. Qed.
Lemma depth_pos t : 0 ≤ depth_s t ∧ 1 ≤ depth_e t.
Proof.
  clear. induction t as [|k v|o l [IHl1 IHl2] r [IHr1 IHr2]]; simpl; [lia|lia|].
  split; [destruct l; cbn [depth_s depth_e] in *; lia|]. repeat case_match; lia.
Qed.
Lemma expr_pair l r σ m a b : expr_runs l → expr_runs r → plain l = true → plain r = true → agree σ m →
  eexpr σ l = Some a → eexpr σ r = Some b → room (Z.max (depth_e l) (1 + depth_e r)) m →
  runs (cexpr l ++ cexpr r) m (λ m', delta 2 (rget m SP) m m' ∧ mem m' (rget m SP) = a ∧ mem m' (rget m SP - 4) = b).
Proof.
  intros Hl Hr Pl Pr Hag El Er Hroom. pose proof (depth_pos l) as [_ Dl]. pose proof (depth_pos r) as [_ Dr].
  apply runs_app. eapply runs_mono; [apply (Hl σ m a); [done|done|done|eapply room_le; [exact Hroom|lia]]|].
  intros m1 H1. pose proof (pushed_room _ _ _ _ Hroom ltac:(lia) H1) as Hroom1.
  eapply runs_mono; [apply (Hr σ m1 b); [done| |done|eapply room_le; [exact Hroom1|lia]]|].
  { eapply pushed_agree; [eapply room_le; [exact Hroom|lia]|done..]. }
  intros m2 [D2 M2]. destruct H1 as [D1 M1]. pose proof (delta_sp _ _ _ _ D1) as S1. rewrite S1 in *. split_and!.
  - eapply (delta_trans 1 1); [exact D1|exact D2|lia|lia].
  - rewrite (delta_mem _ _ _ _ D2); [done|lia].
  - done.
Qed.

Lemma op_runs o a b v m : binop o a b = Some v → rget m T0 = a → rget m T1 = b → is_binary o = true →
  runs (op_lines o) m (λ m', rget m' T0 = v ∧ mem m' = mem m ∧ ∀ q, q ≠ T0 → rget m' q = rget m q).
Proof.
  unfold binop, op_lines. intros E H0 H1 Ho.
  repeat match type of E with (if ?b then _ else _) = _ => destruct b eqn:?; [|] end.
  all: try (apply fits_inv in E as [<- Hw]).
  all: try (injection E as <-).
  all: try (line; finish; split_and!; [by rewrite ?H0, ?H1|done|intros q Hq; by rewrite rget_set_ne]).
  - done.
  - assert (rget m T1 ≠ 0) as Hb by congruence. eapply runs_cons; [cbn [exec_line]; rewrite decide_False by done; unfold checked; rewrite H0, H1; by rewrite decide_True by done|].
    line. finish. split_and!; [done|done|intros q Hq; by rewrite rget_set_ne].

Qed.
Lemma binary_runs o l r σ m a b v : expr_runs l → expr_runs r → plain l = true → plain r = true → agree σ m → is_binary o = true →
  eexpr σ l = Some a → eexpr σ r = Some b → binop o a b = Some v → room (Z.max (depth_e l) (1 + depth_e r)) m →
  runs (cexpr l ++ cexpr r ++ binary_lines o) m (pushed v m).
Proof.
  intros Hl Hr Pl Pr Hag Ho El Er E Hroom. rewrite app_assoc. apply runs_app. 
  eapply runs_mono; [by apply (expr_pair l r σ m a b)|]. intros m1 ([S1 M1 R1] & Ma & Mb).
  assert (∀ x, x = rget m SP → mem m1 x = a) as Ha by by intros ? ->.
  assert (∀ x, x = rget m SP - 4 → mem m1 x = b) as Hb by by intros ? ->.
  pose proof (depth_pos l) as [_ ?]. pose proof (depth_pos r) as [_ ?]. unfold binary_lines, pop. cbn [app].
  line. line. line. apply runs_app. eapply runs_mono; [apply (op_runs o a b v); [done|by autorewrite with machine; read|by autorewrite with machine; read|done]|].
  intros m2 (V2 & M2 & R2). autorewrite with machine in M2.
  assert (rget m2 SP = rget m SP - 4) as S2. { rewrite R2 by done. autorewrite with machine. lia. }
  line. finish. split; [split|]; autorewrite with machine.
  - lia.
  - intros x Hx. rewrite mem_store_ne by side. rewrite M2. autorewrite with machine. apply M1. lia.
  - intros q ???. keep. rewrite R2 by done. keep. by apply R1.
  - done.
Qed.
Lemma neg_runs l σ m a : expr_runs l → plain l = true → agree σ m → eexpr σ l = Some a → room (depth_e l) m →
  runs (cexpr l ++ neg_lines) m (pushed (i32 (a * -1)) m).
Proof.
  intros Hl Pl Hag El Hroom. apply runs_app. eapply runs_mono; [by apply (Hl σ m a)|]. intros m1 ([S1 M1 R1] & Ma).
  assert (∀ x, x = rget m SP → mem m1 x = a) as Ha by by intros ? ->. pose proof (depth_pos l) as [_ ?].
  unfold neg_lines. line. line. line. line. line. finish. split; [split|]; autorewrite with machine; read.
  - lia.
  - intros x Hx. rewrite mem_store_ne by side. autorewrite with machine. apply M1. lia.
  - intros q ???. keep. by apply R1.
  - done.
Qed.

(** ** Variables *)

(** The registers other than the temporaries are kept. *)
Definition in_t0 (v : Z) m m' : Prop := rget m' T0 = v ∧ mem m' = mem m ∧ ∀ q, q ≠ T0 → q ≠ T1 → rget m' q = rget m q.
Lemma base_runs id σ m b : agree σ m → ebase σ id = Some b → runs (base_lines attrs name id) m (in_t0 b m).
Proof.
  intros (HA & HF & _). unfold ebase, base_lines, in_t0. destruct (attr_of id KIND_ATTR =? REF_ARG).
  { intros [= <-]. line. finish. split_and!; [apply HA|done|intros; by keep]. }
  destruct (attr_of id NEST_ATTR =? 1).
  { intros [= <-]. line. finish. split_and!; [done|done|intros; by keep]. }
  destruct (fits (attr_of id OFFSET_ATTR)) as [off|] eqn:E; [|done]. apply fits_inv in E as [<- Hw]. simpl.
  intros [<- Hw2]%fits_inv. line. line. rewrite <-HF in Hw2. line. finish. rewrite HF. split_and!; [done|done|intros; by keep].
Qed.
(** The base address and a zero are pushed. *)
Lemma base_pushed id σ m b : agree σ m → ebase σ id = Some b → room 2 m →
  runs (base_lines attrs name id ++ push T0 ++ push Zero) m (λ m', delta 2 (rget m SP) m m' ∧ mem m' (rget m SP) = b ∧ mem m' (rget m SP - 4) = 0).
Proof.
  intros Hag E Hroom. apply runs_app. eapply runs_mono; [by apply (base_runs id σ m b)|]. intros m1 (V & M1 & R1).
  assert (rget m1 SP = rget m SP) as S1 by by apply R1. unfold push. cbn [app].
  line. line. line. line. finish. rewrite V. split; [split|split]; autorewrite with machine.
  - lia.
  - intros x Hx. rewrite !mem_store_ne by side. autorewrite with machine. rewrite mem_store_ne by side. by rewrite M1.
  - intros q ???. keep. by apply R1.
  - done.
  - done.
Qed.

(** [m'] is [m] with the word above the stack pointer set to [v]. *)
Definition topped (v : Z) m m' : Prop := delta 0 (rget m SP + 4) m m' ∧ mem m' (rget m SP + 4) = v.
Lemma field_runs id m acc off v : room 0 m → aligned (rget m SP + 4) → mem m (rget m SP + 4) = acc →
  fits (attr_of id OFFSET_ATTR) = Some off → fits (acc + off) = Some v → runs (field_lines attrs id) m (topped v m).
Proof.
  intros Hroom Hal Hm [<- Hw]%fits_inv [<- Hw2]%fits_inv.
  assert (∀ x, x = rget m SP + 4 → mem m x = acc) as Ha by by intros ? ->.
  unfold field_lines. line. line. line. line. finish. split; [split|]; autorewrite with machine.
  - lia.
  - intros x Hx. rewrite mem_store_ne by side. done.
  - intros q ???. by keep.
  - done.
Qed.
Lemma index_runs e σ m acc i v : expr_runs e → plain e = true → agree σ m → eexpr σ e = Some i → room (depth_e e) m →
  aligned (rget m SP + 4) → mem m (rget m SP + 4) = acc → fits (acc + i32 (4 * i)) = Some v →
  runs (cexpr e ++ index_lines) m (topped v m).
Proof.
  intros He Pe Hag Ee Hroom Hal Hm [<- Hw]%fits_inv. apply runs_app.
  eapply runs_mono; [by apply (He σ m i)|]. intros m1 ([S1 M1 R1] & Mi). pose proof (depth_pos e) as [_ ?].
  assert (∀ x, x = rget m SP → mem m1 x = i) as Hi by by intros ? ->.
  assert (∀ x, x = rget m SP + 4 → mem m1 x = acc) as Ha. { intros ? ->. rewrite M1; [done|lia]. }
  unfold index_lines, pop. cbn [app]. line. line. line. line. line. line. line. line. finish.
  split; [split|]; autorewrite with machine.
  - lia.
  - intros x Hx. rewrite mem_store_ne by side. autorewrite with machine. apply M1. lia.
  - intros q ???. keep. by apply R1.
  - done.
Qed.
Lemma topped_agree σ v m m' : rget m SP + 4 ≤ top → agree σ m → topped v m m' → agree σ m'.
Proof. intros Ht Hag [Hd _]. by eapply delta_agree. Qed.

Lemma eselects_eq σ acc o o' e r rest : eselects σ acc (TExpr o (TExpr o' e r) rest) =
  acc' ← (if o' =? FieldOp then off ← fits (attr_of (valof e) OFFSET_ATTR); fits (acc + off)
          else i ← eexpr σ e; fits (acc + i32 (4 * i)));
  eselects σ acc' rest.
Proof. done. Qed.
Lemma selects_step o o' e r' rest : expr_runs e → selects_runs rest → selects_runs (TExpr o (TExpr o' e r') rest).
Proof.
  intros He IH σ m acc v Hp Hag E Hroom Hal Ht Hm. rewrite eselects_eq in E. cbn [plain_selects depth_s] in *.
  apply andb_true_iff in Hp as [Hp1 Hp2]. pose proof (depth_pos e) as [_ De]. pose proof (depth_pos rest) as [Ds _].
  set (next := if o' =? FieldOp then _ else _) in E. destruct next as [acc'|] eqn:En; [|done]. subst next. simpl in E.
  assert (runs (if o' =? FieldOp then field_lines attrs (valof e) else cexpr e ++ index_lines) m (topped acc' m)) as Hstep.
  { destruct (o' =? FieldOp).
    - destruct (fits (attr_of (valof e) OFFSET_ATTR)) as [off|] eqn:Eo; [|done]. simpl in En. eapply field_runs; [eapply room_le; [exact Hroom|lia]|done..].
    - apply andb_true_iff in Hp1 as [_ Pe]. destruct (eexpr σ e) as [i|] eqn:Ei; [|done]. simpl in En.
      eapply index_runs; [done..|eapply room_le; [exact Hroom|lia]|done|done|done]. }
  cbn [cselects]. apply runs_app. eapply runs_mono; [exact Hstep|]. intros m1 [D1 M1].
  pose proof (delta_sp _ _ _ _ D1) as S1. replace (rget m SP - 4 * 0) with (rget m SP) in S1 by lia.
  eapply runs_mono; [apply (IH σ m1 acc' v); rewrite ?S1; [done| |done| |done|done|done]|].
  { eapply delta_agree; [done|exact D1|lia]. }
  { replace (depth_s rest) with (depth_s rest - 0) by lia. eapply delta_room; [eapply room_le; [exact Hroom|lia]|exact D1|lia]. }
  rewrite S1. intros m2 [D2 M2]. split; [|done]. eapply (delta_trans 0 0); [exact D1|exact D2|lia|lia].
Qed.

(** The address of a variable is pushed. *)
Lemma var_runs id sel σ m a : selects_runs sel → plain_selects sel = true → agree σ m → evar σ id sel = Some a →
  plain_var attrs id = true → room (2 + depth_s sel) m → runs (cvar id sel) m (pushed a m).
Proof.
  intros IH Ps Hag E Hv Hroom. unfold evar in E. destruct (ebase σ id) as [b|] eqn:Eb; [|done]. simpl in E.
  destruct (eselects σ 0 sel) as [off|] eqn:Eo; [|done]. simpl in E. pose proof (depth_pos sel) as [Ds _].
  unfold cvar. rewrite !app_assoc, <-(app_assoc _ (push T0)), <-(app_assoc _ (cselects sel)). apply runs_app.
  eapply runs_mono; [apply (base_pushed id σ m b); [done..|eapply room_le; [exact Hroom|lia]]|]. intros m1 (D1 & Mb & M0).
  pose proof (delta_sp _ _ _ _ D1) as S1. apply runs_app.
  eapply runs_mono; [apply (IH σ m1 0 off); rewrite ?S1; [done| |done| | | |]|].
  { eapply delta_agree; [done|exact D1|side]. }
  { replace (depth_s sel) with (2 + depth_s sel - 2) by lia. eapply delta_room; [exact Hroom|exact D1|lia]. }
  { side. }
  { side. }
  { rewrite <-M0. f_equal. lia. }
  rewrite S1. intros m2 [D2 M2]. destruct (delta_trans 2 0 _ _ (rget m SP) _ _ _ D1 D2) as [S3 M3 R3]; [lia|lia|].
  assert (∀ x, x = rget m SP → mem m2 x = b) as Hb. { intros ? ->. rewrite (delta_mem _ _ _ _ D2); [done|lia]. }
  assert (∀ x, x = rget m SP - 4 → mem m2 x = off) as Ho. { intros ? ->. rewrite <-M2. f_equal. lia. }
  unfold add_base, pop. cbn [app]. unfold eaddress in E.
  destruct (attr_of id NEST_ATTR =? 1); apply fits_inv in E as [<- Hw]; (line; line; line; line; line; finish; split; [split|]; autorewrite with machine;
   [lia|intros x Hx; rewrite mem_store_ne by side; autorewrite with machine; apply M3; lia|intros q ???; keep; by apply R3|done]).
Qed.

Lemma eexpr_eq σ o l r : eexpr σ (TExpr o l r) =
  if is_binary o then a ← eexpr σ l; b ← eexpr σ r; binop o a b
  else if o =? UnaryNegOp then a ← eexpr σ l; Some (i32 (a * -1))
  else if attr_of (valof l) KIND_ATTR =? VALUE_ARG then Some (s_args σ (attr_of (valof l) OFFSET_ATTR))
  else a ← evar σ (valof l) r; a ← usable visible a; Some (s_mem σ a).
Proof. simpl. repeat case_match; try done. unfold evar. destruct (ebase σ (valof l)); [|done]. simpl. by destruct (eselects σ 0 r). Qed.
Lemma depth_eq o l r : depth_e (TExpr o l r) =
  if is_binary o then Z.max (depth_e l) (1 + depth_e r) else if o =? UnaryNegOp then depth_e l else 2 + depth_s r.
Proof. done. Qed.
Lemma usable_inv a b : usable visible a = Some b → a = b ∧ visible a = true ∧ aligned a.
Proof. unfold usable. intros E. destruct (visible a); [|done]. simpl in E. case_bool_decide; [|done]. by injection E as <-. Qed.

Lemma load_runs id r σ m a v : selects_runs r → plain_selects r = true → plain_var attrs id = true → agree σ m →
  evar σ id r = Some a → usable visible a = Some v → room (2 + depth_s r) m → runs (cvar id r ++ load_lines) m (pushed (s_mem σ v) m).
Proof.
  intros IH Ps Hv Hag E (<- & Hvi & Hal)%usable_inv Hroom. apply runs_app. pose proof (depth_pos r) as [Ds _].
  eapply runs_mono; [by apply (var_runs id r σ m a)|]. intros m1 [D1 Ma]. pose proof D1 as [S1 M1 R1].
  assert (∀ x, x = rget m SP → mem m1 x = a) as Ha by by intros ? ->.
  assert (∀ x, x = a → mem m1 x = s_mem σ a) as Hsa.
  { intros ? ->. assert (agree σ m1) as (_ & _ & HM); [eapply delta_agree; [done|exact D1|side]|by apply HM]. }
  unfold load_lines. line. line. line. finish. split; [split|]; autorewrite with machine; read.
  - lia.
  - intros x Hx. rewrite mem_store_ne by side. autorewrite with machine. apply M1. lia.
  - intros q ???. keep. by apply R1.
  - done.
Qed.

Lemma plain_eq o l r : plain (TExpr o l r) =
  if is_binary o then plain l && plain r
  else if o =? UnaryNegOp then plain l
  else (o =? VarOp) && plain_symbol name l && plain_var attrs (valof l) && plain_selects r.
Proof. done. Qed.
Lemma cexpr_eq o l r : cexpr (TExpr o l r) =
  if is_binary o then cexpr l ++ cexpr r ++ binary_lines o
  else if o =? UnaryNegOp then cexpr l ++ neg_lines
  else if attr_of (valof l) KIND_ATTR =? VALUE_ARG then push (A (attr_of (valof l) OFFSET_ATTR))
  else cvar (valof l) r ++ load_lines.
Proof.
  unfold CodegenSpec.cvar. cbn [CodegenSpec.cexpr]. destruct (is_binary o); [done|]. destruct (o =? UnaryNegOp); [done|].
  destruct (_ =? VALUE_ARG); [done|]. by rewrite <-!app_assoc.
Qed.

Lemma expressions_step o l r : expr_runs l → expr_runs r → selects_runs r → expr_runs (TExpr o l r).
Proof.
  intros Hl Hr Hs σ m v Hp Hag E Hroom. rewrite cexpr_eq. rewrite plain_eq in Hp. rewrite eexpr_eq in E. rewrite depth_eq in Hroom.
  destruct (is_binary o) eqn:Ho.
  { apply andb_true_iff in Hp as [Pl Pr]. destruct (eexpr σ l) as [a|] eqn:El; [|done]. destruct (eexpr σ r) as [b|] eqn:Er; [|done].
    by apply (binary_runs o l r σ m a b v). }
  destruct (o =? UnaryNegOp).
  { destruct (eexpr σ l) as [a|] eqn:El; [|done]. injection E as <-. by apply (neg_runs l σ m a). }
  rewrite !andb_true_iff in Hp. destruct Hp as [[_ Hv] Ps]. pose proof (depth_pos r) as [Ds _].
  destruct (attr_of (valof l) KIND_ATTR =? VALUE_ARG).
  { injection E as <-. destruct Hag as (HA & _). rewrite <-HA. apply push_runs. eapply room_le; [exact Hroom|lia]. }
  destruct (evar σ (valof l) r) as [a|] eqn:Ea; [|done]. simpl in E. destruct (usable visible a) as [a'|] eqn:Eu; [|done].
  injection E as <-. by apply (load_runs (valof l) r σ m a a').
Qed.
Lemma leaf_runs k v : expr_runs (TLeaf k v).
Proof.
  intros σ m w _ Hag [<- Hw]%fits_inv Hroom. cbn [cexpr app].
  line. eapply runs_mono; [apply push_runs|].
  { unfold room in *. by autorewrite with machine. }
  intros m1 [D1 M1]. autorewrite with machine in *. split; [|done]. destruct D1 as [S1 M R]. autorewrite with machine in *.
  split; [done|done|]. intros q ???. rewrite R by done. by keep.
Qed.

(** The code of an expression computes it, in the stack space [depth_e] says. *)
Lemma expressions_simulated t : expr_runs t ∧ selects_runs t.
Proof.
  cut (∀ n t, (height t ≤ n)%nat → expr_runs t ∧ selects_runs t); [intros H; by apply (H (height t))|].
  clear t. induction n as [|n IH]; intros t Hn; [destruct t; simpl in Hn; lia|].
  destruct t as [|k v|o l r].
  - split; [by intros σ m v Hp|]. intros σ m acc v _ Hag [= <-] Hroom Hal Ht Hm. apply runs_nil. split; [|done]. split; [lia|done|done].
  - split; [apply leaf_runs|]. by intros σ m acc w Hp.
  - simpl in Hn. destruct (IH l ltac:(lia)) as [Hl Hls], (IH r ltac:(lia)) as [Hr Hrs]. split; [by apply expressions_step|].
    destruct l as [|k v|o' e r']; [by intros σ m acc w Hp..|]. simpl in Hn. apply selects_step; [|done]. apply (IH e). lia.
Qed.

(** ** Statements *)

Lemma op_straight o : forallb straight (op_lines o) = true.
Proof. unfold op_lines. by repeat case_match. Qed.
Lemma base_straight id : forallb straight (base_lines attrs name id) = true.
Proof. unfold base_lines. by repeat case_match. Qed.
Lemma add_straight id : forallb straight (add_base attrs id) = true.
Proof. unfold add_base. by destruct (_ =? 1). Qed.
Lemma cselects_eq o o' e r rest : cselects (TExpr o (TExpr o' e r) rest) =
  (if o' =? FieldOp then field_lines attrs (valof e) else cexpr e ++ index_lines) ++ cselects rest.
Proof. done. Qed.
Lemma cexpr_straight t : forallb straight (cexpr t) = true ∧ forallb straight (cselects t) = true ∧ forallb straight (cexpr (lchild t)) = true.
Proof.
  induction t as [|k v|o l (IHl1 & IHl2 & IHl3) r (IHr1 & IHr2 & IHr3)]; [done..|]. split_and!; [| |exact IHl1].
  - rewrite cexpr_eq. destruct (is_binary o); [unfold binary_lines; by rewrite !forallb_app, IHl1, IHr1, op_straight|].
    destruct (o =? UnaryNegOp); [by rewrite forallb_app, IHl1|]. destruct (_ =? VALUE_ARG); [done|].
    unfold cvar. by rewrite !forallb_app, base_straight, IHr2, add_straight.
  - destruct l as [|k v|o' e r']; [done..|]. rewrite cselects_eq. cbn [lchild] in IHl3. rewrite forallb_app, IHr2, andb_true_r.
    destruct (o' =? FieldOp); [done|]. rewrite forallb_app. by rewrite IHl3.
Qed.
Lemma cvar_straight id sel : forallb straight (cvar id sel) = true.
Proof. unfold cvar. destruct (cexpr_straight sel) as (_ & H & _). by rewrite !forallb_app, base_straight, H, add_straight. Qed.
Lemma assign_straight id sel e : forallb straight (assign_lines attrs name id sel e) = true.
Proof.
  destruct (cexpr_straight e) as (H & _ & _). unfold assign_lines.
  destruct (_ =? VALUE_ARG); rewrite !forallb_app, H; [done|]. by rewrite cvar_straight.
Qed.

Lemma assign_runs id sel e σ σ' m : plain_selects sel = true → plain_var attrs id = true → plain e = true → agree σ m →
  eassign σ id sel e = Some σ' → room (Z.max (2 + depth_s sel) (1 + depth_e e)) m →
  runs (assign_lines attrs name id sel e) m (λ m', agree σ' m' ∧ rget m' SP = rget m SP).
Proof.
   intros Ps Hv Pe Hag. unfold eassign, assign_lines. pose proof (depth_pos e) as [_ De]. pose proof (depth_pos sel) as [Ds _].
  destruct (expressions_simulated e) as [He _], (expressions_simulated sel) as [_ Hs]. destruct (_ =? VALUE_ARG).
  - destruct (eexpr σ e) as [v|] eqn:E; [|done]. intros [= <-] Hroom. apply runs_app.
    eapply runs_mono; [apply (He σ m v); [done..|eapply room_le; [exact Hroom|lia]]|]. intros m1 [D1 M1].
    destruct (delta_agree _ _ _ _ _ Hag D1 ltac:(side)) as (HA & HF & HM). destruct D1 as [S1 _ _].
    assert (∀ x, x = rget m SP → mem m1 x = v) as Hval by by intros ? ->.
    unfold pop. line. line. finish. split; [|lia]. split_and!; autorewrite with machine.
    + intros i. unfold set_arg. cbn [s_args]. case_decide as Hi.
      * rewrite Hi. keep. by rewrite rget_set.
      * rewrite !rget_set_ne by congruence. apply HA.
    + by keep.
    + done.
  - destruct (evar σ id sel) as [a|] eqn:Ea; [|done]. cbn [mbind option_bind].
    destruct (eexpr σ e) as [v|] eqn:Ev; [|done]. cbn [mbind option_bind].
    destruct (usable visible a) as [a'|] eqn:Eu; [|done]. intros [= <-] Hroom. apply usable_inv in Eu as (<- & Hvi & Hal).
    apply runs_app. eapply runs_mono; [apply (var_runs id sel σ m a); [done..|eapply room_le; [exact Hroom|lia]]|]. intros m1 [D1 M1].
    assert (agree σ m1) as Hag1 by (eapply delta_agree; [done|exact D1|side]).
    assert (room (depth_e e) m1) as Hroom1.
    { replace (depth_e e) with (1 + depth_e e - 1) by lia. eapply delta_room; [eapply room_le; [exact Hroom|]|exact D1|]; lia. }
    apply runs_app. eapply runs_mono; [by apply (He σ m1 v)|]. intros m2 [D2 M2].
    destruct (delta_agree _ _ _ _ _ Hag1 D2) as (HA & HF & HM); [destruct D1 as [S1 _ _]; side|].
    pose proof (delta_sp _ _ _ _ D1) as S1. pose proof (delta_sp _ _ _ _ D2) as S2. rewrite S1 in *.
    assert (∀ x, x = rget m SP - 4 → mem m2 x = v) as Hval. { intros ? ->. rewrite <-M2. done. }
    assert (∀ x, x = rget m SP → mem m2 x = a) as Ha. { intros ? ->. rewrite (delta_mem _ _ _ _ D2); [done|lia]. }
    unfold pop. cbn [app]. line. line. line. line. line. finish. split; [|lia]. split_and!; autorewrite with machine.
    + intros i. keep. apply HA.
    + by keep.
    + intros x Hx. cbn [mem set_mem s_mem store]. rewrite ?Z.add_0_r. case_decide; [done|]. by apply HM.
Qed.

(** ** Labels *)

(** The numbered labels a piece of code defines. *)
Definition labels (c : list line) : list Z := omap (λ ln, match ln with Lbl (L k) => Some k | _ => None end) c.
Definition between (n n' : Z) (c : list line) : Prop := n ≤ n' ∧ NoDup (labels c) ∧ ∀ k, k ∈ labels c → n ≤ k < n'.
Lemma labels_app c1 c2 : labels (c1 ++ c2) = labels c1 ++ labels c2.
Proof. apply omap_app. Qed.
Lemma straight_labels c : forallb straight c = true → labels c = [].
Proof. induction c as [|ln c IH]; [done|]. simpl. intros [Hl Hc]%andb_true_iff. unfold labels in *. simpl. rewrite IH by done. by destruct ln. Qed.
Lemma find_label_at k p q i : k ∉ labels p → find_label (L k) (p ++ Lbl (L k) :: q) i = Some (i + length p)%nat.
Proof.
  revert i. induction p as [|ln p IH]; intros i Hk; simpl.
  - rewrite decide_True by done. f_equal. lia.
  - assert (k ∉ labels p) as Hp. { intros H. apply Hk. unfold labels in *. simpl. destruct ln; try done. destruct l; try done. by right. }
    assert (ln ≠ Lbl (L k)) as Hl. { intros ->. apply Hk. unfold labels. simpl. by left. }
    rewrite (IH (S i) Hp). destruct ln; try (f_equal; lia). rewrite decide_False by congruence. f_equal. lia.
Qed.
Lemma between_nil n n' : n ≤ n' → between n n' [].
Proof. intros. split_and!; [done|constructor|]. intros k Hk. by apply elem_of_nil in Hk. Qed.
Lemma between_straight n c : forallb straight c = true → between n n c.
Proof. intros H. unfold between. rewrite (straight_labels c H). by apply between_nil. Qed.
Lemma between_weaken n n' lo hi c : between n n' c → lo ≤ n → n' ≤ hi → between lo hi c.
Proof. intros (? & ? & H) ??. split_and!; [lia|done|]. intros k Hk. specialize (H k Hk). lia. Qed.
Lemma between_one n n' k : n ≤ k < n' → between n n' [Lbl (L k)].
Proof. intros. split_and!; [lia|apply NoDup_singleton|]. intros x Hx. change (x ∈ [k]) in Hx. apply list_elem_of_singleton in Hx. lia. Qed.
(** Pieces with different labels may stand one after the other. *)
Lemma between_app n n' c1 c2 : between n n' c1 → between n n' c2 → (∀ k, k ∈ labels c1 → k ∉ labels c2) → between n n' (c1 ++ c2).
Proof.
  intros (H1 & N1 & B1) (_ & N2 & B2) Hd. unfold between. rewrite labels_app. split_and!; [done| |].
  - by apply NoDup_app.
  - intros k [Hk|Hk]%elem_of_app; auto.
Qed.
Lemma between_seq n1 n2 n3 c1 c2 : between n1 n2 c1 → between n2 n3 c2 → between n1 n3 (c1 ++ c2).
Proof.
  intros H1 H2. pose proof H1 as (? & _ & B1). pose proof H2 as (? & _ & B2).
  apply between_app; [eapply between_weaken; [done|lia..]|eapply between_weaken; [done|lia..]|]. intros k Hk Hk2. specialize (B1 k Hk). specialize (B2 k Hk2). lia.
Qed.
Lemma branch_labels t f : labels (branch_lines t f) = [t].
Proof. done. Qed.
Lemma between_cons_b n n' l c : between n n' c → between n n' (B l :: c).
Proof. done. Qed.
Lemma between_branch n n' t f : n ≤ t < n' → between n n' (branch_lines t f).
Proof. apply (between_one n n' t). Qed.

(** The labels of the code of a statement are its own, each at one place. *)
Lemma cif_else o l a b next n : cif (TExpr o l (TExpr StmtOp a b)) next n =
  let '(c, n') := cif l next (n + 2) in let '(c', n'') := cstmts (TExpr StmtOp a b) n' in (c ++ c' ++ [B (L next)], n'').
Proof. done. Qed.
Definition own_labels (t : ast) : Prop :=
  (∀ n, between n (cstmts t n).2 (cstmts t n).1) ∧
  (∀ next n, n ≤ (cif t next n).2 ∧ between n (cif t next n).2 (cif t next n).1).
Lemma labels_loop n n' a c : between (n + 3) n' c →
  between n n' ([Lbl (L n)] ++ cexpr a ++ branch_lines (n + 1) (n + 2) ++ c ++ [B (L n); Lbl (L (n + 2))]).
Proof.
  intros H. pose proof H as (Hn & _ & Bc). destruct (cexpr_straight a) as [Ha _].
  apply between_seq with (n + 1); [apply between_one; lia|]. apply between_seq with (n + 1); [by apply between_straight|].
  apply between_seq with (n + 2); [apply between_branch; lia|]. apply between_app.
  - eapply between_weaken; [done|lia..].
  - apply between_cons_b, between_one. lia.
  - intros k Hk Hk2. change (k ∈ [n + 2]) in Hk2. apply list_elem_of_singleton in Hk2. specialize (Bc k Hk). lia.
Qed.
Lemma labels_branch n n1 n2 next a c c' : between (n + 2) n1 c → between n1 n2 c' →
  between n n2 (c ++ cexpr a ++ branch_lines n (n + 1) ++ c' ++ [B (L next); Lbl (L (n + 1))]).
Proof.
  intros H1 H2. pose proof H1 as (Hn1 & _ & B1). pose proof H2 as (Hn2 & _ & B2). destruct (cexpr_straight a) as [Ha _].
  assert (between n n2 (branch_lines n (n + 1) ++ c' ++ [B (L next); Lbl (L (n + 1))])) as H.
  { apply between_seq with (n + 1); [apply between_branch; lia|]. apply between_app.
    - eapply between_weaken; [done|lia..].
    - apply between_cons_b, between_one. lia.
    - intros k Hk Hk2. change (k ∈ [n + 1]) in Hk2. apply list_elem_of_singleton in Hk2. specialize (B2 k Hk). lia. }
  rewrite app_assoc. apply between_app; [|done|].
  - eapply between_weaken; [apply between_seq with n1; [exact H1|by apply between_straight]|lia..].
  - intros k. rewrite !labels_app, (straight_labels _ Ha), branch_labels, app_nil_r. intros Hk. specialize (B1 k Hk).
    change (labels [B (L next); Lbl (L (n + 1))]) with [n + 1]. rewrite !elem_of_app, !list_elem_of_singleton.
    intros [?|[Hk2|?]]; [lia| |lia]. specialize (B2 k Hk2). lia.
Qed.
Lemma own_labels_all t : own_labels t.
Proof.
  cut (∀ n t, (height t ≤ n)%nat → own_labels t); [intros H; by apply (H (height t))|].
  clear t. induction n as [|k IH]; intros t Hn; [destruct t; simpl in Hn; lia|].
  destruct t as [|kd v|o l r]; [split; intros; split_and?; try apply between_nil; simpl; lia..|]. simpl in Hn.
  destruct (IH l ltac:(lia)) as [Ls Li]. split.
  - intros n. rewrite cstmts_eq. specialize (Ls n). destruct (cstmts l n) as [c n1]. cbn [fst snd] in Ls.
    destruct r as [|kd v|o' a b]; [done..|]. destruct (o' =? AssignOp).
    { apply between_seq with n1; [done|]. apply between_straight, assign_straight. }
    destruct (o' =? IfElseOp).
    { destruct (IH (TExpr o' a b) ltac:(lia)) as [_ Hi]. destruct (Hi n1 (n1 + 1)) as [_ H]. destruct (cif (TExpr o' a b) n1 (n1 + 1)) as [c' n2].
      cbn [fst snd] in *. pose proof H as (? & _ & Bc). apply between_seq with n1; [done|]. apply between_app.
      - eapply between_weaken; [done|lia..].
      - apply between_one. lia.
      - intros x Hx Hx2. change (x ∈ [n1]) in Hx2. apply list_elem_of_singleton in Hx2. specialize (Bc x Hx). lia. }
    destruct (o' =? LoopOp); [|done]. simpl in Hn. destruct (IH b ltac:(lia)) as [Hb _]. specialize (Hb (n1 + 3)).
    destruct (cstmts b (n1 + 3)) as [c' n2]. cbn [fst snd] in *. apply between_seq with n1; [done|]. by apply labels_loop.
  - intros next n. rewrite cif_eq. destruct (Li next (n + 2)) as [Hle Hl]. destruct (cif l next (n + 2)) as [c n1]. cbn [fst snd] in *.
    assert (between n n1 c) as Hc by (eapply between_weaken; [done|lia..]).
    destruct r as [|kd v|o' a b]; [cbn [fst snd]; split; [lia|done]..|]. destruct (o' =? CommaOp).
    { simpl in Hn. destruct (IH b ltac:(lia)) as [Hb _]. specialize (Hb n1). destruct (cstmts b n1) as [c' n2]. cbn [fst snd] in *.
      pose proof Hb as (? & _). split; [lia|]. by apply labels_branch with n1. }
    destruct (o' =? StmtOp); [|cbn [fst snd]; split; [lia|done]]. destruct (IH (TExpr o' a b) ltac:(lia)) as [Hb _]. specialize (Hb n1).
    destruct (cstmts (TExpr o' a b) n1) as [c' n2]. cbn [fst snd] in *. pose proof Hb as (? & _). split; [lia|].
    apply between_seq with n1; [done|]. apply between_seq with n2; [done|]. apply between_cons_b, between_nil. lia.
Qed.

(** ** Running statements *)

(** From [m] the code reaches position [e] with state [σ'] and the stack where it was. *)
Definition arrives (code : list line) m (e : nat) σ' : Prop :=
  ∃ m', rtc (mstep code data) m m' ∧ pc m' = e ∧ agree σ' m' ∧ rget m' SP = rget m SP.
Lemma arrives_trans code m e σ1 e' σ' : arrives code m e σ1 →
  (∀ m1, pc m1 = e → agree σ1 m1 → rget m1 SP = rget m SP → arrives code m1 e' σ') → arrives code m e' σ'.
Proof.
  intros (m1 & R1 & E1 & A1 & S1) H. destruct (H m1 E1 A1 S1) as (m2 & R2 & E2 & A2 & S2).
  exists m2. split_and!; [by etrans|done|done|congruence].
Qed.
Lemma arrives_here code m σ : agree σ m → arrives code m (pc m) σ.
Proof. intros H. exists m. by split_and!; [apply rtc_refl|..]. Qed.
Lemma arrives_runs code pre c post m σ' : code = pre ++ c ++ post → forallb straight c = true → pc m = length pre →
  runs c m (λ m', agree σ' m' ∧ rget m' SP = rget m SP) → arrives code m (length (pre ++ c)) σ'.
Proof. intros -> Hs Hpc (m' & E & Ha & S). destruct (straight_run data pre c post m m' Hs E Hpc) as [Hr Hpc']. by exists m'. Qed.
Lemma step_at code pre ln post m m' : code = pre ++ ln :: post → pc m = length pre → exec_line code data ln m = Some m' → mstep code data m m'.
Proof. intros -> Hpc E. exists ln. split; [|done]. rewrite Hpc. by apply list_lookup_middle. Qed.
Lemma arrives_label code pre l post m σ : code = pre ++ Lbl l :: post → pc m = length pre → agree σ m → arrives code m (length pre + 1) σ.
Proof.
  intros Hc Hpc Ha. exists (next m). split_and!; [eapply rtc_once, step_at; done|simpl; lia|done|done].
Qed.
Lemma arrives_jump code pre l post m σ e : code = pre ++ B l :: post → pc m = length pre → find_label l code 0 = Some e →
  agree σ m → arrives code m e σ.
Proof.
  intros Hc Hpc Hf Ha. exists (goto e m). split_and!; [|done|done|done]. eapply rtc_once, step_at; [done|done|]. simpl. by rewrite Hf.
Qed.

Lemma arrives_branch code p t f post m σ e : code = p ++ [Bnez T0 (L t); B (L f); Lbl (L t)] ++ post → t ∉ labels p → pc m = length p →
  agree σ m → find_label (L f) code 0 = Some e → arrives code m (if rget m T0 =? 0 then e else (length p + 3)%nat) σ.
Proof.
  intros Hc Ht Hpc Ha Hf. assert (code = (p ++ [Bnez T0 (L t)]) ++ B (L f) :: [Lbl (L t)] ++ post) as Hc1 by by rewrite Hc, <-app_assoc.
  assert (code = (p ++ [Bnez T0 (L t); B (L f)]) ++ Lbl (L t) :: post) as Hc2 by by rewrite Hc, <-app_assoc.
  assert (find_label (L t) code 0 = Some (length p + 2)%nat) as Hft.
  { rewrite Hc2, find_label_at; [by rewrite length_app|]. rewrite labels_app. change (labels [Bnez T0 (L t); B (L f)]) with (@nil Z). by rewrite app_nil_r. }
  assert (∀ m1, exec_line code data (Bnez T0 (L t)) m = Some m1 → mstep code data m m1) as Hstep by (intros m1; by apply (step_at code p _ _ m m1 Hc)).
  cbn [exec_line] in Hstep. destruct (rget m T0 =? 0).
  - apply (arrives_trans code m (length p + 1) σ). { exists (next m). split_and!; [by apply rtc_once, Hstep|simpl; lia|done|done]. }
    intros m1 P1 A1 _. eapply arrives_jump; [exact Hc1|rewrite length_app; simpl; lia|done|done].
  - rewrite Hft in Hstep. apply (arrives_trans code m (length p + 2) σ).
    { exists (goto (length p + 2) m). split_and!; [by apply rtc_once, Hstep|done|done|done]. }
    intros m1 P1 A1 _. replace (length p + 3)%nat with (length (p ++ [Bnez T0 (L t); B (L f)]) + 1)%nat by (rewrite length_app; simpl; lia).
    eapply arrives_label; [exact Hc2|rewrite length_app; simpl; lia|done].
Qed.

(** A condition: the code that follows is reached when it is not zero, the
    false label otherwise. *)
Lemma arrives_cond code pre c t f post m σ v e : code = pre ++ cexpr c ++ branch_lines t f ++ post → t ∉ labels pre → pc m = length pre →
  plain c = true → agree σ m → eexpr σ c = Some v → room (1 + depth_e c) m → find_label (L f) code 0 = Some e →
  arrives code m (if v =? 0 then e else length (pre ++ cexpr c ++ branch_lines t f)) σ.
Proof.
  intros Hc Ht Hpc Pc Hag E Hroom Hf. destruct (expressions_simulated c) as [Hx _]. destruct (cexpr_straight c) as [Hs _]. pose proof (depth_pos c) as [_ Dc].
  assert (runs (cexpr c ++ pop T0) m (λ m', agree σ m' ∧ rget m' SP = rget m SP ∧ rget m' T0 = v)) as (m1 & E1 & A1 & S1 & V1).
  { apply runs_app. eapply runs_mono; [apply (Hx σ m v); [done..|eapply room_le; [exact Hroom|lia]]|]. intros m1 [D1 M1].
    destruct (delta_agree _ _ _ _ _ Hag D1 ltac:(side)) as (HA & HF & HM). destruct D1 as [S1 _ _].
    assert (∀ x, x = rget m SP → mem m1 x = v) as Hv by by intros ? ->. unfold pop. line. line. finish. split_and!; [|lia|done].
    split_and!; autorewrite with machine; [intros i; keep; apply HA|by keep|done]. }
  destruct (straight_run data pre (cexpr c ++ pop T0) ([Bnez T0 (L t); B (L f); Lbl (L t)] ++ post) m m1) as [R1 P1]; [by rewrite forallb_app, Hs|done|done|].
  assert (code = (pre ++ cexpr c ++ pop T0) ++ [Bnez T0 (L t); B (L f); Lbl (L t)] ++ post) as Hc1.
  { rewrite Hc. unfold branch_lines. by rewrite <-!app_assoc. }
  rewrite app_assoc, <-Hc1 in R1.
  replace (length (pre ++ cexpr c ++ branch_lines t f)) with (length (pre ++ cexpr c ++ pop T0) + 3)%nat.
  2:{ unfold branch_lines. rewrite !length_app. simpl. lia. }
  destruct (arrives_branch code (pre ++ cexpr c ++ pop T0) t f post m1 σ e) as (m2 & R2 & P2 & A2 & S2); [done| |done..|].
  { rewrite !labels_app, (straight_labels _ Hs). change (labels (pop T0)) with (@nil Z). by rewrite app_nil_r. }
  rewrite V1 in P2. exists m2. split_and!; [by etrans|done|done|congruence].
Qed.

Definition below (n : Z) (pre : list line) : Prop := ∀ k, k ∈ labels pre → k < n.
Lemma below_app n n' pre c : below n pre → between n n' c → below n' (pre ++ c).
Proof. intros Hb (Hn & _ & Hc) k. rewrite labels_app, elem_of_app. intros [H|H]; [specialize (Hb k H); lia|specialize (Hc k H); lia]. Qed.
Lemma below_weaken n n' pre : below n pre → n ≤ n' → below n' pre.
Proof. intros H ? k Hk. specialize (H k Hk). lia. Qed.
Lemma below_straight n pre c : below n pre → forallb straight c = true → below n (pre ++ c).
Proof. intros Hb Hc. eapply below_app; [done|by apply between_straight]. Qed.
Lemma room_at k k' m m' : room k m → rget m' SP = rget m SP → k' ≤ k → room k' m'.
Proof. unfold room. intros (? & ? & ?) ->. intros. split_and!; [done|lia|done]. Qed.
Lemma depth_st_eq o l r : depth_st (TExpr o l r) =
  Z.max (depth_st l)
    (match r with
     | TExpr o a b => Z.max (2 + depth_s (rchild (rchild a))) (Z.max (1 + depth_e a) (Z.max (1 + depth_e b) (Z.max (depth_st r) (depth_st b))))
     | _ => 0
     end).
Proof. done. Qed.
Lemma cstmts_between t n : between n (cstmts t n).2 (cstmts t n).1.
Proof. apply own_labels_all. Qed.
Lemma cif_between t next n : between n (cif t next n).2 (cif t next n).1.
Proof. apply own_labels_all. Qed.

(** What is shown of each run: from the start of the code to its end, or to the
    label after the conditional when a branch was taken. *)
Definition stmts_arrive (t : ast) σ σ' : Prop := ∀ n code pre post m,
  plain_stmts t = true → code = pre ++ (cstmts t n).1 ++ post → below n pre → pc m = length pre → agree σ m → room (depth_st t) m →
  arrives code m (length (pre ++ (cstmts t n).1)) σ'.
Definition branches_arrive (t : ast) σ (taken : bool) σ' : Prop := ∀ next n code pre post m e,
  plain_if t = true → code = pre ++ (cif t next n).1 ++ post → below n pre → find_label (L next) code 0 = Some e → pc m = length pre →
  agree σ m → room (depth_st t) m →
  arrives code m (if taken then e else length (pre ++ (cif t next n).1)) σ'.

(** The statements before the last one run first. *)
Lemma cstmts_seq o l r n : cstmts (TExpr o l r) n =
  ((cstmts l n).1 ++ (cstmts (TExpr o TNull r) (cstmts l n).2).1, (cstmts (TExpr o TNull r) (cstmts l n).2).2).
Proof.
  rewrite !cstmts_eq. destruct (cstmts l n) as [c n1]. cbn [fst snd]. change (cstmts TNull n1) with (@nil line, n1). cbn beta iota.
  destruct r as [|k v|o' a b]; [by rewrite app_nil_r..|]. destruct (o' =? AssignOp); [done|].
  destruct (o' =? IfElseOp); [by destruct (cif _ _ _)|]. destruct (o' =? LoopOp); [by destruct (cstmts _ _)|]. by rewrite app_nil_r.
Qed.
Lemma stmts_before o l r σ σ1 σ' : stmts_arrive l σ σ1 →
  (∀ n code pre post m, plain_stmts (TExpr o TNull r) = true → code = pre ++ (cstmts (TExpr o TNull r) n).1 ++ post → below n pre → pc m = length pre →
     agree σ1 m → room (depth_st (TExpr o TNull r)) m → arrives code m (length (pre ++ (cstmts (TExpr o TNull r) n).1)) σ') →
  stmts_arrive (TExpr o l r) σ σ'.
Proof.
  intros Hl Hr n code pre post m Hp Hc Hb Hpc Hag Hroom. pose proof (cstmts_between l n) as Hbl.
  rewrite cstmts_seq in *. destruct (cstmts l n) as [c n1] eqn:E1. cbn [fst snd] in *. destruct (cstmts (TExpr o TNull r) n1) as [c2 n2] eqn:E2.
  cbn [fst] in *. rewrite plain_stmts_eq in Hp. apply andb_true_iff in Hp as [Pl Pr].
  rewrite depth_st_eq in Hroom. rewrite <-app_assoc in Hc.
  apply (arrives_trans code m (length (pre ++ c)) σ1).
  { specialize (Hl n code pre (c2 ++ post) m Pl). rewrite E1 in Hl. apply Hl; try done. eapply room_le; [exact Hroom|lia]. }
  intros m1 P1 A1 S1. rewrite app_assoc. specialize (Hr n1 code (pre ++ c) post m1). rewrite E2 in Hr.
  apply Hr; [by rewrite plain_stmts_eq|by rewrite <-app_assoc|by eapply below_app|done|done|].
  rewrite depth_st_eq. change (depth_st TNull) with 0. eapply room_at; [exact Hroom|done|]. destruct r; [lia..|]. pose proof (depth_pos r1); lia.
Qed.

Lemma assign_arrives o l a e σ σ1 σ2 : stmts_arrive l σ σ1 →
  eassign σ1 (valof (lchild (rchild a))) (rchild (rchild a)) e = Some σ2 → stmts_arrive (TExpr o l (TExpr AssignOp a e)) σ σ2.
Proof.
  intros Hl E. eapply stmts_before; [done|]. intros n code pre post m Hp Hc Hb Hpc Hag Hroom. rewrite cstmts_eq in *.
  rewrite plain_stmts_eq in Hp. rewrite depth_st_eq in Hroom. cbn [fst Z.eqb Pos.eqb AssignOp CodegenSpec.cstmts CodegenSpec.plain_stmts andb] in *.
  rewrite app_nil_l in *. destruct a as [|k v|oa la [|k v|ov s0 sel]]; [done..|]. unfold plain_assign in Hp. rewrite !andb_true_iff in Hp.
  destruct Hp as [[[_ Hv] Ps] Pe]. cbn [rchild lchild] in *.
  eapply arrives_runs; [exact Hc|apply assign_straight|done|]. eapply assign_runs; [done..|]. eapply room_le; [exact Hroom|lia].
Qed.
Lemma if_arrives o l x y σ σ1 σ2 taken : stmts_arrive l σ σ1 → branches_arrive (TExpr IfElseOp x y) σ1 taken σ2 →
  stmts_arrive (TExpr o l (TExpr IfElseOp x y)) σ σ2.
Proof.
  intros Hl Hi. eapply stmts_before; [done|]. intros n code pre post m Hp Hc Hb Hpc Hag Hroom. rewrite cstmts_eq in *.
  rewrite plain_stmts_eq in Hp. rewrite depth_st_eq in Hroom. cbn [fst Z.eqb Pos.eqb AssignOp IfElseOp andb] in *.
  change (cstmts TNull n) with (@nil line, n) in *. change (plain_stmts TNull) with true in Hp. cbn [andb] in Hp. cbn beta iota zeta in *.
  pose proof (cif_between (TExpr IfElseOp x y) n (n + 1)) as Hbi. specialize (Hi n (n + 1) code pre).
  destruct (cif (TExpr IfElseOp x y) n (n + 1)) as [c n2]. cbn [fst snd] in *. rewrite app_nil_l in *.
  assert (code = (pre ++ c) ++ Lbl (L n) :: post) as Hc2 by by rewrite Hc, <-!app_assoc.
  assert (find_label (L n) code 0 = Some (length (pre ++ c))) as Hf.
  { rewrite Hc2, find_label_at; [done|]. rewrite labels_app, elem_of_app. destruct Hbi as (_ & _ & Bi).
    intros [H|H]; [specialize (Hb n H)|specialize (Bi n H)]; lia. }
  apply (arrives_trans code m (length (pre ++ c)) σ2).
  - specialize (Hi ([Lbl (L n)] ++ post) m (length (pre ++ c)) Hp). destruct taken; (apply Hi; [by rewrite Hc2, <-app_assoc|eapply below_weaken; [done|lia]|done|done|done|eapply room_le; [exact Hroom|lia]]).
  - intros m1 P1 A1 S1. rewrite app_assoc. replace (length ((pre ++ c) ++ [Lbl (L n)])) with (length (pre ++ c) + 1)%nat by (rewrite !length_app; simpl; lia).
    by eapply arrives_label.
Qed.

(** A loop from its first label: either it ends, or its body runs once and it
    starts again. *)
Definition loop_lines (c body : ast) (n : Z) : list line :=
  [Lbl (L n)] ++ cexpr c ++ branch_lines (n + 1) (n + 2) ++ (cstmts body (n + 3)).1 ++ [B (L n); Lbl (L (n + 2))].
Lemma loop_eq o c body n : (cstmts (TExpr o TNull (TExpr LoopOp c body)) n).1 = loop_lines c body n.
Proof. rewrite cstmts_eq. unfold loop_lines. cbn [Z.eqb Pos.eqb AssignOp IfElseOp LoopOp CodegenSpec.cstmts]. by destruct (CodegenSpec.cstmts attrs name body (n + 3)). Qed.
Lemma loop_labels c body n code pre post : code = pre ++ loop_lines c body n ++ post → below n pre →
  find_label (L n) code 0 = Some (length pre) ∧
  find_label (L (n + 2)) code 0 = Some (length (pre ++ [Lbl (L n)] ++ cexpr c ++ branch_lines (n + 1) (n + 2) ++ (cstmts body (n + 3)).1 ++ [B (L n)])).
Proof.
  intros Hc Hb. destruct (cexpr_straight c) as [Hs _]. pose proof (cstmts_between body (n + 3)) as (_ & _ & Bb). unfold loop_lines in Hc. split.
  - rewrite Hc. cbn [app]. apply (find_label_at n pre _ 0). intros H. specialize (Hb n H). lia.
  - assert (code = (pre ++ [Lbl (L n)] ++ cexpr c ++ branch_lines (n + 1) (n + 2) ++ (cstmts body (n + 3)).1 ++ [B (L n)]) ++ Lbl (L (n + 2)) :: post) as Hc2.
    { rewrite Hc. cbn [app]. by rewrite <-?app_assoc; cbn [app]; rewrite <-?app_assoc; cbn [app]; rewrite <-?app_assoc. }
    rewrite Hc2 at 1. rewrite find_label_at; [done|]. rewrite !labels_app, (straight_labels _ Hs), branch_labels, !elem_of_app.
    change (labels [Lbl (L n)]) with [n]. change (labels [B (L n)]) with (@nil Z). rewrite !list_elem_of_singleton, !elem_of_nil.
    intros [H|[H|[[]|[H|[H|[]]]]]]; [specialize (Hb _ H); lia|lia|lia|specialize (Bb _ H); lia].
Qed.
Lemma loop_test c body n code pre post m σ v : code = pre ++ loop_lines c body n ++ post → below n pre → pc m = length pre → plain c = true →
  agree σ m → room (1 + depth_e c) m → eexpr σ c = Some v →
  arrives code m (if v =? 0 then length (pre ++ loop_lines c body n) else length (pre ++ [Lbl (L n)] ++ cexpr c ++ branch_lines (n + 1) (n + 2))) σ.
Proof.
  intros Hc Hb Hpc Pc Hag Hroom E. destruct (loop_labels c body n code pre post Hc Hb) as [_ Hf].
  set (e := length (pre ++ [Lbl (L n)] ++ cexpr c ++ branch_lines (n + 1) (n + 2) ++ (cstmts body (n + 3)).1 ++ [B (L n)])) in *.
  apply (arrives_trans code m (length pre + 1) σ).
  { eapply arrives_label; [unfold loop_lines in Hc; exact Hc|done|done]. }
  intros m1 P1 A1 S1.
  assert (arrives code m1 (if v =? 0 then e else length ((pre ++ [Lbl (L n)]) ++ cexpr c ++ branch_lines (n + 1) (n + 2))) σ) as H.
  { eapply arrives_cond; [rewrite Hc; unfold loop_lines; rewrite <-?app_assoc; cbn [app]; rewrite <-?app_assoc; cbn [app]; rewrite <-?app_assoc; reflexivity| | |done|done|done|by eapply room_at|done].
    - rewrite labels_app, elem_of_app. change (labels [Lbl (L n)]) with [n]. rewrite list_elem_of_singleton. intros [H|H]; [specialize (Hb _ H)|]; lia.
    - rewrite length_app. simpl. lia. }
  destruct (v =? 0); [|by rewrite <-app_assoc in H].
  apply (arrives_trans code m1 e σ); [done|]. intros m2 P2 A2 S2.
  replace (length (pre ++ loop_lines c body n)) with (e + 1)%nat by (unfold e, loop_lines; rewrite !length_app; simpl; lia).
  eapply arrives_label; [|exact P2|done]. rewrite Hc. unfold loop_lines. rewrite <-?app_assoc. cbn [app]. rewrite <-?app_assoc. cbn [app]. rewrite <-?app_assoc. reflexivity.
Qed.

Lemma plain_loop o c body : plain_stmts (TExpr o TNull (TExpr LoopOp c body)) = true → plain c = true ∧ plain_stmts body = true.
Proof. rewrite plain_stmts_eq. cbn [Z.eqb Pos.eqb AssignOp IfElseOp LoopOp andb]. rewrite !andb_true_iff. tauto. Qed.
Lemma depth_loop o c body : 1 + depth_e c ≤ depth_st (TExpr o TNull (TExpr LoopOp c body)) ∧ depth_st body ≤ depth_st (TExpr o TNull (TExpr LoopOp c body)).
Proof. rewrite depth_st_eq. lia. Qed.
Lemma loop_end_arrives o l c body σ σ1 : stmts_arrive l σ σ1 → eexpr σ1 c = Some 0 → stmts_arrive (TExpr o l (TExpr LoopOp c body)) σ σ1.
Proof.
  intros Hl E. eapply stmts_before; [done|]. intros n code pre post m Hp Hc Hb Hpc Hag Hroom.
  destruct (plain_loop _ _ _ Hp) as [Pc _], (depth_loop o c body) as [Dc _]. rewrite loop_eq in *.
  eapply (loop_test c body n code pre post m σ1 0); [done..|eapply room_le; [exact Hroom|lia]|done].
Qed.
Lemma loop_again_arrives o l c body σ σ1 σ2 σ3 v : stmts_arrive l σ σ1 → eexpr σ1 c = Some v → v ≠ 0 → stmts_arrive body σ1 σ2 →
  stmts_arrive (TExpr o TNull (TExpr LoopOp c body)) σ2 σ3 → stmts_arrive (TExpr o l (TExpr LoopOp c body)) σ σ3.
Proof.
  intros Hl E Hv Hbody Hagain. eapply stmts_before; [done|]. intros n code pre post m Hp Hc Hb Hpc Hag Hroom.
  destruct (plain_loop _ _ _ Hp) as [Pc Pb], (depth_loop o c body) as [Dc Db]. rewrite loop_eq in *.
  pose proof (loop_test c body n code pre post m σ1 v Hc Hb Hpc Pc Hag) as H. rewrite (proj2 (Z.eqb_neq v 0) Hv) in H.
  eapply arrives_trans; [apply H; [eapply room_le; [exact Hroom|lia]|done]|]. clear H. intros m1 P1 A1 S1.
  destruct (cexpr_straight c) as [Hs _]. set (pre2 := pre ++ [Lbl (L n)] ++ cexpr c ++ branch_lines (n + 1) (n + 2)) in *.
  assert (below (n + 3) pre2) as Hb2.
  { intros k. unfold pre2. rewrite !labels_app, (straight_labels _ Hs), branch_labels, !elem_of_app. change (labels [Lbl (L n)]) with [n].
    rewrite !list_elem_of_singleton. intros [H|[?|[H|?]]]; [specialize (Hb k H); lia|lia|by apply elem_of_nil in H|lia]. }
  assert (code = pre2 ++ (cstmts body (n + 3)).1 ++ B (L n) :: Lbl (L (n + 2)) :: post) as Hc2.
  { rewrite Hc. unfold loop_lines, pre2. by rewrite <-?app_assoc; cbn [app]; rewrite <-?app_assoc; cbn [app]; rewrite <-?app_assoc. }
  eapply arrives_trans; [apply (Hbody (n + 3) code pre2 _ m1 Pb Hc2 Hb2 P1 A1); by eapply room_at|]. intros m2 P2 A2 S2.
  destruct (loop_labels c body n code pre post Hc Hb) as [Hf _].
  eapply arrives_trans; [eapply arrives_jump; [rewrite Hc2, app_assoc; reflexivity|done|exact Hf|done]|]. intros m3 P3 A3 S3.
  specialize (Hagain n code pre post m3 Hp). rewrite loop_eq in Hagain. apply Hagain; try done. eapply room_at; [exact Hroom|congruence|lia].
Qed.

(** Branches. *)
Lemma branches_before o l r σ b σ1 next n code pre post m e c' n' : branches_arrive l σ b σ1 → plain_if (TExpr o l r) = true →
  cif (TExpr o l r) next n = ((cif l next (n + 2)).1 ++ c', n') → code = pre ++ (cif (TExpr o l r) next n).1 ++ post → below n pre →
  find_label (L next) code 0 = Some e → pc m = length pre → agree σ m → room (depth_st (TExpr o l r)) m →
  arrives code m (if b then e else length (pre ++ (cif l next (n + 2)).1)) σ1.
Proof.
  intros Hl Hp E Hc Hb Hf Hpc Hag Hroom. rewrite E in Hc. cbn [fst] in Hc. rewrite <-app_assoc in Hc. rewrite plain_if_eq in Hp.
  apply andb_true_iff in Hp as [Pl _]. rewrite depth_st_eq in Hroom.
  eapply Hl; [done|exact Hc|eapply below_weaken; [done|lia]|done|done|done|]. eapply room_le; [exact Hroom|lia].
Qed.
Lemma cif_before o l r next n : ∃ c' n', cif (TExpr o l r) next n = ((cif l next (n + 2)).1 ++ c', n').
Proof.
  rewrite cif_eq. destruct (cif l next (n + 2)) as [c n1]. cbn [fst]. destruct r as [|k v|o' a b]; [exists [], n1; by rewrite app_nil_r..|].
  destruct (o' =? CommaOp); [destruct (cstmts b n1); by do 2 eexists|]. destruct (o' =? StmtOp); [destruct (cstmts _ n1); by do 2 eexists|].
  exists [], n1. by rewrite app_nil_r.
Qed.
Lemma done_arrives o l r σ σ1 : branches_arrive l σ true σ1 → branches_arrive (TExpr o l r) σ true σ1.
Proof.
  intros Hl next n code pre post m e Hp Hc Hb Hf Hpc Hag Hroom. destruct (cif_before o l r next n) as (c' & n' & E).
  by eapply (branches_before o l r σ true).
Qed.
Lemma comma_eq o l c body next n : cif (TExpr o l (TExpr CommaOp c body)) next n =
  ((cif l next (n + 2)).1 ++ cexpr c ++ branch_lines n (n + 1) ++ (cstmts body (cif l next (n + 2)).2).1 ++ [B (L next); Lbl (L (n + 1))],
   (cstmts body (cif l next (n + 2)).2).2).
Proof. rewrite cif_eq. destruct (cif l next (n + 2)) as [c1 n1]. cbn [Z.eqb Pos.eqb CommaOp fst snd]. by destruct (cstmts body n1). Qed.
Lemma plain_comma o l c body : plain_if (TExpr o l (TExpr CommaOp c body)) = true → plain c = true ∧ plain_stmts body = true.
Proof. rewrite plain_if_eq. cbn [Z.eqb Pos.eqb CommaOp]. rewrite !andb_true_iff. tauto. Qed.
(** The tree and the code of a branch with a condition, and where it stands. *)
Lemma branch_test o l c body σ σ1 v next n code pre post m e : branches_arrive l σ false σ1 → eexpr σ1 c = Some v →
  plain_if (TExpr o l (TExpr CommaOp c body)) = true → code = pre ++ (cif (TExpr o l (TExpr CommaOp c body)) next n).1 ++ post → below n pre →
  find_label (L next) code 0 = Some e → pc m = length pre → agree σ m → room (depth_st (TExpr o l (TExpr CommaOp c body))) m →
  arrives code m (if v =? 0 then length (pre ++ (cif (TExpr o l (TExpr CommaOp c body)) next n).1)
                  else length (pre ++ (cif l next (n + 2)).1 ++ cexpr c ++ branch_lines n (n + 1))) σ1.
Proof.
  intros Hl E Hp Hc Hb Hf Hpc Hag Hroom. destruct (plain_comma _ _ _ _ Hp) as [Pc Pb].
  eapply arrives_trans; [eapply (branches_before o l _ σ false); [done|done|apply comma_eq|done..]|]. intros m1 P1 A1 S1.
  pose proof (cif_between l next (n + 2)) as Hbl. rewrite comma_eq in *. cbn [fst snd] in *. destruct (cif l next (n + 2)) as [c1 n1].
  cbn [fst snd] in *. pose proof (cstmts_between body n1) as Hbb. set (c2 := (cstmts body n1).1) in *.
  destruct (cexpr_straight c) as [Hs _]. pose proof Hbl as (Hn1 & _ & Bl). pose proof Hbb as (_ & _ & Bb).
  set (pos := length (pre ++ c1 ++ cexpr c ++ branch_lines n (n + 1) ++ c2 ++ [B (L next)])).
  assert (code = (pre ++ c1 ++ cexpr c ++ branch_lines n (n + 1) ++ c2 ++ [B (L next)]) ++ Lbl (L (n + 1)) :: post) as Hc2.
  { rewrite Hc. by rewrite <-?app_assoc; cbn [app]; rewrite <-?app_assoc; cbn [app]; rewrite <-?app_assoc. }
  assert (find_label (L (n + 1)) code 0 = Some pos) as Hft.
  { rewrite Hc2, find_label_at; [done|]. rewrite !labels_app, (straight_labels _ Hs), branch_labels, !elem_of_app.
    change (labels [B (L next)]) with (@nil Z). rewrite !list_elem_of_singleton, !elem_of_nil.
    intros [H|[H|[[]|[H|[H|[]]]]]]; [specialize (Hb _ H); lia|specialize (Bl _ H); lia|lia|specialize (Bb _ H); lia]. }
  rewrite depth_st_eq in Hroom.
  assert (arrives code m1 (if v =? 0 then pos else length ((pre ++ c1) ++ cexpr c ++ branch_lines n (n + 1))) σ1) as H.
  { eapply arrives_cond; [rewrite Hc; rewrite <-?app_assoc; reflexivity| |done|done|done|done| |done].
    - rewrite labels_app, elem_of_app. intros [H|H]; [specialize (Hb _ H)|specialize (Bl _ H)]; lia.
    - eapply room_at; [exact Hroom|done|lia]. }
  destruct (v =? 0); [|by rewrite <-app_assoc in H]. apply (arrives_trans code m1 pos σ1); [done|]. intros m2 P2 A2 S2.
  match goal with |- arrives _ _ ?q _ => replace q with (pos + 1)%nat by (unfold pos; rewrite !length_app; simpl; lia) end.
  eapply arrives_label; [exact Hc2|exact P2|done].
Qed.
Lemma skip_arrives o l c body σ σ1 : branches_arrive l σ false σ1 → eexpr σ1 c = Some 0 →
  branches_arrive (TExpr o l (TExpr CommaOp c body)) σ false σ1.
Proof. intros Hl E next n code pre post m e Hp Hc Hb Hf Hpc Hag Hroom. by eapply (branch_test o l c body σ σ1 0). Qed.
Lemma then_arrives o l c body σ σ1 σ2 v : branches_arrive l σ false σ1 → eexpr σ1 c = Some v → v ≠ 0 → stmts_arrive body σ1 σ2 →
  branches_arrive (TExpr o l (TExpr CommaOp c body)) σ true σ2.
Proof.
  intros Hl E Hv Hbody next n code pre post m e Hp Hc Hb Hf Hpc Hag Hroom. destruct (plain_comma _ _ _ _ Hp) as [Pc Pb].
  pose proof (branch_test o l c body σ σ1 v next n code pre post m e Hl E Hp Hc Hb Hf Hpc Hag Hroom) as H. rewrite (proj2 (Z.eqb_neq v 0) Hv) in H.
  eapply arrives_trans; [exact H|]. clear H. intros m1 P1 A1 S1. pose proof (cif_between l next (n + 2)) as (Hn1 & _ & Bl).
  rewrite comma_eq in Hc. cbn [fst] in Hc. destruct (cif l next (n + 2)) as [c1 n1]. cbn [fst snd] in *. destruct (cexpr_straight c) as [Hs _].
  set (pre2 := pre ++ c1 ++ cexpr c ++ branch_lines n (n + 1)) in *.
  assert (code = pre2 ++ (cstmts body n1).1 ++ B (L next) :: Lbl (L (n + 1)) :: post) as Hc2.
  { rewrite Hc. unfold pre2. by rewrite <-?app_assoc; cbn [app]; rewrite <-?app_assoc; cbn [app]; rewrite <-?app_assoc. }
  assert (below n1 pre2) as Hb2.
  { intros k. unfold pre2. rewrite !labels_app, (straight_labels _ Hs), branch_labels, !elem_of_app, list_elem_of_singleton, elem_of_nil.
    intros [H|[H|[[]|?]]]; [specialize (Hb k H); lia|specialize (Bl k H); lia|lia]. }
  rewrite depth_st_eq in Hroom.
  eapply arrives_trans; [apply (Hbody n1 code pre2 _ m1 Pb Hc2 Hb2 P1 A1); eapply room_at; [exact Hroom|done|lia]|].
  intros m2 P2 A2 S2. eapply arrives_jump; [rewrite Hc2, app_assoc; reflexivity|done|done|done].
Qed.
Lemma else_arrives o l x y σ σ1 σ2 : branches_arrive l σ false σ1 → stmts_arrive (TExpr StmtOp x y) σ1 σ2 →
  branches_arrive (TExpr o l (TExpr StmtOp x y)) σ true σ2.
Proof.
  intros Hl Hbody next n code pre post m e Hp Hc Hb Hf Hpc Hag Hroom. rename next into k.
  assert (cif (TExpr o l (TExpr StmtOp x y)) k n = ((cif l k (n + 2)).1 ++ (cstmts (TExpr StmtOp x y) (cif l k (n + 2)).2).1 ++ [B (L k)],
     (cstmts (TExpr StmtOp x y) (cif l k (n + 2)).2).2)) as E.
  { rewrite cif_else. destruct (cif l k (n + 2)) as [c1 n1]. cbn [fst snd]. by destruct (cstmts (TExpr StmtOp x y) n1). }
  eapply arrives_trans; [eapply (branches_before o l _ σ false); [done|done|exact E|done..]|]. intros m1 P1 A1 S1.
  pose proof (cif_between l k (n + 2)) as Hbl. rewrite E in Hc. cbn [fst] in Hc. destruct (cif l k (n + 2)) as [c1 n1]. cbn [fst snd] in *.
  rewrite plain_if_eq in Hp. cbn [Z.eqb Pos.eqb CommaOp StmtOp andb] in Hp. apply andb_true_iff in Hp as [_ Pb].
  assert (code = (pre ++ c1) ++ (cstmts (TExpr StmtOp x y) n1).1 ++ B (L k) :: post) as Hc2 by (rewrite Hc; by rewrite <-?app_assoc).
  rewrite depth_st_eq in Hroom.
  eapply arrives_trans; [eapply (Hbody n1 code (pre ++ c1)); [done|exact Hc2| |done|done|eapply room_at; [exact Hroom|done|]]|].
  - eapply below_app; [eapply below_weaken; [exact Hb|]|exact Hbl]. lia.
  - lia.
  - intros m2 P2 A2 S2. eapply arrives_jump; [rewrite Hc2, app_assoc; reflexivity|done|done|done].
Qed.

Lemma exec_arrives p t σ b σ' : exec p t σ b σ' →
  match p with Stmts => stmts_arrive t σ σ' | Branches => branches_arrive t σ b σ' end.
Proof.
  induction 1 as [p σ|o l a e σ σ1 σ2 b _ IH E|o l x y σ σ1 σ2 b taken _ IHl _ IHi|o l c body σ σ1 b _ IH E|o l c body σ σ1 σ2 σ3 b b' v _ IHl E Hv _ IHb _ IHn
    |o l r σ σ1 _ IH|o l c body σ σ1 σ2 b v _ IHl E Hv _ IHb|o l c body σ σ1 _ IHl E|o l x y σ σ1 σ2 b _ IHl _ IHb].
  - destruct p.
    + intros n code pre post m _ _ _ Hpc Hag _. rewrite app_nil_r, <-Hpc. by apply arrives_here.
    + intros next n code pre post m e _ _ _ _ Hpc Hag _. rewrite app_nil_r, <-Hpc. by apply arrives_here.
  - by eapply assign_arrives.
  - by eapply if_arrives.
  - by eapply loop_end_arrives.
  - by eapply loop_again_arrives.
  - by apply done_arrives.
  - by eapply then_arrives.
  - by apply skip_arrives.
  - by eapply else_arrives.
Qed.
End simulation.
