(* ===== verification/CodegenThm.v ===== *)
(** * The compiler's expressions and statements are compiled correctly

    The functions of CS2210/codegen.c write code that the machine of Mips.v
    executes as the meaning of CodegenSem.v says. *)
From S2P Require Import Prelude StrTable SymTab Tree Mips Codegen CodegenSpec CodegenSem.
Open Scope Z_scope.

(** What the generator may rely on: a tree without loose ends, attributes in
    order, the names of the symbols in the string table, and label numbers that
    the file does not have yet. *)
Record ready (g : gen) (attrs : gmap (Z * Z) Z) (C : Z → list (Z * Z * Z)) (name : Z → list Z) : Prop := {
  ready_trees : forest_ok (trees g);
  ready_attrs : attrs_ok (syms g) attrs C;
  ready_names id : st_range id → getname (strs g) (attr_of attrs id NAME_ATTR) = Some (name id);
  ready_labels : below (label_id g) (asm_file g)
}.

(** The code [c] behind [pre] does what the statements [x] mean: wherever they
    lead from a state of the variables to another one, the machine, started
    where the code was added, comes to its end with the variables so and the
    stack pointer where it was, whatever code follows, if the stack has the room
    [depth_st] and no variable is in it. *)
Definition runs_as (attrs : gmap (Z * Z) Z) (name : Z → list Z) (x : ast) (pre c : list line) : Prop :=
  ∀ frame data visible bot top σ b σ' post m,
    -2147483648 ≤ bot → (∀ a, visible a = true → ¬ (bot ≤ a ≤ top)) → exec attrs name frame data visible Stmts x σ b σ' →
    pc m = length pre → agree frame visible σ m → room bot top (depth_st x) m →
    ∃ m', rtc (mstep ((pre ++ c) ++ post) data) m m' ∧ pc m' = length (pre ++ c) ∧
      agree frame visible σ' m' ∧ rget m' SP = rget m SP.
Lemma statements_written g attrs C name fuel p x : ready g attrs C name → tree_at (trees g) p x → plain_stmts attrs name x = true →
  (3 * height x ≤ fuel)%nat →
  ∃ g' c, GenStmt fuel p g = Ret tt g' ∧ asm_file g' = asm_file g ++ c ∧ NoDup (labels c) ∧ ready g' attrs C name ∧
    runs_as attrs name x (asm_file g) c.
Proof.
  intros [Hok HA Hname Hb] Hp Hx Hf. destruct (statements_run (trees g) (syms g) (strs g) attrs C name Hok HA Hname fuel) as (H & _ & _).
  assert (static (trees g) (syms g) (strs g) g) as Hst by done. specialize (H p x g Hst Hp Hx Hf [] (label_id g)).
  rewrite <-written_nil in H. cbn [app] in H. pose proof (cstmts_between attrs name x (label_id g)) as Hbt.
  destruct (cstmts attrs name x (label_id g)) as [c n] eqn:Ec. cbn [fst snd] in *. exists (written c n g), c.
  split; [exact H|]. split; [done|]. split; [apply Hbt|]. split; [constructor; [done..|by eapply below_app]|].
  intros frame data visible bot top σ b σ' post m Hbot Hvis He Hpc Hag Hroom.
  pose proof (exec_arrives attrs name frame data visible bot top Hbot Hvis _ _ _ _ _ He) as Hs. cbn beta iota in Hs.
  specialize (Hs (label_id g) ((asm_file g ++ c) ++ post) (asm_file g) post m Hx). rewrite Ec in Hs. cbn [fst] in Hs.
  destruct Hs as (m' & R & P & A & S); [by rewrite app_assoc|done..|]. exists m'. by split_and!.
Qed.

(** C4: Statements made of assignments, conditionals and loops are compiled
    correctly.  [GenStmt] ends, adds code whose labels are all different and all
    new, and wherever the statements lead from a state of the variables to
    another one, the machine, started where the code was added, comes to its
    end with the variables so and the stack pointer where it was, whatever code
    follows, if the stack has the room [depth_st] and no variable is in it. *)
Theorem statements_compiled g attrs C name fuel p x : ready g attrs C name → tree_at (trees g) p x → plain_stmts attrs name x = true →
  (3 * height x ≤ fuel)%nat →
  ∃ g' c, GenStmt fuel p g = Ret tt g' ∧ asm_file g' = asm_file g ++ c ∧ NoDup (labels c) ∧ ready g' attrs C name ∧
    ∀ frame data visible bot top σ b σ' post m,
      -2147483648 ≤ bot → (∀ a, visible a = true → ¬ (bot ≤ a ≤ top)) → exec attrs name frame data visible Stmts x σ b σ' →
      pc m = length (asm_file g) → agree frame visible σ m → room bot top (depth_st x) m →
      ∃ m', rtc (mstep (asm_file g' ++ post) data) m m' ∧ pc m' = length (asm_file g') ∧
        agree frame visible σ' m' ∧ rget m' SP = rget m SP.
Proof.
  intros Hr Hp Hx Hf. destruct (statements_written g attrs C name fuel p x Hr Hp Hx Hf) as (g' & c & E & Ec & Hl & Hr' & H).
  exists g', c. rewrite Ec. by split_and!.
Qed.

(** The code of an expression of integers, variables and arrays ends, and
    leaves the value of the expression on the stack, the variables as they
    were. *)
Theorem expressions_compiled g attrs C name fuel p x : ready g attrs C name → tree_at (trees g) p x → plain attrs name x = true →
  (3 * height x ≤ fuel)%nat →
  ∃ g' c, GenExpression fuel p g = Ret tt g' ∧ asm_file g' = asm_file g ++ c ∧ label_id g' = label_id g ∧ ready g' attrs C name ∧
    ∀ frame data visible bot top σ v post m,
      -2147483648 ≤ bot → (∀ a, visible a = true → ¬ (bot ≤ a ≤ top)) → eexpr attrs name frame data visible σ x = Some v →
      pc m = length (asm_file g) → agree frame visible σ m → room bot top (depth_e x) m →
      ∃ m', rtc (mstep (asm_file g' ++ post) data) m m' ∧ pc m' = length (asm_file g') ∧
        agree frame visible σ m' ∧ rget m' SP = rget m SP - 4 ∧ mem m' (rget m' SP + 4) = v.
Proof.
  intros [Hok HA Hname Hb] Hp Hx Hf. destruct (expressions_run (trees g) (syms g) (strs g) attrs C name Hok HA Hname fuel) as (H & _ & _).
  assert (static (trees g) (syms g) (strs g) g) as Hst by done. specialize (H p x g Hst Hp Hx Hf). destruct (cexpr_straight attrs name x) as [Hs _].
  eexists _, (cexpr attrs name x). split; [exact H|]. split; [done|]. split; [done|]. split; [constructor; [done..|by apply below_straight]|].
  intros frame data visible bot top σ v post m Hbot Hvis E Hpc Hag Hroom.
  destruct (expressions_simulated attrs name frame data visible bot top Hbot Hvis x) as [Hr _].
  destruct (Hr σ m v Hx Hag E Hroom) as (m' & Er & D & V). destruct (straight_run data (asm_file g) _ post m m' Hs Er Hpc) as [R P].
  exists m'. cbn [asm_file put_lines]. rewrite <-app_assoc. split_and!; [done|done| | |].
  - eapply delta_agree; [done|done|exact D|apply Hroom].
  - destruct D as [S _ _]. lia.
  - destruct D as [S _ _]. rewrite S. by replace (rget m SP - 4 * 1 + 4) with (rget m SP) by lia.
Qed.

(** For the operators [and], [or] and [not] the compiler writes no code at
    all, not even for their operands: no value is pushed, and what follows
    takes a word from the stack that nobody put there. *)
Theorem logic_writes_nothing g attrs C name p o l r fuel : ready g attrs C name →
  tree_at (trees g) p (TExpr o l r) → o ∈ [AndOp; OrOp; NotOp] → GenExpression (S fuel) p g = Ret tt g.
Proof.
  intros [Hok _ _ _] Hp Ho. assert (static (trees g) (syms g) (strs g) g) as Hst by done. cbn [GenExpression].
  run (kind_run _ _ _ Hok g p _ Hst Hp). cbn [kindof Z.eqb Pos.eqb EXPRNode NUMNode].
  run (op_run _ _ _ Hok g p _ Hst Hp). cbn [opof].
  repeat (apply elem_of_cons in Ho as [->|Ho]; [done|]). by apply not_elem_of_nil in Ho.
Qed.

(** ** Witnesses *)

(** A global variable [sum], symbol 1. *)
Definition sum_strs : strtab := table_of [(id_a, 258); (id_sum, 258)].
Definition sum_ops : list op := [OOpen; OInsert 2; OSet 1 KIND_ATTR VAR].
Definition sum_scoping : scoping :=
  mk_scoping [[(2, 1)]; []] (<[(1, KIND_ATTR) := VAR]> (<[(1, NEST_ATTR) := 1]> (<[(1, NAME_ATTR) := 2]> ∅))) 1 3 [].
Definition sum_name (id : Z) : list Z := if id =? 1 then id_sum else id_a.
Lemma sum_run : run_ops spec_op sum_ops new_scoping = Ret [0; 1; 0] sum_scoping.
Proof. vm_compute. reflexivity. Qed.

(** [sum = 2; while (sum > 0) sum = sum - 1], and [sum and 0]. *)
Definition leaf (kind val : Z) : treenode := mk_treenode kind None (Some val) None None.
Definition expr (op l r : Z) : treenode := mk_treenode EXPRNode (Some op) None (Some l) (Some r).
Definition sum_nodes : list (Z * treenode) :=
  [(NullExp, dummy); (2, leaf STNode 1); (3, expr VarOp 2 NullExp); (4, expr AssignOp NullExp 3);
   (5, leaf NUMNode 2); (6, expr AssignOp 4 5); (7, expr StmtOp NullExp 6);
   (8, leaf NUMNode 0); (9, expr GTOp 3 8); (10, leaf NUMNode 1); (11, expr SubOp 3 10);
   (12, expr AssignOp 4 11); (13, expr StmtOp NullExp 12); (14, expr LoopOp 9 13); (15, expr StmtOp 7 14);
   (16, expr AndOp 3 8)].
Definition sum_forest : forest := mk_forest (list_to_map sum_nodes) 17.
Definition var_sum : ast := TExpr VarOp (TLeaf STNode 1) TNull.
Definition to_sum (e : ast) : ast := TExpr AssignOp (TExpr AssignOp TNull var_sum) e.
Definition sum_again : ast := TExpr StmtOp TNull (to_sum (TExpr SubOp var_sum (TLeaf NUMNode 1))).
Definition sum_loop (first : ast) : ast := TExpr StmtOp first (TExpr LoopOp (TExpr GTOp var_sum (TLeaf NUMNode 0)) sum_again).
Definition sum_tree : ast := sum_loop (TExpr StmtOp TNull (to_sum (TLeaf NUMNode 2))).

Definition sum_address : Z := 268500992.
Definition sum_data (l : label) : Z := sum_address.
Definition sum_visible (a : Z) : bool := a =? sum_address.
Definition sum_start : sstate := mk_sstate (λ _, 0) (λ _, 7).
Definition sum_machine : machine := mk_machine 0 (λ r, match r with SP | FP => 2147479544 | _ => 0 end) 0 (λ _, 7).

Lemma sum_tree_at : tree_at sum_forest 15 sum_tree.
Proof. unfold sum_tree, sum_loop, sum_again, to_sum, var_sum. cbn [tree_at]. repeat first [split|eexists]; try reflexivity; discriminate. Qed.
Lemma and_tree_at : tree_at sum_forest 16 (TExpr AndOp var_sum (TLeaf NUMNode 0)).
Proof. unfold var_sum. cbn [tree_at]. repeat first [split|eexists]; try reflexivity; discriminate. Qed.
Lemma var_tree_at : tree_at sum_forest 3 var_sum.
Proof. unfold var_sum. cbn [tree_at]. repeat first [split|eexists]; try reflexivity; discriminate. Qed.
Lemma sum_ready : ∃ s C, ready (mk_gen sum_forest sum_strs s [] 0 0 0) (SymTab.attrs sum_scoping) C sum_name.
Proof.
  pose proof (run_ops_refines new_symtab new_scoping sum_ops new_rep) as H. rewrite sum_run in H.
  destruct H as (s & _ & R). destruct (r_attrs _ _ R) as [C HA]. exists s, C. constructor.
  - split_and!; [reflexivity|done|]. intros p n Hp. cbn [nodes sum_forest] in Hp. apply elem_of_list_to_map_2 in Hp. cbn [fresh sum_forest].
    revert Hp. unfold sum_nodes. rewrite !elem_of_cons, elem_of_nil. intros Hp. repeat destruct Hp as [Hp|Hp]; try (injection Hp as -> _; done). done.
  - exact HA.
  - intros id _. cbn [strs]. unfold sum_name. destruct (Z.eqb_spec id 1) as [->|Hid]; [by vm_compute|].
    unfold attr_of, sum_scoping. cbn [SymTab.attrs]. rewrite !lookup_insert_ne by congruence. by vm_compute.
  - intros k Hk. by apply elem_of_nil in Hk.
Qed.

Notation sum_exec := (exec (SymTab.attrs sum_scoping) sum_name 2147479544 sum_data sum_visible).
Notation sum_value := (eexpr (SymTab.attrs sum_scoping) sum_name 2147479544 sum_data sum_visible).
Lemma sum_kind : attr_of (SymTab.attrs sum_scoping) 1 KIND_ATTR = VAR.
Proof. vm_compute. reflexivity. Qed.
Lemma sum_nest : attr_of (SymTab.attrs sum_scoping) 1 NEST_ATTR = 1.
Proof. vm_compute. reflexivity. Qed.
Lemma sum_plain : plain_stmts (SymTab.attrs sum_scoping) sum_name sum_tree = true.
Proof. vm_compute. reflexivity. Qed.
Lemma sum_usable : usable sum_visible sum_address = Some sum_address.
Proof. vm_compute. reflexivity. Qed.
Lemma sum_evar σ : evar (SymTab.attrs sum_scoping) sum_name 2147479544 sum_data sum_visible σ 1 TNull = Some sum_address.
Proof. unfold evar, ebase, eaddress. rewrite sum_kind, sum_nest. reflexivity. Qed.
Lemma sum_var σ : sum_value σ var_sum = Some (s_mem σ sum_address).
Proof. unfold var_sum. rewrite eexpr_eq. cbn [valof]. rewrite sum_kind, sum_evar. cbn [mbind option_bind]. rewrite sum_usable. reflexivity. Qed.
Lemma sum_assigned first σ σ1 e v : sum_value σ1 e = Some v →
  sum_exec Stmts first σ false σ1 → sum_exec Stmts (TExpr StmtOp first (to_sum e)) σ false (set_mem sum_address v σ1).
Proof.
  intros E H. eapply exec_assign; [exact H|]. unfold eassign, to_sum, var_sum. cbn [lchild rchild valof].
  rewrite sum_kind, sum_evar. cbn [mbind option_bind]. rewrite E. cbn [mbind option_bind]. rewrite sum_usable. reflexivity.
Qed.
(** The condition and the body of the loop. *)
Lemma sum_test σ v : s_mem σ sum_address = v → sum_value σ (TExpr GTOp var_sum (TLeaf NUMNode 0)) = Some (b2z (0 <? v)).
Proof. intros <-. rewrite eexpr_eq, sum_var. reflexivity. Qed.
Lemma sum_less σ v : s_mem σ sum_address = v → 0 < v < 100 → sum_value σ (TExpr SubOp var_sum (TLeaf NUMNode 1)) = Some (v - 1).
Proof. intros <- Hv. rewrite eexpr_eq, sum_var. change (fits (s_mem σ sum_address - 1) = Some (s_mem σ sum_address - 1)).
  unfold fits. rewrite decide_True; [done|unfold word; lia]. Qed.
Lemma sum_again_runs first v σ σ1 σ' : sum_exec Stmts first σ false σ1 → s_mem σ1 sum_address = v → 0 < v < 100 →
  sum_exec Stmts (sum_loop TNull) (set_mem sum_address (v - 1) σ1) false σ' → sum_exec Stmts (sum_loop first) σ false σ'.
Proof.
  intros H Hv Hr Hn. eapply exec_loop; [exact H|by apply (sum_test σ1 v)| | |exact Hn].
  - by rewrite (proj2 (Z.ltb_lt 0 v)) by lia.
  - apply sum_assigned; [by apply sum_less|]. apply exec_none.
Qed.
Definition sum_end : sstate := set_mem sum_address 0 (set_mem sum_address 1 (set_mem sum_address 2 sum_start)).
Lemma sum_runs : sum_exec Stmts sum_tree sum_start false sum_end.
Proof.
  eapply (sum_again_runs _ 2); [by apply sum_assigned, exec_none|reflexivity|lia|].
  eapply (sum_again_runs _ 1); [apply exec_none|reflexivity|lia|].
  eapply exec_loop_end; [apply exec_none|]. by apply (sum_test _ 0).
Qed.

Lemma statements_compiled_witness : ∃ s g' m', GenStmt 100 15 (mk_gen sum_forest sum_strs s [] 0 0 0) = Ret tt g' ∧
  rtc (mstep (asm_file g') sum_data) sum_machine m' ∧ pc m' = length (asm_file g') ∧ mem m' sum_address = 0 ∧ rget m' SP = 2147479544.
Proof.
  destruct sum_ready as (s & C & R). destruct (statements_compiled _ _ _ _ 100 15 sum_tree R sum_tree_at sum_plain) as (g' & c & E & _ & _ & _ & H).
  - vm_compute. lia.
  - destruct (H 2147479544 sum_data sum_visible 2147400000 2147479544 sum_start false sum_end [] sum_machine) as (m' & Rm & P & (_ & _ & M) & S).
    + lia.
    + intros a Ha. apply Z.eqb_eq in Ha. unfold sum_address in Ha. lia.
    + exact sum_runs.
    + reflexivity.
    + split_and!; reflexivity.
    + split_and!; [split; [unfold word; cbn; lia|reflexivity]|vm_compute; discriminate|cbn; lia].
    + rewrite app_nil_r in Rm. exists s, g', m'. split_and!; [exact E|exact Rm|exact P|rewrite M; reflexivity|exact S].
Defined.
Lemma expressions_compiled_witness : ∃ s g' m', GenExpression 100 3 (mk_gen sum_forest sum_strs s [] 0 0 0) = Ret tt g' ∧
  rtc (mstep (asm_file g') sum_data) sum_machine m' ∧ rget m' SP = 2147479540 ∧ mem m' 2147479544 = 7.
Proof.
  destruct sum_ready as (s & C & R). destruct (expressions_compiled _ _ _ _ 100 3 var_sum R) as (g' & c & E & _ & _ & _ & H).
  - exact var_tree_at.
  - vm_compute. reflexivity.
  - vm_compute. lia.
  - destruct (H 2147479544 sum_data sum_visible 2147400000 2147479544 sum_start 7 [] sum_machine) as (m' & Rm & P & A & S & M).
    + lia.
    + intros a Ha. apply Z.eqb_eq in Ha. unfold sum_address in Ha. lia.
    + by rewrite sum_var.
    + reflexivity.
    + split_and!; reflexivity.
    + split_and!; [split; [unfold word; cbn; lia|reflexivity]|vm_compute; discriminate|cbn; lia].
    + rewrite app_nil_r in Rm. rewrite S in M. exists s, g', m'. split_and!; [exact E|exact Rm|exact S|exact M].
Defined.
Lemma logic_writes_nothing_witness : ∃ s, GenExpression 1 16 (mk_gen sum_forest sum_strs s [] 0 0 0) = Ret tt (mk_gen sum_forest sum_strs s [] 0 0 0).
Proof.
  destruct sum_ready as (s & C & R). exists s. apply (logic_writes_nothing _ _ _ _ 16 AndOp var_sum (TLeaf NUMNode 0) 0 R and_tree_at).
  by left.
Defined.
