(* ===== verification/Seman.v ===== *)
(** * The semantic analysis of the compiler

    CS2210/seman.c: it walks the tree of the parser, enters the declarations
    into the symbol table and puts the number of its symbol in the place of
    every name.  The state is the one of Codegen.v; the recursion of [MkST] and
    the loops over the tree are bounded by [fuel].  The types of variables are
    attributes that hold the address of a tree.  Reports are the messages of the
    symbol table; what [varop] prints before a report is left out. *)
From S2P Require Import Prelude StrTable SymTab Tree Mips Codegen.
Open Scope Z_scope.

(** More of [error_type] of proj3.h. *)
Definition INDX_MIS : Z := 114.
Definition FIELD_MIS : Z := 115.
Definition TYPE_MIS : Z := 121.

(** "main" and "length". *)
Definition str_main : list Z := [109; 97; 105; 110].
Definition str_length : list Z := [108; 101; 110; 103; 116; 104].

Definition in_strs {A} (m : prog strtab A) : prog gen A :=
  zoom strs (λ t g, mk_gen (trees g) t (syms g) (asm_file g) (global_offset g) (label_id g) (class_offset g)) m.

Definition error (type id : Z) : prog gen unit := in_syms (error_msg type CONTINUE id).

(** [SetLeftChild(node, MakeLeaf(STNode, sym))] after the name was freed. *)
Definition link_left (node name sym : Z) : prog gen unit :=
  in_tree (free_node name);;
  leaf ← in_tree (MakeLeaf STNode sym);
  in_tree (SetLeftChild node leaf).

Section seman.
(** ** Types *)

Fixpoint typeidop_loop (fuel : nat) (lchild rchild : Z) : prog gen unit :=
  match fuel with
  | O => out_of_fuel
  | S fuel' =>
      b ← null rchild;
      if b : bool then mret tt
      else
        bl ← null lchild; k ← kind_of lchild;
        (if negb bl && negb (k =? INTEGERTNode) then
           id ← val_of lchild; nSymInd ← in_syms (LookUp id);
           link_left rchild lchild nSymInd
         else mret tt);;
        rchild ← right_of rchild; lchild ← left_of rchild;
        typeidop_loop fuel' lchild rchild
  end.
Definition typeidop (fuel : nat) (node : Z) : prog gen unit :=
  lchild ← left_of node; typeidop_loop fuel lchild node.

(** The dimensions of an array type. *)
Fixpoint count_indexes (fuel : nat) (temp n : Z) : prog gen Z :=
  match fuel with
  | O => out_of_fuel
  | S fuel' =>
      b ← null temp;
      if b : bool then mret n else r ← right_of temp; count_indexes fuel' r (n + 1)
  end.

(** ** Variables *)

(** The variables of [varop] that live through a turn of its loop: the symbol,
    the selectors that are left ([rchild]), and [found], which is not
    initialised. *)
Record selection := mk_selection { st_ind0 : Z; rest : Z; found : option bool }.

(** The symbols behind the class with the name [id] and the right level. *)
Fixpoint find_field (fuel : nat) (id nest0 i : Z) : prog gen (option Z) :=
  match fuel with
  | O => out_of_fuel
  | S fuel' =>
      name ← attr i NAME_ATTR;
      hit ← (if name =? id then nest ← attr i NEST_ATTR; mret (nest =? nest0 + 1) else mret false);
      if hit : bool then mret (Some i)
      else
        g ← get;
        if i + 1 <=? st_top (syms g) then
          nest ← attr (i + 1) NEST_ATTR;
          if nest >? nest0 then find_field fuel' id nest0 (i + 1) else mret None
        else mret None
  end.

(** The loop over further indexes behind a class; [None] after a report. *)
Fixpoint skip_indexes (fuel : nat) (rchild : Z) : prog gen (option Z) :=
  match fuel with
  | O => out_of_fuel
  | S fuel' =>
      b ← null rchild;
      if b : bool then mret (Some rchild)
      else
        rchild ← right_of rchild; fld_indop ← left_of rchild; o ← op_of fld_indop;
        if negb (o =? IndexOp) then
          l ← left_of fld_indop; id ← val_of l; error FIELD_MIS id;; mret None
        else skip_indexes fuel' rchild
  end.

Section walk.
(** [MkST] with less fuel. *)
Variable MkST : Z → prog gen unit.
Variable fuel : nat.

(** Reports name the symbol at hand. *)
Definition error_at (type st_ind0 : Z) : prog gen unit := name ← attr st_ind0 NAME_ATTR; error type name.

(** The loops over the indexes of an array. *)
Fixpoint array_indexes (fuel : nat) (st_ind0 dimension d rchild : Z) : prog gen (option (Z * Z)) :=
  match fuel with
  | O => out_of_fuel
  | S fuel' =>
      b ← null rchild;
      if b : bool then mret (Some (d, rchild))
      else
        fld_indop ← left_of rchild; o ← op_of fld_indop;
        if o =? FieldOp then mret (Some (d, rchild))
        else if d + 1 >? dimension then error_at INDX_MIS st_ind0;; mret None
        else
          e ← left_of fld_indop; k ← kind_of e;
          (if k =? EXPRNode then MkST e else mret tt);;
          r ← right_of rchild; array_indexes fuel' st_ind0 dimension (d + 1) r
  end.

(** The cases of the loop: where to go on, or [None] for [return]. *)
Definition var_case (s : selection) : prog gen (option selection) :=
  typeidop ← attr (st_ind0 s) TYPE_ATTR;
  temp ← left_of typeidop; k ← kind_of temp;
  if k =? INTEGERTNode then
    b ← null (rest s);
    if b : bool then mret None
    else
      attr (st_ind0 s) NAME_ATTR;;
      f ← left_of (rest s); n ← left_of f; id ← val_of n;
      error FIELD_MIS id;; mret None
  else
    c ← val_of temp;
    (if negb (c =? 0) then attr c NEST_ATTR;; mret tt else mret tt);;
    mret (Some (mk_selection c (rest s) (found s))).

(** [lchild] was freed and is read for the message before [exit]. *)
Definition method_case (lchild : Z) (s : selection) : prog gen (option selection) :=
  b ← null (rest s);
  if b : bool then mret None else val_of lchild;; exit_with 1.

Definition class_case (declop : Z) (s : selection) : prog gen (option selection) :=
  nest0 ← attr (st_ind0 s) NEST_ATTR;
  fld_indop ← left_of (rest s); o ← op_of fld_indop;
  if o =? FieldOp then
    name ← left_of fld_indop; id ← val_of name;
    f ← find_field fuel id nest0 (st_ind0 s + 1);
    match f with
    | Some i =>
        link_left fld_indop name i;;
        r ← right_of (rest s);
        mret (Some (mk_selection i r (Some true)))
    | None =>
        match found s with
        | None => undef
        | Some true => mret (Some s)
        | Some false => error UNDECLARATION id;; mret None
        end
    end
  else if o =? IndexOp then
    if negb (declop =? 1) then error_at TYPE_MIS (st_ind0 s);; mret None
    else
      r ← right_of (rest s); r ← skip_indexes fuel r;
      match r with
      | Some r => mret (Some (mk_selection (st_ind0 s) r (found s)))
      | None => mret None
      end
  else mret (Some s).

(** After ".length" nothing may follow. *)
Definition length_case (s : selection) (selectop : Z) : prog gen (option selection) :=
  r ← right_of selectop; b ← null r;
  if negb b then error_at TYPE_MIS (st_ind0 s);; mret None
  else mret (Some (mk_selection (st_ind0 s) r (found s))).

(** Behind the loop over the indexes; [k] is the kind of the type, [tempind] the
    class. *)
Definition arr_end (k tempind dimension : Z) (s : selection) (r : option (Z * Z)) : prog gen (option selection) :=
  match r with
  | None => mret None
  | Some (d, selectop) =>
      b ← null selectop;
      if b : bool then
        if d <? dimension then error_at INDX_MIS (st_ind0 s);; mret None
        else mret (Some (mk_selection (st_ind0 s) selectop (found s)))
      else
        fld_indop ← left_of selectop; name ← left_of fld_indop; id ← val_of name;
        len ← in_strs (loc_str str_length);
        if id =? len then length_case s selectop
        else if k =? INTEGERTNode then error_at TYPE_MIS (st_ind0 s);; mret None
        else attr tempind NEST_ATTR;; mret (Some (mk_selection tempind selectop (found s)))
  end.
Definition arr_case (s : selection) : prog gen (option selection) :=
  b ← null (rest s);
  if b : bool then error_at INDX_MIS (st_ind0 s);; mret None
  else
    typeidop ← attr (st_ind0 s) TYPE_ATTR;
    temp ← left_of typeidop;
    dimension ← attr (st_ind0 s) DIMEN_ATTR;
    k ← kind_of temp;
    tempind ← (if k =? INTEGERTNode then mret 0 else val_of temp);
    if negb (k =? INTEGERTNode) && (tempind =? 0) then mret (Some s)
    else
      r ← array_indexes fuel (st_ind0 s) dimension 0 (rest s);
      arr_end k tempind dimension s r.

(** The condition of the loop. *)
Definition again (loop : selection → prog gen unit) (r : option selection) : prog gen unit :=
  match r with
  | None => mret tt
  | Some s => b ← null (rest s); if b : bool then mret tt else loop s
  end.
Fixpoint varop_loop (fuel : nat) (declop lchild : Z) (s : selection) : prog gen unit :=
  match fuel with
  | O => out_of_fuel
  | S fuel' =>
      k ← attr (st_ind0 s) KIND_ATTR;
      r ← (if k =? VAR then var_case s
           else if (k =? PROCE) || (k =? FUNC) then method_case lchild s
           else if k =? CLASS then class_case declop s
           else if k =? ARR then arr_case s
           else mret (Some s));
      again (varop_loop fuel' declop lchild) r
  end.
Definition varop (node declop : Z) : prog gen unit :=
  lchild ← left_of node; rchild ← right_of node;
  id ← val_of lchild; nSymInd ← in_syms (LookUp id);
  if nSymInd =? 0 then mret tt
  else
    link_left node lchild nSymInd;;
    varop_loop fuel declop lchild (mk_selection nSymInd rchild None).

(** ** Calls and declarations *)

Fixpoint arguments_loop (fuel : nat) (rchild : Z) : prog gen unit :=
  match fuel with
  | O => out_of_fuel
  | S fuel' =>
      b ← null rchild;
      if b : bool then mret tt
      else
        l ← left_of rchild; MkST l;;
        r ← right_of rchild; arguments_loop fuel' r
  end.
Definition routinecallop (node : Z) : prog gen unit :=
  lchild ← left_of node; rchild ← right_of node;
  varop lchild 2;;
  arguments_loop fuel rchild.

Definition classdefop (node : Z) : prog gen unit :=
  child ← right_of node; nStrInd ← val_of child;
  nSymInd ← in_syms (InsertEntry nStrInd);
  set_attr nSymInd KIND_ATTR CLASS;;
  in_syms OpenBlock;;
  in_tree (free_node child);;
  leaf ← in_tree (MakeLeaf STNode nSymInd);
  in_tree (SetRightChild node leaf);;
  l ← left_of node; MkST l;;
  in_syms CloseBlock.

(** Is one of the symbols from [i] on called [id]? *)
Fixpoint named_before (n : nat) (i id : Z) : prog gen bool :=
  match n with
  | O => mret false
  | S n' =>
      a ← in_syms (IsAttr i NAME_ATTR);
      hit ← (if negb (a =? 0) then name ← attr i NAME_ATTR; mret (name =? id) else mret false);
      if hit : bool then mret true else named_before n' (i + 1) id
  end.
Definition methodop (node : Z) : prog gen unit :=
  child ← left_of node; name ← left_of child; nStrInd ← val_of name;
  main ← in_strs (loc_str str_main);
  g ← get;
  twice ← (if nStrInd =? main then named_before (Z.to_nat (st_top (syms g) + 1)) 0 nStrInd else mret false);
  if twice : bool then error REDECLARATION nStrInd
  else
    nSymInd ← in_syms (InsertEntry nStrInd);
    in_syms OpenBlock;;
    spec ← right_of child; child1 ← right_of spec; b ← null child1;
    (if negb b then set_attr nSymInd KIND_ATTR FUNC;; set_attr nSymInd TYPE_ATTR child1
     else set_attr nSymInd KIND_ATTR PROCE);;
    link_left child name nSymInd;;
    MkST spec;;
    body ← right_of node; MkST body;;
    in_syms CloseBlock.

(** One turn of the loop of [declop]; [false] is its [return]. *)
Definition declarator (child : Z) : prog gen bool :=
  child1 ← right_of child; name ← left_of child1; nStrInd ← val_of name;
  nSymInd ← in_syms (InsertEntry nStrInd);
  if nSymInd =? 0 then mret false
  else
    r ← right_of child1; typenode ← left_of r;
    set_attr nSymInd TYPE_ATTR typenode;;
    link_left child1 name nSymInd;;
    typeidop fuel typenode;;
    dims ← right_of typenode; b ← null dims; o ← op_of dims;
    (if b : bool then set_attr nSymInd KIND_ATTR VAR
     else if o =? IndexOp then
       n ← count_indexes fuel dims 0;
       set_attr nSymInd DIMEN_ATTR n;; set_attr nSymInd KIND_ATTR ARR
     else mret tt);;
    r ← right_of child1; child2 ← right_of r; o ← op_of child2;
    (if o =? VarOp then varop child2 1 else MkST child2);;
    mret true.
Fixpoint declop_loop (fuel : nat) (child : Z) : prog gen unit :=
  match fuel with
  | O => out_of_fuel
  | S fuel' =>
      b ← null child;
      if b : bool then mret tt
      else
        go ← declarator child;
        if go : bool then l ← left_of child; declop_loop fuel' l else mret tt
  end.

Fixpoint specop_loop (fuel : nat) (child : Z) : prog gen unit :=
  match fuel with
  | O => out_of_fuel
  | S fuel' =>
      b ← null child;
      if b : bool then mret tt
      else
        child1 ← left_of child; name ← left_of child1; nStrInd ← val_of name;
        nSymInd ← in_syms (InsertEntry nStrInd);
        type ← right_of child1; set_attr nSymInd TYPE_ATTR type;;
        o ← op_of child;
        (if o =? VArgTypeOp then set_attr nSymInd KIND_ATTR VALUE_ARG
         else if o =? RArgTypeOp then set_attr nSymInd KIND_ATTR REF_ARG
         else mret tt);;
        link_left child1 name nSymInd;;
        r ← right_of child; specop_loop fuel' r
  end.
Definition specop (node : Z) : prog gen unit := child ← left_of node; specop_loop fuel child.
End walk.

Fixpoint MkST (fuel : nat) (treenode : Z) : prog gen unit :=
  match fuel with
  | O => out_of_fuel
  | S fuel' =>
      b ← null treenode;
      if b : bool then mret tt
      else
        o ← op_of treenode;
        if o =? ClassDefOp then classdefop (MkST fuel') treenode
        else if o =? MethodOp then methodop (MkST fuel') treenode
        else if o =? DeclOp then declop_loop (MkST fuel') fuel' fuel' treenode
        else if o =? SpecOp then specop fuel' treenode
        else if o =? TypeIdOp then typeidop fuel' treenode
        else if o =? VarOp then varop (MkST fuel') fuel' treenode 0
        else if o =? RoutineCallOp then routinecallop (MkST fuel') fuel' treenode
        else
          l ← left_of treenode; MkST fuel' l;;
          r ← right_of treenode; MkST fuel' r
  end.

(** [main] of codegen.c behind the parser. *)
Definition compile_tree (fuel : nat) (SyntaxTree : Z) : prog gen unit :=
  zoom (λ g, (strs g, syms g)) (λ c g, mk_gen (trees g) c.1 c.2 (asm_file g) (global_offset g) (label_id g) (class_offset g)) STInit;;
  MkST fuel SyntaxTree;;
  write_program fuel SyntaxTree.
End seman.
