(* ===== verification/SemanSpec.v ===== *)
(** * Names are resolved

    What the semantic analysis of CS2210/seman.c makes of statements and
    expressions, as a function of the tree: every name becomes the symbol of its
    innermost declaration, every field a symbol inside the class of the object;
    and that [MkST] does exactly this to the tree in memory, for all trees that
    the function accepts.  Together with CodegenThm.v: the statements of the
    parser's tree are compiled correctly. *)
From S2P Require Import Prelude StrTable SymTab Tree Mips Codegen CodegenSpec CodegenSem CodegenThm Seman.
Open Scope Z_scope.

(** ** The reference *)

Inductive mode := Walk (p : Z) | Index (p d : Z).

Section resolver.
Variable a : scoping.
(** What is known of the type of a variable: an integer, or a class. *)
Variable type_leaf : Z → ast.
(** The name "length". *)
Variable len : Z.

Definition kind (p : Z) : Z := attr_of (attrs a) p KIND_ATTR.
Definition level (p : Z) : Z := attr_of (attrs a) p NEST_ATTR.
Definition dimension (p : Z) : Z := attr_of (attrs a) p DIMEN_ATTR.
Definition called (p : Z) : Z := attr_of (attrs a) p NAME_ATTR.

(** The innermost declaration; a name that was looked up in vain has symbol 0. *)
Definition symbol (id : Z) : option Z :=
  match binding (concat (blocks a)) id with
  | Some p => if (0 <? p) && (p <=? entries a) then Some p else None
  | None => None
  end.

Definition is_class (c : Z) : bool := (0 <? c) && (c <=? entries a) && (kind c =? CLASS).
Definition elem_class (p : Z) : option Z :=
  match type_leaf p with
  | TLeaf k c => if (k =? STNode) && is_class c then Some c else None
  | _ => None
  end.
(** The class whose fields can be selected. *)
Definition holder (m : mode) : option Z :=
  match m with
  | Walk p => if kind p =? VAR then elem_class p else if is_class p then Some p else None
  | Index p d => if d =? dimension p then elem_class p else None
  end.

(** The symbols of a class follow it, on deeper levels. *)
Fixpoint inside (n : nat) (i l : Z) : list Z :=
  match n with
  | O => []
  | S n' => if l <? level i then i :: inside n' (i + 1) l else []
  end.
Definition members (c : Z) : list Z := inside (Z.to_nat (entries a - c)) (c + 1) (level c).
Definition field_of (c id : Z) : option Z :=
  head (filter (λ i, called i = id ∧ level i = level c + 1) (members c)).

Definition enter (p : Z) : mode := if kind p =? ARR then Index p 0 else Walk p.
Definition complete (m : mode) : bool :=
  match m with Walk _ => true | Index p d => (0 <? d) && (d =? dimension p) end.
Definition is_length (m : mode) (id : Z) : bool := match m with Walk _ => false | Index _ _ => id =? len end.
Definition declares (o : Z) : bool := existsb (Z.eqb o) [ClassDefOp; MethodOp; DeclOp; SpecOp; TypeIdOp].

Fixpoint resolve (t : ast) : option ast :=
  match t with
  | TExpr o l r =>
      if o =? VarOp then
        match l with
        | TLeaf k id =>
            if k =? IDNode then p ← symbol id; r' ← resolve_sel (enter p) r; Some (TExpr o (TLeaf STNode p) r') else None
        | _ => None
        end
      else if o =? RoutineCallOp then
        match l with
        | TExpr o' (TLeaf k id) sel =>
            if k =? IDNode then
              p ← symbol id; sel' ← resolve_sel (enter p) sel; r' ← resolve_args r;
              Some (TExpr o (TExpr o' (TLeaf STNode p) sel') r')
            else None
        | _ => None
        end
      else if declares o then None
      else l' ← resolve l; r' ← resolve r; Some (TExpr o l' r')
  | _ => Some t
  end
with resolve_sel (m : mode) (t : ast) : option ast :=
  match t with
  | TNull => if complete m then Some TNull else None
  | TExpr o (TExpr o' e r) rest =>
      if o' =? FieldOp then
        match e with
        | TLeaf k id =>
            if is_length m id then (if isnull rest then Some t else None)
            else if k =? IDNode then
              c ← holder m; i ← field_of c id;
              rest' ← (match rest with TNull => Some TNull | _ => resolve_sel (enter i) rest end);
              Some (TExpr o (TExpr o' (TLeaf STNode i) r) rest')
            else None
        | _ => None
        end
      else
        match m with
        | Walk _ => None
        | Index p d =>
            if (o' =? IndexOp) && isnull r && (d + 1 <=? dimension p) then
              e' ← resolve e; rest' ← resolve_sel (Index p (d + 1)) rest;
              Some (TExpr o (TExpr o' e' r) rest')
            else None
        end
  | _ => None
  end
with resolve_args (t : ast) : option ast :=
  match t with
  | TExpr o l r => l' ← resolve l; r' ← resolve_args r; Some (TExpr o l' r')
  | TNull => Some TNull
  | TLeaf _ _ => None
  end.

Lemma resolve_eq o l r : resolve (TExpr o l r) =
  if o =? VarOp then
    match l with
    | TLeaf k id => if k =? IDNode then p ← symbol id; r' ← resolve_sel (enter p) r; Some (TExpr o (TLeaf STNode p) r') else None
    | _ => None
    end
  else if o =? RoutineCallOp then
    match l with
    | TExpr o' (TLeaf k id) sel =>
        if k =? IDNode then
          p ← symbol id; sel' ← resolve_sel (enter p) sel; r' ← resolve_args r;
          Some (TExpr o (TExpr o' (TLeaf STNode p) sel') r')
        else None
    | _ => None
    end
  else if declares o then None
  else l' ← resolve l; r' ← resolve r; Some (TExpr o l' r').
Proof. done. Qed.
Lemma resolve_sel_eq m o o' e r rest : resolve_sel m (TExpr o (TExpr o' e r) rest) =
  if o' =? FieldOp then
    match e with
    | TLeaf k id =>
        if is_length m id then (if isnull rest then Some (TExpr o (TExpr o' e r) rest) else None)
        else if k =? IDNode then
          c ← holder m; i ← field_of c id;
          rest' ← (match rest with TNull => Some TNull | _ => resolve_sel (enter i) rest end);
          Some (TExpr o (TExpr o' (TLeaf STNode i) r) rest')
        else None
    | _ => None
    end
  else
    match m with
    | Walk _ => None
    | Index p d =>
        if (o' =? IndexOp) && isnull r && (d + 1 <=? dimension p) then
          e' ← resolve e; rest' ← resolve_sel (Index p (d + 1)) rest;
          Some (TExpr o (TExpr o' e' r) rest')
        else None
    end.
Proof. done. Qed.
Lemma resolve_args_eq o l r : resolve_args (TExpr o l r) = (l' ← resolve l; r' ← resolve_args r; Some (TExpr o l' r')).
Proof. done. Qed.
End resolver.

(** ** Changing parts of the tree *)

Lemma owned_lt h p t F : forest_ok h → owned h p t F → ∀ q, q ∈ F → q < fresh h.
Proof.
  intros (_ & _ & Hd). revert p F. induction t as [|k v|op l IHl r IHr]; intros p F; simpl.
  - intros [_ ->]. set_solver.
  - intros [(_ & _ & _ & n & Hn & _) ->] q Hq. apply elem_of_singleton in Hq as ->. by eapply Hd.
  - intros (_ & n & pl & pr & Fl & Fr & Hn & _ & _ & _ & _ & Ol & Or & _ & _ & _ & ->) q Hq.
    rewrite !elem_of_union, elem_of_singleton in Hq. destruct Hq as [[->|Hq]|Hq]; [by eapply Hd|by eapply IHl|by eapply IHr].
Qed.

Definition set_trees (h : forest) (g : gen) : gen :=
  mk_gen h (strs g) (syms g) (asm_file g) (global_offset g) (label_id g) (class_offset g).
Definition set_syms (s : symtab) (g : gen) : gen :=
  mk_gen (trees g) (strs g) s (asm_file g) (global_offset g) (label_id g) (class_offset g).
Lemma in_tree_Ret {A} (m : prog forest A) g x h : m (trees g) = Ret x h → in_tree m g = Ret x (set_trees h g).
Proof. intros E. unfold in_tree, zoom. by rewrite E. Qed.
Lemma in_syms_Ret {A} (m : prog symtab A) g x s : m (syms g) = Ret x s → in_syms m g = Ret x (set_syms s g).
Proof. intros E. unfold in_syms, zoom. by rewrite E. Qed.
Lemma in_strs_same {A} (m : prog strtab A) g x : m (strs g) = Ret x (strs g) → in_strs m g = Ret x g.
Proof. intros E. unfold in_strs, zoom. rewrite E. by destruct g. Qed.

(** What the rest of the compiler keeps in its state. *)
Definition same_code (g g' : gen) : Prop :=
  asm_file g' = asm_file g ∧ global_offset g' = global_offset g ∧ label_id g' = label_id g ∧ class_offset g' = class_offset g.

(** From [g] to [g'] the nodes [F] of a tree were replaced by [F'], which are
    taken from [F] and from unused memory; all other nodes are as they were. *)
Record moved (F F' : gset Z) (g g' : gen) : Prop := {
  mv_ok : forest_ok (trees g');
  mv_fresh : fresh (trees g) ≤ fresh (trees g');
  mv_frame : ∀ q, q ∉ F → q < fresh (trees g) → nodes (trees g') !! q = nodes (trees g) !! q;
  mv_new : ∀ q, q ∈ F' → q ∈ F ∨ fresh (trees g) ≤ q;
  mv_strs : strs g' = strs g;
  mv_code : same_code g g'
}.

Lemma moved_id F g : forest_ok (trees g) → moved F F g g.
Proof. intros H. constructor; try done. auto. Qed.
Lemma moved_seq F F1 F1' F2 F2' F' g g1 g2 : moved F1 F1' g g1 → moved F2 F2' g1 g2 → F1 ⊆ F →
  (∀ q, q ∈ F2 → q ∈ F ∨ fresh (trees g) ≤ q) → (∀ q, q ∈ F' → q ∈ F ∨ fresh (trees g) ≤ q) → moved F F' g g2.
Proof.
  intros [O1 L1 R1 N1 S1 C1] [O2 L2 R2 N2 S2 C2] H1 H2 H'. constructor; try done.
  - lia.
  - intros q Hq Hf. rewrite R2; [|intros H; destruct (H2 q H); [done|lia]|lia]. apply R1; [|done]. set_solver.
  - congruence.
  - destruct C1 as (?&?&?&?), C2 as (?&?&?&?). unfold same_code. by split_and!; etrans.
Qed.
Lemma moved_weaken F F1 F' F1' g g1 : moved F1 F1' g g1 → F1 ⊆ F → (∀ q, q ∈ F' → q ∈ F ∨ fresh (trees g) ≤ q) → moved F F' g g1.
Proof.
  intros [O1 L1 R1 N1 S1 C1] H1 H'. constructor; try done. intros q Hq Hf. apply R1; [set_solver|done].
Qed.

(** Another tree stays. *)
Lemma moved_other F F' g g' p t Fo : forest_ok (trees g) → moved F F' g g' → owned (trees g) p t Fo → F ## Fo → owned (trees g') p t Fo ∧ F' ## Fo.
Proof.
  intros Hok M O Hd. pose proof (owned_lt _ _ _ _ Hok O) as Hlt. split.
  - eapply owned_frame; [exact O|]. intros q Hq. apply (mv_frame _ _ _ _ M); [set_solver|by apply Hlt].
  - intros q Hq Hq'. specialize (Hlt q Hq'). destruct (mv_new _ _ _ _ M q Hq); [set_solver|lia].
Qed.
Lemma moved_node F F' g g' q n : moved F F' g g' → forest_ok (trees g) → nodes (trees g) !! q = Some n → q ∉ F →
  nodes (trees g') !! q = Some n ∧ q ∉ F'.
Proof.
  intros M (_ & _ & Hd) Hn Hq. specialize (Hd q n Hn). split; [by rewrite (mv_frame _ _ _ _ M)|].
  intros H. destruct (mv_new _ _ _ _ M q H); [done|lia].
Qed.

(** The leaf for a name gives way to the one for its symbol. *)
Lemma link_left_run g p n pl pr k v sym : forest_ok (trees g) → nodes (trees g) !! p = Some n → n_kind n = EXPRNode →
  n_left n = Some pl → n_right n = Some pr → p ≠ NullExp → tree_at (trees g) pl (TLeaf k v) → p ≠ pl →
  let q := fresh (trees g) in
  ∃ h', link_left p pl sym g = Ret tt (set_trees h' g) ∧ moved ({[ p ]} ∪ {[ pl ]}) ({[ p ]} ∪ {[ q ]}) g (set_trees h' g) ∧
    nodes h' !! p = Some (with_left q n) ∧ tree_at h' q (TLeaf STNode sym) ∧ p ≠ q.
Proof.
  intros Hok Hn Hk Hl Hr Hp Ht Hne q. destruct Ht as (Hpl & _ & _ & m & Hm & _). pose proof Hok as (Hnull & Hf & Hdom).
  set (h1 := mk_forest (delete pl (nodes (trees g))) (fresh (trees g))).
  set (leaf := mk_treenode STNode None (Some sym) None None).
  set (h2 := mk_forest (<[q := leaf]> (nodes h1)) (q + 1)).
  assert (p < q) as Hpq by (by eapply Hdom). assert (pl < q) as Hplq by (by eapply Hdom).
  assert (nodes h2 !! p = Some n) as Hn2 by (cbn; rewrite lookup_insert_ne, lookup_delete_ne by (lia || done); done).
  exists (mk_forest (<[p := with_left q n]> (nodes h2)) (fresh h2)). split; [|split; [|split; [|split]]].
  - unfold link_left. erewrite bind_Ret.
    2:{ apply in_tree_Ret. unfold free_node. apply updates_Some. rewrite (proj2 (Z.eqb_neq _ _) Hpl), Hm. reflexivity. }
    fold h1. erewrite bind_Ret by (apply in_tree_Ret; reflexivity). cbn [trees set_trees].
    fold leaf. change (fresh h1) with q. fold h2.
    rewrite (in_tree_Ret _ _ tt (mk_forest (<[p := with_left q n]> (nodes h2)) (fresh h2))); [done|].
    cbn [trees set_trees]. unfold SetLeftChild, NodeKind, node_at.
    erewrite bind_Ret; [|run (reads_Some (λ h, nodes h !! p) _ h2 Hn2); reflexivity]. rewrite Hk. cbn [negb Z.eqb Pos.eqb EXPRNode].
    unfold set_node. apply updates_Some. by rewrite Hn2.
  - constructor; cbn [trees set_trees nodes fresh h2 h1]; try done.
    + split_and!; cbn.
      * rewrite lookup_insert_ne, lookup_insert_ne, lookup_delete_ne by (unfold NullExp in *; lia || done). done.
      * unfold q. lia.
      * intros x y [[<- _]|[_ [[<- _]|[_ [_ H]%lookup_delete_Some]]%lookup_insert_Some]]%lookup_insert_Some; [lia|lia|].
        specialize (Hdom x y H). unfold q. lia.
    + unfold q. lia.
    + intros x Hx Hlt. rewrite lookup_insert_ne, lookup_insert_ne, lookup_delete_ne by (set_solver || (unfold q; lia)). done.
    + intros x. rewrite !elem_of_union, !elem_of_singleton. intros [->| ->]; [auto|]. right. unfold q. lia.
  - cbn. apply lookup_insert_eq.
  - split; [unfold NullExp in *; lia|]. split; [done|]. split; [done|]. exists leaf.
    cbn. rewrite lookup_insert_ne, lookup_insert_eq by lia. done.
  - lia.
Qed.

(** ** What the walk may rely on *)

Section walking.
Context (a : scoping) (type_leaf : Z → ast) (T : gset Z) (ws : list StrTable.word).
Notation len := (loc_word 0 ws str_length).
Notation kind := (kind a).
Notation resolve := (resolve a type_leaf len).
Notation resolve_sel := (resolve_sel a type_leaf len).
Notation resolve_args := (resolve_args a type_leaf len).
Implicit Types (g : gen) (p q c i : Z) (t : ast) (F : gset Z).

(** The tree of a type: its leaf is all that is looked at. *)
Definition typed (h : forest) (p : Z) : Prop :=
  ∃ n pl m, attr_of (attrs a) p TYPE_ATTR ∈ T ∧ pl ∈ T ∧
    nodes h !! attr_of (attrs a) p TYPE_ATTR = Some n ∧ n_kind n = EXPRNode ∧ n_left n = Some pl ∧ nodes h !! pl = Some m ∧
    ((∃ v, type_leaf p = TLeaf INTEGERTNode v ∧ n_kind m = INTEGERTNode) ∨
     (∃ c, type_leaf p = TLeaf STNode c ∧ n_kind m = STNode ∧ n_intval m = Some c ∧ 0 < c ≤ entries a)).

Record good g : Prop := {
  g_trees : forest_ok (trees g);
  g_syms : rep (syms g) a;
  g_types : ∀ p, st_range p → kind p = VAR ∨ kind p = ARR → typed (trees g) p;
  g_reserved : ∀ q, q ∈ T → q < fresh (trees g);
  g_strs : strs g = table_of ws
}.

(** A part [f] of the compiler turns the tree [t] at its argument into [t'] and
    changes nothing else. *)
Definition walks (f : Z → prog gen unit) (t t' : ast) : Prop := ∀ p g F, good g → owned (trees g) p t F → T ## F →
  ∃ g' F', f p g = Ret tt g' ∧ owned (trees g') p t' F' ∧ moved F F' g g' ∧ rep (syms g') a.

Lemma good_moved F F' g g' : good g → moved F F' g g' → rep (syms g') a → T ## F → good g' ∧ T ## F'.
Proof.
  intros [G1 G2 G3 G4 G5] M R Hd. split; [constructor; try done|].
  - apply M.
  - intros p Hp Hk. destruct (G3 p Hp Hk) as (n & pl & m & T1 & T2 & N & K & L & N' & C). exists n, pl, m.
    rewrite !(mv_frame _ _ _ _ M) by (set_solver || by apply G4). by split_and!.
  - intros q Hq. specialize (G4 q Hq). pose proof (mv_fresh _ _ _ _ M). lia.
  - by rewrite (mv_strs _ _ _ _ M).
  - intros q Hq Hq'. specialize (G4 q Hq). destruct (mv_new _ _ _ _ M q Hq'); [set_solver|lia].
Qed.

(** *** Reading *)

Lemma in_tree_same {A} (m : prog forest A) g x : m (trees g) = Ret x (trees g) → in_tree m g = Ret x g.
Proof. intros E. unfold in_tree, zoom. rewrite E. by destruct g. Qed.
Lemma null_at g p t : forest_ok (trees g) → tree_at (trees g) p t → null p g = Ret (isnull t) g.
Proof. intros. by apply in_tree_same, IsNull_ok. Qed.
Lemma op_at g p t : forest_ok (trees g) → tree_at (trees g) p t → op_of p g = Ret (opof t) g.
Proof. intros. by apply in_tree_same, NodeOp_ok. Qed.
Lemma val_at g p t : forest_ok (trees g) → tree_at (trees g) p t → val_of p g = Ret (valof t) g.
Proof. intros. by apply in_tree_same, IntVal_ok. Qed.
Lemma kind_at g p t : forest_ok (trees g) → tree_at (trees g) p t → kind_of p g = Ret (kindof t) g.
Proof. intros. by apply in_tree_same, NodeKind_ok. Qed.
Lemma node_left g p n q : nodes (trees g) !! p = Some n → n_kind n = EXPRNode → n_left n = Some q → left_of p g = Ret q g.
Proof.
  intros Hn Hk Hl. apply in_tree_same. unfold LeftChild, node_at. run (reads_Some (λ h, nodes h !! p) _ (trees g) Hn). rewrite Hk. by cbn; rewrite Hl.
Qed.
Lemma node_right g p n q : nodes (trees g) !! p = Some n → n_kind n = EXPRNode → n_right n = Some q → right_of p g = Ret q g.
Proof.
  intros Hn Hk Hl. apply in_tree_same. unfold RightChild, node_at. run (reads_Some (λ h, nodes h !! p) _ (trees g) Hn). rewrite Hk. by cbn; rewrite Hl.
Qed.
Lemma attr_good g p num : rep (syms g) a → st_range p → attr p num g = Ret (attr_of (attrs a) p num) g.
Proof.
  intros R Hp. destruct (r_attrs _ _ R) as [C HA]. unfold attr, in_syms, zoom. rewrite (GetAttr_ok _ _ _ HA p num Hp). by destruct g.
Qed.
Lemma entries_range g : rep (syms g) a → 0 ≤ entries a < ST_SIZE.
Proof. intros R. destruct (r_attrs _ _ R) as [C HA]. pose proof (ao_top _ _ _ HA). rewrite <-(r_entries _ _ R). lia. Qed.
Lemma symbol_range g p : rep (syms g) a → 0 ≤ p ≤ entries a → st_range p.
Proof. intros R Hp. pose proof (entries_range g R). unfold st_range. lia. Qed.

Lemma symbol_range' id p : symbol a id = Some p → 0 < p ≤ entries a ∧ binding (concat (blocks a)) id = Some p.
Proof.
  unfold symbol. destruct (binding _ id) as [p'|]; [|done]. destruct (_ && _) eqn:E; [|done]. intros [= ->].
  apply andb_true_iff in E as [?%Z.ltb_lt ?%Z.leb_le]. split; [lia|done].
Qed.
Lemma lookup_good g id p : rep (syms g) a → symbol a id = Some p →
  ∃ s, in_syms (LookUp id) g = Ret p (set_syms s g) ∧ rep s a.
Proof.
  intros R [_ E]%symbol_range'. pose proof (LookUp_ok (syms g) a id R) as H. unfold spec_lookup in H.
  rewrite (bind_Ret _ _ a a a), E in H by done. destruct H as (s & Es & Rs). exists s. split; [|done]. by apply in_syms_Ret.
Qed.
Lemma is_class_inv c : is_class a c = true → 0 < c ≤ entries a ∧ kind c = CLASS.
Proof. unfold is_class. rewrite !andb_true_iff, Z.ltb_lt, Z.leb_le, Z.eqb_eq. lia. Qed.

(** *** Fields *)

Lemma find_field_ok n fuel id l i0 i g : rep (syms g) a → 0 ≤ i0 → n = Z.to_nat (entries a - i0 + 1) → (n ≤ fuel)%nat →
  head (filter (λ i, called a i = id ∧ level a i = l + 1) (inside a n i0 l)) = Some i →
  find_field fuel id l i0 g = Ret (Some i) g ∧ i0 ≤ i ≤ entries a.
Proof.
  intros R. revert fuel i0. induction n as [|n IH]; intros fuel i0 Hi0 Hn Hf E; [done|]. destruct fuel as [|fuel]; [lia|].
  cbn [inside] in E. destruct (Z.ltb_spec l (level a i0)) as [Hl|]; [|done]. rewrite filter_cons in E.
  assert (st_range i0) as Hr by (apply (symbol_range g); [done|lia]). cbn [find_field].
  run (attr_good g i0 NAME_ATTR R Hr). fold (called a i0). case_decide as Hc.
  - injection E as <-. destruct Hc as [-> Hlev]. rewrite Z.eqb_refl. erewrite bind_Ret.
    2:{ run (attr_good g i0 NEST_ATTR R Hr). fold (level a i0). rewrite Hlev, Z.eqb_refl. reflexivity. }
    split; [done|lia].
  - assert ((if called a i0 =? id then nest ← attr i0 NEST_ATTR; mret (nest =? l + 1) else mret false) g = Ret false g) as Eh.
    { destruct (Z.eqb_spec (called a i0) id) as [Hid|]; [|done]. run (attr_good g i0 NEST_ATTR R Hr). fold (level a i0).
      by rewrite (proj2 (Z.eqb_neq (level a i0) _)) by tauto. }
    run Eh. clear Eh. run (eq_refl (get g)). rewrite (r_entries _ _ R).
    assert (0 < n)%nat as Hpos by (destruct n; [done|lia]). rewrite (proj2 (Z.leb_le (i0 + 1) _)) by lia.
    assert (st_range (i0 + 1)) as Hr1 by (apply (symbol_range g); [done|lia]).
    run (attr_good g (i0 + 1) NEST_ATTR R Hr1). fold (level a (i0 + 1)). rewrite Z.gtb_ltb.
    destruct n as [|n']; [lia|]. pose proof E as E'. cbn [inside] in E'. destruct (Z.ltb_spec l (level a (i0 + 1))) as [Hl1|]; [|done].
    destruct (IH fuel (i0 + 1)) as [H1 H2]; [lia|lia|lia|exact E|]. split; [exact H1|lia].
Qed.
Lemma field_ok c id i fuel g : rep (syms g) a → 0 ≤ c → field_of a c id = Some i → (Z.to_nat ST_SIZE ≤ fuel)%nat →
  find_field fuel id (level a c) (c + 1) g = Ret (Some i) g ∧ c < i ≤ entries a.
Proof.
  intros R Hc E Hf. pose proof (entries_range g R). destruct (find_field_ok (Z.to_nat (entries a - c)) fuel id (level a c) (c + 1) i g) as [H1 H2]; try done; [lia..|].
  split; [done|lia].
Qed.

(** Reading the type of a variable. *)
Lemma type_good g p : good g → st_range p → kind p = VAR ∨ kind p = ARR → ∃ pl,
  (∀ B (k : Z → prog gen B), (x ← attr p TYPE_ATTR; temp ← left_of x; k temp) g = k pl g) ∧
  kind_of pl g = Ret (kindof (type_leaf p)) g ∧
  ((∃ v, type_leaf p = TLeaf INTEGERTNode v) ∨
   (∃ c, type_leaf p = TLeaf STNode c ∧ val_of pl g = Ret c g ∧ 0 < c ≤ entries a)).
Proof.
  intros G Hp Hk. destruct (g_types g G p Hp Hk) as (n & pl & m & _ & _ & N & K & L & M & C). exists pl. split.
  { intros B k. run (attr_good g p TYPE_ATTR (g_syms g G) Hp). by run (node_left g _ n pl N K L). }
  assert (kind_of pl g = Ret (n_kind m) g) as Ek.
  { apply in_tree_same. unfold NodeKind, node_at. by run (reads_Some (λ h, nodes h !! pl) _ (trees g) M). }
  destruct C as [(v & -> & Hm)|(c & -> & Hm & Hv & Hc)]; (split; [by rewrite Ek, Hm|]); [left; by exists v|right].
  exists c. split_and!; try done; [|lia..]. apply in_tree_same. unfold IntVal, node_at.
  run (reads_Some (λ h, nodes h !! pl) _ (trees g) M). rewrite Hm. cbn. by rewrite Hv.
Qed.

(** *** Selectors *)

(** The two subtrees of a node are changed one after the other. *)
Lemma owned_both h p n o l r pl pr Fl Fr : nodes h !! p = Some n → n_kind n = EXPRNode → n_optype n = Some o → n_left n = Some pl → n_right n = Some pr →
  p ≠ NullExp → owned h pl l Fl → owned h pr r Fr → p ∉ Fl → p ∉ Fr → Fl ## Fr → owned h p (TExpr o l r) ({[ p ]} ∪ Fl ∪ Fr).
Proof. intros. split; [done|]. by exists n, pl, pr, Fl, Fr. Qed.

(** The name below the node [p] gives way to its symbol. *)
Lemma link_good g p n o pl pr k v sym r F : good g → nodes (trees g) !! p = Some n → n_kind n = EXPRNode →
  n_optype n = Some o → n_left n = Some pl → n_right n = Some pr → p ≠ NullExp → tree_at (trees g) pl (TLeaf k v) → p ≠ pl →
  owned (trees g) pr r F → p ∉ F → pl ∉ F → T ## {[ p ]} ∪ {[ pl ]} ∪ F →
  ∃ g1, link_left p pl sym g = Ret tt g1 ∧ good g1 ∧ moved ({[ p ]} ∪ {[ pl ]}) ({[ p ]} ∪ {[ fresh (trees g) ]}) g g1 ∧
    owned (trees g1) p (TExpr o (TLeaf STNode sym) r) ({[ p ]} ∪ {[ fresh (trees g) ]} ∪ F) ∧
    owned (trees g1) pr r F ∧ nodes (trees g1) !! p = Some (with_left (fresh (trees g)) n) ∧
    owned (trees g1) (fresh (trees g)) (TLeaf STNode sym) {[ fresh (trees g) ]}.
Proof.
  intros G Hn Hk Ho Hl Hr Hp Ht Hne O N1 N2 HT.
  destruct (link_left_run g p n pl pr k v sym (g_trees g G) Hn Hk Hl Hr Hp Ht Hne) as (h' & E & Mv & Hn' & Ht' & Hq).
  exists (set_trees h' g). assert ({[ p ]} ∪ {[ pl ]} ## F) as Hd by (clear -N1 N2; set_solver).
  destruct (moved_other _ _ _ _ _ _ _ (g_trees g G) Mv O Hd) as [O' Hd'].
  destruct (good_moved _ _ _ _ G Mv (g_syms g G)) as [G' _]; [clear -HT; set_solver|].
  split_and!; try done. eapply owned_both; try done; clear -Hd' Hq N1; set_solver.
Qed.

Section steps.
Context (M : Z → prog gen unit) (fuel : nat) (declop lchild : Z) (Hfuel : (Z.to_nat ST_SIZE ≤ fuel)%nat).
Notation loop := (varop_loop M fuel).

(** What is left of the selectors, if there are any. *)
Definition onward (n : nat) (i : Z) (r r' : ast) : Prop :=
  if isnull r then r' = TNull else walks (λ q, loop n declop lchild (mk_selection i q (Some true))) r r'.
Lemma onward_run n i r r' q F g : onward n i r r' → good g → owned (trees g) q r F → T ## F →
  ∃ g' F', again (loop n declop lchild) (Some (mk_selection i q (Some true))) g = Ret tt g' ∧ owned (trees g') q r' F' ∧ moved F F' g g' ∧ rep (syms g') a.
Proof.
  intros H G O HT. unfold onward in H. cbn [again rest]. pose proof (owned_tree _ _ _ _ O) as Ht.
  run (null_at g q r (g_trees g G) Ht). destruct (isnull r) eqn:E; [|by apply H].
  subst r'. destruct r; [|done..]. exists g, F. split_and!; [done|done|apply moved_id, G|apply G].
Qed.

Lemma class_step n c id i o rr r r' fnd : is_class a c = true → field_of a c id = Some i → onward n i r r' →
  walks (λ q, loop (S n) declop lchild (mk_selection c q fnd))
    (TExpr o (TExpr FieldOp (TLeaf IDNode id) rr) r) (TExpr o (TExpr FieldOp (TLeaf STNode i) rr) r').
Proof using Hfuel.
  intros [Hc Hk]%is_class_inv Hi Hon p g F G (Hp & n0 & q & pr & Fq & Fr & Hn0 & Hk0 & Ho0 & Hl0 & Hr0 & Oq & Or & N1 & N2 & Hd & ->) HT.
  pose proof Oq as (Hq & n1 & ql & qr & Fl & Frr & Hn1 & Hk1 & Ho1 & Hl1 & Hr1 & [Hleaf ->] & Orr & N3 & N4 & Hd1 & ->).
  pose proof (g_syms g G) as R. pose proof (g_trees g G) as Hok. assert (st_range c) as Hsc by (apply (symbol_range g); [done|lia]).
  destruct (field_ok c id i fuel g R ltac:(lia) Hi Hfuel) as [Ef Hri].
  destruct (link_good g q n1 FieldOp ql qr IDNode id i rr Frr G Hn1 Hk1 Ho1 Hl1 Hr1 Hq Hleaf) as (g1 & Elink & G1 & M1 & Oq1 & _ & _ & _);
    [clear -N3; set_solver|done|done|clear -Hd1; set_solver|clear -HT; set_solver|].
  set (f := fresh (trees g)) in *.
  assert ({[ q ]} ∪ {[ ql ]} ## Fr) as Hdr by (clear -Hd; set_solver).
  destruct (moved_other _ _ _ _ _ _ _ Hok M1 Or Hdr) as [Or1 Hdr'].
  destruct (moved_node _ _ _ _ p n0 M1 Hok Hn0) as [Hn01 Npf]; [clear -N1; set_solver|].
  destruct (onward_run n i r r' pr Fr g1 Hon G1 Or1) as (g2 & Fr2 & E2 & Or2 & M2 & R2); [clear -HT; set_solver|].
  assert (Fr ## {[ q ]} ∪ {[ f ]} ∪ Frr) as Hdq by (clear -Hd Hdr'; set_solver).
  destruct (moved_other _ _ _ _ _ _ _ (g_trees g1 G1) M2 Oq1 Hdq) as [Oq2 Hdq'].
  destruct (moved_node _ _ _ _ p n0 M2 (g_trees g1 G1) Hn01 N2) as [Hn02 Np2].
  exists g2, ({[ p ]} ∪ ({[ q ]} ∪ {[ f ]} ∪ Frr) ∪ Fr2). split; [|split; [|split; [|done]]].
  - cbn [varop_loop st_ind0]. run (attr_good g c KIND_ATTR R Hsc). change (attr_of (attrs a) c KIND_ATTR) with (kind c). rewrite Hk.
    cbn [Z.eqb Pos.eqb VAR CLASS PROCE FUNC orb].
    erewrite (bind_Ret (class_case _ _ _) _ _ (Some (mk_selection i pr (Some true)))); [exact E2|].
    unfold class_case. cbn [st_ind0 rest found]. run (attr_good g c NEST_ATTR R Hsc). run (node_left g p n0 q Hn0 Hk0 Hl0).
    run (op_at g q _ Hok (owned_tree _ _ _ _ Oq)). cbn [opof Z.eqb Pos.eqb FieldOp].
    run (node_left g q n1 ql Hn1 Hk1 Hl1). run (val_at g ql _ Hok Hleaf). cbn [valof]. run Ef. run Elink.
    by run (node_right g1 p n0 pr Hn01 Hk0 Hr0).
  - eapply owned_both; try done; clear -Npf N1 Hdq'; set_solver.
  - eapply (moved_seq _ _ _ _ _ _ _ _ _ M1 M2); [clear; set_solver|clear; set_solver|].
    intros x Hx. assert (x ∈ Fr2 → x ∈ Fr ∨ f ≤ x) as Hx2.
    { intros Hx2. destruct (mv_new _ _ _ _ M2 x Hx2) as [?|?]; [auto|]. pose proof (mv_fresh _ _ _ _ M1). right. unfold f. lia. }
    clear -Hx Hx2. rewrite !elem_of_union, !elem_of_singleton in Hx |- *. destruct Hx as [[->|[[->| ->]|?]]|?]; try tauto. right. lia.
Qed.

Context (hm : nat) (HM : ∀ x x', (height x < hm)%nat → resolve x = Some x' → walks M x x').

(** The loop over the indexes of the array [p], what follows it, and the rest. *)
Definition index_walk (n n' : nat) (k tempind p d : Z) (q0 : Z) (fnd : option bool) (q : Z) : prog gen unit :=
  r ← array_indexes M n' p (dimension a p) d q;
  s ← arr_end k tempind (dimension a p) (mk_selection p q0 fnd) r;
  again (loop n declop lchild) s.
Definition elem_type (p k c : Z) : Prop :=
  (∃ v, type_leaf p = TLeaf INTEGERTNode v ∧ k = INTEGERTNode ∧ c = 0) ∨
  (type_leaf p = TLeaf STNode c ∧ k = STNode ∧ 0 < c ≤ entries a).

Definition walk_ok t : Prop := ∀ p t' n fnd, 0 ≤ p ≤ entries a → kind p ≠ ARR → resolve_sel (Walk p) t = Some t' → (3 * height t ≤ n)%nat →
  walks (λ q, loop n declop lchild (mk_selection p q fnd)) t t'.
Definition index_ok t : Prop := ∀ p d t' n n' q0 fnd k c, 0 ≤ p ≤ entries a → kind p = ARR → elem_type p k c →
  resolve_sel (Index p d) t = Some t' → (3 * height t ≤ n)%nat → (height t ≤ n')%nat → walks (index_walk n n' k c p d q0 fnd) t t'.

(** Nothing changes. *)
Lemma walks_same (f : Z → prog gen unit) t : (∀ p g, good g → tree_at (trees g) p t → f p g = Ret tt g) → walks f t t.
Proof.
  intros H p g F G O HT. exists g, F. split_and!; [apply H; [done|by eapply owned_tree]|done|apply moved_id, G|apply G].
Qed.
Lemma walks_to (f f' : Z → prog gen unit) t t' : (∀ p g, good g → tree_at (trees g) p t → f p g = f' p g) → walks f' t t' → walks f t t'.
Proof. intros H W p g F G O HT. rewrite H; [by apply W|done|by eapply owned_tree]. Qed.

Lemma walk_null : walk_ok TNull.
Proof.
  intros p t' n fnd Hp Hk [= <-] Hn. apply walks_same. intros q g G Hq. destruct n as [|n]; [simpl in Hn; lia|].
  pose proof (g_syms g G) as R. pose proof (g_trees g G) as Hok. pose proof (symbol_range g p R Hp) as Hs.
  cbn [varop_loop st_ind0]. run (attr_good g p KIND_ATTR R Hs). change (attr_of (attrs a) p KIND_ATTR) with (kind p).
  assert (∀ s, rest s = q → again (loop n declop lchild) (Some s) g = Ret tt g) as Hend.
  { intros s Hs'. cbn [again]. rewrite Hs'. by run (null_at g q _ Hok Hq). }
  destruct (Z.eqb_spec (kind p) VAR) as [Hv|]; [|destruct (_ || _)].
  - destruct (type_good g p G Hs (or_introl Hv)) as (pl & Ety & Ekind & Hcase).
    destruct Hcase as [(v & Hl)|(c & Hl & Hc & Hr)].
    + rewrite (bind_Ret _ _ _ None g); [done|]. unfold var_case. cbn [st_ind0 rest]. rewrite Ety. run Ekind. rewrite Hl. cbn [kindof Z.eqb Pos.eqb INTEGERTNode].
      by run (null_at g q _ Hok Hq).
    + rewrite (bind_Ret _ _ _ (Some (mk_selection c q fnd)) g); [by apply Hend|]. unfold var_case. cbn [st_ind0 rest]. rewrite Ety. run Ekind. rewrite Hl.
      cbn [kindof Z.eqb Pos.eqb INTEGERTNode STNode]. run Hc. rewrite (proj2 (Z.eqb_neq c 0)) by lia. cbn [negb].
      erewrite bind_Ret; [reflexivity|]. by run (attr_good g c NEST_ATTR R ltac:(apply (symbol_range g); [done|lia])).
  - rewrite (bind_Ret _ _ _ None g); [done|]. unfold method_case. cbn [rest]. by run (null_at g q _ Hok Hq).
  - destruct (kind p =? CLASS); [|rewrite (proj2 (Z.eqb_neq _ _) Hk); by apply Hend].
    rewrite (bind_Ret _ _ _ (Some (mk_selection p q fnd)) g); [by apply Hend|]. unfold class_case. cbn [st_ind0 rest found].
    run (attr_good g p NEST_ATTR R Hs). destruct (LeftChild_ok _ Hok q _ Hq) as (ql & El & Hql). run (in_tree_same _ g ql El).
    by run (op_at g ql _ Hok Hql).
Qed.

(** A variable of a class leads to the class. *)
Lemma var_class n p c fnd q t g : good g → 0 ≤ p ≤ entries a → kind p = VAR → elem_class a type_leaf p = Some c → isnull t = false →
  tree_at (trees g) q t → loop (S n) declop lchild (mk_selection p q fnd) g = loop n declop lchild (mk_selection c q fnd) g.
Proof.
  intros G Hp Hv Hc Hn Hq. pose proof (g_syms g G) as R. pose proof (g_trees g G) as Hok. pose proof (symbol_range g p R Hp) as Hs.
  cbn [varop_loop st_ind0]. run (attr_good g p KIND_ATTR R Hs). change (attr_of (attrs a) p KIND_ATTR) with (kind p). rewrite Hv.
  cbn [Z.eqb Pos.eqb VAR]. rewrite (bind_Ret _ _ _ (Some (mk_selection c q fnd)) g).
  { cbn [again rest]. run (null_at g q t Hok Hq). by rewrite Hn. }
  unfold var_case. cbn [st_ind0 rest found]. destruct (type_good g p G Hs (or_introl Hv)) as (pl & Ety & Ekind & Hcase). rewrite Ety. run Ekind.
  unfold elem_class in Hc. destruct Hcase as [(v & Hl)|(c' & Hl & Ec & Hr)]; rewrite Hl in Hc |- *; [done|].
  cbn [Z.eqb Pos.eqb STNode] in Hc. destruct (is_class a c'); [|done]. injection Hc as ->. cbn [kindof Z.eqb Pos.eqb INTEGERTNode STNode].
  run Ec. rewrite (proj2 (Z.eqb_neq c 0)) by lia. cbn [negb]. erewrite bind_Ret; [reflexivity|].
  by run (attr_good g c NEST_ATTR R ltac:(apply (symbol_range g); [done|lia])).
Qed.
Lemma elem_type_ok g p : good g → 0 ≤ p ≤ entries a → kind p = ARR → ∃ k c, elem_type p k c.
Proof.
  intros G Hp Hk. destruct (type_good g p G (symbol_range g p (g_syms g G) Hp) (or_intror Hk)) as (_ & _ & _ & [(v & Hl)|(c & Hl & _ & Hr)]).
  - exists INTEGERTNode, 0. left. by exists v.
  - exists STNode, c. by right.
Qed.
(** An array starts the loop over its indexes. *)
Lemma array_enter n p k c fnd q t g : good g → 0 ≤ p ≤ entries a → kind p = ARR → elem_type p k c → isnull t = false → tree_at (trees g) q t →
  loop (S n) declop lchild (mk_selection p q fnd) g = index_walk n fuel k c p 0 q fnd q g.
Proof.
  intros G Hp Ha He Hn Hq. pose proof (g_syms g G) as R. pose proof (g_trees g G) as Hok. pose proof (symbol_range g p R Hp) as Hs.
  cbn [varop_loop st_ind0]. run (attr_good g p KIND_ATTR R Hs). change (attr_of (attrs a) p KIND_ATTR) with (kind p). rewrite Ha.
  cbn [Z.eqb Pos.eqb VAR PROCE FUNC CLASS ARR orb]. unfold mbind at 1, prog_bind at 1. unfold arr_case. cbn [st_ind0 rest found].
  run (null_at g q t Hok Hq). rewrite Hn. destruct (type_good g p G Hs (or_intror Ha)) as (pl & Ety & Ekind & Hcase). rewrite Ety.
  run (attr_good g p DIMEN_ATTR R Hs). change (attr_of (attrs a) p DIMEN_ATTR) with (dimension a p). run Ekind.
  unfold index_walk. destruct He as [(v & Hl & -> & ->)|(Hl & -> & Hr)]; rewrite Hl; cbn [kindof Z.eqb Pos.eqb INTEGERTNode STNode].
  - rewrite (bind_Ret _ _ _ 0 g) by done. cbn [negb andb]. by unfold mbind, prog_bind; destruct (array_indexes _ _ _ _ _ _ _).
  - destruct Hcase as [(v & Hl')|(c' & Hl' & Ec & _)]; [rewrite Hl in Hl'; discriminate|]. assert (c' = c) as -> by congruence. run Ec.
    rewrite (proj2 (Z.eqb_neq c 0)) by lia. cbn [negb andb]. by unfold mbind, prog_bind; destruct (array_indexes _ _ _ _ _ _ _).
Qed.

Lemma onward_ok n r t' i : 0 ≤ i ≤ entries a → walk_ok r → index_ok r → (3 * height r < n)%nat → (height r ≤ fuel)%nat →
  match r with TNull => Some TNull | _ => resolve_sel (enter a i) r end = Some t' → onward n i r t'.
Proof.
  intros Hi IHw IHi Hn Hf E. unfold onward. destruct (isnull r) eqn:Er; [destruct r; [by injection E|done..]|].
  assert (resolve_sel (enter a i) r = Some t') as E' by (by destruct r). clear E. unfold enter in E'.
  destruct (Z.eqb_spec (kind i) ARR) as [Ha|Ha]; [|apply IHw; [done|done|done|lia]].
  intros q g F G O HT. destruct (elem_type_ok g i G Hi Ha) as (k & c & He). destruct n as [|n]; [lia|].
  rewrite (array_enter n i k c _ q r g G Hi Ha He Er (owned_tree _ _ _ _ O)). eapply IHi; try done. lia.
Qed.

Lemma holder_class m c : holder a type_leaf m = Some c → is_class a c = true.
Proof.
  assert (∀ p, elem_class a type_leaf p = Some c → is_class a c = true) as He.
  { intros p. unfold elem_class. destruct (type_leaf p); [done| |done]. destruct (_ && _) eqn:E; [|done]. intros [= ->]. by apply andb_true_iff in E as [_ E]. }
  destruct m as [p|p d]; cbn [holder].
  - destruct (kind p =? VAR); [apply He|]. destruct (is_class a p) eqn:E; [|done]. by intros [= ->].
  - destruct (d =? dimension a p); [apply He|done].
Qed.
Lemma field_range g c i id : rep (syms g) a → is_class a c = true → field_of a c id = Some i → 0 ≤ i ≤ entries a.
Proof. intros R [Hc _]%is_class_inv Hi. destruct (field_ok c id i (Z.to_nat ST_SIZE) g R ltac:(lia) Hi ltac:(lia)) as [_ H]. lia. Qed.

(** A selection of a field, and what it is a field of. *)
Lemma field_inv m o e rr r t' : is_length len m (valof e) = false → resolve_sel m (TExpr o (TExpr FieldOp e rr) r) = Some t' →
  ∃ id c i r', e = TLeaf IDNode id ∧ holder a type_leaf m = Some c ∧ field_of a c id = Some i ∧
    match r with TNull => Some TNull | _ => resolve_sel (enter a i) r end = Some r' ∧ t' = TExpr o (TExpr FieldOp (TLeaf STNode i) rr) r'.
Proof.
  rewrite resolve_sel_eq. cbn [Z.eqb Pos.eqb FieldOp]. destruct e as [|k id|]; [done| |done]. cbn [valof]. intros ->.
  destruct (Z.eqb_spec k IDNode) as [->|]; [|done]. destruct (holder a type_leaf m) as [c|]; [|done]. cbn [mbind option_bind].
  destruct (field_of a c id) as [i|] eqn:Ei; [|done]. cbn [mbind option_bind].
  destruct (match r with TNull => Some TNull | _ => resolve_sel (enter a i) r end) as [r'|] eqn:Er; [|done]. intros [= <-].
  by exists id, c, i, r'.
Qed.

Lemma walk_field o e rr r : walk_ok r → index_ok r → (height r < fuel)%nat → walk_ok (TExpr o (TExpr FieldOp e rr) r).
Proof using Hfuel.
  intros IHw IHi Hf p t' n fnd Hp Hk E Hn q g F G O HT.
  destruct (field_inv (Walk p) o e rr r t' eq_refl E) as (id & c & i & r' & -> & Hc & Hi & Er & ->). pose proof (holder_class _ _ Hc) as Hcls.
  cbn [height] in Hn. assert (3 * height r + 3 ≤ n)%nat as Hn' by lia. destruct n as [|[|n]]; [lia..|].
  pose proof (field_range g c i id (g_syms g G) Hcls Hi) as Hri.
  assert (onward (S n) i r r' ∧ onward n i r r') as [Ho1 Ho2] by (split; apply onward_ok; try done; lia).
  cbn [holder] in Hc. destruct (Z.eqb_spec (kind p) VAR) as [Hv|Hv].
  - rewrite (var_class (S n) p c fnd q (TExpr o (TExpr FieldOp (TLeaf IDNode id) rr) r) g G Hp Hv Hc eq_refl (owned_tree _ _ _ _ O)). by eapply class_step.
  - destruct (is_class a p); [|done]. injection Hc as ->. by eapply class_step.
Qed.

Lemma index_null : index_ok TNull.
Proof.
  intros p d t' n n' q0 fnd k c Hp Ha He E Hn Hn'. cbn [SemanSpec.resolve_sel] in E. destruct (complete a (Index p d)) eqn:Ec; [|done].
  injection E as <-. cbn [complete] in Ec. apply andb_true_iff in Ec as [Hd%Z.ltb_lt Hdim%Z.eqb_eq]. apply walks_same. intros q g G Hq.
  destruct n' as [|n']; [simpl in Hn'; lia|]. pose proof (null_at g q _ (g_trees g G) Hq) as Enull. unfold index_walk. cbn [array_indexes].
  rewrite (bind_Ret _ _ _ (Some (d, q)) g) by (by run Enull). rewrite (bind_Ret _ _ _ (Some (mk_selection p q fnd)) g); [by cbn [again rest]; run Enull|].
  cbn [arr_end]. run Enull. cbn [isnull]. by rewrite Hdim, Z.ltb_irrefl.
Qed.

(** Behind the indexes comes a field: "length", or one of the elements' class. *)
Lemma index_field o e rr r : words_ok ws → used ws ≤ STRTBL_LEN → walk_ok r → index_ok r → (height r < fuel)%nat → index_ok (TExpr o (TExpr FieldOp e rr) r).
Proof using Hfuel.
  intros Hws Hroom IHw IHi Hf p d t' n n' q0 fnd k c Hp Ha He E Hn Hn'. destruct n' as [|n']; [simpl in Hn'; lia|].
  set (t := TExpr o (TExpr FieldOp e rr) r) in *.
  (** Up to the comparison with "length". *)
  assert (∀ q g, good g → tree_at (trees g) q t → (∃ k' id, e = TLeaf k' id) → index_walk n (S n') k c p d q0 fnd q g =
    (s ← (if valof e =? len then length_case (mk_selection p q0 fnd) q
          else if k =? INTEGERTNode then error_at TYPE_MIS p;; mret None
          else attr c NEST_ATTR;; mret (Some (mk_selection c q fnd)));
     again (loop n declop lchild) s) g) as Hstart.
  { intros q g G Hq (k' & id & ->). pose proof (g_trees g G) as Hok. pose proof Hq as (Hqn & n0 & pl & pr & Hn0 & Hk0 & Ho0 & Hl0 & Hr0 & Hpl & Hpr).
    pose proof Hpl as (Hpn & n1 & ql & qr & Hn1 & Hk1 & Ho1 & Hl1 & Hr1 & Hleaf & _). unfold index_walk. cbn [array_indexes].
    rewrite (bind_Ret _ _ _ (Some (d, q)) g).
    2:{ run (null_at g q _ Hok Hq). cbn [isnull t]. run (node_left g q n0 pl Hn0 Hk0 Hl0). run (op_at g pl _ Hok Hpl). done. }
    unfold mbind at 1, prog_bind at 1. unfold mbind at 1, prog_bind at 1. cbn [arr_end st_ind0 found].
    run (null_at g q _ Hok Hq). cbn [isnull t]. run (node_left g q n0 pl Hn0 Hk0 Hl0). run (node_left g pl n1 ql Hn1 Hk1 Hl1).
    run (val_at g ql _ Hok Hleaf). cbn [valof].
    erewrite bind_Ret; [reflexivity|]. apply in_strs_same. rewrite (g_strs g G). apply loc_str_run; [done| |done].
    unfold str_length. repeat constructor; done. }
  destruct (is_length len (Index p d) (valof e)) eqn:El; cbn [is_length] in El.
  - unfold t in E. rewrite resolve_sel_eq in E. cbn [Z.eqb Pos.eqb FieldOp] in E. destruct e as [|k' id|]; [done| |done]. cbn [valof is_length] in El, E. rewrite El in E.
    destruct (isnull r) eqn:Er; [|done]. injection E as <-. apply walks_same. intros q g G Hq. pose proof (g_trees g G) as Hok.
    rewrite (Hstart q g G Hq ltac:(by eexists _, _)). cbn [valof]. rewrite El.
    destruct (RightChild_ok _ Hok q _ Hq) as (pr & Er' & Hpr). cbn [rchild t] in Hpr. pose proof (null_at g pr r Hok Hpr) as En. rewrite Er in En.
    rewrite (bind_Ret _ _ _ (Some (mk_selection p pr fnd)) g); [by cbn [again rest]; run En|].
    unfold length_case. cbn [st_ind0 found]. run (in_tree_same _ g pr Er'). by run En.
  - destruct (field_inv (Index p d) o e rr r t' El E) as (id & c' & i & r' & -> & Hc & Hi & Er & ->). cbn [valof] in El. pose proof (holder_class _ _ Hc) as Hcls.
    cbn [holder] in Hc. destruct (d =? dimension a p); [|done]. unfold elem_class in Hc.
    destruct He as [(v & Hl & _)|(Hl & -> & Hrc)]; rewrite Hl in Hc; [done|]. cbn [Z.eqb Pos.eqb STNode] in Hc.
    destruct (is_class a c) eqn:Ecc; [|done]. injection Hc as <-. cbn [height t] in Hn, Hn'. destruct n as [|n]; [lia|].
    eapply walks_to with (f' := λ q, loop (S n) declop lchild (mk_selection c q fnd)).
    + intros q g G Hq. rewrite (Hstart q g G Hq ltac:(by eexists _, _)). cbn [valof]. rewrite El. cbn [Z.eqb Pos.eqb INTEGERTNode STNode].
      rewrite (bind_Ret _ _ _ (Some (mk_selection c q fnd)) g).
      * cbn [again rest]. run (null_at g q _ (g_trees g G) Hq). done.
      * by run (attr_good g c NEST_ATTR (g_syms g G) ltac:(apply (symbol_range g); [apply G|lia])).
    + intros q g F G O HT. pose proof (field_range g c i id (g_syms g G) Hcls Hi) as Hri.
      eapply class_step; try done. apply onward_ok; try done; lia.
Qed.

(** One index: its expression, unless it is a leaf. *)
Lemma index_expr e e' : (height e < hm)%nat → resolve e = Some e' →
  walks (λ p, k ← kind_of p; if k =? EXPRNode then M p else mret tt) e e'.
Proof using HM.
  intros Hh E p g F G O HT. run (kind_at g p e (g_trees g G) (owned_tree _ _ _ _ O)).
  destruct e as [|k v|o l r].
  - injection E as <-. exists g, F. split_and!; [done|done|apply moved_id, G|apply G].
  - injection E as <-. exists g, F. pose proof O as [(_ & Hk & _) _]. cbn [kindof]. rewrite (proj2 (Z.eqb_neq _ _) Hk).
    split_and!; [done|done|apply moved_id, G|apply G].
  - cbn [kindof Z.eqb Pos.eqb EXPRNode]. by apply (HM _ _ Hh E).
Qed.
Lemma index_step o o' e rr r : o' ≠ FieldOp → (height e < hm)%nat → index_ok r → index_ok (TExpr o (TExpr o' e rr) r).
Proof using HM Hfuel.
  intros Hfld Hh IHi p d t' n n' q0 fnd k c Hp Ha He E Hn Hn'. destruct n' as [|n']; [simpl in Hn'; lia|].
  rewrite resolve_sel_eq, (proj2 (Z.eqb_neq _ _) Hfld) in E. destruct (_ && _) eqn:Eb; [|done]. rewrite !andb_true_iff, Z.eqb_eq, Z.leb_le in Eb. destruct Eb as [[-> Hnull] Hdim].
  destruct rr; [clear Hnull|done..]. destruct (resolve e) as [e'|] eqn:Ee; [|done]. cbn [mbind option_bind] in E.
  destruct (resolve_sel (Index p (d + 1)) r) as [r'|] eqn:Er; [|done]. injection E as <-. cbn [height] in Hn, Hn'.
  intros q g F G O HT. pose proof O as (Hq & n0 & pl & pr & Fl & Fr & Hn0 & Hk0 & Ho0 & Hl0 & Hr0 & Ol & Or & N1 & N2 & Hd & ->).
  pose proof Ol as (Hpl & n1 & ql & qr & Fe & Frr & Hn1 & Hk1 & Ho1 & Hl1 & Hr1 & Oe & [-> ->] & N3 & _ & Hd1 & ->).
  pose proof (g_trees g G) as Hok.
  destruct (index_expr e e' Hh Ee ql g Fe G Oe) as (g1 & Fe1 & E1 & Oe1 & M1 & R1); [clear -HT; set_solver|].
  destruct (good_moved _ _ _ _ G M1 R1) as [G1 HT1]; [clear -HT; set_solver|].
  assert (Fe ## Fr) as Hdr by (clear -Hd; set_solver).
  destruct (moved_other _ _ _ _ _ _ _ Hok M1 Or Hdr) as [Or1 Hdr1].
  destruct (moved_node _ _ _ _ q n0 M1 Hok Hn0) as [Hn01 Nq1]; [clear -N1; set_solver|].
  destruct (moved_node _ _ _ _ pl n1 M1 Hok Hn1) as [Hn11 Np1]; [clear -N3; set_solver|].
  destruct (IHi p (d + 1) r' n n' q0 fnd k c Hp Ha He Er ltac:(lia) ltac:(lia) pr g1 Fr G1 Or1) as (g2 & Fr2 & E2 & Or2 & M2 & R2); [clear -HT; set_solver|].
  destruct (moved_other _ _ _ _ _ _ _ (g_trees g1 G1) M2 Oe1) as [Oe2 Hde2]; [clear -Hdr1; set_solver|].
  destruct (moved_node _ _ _ _ q n0 M2 (g_trees g1 G1) Hn01 N2) as [Hn02 Nq2].
  destruct (moved_node _ _ _ _ pl n1 M2 (g_trees g1 G1) Hn11) as [Hn12 Np2]; [clear -Hd; set_solver|].
  exists g2, ({[ q ]} ∪ ({[ pl ]} ∪ Fe1 ∪ ∅) ∪ Fr2). split; [|split; [|split; [|done]]].
  - unfold index_walk. cbn [array_indexes]. unfold mbind at 1, prog_bind at 1. run (null_at g q _ Hok (owned_tree _ _ _ _ O)). cbn [isnull].
    run (node_left g q n0 pl Hn0 Hk0 Hl0). run (op_at g pl _ Hok (owned_tree _ _ _ _ Ol)). cbn [opof Z.eqb Pos.eqb IndexOp FieldOp].
    rewrite Z.gtb_ltb, (proj2 (Z.ltb_ge _ _)) by lia. run (node_left g pl n1 ql Hn1 Hk1 Hl1).
    pose proof (kind_at g ql e Hok (owned_tree _ _ _ _ Oe)) as Ek. run Ek. rewrite (bind_Ret _ _ _ _ _ Ek) in E1. run E1.
    run (node_right g1 q n0 pr Hn01 Hk0 Hr0). exact E2.
  - eapply owned_both; try done; [|clear -Nq1 N1 Np1; set_solver|clear -Hde2 Np2; set_solver].
    eapply owned_both; try done; clear; set_solver.
  - eapply (moved_seq _ _ _ _ _ _ _ _ _ M1 M2); [clear; set_solver|clear; set_solver|].
    intros x Hx. assert (x ∈ Fr2 → x ∈ Fr ∨ fresh (trees g) ≤ x) as Hx2.
    { intros Hx2. destruct (mv_new _ _ _ _ M2 x Hx2) as [?|?]; [auto|]. pose proof (mv_fresh _ _ _ _ M1). right. lia. }
    pose proof (mv_new _ _ _ _ M1 x) as Hx1. clear -Hx Hx1 Hx2. rewrite !elem_of_union, !elem_of_singleton in Hx |- *. tauto.
Qed.

Lemma selectors_ok t : words_ok ws → used ws ≤ STRTBL_LEN → (height t ≤ hm)%nat → (height t ≤ fuel)%nat → walk_ok t ∧ index_ok t.
Proof using HM Hfuel.
  intros Hws Hroom. induction t as [|k v|o l IHl r IHr]; intros Hh Hf; [split; [apply walk_null|apply index_null]|split..].
  - by intros p t' n fnd _ _ [=].
  - by intros p d t' n n' q0 fnd k' c _ _ _ [=].
  - cbn [height] in Hh, Hf. destruct (IHr ltac:(lia) ltac:(lia)) as [H1 H2].
    destruct l as [|k v|o' e rr]; [by intros p t' n fnd _ _ [=]..|]. destruct (decide (o' = FieldOp)) as [->|Ho].
    + apply walk_field; [done|done|lia].
    + intros p t' n fnd _ _ E. by rewrite resolve_sel_eq, (proj2 (Z.eqb_neq _ _) Ho) in E.
  - cbn [height] in Hh, Hf. destruct (IHr ltac:(lia) ltac:(lia)) as [H1 H2].
    destruct l as [|k v|o' e rr]; [by intros p d t' n n' q0 fnd k' c _ _ _ [=]..|]. destruct (decide (o' = FieldOp)) as [->|Ho].
    + apply index_field; [done|done|done|done|lia].
    + cbn [height] in Hh. apply index_step; [done|lia|done].
Qed.
End steps.

(** *** Variables, calls and statements *)

(** The loop of [varop] on the selectors of the symbol [p]. *)
Lemma named_walk M fuel hm declop lchild p sel sel' : (∀ x x', (height x < hm)%nat → resolve x = Some x' → walks M x x') →
  words_ok ws → used ws ≤ STRTBL_LEN → (Z.to_nat ST_SIZE + 3 * height sel < fuel)%nat → (height sel ≤ hm)%nat → 0 ≤ p ≤ entries a →
  resolve_sel (enter a p) sel = Some sel' → walks (λ q, varop_loop M fuel fuel declop lchild (mk_selection p q None)) sel sel'.
Proof.
  intros HM Hws Hroom Hf Hh Hp E. destruct (selectors_ok M fuel declop lchild ltac:(lia) hm HM sel Hws Hroom Hh ltac:(lia)) as [Hwalk Hidx].
  unfold enter in E. destruct (Z.eqb_spec (SemanSpec.kind a p) ARR) as [Ha|Ha]; [|apply Hwalk; [done|done|done|lia]].
  intros q g F G O HT. destruct (isnull sel) eqn:En; [by destruct sel|]. destruct (elem_type_ok g p G Hp Ha) as (k & c & He).
  destruct fuel as [|fuel']; [lia|]. rewrite (array_enter M (S fuel') declop lchild ltac:(lia) fuel' p k c None q sel g G Hp Ha He En (owned_tree _ _ _ _ O)).
  apply (Hidx p 0 sel' fuel' (S fuel') q None k c); try done; lia.
Qed.
Lemma name_ok M fuel hm declop o id sel p sel' : (∀ x x', (height x < hm)%nat → resolve x = Some x' → walks M x x') →
  words_ok ws → used ws ≤ STRTBL_LEN → (Z.to_nat ST_SIZE + 3 * height sel < fuel)%nat → (height sel ≤ hm)%nat →
  symbol a id = Some p → resolve_sel (enter a p) sel = Some sel' →
  walks (λ q, varop M fuel q declop) (TExpr o (TLeaf IDNode id) sel) (TExpr o (TLeaf STNode p) sel').
Proof.
  intros HM Hws Hroom Hf Hh Hs E q g F G O HT. pose proof O as (Hq & n0 & pl & pr & Fl & Fr & Hn0 & Hk0 & Ho0 & Hl0 & Hr0 & [Hleaf ->] & Or & N1 & N2 & Hd & ->).
  destruct (symbol_range' id p Hs) as [Hp _]. destruct (lookup_good g id p (g_syms g G) Hs) as (s & Elook & Rs).
  set (g0 := set_syms s g). assert (good g0) as G0 by (destruct G; by constructor).
  destruct (link_good g0 q n0 o pl pr IDNode id p sel Fr G0 Hn0 Hk0 Ho0 Hl0 Hr0 Hq Hleaf) as (g1 & Elink & G1 & M1 & _ & Or1 & Hn1 & Of);
    [clear -N1; set_solver|done|done|clear -Hd; set_solver|clear -HT; set_solver|].
  set (f := fresh (trees g0)) in *. pose proof M1 as [_ _ _ Hnew _ _].
  assert (∃ g2 Fr2, varop_loop M fuel fuel declop pl (mk_selection p pr None) g1 = Ret tt g2 ∧ owned (trees g2) pr sel' Fr2 ∧ moved Fr Fr2 g1 g2 ∧ rep (syms g2) a)
    as (g2 & Fr2 & E2 & Or2 & M2 & R2).
  { apply (named_walk M fuel hm declop pl p sel sel' HM Hws Hroom Hf Hh ltac:(lia) E pr g1 Fr G1 Or1). clear -HT; set_solver. }
  destruct (moved_node _ _ _ _ q _ M2 (g_trees g1 G1) Hn1 N2) as [Hn2 Nq2].
  assert (Fr ## {[ f ]}) as Hdf.
  { pose proof (owned_lt _ _ _ _ (g_trees g0 G0) Or) as Hlt. intros x Hx ->%elem_of_singleton. specialize (Hlt f Hx). unfold f in Hlt. lia. }
  destruct (moved_other _ _ _ _ _ _ _ (g_trees g1 G1) M2 Of Hdf) as [Of2 Hdf2].
  assert (q ≠ f) as Nqf. { destruct (g_trees g0 G0) as (_ & _ & Hdom). specialize (Hdom q n0 Hn0). unfold f. lia. }
  exists g2, ({[ q ]} ∪ {[ f ]} ∪ Fr2). split; [|split; [|split; [|done]]].
  - unfold varop. run (node_left g q n0 pl Hn0 Hk0 Hl0). run (node_right g q n0 pr Hn0 Hk0 Hr0). run (val_at g pl _ (g_trees g G) Hleaf). cbn [valof].
    run Elook. rewrite (proj2 (Z.eqb_neq p 0)) by lia. fold g0. run Elink. exact E2.
  - eapply owned_both; try done; clear -Nqf Hdf2; set_solver.
  - assert (moved ({[ q ]} ∪ {[ pl ]}) ({[ q ]} ∪ {[ f ]}) g g1) as M1' by (by destruct M1; constructor).
    eapply (moved_seq _ _ _ _ _ _ _ _ _ M1' M2); [clear; set_solver|clear; set_solver|].
    intros x Hx. assert (x ∈ Fr2 → x ∈ Fr ∨ fresh (trees g) ≤ x) as Hx2.
    { intros Hx2. destruct (mv_new _ _ _ _ M2 x Hx2) as [?|?]; [auto|]. pose proof (mv_fresh _ _ _ _ M1'). right. lia. }
    pose proof (mv_new _ _ _ _ M1' x) as Hx1. clear -Hx Hx1 Hx2. set_unfold. tauto.
Qed.

(** Two subtrees, one after the other. *)
Lemma both_walk (f1 f2 : Z → prog gen unit) p n o l r l' r' pl pr g F : good g → nodes (trees g) !! p = Some n → n_left n = Some pl → n_right n = Some pr →
  owned (trees g) p (TExpr o l r) F → T ## F → walks f1 l l' → walks f2 r r' →
  ∃ g1 g2 F', f1 pl g = Ret tt g1 ∧ nodes (trees g1) !! p = Some n ∧ f2 pr g1 = Ret tt g2 ∧
    owned (trees g2) p (TExpr o l' r') F' ∧ moved F F' g g2 ∧ rep (syms g2) a.
Proof.
  intros G Hn Hl Hr O HT W1 W2. destruct O as (Hp & n' & pl' & pr' & Fl & Fr & Hn' & Hk & Ho & Hl' & Hr' & Ol & Or & N1 & N2 & Hd & ->).
  assert (n' = n ∧ pl' = pl ∧ pr' = pr) as (-> & -> & ->) by (split; [|split]; congruence). pose proof (g_trees g G) as Hok.
  destruct (W1 pl g Fl G Ol) as (g1 & Fl1 & E1 & Ol1 & M1 & R1); [clear -HT; set_solver|].
  destruct (good_moved _ _ _ _ G M1 R1) as [G1 _]; [clear -HT; set_solver|].
  destruct (moved_other _ _ _ _ _ _ _ Hok M1 Or Hd) as [Or1 Hd1]. destruct (moved_node _ _ _ _ p n M1 Hok Hn N1) as [Hn1 N1'].
  destruct (W2 pr g1 Fr G1 Or1) as (g2 & Fr2 & E2 & Or2 & M2 & R2); [clear -HT; set_solver|].
  destruct (moved_other _ _ _ _ _ _ _ (g_trees g1 G1) M2 Ol1) as [Ol2 Hd2]; [clear -Hd1; set_solver|].
  destruct (moved_node _ _ _ _ p n M2 (g_trees g1 G1) Hn1 N2) as [Hn2 N2'].
  exists g1, g2, ({[ p ]} ∪ Fl1 ∪ Fr2). split_and!; try done.
  - by eapply owned_both.
  - eapply (moved_seq _ _ _ _ _ _ _ _ _ M1 M2); [clear; set_solver|clear; set_solver|].
    intros x Hx. assert (x ∈ Fr2 → x ∈ Fr ∨ fresh (trees g) ≤ x) as Hx2.
    { intros Hx2. destruct (mv_new _ _ _ _ M2 x Hx2) as [?|?]; [auto|]. pose proof (mv_fresh _ _ _ _ M1). right. lia. }
    pose proof (mv_new _ _ _ _ M1 x) as Hx1. clear -Hx Hx1 Hx2. rewrite !elem_of_union, !elem_of_singleton in Hx |- *. tauto.
Qed.

Lemma arguments_ok M hm : (∀ x x', (height x < hm)%nat → resolve x = Some x' → walks M x x') →
  ∀ t t' n, (height t ≤ hm)%nat → (height t ≤ n)%nat → resolve_args t = Some t' → walks (arguments_loop M n) t t'.
Proof.
  intros HM t. induction t as [|k v|o l IHl r IHr]; intros t' n Hh Hn E; (destruct n as [|n]; [simpl in Hn; lia|]).
  - injection E as <-. apply walks_same. intros p g G Hp. cbn [arguments_loop]. by run (null_at g p _ (g_trees g G) Hp).
  - done.
  - rewrite resolve_args_eq in E. destruct (resolve l) as [l'|] eqn:El; [|done]. cbn [mbind option_bind] in E.
    destruct (resolve_args r) as [r'|] eqn:Er; [|done]. injection E as <-. cbn [height] in Hh, Hn.
    intros p g F G O HT. pose proof O as (_ & n0 & pl & pr & _ & _ & Hn0 & Hk0 & _ & Hl0 & Hr0 & _).
    assert (walks M l l') as Wl by (apply HM; [lia|done]). assert (walks (arguments_loop M n) r r') as Wr by (apply IHr; [lia|lia|done]).
    destruct (both_walk M (arguments_loop M n) p n0 o l r l' r' pl pr g F G Hn0 Hl0 Hr0 O HT Wl Wr) as (g1 & g2 & F' & E1 & Hn1 & E2 & O2 & M2 & R2).
    exists g2, F'. split_and!; try done. cbn [arguments_loop]. run (null_at g p _ (g_trees g G) (owned_tree _ _ _ _ O)). cbn [isnull].
    run (node_left g p n0 pl Hn0 Hk0 Hl0). run E1. by run (node_right g1 p n0 pr Hn1 Hk0 Hr0).
Qed.

Section programs.
Context (Hws : words_ok ws) (Hroom : used ws ≤ STRTBL_LEN).

Definition enough (t : ast) (fuel : nat) : Prop := (Z.to_nat ST_SIZE + 4 * height t ≤ fuel)%nat.

Lemma declares_inv o : declares o = false → (o =? ClassDefOp) = false ∧ (o =? MethodOp) = false ∧ (o =? DeclOp) = false ∧
  (o =? SpecOp) = false ∧ (o =? TypeIdOp) = false.
Proof. unfold declares. cbn [existsb]. rewrite !orb_false_iff. tauto. Qed.

Lemma MkST_null fuel p g : good g → tree_at (trees g) p TNull → MkST (S fuel) p g = Ret tt g.
Proof. intros G Hp. cbn [MkST]. by run (null_at g p _ (g_trees g G) Hp). Qed.
Lemma MkST_leaf fuel k v : walks (MkST (S (S fuel))) (TLeaf k v) (TLeaf k v).
Proof.
  apply walks_same. intros p g G Hp. pose proof (g_trees g G) as Hok. cbn [MkST]. run (null_at g p _ Hok Hp). cbn [isnull].
  run (op_at g p _ Hok Hp). cbn [opof Z.eqb Pos.eqb]. unfold ClassDefOp, MethodOp, DeclOp, SpecOp, TypeIdOp, VarOp, RoutineCallOp. cbn [Z.eqb].
  destruct (LeftChild_ok _ Hok p _ Hp) as (ql & El & Hql). destruct (RightChild_ok _ Hok p _ Hp) as (qr & Er & Hqr).
  run (in_tree_same _ g ql El). run (MkST_null fuel ql g G Hql). run (in_tree_same _ g qr Er). by apply MkST_null.
Qed.

Lemma MkST_walks fuel x x' : enough x fuel → resolve x = Some x' → walks (MkST fuel) x x'.
Proof using Hws Hroom.
  unfold enough. revert x x'. induction fuel as [|fuel IH]; intros x x' Hf E; [unfold ST_SIZE in Hf; lia|].
  assert (∀ y y', (height y < height x)%nat → resolve y = Some y' → walks (MkST fuel) y y') as HM by (intros y y' Hy Ey; apply IH; [lia|done]).
  destruct x as [|k v|o l r].
  - injection E as <-. apply walks_same. intros p g G Hp. by apply MkST_null.
  - injection E as <-. destruct fuel; [unfold ST_SIZE in Hf; simpl in Hf; lia|]. apply MkST_leaf.
  - cbn [height] in Hf. rewrite resolve_eq in E. destruct (Z.eqb_spec o VarOp) as [->|Hv]; [|destruct (Z.eqb_spec o RoutineCallOp) as [->|Hr]].
    + destruct l as [|k id|]; [done| |done]. destruct (Z.eqb_spec k IDNode) as [->|]; [|done]. destruct (symbol a id) as [p|] eqn:Es; [|done]. cbn [mbind option_bind] in E.
      destruct (resolve_sel (enter a p) r) as [r'|] eqn:Er; [|done]. injection E as <-.
      eapply (walks_to _ (λ q, varop (MkST fuel) fuel q 0)); [|eapply (name_ok _ fuel _ 0 VarOp id r p r' HM); try done; cbn [height] in Hf |- *; lia].
      intros q g G Hq. cbn [MkST]. run (null_at g q _ (g_trees g G) Hq). cbn [isnull]. by run (op_at g q _ (g_trees g G) Hq).
    + destruct l as [|k id|o' [|k id|] sel]; [done..| |done]. destruct (Z.eqb_spec k IDNode) as [->|]; [|done]. destruct (symbol a id) as [p|] eqn:Es; [|done]. cbn [mbind option_bind] in E.
      destruct (resolve_sel (enter a p) sel) as [sel'|] eqn:El; [|done]. cbn [mbind option_bind] in E.
      destruct (resolve_args r) as [r'|] eqn:Er; [|done]. injection E as <-.
      assert (walks (λ q, varop (MkST fuel) fuel q 2) (TExpr o' (TLeaf IDNode id) sel) (TExpr o' (TLeaf STNode p) sel')) as Wl.
      { eapply (name_ok _ fuel _ 2 o' id sel p sel' HM); try done; cbn [height] in Hf |- *; lia. }
      assert (walks (arguments_loop (MkST fuel) fuel) r r') as Wr by (eapply (arguments_ok _ _ HM); try done; cbn [height] in Hf |- *; lia).
      intros q g F G O HT. pose proof O as (_ & n0 & pl & pr & _ & _ & Hn0 & Hk0 & _ & Hl0 & Hr0 & _). pose proof (owned_tree _ _ _ _ O) as Hq.
      destruct (both_walk _ _ q n0 _ _ _ _ _ pl pr g F G Hn0 Hl0 Hr0 O HT Wl Wr) as (g1 & g2 & F' & E1 & Hn1 & E2 & O2 & M2 & R2).
      exists g2, F'. split_and!; try done. cbn [MkST]. run (null_at g q _ (g_trees g G) Hq). cbn [isnull]. run (op_at g q _ (g_trees g G) Hq). cbn [opof Z.eqb Pos.eqb RoutineCallOp ClassDefOp MethodOp DeclOp SpecOp TypeIdOp VarOp].
      unfold routinecallop. run (node_left g q n0 pl Hn0 Hk0 Hl0). run (node_right g q n0 pr Hn0 Hk0 Hr0). by run E1.
    + destruct (declares o) eqn:Ed; [done|]. destruct (resolve l) as [l'|] eqn:El; [|done]. cbn [mbind option_bind] in E.
      destruct (resolve r) as [r'|] eqn:Er; [|done]. injection E as <-.
      assert (walks (MkST fuel) l l') as Wl by (apply HM; [cbn [height]; lia|done]).
      assert (walks (MkST fuel) r r') as Wr by (apply HM; [cbn [height]; lia|done]).
      intros q g F G O HT. pose proof O as (_ & n0 & pl & pr & _ & _ & Hn0 & Hk0 & _ & Hl0 & Hr0 & _). pose proof (owned_tree _ _ _ _ O) as Hq.
      destruct (both_walk _ _ q n0 _ _ _ _ _ pl pr g F G Hn0 Hl0 Hr0 O HT Wl Wr) as (g1 & g2 & F' & E1 & Hn1 & E2 & O2 & M2 & R2).
      exists g2, F'. split_and!; try done. cbn [MkST]. run (null_at g q _ (g_trees g G) Hq). cbn [isnull]. run (op_at g q _ (g_trees g G) Hq). cbn [opof].
      destruct (declares_inv o Ed) as (-> & -> & -> & -> & ->). rewrite (proj2 (Z.eqb_neq _ _) Hv), (proj2 (Z.eqb_neq _ _) Hr).
      run (node_left g q n0 pl Hn0 Hk0 Hl0). run E1. by run (node_right g1 q n0 pr Hn1 Hk0 Hr0).
Qed.
End programs.
End walking.
