(* ===== verification/SemanScope.v ===== *)
(** * Blocks are opened and closed in pairs

    Whatever the tree of the parser looks like: when [MkST] of CS2210/seman.c
    returns, the blocks around the place where it started are what they were,
    only the innermost one may have grown, and the symbols declared before keep
    their names and levels. *)
From S2P Require Import Prelude StrTable SymTab Tree Mips Codegen Seman SemanSpec.
Open Scope Z_scope.

(** ** What an analysis may do to the symbol table *)

Record later (a a' : scoping) : Prop := {
  lt_entries : entries a ≤ entries a';
  lt_named p num : p ≤ entries a → num = NAME_ATTR ∨ num = NEST_ATTR → attrs a' !! (p, num) = attrs a !! (p, num);
  lt_reports : ∃ l, reports a' = reports a ++ l
}.
Definition grows (a a' : scoping) : Prop := later a a' ∧ ∃ l b bs, blocks a = b :: bs ∧ blocks a' = (l ++ b) :: bs.
(** [a'] is in a block of [a]. *)
Definition deeper (a a' : scoping) : Prop := later a a' ∧ ∃ b, blocks a' = b :: blocks a.

#[export] Instance later_preorder : PreOrder later.
Proof.
  split.
  - intros a. constructor; [lia|done|]. exists []. by rewrite app_nil_r.
  - intros a1 a2 a3 [E1 N1 [r1 R1]] [E2 N2 [r2 R2]]. constructor; [lia| |].
    + intros p num Hp Hn. rewrite N2, N1 by (lia || done). done.
    + exists (r1 ++ r2). by rewrite R2, R1, <-app_assoc.
Qed.
Lemma grows_refl s a : rep s a → grows a a.
Proof. intros R. split; [done|]. destruct (blocks a) as [|b bs] eqn:E; [by destruct (r_open _ _ R)|]. by exists [], b, bs. Qed.
Lemma grows_trans a1 a2 a3 : grows a1 a2 → grows a2 a3 → grows a1 a3.
Proof.
  intros [L1 (l1 & b1 & bs1 & B1 & B1')] [L2 (l2 & b2 & bs2 & B2 & B2')]. split; [by etrans|].
  rewrite B1' in B2. injection B2 as <- <-. exists (l2 ++ l1), b1, bs1. by rewrite <-app_assoc.
Qed.
Lemma deeper_grows a1 a2 a3 : deeper a1 a2 → grows a2 a3 → deeper a1 a3.
Proof.
  intros [L1 (b & B)] [L2 (l & b2 & bs & B2 & B3)]. split; [by etrans|]. rewrite B in B2. injection B2 as <- <-. by exists (l ++ b).
Qed.

(** ** Following the abstract table *)

Lemma refines_Ret {A} (m : prog symtab A) (m' : prog scoping A) s a r s' : refines (m s) (m' a) → m s = Ret r s' → m' a ≠ Undef →
  ∃ a', m' a = Ret r a' ∧ rep s' a'.
Proof.
  unfold refines. destruct (m' a) as [r' a'|code a'| |]; [..|done].
  - intros (s1 & -> & R) [= -> ->] _. by exists a'.
  - by intros (s1 & -> & _) [=].
  - by intros _ _ [].
Qed.

Section scoped.

(** When [m] returns the scopes have only grown; [e] symbols were there. *)
Definition scoped {A} (e : Z) (m : prog gen A) : Prop := ∀ a g r g', e ≤ entries a → rep (syms g) a → m g = Ret r g' →
  ∃ a', rep (syms g') a' ∧ grows a a'.
(** The same for what follows inside a block, up to its end. *)
Definition closing {A} (e : Z) (m : prog gen A) : Prop := ∀ a0 a g r g', e ≤ entries a0 → blocks a0 ≠ [] → deeper a0 a → rep (syms g) a → m g = Ret r g' →
  ∃ a', rep (syms g') a' ∧ grows a0 a'.

Lemma scoped_weaken {A} e e' (m : prog gen A) : scoped e' m → e' ≤ e → scoped e m.
Proof. intros H He a g r g' Ha. apply H. lia. Qed.
Lemma scoped_same {A} e (m : prog gen A) : (∀ a g r g', rep (syms g) a → m g = Ret r g' → syms g' = syms g) → scoped e m.
Proof. intros H a g r g' _ R E. exists a. rewrite (H a g r g' R E). split; [done|by eapply grows_refl]. Qed.
Lemma scoped_bind {A B} e (m : prog gen A) (k : A → prog gen B) : scoped e m → (∀ r, scoped e (k r)) → scoped e (m ≫= k).
Proof.
  intros H1 H2 a g r g' Ha R (x & g1 & E1 & E2)%bind_Ret_inv. destruct (H1 a g x g1 Ha R E1) as (a1 & R1 & G1).
  destruct (H2 x a1 g1 r g') as (a2 & R2 & G2); [|done|done|].
  - destruct G1 as [[]]. lia.
  - exists a2. split; [done|by eapply grows_trans].
Qed.
Lemma closing_bind {A B} e (m : prog gen A) (k : A → prog gen B) : scoped e m → (∀ r, closing e (k r)) → closing e (m ≫= k).
Proof.
  intros H1 H2 a0 a g r g' Ha Hne D R (x & g1 & E1 & E2)%bind_Ret_inv. assert (e ≤ entries a) as Ha1 by (destruct D as [[]]; lia).
  destruct (H1 a g x g1 Ha1 R E1) as (a1 & R1 & G1). apply (H2 x a0 a1 g1 r g'); try done. by eapply deeper_grows.
Qed.
Lemma in_syms_inv {A} (m : prog symtab A) g r g' : in_syms m g = Ret r g' → m (syms g) = Ret r (syms g').
Proof. unfold in_syms, zoom. destruct (m (syms g)); [|done..]. by intros [= -> <-]. Qed.

(** Opening and closing. *)
Lemma scoped_open {A} e (k : unit → prog gen A) : (∀ r, closing e (k r)) → scoped e (in_syms OpenBlock ≫= k).
Proof.
  intros Hk a g r g' Ha R (x & g1 & E1%in_syms_inv & E2)%bind_Ret_inv.
  destruct (refines_Ret OpenBlock spec_open (syms g) a x (syms g1)) as (a1 & S1 & R1); [by apply OpenBlock_ok|done| |].
  { unfold spec_open, spec_push, mbind, prog_bind. cbn [get]. by destruct (_ >=? _). }
  assert (a1 = put_blocks ([] :: blocks a) a) as ->.
  { revert S1. unfold spec_open, spec_push, mbind, prog_bind. cbn [get]. destruct (_ >=? _); [done|]. by intros [= _ <-]. }
  apply (Hk x a (put_blocks ([] :: blocks a) a) g1 r g' Ha (r_open _ _ R)); [|done|done]. split; [constructor; [done|done|]|by exists []]. exists []. cbn. by rewrite app_nil_r.
Qed.
Lemma closing_close e : closing e (in_syms CloseBlock).
Proof.
  intros a0 a g r g' Ha Hne [[L1 L2 L3] (b & B)] R E%in_syms_inv. destruct (blocks a0) as [|b0 bs] eqn:B0; [done|].
  destruct (refines_Ret CloseBlock spec_close (syms g) a r (syms g')) as (a1 & S1 & R1); [by eapply CloseBlock_ok|done| |].
  { unfold spec_close, mbind, prog_bind. cbn [get]. by rewrite B. }
  unfold spec_close, mbind, prog_bind in S1. cbn [get] in S1. rewrite B in S1. injection S1 as _ <-.
  exists (put_blocks (b0 :: bs) a). split; [done|]. split; [by constructor|]. by exists [], b0, bs.
Qed.

(** *** The operations of the analysis *)

Lemma GetAttr_same a s p num r s' : rep s a → GetAttr p num s = Ret r s' → s' = s.
Proof.
  intros R E. destruct (r_attrs _ _ R) as [C HA]. destruct (decide (st_range p)) as [Hp|Hp].
  - rewrite (GetAttr_ok _ _ _ HA p num Hp) in E. congruence.
  - exfalso. unfold GetAttr, IsAttr in E. apply bind_Ret_inv in E as (i & s1 & E & _). apply bind_Ret_inv in E as (j & s2 & E & _).
    unfold reads in E. destruct (aget (st s) p) eqn:Ea; [|done]. apply aget_bounds in Ea. destruct (ao_len _ _ _ HA) as [Hl _].
    unfold st_range, ST_SIZE in *. lia.
Qed.
Lemma IsAttr_same a s p num r s' : rep s a → IsAttr p num s = Ret r s' → s' = s.
Proof.
  intros R E. destruct (r_attrs _ _ R) as [C HA]. destruct (decide (st_range p)) as [Hp|Hp].
  - rewrite (IsAttr_ok _ _ _ HA p num Hp) in E. congruence.
  - exfalso. unfold IsAttr in E. apply bind_Ret_inv in E as (j & s2 & E & _).
    unfold reads in E. destruct (aget (st s) p) eqn:Ea; [|done]. apply aget_bounds in Ea. destruct (ao_len _ _ _ HA) as [Hl _].
    unfold st_range, ST_SIZE in *. lia.
Qed.
Lemma scoped_attr e p num : scoped e (attr p num).
Proof. apply scoped_same. intros a g r g' R E%in_syms_inv. by eapply GetAttr_same. Qed.
Lemma scoped_is_attr e p num : scoped e (in_syms (IsAttr p num)).
Proof. apply scoped_same. intros a g r g' R E%in_syms_inv. by eapply IsAttr_same. Qed.
Lemma scoped_tree {A} e (m : prog forest A) : scoped e (in_tree m).
Proof. apply scoped_same. intros a g r g' _. unfold in_tree, zoom. destruct (m (trees g)); [|done..]. by intros [= _ <-]. Qed.
Lemma scoped_strs {A} e (m : prog strtab A) : scoped e (in_strs m).
Proof. apply scoped_same. intros a g r g' _. unfold in_strs, zoom. destruct (m (strs g)); [|done..]. by intros [= _ <-]. Qed.
Lemma scoped_ret {A} e (x : A) : scoped e (mret x).
Proof. apply scoped_same. by intros a g r g' _ [= _ <-]. Qed.
Lemma scoped_get e : scoped e get.
Proof. apply scoped_same. by intros a g r g' _ [= _ <-]. Qed.
Lemma scoped_undef {A} e : scoped (A:=A) e undef.
Proof. by intros a g r g' _ _ E. Qed.
Lemma scoped_exit {A} e code : scoped (A:=A) e (exit_with code).
Proof. by intros a g r g' _ _ E. Qed.
Lemma scoped_fuel {A} e : scoped (A:=A) e out_of_fuel.
Proof. by intros a g r g' _ _ E. Qed.

Lemma scoped_error e type id : scoped e (error type id).
Proof.
  intros a g r g' _ R [= _ <-]. exists (report (type, id) a). split.
  - destruct R as [[C HA] ? ? ? ? ? ? ? Hm]. constructor; try done; [exists C; by destruct HA; constructor|cbn; by rewrite Hm].
  - split; [constructor; [done|done|by exists [(type, id)]]|]. destruct (grows_refl _ _ R) as [_ H]. exact H.
Qed.
Lemma grows_named a m n : grows a (mk_scoping (blocks a) m (entries a) n (reports a)) ↔
  blocks a ≠ [] ∧ ∀ p num, p ≤ entries a → num = NAME_ATTR ∨ num = NEST_ATTR → m !! (p, num) = attrs a !! (p, num).
Proof.
  split.
  - intros [[_ H _] (l & b & bs & E & _)]. split; [by rewrite E|exact H].
  - intros [Hne H]. split; [constructor; [done|done|exists []; by rewrite app_nil_r]|]. destruct (blocks a) as [|b bs] eqn:E; [done|]. by exists [], b, bs.
Qed.
Lemma scoped_set e p num val : 0 ≤ p ≤ e → num ≠ NAME_ATTR → num ≠ NEST_ATTR → -128 ≤ num < 128 → scoped e (set_attr p num val).
Proof.
  intros Hp N1 N2 Hn a g r g' Ha R E%in_syms_inv.
  destruct (refines_Ret (SetAttr p num val) (spec_set p num val) (syms g) a r (syms g')) as (a1 & S1 & R1); [by apply SetAttr_refines|done| |].
  - unfold spec_set, mbind, prog_bind. cbn [get]. rewrite (proj2 (Z.leb_le 0 p)), (proj2 (Z.leb_le p _)), (proj2 (Z.leb_le _ num)), (proj2 (Z.ltb_lt num _)) by lia.
    cbn [andb]. destruct (attrs a !! (p, num)); [done|]. by destruct (_ >=? _).
  - exists a1. split; [done|]. revert S1. unfold spec_set, mbind, prog_bind. cbn [get]. destruct (_ && _); [|done].
    assert (∀ n, grows a (mk_scoping (blocks a) (<[(p, num) := val]> (attrs a)) (entries a) n (reports a))) as Hg.
    { intros n. apply grows_named. split; [apply (r_open _ _ R)|]. intros q num' _ Hnum. rewrite lookup_insert_ne; [done|]. intros [= _ ->]. by destruct Hnum. }
    destruct (attrs a !! (p, num)); [intros [= _ <-]; apply Hg|]. destruct (_ >=? _); [done|]. intros [= _ <-]. apply Hg.
Qed.

(** *** Names are looked up and declared *)

Lemma grows_report a m : blocks a ≠ [] → grows a (report m a).
Proof. intros Hne. split; [constructor; [done|done|by exists [m]]|]. destruct (blocks a) as [|b bs] eqn:E; [done|]. by exists [], b, bs. Qed.
Lemma grows_bind a id p : blocks a ≠ [] → grows a (put_blocks (bind_name id p (blocks a)) a).
Proof.
  intros Hne. split; [constructor; [done|done|exists []; by rewrite app_nil_r]|]. destruct (blocks a) as [|b bs] eqn:E; [done|]. by exists [(id, p)], b, bs.
Qed.
Lemma grows_open a a' : grows a a' → blocks a' ≠ [].
Proof. intros [_ (l & b & bs & _ & E)]. by rewrite E. Qed.
Lemma spec_bind_post a id p : blocks a ≠ [] → post true (λ _ a', grows a a' ∧ entries a' = entries a) (spec_bind id p a).
Proof. intros Hne. unfold spec_bind, spec_push. wp. wp. destruct (_ >=? _); [done|]. split; [by apply grows_bind|done]. Qed.
Lemma spec_lookup_post a id : blocks a ≠ [] → post true (λ _ a', grows a a') (spec_lookup id a).
Proof.
  intros Hne. unfold spec_lookup. wp. destruct (binding _ _).
  - split; [done|]. destruct (blocks a) as [|b bs] eqn:E; [done|]. by exists [], b, bs.
  - wp. wp. eapply post_weaken; [by apply spec_bind_post|]. intros _ a' [G _]. eapply grows_trans; [by apply grows_report|exact G].
Qed.
(** An attribute of the newest symbol. *)
Lemma spec_set_post a a2 num v : grows a a2 → entries a < entries a2 → 0 ≤ entries a2 → -128 ≤ num < 128 →
  post true (λ _ a3, grows a a3 ∧ entries a3 = entries a2) (spec_set (entries a2) num v a2).
Proof.
  intros [[L1 L2 L3] L4] Hlt He Hn. unfold spec_set. wp.
  rewrite (proj2 (Z.leb_le 0 _)), (proj2 (Z.leb_le _ (entries a2))), (proj2 (Z.leb_le _ num)), (proj2 (Z.ltb_lt num _)) by lia. cbn [andb].
  assert (∀ n, grows a (mk_scoping (blocks a2) (<[(entries a2, num) := v]> (attrs a2)) (entries a2) n (reports a2))) as Hg.
  { intros n. split; [|exact L4]. constructor; [done| |done]. intros q num' Hq Hnum. cbn.
    rewrite lookup_insert_ne by (intros [= E _]; lia). by apply L2. }
  destruct (attrs a2 !! (entries a2, num)); [split; [apply Hg|done]|]. destruct (_ >=? _); [done|]. split; [apply Hg|done].
Qed.
Lemma spec_insert_post a id : is_Some (here a id) → blocks a ≠ [] → 0 ≤ entries a → post true (λ p a', grows a a' ∧ 0 ≤ p ≤ entries a') (spec_insert id a).
Proof.
  intros [h Hh] Hne He. unfold spec_insert.
  rewrite (bind_Ret (spec_here id) _ a h a) by (unfold spec_here; rewrite (bind_Ret _ _ a a a) by done; by rewrite Hh). destruct (negb _).
  { wp. split; [by apply grows_report|done]. }
  wp. destruct (_ >=? _); [done|]. wp. set (a1 := mk_scoping (blocks a) (attrs a) (entries a + 1) (attr_count a) (reports a)).
  assert (grows a a1) as G1.
  { split; [constructor; [unfold a1; cbn; lia|done|exists []; by rewrite app_nil_r]|]. unfold a1. cbn. destruct (blocks a) as [|b bs] eqn:E; [done|]. by exists [], b, bs. }
  change (entries a + 1) with (entries a1). assert (entries a < entries a1) as Hlt by (unfold a1; cbn; lia).
  apply post_bind. eapply post_weaken; [apply spec_set_post; [exact G1|lia|lia|done]|]. intros _ a2 [G2 E2]. rewrite <-E2.
  apply post_bind. eapply post_weaken; [apply spec_set_post; [exact G2|lia|lia|done]|]. intros _ a3 [G3 E3]. rewrite <-E3.
  apply post_bind. eapply post_weaken; [apply spec_bind_post; by eapply grows_open|]. intros _ a4 [G4 E4]. split; [by eapply grows_trans|lia].
Qed.

Lemma refines_post {A} (m : prog symtab A) (m' : prog scoping A) (Q : A → scoping → Prop) s a r s' : refines (m s) (m' a) → post true Q (m' a) → m s = Ret r s' →
  ∃ a', Q r a' ∧ rep s' a'.
Proof. intros H P E. destruct (refines_Ret m m' s a r s' H E) as (a' & S & R); [by intros Hu; rewrite Hu in P|]. rewrite S in P. by exists a'. Qed.

Lemma scoped_lookup e id : scoped e (in_syms (LookUp id)).
Proof.
  intros a g r g' Ha R E%in_syms_inv.
  destruct (refines_post (LookUp id) (spec_lookup id) _ (syms g) a r (syms g') (LookUp_ok _ _ id R) (spec_lookup_post a id (r_open _ _ R)) E) as (a1 & G1 & R1).
  by exists a1.
Qed.
Lemma InsertEntry_here s a id p s' : rep s a → InsertEntry id s = Ret p s' → is_Some (here a id).
Proof.
  intros R (h & s1 & E & _)%bind_Ret_inv. rewrite (LookUpHere_run s a id R) in E. destruct (here a id); [by eexists|done].
Qed.
Lemma scoped_insert {A} e id (k : Z → prog gen A) : (∀ p, 0 ≤ p → scoped (Z.max e p) (k p)) → scoped e (in_syms (InsertEntry id) ≫= k).
Proof.
  intros Hk a g r g' Ha R (p & g1 & E1%in_syms_inv & E2)%bind_Ret_inv. pose proof (entries_range a g R) as Hr.
  destruct (refines_post (InsertEntry id) (spec_insert id) _ (syms g) a p (syms g1)
    (InsertEntry_refines _ _ id R) (spec_insert_post a id (InsertEntry_here _ _ _ _ _ R E1) (r_open _ _ R) ltac:(lia)) E1) as (a1 & [G1 Hp] & R1).
  destruct (Hk p ltac:(lia) a1 g1 r g') as (a2 & R2 & G2); [|done|done|exists a2; split; [done|by eapply grows_trans]].
  destruct G1 as [[L _ _] _]. lia.
Qed.

(** *** The analysis, function by function *)

Lemma scoped_if {A} e (b : bool) (m1 m2 : prog gen A) : scoped e m1 → scoped e m2 → scoped e (if b then m1 else m2).
Proof. by destruct b. Qed.
End scoped.

Create HintDb scopes.
#[export] Hint Constants Opaque : scopes.
#[export] Hint Resolve scoped_attr scoped_is_attr scoped_tree scoped_strs scoped_ret scoped_get scoped_undef scoped_exit scoped_fuel
  scoped_error scoped_lookup : scopes.

(** Walks through a command; the leaves come from [scopes] and the context. *)
Ltac scope :=
  repeat first
    [ solve [eauto 2 with scopes]
    | lazymatch goal with
      | |- scoped _ (set_attr _ _ _) => apply scoped_set; [lia|done..]
      | |- scoped _ (in_syms OpenBlock ≫= _) => apply scoped_open; intros []
      | |- scoped _ (in_syms (InsertEntry _) ≫= _) => apply scoped_insert; intros ? ?
      | |- scoped _ (_ ≫= _) => apply scoped_bind; [|intros]
      | |- closing _ (_ ≫= _) => apply closing_bind; [|intros]
      | |- closing _ (in_syms CloseBlock) => apply closing_close
      | |- scoped _ (match ?x with _ => _ end) => destruct x
      | |- scoped _ (left_of _) => apply scoped_tree
      | |- scoped _ (right_of _) => apply scoped_tree
      | |- scoped _ (op_of _) => apply scoped_tree
      | |- scoped _ (kind_of _) => apply scoped_tree
      | |- scoped _ (val_of _) => apply scoped_tree
      | |- scoped _ (null _) => apply scoped_tree
      end ].

Section analysis.

Lemma scoped_link e node name sym : scoped e (link_left node name sym).
Proof. unfold link_left. scope. Qed.
#[local] Hint Resolve scoped_link : scopes.

Lemma scoped_typeidop_loop e fuel l r : scoped e (typeidop_loop fuel l r).
Proof. revert l r. induction fuel as [|fuel IH]; intros l r; cbn [typeidop_loop]; scope. Qed.
#[local] Hint Resolve scoped_typeidop_loop : scopes.
Lemma scoped_typeidop e fuel node : scoped e (typeidop fuel node).
Proof. unfold typeidop. scope. Qed.
Lemma scoped_count e fuel t n : scoped e (count_indexes fuel t n).
Proof. revert t n. induction fuel as [|fuel IH]; intros t n; cbn [count_indexes]; scope. Qed.
Lemma scoped_find e fuel id l i : scoped e (find_field fuel id l i).
Proof. revert i. induction fuel as [|fuel IH]; intros i; cbn [find_field]; scope. Qed.
Lemma scoped_skip e fuel r : scoped e (skip_indexes fuel r).
Proof. revert r. induction fuel as [|fuel IH]; intros r; cbn [skip_indexes]; scope. Qed.
#[local] Hint Resolve scoped_typeidop scoped_count scoped_find scoped_skip : scopes.

Section walk.
Context (M : Z → prog gen unit) (HM : ∀ e p, scoped e (M p)) (fuel : nat).
#[local] Hint Resolve HM : scopes.

Lemma scoped_error_at e type p : scoped e (error_at type p).
Proof. unfold error_at. scope. Qed.
#[local] Hint Resolve scoped_error_at : scopes.
Lemma scoped_indexes e n p dim d r : scoped e (array_indexes M n p dim d r).
Proof using HM. revert d r. induction n as [|n IH]; intros d r; cbn [array_indexes]; scope. Qed.
#[local] Hint Resolve scoped_indexes : scopes.
Lemma scoped_var_case e s : scoped e (var_case s).
Proof. unfold var_case. scope. Qed.
Lemma scoped_method_case e l s : scoped e (method_case l s).
Proof. unfold method_case. scope. Qed.
Lemma scoped_class_case e declop s : scoped e (class_case fuel declop s).
Proof. unfold class_case. scope. Qed.
Lemma scoped_arr_case e s : scoped e (arr_case M fuel s).
Proof using HM. unfold arr_case, arr_end, length_case. scope. Qed.
#[local] Hint Resolve scoped_var_case scoped_method_case scoped_class_case scoped_arr_case : scopes.
Lemma scoped_varop_loop e n declop l s : scoped e (varop_loop M fuel n declop l s).
Proof using HM. revert s. induction n as [|n IH]; intros s; cbn [varop_loop]; unfold again; scope. Qed.
#[local] Hint Resolve scoped_varop_loop : scopes.
Lemma scoped_varop e node declop : scoped e (varop M fuel node declop).
Proof using HM. unfold varop. scope. Qed.
#[local] Hint Resolve scoped_varop : scopes.
Lemma scoped_arguments e n r : scoped e (arguments_loop M n r).
Proof using HM. revert r. induction n as [|n IH]; intros r; cbn [arguments_loop]; scope. Qed.
#[local] Hint Resolve scoped_arguments : scopes.
Lemma scoped_routinecallop e node : scoped e (routinecallop M fuel node).
Proof using HM. unfold routinecallop. scope. Qed.
Lemma scoped_classdefop e node : scoped e (classdefop M node).
Proof using HM. unfold classdefop. scope. Qed.
Lemma scoped_named e n i id : scoped e (named_before n i id).
Proof. revert i. induction n as [|n IH]; intros i; cbn [named_before]; scope. Qed.
#[local] Hint Resolve scoped_named : scopes.
Lemma scoped_methodop e node : scoped e (methodop M node).
Proof using HM. unfold methodop. scope. Qed.
Lemma scoped_declarator e child : scoped e (declarator M fuel child).
Proof using HM. unfold declarator. scope. Qed.
#[local] Hint Resolve scoped_declarator : scopes.
Lemma scoped_declop e n child : scoped e (declop_loop M fuel n child).
Proof using HM. revert e child. induction n as [|n IH]; intros e child; cbn [declop_loop]; scope. Qed.
Lemma scoped_specop e n child : scoped e (specop_loop n child).
Proof. revert e child. induction n as [|n IH]; intros e child; cbn [specop_loop]; scope. Qed.
End walk.

Lemma scoped_MkST fuel e p : scoped e (MkST fuel p).
Proof.
  revert e p. induction fuel as [|fuel IH]; intros e p; cbn [MkST]; [scope|]. unfold specop.
  scope; first [by eapply scoped_classdefop|by eapply scoped_methodop|by eapply scoped_declop|by eapply scoped_specop|by apply scoped_varop|by apply scoped_routinecallop].
Qed.
End analysis.

(** C20: Whatever tree [MkST] is given: when it returns, every block that was
    opened has been closed.  The blocks around are what they were, the innermost
    one has only gained names, no symbol is lost, the symbols from before keep
    their names and levels, and messages are only added. *)
Theorem scopes_restored fuel p g a r g' : rep (syms g) a →
  MkST fuel p g = Ret r g' →
  ∃ a' l b bs, rep (syms g') a' ∧ blocks a = b :: bs ∧ blocks a' = (l ++ b) :: bs ∧ entries a ≤ entries a' ∧
    (∀ q num, q ≤ entries a → num = NAME_ATTR ∨ num = NEST_ATTR → attrs a' !! (q, num) = attrs a !! (q, num)) ∧
    reports a `prefix_of` reports a'.
Proof.
  intros R E. destruct (scoped_MkST fuel (entries a) p a g r g' ltac:(done) R E) as (a' & R' & [[L1 L2 [m L3]] (l & b & bs & B & B')]).
  exists a', l, b, bs. split_and!; try done. by exists m.
Qed.
