(* ===== verification/SemanDecl.v ===== *)
(** * Declarations

    What [declop] of CS2210/seman.c makes of a declaration of integers or of
    arrays of integers: every declarator, the last one first, becomes a symbol of
    the innermost block with its type, its kind and, for an array, its number of
    dimensions; its initialiser is resolved with the name in scope.  All
    declarators share the tree of their type. *)
From S2P Require Import Prelude StrTable SymTab Tree Mips Codegen CodegenSpec Seman SemanSpec.
Open Scope Z_scope.

(** ** New symbols in the abstract table *)

Definition put_attr (p num val : Z) (a : scoping) : scoping :=
  mk_scoping (blocks a) (<[(p, num) := val]> (attrs a)) (entries a) (attr_count a + 1) (reports a).
Definition new_symbol (id : Z) (a : scoping) : scoping :=
  let p := entries a + 1 in
  put_blocks (bind_name id p (blocks a))
    (put_attr p NEST_ATTR (Z.of_nat (length (blocks a)) - 1) (put_attr p NAME_ATTR id (mk_scoping (blocks a) (attrs a) p (attr_count a) (reports a)))).
(** A variable whose type is the tree at [q], an array of [n] dimensions. *)
Definition new_variable (id q : Z) (n : nat) (a : scoping) : scoping :=
  let p := entries a + 1 in
  let a := put_attr p TYPE_ATTR q (new_symbol id a) in
  match n with
  | O => put_attr p KIND_ATTR VAR a
  | _ => put_attr p KIND_ATTR ARR (put_attr p DIMEN_ATTR (Z.of_nat n) a)
  end.
Definition room_for_symbol (a : scoping) : bool :=
  (entries a <? ST_SIZE - 1) && (attr_count a + 5 <? ATTR_SIZE) && (depth a <? STACK_SIZE - 1).
Definition undeclared_here (id : Z) (a : scoping) : bool := bool_decide (here a id = Some 0).

Lemma attr_fresh s a p num : rep s a → entries a < p < ST_SIZE → attrs a !! (p, num) = None.
Proof.
  intros R Hp. destruct (r_attrs _ _ R) as [C HA]. pose proof (ao_top _ _ _ HA) as Ht. rewrite (r_entries _ _ R) in Ht.
  rewrite (ao_map _ _ _ HA p num) by (unfold st_range; lia). by rewrite (ao_fresh _ _ _ HA p) by (rewrite (r_entries _ _ R); lia).
Qed.
Lemma spec_set_new a p num val : 0 ≤ p ≤ entries a → -128 ≤ num < 128 → attrs a !! (p, num) = None → attr_count a < ATTR_SIZE - 1 →
  spec_set p num val a = Ret tt (put_attr p num val a).
Proof.
  intros Hp Hn E Hr. unfold spec_set. rewrite (bind_Ret _ _ a a a) by done.
  rewrite (proj2 (Z.leb_le 0 p)), (proj2 (Z.leb_le p _)), (proj2 (Z.leb_le _ num)), (proj2 (Z.ltb_lt num _)) by lia. cbn [andb].
  rewrite E, Z.geb_leb, (proj2 (Z.leb_gt _ _)) by lia. done.
Qed.
Lemma set_new s a p num val : rep s a → 0 ≤ p ≤ entries a → -128 ≤ num < 128 → attrs a !! (p, num) = None → attr_count a < ATTR_SIZE - 1 →
  ∃ s', SetAttr p num val s = Ret tt s' ∧ rep s' (put_attr p num val a).
Proof. intros R Hp Hn E Hr. pose proof (SetAttr_refines s a p num val R) as H. rewrite spec_set_new in H by done. exact H. Qed.

Section insertion.

Lemma spec_insert_new s a id : rep s a → undeclared_here id a = true → room_for_symbol a = true →
  spec_insert id a = Ret (entries a + 1) (new_symbol id a).
Proof.
  intros R Hu Hr. unfold room_for_symbol in Hr. rewrite !andb_true_iff, !Z.ltb_lt in Hr. destruct Hr as [[Hr1 Hr2] Hr3].
  unfold undeclared_here in Hu. unfold spec_insert. pose proof (attr_fresh s a (entries a + 1)) as Hfresh.
  pose proof (entries_range a (mk_gen new_forest new_strtab s [] 0 0 0) R) as He.
  rewrite (bind_Ret (spec_here id) _ a 0 a).
  2:{ unfold spec_here. rewrite (bind_Ret _ _ a a a) by done. apply bool_decide_eq_true in Hu. by rewrite Hu. }
  cbn [negb Z.eqb]. rewrite (bind_Ret _ _ a a a) by done. rewrite Z.geb_leb, (proj2 (Z.leb_gt _ _)) by lia.
  set (p := entries a + 1) in *. set (a1 := mk_scoping (blocks a) (attrs a) p (attr_count a) (reports a)).
  rewrite (bind_Ret (modify _) _ a tt a1) by done.
  rewrite (bind_Ret _ _ _ _ _ (spec_set_new a1 p NAME_ATTR id ltac:(cbn; lia) ltac:(done) (Hfresh NAME_ATTR R ltac:(lia)) ltac:(cbn; lia))).
  set (a2 := put_attr p NAME_ATTR id a1).
  assert (attrs a2 !! (p, NEST_ATTR) = None) as Hn by (cbn; rewrite lookup_insert_ne by done; apply Hfresh; [done|lia]).
  rewrite (bind_Ret _ _ _ _ _ (spec_set_new a2 p NEST_ATTR (Z.of_nat (length (blocks a)) - 1) ltac:(cbn; lia) ltac:(done) Hn ltac:(cbn; lia))).
  rewrite (bind_Ret (spec_bind id p) _ _ tt (new_symbol id a)); [done|]. unfold spec_bind, spec_push.
  erewrite bind_Ret by done. erewrite bind_Ret by done. change (depth _) with (depth a).
  rewrite Z.geb_leb, (proj2 (Z.leb_gt _ _)) by lia. done.
Qed.
Lemma insert_new s a id : rep s a → undeclared_here id a = true → room_for_symbol a = true →
  ∃ s', InsertEntry id s = Ret (entries a + 1) s' ∧ rep s' (new_symbol id a).
Proof.
  intros R Hu Hr. pose proof (InsertEntry_refines s a id R) as H. by rewrite (spec_insert_new s) in H.
Qed.
End insertion.

(** ** The trees of declarations *)

Fixpoint dims (n : nat) : ast := match n with O => TNull | S n' => TExpr IndexOp TNull (dims n') end.
(** [int], with [n] pairs of brackets. *)
Definition type_tree (v : Z) (n : nat) : ast := TExpr TypeIdOp (TLeaf INTEGERTNode v) (dims n).

(** A declarator: a name, the tree of the type at [q], which belongs to all of
    them, and an initialiser. *)
Definition declarator_at (h : forest) (q c : Z) (l init : ast) (F : gset Z) : Prop :=
  ∃ n pi t n2 pe Fi, nodes h !! c = Some n ∧ n_kind n = EXPRNode ∧ n_left n = Some pi ∧ n_right n = Some t ∧ c ≠ NullExp ∧
    tree_at h pi l ∧ nodes h !! t = Some n2 ∧ n_kind n2 = EXPRNode ∧ n_left n2 = Some q ∧ n_right n2 = Some pe ∧
    owned h pe init Fi ∧ c ≠ pi ∧ c ≠ t ∧ pi ≠ t ∧ {[ c ]} ∪ {[ pi ]} ∪ {[ t ]} ## Fi ∧ F = {[ c ]} ∪ {[ pi ]} ∪ {[ t ]} ∪ Fi.
(** The declarators of a declaration, the last one first. *)
Fixpoint decls_at (h : forest) (q p : Z) (ds : list (ast * ast)) (F : gset Z) : Prop :=
  match ds with
  | [] => p = NullExp ∧ F = ∅
  | (l, init) :: ds' => p ≠ NullExp ∧ ∃ n pl c Fc Fl, nodes h !! p = Some n ∧ n_kind n = EXPRNode ∧ n_optype n = Some DeclOp ∧
      n_left n = Some pl ∧ n_right n = Some c ∧ declarator_at h q c l init Fc ∧ decls_at h q pl ds' Fl ∧
      p ∉ Fc ∧ p ∉ Fl ∧ Fc ## Fl ∧ F = {[ p ]} ∪ Fc ∪ Fl
  end.

Lemma declarator_frame h h' q c k v init F : declarator_at h q c (TLeaf k v) init F → (∀ x, x ∈ F → nodes h' !! x = nodes h !! x) → declarator_at h' q c (TLeaf k v) init F.
Proof.
  intros (n & pi & t & n2 & pe & Fi & Hn & K & L & R & N & Hl & Hn2 & K2 & L2 & R2 & Oi & D1 & D2 & D3 & D4 & ->) Hf.
  exists n, pi, t, n2, pe, Fi. rewrite !Hf by set_solver. split_and!; try done.
  - assert (owned h pi (TLeaf k v) {[ pi ]}) as O by done. eapply owned_tree, owned_frame; [exact O|]. intros x Hx. apply Hf. set_solver.
  - eapply owned_frame; [exact Oi|]. intros x Hx. apply Hf. set_solver.
Qed.
Definition leaves (ds : list (ast * ast)) : Prop := Forall (λ d, ∃ k v, d.1 = TLeaf k v) ds.
Lemma decls_frame h h' q p ds F : leaves ds → decls_at h q p ds F → (∀ x, x ∈ F → nodes h' !! x = nodes h !! x) → decls_at h' q p ds F.
Proof.
  intros Hl. revert p F. induction Hl as [|[l init] ds (k & v & Hd) Hl IH]; intros p F; [done|]. simpl in Hd. subst l.
  intros (Hp & n & pl & c & Fc & Fl & Hn & K & O & L & R & Dc & Dl & N1 & N2 & Hd & ->) Hf. split; [done|].
  exists n, pl, c, Fc, Fl. rewrite Hf by set_solver. split_and!; try done.
  - eapply declarator_frame; [exact Dc|]. intros x Hx. apply Hf. set_solver.
  - apply IH; [exact Dl|]. intros x Hx. apply Hf. set_solver.
Qed.
Lemma declarator_lt h q c k v init F : forest_ok h → declarator_at h q c (TLeaf k v) init F → ∀ x, x ∈ F → x < fresh h.
Proof.
  intros Hok (n1 & pi & t & n2 & pe & Fi & Hn1 & _ & _ & _ & _ & (_ & _ & _ & m & Hm & _) & Hn2 & _ & _ & _ & Oi & _ & _ & _ & _ & ->) x Hx.
  pose proof Hok as (_ & _ & Hdom). pose proof (owned_lt h pe init Fi Hok Oi x) as Hi.
  rewrite !elem_of_union, !elem_of_singleton in Hx. destruct Hx as [[[->| ->]| ->]|Hx]; eauto.
Qed.
Lemma decls_lt h q p ds F : forest_ok h → leaves ds → decls_at h q p ds F → ∀ x, x ∈ F → x < fresh h.
Proof.
  intros Hok Hl. revert p F. induction Hl as [|[l init] ds (k & v & Hd) Hl IH]; intros p F; [intros [_ ->]; set_solver|]. simpl in Hd. subst l.
  intros (Hp & n & pl & c & Fc & Fl & Hn & K & O & L & R & Dc & Dl & N1 & N2 & Hd & ->) x Hx.
  pose proof Hok as (_ & _ & Hdom). specialize (IH pl Fl Dl x). pose proof (declarator_lt h q c k v init Fc Hok Dc x) as Hc.
  rewrite !elem_of_union, !elem_of_singleton in Hx. destruct Hx as [[->|Hx]|Hx]; eauto.
Qed.

(** ** Types *)

Section types.
Context (g : gen) (Hok : forest_ok (trees g)).

Lemma dims_child n r : tree_at (trees g) r (dims n) → ∃ r' l', right_of r g = Ret r' g ∧ tree_at (trees g) r' (dims (pred n)) ∧ left_of r' g = Ret l' g ∧ tree_at (trees g) l' TNull.
Proof.
  intros Hr. destruct (RightChild_ok _ Hok r _ Hr) as (r' & Er & Hr'). assert (rchild (dims n) = dims (pred n)) as E by (by destruct n). rewrite E in Hr'.
  destruct (LeftChild_ok _ Hok r' _ Hr') as (l' & El & Hl'). assert (lchild (dims (pred n)) = TNull) as E' by (by destruct (pred n)). rewrite E' in Hl'.
  exists r', l'. split_and!; [by apply in_tree_same|done|by apply in_tree_same|done].
Qed.
Lemma typeidop_dims n fuel l r : tree_at (trees g) l TNull → tree_at (trees g) r (dims n) → (n < fuel)%nat → typeidop_loop fuel l r g = Ret tt g.
Proof.
  revert fuel l r. induction n as [|n IH]; intros fuel l r Hl Hr Hf; (destruct fuel as [|fuel]; [lia|]); cbn [typeidop_loop]; run (null_at g r _ Hok Hr); [done|].
  cbn [isnull dims]. run (null_at g l _ Hok Hl). run (kind_at g l _ Hok Hl). cbn [isnull negb andb]. erewrite bind_Ret by done.
  destruct (dims_child (S n) r Hr) as (r' & l' & Er & Hr' & El & Hl'). run Er. run El. apply IH; [done|done|lia].
Qed.
Lemma typeidop_int v n fuel q : tree_at (trees g) q (type_tree v n) → (S n < fuel)%nat → typeidop fuel q g = Ret tt g.
Proof.
  intros Hq Hf. unfold typeidop. destruct (LeftChild_ok _ Hok q _ Hq) as (l & El & Hl). destruct (RightChild_ok _ Hok q _ Hq) as (r & Er & Hr). cbn [lchild rchild type_tree] in Hl, Hr.
  run (in_tree_same _ g l El). destruct fuel as [|fuel]; [lia|]. cbn [typeidop_loop]. run (null_at g q _ Hok Hq). cbn [isnull type_tree].
  run (null_at g l _ Hok Hl). run (kind_at g l _ Hok Hl). cbn [isnull kindof negb andb Z.eqb Pos.eqb INTEGERTNode]. erewrite bind_Ret by done.
  run (in_tree_same _ g r Er). destruct (LeftChild_ok _ Hok r _ Hr) as (l' & El' & Hl'). assert (lchild (dims n) = TNull) as E' by (by destruct n). rewrite E' in Hl'.
  run (in_tree_same _ g l' El'). apply (typeidop_dims n); [done|done|lia].
Qed.
Lemma count_dims n fuel r k : tree_at (trees g) r (dims n) → (n < fuel)%nat → count_indexes fuel r k g = Ret (k + Z.of_nat n) g.
Proof.
  revert fuel r k. induction n as [|n IH]; intros fuel r k Hr Hf; (destruct fuel as [|fuel]; [lia|]); cbn [count_indexes]; run (null_at g r _ Hok Hr).
  - cbn [isnull dims]. by rewrite Z.add_0_r.
  - cbn [isnull dims]. destruct (dims_child (S n) r Hr) as (r' & l' & Er & Hr' & _). run Er. rewrite IH by (done || lia). f_equal. lia.
Qed.
End types.

(** ** One declarator *)

Section declaring.
Context (type_leaf : Z → ast) (T : gset Z) (ws : list StrTable.word) (Hws : words_ok ws) (Hroom : used ws ≤ STRTBL_LEN).
Context (q v : Z) (n : nat) (FT : gset Z) (HFT : FT ⊆ T).
Notation len := (loc_word 0 ws str_length).

(** The initialiser, with the name in scope. *)
Lemma initial_walks a fuel x x' : (Z.to_nat ST_SIZE + 4 * height x ≤ fuel)%nat → resolve a type_leaf len x = Some x' →
  walks a type_leaf T ws (λ p, o ← op_of p; if o =? VarOp then varop (MkST fuel) fuel p 1 else MkST fuel p) x x'.
Proof using Hws Hroom.
  intros Hf E. assert (∀ y y', (height y < height x)%nat → resolve a type_leaf len y = Some y' → walks a type_leaf T ws (MkST fuel) y y') as HM.
  { intros y y' Hy. apply MkST_walks; [done|done|unfold enough; lia]. }
  destruct (Z.eqb_spec (opof x) VarOp) as [Ho|Ho].
  - destruct x as [|k w|o l r]; [done..|]. simpl in Ho. subst o. pose proof E as E'. rewrite resolve_eq in E. cbn [Z.eqb Pos.eqb VarOp] in E.
    destruct l as [|k id|]; [done| |done]. destruct (Z.eqb_spec k IDNode) as [->|]; [|done]. destruct (symbol a id) as [p|] eqn:Es; [|done]. cbn [mbind option_bind] in E.
    destruct (resolve_sel a type_leaf len (enter a p) r) as [r'|] eqn:Er; [|done]. injection E as <-.
    eapply (walks_to _ _ _ _ _ (λ q, varop (MkST fuel) fuel q 1)); [|eapply (name_ok a type_leaf T ws _ fuel _ 1 VarOp id r p r' HM); try done; cbn [height] in Hf |- *; lia].
    intros p0 g G Hp. by run (op_at g p0 _ (g_trees _ _ _ _ g G) Hp).
  - eapply (walks_to _ _ _ _ _ (MkST fuel)); [|by apply MkST_walks; [done|done|unfold enough; lia|]].
    intros p0 g G Hp. run (op_at g p0 _ (g_trees _ _ _ _ g G) Hp). by rewrite (proj2 (Z.eqb_neq _ _) Ho).
Qed.

(** The attributes of the new symbol. *)
Lemma new_attr s a id p num : rep s a → room_for_symbol a = true → p ≠ entries a + 1 → attrs (new_variable id q n a) !! (p, num) = attrs a !! (p, num).
Proof. intros R Hr Hp. unfold new_variable, new_symbol. destruct n; cbn; rewrite !lookup_insert_ne by congruence; done. Qed.
Lemma new_type a id : attr_of (attrs (new_variable id q n a)) (entries a + 1) TYPE_ATTR = q.
Proof.
  unfold attr_of, new_variable, new_symbol. destruct n; cbn; (rewrite lookup_insert_ne by done); [|rewrite lookup_insert_ne by done]; by rewrite lookup_insert_eq.
Qed.
Lemma set_type s a id : rep s a → undeclared_here id a = true → room_for_symbol a = true →
  ∃ s1 s2, InsertEntry id s = Ret (entries a + 1) s1 ∧ SetAttr (entries a + 1) TYPE_ATTR q s1 = Ret tt s2 ∧
    rep s2 (put_attr (entries a + 1) TYPE_ATTR q (new_symbol id a)).
Proof.
  intros R Hu Hr. destruct (insert_new s a id R Hu Hr) as (s1 & E1 & R1).
  unfold room_for_symbol in Hr. rewrite !andb_true_iff, !Z.ltb_lt in Hr. destruct Hr as [[Hr1 Hr2] Hr3].
  pose proof (entries_range a (mk_gen new_forest new_strtab s [] 0 0 0) R) as He.
  destruct (set_new s1 (new_symbol id a) (entries a + 1) TYPE_ATTR q R1) as (s2 & E2 & R2); [cbn; lia|done| |cbn; lia|by exists s1, s2].
  cbn. rewrite !lookup_insert_ne by done. apply (attr_fresh s a); [done|lia].
Qed.
(** What kind of variable it is. *)
Lemma set_kind g a id r : rep (syms g) (put_attr (entries a + 1) TYPE_ATTR q (new_symbol id a)) →
  room_for_symbol a = true → 0 ≤ entries a → (∀ num, num = KIND_ATTR ∨ num = DIMEN_ATTR → attrs a !! (entries a + 1, num) = None) →
  forest_ok (trees g) → tree_at (trees g) r (dims n) → ∀ fuel, (n < fuel)%nat →
  ∃ s, (b ← null r; o ← op_of r;
        (if b : bool then set_attr (entries a + 1) KIND_ATTR VAR
         else if o =? IndexOp then
           n ← count_indexes fuel r 0;
           set_attr (entries a + 1) DIMEN_ATTR n;; set_attr (entries a + 1) KIND_ATTR ARR
         else mret tt)) g = Ret tt (set_syms s g) ∧ rep s (new_variable id q n a).
Proof.
  intros R Hr He Hnone Hok Hd fuel Hf. unfold room_for_symbol in Hr. rewrite !andb_true_iff, !Z.ltb_lt in Hr. destruct Hr as [[Hr1 Hr2] Hr3].
  set (a1 := put_attr (entries a + 1) TYPE_ATTR q (new_symbol id a)) in *. set (p := entries a + 1) in *.
  assert (∀ num, num = KIND_ATTR ∨ num = DIMEN_ATTR → attrs a1 !! (p, num) = None) as Hn1.
  { intros num Hnum. cbn. rewrite !lookup_insert_ne by (by destruct Hnum as [-> | ->]). by apply Hnone. }
  run (null_at g r _ Hok Hd). run (op_at g r _ Hok Hd). destruct n as [|n']; cbn [isnull dims opof].
  - destruct (set_new (syms g) a1 p KIND_ATTR VAR R) as (s & E & R'); [cbn; lia|done|by apply Hn1; left|cbn; lia|].
    exists s. split; [by apply in_syms_Ret|done].
  - cbn [Z.eqb Pos.eqb IndexOp]. run (count_dims g Hok (S n') fuel r 0 Hd Hf). rewrite Z.add_0_l.
    destruct (set_new (syms g) a1 p DIMEN_ATTR (Z.of_nat (S n')) R) as (s & E & R1); [cbn; lia|done|by apply Hn1; right|cbn; lia|].
    destruct (set_new s _ p KIND_ATTR ARR R1) as (s2 & E2 & R2); [cbn; lia|done| |cbn; lia|].
    { cbn. rewrite lookup_insert_ne by done. apply Hn1. by left. }
    exists s2. split; [|done]. run (in_syms_Ret _ g tt s E). exact (in_syms_Ret _ (set_syms s g) tt s2 E2).
Qed.

(** What is known of types stays known. *)
Lemma good_declared a g g1 id : good a type_leaf T ws g → room_for_symbol a = true → type_leaf (entries a + 1) = TLeaf INTEGERTNode v →
  owned (trees g) q (type_tree v n) FT → rep (syms g1) (new_variable id q n a) → strs g1 = strs g →
  ∀ F F', moved F F' g g1 → T ## F → good (new_variable id q n a) type_leaf T ws g1.
Proof using Hws Hroom HFT.
  intros G Hr Htl Oq R1 Hs F F' M HT. pose proof G as [G1 G2 G3 G4 G5].
  assert (∀ x, x ∈ T → nodes (trees g1) !! x = nodes (trees g) !! x) as Hsame.
  { intros x Hx. apply (mv_frame _ _ _ _ M); [set_solver|by apply G4]. }
  constructor; [apply M|exact R1| | |by rewrite Hs].
  - intros p Hp Hk. destruct (decide (p = entries a + 1)) as [->|Hne].
    + unfold typed. rewrite new_type. destruct Oq as (Hq & n0 & pl & pr & Fl & Fr & Hn0 & K0 & _ & L0 & _ & [Hleaf ->] & _ & _ & _ & _ & ->).
      destruct Hleaf as (_ & _ & _ & m & Hm & Km & _). exists n0, pl, m. split_and!; [set_solver|set_solver| |done|done| |left; by exists v].
      * rewrite Hsame; [done|set_solver].
      * rewrite Hsame; [done|set_solver].
    + assert (∀ num, attr_of (attrs (new_variable id q n a)) p num = attr_of (attrs a) p num) as Ha by (intros num; unfold attr_of; by rewrite (new_attr (syms g))).
      unfold SemanSpec.kind in Hk. rewrite !Ha in Hk. destruct (G3 p Hp Hk) as (n0 & pl & m & T1 & T2 & N0 & K0 & L0 & M0 & C).
      unfold typed. rewrite Ha. exists n0, pl, m. rewrite !Hsame by done. split_and!; try done.
      destruct C as [C|(c & C1 & C2 & C3 & C4)]; [by left|right]. exists c. split_and!; try done; [lia|].
      unfold new_variable, new_symbol. destruct n; cbn; lia.
  - intros x Hx. specialize (G4 x Hx). pose proof (mv_fresh _ _ _ _ M). lia.
Qed.

Lemma declarator_ok a g child n0 c id init init' F fuel : good a type_leaf T ws g → owned (trees g) q (type_tree v n) FT →
  undeclared_here id a = true → room_for_symbol a = true → type_leaf (entries a + 1) = TLeaf INTEGERTNode v →
  resolve (new_variable id q n a) type_leaf len init = Some init' → (Z.to_nat ST_SIZE + 4 * height init ≤ fuel)%nat → (S n < fuel)%nat →
  nodes (trees g) !! child = Some n0 → n_kind n0 = EXPRNode → n_right n0 = Some c →
  declarator_at (trees g) q c (TLeaf IDNode id) init F → T ## F →
  ∃ g' F', declarator (MkST fuel) fuel child g = Ret true g' ∧ declarator_at (trees g') q c (TLeaf STNode (entries a + 1)) init' F' ∧
    good (new_variable id q n a) type_leaf T ws g' ∧ moved F F' g g'.
Proof using Hws Hroom HFT.
  intros G Oq Hu Hr Htl Ei Hf Hfn Hch Kch Rch (n1 & pi & t & n2 & pe & Fi & Hn1 & K1 & L1 & R1 & Hc & Hpi & Hn2 & K2 & L2 & R2 & Oi & D1 & D2 & D3 & D4 & ->) HT.
  pose proof (g_trees _ _ _ _ g G) as Hok. pose proof (g_syms _ _ _ _ g G) as Rep. pose proof (entries_range a g Rep) as He.
  destruct (set_type (syms g) a id Rep Hu Hr) as (s1 & s2 & E1 & E2 & Rs2).
  assert (∀ num, num = KIND_ATTR ∨ num = DIMEN_ATTR → attrs a !! (entries a + 1, num) = None) as Hnone.
  { intros num _. apply (attr_fresh (syms g)); [done|]. unfold room_for_symbol in Hr. rewrite !andb_true_iff, !Z.ltb_lt in Hr. lia. }
  (** The name becomes the symbol. *)
  set (g2 := set_syms s2 g). destruct (link_left_run g2 c n1 pi t IDNode id (entries a + 1) Hok Hn1 K1 L1 R1 Hc Hpi D1) as (h & Elink & M2 & Hn1' & Hleaf' & Hcf).
  set (g3 := set_trees h g2) in *. set (f := fresh (trees g2)) in *.
  assert (moved ({[ c ]} ∪ {[ pi ]}) ({[ c ]} ∪ {[ f ]}) g g3) as M by (by destruct M2; constructor). clear M2. pose proof (mv_ok _ _ _ _ M) as Hok3.
  assert ({[ c ]} ∪ {[ pi ]} ## FT) as HdT by (clear -HT HFT; set_solver).
  destruct (moved_other _ _ _ _ _ _ _ Hok M Oq HdT) as [Oq3 _]. pose proof (owned_tree _ _ _ _ Oq3) as Hq3.
  assert ({[ c ]} ∪ {[ pi ]} ## Fi) as Hdi by (clear -D4; set_solver).
  destruct (moved_other _ _ _ _ _ _ _ Hok M Oi Hdi) as [Oi3 Hdi3].
  destruct (moved_node _ _ _ _ t n2 M Hok Hn2) as [Hn23 Hntf]; [clear -D2 D3; set_solver|].
  destruct (RightChild_ok _ Hok3 q _ Hq3) as (rd & Erd & Hrd). cbn [rchild type_tree] in Hrd.
  destruct (set_kind g3 a id rd Rs2 Hr ltac:(lia) Hnone Hok3 Hrd fuel ltac:(lia)) as (s4 & Ekind & R4). set (g4 := set_syms s4 g3) in *.
  (** The initialiser. *)
  assert (moved ({[ c ]} ∪ {[ pi ]}) ({[ c ]} ∪ {[ f ]}) g g4) as M4 by (by destruct M; constructor).
  assert (T ## {[ c ]} ∪ {[ pi ]}) as HTc by (clear -HT; set_solver).
  pose proof (good_declared a g g4 id G Hr Htl Oq R4 eq_refl _ _ M4 HTc) as G4.
  destruct (initial_walks (new_variable id q n a) fuel init init' Hf Ei pe g4 Fi G4 Oi3) as (g5 & Fi5 & E5 & Oi5 & M5 & R5); [clear -HT; set_solver|].
  destruct (good_moved _ _ _ _ _ _ _ _ G4 M5 R5) as [G5 _]; [clear -HT; set_solver|].
  destruct (moved_node _ _ _ _ c _ M5 Hok3 Hn1') as [Hn15 Nc5]; [clear -D4; set_solver|].
  destruct (moved_node _ _ _ _ t n2 M5 Hok3 Hn23) as [Hn25 Nt5]; [clear -D4; set_solver|].
  assert (owned (trees g4) f (TLeaf STNode (entries a + 1)) {[ f ]}) as Of by done.
  destruct (moved_other _ _ _ _ _ _ _ (Hok3 : forest_ok (trees g4)) M5 Of) as [[Hf5 _] Nf5]; [clear -Hdi3; set_solver|].
  exists g5, ({[ c ]} ∪ {[ f ]} ∪ {[ t ]} ∪ Fi5). split; [|split; [|split; [done|]]].
  - unfold declarator. run (node_right g child n0 c Hch Kch Rch). run (node_left g c n1 pi Hn1 K1 L1). run (val_at g pi _ Hok Hpi). cbn [valof].
    run (in_syms_Ret _ g _ s1 E1). rewrite (proj2 (Z.eqb_neq (entries a + 1) 0)) by lia.
    run (node_right (set_syms s1 g) c n1 t Hn1 K1 R1). run (node_left (set_syms s1 g) t n2 q Hn2 K2 L2).
    run (in_syms_Ret _ (set_syms s1 g) tt s2 E2). change (set_syms s2 (set_syms s1 g)) with g2. run Elink.
    run (typeidop_int g3 Hok3 v n fuel q Hq3 Hfn). run (in_tree_same _ g3 rd Erd).
    run (null_at g3 rd _ Hok3 Hrd). run (op_at g3 rd _ Hok3 Hrd).
    rewrite (bind_Ret _ _ g3 _ _ (null_at g3 rd _ Hok3 Hrd)), (bind_Ret _ _ g3 _ _ (op_at g3 rd _ Hok3 Hrd)) in Ekind. run Ekind.
    run (node_right g4 c _ t Hn1' K1 R1). run (node_right g4 t n2 pe Hn23 K2 R2).
    pose proof (op_at g4 pe init Hok3 (owned_tree _ _ _ _ Oi3)) as Eop. rewrite (bind_Ret _ _ _ _ _ Eop) in E5. run Eop. by run E5.
  - exists (with_left f n1), f, t, n2, pe, Fi5. split_and!; try done; clear -Hntf Nc5 Nf5 Nt5; set_solver.
  - eapply (moved_seq _ _ _ _ _ _ _ _ _ M4 M5); [clear; set_solver|clear; set_solver|].
    intros x Hx. assert (x ∈ Fi5 → x ∈ Fi ∨ fresh (trees g) ≤ x) as Hx2.
    { intros Hx2. destruct (mv_new _ _ _ _ M5 x Hx2) as [?|?]; [auto|]. pose proof (mv_fresh _ _ _ _ M4). right. lia. }
    pose proof (mv_new _ _ _ _ M4 x) as Hx1. clear -Hx Hx1 Hx2. set_unfold. tauto.
Qed.

(** ** All of them *)

Fixpoint declare_all (ds : list (Z * ast)) (a : scoping) : option (scoping * list (ast * ast)) :=
  match ds with
  | [] => Some (a, [])
  | (id, init) :: ds' =>
      if undeclared_here id a && room_for_symbol a then
        init' ← resolve (new_variable id q n a) type_leaf len init;
        '(a', out) ← declare_all ds' (new_variable id q n a);
        Some (a', (TLeaf STNode (entries a + 1), init') :: out)
      else None
  end.
Definition named (ds : list (Z * ast)) : list (ast * ast) := (λ d, (TLeaf IDNode d.1, d.2)) <$> ds.
Lemma named_leaves ds : leaves (named ds).
Proof. unfold leaves, named. apply Forall_fmap, Forall_forall. intros d _. by exists IDNode, d.1. Qed.
Lemma declared_leaves ds a a' out : declare_all ds a = Some (a', out) → leaves out.
Proof.
  revert a out. induction ds as [|[id init] ds IH]; intros a out E; cbn [declare_all] in E; [injection E as _ <-; constructor|].
  destruct (_ && _); [|done]. destruct (resolve _ _ _ init); [|done]. cbn [mbind option_bind] in E.
  destruct (declare_all ds _) as [[a2 out2]|] eqn:E2; [|done]. injection E as <- <-. constructor; [by exists STNode, (entries a + 1)|by eapply IH].
Qed.
Lemma new_entries id a : entries (new_variable id q n a) = entries a + 1.
Proof. unfold new_variable, new_symbol. by destruct n. Qed.

Lemma declarations_ok ds : ∀ a a' out g p F m fuel, good a type_leaf T ws g → owned (trees g) q (type_tree v n) FT →
  declare_all ds a = Some (a', out) → (∀ k, entries a < k ≤ entries a + Z.of_nat (length ds) → type_leaf k = TLeaf INTEGERTNode v) →
  Forall (λ d, (Z.to_nat ST_SIZE + 4 * height d.2 ≤ fuel)%nat) ds → (S n < fuel)%nat → (length ds < m)%nat →
  decls_at (trees g) q p (named ds) F → T ## F →
  ∃ g' F', declop_loop (MkST fuel) fuel m p g = Ret tt g' ∧ decls_at (trees g') q p out F' ∧ good a' type_leaf T ws g' ∧ moved F F' g g'.
Proof using Hws Hroom HFT.
  induction ds as [|[id init] ds IH]; intros a a' out g p F m fuel G Oq E Htl Hf Hfn Hm D HT; (destruct m as [|m]; [simpl in Hm; lia|]); cbn [declare_all] in E.
  - injection E as <- <-. destruct D as [-> ->]. exists g, ∅. split_and!; [|done|done|apply moved_id, G].
    cbn [declop_loop]. by run (null_at g NullExp TNull (g_trees _ _ _ _ g G) eq_refl).
  - destruct (undeclared_here id a) eqn:Hu; [|done]. destruct (room_for_symbol a) eqn:Hr; [|done]. cbn [andb] in E.
    destruct (resolve _ _ _ init) as [init'|] eqn:Ei; [|done]. cbn [mbind option_bind] in E.
    destruct (declare_all ds _) as [[a2 out2]|] eqn:E2; [|done]. injection E as <- <-. apply Forall_cons in Hf as [Hfi Hfs]. cbn [snd] in Hfi. cbn [length] in Htl, Hm.
    destruct D as (Hp & n0 & pl & c & Fc & Fl & Hn0 & K0 & O0 & L0 & R0 & Dc & Dl & N1 & N2 & Hd & ->). pose proof (g_trees _ _ _ _ g G) as Hok.
    destruct (declarator_ok a g p n0 c id init init' Fc fuel G Oq Hu Hr (Htl (entries a + 1) ltac:(lia)) Ei Hfi Hfn Hn0 K0 R0 Dc) as (g1 & Fc1 & E1 & Dc1 & G1 & M1); [clear -HT; set_solver|].
    assert (Fc ## FT) as HdT by (clear -HT HFT; set_solver). destruct (moved_other _ _ _ _ _ _ _ Hok M1 Oq HdT) as [Oq1 _].
    destruct (moved_node _ _ _ _ p n0 M1 Hok Hn0 N1) as [Hn01 N11].
    pose proof (decls_lt _ _ _ _ _ Hok (named_leaves ds) Dl) as Hltl.
    assert (decls_at (trees g1) q pl (named ds) Fl) as Dl1.
    { eapply decls_frame; [apply named_leaves|exact Dl|]. intros x Hx. apply (mv_frame _ _ _ _ M1); [clear -Hd Hx; set_solver|by apply Hltl]. }
    destruct (IH (new_variable id q n a) a2 out2 g1 pl Fl m fuel G1 Oq1 E2) as (g2 & Fl2 & E3 & Dl2 & G2 & M2); [|exact Hfs|exact Hfn|lia|exact Dl1|clear -HT; set_solver|].
    { intros k Hk. rewrite new_entries in Hk. apply Htl. lia. }
    destruct (moved_node _ _ _ _ p n0 M2 (g_trees _ _ _ _ g1 G1) Hn01 N2) as [Hn02 N22].
    assert (Fc1 ## Fl) as Hdc. { intros x Hx Hx'. specialize (Hltl x Hx'). destruct (mv_new _ _ _ _ M1 x Hx); [clear -Hd Hx' H; set_solver|lia]. }
    pose proof (declarator_lt _ _ _ _ _ _ _ (g_trees _ _ _ _ g1 G1) Dc1) as Hltc.
    exists g2, ({[ p ]} ∪ Fc1 ∪ Fl2). split; [|split; [|split; [done|]]].
    + cbn [declop_loop]. assert (null p g = Ret false g) as En. { apply in_tree_same. unfold IsNull. rewrite (bind_Ret _ _ (trees g) EXPRNode (trees g)); [done|].
        unfold NodeKind, node_at. run (reads_Some (λ h, nodes h !! p) _ (trees g) Hn0). by rewrite K0. }
      run En. run E1. run (node_left g1 p n0 pl Hn01 K0 L0). exact E3.
    + split; [done|]. exists n0, pl, c, Fc1, Fl2. split_and!; try done.
      * eapply declarator_frame; [exact Dc1|]. intros x Hx. apply (mv_frame _ _ _ _ M2); [clear -Hdc Hx; set_solver|by apply Hltc].
      * intros x Hx Hx'. destruct (mv_new _ _ _ _ M2 x Hx'); [clear -Hdc Hx H; set_solver|]. specialize (Hltc x Hx). lia.
    + eapply (moved_seq _ _ _ _ _ _ _ _ _ M1 M2); [clear; set_solver|clear; set_solver|].
      intros x Hx. assert (x ∈ Fl2 → x ∈ Fl ∨ fresh (trees g) ≤ x) as Hx2.
      { intros Hx2. destruct (mv_new _ _ _ _ M2 x Hx2) as [?|?]; [auto|]. pose proof (mv_fresh _ _ _ _ M1). right. lia. }
      pose proof (mv_new _ _ _ _ M1 x) as Hx1. clear -Hx Hx1 Hx2. rewrite !elem_of_union, !elem_of_singleton in Hx |- *. tauto.
Qed.
End declaring.
