(* ===== verification/SemanThm.v ===== *)
(** * The semantic analysis is correct

    What [MkST] of CS2210/seman.c does: it resolves the names of statements as
    SemanSpec.v says, so that codegen.c compiles them correctly; it reports
    undeclared names; it opens and closes blocks in pairs, whatever the tree;
    and it does not end on selectors behind an argument. *)
From S2P Require Import Prelude StrTable SymTab Tree Mips Codegen CodegenSpec CodegenSem CodegenThm Seman SemanSpec SemanScope SemanDecl.
Open Scope Z_scope.

(** The name "length" in the string table. *)
Definition length_id (ws : list StrTable.word) : Z := loc_word 0 ws str_length.

(** C13: [MkST] resolves the names of the parser's tree.  Whenever the reference
    [resolve] accepts the tree [x] at [p], [MkST] returns, given as much fuel as
    the tree needs: the tree at [p] has become the reference's result, the symbol
    table, the string table and the trees of the types ([T]) are what they were,
    no code was written, and no other node of the heap has changed. *)
Theorem names_resolved a type_leaf T ws fuel x x' p g F : words_ok ws → used ws ≤ STRTBL_LEN →
  good a type_leaf T ws g → owned (trees g) p x F → T ## F → enough x fuel → resolve a type_leaf (length_id ws) x = Some x' →
  ∃ g' F', MkST fuel p g = Ret tt g' ∧ owned (trees g') p x' F' ∧ good a type_leaf T ws g' ∧ T ## F' ∧
    same_code g g' ∧ ∀ q, q ∉ F → q < fresh (trees g) → nodes (trees g') !! q = nodes (trees g) !! q.
Proof.
  intros Hws Hroom G O HT Hf E.
  destruct (MkST_walks a type_leaf T ws Hws Hroom fuel x x' Hf E p g F G O HT) as (g' & F' & Er & O' & M & R).
  destruct (good_moved a type_leaf T ws F F' g g' G M R HT) as [G' HT']. exists g', F'. destruct M. by split_and!.
Qed.

(** C3: From the tree of the parser to the code that runs.  After [MkST] has
    resolved a tree of statements, [GenStmt] on the resolved tree, in any state
    that kept its nodes and is ready for code, writes code with fresh labels
    that does on the machine what the statements mean, the variables being those
    that the scoping rules give to the names. *)
Theorem source_statements_compiled a type_leaf T ws fuel x x' p g F : words_ok ws → used ws ≤ STRTBL_LEN →
  good a type_leaf T ws g → owned (trees g) p x F → T ## F → enough x fuel → resolve a type_leaf (length_id ws) x = Some x' →
  ∃ g1 F', MkST fuel p g = Ret tt g1 ∧ good a type_leaf T ws g1 ∧ asm_file g1 = asm_file g ∧ owned (trees g1) p x' F' ∧
    ∀ g2 attrs C name fuel2, ready g2 attrs C name → (∀ q, q ∈ F' → nodes (trees g2) !! q = nodes (trees g1) !! q) →
      plain_stmts attrs name x' = true → (3 * height x' ≤ fuel2)%nat →
      ∃ g3 c, GenStmt fuel2 p g2 = Ret tt g3 ∧ asm_file g3 = asm_file g2 ++ c ∧ NoDup (labels c) ∧ ready g3 attrs C name ∧
        runs_as attrs name x' (asm_file g2) c.
Proof.
  intros Hws Hroom G O HT Hf E.
  destruct (MkST_walks a type_leaf T ws Hws Hroom fuel x x' Hf E p g F G O HT) as (g1 & F' & Er & O' & M & R).
  destruct (good_moved a type_leaf T ws F F' g g1 G M R HT) as [G1 _]. exists g1, F'. split; [done|]. split; [done|]. split; [apply M|]. split; [done|].
  intros g2 attrs C name fuel2 Hr Hsame Hx Hf2. apply (statements_written g2 attrs C name fuel2 p x' Hr); try done.
  eapply owned_tree, owned_frame; [exact O'|exact Hsame].
Qed.

(** ** Errors *)

(** What the scopes are after a name was looked up in vain. *)
Definition unknown (id : Z) (a : scoping) : scoping := put_blocks (bind_name id 0 (blocks a)) (report (UNDECLARATION, id) a).
Lemma lookup_unknown s a id : rep s a → binding (concat (blocks a)) id = None →
  if depth a <? STACK_SIZE - 1 then ∃ s', LookUp id s = Ret 0 s' ∧ rep s' (unknown id a)
  else ∃ s', LookUp id s = Exited 0 s' ∧ messages s' = reports a ++ [(UNDECLARATION, id); (STACK_OVERFLOW, 0)].
Proof.
  intros R Hb. pose proof (LookUp_ok s a id R) as H. unfold spec_lookup in H. rewrite (bind_Ret _ _ a a a) in H by done. rewrite Hb in H.
  rewrite (bind_Ret (modify _) _ a tt (report (UNDECLARATION, id) a)) in H by done.
  unfold spec_bind, spec_push, mbind, prog_bind in H. cbn [get blocks report depth] in H. change (depth (report (UNDECLARATION, id) a)) with (depth a) in H.
  rewrite Z.geb_leb in H. destruct (Z.ltb_spec (depth a) (STACK_SIZE - 1)) as [Hd|Hd].
  - rewrite (proj2 (Z.leb_gt _ _)) in H by lia. exact H.
  - rewrite (proj2 (Z.leb_le _ _)) in H by lia. destruct H as (s' & E & Hm). exists s'. split; [exact E|]. rewrite Hm. cbn. by rewrite <-app_assoc.
Qed.
Lemma lookup_known s a id p : rep s a → binding (concat (blocks a)) id = Some p → ∃ s', LookUp id s = Ret p s' ∧ rep s' a.
Proof.
  intros R Hb. pose proof (LookUp_ok s a id R) as H. unfold spec_lookup in H. rewrite (bind_Ret _ _ a a a), Hb in H by done. exact H.
Qed.

(** A variable up to the lookup of its name. *)
Lemma variable_start fuel p g k id sel : forest_ok (trees g) → tree_at (trees g) p (TExpr VarOp (TLeaf k id) sel) →
  ∃ l r, MkST (S fuel) p g =
    (nSymInd ← in_syms (LookUp id);
     if nSymInd =? 0 then mret tt
     else link_left p l nSymInd;; varop_loop (MkST fuel) fuel fuel 0 l (mk_selection nSymInd r None)) g ∧
    tree_at (trees g) l (TLeaf k id) ∧ tree_at (trees g) r sel.
Proof.
  intros Hok Hp. pose proof Hp as (_ & n & pl & pr & Hn & Hk & _ & Hl & Hr & Hpl & Hpr). exists pl, pr. split_and!; [|done|done].
  cbn [MkST]. run (null_at g p _ Hok Hp). cbn [isnull]. run (op_at g p _ Hok Hp). cbn [opof Z.eqb Pos.eqb VarOp ClassDefOp MethodOp DeclOp SpecOp TypeIdOp].
  unfold varop. run (node_left g p n pl Hn Hk Hl). run (node_right g p n pr Hn Hk Hr). by run (val_at g pl _ Hok Hpl).
Qed.

(** A name without a declaration is reported once: [MkST] on a variable with
    this name returns, the tree is unchanged, UNDECLARATION is the message and the
    name is bound to symbol 0 in the innermost block, so that a second variable of
    the same name brings no second message.  Is the stack of the symbol table
    full, the process exits with that message and the one of the overflow. *)
Theorem undeclared_reported a fuel p g k id sel : rep (syms g) a → forest_ok (trees g) →
  tree_at (trees g) p (TExpr VarOp (TLeaf k id) sel) → binding (concat (blocks a)) id = None →
  if depth a <? STACK_SIZE - 1 then
    ∃ g', MkST (S fuel) p g = Ret tt g' ∧ trees g' = trees g ∧ rep (syms g') (unknown id a) ∧
      ∀ q k' sel', tree_at (trees g) q (TExpr VarOp (TLeaf k' id) sel') →
        ∃ g2, MkST (S fuel) q g' = Ret tt g2 ∧ trees g2 = trees g ∧ rep (syms g2) (unknown id a)
  else ∃ g', MkST (S fuel) p g = Exited 0 g' ∧ messages (syms g') = reports a ++ [(UNDECLARATION, id); (STACK_OVERFLOW, 0)].
Proof.
  intros R Hok Hp Hb. pose proof (lookup_unknown (syms g) a id R Hb) as H.
  destruct (variable_start fuel p g k id sel Hok Hp) as (l & r & E & _ & _). rewrite E.
  destruct (depth a <? STACK_SIZE - 1).
  - destruct H as (s & Es & Rs). exists (set_syms s g). split; [by run (in_syms_Ret _ g 0 s Es)|]. split; [done|]. split; [done|].
    intros q k' sel' Hq. destruct (variable_start fuel q (set_syms s g) k' id sel' Hok Hq) as (l' & r' & E' & _ & _). rewrite E'.
    destruct (lookup_known s (unknown id a) id 0 Rs) as (s2 & Es2 & R2).
    { unfold unknown. cbn [blocks put_blocks report]. destruct (blocks a) as [|b bs] eqn:Eb; [by destruct (r_open _ _ R)|]. cbn [bind_name concat app binding]. by rewrite Z.eqb_refl. }
    exists (set_syms s2 (set_syms s g)). by run (in_syms_Ret _ (set_syms s g) 0 s2 Es2).
  - destruct H as (s & Es & Hm). exists (set_syms s g). split; [|exact Hm]. unfold in_syms, zoom, mbind, prog_bind. by rewrite Es.
Qed.

(** C36: A selector or an index behind the name of an argument of a method makes
    [varop] loop forever: the switch has no case for the kinds of arguments, and
    nothing in the loop moves on to the next selector.  No fuel is enough. *)
Theorem selected_argument_diverges a type_leaf T ws p g k id q sel F : good a type_leaf T ws g → owned (trees g) p (TExpr VarOp (TLeaf k id) sel) F → T ## F →
  symbol a id = Some q → kind a q = VALUE_ARG ∨ kind a q = REF_ARG → sel ≠ TNull → ∀ fuel, MkST fuel p g = Fuel.
Proof.
  intros G O HT Hs Hk Hsel fuel. destruct fuel as [|fuel]; [done|].
  pose proof O as (Hp & n & pl & pr & Fl & Fr & Hn & Hkn & Ho & Hl & Hr & [Hleaf ->] & Or & N1 & N2 & Hd & ->).
  destruct (symbol_range' a id q Hs) as [Hq _]. destruct (lookup_good a g id q (g_syms a type_leaf T ws g G) Hs) as (s & Es & Rs).
  set (g0 := set_syms s g). assert (good a type_leaf T ws g0) as G0 by (destruct G; by constructor).
  destruct (link_good a type_leaf T ws g0 p n VarOp pl pr k id q sel Fr G0 Hn Hkn Ho Hl Hr Hp Hleaf) as (g1 & E1 & G1 & _ & _ & Or1 & _);
    [clear -N1; set_solver|done|done|clear -Hd; set_solver|clear -HT; set_solver|].
  assert (∀ n fnd, varop_loop (MkST fuel) fuel n 0 pl (mk_selection q pr fnd) g1 = Fuel) as Hloop.
  { induction n0 as [|n' IH]; intros fnd; [done|]. cbn [varop_loop st_ind0].
    run (attr_good a g1 q KIND_ATTR (g_syms a type_leaf T ws g1 G1) (symbol_range a g1 q (g_syms a type_leaf T ws g1 G1) ltac:(lia))).
    change (attr_of (attrs a) q KIND_ATTR) with (kind a q).
    assert ((kind a q =? VAR) = false ∧ (kind a q =? PROCE) = false ∧ (kind a q =? FUNC) = false ∧ (kind a q =? CLASS) = false ∧ (kind a q =? ARR) = false)
      as (-> & -> & -> & -> & ->) by (by destruct Hk as [-> | ->]).
    cbn [orb]. erewrite bind_Ret by reflexivity. cbn [again rest].
    run (null_at g1 pr sel (g_trees a type_leaf T ws g1 G1) (owned_tree _ _ _ _ Or1)). destruct sel; [done|apply IH..]. }
  cbn [MkST]. pose proof (g_trees a type_leaf T ws g G) as Hok. run (null_at g p _ Hok (owned_tree _ _ _ _ O)). cbn [isnull].
  run (op_at g p _ Hok (owned_tree _ _ _ _ O)). cbn [opof Z.eqb Pos.eqb VarOp ClassDefOp MethodOp DeclOp SpecOp TypeIdOp].
  unfold varop. run (node_left g p n pl Hn Hkn Hl). run (node_right g p n pr Hn Hkn Hr). run (val_at g pl _ Hok Hleaf). cbn [valof].
  run Es. rewrite (proj2 (Z.eqb_neq q 0)) by lia. fold g0. run E1. apply Hloop.
Qed.

(** C34: Inside of a block [declop] enters a declaration list of integers or
    of arrays of integers that the reference [declare_all] accepts, that is when
    the names are new in the block and there is room: [MkST] returns, every declarator has become a symbol of the innermost
    block with its type, kind and dimension (the scopes are what the reference
    [declare_all] makes of them), the names in the tree are the symbols, and every
    initialiser is resolved in the scopes at its place. *)
Theorem declarations_entered type_leaf T ws q v n FT ds a a' out g p F fuel :
  words_ok ws → used ws ≤ STRTBL_LEN → good a type_leaf T ws g → owned (trees g) q (type_tree v n) FT → FT ⊆ T →
  declare_all type_leaf ws q n ds a = Some (a', out) → ds ≠ [] →
  (∀ k, entries a < k ≤ entries a + Z.of_nat (length ds) → type_leaf k = TLeaf INTEGERTNode v) →
  Forall (λ d, enough d.2 fuel) ds → (S n < fuel)%nat → (length ds < fuel)%nat → decls_at (trees g) q p (named ds) F → T ## F →
  ∃ g' F', MkST (S fuel) p g = Ret tt g' ∧ decls_at (trees g') q p out F' ∧ good a' type_leaf T ws g' ∧ T ## F' ∧
    same_code g g' ∧ ∀ x, x ∉ F → x < fresh (trees g) → nodes (trees g') !! x = nodes (trees g) !! x.
Proof.
  intros Hws Hroom G Oq HFT E Hne Htl Hf Hfn Hl D HT.
  destruct (declarations_ok type_leaf T ws Hws Hroom q v n FT HFT ds a a' out g p F fuel fuel G Oq E Htl Hf Hfn Hl D HT) as (g' & F' & Er & D' & G' & M).
  exists g', F'. split; [|split; [exact D'|split; [exact G'|split; [|split; apply M]]]].
  - destruct ds as [|[id init] ds]; [done|]. destruct D as (_ & n0 & pl & c & _ & _ & Hn0 & K0 & O0 & _). cbn [MkST].
    assert (null p g = Ret false g) as En. { apply in_tree_same. unfold IsNull. rewrite (bind_Ret _ _ (trees g) EXPRNode (trees g)); [done|].
      unfold NodeKind, node_at. run (reads_Some (λ h, nodes h !! p) _ (trees g) Hn0). by rewrite K0. }
    assert (op_of p g = Ret DeclOp g) as Eo. { apply in_tree_same. unfold NodeOp, node_at. run (reads_Some (λ h, nodes h !! p) _ (trees g) Hn0). rewrite K0. cbn. by rewrite O0. }
    run En. run Eo. exact Er.
  - intros x Hx Hx'. destruct (mv_new _ _ _ _ M x Hx'); [by apply (HT x)|]. pose proof (g_reserved _ _ _ _ g G x Hx). lia.
Qed.

(** ** Witnesses *)

(** The names "a", at 0, and "sum", at 2; the class of the program declares an
    integer [sum], the method has an argument [a]. *)
Definition demo_ws : list StrTable.word := [(id_a, 258); (id_sum, 258)].
Definition demo_ops : list op := [OOpen; OInsert 2; OSet 1 TYPE_ATTR 30; OSet 1 KIND_ATTR VAR; OInsert 0; OSet 2 TYPE_ATTR 31; OSet 2 KIND_ATTR VALUE_ARG].
Definition demo_attrs : gmap (Z * Z) Z :=
  <[(2, KIND_ATTR) := VALUE_ARG]> (<[(2, TYPE_ATTR) := 31]> (<[(2, NEST_ATTR) := 1]> (<[(2, NAME_ATTR) := 0]>
    (<[(1, KIND_ATTR) := VAR]> (<[(1, TYPE_ATTR) := 30]> (<[(1, NEST_ATTR) := 1]> (<[(1, NAME_ATTR) := 2]> ∅))))))).
Definition demo_scoping : scoping := mk_scoping [[(0, 2); (2, 1)]; []] demo_attrs 2 8 [].
Definition demo_types (p : Z) : ast := TLeaf INTEGERTNode 0.
Definition demo_reserved : gset Z := {[ 30; 31 ]}.
(** [sum = sum - 1], [a.sum], an unknown name, and [int x, y = sum]. *)
Definition demo_nodes : list (Z * treenode) :=
  [(NullExp, dummy); (30, expr TypeIdOp 31 NullExp); (31, leaf INTEGERTNode 0);
   (2, leaf IDNode 2); (3, expr VarOp 2 NullExp); (4, expr AssignOp NullExp 3); (5, leaf IDNode 2); (6, expr VarOp 5 NullExp);
   (7, leaf NUMNode 1); (8, expr SubOp 6 7); (9, expr AssignOp 4 8); (10, expr StmtOp NullExp 9);
   (11, leaf IDNode 0); (12, expr FieldOp 13 NullExp); (13, leaf IDNode 2); (14, expr SelectOp 12 NullExp); (15, expr VarOp 11 14);
   (16, leaf IDNode 9); (17, expr VarOp 16 NullExp);
   (18, leaf IDNode 7); (19, expr VarOp 20 NullExp); (20, leaf IDNode 2); (21, expr CommaOp 30 19); (27, expr CommaOp 18 21); (26, expr DeclOp 25 27);
   (22, leaf IDNode 5); (23, expr CommaOp 30 NullExp); (24, expr CommaOp 22 23); (25, expr DeclOp NullExp 24)].
Definition demo_forest : forest := mk_forest (list_to_map demo_nodes) 40.
Definition demo_var (k id : Z) : ast := TExpr VarOp (TLeaf k id) TNull.
Definition demo_stmt (k id : Z) : ast :=
  TExpr StmtOp TNull (TExpr AssignOp (TExpr AssignOp TNull (demo_var k id)) (TExpr SubOp (demo_var k id) (TLeaf NUMNode 1))).
Definition demo_gen (s : symtab) : gen := mk_gen demo_forest (table_of demo_ws) s [] 0 0 0.

Lemma demo_words : words_ok demo_ws ∧ used demo_ws ≤ STRTBL_LEN.
Proof. split; [repeat constructor; done|by vm_compute]. Qed.
Lemma demo_run : run_ops spec_op demo_ops new_scoping = Ret [0; 1; 0; 0; 2; 0; 0] demo_scoping.
Proof. vm_compute. reflexivity. Qed.
Lemma demo_good : ∃ s, good demo_scoping demo_types demo_reserved demo_ws (demo_gen s).
Proof.
  pose proof (run_ops_refines new_symtab new_scoping demo_ops new_rep) as H. rewrite demo_run in H.
  destruct H as (s & _ & R). exists s. constructor; [|exact R| | |done].
  - split_and!; [reflexivity|done|]. intros p n Hp. cbn [nodes demo_forest trees demo_gen] in Hp. apply elem_of_list_to_map_2 in Hp. cbn [fresh demo_forest trees demo_gen].
    revert Hp. unfold demo_nodes. rewrite !elem_of_cons, elem_of_nil. intros Hp. repeat destruct Hp as [Hp|Hp]; try (injection Hp as -> _; done). done.
  - intros p _ Hk. destruct (decide (p = 1)) as [->|H1].
    + exists (expr TypeIdOp 31 NullExp), 31, (leaf INTEGERTNode 0). split_and!; try reflexivity. left. by exists 0.
    + exfalso. unfold kind, attr_of in Hk. cbn [attrs demo_scoping] in Hk. unfold demo_attrs in Hk. destruct (decide (p = 2)) as [->|H2].
      * rewrite lookup_insert_eq in Hk. by destruct Hk.
      * rewrite !lookup_insert_ne in Hk by congruence. by destruct Hk.
  - intros q Hq. unfold demo_reserved in Hq. cbn. set_unfold. lia.
Qed.

(** The tree at an address, with its nodes. *)
Ltac own :=
  match goal with
  | |- owned _ _ TNull _ => split; reflexivity
  | |- owned _ _ (TLeaf _ _) _ => split; [split_and!; [discriminate..|eexists; split_and!; reflexivity]|reflexivity]
  | |- owned _ _ (TExpr _ _ _) _ => eapply owned_both; [reflexivity|reflexivity|reflexivity|reflexivity|reflexivity|discriminate|own|own| | | ]
  end.
Lemma demo_stmt_owned : ∃ F, owned demo_forest 10 (demo_stmt IDNode 2) F ∧ demo_reserved ## F.
Proof. eexists. split; [unfold demo_stmt, demo_var; own; compute_done|compute_done]. Qed.
Lemma demo_selected_owned : ∃ F, owned demo_forest 15 (TExpr VarOp (TLeaf IDNode 0) (TExpr SelectOp (TExpr FieldOp (TLeaf IDNode 2) TNull) TNull)) F ∧ demo_reserved ## F.
Proof. eexists. split; [own; compute_done|compute_done]. Qed.
Lemma demo_unknown_at : tree_at demo_forest 17 (demo_var IDNode 9).
Proof. unfold demo_var. cbn [tree_at]. repeat first [split|eexists]; try reflexivity; discriminate. Qed.
Lemma demo_type_owned : ∃ F, owned demo_forest 30 (type_tree 0 0) F ∧ F ⊆ demo_reserved.
Proof. eexists. split; [unfold type_tree; cbn [dims]; own; compute_done|compute_done]. Qed.
Definition demo_decls : list (Z * ast) := [(7, demo_var IDNode 2); (5, TNull)].
Lemma demo_decls_at : ∃ F, decls_at demo_forest 30 26 (named demo_decls) F ∧ demo_reserved ## F.
Proof.
  assert (∀ p id, nodes demo_forest !! p = Some (leaf IDNode id) → p ≠ NullExp → tree_at demo_forest p (TLeaf IDNode id)) as Hleaf.
  { intros p id Hp Hne. split_and!; [done|discriminate..|]. by eexists. }
  eexists. split.
  - cbn [named demo_decls fmap list_fmap decls_at fst snd]. split; [discriminate|]. eexists _, _, _, _, _. split_and!; try reflexivity.
    + eexists _, _, _, _, _, _. split_and!; try reflexivity; [discriminate|by apply Hleaf|unfold demo_var; own; compute_done|discriminate..|compute_done].
    + discriminate.
    + eexists _, _, _, _, _. split_and!; try reflexivity.
      * eexists _, _, _, _, _, _. split_and!; try reflexivity; [discriminate|by apply Hleaf|own|discriminate..|compute_done].
      * compute_done.
      * compute_done.
      * compute_done.
    + compute_done.
    + compute_done.
    + compute_done.
  - compute_done.
Qed.

Lemma names_resolved_witness : ∃ s g' F', MkST 600 10 (demo_gen s) = Ret tt g' ∧ owned (trees g') 10 (demo_stmt STNode 1) F'.
Proof.
  destruct demo_good as (s & G). destruct demo_stmt_owned as (F & O & HT). destruct demo_words as [Hw Hu].
  destruct (names_resolved demo_scoping demo_types demo_reserved demo_ws 600 (demo_stmt IDNode 2) (demo_stmt STNode 1) 10 (demo_gen s) F Hw Hu G O HT) as (g' & F' & E & O' & _).
  - unfold enough. vm_compute. lia.
  - vm_compute. reflexivity.
  - by exists s, g', F'.
Defined.

(** The code of the statement, in the symbol table as it is. *)
Definition demo_name (id : Z) : list Z := if id =? 1 then id_sum else id_a.
Lemma sem_demo_ready g : good demo_scoping demo_types demo_reserved demo_ws g → asm_file g = [] → ∃ C, ready g demo_attrs C demo_name.
Proof.
  intros [G1 G2 _ _ G5] Ha. destruct (r_attrs _ _ G2) as [C HA]. exists C. constructor; [done|exact HA| |].
  - intros id _. rewrite G5. unfold demo_name. destruct (Z.eqb_spec id 1) as [->|H1]; [by vm_compute|].
    unfold attr_of, demo_attrs. destruct (decide (id = 2)) as [->|H2]; [by vm_compute|]. rewrite !lookup_insert_ne by congruence. by vm_compute.
  - rewrite Ha. intros k Hk. by apply elem_of_nil in Hk.
Qed.
Lemma source_statements_compiled_witness : ∃ s g1 g2 c, MkST 600 10 (demo_gen s) = Ret tt g1 ∧ GenStmt 100 10 g1 = Ret tt g2 ∧ asm_file g2 = asm_file g1 ++ c ∧
  runs_as demo_attrs demo_name (demo_stmt STNode 1) (asm_file g1) c.
Proof.
  destruct demo_good as (s & G). destruct demo_stmt_owned as (F & O & HT). destruct demo_words as [Hw Hu].
  destruct (source_statements_compiled demo_scoping demo_types demo_reserved demo_ws 600 (demo_stmt IDNode 2) (demo_stmt STNode 1) 10 (demo_gen s) F Hw Hu G O HT) as (g1 & F' & E & G1 & Ha & O' & H).
  - unfold enough. vm_compute. lia.
  - vm_compute. reflexivity.
  - destruct (sem_demo_ready g1 G1 Ha) as (C & R). destruct (H g1 demo_attrs C demo_name 100%nat R) as (g2 & c & E2 & Ec & _ & _ & Hr); [done|vm_compute; reflexivity|vm_compute; lia|].
    by exists s, g1, g2, c.
Defined.
Lemma scopes_restored_witness : ∃ s g' a' l, MkST 600 10 (demo_gen s) = Ret tt g' ∧ rep (syms g') a' ∧
  blocks a' = (l ++ [(0, 2); (2, 1)]) :: [[]].
Proof.
  destruct demo_good as (s & G). destruct demo_stmt_owned as (F & O & HT). destruct demo_words as [Hw Hu].
  destruct (MkST_walks demo_scoping demo_types demo_reserved demo_ws Hw Hu 600 (demo_stmt IDNode 2) (demo_stmt STNode 1)) with (p := 10) (g := demo_gen s) (F := F)
    as (g' & F' & E & _); [unfold enough; vm_compute; lia|vm_compute; reflexivity|exact G|exact O|exact HT|].
  destruct (scopes_restored 600 10 (demo_gen s) demo_scoping tt g' (g_syms _ _ _ _ _ G) E) as (a' & l & b & bs & R & B & B' & _).
  injection B as <- <-. by exists s, g', a', l.
Defined.
Lemma undeclared_reported_witness : ∃ s g', MkST 1 17 (demo_gen s) = Ret tt g' ∧ rep (syms g') (unknown 9 demo_scoping).
Proof.
  destruct demo_good as (s & G). pose proof (undeclared_reported demo_scoping 0 17 (demo_gen s) IDNode 9 TNull) as H.
  change (depth demo_scoping <? STACK_SIZE - 1) with true in H. destruct H as (g' & E & _ & R & _); [apply G|apply G|exact demo_unknown_at|reflexivity|].
  by exists s, g'.
Defined.
Lemma selected_argument_diverges_witness : ∃ s, ∀ fuel, MkST fuel 15 (demo_gen s) = Fuel.
Proof.
  destruct demo_good as (s & G). destruct demo_selected_owned as (F & O & HT). exists s.
  eapply (selected_argument_diverges demo_scoping demo_types demo_reserved demo_ws 15 (demo_gen s) IDNode 0 2 _ F G O HT); [reflexivity|left; vm_compute; reflexivity|discriminate].
Defined.
Lemma declarations_entered_witness : ∃ s g' F', MkST 601 26 (demo_gen s) = Ret tt g' ∧
  decls_at (trees g') 30 26 [(TLeaf STNode 3, demo_var STNode 1); (TLeaf STNode 4, TNull)] F'.
Proof.
  destruct demo_good as (s & G). destruct demo_decls_at as (F & D & HT). destruct demo_type_owned as (FT & OT & HFT). destruct demo_words as [Hw Hu].
  destruct (declarations_entered demo_types demo_reserved demo_ws 30 0 0 FT demo_decls demo_scoping
    (new_variable 5 30 0 (new_variable 7 30 0 demo_scoping)) [(TLeaf STNode 3, demo_var STNode 1); (TLeaf STNode 4, TNull)] (demo_gen s) 26 F 600
    Hw Hu G OT HFT) as (g' & F' & E & D' & _); [vm_compute; reflexivity|discriminate|done| |lia|vm_compute; lia|exact D|exact HT|].
  - unfold enough. repeat constructor; vm_compute; lia.
  - by exists s, g', F'.
Defined.
