(* ===== verification/Cxx.v ===== *)
(** * The C++ standard library, as far as pittRCDB uses it

    [std::map] is iterated in the order of its keys, an exception that nobody
    catches ends the process. *)
From stdpp Require Import sorting.
From S2P Require Import Prelude.
Open Scope Z_scope.

(** A [std::string] of bytes. *)
Notation str := (list Z).

(** ** Maps in the order of their keys *)

Definition key_le {A} (x y : Z * A) : Prop := x.1 ≤ y.1.
#[export] Instance key_le_dec {A} : RelDecision (key_le (A:=A)).
Proof. intros x y. apply Z.le_dec. Defined.
Definition map_entries {A} (m : gmap Z A) : list (Z * A) := merge_sort key_le (map_to_list m).
Definition map_keys {A} (m : gmap Z A) : list Z := (map_entries m).*1.

Section entries.
Context {A : Type}.
Implicit Types m : gmap Z A.

Lemma entries_perm m : map_entries m ≡ₚ map_to_list m.
Proof. apply merge_sort_Permutation. Qed.
Lemma elem_of_entries m k x : (k, x) ∈ map_entries m ↔ m !! k = Some x.
Proof. by rewrite entries_perm, elem_of_map_to_list. Qed.
Lemma keys_perm m : map_keys m ≡ₚ (map_to_list m).*1.
Proof. unfold map_keys. by rewrite entries_perm. Qed.
Lemma elem_of_keys m k : k ∈ map_keys m ↔ is_Some (m !! k).
Proof.
  unfold map_keys. rewrite list_elem_of_fmap. split.
  - intros ([k' x] & -> & H%elem_of_entries). by exists x.
  - intros [x H%elem_of_entries]. by exists (k, x).
Qed.
Lemma NoDup_keys m : NoDup (map_keys m).
Proof. rewrite keys_perm. apply NoDup_fst_map_to_list. Qed.
Lemma keys_sorted m : Sorted Z.le (map_keys m).
Proof.
  unfold map_keys. assert (Sorted key_le (map_entries m)) as H.
  { apply Sorted_merge_sort. intros x y. unfold key_le. lia. }
  induction H as [|x l Hl IH Hx]; [constructor|]. constructor; [done|].
  destruct Hx; cbn; [constructor|]. by constructor.
Qed.
Lemma length_keys m : length (map_keys m) = size m.
Proof. rewrite keys_perm, length_fmap. apply length_map_to_list. Qed.
End entries.

(** ** Exceptions: nothing in the program catches one, so the process aborts. *)

Definition SIGABRT_STATUS : Z := 134.
Definition throw {S A} : prog S A := exit_with SIGABRT_STATUS.

Definition exhausted {S A} : prog S A := λ _, Fuel.
