(* ===== verification/DiGraph.v ===== *)
(** * The wait-for graph of the database

    CS2550/pittRCDB/src/DiGraph.cpp and DeadlockDetector.cpp: a directed graph
    of transactions as adjacency lists, the search for a cycle that goes through
    it in depth, and the detector, which refuses an edge that closes a cycle.
    The search finds a cycle exactly when there is one, provided the numbers of
    the nodes are below the number of nodes; when they are not, it leaves its
    arrays.  Ending a transaction also forgets edges of others. *)
From S2P Require Import Prelude Cxx.
Open Scope Z_scope.

(** ** The graph *)

Record digraph := mk_digraph { numV : Z; adj : gmap Z (list Z) }.
Definition set_adj (a : gmap Z (list Z)) (g : digraph) : digraph := mk_digraph (numV g) a.
Definition DiGraph : digraph := mk_digraph 0 ∅.

Definition has_node (V : Z) (g : digraph) : bool := bool_decide (is_Some (adj g !! V)).
Definition hasNode (V : Z) : prog digraph bool := reads (λ g, Some (has_node V g)).

Definition addNode (V : Z) : prog digraph unit :=
  b ← hasNode V;
  if negb b then
    modify (λ g, set_adj (<[V := []]> (adj g)) g);;
    updates (λ g, n ← int_incr (numV g); Some (mk_digraph n (adj g)))
  else mret tt.

(** [erase(it, end())] from the first [V] on. *)
Fixpoint erase_from (V : Z) (l : list Z) : list Z :=
  match l with
  | [] => []
  | v :: l' => if v =? V then [] else v :: erase_from V l'
  end.
Definition removeNode (V : Z) : prog digraph unit :=
  b ← hasNode V;
  if b : bool then modify (λ g, mk_digraph (numV g - 1) (delete V (erase_from V <$> adj g))) else mret tt.

(** [adj[V]] of a node. *)
Definition adj_of (V : Z) : prog digraph (list Z) := reads (λ g, adj g !! V).
Definition addEdge (VFrom VTo : Z) : prog digraph unit :=
  b ← hasNode VFrom;
  if negb b then throw
  else
    b ← hasNode VTo;
    if negb b then throw
    else
      l ← adj_of VFrom;
      if existsb (Z.eqb VTo) l then mret tt
      else modify (λ g, set_adj (<[VFrom := l ++ [VTo]]> (adj g)) g).

Fixpoint erase_first (V : Z) (l : list Z) : list Z :=
  match l with
  | [] => []
  | v :: l' => if v =? V then l' else v :: erase_first V l'
  end.
Definition removeEdge (VFrom VTo : Z) : prog digraph unit :=
  b ← hasNode VFrom;
  if negb b then throw
  else
    b ← hasNode VTo;
    if negb b then throw
    else
      l ← adj_of VFrom;
      if existsb (Z.eqb VTo) l then modify (λ g, set_adj (<[VFrom := erase_first VTo l]> (adj g)) g) else throw.

(** ** The search for a cycle *)

(** The two vectors of [hasCycles]; the integers of [inStack] are 0 and 1. *)
Record marks := mk_marks { visited : list bool; inStack : list bool }.
Definition is_visited (V : Z) : prog marks bool := reads (λ m, aget (visited m) V).
Definition in_stack (V : Z) : prog marks bool := reads (λ m, aget (inStack m) V).
Definition set_visited (V : Z) (b : bool) : prog marks unit := updates (λ m, v ← aset (visited m) V b; Some (mk_marks v (inStack m))).
Definition set_stack (V : Z) (b : bool) : prog marks unit := updates (λ m, s ← aset (inStack m) V b; Some (mk_marks (visited m) s)).

Section search.
(** The graph does not change: every edge ends at a node, [adj[V]] inserts nothing. *)
Variable graph : gmap Z (list Z).

Fixpoint adjacent (DFS : Z → prog marks bool) (l : list Z) : prog marks bool :=
  match l with
  | [] => mret false
  | v :: l' =>
      b ← is_visited v;
      r ← (if negb b then DFS v else mret false);
      if r : bool then mret true
      else
        s ← in_stack v;
        if s : bool then mret true else adjacent DFS l'
  end.
Fixpoint DFSForCycle (fuel : nat) (V : Z) : prog marks bool :=
  match fuel with
  | O => exhausted
  | S fuel' =>
      b ← is_visited V;
      r ← (if negb b then
             set_visited V true;;
             set_stack V true;;
             l ← lift (graph !! V);
             adjacent (DFSForCycle fuel') l
           else mret false);
      if r : bool then mret true else set_stack V false;; mret false
  end.
Fixpoint from_nodes (DFS : Z → prog marks bool) (l : list Z) : prog marks bool :=
  match l with
  | [] => mret false
  | v :: l' =>
      b ← is_visited v;
      r ← (if negb b then DFS v else mret false);
      if r : bool then mret true else from_nodes DFS l'
  end.
End search.

(** Every call of [DFSForCycle] inside another visits one more node. *)
Definition hasCycles : prog digraph bool := λ g,
  let n := Z.to_nat (numV g) in
  match from_nodes (DFSForCycle (adj g) (S n)) (map_keys (adj g)) (mk_marks (replicate n false) (replicate n false)) with
  | Ret b _ => Ret b g
  | Exited c _ => Exited c g
  | Undef => Undef
  | Fuel => Fuel
  end.

(** ** The detector *)

Definition waitFor (waitingTransactionId waitingForTransactionId : Z) : prog digraph bool :=
  b ← hasNode waitingTransactionId;
  (if negb b then addNode waitingTransactionId else mret tt);;
  b ← hasNode waitingForTransactionId;
  (if negb b then addNode waitingForTransactionId else mret tt);;
  addEdge waitingTransactionId waitingForTransactionId;;
  c ← hasCycles;
  if c : bool then removeEdge waitingTransactionId waitingForTransactionId;; mret false else mret true.
Definition endTransaction (transactionId : Z) : prog digraph unit := removeNode transactionId.
Definition addTransaction (transactionId : Z) : prog digraph unit := addNode transactionId.

(** ** Edges, and graphs as the class keeps them *)

Definition edge (g : digraph) (x y : Z) : Prop := ∃ l, adj g !! x = Some l ∧ y ∈ l.
Definition acyclic (g : digraph) : Prop := ∀ x, ¬ tc (edge g) x x.
Definition is_node (g : digraph) (x : Z) : Prop := is_Some (adj g !! x).
Record wf_graph (g : digraph) : Prop := {
  wg_size : numV g = Z.of_nat (size (adj g));
  wg_ends x y : edge g x y → is_node g y;
  wg_once x l : adj g !! x = Some l → NoDup l
}.
(** The numbers of the nodes are those of the elements of the vectors. *)
Definition in_range (g : digraph) : Prop := ∀ x, is_node g x → 0 ≤ x < numV g.

Lemma edge_node g x y : edge g x y → is_node g x.
Proof. intros (l & E & _). by exists l. Qed.

(** *** The order in which the search leaves the nodes *)

Fixpoint topo (E : Z → Z → Prop) (L : list Z) : Prop :=
  match L with
  | [] => True
  | x :: L' => x ∉ L' ∧ (∀ y, E x y → y ∈ L') ∧ topo E L'
  end.
Lemma topo_closed E L x y : topo E L → x ∈ L → E x y → y ∈ L.
Proof.
  induction L as [|z L IH]; intros HT Hx He; [by apply elem_of_nil in Hx|]. destruct HT as (_ & Hz & HT).
  apply elem_of_cons in Hx as [->|Hx]; right; [by apply Hz|by apply IH].
Qed.
Lemma topo_reach E L x y : topo E L → x ∈ L → tc E x y → y ∈ L.
Proof. intros HT Hx Hp. induction Hp; [|apply IHHp]; by eapply topo_closed. Qed.
Lemma topo_acyclic E L x : topo E L → x ∈ L → ¬ tc E x x.
Proof.
  induction L as [|z L IH]; intros HT Hx Hp; [by apply elem_of_nil in Hx|]. pose proof HT as (Hz & Hs & HT').
  destruct (decide (x = z)) as [->|Hne].
  - apply Hz. inversion Hp as [? ? H|? y ? H Hp']; subst; [by apply Hs|]. eapply topo_reach; [done|by apply Hs|done].
  - apply elem_of_cons in Hx as [->|Hx]; [done|]. by apply IH.
Qed.

(** ** The search is correct *)

Section search_correct.
Variable g : digraph.
Hypothesis Hwf : wf_graph g.
#[local] Notation E := (edge g).
#[local] Notation n := (Z.to_nat (numV g)).

(** The marks when the nodes of [P] are on the stack and those of [L] are done. *)
Record searched (m : marks) (P L : list Z) : Prop := {
  sr_vis : length (visited m) = n;
  sr_stk : length (inStack m) = n;
  sr_range x : x ∈ P ++ L → 0 ≤ x < numV g;
  sr_once : NoDup (P ++ L);
  sr_visited x : 0 ≤ x < numV g → aget (visited m) x = Some (bool_decide (x ∈ P ++ L));
  sr_stack x : 0 ≤ x < numV g → aget (inStack m) x = Some (bool_decide (x ∈ P));
  sr_topo : topo E L
}.
(** What a search that starts with [L] done may end with: a cycle, the nodes of
    [goal] done, or an access outside the vectors. *)
Definition finished (P L goal : list Z) (o : outcome marks bool) : Prop :=
  match o with
  | Ret true _ => ∃ x, tc E x x
  | Ret false m' => ∃ L', searched m' P (L' ++ L) ∧ ∀ v, v ∈ goal → v ∈ L' ++ L
  | Undef => ∃ x, is_node g x ∧ ¬ 0 ≤ x < numV g
  | _ => False
  end.

Lemma read_marks m P L v : searched m P L → is_node g v →
  (¬ 0 ≤ v < numV g ∧ is_visited v m = Undef) ∨
  (0 ≤ v < numV g ∧ is_visited v m = Ret (bool_decide (v ∈ P ++ L)) m ∧ in_stack v m = Ret (bool_decide (v ∈ P)) m).
Proof.
  intros S Hv. destruct (decide (0 ≤ v < numV g)) as [Hr|Hr].
  - right. split; [done|]. split; [by apply reads_Some, (sr_visited _ _ _ S)|by apply reads_Some, (sr_stack _ _ _ S)].
  - left. split; [done|]. unfold is_visited, reads. destruct (aget (visited m) v) eqn:Ea; [|done]. apply aget_bounds in Ea. rewrite (sr_vis _ _ _ S) in Ea. lia.
Qed.
Lemma fits_stack m P L : searched m P L → (length (P ++ L) ≤ n)%nat.
Proof. intros S. pose proof (NoDup_range_length (P ++ L) (numV g) (sr_once _ _ _ S) (sr_range _ _ _ S)). lia. Qed.

Lemma mark_node m P L v : searched m P L → 0 ≤ v < numV g → v ∉ P ++ L →
  ∃ m', (set_visited v true;; set_stack v true) m = Ret tt m' ∧ searched m' (v :: P) L.
Proof.
  intros S Hr Hn. pose proof (sr_vis _ _ _ S) as L1. pose proof (sr_stk _ _ _ S) as L2.
  exists (mk_marks (<[Z.to_nat v := true]> (visited m)) (<[Z.to_nat v := true]> (inStack m))). split.
  - unfold set_visited, set_stack, updates, mbind, prog_bind. rewrite aset_ok by lia. cbn. by rewrite aset_ok by lia.
  - constructor; cbn [visited inStack].
    + by rewrite length_insert.
    + by rewrite length_insert.
    + intros x Hx. apply elem_of_cons in Hx as [->|Hx]; [done|by apply (sr_range _ _ _ S)].
    + apply NoDup_cons. split; [done|apply S].
    + intros x Hx. rewrite (aget_aset (visited m) v x true) by (apply aset_ok; lia). case_decide as Hd.
      * subst. rewrite bool_decide_true; [done|]. left.
      * rewrite (sr_visited _ _ _ S) by done. f_equal. apply bool_decide_ext. rewrite <-app_comm_cons, elem_of_cons. naive_solver.
    + intros x Hx. rewrite (aget_aset (inStack m) v x true) by (apply aset_ok; lia). case_decide as Hd.
      * subst. rewrite bool_decide_true; [done|]. left.
      * rewrite (sr_stack _ _ _ S) by done. f_equal. apply bool_decide_ext. rewrite elem_of_cons. naive_solver.
    + apply S.
Qed.
(** The node on top is done. *)
Lemma unmark_node m P L v : searched m (v :: P) L → (∀ y, E v y → y ∈ L) →
  ∃ m', set_stack v false m = Ret tt m' ∧ searched m' P (v :: L).
Proof.
  intros S Hs. pose proof (sr_stk _ _ _ S) as L2. assert (0 ≤ v < numV g) as Hr by (apply (sr_range _ _ _ S); left).
  pose proof (sr_once _ _ _ S) as Hnd. cbn in Hnd. apply NoDup_cons in Hnd as [Hv Hnd].
  assert (∀ x, x ∈ P ++ v :: L ↔ x = v ∨ x ∈ P ++ L) as Hin by (intros x; rewrite !elem_of_app, elem_of_cons; tauto).
  exists (mk_marks (visited m) (<[Z.to_nat v := false]> (inStack m))). split.
  - unfold set_stack, updates. by rewrite aset_ok by lia.
  - constructor; cbn [visited inStack].
    + apply S.
    + by rewrite length_insert.
    + intros x [->|Hx]%Hin; [done|]. apply (sr_range _ _ _ S). by right.
    + apply (NoDup_Permutation_proper (v :: P ++ L)); [by rewrite Permutation_middle|]. by apply NoDup_cons.
    + intros x Hx. rewrite (sr_visited _ _ _ S) by done. f_equal. apply bool_decide_ext. rewrite Hin, <-app_comm_cons, elem_of_cons. tauto.
    + intros x Hx. rewrite (aget_aset (inStack m) v x false) by (apply aset_ok; lia). case_decide as Hd.
      * subst. rewrite bool_decide_false; [done|]. rewrite elem_of_app in Hv. tauto.
      * rewrite (sr_stack _ _ _ S) by done. f_equal. apply bool_decide_ext. rewrite elem_of_cons. naive_solver.
    + split; [rewrite elem_of_app in Hv; tauto|]. split; [done|apply S].
Qed.

(** The call of [DFSForCycle] on a node that was not visited. *)
Definition searches (DFS : Z → prog marks bool) (P : list Z) : Prop := ∀ m L v, searched m P L → is_node g v → 0 ≤ v < numV g → v ∉ P ++ L →
  (∀ p, p ∈ P → rtc E p v) → finished P L [v] (DFS v m).

Lemma finished_goal P L goal goal' o : finished P L goal o → (∀ L' v, v ∈ goal' → v ∈ L' ++ L ∨ v ∈ goal) → finished P L goal' o.
Proof.
  intros H Hg. destruct o as [[] m'|code m'| |]; try done. destruct H as (L' & S & H). exists L'. split; [done|].
  intros v Hv. destruct (Hg L' v Hv); [done|by apply H].
Qed.
Lemma finished_more P L1 L goal o : finished P (L1 ++ L) goal o → finished P L goal o.
Proof.
  intros H. destruct o as [[] m'|code m'| |]; try done. destruct H as (L' & S & H). exists (L' ++ L1). by rewrite <-app_assoc.
Qed.
Lemma adjacent_finished DFS x P l : searches DFS (x :: P) → (∀ p, p ∈ P → rtc E p x) → (∀ y, y ∈ l → E x y) →
  ∀ m L, searched m (x :: P) L → finished (x :: P) L l (adjacent DFS l m).
Proof.
  intros HD HP. induction l as [|v l IH]; intros Hl m L S; cbn [adjacent].
  { exists []. split; [done|]. intros v Hv. by apply elem_of_nil in Hv. }
  assert (E x v) as Hxv by (apply Hl; left). assert (∀ p, p ∈ x :: P → rtc E p v) as HPv.
  { intros p [->|Hp]%elem_of_cons; [by apply rtc_once|]. etrans; [by apply HP|by apply rtc_once]. }
  assert (is_node g v) as Hv by by eapply (wg_ends g Hwf).
  destruct (read_marks m (x :: P) L v S Hv) as [[Hr Eu]|(Hr & Ev & Es)].
  { unfold mbind, prog_bind. rewrite Eu. by exists v. }
  rewrite (bind_Ret _ _ _ _ _ Ev); clear Ev. destruct (bool_decide_reflect (v ∈ (x :: P) ++ L)) as [Hvis|Hvis]; cbn [negb].
  - rewrite (bind_Ret _ _ _ false m) by done. rewrite (bind_Ret _ _ _ _ _ Es). destruct (bool_decide_reflect (v ∈ x :: P)) as [Hst|Hst].
    + exists x. eapply tc_rtc_r; [by apply tc_once|]. apply elem_of_cons in Hst as [->|Hst]; [done|by apply HP].
    + eapply finished_goal; [apply IH; [intros y Hy; apply Hl; by right|exact S]|]. intros L' w [->|Hw]%elem_of_cons; [|by right].
      left. apply elem_of_app in Hvis as [Hvis|Hvis]; [done|]. apply elem_of_app. by right.
  - assert (v ∉ (x :: P) ++ L) as Hnew by done. pose proof (HD m L v S Hv Hr Hnew HPv) as Hd. unfold mbind at 1, prog_bind at 1.
    destruct (DFS v m) as [[] m1|code m1| |]; cbn [finished] in Hd; try done. destruct Hd as (L1 & S1 & Hg).
    destruct (read_marks m1 (x :: P) (L1 ++ L) v S1 Hv) as [[Hr' _]|(_ & _ & Es1)]; [done|]. rewrite (bind_Ret _ _ _ _ _ Es1).
    rewrite bool_decide_false.
    2:{ intros Hst. pose proof (sr_once _ _ _ S1) as Hnd. apply NoDup_app in Hnd as (_ & Hd & _). apply (Hd v Hst), Hg. left. }
    apply (finished_more _ L1). eapply finished_goal; [apply IH; [intros y Hy; apply Hl; by right|exact S1]|].
    intros L' w [->|Hw]%elem_of_cons; [|by right]. left. apply elem_of_app. right. apply Hg. left.
Qed.

Lemma DFS_finished fuel P : (n < fuel + length P)%nat → searches (DFSForCycle (adj g) fuel) P.
Proof.
  revert P. induction fuel as [|fuel IH]; intros P Hf m L v S Hv Hr Hnew HP.
  { pose proof (fits_stack m P L S) as H. rewrite length_app in H. lia. }
  cbn [DFSForCycle]. destruct (read_marks m P L v S Hv) as [[Hr' _]|(_ & Ev & _)]; [done|]. rewrite (bind_Ret _ _ _ _ _ Ev), bool_decide_false by done. cbn [negb].
  destruct (mark_node m P L v S Hr Hnew) as (m1 & Em & S1). destruct Hv as [l El].
  assert ((set_visited v true;; set_stack v true;; l ← lift (adj g !! v); adjacent (DFSForCycle (adj g) fuel) l) m
    = adjacent (DFSForCycle (adj g) fuel) l m1) as Hbody.
  { revert Em. unfold mbind, prog_bind. destruct (set_visited v true m) as [[] m0| | |]; [|done..]. intros ->. by rewrite El. }
  unfold mbind at 1, prog_bind at 1. rewrite Hbody.
  pose proof (adjacent_finished (DFSForCycle (adj g) fuel) v P l) as H. specialize (H ltac:(apply IH; cbn [length]; lia) HP).
  specialize (H ltac:(intros y Hy; by exists l) m1 L S1).
  destruct (adjacent _ l m1) as [[] m2|code m2| |]; cbn [finished] in H; try done. destruct H as (L' & S2 & Hl).
  destruct (unmark_node m2 P (L' ++ L) v S2) as (m3 & E3 & S3).
  { intros y (l' & El' & Hy). rewrite El in El'. injection El' as <-. by apply Hl. }
  rewrite (bind_Ret _ _ _ _ _ E3). exists (v :: L'). split; [exact S3|]. intros w Hw. apply list_elem_of_singleton in Hw as ->. left.
Qed.

Lemma from_nodes_finished DFS l : searches DFS [] → (∀ v, v ∈ l → is_node g v) → ∀ m L, searched m [] L → finished [] L l (from_nodes DFS l m).
Proof.
  intros HD. induction l as [|v l IH]; intros Hl m L S; cbn [from_nodes].
  { exists []. split; [done|]. intros v Hv. by apply elem_of_nil in Hv. }
  assert (is_node g v) as Hv by (apply Hl; left). assert (∀ w, w ∈ l → is_node g w) as Hl' by (intros w Hw; apply Hl; by right).
  destruct (read_marks m [] L v S Hv) as [[Hr Eu]|(Hr & Ev & _)].
  { unfold mbind, prog_bind. rewrite Eu. by exists v. }
  rewrite (bind_Ret _ _ _ _ _ Ev); clear Ev. destruct (bool_decide_reflect (v ∈ [] ++ L)) as [Hvis|Hvis]; cbn [negb].
  - rewrite (bind_Ret _ _ _ false m) by done. eapply finished_goal; [by apply IH|].
    intros L' w [->|Hw]%elem_of_cons; [|by right]. left. apply elem_of_app. by right.
  - pose proof (HD m L v S Hv Hr Hvis) as Hd. specialize (Hd ltac:(intros p Hp; by apply elem_of_nil in Hp)). unfold mbind at 1, prog_bind at 1.
    destruct (DFS v m) as [[] m1|code m1| |]; cbn [finished] in Hd; try done. destruct Hd as (L1 & S1 & Hg).
    apply (finished_more _ L1). eapply finished_goal; [by apply IH|].
    intros L' w [->|Hw]%elem_of_cons; [|by right]. left. apply elem_of_app. right. apply Hg. left.
Qed.

Lemma hasCycles_cases : match hasCycles g with
  | Ret true g' => g' = g ∧ ∃ x, tc E x x
  | Ret false g' => g' = g ∧ acyclic g ∧ in_range g
  | Undef => ∃ x, is_node g x ∧ ¬ 0 ≤ x < numV g
  | _ => False
  end.
Proof.
  unfold hasCycles. set (m := mk_marks _ _). pose proof (from_nodes_finished (DFSForCycle (adj g) (S n)) (map_keys (adj g))) as H.
  specialize (H ltac:(apply DFS_finished; cbn; lia) ltac:(intros v; by rewrite elem_of_keys) m []).
  assert (searched m [] []) as S.
  { constructor; cbn; [apply length_replicate..|intros x Hx; by apply elem_of_nil in Hx|constructor| | |done];
      intros x Hx; rewrite bool_decide_false by apply not_elem_of_nil; apply aget_Some; (split; [lia|]); apply lookup_replicate_2; lia. }
  specialize (H S). destruct (from_nodes _ _ m) as [[] m'|code m'| |]; try done. destruct H as (L' & S' & Hall). rewrite app_nil_r in *.
  split; [done|]. split.
  - intros x Hx. eapply topo_acyclic; [apply S'|apply Hall, elem_of_keys|exact Hx]. by inversion Hx; subst; eapply edge_node.
  - intros x Hx. apply (sr_range _ _ _ S'), Hall. by apply elem_of_keys.
Qed.
Lemma hasCycles_returns : in_range g → ∃ b, hasCycles g = Ret b g ∧ (b = true ↔ ∃ x, tc E x x).
Proof.
  intros Hr. pose proof hasCycles_cases as H. destruct (hasCycles g) as [[] g'|code g'| |]; try done.
  - destruct H as [-> H]. by exists true.
  - destruct H as (-> & Ha & _). exists false. split; [done|]. split; [done|]. intros (x & Hx). by destruct (Ha x).
  - destruct H as (x & Hx & Hn). by destruct Hn; apply Hr.
Qed.
Lemma hasCycles_outside x : acyclic g → is_node g x → ¬ 0 ≤ x < numV g → hasCycles g = Undef.
Proof.
  intros Ha Hx Hn. pose proof hasCycles_cases as H. destruct (hasCycles g) as [[] g'|code g'| |]; try done.
  - destruct H as (_ & y & Hy). by destruct (Ha y).
  - destruct H as (_ & _ & Hr). by destruct Hn; apply Hr.
Qed.
End search_correct.

(** ** What the operations make of the edges *)

Definition with_node (V : Z) (g : digraph) : digraph := if has_node V g then g else mk_digraph (numV g + 1) (<[V := []]> (adj g)).
Lemma has_node_spec V g : has_node V g = true ↔ is_node g V.
Proof. apply bool_decide_eq_true. Qed.
Lemma addNode_eq V g : numV g < 2147483647 → addNode V g = Ret tt (with_node V g).
Proof.
  intros Hn. unfold addNode, with_node. rewrite (bind_Ret _ _ g (has_node V g) g) by done. destruct (has_node V g); [done|]. cbn.
  unfold updates, mbind, prog_bind, modify. cbn. by rewrite int_incr_ok.
Qed.
Lemma edge_with_node V g x y : edge (with_node V g) x y ↔ edge g x y.
Proof.
  unfold with_node, edge. destruct (has_node V g) eqn:Eh; [done|]. cbn. assert (adj g !! V = None) as E.
  { apply bool_decide_eq_false in Eh. by apply eq_None_not_Some. }
  destruct (decide (x = V)) as [->|Hne]; [rewrite lookup_insert_eq|by rewrite lookup_insert_ne].
  rewrite E. split; [intros (l & [= <-] & H); by apply elem_of_nil in H|by intros (l & [=] & _)].
Qed.
Lemma node_with_node V g x : is_node (with_node V g) x ↔ x = V ∨ is_node g x.
Proof.
  unfold with_node. destruct (has_node V g) eqn:Eh.
  - apply has_node_spec in Eh. split; [by right|]. by intros [->|H].
  - unfold is_node. cbn. rewrite lookup_insert_is_Some. destruct (decide (x = V)); naive_solver.
Qed.
Lemma wf_with_node V g : wf_graph g → wf_graph (with_node V g).
Proof.
  intros W. constructor.
  - unfold with_node. destruct (has_node V g) eqn:Eh; [apply W|]. cbn. apply bool_decide_eq_false in Eh. rewrite map_size_insert_None by by apply eq_None_not_Some.
    rewrite (wg_size _ W). lia.
  - intros x y He%edge_with_node. apply node_with_node. right. by eapply (wg_ends _ W).
  - intros x l. unfold with_node. destruct (has_node V g); [apply W|]. cbn. rewrite lookup_insert_Some.
    intros [[_ <-]|[_ H]]; [constructor|by eapply (wg_once _ W)].
Qed.
Lemma numV_with_node V g : numV g ≤ numV (with_node V g) ≤ numV g + 1.
Proof. unfold with_node. destruct (has_node V g); cbn; lia. Qed.

Lemma existsb_Zeqb x l : existsb (Z.eqb x) l = true ↔ x ∈ l.
Proof.
  rewrite existsb_exists. split.
  - intros (y & Hy & ->%Z.eqb_eq). by apply list_elem_of_In.
  - intros H. exists x. split; [by apply list_elem_of_In|by apply Z.eqb_eq].
Qed.

Definition with_edge (a b : Z) (l : list Z) (g : digraph) : digraph :=
  if existsb (Z.eqb b) l then g else set_adj (<[a := l ++ [b]]> (adj g)) g.
Section new_edge.
Variables (a b : Z) (l : list Z) (g : digraph).
Hypotheses (Hwf : wf_graph g) (Ha : adj g !! a = Some l) (Hb : is_node g b).

Lemma addEdge_eq : addEdge a b g = Ret tt (with_edge a b l g).
Proof using Ha Hb.
  unfold addEdge. rewrite (bind_Ret _ _ g (has_node a g) g) by done. rewrite (proj2 (has_node_spec a g)) by by exists l. cbn [negb].
  rewrite (bind_Ret _ _ g (has_node b g) g) by done. rewrite (proj2 (has_node_spec b g)) by done. cbn [negb].
  rewrite (bind_Ret _ _ g l g) by by apply reads_Some. unfold with_edge. by destruct (existsb _ _).
Qed.
Lemma edge_with_edge x y : edge (with_edge a b l g) x y ↔ edge g x y ∨ (x = a ∧ y = b).
Proof using Ha.
  unfold with_edge. destruct (existsb (Z.eqb b) l) eqn:Ee.
  - apply existsb_Zeqb in Ee. split; [by left|]. intros [H|[-> ->]]; [done|by exists l].
  - unfold edge. cbn. destruct (decide (x = a)) as [->|Hne].
    + rewrite lookup_insert_eq, Ha. split.
      * intros (l' & [= <-] & [H|H%list_elem_of_singleton]%elem_of_app); [left; by exists l|by right].
      * intros [(l' & [= <-] & H)|[_ ->]]; eexists; (split; [done|]); apply elem_of_app; [by left|right; by apply list_elem_of_singleton].
    + rewrite lookup_insert_ne by done. naive_solver.
Qed.
Lemma node_with_edge x : is_node (with_edge a b l g) x ↔ is_node g x.
Proof using Ha.
  unfold with_edge. destruct (existsb _ _); [done|]. unfold is_node. cbn. rewrite lookup_insert_is_Some.
  destruct (decide (a = x)) as [<-|]; naive_solver.
Qed.
Lemma wf_with_edge : wf_graph (with_edge a b l g).
Proof using Ha Hb Hwf.
  constructor.
  - unfold with_edge. destruct (existsb _ _); [apply Hwf|]. cbn. rewrite map_size_insert_Some by by eexists. apply Hwf.
  - intros x y H. apply node_with_edge. apply edge_with_edge in H as [H|[-> ->]]; [by eapply (wg_ends _ Hwf)|done].
  - intros x l'. unfold with_edge. destruct (existsb (Z.eqb b) l) eqn:Ee; [apply Hwf|]. cbn. rewrite lookup_insert_Some.
    intros [[_ <-]|[_ H]]; [|by eapply (wg_once _ Hwf)]. apply NoDup_app. split; [by eapply (wg_once _ Hwf)|]. split; [|apply NoDup_singleton].
    intros y Hy Hy'%list_elem_of_singleton. subst. apply existsb_Zeqb in Hy. congruence.
Qed.
Lemma numV_with_edge : numV (with_edge a b l g) = numV g.
Proof. unfold with_edge. by destruct (existsb _ _). Qed.

(** The new edge is taken back. *)
Lemma erase_first_last : b ∉ l → erase_first b (l ++ [b]) = l.
Proof using.
  clear. induction l as [|v l' IH]; cbn; [by rewrite Z.eqb_refl|]. intros H. apply not_elem_of_cons in H as [H1 H2].
  rewrite (proj2 (Z.eqb_neq v b)) by congruence. by rewrite IH.
Qed.
Lemma removeEdge_back : b ∉ l → removeEdge a b (with_edge a b l g) = Ret tt g.
Proof using Ha Hb Hwf.
  intros Hn. set (g' := with_edge a b l g). assert (adj g' !! a = Some (l ++ [b])) as E.
  { unfold g', with_edge. destruct (existsb (Z.eqb b) l) eqn:Ee; [by apply existsb_Zeqb in Ee|]. apply lookup_insert_eq. }
  unfold removeEdge. rewrite (bind_Ret _ _ g' true g') by (unfold hasNode; apply reads_Some; f_equal; apply has_node_spec; by eexists). cbn [negb].
  rewrite (bind_Ret _ _ g' true g') by (unfold hasNode; apply reads_Some; f_equal; apply has_node_spec, node_with_edge, Hb). cbn [negb].
  rewrite (bind_Ret _ _ g' (l ++ [b]) g') by by apply reads_Some.
  rewrite (proj2 (existsb_Zeqb b (l ++ [b]))) by (apply elem_of_app; right; by apply list_elem_of_singleton).
  rewrite erase_first_last by done. unfold modify. f_equal. unfold g', with_edge.
  destruct (existsb (Z.eqb b) l) eqn:Ee; [by apply existsb_Zeqb in Ee|]. destruct g as [n m]. unfold set_adj. cbn in *. by rewrite insert_insert_eq, insert_id.
Qed.
End new_edge.

Section cycles.
Variables (E E' : Z → Z → Prop) (a b : Z).
Hypothesis Hnew : ∀ x y, E' x y ↔ E x y ∨ (x = a ∧ y = b).

Lemma tc_new_edge x y : tc E' x y → tc E x y ∨ (rtc E x a ∧ rtc E b y).
Proof using Hnew.
  induction 1 as [x y [H|[-> ->]]%Hnew|x y z [H|[-> ->]]%Hnew _ IH].
  - left. by apply tc_once.
  - by right.
  - destruct IH as [IH|[H1 H2]]; [left; by eapply tc_l|right]. split; [by eapply rtc_l|done].
  - right. split; [done|]. destruct IH as [IH|[_ H2]]; [by apply tc_rtc|done].
Qed.
Lemma cycle_new_edge : (∀ x, ¬ tc E x x) → (∃ x, tc E' x x) ↔ rtc E b a.
Proof using Hnew.
  intros Ha. split.
  - intros (x & [Hx|[H1 H2]]%tc_new_edge); [by destruct (Ha x)|]. by etrans.
  - intros H. exists a. eapply tc_rtc_r; [apply tc_once, Hnew; by right|]. eapply rtc_subrel; [|exact H]. intros x y Hx. apply Hnew. by left.
Qed.
End cycles.

Definition without (V : Z) (g : digraph) : digraph :=
  if has_node V g then mk_digraph (numV g - 1) (delete V (erase_from V <$> adj g)) else g.
Lemma removeNode_eq V g : removeNode V g = Ret tt (without V g).
Proof. unfold removeNode, without. rewrite (bind_Ret _ _ g (has_node V g) g) by done. by destruct (has_node V g). Qed.
Lemma edge_without V g x y : is_node g V → edge (without V g) x y ↔ x ≠ V ∧ ∃ l, adj g !! x = Some l ∧ y ∈ erase_from V l.
Proof.
  intros HV. unfold without, edge. rewrite (proj2 (has_node_spec V g)) by done. cbn. split.
  - intros (l & (Hne & (l0 & <- & Hl)%lookup_fmap_Some)%lookup_delete_Some & Hy). split; [congruence|]. by exists l0.
  - intros (Hne & l & El & Hy). exists (erase_from V l). split; [|done]. apply lookup_delete_Some. split; [congruence|]. by rewrite lookup_fmap, El.
Qed.
Lemma erase_from_sub V l y : y ∈ erase_from V l → y ∈ l ∧ y ≠ V.
Proof.
  induction l as [|v l IH]; cbn; [by intros H%elem_of_nil|]. destruct (Z.eqb_spec v V) as [->|Hne]; [by intros H%elem_of_nil|].
  intros [->|H]%elem_of_cons; [split; [left|done]|]. destruct (IH H) as [H1 H2]. split; [by right|done].
Qed.
Lemma NoDup_erase_from V l : NoDup l → NoDup (erase_from V l).
Proof.
  induction 1 as [|v l Hv Hl IH]; cbn; [constructor|]. destruct (v =? V); [constructor|]. constructor; [|done].
  intros H. apply Hv. by apply erase_from_sub in H as [? _].
Qed.
Lemma wf_without V g : wf_graph g → wf_graph (without V g).
Proof.
  intros W. destruct (has_node V g) eqn:Eh; [|unfold without; by rewrite Eh]. apply has_node_spec in Eh. constructor.
  - unfold without. rewrite (proj2 (has_node_spec V g)) by done. cbn.
    rewrite map_size_delete_Some by (rewrite lookup_fmap; by apply fmap_is_Some). rewrite map_size_fmap, (wg_size _ W).
    assert (size (adj g) ≠ 0%nat) as Hs by (by destruct Eh as [l El]; eapply map_size_ne_0_lookup_2). lia.
  - intros x y (Hx & l & El & (Hy & HyV)%erase_from_sub)%edge_without; [|done]. unfold is_node, without. rewrite (proj2 (has_node_spec V g)) by done. cbn.
    rewrite lookup_delete_ne by congruence. rewrite lookup_fmap, fmap_is_Some. apply (wg_ends _ W x). by exists l.
  - intros x l. unfold without. rewrite (proj2 (has_node_spec V g)) by done. cbn.
    intros (_ & (l0 & <- & Hl)%lookup_fmap_Some)%lookup_delete_Some. apply NoDup_erase_from. by eapply (wg_once _ W).
Qed.
Lemma without_sub V g x y : edge (without V g) x y → edge g x y.
Proof.
  destruct (has_node V g) eqn:Eh; [|unfold without; by rewrite Eh]. apply has_node_spec in Eh.
  intros (_ & l & El & (Hy & _)%erase_from_sub)%edge_without; [|done]. by exists l.
Qed.
Lemma acyclic_sub g g' : (∀ x y, edge g' x y → edge g x y) → acyclic g → acyclic g'.
Proof. 
  intros Hs Ha x Hx. apply (Ha x). assert (∀ y z, tc (edge g') y z → tc (edge g) y z) as H; [|by apply H]. clear x Hx.
  induction 1 as [y z H|y z w H _ IH]; [by apply tc_once, Hs|]. eapply tc_l; [by apply Hs|done].
Qed.

(** *** The detector *)

(** The graph [waitFor] tests. *)
Definition waiting (a b : Z) (g : digraph) : digraph := with_node b (with_node a g).
Lemma wf_waiting a b g : wf_graph g → wf_graph (waiting a b g).
Proof. intros W. by apply wf_with_node, wf_with_node. Qed.
Lemma edge_waiting a b g x y : edge (waiting a b g) x y ↔ edge g x y.
Proof. unfold waiting. by rewrite !edge_with_node. Qed.
Lemma node_waiting a b g x : is_node (waiting a b g) x ↔ x = a ∨ x = b ∨ is_node g x.
Proof. unfold waiting. rewrite !node_with_node. tauto. Qed.
Lemma waitFor_start a b g l : numV g < 2147483646 → adj (waiting a b g) !! a = Some l →
  waitFor a b g = (c ← hasCycles; if c : bool then removeEdge a b;; mret false else mret true) (with_edge a b l (waiting a b g)).
Proof.
  intros Hn El. unfold waitFor. assert (∀ V h, numV h < 2147483647 → (if negb (has_node V h) then addNode V else mret tt) h = Ret tt (with_node V h)) as Hadd.
  { intros V h Hh. destruct (has_node V h) eqn:Eh; cbn [negb]; [unfold with_node; by rewrite Eh|by apply addNode_eq]. }
  rewrite (bind_Ret _ _ g (has_node a g) g) by done. rewrite (bind_Ret _ _ g tt (with_node a g)) by (apply Hadd; lia).
  rewrite (bind_Ret _ _ _ (has_node b (with_node a g)) (with_node a g)) by done.
  rewrite (bind_Ret _ _ _ tt (waiting a b g)) by (apply Hadd; pose proof (numV_with_node a g); lia).
  rewrite (bind_Ret _ _ _ tt (with_edge a b l (waiting a b g))); [done|]. apply addEdge_eq; [done|]. apply node_waiting. tauto.
Qed.

(** What a request to wait may come to. *)
Definition answered (a b : Z) (g : digraph) (r : bool) (g' : digraph) : Prop :=
  wf_graph g' ∧ acyclic g' ∧ numV g' ≤ numV g + 2 ∧ (r = false ↔ rtc (edge g) b a) ∧
  (∀ x, is_node g' x ↔ x = a ∨ x = b ∨ is_node g x) ∧
  ∀ x y, edge g' x y ↔ edge g x y ∨ (r = true ∧ x = a ∧ y = b).
Lemma waitFor_cases a b g : wf_graph g → acyclic g → numV g < 2147483646 →
  (∃ r g', waitFor a b g = Ret r g' ∧ answered a b g r g' ∧ (r = true → in_range (waiting a b g))) ∨
  (waitFor a b g = Undef ∧ ¬ in_range (waiting a b g)).
Proof.
  intros W Ha Hn. destruct (proj2 (node_waiting a b g a) ltac:(tauto)) as [l El]. pose proof (wf_waiting a b g W) as W1.
  assert (is_node (waiting a b g) b) as Hb by (apply node_waiting; tauto).
  rewrite (waitFor_start a b g l Hn El). assert (numV (waiting a b g) ≤ numV g + 2) as Hn1.
  { pose proof (numV_with_node a g). pose proof (numV_with_node b (with_node a g)). unfold waiting. lia. }
  set (g1 := waiting a b g) in *. set (g2 := with_edge a b l g1).
  assert (∀ x y, edge g1 x y ↔ edge g x y) as He1 by apply edge_waiting.
  assert (∀ x y, edge g2 x y ↔ edge g x y ∨ (x = a ∧ y = b)) as He by (intros x y; unfold g2; rewrite (edge_with_edge a b l g1 El); by rewrite He1).
  pose proof (cycle_new_edge (edge g) (edge g2) a b He Ha) as Hc. assert (wf_graph g2) as W2 by by apply wf_with_edge.
  assert (∀ x, is_node g2 x ↔ is_node g1 x) as Hnode by (intros x; by apply node_with_edge).
  pose proof (hasCycles_cases g2 W2) as H. unfold mbind, prog_bind. destruct (hasCycles g2) as [[] h|code h| |]; try done.
  - destruct H as [-> H]. apply Hc in H. assert (b ∉ l) as Hl.
    { intros Hl. apply (Ha a). eapply tc_rtc_r; [apply tc_once, He1; by exists l|exact H]. }
    unfold g2. rewrite (removeEdge_back a b l g1 W1 El Hb Hl). left. exists false, g1. split; [done|]. split; [|done]. split_and!; try done.
    + intros x Hx. eapply (acyclic_sub g g1); [|exact Ha|exact Hx]. intros y z. apply He1.
    + apply node_waiting.
    + intros x y. rewrite He1. naive_solver.
  - destruct H as (-> & H & Hr). left. exists true, g2. split; [done|]. split; [split_and!; try done|].
    + unfold g2. by rewrite numV_with_edge.
    + split; [done|]. intros Hba. apply Hc in Hba as (x & Hx). by destruct (H x).
    + intros x. rewrite Hnode. apply node_waiting.
    + intros x y. rewrite He. naive_solver.
    + intros _ x Hx. rewrite <-(numV_with_edge a b l g1). apply Hr. by apply Hnode.
  - right. split; [done|]. intros Hr. destruct H as (x & Hx & Hout). apply Hout. unfold g2. rewrite numV_with_edge. by apply Hr, Hnode.
Qed.

(** C14: The deadlock detector is exact.  While the numbers of the transactions
    are below their number, [waitFor] returns, and it refuses precisely the waits
    that would close a cycle, that is those for a transaction that already waits,
    directly or through others, for the one that asks; a wait that is granted is
    the only new edge, a refused one leaves no edge behind. *)
Theorem waitFor_correct a b g : wf_graph g → acyclic g → numV g < 2147483646 → in_range (waiting a b g) →
  ∃ r g', waitFor a b g = Ret r g' ∧ wf_graph g' ∧ acyclic g' ∧ (r = false ↔ rtc (edge g) b a) ∧
    (∀ x, is_node g' x ↔ x = a ∨ x = b ∨ is_node g x) ∧
    ∀ x y, edge g' x y ↔ edge g x y ∨ (r = true ∧ x = a ∧ y = b).
Proof.
  intros W Ha Hn Hr. destruct (waitFor_cases a b g W Ha Hn) as [(r & g' & E & (H1 & H2 & _ & H3 & H4 & H5) & _)|[_ H]]; [|done].
  exists r, g'. by split_and!.
Qed.

(** Any use of the detector. *)
Inductive request := Begin (t : Z) | Wait (t u : Z) | Finish (t : Z).
Definition serve (r : request) : prog digraph bool :=
  match r with
  | Begin t => addTransaction t;; mret true
  | Wait t u => waitFor t u
  | Finish t => endTransaction t;; mret true
  end.
Fixpoint serve_all (rs : list request) : prog digraph (list bool) :=
  match rs with
  | [] => mret []
  | r :: rs' => b ← serve r; bs ← serve_all rs'; mret (b :: bs)
  end.

Lemma serve_keeps r g b g' : wf_graph g → acyclic g → numV g < 2147483646 → serve r g = Ret b g' →
  wf_graph g' ∧ acyclic g' ∧ numV g' ≤ numV g + 2.
Proof.
  intros W Ha Hn. destruct r as [t|t u|t]; cbn [serve].
  - unfold addTransaction. rewrite (bind_Ret _ _ g tt (with_node t g)) by (apply addNode_eq; lia). intros [= _ <-].
    split; [by apply wf_with_node|]. split; [|pose proof (numV_with_node t g); lia]. eapply acyclic_sub; [|exact Ha]. intros x y. apply edge_with_node.
  - destruct (waitFor_cases t u g W Ha Hn) as [(r & h & -> & (H1 & H2 & H3 & _) & _)|[-> _]]; [|done]. intros [= _ <-]. done.
  - unfold endTransaction. rewrite (bind_Ret _ _ g tt (without t g)) by apply removeNode_eq. intros [= _ <-].
    split; [by apply wf_without|]. split; [eapply acyclic_sub; [|exact Ha]; apply without_sub|]. unfold without. destruct (has_node t g); cbn; lia.
Qed.
Lemma serve_all_keeps rs g bs g' : wf_graph g → acyclic g → numV g + 2 * Z.of_nat (length rs) < 2147483646 → serve_all rs g = Ret bs g' →
  wf_graph g' ∧ acyclic g'.
Proof.
  revert g bs. induction rs as [|r rs IH]; intros g bs W Ha Hn; cbn [serve_all length] in *; [by intros [= _ <-]|].
  intros (b & g1 & E1 & E2)%bind_Ret_inv. apply bind_Ret_inv in E2 as (bs' & g2 & E2 & [= _ <-]).
  destruct (serve_keeps r g b g1 W Ha ltac:(lia) E1) as (W1 & A1 & N1). eapply IH; [exact W1|exact A1|lia|exact E2].
Qed.
Lemma wf_DiGraph : wf_graph DiGraph.
Proof. constructor; cbn; [by rewrite map_size_empty|by intros x y (l & H & _)|by intros x l H]. Qed.
Lemma acyclic_DiGraph : acyclic DiGraph.
Proof. intros x Hx. inversion Hx as [? ? (l & H & _)|? ? ? (l & H & _)]; subst; done. Qed.

(** No deadlock goes unnoticed: after any sequence of transactions that begin,
    wait for each other and end, the graph of those that wait has no cycle, and
    it counts its nodes and has no edge into nowhere and none twice. *)
Theorem detector_stays_acyclic rs bs g : Z.of_nat (length rs) < 1073741823 → serve_all rs DiGraph = Ret bs g → wf_graph g ∧ acyclic g.
Proof. intros Hn. apply serve_all_keeps; [apply wf_DiGraph|apply acyclic_DiGraph|cbn; lia]. Qed.

(** Once a transaction has ended while one with a higher number than those
    that are left goes on, the next wait that is not a deadlock reads and writes
    outside the vectors of [hasCycles]; and the end of a transaction also removes
    waits for others from the graph. *)
Theorem detector_after_end g : wf_graph g → acyclic g → numV g < 2147483646 →
  (∀ a b x, is_node g x → ¬ 0 ≤ x < numV (waiting a b g) → ¬ rtc (edge g) b a → waitFor a b g = Undef) ∧
  (∀ t l1 l2 x, is_node g t → x ≠ t → adj g !! x = Some (l1 ++ t :: l2) → ∃ g', endTransaction t g = Ret tt g' ∧ ∀ y, edge g' x y ↔ y ∈ l1).
Proof.
  intros W Ha Hn. split.
  - intros a b x Hx Hout Hc. destruct (waitFor_cases a b g W Ha Hn) as [(r & g' & _ & (_ & _ & _ & Hr & _) & H)|[E _]]; [|done].
    destruct r; [|destruct Hr; tauto]. destruct Hout. apply (H eq_refl). apply node_waiting. tauto.
  - intros t l1 l2 x Ht Hne El. exists (without t g). split; [apply removeNode_eq|]. intros y. rewrite edge_without by done.
    assert (erase_from t (l1 ++ t :: l2) = l1) as Hl.
    { pose proof (wg_once _ W x _ El) as Hnd. apply NoDup_app in Hnd as (_ & Hd & _). assert (t ∉ l1) as Hd' by (intros Hi; apply (Hd t Hi); left).
      clear Hd El. induction l1 as [|v l1 IH]; cbn; [by rewrite Z.eqb_refl|]. apply not_elem_of_cons in Hd' as [H1 H2].
      rewrite (proj2 (Z.eqb_neq v t)) by congruence. by rewrite IH. }
    split; [intros (_ & l & El' & Hy); rewrite El in El'; injection El' as <-; by rewrite Hl in Hy|].
    intros Hy. split; [done|]. exists (l1 ++ t :: l2). by rewrite Hl.
Qed.

(** ** Witnesses *)

(** Three transactions begin, 0 waits for 1 and 2, and 1 for 2. *)
Definition demo_requests : list request := [Begin 0; Begin 1; Begin 2; Wait 0 1; Wait 0 2; Wait 1 2].
Definition demo_graph : digraph := mk_digraph 3 (<[0 := [1; 2]]> (<[1 := [2]]> (<[2 := []]> ∅))).
Lemma demo_served : serve_all demo_requests DiGraph = Ret [true; true; true; true; true; true] demo_graph.
Proof. vm_compute. reflexivity. Qed.
Lemma demo_graph_ok : wf_graph demo_graph ∧ acyclic demo_graph.
Proof. apply (serve_all_keeps demo_requests DiGraph _ _ wf_DiGraph acyclic_DiGraph ltac:(cbn; lia) demo_served). Qed.
Lemma waitFor_correct_witness : ∃ g', waitFor 2 0 demo_graph = Ret false g' ∧ acyclic g' ∧ rtc (edge demo_graph) 0 2.
Proof.
  destruct demo_graph_ok as [W Ha]. destruct (waitFor_correct 2 0 demo_graph W Ha) as (r & g' & E & _ & A & Hr & _); [done| |].
  - intros x Hx. change (numV (waiting 2 0 demo_graph)) with 3. apply node_waiting in Hx. unfold is_node, demo_graph in Hx. cbn [adj] in Hx.
    rewrite !lookup_insert_is_Some in Hx. destruct Hx as [->|[->|Hx]]; [lia|lia|]. destruct Hx as [<-|[_ [<-|[_ [<-|[_ Hx]]]]]]; [lia..|]. rewrite lookup_empty in Hx. by destruct Hx.
  - assert (r = false) as -> by (pose proof E as E'; vm_compute in E'; congruence). exists g'. split; [done|]. split; [done|]. by apply Hr.
Defined.
Lemma detector_stays_acyclic_witness : ∃ g, serve_all (demo_requests ++ [Finish 2; Wait 1 0]) DiGraph = Ret [true; true; true; true; true; true; true; false] g ∧ acyclic g.
Proof.
  eexists. split; [vm_compute; reflexivity|].
  refine (proj2 (detector_stays_acyclic (demo_requests ++ [Finish 2; Wait 1 0]) [true; true; true; true; true; true; true; false] _ _ _)); [vm_compute; reflexivity|vm_compute; reflexivity].
Defined.
Definition demo_ended : digraph := mk_digraph 2 (<[1 := [2]]> (<[2 := []]> ∅)).
Lemma demo_ended_ok : serve_all (demo_requests ++ [Finish 0]) DiGraph = Ret [true; true; true; true; true; true; true] demo_ended.
Proof. vm_compute. reflexivity. Qed.
Lemma detector_after_end_witness : waitFor 1 2 demo_ended = Undef ∧ ∃ g', endTransaction 1 demo_graph = Ret tt g' ∧ ¬ edge g' 0 2.
Proof.
  destruct demo_graph_ok as [W Ha]. split.
  - destruct (serve_all_keeps (demo_requests ++ [Finish 0]) _ _ _ wf_DiGraph acyclic_DiGraph ltac:(reflexivity) demo_ended_ok) as [W' Ha'].
    apply (proj1 (detector_after_end demo_ended W' Ha' eq_refl) 1 2 2); [by eexists|intros [_ H]; change (2 < 2) in H; lia|].
    intros H. inversion H as [|? y ? (l & El & Hy)]; subst. vm_compute in El. injection El as <-. by apply elem_of_nil in Hy.
  - destruct (proj2 (detector_after_end demo_graph W Ha eq_refl) 1 [] [2] 0) as (g' & E & H); [by eexists|done|reflexivity|].
    exists g'. split; [done|]. intros H'%H. by apply elem_of_nil in H'.
Defined.
