(* ===== verification/Command.v ===== *)
(** * The commands of the database

    [parse] and [getOperation] of CS2550/pittRCDB/src/SchedulerInternal.cpp, which
    read a command with [strtok], and [printOperation] of Debug.cpp, whose output
    is the log of what was executed.  What is printed reads back as the same
    operation, with two exceptions: the arguments of an update change places, and
    the name of a coffee gains a space. *)
From S2P Require Import Prelude Stdio Cxx.
Open Scope Z_scope.

Inductive opType :=
  BEGIN | COMMIT | ABORT | QUIT | INSERT | UPDATE | RETRIEVE_RECORD | RETRIEVE_ENTIRE_TABLE | RETRIEVE_COFFEE_NAME | COUNT | DROP_TABLE | INVALID.
#[export] Instance opType_eq_dec : EqDecision opType.
Proof. solve_decision. Defined.
Record Operation := mk_op {
  operationType : opType; tableName : str; coffeeID : Z; coffeeName : str; intensity : Z; countryOfOrigin : str
}.
#[export] Instance Operation_eq_dec : EqDecision Operation.
Proof. solve_decision. Defined.

(** ** Reading *)

Definition is_delim (delims : str) (c : Z) : bool := existsb (Z.eqb c) delims.
Fixpoint skip_delims (delims s : str) : str :=
  match s with
  | c :: s' => if is_delim delims c then skip_delims delims s' else s
  | [] => []
  end.
(** A token and what follows its delimiter. *)
Fixpoint scan_token (delims s : str) : str * str :=
  match s with
  | c :: s' => if is_delim delims c then ([], s') else let '(t, r) := scan_token delims s' in (c :: t, r)
  | [] => ([], [])
  end.
(** [strtok] on what is left of the string; the callers do not test for the null
    pointer before they use the token. *)
Definition strtok (delims : str) : prog str str := λ s,
  match skip_delims delims s with
  | [] => Undef
  | s' => let '(t, r) := scan_token delims s' in Ret t r
  end.

Definition SPACE : str := [32].
Definition PARENS : str := [40; 41; 44].             (* "()," *)
Definition PARENS_SPACE : str := [40; 32; 41; 44].   (* "( )," *)
Definition str_deleted : str := [95; 100; 101; 108; 101; 116; 101; 100]. (* "_deleted" *)

Fixpoint is_prefix (p s : str) : bool :=
  match p, s with
  | [], _ => true
  | a :: p', b :: s' => (a =? b) && is_prefix p' s'
  | _, [] => false
  end.
(** [s.find(p) != npos] *)
Fixpoint find (p s : str) : bool :=
  is_prefix p s || match s with [] => false | _ :: s' => find p s' end.

Definition getOperation (command : Z) : opType :=
  if command =? 66 then BEGIN else if command =? 67 then COMMIT else if command =? 65 then ABORT
  else if command =? 81 then QUIT else if command =? 73 then INSERT else if command =? 85 then UPDATE
  else if command =? 82 then RETRIEVE_RECORD else if command =? 84 then RETRIEVE_ENTIRE_TABLE
  else if command =? 77 then RETRIEVE_COFFEE_NAME else if command =? 71 then COUNT
  else if command =? 68 then DROP_TABLE else INVALID.

Definition table_token : prog str str :=
  t ← strtok PARENS_SPACE;
  if find str_deleted t then throw else mret t.
Definition number_token (delims : str) : prog str Z :=
  t ← strtok delims;
  let v := atoi t in
  if v <? 0 then throw else mret v.
Definition arguments (op : opType) : prog str Operation :=
  match op with
  | INSERT =>
      table ← table_token; id ← number_token PARENS_SPACE;
      name ← strtok PARENS; val ← number_token PARENS;
      country ← strtok PARENS_SPACE;
      mret (mk_op op table id name val country)
  | UPDATE =>
      table ← table_token; id ← number_token PARENS_SPACE; val ← number_token PARENS_SPACE;
      mret (mk_op op table id [] val [])
  | RETRIEVE_RECORD =>
      table ← table_token; id ← number_token PARENS_SPACE;
      mret (mk_op op table id [] 0 [])
  | DROP_TABLE | RETRIEVE_ENTIRE_TABLE =>
      table ← table_token; mret (mk_op op table 0 [] 0 [])
  | RETRIEVE_COFFEE_NAME =>
      table ← table_token; country ← strtok PARENS_SPACE;
      mret (mk_op op table 0 [] 0 country)
  | COUNT =>
      table ← table_token; val ← number_token PARENS_SPACE;
      mret (mk_op op table 0 [] val [])
  | _ => mret (mk_op op [] 0 [] 0 [])
  end.
(** The state is the string [strtok] works on: first the copy of the command, which
    [strdup] ends at a null byte. *)
Definition parse : prog str Operation :=
  modify c_str;;
  token ← strtok SPACE;
  c ← lift (head token);
  arguments (getOperation c).

(** ** Printing *)

Definition to_string (z : Z) : str := if z <? 0 then 45 :: show_num (- z) else show_num z.
Definition printOperation (op : Operation) : option str :=
  match operationType op with
  | BEGIN => Some [66]
  | COMMIT => Some [67]
  | ABORT => Some [65]
  | QUIT => Some [81]
  | INSERT => Some ([73; 32] ++ tableName op ++ [32; 40] ++ to_string (coffeeID op) ++ [44; 32] ++ coffeeName op ++ [44; 32] ++
      to_string (intensity op) ++ [44; 32] ++ countryOfOrigin op ++ [41])
  | UPDATE => Some ([85; 32] ++ tableName op ++ [40] ++ to_string (intensity op) ++ [44; 32] ++ to_string (coffeeID op) ++ [41])
  | RETRIEVE_RECORD => Some ([82; 32] ++ tableName op ++ [32] ++ to_string (coffeeID op))
  | RETRIEVE_ENTIRE_TABLE => Some ([84; 32] ++ tableName op)
  | RETRIEVE_COFFEE_NAME => Some ([77; 32] ++ tableName op ++ [32] ++ countryOfOrigin op)
  | COUNT => Some ([71; 32] ++ tableName op ++ [32] ++ to_string (intensity op))
  | DROP_TABLE => Some ([68; 32] ++ tableName op)
  | INVALID => None
  end.

(** ** Round trip *)

Definition free_of (delims : str) (w : str) : Prop := w ≠ [] ∧ Forall (λ c, is_delim delims c = false) w.
Definition small (z : Z) : Prop := 0 ≤ z < 2147483648.
(** Operations the commands can express; their names are C strings. *)
Definition expressible (op : Operation) : Prop :=
  match operationType op with
  | INVALID => False
  | BEGIN | COMMIT | ABORT | QUIT => op = mk_op (operationType op) [] 0 [] 0 []
  | _ => free_of PARENS_SPACE (tableName op) ∧ find str_deleted (tableName op) = false ∧ small (coffeeID op) ∧ small (intensity op) ∧
      match operationType op with
      | INSERT => free_of PARENS (coffeeName op) ∧ free_of PARENS_SPACE (countryOfOrigin op)
      | UPDATE => coffeeName op = [] ∧ countryOfOrigin op = []
      | RETRIEVE_RECORD => coffeeName op = [] ∧ intensity op = 0 ∧ countryOfOrigin op = []
      | RETRIEVE_COFFEE_NAME => coffeeID op = 0 ∧ coffeeName op = [] ∧ intensity op = 0 ∧ free_of PARENS_SPACE (countryOfOrigin op)
      | COUNT => coffeeID op = 0 ∧ coffeeName op = [] ∧ countryOfOrigin op = []
      | _ => coffeeID op = 0 ∧ coffeeName op = [] ∧ intensity op = 0 ∧ countryOfOrigin op = []
      end
  end.
Definition printable (op : Operation) : Prop :=
  expressible op ∧ 0 ∉ tableName op ∧ 0 ∉ coffeeName op ∧ 0 ∉ countryOfOrigin op.
(** What the log of an operation reads back as. *)
Definition as_logged (op : Operation) : Operation :=
  match operationType op with
  | INSERT => mk_op INSERT (tableName op) (coffeeID op) (32 :: coffeeName op) (intensity op) (countryOfOrigin op)
  | UPDATE => mk_op UPDATE (tableName op) (intensity op) [] (coffeeID op) []
  | _ => op
  end.

Lemma skip_delims_all delims p s : Forall (λ c, is_delim delims c = true) p → skip_delims delims (p ++ s) = skip_delims delims s.
Proof. induction 1 as [|c p Hc Hp IH]; [done|]. cbn. by rewrite Hc. Qed.
Lemma scan_token_end delims w : Forall (λ c, is_delim delims c = false) w → scan_token delims w = (w, []).
Proof. induction 1 as [|c w Hc Hw IH]; [done|]. cbn. by rewrite Hc, IH. Qed.
Lemma scan_token_delim delims w d s : Forall (λ c, is_delim delims c = false) w → is_delim delims d = true → scan_token delims (w ++ d :: s) = (w, s).
Proof. intros Hw Hd. induction Hw as [|c w Hc Hw IH]; cbn; [by rewrite Hd|]. by rewrite Hc, IH. Qed.
(** A token behind delimiters, before another or at the end. *)
Lemma strtok_word delims p w s r : Forall (λ c, is_delim delims c = true) p → free_of delims w →
  (s = [] ∧ r = [] ∨ ∃ d, s = d :: r ∧ is_delim delims d = true) → strtok delims (p ++ w ++ s) = Ret w r.
Proof.
  intros Hp [Hne Hw] Hs. unfold strtok. rewrite skip_delims_all by done.
  assert (skip_delims delims (w ++ s) = w ++ s) as ->.
  { destruct w as [|c w]; [done|]. apply Forall_cons in Hw as [Hc _]. cbn. by rewrite Hc. }
  assert (scan_token delims (w ++ s) = (w, r)) as E.
  { destruct Hs as [[-> ->]|(d & -> & Hd)]; [rewrite app_nil_r; by apply scan_token_end|by apply scan_token_delim]. }
  destruct w as [|c w]; [done|]. cbn [app] in *. by rewrite E.
Qed.

Lemma number_free delims z : 0 ≤ z < 18446744073709551616 → delims = PARENS ∨ delims = PARENS_SPACE → free_of delims (show_num z).
Proof.
  intros Hz Hd. split; [apply digits_nonempty; lia|]. apply Forall_forall. intros c Hc. apply digits_all in Hc as (d & Hd' & ->); [|by left|lia].
  assert (is_delim PARENS_SPACE (show_digit d) = false) as H.
  { apply (base_digit (λ d, is_delim PARENS_SPACE (show_digit d) = false) 10); [by left|done|]. vm_compute. repeat constructor. }
  destruct Hd as [-> | ->]; [|done]. unfold is_delim in *. cbn in *. rewrite !orb_false_iff in *. tauto.
Qed.
Lemma to_string_small z : small z → to_string z = show_num z.
Proof. intros [Hz _]. unfold to_string. by rewrite (proj2 (Z.ltb_ge z 0)). Qed.
Lemma number_token_word delims p z s r : Forall (λ c, is_delim delims c = true) p → small z → delims = PARENS ∨ delims = PARENS_SPACE →
  (s = [] ∧ r = [] ∨ ∃ d, s = d :: r ∧ is_delim delims d = true) → number_token delims (p ++ to_string z ++ s) = Ret z r.
Proof.
  intros Hp Hz Hd Hs. unfold number_token. rewrite (bind_Ret _ _ _ (show_num z) r).
  - cbv zeta. rewrite atoi_show by (unfold small in Hz; lia). unfold small in Hz. by rewrite (proj2 (Z.ltb_ge z 0)) by lia.
  - rewrite to_string_small by done. apply strtok_word; [done| |done]. apply number_free; [unfold small in Hz; lia|done].
Qed.
Lemma table_token_word p w s r : Forall (λ c, is_delim PARENS_SPACE c = true) p → free_of PARENS_SPACE w → find str_deleted w = false →
  (s = [] ∧ r = [] ∨ ∃ d, s = d :: r ∧ is_delim PARENS_SPACE d = true) → table_token (p ++ w ++ s) = Ret w r.
Proof. intros Hp Hw Hf Hs. unfold table_token. rewrite (bind_Ret _ _ _ w r) by by apply strtok_word. by rewrite Hf. Qed.

Lemma to_string_no_nul z : small z → 0 ∉ to_string z.
Proof.
  intros Hz H. rewrite to_string_small in H by done. unfold small in Hz. apply show_num_plain in H as [? _]; [done|lia].
Qed.
(** What is printed is a C string. *)
Lemma printed_no_nul op s : printable op → printOperation op = Some s → 0 ∉ s.
Proof.
  destruct op as [ty t id name val country]. unfold printable, expressible, printOperation.
  cbn [operationType tableName coffeeID coffeeName intensity countryOfOrigin].
  destruct ty; intros (H & Ht & Hn & Hc) [= <-]; try set_solver; destruct H as (_ & _ & Hid%to_string_no_nul & Hval%to_string_no_nul & _); set_solver.
Qed.

(** The letter of a command. *)
Lemma parse_letter c s : 0 ∉ c :: 32 :: s → is_delim SPACE c = false → parse (c :: 32 :: s) = arguments (getOperation c) s.
Proof.
  intros H0 Hc. unfold parse. rewrite (bind_Ret (modify c_str) _ _ tt (c :: 32 :: s)).
  2:{ unfold modify. f_equal. apply c_str_id. by intros x Hx ->. }
  rewrite (bind_Ret _ _ _ [c] s); [done|]. unfold strtok. cbn [skip_delims]. rewrite Hc. cbn [scan_token]. by rewrite Hc.
Qed.

Lemma spaced_number z d r : small z → is_delim PARENS d = true → number_token PARENS (32 :: to_string z ++ d :: r) = Ret z r.
Proof.
  intros Hz Hd. assert (0 ≤ z < 18446744073709551616) as Hz' by (unfold small in Hz; lia). pose proof (number_free PARENS z Hz' ltac:(by left)) as [Hne Hfree].
  unfold number_token. rewrite (bind_Ret _ _ _ (32 :: show_num z) r).
  - cbv zeta. change (atoi (32 :: show_num z)) with (atoi (show_num z)). rewrite atoi_show by (unfold small in Hz; lia).
    unfold small in Hz. by rewrite (proj2 (Z.ltb_ge z 0)) by lia.
  - rewrite to_string_small by done. apply (strtok_word PARENS [] (32 :: show_num z) (d :: r) r); [constructor| |right; by exists d].
    split; [done|]. by constructor.
Qed.

(** The last token. *)
Lemma table_last w : free_of PARENS_SPACE w → find str_deleted w = false → table_token w = Ret w [].
Proof. intros Hw Hf. rewrite <-(app_nil_r w) at 1. apply (table_token_word [] w); [constructor|done|done|by left]. Qed.
Lemma number_last z : small z → number_token PARENS_SPACE (to_string z) = Ret z [].
Proof. intros Hz. rewrite <-(app_nil_r (to_string z)) at 1. apply (number_token_word PARENS_SPACE [] z); [constructor|done|by right|by left]. Qed.
Lemma word_last w : free_of PARENS_SPACE w → strtok PARENS_SPACE w = Ret w [].
Proof. intros Hw. rewrite <-(app_nil_r w) at 1. apply (strtok_word PARENS_SPACE [] w); [constructor|done|by left]. Qed.

(** One token of a command. *)
Ltac token H := erewrite bind_Ret by (H; [repeat constructor|first [done|by left|by right]..|first [by left|right; eexists; by split]]).

(** C31: The log of what was executed, with names that are C strings as [parse]
    makes them, reads back as what was executed, with two exceptions: the two numbers of an update are swapped, and the name of an
    inserted coffee gets a space in front. *)
Theorem parse_print op s : printable op → printOperation op = Some s → ∃ r, parse s = Ret (as_logged op) r.
Proof.
  intros Hp Hs. pose proof (printed_no_nul op s Hp Hs) as H0. destruct Hp as [Hp _]. revert Hp Hs H0.
  destruct op as [ty t id name val country]. unfold expressible, printOperation, as_logged. cbn [operationType tableName coffeeID coffeeName intensity countryOfOrigin].
  destruct ty; try (intros H [= <-] _; injection H as -> -> -> -> ->; by eexists); try done; intros (Ht & Hf & Hid & Hval & H) [= <-] H0; cbn [app] in *;
    rewrite parse_letter by done; cbn [getOperation Z.eqb Pos.eqb arguments].
  - destruct H as [Hn Hc]. token ltac:(apply (table_token_word [] t)). token ltac:(apply (number_token_word PARENS_SPACE [40] id)).
    erewrite bind_Ret by (apply (strtok_word PARENS [] (32 :: name)); [constructor|split; [done|constructor; [done|apply Hn]]|right; eexists; by split]).
    erewrite bind_Ret by by apply spaced_number.
    token ltac:(apply (strtok_word PARENS_SPACE [32] country)). by eexists.
  - destruct H as [-> ->]. token ltac:(apply (table_token_word [] t)). token ltac:(apply (number_token_word PARENS_SPACE [] val)).
    token ltac:(apply (number_token_word PARENS_SPACE [32] id)). by eexists.
  - destruct H as (-> & -> & ->). token ltac:(apply (table_token_word [] t)). rewrite (bind_Ret _ _ _ id []) by by apply number_last. by eexists.
  - destruct H as (-> & -> & -> & ->). rewrite (bind_Ret _ _ _ t []) by by apply table_last. by eexists.
  - destruct H as (-> & -> & -> & Hc). token ltac:(apply (table_token_word [] t)). rewrite (bind_Ret _ _ _ country []) by by apply word_last. by eexists.
  - destruct H as (-> & -> & ->). token ltac:(apply (table_token_word [] t)). rewrite (bind_Ret _ _ _ val []) by by apply number_last. by eexists.
  - destruct H as (-> & -> & -> & ->). rewrite (bind_Ret _ _ _ t []) by by apply table_last. by eexists.
Qed.

(** "I T (5, Al, 3, US)" *)
Definition demo_insert : Operation := mk_op INSERT [84] 5 [65; 108] 3 [85; 83].
Lemma parse_print_witness : ∃ r, parse [73; 32; 84; 32; 40; 53; 44; 32; 65; 108; 44; 32; 51; 44; 32; 85; 83; 41] = Ret (mk_op INSERT [84] 5 [32; 65; 108] 3 [85; 83]) r.
Proof.
  apply (parse_print demo_insert); [|reflexivity]. split; [vm_compute; by split_and!; repeat constructor|].
  split_and!; by apply (bool_decide_unpack _).
Defined.
