(* ===== verification/LockManager.v ===== *)
(** * The locks of the database

    CS2550/pittRCDB/src/LockManager.cpp: locks on tables in five modes and locks
    on records in two, granted at once or refused with the list of those in the
    way, and released all together.  The part of the state of [Scheduler] that it
    uses is a record of its own; the lists of locks in [transactions] are two maps
    whose missing entries are empty. *)

From S2P Require Import Prelude Cxx.
Open Scope Z_scope.

Inductive lockType := READ_LOCK | INTENT_READ_LOCK | WRITE_LOCK | INTENT_WRITE_LOCK | READ_INTENT_WRITE_LOCK.
#[export] Instance lockType_eq_dec : EqDecision lockType.
Proof. solve_decision. Defined.
Record Lock := mk_lock { transactionID : Z; type : lockType }.

Record locks := mk_locks {
  tableLevelLocks : gmap str (gmap Z Lock);
  recordLevelLocks : gmap str (gmap Z (gmap Z Lock));
  tableLocksOwned : gmap Z (list str);
  recordLocksOwned : gmap Z (gmap str (list Z))
}.
Definition no_locks : locks := mk_locks ∅ ∅ ∅ ∅.

(** [operator[]] of a map inserts an empty value when there is none. *)
Definition table_locks (t : str) (s : locks) : gmap Z Lock := default ∅ (tableLevelLocks s !! t).
Definition records_of (t : str) (s : locks) : gmap Z (gmap Z Lock) := default ∅ (recordLevelLocks s !! t).
Definition record_locks (t : str) (c : Z) (s : locks) : gmap Z Lock := default ∅ (records_of t s !! c).
Definition owned_tables (tx : Z) (s : locks) : list str := default [] (tableLocksOwned s !! tx).
Definition owned_map (tx : Z) (s : locks) : gmap str (list Z) := default ∅ (recordLocksOwned s !! tx).
Definition owned_records (tx : Z) (t : str) (s : locks) : list Z := default [] (owned_map tx s !! t).

Definition put_table_locks (t : str) (m : gmap Z Lock) (s : locks) : locks :=
  mk_locks (<[t := m]> (tableLevelLocks s)) (recordLevelLocks s) (tableLocksOwned s) (recordLocksOwned s).
Definition put_records (t : str) (m : gmap Z (gmap Z Lock)) (s : locks) : locks :=
  mk_locks (tableLevelLocks s) (<[t := m]> (recordLevelLocks s)) (tableLocksOwned s) (recordLocksOwned s).
Definition put_owned_tables (tx : Z) (l : list str) (s : locks) : locks :=
  mk_locks (tableLevelLocks s) (recordLevelLocks s) (<[tx := l]> (tableLocksOwned s)) (recordLocksOwned s).
Definition put_owned_map (tx : Z) (m : gmap str (list Z)) (s : locks) : locks :=
  mk_locks (tableLevelLocks s) (recordLevelLocks s) (tableLocksOwned s) (<[tx := m]> (recordLocksOwned s)).

(** [tableLevelLocks[tableName][transactionID] = {transactionID, type}] *)
Definition set_table_lock (tx : Z) (t : str) (ty : lockType) : prog locks unit :=
  modify (λ s, put_table_locks t (<[tx := mk_lock tx ty]> (table_locks t s)) s).
Definition own_table (tx : Z) (t : str) : prog locks unit := modify (λ s, put_owned_tables tx (owned_tables tx s ++ [t]) s).
Definition set_record_lock (tx : Z) (t : str) (c : Z) (ty : lockType) : prog locks unit :=
  modify (λ s, put_records t (<[c := <[tx := mk_lock tx ty]> (record_locks t c s)]> (records_of t s)) s).
Definition own_record (tx : Z) (t : str) (c : Z) : prog locks unit :=
  modify (λ s, put_owned_map tx (<[t := owned_records tx t s ++ [c]]> (owned_map tx s)) s).

(** The loops that collect the transactions in the way. *)
Definition blockers (tx : Z) (in_the_way : lockType → bool) (m : gmap Z Lock) : list Z :=
  map transactionID (List.filter (λ l, negb (transactionID l =? tx) && in_the_way (type l)) (map_entries m).*2).

(** The cases of [tryAcquireTableLock]; [own] is what [locks[transactionID]] holds. *)
Section table.
Variables (tx : Z) (t : str) (locks_ : gmap Z Lock).
Definition own : option lockType := type <$> locks_ !! tx.
Definition granted (ty : lockType) : prog locks (list Z) := set_table_lock tx t ty;; own_table tx t;; mret [].
Definition escalated (ty : lockType) : prog locks (list Z) := set_table_lock tx t ty;; mret [].

Definition intent_read_lock : prog locks (list Z) :=
  match own with
  | Some _ => mret []
  | None =>
      match blockers tx (λ ty, bool_decide (ty = WRITE_LOCK)) locks_ with
      | [] => granted INTENT_READ_LOCK
      | result => mret result
      end
  end.
Definition intent_write_lock : prog locks (list Z) :=
  match own with
  | Some (INTENT_WRITE_LOCK | READ_INTENT_WRITE_LOCK | WRITE_LOCK) => mret []
  | _ =>
      match blockers tx (λ ty, match ty with READ_LOCK | READ_INTENT_WRITE_LOCK | WRITE_LOCK => true | _ => false end) locks_ with
      | [] =>
          match own with
          | None => granted INTENT_WRITE_LOCK
          | Some INTENT_READ_LOCK => escalated INTENT_WRITE_LOCK
          | Some READ_LOCK => escalated READ_INTENT_WRITE_LOCK
          | Some _ => mret []
          end
      | result => mret result
      end
  end.
(** The cases of the last switch fall through. *)
Definition read_lock : prog locks (list Z) :=
  match own with
  | Some (READ_LOCK | READ_INTENT_WRITE_LOCK | WRITE_LOCK) => mret []
  | _ =>
      match blockers tx (λ ty, match ty with INTENT_WRITE_LOCK | READ_INTENT_WRITE_LOCK | WRITE_LOCK => true | _ => false end) locks_ with
      | [] =>
          match own with
          | None => granted READ_LOCK
          | Some INTENT_READ_LOCK => set_table_lock tx t READ_LOCK;; escalated READ_INTENT_WRITE_LOCK
          | Some INTENT_WRITE_LOCK => escalated READ_INTENT_WRITE_LOCK
          | Some _ => mret []
          end
      | result => mret result
      end
  end.
Definition read_intent_write_lock : prog locks (list Z) :=
  match own with
  | Some (READ_INTENT_WRITE_LOCK | WRITE_LOCK) => mret []
  | _ =>
      match blockers tx (λ ty, negb (bool_decide (ty = INTENT_READ_LOCK))) locks_ with
      | [] =>
          match own with
          | None => granted READ_INTENT_WRITE_LOCK
          | Some WRITE_LOCK => mret []
          | Some _ => escalated READ_INTENT_WRITE_LOCK
          end
      | result => mret result
      end
  end.
Definition write_lock : prog locks (list Z) :=
  match own with
  | Some WRITE_LOCK => mret []
  | _ =>
      match blockers tx (λ _, true) locks_ with
      | [] =>
          (match own with None => own_table tx t | Some _ => mret tt end);;
          escalated WRITE_LOCK
      | result => mret result
      end
  end.
End table.

Definition tryAcquireTableLock (tx : Z) (t : str) (desiredLock : lockType) : prog locks (list Z) :=
  s ← get;
  match tableLevelLocks s !! t with
  | None =>
      modify (put_table_locks t ∅);;
      set_table_lock tx t desiredLock;;
      modify (put_records t ∅);;
      own_table tx t;;
      mret []
  | Some locks_ =>
      match desiredLock with
      | INTENT_READ_LOCK => intent_read_lock tx t locks_
      | INTENT_WRITE_LOCK => intent_write_lock tx t locks_
      | READ_LOCK => read_lock tx t locks_
      | READ_INTENT_WRITE_LOCK => read_intent_write_lock tx t locks_
      | WRITE_LOCK => write_lock tx t locks_
      end
  end.

(** A record without an entry is free. *)
Definition first_lock (tx : Z) (t : str) (c : Z) (ty : lockType) : prog locks (list Z) :=
  set_record_lock tx t c ty;; own_record tx t c;; mret [].
Definition read_record (tx : Z) (t : str) (c : Z) : prog locks (list Z) :=
  s ← get;
  match records_of t s !! c with
  | None => first_lock tx t c READ_LOCK
  | Some recordLock =>
      match recordLock !! tx with
      | Some _ => mret []
      | None =>
          match blockers tx (λ ty, negb (bool_decide (ty = READ_LOCK))) recordLock with
          | [] => set_record_lock tx t c READ_LOCK;; own_record tx t c;; mret []
          | result => mret result
          end
      end
  end.
Definition write_record (tx : Z) (t : str) (c : Z) : prog locks (list Z) :=
  s ← get;
  match records_of t s !! c with
  | None => first_lock tx t c WRITE_LOCK
  | Some recordLock =>
      match type <$> recordLock !! tx with
      | Some WRITE_LOCK => mret []
      | o =>
          match blockers tx (λ _, true) recordLock with
          | [] =>
              (match o with None => own_record tx t c | Some _ => mret tt end);;
              set_record_lock tx t c WRITE_LOCK;; mret []
          | result => mret result
          end
      end
  end.
Definition tryAcquireItemLock (tx : Z) (t : str) (coffeeID : Z) (desiredLock : lockType) : prog locks (list Z) :=
  match desiredLock with
  | READ_LOCK =>
      result ← tryAcquireTableLock tx t INTENT_READ_LOCK;
      match result with [] => read_record tx t coffeeID | _ => mret result end
  | WRITE_LOCK =>
      result ← tryAcquireTableLock tx t INTENT_WRITE_LOCK;
      match result with [] => write_record tx t coffeeID | _ => mret result end
  | _ => throw
  end.

Definition release_record (tx : Z) (t : str) (c : Z) : prog locks unit :=
  modify (λ s, put_records t (<[c := delete tx (record_locks t c s)]> (records_of t s)) s).
Definition release_table (tx : Z) (t : str) : prog locks unit :=
  modify (λ s, put_table_locks t (delete tx (table_locks t s)) s).
(** The order of the tables does not matter here. *)
Definition releaseAllLocks (tx : Z) : prog locks unit :=
  s ← get;
  for_each (map_to_list (owned_map tx s)) (λ tables, for_each tables.2 (release_record tx tables.1));;
  modify (put_owned_map tx ∅);;
  s ← get;
  for_each (owned_tables tx s) (release_table tx);;
  modify (put_owned_tables tx []).
