(* ===== verification/LockSpec.v ===== *)
(** * What the locks of the database promise

    For every sequence of requests and releases: a record that one transaction
    may write nobody else has locked, locks on records come with their intention
    on the table, requests are granted exactly when no other holds a lock that
    conflicts, and a transaction that ends leaves no lock behind.  Two locks on a
    table never conflict, but for one pair that an escalation which falls through
    a switch lets in. *)

From S2P Require Import Prelude Cxx LockManager.
Open Scope Z_scope.

(** ** The modes *)

Definition conflicts (d h : lockType) : bool :=
  match d with
  | INTENT_READ_LOCK => match h with WRITE_LOCK => true | _ => false end
  | INTENT_WRITE_LOCK => match h with READ_LOCK | READ_INTENT_WRITE_LOCK | WRITE_LOCK => true | _ => false end
  | READ_LOCK => match h with INTENT_WRITE_LOCK | READ_INTENT_WRITE_LOCK | WRITE_LOCK => true | _ => false end
  | READ_INTENT_WRITE_LOCK => match h with INTENT_READ_LOCK => false | _ => true end
  | WRITE_LOCK => true
  end.
(** A transaction that holds [h] needs nothing more for [d]. *)
Definition covers (h d : lockType) : bool :=
  match d with
  | INTENT_READ_LOCK => true
  | INTENT_WRITE_LOCK => match h with INTENT_WRITE_LOCK | READ_INTENT_WRITE_LOCK | WRITE_LOCK => true | _ => false end
  | READ_LOCK => match h with READ_LOCK | READ_INTENT_WRITE_LOCK | WRITE_LOCK => true | _ => false end
  | READ_INTENT_WRITE_LOCK => match h with READ_INTENT_WRITE_LOCK | WRITE_LOCK => true | _ => false end
  | WRITE_LOCK => match h with WRITE_LOCK => true | _ => false end
  end.
Definition covered (o : option lockType) (d : lockType) : bool := match o with Some h => covers h d | None => false end.
(** The mode of the holder of [o] when [d] is granted. *)
Definition raise (o : option lockType) (d : lockType) : lockType :=
  match o, d with
  | Some READ_LOCK, INTENT_WRITE_LOCK => READ_INTENT_WRITE_LOCK
  | Some (INTENT_WRITE_LOCK | INTENT_READ_LOCK), READ_LOCK => READ_INTENT_WRITE_LOCK
  | _, _ => d
  end.
(** Two holders of a table that conflict all the same. *)
Definition odd_pair (a b : lockType) : Prop := (a = READ_LOCK ∧ b = READ_INTENT_WRITE_LOCK) ∨ (a = READ_INTENT_WRITE_LOCK ∧ b = READ_LOCK).
(** The escalation that falls through. *)
Definition falls_through (o : option lockType) (d : lockType) : Prop := o = Some INTENT_READ_LOCK ∧ d = READ_LOCK.

Lemma conflicts_sym a b : conflicts a b = conflicts b a.
Proof. by destruct a, b. Qed.
Lemma raise_covers o d : covers (raise o d) d = true.
Proof. by destruct o as [[]|], d. Qed.
Lemma raise_keeps h d x : covers h x = true → covers h d = false → covers (raise (Some h) d) x = true.
Proof. by destruct h, d, x. Qed.
Lemma raise_compatible o d b (odd : bool) : conflicts d b = false → covered o d = false →
  (∀ h, o = Some h → conflicts h b = false ∨ (odd = true ∧ odd_pair h b)) → (odd = true ∨ ¬ falls_through o d) →
  conflicts (raise o d) b = false ∨ (odd = true ∧ odd_pair (raise o d) b).
Proof.
  intros Hd Hc Ho Hq. destruct o as [h|]; [|left; by destruct d, b]. specialize (Ho h eq_refl).
  destruct h, d, b; try discriminate Hd; try discriminate Hc; try (left; reflexivity);
    try (destruct Hq as [Hq|Hq]; [right; split; [exact Hq|unfold odd_pair; tauto]|exfalso; by apply Hq]);
    destruct Ho as [Ho|[_ Ho]]; try discriminate Ho; unfold odd_pair in Ho; naive_solver.
Qed.

(** ** What a state looks like *)

Definition table_type (s : locks) (t : str) (x : Z) : option lockType := type <$> table_locks t s !! x.
Definition record_type (s : locks) (t : str) (c x : Z) : option lockType := type <$> record_locks t c s !! x.

(** [odd] tells whether the pair [odd_pair] may occur.  A transaction need not
    own all its locks: one that begins under a number which still has some does
    not.  But a table that it owns it gives up with all the records. *)
Record locks_ok (odd : bool) (s : locks) : Prop := {
  lk_tkey t x l : table_locks t s !! x = Some l → transactionID l = x;
  lk_rkey t c x l : record_locks t c s !! x = Some l → transactionID l = x;
  lk_fresh t : tableLevelLocks s !! t = None → records_of t s = ∅;
  lk_towned t x : t ∈ owned_tables x s → is_Some (table_type s t x);
  lk_rowned t c x : c ∈ owned_records x t s → is_Some (record_type s t c x);
  lk_both t c x : is_Some (record_type s t c x) → t ∈ owned_tables x s → c ∈ owned_records x t s;
  lk_table t x y a b : x ≠ y → table_type s t x = Some a → table_type s t y = Some b → conflicts a b = false ∨ (odd = true ∧ odd_pair a b);
  lk_record t c x y a b : x ≠ y → record_type s t c x = Some a → record_type s t c y = Some b → a = READ_LOCK ∧ b = READ_LOCK;
  lk_intent t c x a : record_type s t c x = Some a →
    ∃ b, table_type s t x = Some b ∧ (a = READ_LOCK ∨ a = WRITE_LOCK ∧ covers b INTENT_WRITE_LOCK = true)
}.

(** Every lock is owned. *)
Record all_owned (s : locks) : Prop := {
  ao_table t x : is_Some (table_type s t x) → t ∈ owned_tables x s;
  ao_record t c x : is_Some (record_type s t c x) → c ∈ owned_records x t s
}.

(** Those in the way. *)
Definition in_the_way (tx : Z) (d : lockType) (m : gmap Z Lock) (x : Z) : Prop := x ≠ tx ∧ ∃ l, m !! x = Some l ∧ conflicts d (type l) = true.
Lemma elem_of_blockers tx p (m : gmap Z Lock) x : (∀ y l, m !! y = Some l → transactionID l = y) →
  x ∈ blockers tx p m ↔ x ≠ tx ∧ ∃ l, m !! x = Some l ∧ p (type l) = true.
Proof.
  intros Hk. unfold blockers. rewrite list_elem_of_In, in_map_iff. split.
  - intros (l & <- & [Hin Hp]%filter_In). apply list_elem_of_In, list_elem_of_fmap in Hin as ([y l'] & -> & Hin%elem_of_entries). cbn in *.
    apply andb_true_iff in Hp as [Hne Hp]. rewrite negb_true_iff, Z.eqb_neq in Hne. rewrite (Hk y l' Hin) in *. split; [done|by exists l'].
  - intros (Hne & l & El & Hp). exists l. split; [by apply Hk|]. apply filter_In. split.
    + apply list_elem_of_In, list_elem_of_fmap. exists (x, l). split; [done|by apply elem_of_entries].
    + rewrite (Hk x l El), Hp, andb_true_r, negb_true_iff. by apply Z.eqb_neq.
Qed.
Lemma blockers_ext tx p q (m : gmap Z Lock) : (∀ ty, p ty = q ty) → blockers tx p m = blockers tx q m.
Proof. intros H. unfold blockers. f_equal. apply filter_ext. intros l. by rewrite H. Qed.
Lemma no_blockers tx d (m : gmap Z Lock) : (∀ y l, m !! y = Some l → transactionID l = y) →
  blockers tx (conflicts d) m = [] → ∀ x l, x ≠ tx → m !! x = Some l → conflicts d (type l) = false.
Proof.
  intros Hk Hb x l Hx El. destruct (conflicts d (type l)) eqn:Ec; [|done]. assert (x ∈ blockers tx (conflicts d) m) as H.
  { apply elem_of_blockers; [done|]. split; [done|by exists l]. }
  rewrite Hb in H. by apply elem_of_nil in H.
Qed.

(** ** What the operations do *)

(** [tx] gets the mode [ty] on [t]. *)
Record sets_table (tx : Z) (t : str) (ty : lockType) (s s' : locks) : Prop := {
  st_locks t' : table_locks t' s' = if decide (t' = t) then <[tx := mk_lock tx ty]> (table_locks t s) else table_locks t' s;
  st_known t' : tableLevelLocks s' !! t' = None → tableLevelLocks s !! t' = None;
  st_records t' : records_of t' s' = records_of t' s;
  st_tables x : owned_tables x s' = if decide (x = tx ∧ table_locks t s !! tx = None) then owned_tables x s ++ [t] else owned_tables x s;
  st_owned x : owned_map x s' = owned_map x s
}.
Lemma table_locks_put t t' m s : table_locks t' (put_table_locks t m s) = if decide (t' = t) then m else table_locks t' s.
Proof. unfold table_locks, put_table_locks. cbn. case_decide as H; [subst; by rewrite lookup_insert_eq|by rewrite lookup_insert_ne]. Qed.
Lemma records_of_put t t' m s : records_of t' (put_records t m s) = if decide (t' = t) then m else records_of t' s.
Proof. unfold records_of, put_records. cbn. case_decide as H; [subst; by rewrite lookup_insert_eq|by rewrite lookup_insert_ne]. Qed.
Lemma owned_tables_put x tx l s : owned_tables x (put_owned_tables tx l s) = if decide (x = tx) then l else owned_tables x s.
Proof. unfold owned_tables, put_owned_tables. cbn. case_decide as H; [subst; by rewrite lookup_insert_eq|by rewrite lookup_insert_ne]. Qed.
Lemma owned_map_put x tx m s : owned_map x (put_owned_map tx m s) = if decide (x = tx) then m else owned_map x s.
Proof. unfold owned_map, put_owned_map. cbn. case_decide as H; [subst; by rewrite lookup_insert_eq|by rewrite lookup_insert_ne]. Qed.

Lemma sets_granted tx t ty s : table_locks t s !! tx = None →
  ∃ s', granted tx t ty s = Ret [] s' ∧ sets_table tx t ty s s'.
Proof.
  intros Hn. eexists. split; [reflexivity|]. constructor; intros x.
  - apply table_locks_put.
  - cbn. by intros [H1 H2]%lookup_insert_None.
  - done.
  - rewrite owned_tables_put. destruct (decide (x = tx)) as [->|Hne]; [by rewrite !decide_True by done|by rewrite !decide_False by tauto].
  - done.
Qed.
Lemma sets_escalated tx t ty s : table_locks t s !! tx ≠ None → ∃ s', escalated tx t ty s = Ret [] s' ∧ sets_table tx t ty s s'.
Proof.
  intros Hn. eexists. split; [reflexivity|]. constructor; intros x; [apply table_locks_put| |done| |done].
  - cbn. by intros [H1 H2]%lookup_insert_None.
  - by rewrite decide_False by tauto.
Qed.

Lemma sets_twice tx t a b s : table_locks t s !! tx ≠ None → ∃ s', (set_table_lock tx t a;; escalated tx t b) s = Ret [] s' ∧ sets_table tx t b s s'.
Proof.
  intros Hn. eexists. split; [reflexivity|]. constructor; intros x; [|cbn| |rewrite decide_False by tauto|]; try done.
  - rewrite !table_locks_put. destruct (decide (t = t)); [|done]. case_decide; [by rewrite insert_insert_eq|done].
  - by intros [[H _]%lookup_insert_None _]%lookup_insert_None.
Qed.
Lemma sets_owned tx t ty s : table_locks t s !! tx = None →
  ∃ s', (own_table tx t;; escalated tx t ty) s = Ret [] s' ∧ sets_table tx t ty s s'.
Proof.
  intros Hn. eexists. split; [reflexivity|]. constructor; intros x; [exact (table_locks_put t x _ (put_owned_tables tx (owned_tables tx s ++ [t]) s))| |done| |done].
  - cbn. by intros [H1 H2]%lookup_insert_None.
  - change (owned_tables x (put_owned_tables tx (owned_tables tx s ++ [t]) s) = if decide (x = tx ∧ table_locks t s !! tx = None) then owned_tables x s ++ [t] else owned_tables x s).
    rewrite owned_tables_put. destruct (decide (x = tx)) as [->|Hne]; [by rewrite !decide_True by done|by rewrite !decide_False by tauto].
Qed.

Section table_request.
Variables (odd : bool) (tx : Z) (t : str) (s : locks).
Hypothesis Hok : locks_ok odd s.
#[local] Notation m := (table_locks t s).
#[local] Notation o := (type <$> table_locks t s !! tx).

(** Reference for a request. *)
Definition requested (d : lockType) (r : list Z) (s' : locks) : Prop :=
  if covered o d then r = [] ∧ s' = s
  else r = blockers tx (conflicts d) m ∧ match r with [] => sets_table tx t (raise o d) s s' | _ => s' = s end.

Lemma new_table_requested d : tableLevelLocks s !! t = None →
  ∃ r s', tryAcquireTableLock tx t d s = Ret r s' ∧ requested d r s'.
Proof using Hok.
  intros Hn. unfold tryAcquireTableLock. rewrite (bind_Ret _ _ s s s) by done. rewrite Hn.
  assert (m = ∅) as Em by (unfold table_locks; by rewrite Hn). eexists [], _. split; [reflexivity|].
  unfold requested. rewrite Em. cbn. split; [done|]. constructor; intros x.
  - unfold table_locks at 1. cbn. case_decide as H; [subst; rewrite lookup_insert_eq|rewrite lookup_insert_ne, lookup_insert_ne by done]; cbn; [|done].
    unfold table_locks. cbn. by rewrite lookup_insert_eq, Hn.
  - cbn. by intros [[H _]%lookup_insert_None _]%lookup_insert_None.
  - change (records_of x (put_records t ∅ s) = records_of x s). rewrite records_of_put. case_decide as H; [subst; symmetry; by apply (lk_fresh odd s)|done].
  - rewrite owned_tables_put. rewrite Em, lookup_empty. destruct (decide (x = tx)) as [->|Hne]; [by rewrite !decide_True by done|by rewrite !decide_False by tauto].
  - done.
Qed.
Lemma table_requested d : ∃ r s', tryAcquireTableLock tx t d s = Ret r s' ∧ requested d r s'.
Proof using Hok.
  destruct (tableLevelLocks s !! t) as [m'|] eqn:Em; [|by apply new_table_requested].
  assert (m = m') as Hm by (unfold table_locks; by rewrite Em). unfold tryAcquireTableLock, requested. rewrite (bind_Ret _ _ s s s) by done. rewrite Em, Hm.
  assert (∀ ty, m' !! tx = None → ∃ s', granted tx t ty s = Ret [] s' ∧ sets_table tx t ty s s') as Hg by (intros ty H; apply sets_granted; by rewrite Hm).
  assert (∀ ty, m' !! tx ≠ None → ∃ s', escalated tx t ty s = Ret [] s' ∧ sets_table tx t ty s s') as He by (intros ty H; apply sets_escalated; by rewrite Hm).
  destruct d; unfold read_lock, intent_read_lock, write_lock, intent_write_lock, read_intent_write_lock, own.
  all: match goal with |- context [conflicts ?d] =>
         match goal with |- context [match blockers _ ?p _ with _ => _ end] => rewrite (blockers_ext tx p (conflicts d)) by by intros [] end
       end.
  all: destruct (m' !! tx) as [[x h]|] eqn:Eo; cbn [fmap option_fmap option_map type].
  all: try (destruct h; try (by exists [], s); cbn [covered covers raise]).
  all: match goal with |- context [blockers ?a ?b ?c] => destruct (blockers a b c) as [|y l] eqn:Eb; [|by eexists _, s] end.
  all: try (edestruct Hg as (s' & E & H); [done|]; by exists [], s').
  all: try (edestruct He as (s' & E & H); [done|]; exists [], s'; split; [exact E|]; by split).
  - destruct (sets_twice tx t READ_LOCK READ_INTENT_WRITE_LOCK s) as (s' & E & H); [by rewrite Hm, Eo|]. by exists [], s'.
  - destruct (sets_owned tx t WRITE_LOCK s) as (s' & E & H); [by rewrite Hm|]. by exists [], s'.
Qed.
End table_request.

(** ** The promises are kept *)

Section table_kept.
Variables (odd : bool) (tx : Z) (t : str) (ty : lockType) (s s' : locks).
Hypotheses (Hok : locks_ok odd s) (Hset : sets_table tx t ty s s').

Lemma table_type_set t' x : table_type s' t' x = if decide (t' = t ∧ x = tx) then Some ty else table_type s t' x.
Proof using Hset.
  unfold table_type. rewrite (st_locks _ _ _ _ _ Hset). destruct (decide (t' = t)) as [->|Ht].
  - destruct (decide (x = tx)) as [->|Hx]; [rewrite lookup_insert_eq, decide_True by done; done|].
    by rewrite lookup_insert_ne, decide_False by naive_solver.
  - by rewrite decide_False by naive_solver.
Qed.
Lemma record_type_set t' c x : record_type s' t' c x = record_type s t' c x.
Proof using Hset. unfold record_type, record_locks. by rewrite (st_records _ _ _ _ _ Hset). Qed.

Lemma owned_tables_set t' x : t' ∈ owned_tables x s' ↔ t' ∈ owned_tables x s ∨ (x = tx ∧ t' = t ∧ table_locks t s !! tx = None).
Proof using Hset.
  rewrite (st_tables _ _ _ _ _ Hset). case_decide; [rewrite elem_of_app, list_elem_of_singleton|]; naive_solver.
Qed.
Lemma sets_table_owned : all_owned s → all_owned s'.
Proof using Hset.
  intros [H1 H2]. constructor.
  - intros t' x. rewrite table_type_set, owned_tables_set. case_decide as Hx; [|by left; apply H1]. destruct Hx as [-> ->]. intros _.
    destruct (table_locks t s !! tx) eqn:E; [left; apply H1; unfold table_type; rewrite E; by eexists|by right].
  - intros t' c x. unfold owned_records. rewrite record_type_set, (st_owned _ _ _ _ _ Hset). apply H2.
Qed.
Lemma sets_table_ok : (∀ x b, x ≠ tx → table_type s t x = Some b → conflicts ty b = false ∨ (odd = true ∧ odd_pair ty b)) →
  (∀ h, table_type s t tx = Some h → covers h INTENT_WRITE_LOCK = true → covers ty INTENT_WRITE_LOCK = true) → locks_ok odd s'.
Proof using Hok Hset.
  intros Hc Hi. constructor.
  - intros t' x l. rewrite (st_locks _ _ _ _ _ Hset). case_decide; [|apply Hok]. rewrite lookup_insert_Some. intros [[<- <-]|[_ H']]; [done|by apply (lk_tkey _ _ Hok) in H'].
  - intros t' c x l. unfold record_locks. rewrite (st_records _ _ _ _ _ Hset). apply Hok.
  - intros t' H%(st_known _ _ _ _ _ Hset). rewrite (st_records _ _ _ _ _ Hset). by apply (lk_fresh _ _ Hok).
  - intros t' x Hin%owned_tables_set. rewrite table_type_set. case_decide as Hx; [done|]. destruct Hin as [?|(-> & -> & _)]; [by apply Hok|by destruct Hx].
  - intros t' c x. unfold owned_records. rewrite record_type_set, (st_owned _ _ _ _ _ Hset). apply Hok.
  - intros t' c x. rewrite record_type_set. intros Hr [Ht|(-> & -> & Hn)]%owned_tables_set; unfold owned_records; rewrite (st_owned _ _ _ _ _ Hset).
    + by apply (lk_both _ _ Hok t').
    + destruct Hr as [a (b & Hb & _)%(lk_intent _ _ Hok)]. unfold table_type in Hb. by rewrite Hn in Hb.
  - intros t' x y a b Hne. rewrite !table_type_set. destruct (decide (t' = t ∧ x = tx)) as [[Hx1 Hx2]|Hx], (decide (t' = t ∧ y = tx)) as [[Hy1 Hy2]|Hy].
    + congruence.
    + subst. intros [= <-]. by apply Hc.
    + subst. intros Hxt [= <-]. rewrite conflicts_sym. destruct (Hc x a) as [H|[H1 H2]]; [done|done|by left|right]. split; [done|unfold odd_pair in *; tauto].
    + by apply (lk_table _ _ Hok).
  - intros t' c x y a b. rewrite !record_type_set. apply (lk_record _ _ Hok).
  - intros t' c x a. rewrite record_type_set, table_type_set. intros (b & Eb & H)%(lk_intent _ _ Hok).
    destruct (decide (t' = t ∧ x = tx)) as [[-> ->]|Hx]; [|by exists b]. exists ty. split; [done|]. destruct H as [H|[H1 H2]]; [by left|right]. split; [done|by eapply Hi].
Qed.
End table_kept.

Lemma table_request_ok odd tx t d s : locks_ok odd s → odd = true ∨ ¬ falls_through (table_type s t tx) d →
  ∃ r s', tryAcquireTableLock tx t d s = Ret r s' ∧ requested tx t s d r s' ∧ locks_ok odd s'.
Proof.
  intros Hok Hq. destruct (table_requested odd tx t s Hok d) as (r & s' & E & R). exists r, s'. split; [done|]. split; [done|].
  unfold requested in R. destruct (covered _ d) eqn:Ec; [by destruct R as [_ ->]|]. destruct R as [Er R].
  destruct r as [|y r]; [|by subst]. eapply sets_table_ok; [exact Hok|exact R| |].
  - intros x b Hx Hb. unfold table_type in Hb. apply fmap_Some in Hb as (l & El & ->). apply raise_compatible; [|done| |].
    + eapply no_blockers; [apply (lk_tkey _ _ Hok)|by symmetry|done|done].
    + intros h Hh. eapply (lk_table _ _ Hok t tx x); [done|exact Hh|]. unfold table_type. by rewrite El.
    + exact Hq.
  - intros h Hh Hc. fold (table_type s t tx) in *. rewrite Hh in Ec |- *. by apply raise_keeps.
Qed.

(** ** Records *)

(** [tx] gets the mode [ty] on a record. *)
Record sets_record (tx : Z) (t : str) (c : Z) (ty : lockType) (s s' : locks) : Prop := {
  sr_tables : tableLevelLocks s' = tableLevelLocks s;
  sr_locks t' c' : record_locks t' c' s' = if decide (t' = t ∧ c' = c) then <[tx := mk_lock tx ty]> (record_locks t c s) else record_locks t' c' s;
  sr_fresh t' : records_of t' s' = ∅ → records_of t' s = ∅;
  sr_empty t' : t' ≠ t → records_of t' s' = records_of t' s;
  sr_owned_tables x : owned_tables x s' = owned_tables x s;
  sr_owned x t' : owned_records x t' s' =
    if decide (x = tx ∧ t' = t ∧ record_locks t c s !! tx = None) then owned_records x t' s ++ [c] else owned_records x t' s
}.
Definition record_conflicts (d h : lockType) : bool := match d with WRITE_LOCK => true | _ => negb (bool_decide (h = READ_LOCK)) end.
Definition record_covered (o : option lockType) (d : lockType) : bool :=
  match o, d with
  | Some WRITE_LOCK, WRITE_LOCK => true
  | Some _, READ_LOCK => true
  | _, _ => false
  end.
(** Reference for the part of a request behind the intention. *)
Definition record_requested (tx : Z) (t : str) (c : Z) (s : locks) (d : lockType) (r : list Z) (s' : locks) : Prop :=
  if record_covered (record_type s t c tx) d then r = [] ∧ s' = s
  else r = blockers tx (record_conflicts d) (record_locks t c s) ∧ match r with [] => sets_record tx t c d s s' | _ => s' = s end.

Lemma record_locks_put t t' c c' m s :
  record_locks t' c' (put_records t (<[c := m]> (records_of t s)) s) = if decide (t' = t ∧ c' = c) then m else record_locks t' c' s.
Proof.
  unfold record_locks. rewrite records_of_put. destruct (decide (t' = t)) as [->|Ht]; [|by rewrite decide_False by tauto].
  destruct (decide (c' = c)) as [->|Hc]; [by rewrite lookup_insert_eq, decide_True|by rewrite lookup_insert_ne, decide_False by naive_solver].
Qed.
Lemma owned_records_put x tx t t' l s :
  owned_records x t' (put_owned_map tx (<[t := l]> (owned_map tx s)) s) = if decide (x = tx ∧ t' = t) then l else owned_records x t' s.
Proof.
  unfold owned_records. rewrite owned_map_put. destruct (decide (x = tx)) as [->|Hx]; [|by rewrite decide_False by tauto].
  destruct (decide (t' = t)) as [->|Ht]; [by rewrite lookup_insert_eq, decide_True|by rewrite lookup_insert_ne, decide_False by naive_solver].
Qed.

Definition state_with (tx : Z) (t : str) (c : Z) (ty : lockType) (s : locks) : locks :=
  put_records t (<[c := <[tx := mk_lock tx ty]> (record_locks t c s)]> (records_of t s)) s.
Definition state_owning (tx : Z) (t : str) (c : Z) (s : locks) : locks :=
  put_owned_map tx (<[t := owned_records tx t s ++ [c]]> (owned_map tx s)) s.
Lemma sets_new_record tx t c ty s : record_locks t c s !! tx = None → sets_record tx t c ty s (state_owning tx t c (state_with tx t c ty s)).
Proof.
  intros Hn. constructor; [done| | | | |].
  - intros t' c'. exact (record_locks_put t t' c c' _ s).
  - intros t'. change (records_of t' (state_with tx t c ty s) = ∅ → records_of t' s = ∅). unfold state_with. rewrite records_of_put. case_decide; [|done].
    intros H'. by apply insert_non_empty in H'.
  - intros t' Ht. change (records_of t' (state_with tx t c ty s) = records_of t' s). unfold state_with. by rewrite records_of_put, decide_False.
  - done.
  - intros x t'. unfold state_owning. rewrite owned_records_put. destruct (decide (x = tx ∧ t' = t)) as [[-> ->]|Hx]; [by rewrite decide_True|by rewrite decide_False by tauto].
Qed.
Lemma sets_raised_record tx t c ty s : record_locks t c s !! tx ≠ None → sets_record tx t c ty s (state_with tx t c ty s).
Proof.
  intros Hn. constructor; [done| | | | |].
  - intros t' c'. exact (record_locks_put t t' c c' _ s).
  - intros t'. unfold state_with. rewrite records_of_put. case_decide; [|done]. intros H'. by apply insert_non_empty in H'.
  - intros t' Ht. unfold state_with. by rewrite records_of_put, decide_False.
  - done.
  - intros x t'. by rewrite decide_False by tauto.
Qed.

Section record_request.
Variables (odd : bool) (tx : Z) (t : str) (c : Z) (s : locks).
Hypothesis Hok : locks_ok odd s.

Lemma record_type_None : records_of t s !! c = None → record_locks t c s = ∅.
Proof. intros H. unfold record_locks. by rewrite H. Qed.
Lemma read_record_requested : ∃ r s', read_record tx t c s = Ret r s' ∧ record_requested tx t c s READ_LOCK r s'.
Proof.
  unfold read_record, record_requested, record_type. rewrite (bind_Ret _ _ s s s) by done. destruct (records_of t s !! c) as [m|] eqn:Em.
  - assert (record_locks t c s = m) as E by (unfold record_locks; by rewrite Em). rewrite E.
    destruct (m !! tx) as [[x h]|] eqn:Eo; [exists [], s; split; [done|]; by destruct h|]. cbn [fmap option_fmap option_map record_covered].
    change (λ ty, negb (bool_decide (ty = READ_LOCK))) with (record_conflicts READ_LOCK).
    destruct (blockers tx (record_conflicts READ_LOCK) m) as [|y l]; [|by eexists _, s].
    eexists [], _. split; [reflexivity|]. split; [done|]. apply (sets_new_record tx t c READ_LOCK). by rewrite E.
  - rewrite (record_type_None Em). cbn. eexists [], _. split; [reflexivity|]. split; [done|].
    apply (sets_new_record tx t c READ_LOCK). by rewrite (record_type_None Em).
Qed.
Lemma write_record_requested : ∃ r s', write_record tx t c s = Ret r s' ∧ record_requested tx t c s WRITE_LOCK r s'.
Proof.
  unfold write_record, record_requested, record_type. rewrite (bind_Ret _ _ s s s) by done. destruct (records_of t s !! c) as [m|] eqn:Em.
  - assert (record_locks t c s = m) as E by (unfold record_locks; by rewrite Em). rewrite E.
    change (λ _ : lockType, true) with (record_conflicts WRITE_LOCK).
    destruct (m !! tx) as [[x h]|] eqn:Eo; cbn [fmap option_fmap option_map type record_covered].
    + destruct h; try (by exists [], s); (destruct (blockers tx (record_conflicts WRITE_LOCK) m) as [|y l]; [|by eexists _, s]);
        (eexists [], _; split; [reflexivity|]; split; [done|]; apply (sets_raised_record tx t c WRITE_LOCK); by rewrite E, Eo).
    + destruct (blockers tx (record_conflicts WRITE_LOCK) m) as [|y l]; [|by eexists _, s].
      eexists [], _. split; [reflexivity|]. split; [done|]. apply (sets_new_record tx t c WRITE_LOCK). by rewrite E.
  - rewrite (record_type_None Em). cbn. eexists [], _. split; [reflexivity|]. split; [done|].
    apply (sets_new_record tx t c WRITE_LOCK). by rewrite (record_type_None Em).
Qed.
End record_request.

Section record_kept.
Variables (odd : bool) (tx : Z) (t : str) (c : Z) (ty : lockType) (s s' : locks).
Hypotheses (Hok : locks_ok odd s) (Hset : sets_record tx t c ty s s').

Lemma table_type_kept t' x : table_type s' t' x = table_type s t' x.
Proof using Hset. unfold table_type, table_locks. by rewrite (sr_tables _ _ _ _ _ _ Hset). Qed.
Lemma record_type_new t' c' x : record_type s' t' c' x = if decide (t' = t ∧ c' = c ∧ x = tx) then Some ty else record_type s t' c' x.
Proof using Hset.
  unfold record_type. rewrite (sr_locks _ _ _ _ _ _ Hset). destruct (decide (t' = t ∧ c' = c)) as [[-> ->]|Ht].
  - destruct (decide (x = tx)) as [->|Hx]; [rewrite lookup_insert_eq, decide_True by done; done|].
    by rewrite lookup_insert_ne, decide_False by naive_solver.
  - by rewrite decide_False by naive_solver.
Qed.
Lemma owned_records_set t' c' x :
  c' ∈ owned_records x t' s' ↔ c' ∈ owned_records x t' s ∨ (x = tx ∧ t' = t ∧ c' = c ∧ record_locks t c s !! tx = None).
Proof using Hset.
  rewrite (sr_owned _ _ _ _ _ _ Hset). case_decide; [rewrite elem_of_app, list_elem_of_singleton|]; naive_solver.
Qed.
Lemma sets_record_owned : all_owned s → all_owned s'.
Proof using Hset.
  intros [H1 H2]. constructor.
  - intros t' x. rewrite table_type_kept, (sr_owned_tables _ _ _ _ _ _ Hset). apply H1.
  - intros t' c' x. rewrite record_type_new, owned_records_set. case_decide as Hx; [|by left; apply H2]. destruct Hx as (-> & -> & ->). intros _.
    destruct (record_locks t c s !! tx) eqn:E; [left; apply H2; unfold record_type; rewrite E; by eexists|by right].
Qed.
Lemma sets_record_ok : (∀ x b, x ≠ tx → record_type s t c x = Some b → ty = READ_LOCK ∧ b = READ_LOCK) →
  (∃ b, table_type s t tx = Some b ∧ (ty = READ_LOCK ∨ ty = WRITE_LOCK ∧ covers b INTENT_WRITE_LOCK = true)) → locks_ok odd s'.
Proof using Hok Hset.
  intros Hc (b0 & Eb0 & Hb0). constructor.
  - intros t' x l. unfold table_locks. rewrite (sr_tables _ _ _ _ _ _ Hset). apply Hok.
  - intros t' c' x l. rewrite (sr_locks _ _ _ _ _ _ Hset). case_decide; [|apply Hok]. rewrite lookup_insert_Some.
    intros [[<- <-]|[_ H']]; [done|by apply (lk_rkey _ _ Hok) in H'].
  - intros t' Ht'. assert (t' ≠ t) as Hne.
    { intros ->. rewrite (sr_tables _ _ _ _ _ _ Hset) in Ht'. unfold table_type, table_locks in Eb0. by rewrite Ht' in Eb0. }
    rewrite (sr_empty _ _ _ _ _ _ Hset) by done. apply (lk_fresh _ _ Hok). by rewrite <-(sr_tables _ _ _ _ _ _ Hset).
  - intros t' x. rewrite table_type_kept, (sr_owned_tables _ _ _ _ _ _ Hset). apply Hok.
  - intros t' c' x Hin%owned_records_set. rewrite record_type_new. case_decide as Hx; [done|]. destruct Hin as [?|(-> & -> & -> & _)]; [by apply Hok|by destruct Hx].
  - intros t' c' x. rewrite record_type_new, owned_records_set, (sr_owned_tables _ _ _ _ _ _ Hset). case_decide as Hx; [|left; by apply Hok].
    destruct Hx as (-> & -> & ->). intros _ Ht. destruct (record_locks t c s !! tx) eqn:E; [left|by right].
    apply (lk_both _ _ Hok); [unfold record_type; rewrite E; by eexists|done].
  - intros t' x y a b. rewrite !table_type_kept. apply (lk_table _ _ Hok).
  - intros t' c' x y a b Hne. rewrite !record_type_new.
    destruct (decide (t' = t ∧ c' = c ∧ x = tx)) as [(Hx1 & Hx2 & Hx3)|Hx], (decide (t' = t ∧ c' = c ∧ y = tx)) as [(Hy1 & Hy2 & Hy3)|Hy].
    + congruence.
    + subst. intros [= <-]. by apply Hc.
    + subst. intros Hxt [= <-]. by destruct (Hc x a) as [-> ->].
    + by apply (lk_record _ _ Hok).
  - intros t' c' x a. rewrite record_type_new, table_type_kept. destruct (decide (t' = t ∧ c' = c ∧ x = tx)) as [(-> & -> & ->)|Hx].
    + intros [= <-]. exists b0. split; [done|]. destruct Hb0; [by left|by right].
    + apply (lk_intent _ _ Hok).
Qed.
End record_kept.

(** A request for a record: the intention, then the record. *)
Definition intention (d : lockType) : lockType := match d with WRITE_LOCK => INTENT_WRITE_LOCK | _ => INTENT_READ_LOCK end.
Lemma intention_no_fall o d : ¬ falls_through o (intention d).
Proof. intros [_ H]. by destruct d. Qed.

Lemma table_granted odd tx t d s s' : locks_ok odd s → requested tx t s d [] s' → ∃ b, table_type s' t tx = Some b ∧ covers b d = true.
Proof.
  intros Hok. unfold requested. destruct (covered _ d) eqn:Ec.
  - intros [_ ->]. unfold table_type. destruct (table_locks t s !! tx) as [l|]; [|done]. by exists (type l).
  - intros [_ Hset]. exists (raise (type <$> table_locks t s !! tx) d). split; [|apply raise_covers].
    by rewrite (table_type_set tx t _ s s' Hset), decide_True.
Qed.
Lemma item_request_ok odd tx t c d s : locks_ok odd s → d = READ_LOCK ∨ d = WRITE_LOCK →
  ∃ r s' r1 s1, tryAcquireItemLock tx t c d s = Ret r s' ∧ locks_ok odd s' ∧ locks_ok odd s1 ∧ requested tx t s (intention d) r1 s1 ∧
    match r1 with [] => record_requested tx t c s1 d r s' | _ => r = r1 ∧ s' = s1 end.
Proof.
  intros Hok Hd. destruct (table_request_ok odd tx t (intention d) s Hok ltac:(right; apply intention_no_fall)) as (r1 & s1 & E1 & R1 & Hok1).
  assert (∃ r s', (match r1 with [] => (match d with READ_LOCK => read_record tx t c | _ => write_record tx t c end) | _ => mret r1 end) s1 = Ret r s' ∧
    match r1 with [] => record_requested tx t c s1 d r s' | _ => r = r1 ∧ s' = s1 end) as (r & s' & E2 & R2).
  { destruct r1 as [|y r1]; [|by exists (y :: r1), s1]. destruct Hd as [-> | ->]; [by apply read_record_requested|by apply write_record_requested]. }
  exists r, s', r1, s1. split; [|split; [|by split_and!]].
  - unfold tryAcquireItemLock. destruct Hd as [-> | ->]; by rewrite (bind_Ret _ _ _ _ _ E1).
  - destruct r1 as [|y r1]; [|by destruct R2 as [_ ->]]. unfold record_requested in R2.
    destruct (record_covered _ d) eqn:Ec; [by destruct R2 as [_ ->]|]. destruct R2 as [Er R2]. destruct r as [|y r]; [|by subst].
    eapply sets_record_ok; [exact Hok1|exact R2| |].
    + intros x b Hx Hb. unfold record_type in Hb. apply fmap_Some in Hb as (l & El & ->).
      assert (record_conflicts d (type l) = false) as Hl.
      { destruct (record_conflicts d (type l)) eqn:Ec'; [|done]. assert (x ∈ blockers tx (record_conflicts d) (record_locks t c s1)) as H.
        - apply elem_of_blockers; [apply (lk_rkey _ _ Hok1)|]. split; [done|by exists l].
        - rewrite <-Er in H. by apply elem_of_nil in H. }
      destruct Hd as [-> | ->]; [|done]. cbn in Hl. apply negb_false_iff, bool_decide_eq_true in Hl. done.
    + destruct (table_granted odd tx t (intention d) s s1 Hok R1) as (b & Eb & Hb). exists b. split; [done|].
      destruct Hd as [-> | ->]; [by left|by right].
Qed.

(** ** Releasing *)

(** What is on the way from [s] to the state where [tx] holds nothing. *)
Record frees (tx : Z) (s s' : locks) : Prop := {
  fr_table t x : table_locks t s' !! x = table_locks t s !! x ∨ (x = tx ∧ t ∈ owned_tables tx s ∧ table_locks t s' !! x = None);
  fr_record t c x : record_locks t c s' !! x = record_locks t c s !! x ∨ (x = tx ∧ record_locks t c s' !! x = None);
  fr_known t : tableLevelLocks s' !! t = None → tableLevelLocks s !! t = None;
  fr_records t : records_of t s' = records_of t s ∨ owned_records tx t s ≠ [];
  fr_tables x : owned_tables x s' = owned_tables x s;
  fr_owned x : owned_map x s' = owned_map x s
}.
#[export] Instance frees_preorder tx : PreOrder (frees tx).
Proof.
  split.
  - intros s. constructor; try done; by left.
  - intros s1 s2 s3 [T1 R1 K1 E1 O1 M1] [T2 R2 K2 E2 O2 M2]. constructor.
    + intros t x. destruct (T2 t x) as [->|H]; [apply T1|right]. by rewrite O1 in H.
    + intros t c x. destruct (R2 t c x) as [->|?]; [apply R1|by right].
    + intros t H. by apply K1, K2.
    + intros t. destruct (E2 t) as [->|H]; [apply E1|right]. unfold owned_records in *. by rewrite M1 in H.
    + intros x. by rewrite O2.
    + intros x. by rewrite M2.
Qed.

Lemma release_record_frees tx t c s : c ∈ owned_records tx t s →
  ∃ s', release_record tx t c s = Ret tt s' ∧ frees tx s s' ∧ record_locks t c s' !! tx = None.
Proof.
  intros Hc. eexists. split; [reflexivity|]. assert (∀ t' c', record_locks t' c' (put_records t (<[c := delete tx (record_locks t c s)]> (records_of t s)) s)
    = if decide (t' = t ∧ c' = c) then delete tx (record_locks t c s) else record_locks t' c' s) as Hl by (intros t' c'; apply record_locks_put).
  split; [constructor; try done|].
  - by left.
  - intros t' c' x. rewrite Hl. case_decide as H; [|by left]. destruct H as [-> ->]. destruct (decide (x = tx)) as [->|Hx].
    + right. split; [done|apply lookup_delete_eq].
    + left. by apply lookup_delete_ne.
  - intros t'. rewrite records_of_put. case_decide; [|by left]. subst. right. intros E. rewrite E in Hc. by apply elem_of_nil in Hc.
  - rewrite Hl, decide_True by done. apply lookup_delete_eq.
Qed.
Lemma release_table_frees tx t s : t ∈ owned_tables tx s → ∃ s', release_table tx t s = Ret tt s' ∧ frees tx s s' ∧ table_locks t s' !! tx = None.
Proof.
  intros Ht. eexists. split; [reflexivity|]. split; [constructor; try done|].
  - intros t' x. rewrite table_locks_put. case_decide as H; [|by left]. subst. destruct (decide (x = tx)) as [->|Hx].
    + right. split; [done|]. split; [done|apply lookup_delete_eq].
    + left. by apply lookup_delete_ne.
  - by left.
  - intros t'. cbn. by intros [H _]%lookup_insert_None.
  - by left.
  - rewrite table_locks_put, decide_True by done. apply lookup_delete_eq.
Qed.

(** A loop of steps each of which makes [gone] true of its element for good. *)
Lemma release_all {A} tx (body : A → prog locks unit) (gone : A → locks → Prop) l s :
  (∀ x s1, x ∈ l → frees tx s s1 → ∃ s2, body x s1 = Ret tt s2 ∧ frees tx s1 s2 ∧ gone x s2) →
  (∀ x s1 s2, gone x s1 → frees tx s1 s2 → gone x s2) →
  ∃ s', for_each l body s = Ret tt s' ∧ frees tx s s' ∧ ∀ x, x ∈ l → gone x s'.
Proof.
  intros Hb Hg. assert (∀ s1, frees tx s s1 → ∃ s', for_each l body s1 = Ret tt s' ∧ frees tx s1 s' ∧ ∀ x, x ∈ l → gone x s') as H; [|by apply H].
  induction l as [|x l IH]; intros s1 F1; cbn [for_each].
  { exists s1. split; [done|]. split; [done|]. intros x Hx. by apply elem_of_nil in Hx. }
  destruct (Hb x s1 ltac:(left) F1) as (s2 & E2 & F2 & G2). rewrite (bind_Ret _ _ _ _ _ E2).
  destruct (IH ltac:(intros y s3 Hy; apply Hb; by right) s2 ltac:(by etrans)) as (s3 & E3 & F3 & G3).
  exists s3. split; [done|]. split; [by etrans|]. intros y [->|Hy]%elem_of_cons; [by eapply Hg|by apply G3].
Qed.

Lemma gone_record tx t c s s' : record_locks t c s !! tx = None → frees tx s s' → record_locks t c s' !! tx = None.
Proof. intros H F. destruct (fr_record _ _ _ F t c tx) as [->|[_ ?]]; done. Qed.
Lemma gone_table tx t s s' : table_locks t s !! tx = None → frees tx s s' → table_locks t s' !! tx = None.
Proof. intros H F. destruct (fr_table _ _ _ F t tx) as [->|(_ & _ & ?)]; done. Qed.

(** The two loops: what [tx] owns is gone, everything else stays. *)
Lemma release_loops odd tx s : locks_ok odd s → ∃ s', releaseAllLocks tx s = Ret tt s' ∧
  (∀ t x, table_locks t s' !! x = if decide (x = tx ∧ t ∈ owned_tables tx s) then None else table_locks t s !! x) ∧
  (∀ t c x, record_locks t c s' !! x = record_locks t c s !! x ∨ (x = tx ∧ record_locks t c s' !! x = None)) ∧
  (∀ t c, c ∈ owned_records tx t s → record_locks t c s' !! tx = None) ∧
  (∀ t, tableLevelLocks s' !! t = None → records_of t s' = ∅) ∧
  (∀ x, owned_tables x s' = if decide (x = tx) then [] else owned_tables x s) ∧
  (∀ x, owned_map x s' = if decide (x = tx) then ∅ else owned_map x s).
Proof.
  intros Hok. unfold releaseAllLocks. rewrite (bind_Ret _ _ s s s) by done.
  destruct (release_all tx (λ tables : str * list Z, for_each tables.2 (release_record tx tables.1))
    (λ tables s, ∀ c, c ∈ tables.2 → record_locks tables.1 c s !! tx = None) (map_to_list (owned_map tx s)) s) as (s1 & E1 & F1 & G1).
  { intros [t l] s1 Hin%elem_of_map_to_list F. cbn [fst snd].
    apply (release_all tx (release_record tx t) (λ c s, record_locks t c s !! tx = None)); [|intros c s2 s3; apply gone_record].
    intros c s2 Hc F2. apply release_record_frees. unfold owned_records. rewrite (fr_owned _ _ _ F2), (fr_owned _ _ _ F), Hin. done. }
  { intros tables s2 s3 H F c Hc. eapply gone_record; [by apply H|done]. }
  rewrite (bind_Ret _ _ _ _ _ E1). set (s2 := put_owned_map tx ∅ s1). rewrite (bind_Ret _ _ s1 tt s2) by done. rewrite (bind_Ret _ _ s2 s2 s2) by done.
  destruct (release_all tx (release_table tx) (λ t s, table_locks t s !! tx = None) (owned_tables tx s2) s2) as (s3 & E3 & F3 & G3).
  { intros t s3 Ht F. apply release_table_frees. by rewrite (fr_tables _ _ _ F). }
  { intros t s4 s5. apply gone_table. }
  rewrite (bind_Ret _ _ _ _ _ E3). exists (put_owned_tables tx [] s3). split; [done|].
  change (owned_tables tx s2) with (owned_tables tx s1) in G3. rewrite (fr_tables _ _ _ F1) in G3.
  assert (∀ t c x, record_locks t c s3 !! x = record_locks t c s1 !! x ∨ (x = tx ∧ record_locks t c s3 !! x = None)) as R3 by apply F3.
  split_and!.
  - intros t x. change (table_locks t s3 !! x = if decide (x = tx ∧ t ∈ owned_tables tx s) then None else table_locks t s !! x).
    case_decide as Hx; [destruct Hx as [-> Ht]; by apply G3|]. pose proof (fr_table _ _ _ F3 t x) as H3. change (owned_tables tx s2) with (owned_tables tx s1) in H3.
    rewrite (fr_tables _ _ _ F1) in H3. destruct H3 as [->|(? & ? & _)]; [|by destruct Hx]. by destruct (fr_table _ _ _ F1 t x) as [<-|(? & ? & _)]; [|destruct Hx].
  - intros t c x. destruct (R3 t c x) as [H|H]; [|by right]. destruct (fr_record _ _ _ F1 t c x) as [<-|[? H']]; [by left|right]. split; [done|]. by etrans.
  - intros t c Hc. change (record_locks t c s3 !! tx = None). destruct (R3 t c tx) as [->|[_ ?]]; [|done].
    unfold owned_records in Hc. destruct (owned_map tx s !! t) as [cs|] eqn:Ec; [|by apply elem_of_nil in Hc].
    apply (G1 (t, cs)); [by apply elem_of_map_to_list|done].
  - intros t Ht. assert (records_of t s = ∅) as E0 by by apply (lk_fresh _ _ Hok), (fr_known _ _ _ F1), (fr_known _ _ _ F3).
    assert (owned_records tx t s = []) as Eo.
    { destruct (owned_records tx t s) as [|c cs] eqn:Ec; [done|]. assert (c ∈ owned_records tx t s) as Hc by (rewrite Ec; left).
      apply (lk_rowned _ _ Hok) in Hc. unfold record_type, record_locks in Hc. rewrite E0 in Hc. by destruct Hc. }
    assert (owned_records tx t s2 = []) as Eo2 by (unfold owned_records; unfold s2; by rewrite owned_map_put, decide_True).
    change (records_of t s3 = ∅). destruct (fr_records _ _ _ F3 t) as [->|H]; [|done]. change (records_of t s1 = ∅). by destruct (fr_records _ _ _ F1 t) as [->|H].
  - intros x. rewrite owned_tables_put, (fr_tables _ _ _ F3). change (owned_tables x s2) with (owned_tables x s1). by rewrite (fr_tables _ _ _ F1).
  - intros x. change (owned_map x s3 = if decide (x = tx) then ∅ else owned_map x s). rewrite (fr_owned _ _ _ F3). unfold s2. by rewrite owned_map_put, (fr_owned _ _ _ F1).
Qed.
(** Those that do not end keep their locks; the one that ends keeps what it does
    not own. *)
Lemma release_ok odd tx s : locks_ok odd s → ∃ s', releaseAllLocks tx s = Ret tt s' ∧ locks_ok odd s' ∧
  (∀ t x, x ≠ tx → table_type s' t x = table_type s t x) ∧ (∀ t c x, x ≠ tx → record_type s' t c x = record_type s t c x) ∧
  (all_owned s → all_owned s' ∧ (∀ t, table_type s' t tx = None) ∧ (∀ t c, record_type s' t c tx = None)).
Proof.
  intros Hok. destruct (release_loops odd tx s Hok) as (s' & E & HT & HR & HG & HF & HO & HM). exists s'. split; [done|].
  assert (∀ t x a, table_type s' t x = Some a → table_type s t x = Some a) as HT1.
  { intros t x a. unfold table_type. rewrite HT. by case_decide. }
  assert (∀ t c x a, record_type s' t c x = Some a → record_type s t c x = Some a) as HR1.
  { intros t c x a. unfold record_type. by destruct (HR t c x) as [->|[_ ->]]. }
  assert (∀ t x, x ≠ tx → table_type s' t x = table_type s t x) as HT2.
  { intros t x Hx. unfold table_type. by rewrite HT, decide_False by tauto. }
  assert (∀ t c x, x ≠ tx → record_type s' t c x = record_type s t c x) as HR2.
  { intros t c x Hx. unfold record_type. by destruct (HR t c x) as [->|[? _]]. }
  assert (∀ x t c, c ∈ owned_records x t s' ↔ x ≠ tx ∧ c ∈ owned_records x t s) as HM2.
  { intros x t c. unfold owned_records. rewrite HM. case_decide; [rewrite lookup_empty; split; [by intros H'%elem_of_nil|tauto]|tauto]. }
  assert (∀ x t, t ∈ owned_tables x s' ↔ x ≠ tx ∧ t ∈ owned_tables x s) as HO2.
  { intros x t. rewrite HO. case_decide; [split; [by intros H'%elem_of_nil|tauto]|tauto]. }
  split; [|split; [exact HT2|split; [exact HR2|]]].
  - constructor.
    + intros t x l. rewrite HT. case_decide; [done|apply Hok].
    + intros t c x l. destruct (HR t c x) as [->|[_ ->]]; [apply Hok|done].
    + exact HF.
    + intros t x [Hx Ht]%HO2. rewrite HT2 by done. by apply Hok.
    + intros t c x [Hx Hc]%HM2. rewrite HR2 by done. by apply Hok.
    + intros t c x Hr [Hx Ht]%HO2. rewrite HR2 in Hr by done. apply HM2. split; [done|]. by apply (lk_both _ _ Hok).
    + intros t x y a b Hne Ha%HT1 Hb%HT1. by apply (lk_table _ _ Hok t x y).
    + intros t c x y a b Hne Ha%HR1 Hb%HR1. by apply (lk_record _ _ Hok t c x y).
    + intros t c x a Ha. pose proof (HR1 _ _ _ _ Ha) as Ha'. destruct (lk_intent _ _ Hok t c x a Ha') as (b & Hb & H). exists b. split; [|done].
      rewrite <-Hb. unfold table_type. rewrite HT. case_decide as Hx; [|done]. destruct Hx as [-> Ht].
      assert (c ∈ owned_records tx t s) as Hc by (apply (lk_both _ _ Hok); [by eexists|done]). unfold record_type in Ha. by rewrite (HG t c Hc) in Ha.
  - intros [A1 A2]. assert (∀ t, table_type s' t tx = None) as N1.
    { intros t. destruct (table_type s' t tx) as [a|] eqn:Ea; [|done]. pose proof (A1 t tx (mk_is_Some _ _ (HT1 _ _ _ Ea))) as Ht.
      unfold table_type in Ea. by rewrite HT, decide_True in Ea by done. }
    assert (∀ t c, record_type s' t c tx = None) as N2.
    { intros t c. destruct (record_type s' t c tx) as [a|] eqn:Ea; [|done]. pose proof (A2 t c tx (mk_is_Some _ _ (HR1 _ _ _ _ Ea))) as Hc.
      unfold record_type in Ea. by rewrite (HG t c Hc) in Ea. }
    split_and!; [constructor|exact N1|exact N2].
    + intros t x. rewrite HO2. destruct (decide (x = tx)) as [->|Hx]; [rewrite N1; by intros []|]. rewrite HT2 by done. auto.
    + intros t c x. rewrite HM2. destruct (decide (x = tx)) as [->|Hx]; [rewrite N2; by intros []|]. rewrite HR2 by done. auto.
Qed.

(** ** The theorems *)

Lemma locks_ok_weaken s : locks_ok false s → locks_ok true s.
Proof.
  intros [H1 H2 H3 H4 H5 H9 H6 H7 H8]. constructor; try done. intros t x y a b Hne Ha Hb. destruct (H6 t x y a b Hne Ha Hb) as [H|[? _]]; [by left|done].
Qed.

(** What the transactions ask of the lock manager. *)
Inductive lock_request := LockTable (tx : Z) (t : str) (d : lockType) | LockItem (tx : Z) (t : str) (c : Z) (d : lockType) | Release (tx : Z).
Definition serve_lock (r : lock_request) : prog locks (list Z) :=
  match r with
  | LockTable tx t d => tryAcquireTableLock tx t d
  | LockItem tx t c d => tryAcquireItemLock tx t c d
  | Release tx => releaseAllLocks tx;; mret []
  end.
(** Records are asked for in the modes of records. *)
Definition sensible (r : lock_request) : Prop := match r with LockItem _ _ _ d => d = READ_LOCK ∨ d = WRITE_LOCK | _ => True end.
Definition falls (r : lock_request) (s : locks) : Prop := match r with LockTable tx t d => falls_through (table_type s t tx) d | _ => False end.

(** States that requests lead to; without [odd] nobody takes the escalation
    that falls through. *)
Inductive lock_step (odd : bool) : locks → locks → Prop :=
| lock_step_intro r s b s' : sensible r → odd = true ∨ ¬ falls r s → serve_lock r s = Ret b s' → lock_step odd s s'.
Lemma no_table_type t x : table_type no_locks t x = None.
Proof. done. Qed.
Lemma no_record_type t c x : record_type no_locks t c x = None.
Proof. done. Qed.
Lemma no_locks_ok odd : locks_ok odd no_locks.
Proof.
  constructor; intros *; rewrite ?no_table_type, ?no_record_type; try done.
  all: intros H; first [by apply elem_of_nil in H|by destruct H].
Qed.
Lemma no_locks_owned : all_owned no_locks.
Proof. constructor; intros *; rewrite ?no_table_type, ?no_record_type; by intros []. Qed.
Lemma requested_owned tx t s d r s' : requested tx t s d r s' → all_owned s → all_owned s'.
Proof.
  unfold requested. destruct (covered _ d); [by intros [_ ->]|]. intros [_ R]. destruct r; [|by subst]. by eapply sets_table_owned.
Qed.
Lemma record_requested_owned tx t c s d r s' : record_requested tx t c s d r s' → all_owned s → all_owned s'.
Proof.
  unfold record_requested. destruct (record_covered _ d); [by intros [_ ->]|]. intros [_ R]. destruct r; [|by subst]. by eapply sets_record_owned.
Qed.
Lemma serve_lock_ok odd r s : locks_ok odd s → sensible r → odd = true ∨ ¬ falls r s →
  ∃ b s', serve_lock r s = Ret b s' ∧ locks_ok odd s' ∧ (all_owned s → all_owned s').
Proof.
  intros Hok Hs Hf. destruct r as [tx t d|tx t c d|tx]; cbn [serve_lock].
  - destruct (table_request_ok odd tx t d s Hok Hf) as (b & s' & E & R & H). exists b, s'. split_and!; [done|done|by eapply requested_owned].
  - destruct (item_request_ok odd tx t c d s Hok Hs) as (b & s' & r1 & s1 & E & H & _ & R1 & R2). exists b, s'. split_and!; [done|done|].
    intros Ho. apply (requested_owned _ _ _ _ _ _ R1) in Ho. destruct r1; [by eapply record_requested_owned|by destruct R2 as [_ ->]].
  - destruct (release_ok odd tx s Hok) as (s' & E & H & _ & _ & Ho). exists [], s'. rewrite (bind_Ret _ _ _ _ _ E). split_and!; [done|done|]. by intros [? _]%Ho.
Qed.
Lemma lock_steps_owned odd s : rtc (lock_step odd) no_locks s → locks_ok odd s ∧ all_owned s.
Proof.
  intros H. apply (rtc_invariant (lock_step odd) (λ s, locks_ok odd s ∧ all_owned s)) with no_locks; [|exact H|split; [apply no_locks_ok|apply no_locks_owned]].
  intros s1 s2 [r s' b s'' Hs Hf E] [Hok Ho]. destruct (serve_lock_ok odd r s' Hok Hs Hf) as (b' & s3 & E' & H3 & H4). split; [congruence|].
  assert (s'' = s3) as -> by congruence. by apply H4.
Qed.
Lemma lock_steps_ok odd s : rtc (lock_step odd) no_locks s → locks_ok odd s.
Proof. by intros [H _]%lock_steps_owned. Qed.

(** C15: Locks on records are safe in every state that requests and releases lead
    to: when a transaction may write a record, no other holds a lock on it; a lock
    on a record comes with its intention on the table; nobody else holds the
    table for writing while there is a lock on one of its records; and every
    request returns. *)
Theorem record_locks_safe s : rtc (lock_step true) no_locks s →
  (∀ t c x y b, x ≠ y → record_type s t c x = Some WRITE_LOCK → record_type s t c y = Some b → False) ∧
  (∀ t c x a, record_type s t c x = Some a → ∃ b, table_type s t x = Some b ∧ covers b (intention a) = true) ∧
  (∀ t c x y a, x ≠ y → record_type s t c x = Some a → table_type s t y ≠ Some WRITE_LOCK) ∧
  (∀ r, sensible r → ∃ b s', serve_lock r s = Ret b s').
Proof.
  intros H%lock_steps_ok. split_and!.
  - intros t c x y b Hne Hx Hy. by destruct (lk_record _ _ H t c x y _ _ Hne Hx Hy).
  - intros t c x a Hx. destruct (lk_intent _ _ H t c x a Hx) as (b & Eb & [-> |[-> Hb]]); by exists b.
  - intros t c x y a Hne Hx Hy. destruct (lk_intent _ _ H t c x a Hx) as (b & Eb & _). destruct (lk_table _ _ H t y x WRITE_LOCK b) as [?|[_ Ho]]; try done.
    unfold odd_pair in Ho. naive_solver.
  - intros r Hr. destruct (serve_lock_ok true r s H Hr ltac:(by left)) as (b & s' & E & _). by exists b, s'.
Qed.

(** Without the escalation that falls through, locks on tables are safe as
    well: no two transactions hold conflicting modes, so while one holds a table
    for reading no other may write any of its records. *)
Theorem table_locks_safe s : rtc (lock_step false) no_locks s →
  (∀ t x y a b, x ≠ y → table_type s t x = Some a → table_type s t y = Some b → conflicts a b = false) ∧
  (∀ t c x y a, x ≠ y → table_type s t x = Some a → covers a READ_LOCK = true → record_type s t c y ≠ Some WRITE_LOCK).
Proof.
  intros H%lock_steps_ok. assert (∀ t x y a b, x ≠ y → table_type s t x = Some a → table_type s t y = Some b → conflicts a b = false) as Hc.
  { intros t x y a b Hne Ha Hb. destruct (lk_table _ _ H t x y a b Hne Ha Hb) as [?|[? _]]; done. }
  split; [exact Hc|]. intros t c x y a Hne Ha Hr Hy. destruct (lk_intent _ _ H t c y _ Hy) as (b & Eb & [?|[_ Hb]]); [done|].
  pose proof (Hc t x y a b Hne Ha Eb) as Hab. by destruct a, b.
Qed.

(** C19: A request for a table is answered as the modes say: it is granted without
    change when the transaction has what it needs, refused with exactly the
    others that hold a conflicting mode, nothing changed, and else granted: the
    transaction then holds a mode that covers the request, all others hold what
    they held. *)
Theorem table_request_exact s tx t d : rtc (lock_step true) no_locks s →
  ∃ r s', tryAcquireTableLock tx t d s = Ret r s' ∧
    (∀ x, x ∈ r ↔ covered (table_type s t tx) d = false ∧ in_the_way tx d (table_locks t s) x) ∧
    (r ≠ [] ∨ covered (table_type s t tx) d = true → s' = s) ∧
    (r = [] → ∃ b, table_type s' t tx = Some b ∧ covers b d = true) ∧
    (∀ t' x, (t', x) ≠ (t, tx) → table_type s' t' x = table_type s t' x) ∧
    (∀ t' c x, record_type s' t' c x = record_type s t' c x).
Proof.
  intros Hok%lock_steps_ok. destruct (table_request_ok true tx t d s Hok ltac:(by left)) as (r & s' & E & R & _). exists r, s'. split; [done|].
  pose proof R as R0. unfold requested in R. change (covered (type <$> table_locks t s !! tx) d) with (covered (table_type s t tx) d) in R.
  destruct (covered (table_type s t tx) d) eqn:Ec.
  - destruct R as [-> ->]. split_and!; try done; [by intros x; split; [intros H%elem_of_nil|intros [? _]]|].
    intros _. by eapply (table_granted true).
  - destruct R as [Er R]. split; [|split; [|split]].
    + intros x. rewrite Er, elem_of_blockers by apply (lk_tkey _ _ Hok). unfold in_the_way. tauto.
    + intros [H|H]; [|done]. by destruct r.
    + intros ->. by eapply (table_granted true).
    + destruct r; [|by subst]. split.
      * intros t' x Hne. rewrite (table_type_set tx t _ s s' R), decide_False by naive_solver. done.
      * intros t' c x. by rewrite (record_type_set tx t _ s s' R).
Qed.

(** The end of a transaction releases all its locks and nobody else's. *)
Theorem release_exact s tx : rtc (lock_step true) no_locks s →
  ∃ s', releaseAllLocks tx s = Ret tt s' ∧
    (∀ t x, table_type s' t x = if decide (x = tx) then None else table_type s t x) ∧
    (∀ t c x, record_type s' t c x = if decide (x = tx) then None else record_type s t c x).
Proof.
  intros [Hok Ho]%lock_steps_owned. destruct (release_ok true tx s Hok) as (s' & E & _ & HT & HR & H). destruct (H Ho) as (_ & NT & NR).
  exists s'. split; [done|]. split; [intros t x|intros t c x]; case_decide as Hx; subst; auto.
Qed.

(** ** The escalation that falls through, and witnesses *)

Definition demo_table : str := [84].
Fixpoint serve_locks (rs : list lock_request) : prog locks (list (list Z)) :=
  match rs with
  | [] => mret []
  | r :: rs' => b ← serve_lock r; bs ← serve_locks rs'; mret (b :: bs)
  end.
(** 1 scans the table; 2 reads a record, scans the table and writes a record. *)
Definition scan_requests : list lock_request :=
  [LockTable 1 demo_table READ_LOCK; LockItem 2 demo_table 7 READ_LOCK; LockTable 2 demo_table READ_LOCK; LockItem 2 demo_table 5 WRITE_LOCK].

(** A scan is not protected against writes.  When two transactions hold a
    table for reading and one of them held the intention to read before, the
    escalation of that one fall through to the mode that also allows writing: all
    requests are granted, and 2 may write a record of the table that 1 holds for
    reading as a whole. *)
Theorem scan_not_protected : ∃ s, serve_locks scan_requests no_locks = Ret [[]; []; []; []] s ∧
  table_type s demo_table 1 = Some READ_LOCK ∧ table_type s demo_table 2 = Some READ_INTENT_WRITE_LOCK ∧
  conflicts READ_LOCK READ_INTENT_WRITE_LOCK = true ∧ record_type s demo_table 5 2 = Some WRITE_LOCK.
Proof. eexists. split; [vm_compute; reflexivity|]. by vm_compute. Qed.

Lemma serve_locks_steps odd rs bs s s' : Forall (λ r, sensible r ∧ ∀ s, ¬ falls r s) rs → serve_locks rs s = Ret bs s' → rtc (lock_step odd) s s'.
Proof.
  intros Hs. revert s bs. induction Hs as [|r rs [Hr Hf] Hrs IH]; intros s bs; cbn [serve_locks]; [by intros [= _ <-]|].
  intros (b & s1 & E1 & (bs' & s2 & E2 & [= _ <-])%bind_Ret_inv)%bind_Ret_inv. eapply rtc_l; [econstructor; [exact Hr|by right|exact E1]|]. by eapply IH.
Qed.

(** 1 reads and writes records, 2 writes another one. *)
Definition demo_lock_requests : list lock_request := [LockItem 1 demo_table 7 READ_LOCK; LockItem 1 demo_table 5 WRITE_LOCK; LockItem 2 demo_table 6 WRITE_LOCK].
Lemma demo_locks : ∃ s, serve_locks demo_lock_requests no_locks = Ret [[]; []; []] s ∧ record_type s demo_table 5 1 = Some WRITE_LOCK ∧
  record_type s demo_table 6 2 = Some WRITE_LOCK ∧ table_type s demo_table 1 = Some INTENT_WRITE_LOCK ∧ table_type s demo_table 2 = Some INTENT_WRITE_LOCK.
Proof. eexists. split; [vm_compute; reflexivity|]. by vm_compute. Qed.
Lemma demo_reached odd : ∃ s, rtc (lock_step odd) no_locks s ∧ record_type s demo_table 5 1 = Some WRITE_LOCK ∧
  record_type s demo_table 6 2 = Some WRITE_LOCK ∧ table_type s demo_table 1 = Some INTENT_WRITE_LOCK ∧ table_type s demo_table 2 = Some INTENT_WRITE_LOCK.
Proof.
  destruct demo_locks as (s & E & H). exists s. split; [|exact H]. eapply serve_locks_steps; [|exact E].
  repeat constructor; first [by left|by right|by intros s' []].
Qed.
Lemma record_locks_safe_witness : ∃ s, record_type s demo_table 5 1 = Some WRITE_LOCK ∧ record_type s demo_table 5 2 = None ∧ table_type s demo_table 2 ≠ Some WRITE_LOCK.
Proof.
  destruct (demo_reached true) as (s & H & H1 & _). destruct (record_locks_safe s H) as (P1 & _ & P3 & _). exists s. split; [done|]. split.
  - destruct (record_type s demo_table 5 2) as [b|] eqn:E; [|done]. by destruct (P1 demo_table 5 1 2 b).
  - by eapply (P3 demo_table 5 1 2).
Defined.
Lemma table_locks_safe_witness : ∃ s, table_type s demo_table 1 = Some INTENT_WRITE_LOCK ∧ conflicts INTENT_WRITE_LOCK INTENT_WRITE_LOCK = false ∧
  ¬ ∃ a, covers a READ_LOCK = true ∧ table_type s demo_table 2 = Some a.
Proof.
  destruct (demo_reached false) as (s & H & H1 & H2 & H3 & H4). destruct (table_locks_safe s H) as [P1 P2]. exists s. split; [done|]. split.
  - by eapply (P1 demo_table 1 2).
  - intros (a & Ha & E). by apply (P2 demo_table 5 2 1 a).
Defined.
Lemma table_request_exact_witness : ∃ s r s', tryAcquireTableLock 2 demo_table READ_LOCK s = Ret r s' ∧ 1 ∈ r ∧ s' = s.
Proof.
  destruct (demo_reached true) as (s & H & H1 & H2 & H3 & H4). destruct (table_request_exact s 2 demo_table READ_LOCK H) as (r & s' & E & Hr & Hs & _).
  assert (1 ∈ r) as H1r.
  { apply Hr. rewrite H4. split; [done|]. split; [done|]. unfold table_type in H3. apply fmap_Some in H3 as (l & El & Hl). exists l. by rewrite <-Hl. }
  exists s, r, s'. split; [done|]. split; [done|]. apply Hs. left. intros ->. by apply elem_of_nil in H1r.
Defined.
Lemma release_exact_witness : ∃ s s', releaseAllLocks 1 s = Ret tt s' ∧ record_type s demo_table 5 1 = Some WRITE_LOCK ∧ record_type s' demo_table 5 1 = None ∧
  record_type s' demo_table 6 2 = Some WRITE_LOCK.
Proof.
  destruct (demo_reached true) as (s & H & H1 & H2 & _). destruct (release_exact s 1 H) as (s' & E & _ & Hr). exists s, s'. rewrite !Hr. by split_and!.
Defined.
