(* ===== verification/Scheduler.v ===== *)
(** * The scheduler of the database

    CS2550/pittRCDB/src/Scheduler.cpp and SchedulerInternal.cpp: commands of
    transactions come in one by one, acquire their locks, run or wait in the
    buffer of their transaction; waiting transactions are retried whenever one
    ends.  What runs a command on the tables is the class [Store]; times,
    statistics and logs are left out, but for the list of operations that are not
    complete, which can make the scheduler fail. *)
From S2P Require Import Prelude Stdio Cxx DiGraph Command LockManager.
Open Scope Z_scope.

(** What Transaction.cpp promises: its operations, and the operations of a
    transaction that have taken effect and can still be undone. *)
Class Store (D : Type) := {
  tx_begin : Z → prog D unit;
  tx_commit : Z → prog D unit;
  tx_abort : Z → prog D unit;
  tx_run : Z → Operation → prog D unit;
  table_exists : str → D → bool;
  pending : D → Z → list Operation
}.
Definition ends {D} `{Store D} (m : Z → prog D unit) : Prop :=
  ∀ tx d d' x, m tx d = Ret tt d' → pending d' x = if decide (x = tx) then [] else pending d x.
Class StoreLaws (D : Type) `{Store D} := {
  pending_begin : ends tx_begin;
  pending_commit : ends tx_commit;
  pending_abort : ends tx_abort;
  pending_run tx op d d' x : tx_run tx op d = Ret tt d' →
    pending d' x = if decide (x = tx) then pending d tx ++ [op] else pending d x
}.

Inductive status := TRANSACTION_RUNNING | TRANSACTION_BLOCKED | TRANSACTION_ABORTED | TRANSACTION_COMMITTED | TRANSACTION_TERMINATED.
#[export] Instance status_eq_dec : EqDecision status.
Proof. solve_decision. Defined.
(** The lists of locks of a transaction are in [locks]. *)
Record transactionInfo := mk_info { executionMode : Z; transactionStatus : status; operationBuffer : list Operation }.

Section scheduler.
Context {D : Type} `{Store D}.

Record sched := mk_sched {
  numCommits : Z; deadlockDetector : digraph; transactions : gmap Z transactionInfo; lk : locks; db : D;
  operationStats : gmap Z (list (Operation * bool))
}.
Definition in_detector {A} : prog digraph A → prog sched A :=
  zoom deadlockDetector (λ g s, mk_sched (numCommits s) g (transactions s) (lk s) (db s) (operationStats s)).
Definition in_locks {A} : prog locks A → prog sched A :=
  zoom lk (λ l s, mk_sched (numCommits s) (deadlockDetector s) (transactions s) l (db s) (operationStats s)).
Definition in_db {A} : prog D A → prog sched A :=
  zoom db (λ d s, mk_sched (numCommits s) (deadlockDetector s) (transactions s) (lk s) d (operationStats s)).
Definition put_transactions (m : gmap Z transactionInfo) (s : sched) : sched :=
  mk_sched (numCommits s) (deadlockDetector s) m (lk s) (db s) (operationStats s).
Definition put_stats (m : gmap Z (list (Operation * bool))) (s : sched) : sched :=
  mk_sched (numCommits s) (deadlockDetector s) (transactions s) (lk s) (db s) m.

(** [transactions[transactionID]]; every use is behind a test that it is there. *)
Definition info (tx : Z) : prog sched transactionInfo := reads (λ s, transactions s !! tx).
Definition with_info (tx : Z) (f : transactionInfo → transactionInfo) : prog sched unit :=
  i ← info tx; modify (λ s, put_transactions (<[tx := f i]> (transactions s)) s).
Definition set_status (tx : Z) (st : status) : prog sched unit := with_info tx (λ i, mk_info (executionMode i) st (operationBuffer i)).
Definition set_buffer (tx : Z) (l : list Operation) : prog sched unit := with_info tx (λ i, mk_info (executionMode i) (transactionStatus i) l).
Definition push_back (tx : Z) (op : Operation) : prog sched unit :=
  with_info tx (λ i, mk_info (executionMode i) (transactionStatus i) (operationBuffer i ++ [op])).
Definition pop_front (tx : Z) : prog sched unit :=
  i ← info tx; match operationBuffer i with [] => undef | _ :: l => set_buffer tx l end.
Definition status_of (tx : Z) (s : sched) : option status := transactionStatus <$> transactions s !! tx.

(** ** Statistics *)

Definition stats_of (tx : Z) (s : sched) : list (Operation * bool) := default [] (operationStats s !! tx).
Definition push_stat (tx : Z) (op : Operation) : prog sched unit :=
  modify (λ s, put_stats (<[tx := stats_of tx s ++ [(op, false)]]> (operationStats s)) s).
Fixpoint complete_first (op : Operation) (l : list (Operation * bool)) : option (list (Operation * bool)) :=
  match l with
  | [] => None
  | (o, b) :: l' => if bool_decide (o = op) && negb b then Some ((o, true) :: l') else l'' ← complete_first op l'; Some ((o, b) :: l'')
  end.
Definition addEndTime (tx : Z) (op : Operation) : prog sched unit :=
  s ← get;
  match complete_first op (stats_of tx s) with
  | Some l => modify (put_stats (<[tx := l]> (operationStats s)))
  | None => throw
  end.
Definition removeFromOperationStat (tx : Z) : prog sched unit :=
  modify (λ s, put_stats (<[tx := List.filter snd (stats_of tx s)]> (operationStats s)) s).

(** ** Running an operation *)

(** Names are cut to eight characters. *)
Definition cut (op : Operation) : Operation :=
  mk_op (operationType op) (tableName op) (coffeeID op) (take 8 (coffeeName op)) (intensity op) (take 8 (countryOfOrigin op)).
Definition execute (tx : Z) (op : Operation) : prog sched unit :=
  (match printOperation op with Some _ => mret tt | None => throw end);;
  (match operationType op with
   | BEGIN =>
       in_db (tx_begin tx);;
       in_locks (modify (put_owned_tables tx []));;
       in_locks (modify (put_owned_map tx ∅));;
       set_buffer tx []
   | COMMIT =>
       in_db (tx_commit tx);;
       set_buffer tx [];;
       in_detector (endTransaction tx);;
       updates (λ s, n ← int_incr (numCommits s); Some (mk_sched n (deadlockDetector s) (transactions s) (lk s) (db s) (operationStats s)))
   | ABORT =>
       in_db (tx_abort tx);;
       set_buffer tx [];;
       in_detector (endTransaction tx)
   | INSERT =>
       if coffeeID op <? 0 then mret tt
       else if intensity op <? 0 then mret tt
       else in_db (tx_run tx (cut op))
   | UPDATE | RETRIEVE_RECORD | RETRIEVE_ENTIRE_TABLE | RETRIEVE_COFFEE_NAME | COUNT | DROP_TABLE => in_db (tx_run tx op)
   | QUIT | INVALID => mret tt
   end);;
  addEndTime tx op.

(** The locks of an operation. *)
Definition acquire (tx : Z) (op : Operation) : prog sched (list Z) :=
  match operationType op with
  | DROP_TABLE => in_locks (tryAcquireTableLock tx (tableName op) WRITE_LOCK)
  | INSERT =>
      s ← get;
      if table_exists (tableName op) (db s) then in_locks (tryAcquireItemLock tx (tableName op) (coffeeID op) WRITE_LOCK)
      else in_locks (tryAcquireTableLock tx (tableName op) WRITE_LOCK)
  | UPDATE => in_locks (tryAcquireItemLock tx (tableName op) (coffeeID op) WRITE_LOCK)
  | RETRIEVE_RECORD => in_locks (tryAcquireItemLock tx (tableName op) (coffeeID op) READ_LOCK)
  | _ => in_locks (tryAcquireTableLock tx (tableName op) READ_LOCK)
  end.
(** Tells the detector whom [tx] waits for; [false] when it refuses one. *)
Fixpoint wait_for_all (tx : Z) (dependencies : list Z) : prog sched bool :=
  match dependencies with
  | [] => mret true
  | waitForTxID :: l =>
      b ← in_detector (waitFor tx waitForTxID);
      if b : bool then wait_for_all tx l else mret false
  end.

Section retry.
Variable tryRunningBlocked : prog sched unit.

Definition prematureAbort (tx : Z) : prog sched unit :=
  in_locks (releaseAllLocks tx);;
  in_detector (endTransaction tx);;
  in_db (tx_abort tx);;
  set_buffer tx [];;
  set_status tx TRANSACTION_ABORTED;;
  tryRunningBlocked;;
  removeFromOperationStat tx.

(** The cases of [scheduleProcess] and [scheduleTransaction] that need locks. *)
Definition run_or_wait (tx : Z) (op : Operation) : prog sched bool :=
  dependencies ← acquire tx op;
  match dependencies with
  | [] => execute tx op;; mret true
  | _ =>
      ok ← wait_for_all tx dependencies;
      if ok : bool then push_back tx op;; set_status tx TRANSACTION_BLOCKED;; mret true
      else prematureAbort tx;; mret false
  end.
Definition scheduleProcess (tx : Z) (op : Operation) : prog sched bool :=
  match operationType op with
  | DROP_TABLE | INSERT | UPDATE => run_or_wait tx op
  | RETRIEVE_ENTIRE_TABLE | RETRIEVE_COFFEE_NAME | COUNT | RETRIEVE_RECORD => execute tx op;; mret true
  | INVALID => throw
  | QUIT | BEGIN | COMMIT | ABORT => mret false
  end.
Definition scheduleTransaction (tx : Z) (op : Operation) : prog sched bool :=
  match operationType op with
  | DROP_TABLE | INSERT | UPDATE | RETRIEVE_RECORD | RETRIEVE_ENTIRE_TABLE | RETRIEVE_COFFEE_NAME | COUNT => run_or_wait tx op
  | INVALID => throw
  | QUIT => mret true
  | BEGIN | COMMIT | ABORT => mret false
  end.

(** One turn of the loop over the buffer of a transaction: whether to go on. *)
Definition blocked_wait (tx : Z) (dependencies : list Z) : prog sched bool :=
  ok ← wait_for_all tx dependencies;
  (if ok : bool then mret tt else prematureAbort tx);;
  set_status tx TRANSACTION_BLOCKED;;
  mret ok.
Definition blocked_op (tx : Z) (op : Operation) : prog sched bool :=
  match operationType op with
  | BEGIN => throw
  | COMMIT => pop_front tx;; execute tx op;; set_status tx TRANSACTION_COMMITTED;; mret false
  | ABORT => pop_front tx;; execute tx op;; set_status tx TRANSACTION_ABORTED;; mret false
  | DROP_TABLE | INSERT | UPDATE =>
      dependencies ← acquire tx op;
      match dependencies with
      | [] => execute tx op;; pop_front tx;; mret true
      | _ => blocked_wait tx dependencies
      end
  | RETRIEVE_RECORD | RETRIEVE_ENTIRE_TABLE | RETRIEVE_COFFEE_NAME | COUNT =>
      dependencies ← acquire tx op;
      match dependencies with
      | [] => pop_front tx;; execute tx op;; mret true
      | _ => blocked_wait tx dependencies;; mret false
      end
  | QUIT | INVALID => mret true
  end.
Fixpoint run_buffer (fuel : nat) (tx : Z) : prog sched unit :=
  match fuel with
  | O => exhausted
  | S fuel' =>
      i ← info tx;
      match operationBuffer i with
      | [] => mret tt
      | op :: _ => canRun ← blocked_op tx op; if canRun : bool then run_buffer fuel' tx else mret tt
      end
  end.
End retry.

Fixpoint tryRunningBlocked (fuel : nat) : prog sched unit :=
  match fuel with
  | O => exhausted
  | S fuel' =>
      s ← get;
      for_each (map_keys (transactions s)) (λ tx,
        i ← info tx;
        if bool_decide (transactionStatus i = TRANSACTION_BLOCKED) then
          set_status tx TRANSACTION_RUNNING;;
          run_buffer (tryRunningBlocked fuel') fuel' tx
        else mret tt)
  end.

(** ** Commands *)

Definition in_string {A} (m : prog str A) (input : str) : prog sched A := λ s,
  match m input with
  | Ret a _ => Ret a s
  | Exited c _ => Exited c s
  | Undef => Undef
  | Fuel => Fuel
  end.
(** The mode of a [B] command. *)
Definition begin_mode : prog str Z := modify c_str;; strtok SPACE;; t ← strtok SPACE; mret (atoi t).

Definition Quit (tx : Z) : prog sched unit :=
  s ← get;
  match status_of tx s with
  | None => throw
  | Some st =>
      (if bool_decide (st = TRANSACTION_ABORTED) || bool_decide (st = TRANSACTION_COMMITTED) then mret tt else in_db (tx_abort tx));;
      set_status tx TRANSACTION_TERMINATED
  end.

Definition schedule (fuel : nat) (tx : Z) (input : str) : prog sched bool :=
  s ← get;
  if bool_decide (status_of tx s = Some TRANSACTION_TERMINATED) then mret false
  else
    op ← in_string parse input;
    match operationType op with
    | BEGIN =>
        if bool_decide (status_of tx s = Some TRANSACTION_RUNNING) || bool_decide (status_of tx s = Some TRANSACTION_BLOCKED) then throw
        else
          push_stat tx op;;
          mode ← in_string begin_mode input;
          modify (λ s, put_transactions (<[tx := mk_info mode TRANSACTION_RUNNING []]> (transactions s)) s);;
          execute tx op;;
          in_detector (addTransaction tx);;
          mret true
    | INVALID => mret false
    | QUIT => Quit tx;; mret true
    | _ =>
        match status_of tx s with
        | None => throw
        | Some (TRANSACTION_ABORTED | TRANSACTION_COMMITTED) => mret false
        | Some st =>
            push_stat tx op;;
            if bool_decide (st = TRANSACTION_BLOCKED) then push_back tx op;; mret true
            else
              match operationType op with
              | COMMIT | ABORT =>
                  execute tx op;;
                  in_locks (releaseAllLocks tx);;
                  in_detector (endTransaction tx);;
                  set_status tx (if bool_decide (operationType op = COMMIT) then TRANSACTION_COMMITTED else TRANSACTION_ABORTED);;
                  tryRunningBlocked fuel;;
                  mret true
              | _ =>
                  i ← info tx;
                  if executionMode i =? 1 then scheduleTransaction (tryRunningBlocked fuel) tx op
                  else if executionMode i =? 0 then scheduleProcess (tryRunningBlocked fuel) tx op
                  else mret false
              end
        end
    end.

Definition checkBlocked (s : sched) : bool := existsb (λ p, bool_decide (transactionStatus p.2 = TRANSACTION_BLOCKED)) (map_entries (transactions s)).
Fixpoint runRemaining (fuel : nat) : prog sched unit :=
  match fuel with
  | O => exhausted
  | S fuel' => s ← get; if checkBlocked s then tryRunningBlocked fuel';; runRemaining fuel' else mret tt
  end.
End scheduler.
Arguments sched : clear implicits.
