(* ===== verification/SchedSpec.v ===== *)
(** * Strict two-phase locking

    What the scheduler of pittRCDB promises for transactions that run together:
    every operation that took effect and may still be undone is covered by a lock
    that its transaction still holds, so that of the clashes between two
    transactions only one can occur, a change to a table that another looks
    through under the modes of the escalation that falls through; and the places
    where the scheduler breaks its other promises: waiting writers that make it
    loop, and ends that keep their locks. *)
From S2P Require Import Prelude Stdio Cxx DiGraph Command LockManager LockSpec Scheduler.
Open Scope Z_scope.

(** ** Locks only grow until they are released *)

Record more (l l' : locks) : Prop := {
  mr_table t x a : table_type l t x = Some a → ∃ b, table_type l' t x = Some b ∧ ∀ d, covers a d = true → covers b d = true;
  mr_record t c x a : record_type l t c x = Some a → ∃ b, record_type l' t c x = Some b ∧ (a = WRITE_LOCK → b = WRITE_LOCK)
}.
#[export] Instance more_preorder : PreOrder more.
Proof.
  split.
  - intros l. constructor; intros; eexists; (split; [done|auto]).
  - intros l1 l2 l3 [T1 R1] [T2 R2]. constructor.
    + intros t x a (b & Hb & Hc)%T1. destruct (T2 t x b Hb) as (b' & Hb' & Hc'). exists b'. auto.
    + intros t c x a (b & Hb & Hc)%R1. destruct (R2 t c x b Hb) as (b' & Hb' & Hc'). exists b'. auto.
Qed.

Lemma request_more odd tx t d l r l' : locks_ok odd l → requested tx t l d r l' → more l l'.
Proof.
  intros Hok R. unfold requested in R. change (covered (type <$> table_locks t l !! tx) d) with (covered (table_type l t tx) d) in R.
  destruct (covered (table_type l t tx) d) eqn:Ec; [by destruct R as [_ ->]|]. destruct R as [_ R]. destruct r; [|by subst]. constructor.
  - intros t' x a Ha. rewrite (table_type_set tx t _ l l' R). case_decide as Hx; [|by exists a]. destruct Hx as [-> ->].
    eexists. split; [done|]. intros d' Hd. change (type <$> table_locks t l !! tx) with (table_type l t tx). rewrite Ha in *. by apply raise_keeps.
  - intros t' c x a Ha. rewrite (record_type_set tx t _ l l' R). by exists a.
Qed.
Lemma record_request_more tx t c d l r l' : d = READ_LOCK ∨ d = WRITE_LOCK → record_requested tx t c l d r l' → more l l'.
Proof.
  intros Hd R. unfold record_requested in R. destruct (record_covered _ d) eqn:Ec; [by destruct R as [_ ->]|]. destruct R as [_ R]. destruct r; [|by subst]. constructor.
  - intros t' x a Ha. rewrite (table_type_kept tx t c _ l l' R). by exists a.
  - intros t' c' x a Ha. rewrite (record_type_new tx t c _ l l' R). case_decide as Hx; [|by exists a]. destruct Hx as (-> & -> & ->).
    exists d. split; [done|]. intros ->. rewrite Ha in Ec. by destruct Hd as [-> | ->].
Qed.
Lemma record_granted odd tx t c d l l' : locks_ok odd l → d = READ_LOCK ∨ d = WRITE_LOCK → record_requested tx t c l d [] l' →
  ∃ b, record_type l' t c tx = Some b ∧ (d = WRITE_LOCK → b = WRITE_LOCK).
Proof.
  intros Hok Hd R. unfold record_requested in R. destruct (record_covered _ d) eqn:Ec.
  - destruct R as [_ ->]. destruct (record_type l t c tx) as [b|]; [|by destruct d]. exists b. split; [done|]. intros ->. by destruct b.
  - destruct R as [_ R]. exists d. split; [|done]. by rewrite (record_type_new tx t c _ l l' R), decide_True.
Qed.

(** The lock an operation needs. *)
Definition holds (l : locks) (tx : Z) (op : Operation) : Prop :=
  match operationType op with
  | INSERT => record_type l (tableName op) (coffeeID op) tx = Some WRITE_LOCK ∨ table_type l (tableName op) tx = Some WRITE_LOCK
  | UPDATE => record_type l (tableName op) (coffeeID op) tx = Some WRITE_LOCK
  | DROP_TABLE => table_type l (tableName op) tx = Some WRITE_LOCK
  | RETRIEVE_RECORD => is_Some (record_type l (tableName op) (coffeeID op) tx)
  | RETRIEVE_ENTIRE_TABLE | RETRIEVE_COFFEE_NAME | COUNT => ∃ b, table_type l (tableName op) tx = Some b ∧ covers b READ_LOCK = true
  | _ => True
  end.
Lemma covers_write b : covers b WRITE_LOCK = true ↔ b = WRITE_LOCK.
Proof. by destruct b. Qed.
Lemma holds_more l l' tx op : holds l tx op → more l l' → holds l' tx op.
Proof.
  intros Hh [T R]. assert (∀ t, table_type l t tx = Some WRITE_LOCK → table_type l' t tx = Some WRITE_LOCK) as Hw.
  { intros t (b & Hb & Hc)%T. specialize (Hc WRITE_LOCK eq_refl). apply covers_write in Hc as ->. done. }
  assert (∀ t c, record_type l t c tx = Some WRITE_LOCK → record_type l' t c tx = Some WRITE_LOCK) as Hr.
  { intros t c (b & Hb & Hc)%R. by rewrite Hb, Hc. }
  unfold holds in *. destruct (operationType op); try done.
  - destruct Hh; [left; by apply Hr|right; by apply Hw].
  - by apply Hr.
  - destruct Hh as [a Ha]. destruct (R _ _ _ _ Ha) as (b & Hb & _). by exists b.
  - destruct Hh as (a & Ha & Hc). destruct (T _ _ _ Ha) as (b & Hb & Hc'). exists b. auto.
  - destruct Hh as (a & Ha & Hc). destruct (T _ _ _ Ha) as (b & Hb & Hc'). exists b. auto.
  - destruct Hh as (a & Ha & Hc). destruct (T _ _ _ Ha) as (b & Hb & Hc'). exists b. auto.
  - by apply Hw.
Qed.

Section scheduler.
Context {D : Type} `{StoreLaws D}.
Implicit Types s : sched D.

Definition mode_of (tx : Z) (s : sched D) : option Z := executionMode <$> transactions s !! tx.
Definition writes (op : Operation) : bool := match operationType op with INSERT | UPDATE | DROP_TABLE => true | _ => false end.
(** Processes read without locks. *)
Definition demands (tx : Z) (op : Operation) (s : sched D) : Prop := writes op = true ∨ mode_of tx s = Some 1.
(** The operations of all transactions but [out] are covered. *)
Record guarded (out : Z → Prop) (s : sched D) : Prop := {
  gd_locks : locks_ok true (lk s);
  gd_holds tx op : ¬ out tx → op ∈ pending (db s) tx → demands tx op s → holds (lk s) tx op
}.
Definition nobody : Z → Prop := λ _, False.

(** *** Commands that touch neither locks nor tables *)

Class Stable (I : sched D → Prop) := stable s s' : I s → lk s' = lk s → db s' = db s → (∀ x, mode_of x s' = mode_of x s) → I s'.
#[export] Instance guarded_stable out : Stable (guarded out).
Proof.
  intros s s' [G1 G2] El Ed Em. constructor; [by rewrite El|]. intros tx op Ho. rewrite Ed, El. intros Hp Hd. apply G2; [done|done|].
  unfold demands in *. by rewrite <-Em.
Qed.
(** [tx] has nothing left to undo. *)
Definition settled (tx : Z) (s : sched D) : Prop := guarded nobody s ∧ pending (db s) tx = [].
#[export] Instance settled_stable tx : Stable (settled tx).
Proof. intros s s' [G E] El Ed Em. split; [by eapply guarded_stable|by rewrite Ed]. Qed.

Section stable.
Context (I : sched D → Prop) `{!Stable I}.
Lemma keeps_detector {A} (m : prog digraph A) : keeps I (in_detector m).
Proof using Type*. intros s G. unfold in_detector, zoom. destruct (m (deadlockDetector s)); cbn; try done. by eapply stable. Qed.
Lemma keeps_with_info tx f : (∀ i, executionMode (f i) = executionMode i) → keeps I (with_info tx f).
Proof using Type*.
  intros Hf s G. unfold with_info, mbind, prog_bind, info, reads. destruct (transactions s !! tx) as [i|] eqn:Ei; [|done]. cbn.
  eapply stable; [exact G|done|done|]. intros x. unfold mode_of. cbn. destruct (decide (x = tx)) as [->|Hx].
  - rewrite lookup_insert_eq, Ei. cbn. by rewrite Hf.
  - by rewrite lookup_insert_ne.
Qed.
Lemma keeps_info tx : keeps I (info tx).
Proof using Type*. apply keeps_reads. Qed.
Lemma keeps_status tx st : keeps I (set_status tx st).
Proof using Type*. by apply keeps_with_info. Qed.
Lemma keeps_set_buffer tx l : keeps I (set_buffer tx l).
Proof using Type*. by apply keeps_with_info. Qed.
Lemma keeps_push_back tx op : keeps I (push_back tx op).
Proof using Type*. by apply keeps_with_info. Qed.
#[local] Hint Resolve keeps_detector keeps_info keeps_status keeps_set_buffer keeps_push_back : frame.
Lemma keeps_pop_front tx : keeps I (pop_front tx).
Proof using Type*. unfold pop_front. keep. Qed.
Lemma keeps_stats f : keeps I (modify (λ s, put_stats (f s) s)).
Proof using Type*. apply keeps_modify. intros s G. by eapply stable. Qed.
Lemma keeps_addEndTime tx op : keeps I (addEndTime tx op).
Proof using Type*. unfold addEndTime. apply keeps_bind; [apply keeps_get|]. intros s0. destruct (complete_first _ _); [|apply keeps_exit]. apply keeps_modify. intros s G. by eapply stable. Qed.
Lemma keeps_push_stat tx op : keeps I (push_stat tx op).
Proof using Type*. apply keeps_stats. Qed.
Lemma keeps_remove_stat tx : keeps I (removeFromOperationStat tx).
Proof using Type*. apply keeps_stats. Qed.
Lemma keeps_wait_for_all tx l : keeps I (wait_for_all tx l).
Proof using Type*. induction l as [|x l IH]; cbn [wait_for_all]; keep. Qed.
Lemma keeps_in_string {A} (m : prog str A) input : keeps I (in_string m input).
Proof using Type*. intros s G. unfold in_string. by destruct (m input). Qed.
End stable.
End scheduler.
#[export] Hint Resolve keeps_detector keeps_info keeps_status keeps_set_buffer keeps_push_back keeps_pop_front keeps_addEndTime keeps_push_stat
  keeps_remove_stat keeps_wait_for_all keeps_in_string : frame.
#[export] Hint Extern 0 (Stable _) => apply _ : frame.

Section scheduler.
Context {D : Type} `{StoreLaws D}.
Implicit Types s : sched D.

(** ** Locks and tables *)

Lemma acquire_holds tx op : hoare false (guarded nobody) (acquire (D:=D) tx op) (λ r s, guarded nobody s ∧ (r = [] → holds (lk s) tx op)).
Proof.
  intros s [G1 G2].
  assert (∀ m : prog locks (list Z), (∀ r l, m (lk s) = Ret r l → locks_ok true l ∧ more (lk s) l ∧ (r = [] → holds l tx op)) →
    post false (λ r s', guarded nobody s' ∧ (r = [] → holds (lk s') tx op)) (in_locks m s)) as Hm.
  { intros m Hm. unfold in_locks, zoom. destruct (m (lk s)) as [r l|c l| |] eqn:Em; try done. destruct (Hm r l eq_refl) as (Hok & Hmore & Hh).
    split; [|exact Hh]. constructor; [exact Hok|]. intros x o Ho Hp Hd. eapply holds_more; [|exact Hmore]. by apply G2. }
  assert (∀ t d, (∀ l, ∀ b, table_type l t tx = Some b → covers b d = true → holds l tx op) →
    post false (λ r s', guarded nobody s' ∧ (r = [] → holds (lk s') tx op)) (in_locks (tryAcquireTableLock tx t d) s)) as Ht.
  { intros t d Hh. apply Hm. intros r l E. destruct (table_request_ok true tx t d (lk s) G1 ltac:(by left)) as (r' & l' & E' & R & Hok').
    rewrite E in E'. injection E' as <- <-. split; [done|]. split; [by eapply request_more|]. intros ->.
    destruct (table_granted true tx t d (lk s) l G1 R) as (b & Hb & Hc). by eapply Hh. }
  assert (∀ t c d, d = READ_LOCK ∨ d = WRITE_LOCK → (∀ l b, record_type l t c tx = Some b → (d = WRITE_LOCK → b = WRITE_LOCK) → holds l tx op) →
    post false (λ r s', guarded nobody s' ∧ (r = [] → holds (lk s') tx op)) (in_locks (tryAcquireItemLock tx t c d) s)) as Hi.
  { intros t c d Hd Hh. apply Hm. intros r l E. destruct (item_request_ok true tx t c d (lk s) G1 Hd) as (r' & l' & r1 & l1 & E' & Hok' & Hok1 & R1 & R2).
    rewrite E in E'. injection E' as <- <-. split; [done|]. destruct r1 as [|y r1].
    - split; [etrans; [by eapply request_more|by eapply record_request_more]|]. intros ->.
      destruct (record_granted true tx t c d l1 l Hok1 Hd R2) as (b & Hb & Hc). by eapply Hh.
    - destruct R2 as [-> ->]. split; [by eapply request_more|done]. }
  unfold acquire. destruct (operationType op) eqn:Eo.
  all: try (apply Ht; intros l b Hb Hc; unfold holds; rewrite Eo; first [done|by exists b]).
  - rewrite (bind_Ret _ _ s s s) by done. destruct (table_exists _ _).
    + apply Hi; [by right|]. intros l b Hb Hc. unfold holds. rewrite Eo. left. by rewrite Hb, Hc.
    + apply Ht. intros l b Hb Hc. unfold holds. rewrite Eo. right. apply covers_write in Hc as ->. done.
  - apply Hi; [by right|]. intros l b Hb Hc. unfold holds. rewrite Eo. by rewrite Hb, Hc.
  - apply Hi; [by left|]. intros l b Hb Hc. unfold holds. rewrite Eo. by exists b.
  - apply Ht. intros l b Hb Hc. unfold holds. rewrite Eo. apply covers_write in Hc as ->. done.
Qed.

(** An operation that is covered takes effect. *)
Lemma run_covered tx op : hoare false (λ s : sched D, guarded nobody s ∧ (demands tx op s → holds (lk s) tx op)) (in_db (tx_run tx op)) (λ _, guarded nobody).
Proof.
  intros s [[G1 G2] Hh]. unfold in_db, zoom. destruct (tx_run tx op (db s)) as [[] d|c d| |] eqn:E; try done. constructor; [exact G1|].
  intros x o Hx. cbn [db]. rewrite (pending_run tx op (db s) d x E). case_decide as Hc; [subst|by apply G2].
  intros [Hp|Hp%list_elem_of_singleton]%elem_of_app Hd; [by apply G2|subst; by apply Hh].
Qed.
(** A transaction ends, or starts anew. *)
Lemma ends_settled out (m : Z → prog D unit) tx : ends m → (∀ x, out x → x = tx) → hoare false (guarded out) (in_db (m tx)) (λ _, settled tx).
Proof.
  intros Hm Ho s [G1 G2]. unfold in_db, zoom. destruct (m tx (db s)) as [[] d|c d| |] eqn:E; try done. pose proof (Hm tx (db s) d) as Hp.
  split; [|cbn; rewrite Hp by done; by rewrite decide_True]. constructor; [exact G1|].
  intros x o Hx. cbn [db]. rewrite Hp by done. case_decide as Hc; [by intros H'%elem_of_nil|]. apply G2. intros Hox. by apply Hc, Ho.
Qed.
Lemma settled_guarded {A} tx (m : prog (sched D) A) : keeps (guarded nobody) m → hoare false (settled tx) m (λ _, guarded nobody).
Proof. intros Hm s [G _]. by apply Hm. Qed.

Definition ordinary (op : Operation) : Prop := operationType op ≠ BEGIN ∧ operationType op ≠ COMMIT ∧ operationType op ≠ ABORT.
Lemma execute_covered tx op : ordinary op →
  hoare false (λ s : sched D, guarded nobody s ∧ (demands tx op s → holds (lk s) tx op)) (execute tx op) (λ _, guarded nobody).
Proof.
  intros (N1 & N2 & N3). unfold execute. apply (hoare_bind _ _ _ _ (λ _ s, guarded nobody s ∧ (demands tx op s → holds (lk s) tx op))).
  { by destruct (printOperation op); intros s Hs. }
  intros []. apply (hoare_bind _ _ _ _ (λ _, guarded nobody)); [|intros []; apply keeps_addEndTime; apply _].
  assert (hoare false (λ s : sched D, guarded nobody s ∧ (demands tx op s → holds (lk s) tx op)) (in_db (tx_run tx (cut op))) (λ _, guarded nobody)) as Hcut.
  { eapply hoare_weaken; [apply (run_covered tx (cut op))|intros s Hs; exact Hs|done]. }
  destruct (operationType op) eqn:Eo; try done; try apply run_covered; try by intros s [G _].
  destruct (_ <? 0); [by intros s [G _]|]. destruct (_ <? 0); [by intros s [G _]|]. exact Hcut.
Qed.
Lemma execute_end tx op : operationType op = COMMIT ∨ operationType op = ABORT → hoare false (guarded nobody) (execute (D:=D) tx op) (λ _, settled tx).
Proof.
  intros Ho. unfold execute. apply (hoare_bind _ _ _ _ (λ _, guarded nobody)); [by destruct (printOperation op); intros s Hs|].
  intros []. apply (hoare_bind _ _ _ _ (λ _, settled tx)); [|intros []; apply keeps_addEndTime; apply _].
  destruct Ho as [-> | ->].
  - eapply hoare_bind; [apply (ends_settled nobody tx_commit tx pending_commit); done|]. intros [].
    apply keeps_bind; [apply keeps_set_buffer; apply _|intros []]. apply keeps_bind; [apply keeps_detector; apply _|intros []].
    apply keeps_updates. intros s s' Hs. destruct (int_incr _); [|done]. intros [= <-]. by eapply stable.
  - eapply hoare_bind; [apply (ends_settled nobody tx_abort tx pending_abort); done|]. intros [].
    apply keeps_bind; [apply keeps_set_buffer; apply _|intros []]. apply keeps_detector; apply _.
Qed.

(** Releasing takes the cover of one transaction away. *)
Lemma holds_released l l' tx x op : (∀ t y, y ≠ tx → table_type l' t y = table_type l t y) →
  (∀ t c y, y ≠ tx → record_type l' t c y = record_type l t c y) → x ≠ tx → holds l x op → holds l' x op.
Proof. intros HT HR Hx. unfold holds. destruct (operationType op); rewrite ?HT, ?HR by done; done. Qed.
Lemma release_guarded tx out : (∀ x, out x → x = tx) → hoare false (guarded out) (in_locks (D:=D) (releaseAllLocks tx)) (λ _, guarded (λ x, x = tx)).
Proof.
  intros Ho s [G1 G2]. unfold in_locks, zoom. destruct (release_ok true tx (lk s) G1) as (l & -> & Hok & HT & HR & _). constructor; [exact Hok|].
  intros x op Hx Hp Hd. eapply (holds_released (lk s) l tx x op HT HR Hx). apply G2; [intros Hox; by apply Hx, Ho|done|done].
Qed.
Lemma release_settled tx : hoare false (settled (D:=D) tx) (in_locks (releaseAllLocks tx)) (λ _, settled tx).
Proof.
  intros s [G E]. pose proof (release_guarded tx nobody ltac:(done) s G) as Hr. unfold in_locks, zoom in *.
  destruct (releaseAllLocks tx (lk s)) as [[] l|c l| |]; try done. destruct Hr as [R1 R2]. split; [|exact E]. constructor; [exact R1|].
  intros x op _ Hp Hd. destruct (decide (x = tx)) as [->|Hx]; [|by apply R2]. cbn [db] in Hp. rewrite E in Hp. by apply elem_of_nil in Hp.
Qed.

Lemma prematureAbort_keeps retry tx : keeps (guarded (D:=D) nobody) retry → keeps (guarded nobody) (prematureAbort retry tx).
Proof.
  intros Hr. unfold prematureAbort. eapply hoare_bind; [by apply (release_guarded tx nobody)|]. intros [].
  eapply hoare_bind; [apply keeps_detector; apply _|]. intros []. eapply hoare_bind; [apply (ends_settled _ tx_abort tx pending_abort); done|]. intros [].
  apply settled_guarded. keep.
Qed.
Lemma prematureAbort_wait retry tx l : keeps (guarded (D:=D) nobody) retry → keeps (guarded nobody) (blocked_wait retry tx l).
Proof. intros Hr. unfold blocked_wait. apply keeps_bind; [apply keeps_wait_for_all; apply _|]. intros []; [keep|]. apply keeps_bind; [by apply prematureAbort_keeps|intros []; keep]. Qed.

Lemma acquire_then {A} tx op (k : list Z → prog (sched D) A) : hoare false (λ s, guarded nobody s ∧ holds (lk s) tx op) (k []) (λ _, guarded nobody) →
  (∀ x l, keeps (guarded nobody) (k (x :: l))) → keeps (guarded nobody) (acquire tx op ≫= k).
Proof.
  intros H1 H2. eapply hoare_bind; [apply acquire_holds|]. intros [|x l].
  - eapply hoare_weaken; [exact H1| |done]. intros s [G Hh]. split; [done|by apply Hh].
  - eapply hoare_weaken; [apply (H2 x l)| |done]. by intros s [G _].
Qed.
Lemma execute_then {A} tx op (k : unit → prog (sched D) A) : ordinary op → (∀ u, keeps (guarded nobody) (k u)) →
  hoare false (λ s, guarded nobody s ∧ holds (lk s) tx op) (execute tx op ≫= k) (λ _, guarded nobody).
Proof.
  intros Ho Hk. eapply hoare_bind; [|apply Hk]. eapply hoare_weaken; [by apply execute_covered| |done]. intros s [G Hh]. done.
Qed.
Lemma run_or_wait_keeps retry tx op : keeps (guarded (D:=D) nobody) retry → ordinary op → keeps (guarded nobody) (run_or_wait retry tx op).
Proof.
  intros Hr Ho. unfold run_or_wait. apply acquire_then; [apply execute_then; [done|intros u; keep]|]. intros x l.
  apply keeps_bind; [apply keeps_wait_for_all; apply _|]. intros []; [keep|]. apply keeps_bind; [by apply prematureAbort_keeps|intros u; keep].
Qed.
Lemma pop_holds tx op : hoare false (λ s : sched D, guarded nobody s ∧ holds (lk s) tx op) (pop_front tx) (λ _ s, guarded nobody s ∧ holds (lk s) tx op).
Proof. apply keeps_pop_front. intros s s' [G Hh] El Ed Em. split; [by eapply guarded_stable|by rewrite El]. Qed.

Lemma blocked_op_keeps retry tx op : keeps (guarded (D:=D) nobody) retry → keeps (guarded nobody) (blocked_op retry tx op).
Proof.
  intros Hr. unfold blocked_op. destruct (operationType op) eqn:Eo; [keep| | |keep|..|keep].
  1-2: apply keeps_bind; [apply keeps_pop_front; apply _|intros []]; eapply hoare_bind; [apply execute_end; rewrite Eo; auto|];
    intros []; apply settled_guarded; keep.
  all: assert (ordinary op) as Hop by (unfold ordinary; rewrite Eo; done).
  all: apply acquire_then; [|intros x l; first [by apply prematureAbort_wait|apply keeps_bind; [by apply prematureAbort_wait|intros u; keep]]].
  1,2,7: apply execute_then; [done|intros u; keep].
  all: eapply hoare_bind; [apply pop_holds|intros []; apply execute_then; [done|intros u; keep]].
Qed.
Lemma run_buffer_keeps retry fuel tx : keeps (guarded (D:=D) nobody) retry → keeps (guarded nobody) (run_buffer retry fuel tx).
Proof.
  intros Hr. induction fuel as [|fuel IH]; cbn [run_buffer]; [apply keeps_fuel|]. apply keeps_bind; [apply keeps_info; apply _|]. intros i.
  destruct (operationBuffer i) as [|op l]; [keep|]. apply keeps_bind; [by apply blocked_op_keeps|]. intros []; [exact IH|keep].
Qed.
Lemma tryRunningBlocked_keeps fuel : keeps (guarded (D:=D) nobody) (tryRunningBlocked fuel).
Proof.
  induction fuel as [|fuel IH]; cbn [tryRunningBlocked]; [apply keeps_fuel|]. apply keeps_bind; [apply keeps_get|]. intros s.
  apply keeps_for_each. intros tx. apply keeps_bind; [apply keeps_info; apply _|]. intros i. destruct (bool_decide _); [|keep].
  apply keeps_bind; [apply keeps_status; apply _|intros u]. by apply run_buffer_keeps.
Qed.

(** ** Commands *)

(** A transaction that begins owns nothing, also where it has locks. *)
Lemma forget_tables odd tx l : locks_ok odd l → locks_ok odd (put_owned_tables tx [] l).
Proof.
  intros [H1 H2 H3 H4 H5 H9 H6 H7 H8]. constructor; try done; intros *; rewrite owned_tables_put; case_decide; try apply H4; try apply H9;
    first [by intros H'%elem_of_nil|by intros _ H'%elem_of_nil].
Qed.
Lemma forget_records odd tx l : owned_tables tx l = [] → locks_ok odd l → locks_ok odd (put_owned_map tx ∅ l).
Proof.
  intros Hn [H1 H2 H3 H4 H5 H9 H6 H7 H8]. constructor; try done; intros *; unfold owned_records; rewrite owned_map_put; case_decide as Hx; subst;
    try apply H5; try apply H9; rewrite ?lookup_empty.
  - by intros H'%elem_of_nil.
  - change (owned_tables tx (put_owned_map tx ∅ l)) with (owned_tables tx l). rewrite Hn. by intros _ H'%elem_of_nil.
Qed.

Lemma execute_begin tx op : operationType op = BEGIN → hoare false (guarded (λ x, x = tx)) (execute (D:=D) tx op) (λ _, guarded nobody).
Proof.
  intros Ho. unfold execute. rewrite Ho. apply (hoare_bind _ _ _ _ (λ _, guarded (λ x, x = tx))).
  { by destruct (printOperation op); intros s Hs. }
  intros []. apply (hoare_bind _ _ _ _ (λ _, guarded nobody)); [|intros []; apply keeps_addEndTime; apply _].
  eapply hoare_bind; [apply (ends_settled (λ x, x = tx) tx_begin tx pending_begin); done|].
  intros []. apply (hoare_bind _ _ _ _ (λ _ s, settled tx s ∧ owned_tables tx (lk s) = [])).
  { intros s [[G1 G2] E]. cbn. split; [split; [|exact E]|by rewrite owned_tables_put, decide_True]. constructor; [by apply forget_tables|exact G2]. }
  intros []. apply (hoare_bind _ _ _ _ (λ _, settled tx)).
  { intros s [[[G1 G2] E] Hn]. cbn. split; [|exact E]. constructor; [by apply forget_records|exact G2]. }
  intros []. apply settled_guarded. keep.
Qed.

Lemma scheduleProcess_keeps retry tx op : keeps (guarded (D:=D) nobody) retry → operationType op ≠ COMMIT ∧ operationType op ≠ ABORT →
  hoare false (λ s, guarded nobody s ∧ mode_of tx s = Some 0) (scheduleProcess retry tx op) (λ _, guarded nobody).
Proof.
  intros Hr [N1 N2]. unfold scheduleProcess.
  assert (∀ op', operationType op' = operationType op → ordinary op' → writes op' = false →
    hoare false (λ s : sched D, guarded nobody s ∧ mode_of tx s = Some 0) (execute tx op';; mret true) (λ _, guarded nobody)) as Hread.
  { intros op' _ Hop Hw. eapply hoare_bind; [|intros u; apply keeps_ret]. eapply hoare_weaken; [by apply execute_covered| |done].
    intros s [G Hm]. split; [done|]. intros [Hd|Hd]; congruence. }
  destruct (operationType op) eqn:Eo; try done; try (by intros s [G _]);
    assert (ordinary op) as Hop by (unfold ordinary; rewrite Eo; done); try (apply Hread; [done|done|unfold writes; by rewrite Eo]);
    (eapply hoare_weaken; [by apply run_or_wait_keeps|by intros s [G _]|done]).
Qed.
Lemma scheduleTransaction_keeps retry tx op : keeps (guarded (D:=D) nobody) retry → keeps (guarded nobody) (scheduleTransaction retry tx op).
Proof.
  intros Hr. unfold scheduleTransaction. destruct (operationType op) eqn:Eo; try (by keep);
    (apply run_or_wait_keeps; [done|unfold ordinary; by rewrite Eo]).
Qed.

Lemma dispatch_keeps fuel tx op : operationType op ≠ COMMIT ∧ operationType op ≠ ABORT → keeps (guarded (D:=D) nobody)
  (i ← info tx;
   if executionMode i =? 1 then scheduleTransaction (tryRunningBlocked fuel) tx op
   else if executionMode i =? 0 then scheduleProcess (tryRunningBlocked fuel) tx op
   else mret false).
Proof.
  intros Hop s G. unfold mbind, prog_bind, info, reads. destruct (transactions s !! tx) as [i|] eqn:Ei; [|done].
  destruct (Z.eqb_spec (executionMode i) 1); [by apply scheduleTransaction_keeps; [apply tryRunningBlocked_keeps|]|].
  destruct (Z.eqb_spec (executionMode i) 0) as [E0|]; [|done]. apply scheduleProcess_keeps; [apply tryRunningBlocked_keeps|done|].
  split; [done|]. unfold mode_of. rewrite Ei. cbn. by rewrite E0.
Qed.
Lemma end_keeps fuel tx op st : operationType op = COMMIT ∨ operationType op = ABORT → keeps (guarded (D:=D) nobody)
  (execute tx op;; in_locks (releaseAllLocks tx);; in_detector (endTransaction tx);; set_status tx st;; tryRunningBlocked fuel;; mret true).
Proof.
  intros Ho. eapply hoare_bind; [by apply execute_end|]. intros []. eapply hoare_bind; [apply release_settled|]. intros [].
  apply settled_guarded. pose proof (tryRunningBlocked_keeps fuel) as Ht. keep.
Qed.
Lemma Quit_keeps tx : keeps (guarded (D:=D) nobody) (Quit tx).
Proof.
  unfold Quit. apply keeps_bind; [apply keeps_get|]. intros s. destruct (status_of tx s) as [st|]; [|keep].
  destruct (_ || _); [keep|]. eapply hoare_bind; [apply (ends_settled nobody tx_abort tx pending_abort); done|]. intros []. apply settled_guarded. keep.
Qed.
(** Whether a command is taken at all. *)
Lemma taken_keeps tx op (k : prog (sched D) bool) o : keeps (guarded nobody) k → keeps (guarded nobody)
  (match o with
   | None => throw
   | Some (TRANSACTION_ABORTED | TRANSACTION_COMMITTED) => mret false
   | Some st => push_stat tx op;; if bool_decide (st = TRANSACTION_BLOCKED) then push_back tx op;; mret true else k
   end).
Proof. intros Hk. destruct o as [[]|]; cbn; keep. Qed.

Lemma schedule_keeps fuel tx input : keeps (guarded (D:=D) nobody) (schedule fuel tx input).
Proof.
  intros s G. unfold schedule. rewrite (bind_Ret _ _ s s s) by done. destruct (bool_decide _); [done|].
  destruct (parse input) as [op r|c r| |] eqn:Ep; [|unfold mbind, prog_bind, in_string; by rewrite Ep..].
  rewrite (bind_Ret (in_string parse input) _ s op s) by (unfold in_string; by rewrite Ep).
  destruct (operationType op) eqn:Eo; try (by (apply (taken_keeps tx op); [apply dispatch_keeps; by rewrite Eo|done])); [| | | |done].
  - destruct (_ || _); [done|].
    apply (hoare_bind false _ _ (guarded nobody) (λ _, guarded nobody) (λ _, guarded nobody)); [apply keeps_push_stat; apply _| |done].
    intros []. apply (hoare_bind _ _ _ _ (λ _, guarded nobody)); [apply keeps_in_string; apply _|]. intros mode.
    apply (hoare_bind _ _ _ _ (λ _, guarded (λ x, x = tx))).
    { intros s1 [G1 G2]. constructor; [exact G1|]. intros x o Hx Hp Hd. apply G2; [by intros []|exact Hp|].
      destruct Hd as [Hd|Hd]; [by left|right]. unfold mode_of in *. cbn in Hd. by rewrite lookup_insert_ne in Hd. }
    intros []. eapply hoare_bind; [by apply execute_begin|]. intros u. keep.
  - apply (taken_keeps tx op); [|done]. eapply end_keeps. by left.
  - apply (taken_keeps tx op); [|done]. eapply end_keeps. by right.
  - apply (keeps_bind _ (Quit tx)); [apply Quit_keeps|intros u; keep|done].
Qed.
End scheduler.

(** ** The theorems *)

Section theorems.
Context {D : Type} `{StoreLaws D}.
Implicit Types s : sched D.

Definition empty_sched (d : D) : sched D := mk_sched 0 DiGraph ∅ no_locks d ∅.
(** A command that comes to an end. *)
Inductive command_step : sched D → sched D → Prop :=
| command_step_intro fuel tx input b s s' : schedule fuel tx input s = Ret b s' → command_step s s'.

Definition on_record (op : Operation) : bool := match operationType op with INSERT | UPDATE | RETRIEVE_RECORD => true | _ => false end.
Definition drops (op : Operation) : bool := bool_decide (operationType op = DROP_TABLE).
Definition on_table (op : Operation) : bool :=
  match operationType op with INSERT | UPDATE | RETRIEVE_RECORD | RETRIEVE_ENTIRE_TABLE | RETRIEVE_COFFEE_NAME | COUNT | DROP_TABLE => true | _ => false end.
(** A look at the whole table. *)
Definition scans (op : Operation) : bool := match operationType op with RETRIEVE_ENTIRE_TABLE | RETRIEVE_COFFEE_NAME | COUNT => true | _ => false end.
(** A change of one record. *)
Definition changes (op : Operation) : bool := match operationType op with INSERT | UPDATE => true | _ => false end.
(** Operations that should not be pending at the same time in two transactions:
    one writes the record that the other reads or writes, one changes a record of
    the table that the other looks through, or one drops the table of the other. *)
Definition clash (o o' : Operation) : Prop :=
  tableName o = tableName o' ∧
  ((on_record o = true ∧ on_record o' = true ∧ coffeeID o = coffeeID o' ∧ (writes o = true ∨ writes o' = true)) ∨
   (scans o = true ∧ changes o' = true) ∨ (changes o = true ∧ scans o' = true) ∨
   (drops o = true ∧ on_table o' = true) ∨ (on_table o = true ∧ drops o' = true)).
(** The one clash that occurs: [x] looks through the table and [y] changes a
    record of it, under the two modes that the escalation which falls through
    lets in together. *)
Definition let_in (l : locks) (x : Z) (ox : Operation) (y : Z) (oy : Operation) : Prop :=
  scans ox = true ∧ changes oy = true ∧
  table_type l (tableName ox) x = Some READ_LOCK ∧ table_type l (tableName ox) y = Some READ_INTENT_WRITE_LOCK.

Lemma holds_table l tx op : locks_ok true l → holds l tx op → on_table op = true → is_Some (table_type l (tableName op) tx).
Proof.
  intros Hok. unfold holds, on_table. assert (∀ t c a, record_type l t c tx = Some a → is_Some (table_type l t tx)) as Hr.
  { intros t c a (b & Hb & _)%(lk_intent _ _ Hok). by exists b. }
  destruct (operationType op); try done.
  - intros [Hh|Hh] _; [by eapply Hr|by eexists].
  - intros Hh _. by eapply Hr.
  - intros [a Ha] _. by eapply Hr.
  - intros (b & Hb & _) _. by eexists.
  - intros (b & Hb & _) _. by eexists.
  - intros (b & Hb & _) _. by eexists.
Qed.
Lemma table_write_alone l t x y : locks_ok true l → x ≠ y → table_type l t x = Some WRITE_LOCK → is_Some (table_type l t y) → False.
Proof.
  intros Hok Hne Hx [b Hy]. destruct (lk_table _ _ Hok t x y _ b Hne Hx Hy) as [?|[_ Ho]]; [done|]. unfold odd_pair in Ho. naive_solver.
Qed.
Lemma on_record_lock l tx op : holds l tx op → on_record op = true →
  table_type l (tableName op) tx = Some WRITE_LOCK ∨ ∃ a, record_type l (tableName op) (coffeeID op) tx = Some a ∧ (writes op = true → a = WRITE_LOCK).
Proof.
  unfold holds, on_record, writes. destruct (operationType op); try done.
  - intros [Hh|Hh] _; [right; by eexists|by left].
  - intros Hh _. right. by eexists.
  - intros [a Ha] _. right. by exists a.
Qed.
Lemma scan_change l x y ox oy : locks_ok true l → x ≠ y → holds l x ox → holds l y oy → tableName ox = tableName oy →
  scans ox = true → changes oy = true → let_in l x ox y oy.
Proof.
  intros Hok Hne Hx Hy Et Sx Cy. unfold let_in. do 2 (split; [done|]).
  assert (∃ a, table_type l (tableName ox) x = Some a ∧ covers a READ_LOCK = true) as (a & Ea & Ha).
  { unfold holds, scans in *. destruct (operationType ox); done. }
  assert (∃ b, table_type l (tableName ox) y = Some b ∧ covers b INTENT_WRITE_LOCK = true) as (b & Eb & Hb).
  { assert (on_record oy = true ∧ writes oy = true) as [Ry Wy] by (unfold changes, on_record, writes in *; destruct (operationType oy); done).
    rewrite Et. destruct (on_record_lock l y oy Hy Ry) as [->|(b & Hb & Wb)]; [by exists WRITE_LOCK|].
    rewrite (Wb Wy) in Hb. destruct (lk_intent _ _ Hok _ _ _ _ Hb) as (b' & -> & [?|[_ ?]]); [done|by exists b']. }
  destruct (lk_table _ _ Hok _ x y a b Hne Ea Eb) as [Hc|[_ Ho]]; [by destruct a, b|].
  destruct Ho as [[-> ->]|[-> ->]]; [done|by destruct Hb].
Qed.
Lemma drop_alone l x y ox oy : locks_ok true l → x ≠ y → holds l x ox → holds l y oy → tableName ox = tableName oy →
  drops ox = true → on_table oy = true → False.
Proof.
  intros Hok Hne Hx Hy Et Dx Ty. unfold drops in Dx. apply bool_decide_eq_true in Dx. unfold holds in Hx. rewrite Dx in Hx.
  eapply (table_write_alone l (tableName ox) x y); [done|done|done|]. rewrite Et. by apply holds_table.
Qed.
Lemma record_write_alone l x y ox oy : locks_ok true l → x ≠ y → holds l x ox → holds l y oy → tableName ox = tableName oy →
  on_record ox = true → on_record oy = true → coffeeID ox = coffeeID oy → writes ox = true ∨ writes oy = true → False.
Proof.
  intros Hok Hne Hx Hy Et Rx Ry Ec Hw.
  pose proof (holds_table l x ox Hok Hx) as Tx. pose proof (holds_table l y oy Hok Hy) as Ty.
  assert (on_table ox = true) as Ox by (unfold on_table, on_record in *; by destruct (operationType ox)).
  assert (on_table oy = true) as Oy by (unfold on_table, on_record in *; by destruct (operationType oy)).
  specialize (Tx Ox). specialize (Ty Oy). destruct (on_record_lock l x ox Hx Rx) as [Wx|(a & Ha & Wa)].
  { eapply (table_write_alone l (tableName ox) x y); [done|done|done|]. by rewrite Et. }
  destruct (on_record_lock l y oy Hy Ry) as [Wy|(b & Hb & Wb)].
  { eapply (table_write_alone l (tableName oy) y x); [done|done|done|]. by rewrite <-Et. }
  rewrite <-Et, <-Ec in Hb. destruct (lk_record _ _ Hok _ _ x y a b Hne Ha Hb) as [-> ->]. destruct Hw as [Hw|Hw]; [by apply Wa in Hw|by apply Wb in Hw].
Qed.
Lemma only_clash l x y ox oy : locks_ok true l → x ≠ y → holds l x ox → holds l y oy → clash ox oy → let_in l x ox y oy ∨ let_in l y oy x ox.
Proof.
  intros Hok Hne Hx Hy (Et & [(Rx & Ry & Ec & Hw)|[[Sx Cy]|[[Cx Sy]|[[Dx Ty]|[Tx Dy]]]]]).
  - exfalso. by eapply (record_write_alone l x y ox oy).
  - left. by apply scan_change.
  - right. by apply scan_change.
  - exfalso. by eapply (drop_alone l x y ox oy).
  - exfalso. by eapply (drop_alone l y x oy ox).
Qed.
Lemma start_guarded d : (∀ x, pending d x = []) → guarded nobody (empty_sched d).
Proof. intros Hp. constructor; [apply no_locks_ok|]. intros tx op _. cbn [db empty_sched]. rewrite Hp. by intros H'%elem_of_nil. Qed.
Lemma command_steps_guarded s s' : rtc command_step s s' → guarded nobody s → guarded nobody s'.
Proof.
  intros Hr. apply (rtc_invariant command_step (guarded nobody)); [|exact Hr]. intros s1 s2 [fuel tx input b s3 s4 E] G.
  pose proof (schedule_keeps fuel tx input s3 G) as Hk. by rewrite E in Hk.
Qed.

(** C12: Locking is strict and in two phases, but for one gap.  In every state
    that commands lead to, also when transactions begin under numbers that still
    have locks, an operation that took effect and can still be undone is covered
    by a lock its transaction holds, where processes read without locks, so that
    their reads are not among these operations.  And of two such operations of
    different transactions none writes the record that the other has read or
    written, by its number, none drops the table that the other has used, and none
    changes a record of the table that the other has looked through, unless the
    latter holds READ_LOCK and the former READ_INTENT_WRITE_LOCK on the table: the
    pair of modes that the escalation which falls through lets in together. *)
Theorem strict_two_phase d s : (∀ x, pending d x = []) → rtc command_step (empty_sched d) s →
  (∀ x op, op ∈ pending (db s) x → demands x op s → holds (lk s) x op) ∧
  (∀ x y ox oy, x ≠ y → ox ∈ pending (db s) x → oy ∈ pending (db s) y → demands x ox s → demands y oy s →
    clash ox oy → let_in (lk s) x ox y oy ∨ let_in (lk s) y oy x ox).
Proof.
  intros Hp Hr. destruct (command_steps_guarded _ _ Hr (start_guarded d Hp)) as [G1 G2]. split.
  - intros x op Ho Hd. apply G2; [by intros []|done|done].
  - intros x y ox oy Hne Hx Hy Dx Dy. apply only_clash; [done|done|apply G2|apply G2]; try done; by intros [].
Qed.

(** *** Waiting writers *)

(** [op] of [tx] is refused, and those in the way are known to the detector. *)
Definition refused (tx : Z) (op : Operation) (s : sched D) : Prop := ∃ x l, ∀ s', lk s' = lk s → db s' = db s → deadlockDetector s' = deadlockDetector s →
  acquire tx op s' = Ret (x :: l) s' ∧ wait_for_all tx (x :: l) s' = Ret true s'.

(** The loop over the buffer: the case for these operations does not leave it. *)
Lemma run_buffer_loops retry tx i op l s : transactions s !! tx = Some i → operationBuffer i = op :: l → writes op = true → refused tx op s →
  ∀ fuel, run_buffer retry fuel tx s = Fuel.
Proof.
  intros Hi Hbuf Hw (x & ds & Hr) fuel. revert i s Hi Hbuf Hr. induction fuel as [|fuel IH]; intros i s Hi Hbuf Hr; [done|]. cbn [run_buffer].
  rewrite (bind_Ret _ _ s i s) by by apply reads_Some. rewrite Hbuf. destruct (Hr s eq_refl eq_refl eq_refl) as [Ea Ew].
  set (s' := put_transactions (<[tx := mk_info (executionMode i) TRANSACTION_BLOCKED (operationBuffer i)]> (transactions s)) s).
  assert (blocked_wait retry tx (x :: ds) s = Ret true s') as Eb.
  { unfold blocked_wait. rewrite (bind_Ret _ _ _ _ _ Ew). unfold set_status, with_info. rewrite (bind_Ret _ _ s tt s) by done.
    rewrite (bind_Ret _ _ s tt s'); [done|]. by rewrite (bind_Ret _ _ s i s) by by apply reads_Some. }
  assert (blocked_op retry tx op s = Ret true s') as Ebo.
  { unfold blocked_op, writes in *. destruct (operationType op); try done; by rewrite (bind_Ret _ _ _ _ _ Ea). }
  rewrite (bind_Ret _ _ _ _ _ Ebo). eapply (IH (mk_info (executionMode i) TRANSACTION_BLOCKED (operationBuffer i)) s'); [apply lookup_insert_eq|exact Hbuf|].
  intros s2 E1 E2 E3. by apply Hr.
Qed.

(** C30: A transaction that waits to write makes the scheduler loop.  When one
    transaction is blocked and the first operation in its buffer is an insertion,
    an update or a drop that is still refused, [tryRunningBlocked], which every
    end of a transaction calls, does not come back, whatever the fuel. *)
Theorem waiting_writer_loops tx i op l s : transactions s !! tx = Some i → transactionStatus i = TRANSACTION_BLOCKED →
  (∀ y j, transactions s !! y = Some j → transactionStatus j = TRANSACTION_BLOCKED → y = tx) →
  operationBuffer i = op :: l → writes op = true → refused tx op s → ∀ fuel, tryRunningBlocked fuel s = Fuel.
Proof.
  intros Hi Hst Hone Hbuf Hw Hr [|fuel]; [done|]. cbn [tryRunningBlocked]. rewrite (bind_Ret _ _ s s s) by done.
  assert (tx ∈ map_keys (transactions s)) as Hin by (apply elem_of_keys; by eexists).
  assert (∀ y, y ∈ map_keys (transactions s) → is_Some (transactions s !! y)) as Hkeys by (intros y; by rewrite elem_of_keys).
  revert Hin Hkeys. induction (map_keys (transactions s)) as [|y ks IH]; intros Hin Hkeys; [by apply elem_of_nil in Hin|]. cbn [for_each].
  destruct (Hkeys y ltac:(left)) as [j Hj]. unfold mbind at 1, prog_bind at 1. rewrite (bind_Ret _ _ s j s) by by apply reads_Some.
  destruct (decide (y = tx)) as [->|Hne].
  - rewrite Hi in Hj. injection Hj as <-. rewrite Hst, bool_decide_true by done.
    set (s' := put_transactions (<[tx := mk_info (executionMode i) TRANSACTION_RUNNING (operationBuffer i)]> (transactions s)) s).
    assert (set_status tx TRANSACTION_RUNNING s = Ret tt s') as Es.
    { unfold set_status, with_info. by rewrite (bind_Ret _ _ s i s) by by apply reads_Some. }
    rewrite (bind_Ret _ _ _ _ _ Es).
    by rewrite (run_buffer_loops (tryRunningBlocked fuel) tx (mk_info (executionMode i) TRANSACTION_RUNNING (operationBuffer i)) op l s'
      (lookup_insert_eq _ _ _) Hbuf Hw Hr).
  - rewrite bool_decide_false by (intros Hb; by apply Hne, (Hone y j)). cbn. apply IH; [by apply elem_of_cons in Hin as [?|?]|]. intros z Hz. apply Hkeys. by right.
Qed.

(** *** Ends that keep their locks *)

Definition locked (l : locks) (s : sched D) : Prop := lk s = l.
#[export] Instance locked_stable l : Stable (locked l).
Proof. intros s s' Hs El _ _. unfold locked in *. by rewrite El. Qed.
Lemma keeps_db {A} l (m : prog D A) : keeps (locked l) (in_db m).
Proof. intros s Hs. unfold in_db, zoom. by destruct (m (db s)). Qed.
Lemma keeps_commits l f : keeps (locked l) (updates (λ s, n ← f s; Some (mk_sched n (deadlockDetector s) (transactions s) (lk s) (db s) (operationStats s)))).
Proof. apply keeps_updates. intros s s' Hs. destruct (f s); [|done]. by intros [= <-]. Qed.
Lemma commit_locked l tx op : operationType op = COMMIT → keeps (locked l) (execute tx op).
Proof.
  intros Ho. unfold execute. rewrite Ho. apply keeps_bind; [destruct (printOperation op); [apply keeps_ret|apply keeps_exit]|intros u1].
  apply keeps_bind; [|intros u2; apply keeps_addEndTime; apply _]. apply keeps_bind; [apply keeps_db|intros u3].
  apply keeps_bind; [apply keeps_set_buffer; apply _|intros u4]. apply keeps_bind; [apply keeps_detector; apply _|intros u5]. apply keeps_commits.
Qed.
Lemma set_status_Ret tx st s s' : set_status tx st s = Ret tt s' → lk s' = lk s ∧ status_of tx s' = Some st.
Proof.
  unfold set_status, with_info. intros (i & s1 & E & E')%bind_Ret_inv. unfold info, reads in E. destruct (transactions s !! tx); [|done]. injection E as <- <-.
  injection E' as <-. split; [done|]. unfold status_of. cbn. by rewrite lookup_insert_eq.
Qed.

(** A commit that waited in the buffer ends its transaction without releasing
    its locks, and so does quitting: the transaction counts as committed or
    terminated, and the locks of everybody are what they were. *)
Theorem ends_with_locks tx s :
  (∀ retry op b s', operationType op = COMMIT → blocked_op retry tx op s = Ret b s' → lk s' = lk s ∧ status_of tx s' = Some TRANSACTION_COMMITTED) ∧
  (∀ s', Quit tx s = Ret tt s' → lk s' = lk s ∧ status_of tx s' = Some TRANSACTION_TERMINATED).
Proof.
  split.
  - intros retry op b s' Ho. unfold blocked_op. rewrite Ho. intros (u1 & s1 & E1 & (u2 & s2 & E2 & (u3 & s3 & E3 & [= _ <-])%bind_Ret_inv)%bind_Ret_inv)%bind_Ret_inv.
    apply (keeps_Ret (locked (lk s))) in E1; [|apply keeps_pop_front; apply _|done].
    apply (keeps_Ret (locked (lk s))) in E2; [|by apply commit_locked|done]. destruct u3. apply set_status_Ret in E3 as [E3 ->]. by rewrite E3.
  - intros s'. unfold Quit. rewrite (bind_Ret _ _ s s s) by done. destruct (status_of tx s) as [st|]; [|done].
    intros (u1 & s1 & E1 & E2)%bind_Ret_inv. apply set_status_Ret in E2 as [E2 ->]. rewrite E2. split; [|done].
    apply (keeps_Ret (locked (lk s))) in E1; [done| |done]. destruct (_ || _); [apply keeps_ret|apply keeps_db].
Qed.
End theorems.

(** ** Witnesses *)

(** A store that only keeps the operations, in which every table is there. *)
#[export] Instance log_store : Store (gmap Z (list Operation)) := {
  tx_begin tx := modify (<[tx := []]>);
  tx_commit tx := modify (<[tx := []]>);
  tx_abort tx := modify (<[tx := []]>);
  tx_run tx op := modify (λ d, <[tx := default [] (d !! tx) ++ [op]]> d);
  table_exists _ _ := true;
  pending d tx := default [] (d !! tx)
}.
Lemma log_ends (tx x : Z) (d : gmap Z (list Operation)) : default [] (<[tx := []]> d !! x : option (list Operation)) = if decide (x = tx) then [] else default [] (d !! x).
Proof. case_decide; [subst; by rewrite lookup_insert_eq|by rewrite lookup_insert_ne]. Qed.
#[export] Instance log_store_laws : StoreLaws (gmap Z (list Operation)).
Proof.
  split; [intros tx d d' x [= <-]; apply log_ends..|]. intros tx op d d' x [= <-]. cbn. case_decide; [subst; by rewrite lookup_insert_eq|by rewrite lookup_insert_ne].
Qed.

Fixpoint run_commands (fuel : nat) (cs : list (Z * str)) : prog (sched (gmap Z (list Operation))) (list bool) :=
  match cs with
  | [] => mret []
  | (tx, c) :: cs' => b ← schedule fuel tx c; bs ← run_commands fuel cs'; mret (b :: bs)
  end.
(** "B 1", "C", "Q", "U T 5 1", "U T 6 1", "R T 5" *)
Definition cmd_begin : str := [66; 32; 49].
Definition cmd_commit : str := [67].
Definition cmd_quit : str := [81].
Definition cmd_update (id : Z) : str := [85; 32; 84; 32; 48 + id; 32; 49].
Definition cmd_read (id : Z) : str := [82; 32; 84; 32; 48 + id].

(** Nothing has begun, in an empty store. *)
Definition demo_start : sched (gmap Z (list Operation)) := empty_sched ∅.
Definition state_after (fuel : nat) (cs : list (Z * str)) : sched (gmap Z (list Operation)) :=
  match run_commands fuel cs demo_start with Ret _ s => s | _ => demo_start end.

Lemma run_commands_steps fuel cs bs s s' : run_commands fuel cs s = Ret bs s' → rtc command_step s s'.
Proof.
  revert s bs. induction cs as [|[tx c] cs IH]; intros s bs; cbn [run_commands]; [by intros [= _ <-]|].
  intros (b & s1 & E1 & (bs' & s2 & E2 & [= _ <-])%bind_Ret_inv)%bind_Ret_inv.
  eapply rtc_l; [econstructor; exact E1|]. by eapply IH.
Qed.
Lemma state_after_steps fuel cs : (if run_commands fuel cs demo_start is Ret _ _ then true else false) = true → rtc command_step demo_start (state_after fuel cs).
Proof. unfold state_after. destruct (run_commands fuel cs demo_start) eqn:E; try done. intros _. by eapply run_commands_steps. Qed.
Definition demo_begun : list (Z * str) := [(0, cmd_begin); (1, cmd_begin)].
Definition demo_rest : list (Z * str) := [(0, cmd_update 5); (1, cmd_update 6); (1, cmd_read 5)].
Definition demo_state : sched (gmap Z (list Operation)) := state_after 9 (demo_begun ++ demo_rest).
Definition update_5 : Operation := mk_op UPDATE [84] 5 [] 1 [].
Definition update_6 : Operation := mk_op UPDATE [84] 6 [] 1 [].
(** The commit of 1 waits in the buffer, so that its lock stays; then 1 begins
    again. *)
Definition demo_again : sched (gmap Z (list Operation)) :=
  state_after 9 (demo_begun ++ [(0, cmd_update 5); (1, cmd_read 5); (1, cmd_commit); (0, cmd_commit); (1, cmd_begin); (1, cmd_update 6)]).
Lemma strict_two_phase_witness :
  holds (lk demo_state) 0 update_5 ∧ ¬ clash update_5 update_6 ∧
  record_type (lk demo_again) [84] 5 1 = Some READ_LOCK ∧ owned_records 1 [84] (lk demo_again) = [6] ∧ holds (lk demo_again) 1 update_6.
Proof.
  destruct (strict_two_phase ∅ demo_state) as [H1 H2]; [by intros x|by apply state_after_steps; vm_compute|].
  destruct (strict_two_phase ∅ demo_again) as [H3 _]; [by intros x|by apply state_after_steps; vm_compute|].
  assert (update_5 ∈ pending (db demo_state) 0) as P5 by (vm_compute; left). assert (update_6 ∈ pending (db demo_state) 1) as P6 by (vm_compute; left).
  split; [apply H1; [exact P5|by left]|]. split.
  - intros Hc. destruct (H2 0 1 update_5 update_6 ltac:(done) P5 P6 ltac:(by left) ltac:(by left) Hc) as [(H & _)|(H & _)]; discriminate H.
  - split; [vm_compute; reflexivity|]. split; [vm_compute; reflexivity|]. apply H3; [vm_compute; left|by left].
Defined.

(** "T T" *)
Definition cmd_scan : str := [84; 32; 84].
Definition scan_T : Operation := mk_op RETRIEVE_ENTIRE_TABLE [84] 0 [] 0 [].
(** The gap is there: 0 looks through the table, 1 reads a record, looks through
    the table and changes a record, and nobody waits. *)
Lemma scanned_and_changed : ∃ s, rtc command_step demo_start s ∧ clash scan_T update_5 ∧
  scan_T ∈ pending (db s) 0 ∧ update_5 ∈ pending (db s) 1 ∧ demands 0 scan_T s ∧ demands 1 update_5 s.
Proof.
  exists (state_after 9 (demo_begun ++ [(0, cmd_scan); (1, cmd_read 6); (1, cmd_scan); (1, cmd_update 5)])). split_and!.
  - by apply state_after_steps; vm_compute.
  - split; [done|]. right. by left.
  - vm_compute. left.
  - vm_compute. do 2 right. left.
  - right. by vm_compute.
  - by left.
Qed.

(** 1 waits to update what 0 has updated. *)
Definition demo_loop : sched (gmap Z (list Operation)) := state_after 9 [(0, cmd_begin); (1, cmd_begin); (2, cmd_begin); (0, cmd_update 5); (1, cmd_update 5)].
Lemma waiting_writer_loops_witness : tryRunningBlocked 60 demo_loop = Fuel ∧ tryRunningBlocked 7 demo_loop = Fuel.
Proof.
  cut (∀ fuel, tryRunningBlocked fuel demo_loop = Fuel); [intros Hf; split; apply Hf|].
  eapply (waiting_writer_loops 1 (mk_info 1 TRANSACTION_BLOCKED [update_5]) update_5 [] demo_loop); [vm_compute; reflexivity|reflexivity| |reflexivity|reflexivity|].
  - intros y j Hy Hj. assert (y ∈ map_keys (transactions demo_loop)) as Hin by (apply elem_of_keys; by exists j).
    assert (map_keys (transactions demo_loop) = [0; 1; 2]) as Ek by (vm_compute; reflexivity). rewrite Ek in Hin. rewrite !elem_of_cons, elem_of_nil in Hin. destruct Hin as [->|[->|[->|[]]]]; [|done|]; vm_compute in Hy; injection Hy as <-; discriminate Hj.
  - exists 0, []. intros [n g ts l d st] El Ed Eg. cbn in El, Ed, Eg. subst. split; vm_compute; reflexivity.
Defined.
Definition commit_op : Operation := mk_op COMMIT [] 0 [] 0 [].
(** 1 has done all that waited but its commit. *)
Definition demo_last : sched (gmap Z (list Operation)) :=
  let s := state_after 9 (demo_begun ++ demo_rest ++ [(1, cmd_commit)]) in
  put_transactions (<[1 := mk_info 1 TRANSACTION_RUNNING [commit_op]]> (transactions s)) s.
Lemma ends_with_locks_witness :
  (∃ s', blocked_op (tryRunningBlocked 9) 1 commit_op demo_last = Ret false s' ∧ record_type (lk s') [84] 6 1 = Some WRITE_LOCK ∧
     status_of 1 s' = Some TRANSACTION_COMMITTED) ∧
  (∃ s', Quit 0 demo_state = Ret tt s' ∧ record_type (lk s') [84] 5 0 = Some WRITE_LOCK).
Proof.
  split.
  - destruct (blocked_op (tryRunningBlocked 9) 1 commit_op demo_last) as [b s'|c s'| |] eqn:E; [|vm_compute in E; discriminate E..].
    exists s'. destruct (proj1 (ends_with_locks 1 demo_last) _ commit_op b s' eq_refl E) as [El Es]. rewrite El, Es.
    split; [|split; [vm_compute; reflexivity|reflexivity]]. destruct b; [vm_compute in E; discriminate E|done].
  - destruct (Quit 0 demo_state) as [[] s'|c s'| |] eqn:E; [|vm_compute in E; discriminate E..].
    exists s'. destruct (proj2 (ends_with_locks 0 demo_state) s' E) as [El _]. rewrite El. split; [done|vm_compute; reflexivity].
Defined.
